(* ===== verification/_CoqProject ===== *)
-Q . S2P
Prelude.v
RingView.v
RingBuffer.v
RingSpsc.v
ByteBuffer.v
Memory.v
Align.v
Refinement.v
Shmem.v
ShmemSpec.v
Operation.v
PrioRing.v
SocketRegion.v
Lwip.v
Pbuf.v
Stack.v
StackSpec.v
StackExample.v
StackLoop.v
StackWrite.v
StackRecv.v
LinkedList.v
PrioThread.v
Regions.v
Discovery.v
Socket.v
SocketSpec.v
Client.v
Wait.v
PbufCopy.v
ByteOrder.v
Checksum.v
ChecksumPbuf.v
Threads.v
System.v
Delivery.v
PbufRef.v
PbufAlloc.v
PbufTrim.v
PbufMove.v
Heap.v
HeapSpec.v
HeapClient.v
Memp.v
MempClient.v
MempIface.v
Timeouts.v
Schedule.v
ScheduleCheck.v
TimeoutsSpec.v
TimeoutsClient.v
TimeoutsCyclic.v
TcpPcb.v
TcpOut.v
Tcp.v
TcpIn.v
TcpWp.v
TcpLists.v
TcpInv.v
TcpSteps.v
TcpPools.v
TcpRemove.v
TcpWork.v
TcpClose.v
TcpAlloc.v
TcpBind.v
TcpOpen.v
TcpApi.v
TcpServe.v
TcpEvents.v
TcpProcess.v
TcpDeliver.v
TcpDemux.v
TcpInput.v
TcpExample.v
TcpSafe.v
TcpBindSpec.v
TcpAllocSpec.v
