(* ===== verification/Prelude.v ===== *)
(** * pifus: a model of a user-space TCP stack shared by processes, and its proofs

    pifus splits a network stack over processes.  An application links a client
    library ([src/api/]); a stack process ([src/lwip/custom/]) owns lwIP
    ([src/lwip/src/]).  They share memory and nothing else.  A client registers
    an application, creates sockets, and submits operations (bind, listen,
    accept, connect, write, recv, close) into the submission queue of a socket;
    the stack moves them to lwIP and puts a result into the completion queue of
    the socket, where the client finds it.  Payloads are in blocks of the
    application's region, handed from one side to the other by offset.

    ** The parts, and the files that model them

    Shared data structures ([src/api/src/]):
    - [RingView]: the indices of a circular buffer and the list it stands for,
      shared by the next three files;
    - [RingBuffer]: [pifus_ring_buffer.c], the eight generated functions, for
      any element type; [RingSpsc]: [put] and [get] cut at each access to
      shared memory, one producer and one consumer interleaved;
    - [ByteBuffer]: [pifus_byte_buffer.c], the bytes received before anybody
      asked for them;
    - [Memory], [Shmem], [ShmemSpec]: [pifus_shmem.c], the block allocator of an
      application's region over its bytes, mapped at some address [app] so that
      sums of addresses wrap around, and its specification on lists of blocks;
    - [Operation]: the data that travels ([pifus_operation.h], [pifus_qos.h],
      [pifus_ip.h]); [PrioRing]: the transmit queue by priority
      ([pifus_priority_aware_ring_buffer.c]); [SocketRegion]:
      [struct pifus_socket].

    The stack process ([src/lwip/custom/stack/src/]):
    - [Lwip]: the functions of lwIP the stack calls, as a class with no laws;
    - [Stack]: [stack.c] and [tcp/*.c], every transmit operation, every callback
      and the loop that serves the transmit queue; [StackSpec], [StackLoop],
      [StackWrite], [StackRecv] prove what they do, [StackExample] is an lwIP
      and a stack to apply the theorems to;
    - [LinkedList]: [list/linked_list.c] over a heap of nodes; [PrioThread]:
      [prio_thread.c]; [Regions]: the names and the views of shared memory
      objects; [Discovery]: [discovery.c];
    - [Threads]: the main loop, the loop of a transmit thread and the submission
      of a client cut at each access to the counters and queues they share, and
      with the discovery thread and the callbacks as one transition system
      ([system_step]); [System]: its invariant; [Delivery]: the way of an operation through it, from the client that
      submits it to its handler.

    The client library ([src/api/src/]):
    - [Socket], [SocketSpec]: [pifus_socket.c], the calls of the interface and
      what they promise; [Client]: [pifus.c], registration and the callback
      thread; [Wait]: [pifus_socket_wait] against the stack, interleaved.

    The packet layer of lwIP under the stack ([src/lwip/src/core/]):
    - [Pbuf], [PbufCopy]: [pbuf.c], reading, writing, comparing and searching
      the payload of a chain; [PbufRef]: its reference counts; [PbufAlloc]:
      allocation and headers; [PbufTrim]: trimming at either end; [PbufMove]:
      copies from one chain to another;
    - [ByteOrder], [Checksum], [ChecksumPbuf]: [def.c] and [inet_chksum.c];
    - [Align]: alignment of sizes and addresses ([arch.h]) and the statistics of
      memory ([stats.h]);
    - [Heap], [HeapSpec], [HeapClient]: [mem.c] over its bytes, the list of
      blocks it stands for, and the map from live blocks to their contents its
      callers see; [Memp], [MempClient]: [memp.c], the same for the pools.
      [Refinement] is the simulation both prove;
    - [MempIface]: what a client of the pools may rely on, a class of operations
      with its laws, and the instance [memp.c] is;
    - [Timeouts]: [timeouts.c] over the pool of its timers, written against that
      class; [Schedule], [ScheduleCheck]: the schedule it keeps, a list ordered
      by time; [TimeoutsSpec]: the linked list in the pool stands for it;
      [TimeoutsClient], [TimeoutsCyclic]: what callers of the timers may expect.

    TCP in lwIP ([src/lwip/src/core/tcp*.c]):
    - the model: [TcpPcb], the control blocks in the memory of their pools and
      the lists threaded through them ([tcp_priv.h]); [TcpOut], [tcp_out.c];
      [Tcp], [tcp.c]; [TcpIn], [tcp_in.c], with the callbacks of the application;
    - the calculus: [TcpWp], weakest preconditions of actions, and actions that
      touch one connection; [TcpLists], lists as chains of blocks;
    - the invariant [Inv] in [TcpInv], [TcpSteps] what single steps do to it,
      and a file per group of operations that shows what they make of it:
      [TcpPools], [TcpRemove], [TcpWork], [TcpClose], [TcpAlloc], [TcpBind],
      [TcpOpen]; [TcpApi]: all calls of the raw interface;
    - input: [TcpServe], the connection in the hands of the input, [TcpEvents]
      the callbacks, [TcpProcess] the state machine, [TcpDeliver] what follows
      it, [TcpDemux] the searches, [TcpInput] the whole of [tcp_input];
    - [TcpExample] a world and an application, [TcpSafe] the reachable states
      and what holds in them, [TcpBindSpec] and [TcpAllocSpec] what binding and
      allocating do.

    ** State and effects

    C integers are [Z] with the wrap-around written at the operations that need
    it ([u8], [u16], [u32], [u64], [i64] of this file).  Functions take and
    return the state they change.  A call that can go wrong returns an [outcome]:
    a value, undefined behaviour, the end of the process with a status, or lack
    of fuel.  Arrays and regions are functions from indices, heaps are finite
    maps, and reading an address that is not in a heap is undefined.  What
    crosses the border of the program ([malloc], [shm_open], [mmap], the futex
    calls, lwIP where it is a class, what the other side wrote meanwhile) is an
    argument of the definition that meets it, so the theorems hold whatever it
    answers.

    ** What the theorems show

    - Refinement: ring buffers are bounded queues, the byte buffer is a bounded
      stream, for every sequence of operations; the linked list is a list with an
      iterator, for every sequence in which an empty list is not reversed and the
      iterator is not used after a change ([calls_ok]); the ring hands over every element exactly once in every interleaving of its
      two sides.
    - The allocator finds the first block that fits, splits it, merges it with
      its free neighbours when it is freed, and keeps the blocks apart, for
      positive sizes with which no address wraps around ([size_ok]); where the
      back links of freed blocks go wrong, what that leads to, and what sizes of
      zero and near 2^64 do.
    - The stack: an iteration of the main loop ends, and returns when [tcp_new]
      never answers [NULL] and the queued operations can be served; it serves the
      queue by priority and accounts for each operation; a received stream reaches the
      client complete and in order; writes are reported when they have been
      acknowledged; an operation that fails puts a result with the error.
    - The system: every interleaving of the steps of loop, callbacks, threads and
      clients keeps the shared state well formed and the counters exact up to the
      operation a thread has in hand, no socket has more than ten operations that
      are not counted as dequeued, and every operation submitted is handled exactly
      once or still on its way.
    - The client: a call submits one operation with its data in a block of its
      own, or changes nothing; the block of a write goes back when its result
      arrives, if the back links are right then; no wake-up is lost; the threads wait on exactly the queues they serve.
    - Packets: the three checksum loops are the sum of RFC 1071 in every
      alignment and segmentation; what is written into a chain is read back; a
      search finds the first occurrence; the reference count of a pbuf is the
      number of pointers to it; allocation gives a packet of the caller's own
      or loses nothing, and headers, trimming and copies keep exactly the bytes
      they should.
    - Memory of lwIP: for every sequence of calls that keeps to the interface
      the heap and the pools are maps from live blocks to their bytes, which
      memory holds after the sequence; no call fails an assertion or touches a block it was not given; the heap takes the
      first block that fits and is whole again when everything was freed; what
      calls outside the interface do.
    - Timers: for every sequence of calls within the contract the list in the
      pool is the schedule; a call of [sys_check_timeouts] returns, runs what is
      due and nothing else, in order of time; the cyclic timers of lwIP are armed
      exactly once each, whatever the handlers do.  The contract is that time
      since the last check stays below six days, delays below 2^30 ms, and
      that there is a timer for everybody who asks (17 in the pool).
    - TCP: in every state reached by calls of the raw interface and by segments
      the control blocks are consistent, what [tcp_priv.h] calls the axioms about
      the lists among it, and each further call and segment is processed to the
      end without touching a freed block or failing an assertion of the modelled
      functions.  This relies on the contract of callbacks ([TcpAppLaws]): one that
      aborts its connection answers [ERR_ABRT], and only then, and does so only
      while a segment of the connection is processed (after data that was refused
      before, tcp_in.c:427 reads the freed block), and otherwise changes its state
      by closing only; on what receiving and cutting data into segments leave on
      the queues ([TcpReceiveLaws], [TcpEnvLaws]: segments that are sent carry data
      or a SYN or FIN and no RST, and [snd_queuelen] counts their buffers); on
      listeners having a callback of the application, since [tcp_accept_null]
      fails an assertion when the pool is empty; and on a block being bound only
      once.  Where a segment goes;
      all outcomes of binding and of allocating a block; which connection is
      given up for a new one; what binding twice and an unlucky random number do.

    ** Fuel

    Loops that are not structural carry fuel, which each definition computes
    from the state: the slots of a ring, the length of the transmit queue, the
    size of a heap, the blocks a region can hold ([heap_fuel], 514 for the heap
    of lwIP), the timers of the pool ([timeout_fuel], 18 steps along the list,
    and [check_fuel], 35 handlers in one check), one more than there are control
    blocks in use ([list_fuel]), the ports of the range ([new_port_fuel], 16384),
    the segments that wait to be sent.  Theorems such as [tcp_never_stuck],
    [lwip_loop_iteration_returns], [pbuf_refcounts_exact] and [pbuf_memfind_first]
    say that the result is never lack of fuel.

    ** Not modelled

    - [main] and the functions that only start threads, format log lines or
      write to an event descriptor ([signal_tx_interrupt], [start_*_thread],
      [print_memory]); the system calls themselves; the mutex around the
      allocator of the client (each call of the allocator is one step).
    - Weak memory: interleavings are sequentially consistent.  In [Threads] a call
      of a ring buffer, [process_tx_op], a callback and the mapping of a socket are
      one step each; [RingSpsc] and [Wait] look inside [put], [get] and the wait.
    - In lwIP: IP and the interfaces.  Of TCP: the timers ([tcp_slowtmr],
      [tcp_fasttmr]), the checks of the header, how [tcp_receive] trims data and
      counts acknowledgements, how [tcp_write] cuts data into segments, the bytes
      of headers and options (these are arguments of the model, the class
      [TcpEnv]).  Of [pbuf.c], what reclaims out-of-sequence TCP segments.  The
      benchmarks and examples of the repository, and the parts of lwIP the stack
      does not use (sockets, applications, PPP).

    This file holds the machine integers, the outcome monad, the automation and
    the lemmas on lists and arrays the other files share. *)
From stdpp Require Export base list numbers gmap functions strings.
From stdpp Require Export options.

Open Scope Z_scope.

(** ** Machine integers *)

(** The C unsigned types are integers kept in range by an explicit
    wrap-around. *)
Definition u8 (z : Z) : Z := z mod 256.
Definition u16 (z : Z) : Z := z mod 65536.
Definition u32 (z : Z) : Z := z mod 4294967296.
Definition u64 (z : Z) : Z := z mod 18446744073709551616.

(** A 64-bit pattern read as [int64_t] ([block_offset_t]). *)
Definition i64 (z : Z) : Z :=
  let w := u64 z in
  if w <? 9223372036854775808 then w else w - 18446744073709551616.

(** Conversion of a C truth value to an integer. *)
Definition int_of_bool (b : bool) : Z := if b then 1 else 0.

Lemma u8_small z : 0 <= z < 256 -> u8 z = z.
Proof. apply Z.mod_small. Qed.
Lemma u16_small z : 0 <= z < 65536 -> u16 z = z.
Proof. apply Z.mod_small. Qed.
Lemma u32_small z : 0 <= z < 4294967296 -> u32 z = z.
Proof. apply Z.mod_small. Qed.
Lemma u64_small z : 0 <= z < 18446744073709551616 -> u64 z = z.
Proof. apply Z.mod_small. Qed.

Lemma u8_range z : 0 <= u8 z < 256.
Proof. by apply Z.mod_pos_bound. Qed.
Lemma u16_range z : 0 <= u16 z < 65536.
Proof. by apply Z.mod_pos_bound. Qed.
Lemma u32_range z : 0 <= u32 z < 4294967296.
Proof. by apply Z.mod_pos_bound. Qed.
Lemma u64_range z : 0 <= u64 z < 18446744073709551616.
Proof. by apply Z.mod_pos_bound. Qed.

Lemma u64_idem z : u64 (u64 z) = u64 z.
Proof. unfold u64. by rewrite Z.mod_mod. Qed.

Lemma i64_small z :
  -9223372036854775808 <= z < 9223372036854775808 -> i64 z = z.
Proof.
  intros Hz. unfold i64, u64.
  destruct (Z.leb_spec 0 z).
  - rewrite Z.mod_small by lia. case (Z.ltb_spec z 9223372036854775808); lia.
  - rewrite <- (Z.mod_unique z 18446744073709551616 (-1)
      (z + 18446744073709551616)) by lia.
    case (Z.ltb_spec (z + 18446744073709551616) 9223372036854775808); lia.
Qed.

(** Case analysis on every integer test of the goal, and the routine closing
    of the arithmetic it leaves. *)
Ltac ztest :=
  repeat match goal with
  | |- context [?x =? ?y] => destruct (Z.eqb_spec x y)
  | |- context [?x <? ?y] => destruct (Z.ltb_spec x y)
  | |- context [?x <=? ?y] => destruct (Z.leb_spec x y)
  | H : context [?x =? ?y] |- _ => destruct (Z.eqb_spec x y)
  | H : context [?x <? ?y] |- _ => destruct (Z.ltb_spec x y)
  | H : context [?x <=? ?y] |- _ => destruct (Z.leb_spec x y)
  end.

Ltac ztests := ztest; simplify_eq/=; try lia; try done.

Create HintDb pifus.
#[export] Hint Resolve u8_range u16_range u32_range u64_range : pifus.

(** ** C arrays *)

(** An array is a total map from indices: C does not check bounds. What the
    code may touch is the subject of the frame and bounds theorems. *)
Definition arr (A : Type) : Type := Z -> A.

Section arrays.
Context {A : Type}.
Implicit Types (a src dst : arr A) (i n : Z).

(** [n] elements from index [i]. *)
Definition slice a i n : list A := a <$> seqZ i n.

(** [memcpy(&dst[d], &src[s], n)]. *)
Definition memcpy dst (d : Z) src (s n : Z) : arr A :=
  fun x => if (d <=? x) && (x <? d + n) then src (s + (x - d)) else dst x.

(** [memset(&dst[d], v, n)]. *)
Definition memset dst (d : Z) (v : A) (n : Z) : arr A :=
  fun x => if (d <=? x) && (x <? d + n) then v else dst x.

Lemma length_slice a i n : length (slice a i n) = Z.to_nat n.
Proof. unfold slice. by rewrite length_fmap, length_seqZ. Qed.

Lemma slice_nil a i n : n <= 0 -> slice a i n = [].
Proof. intros. unfold slice. by rewrite seqZ_nil. Qed.

Lemma lookup_slice a i n k :
  Z.of_nat k < n -> slice a i n !! k = Some (a (i + Z.of_nat k)).
Proof. intros. unfold slice. by rewrite list_lookup_fmap, lookup_seqZ_lt. Qed.

Lemma slice_cons a i n : 0 < n -> slice a i n = a i :: slice a (i + 1) (n - 1).
Proof. intros. unfold slice. by rewrite seqZ_cons. Qed.

Lemma slice_app a i n m :
  0 <= n -> 0 <= m -> slice a i (n + m) = slice a i n ++ slice a (i + n) m.
Proof. intros. unfold slice. by rewrite seqZ_app, fmap_app. Qed.

Lemma slice_split a i n m :
  0 <= n <= m -> slice a i m = slice a i n ++ slice a (i + n) (m - n).
Proof. intros. rewrite <- slice_app by lia. f_equal; lia. Qed.

Lemma slice_snoc a i n :
  0 <= n -> slice a i (n + 1) = slice a i n ++ [a (i + n)].
Proof.
  intros. rewrite slice_app by lia. by rewrite (slice_cons a (i + n) 1) by lia.
Qed.

Lemma slice_ext a a' i i' n :
  (forall k, 0 <= k < n -> a (i + k) = a' (i' + k)) ->
  slice a i n = slice a' i' n.
Proof.
  intros Heq. apply list_eq_same_length with (n := Z.to_nat n);
    rewrite ?length_slice; [done..|].
  intros k x y Hk. rewrite !lookup_slice by lia. intros. simplify_eq.
  apply Heq. lia.
Qed.

Lemma memcpy_in dst d src s n x :
  d <= x < d + n -> memcpy dst d src s n x = src (s + (x - d)).
Proof. intros. unfold memcpy. by ztests. Qed.

Lemma memcpy_out dst d src s n x :
  ~ d <= x < d + n -> memcpy dst d src s n x = dst x.
Proof. intros. unfold memcpy. by ztests. Qed.

Lemma memset_in dst d v n x : d <= x < d + n -> memset dst d v n x = v.
Proof. intros. unfold memset. by ztests. Qed.

Lemma memset_out dst d v n x : ~ d <= x < d + n -> memset dst d v n x = dst x.
Proof. intros. unfold memset. by ztests. Qed.

Lemma slice_memcpy_same dst d src s n :
  slice (memcpy dst d src s n) d n = slice src s n.
Proof. apply slice_ext. intros. rewrite memcpy_in by lia. f_equal. lia. Qed.

Lemma slice_memcpy_other dst d src s n i m :
  i + m <= d \/ d + n <= i -> slice (memcpy dst d src s n) i m = slice dst i m.
Proof. intros. apply slice_ext. intros. apply memcpy_out. lia. Qed.

Lemma take_slice a i n k :
  take k (slice a i n) = slice a i (Z.min (Z.of_nat k) n).
Proof.
  destruct (Z.leb_spec n (Z.of_nat k)).
  - rewrite Z.min_r by lia. apply take_ge. rewrite length_slice. lia.
  - destruct (Z.leb_spec 0 n); [|lia].
    rewrite Z.min_l, (slice_split a i (Z.of_nat k) n) by lia.
    apply take_app_length'. rewrite length_slice. lia.
Qed.

Lemma drop_slice a i n k :
  drop k (slice a i n) = slice a (i + Z.of_nat k) (n - Z.of_nat k).
Proof.
  destruct (Z.leb_spec n (Z.of_nat k)).
  - rewrite (slice_nil a (i + Z.of_nat k)) by lia.
    apply drop_ge. rewrite length_slice. lia.
  - rewrite (slice_split a i (Z.of_nat k) n) by lia.
    apply drop_app_length'. rewrite length_slice. lia.
Qed.
End arrays.

Create Rewrite HintDb pifus_rw.
#[export] Hint Rewrite @length_slice @slice_memcpy_same : pifus_rw.

(** An array that starts with the elements of a list. *)
Definition arr_of_list {A} (d : A) (l : list A) : arr A :=
  fun i => if i <? 0 then d else default d (l !! Z.to_nat i).

Lemma slice_arr_of_list {A} (d : A) (l : list A) n :
  0 <= n <= Z.of_nat (length l) ->
  slice (arr_of_list d l) 0 n = take (Z.to_nat n) l.
Proof.
  intros Hn. apply list_eq_same_length with (n := Z.to_nat n);
    rewrite ?length_take, ?length_slice; [lia..|].
  intros k x y Hk. rewrite lookup_slice, lookup_take_lt by lia.
  intros [= <-] Hy. unfold arr_of_list.
  destruct (Z.ltb_spec (0 + Z.of_nat k) 0); [lia|].
  replace (Z.to_nat (0 + Z.of_nat k)) with k by lia. by rewrite Hy.
Qed.

Lemma arr_insert_eq {A} (a : arr A) i x : <[i := x]> a i = x.
Proof. apply fn_lookup_insert. Qed.

Lemma arr_insert_ne {A} (a : arr A) i j x : i <> j -> <[i := x]> a j = a j.
Proof. apply fn_lookup_insert_ne. Qed.

(** ** Outcomes of C code *)

(** A body returns, ends the process with [exit], or reaches what C leaves
    undefined (a null or dangling pointer is dereferenced).  [NoFuel] is a loop
    or recursion that was cut short; the theorems show it does not happen. *)
Inductive outcome (A : Type) : Type :=
  | Ret (a : A)
  | Exited (code : Z)
  | Undefined
  | NoFuel.
Arguments Ret {A} a.
Arguments Exited {A} code.
Arguments Undefined {A}.
Arguments NoFuel {A}.

#[export] Instance outcome_ret : MRet outcome := fun A a => Ret a.
#[export] Instance outcome_bind : MBind outcome := fun A B f o =>
  match o with
  | Ret a => f a
  | Exited c => Exited c
  | Undefined => Undefined
  | NoFuel => NoFuel
  end.

(** Dereferencing a pointer, [None] being [NULL]. *)
Definition deref {A} (p : option A) : outcome A :=
  match p with Some a => Ret a | None => Undefined end.

(** The loop that could not finish in the steps given to it. *)
Definition fueled {A} (p : option A) : outcome A :=
  match p with Some a => Ret a | None => NoFuel end.

(** ** Sums over lists *)

Lemma sum_list_with_insert {A} (f : A -> nat) (l : list A) (k : nat) x y :
  l !! k = Some x ->
  (sum_list_with f (<[k := y]> l) + f x = sum_list_with f l + f y)%nat.
Proof.
  revert k. induction l as [|z l IH]; intros [|k] Hk; simplify_eq/=; [lia|].
  specialize (IH k Hk). lia.
Qed.

Lemma lookup_app_plus {A} (l1 l2 : list A) i : (l1 ++ l2) !! (length l1 + i)%nat = l2 !! i.
Proof. rewrite lookup_app_r by lia. f_equal. lia. Qed.
