(* ===== verification/RingView.v ===== *)
(** * The index arithmetic of a circular buffer

    [struct pifus_byte_buffer] and the macro-generated ring buffers keep the
    same three indices: the slot written next ([head]), the slot read next
    ([tail]) and the number of slots ([end]).  This file relates such a triple
    and its array to the list of elements the buffer stands for; both
    components are proved against it. *)
From S2P Require Import Prelude.

(** The slot after [i] in an array of [e] slots. *)
Definition next_slot (e i : Z) : Z := if i + 1 =? e then 0 else i + 1.

Record ring_view := RingView { rv_end : Z; rv_head : Z; rv_tail : Z }.

(** Both indices address a slot, and the number of slots is a [uint16_t]. *)
Definition rv_wf (v : ring_view) : Prop :=
  rv_end v < 65536 /\ 0 <= rv_head v < rv_end v /\ 0 <= rv_tail v < rv_end v.

#[export] Instance rv_wf_dec v : Decision (rv_wf v).
Proof. unfold rv_wf. apply _. Defined.

(** How many slots are occupied. One slot always stays free. *)
Definition rv_count (v : ring_view) : Z :=
  if rv_tail v <=? rv_head v then rv_head v - rv_tail v
  else rv_end v - rv_tail v + rv_head v.

Definition rv_capacity (v : ring_view) : Z := rv_end v - 1.
Definition rv_free (v : ring_view) : Z := rv_capacity v - rv_count v.

(** The slot [k] places after [i]. *)
Definition slot_after (e i k : Z) : Z :=
  if i + k <? e then i + k else i + k - e.

Definition rv_slot (v : ring_view) (k : Z) : Z :=
  slot_after (rv_end v) (rv_tail v) k.

(** Where the indices are after [n] elements entered, or left. *)
Definition rv_push (v : ring_view) (n : Z) : ring_view :=
  RingView (rv_end v) (slot_after (rv_end v) (rv_head v) n) (rv_tail v).
Definition rv_pop (v : ring_view) (n : Z) : ring_view :=
  RingView (rv_end v) (rv_head v) (slot_after (rv_end v) (rv_tail v) n).

Ltac ring_arith :=
  unfold rv_wf, rv_push, rv_pop, rv_free, rv_capacity, rv_count, rv_slot,
    slot_after, next_slot
    in *; simpl in *; ztests.

Lemma slot_after_0 e i : i < e -> slot_after e i 0 = i.
Proof. intros. ring_arith. Qed.

Lemma slot_after_1 e i : i < e -> slot_after e i 1 = next_slot e i.
Proof. intros. ring_arith. Qed.

Lemma slot_after_next e i k :
  0 <= i < e -> 0 <= k -> k + 1 <= e ->
  slot_after e (next_slot e i) k = slot_after e i (k + 1).
Proof. intros. ring_arith. Qed.

Lemma slot_after_inj e i k k' :
  0 <= i < e -> 0 <= k < e -> 0 <= k' < e ->
  slot_after e i k = slot_after e i k' -> k = k'.
Proof. intros. ring_arith. Qed.

Lemma rv_count_bounds v : rv_wf v -> 0 <= rv_count v <= rv_capacity v.
Proof. intros. ring_arith. Qed.

Lemma rv_slot_bounds v k :
  rv_wf v -> 0 <= k < rv_end v -> 0 <= rv_slot v k < rv_end v.
Proof. intros. ring_arith. Qed.

Lemma rv_head_slot v : rv_wf v -> rv_slot v (rv_count v) = rv_head v.
Proof. intros. ring_arith. Qed.

Lemma rv_count_zero v : rv_wf v -> rv_count v = 0 <-> rv_head v = rv_tail v.
Proof. intros. ring_arith. Qed.

Lemma rv_full v :
  rv_wf v -> next_slot (rv_end v) (rv_head v) = rv_tail v <-> rv_free v = 0.
Proof. intros. ring_arith. Qed.

Lemma rv_push_wf v n : rv_wf v -> 0 <= n <= rv_free v -> rv_wf (rv_push v n).
Proof. intros. ring_arith. Qed.

Lemma rv_push_count v n :
  rv_wf v -> 0 <= n <= rv_free v -> rv_count (rv_push v n) = rv_count v + n.
Proof. intros. ring_arith. Qed.

Lemma rv_pop_wf v n : rv_wf v -> 0 <= n <= rv_count v -> rv_wf (rv_pop v n).
Proof. intros. ring_arith. Qed.

Lemma rv_pop_count v n :
  rv_wf v -> 0 <= n <= rv_count v -> rv_count (rv_pop v n) = rv_count v - n.
Proof. intros. ring_arith. Qed.

Lemma rv_pop_slot v n k :
  rv_wf v -> 0 <= n <= rv_count v -> 0 <= k <= rv_count v - n ->
  rv_slot (rv_pop v n) k = rv_slot v (n + k).
Proof. intros. ring_arith. Qed.

#[export] Hint Resolve rv_push_wf rv_pop_wf : pifus.

(** Lengths of contents and counts of moved views, down to arithmetic. *)
Ltac ring_len tac :=
  tac; rewrite ?rv_pop_count, ?rv_push_count by (done || lia); lia.

(** ** The elements of the buffer, oldest first *)

Section contents.
Context {A : Type}.
Implicit Types (v : ring_view) (a : arr A).

Definition rv_contents v a : list A :=
  (fun k => a (rv_slot v k)) <$> seqZ 0 (rv_count v).

Lemma rv_contents_length v a : length (rv_contents v a) = Z.to_nat (rv_count v).
Proof. unfold rv_contents. by rewrite length_fmap, length_seqZ. Qed.

Lemma rv_contents_lengthZ v a :
  rv_wf v -> Z.of_nat (length (rv_contents v a)) = rv_count v.
Proof.
  intros Hwf. rewrite rv_contents_length. pose proof (rv_count_bounds v Hwf). lia.
Qed.

Lemma rv_contents_lookup v a k :
  Z.of_nat k < rv_count v ->
  rv_contents v a !! k = Some (a (rv_slot v (Z.of_nat k))).
Proof. intros. unfold rv_contents. by rewrite list_lookup_fmap, lookup_seqZ_lt. Qed.

Lemma rv_contents_empty v a : rv_wf v -> rv_head v = rv_tail v -> rv_contents v a = [].
Proof.
  intros Hwf Heq%rv_count_zero; [|done].
  unfold rv_contents. by rewrite seqZ_nil by lia.
Qed.

Lemma rv_contents_nonempty v a :
  rv_wf v -> rv_head v <> rv_tail v ->
  rv_contents v a = a (rv_tail v) :: rv_contents (rv_pop v 1) a.
Proof.
  intros Hwf Hne. assert (0 < rv_count v) by ring_arith.
  apply list_eq. intros [|k].
  - rewrite rv_contents_lookup by done. simpl. repeat f_equal. ring_arith.
  - simpl. destruct (Z.ltb_spec (Z.of_nat (S k)) (rv_count v)).
    + rewrite !rv_contents_lookup by ring_len idtac.
      rewrite rv_pop_slot by (done || lia). do 3 f_equal. lia.
    + rewrite !lookup_ge_None_2; [done| |];
        ring_len ltac:(rewrite rv_contents_length).
Qed.

(** The array may change anywhere but in the occupied slots. *)
Lemma rv_contents_ext v a a' :
  (forall k, 0 <= k < rv_count v -> a (rv_slot v k) = a' (rv_slot v k)) ->
  rv_contents v a = rv_contents v a'.
Proof.
  intros Heq. unfold rv_contents. apply list_fmap_ext.
  intros i k [-> ?]%lookup_seqZ. apply Heq. lia.
Qed.

(** Entering the elements [l] at the head appends them. *)
Lemma rv_contents_push v a a' l :
  rv_wf v -> Z.of_nat (length l) <= rv_free v ->
  (forall k, 0 <= k < rv_count v -> a' (rv_slot v k) = a (rv_slot v k)) ->
  (forall k x, l !! k = Some x ->
     a' (slot_after (rv_end v) (rv_head v) (Z.of_nat k)) = x) ->
  rv_contents (rv_push v (Z.of_nat (length l))) a' = rv_contents v a ++ l.
Proof.
  intros Hwf Hfree Hold Hnew. pose proof (rv_count_bounds v Hwf).
  apply list_eq. intros k.
  destruct (Z.ltb_spec (Z.of_nat k) (rv_count v + Z.of_nat (length l))).
  - rewrite rv_contents_lookup by ring_len idtac.
    destruct (Z.ltb_spec (Z.of_nat k) (rv_count v)) as [Hk|Hk].
    + rewrite lookup_app_l by (rewrite rv_contents_length; lia).
      rewrite rv_contents_lookup by done. f_equal. by apply Hold; lia.
    + rewrite lookup_app_r by (rewrite rv_contents_length; lia).
      destruct (lookup_lt_is_Some_2 l (k - length (rv_contents v a))) as [x Hx].
      { rewrite rv_contents_length. lia. }
      rewrite Hx. f_equal. apply Hnew in Hx as <-.
      f_equal. rewrite rv_contents_length. clear Hold Hnew. ring_arith.
  - rewrite !lookup_ge_None_2; [done| |];
      ring_len ltac:(rewrite ?length_app, !rv_contents_length).
Qed.

(** Letting [n] elements leave at the tail drops them. *)
Lemma rv_contents_pop v a n :
  rv_wf v -> 0 <= n <= rv_count v ->
  rv_contents (rv_pop v n) a = drop (Z.to_nat n) (rv_contents v a).
Proof.
  intros Hwf Hn. apply list_eq. intros k. rewrite lookup_drop.
  destruct (Z.ltb_spec (Z.of_nat k) (rv_count v - n)).
  - rewrite !rv_contents_lookup by ring_len idtac.
    rewrite rv_pop_slot by (done || lia). do 3 f_equal. lia.
  - rewrite !lookup_ge_None_2; [done| |];
      ring_len ltac:(rewrite rv_contents_length).
Qed.
End contents.
