(* ===== verification/RingBuffer.v ===== *)
(** * The lock-free ring buffers ([api/src/pifus_ring_buffer.c])

    [RING_BUFFER_SOURCE_DEFS] generates one copy of these functions per
    element type; the model is polymorphic in the element type instead.  A
    pointer into the buffer ([*pel = &buf[tail]]) is the index of its slot. *)
From S2P Require Import Prelude RingView.

(** [RING_BUFFER_STRUCT]. *)
Record ring_buffer := RingBuffer { rb_end : Z; rb_head : Z; rb_tail : Z }.

Definition ring_buffer_create (buffer_length : Z) : ring_buffer :=
  {| rb_end := buffer_length; rb_head := 0; rb_tail := 0 |}.

(** [ring_buffer->head = head] and [ring_buffer->tail = tail]. *)
Definition rb_set_head (rb : ring_buffer) (head : Z) : ring_buffer :=
  RingBuffer (rb_end rb) head (rb_tail rb).
Definition rb_set_tail (rb : ring_buffer) (tail : Z) : ring_buffer :=
  RingBuffer (rb_end rb) (rb_head rb) tail.

Section ops.
Context {A : Type}.
Implicit Types (rb : ring_buffer) (buf : arr A).

Definition ring_buffer_put rb buf (el : A) : bool * ring_buffer * arr A :=
  let head := u16 (rb_head rb + 1) in
  let head := if head =? rb_end rb then 0 else head in
  if negb (head =? rb_tail rb) then
    (true, rb_set_head rb head, <[rb_head rb := el]> buf)
  else (false, rb, buf).

(** [None] is the return value [false]; [Some x] is [true] with [*pel = x]. *)
Definition ring_buffer_get rb buf : option A * ring_buffer :=
  let tail := rb_tail rb in
  if negb (rb_head rb =? tail) then
    let pel := buf tail in
    let tail := u16 (tail + 1) in
    let tail := if tail =? rb_end rb then 0 else tail in
    (Some pel, rb_set_tail rb tail)
  else (None, rb).

Definition ring_buffer_find_loop (satisfies : A -> bool) rb buf :=
  fix loop (fuel : nat) (tail : Z) : option (option Z) :=
    match fuel with
    | O => None
    | S fuel =>
        if negb (rb_head rb =? tail) then
          if satisfies (buf tail) then Some (Some tail)
          else
            let tail := u16 (tail + 1) in
            let tail := if tail =? rb_end rb then 0 else tail in
            loop fuel tail
        else Some None
    end.

(** The loop runs at most once per slot; [None] would be divergence. *)
Definition ring_buffer_find rb buf (satisfies : A -> bool) : option (option Z) :=
  ring_buffer_find_loop satisfies rb buf (Z.to_nat (rb_end rb)) (rb_tail rb).
End ops.

Definition ring_buffer_peek (rb : ring_buffer) : option Z :=
  let tail := rb_tail rb in
  if negb (rb_head rb =? tail) then Some tail else None.

Definition ring_buffer_erase_first (rb : ring_buffer) : bool * ring_buffer :=
  let tail := rb_tail rb in
  if negb (rb_head rb =? tail) then
    let tail := u16 (tail + 1) in
    let tail := if tail =? rb_end rb then 0 else tail in
    (true, rb_set_tail rb tail)
  else (false, rb).

Definition ring_buffer_is_full (rb : ring_buffer) : bool :=
  let head := u16 (rb_head rb + 1) in
  let head := if head =? rb_end rb then 0 else head in
  head =? rb_tail rb.

Fixpoint ring_buffer_peek_index_loop (rb : ring_buffer) (index : Z)
    (fuel : nat) (tail current_index : Z) : option (option Z) :=
  match fuel with
  | O => None
  | S fuel =>
      if negb (rb_head rb =? tail) then
        if current_index =? index then Some (Some tail)
        else
          let tail := u16 (tail + 1) in
          let current_index := u16 (current_index + 1) in
          let tail := if tail =? rb_end rb then 0 else tail in
          ring_buffer_peek_index_loop rb index fuel tail current_index
      else Some None
  end.

Definition ring_buffer_peek_index (rb : ring_buffer) (index : Z) : option (option Z) :=
  ring_buffer_peek_index_loop rb index (Z.to_nat (rb_end rb)) (rb_tail rb) 0.

(** ** The list a ring buffer stands for *)

Definition rb_view (rb : ring_buffer) : ring_view :=
  RingView (rb_end rb) (rb_head rb) (rb_tail rb).

Definition rb_wf (rb : ring_buffer) : Prop := rv_wf (rb_view rb).
Definition rb_free (rb : ring_buffer) : Z := rv_free (rb_view rb).
Definition rb_contents {A} (rb : ring_buffer) (buf : arr A) : list A :=
  rv_contents (rb_view rb) buf.
(** The slot of the [k]-th element. *)
Definition rb_slot (rb : ring_buffer) (k : Z) : Z := rv_slot (rb_view rb) k.

#[export] Instance rb_wf_dec rb : Decision (rb_wf rb).
Proof. unfold rb_wf. apply _. Defined.

Lemma rb_view_inj rb rb' : rb_view rb = rb_view rb' -> rb = rb'.
Proof. destruct rb, rb'. by intros [= -> -> ->]. Qed.

(** The successor computed on [uint16_t] locals. *)
Lemma u16_next e i :
  e < 65536 -> 0 <= i < e ->
  (let t := u16 (i + 1) in if t =? e then 0 else t) = next_slot e i.
Proof. intros. cbv zeta. rewrite u16_small by lia. reflexivity. Qed.

Lemma rb_create_wf n : 0 < n < 65536 -> rb_wf (ring_buffer_create n).
Proof. intros. unfold rb_wf, rv_wf. simpl. lia. Qed.

Lemma rb_create_free n : rb_free (ring_buffer_create n) = n - 1.
Proof. unfold rb_free. ring_arith. Qed.

Lemma rb_create_contents {A} n (buf : arr A) :
  rb_contents (ring_buffer_create n) buf = [].
Proof. reflexivity. Qed.

Lemma rb_contents_length {A} rb (buf : arr A) :
  rb_wf rb ->
  Z.of_nat (length (rb_contents rb buf)) = rb_end rb - 1 - rb_free rb.
Proof.
  intros. unfold rb_contents, rb_free, rv_free, rv_capacity.
  rewrite rv_contents_lengthZ by done. simpl. lia.
Qed.

Lemma rb_free_bounds rb : rb_wf rb -> 0 <= rb_free rb < rb_end rb.
Proof.
  intros Hwf. unfold rb_free, rv_free. pose proof (rv_count_bounds _ Hwf).
  unfold rv_capacity in *. simpl in *. lia.
Qed.

(** Slots and positions. *)
Section positions.
Context {A : Type}.
Implicit Types (rb : ring_buffer) (buf : arr A).

Lemma rb_contents_at rb buf (k : nat) :
  rb_wf rb -> (k < length (rb_contents rb buf))%nat ->
  rb_contents rb buf !! k = Some (buf (rb_slot rb (Z.of_nat k))).
Proof.
  intros Hwf Hk. apply rv_contents_lookup.
  unfold rb_contents in Hk. rewrite rv_contents_length in Hk. lia.
Qed.

(** Overwriting an element in its slot. *)
Lemma rb_contents_store rb buf (k : nat) x :
  rb_wf rb -> (k < length (rb_contents rb buf))%nat ->
  rb_contents rb (<[rb_slot rb (Z.of_nat k) := x]> buf) = <[k := x]> (rb_contents rb buf).
Proof.
  intros Hwf Hk. apply list_eq. intros j.
  assert (forall buf', length (rb_contents rb buf') = Z.to_nat (rv_count (rb_view rb))) as Hlen
    by (intros; apply rv_contents_length).
  pose proof (rv_count_bounds _ Hwf) as Hc. rewrite Hlen in Hk.
  unfold rv_capacity in Hc. destruct (decide (j < Z.to_nat (rv_count (rb_view rb)))%nat).
  - rewrite (rb_contents_at _ (<[_ := x]> buf)) by (done || rewrite Hlen; lia).
    destruct (decide (j = k)) as [->|Hne].
    + rewrite list_lookup_insert_eq by (rewrite Hlen; lia). by rewrite arr_insert_eq.
    + rewrite list_lookup_insert_ne, rb_contents_at by (done || rewrite ?Hlen; lia).
      rewrite arr_insert_ne; [done|]. intros Heq. apply Hne.
      unfold rb_slot, rv_slot in Heq. simpl in Hc, Heq.
      apply (slot_after_inj (rb_end rb) (rb_tail rb) (Z.of_nat k) (Z.of_nat j)) in Heq;
        [lia| |lia..]. apply Hwf.
  - rewrite !lookup_ge_None_2; rewrite ?length_insert, ?Hlen; done || lia.
Qed.

Lemma ring_buffer_peek_some rb buf i :
  rb_wf rb -> ring_buffer_peek rb = Some i ->
  i = rb_slot rb 0 /\ rb_contents rb buf = buf i :: tail (rb_contents rb buf).
Proof.
  intros Hwf. unfold ring_buffer_peek.
  destruct (Z.eqb_spec (rb_head rb) (rb_tail rb)) as [|Hne]; [done|]. intros [= <-].
  split.
  - symmetry. apply (slot_after_0 (rb_end rb)), Hwf.
  - unfold rb_contents. by rewrite rv_contents_nonempty.
Qed.

Lemma ring_buffer_peek_none rb buf :
  rb_wf rb -> ring_buffer_peek rb = None -> rb_contents rb buf = [].
Proof.
  intros Hwf. unfold ring_buffer_peek.
  destruct (Z.eqb_spec (rb_head rb) (rb_tail rb)) as [Heq|]; [|done].
  intros _. by apply rv_contents_empty.
Qed.
End positions.

Section refinement.
Context {A : Type}.
Implicit Types (rb : ring_buffer) (buf : arr A).

Lemma ring_buffer_is_full_spec rb :
  rb_wf rb -> ring_buffer_is_full rb = bool_decide (rb_free rb = 0).
Proof.
  intros Hwf. pose proof (rv_full _ Hwf) as Hfull. simpl in Hfull.
  unfold ring_buffer_is_full. destruct Hwf as (? & ? & ?); simpl in *.
  rewrite u16_next by done. apply eq_bool_prop_intro.
  rewrite bool_decide_spec, Is_true_true, Z.eqb_eq. done.
Qed.

Lemma ring_buffer_put_full rb buf el :
  rb_wf rb -> rb_free rb = 0 -> ring_buffer_put rb buf el = (false, rb, buf).
Proof.
  intros Hwf Hfree. pose proof (ring_buffer_is_full_spec rb Hwf) as Hfull.
  unfold ring_buffer_is_full in Hfull. unfold ring_buffer_put.
  rewrite Hfull, bool_decide_true by done. done.
Qed.

Lemma ring_buffer_put_ok rb buf el :
  rb_wf rb -> 0 < rb_free rb ->
  let rb' := rb_set_head rb (next_slot (rb_end rb) (rb_head rb)) in
  ring_buffer_put rb buf el = (true, rb', <[rb_head rb := el]> buf) /\
  rb_wf rb' /\ rb_free rb' = rb_free rb - 1 /\
  rb_contents rb' (<[rb_head rb := el]> buf) = rb_contents rb buf ++ [el].
Proof.
  intros Hwf Hfree rb'.
  assert (rb_view rb' = rv_push (rb_view rb) 1) as Hv.
  { unfold rv_push, rb_view; simpl. rewrite slot_after_1; [done|].
    apply Hwf. }
  pose proof (ring_buffer_is_full_spec rb Hwf) as Hfull.
  unfold ring_buffer_is_full in Hfull. unfold ring_buffer_put.
  rewrite Hfull, bool_decide_false by lia. simpl.
  rewrite u16_next by apply Hwf. split_and!; [done| | |].
  - unfold rb_wf. rewrite Hv. apply rv_push_wf; [done|]. unfold rb_free in *. lia.
  - unfold rb_free, rv_free in *. rewrite Hv, rv_push_count; [|done|].
    + unfold rv_capacity. simpl. lia.
    + unfold rv_free. lia.
  - unfold rb_contents. rewrite Hv.
    apply (rv_contents_push _ _ _ [el]); [done|simpl; unfold rb_free in *; lia| |].
    + intros k Hk. apply fn_lookup_insert_ne.
      clear Hfull. unfold rb_wf, rb_free in *. ring_arith.
    + intros [|k] x; [|done]. simpl. intros [= <-].
      rewrite slot_after_0 by apply Hwf. apply fn_lookup_insert.
Qed.

(** What leaves the buffer, and the pointer to it. *)
Lemma ring_buffer_peek_spec rb buf :
  rb_wf rb ->
  buf <$> ring_buffer_peek rb = head (rb_contents rb buf).
Proof.
  intros Hwf. unfold ring_buffer_peek, rb_contents.
  destruct (Z.eqb_spec (rb_head rb) (rb_tail rb)); simpl.
  - by rewrite rv_contents_empty.
  - by rewrite rv_contents_nonempty.
Qed.

Lemma ring_buffer_erase_first_spec rb buf :
  rb_wf rb ->
  let '(ok, rb') := ring_buffer_erase_first rb in
  rb_wf rb' /\ rb_end rb' = rb_end rb /\ rb_head rb' = rb_head rb /\
  ok = bool_decide (rb_contents rb buf <> []) /\
  rb_contents rb' buf = tail (rb_contents rb buf).
Proof.
  intros Hwf. unfold ring_buffer_erase_first, rb_contents.
  destruct (Z.eqb_spec (rb_head rb) (rb_tail rb)) as [Heq|Hne]; simpl.
  - by rewrite rv_contents_empty.
  - rewrite (rv_contents_nonempty (rb_view rb)), u16_next by (done || apply Hwf).
    assert (rb_view (rb_set_tail rb (next_slot (rb_end rb) (rb_tail rb)))
      = rv_pop (rb_view rb) 1) as Hv.
    { unfold rv_pop, rb_view; simpl. rewrite slot_after_1; [done|apply Hwf]. }
    rewrite Hv. split_and!; try done.
    unfold rb_wf. rewrite Hv. apply rv_pop_wf; [done|].
    unfold rb_wf in *. ring_arith.
Qed.

Lemma ring_buffer_get_erase rb buf :
  ring_buffer_get rb buf =
  (buf <$> ring_buffer_peek rb, (ring_buffer_erase_first rb).2).
Proof.
  unfold ring_buffer_get, ring_buffer_peek, ring_buffer_erase_first.
  by destruct (rb_head rb =? rb_tail rb).
Qed.

Lemma ring_buffer_get_spec rb buf :
  rb_wf rb ->
  let '(r, rb') := ring_buffer_get rb buf in
  rb_wf rb' /\ rb_end rb' = rb_end rb /\
  r = head (rb_contents rb buf) /\
  rb_contents rb' buf = tail (rb_contents rb buf).
Proof.
  intros Hwf. rewrite ring_buffer_get_erase.
  pose proof (ring_buffer_erase_first_spec rb buf Hwf) as He.
  destruct (ring_buffer_erase_first rb) as [ok rb'].
  destruct He as (?&?&?&?&?). by rewrite ring_buffer_peek_spec.
Qed.
End refinement.

Section scans.
Context {A : Type} (satisfies : A -> bool).
Implicit Types (rb : ring_buffer) (buf : arr A).

(** One step of either scan: the slot after the [k]-th one. *)
Lemma rb_scan_next rb k :
  rb_wf rb -> 0 <= k -> k < rv_count (rb_view rb) ->
  (let t := u16 (rb_slot rb k + 1) in if t =? rb_end rb then 0 else t)
  = rb_slot rb (k + 1).
Proof.
  intros Hwf ??. assert (0 <= rb_slot rb k < rb_end rb).
  { apply (rv_slot_bounds (rb_view rb)); [done|].
    pose proof (rv_count_bounds _ Hwf). unfold rv_capacity in *. simpl in *. lia. }
  rewrite u16_next by (done || apply Hwf).
  unfold rb_wf, rb_slot in *. ring_arith.
Qed.

Lemma rb_scan_end rb k :
  rb_wf rb -> 0 <= k <= rv_count (rb_view rb) ->
  (rb_head rb =? rb_slot rb k) = bool_decide (k = rv_count (rb_view rb)).
Proof.
  intros Hwf Hk. apply eq_bool_prop_intro.
  rewrite bool_decide_spec, Is_true_true, Z.eqb_eq.
  unfold rb_wf, rb_slot in *. ring_arith.
Qed.

(** The elements from the [k]-th on. *)
Lemma rb_contents_drop rb buf (k : nat) :
  Z.of_nat k < rv_count (rb_view rb) ->
  drop k (rb_contents rb buf) =
  buf (rb_slot rb (Z.of_nat k)) :: drop (S k) (rb_contents rb buf).
Proof. intros Hk. apply drop_S. by apply rv_contents_lookup. Qed.

Lemma rb_contents_drop_end rb buf (k : nat) :
  rb_wf rb -> Z.of_nat k = rv_count (rb_view rb) ->
  drop k (rb_contents rb buf) = [].
Proof. intros Hwf Hk. apply drop_ge. unfold rb_contents. rewrite rv_contents_length. lia. Qed.

Lemma ring_buffer_find_loop_spec rb buf fuel (k : nat) :
  rb_wf rb -> Z.of_nat k <= rv_count (rb_view rb) ->
  rv_count (rb_view rb) - Z.of_nat k < Z.of_nat fuel ->
  ring_buffer_find_loop satisfies rb buf fuel (rb_slot rb (Z.of_nat k)) =
  Some ((fun r => rb_slot rb (Z.of_nat (k + r.1))) <$>
        list_find satisfies (drop k (rb_contents rb buf))).
Proof.
  intros Hwf. revert k. induction fuel as [|fuel IH]; intros k Hk Hf; [lia|].
  cbn [ring_buffer_find_loop]. rewrite rb_scan_end by (done || lia).
  case_bool_decide as Hend; simpl.
  - by rewrite rb_contents_drop_end.
  - rewrite rb_contents_drop by lia. simpl.
    destruct (satisfies (buf (rb_slot rb (Z.of_nat k)))); simpl.
    + by rewrite Nat.add_0_r.
    + rewrite rb_scan_next by (done || lia).
      replace (Z.of_nat k + 1) with (Z.of_nat (S k)) by lia.
      rewrite IH by lia. f_equal.
      destruct (list_find _ _) as [[j x]|]; simpl; [|done]. do 3 f_equal. lia.
Qed.

(** [find] returns, and with the slot of the oldest satisfying element. *)
Lemma ring_buffer_find_spec rb buf :
  rb_wf rb ->
  ring_buffer_find rb buf satisfies =
  Some ((fun r => rb_slot rb (Z.of_nat r.1)) <$>
        list_find satisfies (rb_contents rb buf)).
Proof.
  intros Hwf. unfold ring_buffer_find. pose proof (rv_count_bounds _ Hwf).
  rewrite <- (slot_after_0 (rb_end rb) (rb_tail rb)) by apply Hwf.
  apply (ring_buffer_find_loop_spec rb buf _ 0); [done|simpl; lia|].
  unfold rv_capacity in *; simpl in *. lia.
Qed.
End scans.

Lemma ring_buffer_peek_index_loop_spec {A} (rb : ring_buffer) (buf : arr A) index fuel (k : nat) :
  rb_wf rb -> Z.of_nat k <= rv_count (rb_view rb) ->
  rv_count (rb_view rb) - Z.of_nat k < Z.of_nat fuel ->
  exists r, ring_buffer_peek_index_loop rb index fuel (rb_slot rb (Z.of_nat k)) (Z.of_nat k)
    = Some r /\
    (Z.of_nat k <= index -> buf <$> r = rb_contents rb buf !! Z.to_nat index).
Proof.
  intros Hwf. revert k. induction fuel as [|fuel IH]; intros k Hk Hf; [lia|].
  cbn [ring_buffer_peek_index_loop]. rewrite rb_scan_end by (done || lia).
  pose proof (rv_count_bounds _ Hwf). unfold rv_capacity in *. simpl in *.
  pose proof (proj1 Hwf). simpl in *.
  case_bool_decide as Hend; simpl.
  - eexists; split; [done|]. intros Hi. symmetry. apply lookup_ge_None.
    unfold rb_contents. rewrite rv_contents_length. lia.
  - destruct (Z.eqb_spec (Z.of_nat k) index) as [<-|Hne].
    + eexists; split; [done|]. intros _. rewrite Nat2Z.id.
      symmetry. by apply rv_contents_lookup; lia.
    + rewrite rb_scan_next, u16_small by (done || lia).
      replace (Z.of_nat k + 1) with (Z.of_nat (S k)) by lia.
      destruct (IH (S k)) as (r & -> & Hr); [lia..|].
      eexists; split; [done|]. intros. apply Hr. lia.
Qed.

Lemma ring_buffer_peek_index_spec {A} (rb : ring_buffer) (buf : arr A) index :
  rb_wf rb -> 0 <= index ->
  (fun r : option Z => buf <$> r) <$> ring_buffer_peek_index rb index =
  Some (rb_contents rb buf !! Z.to_nat index).
Proof.
  intros Hwf Hi. unfold ring_buffer_peek_index. pose proof (rv_count_bounds _ Hwf).
  assert (rb_slot rb (Z.of_nat 0) = rb_tail rb) as Ht by (apply slot_after_0, Hwf).
  destruct (ring_buffer_peek_index_loop_spec rb buf index (Z.to_nat (rb_end rb)) 0)
    as (r & Hl & Hr); [done|simpl; lia| |].
  - unfold rv_capacity in *; simpl in *. lia.
  - rewrite Ht in Hl. change (Z.of_nat 0) with 0 in Hl. rewrite Hl. simpl.
    rewrite Hr; [done|lia].
Qed.

(** ** The abstract bounded queue and the refinement *)

Inductive ring_op (A : Type) : Type :=
  | OpPut (el : A) | OpGet | OpPeek | OpEraseFirst | OpIsFull
  | OpFind (satisfies : A -> bool) | OpPeekIndex (index : Z).
Arguments OpPut {A} el.
Arguments OpGet {A}.
Arguments OpPeek {A}.
Arguments OpEraseFirst {A}.
Arguments OpIsFull {A}.
Arguments OpFind {A} satisfies.
Arguments OpPeekIndex {A} index.

Inductive ring_ret (A : Type) : Type := RetBool (b : bool) | RetElem (r : option A).
Arguments RetBool {A} b.
Arguments RetElem {A} r.

(** What the caller sees of an operation: its truth value, or the element
    copied out or pointed to. [None]: the scan does not end. *)
Definition ring_exec {A} (st : ring_buffer * arr A) (op : ring_op A) :
    option (ring_ret A * (ring_buffer * arr A)) :=
  let '(rb, buf) := st in
  match op with
  | OpPut el => let '(b, rb, buf) := ring_buffer_put rb buf el in
      Some (RetBool b, (rb, buf))
  | OpGet => let '(r, rb) := ring_buffer_get rb buf in Some (RetElem r, (rb, buf))
  | OpPeek => Some (RetElem (buf <$> ring_buffer_peek rb), st)
  | OpEraseFirst => let '(b, rb) := ring_buffer_erase_first rb in
      Some (RetBool b, (rb, buf))
  | OpIsFull => Some (RetBool (ring_buffer_is_full rb), st)
  | OpFind p => r ← ring_buffer_find rb buf p; Some (RetElem (buf <$> r), st)
  | OpPeekIndex i => r ← ring_buffer_peek_index rb i; Some (RetElem (buf <$> r), st)
  end.

(** A FIFO list that holds at most [cap] elements. *)
Definition queue_exec {A} (cap : nat) (q : list A) (op : ring_op A) :
    ring_ret A * list A :=
  match op with
  | OpPut el => if decide (length q < cap)%nat then (RetBool true, q ++ [el])
                else (RetBool false, q)
  | OpGet => (RetElem (head q), tail q)
  | OpPeek => (RetElem (head q), q)
  | OpEraseFirst => (RetBool (bool_decide (q <> [])), tail q)
  | OpIsFull => (RetBool (bool_decide (length q = cap)), q)
  | OpFind p => (RetElem (snd <$> list_find p q), q)
  | OpPeekIndex i => (RetElem (q !! Z.to_nat i), q)
  end.

Fixpoint ring_run {A} (st : ring_buffer * arr A) (ops : list (ring_op A)) :
    option (list (ring_ret A)) :=
  match ops with
  | [] => Some []
  | op :: ops =>
      '(r, st) ← ring_exec st op;
      rs ← ring_run st ops;
      Some (r :: rs)
  end.

Fixpoint queue_run {A} (cap : nat) (q : list A) (ops : list (ring_op A)) :
    list (ring_ret A) :=
  match ops with
  | [] => []
  | op :: ops => let '(r, q) := queue_exec cap q op in r :: queue_run cap q ops
  end.

(** [peek_index] takes a [uint16_t]. *)
Definition ring_op_ok {A} (op : ring_op A) : Prop :=
  match op with OpPeekIndex i => 0 <= i | _ => True end.

Lemma rb_find_elem {A} (p : A -> bool) rb (buf : arr A) k x :
  rb_wf rb -> list_find p (rb_contents rb buf) = Some (k, x) ->
  buf (rb_slot rb (Z.of_nat k)) = x.
Proof.
  intros Hwf (Hk & _ & _)%list_find_Some.
  assert (Z.of_nat k < rv_count (rb_view rb)).
  { pose proof (rv_contents_lengthZ (rb_view rb) buf Hwf).
    apply lookup_lt_Some in Hk. unfold rb_contents in *. lia. }
  unfold rb_contents in Hk. rewrite rv_contents_lookup in Hk by done.
  by injection Hk.
Qed.

(** One operation of the ring answers like the queue and keeps the relation. *)
Lemma ring_exec_sim {A} (n : Z) rb (buf : arr A) op :
  rb_wf rb -> rb_end rb = n -> ring_op_ok op ->
  let '(r, q) := queue_exec (Z.to_nat (n - 1)) (rb_contents rb buf) op in
  exists rb' buf', ring_exec (rb, buf) op = Some (r, (rb', buf')) /\
    rb_wf rb' /\ rb_end rb' = n /\ rb_contents rb' buf' = q.
Proof.
  intros Hwf <- Hop. pose proof (rb_contents_length rb buf Hwf) as Hlen.
  pose proof (rb_free_bounds rb Hwf).
  destruct op as [el| | | | |p|i]; simpl.
  - destruct (decide _).
    + destruct (ring_buffer_put_ok rb buf el) as (-> & ? & ? & ?); [done|lia|].
      by do 2 eexists.
    + rewrite ring_buffer_put_full by (done || lia). by do 2 eexists.
  - pose proof (ring_buffer_get_spec rb buf Hwf) as Hg.
    destruct (ring_buffer_get rb buf) as [r rb'].
    destruct Hg as (? & ? & -> & ?). by do 2 eexists.
  - rewrite ring_buffer_peek_spec by done. by do 2 eexists.
  - pose proof (ring_buffer_erase_first_spec rb buf Hwf) as Hg.
    destruct (ring_buffer_erase_first rb) as [r rb'].
    destruct Hg as (? & ? & ? & -> & ?). by do 2 eexists.
  - rewrite ring_buffer_is_full_spec by done. do 2 eexists. split; [|done].
    do 3 f_equal. apply bool_decide_ext. lia.
  - rewrite ring_buffer_find_spec by done. simpl.
    do 2 eexists. split; [|done]. do 3 f_equal.
    destruct (list_find _ _) as [[k x]|] eqn:Hfind; simpl; [|done].
    f_equal. by eapply rb_find_elem.
  - simpl in Hop. pose proof (ring_buffer_peek_index_spec rb buf i Hwf Hop) as Hp.
    destruct (ring_buffer_peek_index rb i) as [r|]; simpl in *; [|done].
    injection Hp as ->. by do 2 eexists.
Qed.

Lemma ring_run_queue {A} n rb (buf : arr A) ops :
  rb_wf rb -> rb_end rb = n -> Forall ring_op_ok ops ->
  ring_run (rb, buf) ops =
  Some (queue_run (Z.to_nat (n - 1)) (rb_contents rb buf) ops).
Proof.
  intros Hwf Hend Hops. revert rb buf Hwf Hend.
  induction Hops as [|op ops Hop Hops IH]; intros rb buf Hwf Hend; [done|].
  cbn [ring_run queue_run].
  pose proof (ring_exec_sim n rb buf op Hwf Hend Hop) as Hs.
  destruct (queue_exec _ _ _) as [r q]. destruct Hs as (rb' & buf' & -> & ? & ? & <-).
  simpl. by rewrite IH.
Qed.

(** C1. A ring buffer created with [n] slots is indistinguishable from a FIFO
    queue of capacity [n - 1]: for every sequence of put, get, peek,
    erase_first, is_full, find and peek_index calls, every call returns (the
    scans terminate) and yields what the abstract queue yields. *)
Theorem ring_buffer_refines_queue {A} (n : Z) (buf : arr A) (ops : list (ring_op A)) :
  0 < n < 65536 -> Forall ring_op_ok ops ->
  ring_run (ring_buffer_create n, buf) ops =
  Some (queue_run (Z.to_nat (n - 1)) [] ops).
Proof.
  intros Hn Hops. rewrite (ring_run_queue n) by (done || by apply rb_create_wf).
  by rewrite rb_create_contents.
Qed.

Lemma ring_buffer_refines_queue_witness :
  ring_run (ring_buffer_create 3, (fun _ => 0) : arr Z)
    [OpPut 7; OpPut 8; OpPut 9; OpFind (fun x => 7 <? x); OpGet; OpPut 9;
     OpPeekIndex 1; OpIsFull] =
  Some [RetBool true; RetBool true; RetBool false; RetElem (Some 8);
        RetElem (Some 7); RetBool true; RetElem (Some 9); RetBool true].
Proof.
  refine (eq_trans (ring_buffer_refines_queue 3 (fun _ => 0) _ _ _) _).
  - lia.
  - repeat constructor; simpl; lia.
  - reflexivity.
Defined.
