(* ===== verification/RingSpsc.v ===== *)
(** * One producer and one consumer on a ring buffer, interleaved

    The ring buffers are shared between threads and processes with no lock:
    the client puts into the submission queue that the stack drains, the stack
    puts into the completion queue that the client drains.  Here the bodies of
    [NAME##_put] and [NAME##_get] are cut at every access to shared memory and
    the two sides may interleave anywhere (sequentially consistent memory). *)
From stdpp Require Import relations.
From S2P Require Import Prelude RingView RingBuffer.

Section spsc.
Context {A : Type}.

(** Where the producer stands inside [NAME##_put]; [head] is its local. *)
Inductive producer_pc :=
  | PutIdle
  | PutNext (el : A) (head : Z)     (* head computed, room not yet checked *)
  | PutRoom (el : A) (head : Z)     (* head != ring_buffer->tail was seen *)
  | PutStored (el : A) (head : Z).  (* buf[ring_buffer->head] = el was done *)

(** Where the consumer stands inside [NAME##_get]; [tail] is its local. *)
Inductive consumer_pc :=
  | GetIdle
  | GetTail (tail : Z)              (* tail read, head not yet compared *)
  | GetAvail (tail : Z)             (* ring_buffer->head != tail was seen *)
  | GetRead (tail : Z) (pel : A).   (* *pel = buf[tail] was done *)

(** The shared memory, the two threads, and the history: the elements whose
    put returned true, and those whose get returned true. *)
Record spsc := Spsc {
  sp_rb : ring_buffer;
  sp_buf : arr A;
  sp_put : producer_pc;
  sp_get : consumer_pc;
  sp_sent : list A;
  sp_recv : list A;
}.

Inductive spsc_step : spsc -> spsc -> Prop :=
  | step_put_next rb buf g s r el :
      let head := u16 (rb_head rb + 1) in
      let head := if head =? rb_end rb then 0 else head in
      spsc_step (Spsc rb buf PutIdle g s r) (Spsc rb buf (PutNext el head) g s r)
  | step_put_room rb buf g s r el head :
      head <> rb_tail rb ->
      spsc_step (Spsc rb buf (PutNext el head) g s r)
                (Spsc rb buf (PutRoom el head) g s r)
  | step_put_full rb buf g s r el head :
      head = rb_tail rb ->
      spsc_step (Spsc rb buf (PutNext el head) g s r) (Spsc rb buf PutIdle g s r)
  | step_put_store rb buf g s r el head :
      spsc_step (Spsc rb buf (PutRoom el head) g s r)
                (Spsc rb (<[rb_head rb := el]> buf) (PutStored el head) g s r)
  | step_put_publish rb buf g s r el head :
      spsc_step (Spsc rb buf (PutStored el head) g s r)
                (Spsc (rb_set_head rb head) buf PutIdle g (s ++ [el]) r)
  | step_get_tail rb buf p s r :
      spsc_step (Spsc rb buf p GetIdle s r) (Spsc rb buf p (GetTail (rb_tail rb)) s r)
  | step_get_avail rb buf p s r tail :
      rb_head rb <> tail ->
      spsc_step (Spsc rb buf p (GetTail tail) s r)
                (Spsc rb buf p (GetAvail tail) s r)
  | step_get_empty rb buf p s r tail :
      rb_head rb = tail ->
      spsc_step (Spsc rb buf p (GetTail tail) s r) (Spsc rb buf p GetIdle s r)
  | step_get_read rb buf p s r tail :
      spsc_step (Spsc rb buf p (GetAvail tail) s r)
                (Spsc rb buf p (GetRead tail (buf tail)) s r)
  | step_get_release rb buf p s r tail pel :
      let tail' := u16 (tail + 1) in
      let tail' := if tail' =? rb_end rb then 0 else tail' in
      spsc_step (Spsc rb buf p (GetRead tail pel) s r)
                (Spsc (rb_set_tail rb tail') buf p GetIdle s (r ++ [pel])).

Definition spsc_init (n : Z) (buf : arr A) : spsc :=
  Spsc (ring_buffer_create n) buf PutIdle GetIdle [] [].

(** What each program point knows; the other side cannot falsify it. *)
Definition put_knows rb (buf : arr A) (p : producer_pc) : Prop :=
  match p with
  | PutIdle => True
  | PutNext _ head => head = next_slot (rb_end rb) (rb_head rb)
  | PutRoom _ head => head = next_slot (rb_end rb) (rb_head rb) /\ 0 < rb_free rb
  | PutStored el head =>
      head = next_slot (rb_end rb) (rb_head rb) /\ 0 < rb_free rb /\
      buf (rb_head rb) = el
  end.

Definition get_knows rb (buf : arr A) (g : consumer_pc) : Prop :=
  match g with
  | GetIdle => True
  | GetTail tail => tail = rb_tail rb
  | GetAvail tail => tail = rb_tail rb /\ rb_head rb <> rb_tail rb
  | GetRead tail pel =>
      tail = rb_tail rb /\ rb_head rb <> rb_tail rb /\ pel = buf (rb_tail rb)
  end.

Definition spsc_inv (n : Z) (st : spsc) : Prop :=
  let (rb, buf, p, g, s, r) := st in
  rb_wf rb /\ rb_end rb = n /\ put_knows rb buf p /\ get_knows rb buf g /\
  s = r ++ rb_contents rb buf.

(** The two facts about the array that the invariant turns on. *)
Lemma store_keeps_contents rb (buf : arr A) el :
  rb_wf rb -> rb_contents rb (<[rb_head rb := el]> buf) = rb_contents rb buf.
Proof.
  intros Hwf. apply rv_contents_ext. intros k Hk. apply fn_lookup_insert_ne.
  unfold rb_wf in *. ring_arith.
Qed.

Lemma publish_appends rb (buf : arr A) :
  rb_wf rb -> 0 < rb_free rb ->
  let rb' := rb_set_head rb (next_slot (rb_end rb) (rb_head rb)) in
  rb_wf rb' /\ rb_free rb' = rb_free rb - 1 /\
  rb_contents rb' buf = rb_contents rb buf ++ [buf (rb_head rb)].
Proof.
  intros Hwf Hfree rb'.
  destruct (ring_buffer_put_ok rb buf (buf (rb_head rb)) Hwf Hfree)
    as (_ & Hwf' & Hf' & Hc).
  split_and!; [done|done|]. unfold rb'. rewrite <- Hc.
  apply rv_contents_ext. intros k _.
  unfold insert, fn_insert. by destruct (decide _) as [<-|].
Qed.

Lemma release_drops rb (buf : arr A) :
  rb_wf rb -> rb_head rb <> rb_tail rb ->
  let rb' := rb_set_tail rb (next_slot (rb_end rb) (rb_tail rb)) in
  rb_wf rb' /\ rb_free rb' = rb_free rb + 1 /\
  rb_contents rb buf = buf (rb_tail rb) :: rb_contents rb' buf.
Proof.
  intros Hwf Hne rb'.
  assert (rb_view rb' = rv_pop (rb_view rb) 1) as Hv.
  { unfold rv_pop, rb_view; simpl. rewrite slot_after_1; [done|apply Hwf]. }
  assert (0 < rv_count (rb_view rb)) by (unfold rb_wf in *; ring_arith).
  unfold rb_wf, rb_free, rv_free, rv_capacity, rb_contents. rewrite Hv.
  split_and!.
  - apply rv_pop_wf; [done|lia].
  - rewrite rv_pop_count by (done || lia). simpl. lia.
  - by apply rv_contents_nonempty.
Qed.

Lemma nonempty_stable rb :
  rb_wf rb -> 0 < rb_free rb -> rb_head rb <> rb_tail rb ->
  next_slot (rb_end rb) (rb_head rb) <> rb_tail rb.
Proof. intros. unfold rb_wf, rb_free in *. ring_arith. Qed.

Lemma room_of_test rb :
  rb_wf rb -> next_slot (rb_end rb) (rb_head rb) <> rb_tail rb -> 0 < rb_free rb.
Proof. intros. unfold rb_wf, rb_free in *. ring_arith. Qed.

Lemma spsc_step_inv n st st' : spsc_step st st' -> spsc_inv n st -> spsc_inv n st'.
Proof.
  intros [rb buf g s r el head0 head|rb buf g s r el head Hne|rb buf g s r el head Heq
    |rb buf g s r el head|rb buf g s r el head|rb buf p s r|rb buf p s r tail Hne
    |rb buf p s r tail Heq|rb buf p s r tail|rb buf p s r tail pel tail0 tail'];
    intros (Hwf & Hend & Hp & Hg & ->); simpl in Hp, Hg |- *.
  - split_and!; try done. apply u16_next; apply Hwf.
  - subst. split_and!; try done. by apply room_of_test.
  - by split_and!.
  - destruct Hp as [-> Hfree]. rewrite store_keeps_contents by done.
    split_and!; try done; [by apply fn_lookup_insert|].
    destruct g as [| | |tail pel]; try done.
    destruct Hg as (-> & Hne & ->). split_and!; try done.
    symmetry. by apply fn_lookup_insert_ne.
  - destruct Hp as (-> & Hfree & <-).
    destruct (publish_appends rb buf) as (Hwf' & Hf & ->); [done..|].
    split_and!; try done; [|by rewrite (assoc_L (++))].
    destruct g; simpl in *; destruct_and?; split_and?; try done;
      by apply nonempty_stable.
  - by split_and!.
  - subst tail. by split_and!.
  - by split_and!.
  - destruct Hg as [-> Hne]. by split_and!.
  - destruct Hg as (-> & Hne & ->). subst tail0 tail'. rewrite u16_next by apply Hwf.
    destruct (release_drops rb buf) as (Hwf' & Hf & ->); [done..|].
    split_and!; try done; [|by rewrite <- (assoc_L (++))].
    destruct p; simpl in *; destruct_and?; split_and?; try done; lia.
Qed.

Lemma spsc_reachable_inv n buf st :
  0 < n < 65536 -> rtc spsc_step (spsc_init n buf) st -> spsc_inv n st.
Proof.
  intros Hn Hr. assert (spsc_inv n (spsc_init n buf)) as Hi.
  { simpl. split_and!; try done. by apply rb_create_wf. }
  revert Hi. induction Hr; eauto using spsc_step_inv.
Qed.

(** Cutting the bodies did not change them: a put, or a get, whose steps are
    not interrupted is the sequential operation. *)
Lemma put_uninterrupted rb buf g s r el :
  let '(ok, rb', buf') := ring_buffer_put rb buf el in
  rtc spsc_step (Spsc rb buf PutIdle g s r)
    (Spsc rb' buf' PutIdle g (if ok then s ++ [el] else s) r).
Proof.
  unfold ring_buffer_put. set (h := if _ =? rb_end rb then _ else _).
  destruct (Z.eqb_spec h (rb_tail rb)) as [Heq|Hne]; simpl.
  - eapply rtc_l; [apply (step_put_next _ _ _ _ _ el)|]. by eapply rtc_once, step_put_full.
  - eapply rtc_l; [apply (step_put_next _ _ _ _ _ el)|].
    eapply rtc_l; [by apply step_put_room|].
    eapply rtc_l; [apply step_put_store|]. eapply rtc_once, step_put_publish.
Qed.

Lemma get_uninterrupted rb buf p s r :
  let '(res, rb') := ring_buffer_get rb buf in
  rtc spsc_step (Spsc rb buf p GetIdle s r)
    (Spsc rb' buf p GetIdle s (r ++ option_list res)).
Proof.
  unfold ring_buffer_get.
  destruct (Z.eqb_spec (rb_head rb) (rb_tail rb)) as [Heq|Hne]; simpl.
  - rewrite app_nil_r. eapply rtc_l; [apply step_get_tail|].
    by eapply rtc_once, step_get_empty.
  - eapply rtc_l; [apply step_get_tail|].
    eapply rtc_l; [by apply step_get_avail|].
    eapply rtc_l; [apply step_get_read|]. eapply rtc_once, step_get_release.
Qed.
End spsc.

Arguments producer_pc : clear implicits.
Arguments consumer_pc : clear implicits.
Arguments spsc : clear implicits.

(** C2. Under every interleaving of a producer's puts and a consumer's gets,
    each at the grain of single accesses to the shared memory, the received
    elements followed by those still in the buffer are exactly the elements
    sent, in order: nothing is lost, duplicated, reordered or torn, and the
    buffer never holds more than [n - 1] elements. *)
Theorem spsc_exactly_once {A} (n : Z) (buf : arr A) (st : spsc A) :
  0 < n < 65536 -> rtc spsc_step (spsc_init n buf) st ->
  sp_sent st = sp_recv st ++ rb_contents (sp_rb st) (sp_buf st) /\
  Z.of_nat (length (sp_sent st)) - Z.of_nat (length (sp_recv st)) <= n - 1.
Proof.
  intros Hn Hr%(spsc_reachable_inv n); [|done].
  destruct st as [rb b p g s r]. destruct Hr as (Hwf & <- & _ & _ & ->). simpl.
  split; [done|]. rewrite length_app. pose proof (rb_contents_length rb b Hwf).
  pose proof (rb_free_bounds rb Hwf). lia.
Qed.

(** Two puts with a get that starts before the second one is published. *)
Definition spsc_demo_rb : ring_buffer := RingBuffer 4 2 0.
Definition spsc_demo_buf : arr Z := <[1 := 9]> (<[0 := 8]> (fun _ => 0)).

Lemma spsc_exactly_once_witness :
  sp_sent (Spsc spsc_demo_rb spsc_demo_buf PutIdle (GetAvail 0) [8; 9] []) =
  [8; 9] /\
  [8; 9] = [] ++ rb_contents spsc_demo_rb spsc_demo_buf.
Proof.
  split; [reflexivity|].
  refine (proj1 (spsc_exactly_once 4 (fun _ => 0)
    (Spsc spsc_demo_rb spsc_demo_buf PutIdle (GetAvail 0) [8; 9] []) _ _)); [lia|].
  eapply rtc_l; [apply (step_put_next _ _ _ _ _ 8)|].
  eapply rtc_l; [by apply step_put_room|].
  eapply rtc_l; [apply step_put_store|].
  eapply rtc_l; [apply step_put_publish|].
  eapply rtc_l; [apply (step_put_next _ _ _ _ _ 9)|].
  eapply rtc_l; [apply step_get_tail|].
  eapply rtc_l; [by apply step_put_room|].
  eapply rtc_l; [apply step_put_store|].
  eapply rtc_l; [by apply step_get_avail|].
  eapply rtc_l; [apply step_put_publish|].
  apply rtc_refl.
Defined.
