(* ===== verification/ByteBuffer.v ===== *)
(** * The byte buffer ([api/src/pifus_byte_buffer.c])

    Holds the bytes of a TCP stream that arrived before any [recv] asked for
    them.  Unlike the ring buffers it moves many bytes per call, with one or
    two [memcpy]s. *)
From S2P Require Import Prelude RingView.

Record pifus_byte_buffer := ByteBuffer { bb_head : Z; bb_end : Z; bb_tail : Z }.

Definition pifus_byte_buffer_create (buffer_length : Z) : pifus_byte_buffer :=
  {| bb_tail := 0; bb_end := buffer_length; bb_head := 0 |}.

Definition bb_set_head (bb : pifus_byte_buffer) (head : Z) : pifus_byte_buffer :=
  ByteBuffer head (bb_end bb) (bb_tail bb).
Definition bb_set_tail (bb : pifus_byte_buffer) (tail : Z) : pifus_byte_buffer :=
  ByteBuffer (bb_head bb) (bb_end bb) tail.

(** The [while (really_added_length < to_add_length)] loop; [remaining] is the
    difference, which every iteration that does not leave decreases.  [None] is
    the [return 0] inside it; the triple is the state after it. *)
Fixpoint byte_buffer_add_loop (bb : pifus_byte_buffer) (remaining : nat)
    (head really_added_length : Z) (overstepped : bool) : option (Z * Z * bool) :=
  match remaining with
  | O => Some (head, really_added_length, overstepped)
  | S remaining =>
      let '(head, overstepped) :=
        if head =? bb_end bb then (0, true) else (head, overstepped) in
      if head =? bb_tail bb then
        if really_added_length =? 0 then None
        else Some (head, really_added_length, overstepped)
      else
        byte_buffer_add_loop bb remaining (u16 (head + 1))
          (u16 (really_added_length + 1)) overstepped
  end.

(** The one or two [memcpy]s into the array. *)
Definition byte_buffer_copy_in (bb : pifus_byte_buffer) (buffer : arr Z)
    (to_add : arr Z) (pos really_added_length : Z) (overstepped : bool) : arr Z :=
  if overstepped then
    let end_copy_length := u16 (bb_end bb - bb_head bb) in
    let buffer :=
      if 0 <? end_copy_length then
        memcpy buffer (bb_head bb) to_add pos end_copy_length
      else buffer in
    memcpy buffer 0 to_add (pos + end_copy_length)
      (u64 (really_added_length - end_copy_length))
  else memcpy buffer (bb_head bb) to_add pos really_added_length.

(** [to_add] points to index [pos] of its array.  The result is the return
    value, the buffer's indices and its array. *)
Definition pifus_byte_buffer_add (bb : pifus_byte_buffer) (buffer : arr Z)
    (to_add : arr Z) (pos : Z) (to_add_length : Z) :
    Z * pifus_byte_buffer * arr Z :=
  let bb := if bb_head bb =? bb_end bb then bb_set_head bb 0 else bb in
  match byte_buffer_add_loop bb (Z.to_nat to_add_length) (u16 (bb_head bb + 1)) 0 false with
  | None => (0, bb, buffer)
  | Some (head, really_added_length, overstepped) =>
      if 0 <? really_added_length then
        let '(head, overstepped) :=
          if head =? 0 then (u16 (bb_end bb - 1), false)
          else (u16 (head - 1), overstepped) in
        let buffer :=
          byte_buffer_copy_in bb buffer to_add pos really_added_length overstepped in
        (really_added_length, bb_set_head bb head, buffer)
      else (really_added_length, bb, buffer)
  end.

(** The [while (popped_length < length)] loop: the tail, the count and
    whether the end of the array was passed. *)
Fixpoint byte_buffer_pop_loop (bb : pifus_byte_buffer) (remaining : nat)
    (tail popped_length : Z) (overstepped : bool) : Z * Z * bool :=
  match remaining with
  | O => (tail, popped_length, overstepped)
  | S remaining =>
      if bb_head bb =? tail then (tail, popped_length, overstepped)
      else if tail =? bb_end bb then
        let tail := 0 in
        if bb_head bb =? tail then (tail, popped_length, overstepped)
        else byte_buffer_pop_loop bb remaining (u16 (tail + 1))
               (u16 (popped_length + 1)) true
      else byte_buffer_pop_loop bb remaining (u16 (tail + 1))
             (u16 (popped_length + 1)) overstepped
  end.

(** The one or two [memcpy]s out of the array. *)
Definition byte_buffer_copy_out (bb : pifus_byte_buffer) (buffer : arr Z)
    (out : arr Z) (pos popped_length : Z) (overstepped : bool) : arr Z :=
  if overstepped then
    let end_copy_length := u16 (bb_end bb - bb_tail bb) in
    let out :=
      if 0 <? end_copy_length then
        memcpy out pos buffer (bb_tail bb) end_copy_length
      else out in
    memcpy out (pos + end_copy_length) buffer 0
      (u64 (popped_length - end_copy_length))
  else memcpy out pos buffer (bb_tail bb) popped_length.

(** [output_buffer] points to index [pos] of [out]. *)
Definition pifus_byte_buffer_pop (bb : pifus_byte_buffer) (buffer : arr Z)
    (length : Z) (out : arr Z) (pos : Z) : Z * pifus_byte_buffer * arr Z :=
  let '(tail, popped_length, overstepped) :=
    byte_buffer_pop_loop bb (Z.to_nat length) (bb_tail bb) 0 false in
  if 0 <? popped_length then
    let out := byte_buffer_copy_out bb buffer out pos popped_length overstepped in
    let tail := if tail =? bb_end bb then 0 else tail in
    (popped_length, bb_set_tail bb tail, out)
  else (popped_length, bb, out).

Definition pifus_byte_buffer_is_empty (bb : pifus_byte_buffer) : Z :=
  int_of_bool (bb_head bb =? bb_tail bb).

(** ** The bytes a buffer stands for *)

Definition bb_view (bb : pifus_byte_buffer) : ring_view :=
  RingView (bb_end bb) (bb_head bb) (bb_tail bb).
Definition bb_wf (bb : pifus_byte_buffer) : Prop := rv_wf (bb_view bb).
Definition bb_free (bb : pifus_byte_buffer) : Z := rv_free (bb_view bb).
Definition bb_contents (bb : pifus_byte_buffer) (buffer : arr Z) : list Z :=
  rv_contents (bb_view bb) buffer.

Lemma bb_create_wf n : 0 < n < 65536 -> bb_wf (pifus_byte_buffer_create n).
Proof. intros. unfold bb_wf, rv_wf. simpl. lia. Qed.

Lemma bb_create_free n : bb_free (pifus_byte_buffer_create n) = n - 1.
Proof. unfold bb_free. ring_arith. Qed.

Lemma bb_contents_length bb buffer :
  bb_wf bb ->
  Z.of_nat (length (bb_contents bb buffer)) = bb_end bb - 1 - bb_free bb.
Proof.
  intros. unfold bb_contents, bb_free, rv_free, rv_capacity.
  rewrite rv_contents_lengthZ by done. simpl. lia.
Qed.

Lemma bb_free_bounds bb : bb_wf bb -> 0 <= bb_free bb < bb_end bb.
Proof.
  intros Hwf. unfold bb_free, rv_free. pose proof (rv_count_bounds _ Hwf).
  unfold rv_capacity in *. simpl in *. lia.
Qed.

Lemma bb_is_empty_spec bb buffer :
  bb_wf bb ->
  pifus_byte_buffer_is_empty bb = int_of_bool (bool_decide (bb_contents bb buffer = [])).
Proof.
  intros Hwf. unfold pifus_byte_buffer_is_empty. f_equal.
  unfold bb_contents. destruct (Z.eqb_spec (bb_head bb) (bb_tail bb)).
  - by rewrite rv_contents_empty.
  - by rewrite rv_contents_nonempty.
Qed.

(** *** Adding *)

(** After the loop the code steps [head] back by one; here is what it gets. *)
Definition add_fixup (bb : pifus_byte_buffer) (head : Z) (overstepped : bool) : Z * bool :=
  if head =? 0 then (u16 (bb_end bb - 1), false) else (u16 (head - 1), overstepped).

Lemma byte_buffer_add_loop_spec bb (remaining : nat) k head over :
  bb_wf bb -> 0 <= k <= bb_free bb -> k + Z.of_nat remaining < 65536 ->
  head = bb_head bb + 1 + k - (if over : bool then bb_end bb else 0) ->
  (if over then 1 <= head else head <= bb_end bb) ->
  let n := Z.min (k + Z.of_nat remaining) (bb_free bb) in
  match byte_buffer_add_loop bb remaining head k over with
  | None => n = 0
  | Some (head', n', over') =>
      n' = n /\
      (0 < n -> add_fixup bb head' over' =
        (slot_after (bb_end bb) (bb_head bb) n, bb_end bb <=? bb_head bb + n))
  end.
Proof.
  intros Hwf.
  assert (0 <= bb_head bb < bb_end bb /\ 0 <= bb_tail bb < bb_end bb
    /\ bb_end bb < 65536) as (Hh & Ht & He) by (unfold bb_wf in *; ring_arith).
  pose proof (bb_free_bounds bb Hwf) as Hfb.
  revert k head over.
  induction remaining as [|r IH]; intros k head over Hk Hr Hhead Hover n;
    cbn [byte_buffer_add_loop].
  - assert (n = k) as -> by lia. split; [done|]. intros _.
    unfold add_fixup, slot_after.
    destruct over; ztest; rewrite ?u16_small by lia; f_equal; lia.
  - set (w := if head =? bb_end bb then (0, true) else (head, over)).
    assert (w.1 = slot_after (bb_end bb) (bb_head bb) (k + 1) /\
      (w.2 = (bb_end bb <=? bb_head bb + 1 + k))) as [Hw1 Hw2].
    { unfold w, slot_after. clear IH. destruct over; ring_arith; split; lia. }
    destruct w as [hd ov]. simpl in Hw1, Hw2. subst hd ov.
    destruct (Z.eqb_spec (slot_after (bb_end bb) (bb_head bb) (k + 1)) (bb_tail bb))
      as [Hfull|Hroom].
    + assert (bb_free bb = k) as Hfk.
      { clear IH. unfold bb_wf, bb_free in *. ring_arith. }
      destruct (Z.eqb_spec k 0); [lia|]. split; [lia|]. intros _.
      replace n with k by lia. unfold add_fixup, slot_after. clear IH.
      ztest; rewrite ?u16_small by lia; f_equal; lia.
    + assert (k < bb_free bb).
      { clear IH. unfold bb_wf, bb_free in *. ring_arith. }
      rewrite !u16_small by (unfold slot_after; ztests).
      replace n with (Z.min (k + 1 + Z.of_nat r) (bb_free bb)) by lia.
      apply IH; try lia; unfold slot_after; ztests.
Qed.

(** The copies fill the [n] slots after the head and touch no other. *)
Lemma byte_buffer_copy_in_spec bb buffer to_add pos n :
  bb_wf bb -> 0 < n <= bb_free bb ->
  let buffer' := byte_buffer_copy_in bb buffer to_add pos n
    (bb_end bb <=? bb_head bb + n) in
  (forall k, 0 <= k < n ->
     buffer' (slot_after (bb_end bb) (bb_head bb) k) = to_add (pos + k)) /\
  (forall x, (forall k, 0 <= k < n -> x <> slot_after (bb_end bb) (bb_head bb) k) ->
     buffer' x = buffer x).
Proof.
  intros Hwf Hn buffer'. pose proof (bb_free_bounds bb Hwf).
  assert (0 <= bb_head bb < bb_end bb /\ bb_end bb < 65536) as [Hh He]
    by (unfold bb_wf in *; ring_arith).
  unfold buffer', byte_buffer_copy_in, slot_after.
  destruct (Z.leb_spec (bb_end bb) (bb_head bb + n)).
  - rewrite u16_small, u64_small by (rewrite ?u16_small; lia).
    destruct (Z.ltb_spec 0 (bb_end bb - bb_head bb)); [|lia].
    split.
    + intros k Hk. destruct (Z.ltb_spec (bb_head bb + k) (bb_end bb)).
      * rewrite memcpy_out, memcpy_in by lia. f_equal. lia.
      * rewrite memcpy_in by lia. f_equal. lia.
    + intros x Hx. rewrite !memcpy_out; [done| |]; intros Hin.
      * apply (Hx (x - bb_head bb)); ztests.
      * apply (Hx (x - bb_head bb + bb_end bb)); ztests.
  - split.
    + intros k Hk. ztest; [|lia]. rewrite memcpy_in by lia. f_equal. lia.
    + intros x Hx. rewrite !memcpy_out; [done|]. intros Hin.
      apply (Hx (x - bb_head bb)); ztests.
Qed.

Lemma byte_buffer_add_spec bb buffer to_add pos len :
  bb_wf bb -> 0 <= len < 65536 ->
  let n := Z.min len (bb_free bb) in
  exists bb' buffer',
    pifus_byte_buffer_add bb buffer to_add pos len = (n, bb', buffer') /\
    bb_wf bb' /\ bb_end bb' = bb_end bb /\ bb_free bb' = bb_free bb - n /\
    bb_contents bb' buffer' = bb_contents bb buffer ++ slice to_add pos n /\
    (forall x, ~ 0 <= x < bb_end bb -> buffer' x = buffer x).
Proof.
  intros Hwf Hlen n. pose proof (bb_free_bounds bb Hwf) as Hfb.
  assert (0 <= bb_head bb < bb_end bb /\ bb_end bb < 65536) as [Hh He]
    by (unfold bb_wf in *; ring_arith).
  unfold pifus_byte_buffer_add. destruct (Z.eqb_spec (bb_head bb) (bb_end bb)); [lia|].
  pose proof (byte_buffer_add_loop_spec bb (Z.to_nat len) 0 (u16 (bb_head bb + 1)) false
    Hwf) as Hloop.
  rewrite !Z2Nat.id, u16_small in Hloop by lia.
  replace (Z.min (0 + len) (bb_free bb)) with n in Hloop by lia.
  specialize (Hloop ltac:(lia) ltac:(lia) ltac:(lia) ltac:(lia)).
  rewrite u16_small by lia.
  assert (forall r, r = n -> n = 0 ->
    exists bb' buffer', (r, bb, buffer) = (n, bb', buffer') /\
    bb_wf bb' /\ bb_end bb' = bb_end bb /\ bb_free bb' = bb_free bb - n /\
    bb_contents bb' buffer' = bb_contents bb buffer ++ slice to_add pos n /\
    (forall x, ~ 0 <= x < bb_end bb -> buffer' x = buffer x)) as Hzero.
  { intros r -> ->. exists bb, buffer. rewrite slice_nil, app_nil_r by lia.
    split_and!; (done || lia). }
  destruct (byte_buffer_add_loop _ _ _ _ _) as [[[head' n'] over']|];
    [|by apply Hzero].
  destruct Hloop as [-> Hfix]. destruct (Z.ltb_spec 0 n); [|apply Hzero; (done || lia)].
  unfold add_fixup in Hfix. rewrite Hfix by done. clear Hfix Hzero.
  destruct (byte_buffer_copy_in_spec bb buffer to_add pos n) as [Hnew Hold]; [done|lia|].
  do 2 eexists. split; [done|]. set (bb' := bb_set_head _ _).
  assert (bb_view bb' = rv_push (bb_view bb) n) as Hv by done.
  unfold bb_wf, bb_free, bb_contents in *. rewrite Hv.
  pose proof (rv_count_bounds _ Hwf). unfold rv_free in *.
  split_and!.
  - apply rv_push_wf; [done|]. unfold rv_free. lia.
  - done.
  - rewrite rv_push_count; [|done|unfold rv_free; lia].
    unfold rv_capacity in *. simpl in *. lia.
  - replace n with (Z.of_nat (length (slice to_add pos n))) at 1
      by (rewrite length_slice; lia).
    apply rv_contents_push.
    + done.
    + rewrite length_slice. unfold rv_free. lia.
    + intros k Hk. apply Hold. intros j Hj. clear Hnew Hold. ring_arith.
    + intros k x Hk. assert (Z.of_nat k < n).
      { apply lookup_lt_Some in Hk. rewrite length_slice in Hk. lia. }
      rewrite lookup_slice in Hk by done. injection Hk as <-. apply Hnew. lia.
  - intros x Hx. apply Hold. intros k Hk ->. apply Hx. clear Hnew Hold.
    unfold slot_after. ztests.
Qed.

(** *** Popping *)

Lemma byte_buffer_pop_loop_spec bb (remaining : nat) p tail over :
  bb_wf bb -> let count := rv_count (bb_view bb) in
  0 <= p <= count -> p + Z.of_nat remaining < 65536 ->
  tail = bb_tail bb + p - (if over : bool then bb_end bb else 0) ->
  (if over then 1 <= tail else tail <= bb_end bb) ->
  let n := Z.min (p + Z.of_nat remaining) count in
  exists tail',
    byte_buffer_pop_loop bb remaining tail p over =
      (tail', n, bb_end bb <? bb_tail bb + n) /\
    (if tail' =? bb_end bb then 0 else tail') =
      slot_after (bb_end bb) (bb_tail bb) n.
Proof.
  intros Hwf count.
  assert (0 <= bb_head bb < bb_end bb /\ 0 <= bb_tail bb < bb_end bb
    /\ bb_end bb < 65536) as (Hh & Ht & He) by (unfold bb_wf in *; ring_arith).
  assert (count = if bb_tail bb <=? bb_head bb then bb_head bb - bb_tail bb
    else bb_end bb - bb_tail bb + bb_head bb) as Hcount by done.
  assert (count < bb_end bb) as Hcb by ztests.
  clearbody count. clear Hwf. revert p tail over.
  induction remaining as [|r IH]; intros p tail over Hp Hr Htail Hover n;
    cbn [byte_buffer_pop_loop].
  - exists tail. assert (n = p) as -> by lia. unfold slot_after.
    destruct over; split; ztests; f_equal; lia.
  - destruct (Z.eqb_spec (bb_head bb) tail) as [Heq|Hne].
    + exists tail. clear IH. assert (n = p) as -> by (destruct over; ztests).
      unfold slot_after. destruct over; split; ztests; f_equal; lia.
    + destruct (Z.eqb_spec tail (bb_end bb)) as [Hwrap|Hnowrap].
      * destruct (Z.eqb_spec (bb_head bb) 0) as [Hz|Hnz].
        -- exists 0. clear IH. assert (n = p) as -> by (destruct over; ztests).
           unfold slot_after. destruct over; split; ztests; f_equal; lia.
        -- assert (p < count) by (clear IH; destruct over; ztests).
           replace n with (Z.min (p + 1 + Z.of_nat r) count) by lia.
           rewrite !u16_small by lia. apply IH; destruct over; lia.
      * assert (p < count) by (clear IH; destruct over; ztests).
        replace n with (Z.min (p + 1 + Z.of_nat r) count) by lia.
        rewrite !u16_small by (destruct over; lia). apply IH; destruct over; lia.
Qed.

Lemma byte_buffer_copy_out_spec bb buffer out pos n :
  bb_wf bb -> 0 < n <= rv_count (bb_view bb) ->
  let out' := byte_buffer_copy_out bb buffer out pos n
    (bb_end bb <? bb_tail bb + n) in
  (forall k, 0 <= k < n -> out' (pos + k) = buffer (rv_slot (bb_view bb) k)) /\
  (forall x, ~ pos <= x < pos + n -> out' x = out x).
Proof.
  intros Hwf Hn out'. pose proof (rv_count_bounds _ Hwf).
  assert (0 <= bb_tail bb < bb_end bb /\ bb_end bb < 65536) as [Hh He]
    by (unfold bb_wf in *; ring_arith).
  unfold out', byte_buffer_copy_out, rv_slot, slot_after, rv_capacity in *.
  simpl in *. destruct (Z.ltb_spec (bb_end bb) (bb_tail bb + n)).
  - rewrite u16_small, u64_small by (rewrite ?u16_small; lia).
    destruct (Z.ltb_spec 0 (bb_end bb - bb_tail bb)); [|lia].
    split.
    + intros k Hk. destruct (Z.ltb_spec (bb_tail bb + k) (bb_end bb)).
      * rewrite memcpy_out, memcpy_in by lia. f_equal. lia.
      * rewrite memcpy_in by lia. f_equal. lia.
    + intros x Hx. by rewrite !memcpy_out by lia.
  - split.
    + intros k Hk. ztest; [|lia]. rewrite memcpy_in by lia. f_equal. lia.
    + intros x Hx. by rewrite !memcpy_out by lia.
Qed.

Lemma byte_buffer_pop_spec bb buffer len out pos :
  bb_wf bb -> 0 <= len < 65536 ->
  let n := Z.min len (rv_count (bb_view bb)) in
  exists bb' out',
    pifus_byte_buffer_pop bb buffer len out pos = (n, bb', out') /\
    bb_wf bb' /\ bb_end bb' = bb_end bb /\
    bb_contents bb' buffer = drop (Z.to_nat n) (bb_contents bb buffer) /\
    slice out' pos n = take (Z.to_nat n) (bb_contents bb buffer) /\
    (forall x, ~ pos <= x < pos + n -> out' x = out x).
Proof.
  intros Hwf Hlen n. pose proof (rv_count_bounds _ Hwf) as Hc.
  unfold pifus_byte_buffer_pop.
  destruct (byte_buffer_pop_loop_spec bb (Z.to_nat len) 0 (bb_tail bb) false Hwf)
    as (tail' & -> & Htail); [lia..| |].
  { unfold bb_wf in *. ring_arith. }
  rewrite !Z2Nat.id in * by lia.
  replace (Z.min (0 + len) _) with n in * by lia.
  destruct (Z.ltb_spec 0 n).
  - destruct (byte_buffer_copy_out_spec bb buffer out pos n) as [Hin Hout]; [done|lia|].
    do 2 eexists. split; [done|]. rewrite Htail. clear Htail.
    set (bb' := bb_set_tail _ _). assert (bb_view bb' = rv_pop (bb_view bb) n) as Hv by done.
    unfold bb_wf, bb_contents in *. rewrite Hv. split_and!.
    + apply rv_pop_wf; [done|lia].
    + done.
    + apply rv_contents_pop; [done|lia].
    + apply list_eq_same_length with (n := Z.to_nat n);
        rewrite ?length_take, ?length_slice, ?rv_contents_length; [lia..|].
      intros k x y Hk. rewrite lookup_slice, Hin by lia.
      rewrite lookup_take_lt, rv_contents_lookup by lia. congruence.
    + done.
  - exists bb, out. replace n with 0 by lia. rewrite slice_nil by lia.
    split_and!; (done || lia).
Qed.

(** ** The abstract byte stream and the refinement *)

Inductive byte_op := BytesAdd (l : list Z) | BytesPop (len : Z).

Inductive byte_ret := RetAdded (n : Z) | RetPopped (l : list Z).

Definition byte_buffer_exec (st : pifus_byte_buffer * arr Z) (op : byte_op) :
    byte_ret * (pifus_byte_buffer * arr Z) :=
  let '(bb, buffer) := st in
  match op with
  | BytesAdd l =>
      let '(n, bb, buffer) :=
        pifus_byte_buffer_add bb buffer (arr_of_list 0 l) 0 (Z.of_nat (length l)) in
      (RetAdded n, (bb, buffer))
  | BytesPop len =>
      let '(n, bb, out) := pifus_byte_buffer_pop bb buffer len (fun _ => 0) 0 in
      (RetPopped (slice out 0 n), (bb, buffer))
  end.

(** A stream that buffers at most [cap] bytes and cuts off what is beyond. *)
Definition stream_exec (cap : nat) (q : list Z) (op : byte_op) : byte_ret * list Z :=
  match op with
  | BytesAdd l =>
      let taken := take (cap - length q) l in
      (RetAdded (Z.of_nat (length taken)), q ++ taken)
  | BytesPop len => (RetPopped (take (Z.to_nat len) q), drop (Z.to_nat len) q)
  end.

Fixpoint byte_buffer_run (st : pifus_byte_buffer * arr Z) (ops : list byte_op) :=
  match ops with
  | [] => []
  | op :: ops => let '(r, st) := byte_buffer_exec st op in r :: byte_buffer_run st ops
  end.

Fixpoint stream_run (cap : nat) (q : list Z) (ops : list byte_op) :=
  match ops with
  | [] => []
  | op :: ops => let '(r, q) := stream_exec cap q op in r :: stream_run cap q ops
  end.

(** Lengths are [uint16_t]. *)
Definition byte_op_ok (op : byte_op) : Prop :=
  match op with
  | BytesAdd l => Z.of_nat (length l) < 65536
  | BytesPop len => 0 <= len < 65536
  end.

Lemma byte_buffer_exec_sim n bb buffer op :
  bb_wf bb -> bb_end bb = n -> byte_op_ok op ->
  let '(r, q) := stream_exec (Z.to_nat (n - 1)) (bb_contents bb buffer) op in
  exists bb' buffer', byte_buffer_exec (bb, buffer) op = (r, (bb', buffer')) /\
    bb_wf bb' /\ bb_end bb' = n /\ bb_contents bb' buffer' = q.
Proof.
  intros Hwf <- Hop. pose proof (bb_contents_length bb buffer Hwf) as Hlen.
  pose proof (bb_free_bounds bb Hwf) as Hf. destruct op as [l|len]; simpl in *.
  - destruct (byte_buffer_add_spec bb buffer (arr_of_list 0 l) 0 (Z.of_nat (length l)))
      as (bb' & buffer' & -> & ? & ? & _ & Hc & _); [done|lia|].
    do 2 eexists. split; [|split_and!; try done].
    + do 2 f_equal. rewrite length_take. lia.
    + rewrite Hc, slice_arr_of_list by lia. f_equal.
      destruct (Z.leb_spec (Z.of_nat (length l)) (bb_free bb)).
      * by rewrite !take_ge by lia.
      * f_equal. lia.
  - destruct (byte_buffer_pop_spec bb buffer len (fun _ => 0) 0)
      as (bb' & out' & -> & ? & ? & Hd & Ht & _); [done|lia|].
    do 2 eexists. split; [|split_and!; try done].
    + do 2 f_equal. rewrite Ht. unfold bb_contents.
      destruct (Z.leb_spec len (rv_count (bb_view bb))).
      * f_equal. lia.
      * by rewrite !take_ge by (rewrite rv_contents_length; lia).
    + rewrite Hd. unfold bb_contents.
      destruct (Z.leb_spec len (rv_count (bb_view bb))).
      * f_equal. lia.
      * by rewrite !drop_ge by (rewrite rv_contents_length; lia).
Qed.

Lemma byte_buffer_run_stream n bb buffer ops :
  bb_wf bb -> bb_end bb = n -> Forall byte_op_ok ops ->
  byte_buffer_run (bb, buffer) ops =
  stream_run (Z.to_nat (n - 1)) (bb_contents bb buffer) ops.
Proof.
  intros Hwf Hend Hops. revert bb buffer Hwf Hend.
  induction Hops as [|op ops Hop Hops IH]; intros bb buffer Hwf Hend; [done|].
  cbn [byte_buffer_run stream_run].
  pose proof (byte_buffer_exec_sim n bb buffer op Hwf Hend Hop) as Hs.
  destruct (stream_exec _ _ _) as [r q]. destruct Hs as (bb' & b' & -> & ? & ? & <-).
  f_equal. by apply IH.
Qed.

(** C5. A byte buffer created over [n] bytes behaves, for every sequence of
    add and pop calls, as a byte stream that can hold [n - 1] bytes: an add
    stores exactly the prefix that fits and reports its length, a pop returns
    the oldest bytes in order, at most the length asked for, across any
    number of wrap-arounds. *)
Theorem byte_buffer_refines_stream (n : Z) (buffer : arr Z) (ops : list byte_op) :
  0 < n < 65536 -> Forall byte_op_ok ops ->
  byte_buffer_run (pifus_byte_buffer_create n, buffer) ops =
  stream_run (Z.to_nat (n - 1)) [] ops.
Proof.
  intros Hn Hops. by rewrite (byte_buffer_run_stream n) by (done || by apply bb_create_wf).
Qed.

(** The run of [api/test/bytebuffertest/src/bytebuffer.c]. *)
Lemma byte_buffer_refines_stream_witness :
  byte_buffer_run (pifus_byte_buffer_create 9, fun _ => 0)
    [BytesAdd [1; 2; 3; 4; 5; 6; 7; 8]; BytesPop 8;
     BytesAdd [1; 2; 3; 4; 5]; BytesAdd [6; 7]; BytesPop 7;
     BytesAdd [1; 2]; BytesPop 2;
     BytesAdd [1; 2; 3; 4; 5; 6; 7; 8; 9]; BytesPop 9] =
  [RetAdded 8; RetPopped [1; 2; 3; 4; 5; 6; 7; 8];
   RetAdded 5; RetAdded 2; RetPopped [1; 2; 3; 4; 5; 6; 7];
   RetAdded 2; RetPopped [1; 2];
   RetAdded 8; RetPopped [1; 2; 3; 4; 5; 6; 7; 8]].
Proof.
  refine (eq_trans (byte_buffer_refines_stream 9 (fun _ => 0) _ _ _) _).
  - lia.
  - repeat constructor; simpl; lia.
  - reflexivity.
Defined.

(** C6. Both calls stay inside the array they are given: an add changes no
    index outside [0, end), and a pop writes exactly the bytes it reports
    into the output and depends on no byte of the array outside [0, end). *)
Theorem byte_buffer_in_bounds (bb : pifus_byte_buffer) (buffer buffer2 src out : arr Z)
    (pos len : Z) :
  bb_wf bb -> 0 <= len < 65536 ->
  (forall x, 0 <= x < bb_end bb -> buffer x = buffer2 x) ->
  (forall x, ~ 0 <= x < bb_end bb ->
     (pifus_byte_buffer_add bb buffer src pos len).2 x = buffer x) /\
  (let '(n, _, out') := pifus_byte_buffer_pop bb buffer len out pos in
   0 <= n <= len /\
   (forall x, ~ pos <= x < pos + n -> out' x = out x) /\
   forall x, out' x = (pifus_byte_buffer_pop bb buffer2 len out pos).2 x).
Proof.
  intros Hwf Hlen Hsame. pose proof (rv_count_bounds _ Hwf) as Hc.
  unfold rv_capacity in Hc. simpl in Hc. split.
  - destruct (byte_buffer_add_spec bb buffer src pos len Hwf Hlen)
      as (bb' & b' & -> & _ & _ & _ & _ & Hout). exact Hout.
  - destruct (byte_buffer_pop_spec bb buffer len out pos Hwf Hlen)
      as (bb1 & out1 & -> & _ & _ & _ & Ht1 & Ho1).
    destruct (byte_buffer_pop_spec bb buffer2 len out pos Hwf Hlen)
      as (bb2 & out2 & -> & _ & _ & _ & Ht2 & Ho2). simpl.
    set (n := Z.min len (rv_count (bb_view bb))) in *.
    split_and!; [lia|lia|done|]. intros x.
    destruct (decide (pos <= x < pos + n)) as [Hin|]; [|by rewrite Ho1, Ho2].
    assert (bb_contents bb buffer = bb_contents bb buffer2) as Hcc.
    { apply rv_contents_ext. intros k Hk. apply Hsame.
      apply (rv_slot_bounds (bb_view bb)); [done|simpl; lia]. }
    rewrite <- Hcc, <- Ht1 in Ht2.
    apply (f_equal (.!! Z.to_nat (x - pos))) in Ht2.
    rewrite !lookup_slice in Ht2 by lia. injection Ht2 as Ht2.
    replace x with (pos + Z.of_nat (Z.to_nat (x - pos))) by lia. done.
Qed.

Lemma byte_buffer_in_bounds_witness :
  (pifus_byte_buffer_add (ByteBuffer 2 4 3) (fun _ => 0) (fun i => i) 5 9).2 4 = 0 /\
  bb_wf (ByteBuffer 2 4 3).
Proof.
  assert (bb_wf (ByteBuffer 2 4 3)) as Hwf by (unfold bb_wf, rv_wf; simpl; lia).
  split; [|exact Hwf].
  refine (proj1 (byte_buffer_in_bounds (ByteBuffer 2 4 3) (fun _ => 0) (fun _ => 0)
    (fun i => i) (fun _ => 0) 5 9 Hwf _ _) 4 _); simpl; try done; lia.
Defined.
