(* ===== verification/Memory.v ===== *)
(** * Bytes of a shared memory region

    A region is an array of bytes; the structures the code lays over it are
    read and written in the little-endian representation of x86-64. *)
From S2P Require Import Prelude.

Definition mem : Type := arr Z.

(** Bytes to an unsigned integer, and [n] bytes of an integer. *)
Fixpoint le_decode (l : list Z) : Z :=
  match l with [] => 0 | b :: l => u8 b + 256 * le_decode l end.

Fixpoint le_encode (n : nat) (z : Z) : list Z :=
  match n with O => [] | S n => u8 z :: le_encode n (z / 256) end.

Definition load64 (m : mem) (a : Z) : Z := le_decode (slice m a 8).
Definition store64 (m : mem) (a v : Z) : mem :=
  memcpy m a (arr_of_list 0 (le_encode 8 v)) 0 8.

Definition load16 (m : mem) (a : Z) : Z := le_decode (slice m a 2).
Definition store16 (m : mem) (a v : Z) : mem :=
  memcpy m a (arr_of_list 0 (le_encode 2 v)) 0 2.

Definition load32 (m : mem) (a : Z) : Z := le_decode (slice m a 4).
Definition store32 (m : mem) (a v : Z) : mem :=
  memcpy m a (arr_of_list 0 (le_encode 4 v)) 0 4.

(** A [bool] is one byte. *)
Definition load_bool (m : mem) (a : Z) : bool := negb (u8 (m a) =? 0).
Definition store_bool (m : mem) (a : Z) (b : bool) : mem :=
  <[a := int_of_bool b]> m.

Lemma length_le_encode n z : length (le_encode n z) = n.
Proof. revert z. induction n; intros; simpl; [done|]. by rewrite IHn. Qed.

Lemma le_decode_encode n z : le_decode (le_encode n z) = z mod 256 ^ Z.of_nat n.
Proof.
  revert z. induction n as [|n IH]; intros z.
  - change (256 ^ Z.of_nat 0) with 1. by rewrite Z.mod_1_r.
  - cbn [le_encode le_decode]. rewrite IH. unfold u8. rewrite Z.mod_mod by done.
    replace (Z.of_nat (S n)) with (1 + Z.of_nat n) by lia.
    rewrite Z.pow_add_r by lia. change (256 ^ 1) with 256.
    rewrite Z.rem_mul_r; [done|lia|]. apply Z.pow_pos_nonneg; lia.
Qed.

Lemma le_decode_range l : 0 <= le_decode l < 256 ^ Z.of_nat (length l).
Proof.
  induction l as [|b l IH]; cbn [le_decode length]; [done|].
  replace (Z.of_nat (S (length l))) with (1 + Z.of_nat (length l)) by lia.
  rewrite Z.pow_add_r by lia. pose proof (u8_range b). lia.
Qed.

Lemma load64_range m a : 0 <= load64 m a < 18446744073709551616.
Proof. pose proof (le_decode_range (slice m a 8)). by rewrite length_slice in *. Qed.

Lemma load64_ext m m' a :
  (forall x, a <= x < a + 8 -> m x = m' x) -> load64 m a = load64 m' a.
Proof.
  intros Heq. unfold load64. f_equal. apply slice_ext. intros k Hk. apply Heq. lia.
Qed.

(** What was stored in [n] bytes, up to its width. *)
Lemma decode_stored m a v n :
  le_decode (slice (memcpy m a (arr_of_list 0 (le_encode n v)) 0 (Z.of_nat n)) a (Z.of_nat n)) =
    v mod 256 ^ Z.of_nat n.
Proof.
  rewrite slice_memcpy_same, slice_arr_of_list by (rewrite length_le_encode; lia).
  rewrite Nat2Z.id, take_ge by (by rewrite length_le_encode). apply le_decode_encode.
Qed.

Lemma load64_store64 m a v : load64 (store64 m a v) a = u64 v.
Proof. apply (decode_stored m a v 8). Qed.

Lemma store64_out m a v x : ~ a <= x < a + 8 -> store64 m a v x = m x.
Proof. apply memcpy_out. Qed.

Lemma load16_range m a : 0 <= load16 m a < 65536.
Proof. pose proof (le_decode_range (slice m a 2)). by rewrite length_slice in *. Qed.

Lemma load16_store16 m a v : load16 (store16 m a v) a = u16 v.
Proof. apply (decode_stored m a v 2). Qed.

Lemma store16_out m a v x : ~ a <= x < a + 2 -> store16 m a v x = m x.
Proof. apply memcpy_out. Qed.

Lemma load16_ext m m' a :
  (forall x, a <= x < a + 2 -> m x = m' x) -> load16 m a = load16 m' a.
Proof. intros Heq. unfold load16. f_equal. apply slice_ext. intros k Hk. apply Heq. lia. Qed.

Lemma load32_range m a : 0 <= load32 m a < 4294967296.
Proof. pose proof (le_decode_range (slice m a 4)). by rewrite length_slice in *. Qed.

Lemma load32_store32 m a v : load32 (store32 m a v) a = u32 v.
Proof. apply (decode_stored m a v 4). Qed.

Lemma store32_out m a v x : ~ a <= x < a + 4 -> store32 m a v x = m x.
Proof. apply memcpy_out. Qed.

Lemma load32_ext m m' a :
  (forall x, a <= x < a + 4 -> m x = m' x) -> load32 m a = load32 m' a.
Proof. intros Heq. unfold load32. f_equal. apply slice_ext. intros k Hk. apply Heq. lia. Qed.

Lemma load_store_bool m a b : load_bool (store_bool m a b) a = b.
Proof. unfold load_bool, store_bool, mem in *. rewrite arr_insert_eq. by destruct b. Qed.

Lemma store_bool_out m a b x : x <> a -> store_bool m a b x = m x.
Proof. intros. unfold store_bool. by apply arr_insert_ne. Qed.

(** Two regions that hold the same bytes from [lo] up to [hi]. *)
Definition same_bytes (lo hi : Z) (m m' : mem) : Prop :=
  forall x, lo <= x < hi -> m x = m' x.

#[export] Instance same_bytes_equiv lo hi : Equivalence (same_bytes lo hi).
Proof.
  split; unfold same_bytes; [done| |].
  - intros m1 m2 H x Hx. by rewrite H.
  - intros m1 m2 m3 H1 H2 x Hx. by rewrite H1, H2.
Qed.

Lemma same_bytes_sub lo hi lo' hi' m m' :
  same_bytes lo hi m m' -> lo <= lo' -> hi' <= hi -> same_bytes lo' hi' m m'.
Proof. intros H ?? x Hx. apply H. lia. Qed.

Lemma same_bytes_slice lo hi m m' a n :
  same_bytes lo hi m m' -> lo <= a -> a + n <= hi -> slice m a n = slice m' a n.
Proof. intros H ??. apply slice_ext. intros k Hk. apply H. lia. Qed.

#[export] Hint Resolve same_bytes_sub : pifus.

(** ** Writing a run of bytes *)

Definition write_bytes (m : mem) (a : Z) (l : list Z) : mem :=
  fun x => if (a <=? x) && (x <? a + Z.of_nat (length l))
           then default 0 (l !! Z.to_nat (x - a)) else m x.

(** Two memories with the same bytes everywhere. *)
Definition same_mem (m m' : mem) : Prop := forall x, m x = m' x.

#[export] Instance same_mem_equivalence : Equivalence same_mem.
Proof.
  split; [done|by intros m m' H x|]. intros m1 m2 m3 H1 H2 x. by rewrite H1.
Qed.

#[export] Instance write_bytes_proper : Proper (same_mem ==> eq ==> eq ==> same_mem) write_bytes.
Proof. intros m m' H a _ <- l _ <- x. unfold write_bytes. by rewrite H. Qed.

Lemma write_bytes_nil m a : same_mem (write_bytes m a []) m.
Proof. intros x. unfold write_bytes. simpl. ztest; try lia; done. Qed.

Lemma write_bytes_app m a l1 l2 :
  same_mem (write_bytes (write_bytes m a l1) (a + Z.of_nat (length l1)) l2)
    (write_bytes m a (l1 ++ l2)).
Proof.
  intros x. unfold write_bytes. rewrite length_app, Nat2Z.inj_add.
  destruct (Z.leb_spec (a + Z.of_nat (length l1)) x), (Z.leb_spec a x); try lia; cbn [andb].
  - rewrite Z.add_assoc. destruct (Z.ltb_spec x (a + Z.of_nat (length l1))); [lia|].
    destruct (x <? _); [|done]. rewrite lookup_app_r by lia. do 2 f_equal. lia.
  - destruct (Z.ltb_spec x (a + Z.of_nat (length l1))), (Z.ltb_spec x
      (a + (Z.of_nat (length l1) + Z.of_nat (length l2)))); try lia.
    by rewrite lookup_app_l by lia.
  - done.
Qed.

Lemma slice_write_bytes m a l : slice (write_bytes m a l) a (Z.of_nat (length l)) = l.
Proof.
  apply list_eq_same_length with (n := length l); [done|rewrite length_slice; lia|].
  intros k x y Hk. rewrite lookup_slice by lia. unfold write_bytes.
  destruct (Z.leb_spec a (a + Z.of_nat k)), (Z.ltb_spec (a + Z.of_nat k) (a + Z.of_nat (length l))); try lia.
  cbn [andb]. replace (Z.to_nat (a + Z.of_nat k - a)) with k by lia. intros [= <-] Hy. by rewrite Hy.
Qed.

Lemma slice_same_mem m m' a n : same_mem m m' -> slice m a n = slice m' a n.
Proof. intros H. apply slice_ext. intros. apply H. Qed.

(** A copy that ends up with the bytes [l] at [a], and nothing else. *)
Lemma write_bytes_intro m m' a l :
  slice m' a (Z.of_nat (length l)) = l ->
  (forall x, ~ a <= x < a + Z.of_nat (length l) -> m' x = m x) ->
  same_mem m' (write_bytes m a l).
Proof.
  intros Hin Hout x. unfold write_bytes.
  destruct (Z.leb_spec a x), (Z.ltb_spec x (a + Z.of_nat (length l))); simpl;
    try (apply Hout; lia).
  assert (l !! Z.to_nat (x - a) = Some (m' x)) as ->; [|done].
  rewrite <- Hin at 1. rewrite lookup_slice by lia. do 2 f_equal. lia.
Qed.

Lemma memcpy_write_bytes m a src s n :
  0 <= n -> same_mem (memcpy m a src s n) (write_bytes m a (slice src s n)).
Proof.
  intros Hn. apply write_bytes_intro; rewrite length_slice, Z2Nat.id by lia.
  - apply slice_memcpy_same.
  - intros x Hx. apply memcpy_out. lia.
Qed.

(** A sequence of writes. *)
Definition write_all (m : mem) (ws : list (Z * list Z)) : mem :=
  foldl (fun m w => write_bytes m w.1 w.2) m ws.

#[export] Instance write_all_proper : Proper (same_mem ==> eq ==> same_mem) write_all.
Proof.
  intros m m' H ws _ <-. revert m m' H.
  induction ws as [|w ws IH]; intros m m' H; simpl; [done|]. apply IH. by rewrite H.
Qed.
