(* ===== verification/Align.v ===== *)
(** * Statistics of memory ([lwip/src/include/lwip/stats.h])

    The counters of the heap and of every pool; both count in 16 bits. *)
From S2P Require Import Prelude.

Record stats_mem := StatsMem {
  ms_err : Z; ms_avail : Z; ms_used : Z; ms_max : Z; ms_illegal : Z }.

Definition stats_inc_err (s : stats_mem) : stats_mem :=
  StatsMem (u16 (ms_err s + 1)) (ms_avail s) (ms_used s) (ms_max s) (ms_illegal s).
Definition stats_inc_illegal (s : stats_mem) : stats_mem :=
  StatsMem (ms_err s) (ms_avail s) (ms_used s) (ms_max s) (u16 (ms_illegal s + 1)).
Definition stats_set_avail (s : stats_mem) (y : Z) : stats_mem :=
  StatsMem (ms_err s) (u16 y) (ms_used s) (ms_max s) (ms_illegal s).
Definition stats_inc_used (s : stats_mem) (y : Z) : stats_mem :=
  let used := u16 (ms_used s + y) in
  StatsMem (ms_err s) (ms_avail s) used (if ms_max s <? used then used else ms_max s) (ms_illegal s).
Definition stats_dec_used (s : stats_mem) (y : Z) : stats_mem :=
  StatsMem (ms_err s) (ms_avail s) (u16 (ms_used s - y)) (ms_max s) (ms_illegal s).

(** ** Alignment ([lwip/src/include/lwip/arch.h])

    The macros that round sizes and addresses up, shared by the packet buffers
    and the two allocators of lwIP, and what they compute. *)

Definition MEM_ALIGNMENT : Z := 4.
Definition LWIP_MEM_ALIGN_SIZE (size : Z) : Z :=
  Z.land (u32 (size + MEM_ALIGNMENT - 1)) (u32 (Z.lnot (MEM_ALIGNMENT - 1))).
Definition LWIP_MEM_ALIGN (addr : Z) : Z :=
  Z.land (u64 (addr + MEM_ALIGNMENT - 1)) (u64 (Z.lnot (MEM_ALIGNMENT - 1))).

Lemma land_align w a : 2 <= w -> 0 <= a < 2 ^ w -> Z.land a (2 ^ w - 4) = 4 * (a / 4).
Proof.
  intros Hw Ha. replace (2 ^ w - 4) with (Z.shiftl (Z.ones (w - 2)) 2).
  2:{ rewrite Z.shiftl_mul_pow2, Z.ones_equiv by lia. replace (2 ^ w) with (2 ^ (w - 2) * 2 ^ 2); [lia|].
      rewrite <- Z.pow_add_r by lia. f_equal. lia. }
  rewrite Z.mul_comm. change (a / 4 * 4) with (a / 2 ^ 2 * 2 ^ 2).
  rewrite <- Z.shiftr_div_pow2, <- Z.shiftl_mul_pow2 by lia. apply Z.bits_inj'. intros n Hn.
  rewrite Z.land_spec, !Z.shiftl_spec by lia. destruct (Z.ltb_spec n 2) as [H2|H2].
  - rewrite !(Z.testbit_neg_r _ (n - 2)) by lia. apply andb_false_r.
  - rewrite Z.shiftr_spec by lia. replace (n - 2 + 2) with n by lia.
    destruct (Z.ltb_spec n w) as [Hlt|Hge].
    + rewrite Z.ones_spec_low by lia. apply andb_true_r.
    + rewrite Z.ones_spec_high by lia. rewrite andb_false_r. symmetry.
      rewrite <- (Z.mod_small a (2 ^ w)) by lia. apply Z.mod_pow2_bits_high; lia.
Qed.

Lemma mem_align_size z : 0 <= z < 4294967292 -> LWIP_MEM_ALIGN_SIZE z = 4 * ((z + 3) / 4).
Proof.
  intros Hz. unfold LWIP_MEM_ALIGN_SIZE, MEM_ALIGNMENT. rewrite u32_small by lia.
  change (u32 (Z.lnot (4 - 1))) with (2 ^ 32 - 4). rewrite land_align by lia. do 2 f_equal. lia.
Qed.

Lemma mem_align z : 0 <= z < 18446744073709551612 -> LWIP_MEM_ALIGN z = 4 * ((z + 3) / 4).
Proof.
  intros Hz. unfold LWIP_MEM_ALIGN, MEM_ALIGNMENT. rewrite u64_small by lia.
  change (u64 (Z.lnot (4 - 1))) with (2 ^ 64 - 4). rewrite land_align by lia. do 2 f_equal. lia.
Qed.

(** Sizes in [mem_size_t]: rounding up stays below the next multiple, unless it
    leaves the 16 bits. *)
Lemma mem_align_size_range z :
  0 <= z < 65536 ->
  LWIP_MEM_ALIGN_SIZE z mod 4 = 0 /\ z <= LWIP_MEM_ALIGN_SIZE z <= z + 3.
Proof.
  intros Hz. rewrite mem_align_size by lia. split.
  - rewrite Z.mul_comm. by apply Z.mod_mul.
  - pose proof (Z.div_mod (z + 3) 4 ltac:(lia)). pose proof (Z.mod_pos_bound (z + 3) 4 ltac:(lia)). lia.
Qed.
