(* ===== verification/Refinement.v ===== *)
(** * Sequences of calls against a specification

    What the components with a state of their own share: an implementation
    executes calls one after the other, a specification says for each call
    what it may answer and do to an abstract state, and a client keeps to a
    contract that can be checked before each call.  If one call refines the
    specification, every sequence does. *)
From S2P Require Import Prelude.

Section calls.
Context {state abstract call answer client : Type}.
Variables
  (exec : state -> call -> outcome (answer * state))
  (step : abstract -> call -> answer -> abstract -> Prop)
  (may_call : state -> client -> call -> bool)
  (after : client -> call -> answer -> client).

(** The calls of a list in turn, with their answers. *)
Fixpoint run_calls (s : state) (cs : list call) : outcome (list answer * state) :=
  match cs with
  | [] => Ret ([], s)
  | c :: cs =>
      '(r, s) ← exec s c;
      '(rs, s) ← run_calls s cs;
      Ret (r :: rs, s)
  end.

(** The client, whose knowledge is [k], keeps to its contract in all of them. *)
Fixpoint keeps_contract (s : state) (k : client) (cs : list call) : bool :=
  match cs with
  | [] => true
  | c :: cs =>
      may_call s k c &&
      match exec s c with Ret (r, s') => keeps_contract s' (after k c r) cs | _ => true end
  end.

(** A run of the specification. *)
Inductive spec_run : abstract -> list call -> list answer -> abstract -> Prop :=
  | spec_run_nil a : spec_run a [] [] a
  | spec_run_cons a c r a1 cs rs a2 :
      step a c r a1 -> spec_run a1 cs rs a2 -> spec_run a (c :: cs) (r :: rs) a2.

(** One call refines the specification. *)
Definition call_refines (rel : state -> client -> abstract -> Prop) : Prop :=
  forall s k a c, rel s k a -> may_call s k c = true ->
    exists r s' a', exec s c = Ret (r, s') /\ step a c r a' /\ rel s' (after k c r) a'.

Lemma run_calls_refines rel cs s k a :
  call_refines rel -> rel s k a -> keeps_contract s k cs = true ->
  exists rs s' k' a', run_calls s cs = Ret (rs, s') /\ spec_run a cs rs a' /\ rel s' k' a'.
Proof.
  intros Hcall. revert s k a. induction cs as [|c cs IH]; intros s k a Hrel Hk.
  { exists [], s, k, a. split_and!; (done || constructor). }
  cbn [keeps_contract] in Hk. apply andb_true_iff in Hk as [Hmay Hk].
  destruct (Hcall s k a c Hrel Hmay) as (r & s1 & a1 & Heq & Hst & Hrel1). rewrite Heq in Hk.
  destruct (IH s1 _ a1 Hrel1 Hk) as (rs & s' & k' & a' & Hrun & Hspec & Hrel').
  exists (r :: rs), s', k', a'. cbn [run_calls]. rewrite Heq. cbn [mbind outcome_bind]. rewrite Hrun.
  split_and!; [done|by econstructor|done].
Qed.
End calls.
