(* ===== verification/Shmem.v ===== *)
(** * The allocator of an application's shared data region
      ([api/src/pifus_shmem.c])

    Payloads of writes and receives live in blocks that follow
    [struct pifus_app] in the application's region, each behind a
    [struct pifus_memory_block] header.  [app] is the address where the region
    is mapped; a pointer is its distance from [app], which a sum that wraps around
    the address space changes like the address itself; [None] is [NULL]. *)
From S2P Require Import Prelude Memory.

(** [sizeof(struct pifus_app)]: one [uint32_t]. [sizeof(struct
    pifus_memory_block)]: [bool], padding, [size_t], [int64_t]. *)
Definition SIZEOF_PIFUS_APP : Z := 4.
Definition SIZEOF_MEMORY_BLOCK : Z := 24.
Definition SHM_APP_SIZE : Z := 1000000.

(** Where a region can be mapped. *)
Class Mapped (app : Z) : Prop := {
  mapped : 0 <= app /\ app + SHM_APP_SIZE < 18446744073709551616 }.

(** [p + n] as a sum of 64-bit addresses. *)
Definition ptr_add (app p n : Z) : Z := u64 (app + p + n) - app.

(** The fields of the header at [p]. *)
Definition blk_free (m : mem) (p : Z) : bool := load_bool m p.
Definition blk_size (m : mem) (p : Z) : Z := load64 m (p + 8).
Definition blk_prev (m : mem) (p : Z) : Z := i64 (load64 m (p + 16)).
Definition set_free (m : mem) (p : Z) (b : bool) : mem := store_bool m p b.
Definition set_size (m : mem) (p v : Z) : mem := store64 m (p + 8) v.
Definition set_prev (m : mem) (p v : Z) : mem := store64 m (p + 16) v.

Definition shm_data_get_data_ptr (p : Z) : Z := p + SIZEOF_MEMORY_BLOCK.

Definition shm_data_is_ptr_out_of_range (ptr : Z) : bool := SHM_APP_SIZE <? ptr.

Definition shm_data_get_offset (p : Z) : Z := i64 (p + SIZEOF_PIFUS_APP - 8).

Definition shm_data_get_block_ptr (block_offset : Z) : Z :=
  SIZEOF_PIFUS_APP + block_offset.

Definition shm_data_get_next_block_ptr (app : Z) (m : mem) (p : Z) : option Z :=
  let next_block := ptr_add app p (SIZEOF_MEMORY_BLOCK + blk_size m p) in
  if shm_data_is_ptr_out_of_range next_block then None else Some next_block.

(** The result is the block found, or [NULL], and the memory. The outer
    [None] would be an endless recursion. *)
Fixpoint shm_data_next_suitable_block (fuel : nat) (app : Z) (m : mem)
    (previous_block : option Z) (current_block : Z) (desired_size : Z) :
    option (option Z * mem) :=
  match fuel with
  | O => None
  | S fuel =>
      let block_exists := 0 <? blk_size m current_block in
      if negb block_exists then
        if shm_data_is_ptr_out_of_range
             (ptr_add app (shm_data_get_data_ptr current_block) desired_size) then Some (None, m)
        else
          let m := set_size m current_block desired_size in
          let m :=
            match previous_block with
            | None => set_prev m current_block (-1)
            | Some previous_block =>
                set_prev m current_block (shm_data_get_offset previous_block)
            end in
          Some (Some current_block, m)
      else
        let next_block := shm_data_get_next_block_ptr app m current_block in
        let block_exactly_that_size :=
          block_exists && (blk_size m current_block =? desired_size)
          && blk_free m current_block in
        if block_exactly_that_size then Some (Some current_block, m)
        else
          let block_large_enough :=
            block_exists && (desired_size <? blk_size m current_block)
            && (SIZEOF_MEMORY_BLOCK <? u64 (blk_size m current_block - desired_size))
            && blk_free m current_block in
          if block_large_enough then
            let pre_split_size := blk_size m current_block in
            let m := set_size m current_block desired_size in
            match shm_data_get_next_block_ptr app m current_block with
            | None => None (* NULL dereference; the block that is split lies in the region *)
            | Some new_next_block =>
                let m := set_free m new_next_block true in
                let m := set_size m new_next_block
                  (u64 (pre_split_size - desired_size - SIZEOF_MEMORY_BLOCK)) in
                let m := set_prev m new_next_block (shm_data_get_offset current_block) in
                let m :=
                  match next_block with
                  | Some next_block =>
                      if 0 <? blk_size m next_block then
                        set_prev m next_block (shm_data_get_offset new_next_block)
                      else m
                  | None => m
                  end in
                Some (Some current_block, m)
            end
          else
            match next_block with
            | Some next_block =>
                shm_data_next_suitable_block fuel app m (Some current_block) next_block
                  desired_size
            | None => Some (None, m)
            end
  end.

(** Every step of the recursion advances by more than a header. *)
Definition suitable_block_fuel : nat := Z.to_nat (SHM_APP_SIZE / SIZEOF_MEMORY_BLOCK + 1).

(** The result: the block's offset and pointer, or [None] for [false]. *)
Definition shm_data_allocate (app : Z) (m : mem) (size : Z) : option (option (Z * Z) * mem) :=
  let start_block := SIZEOF_PIFUS_APP in
  '(allocating_block, m) ←
    shm_data_next_suitable_block suitable_block_fuel app m None start_block size;
  match allocating_block with
  | None => Some (None, m)
  | Some p =>
      let m := set_free m p false in
      Some (Some (shm_data_get_offset p, p), m)
  end.

Definition shm_data_delete_block (m : mem) (p : Z) : mem :=
  memset m p 0 (u64 (SIZEOF_MEMORY_BLOCK + blk_size m p)).

(** The part of [shm_data_free] that merges with the previous block; the
    block that goes on to be freed, and the memory. *)
Definition shm_data_merge_previous (m : mem) (block next_block : Z)
    (exists_previous_block exists_next_block : bool) : Z * mem :=
  if exists_previous_block then
    let previous_block := shm_data_get_block_ptr (blk_prev m block) in
    if blk_free m previous_block then
      let m :=
        if exists_next_block then set_prev m next_block (blk_prev m block) else m in
      (previous_block,
       set_size m previous_block
         (u64 (blk_size m previous_block + (SIZEOF_MEMORY_BLOCK + blk_size m block))))
    else (block, m)
  else (block, m).

(** The part that merges with the next block. *)
Definition shm_data_merge_next (m : mem) (new_merged_block next_block : Z)
    (exists_next_block : bool) : mem :=
  if exists_next_block && blk_free m next_block then
    set_size m new_merged_block
      (u64 (blk_size m new_merged_block + (SIZEOF_MEMORY_BLOCK + blk_size m next_block)))
  else m.

Definition shm_data_free (app : Z) (m : mem) (block : Z) : mem :=
  let next_block := shm_data_get_next_block_ptr app m block in
  let exists_previous_block := 0 <=? blk_prev m block in
  let exists_next_block :=
    match next_block with Some next_block => 0 <? blk_size m next_block | None => false end in
  let next_block := default 0 next_block in (* looked at only if it exists *)
  if negb exists_previous_block && negb exists_next_block then
    shm_data_delete_block m block
  else
    let '(new_merged_block, m) :=
      shm_data_merge_previous m block next_block exists_previous_block exists_next_block in
    let m := shm_data_merge_next m new_merged_block next_block exists_next_block in
    let m := memset m (shm_data_get_data_ptr new_merged_block) 0
               (blk_size m new_merged_block) in
    set_free m new_merged_block true.
