(* ===== verification/ShmemSpec.v ===== *)
(** * What the shared data allocator promises

    The region as a list of blocks, allocation as first fit on that list, and
    freeing as coalescing; [Shmem] is proved to implement both byte by byte.
    Also where freeing breaks the back links, and what follows. *)
From S2P Require Import Prelude Memory Shmem.

Create Rewrite HintDb blk.

(** ** Headers *)

Section headers.
Implicit Types (m : mem) (p q : Z).

Lemma blk_free_ext m m' p : m p = m' p -> blk_free m p = blk_free m' p.
Proof. intros H. unfold blk_free, load_bool. by rewrite H. Qed.
Lemma blk_size_ext m m' p :
  (forall x, p + 8 <= x < p + 16 -> m x = m' x) -> blk_size m p = blk_size m' p.
Proof. intros H. apply load64_ext. intros. apply H. lia. Qed.
Lemma blk_prev_ext m m' p :
  (forall x, p + 16 <= x < p + 24 -> m x = m' x) -> blk_prev m p = blk_prev m' p.
Proof. intros H. unfold blk_prev. f_equal. apply load64_ext. intros. apply H. lia. Qed.

Lemma set_free_out m p b x : x <> p -> set_free m p b x = m x.
Proof. apply store_bool_out. Qed.
Lemma set_size_out m p v x : ~ p + 8 <= x < p + 16 -> set_size m p v x = m x.
Proof. intros. apply store64_out. lia. Qed.
Lemma set_prev_out m p v x : ~ p + 16 <= x < p + 24 -> set_prev m p v x = m x.
Proof. intros. apply store64_out. lia. Qed.

Lemma blk_free_set_free m p b : blk_free (set_free m p b) p = b.
Proof. apply load_store_bool. Qed.
Lemma blk_size_set_free m p b q : p < q + 8 \/ q + 16 <= p ->
  blk_size (set_free m p b) q = blk_size m q.
Proof. intros. apply blk_size_ext. intros. apply set_free_out. lia. Qed.
Lemma blk_prev_set_free m p b q : p < q + 16 \/ q + 24 <= p ->
  blk_prev (set_free m p b) q = blk_prev m q.
Proof. intros. apply blk_prev_ext. intros. apply set_free_out. lia. Qed.

Lemma blk_size_set_size m p v : blk_size (set_size m p v) p = u64 v.
Proof. apply load64_store64. Qed.
Lemma blk_free_set_size m p v q : q < p + 8 \/ p + 16 <= q ->
  blk_free (set_size m p v) q = blk_free m q.
Proof. intros. apply blk_free_ext, set_size_out. lia. Qed.
Lemma blk_prev_set_size m p v q : q + 24 <= p + 8 \/ p <= q ->
  blk_prev (set_size m p v) q = blk_prev m q.
Proof. intros. apply blk_prev_ext. intros. apply set_size_out. lia. Qed.

Lemma blk_prev_set_prev m p v :
  -9223372036854775808 <= v < 9223372036854775808 ->
  blk_prev (set_prev m p v) p = v.
Proof.
  intros. unfold blk_prev, set_prev. rewrite load64_store64.
  rewrite <- (i64_small v) at 2 by done. unfold i64.
  by rewrite u64_idem.
Qed.
Lemma blk_free_set_prev m p v q : q < p + 16 \/ p + 24 <= q ->
  blk_free (set_prev m p v) q = blk_free m q.
Proof. intros. apply blk_free_ext, set_prev_out. lia. Qed.
Lemma blk_size_set_prev m p v q : q <= p \/ p + 16 <= q ->
  blk_size (set_prev m p v) q = blk_size m q.
Proof. intros. apply blk_size_ext. intros. apply set_prev_out. lia. Qed.

Lemma blk_free_set_free_ne m p b q : p <> q ->
  blk_free (set_free m p b) q = blk_free m q.
Proof. intros. apply blk_free_ext, set_free_out. lia. Qed.
Lemma blk_size_set_size_ne m p v q : q + 8 <= p \/ p + 8 <= q ->
  blk_size (set_size m p v) q = blk_size m q.
Proof. intros. apply blk_size_ext. intros. apply set_size_out. lia. Qed.
Lemma blk_prev_set_prev_ne m p v q : q + 8 <= p \/ p + 8 <= q ->
  blk_prev (set_prev m p v) q = blk_prev m q.
Proof. intros. apply blk_prev_ext. intros. apply set_prev_out. lia. Qed.

Lemma blk_size_range m p : 0 <= blk_size m p < 18446744073709551616.
Proof. apply load64_range. Qed.
End headers.

#[export] Hint Rewrite blk_free_set_free blk_size_set_size : blk.
#[export] Hint Rewrite blk_size_set_free blk_prev_set_free blk_free_set_size
  blk_prev_set_size blk_free_set_prev blk_size_set_prev blk_prev_set_prev
  blk_free_set_free_ne blk_size_set_size_ne blk_prev_set_prev_ne
  using lia : blk.

(** Read through stores that do not concern the field read. *)
Ltac blk := autorewrite with blk; try done.
(** A byte that none of the stores touches. *)
Ltac blk_out :=
  repeat first
    [ rewrite set_free_out by lia | rewrite set_size_out by lia
    | rewrite set_prev_out by lia ].

(** ** The region as a list of blocks *)

Record blk := Blk { b_free : bool; b_size : Z }.

Definition blk_extent (b : blk) : Z := SIZEOF_MEMORY_BLOCK + b_size b.

(** The headers from [p] on describe [bs], and only zeroes follow them. *)
Fixpoint chain (m : mem) (p : Z) (bs : list blk) : Prop :=
  match bs with
  | [] => p <= SHM_APP_SIZE /\ forall x, p <= x -> m x = 0
  | b :: bs =>
      blk_free m p = b_free b /\ blk_size m p = b_size b /\ 0 < b_size b /\
      chain m (p + blk_extent b) bs
  end.

(** The back links, the first one being [prev]. *)
Fixpoint links (m : mem) (p prev : Z) (bs : list blk) : Prop :=
  match bs with
  | [] => True
  | b :: bs => blk_prev m p = prev /\
      links m (p + blk_extent b) (shm_data_get_offset p) bs
  end.

(** Address and payload size of the blocks in use. *)
Fixpoint used (p : Z) (bs : list blk) : list (Z * Z) :=
  match bs with
  | [] => []
  | b :: bs =>
      (if b_free b then [] else [(p, b_size b)]) ++ used (p + blk_extent b) bs
  end.

Definition heap (m : mem) (bs : list blk) : Prop := chain m SIZEOF_PIFUS_APP bs.
Definition linked (m : mem) (bs : list blk) : Prop := links m SIZEOF_PIFUS_APP (-1) bs.
Definition heap_used (bs : list blk) : list (Z * Z) := used SIZEOF_PIFUS_APP bs.

(** First fit: an exact match is reused, a larger block is split. *)
Fixpoint first_fit (p : Z) (bs : list blk) (size : Z) : option (Z * list blk) :=
  match bs with
  | [] =>
      if SHM_APP_SIZE <? p + SIZEOF_MEMORY_BLOCK + size then None
      else Some (p, [Blk false size])
  | b :: bs =>
      if b_free b && (b_size b =? size) then Some (p, Blk false size :: bs)
      else if b_free b && (size + SIZEOF_MEMORY_BLOCK <? b_size b) then
        Some (p, Blk false size ::
                 Blk true (b_size b - size - SIZEOF_MEMORY_BLOCK) :: bs)
      else
        match first_fit (p + blk_extent b) bs size with
        | Some (q, bs) => Some (q, b :: bs)
        | None => None
        end
  end.

Lemma chain_ext m m' p bs :
  (forall x, p <= x -> m x = m' x) -> chain m p bs -> chain m' p bs.
Proof.
  revert p. induction bs as [|b bs IH]; intros p Heq; simpl.
  - intros [? Hz]. split; [done|]. intros. rewrite <- Heq by done. by apply Hz.
  - unfold blk_extent, SIZEOF_MEMORY_BLOCK.
    intros (Hf & Hs & Hpos & Hc). split_and!; [| |done|].
    + rewrite <- Hf. symmetry. apply blk_free_ext, Heq. lia.
    + rewrite <- Hs. symmetry. apply blk_size_ext. intros. apply Heq. lia.
    + apply IH; [|done]. intros. apply Heq. lia.
Qed.

Lemma links_ext m m' p prev bs :
  Forall (fun b => 0 < b_size b) bs ->
  (forall x, p <= x -> m x = m' x) -> links m p prev bs -> links m' p prev bs.
Proof.
  intros Hpos. revert p prev.
  induction Hpos as [|b bs Hb _ IH]; intros p prev Heq; simpl; [done|].
  unfold blk_extent, SIZEOF_MEMORY_BLOCK.
  intros [<- Hl]. split.
  - symmetry. apply blk_prev_ext. intros. apply Heq. lia.
  - apply IH; [|done]. intros. apply Heq. lia.
Qed.

Lemma chain_pos m p bs : chain m p bs -> Forall (fun b => 0 < b_size b) bs.
Proof.
  revert p. induction bs as [|b bs IH]; intros p; simpl; [constructor|].
  intros (_ & _ & ? & ?). constructor; eauto.
Qed.

Lemma chain_bound m p bs : chain m p bs -> p <= SHM_APP_SIZE.
Proof.
  revert p. induction bs as [|b bs IH]; intros p; simpl; [tauto|].
  intros (_ & _ & ? & ?%IH). unfold blk_extent, SIZEOF_MEMORY_BLOCK in *. lia.
Qed.

Lemma chain_end m p : chain m p [] -> blk_size m p = 0.
Proof.
  intros [_ Hz]. transitivity (blk_size (fun _ => 0) p); [|done].
  apply blk_size_ext. intros. apply Hz. lia.
Qed.

Lemma used_bounds m p bs a n :
  chain m p bs -> (a, n) ∈ used p bs -> p <= a /\ 0 < n /\ a + SIZEOF_MEMORY_BLOCK + n <= SHM_APP_SIZE.
Proof.
  revert p. induction bs as [|b bs IH]; intros p; simpl; [set_solver|].
  intros (_ & _ & Hpos & Hc) [Hin|Hin]%elem_of_app.
  - apply chain_bound in Hc. unfold blk_extent, SIZEOF_MEMORY_BLOCK in *.
    destruct (b_free b); [set_solver|]. apply list_elem_of_singleton in Hin.
    simplify_eq. lia.
  - destruct (IH _ Hc Hin). unfold blk_extent, SIZEOF_MEMORY_BLOCK in *. lia.
Qed.

Lemma offset_small p :
  SIZEOF_PIFUS_APP <= p <= SHM_APP_SIZE ->
  shm_data_get_offset p = p - SIZEOF_PIFUS_APP.
Proof.
  unfold SIZEOF_PIFUS_APP, SHM_APP_SIZE. intros. unfold shm_data_get_offset.
  rewrite i64_small; unfold SIZEOF_PIFUS_APP; lia.
Qed.

(** A size with which no sum leaves the address space. *)
Definition size_ok (app n : Z) : Prop :=
  0 < n /\ app + SHM_APP_SIZE + SIZEOF_MEMORY_BLOCK + n < 18446744073709551616.

Lemma ptr_add_small app `{!Mapped app} p n :
  0 <= p + n -> app + p + n < 18446744073709551616 -> ptr_add app p n = p + n.
Proof. pose proof (mapped (app := app)). intros. unfold ptr_add. rewrite u64_small; lia. Qed.
Lemma ptr_add_region app `{!Mapped app} p n : 0 <= p + n <= SHM_APP_SIZE -> ptr_add app p n = p + n.
Proof. pose proof (mapped (app := app)). intros. apply (ptr_add_small app); lia. Qed.

Lemma next_block_in_chain app `{!Mapped app} m p b bs :
  SIZEOF_PIFUS_APP <= p -> chain m p (b :: bs) ->
  shm_data_get_next_block_ptr app m p = Some (p + blk_extent b).
Proof.
  simpl. intros Hp (_ & Hs & Hpos & Hc%chain_bound).
  unfold shm_data_get_next_block_ptr, shm_data_is_ptr_out_of_range.
  rewrite Hs. unfold blk_extent, SIZEOF_MEMORY_BLOCK, SIZEOF_PIFUS_APP in *.
  rewrite ptr_add_region by (done || lia). by rewrite (proj2 (Z.ltb_ge _ _)).
Qed.

(** Pointing the block at [n], if there is one, back to [v]. *)
Lemma relink m n prev v bs :
  chain m n bs -> -9223372036854775808 <= v < 9223372036854775808 ->
  let m' := if 0 <? blk_size m n then set_prev m n v else m in
  chain m' n bs /\ (links m n prev bs -> links m' n v bs) /\
  (forall x, ~ n + 16 <= x < n + 24 -> m' x = m x).
Proof.
  intros Hc Hv m'. destruct bs as [|b bs].
  - unfold m'. by rewrite (chain_end m n).
  - pose proof (chain_pos _ _ _ Hc) as Hpos. apply Forall_cons in Hpos as [Hb Hpos].
    destruct Hc as (Hf & Hs & _ & Hc).
    unfold m'. rewrite Hs. destruct (Z.ltb_spec 0 (b_size b)); [|lia].
    assert (forall x, n + blk_extent b <= x -> m x = set_prev m n v x) as Hext.
    { unfold blk_extent, SIZEOF_MEMORY_BLOCK. intros. blk_out. done. }
    split_and!.
    + simpl. split_and!; [by blk|by blk|done|]. by eapply chain_ext.
    + simpl. intros [_ Hl]. split; [by blk|]. by eapply links_ext.
    + intros. by apply set_prev_out.
Qed.

(** The payloads of the blocks [used p bs] are the same in both memories. *)
Definition payloads_kept (p : Z) (bs : list blk) (m m' : mem) : Prop :=
  forall a n, (a, n) ∈ used p bs ->
    same_bytes (a + SIZEOF_MEMORY_BLOCK) (a + SIZEOF_MEMORY_BLOCK + n) m m'.

Lemma payloads_kept_above m m' p bs q :
  chain m p bs -> (forall x, q <= x -> m x = m' x) ->
  q <= p + SIZEOF_MEMORY_BLOCK -> payloads_kept p bs m m'.
Proof.
  intros Hc Heq Hq a n Hin x Hx. destruct (used_bounds _ _ _ _ _ Hc Hin).
  apply Heq. lia.
Qed.

Lemma payloads_kept_cons m m' p b bs :
  (b_free b = false ->
   same_bytes (p + SIZEOF_MEMORY_BLOCK) (p + SIZEOF_MEMORY_BLOCK + b_size b) m m') ->
  payloads_kept (p + blk_extent b) bs m m' -> payloads_kept p (b :: bs) m m'.
Proof.
  intros Hb Hk a n. simpl. intros [Hin|Hin]%elem_of_app; [|by apply Hk].
  destruct (b_free b); [set_solver|]. apply list_elem_of_singleton in Hin.
  simplify_eq. by apply Hb.
Qed.

(** What the search leaves behind, once the block it found is marked used. *)
Definition found (m m' : mem) (p prev size : Z) (bs : list blk)
    (res : option Z) : Prop :=
  match first_fit p bs size with
  | None => res = None /\ m' = m
  | Some (q, bs') =>
      let m'' := set_free m' q false in
      res = Some q /\ p <= q /\ chain m'' p bs' /\
      (links m p prev bs -> links m'' p prev bs') /\
      payloads_kept p bs m m'' /\ (forall x, x < p -> m'' x = m x)
  end.

Lemma append_found m p prev size :
  chain m p [] -> SIZEOF_PIFUS_APP <= p -> 0 < size < 18446744073709551616 ->
  p + SIZEOF_MEMORY_BLOCK + size <= SHM_APP_SIZE ->
  -9223372036854775808 <= prev < 9223372036854775808 ->
  found m (set_prev (set_size m p size) p prev) p prev size [] (Some p).
Proof.
  intros [Hp Hz] Hp4 Hsize Hfit Hprev. unfold found. simpl.
  unfold SIZEOF_MEMORY_BLOCK, blk_extent in *.
  destruct (Z.ltb_spec SHM_APP_SIZE (p + 24 + size)); [lia|].
  simpl. split_and!; try done; try lia.
  - by blk.
  - blk. apply u64_small. lia.
  - unfold blk_extent, SIZEOF_MEMORY_BLOCK. simpl. lia.
  - unfold blk_extent, SIZEOF_MEMORY_BLOCK. simpl. intros. blk_out. apply Hz. lia.
  - split; [by blk|done].
  - intros a n. simpl. set_solver.
  - intros. by blk_out.
Qed.

Lemma exact_found m p prev size b bs :
  chain m p (b :: bs) -> b_free b = true -> b_size b = size ->
  found m m p prev size (b :: bs) (Some p).
Proof.
  intros Hc Hf <-. pose proof (chain_pos _ _ _ Hc) as [Hb Hpos]%Forall_cons.
  unfold found. cbn [first_fit]. rewrite Hf, Z.eqb_refl. cbn [andb].
  destruct Hc as (_ & Hs & _ & Hc). simpl.
  assert (forall x, p + blk_extent b <= x -> m x = set_free m p false x) as Hext.
  { unfold blk_extent, SIZEOF_MEMORY_BLOCK. intros. blk_out. done. }
  unfold blk_extent in *. simpl. split_and!; try done.
  - by blk.
  - by blk.
  - by eapply chain_ext.
  - intros [Hl Hl']. split; [by blk|]. by eapply links_ext.
  - apply payloads_kept_cons; [congruence|].
    eapply payloads_kept_above; [done|exact Hext|].
    unfold blk_extent, SIZEOF_MEMORY_BLOCK. lia.
  - intros. blk_out. done.
Qed.

Lemma split_found m p prev size b bs :
  chain m p (b :: bs) -> SIZEOF_PIFUS_APP <= p -> 0 < size ->
  b_free b = true -> size + SIZEOF_MEMORY_BLOCK < b_size b ->
  let q := p + SIZEOF_MEMORY_BLOCK + size in
  let m1 := set_size m p size in
  let m2 := set_free m1 q true in
  let m3 := set_size m2 q (u64 (b_size b - size - SIZEOF_MEMORY_BLOCK)) in
  let m4 := set_prev m3 q (shm_data_get_offset p) in
  let n := p + blk_extent b in
  let m5 := if 0 <? blk_size m4 n then set_prev m4 n (shm_data_get_offset q) else m4 in
  found m m5 p prev size (b :: bs) (Some p).
Proof.
  intros Hc Hp Hsize Hf Hlarge. pose proof (chain_pos _ _ _ Hc) as [Hb Hpos]%Forall_cons.
  pose proof (blk_size_range m p) as Hrange.
  destruct Hc as (_ & Hs & _ & Hc). pose proof (chain_bound _ _ _ Hc) as Hbound.
  intros q m1 m2 m3 m4 n m5. unfold found. cbn [first_fit]. rewrite Hf.
  destruct (Z.eqb_spec (b_size b) size); [unfold SIZEOF_MEMORY_BLOCK in *; lia|].
  destruct (Z.ltb_spec (size + SIZEOF_MEMORY_BLOCK) (b_size b)); [|lia]. cbn [andb].
  unfold blk_extent, SIZEOF_MEMORY_BLOCK, SIZEOF_PIFUS_APP in *.
  set (rest := b_size b - size - 24) in *.
  assert (forall x, n <= x -> m x = m4 x) as Hext4.
  { unfold m4, m3, m2, m1, q, n. intros. by blk_out. }
  assert (chain m4 n bs) as Hc4 by (by eapply chain_ext).
  destruct (relink m4 n (shm_data_get_offset p) (shm_data_get_offset q) bs)
    as (Hc5 & Hl5 & Hout5); [done| |].
  { rewrite offset_small; unfold SIZEOF_PIFUS_APP; unfold q, SHM_APP_SIZE in *; lia. }
  fold m5 in Hc5, Hl5, Hout5. set (m6 := set_free m5 p false).
  assert (forall x, n <= x -> m5 x = m6 x) as Hext6.
  { unfold m6, n. intros. by blk_out. }
  assert (forall x, x < n -> m6 x = set_free m4 p false x) as Hlow.
  { intros x Hx. unfold m6. destruct (decide (x = p)) as [->|].
    - unfold set_free, store_bool, mem. by rewrite !arr_insert_eq.
    - blk_out. apply Hout5. lia. }
  assert (n = q + (24 + rest)) as Hn by (unfold n, q, rest; lia).
  assert (-9223372036854775808 <= shm_data_get_offset p < 9223372036854775808) as Hoff.
  { rewrite offset_small; unfold SIZEOF_PIFUS_APP, SHM_APP_SIZE in *; lia. }
  split_and!; [done|lia| | | |].
  - cbn [chain blk_extent b_size b_free]. unfold blk_extent, SIZEOF_MEMORY_BLOCK.
    cbn [b_size]. replace (p + (24 + size)) with q by (unfold q; lia).
    rewrite <- Hn.
    rewrite (blk_free_ext m6 (set_free m4 p false) p) by (apply Hlow; lia).
    rewrite (blk_size_ext m6 (set_free m4 p false) p) by (intros; apply Hlow; lia).
    rewrite (blk_free_ext m6 (set_free m4 p false) q) by (apply Hlow; lia).
    rewrite (blk_size_ext m6 (set_free m4 p false) q) by (intros; apply Hlow; lia).
    unfold m4, m3, m2, m1, q. blk. split_and!; try done; try lia.
    + apply u64_small. lia.
    + rewrite !u64_small; rewrite ?u64_small; unfold rest; lia.
    + eapply chain_ext; [exact Hext6|done].
  - intros [Hl1 Hl2]. cbn [links blk_extent b_size]. unfold blk_extent, SIZEOF_MEMORY_BLOCK.
    cbn [b_size]. replace (p + (24 + size)) with q by (unfold q; lia).
    rewrite <- Hn.
    rewrite (blk_prev_ext m6 (set_free m4 p false) p) by (intros; apply Hlow; lia).
    rewrite (blk_prev_ext m6 (set_free m4 p false) q) by (intros; apply Hlow; lia).
    split_and!.
    + unfold m4, m3, m2, m1, q. rewrite <- Hl1. by blk.
    + unfold m4, q. by blk.
    + eapply links_ext; [done|exact Hext6|]. apply Hl5.
      eapply links_ext; [done|exact Hext4|]. exact Hl2.
  - apply payloads_kept_cons; [congruence|].
    eapply (payloads_kept_above _ _ _ _ (n + 24)); [exact Hc| |].
    + intros x Hx. rewrite <- Hext6, Hout5 by lia. apply Hext4. lia.
    + unfold n, blk_extent, SIZEOF_MEMORY_BLOCK. lia.
  - intros x Hx. rewrite Hlow by (unfold n; lia).
    unfold m4, m3, m2, m1, q. by blk_out.
Qed.

Definition prev_offset (previous_block : option Z) : Z :=
  match previous_block with None => -1 | Some p => shm_data_get_offset p end.

Lemma found_later m m' p prev size b bs res :
  chain m p (b :: bs) ->
  b_free b && (b_size b =? size) = false ->
  b_free b && (size + SIZEOF_MEMORY_BLOCK <? b_size b) = false ->
  found m m' (p + blk_extent b) (shm_data_get_offset p) size bs res ->
  found m m' p prev size (b :: bs) res.
Proof.
  intros Hc He Hl Hf. unfold found in *. cbn [first_fit]. rewrite He, Hl.
  destruct (first_fit _ bs size) as [[q bs']|]; [|done].
  destruct Hf as (-> & Hq & Hc' & Hl' & Hk & Hlow).
  destruct Hc as (Hfree & Hs & Hpos & Hc).
  unfold blk_extent, SIZEOF_MEMORY_BLOCK in *.
  split_and!; try done; try lia.
  - simpl. unfold blk_extent, SIZEOF_MEMORY_BLOCK. split_and!; [| |done|done].
    + rewrite <- Hfree. apply blk_free_ext, Hlow. lia.
    + rewrite <- Hs. apply blk_size_ext. intros. apply Hlow. lia.
  - simpl. intros [<- Hls]. split; [|by apply Hl'].
    apply blk_prev_ext. intros. apply Hlow. lia.
  - apply payloads_kept_cons; [|done]. intros _ x Hx. symmetry. apply Hlow.
    unfold SIZEOF_MEMORY_BLOCK in *. lia.
  - intros. apply Hlow. lia.
Qed.

Section search.
Context (app : Z) `{!Mapped app}.
#[local] Set Default Proof Using "Type*".
Local Notation shm_data_allocate := (shm_data_allocate app).
Local Notation shm_data_free := (shm_data_free app).

Lemma search_found fuel m previous_block p size bs :
  chain m p bs -> SIZEOF_PIFUS_APP <= p -> size_ok app size ->
  -9223372036854775808 <= prev_offset previous_block < 9223372036854775808 ->
  SHM_APP_SIZE - p < SIZEOF_MEMORY_BLOCK * Z.of_nat fuel ->
  exists res m',
    shm_data_next_suitable_block fuel app m previous_block p size = Some (res, m') /\
    found m m' p (prev_offset previous_block) size bs res.
Proof.
  intros Hc Hp [Hsize Hmax]. revert m previous_block p bs Hc Hp.
  induction fuel as [|fuel IH]; intros m previous_block p bs Hc Hp Hprev Hfuel.
  { apply chain_bound in Hc. lia. }
  pose proof (mapped (app := app)) as Hm. pose proof (chain_bound _ _ _ Hc) as Hpb.
  assert (size < 18446744073709551616) by (unfold SHM_APP_SIZE, SIZEOF_MEMORY_BLOCK in *; lia).
  cbn [shm_data_next_suitable_block]. destruct bs as [|b bs].
  - rewrite (chain_end m p) by done. simpl.
    unfold shm_data_is_ptr_out_of_range, shm_data_get_data_ptr.
    rewrite (ptr_add_small app) by (unfold SIZEOF_MEMORY_BLOCK, SIZEOF_PIFUS_APP in *; lia).
    destruct (Z.ltb_spec SHM_APP_SIZE (p + SIZEOF_MEMORY_BLOCK + size)).
    + do 2 eexists. split; [done|]. unfold found. simpl.
      by destruct (Z.ltb_spec SHM_APP_SIZE (p + SIZEOF_MEMORY_BLOCK + size)); [|lia].
    + exists (Some p), (set_prev (set_size m p size) p (prev_offset previous_block)).
      split; [by destruct previous_block|]. apply append_found; (done || lia).
  - rewrite (next_block_in_chain app m p b bs) by done.
    pose proof (blk_size_range m p) as Hrange.
    pose proof Hc as (Hfree & Hs & Hpos & Hrest). rewrite Hfree, Hs in *.
    destruct (Z.ltb_spec 0 (b_size b)); [|lia]. cbn [negb andb].
    rewrite (andb_comm (b_size b =? size)).
    destruct (b_free b && (b_size b =? size)) eqn:Hexact.
    { apply andb_prop in Hexact as [Hf Heq%Z.eqb_eq].
      do 2 eexists. split; [done|]. by apply exact_found. }
    assert ((size <? b_size b) && (SIZEOF_MEMORY_BLOCK <? u64 (b_size b - size)) && b_free b
      = b_free b && (size + SIZEOF_MEMORY_BLOCK <? b_size b)) as ->.
    { rewrite andb_comm. destruct (b_free b); [|done]. cbn [andb].
      unfold SIZEOF_MEMORY_BLOCK. destruct (Z.ltb_spec size (b_size b)); cbn [andb].
      - rewrite u64_small by lia. ztests.
      - ztests. }
    destruct (b_free b && (size + SIZEOF_MEMORY_BLOCK <? b_size b)) eqn:Hlarge.
    + apply andb_prop in Hlarge as [Hf Hlt%Z.ltb_lt].
      pose proof (chain_bound _ _ _ Hrest) as Hbound.
      unfold shm_data_get_next_block_ptr, shm_data_is_ptr_out_of_range.
      rewrite blk_size_set_size, u64_small by lia.
      unfold blk_extent in Hbound.
      rewrite (ptr_add_region app), Z.add_assoc by (unfold SIZEOF_MEMORY_BLOCK, SIZEOF_PIFUS_APP in *; lia).
      destruct (Z.ltb_spec SHM_APP_SIZE (p + SIZEOF_MEMORY_BLOCK + size));
        [unfold SIZEOF_MEMORY_BLOCK in *; lia|].
      do 2 eexists. split; [done|]. apply split_found; (done || lia).
    + destruct (IH m (Some p) (p + blk_extent b) bs) as (res & m' & -> & Hfound).
      * done.
      * unfold blk_extent, SIZEOF_MEMORY_BLOCK. lia.
      * apply chain_bound in Hc. simpl. rewrite offset_small by done.
        unfold SIZEOF_PIFUS_APP, SHM_APP_SIZE in *. lia.
      * unfold blk_extent, SIZEOF_MEMORY_BLOCK in *. lia.
      * do 2 eexists. split; [done|]. by apply found_later.
Qed.

Lemma shm_data_allocate_found m size bs :
  heap m bs -> size_ok app size ->
  exists res m', shm_data_allocate m size =
    Some (match res with Some p => Some (shm_data_get_offset p, p) | None => None end,
          match res with Some p => set_free m' p false | None => m' end) /\
  found m m' SIZEOF_PIFUS_APP (-1) size bs res.
Proof.
  intros Hh Hsize. unfold Shmem.shm_data_allocate.
  destruct (search_found suitable_block_fuel m None SIZEOF_PIFUS_APP size bs)
    as (res & m' & -> & Hf); [done..| |].
  { vm_compute. done. }
  do 2 eexists. split; [|exact Hf]. by destruct res.
Qed.

End search.

(** Allocation adds the block it returns to those in use, and nothing else. *)
Lemma first_fit_used p bs size q bs' :
  first_fit p bs size = Some (q, bs') ->
  used p bs' ≡ₚ (q, size) :: used p bs.
Proof.
  revert p bs'. induction bs as [|b bs IH]; intros p bs'; cbn [first_fit].
  - case (Z.ltb_spec _ _); [done|]. intros _ [= <- <-]. done.
  - destruct (b_free b && (b_size b =? size)) eqn:He.
    { apply andb_prop in He as [Hf <-%Z.eqb_eq]. intros [= <- <-].
      simpl. by rewrite Hf. }
    destruct (b_free b && (size + SIZEOF_MEMORY_BLOCK <? b_size b)) eqn:Hl.
    { apply andb_prop in Hl as [Hf _]. intros [= <- <-]. simpl. rewrite Hf. simpl.
      unfold blk_extent. simpl. do 2 f_equiv. lia. }
    destruct (first_fit (p + blk_extent b) bs size) as [[q' bs'']|] eqn:Hr; [|done].
    intros [= <- <-]. simpl. rewrite (IH _ _ Hr). by rewrite Permutation_middle.
Qed.

Lemma first_fit_above p bs size q bs' :
  Forall (fun b => 0 < b_size b) bs -> first_fit p bs size = Some (q, bs') -> p <= q.
Proof.
  intros Hpos. revert p bs'. induction Hpos as [|b bs Hb _ IH]; intros p bs';
    cbn [first_fit].
  - case (Z.ltb_spec _ _); [done|]. intros _ [= <- <-]. done.
  - destruct (_ && _); [by intros [= <- <-]|]. destruct (_ && _); [by intros [= <- <-]|].
    destruct (first_fit (p + blk_extent b) bs size) as [[q' bs'']|] eqn:Hr; [|done].
    intros [= <- <-]. apply IH in Hr. unfold blk_extent, SIZEOF_MEMORY_BLOCK in *. lia.
Qed.

Lemma first_fit_disjoint m p bs size q bs' a n :
  chain m p bs -> 0 < size -> first_fit p bs size = Some (q, bs') ->
  (a, n) ∈ used p bs ->
  p <= q /\ (a + SIZEOF_MEMORY_BLOCK + n <= q \/ q + SIZEOF_MEMORY_BLOCK + size <= a).
Proof.
  intros Hc Hsize. revert p bs' Hc. induction bs as [|b bs IH]; intros p bs' Hc;
    cbn [first_fit]; [set_solver|].
  pose proof Hc as (_ & _ & Hpos & Hrest).
  intros Hff Hin. cbn [used] in Hin. apply elem_of_app in Hin.
  assert ((a, n) ∈ used (p + blk_extent b) bs ->
    p + SIZEOF_MEMORY_BLOCK + b_size b <= a) as Hafter.
  { intros Hin'. destruct (used_bounds _ _ _ _ _ Hrest Hin').
    unfold blk_extent in *. lia. }
  destruct (b_free b) eqn:Hf; cbn [andb] in Hff.
  - destruct Hin as [Hin|Hin]; [set_solver|]. specialize (Hafter Hin).
    destruct (Z.eqb_spec (b_size b) size); [simplify_eq; lia|].
    destruct (Z.ltb_spec (size + SIZEOF_MEMORY_BLOCK) (b_size b)).
    { simplify_eq. unfold SIZEOF_MEMORY_BLOCK in *. lia. }
    destruct (first_fit (p + blk_extent b) bs size) as [[q' bs'']|] eqn:Hr; [|done].
    injection Hff as <- <-. destruct (IH _ _ Hrest Hr Hin).
    unfold blk_extent, SIZEOF_MEMORY_BLOCK in *. lia.
  - destruct (first_fit (p + blk_extent b) bs size) as [[q' bs'']|] eqn:Hr; [|done].
    injection Hff as <- <-. destruct Hin as [Hin|Hin].
    + apply list_elem_of_singleton in Hin. simplify_eq.
      assert (p + blk_extent b <= q').
      { eapply first_fit_above; [by eapply chain_pos|exact Hr]. }
      unfold blk_extent, SIZEOF_MEMORY_BLOCK in *. lia.
    + destruct (IH _ _ Hrest Hr Hin). unfold blk_extent, SIZEOF_MEMORY_BLOCK in *. lia.
Qed.

(** What a successful allocation of the block at [p] leaves. *)
Record allocated (m : mem) (bs : list blk) (size p : Z) (bs' : list blk) (m' : mem) : Prop :=
  Allocated {
    al_heap : heap m' bs';
    al_linked : linked m bs -> linked m' bs';
    al_used : heap_used bs' ≡ₚ (p, size) :: heap_used bs;
    al_bounds : SIZEOF_PIFUS_APP <= p /\ p + SIZEOF_MEMORY_BLOCK + size <= SHM_APP_SIZE;
    al_kept : forall a n, (a, n) ∈ heap_used bs ->
      (a + SIZEOF_MEMORY_BLOCK + n <= p \/ p + SIZEOF_MEMORY_BLOCK + size <= a) /\
      same_bytes (a + SIZEOF_MEMORY_BLOCK) (a + SIZEOF_MEMORY_BLOCK + n) m m';
    al_low : forall x, x < SIZEOF_PIFUS_APP -> m' x = m x }.

Section allocate.
Context (app : Z) `{!Mapped app}.
#[local] Set Default Proof Using "Type*".
Local Notation shm_data_allocate := (shm_data_allocate app).
Local Notation shm_data_free := (shm_data_free app).

Lemma shm_data_allocate_spec m bs size :
  heap m bs -> size_ok app size ->
  match first_fit SIZEOF_PIFUS_APP bs size with
  | None => shm_data_allocate m size = Some (None, m)
  | Some (p, bs') => exists m',
      shm_data_allocate m size = Some (Some (p - SIZEOF_PIFUS_APP, p), m') /\
      allocated m bs size p bs' m'
  end.
Proof.
  intros Hh Hsize. pose proof Hsize as [Hpos _].
  destruct (shm_data_allocate_found app m size bs Hh Hsize) as (res & m' & -> & Hf).
  unfold found in Hf. destruct (first_fit _ _ _) as [[p bs']|] eqn:Hff.
  - destruct Hf as (-> & Hp & Hc & Hl & Hk & Hlow).
    pose proof (first_fit_used _ _ _ _ _ Hff) as Hused.
    assert ((p, size) ∈ used SIZEOF_PIFUS_APP bs') as Hin by (rewrite Hused; left).
    destruct (used_bounds _ _ _ _ _ Hc Hin) as (_ & _ & Hend).
    rewrite offset_small by (unfold SIZEOF_MEMORY_BLOCK in *; lia).
    eexists. split; [done|]. split; try done. intros a n Ha. split; [|by apply Hk].
    eapply (first_fit_disjoint m _ bs size _ bs'); (done || lia).
  - by destruct Hf as [-> ->].
Qed.

(** C7. Allocation in a well-formed region is first fit on its list of
    blocks: it fails exactly when no free block fits and the rest of the
    region is too small; otherwise it returns the offset of the block found
    and leaves a well-formed region (with intact back links, if they were) in
    which that block is in use.  The block lies inside the region, overlaps no
    block in use, and no payload byte in use changes. The search ends.  This is
    for positive sizes with which no address wraps around; the others are in
    [shm_data_allocate_zero_aliases] and [shm_data_allocate_wraps]. *)
Theorem shm_data_allocate_first_fit (m : mem) (bs : list blk) (size : Z) :
  heap m bs -> size_ok app size ->
  match first_fit SIZEOF_PIFUS_APP bs size with
  | None => shm_data_allocate m size = Some (None, m)
  | Some (p, bs') => exists m',
      shm_data_allocate m size = Some (Some (p - SIZEOF_PIFUS_APP, p), m') /\
      heap m' bs' /\ (linked m bs -> linked m' bs') /\
      heap_used bs' ≡ₚ (p, size) :: heap_used bs /\
      SIZEOF_PIFUS_APP <= p /\ p + SIZEOF_MEMORY_BLOCK + size <= SHM_APP_SIZE /\
      (forall a n, (a, n) ∈ heap_used bs ->
         (a + SIZEOF_MEMORY_BLOCK + n <= p \/ p + SIZEOF_MEMORY_BLOCK + size <= a) /\
         same_bytes (a + SIZEOF_MEMORY_BLOCK) (a + SIZEOF_MEMORY_BLOCK + n) m m')
  end.
Proof.
  intros Hh Hsize. pose proof (shm_data_allocate_spec m bs size Hh Hsize) as Ha.
  destruct (first_fit _ _ _) as [[p bs']|]; [|done].
  destruct Ha as (m' & Ha & [H1 H2 H3 [H4 H5] H6 _]). by exists m'.
Qed.

End allocate.

Definition zero_region : mem := fun _ => 0.

Lemma zero_region_heap : heap zero_region [].
Proof. split; [done|]. intros. reflexivity. Qed.

(** Where the examples have their region. *)
Definition example_app : Z := 140000000000000.
#[export] Instance example_mapped : Mapped example_app.
Proof. done. Qed.

Lemma shm_data_allocate_first_fit_witness :
  exists m', shm_data_allocate example_app zero_region 100 = Some (Some (0, 4), m') /\
    heap m' [Blk false 100].
Proof.
  destruct (shm_data_allocate_first_fit example_app zero_region [] 100 zero_region_heap ltac:(done))
    as (m' & Hm & Hh & _).
  exists m'. split; [exact Hm|exact Hh].
Defined.

(** ** Freeing *)

Definition total (l : list blk) : Z := foldr (fun b z => blk_extent b + z) 0 l.

(** Headers from [p] on that describe [l], whatever follows. *)
Fixpoint seg (m : mem) (p : Z) (l : list blk) : Prop :=
  match l with
  | [] => True
  | b :: l =>
      blk_free m p = b_free b /\ blk_size m p = b_size b /\ 0 < b_size b /\
      seg m (p + blk_extent b) l
  end.

Lemma chain_app m p l r : chain m p (l ++ r) <-> seg m p l /\ chain m (p + total l) r.
Proof.
  revert p. induction l as [|b l IH]; intros p; simpl.
  - rewrite Z.add_0_r. tauto.
  - rewrite IH, Z.add_assoc. tauto.
Qed.

Lemma links_app m p prev l r :
  links m p prev (l ++ r) <->
  links m p prev l /\
  links m (p + total l) (match last l with
    | Some b => shm_data_get_offset (p + total l - blk_extent b) | None => prev end) r.
Proof.
  revert p prev. induction l as [|b l IH]; intros p prev; cbn [app links total foldr].
  - rewrite Z.add_0_r. simpl. tauto.
  - fold (total l). rewrite IH, Z.add_assoc. rewrite last_cons.
    destruct (last l) eqn:Hl; [tauto|].
    apply last_None in Hl as ->. simpl.
    replace (p + blk_extent b + 0 - blk_extent b) with p by lia. tauto.
Qed.

Lemma used_app p l r : used p (l ++ r) = used p l ++ used (p + total l) r.
Proof.
  revert p. induction l as [|b l IH]; intros p; simpl; [by rewrite Z.add_0_r|].
  by rewrite IH, Z.add_assoc, (assoc_L (++)).
Qed.

Lemma total_app l r : total (l ++ r) = total l + total r.
Proof. induction l as [|b l IH]; simpl; [done|]. fold (total l) (total (l ++ r)). lia. Qed.

Lemma seg_total m p l : seg m p l -> 0 <= total l.
Proof.
  revert p. induction l as [|b l IH]; intros p; simpl; [done|]. fold (total l).
  intros (_ & _ & ? & ?%IH). unfold blk_extent, SIZEOF_MEMORY_BLOCK. lia.
Qed.

Lemma seg_ext m m' p l :
  (forall x, p <= x < p + total l -> m x = m' x) -> seg m p l -> seg m' p l.
Proof.
  revert p. induction l as [|b l IH]; intros p Heq; [done|]. cbn [seg].
  intros (Hf & Hs & Hpos & Hl).
  pose proof (seg_total _ _ _ Hl) as Htot.
  cbn [total foldr] in Heq. fold (total l) in Heq.
  unfold blk_extent, SIZEOF_MEMORY_BLOCK in *.
  split_and!; [| |done|].
  - rewrite <- Hf. symmetry. apply blk_free_ext, Heq. lia.
  - rewrite <- Hs. symmetry. apply blk_size_ext. intros. apply Heq. lia.
  - apply IH; [|done]. intros. apply Heq. lia.
Qed.

Lemma links_ext_seg m m' p prev l :
  Forall (fun b => 0 < b_size b) l ->
  (forall x, p <= x < p + total l -> m x = m' x) -> links m p prev l -> links m' p prev l.
Proof.
  intros Hpos. revert p prev.
  induction Hpos as [|b l Hb Hpos IH]; intros p prev Heq; cbn [links]; [done|].
  assert (0 <= total l) as Htot.
  { clear -Hpos. induction Hpos; simpl; [done|]. unfold blk_extent, SIZEOF_MEMORY_BLOCK.
    fold (total l). lia. }
  cbn [total foldr] in Heq. fold (total l) in Heq.
  unfold blk_extent, SIZEOF_MEMORY_BLOCK in *. intros [<- Hl]. split.
  - symmetry. apply blk_prev_ext. intros. apply Heq. lia.
  - apply IH; [|done]. intros. apply Heq. lia.
Qed.

(** A step of freeing leaves alone everything below the block at [q], and from
    [e] on. *)
Definition unchanged_outside (q e : Z) (m m' : mem) : Prop :=
  forall x, x < q \/ e <= x -> m' x = m x.

Lemma unchanged_trans q q' e e' m1 m2 m3 :
  unchanged_outside q e m1 m2 -> unchanged_outside q' e' m2 m3 ->
  unchanged_outside (Z.min q q') (Z.max e e') m1 m3.
Proof. intros H1 H2 x Hx. rewrite H2, H1 by lia. done. Qed.

Lemma unchanged_sub q q' e e' m m' :
  unchanged_outside q e m m' -> q' <= q -> e <= e' -> unchanged_outside q' e' m m'.
Proof. intros H ?? x Hx. apply H. lia. Qed.

(** The block at [q] changes and swallows what lies before [e]. *)
Lemma replace_block m m' p l c r q e :
  seg m p l -> q = p + total l -> unchanged_outside q e m m' ->
  e = q + blk_extent c -> 0 < b_size c ->
  blk_free m' q = b_free c -> blk_size m' q = b_size c ->
  chain m e r -> chain m' p (l ++ c :: r).
Proof.
  intros Hl -> Hout He Hpos Hf Hs Hr. apply chain_app. split.
  - eapply seg_ext; [|done]. intros. symmetry. apply Hout. lia.
  - simpl. rewrite <- He. split_and!; try done.
    eapply chain_ext; [|done]. intros. symmetry. apply Hout. lia.
Qed.

Lemma replace_links m m' p prev l c r q e :
  Forall (fun b => 0 < b_size b) l -> Forall (fun b => 0 < b_size b) r ->
  q = p + total l -> e = q + blk_extent c ->
  unchanged_outside q e m m' ->
  links m p prev l -> blk_prev m' q = match last l with
    | Some b => shm_data_get_offset (q - blk_extent b) | None => prev end ->
  (links m e (shm_data_get_offset q) r <-> links m' p prev (l ++ c :: r)).
Proof.
  intros Hl Hr -> He Hout Hll Hq. rewrite links_app. simpl. rewrite <- He. split.
  - intros Hlr. split_and!; [|done|].
    + eapply links_ext_seg; [done| |done]. intros. symmetry. apply Hout. lia.
    + eapply links_ext; [done| |done]. intros. symmetry. apply Hout. lia.
  - intros (_ & _ & Hlr). eapply links_ext; [done| |done]. intros. apply Hout. lia.
Qed.

(** The list a freed block [b] between [l] and [r] leaves: it joins its free
    neighbours, and the only block of a region vanishes. *)
Definition absorb_previous (l : list blk) (b : blk) : list blk * Z :=
  match last l with
  | Some pb =>
      if b_free pb then (take (length l - 1) l, b_size pb + blk_extent b)
      else (l, b_size b)
  | None => (l, b_size b)
  end.

Definition absorb_next (size : Z) (r : list blk) : list blk * Z :=
  match r with
  | nb :: r' => if b_free nb then (r', size + blk_extent nb) else (r, size)
  | [] => (r, size)
  end.

Definition coalesce (l : list blk) (b : blk) (r : list blk) : list blk :=
  match l, r with
  | [], [] => []
  | _, _ =>
      let '(l, size) := absorb_previous l b in
      let '(r, size) := absorb_next size r in
      l ++ Blk true size :: r
  end.

Definition exists_next (r : list blk) : bool :=
  match r with [] => false | _ => true end.

(** The second half of freeing: merging with the next block and clearing. *)
Lemma merge_next_clear m p l q size n r :
  seg m p l -> q = p + total l -> n = q + SIZEOF_MEMORY_BLOCK + size -> 0 < size ->
  0 <= q -> blk_size m q = size -> chain m n r ->
  let mB := shm_data_merge_next m q n (exists_next r) in
  let mF := set_free (memset mB (shm_data_get_data_ptr q) 0 (blk_size mB q)) q true in
  let '(r0, size0) := absorb_next size r in
  chain mF p (l ++ Blk true size0 :: r0) /\ blk_prev mF q = blk_prev m q /\
  unchanged_outside q (q + SIZEOF_MEMORY_BLOCK + size0) m mF /\
  chain m (q + SIZEOF_MEMORY_BLOCK + size0) r0 /\ 0 < size0.
Proof.
  intros Hl Hq Hn Hsize Hq0 Hs Hr mB mF.
  destruct (absorb_next size r) as [r0 size0] eqn:Hab.
  assert (blk_size mB q = size0 /\ unchanged_outside (q + 8) (q + 16) m mB /\
    0 < size0 /\ chain m (q + SIZEOF_MEMORY_BLOCK + size0) r0) as (HsB & HuB & Hpos & Hr0).
  { unfold mB, shm_data_merge_next, absorb_next in *.
    destruct r as [|nb r']; cbn [exists_next andb].
    { simplify_eq. split_and!; try done; intros ?; done. }
    pose proof Hr as (Hf & Hns & Hnpos & Hr'). rewrite Hf.
    destruct (b_free nb).
    2: { simplify_eq. split_and!; try done; intros ?; done. }
    injection Hab as <- <-. apply chain_bound in Hr'.
    rewrite Hs, Hns, blk_size_set_size.
    unfold blk_extent, SIZEOF_MEMORY_BLOCK, SHM_APP_SIZE in *.
    split_and!; [rewrite u64_idem; apply u64_small; lia| |lia|].
    - intros x Hx. by blk_out.
    - replace (q + 24 + (size + (24 + b_size nb))) with (n + (24 + b_size nb)) by lia.
      apply Hr. }
  assert (unchanged_outside q (q + SIZEOF_MEMORY_BLOCK + size0) m mF) as HuF.
  { intros x Hx. unfold mF, shm_data_get_data_ptr, SIZEOF_MEMORY_BLOCK in *.
    rewrite set_free_out, memset_out, HuB by lia. done. }
  assert (forall x, q + 1 <= x < q + 24 -> mF x = mB x) as HF.
  { intros x Hx. unfold mF, shm_data_get_data_ptr, SIZEOF_MEMORY_BLOCK.
    rewrite set_free_out, memset_out by lia. done. }
  split_and!; try done.
  - apply (replace_block m mF p l (Blk true size0) r0 q (q + SIZEOF_MEMORY_BLOCK + size0));
      try done.
    + unfold blk_extent. simpl. lia.
    + unfold mF. apply blk_free_set_free.
    + rewrite (blk_size_ext mF mB) by (intros; apply HF; lia). exact HsB.
  - rewrite (blk_prev_ext mF mB) by (intros; apply HF; lia).
    apply blk_prev_ext. intros. apply HuB. lia.
Qed.

(** What the back link of the block after [l] should be. *)
Definition expected_prev (l : list blk) : Z :=
  match last l with
  | Some pb => shm_data_get_offset (SIZEOF_PIFUS_APP + total l - blk_extent pb)
  | None => -1
  end.

Lemma seg_app m p l r : seg m p (l ++ r) <-> seg m p l /\ seg m (p + total l) r.
Proof.
  revert p. induction l as [|b l IH]; intros p; simpl.
  - rewrite Z.add_0_r. tauto.
  - rewrite IH, Z.add_assoc. tauto.
Qed.

Lemma total_snoc l b : total (l ++ [b]) = total l + blk_extent b.
Proof. rewrite total_app. simpl. lia. Qed.

(** The last block [pb] before the address [p], and its own address. *)
Lemma heap_snoc m l pb r p :
  heap m ((l ++ [pb]) ++ r) -> p = SIZEOF_PIFUS_APP + total (l ++ [pb]) ->
  let pp := SIZEOF_PIFUS_APP + total l in
  seg m SIZEOF_PIFUS_APP l /\ SIZEOF_PIFUS_APP <= pp /\ p = pp + blk_extent pb /\
  blk_free m pp = b_free pb /\ blk_size m pp = b_size pb /\ 0 < b_size pb /\
  p <= SHM_APP_SIZE /\
  expected_prev (l ++ [pb]) = pp - SIZEOF_PIFUS_APP.
Proof.
  intros [[Hl Hpb]%seg_app Hr%chain_bound]%chain_app -> pp.
  destruct Hpb as (Hf & Hs & Hpos & _).
  pose proof (seg_total _ _ _ Hl). rewrite total_snoc in *.
  unfold expected_prev. rewrite last_snoc, total_snoc.
  replace (SIZEOF_PIFUS_APP + (total l + blk_extent pb) - blk_extent pb) with pp
    by (unfold pp; lia).
  split_and!; try done; try (unfold pp; lia).
  apply offset_small. unfold pp, blk_extent, SIZEOF_MEMORY_BLOCK in *. lia.
Qed.

Lemma expected_prev_sign m l r :
  heap m (l ++ r) -> (0 <=? expected_prev l) = match l with [] => false | _ => true end.
Proof.
  intros Hh. destruct l as [|pb l _] using rev_ind; [done|].
  destruct (heap_snoc m l pb r _ Hh eq_refl) as (_ & ? & _ & _ & _ & _ & _ & ->).
  destruct l; cbn [app]; ztests.
Qed.

Lemma exists_next_chain m n r : chain m n r -> (0 <? blk_size m n) = exists_next r.
Proof.
  intros Hc. destruct r as [|b r]; [by rewrite (chain_end m n)|].
  destruct Hc as (_ & -> & Hpos & _). simpl. by apply Z.ltb_lt.
Qed.

(** The state between the two halves of freeing the block at [p]: a block of
    [size] payload bytes behind [l], up to [n] where [r] starts. *)
Definition half_freed (m mA : mem) (p n : Z) (l : list blk) (size : Z) (r : list blk) : Prop :=
  let q := SIZEOF_PIFUS_APP + total l in
  seg m SIZEOF_PIFUS_APP l /\ n = q + SIZEOF_MEMORY_BLOCK + size /\ 0 < size /\
  q <= p /\ blk_size mA q = size /\ blk_prev mA q = blk_prev m q /\ chain mA n r /\
  unchanged_outside q (n + SIZEOF_MEMORY_BLOCK) m mA /\
  (links m n (shm_data_get_offset p) r -> links mA n (shm_data_get_offset q) r).

Lemma half_freed_alone m l b r p :
  heap m (l ++ b :: r) -> p = SIZEOF_PIFUS_APP + total l ->
  half_freed m m p (p + blk_extent b) l (b_size b) r.
Proof.
  intros [Hl (Hf & Hs & Hpos & Hr)]%chain_app ->. unfold half_freed, blk_extent in *.
  split_and!; try done; lia.
Qed.

Lemma half_freed_previous m l pb b r p :
  let n := p + blk_extent b in
  heap m ((l ++ [pb]) ++ b :: r) -> p = SIZEOF_PIFUS_APP + total (l ++ [pb]) ->
  let pp := SIZEOF_PIFUS_APP + total l in
  let m1 := if exists_next r then set_prev m n (pp - SIZEOF_PIFUS_APP) else m in
  half_freed m
    (set_size m1 pp (u64 (blk_size m1 pp + (SIZEOF_MEMORY_BLOCK + blk_size m1 p))))
    p n l (b_size pb + blk_extent b) r.
Proof.
  intros n Hh Hp pp m1.
  destruct (heap_snoc _ _ _ _ _ Hh Hp) as (Hl & Hpp & Hpe & _ & Hps & Hppos & _ & _).
  fold pp in Hpp, Hpe, Hps.
  pose proof Hh as [_ (Hf & Hs & Hpos & Hr)]%chain_app. rewrite <- Hp in *. fold n in Hr.
  pose proof (chain_bound _ _ _ Hr) as Hbound.
  unfold half_freed, n, blk_extent, SIZEOF_MEMORY_BLOCK, SIZEOF_PIFUS_APP, SHM_APP_SIZE in *.
  fold pp. destruct (relink m n (shm_data_get_offset p) (pp - 4) r) as (Hc1 & Hl1 & Hu1);
    [done|lia|].
  rewrite (exists_next_chain m n r) in Hc1, Hl1, Hu1 by done. fold n in m1. fold m1 in Hc1, Hl1, Hu1.
  assert (blk_size m1 pp = b_size pb /\ blk_size m1 p = b_size b) as [-> ->].
  { rewrite <- Hps, <- Hs. split; apply blk_size_ext; intros; apply Hu1; unfold n; lia. }
  set (size := b_size pb + (24 + b_size b)).
  assert (forall x, n <= x -> m1 x = set_size m1 pp (u64 size) x) as Hext
    by (unfold n; intros; by blk_out).
  split_and!; try done; try lia.
  - rewrite blk_size_set_size, u64_idem. apply u64_small. unfold size. lia.
  - rewrite blk_prev_set_size by lia. apply blk_prev_ext. intros. apply Hu1. unfold n. lia.
  - by eapply chain_ext.
  - intros x Hx. blk_out. apply Hu1. unfold n. lia.
  - intros Hlk%Hl1. rewrite offset_small
      by (unfold SIZEOF_PIFUS_APP, SHM_APP_SIZE; lia).
    eapply links_ext; [|exact Hext|done]. by eapply chain_pos.
Qed.

(** The first half of freeing: merging with the previous block. *)
Lemma merge_previous_spec m l b r p :
  heap m (l ++ b :: r) -> p = SIZEOF_PIFUS_APP + total l ->
  blk_prev m p = expected_prev l ->
  let n := p + blk_extent b in
  let '(l0, size) := absorb_previous l b in
  exists mA,
    shm_data_merge_previous m p n (0 <=? expected_prev l) (exists_next r) =
      (SIZEOF_PIFUS_APP + total l0, mA) /\
    half_freed m mA p n l0 size r.
Proof.
  intros Hh Hp Hprev n. rewrite (expected_prev_sign _ _ _ Hh).
  unfold absorb_previous, shm_data_merge_previous.
  assert (exists mA, (p, m) = (SIZEOF_PIFUS_APP + total l, mA) /\
    half_freed m mA p n l (b_size b) r) as Halone.
  { exists m. split; [by rewrite Hp|]. by apply half_freed_alone. }
  destruct l as [|pb l _] using rev_ind; [exact Halone|].
  replace (match l ++ [pb] with [] => false | _ :: _ => true end) with true
    by (by destruct l).
  rewrite last_snoc, Hprev.
  destruct (heap_snoc _ _ _ _ _ Hh Hp) as (_ & _ & _ & Hpf & _ & _ & _ & ->).
  unfold shm_data_get_block_ptr.
  replace (SIZEOF_PIFUS_APP + (SIZEOF_PIFUS_APP + total l - SIZEOF_PIFUS_APP))
    with (SIZEOF_PIFUS_APP + total l) by lia.
  rewrite Hpf. destruct (b_free pb); [|exact Halone].
  rewrite length_app, Nat.add_sub, take_app_length.
  eexists. split; [reflexivity|]. by apply half_freed_previous.
Qed.

Lemma used_seg_bounds m p l a n :
  seg m p l -> (a, n) ∈ used p l -> p <= a /\ a + SIZEOF_MEMORY_BLOCK + n <= p + total l.
Proof.
  revert p. induction l as [|b l IH]; intros p; cbn [seg used total foldr]; [set_solver|].
  fold (total l). intros (_ & _ & Hpos & Hl). pose proof (seg_total _ _ _ Hl).
  unfold blk_extent, SIZEOF_MEMORY_BLOCK in *.
  intros [Hin|Hin]%elem_of_app.
  - destruct (b_free b); [set_solver|]. apply list_elem_of_singleton in Hin.
    simplify_eq. lia.
  - destruct (IH _ Hl Hin). lia.
Qed.

Lemma total_absorb_previous l b l0 size :
  absorb_previous l b = (l0, size) ->
  total l0 + SIZEOF_MEMORY_BLOCK + size = total l + blk_extent b /\
  (forall p, used p l0 = used p l).
Proof.
  unfold absorb_previous. destruct l as [|pb l _] using rev_ind.
  { intros [= <- <-]. unfold blk_extent. split; [lia|done]. }
  rewrite last_snoc. destruct (b_free pb) eqn:Hf.
  - rewrite length_app, Nat.add_sub, take_app_length, total_snoc.
    intros [= <- <-]. unfold blk_extent. split; [lia|]. intros p.
    rewrite used_app. simpl. by rewrite Hf, app_nil_r.
  - intros [= <- <-]. unfold blk_extent. split; [lia|done].
Qed.

Lemma used_absorb_next size r r0 size0 q :
  absorb_next size r = (r0, size0) ->
  used (q + size0) r0 = used (q + size) r.
Proof.
  unfold absorb_next. destruct r as [|nb r]; [by intros [= <- <-]|].
  destruct (b_free nb) eqn:Hf; intros [= <- <-]; [|done].
  simpl. rewrite Hf. simpl. by rewrite Z.add_assoc.
Qed.

Lemma coalesce_used l b r :
  heap_used (coalesce l b r) =
  heap_used l ++ used (SIZEOF_PIFUS_APP + total l + blk_extent b) r.
Proof.
  assert (forall l0 size r0 size0,
    absorb_previous l b = (l0, size) -> absorb_next size r = (r0, size0) ->
    heap_used (l0 ++ Blk true size0 :: r0) =
    heap_used l ++ used (SIZEOF_PIFUS_APP + total l + blk_extent b) r) as Hgen.
  { intros l0 size r0 size0 [Htot Hu]%total_absorb_previous Hn.
    unfold heap_used. rewrite used_app, Hu. f_equal. simpl. unfold blk_extent at 1. simpl.
    rewrite Z.add_assoc, (used_absorb_next _ _ _ _ _ Hn). f_equal. lia. }
  unfold coalesce. destruct (absorb_previous l b) as [l0 size] eqn:Hp.
  destruct (absorb_next size r) as [r0 size0] eqn:Hn.
  pose proof (Hgen _ _ _ _ eq_refl Hn) as Hc.
  destruct l, r; done.
Qed.

(** Everything about one call of [shm_data_free]. [n0] is where the block
    after the freed one starts. *)
Definition freed (m mF : mem) (p : Z) (l : list blk) (b : blk) (r : list blk) : Prop :=
  let '(l0, size) := absorb_previous l b in
  let '(r0, size0) := absorb_next size r in
  let q := SIZEOF_PIFUS_APP + total l0 in
  let n := p + blk_extent b in
  let e := q + SIZEOF_MEMORY_BLOCK + size0 in
  exists mA, half_freed m mA p n l0 size r /\
    heap mF (l0 ++ Blk true size0 :: r0) /\ blk_prev mF q = blk_prev m q /\
    unchanged_outside q e mA mF /\ chain mA e r0 /\ n <= e.

Section free.
Context (app : Z) `{!Mapped app}.
#[local] Set Default Proof Using "Type*".
Local Notation shm_data_allocate := (shm_data_allocate app).
Local Notation shm_data_free := (shm_data_free app).

Lemma shm_data_free_spec m l b r p :
  heap m (l ++ b :: r) -> p = SIZEOF_PIFUS_APP + total l ->
  blk_prev m p = expected_prev l -> l ++ r <> [] ->
  freed m (shm_data_free m p) p l b r.
Proof.
  intros Hh Hp Hprev Hne.
  pose proof (merge_previous_spec m l b r p Hh Hp Hprev) as Hmerge. cbv zeta in Hmerge.
  pose proof (expected_prev_sign _ _ _ Hh) as Hsign.
  pose proof Hh as [Hl Hb]%chain_app. rewrite <- Hp in Hb.
  pose proof Hb as (_ & _ & _ & Hr).
  pose proof (seg_total _ _ _ Hl). unfold freed, Shmem.shm_data_free. rewrite (next_block_in_chain app m p b r) by (done || lia).
  cbv zeta. rewrite (exists_next_chain m _ r), Hprev by done. cbn [default].
  destruct (absorb_previous l b) as [l0 size] eqn:Hab.
  destruct Hmerge as (mA & Heq & Hhalf).
  replace (negb (0 <=? expected_prev l) && negb (exists_next r)) with false
    by (rewrite Hsign; destruct l, r; done).
  change (id (p + blk_extent b)) with (p + blk_extent b). rewrite Heq. pose proof Hhalf as (Hl0 & Hn & Hsize & Hqp & Hs & Hpv & HcA & Hu & _).
  assert (seg mA SIZEOF_PIFUS_APP l0) as HlA.
  { eapply seg_ext; [|exact Hl0]. intros. symmetry. apply Hu. lia. }
  assert (0 <= total l0) as Htot by (by eapply seg_total).
  pose proof (merge_next_clear mA SIZEOF_PIFUS_APP l0 _ size _ r HlA eq_refl Hn Hsize
    ltac:(unfold SIZEOF_PIFUS_APP; lia) Hs HcA) as Hclear. cbv zeta in Hclear.
  destruct (absorb_next size r) as [r0 size0] eqn:Habn.
  destruct Hclear as (HcF & HpF & HuF & Hr0 & Hpos0).
  exists mA. split_and!; [exact Hhalf|exact HcF|by rewrite HpF|exact HuF|exact Hr0|].
  rewrite Hn. unfold absorb_next in Habn. destruct r as [|nb r']; [simplify_eq; lia|].
  pose proof HcA as (_ & _ & ? & _).
  destruct (b_free nb); simplify_eq; unfold blk_extent, SIZEOF_MEMORY_BLOCK in *; lia.
Qed.

(** Freeing the only block wipes the region. *)
Lemma shm_data_free_only m b :
  heap m [b] -> blk_prev m SIZEOF_PIFUS_APP = -1 ->
  heap (shm_data_free m SIZEOF_PIFUS_APP) [] /\
  forall x, x < SIZEOF_PIFUS_APP -> shm_data_free m SIZEOF_PIFUS_APP x = m x.
Proof.
  intros Hh Hprev. pose proof Hh as (_ & Hs & Hpos & Hr).
  unfold Shmem.shm_data_free. rewrite (next_block_in_chain app m _ b []) by done.
  cbv zeta. rewrite (exists_next_chain m _ []), Hprev by done. simpl.
  pose proof (chain_bound _ _ _ Hr). destruct Hr as [_ Hz].
  unfold shm_data_delete_block. rewrite Hs.
  unfold heap, blk_extent, SIZEOF_PIFUS_APP, SIZEOF_MEMORY_BLOCK, SHM_APP_SIZE in *.
  rewrite u64_small by lia. split; [split; [done|]|]; intros x Hx;
    [|by apply memset_out; lia].
  destruct (decide (x < 4 + (24 + b_size b))).
  - by rewrite memset_in by lia.
  - rewrite memset_out by lia. apply Hz. lia.
Qed.

End free.

(** What freeing the block [b] between [l] and [r] leaves. *)
Record freed_block (m : mem) (l : list blk) (b : blk) (r : list blk) (m' : mem) : Prop :=
  FreedBlock {
    fb_heap : heap m' (coalesce l b r);
    fb_kept : forall a n, (a, n) ∈ heap_used (l ++ b :: r) -> a <> SIZEOF_PIFUS_APP + total l ->
      (a, n) ∈ heap_used (coalesce l b r) /\
      same_bytes (a + SIZEOF_MEMORY_BLOCK) (a + SIZEOF_MEMORY_BLOCK + n) m m';
    fb_low : forall x, x < SIZEOF_PIFUS_APP -> m' x = m x }.

Section coalesces.
Context (app : Z) `{!Mapped app}.
#[local] Set Default Proof Using "Type*".
Local Notation shm_data_allocate := (shm_data_allocate app).
Local Notation shm_data_free := (shm_data_free app).

Lemma shm_data_free_block m l b r :
  let p := SIZEOF_PIFUS_APP + total l in
  heap m (l ++ b :: r) -> blk_prev m p = expected_prev l ->
  freed_block m l b r (shm_data_free m p).
Proof.
  intros p Hh Hprev. pose proof Hh as [Hl (_ & _ & Hpos & Hr)]%chain_app.
  assert (forall a n, (a, n) ∈ heap_used (l ++ b :: r) -> a <> p ->
    (a, n) ∈ heap_used l \/ (a, n) ∈ used (p + blk_extent b) r) as Hwhere.
  { intros a n. unfold heap_used. rewrite used_app. simpl. fold p.
    intros [Hin|[Hin|Hin]%elem_of_app]%elem_of_app ?; [by left| |by right].
    destruct (b_free b); [set_solver|]. apply list_elem_of_singleton in Hin. congruence. }
  assert (forall a n, (a, n) ∈ heap_used (l ++ b :: r) -> a <> p ->
    (a, n) ∈ heap_used (coalesce l b r)) as Hused.
  { intros a n Hin Ha. rewrite coalesce_used, elem_of_app. eauto. }
  destruct (decide (l ++ r = [])) as [[-> ->]%app_nil|Hne].
  { destruct (shm_data_free_only app m b Hh Hprev) as [Hheap Hlow].
    split; [done| |exact Hlow]. intros a n Hin Ha.
    destruct (Hwhere a n Hin Ha) as [Hx|Hx]; by apply elem_of_nil in Hx. }
  pose proof (shm_data_free_spec app m l b r p Hh eq_refl Hprev Hne) as Hfreed.
  unfold freed in Hfreed.
  assert (coalesce l b r = let '(l0, size) := absorb_previous l b in
    let '(r0, size0) := absorb_next size r in l0 ++ Blk true size0 :: r0) as Hcoal
    by (by destruct l, r).
  destruct (absorb_previous l b) as [l0 size] eqn:Hab.
  destruct (absorb_next size r) as [r0 size0] eqn:Habn. rewrite Hcoal in Hused.
  destruct Hfreed as (mA & Hhalf & HhF & _ & HuF & Hr0 & Hle).
  destruct Hhalf as (Hl0 & Hn & Hsize & Hqp & _ & _ & _ & HuA & _).
  destruct (total_absorb_previous _ _ _ _ Hab) as [_ Hul].
  pose proof (seg_total _ _ _ Hl0). split; [by rewrite Hcoal|rewrite Hcoal|]; last first.
  { intros x Hx. rewrite HuF, HuA; [done|lia|unfold SIZEOF_MEMORY_BLOCK in *; lia]. }
  intros a n Hin Ha. split; [by apply Hused|]. intros x Hx.
  assert (x < SIZEOF_PIFUS_APP + total l0 \/
    SIZEOF_PIFUS_APP + total l0 + SIZEOF_MEMORY_BLOCK + size0 + SIZEOF_MEMORY_BLOCK <= x)
    as Hout.
  { destruct (Hwhere a n Hin Ha) as [Hx'|Hx'].
    - unfold heap_used in Hx'. rewrite <- Hul in Hx'.
      destruct (used_seg_bounds _ _ _ _ _ Hl0 Hx'). lia.
    - rewrite Hn, <- (used_absorb_next _ _ _ _ _ Habn) in Hx'.
      destruct (used_bounds _ _ _ _ _ Hr0 Hx'). lia. }
  rewrite HuF, HuA; [done|lia|unfold SIZEOF_MEMORY_BLOCK in *; lia].
Qed.

(** C8. Freeing a block in a well-formed region whose own back link is right
    coalesces it with its free neighbours: the region afterwards is exactly
    the list with the freed block joined to a free predecessor and a free
    successor (and empty if it was the only block).  Every other block in use
    stays in use, with every byte of its payload. *)
Theorem shm_data_free_coalesces (m : mem) (l : list blk) (b : blk) (r : list blk) :
  let p := SIZEOF_PIFUS_APP + total l in
  heap m (l ++ b :: r) -> blk_prev m p = expected_prev l ->
  heap (shm_data_free m p) (coalesce l b r) /\
  (forall a n, (a, n) ∈ heap_used (l ++ b :: r) -> a <> p ->
     (a, n) ∈ heap_used (coalesce l b r) /\
     same_bytes (a + SIZEOF_MEMORY_BLOCK) (a + SIZEOF_MEMORY_BLOCK + n) m
       (shm_data_free m p)).
Proof. intros p Hh Hprev. by destruct (shm_data_free_block m l b r Hh Hprev). Qed.

End coalesces.

(** ** Blocks in use *)

(** A store inside the payload of a block in use. *)
Lemma chain_payload m m' p bs q n :
  chain m p bs -> (q, n) ∈ used p bs ->
  unchanged_outside (q + SIZEOF_MEMORY_BLOCK) (q + SIZEOF_MEMORY_BLOCK + n) m m' ->
  chain m' p bs /\ (forall prev, links m p prev bs -> links m' p prev bs).
Proof.
  revert p. induction bs as [|b bs IH]; intros p Hc Hin Hout; [by apply elem_of_nil in Hin|].
  pose proof Hc as (Hf & Hs & Hpos & Hr). cbn [used] in Hin. apply elem_of_app in Hin as [Hin|Hin].
  - destruct (b_free b) eqn:Hbf; [by apply elem_of_nil in Hin|].
    apply list_elem_of_singleton in Hin. injection Hin as -> ->.
    unfold blk_extent, SIZEOF_MEMORY_BLOCK in *.
    assert (forall x, p + (24 + b_size b) <= x -> m x = m' x) as Hext
      by (intros; symmetry; apply Hout; lia).
    split.
    + cbn [chain]. unfold blk_extent, SIZEOF_MEMORY_BLOCK. split_and!; [| |done|].
      * rewrite Hbf, <- Hf. apply blk_free_ext, Hout. lia.
      * rewrite <- Hs. apply blk_size_ext. intros. apply Hout. lia.
      * by eapply chain_ext.
    + intros prev [<- Hl]. split; [apply blk_prev_ext; intros; apply Hout; lia|].
      eapply links_ext; [by eapply chain_pos|exact Hext|exact Hl].
  - destruct (used_bounds _ _ _ _ _ Hr Hin) as (Hq & _ & _).
    destruct (IH _ Hr Hin Hout) as [Hc' Hl'].
    unfold blk_extent, SIZEOF_MEMORY_BLOCK in *. split.
    + cbn [chain]. unfold blk_extent, SIZEOF_MEMORY_BLOCK. split_and!; [| |done|done].
      * rewrite <- Hf. apply blk_free_ext, Hout. lia.
      * rewrite <- Hs. apply blk_size_ext. intros. apply Hout. lia.
    + intros prev [<- Hl]. split; [apply blk_prev_ext; intros; apply Hout; lia|by apply Hl'].
Qed.

(** A block in use is an element of the list, with its link. *)
Lemma used_split m bs q n :
  heap m bs -> linked m bs -> (q, n) ∈ heap_used bs ->
  exists l b r, bs = l ++ b :: r /\ q = SIZEOF_PIFUS_APP + total l /\ b = Blk false n /\
    blk_prev m q = expected_prev l.
Proof.
  intros Hh Hl Hin.
  assert (exists l b r, bs = l ++ b :: r /\ q = SIZEOF_PIFUS_APP + total l /\ b = Blk false n)
    as (l & b & r & -> & -> & Hb).
  { unfold heap_used in Hin. clear Hh Hl. revert Hin. generalize SIZEOF_PIFUS_APP as p.
    induction bs as [|b bs IH]; intros p Hin; [by apply elem_of_nil in Hin|].
    cbn [used] in Hin. apply elem_of_app in Hin as [Hin|Hin].
    - destruct b as [f z]. cbn [b_free b_size] in Hin.
      destruct f; [by apply elem_of_nil in Hin|].
      apply list_elem_of_singleton in Hin. injection Hin as -> ->.
      exists [], (Blk false z), bs. split_and!; [done|simpl; lia|done].
    - destruct (IH _ Hin) as (l & b' & r & -> & -> & Hb').
      exists (b :: l), b', r. split_and!; [done|simpl; unfold total; lia|done]. }
  exists l, b, r. split_and!; try done. by apply links_app in Hl as [_ [? _]].
Qed.

Lemma coalesce_used_perm l b r :
  heap_used (l ++ b :: r) ≡ₚ
  (if b_free b then [] else [(SIZEOF_PIFUS_APP + total l, b_size b)]) ++
  heap_used (coalesce l b r).
Proof.
  rewrite coalesce_used. unfold heap_used. rewrite used_app. cbn [used].
  rewrite <- (Z.add_assoc _ _ (blk_extent b)). rewrite !(assoc_L (++)).
  f_equiv. apply (comm _).
Qed.

(** ** Back links after freeing *)

(** Freeing keeps the link of the block it ends up in, and the block after it
    has the right link unless it followed an absorbed successor. *)
Lemma freed_links m mF p l b r :
  linked m (l ++ b :: r) -> heap m (l ++ b :: r) -> p = SIZEOF_PIFUS_APP + total l ->
  freed m mF p l b r ->
  let '(l0, size) := absorb_previous l b in
  let '(r0, size0) := absorb_next size r in
  let q := SIZEOF_PIFUS_APP + total l0 in
  exists mA n, n = q + SIZEOF_MEMORY_BLOCK + size /\ n <= SHM_APP_SIZE /\ 0 < size /\
    0 <= total l0 /\ links mA n (shm_data_get_offset q) r /\
    (linked mF (l0 ++ Blk true size0 :: r0) <->
     links mA (q + SIZEOF_MEMORY_BLOCK + size0) (shm_data_get_offset q) r0).
Proof.
  intros Hlk Hh Hp Hfr. unfold freed in Hfr. unfold linked in Hlk.
  apply links_app in Hlk as [Hll [Hbp Hlr]]. rewrite <- Hp in Hlr.
  assert (links m SIZEOF_PIFUS_APP (-1) (fst (absorb_previous l b)) /\
    blk_prev m (SIZEOF_PIFUS_APP + total (fst (absorb_previous l b))) =
    match last (fst (absorb_previous l b)) with
    | Some c => shm_data_get_offset
        (SIZEOF_PIFUS_APP + total (fst (absorb_previous l b)) - blk_extent c)
    | None => -1 end) as [Hll0 Hq].
  { unfold absorb_previous. destruct l as [|pb l _] using rev_ind; [done|].
    rewrite last_snoc. destruct (b_free pb); simpl.
    - rewrite length_app, Nat.add_sub, take_app_length.
      by apply links_app in Hll as [? [? _]].
    - by rewrite last_snoc in *. }
  destruct (absorb_previous l b) as [l0 size] eqn:Hab.
  destruct (absorb_next size r) as [r0 size0] eqn:Habn. cbv zeta in Hfr |- *. simpl in Hll0, Hq.
  destruct Hfr as (mA & Hhalf & HhF & HpF & HuF & Hr0 & Hle).
  destruct Hhalf as (Hl0 & Hn & Hpos & Hqp & Hs & HpA & HcA & HuA & HlA).
  pose proof (chain_bound _ _ _ HcA). pose proof (seg_total _ _ _ Hl0).
  exists mA, (p + blk_extent b). split_and!; [done..|by apply HlA|].
  unfold linked. symmetry.
  apply (replace_links mA mF _ _ l0 (Blk true size0) r0 (SIZEOF_PIFUS_APP + total l0));
    [| |done|unfold blk_extent; simpl; lia|done| |].
  - by apply chain_pos, Forall_app in HhF as [? _].
  - by eapply chain_pos.
  - apply chain_pos, Forall_app in HhF as [? _].
    eapply links_ext_seg; [done| |done]. intros. symmetry. apply HuA. lia.
  - rewrite HpF. exact Hq.
Qed.

Section links.
Context (app : Z) `{!Mapped app}.
#[local] Set Default Proof Using "Type*".
Local Notation shm_data_allocate := (shm_data_allocate app).
Local Notation shm_data_free := (shm_data_free app).

(** When every back link is right before a block is freed, they are all
    right afterwards exactly when the block was not followed by a free block
    which was followed by another one: merging with the next block does not
    tell the block after it. *)
Theorem shm_data_free_links (m : mem) (l : list blk) (b : blk) (r : list blk) :
  let p := SIZEOF_PIFUS_APP + total l in
  heap m (l ++ b :: r) -> linked m (l ++ b :: r) ->
  (linked (shm_data_free m p) (coalesce l b r) <->
   ~ exists nb nb2 r', r = nb :: nb2 :: r' /\ b_free nb = true).
Proof.
  intros p Hh Hlk.
  destruct (decide (l ++ r = [])) as [[-> ->]%app_nil|Hne].
  { split; [intros _ (?&?&?&[=]&_)|done]. }
  assert (blk_prev m p = expected_prev l) as Hprev.
  { apply links_app in Hlk as [_ [? _]]. done. }
  pose proof (freed_links m _ p l b r Hlk Hh eq_refl
    (shm_data_free_spec app m l b r p Hh eq_refl Hprev Hne)) as Hf.
  assert (coalesce l b r = let '(l0, size) := absorb_previous l b in
    let '(r0, size0) := absorb_next size r in l0 ++ Blk true size0 :: r0) as ->
    by (by destruct l, r).
  destruct (absorb_previous l b) as [l0 size]. unfold absorb_next in Hf |- *.
  destruct r as [|nb r]; cbv zeta in Hf.
  - destruct Hf as (mA & n & _ & _ & _ & _ & _ & ->).
    split; [intros _ (?&?&?&[=]&_)|done].
  - destruct (b_free nb) eqn:Hnb; destruct Hf as (mA & n & Hn & Hmax & Hpos & Htot & Hlr & ->).
    + destruct r as [|nb2 r]; [split; [intros _ (?&?&?&[=]&_)|done]|].
      split; [|intros []; by exists nb, nb2, r].
      simpl in Hlr |- *. destruct Hlr as (_ & Hlink & _). intros [Hlink' _].
      exfalso. revert Hlink'. unfold blk_extent in *.
      replace (_ + SIZEOF_MEMORY_BLOCK + _) with (n + (SIZEOF_MEMORY_BLOCK + b_size nb)) by lia.
      rewrite Hlink. unfold SIZEOF_MEMORY_BLOCK in *.
      rewrite !offset_small by (unfold SIZEOF_PIFUS_APP in *; lia). lia.
    + split; [|by rewrite <- Hn]. intros _ (nb' & nb2 & r' & [= <- _] & ?). congruence.
Qed.

End links.

(** ** Example regions *)

Lemma shm_data_allocate_heap app `{!Mapped app} m bs size p bs' :
  heap m bs -> linked m bs -> size_ok app size ->
  first_fit SIZEOF_PIFUS_APP bs size = Some (p, bs') ->
  exists r m', shm_data_allocate app m size = Some (r, m') /\ heap m' bs' /\ linked m' bs'.
Proof.
  intros Hh Hl Hsize Hff.
  destruct (shm_data_allocate_found app m size bs Hh Hsize) as (res & m' & -> & Hf).
  unfold found in Hf. rewrite Hff in Hf. destruct Hf as (-> & _ & Hc & Hk & _).
  do 2 eexists. split; [reflexivity|]. split; [exact Hc|by apply Hk].
Qed.

(** Three blocks of 100 bytes, all in use. *)
Lemma three_used :
  exists m, let bs := [Blk false 100; Blk false 100; Blk false 100] in
  heap m bs /\ linked m bs.
Proof.
  destruct (shm_data_allocate_heap example_app zero_region [] 100 4 [Blk false 100])
    as (_ & m1 & _ & H1 & L1); [apply zero_region_heap|done..|].
  edestruct (shm_data_allocate_heap example_app m1 [Blk false 100] 100) as (_ & m2 & _ & H2 & L2);
    [exact H1|exact L1|done|reflexivity|].
  edestruct (shm_data_allocate_heap example_app m2 [Blk false 100; Blk false 100] 100) as (_ & m3 & _ & H3 & L3);
    [exact H2|exact L2|done|reflexivity|].
  by exists m3.
Qed.

Lemma shm_data_free_coalesces_witness :
  exists m, heap (shm_data_free example_app m 128) [Blk false 100; Blk true 100; Blk false 100].
Proof.
  destruct three_used as (m & Hh & Hl).
  destruct (shm_data_free_coalesces example_app m [Blk false 100] (Blk false 100) [Blk false 100] Hh)
    as [Hf _]; [apply Hl|].
  exists m. exact Hf.
Defined.

Lemma shm_data_free_links_witness :
  exists m, linked (shm_data_free example_app m 4) [Blk true 100; Blk false 100; Blk false 100].
Proof.
  destruct three_used as (m & Hh & Hl). exists m.
  apply (shm_data_free_links example_app m [] (Blk false 100) [Blk false 100; Blk false 100] Hh Hl).
  intros (?&?&?&[= <- <- <-]&[=]).
Defined.

(** Three blocks of 100 bytes, at the offsets 0, 124 and 248. The second is
    freed, then the first; a block of 224 bytes fills the room of both; its
    owner writes the payload; the third block is freed. *)
Definition reallocated : option (option (Z * Z) * mem) :=
  '(_, m) ← shm_data_allocate example_app zero_region 100;
  '(_, m) ← shm_data_allocate example_app m 100;
  '(_, m) ← shm_data_allocate example_app m 100;
  let m := shm_data_free example_app m (shm_data_get_block_ptr 124) in
  let m := shm_data_free example_app m (shm_data_get_block_ptr 0) in
  shm_data_allocate example_app m 224.

Definition payload_of_255 (m : mem) (p n : Z) : mem :=
  memset m (shm_data_get_data_ptr p) 255 n.

(** C9. The stale link matters. After the second and the first of three
    blocks have been freed in this order and their room allocated again,
    freeing the third overwrites the payload of a block in use. *)
Theorem shm_data_free_corrupts :
  exists m, reallocated = Some (Some (0, 4), m) /\
    let m := payload_of_255 m 4 224 in
    blk_free m 4 = false /\ blk_size m 4 = 224 /\ blk_free m 252 = false /\
    ~ same_bytes 28 252 m (shm_data_free example_app m (shm_data_get_block_ptr 248)).
Proof.
  eexists. split; [vm_compute; reflexivity|].
  cbv zeta. split_and!; [vm_compute; reflexivity..|].
  intros Heq. specialize (Heq 128 ltac:(lia)). vm_compute in Heq. discriminate.
Qed.

(** An allocation of no bytes leaves the block looking unused: the next
    allocation returns the same block. *)
Example shm_data_allocate_zero_aliases :
  ('(r, m) ← shm_data_allocate example_app zero_region 0;
   '(r', _) ← shm_data_allocate example_app m 100; Some (r, r')) =
  Some (Some (0, 4), Some (0, 4)).
Proof. vm_compute. reflexivity. Qed.

(** The range check looks at a sum of addresses that wraps around: a size near to
    2^64 passes it in an empty region, wherever that is mapped.  The block handed
    out is larger than the address space, and the list of blocks goes on at the
    address of [struct pifus_app]. *)
Theorem shm_data_allocate_wraps (app : Z) `{!Mapped app} :
  let size := 18446744073709551616 - 28 in
  exists m, shm_data_allocate app zero_region size = Some (Some (0, 4), m) /\
    blk_size m 4 = size /\ blk_free m 4 = false /\ shm_data_get_next_block_ptr app m 4 = Some 0.
Proof.
  intros size. pose proof (mapped (app := app)) as Happ. unfold SHM_APP_SIZE in Happ.
  assert (forall p, p + size = 18446744073709551616 -> ptr_add app p size = 0) as Hadd.
  { intros p Hp. unfold ptr_add. replace (app + p + size) with (app + 1 * 18446744073709551616) by lia.
    unfold u64. rewrite Z_mod_plus_full, Z.mod_small; lia. }
  assert (shm_data_allocate app zero_region size = Some (Some (0, 4),
    set_free (set_prev (set_size zero_region 4 size) 4 (-1)) 4 false)) as Ha.
  { unfold shm_data_allocate.
    assert (exists fuel, suitable_block_fuel = S fuel) as [fuel ->].
    { exists (Z.to_nat (SHM_APP_SIZE / SIZEOF_MEMORY_BLOCK)). unfold suitable_block_fuel.
      rewrite Z.add_1_r. by apply Z2Nat.inj_succ. }
    cbn [shm_data_next_suitable_block]. unfold shm_data_is_ptr_out_of_range, shm_data_get_data_ptr.
    by rewrite (Hadd (SIZEOF_PIFUS_APP + SIZEOF_MEMORY_BLOCK)). }
  eexists. split; [exact Ha|].
  assert (blk_size (set_free (set_prev (set_size zero_region 4 size) 4 (-1)) 4 false) 4 = size) as Hs by by blk.
  split; [exact Hs|]. split; [by blk|].
  unfold shm_data_get_next_block_ptr, shm_data_is_ptr_out_of_range. rewrite Hs.
  replace (ptr_add app 4 _) with 0; [done|]. rewrite <- (Hadd (4 + SIZEOF_MEMORY_BLOCK)) by done.
  unfold ptr_add. do 2 f_equal. lia.
Qed.
