(* ===== verification/Operation.v ===== *)
(** * Operations, results, priorities and addresses
      ([api/include/pifus_operation.h], [api/include/pifus_qos.h],
       [api/include/pifus_ip.h] and their [.c] files)

    What travels through the queues.  Enumerations are inductive types with
    their C values as a coercion; a field of such a type holds any integer,
    because the other side of the shared memory may store one that has no
    name.  A C union is a record with one field per member: the code reads
    only the member that was written last. *)
From Stdlib Require Import Ascii String.
From S2P Require Import Prelude.

Open Scope Z_scope.

(** ** Operation codes *)

Inductive pifus_operation_code :=
  | TCP_BIND | TCP_LISTEN | TCP_ACCEPT | TCP_CONNECT | TCP_WRITE | TCP_RECV
  | TCP_CLOSE | TCP_ABORT
  | UDP_BIND | UDP_CONNECT | UDP_DISCONNECT | UDP_SEND | UDP_RECV
  | CONNECTION_LOST | CLIENT_NOP | NOP.

Definition code_val (c : pifus_operation_code) : Z :=
  match c with
  | TCP_BIND => 0 | TCP_LISTEN => 1 | TCP_ACCEPT => 2 | TCP_CONNECT => 3
  | TCP_WRITE => 4 | TCP_RECV => 5 | TCP_CLOSE => 6 | TCP_ABORT => 7
  | UDP_BIND => 100 | UDP_CONNECT => 101 | UDP_DISCONNECT => 102
  | UDP_SEND => 103 | UDP_RECV => 104
  | CONNECTION_LOST => 200 | CLIENT_NOP => 254 | NOP => 255
  end.
Coercion code_val : pifus_operation_code >-> Z.

#[export] Instance pifus_operation_code_eq_dec : EqDecision pifus_operation_code.
Proof. solve_decision. Defined.

Definition all_codes : list pifus_operation_code :=
  [TCP_BIND; TCP_LISTEN; TCP_ACCEPT; TCP_CONNECT; TCP_WRITE; TCP_RECV; TCP_CLOSE;
   TCP_ABORT; UDP_BIND; UDP_CONNECT; UDP_DISCONNECT; UDP_SEND; UDP_RECV;
   CONNECTION_LOST; CLIENT_NOP; NOP].

(** The string the preprocessor makes of an enumerator. *)
Definition code_name (c : pifus_operation_code) : string :=
  match c with
  | TCP_BIND => "TCP_BIND" | TCP_LISTEN => "TCP_LISTEN" | TCP_ACCEPT => "TCP_ACCEPT"
  | TCP_CONNECT => "TCP_CONNECT" | TCP_WRITE => "TCP_WRITE" | TCP_RECV => "TCP_RECV"
  | TCP_CLOSE => "TCP_CLOSE" | TCP_ABORT => "TCP_ABORT" | UDP_BIND => "UDP_BIND"
  | UDP_CONNECT => "UDP_CONNECT" | UDP_DISCONNECT => "UDP_DISCONNECT"
  | UDP_SEND => "UDP_SEND" | UDP_RECV => "UDP_RECV"
  | CONNECTION_LOST => "CONNECTION_LOST" | CLIENT_NOP => "CLIENT_NOP" | NOP => "NOP"
  end.

(** [operation_name[v]]; [None] is an entry that is [NULL], or no entry. *)
Definition operation_name (v : Z) : option string :=
  '(_, c) ← list_find (fun c => code_val c = v) all_codes; Some (code_name c).

Definition operation_str (operation_code : Z) : option string :=
  operation_name operation_code.

(** ** Payload of operations and results *)

Inductive pifus_ip_type := PIFUS_IPV4_ADDR | PIFUS_IPV6_ADDR | PIFUS_IPVX_ADDR.
Definition ip_type_val (t : pifus_ip_type) : Z :=
  match t with PIFUS_IPV4_ADDR => 0 | PIFUS_IPV6_ADDR => 6 | PIFUS_IPVX_ADDR => 46 end.
Coercion ip_type_val : pifus_ip_type >-> Z.

(** [char value[45]]. *)
Definition pifus_ip_addr : Type := list ascii.

Record pifus_bind_data := BindData { bind_ip_type : Z; bind_port : Z }.
Record pifus_connect_data := ConnectData {
  connect_ip_addr : pifus_ip_addr; connect_port : Z }.
Record pifus_write_data := WriteData { write_block_offset : Z }.
Record pifus_recv_data := RecvData {
  recv_block_offset : Z; recv_size : Z;
  recv_memory_block_ptr : option Z; recv_data_block_ptr : option Z }.
Record pifus_listen_data := ListenData { listen_backlog_size : Z }.
(** [accept_socket] is a client's socket, [accept_pcb] a stack's pcb. *)
Record pifus_accept_data := AcceptData {
  accept_socket : option Z; accept_pcb : option Z }.

Record pifus_write_queue_entry := WriteEntry {
  wq_size : Z; wq_block_offset : Z }.
Record pifus_recv_queue_entry := RecvEntry {
  rq_size : Z; rq_block_offset : Z; rq_data_offset : Z }.

Record pifus_operation := Operation {
  op_code : Z;
  op_bind : pifus_bind_data;
  op_connect : pifus_connect_data;
  op_write : pifus_write_data;
  op_recv : pifus_recv_data;
  op_listen : pifus_listen_data;
  op_accept : pifus_accept_data }.

Record pifus_internal_operation := InternalOp {
  int_operation : pifus_operation;
  int_socket : Z }.

Inductive pifus_result_code := PIFUS_OK | PIFUS_ERR | PIFUS_ASYNC | PIFUS_TRY_AGAIN.
Definition result_val (r : pifus_result_code) : Z :=
  match r with PIFUS_OK => 0 | PIFUS_ERR => 1 | PIFUS_ASYNC => 100 | PIFUS_TRY_AGAIN => 101 end.
Coercion result_val : pifus_result_code >-> Z.

Record pifus_operation_result := OperationResult {
  res_code : Z;
  res_result_code : Z;
  res_write : pifus_write_data;
  res_recv : pifus_recv_data;
  res_accept : pifus_accept_data }.

(** Assignments to single fields. *)
Definition op_set_code (op : pifus_operation) (c : Z) : pifus_operation :=
  Operation c (op_bind op) (op_connect op) (op_write op) (op_recv op) (op_listen op)
    (op_accept op).
Definition int_set_code (op : pifus_internal_operation) (c : Z) : pifus_internal_operation :=
  InternalOp (op_set_code (int_operation op) c) (int_socket op).
Definition res_set_code (r : pifus_operation_result) (c : Z) : pifus_operation_result :=
  OperationResult c (res_result_code r) (res_write r) (res_recv r) (res_accept r).
Definition res_set_result_code (r : pifus_operation_result) (c : Z) : pifus_operation_result :=
  OperationResult (res_code r) c (res_write r) (res_recv r) (res_accept r).
Definition res_set_write (r : pifus_operation_result) (d : pifus_write_data) :=
  OperationResult (res_code r) (res_result_code r) d (res_recv r) (res_accept r).
Definition res_set_recv (r : pifus_operation_result) (d : pifus_recv_data) :=
  OperationResult (res_code r) (res_result_code r) (res_write r) d (res_accept r).
Definition res_set_accept (r : pifus_operation_result) (d : pifus_accept_data) :=
  OperationResult (res_code r) (res_result_code r) (res_write r) (res_recv r) d.

Definition is_tcp_operation (operation : pifus_operation) : bool :=
  op_code operation <? UDP_BIND.

(** ** Priorities *)

Inductive pifus_priority := PRIORITY_LOW | PRIORITY_MEDIUM | PRIORITY_HIGH.
Definition priority_val (p : pifus_priority) : Z :=
  match p with PRIORITY_LOW => 0 | PRIORITY_MEDIUM => 1 | PRIORITY_HIGH => 2 end.
Coercion priority_val : pifus_priority >-> Z.

Definition prio_str (prio : Z) : string :=
  if prio =? PRIORITY_HIGH then "PRIORITY_HIGH"
  else if prio =? PRIORITY_MEDIUM then "PRIORITY_MEDIUM"
  else if prio =? PRIORITY_LOW then "PRIORITY_LOW"
  else "UNKNOWN PRIORITY".

Definition str_to_prio (str : string) : pifus_priority :=
  if String.eqb "LOW" str then PRIORITY_LOW
  else if String.eqb "HIGH" str then PRIORITY_HIGH
  else PRIORITY_MEDIUM.

(** ** Addresses *)

(** [strncpy(dst, str, n)]: at most [n] characters, padded with NUL. *)
Fixpoint strncpy (n : nat) (str : list ascii) : list ascii :=
  match n with
  | O => []
  | S n =>
      match str with
      | [] => zero :: strncpy n []
      | c :: str => c :: strncpy n str
      end
  end.

Definition ip_addr_from_string (str : string) : pifus_ip_addr :=
  strncpy 45 (list_ascii_of_string str).

(** The C string an array holds; [None] when it has no terminating NUL, so
    that a reader runs off its end. *)
Fixpoint c_string (chars : list ascii) : option string :=
  match chars with
  | [] => None
  | c :: chars => if Ascii.eqb c zero then Some EmptyString else String c <$> c_string chars
  end.

(** ** Properties *)

Lemma code_val_inj c1 c2 : code_val c1 = code_val c2 -> c1 = c2.
Proof. by destruct c1, c2. Qed.

(** Every named code prints as its enumerator, and no two print alike. *)
Lemma operation_str_name (c : pifus_operation_code) : operation_str c = Some (code_name c).
Proof. by destruct c. Qed.

Lemma code_name_inj c1 c2 : code_name c1 = code_name c2 -> c1 = c2.
Proof. by destruct c1, c2. Qed.

(** The option a user types is the name that is printed, less its prefix. *)
Lemma str_to_prio_str (p : pifus_priority) (s : string) :
  prio_str p = ("PRIORITY_" ++ s)%string -> str_to_prio s = p.
Proof.
  destruct p; intros Hs; vm_compute in Hs; injection Hs as <-; reflexivity.
Qed.

Lemma length_strncpy n str : List.length (strncpy n str) = n.
Proof. revert str. induction n; intros [|??]; simpl; auto. Qed.

Lemma c_string_strncpy n str :
  zero ∉ str ->
  c_string (strncpy n str) =
  if decide (List.length str < n)%nat then Some (string_of_list_ascii str) else None.
Proof.
  revert str. induction n as [|n IH]; intros [|c str] Hz; [done..| |].
  - done.
  - cbn [strncpy c_string List.length string_of_list_ascii].
    apply not_elem_of_cons in Hz as [Hc Hz].
    destruct (Ascii.eqb_spec c zero); [by subst|]. rewrite IH by done.
    repeat case_decide; try lia; done.
Qed.

Lemma string_of_list_ascii_of_string s :
  string_of_list_ascii (list_ascii_of_string s) = s.
Proof. induction s; simpl; by f_equal. Qed.

Lemma length_list_ascii_of_string s :
  List.length (list_ascii_of_string s) = String.length s.
Proof. induction s; simpl; by f_equal. Qed.

(** An address reads back from the array as the string it was made from,
    provided the string has at most 44 characters; a longer one (the array
    has 45, so an address of exactly 45 characters included) leaves the array
    with no terminator. *)
Theorem ip_addr_from_string_round_trip (str : string) :
  zero ∉ list_ascii_of_string str ->
  List.length (ip_addr_from_string str) = 45%nat /\
  c_string (ip_addr_from_string str) =
  if decide (String.length str < 45)%nat then Some str else None.
Proof.
  intros Hz. split; [apply length_strncpy|]. unfold ip_addr_from_string.
  rewrite c_string_strncpy by done.
  by rewrite length_list_ascii_of_string, string_of_list_ascii_of_string.
Qed.

Lemma ip_addr_from_string_round_trip_witness :
  c_string (ip_addr_from_string "192.168.1.201") = Some "192.168.1.201"%string.
Proof.
  exact (proj2 (ip_addr_from_string_round_trip "192.168.1.201"
    ltac:(by apply (bool_decide_unpack _)))).
Defined.
