(* ===== verification/PrioRing.v ===== *)
(** * The priority-aware ring buffer
      ([api/src/pifus_priority_aware_ring_buffer.c])

    The stack's transmit queue: one ring buffer of internal operations per
    priority, and the ring the last peek looked into. *)
From S2P Require Import Prelude RingView RingBuffer Operation.

(** A pointer to one of the three rings. *)
Inductive prio_level := LowQueue | MediumQueue | HighQueue.

#[export] Instance prio_level_eq_dec : EqDecision prio_level.
Proof. solve_decision. Defined.

(** The priority a ring is for. *)
Definition level_val (l : prio_level) : Z :=
  match l with
  | LowQueue => PRIORITY_LOW | MediumQueue => PRIORITY_MEDIUM | HighQueue => PRIORITY_HIGH
  end.

Definition TX_QUEUE_SIZE : Z := 512.

(** A ring with its array. *)
Record tx_ring := TxRing {
  tx_rb : ring_buffer;
  tx_buf : arr pifus_internal_operation }.

(** The futexes of the struct are never used. *)
Record prio_ring := PrioRing {
  low_prio_queue : tx_ring;
  medium_prio_queue : tx_ring;
  high_prio_queue : tx_ring;
  last_peek : option prio_level }.

Definition pr_get (r : prio_ring) (l : prio_level) : tx_ring :=
  match l with
  | LowQueue => low_prio_queue r
  | MediumQueue => medium_prio_queue r
  | HighQueue => high_prio_queue r
  end.

Definition pr_set (r : prio_ring) (l : prio_level) (q : tx_ring) : prio_ring :=
  match l with
  | LowQueue => PrioRing q (medium_prio_queue r) (high_prio_queue r) (last_peek r)
  | MediumQueue => PrioRing (low_prio_queue r) q (high_prio_queue r) (last_peek r)
  | HighQueue => PrioRing (low_prio_queue r) (medium_prio_queue r) q (last_peek r)
  end.

Definition pr_set_last_peek (r : prio_ring) (l : prio_level) : prio_ring :=
  PrioRing (low_prio_queue r) (medium_prio_queue r) (high_prio_queue r) (Some l).

Definition tx_set_rb (q : tx_ring) (rb : ring_buffer) : tx_ring := TxRing rb (tx_buf q).

Definition pifus_priority_aware_ring_buffer_create (r : prio_ring) : prio_ring :=
  let r := pr_set r HighQueue (tx_set_rb (high_prio_queue r) (ring_buffer_create TX_QUEUE_SIZE)) in
  let r := pr_set r MediumQueue
             (tx_set_rb (medium_prio_queue r) (ring_buffer_create TX_QUEUE_SIZE)) in
  pr_set r LowQueue (tx_set_rb (low_prio_queue r) (ring_buffer_create TX_QUEUE_SIZE)).

(** A pointer to an element: its ring and its slot. *)
Definition tx_ptr : Type := prio_level * Z.

Definition pr_deref (r : prio_ring) (p : tx_ptr) : pifus_internal_operation :=
  tx_buf (pr_get r p.1) p.2.

Definition pr_store (r : prio_ring) (p : tx_ptr) (op : pifus_internal_operation) : prio_ring :=
  let q := pr_get r p.1 in
  pr_set r p.1 (TxRing (tx_rb q) (<[p.2 := op]> (tx_buf q))).

(** The element [*element] points to, or [None] for [false]. *)
Definition pifus_priority_aware_ring_buffer_peek (r : prio_ring) :
    option tx_ptr * prio_ring :=
  match ring_buffer_peek (tx_rb (high_prio_queue r)) with
  | Some i => (Some (HighQueue, i), pr_set_last_peek r HighQueue)
  | None =>
      match ring_buffer_peek (tx_rb (medium_prio_queue r)) with
      | Some i => (Some (MediumQueue, i), pr_set_last_peek r MediumQueue)
      | None =>
          match ring_buffer_peek (tx_rb (low_prio_queue r)) with
          | Some i => (Some (LowQueue, i), pr_set_last_peek r LowQueue)
          | None => (None, r)
          end
      end
  end.

(** [None] is the dereference of a [last_peek] that was never set. *)
Definition pifus_priority_aware_ring_buffer_erase_first (r : prio_ring) :
    option (bool * prio_ring) :=
  l ← last_peek r;
  let q := pr_get r l in
  let '(ok, rb) := ring_buffer_erase_first (tx_rb q) in
  Some (ok, pr_set r l (tx_set_rb q rb)).

Definition tx_ring_find (q : tx_ring) (satisfies : pifus_internal_operation -> bool) :
    option (option Z) :=
  ring_buffer_find (tx_rb q) (tx_buf q) satisfies.

(** The outer [None] would be a search that does not end. *)
Definition pifus_priority_aware_ring_buffer_find (r : prio_ring)
    (satisfies : pifus_internal_operation -> bool) : option (option tx_ptr) :=
  high ← tx_ring_find (high_prio_queue r) satisfies;
  match high with
  | Some i => Some (Some (HighQueue, i))
  | None =>
      medium ← tx_ring_find (medium_prio_queue r) satisfies;
      match medium with
      | Some i => Some (Some (MediumQueue, i))
      | None =>
          low ← tx_ring_find (low_prio_queue r) satisfies;
          match low with
          | Some i => Some (Some (LowQueue, i))
          | None => Some None
          end
      end
  end.

(** The put of the priority thread that serves level [l], into the ring it
    was started with. *)
Definition pr_put (r : prio_ring) (l : prio_level) (op : pifus_internal_operation) :
    bool * prio_ring :=
  let q := pr_get r l in
  let '(ok, rb, buf) := ring_buffer_put (tx_rb q) (tx_buf q) op in
  (ok, pr_set r l (TxRing rb buf)).

(** ** Contents *)

Definition pr_wf (r : prio_ring) : Prop := forall l, rb_wf (tx_rb (pr_get r l)).

Definition pr_list (r : prio_ring) (l : prio_level) : list pifus_internal_operation :=
  rb_contents (tx_rb (pr_get r l)) (tx_buf (pr_get r l)).

Definition pr_room (r : prio_ring) (l : prio_level) : Z := rb_free (tx_rb (pr_get r l)).

(** All queued operations, in the order of service. *)
Definition pr_all (r : prio_ring) : list pifus_internal_operation :=
  pr_list r HighQueue ++ pr_list r MediumQueue ++ pr_list r LowQueue.

Definition pr_length (r : prio_ring) : nat := length (pr_all r).

Lemma pr_get_set r l l' q :
  pr_get (pr_set r l q) l' = if decide (l' = l) then q else pr_get r l'.
Proof. by destruct l, l'. Qed.

Lemma pr_get_last_peek r l l' : pr_get (pr_set_last_peek r l) l' = pr_get r l'.
Proof. by destruct l'. Qed.

Lemma last_peek_set r l q : last_peek (pr_set r l q) = last_peek r.
Proof. by destruct l. Qed.

Lemma pr_list_set r l l' q :
  pr_list (pr_set r l q) l' =
  if decide (l' = l) then rb_contents (tx_rb q) (tx_buf q) else pr_list r l'.
Proof. unfold pr_list. rewrite pr_get_set. by case_decide. Qed.

Lemma pr_wf_set r l q : pr_wf r -> rb_wf (tx_rb q) -> pr_wf (pr_set r l q).
Proof. intros Hwf Hq l'. rewrite pr_get_set. case_decide; [done|apply Hwf]. Qed.

Create Rewrite HintDb prio.
#[export] Hint Rewrite pr_get_set pr_get_last_peek last_peek_set pr_list_set : prio.

Ltac prio := autorewrite with prio; repeat case_decide; simplify_eq; try done.

Lemma pr_create_spec r l :
  let r' := pifus_priority_aware_ring_buffer_create r in
  pr_wf r' /\ pr_list r' l = [] /\ pr_room r' l = TX_QUEUE_SIZE - 1.
Proof.
  split_and!.
  - intros l'. destruct l'; by apply rb_create_wf.
  - by destruct l.
  - destruct l; apply rb_create_free.
Qed.

Lemma pr_peek_spec r :
  pr_wf r ->
  let '(o, r') := pifus_priority_aware_ring_buffer_peek r in
  (forall l, pr_get r' l = pr_get r l) /\
  match o with
  | None => pr_all r = [] /\ r' = r
  | Some p =>
      last_peek r' = Some p.1 /\ p.2 = rb_slot (tx_rb (pr_get r p.1)) 0 /\
      pr_list r p.1 = pr_deref r p :: tail (pr_list r p.1) /\
      forall l, level_val p.1 < level_val l -> pr_list r l = []
  end.
Proof.
  intros Hwf. unfold pifus_priority_aware_ring_buffer_peek, pr_all.
  assert (forall l i, ring_buffer_peek (tx_rb (pr_get r l)) = Some i ->
    i = rb_slot (tx_rb (pr_get r l)) 0 /\
    pr_list r l = pr_deref r (l, i) :: tail (pr_list r l)) as Hs.
  { intros l i Hp. exact (ring_buffer_peek_some _ (tx_buf (pr_get r l)) i (Hwf l) Hp). }
  assert (forall l, ring_buffer_peek (tx_rb (pr_get r l)) = None -> pr_list r l = []) as Hn.
  { intros l Hp. exact (ring_buffer_peek_none _ (tx_buf (pr_get r l)) (Hwf l) Hp). }
  destruct (ring_buffer_peek (tx_rb (high_prio_queue r))) as [i|] eqn:Hh.
  { destruct (Hs HighQueue i Hh) as [? Hl].
    split; [by intros []|]. split_and!; [done..|]. by intros []. }
  pose proof (Hn HighQueue Hh) as Eh. rewrite Eh.
  destruct (ring_buffer_peek (tx_rb (medium_prio_queue r))) as [i|] eqn:Hm.
  { destruct (Hs MediumQueue i Hm) as [? Hl].
    split; [by intros []|]. split_and!; [done..|]. by intros []. }
  pose proof (Hn MediumQueue Hm) as Em. rewrite Em.
  destruct (ring_buffer_peek (tx_rb (low_prio_queue r))) as [i|] eqn:Hl0.
  { destruct (Hs LowQueue i Hl0) as [? Hl].
    split; [by intros []|]. split_and!; [done..|]. by intros []. }
  by rewrite (Hn LowQueue Hl0).
Qed.

(** Taking the first element of the highest non-empty ring takes the first of
    all. *)
Lemma pr_all_cons r r' l x :
  pr_list r l = x :: pr_list r' l ->
  (forall l', l' <> l -> pr_list r l' = pr_list r' l') ->
  (forall l', level_val l < level_val l' -> pr_list r l' = []) ->
  pr_all r = x :: pr_all r'.
Proof.
  intros Hx Hne Hup. unfold pr_all.
  destruct l;
    rewrite ?(Hne LowQueue), ?(Hne MediumQueue), ?(Hne HighQueue) by done;
    rewrite ?(Hne LowQueue), ?(Hne MediumQueue), ?(Hne HighQueue) in Hup by done.
  - rewrite Hx. rewrite <- (Hne HighQueue), <- (Hne MediumQueue) by done.
    rewrite (Hup HighQueue), (Hup MediumQueue) by done. done.
  - rewrite Hx. rewrite <- (Hne HighQueue) by done. by rewrite (Hup HighQueue) by done.
  - by rewrite Hx.
Qed.

Lemma pr_erase_spec r l :
  pr_wf r -> last_peek r = Some l ->
  exists r', pifus_priority_aware_ring_buffer_erase_first r =
    Some (bool_decide (pr_list r l <> []), r') /\
  pr_wf r' /\ last_peek r' = Some l /\
  (forall l', pr_list r' l' = if decide (l' = l) then tail (pr_list r l) else pr_list r l') /\
  (forall l', rb_end (tx_rb (pr_get r' l')) = rb_end (tx_rb (pr_get r l'))).
Proof.
  intros Hwf Hp. unfold pifus_priority_aware_ring_buffer_erase_first. rewrite Hp. simpl.
  pose proof (ring_buffer_erase_first_spec _ (tx_buf (pr_get r l)) (Hwf l)) as He.
  destruct (ring_buffer_erase_first _) as [ok rb]. destruct He as (Hwf' & He & _ & -> & Hc).
  eexists. split; [done|]. split_and!.
  - by apply pr_wf_set.
  - by rewrite last_peek_set.
  - intros l'. rewrite pr_list_set. by case_decide.
  - intros l'. rewrite pr_get_set. case_decide; [by subst|done].
Qed.

Lemma pr_put_spec r l op :
  pr_wf r ->
  let '(ok, r') := pr_put r l op in
  pr_wf r' /\ last_peek r' = last_peek r /\ ok = bool_decide (0 < pr_room r l) /\
  (forall l', pr_list r' l' =
     if decide (l' = l) then pr_list r l ++ (if ok then [op] else []) else pr_list r l') /\
  (forall l', pr_room r' l' = pr_room r l' - (if decide (l' = l) then int_of_bool ok else 0)) /\
  (forall l', rb_tail (tx_rb (pr_get r' l')) = rb_tail (tx_rb (pr_get r l')) /\
     rb_end (tx_rb (pr_get r' l')) = rb_end (tx_rb (pr_get r l'))).
Proof.
  intros Hwf. unfold pr_put, pr_room.
  pose proof (rb_free_bounds _ (Hwf l)) as Hf.
  destruct (decide (rb_free (tx_rb (pr_get r l)) = 0)) as [Hz|Hz].
  - rewrite ring_buffer_put_full by done. rewrite bool_decide_false by lia.
    split_and!.
    + apply pr_wf_set; [done|apply Hwf].
    + by rewrite last_peek_set.
    + done.
    + intros l'. prio. by rewrite app_nil_r.
    + intros l'. prio; simpl; lia.
    + intros l'. by prio.
  - destruct (ring_buffer_put_ok _ (tx_buf (pr_get r l)) op (Hwf l)) as (-> & Hwf' & Hfr & Hc);
      [lia|]. rewrite bool_decide_true by lia. split_and!.
    + by apply pr_wf_set.
    + by rewrite last_peek_set.
    + done.
    + intros l'. by prio.
    + intros l'. prio; simpl; lia.
    + intros l'. by prio.
Qed.

Lemma pr_peek_head r (p : tx_ptr) :
  pr_list r p.1 = pr_deref r p :: tail (pr_list r p.1) ->
  (forall l, level_val p.1 < level_val l -> pr_list r l = []) ->
  head (pr_all r) = Some (pr_deref r p).
Proof.
  intros Hl Hup. unfold pr_all. destruct p as [[] i]; simpl in *.
  - by rewrite (Hup HighQueue), (Hup MediumQueue), Hl by done.
  - by rewrite (Hup HighQueue), Hl by done.
  - by rewrite Hl.
Qed.

Definition pr_puts (r : prio_ring) (ops : list (prio_level * pifus_internal_operation)) :
    prio_ring :=
  foldl (fun r p => (pr_put r p.1 p.2).2) r ops.

Lemma pr_puts_spec r ops :
  pr_wf r ->
  let r' := pr_puts r ops in
  pr_wf r' /\ last_peek r' = last_peek r /\
  forall l, rb_tail (tx_rb (pr_get r' l)) = rb_tail (tx_rb (pr_get r l)) /\
    rb_end (tx_rb (pr_get r' l)) = rb_end (tx_rb (pr_get r l)) /\
    exists new, pr_list r' l = pr_list r l ++ new.
Proof.
  revert r. induction ops as [|[l op] ops IH]; intros r Hwf; simpl.
  - split_and!; [done..|]. intros l. split_and!; [done..|]. exists []. by rewrite app_nil_r.
  - pose proof (pr_put_spec r l op Hwf) as Hp. destruct (pr_put r l op) as [ok r1]. simpl.
    destruct Hp as (Hwf1 & Hl1 & _ & Hc1 & _ & He1).
    destruct (IH r1 Hwf1) as (Hwf2 & Hl2 & H2). split_and!; [done|by rewrite Hl2|].
    intros l'. destruct (H2 l') as (-> & -> & new & ->). destruct (He1 l') as [-> ->].
    split_and!; [done..|]. rewrite Hc1. case_decide; subst; [|by exists new].
    rewrite <- app_assoc. by eexists.
Qed.

Lemma pr_list_head r p :
  pr_wf r -> p.2 = rb_slot (tx_rb (pr_get r p.1)) 0 ->
  pr_list r p.1 <> [] -> head (pr_list r p.1) = Some (pr_deref r p).
Proof.
  intros Hwf Hp Hne. rewrite head_lookup. unfold pr_list in *.
  rewrite rb_contents_at; [|apply Hwf|by destruct (rb_contents _ _); simpl; [|lia]].
  unfold pr_deref. by rewrite Hp.
Qed.

(** Service is by strict priority, and what is served is what is removed:
    the peek returns the oldest operation of the highest non-empty priority,
    and whatever the priority threads put into any of the rings while it is
    handled, the pointer stays valid, and the erase that follows removes
    exactly that operation and no other. *)
Theorem pr_erase_removes_peeked (r r1 : prio_ring) (p : tx_ptr)
    (ops : list (prio_level * pifus_internal_operation)) :
  pr_wf r -> pifus_priority_aware_ring_buffer_peek r = (Some p, r1) ->
  let r2 := pr_puts r1 ops in
  head (pr_all r) = Some (pr_deref r p) /\ pr_deref r2 p = pr_deref r p /\
  exists r3, pifus_priority_aware_ring_buffer_erase_first r2 = Some (true, r3) /\
    pr_wf r3 /\ pr_list r2 p.1 = pr_deref r p :: pr_list r3 p.1 /\
    (forall l, l <> p.1 -> pr_list r3 l = pr_list r2 l).
Proof.
  intros Hwf Hpeek r2. pose proof (pr_peek_spec r Hwf) as Hs. rewrite Hpeek in Hs.
  destruct Hs as (Hget & Hlast & Hslot & Hlist & Hup).
  assert (head (pr_all r) = Some (pr_deref r p)) as Hhead by (by eapply pr_peek_head).
  assert (pr_wf r1) as Hwf1 by (intros l; rewrite Hget; apply Hwf).
  destruct (pr_puts_spec r1 ops Hwf1) as (Hwf2 & Hlast2 & H2). fold r2 in Hwf2, Hlast2, H2.
  destruct (H2 p.1) as (Ht & He & new & Hnew).
  assert (pr_list r2 p.1 = pr_deref r p :: tail (pr_list r2 p.1)) as Hl2.
  { assert (pr_list r1 p.1 = pr_list r p.1) as Hr1 by (unfold pr_list; by rewrite Hget).
    rewrite Hnew, Hr1, Hlist. done. }
  assert (p.2 = rb_slot (tx_rb (pr_get r2 p.1)) 0) as Hslot2.
  { rewrite Hslot. unfold rb_slot, rv_slot. simpl. by rewrite Ht, He, Hget. }
  split; [done|]. split.
  - pose proof (pr_list_head r2 p Hwf2 Hslot2) as Hh. rewrite Hl2 in Hh.
    by injection (Hh ltac:(done)).
  - destruct (pr_erase_spec r2 p.1) as (r3 & -> & Hwf3 & _ & H3 & _); [done|by rewrite Hlast2|].
    exists r3. split_and!.
    + by rewrite bool_decide_true by (by rewrite Hl2).
    + done.
    + rewrite H3, decide_True by done. done.
    + intros l Hl. by rewrite H3, decide_False.
Qed.

Lemma find_head_filter {A} (f : A -> bool) (l : list A) :
  snd <$> list_find f l = head (filter f l).
Proof.
  induction l as [|x l IH]; simpl; [done|]. rewrite filter_cons.
  case_decide; simpl; [done|]. rewrite <- IH. by destruct (list_find f l).
Qed.

Lemma tx_ring_find_spec r l (f : pifus_internal_operation -> bool) :
  pr_wf r -> exists o,
  tx_ring_find (pr_get r l) f = Some o /\
  (fun i => pr_deref r (l, i)) <$> o = head (filter f (pr_list r l)) /\
  forall i, o = Some i -> exists k : nat,
    i = rb_slot (tx_rb (pr_get r l)) (Z.of_nat k) /\ (k < length (pr_list r l))%nat.
Proof.
  intros Hwf. unfold tx_ring_find. rewrite ring_buffer_find_spec by apply Hwf.
  fold (pr_list r l). eexists. split; [done|]. rewrite <- find_head_filter.
  destruct (list_find f (pr_list r l)) as [[k x]|] eqn:Hf; simpl; [|done].
  apply list_find_Some in Hf as (Hk & _ & _).
  pose proof (lookup_lt_Some _ _ _ Hk) as Hlt. split.
  - unfold pr_list in Hk. rewrite rb_contents_at in Hk by (apply Hwf || done). done.
  - intros i [= <-]. by exists k.
Qed.

(** The search visits the rings by priority and finds the first match. *)
Lemma pr_find_spec r (f : pifus_internal_operation -> bool) :
  pr_wf r -> exists o,
  pifus_priority_aware_ring_buffer_find r f = Some o /\
  pr_deref r <$> o = head (filter f (pr_all r)) /\
  forall p, o = Some p -> exists k : nat,
    p.2 = rb_slot (tx_rb (pr_get r p.1)) (Z.of_nat k) /\ (k < length (pr_list r p.1))%nat.
Proof.
  intros Hwf. unfold pifus_priority_aware_ring_buffer_find, pr_all.
  rewrite !filter_app.
  destruct (tx_ring_find_spec r HighQueue f Hwf) as (oh & Hh & Hvh & Hph).
  destruct (tx_ring_find_spec r MediumQueue f Hwf) as (om & Hm & Hvm & Hpm).
  destruct (tx_ring_find_spec r LowQueue f Hwf) as (ol & Hl & Hvl & Hpl).
  simpl in Hh, Hm, Hl. rewrite Hh, Hm, Hl. simpl.
  destruct oh as [i|].
  { eexists. split; [done|]. split; [|by intros ? [= <-]; apply Hph].
    simpl in *. by destruct (filter f (pr_list r HighQueue)). }
  destruct (filter f (pr_list r HighQueue)); [|done]. simpl.
  destruct om as [i|].
  { eexists. split; [done|]. split; [|by intros ? [= <-]; apply Hpm].
    simpl in *. by destruct (filter f (pr_list r MediumQueue)). }
  destruct (filter f (pr_list r MediumQueue)); [|done]. simpl.
  destruct ol as [i|]; eexists; (split; [done|]).
  - split; [done|]. by intros ? [= <-]; apply Hpl.
  - done.
Qed.

(** Storing through a pointer to a queued operation replaces it in place. *)
Lemma pr_store_spec r p (k : nat) op :
  pr_wf r -> p.2 = rb_slot (tx_rb (pr_get r p.1)) (Z.of_nat k) ->
  (k < length (pr_list r p.1))%nat ->
  let r' := pr_store r p op in
  pr_wf r' /\ last_peek r' = last_peek r /\
  (forall l, tx_rb (pr_get r' l) = tx_rb (pr_get r l)) /\
  forall l, pr_list r' l = if decide (l = p.1) then <[k := op]> (pr_list r l) else pr_list r l.
Proof.
  intros Hwf Hp Hk. unfold pr_store. split_and!.
  - apply pr_wf_set; [done|apply Hwf].
  - by rewrite last_peek_set.
  - intros l. prio.
  - intros l. prio. simpl. rewrite Hp. by apply rb_contents_store.
Qed.

Lemma pr_all_store r p (k : nat) op :
  pr_wf r -> p.2 = rb_slot (tx_rb (pr_get r p.1)) (Z.of_nat k) ->
  (k < length (pr_list r p.1))%nat ->
  exists j : nat, pr_all r !! j = Some (pr_deref r p) /\
    pr_all (pr_store r p op) = <[j := op]> (pr_all r).
Proof.
  intros Hwf Hp Hk. destruct (pr_store_spec r p k op Hwf Hp Hk) as (_ & _ & _ & Hl).
  assert (pr_list r p.1 !! k = Some (pr_deref r p)) as Hat.
  { unfold pr_list, pr_deref. rewrite Hp. apply rb_contents_at; [apply Hwf|exact Hk]. }
  unfold pr_all. rewrite !Hl. destruct p as [[] i]; simpl in *.
  - exists (length (pr_list r HighQueue) + (length (pr_list r MediumQueue) + k))%nat.
    by rewrite !lookup_app_plus, !insert_app_r.
  - exists (length (pr_list r HighQueue) + k)%nat.
    rewrite lookup_app_plus, lookup_app_l, insert_app_r, insert_app_l by done. done.
  - exists k. rewrite lookup_app_l, insert_app_l by done. done.
Qed.

Lemma pr_length_bound r :
  pr_wf r -> (forall l, rb_end (tx_rb (pr_get r l)) <= TX_QUEUE_SIZE) ->
  Z.of_nat (length (pr_all r)) <= 3 * (TX_QUEUE_SIZE - 1).
Proof.
  intros Hwf Hend. unfold pr_all. rewrite !length_app, !Nat2Z.inj_add.
  assert (forall l, Z.of_nat (length (pr_list r l)) <= TX_QUEUE_SIZE - 1) as Hb.
  { intros l. unfold pr_list. rewrite rb_contents_length by apply Hwf.
    pose proof (rb_free_bounds _ (Hwf l)). specialize (Hend l). lia. }
  pose proof (Hb HighQueue). pose proof (Hb MediumQueue). pose proof (Hb LowQueue). lia.
Qed.

(** ** Pointers that stay valid while others put *)

(** [p] points to the operation at [k] of its ring. *)
Definition pr_at (r : prio_ring) (p : tx_ptr) (k : nat) op : Prop :=
  p.2 = rb_slot (tx_rb (pr_get r p.1)) (Z.of_nat k) /\ pr_list r p.1 !! k = Some op.

Lemma pr_at_deref r p k op : pr_wf r -> pr_at r p k op -> pr_deref r p = op.
Proof.
  intros Hwf [Hslot Hk]. unfold pr_list in Hk.
  rewrite rb_contents_at in Hk by (apply Hwf || by eapply lookup_lt_Some).
  unfold pr_deref. rewrite Hslot. congruence.
Qed.

Lemma pr_at_of_slot r p (k : nat) :
  pr_wf r -> p.2 = rb_slot (tx_rb (pr_get r p.1)) (Z.of_nat k) ->
  (k < length (pr_list r p.1))%nat -> pr_at r p k (pr_deref r p).
Proof.
  intros Hwf Hslot Hk. split; [done|]. unfold pr_list, pr_deref in *. rewrite Hslot.
  apply rb_contents_at; [apply Hwf|exact Hk].
Qed.

Lemma pr_peek_at r p r' :
  pr_wf r -> pifus_priority_aware_ring_buffer_peek r = (Some p, r') ->
  pr_at r' p 0 (pr_deref r p) /\ last_peek r' = Some p.1.
Proof.
  intros Hwf Hp. pose proof (pr_peek_spec r Hwf) as Hs. rewrite Hp in Hs.
  destruct Hs as (Hget & Hl & Hslot & Hlist & _). split; [|done]. split; [by rewrite Hget|].
  unfold pr_list in *. rewrite Hget. by rewrite Hlist.
Qed.

Lemma pr_put_at r l op r' p k x :
  pr_wf r -> pr_put r l op = (true, r') -> pr_at r p k x ->
  pr_at r' p k x /\ last_peek r' = last_peek r.
Proof.
  intros Hwf Hput [Hslot Hk]. pose proof (pr_put_spec r l op Hwf) as Hs. rewrite Hput in Hs.
  destruct Hs as (_ & Hlast & _ & Hl & _ & He). split; [|done]. destruct (He p.1) as [Ht He'].
  split; [rewrite Hslot; unfold rb_slot, rv_slot; simpl; by rewrite Ht, He'|].
  rewrite Hl. case_decide as Hd; [|done]. subst l. by apply lookup_app_l_Some.
Qed.

Lemma pr_put_all r l op r' :
  pr_wf r -> pr_put r l op = (true, r') -> pr_wf r' /\ pr_all r' ≡ₚ op :: pr_all r /\
  forall l', rb_end (tx_rb (pr_get r' l')) = rb_end (tx_rb (pr_get r l')).
Proof.
  intros Hwf Hput. pose proof (pr_put_spec r l op Hwf) as Hs. rewrite Hput in Hs.
  destruct Hs as (Hwf' & _ & _ & Hl & _ & He). split_and!; [done| |intros l'; by destruct (He l')].
  unfold pr_all. rewrite !Hl. destruct l; repeat case_decide; try done; solve_Permutation.
Qed.

(** The erase after a peek removes what was peeked. *)
Lemma pr_erase_at r p op :
  pr_wf r -> pr_at r p 0 op -> last_peek r = Some p.1 ->
  exists r', pifus_priority_aware_ring_buffer_erase_first r = Some (true, r') /\ pr_wf r' /\
    pr_all r ≡ₚ op :: pr_all r' /\
    forall l', rb_end (tx_rb (pr_get r' l')) = rb_end (tx_rb (pr_get r l')).
Proof.
  intros Hwf [_ Hk] Hlast. destruct (pr_erase_spec r p.1 Hwf Hlast) as (r' & He & Hwf' & _ & Hl & Hend).
  destruct (pr_list r p.1) as [|op' ops] eqn:Hlist; [done|]. injection Hk as ->.
  exists r'. split; [by rewrite He, bool_decide_true|]. split_and!; [done| |done].
  unfold pr_all. rewrite !Hl. destruct p as [[] i]; cbn [fst] in *; repeat case_decide; try done;
    rewrite Hlist; cbn [tail]; solve_Permutation.
Qed.

(** ** An example: a low-priority operation is being handled when one of high
    priority arrives. *)
Definition example_op (code : Z) : pifus_internal_operation :=
  InternalOp (Operation code (BindData 0 0) (ConnectData [] 0) (WriteData 0)
    (RecvData 0 0 None None) (ListenData 0) (AcceptData None None)) 0.

Definition example_ring : prio_ring :=
  let q := TxRing (RingBuffer 0 0 0) (fun _ => example_op NOP) in
  (pr_put (pifus_priority_aware_ring_buffer_create (PrioRing q q q None)) LowQueue
    (example_op TCP_WRITE)).2.

Lemma example_ring_wf : pr_wf example_ring.
Proof.
  unfold example_ring.
  match goal with |- pr_wf (pr_put (pifus_priority_aware_ring_buffer_create ?r) ?l ?o).2 =>
    pose proof (pr_create_spec r l) as (Hwf & _);
    pose proof (pr_put_spec _ l o Hwf) as Hp end.
  destruct (pr_put _ _ _). apply Hp.
Qed.

Lemma pr_erase_removes_peeked_witness :
  exists r1 r3, pifus_priority_aware_ring_buffer_peek example_ring = (Some (LowQueue, 0), r1) /\
    pifus_priority_aware_ring_buffer_erase_first
      (pr_puts r1 [(HighQueue, example_op TCP_RECV)]) = Some (true, r3).
Proof.
  destruct (pr_erase_removes_peeked example_ring (pr_set_last_peek example_ring LowQueue)
    (LowQueue, 0) [(HighQueue, example_op TCP_RECV)] example_ring_wf eq_refl)
    as (_ & _ & r3 & Hr3 & _).
  by exists (pr_set_last_peek example_ring LowQueue), r3.
Defined.
