(* ===== verification/SocketRegion.v ===== *)
(** * The shared region of a socket ([struct pifus_socket] in
      [api/include/pifus_shmem.h])

    Client and stack both map it: the client fills the submission queue and
    drains the completion queue, the stack does the opposite.  Pointers into
    the stack (the pcb) are opaque integers, [None] being [NULL]. *)
From S2P Require Import Prelude RingBuffer ByteBuffer Operation.

Inductive pifus_protocol := PROTOCOL_TCP | PROTOCOL_UDP.
Definition protocol_val (p : pifus_protocol) : Z :=
  match p with PROTOCOL_TCP => 0 | PROTOCOL_UDP => 1 end.
Coercion protocol_val : pifus_protocol >-> Z.

Record pifus_socket_identifier := SocketIdentifier {
  app_index : Z;
  socket_index : Z }.

#[export] Instance pifus_socket_identifier_eq_dec : EqDecision pifus_socket_identifier.
Proof. solve_decision. Defined.

(** The capacities of the queues, each one slot more than it holds. *)
Definition SQUEUE_SIZE : Z := 10.
Definition CQUEUE_SIZE : Z := 65535.
Definition WRITE_QUEUE_SIZE : Z := 32.
Definition RECV_QUEUE_SIZE : Z := 32.
Definition RECV_BUFFER_SIZE : Z := 32000.

Record pifus_socket := Socket {
  so_protocol : Z;
  so_identifier : pifus_socket_identifier;
  so_priority : Z;
  so_squeue_futex : Z;
  so_squeue : ring_buffer;
  so_squeue_buffer : arr pifus_operation;
  so_cqueue_futex : Z;
  so_cqueue : ring_buffer;
  so_cqueue_buffer : arr pifus_operation_result;
  so_write_queue : ring_buffer;
  so_write_queue_buffer : arr pifus_write_queue_entry;
  so_recv_queue : ring_buffer;
  so_recv_queue_buffer : arr pifus_recv_queue_entry;
  so_unread_data_offset : Z;
  so_recv_buffer : pifus_byte_buffer;
  so_recv_buffer_array : arr Z;
  so_accepted_sockets_priority : Z;
  so_enqueued_ops : Z;
  so_dequeued_ops : Z;
  so_pcb : option Z }.

(** Assignments to single fields. *)
Definition set_protocol (s : pifus_socket) (x : Z) : pifus_socket :=
  Socket x (so_identifier s) (so_priority s) (so_squeue_futex s) (so_squeue s)
    (so_squeue_buffer s) (so_cqueue_futex s) (so_cqueue s) (so_cqueue_buffer s)
    (so_write_queue s) (so_write_queue_buffer s) (so_recv_queue s)
    (so_recv_queue_buffer s) (so_unread_data_offset s) (so_recv_buffer s)
    (so_recv_buffer_array s) (so_accepted_sockets_priority s) (so_enqueued_ops s)
    (so_dequeued_ops s) (so_pcb s).
Definition set_identifier (s : pifus_socket) (x : pifus_socket_identifier) : pifus_socket :=
  Socket (so_protocol s) x (so_priority s) (so_squeue_futex s) (so_squeue s)
    (so_squeue_buffer s) (so_cqueue_futex s) (so_cqueue s) (so_cqueue_buffer s)
    (so_write_queue s) (so_write_queue_buffer s) (so_recv_queue s)
    (so_recv_queue_buffer s) (so_unread_data_offset s) (so_recv_buffer s)
    (so_recv_buffer_array s) (so_accepted_sockets_priority s) (so_enqueued_ops s)
    (so_dequeued_ops s) (so_pcb s).
Definition set_priority (s : pifus_socket) (x : Z) : pifus_socket :=
  Socket (so_protocol s) (so_identifier s) x (so_squeue_futex s) (so_squeue s)
    (so_squeue_buffer s) (so_cqueue_futex s) (so_cqueue s) (so_cqueue_buffer s)
    (so_write_queue s) (so_write_queue_buffer s) (so_recv_queue s)
    (so_recv_queue_buffer s) (so_unread_data_offset s) (so_recv_buffer s)
    (so_recv_buffer_array s) (so_accepted_sockets_priority s) (so_enqueued_ops s)
    (so_dequeued_ops s) (so_pcb s).
Definition set_squeue_futex (s : pifus_socket) (x : Z) : pifus_socket :=
  Socket (so_protocol s) (so_identifier s) (so_priority s) x (so_squeue s)
    (so_squeue_buffer s) (so_cqueue_futex s) (so_cqueue s) (so_cqueue_buffer s)
    (so_write_queue s) (so_write_queue_buffer s) (so_recv_queue s)
    (so_recv_queue_buffer s) (so_unread_data_offset s) (so_recv_buffer s)
    (so_recv_buffer_array s) (so_accepted_sockets_priority s) (so_enqueued_ops s)
    (so_dequeued_ops s) (so_pcb s).
Definition set_squeue (s : pifus_socket) (x : ring_buffer) : pifus_socket :=
  Socket (so_protocol s) (so_identifier s) (so_priority s) (so_squeue_futex s) x
    (so_squeue_buffer s) (so_cqueue_futex s) (so_cqueue s) (so_cqueue_buffer s)
    (so_write_queue s) (so_write_queue_buffer s) (so_recv_queue s)
    (so_recv_queue_buffer s) (so_unread_data_offset s) (so_recv_buffer s)
    (so_recv_buffer_array s) (so_accepted_sockets_priority s) (so_enqueued_ops s)
    (so_dequeued_ops s) (so_pcb s).
Definition set_squeue_buffer (s : pifus_socket) (x : arr pifus_operation) : pifus_socket :=
  Socket (so_protocol s) (so_identifier s) (so_priority s) (so_squeue_futex s)
    (so_squeue s) x (so_cqueue_futex s) (so_cqueue s) (so_cqueue_buffer s)
    (so_write_queue s) (so_write_queue_buffer s) (so_recv_queue s)
    (so_recv_queue_buffer s) (so_unread_data_offset s) (so_recv_buffer s)
    (so_recv_buffer_array s) (so_accepted_sockets_priority s) (so_enqueued_ops s)
    (so_dequeued_ops s) (so_pcb s).
Definition set_cqueue_futex (s : pifus_socket) (x : Z) : pifus_socket :=
  Socket (so_protocol s) (so_identifier s) (so_priority s) (so_squeue_futex s)
    (so_squeue s) (so_squeue_buffer s) x (so_cqueue s) (so_cqueue_buffer s)
    (so_write_queue s) (so_write_queue_buffer s) (so_recv_queue s)
    (so_recv_queue_buffer s) (so_unread_data_offset s) (so_recv_buffer s)
    (so_recv_buffer_array s) (so_accepted_sockets_priority s) (so_enqueued_ops s)
    (so_dequeued_ops s) (so_pcb s).
Definition set_cqueue (s : pifus_socket) (x : ring_buffer) : pifus_socket :=
  Socket (so_protocol s) (so_identifier s) (so_priority s) (so_squeue_futex s)
    (so_squeue s) (so_squeue_buffer s) (so_cqueue_futex s) x (so_cqueue_buffer s)
    (so_write_queue s) (so_write_queue_buffer s) (so_recv_queue s)
    (so_recv_queue_buffer s) (so_unread_data_offset s) (so_recv_buffer s)
    (so_recv_buffer_array s) (so_accepted_sockets_priority s) (so_enqueued_ops s)
    (so_dequeued_ops s) (so_pcb s).
Definition set_cqueue_buffer (s : pifus_socket) (x : arr pifus_operation_result) : pifus_socket :=
  Socket (so_protocol s) (so_identifier s) (so_priority s) (so_squeue_futex s)
    (so_squeue s) (so_squeue_buffer s) (so_cqueue_futex s) (so_cqueue s) x
    (so_write_queue s) (so_write_queue_buffer s) (so_recv_queue s)
    (so_recv_queue_buffer s) (so_unread_data_offset s) (so_recv_buffer s)
    (so_recv_buffer_array s) (so_accepted_sockets_priority s) (so_enqueued_ops s)
    (so_dequeued_ops s) (so_pcb s).
Definition set_write_queue (s : pifus_socket) (x : ring_buffer) : pifus_socket :=
  Socket (so_protocol s) (so_identifier s) (so_priority s) (so_squeue_futex s)
    (so_squeue s) (so_squeue_buffer s) (so_cqueue_futex s) (so_cqueue s)
    (so_cqueue_buffer s) x (so_write_queue_buffer s) (so_recv_queue s)
    (so_recv_queue_buffer s) (so_unread_data_offset s) (so_recv_buffer s)
    (so_recv_buffer_array s) (so_accepted_sockets_priority s) (so_enqueued_ops s)
    (so_dequeued_ops s) (so_pcb s).
Definition set_write_queue_buffer (s : pifus_socket) (x : arr pifus_write_queue_entry) : pifus_socket :=
  Socket (so_protocol s) (so_identifier s) (so_priority s) (so_squeue_futex s)
    (so_squeue s) (so_squeue_buffer s) (so_cqueue_futex s) (so_cqueue s)
    (so_cqueue_buffer s) (so_write_queue s) x (so_recv_queue s) (so_recv_queue_buffer
    s) (so_unread_data_offset s) (so_recv_buffer s) (so_recv_buffer_array s)
    (so_accepted_sockets_priority s) (so_enqueued_ops s) (so_dequeued_ops s) (so_pcb
    s).
Definition set_recv_queue (s : pifus_socket) (x : ring_buffer) : pifus_socket :=
  Socket (so_protocol s) (so_identifier s) (so_priority s) (so_squeue_futex s)
    (so_squeue s) (so_squeue_buffer s) (so_cqueue_futex s) (so_cqueue s)
    (so_cqueue_buffer s) (so_write_queue s) (so_write_queue_buffer s) x
    (so_recv_queue_buffer s) (so_unread_data_offset s) (so_recv_buffer s)
    (so_recv_buffer_array s) (so_accepted_sockets_priority s) (so_enqueued_ops s)
    (so_dequeued_ops s) (so_pcb s).
Definition set_recv_queue_buffer (s : pifus_socket) (x : arr pifus_recv_queue_entry) : pifus_socket :=
  Socket (so_protocol s) (so_identifier s) (so_priority s) (so_squeue_futex s)
    (so_squeue s) (so_squeue_buffer s) (so_cqueue_futex s) (so_cqueue s)
    (so_cqueue_buffer s) (so_write_queue s) (so_write_queue_buffer s) (so_recv_queue
    s) x (so_unread_data_offset s) (so_recv_buffer s) (so_recv_buffer_array s)
    (so_accepted_sockets_priority s) (so_enqueued_ops s) (so_dequeued_ops s) (so_pcb
    s).
Definition set_unread_data_offset (s : pifus_socket) (x : Z) : pifus_socket :=
  Socket (so_protocol s) (so_identifier s) (so_priority s) (so_squeue_futex s)
    (so_squeue s) (so_squeue_buffer s) (so_cqueue_futex s) (so_cqueue s)
    (so_cqueue_buffer s) (so_write_queue s) (so_write_queue_buffer s) (so_recv_queue
    s) (so_recv_queue_buffer s) x (so_recv_buffer s) (so_recv_buffer_array s)
    (so_accepted_sockets_priority s) (so_enqueued_ops s) (so_dequeued_ops s) (so_pcb
    s).
Definition set_recv_buffer (s : pifus_socket) (x : pifus_byte_buffer) : pifus_socket :=
  Socket (so_protocol s) (so_identifier s) (so_priority s) (so_squeue_futex s)
    (so_squeue s) (so_squeue_buffer s) (so_cqueue_futex s) (so_cqueue s)
    (so_cqueue_buffer s) (so_write_queue s) (so_write_queue_buffer s) (so_recv_queue
    s) (so_recv_queue_buffer s) (so_unread_data_offset s) x (so_recv_buffer_array s)
    (so_accepted_sockets_priority s) (so_enqueued_ops s) (so_dequeued_ops s) (so_pcb
    s).
Definition set_recv_buffer_array (s : pifus_socket) (x : arr Z) : pifus_socket :=
  Socket (so_protocol s) (so_identifier s) (so_priority s) (so_squeue_futex s)
    (so_squeue s) (so_squeue_buffer s) (so_cqueue_futex s) (so_cqueue s)
    (so_cqueue_buffer s) (so_write_queue s) (so_write_queue_buffer s) (so_recv_queue
    s) (so_recv_queue_buffer s) (so_unread_data_offset s) (so_recv_buffer s) x
    (so_accepted_sockets_priority s) (so_enqueued_ops s) (so_dequeued_ops s) (so_pcb
    s).
Definition set_accepted_sockets_priority (s : pifus_socket) (x : Z) : pifus_socket :=
  Socket (so_protocol s) (so_identifier s) (so_priority s) (so_squeue_futex s)
    (so_squeue s) (so_squeue_buffer s) (so_cqueue_futex s) (so_cqueue s)
    (so_cqueue_buffer s) (so_write_queue s) (so_write_queue_buffer s) (so_recv_queue
    s) (so_recv_queue_buffer s) (so_unread_data_offset s) (so_recv_buffer s)
    (so_recv_buffer_array s) x (so_enqueued_ops s) (so_dequeued_ops s) (so_pcb s).
Definition set_enqueued_ops (s : pifus_socket) (x : Z) : pifus_socket :=
  Socket (so_protocol s) (so_identifier s) (so_priority s) (so_squeue_futex s)
    (so_squeue s) (so_squeue_buffer s) (so_cqueue_futex s) (so_cqueue s)
    (so_cqueue_buffer s) (so_write_queue s) (so_write_queue_buffer s) (so_recv_queue
    s) (so_recv_queue_buffer s) (so_unread_data_offset s) (so_recv_buffer s)
    (so_recv_buffer_array s) (so_accepted_sockets_priority s) x (so_dequeued_ops s)
    (so_pcb s).
Definition set_dequeued_ops (s : pifus_socket) (x : Z) : pifus_socket :=
  Socket (so_protocol s) (so_identifier s) (so_priority s) (so_squeue_futex s)
    (so_squeue s) (so_squeue_buffer s) (so_cqueue_futex s) (so_cqueue s)
    (so_cqueue_buffer s) (so_write_queue s) (so_write_queue_buffer s) (so_recv_queue
    s) (so_recv_queue_buffer s) (so_unread_data_offset s) (so_recv_buffer s)
    (so_recv_buffer_array s) (so_accepted_sockets_priority s) (so_enqueued_ops s) x
    (so_pcb s).
Definition set_pcb (s : pifus_socket) (x : option Z) : pifus_socket :=
  Socket (so_protocol s) (so_identifier s) (so_priority s) (so_squeue_futex s)
    (so_squeue s) (so_squeue_buffer s) (so_cqueue_futex s) (so_cqueue s)
    (so_cqueue_buffer s) (so_write_queue s) (so_write_queue_buffer s) (so_recv_queue
    s) (so_recv_queue_buffer s) (so_unread_data_offset s) (so_recv_buffer s)
    (so_recv_buffer_array s) (so_accepted_sockets_priority s) (so_enqueued_ops s)
    (so_dequeued_ops s) x.

(** The operations the client has submitted and nobody has taken, and the
    results the stack has delivered and the client has not. *)
Definition sq_list (s : pifus_socket) : list pifus_operation :=
  rb_contents (so_squeue s) (so_squeue_buffer s).
Definition cq_list (s : pifus_socket) : list pifus_operation_result :=
  rb_contents (so_cqueue s) (so_cqueue_buffer s).
