(* ===== verification/Lwip.v ===== *)
(** * What the stack needs of lwIP

    pifus drives lwIP through its raw TCP interface.  The class lists the
    functions the sources under [lwip/custom/stack/] call, over an abstract
    state; a pcb is an opaque pointer.  Nothing is assumed of them.  lwIP in
    turn calls the registered callbacks, which are definitions of the files
    that follow, with a chain of pbufs. *)
From Stdlib Require Import Ascii.
From S2P Require Import Prelude Operation.

(** [err_t]. *)
Definition ERR_OK : Z := 0.
Definition ERR_MEM : Z := -1.

(** The callbacks the stack registers. *)
Inductive stack_callback :=
  | TcpRecvCallback | TcpSentCallback | TcpAcceptedCallback | TcpConnectedCallback.

(** A pointer to data in the shared region of an application. *)
Record shm_ptr := ShmPtr { shm_app : Z; shm_addr : Z }.

Class Lwip := {
  lwip_state : Type;
  ip_addr_t : Type;
  IP4_ADDR_ANY : ip_addr_t;
  IP6_ADDR_ANY : ip_addr_t;
  IP_ANY_TYPE : ip_addr_t;
  ipaddr_aton : list ascii -> ip_addr_t -> ip_addr_t;
  tcp_new : lwip_state -> option Z * lwip_state;
  tcp_nagle_disable : Z -> lwip_state -> lwip_state;
  tcp_arg : option Z -> option Z -> lwip_state -> lwip_state;
  tcp_bind : option Z -> ip_addr_t -> Z -> lwip_state -> Z * lwip_state;
  tcp_connect : option Z -> ip_addr_t -> Z -> stack_callback -> lwip_state -> Z * lwip_state;
  tcp_listen_with_backlog : option Z -> Z -> lwip_state -> option Z * lwip_state;
  tcp_accept : option Z -> stack_callback -> lwip_state -> lwip_state;
  tcp_write : option Z -> shm_ptr -> Z -> Z -> lwip_state -> Z * lwip_state;
  tcp_sent : option Z -> stack_callback -> lwip_state -> lwip_state;
  tcp_output : option Z -> lwip_state -> lwip_state;
  tcp_recv : option Z -> stack_callback -> lwip_state -> lwip_state;
  tcp_recved : option Z -> Z -> lwip_state -> lwip_state;
  tcp_close : option Z -> lwip_state -> Z * lwip_state;
  pbuf_release : lwip_state -> lwip_state;  (* [pbuf_free(p)] on the chain received *)
}.

(** ** Received data

    A chain is the list of its pbufs, [p->next] being the tail of the list:
    the callback only reads it. *)
Record pbuf := Pbuf {
  pb_payload : arr Z;
  pb_tot_len : Z;
  pb_len : Z }.

(** [pbuf_skip_const]: the rest of the chain and [*out_offset]. *)
Fixpoint pbuf_skip (q : list pbuf) (offset_left : Z) : list pbuf * Z :=
  match q with
  | [] => (q, offset_left)
  | p :: next =>
      if pb_len p <=? offset_left then pbuf_skip next (u16 (offset_left - pb_len p))
      else (q, offset_left)
  end.

(** The bytes of a chain. *)
Definition pbuf_bytes (q : list pbuf) : list Z :=
  concat ((fun p => slice (pb_payload p) 0 (pb_len p)) <$> q).

(** [len] counts 16 bits, and [tot_len] is what is left of the packet. *)
Fixpoint pbuf_wf (q : list pbuf) : Prop :=
  match q with
  | [] => True
  | p :: next =>
      0 <= pb_len p /\ pb_tot_len p = Z.of_nat (length (pbuf_bytes q)) /\
      pb_tot_len p < 65536 /\ pbuf_wf next
  end.
