(* ===== verification/Pbuf.v ===== *)
(** * Packet buffers ([lwip/src/core/pbuf.c])

    The operations that read and write the payload of a chain.  A chain is a
    list of segments laid over one memory; [pbuf_at] is the view of a segment
    the receive callback of the stack works with. *)
From S2P Require Import Prelude Memory Operation Lwip.

(** ** Segments over a memory *)

(** [struct pbuf]: the fields these operations use, [next] being the tail of
    the list and [NULL] the empty list. *)
Record pbuf_seg := PbufSeg {
  sg_payload : Z;
  sg_tot_len : Z;
  sg_len : Z }.

Definition pbuf_at (m : mem) (p : pbuf_seg) : pbuf :=
  Pbuf (fun i => m (sg_payload p + i)) (sg_tot_len p) (sg_len p).

Definition chain_at (m : mem) (q : list pbuf_seg) : list pbuf := pbuf_at m <$> q.

(** The bytes of the packet. *)
Definition chain_bytes (m : mem) (q : list pbuf_seg) : list Z := pbuf_bytes (chain_at m q).

(** [err_t]. *)
Definition ERR_ARG : Z := -16.

(** The port ends the process with [abort]. *)
Definition lwip_example_app_platform_assert : outcome unit := Exited 134.
Definition LWIP_ASSERT (assertion : bool) : outcome unit :=
  if assertion then Ret tt else lwip_example_app_platform_assert.

Definition pbuf_clen (p : list pbuf_seg) : Z := foldl (fun len _ => u16 (len + 1)) 0 p.

(** [pbuf_skip_const] over segments. *)
Fixpoint seg_skip (q : list pbuf_seg) (offset_left : Z) : list pbuf_seg * Z :=
  match q with
  | [] => (q, offset_left)
  | p :: next =>
      if sg_len p <=? offset_left then seg_skip next (u16 (offset_left - sg_len p))
      else (q, offset_left)
  end.

(** ** Reading *)

Definition pbuf_try_get_at (m : mem) (p : list pbuf_seg) (offset : Z) : Z :=
  let '(q, q_idx) := seg_skip p offset in
  match q with
  | q :: _ => if q_idx <? sg_len q then u8 (m (sg_payload q + q_idx)) else -1
  | [] => -1
  end.

Definition pbuf_get_at (m : mem) (p : list pbuf_seg) (offset : Z) : Z :=
  let ret := pbuf_try_get_at m p offset in
  if 0 <=? ret then u8 ret else 0.

(** The loop of [pbuf_copy_partial]: [copied_total], and the memory. *)
Fixpoint pbuf_copy_loop (m : mem) (p : list pbuf_seg) (dataptr left len offset copied_total : Z) : Z * mem :=
  match p with
  | [] => (copied_total, m)
  | p :: next =>
      if len =? 0 then (copied_total, m)
      else if negb (offset =? 0) && (sg_len p <=? offset) then
        pbuf_copy_loop m next dataptr left len (u16 (offset - sg_len p)) copied_total
      else
        let buf_copy_len := u16 (sg_len p - offset) in
        let buf_copy_len := if len <? buf_copy_len then len else buf_copy_len in
        let m := memcpy m (dataptr + left) m (sg_payload p + offset) buf_copy_len in
        pbuf_copy_loop m next dataptr (u16 (left + buf_copy_len)) (u16 (len - buf_copy_len)) 0
          (u16 (copied_total + buf_copy_len))
  end.

Definition pbuf_copy_partial (m : mem) (buf : list pbuf_seg) (dataptr len offset : Z) : Z * mem :=
  match buf with
  | [] => (0, m)
  | _ => if dataptr =? 0 then (0, m) else pbuf_copy_loop m buf dataptr 0 len offset 0
  end.

(** The pointer returned, 0 being [NULL]. *)
Definition pbuf_get_contiguous (m : mem) (p : list pbuf_seg) (buffer bufsize len offset : Z) : Z * mem :=
  match p with
  | [] => (0, m)
  | _ =>
      if buffer =? 0 then (0, m)
      else if negb (len <=? bufsize) then (0, m)
      else
        let '(q, out_offset) := seg_skip p offset in
        match q with
        | q0 :: _ =>
            if out_offset + len <=? sg_len q0 then (sg_payload q0 + out_offset, m)
            else
              let '(copied, m) := pbuf_copy_partial m q buffer len out_offset in
              if negb (copied =? len) then (0, m) else (buffer, m)
        | [] => (0, m)
        end
  end.

(** [for (i = 0; i < n; i++)], with [todo] iterations to go. *)
Fixpoint pbuf_memcmp_loop (m : mem) (q : list pbuf_seg) (start s2 i : Z) (todo : nat) : Z :=
  match todo with
  | O => 0
  | S todo =>
      let a := pbuf_get_at m q (u16 (start + i)) in
      let b := u8 (m (s2 + i)) in
      if negb (a =? b) then u16 (Z.min (i + 1) 65535)
      else pbuf_memcmp_loop m q start s2 (u16 (i + 1)) todo
  end.

Definition pbuf_memcmp (m : mem) (p : list pbuf_seg) (offset s2 n : Z) : outcome Z :=
  match p with
  | [] => Undefined
  | p0 :: _ =>
      if sg_tot_len p0 <? offset + n then Ret 65535
      else
        let '(q, start) := seg_skip p offset in
        Ret (pbuf_memcmp_loop m q start s2 0 (Z.to_nat n))
  end.

(** [for (i = start_offset; i <= max_cmp_start; i++)]. *)
Fixpoint pbuf_memfind_loop (fuel : nat) (m : mem) (p : list pbuf_seg)
    (mem_ mem_len max_cmp_start i : Z) : outcome Z :=
  match fuel with
  | O => NoFuel
  | S fuel =>
      if i <=? max_cmp_start then
        plus ← pbuf_memcmp m p i mem_ mem_len;
        if plus =? 0 then Ret i
        else pbuf_memfind_loop fuel m p mem_ mem_len max_cmp_start (u16 (i + 1))
      else Ret 65535
  end.

(** Enough for every 16-bit index and the last test. *)
Definition memfind_fuel : nat := Z.to_nat 65537.

Definition pbuf_memfind (m : mem) (p : list pbuf_seg) (mem_ mem_len start_offset : Z) : outcome Z :=
  match p with
  | [] => Undefined
  | p0 :: _ =>
      let max_cmp_start := u16 (sg_tot_len p0 - mem_len) in
      if mem_len + start_offset <=? sg_tot_len p0 then
        pbuf_memfind_loop memfind_fuel m p mem_ mem_len max_cmp_start start_offset
      else Ret 65535
  end.

(** ** Writing *)

(** The loop of [pbuf_take]: what is left to copy, what was copied. *)
Fixpoint pbuf_take_loop (m : mem) (p : list pbuf_seg) (dataptr total_copy_len copied_total : Z)
    : outcome (Z * Z * mem) :=
  if total_copy_len =? 0 then Ret (total_copy_len, copied_total, m)
  else
    match p with
    | [] => _ ← LWIP_ASSERT false; Undefined
    | p :: next =>
        let buf_copy_len := if sg_len p <? total_copy_len then sg_len p else total_copy_len in
        let m := memcpy m (sg_payload p) m (dataptr + copied_total) buf_copy_len in
        pbuf_take_loop m next dataptr (total_copy_len - buf_copy_len) (copied_total + buf_copy_len)
    end.

Definition pbuf_take (m : mem) (buf : list pbuf_seg) (dataptr len : Z) : outcome (Z * mem) :=
  match buf with
  | [] => Ret (ERR_ARG, m)
  | p0 :: _ =>
      if dataptr =? 0 then Ret (ERR_ARG, m)
      else if sg_tot_len p0 <? len then Ret (ERR_MEM, m)
      else
        '(total_copy_len, copied_total, m) ← pbuf_take_loop m buf dataptr len 0;
        _ ← LWIP_ASSERT ((total_copy_len =? 0) && (copied_total =? len));
        Ret (ERR_OK, m)
  end.

Definition pbuf_take_at (m : mem) (buf : list pbuf_seg) (dataptr len offset : Z) : outcome (Z * mem) :=
  let '(q, target_offset) := seg_skip buf offset in
  match q with
  | [] => Ret (ERR_MEM, m)
  | q :: next =>
      if negb (target_offset + len <=? sg_tot_len q) then Ret (ERR_MEM, m)
      else
        _ ← LWIP_ASSERT (target_offset <? sg_len q);
        let first_copy_len := u16 (Z.min (sg_len q - target_offset) len) in
        let m := memcpy m (sg_payload q + target_offset) m dataptr first_copy_len in
        let remaining_len := u16 (len - first_copy_len) in
        if 0 <? remaining_len then pbuf_take m next (dataptr + first_copy_len) remaining_len
        else Ret (ERR_OK, m)
  end.

Definition pbuf_put_at (m : mem) (p : list pbuf_seg) (offset data : Z) : mem :=
  let '(q, q_idx) := seg_skip p offset in
  match q with
  | q :: _ => if q_idx <? sg_len q then <[sg_payload q + q_idx := data]> m else m
  | [] => m
  end.

(** ** Chains *)

(** The unread bytes of a chain, from an offset inside its first pbuf. *)
Definition rest_bytes (q : list pbuf) (offset : Z) : list Z :=
  drop (Z.to_nat offset) (pbuf_bytes q).

Definition offset_ok (q : list pbuf) (offset : Z) : Prop :=
  match q with [] => True | p :: _ => 0 <= offset <= pb_len p end.

Lemma pbuf_bytes_cons p q :
  pbuf_bytes (p :: q) = slice (pb_payload p) 0 (pb_len p) ++ pbuf_bytes q.
Proof. done. Qed.

Lemma pbuf_len_bound p q : pbuf_wf (p :: q) -> 0 <= pb_len p < 65536.
Proof.
  intros (Hl & Ht & Hb & _). rewrite pbuf_bytes_cons, length_app, length_slice in Ht. lia.
Qed.

Lemma rest_bytes_cons p q offset :
  0 <= offset <= pb_len p ->
  rest_bytes (p :: q) offset = slice (pb_payload p) offset (pb_len p - offset) ++ pbuf_bytes q.
Proof.
  intros Ho. unfold rest_bytes. rewrite pbuf_bytes_cons, drop_app_le by (rewrite length_slice; lia).
  rewrite drop_slice. rewrite Z2Nat.id by lia. done.
Qed.

Lemma rest_bytes_0 q : rest_bytes q 0 = pbuf_bytes q.
Proof. done. Qed.

Lemma rest_bytes_nil offset : rest_bytes [] offset = [].
Proof. apply drop_nil. Qed.

(** Skipping gives the unread bytes. *)
Lemma pbuf_skip_spec q offset :
  pbuf_wf q -> 0 <= offset < 65536 ->
  let '(q', o) := pbuf_skip q offset in
  rest_bytes q' o = rest_bytes q offset /\ pbuf_wf q' /\ offset_ok q' o.
Proof.
  revert offset. induction q as [|p q IH]; intros offset Hwf Ho; simpl.
  - by rewrite !rest_bytes_nil.
  - pose proof (pbuf_len_bound _ _ Hwf). pose proof Hwf as (_ & _ & _ & Hq).
    destruct (Z.leb_spec (pb_len p) offset) as [Hle|Hgt].
    + rewrite u16_small by lia. specialize (IH (offset - pb_len p) Hq ltac:(lia)).
      destruct (pbuf_skip q (offset - pb_len p)) as [q' o]. destruct IH as (-> & ? & ?).
      split_and!; [|done..]. unfold rest_bytes. rewrite pbuf_bytes_cons, drop_app.
      rewrite length_slice, (drop_ge (slice _ _ _)) by (rewrite length_slice; lia).
      simpl. f_equal. lia.
    + split_and!; [done..|simpl; lia].
Qed.

(** ** Well-formed chains of segments *)

Fixpoint chain_len (q : list pbuf_seg) : Z :=
  match q with [] => 0 | p :: next => sg_len p + chain_len next end.

(** [tot_len] is what is left of the packet, and counts 16 bits. *)
Fixpoint chain_wf (q : list pbuf_seg) : Prop :=
  match q with
  | [] => True
  | p :: next => 0 <= sg_len p /\ sg_tot_len p = chain_len q /\ sg_tot_len p < 65536 /\ chain_wf next
  end.

Definition in_seg (p : pbuf_seg) (x : Z) : Prop := sg_payload p <= x < sg_payload p + sg_len p.
Definition in_chain (q : list pbuf_seg) (x : Z) : Prop := Exists (fun p => in_seg p x) q.

(** No two segments share a byte. *)
Fixpoint chain_disjoint (q : list pbuf_seg) : Prop :=
  match q with
  | [] => True
  | p :: next => (forall x, in_seg p x -> ~ in_chain next x) /\ chain_disjoint next
  end.

(** The bytes from [a] up to [a + n] lie outside the chain. *)
Definition outside (q : list pbuf_seg) (a n : Z) : Prop := forall x, a <= x < a + n -> ~ in_chain q x.

Lemma in_chain_cons p q x : in_chain (p :: q) x <-> in_seg p x \/ in_chain q x.
Proof. apply Exists_cons. Qed.

Lemma in_chain_app q1 q2 x : in_chain (q1 ++ q2) x <-> in_chain q1 x \/ in_chain q2 x.
Proof. apply Exists_app. Qed.

Lemma outside_app q1 q2 a n : outside (q1 ++ q2) a n <-> outside q1 a n /\ outside q2 a n.
Proof.
  unfold outside. setoid_rewrite in_chain_app. split.
  - intros Ho. split; intros x Hx Hin; apply (Ho x Hx); tauto.
  - intros [H1 H2] x Hx [Hin|Hin]; [by apply (H1 x Hx)|by apply (H2 x Hx)].
Qed.

Lemma outside_cons p q a n : outside (p :: q) a n -> outside [p] a n /\ outside q a n.
Proof. by intros [H1 H2]%(outside_app [p] q). Qed.

Lemma outside_sub q a n a' n' : outside q a n -> a <= a' -> a' + n' <= a + n -> outside q a' n'.
Proof. intros Ho ?? x Hx. apply Ho. lia. Qed.

Lemma chain_bytes_cons m p q : chain_bytes m (p :: q) = slice m (sg_payload p) (sg_len p) ++ chain_bytes m q.
Proof.
  unfold chain_bytes, chain_at. cbn [fmap list_fmap]. rewrite pbuf_bytes_cons. f_equal.
  apply slice_ext. intros k Hk. cbn [pbuf_at pb_payload]. f_equal.
Qed.

Lemma chain_bytes_app m q1 q2 : chain_bytes m (q1 ++ q2) = chain_bytes m q1 ++ chain_bytes m q2.
Proof.
  induction q1 as [|p q1 IH]; [done|]. cbn [app]. rewrite !chain_bytes_cons, IH. apply app_assoc.
Qed.

Lemma chain_wf_cons p q : chain_wf (p :: q) ->
  0 <= sg_len p < 65536 /\ sg_tot_len p = sg_len p + chain_len q /\ sg_tot_len p < 65536 /\
  0 <= chain_len q /\ chain_wf q.
Proof.
  intros (Hl & Ht & Hb & Hq). cbn [chain_len] in Ht.
  assert (0 <= chain_len q) by (clear -Hq; induction q as [|p q IH]; simpl in *; [done|];
    destruct Hq as (? & _ & _ & ?); specialize (IH ltac:(done)); lia).
  split_and!; (done || lia).
Qed.

Lemma chain_len_app q1 q2 : chain_len (q1 ++ q2) = chain_len q1 + chain_len q2.
Proof. induction q1 as [|p q1 IH]; cbn [app chain_len]; lia. Qed.

Definition chain_lens (q : list pbuf_seg) : Prop := Forall (fun p => 0 <= sg_len p) q.

Lemma chain_wf_lens q : chain_wf q -> chain_lens q.
Proof. induction q as [|p q IH]; [by constructor|]. intros (? & _ & _ & ?). constructor; [done|]. by apply IH. Qed.

Lemma length_chain_bytes m q : chain_lens q -> Z.of_nat (length (chain_bytes m q)) = chain_len q.
Proof.
  induction 1 as [|p q Hp Hq IH]; [done|].
  rewrite chain_bytes_cons, length_app, length_slice. cbn [chain_len]. rewrite <- IH. lia.
Qed.

Lemma chain_len_range q : chain_wf q -> 0 <= chain_len q < 65536.
Proof. destruct q as [|p q]; [done|]. intros (? & ? & ? & ? & ?)%chain_wf_cons. simpl. lia. Qed.

(** A well-formed chain is what the receive callback expects. *)
Lemma chain_wf_at m q : chain_wf q -> pbuf_wf (chain_at m q).
Proof.
  induction q as [|p q IH]; [done|]. intros Hwf. pose proof (length_chain_bytes m _ (chain_wf_lens _ Hwf)) as Hlen.
  apply chain_wf_cons in Hwf as (? & ? & ? & ? & Hq).
  cbn [chain_at fmap list_fmap pbuf_wf pbuf_at pb_len pb_tot_len].
  split_and!; [lia| |done|by apply IH]. etransitivity; [done|].
  symmetry. etransitivity; [exact Hlen|]. by simpl.
Qed.

Lemma chain_bytes_ext m m' q :
  (forall x, in_chain q x -> m x = m' x) -> chain_bytes m q = chain_bytes m' q.
Proof.
  induction q as [|p q IH]; intros Heq; [done|]. rewrite !chain_bytes_cons. f_equal.
  - apply slice_ext. intros k Hk. apply Heq, in_chain_cons. left. unfold in_seg. lia.
  - apply IH. intros x Hx. apply Heq, in_chain_cons. by right.
Qed.

(** Where [pbuf_skip] stops: the offset is inside the first segment it
    returns, or past the end. *)
Lemma seg_skip_split q offset :
  chain_wf q -> 0 <= offset < 65536 ->
  let '(q', o) := seg_skip q offset in
  exists pre, q = pre ++ q' /\ chain_lens pre /\ chain_wf q' /\ offset = chain_len pre + o /\
    0 <= o < 65536 /\ match q' with [] => True | p :: _ => o < sg_len p end.
Proof.
  revert offset. induction q as [|p q IH]; intros offset Hwf Ho; cbn [seg_skip].
  - exists []. split_and!; try done; [by constructor|lia..].
  - pose proof Hwf as (Hl & _ & _ & _ & Hq)%chain_wf_cons. destruct (Z.leb_spec (sg_len p) offset).
    + rewrite u16_small by lia. specialize (IH (offset - sg_len p) Hq ltac:(lia)).
      destruct (seg_skip q (offset - sg_len p)) as [q' o].
      destruct IH as (pre & -> & Hpre & Hq' & Heq & Hor & Hend). exists (p :: pre).
      split_and!; try (done || lia); [constructor; [lia|done]|]. cbn [chain_len]. lia.
    + exists []. split_and!; try (done || lia). by constructor.
Qed.

(** What follows the place where it stops. *)
Lemma seg_skip_bytes m q offset :
  chain_wf q -> 0 <= offset < 65536 ->
  let '(q', o) := seg_skip q offset in
  chain_wf q' /\ 0 <= o < 65536 /\ match q' with [] => True | p :: _ => o < sg_len p end /\
  offset - o = chain_len q - chain_len q' /\
  forall n : nat, drop (Z.to_nat offset + n) (chain_bytes m q) = drop (Z.to_nat o + n) (chain_bytes m q').
Proof.
  intros Hwf Ho. pose proof (seg_skip_split q offset Hwf Ho) as Hs.
  destruct (seg_skip q offset) as [q' o]. destruct Hs as (pre & -> & Hpre & Hq' & -> & Hor & Hend).
  pose proof (length_chain_bytes m pre Hpre) as Hl. split_and!; try (done || lia).
  - clear. induction pre as [|p pre IH]; cbn [app chain_len]; lia.
  - intros n. rewrite chain_bytes_app, drop_app_ge by lia. f_equal. lia.
Qed.

Lemma lookup_slice_Z (m : mem) a n k : 0 <= k < n -> slice m a n !! Z.to_nat k = Some (m (a + k)).
Proof. intros Hk. rewrite lookup_slice by lia. do 2 f_equal. lia. Qed.

(** ** The operations that read *)

Lemma pbuf_try_get_at_spec m q offset :
  chain_wf q -> 0 <= offset < 65536 ->
  pbuf_try_get_at m q offset =
    match chain_bytes m q !! Z.to_nat offset with Some b => u8 b | None => -1 end.
Proof.
  intros Hwf Ho. unfold pbuf_try_get_at. pose proof (seg_skip_bytes m q offset Hwf Ho) as Hs.
  destruct (seg_skip q offset) as [q' o]. destruct Hs as (Hq' & Hor & Hend & _ & Hd).
  specialize (Hd O). rewrite !Nat.add_0_r in Hd.
  assert (chain_bytes m q !! Z.to_nat offset = chain_bytes m q' !! Z.to_nat o) as ->.
  { pose proof (f_equal (fun l => l !! O) Hd) as Hl. cbv beta in Hl.
    by rewrite !lookup_drop, !Nat.add_0_r in Hl. }
  destruct q' as [|p q']; [done|].
  rewrite (proj2 (Z.ltb_lt _ _)) by done. rewrite chain_bytes_cons, lookup_app_l by (rewrite length_slice; lia).
  rewrite lookup_slice_Z by lia. done.
Qed.

Lemma pbuf_get_at_spec m q offset :
  chain_wf q -> 0 <= offset < 65536 ->
  pbuf_get_at m q offset =
    match chain_bytes m q !! Z.to_nat offset with Some b => u8 b | None => 0 end.
Proof.
  intros Hwf Ho. unfold pbuf_get_at. rewrite pbuf_try_get_at_spec by done.
  destruct (chain_bytes m q !! Z.to_nat offset) as [b|]; [|done].
  rewrite (proj2 (Z.leb_le _ _)) by apply u8_range.
  apply u8_small, u8_range.
Qed.

(** The [n] bytes at [s2] are those of the packet from [offset]. *)
Definition occurs (m : mem) (q : list pbuf_seg) (s2 n offset : Z) : Prop :=
  offset + n <= chain_len q /\
  u8 <$> take (Z.to_nat n) (drop (Z.to_nat offset) (chain_bytes m q)) = u8 <$> slice m s2 n.

(** One byte of the comparison. *)
Definition same_at (m : mem) (q : list pbuf_seg) (s2 offset k : Z) : Prop :=
  u8 <$> drop (Z.to_nat offset) (chain_bytes m q) !! Z.to_nat k = Some (u8 (m (s2 + k))).

Lemma occurs_same_at m q s2 n offset :
  0 <= n -> 0 <= offset -> chain_wf q -> offset + n <= chain_len q ->
  occurs m q s2 n offset <-> forall k, 0 <= k < n -> same_at m q s2 offset k.
Proof.
  intros Hn Ho Hwf Hle. pose proof (length_chain_bytes m _ (chain_wf_lens _ Hwf)) as Hlen.
  unfold occurs, same_at. split.
  - intros [_ Heq] k Hk. pose proof (f_equal (fun l => l !! Z.to_nat k) Heq) as Hl. cbv beta in Hl.
    rewrite !list_lookup_fmap, lookup_take_lt, lookup_slice_Z in Hl by lia. exact Hl.
  - intros Hall. split; [done|]. apply list_eq_same_length with (n := Z.to_nat n);
      rewrite ?length_fmap, ?length_take, ?length_drop, ?length_slice; [lia..|].
    intros k x y Hk. rewrite !list_lookup_fmap, lookup_take_lt by lia.
    specialize (Hall (Z.of_nat k) ltac:(lia)). rewrite Nat2Z.id in Hall. rewrite Hall.
    rewrite lookup_slice by lia. cbn. congruence.
Qed.

Lemma pbuf_memcmp_loop_spec m q start s2 n i todo :
  chain_wf q -> 0 <= start -> 0 <= i -> i + Z.of_nat todo = n -> n < 65536 ->
  start + n <= chain_len q ->
  let r := pbuf_memcmp_loop m q start s2 i todo in
  (r = 0 /\ forall k, i <= k < n -> same_at m q s2 start k) \/
  (exists k, i <= k < n /\ r = k + 1 /\ ~ same_at m q s2 start k /\
    forall j, i <= j < k -> same_at m q s2 start j).
Proof.
  intros Hwf Hs. pose proof (chain_len_range q Hwf) as Hlr.
  pose proof (length_chain_bytes m _ (chain_wf_lens _ Hwf)) as Hlen. revert i.
  induction todo as [|todo IH]; intros i Hi Hn Hlt Hle; cbn [pbuf_memcmp_loop].
  { left. split; [done|]. intros k Hk. lia. }
  rewrite (u16_small (start + i)), pbuf_get_at_spec by (done || lia).
  assert (chain_bytes m q !! Z.to_nat (start + i) =
    drop (Z.to_nat start) (chain_bytes m q) !! Z.to_nat i) as ->.
  { rewrite lookup_drop. f_equal. lia. }
  destruct (drop (Z.to_nat start) (chain_bytes m q) !! Z.to_nat i) as [b|] eqn:Hb.
  2: { apply lookup_ge_None in Hb. rewrite length_drop in Hb. lia. }
  destruct (Z.eqb_spec (u8 b) (u8 (m (s2 + i)))) as [Heq|Hne]; cbn [negb].
  - rewrite u16_small by lia. destruct (IH (i + 1)) as [[Hr Hall]|(k & Hk & Hr & Hne & Hall)]; try lia.
    + left. split; [done|]. intros k Hk. destruct (decide (k = i)) as [->|]; [|apply Hall; lia].
      unfold same_at. rewrite Hb. cbn. by rewrite Heq.
    + right. exists k. split_and!; try (done || lia). intros j Hj.
      destruct (decide (j = i)) as [->|]; [|apply Hall; lia].
      unfold same_at. rewrite Hb. cbn. by rewrite Heq.
  - right. exists i. rewrite Z.min_l, u16_small by lia. split_and!; try (done || lia).
    unfold same_at. rewrite Hb. cbn. congruence.
Qed.

(** What [pbuf_memcmp] returns for bytes that are all in the packet. *)
Lemma pbuf_memcmp_spec m p s2 n offset :
  p <> [] -> chain_wf p -> 0 <= offset < 65536 -> 0 <= n < 65536 -> offset + n <= chain_len p ->
  exists r, pbuf_memcmp m p offset s2 n = Ret r /\ (r = 0 <-> occurs m p s2 n offset) /\
    (r <> 0 -> ~ same_at m p s2 offset (r - 1) /\
      forall k, 0 <= k < r - 1 -> same_at m p s2 offset k).
Proof.
  intros Hne Hwf Ho Hn Hle. destruct p as [|p0 p]; [done|]. unfold pbuf_memcmp.
  pose proof Hwf as (_ & Ht & _). cbn [chain_len] in Ht.
  destruct (Z.ltb_spec (sg_tot_len p0) (offset + n)); [cbn [chain_len] in Hle; lia|].
  pose proof (seg_skip_bytes m (p0 :: p) offset Hwf Ho) as Hs.
  destruct (seg_skip (p0 :: p) offset) as [q start]. destruct Hs as (Hq & Hor & _ & Hlen & Hd).
  specialize (Hd O). rewrite !Nat.add_0_r in Hd.
  assert (forall k, same_at m q s2 start k <-> same_at m (p0 :: p) s2 offset k) as Hsame.
  { intros k. unfold same_at. by rewrite Hd. }
  pose proof (occurs_same_at m (p0 :: p) s2 n offset ltac:(lia) ltac:(lia) Hwf Hle) as Hoc.
  eexists. split; [done|].
  destruct (pbuf_memcmp_loop_spec m q start s2 n 0 (Z.to_nat n) Hq) as [[-> Hall]|(k & Hk & -> & Hnk & Hall)];
    try lia.
  - split; [|done]. split; [intros _|done]. apply Hoc. intros k Hk. apply Hsame, Hall. lia.
  - split.
    + split; [lia|]. intros Hocc. exfalso. apply Hnk, Hsame. by apply Hoc.
    + intros _. replace (k + 1 - 1) with k by lia. rewrite <- Hsame. split; [done|].
      intros j Hj. apply Hsame, Hall. lia.
Qed.

Lemma pbuf_memfind_loop_spec fuel m p s2 n i :
  p <> [] -> chain_wf p -> 0 <= n -> 0 <= i -> chain_len p < 65535 -> n <= chain_len p ->
  chain_len p - n - i < Z.of_nat fuel - 1 -> 0 < Z.of_nat fuel -> i <= 65535 ->
  exists r, pbuf_memfind_loop fuel m p s2 n (chain_len p - n) i = Ret r /\
    ((r = 65535 /\ forall j, i <= j -> ~ occurs m p s2 n j) \/
     (i <= r < 65535 /\ occurs m p s2 n r /\ forall j, i <= j < r -> ~ occurs m p s2 n j)).
Proof.
  intros Hne Hwf Hn. revert i. induction fuel as [|fuel IH]; intros i Hi Hlt Hnle Hfuel Hpos Hi16;
    cbn [pbuf_memfind_loop]; [lia|].
  destruct (Z.leb_spec i (chain_len p - n)) as [Hle|Hgt].
  - destruct (pbuf_memcmp_spec m p s2 n i) as (r & -> & Hr & _); try (done || lia).
    cbn [mbind outcome_bind]. destruct (Z.eqb_spec r 0) as [H0|H0].
    + exists i. split; [done|]. right. split_and!; try lia. by apply Hr.
    + rewrite u16_small by lia. destruct (IH (i + 1)) as (r' & -> & Hr'); try lia.
      assert (~ occurs m p s2 n i) as Hni by (rewrite <- Hr; lia).
      exists r'. split; [done|]. destruct Hr' as [[-> Hall]|(Hir & Hocc & Hall)].
      * left. split; [done|]. intros j Hj. destruct (decide (j = i)) as [->|]; [done|]. apply Hall. lia.
      * right. split_and!; try (done || lia). intros j Hj.
        destruct (decide (j = i)) as [->|]; [done|]. apply Hall. lia.
  - exists 65535. split; [done|]. left. split; [done|]. intros j Hj [Hoc _]. lia.
Qed.
