(* ===== verification/Stack.v ===== *)
(** * The stack process: transmit operations and lwIP callbacks
      ([lwip/custom/stack/src/stack.c] and [lwip/custom/stack/src/tcp/])

    One record holds the globals of the process and the shared regions it has
    mapped; every function takes and returns it.  [futex_wake] and the log
    calls have no effect on this state and are left out. *)
From S2P Require Import Prelude RingBuffer ByteBuffer Memory Shmem.
From S2P Require Import Operation PrioRing SocketRegion Lwip.

Definition MAX_DEQUEUES_PER_ITERATION : Z := 50.
Definition MAX_FULL_SND_BUF_ITERATIONS : Z := 64.

(** Sockets are known by the address of their region. *)
Record stack `{Lwip} := Stack {
  st_apps : arr (option mem);                  (* app_ptrs *)
  st_sockets : arr pifus_socket;               (* the socket regions *)
  st_socket_ptrs : arr (arr (option Z));       (* socket_ptrs *)
  st_socket_futexes : arr (arr Z);             (* socket_futexes *)
  st_tx_queue : prio_ring;                     (* tx_queue *)
  st_full_sndbuf_iterations : Z;               (* full_sndbuf_iterations *)
  st_lwip : lwip_state }.

(** What is in a local variable that was not initialised may depend on
    everything that happened before. *)
Class Indeterminate `{Lwip} := {
  uninit_result : stack -> pifus_operation_result;
  uninit_ip : stack -> ip_addr_t }.

Section stack.
Context `{LW : Lwip} `{IN : !Indeterminate}.
Implicit Types st : stack.

Definition st_set_apps st (x : arr (option mem)) : stack :=
  Stack _ x (st_sockets st) (st_socket_ptrs st) (st_socket_futexes st) (st_tx_queue st)
    (st_full_sndbuf_iterations st) (st_lwip st).
Definition st_set_sockets st (x : arr pifus_socket) : stack :=
  Stack _ (st_apps st) x (st_socket_ptrs st) (st_socket_futexes st) (st_tx_queue st)
    (st_full_sndbuf_iterations st) (st_lwip st).
Definition st_set_socket_ptrs st (x : arr (arr (option Z))) : stack :=
  Stack _ (st_apps st) (st_sockets st) x (st_socket_futexes st) (st_tx_queue st)
    (st_full_sndbuf_iterations st) (st_lwip st).
Definition st_set_socket_futexes st (x : arr (arr Z)) : stack :=
  Stack _ (st_apps st) (st_sockets st) (st_socket_ptrs st) x (st_tx_queue st)
    (st_full_sndbuf_iterations st) (st_lwip st).
Definition st_set_tx_queue st (x : prio_ring) : stack :=
  Stack _ (st_apps st) (st_sockets st) (st_socket_ptrs st) (st_socket_futexes st) x
    (st_full_sndbuf_iterations st) (st_lwip st).
Definition st_set_full_sndbuf_iterations st (x : Z) : stack :=
  Stack _ (st_apps st) (st_sockets st) (st_socket_ptrs st) (st_socket_futexes st)
    (st_tx_queue st) x (st_lwip st).
Definition st_set_lwip st (x : lwip_state) : stack :=
  Stack _ (st_apps st) (st_sockets st) (st_socket_ptrs st) (st_socket_futexes st)
    (st_tx_queue st) (st_full_sndbuf_iterations st) x.

Definition set_socket st (p : Z) (s : pifus_socket) : stack :=
  st_set_sockets st (<[p := s]> (st_sockets st)).

Definition set_app st (i : Z) (m : mem) : stack :=
  st_set_apps st (<[i := Some m]> (st_apps st)).

(** ** stack.c: results *)

Definition enqueue_in_cqueue st (socket : Z) (operation_result : pifus_operation_result) :
    stack :=
  let s := st_sockets st socket in
  let '(ok, cqueue, buf) :=
    ring_buffer_put (so_cqueue s) (so_cqueue_buffer s) operation_result in
  if ok then
    let s := set_cqueue_buffer (set_cqueue s cqueue) buf in
    set_socket st socket (set_cqueue_futex s (u32 (so_cqueue_futex s + 1)))
  else st.

Definition tcp_err_callback st (arg : option Z) : outcome stack :=
  socket ← deref arg;
  let st := set_socket st socket (set_pcb (st_sockets st socket) None) in
  let operation_result := uninit_result st in
  let operation_result := res_set_code operation_result CONNECTION_LOST in
  let operation_result := res_set_result_code operation_result PIFUS_ERR in
  Ret (enqueue_in_cqueue st socket operation_result).

(** ** tcp/bind.c *)

Definition tx_tcp_bind st (internal_op : pifus_internal_operation) :
    pifus_operation_result * stack :=
  let bind_data := op_bind (int_operation internal_op) in
  let pcb := so_pcb (st_sockets st (int_socket internal_op)) in
  let ip_addr_type :=
    if bind_ip_type bind_data =? PIFUS_IPV4_ADDR then IP4_ADDR_ANY
    else if bind_ip_type bind_data =? PIFUS_IPV6_ADDR then IP6_ADDR_ANY
    else if bind_ip_type bind_data =? PIFUS_IPVX_ADDR then IP_ANY_TYPE
    else uninit_ip st in
  let '(result, lwip) := tcp_bind pcb ip_addr_type (bind_port bind_data) (st_lwip st) in
  let st := st_set_lwip st lwip in
  let operation_result := uninit_result st in
  if result =? ERR_OK then (res_set_result_code operation_result PIFUS_OK, st)
  else (res_set_result_code operation_result PIFUS_ERR, st).

(** ** tcp/connect.c *)

Definition tcp_connected_callback st (arg : option Z) : outcome (Z * stack) :=
  socket ← deref arg;
  let operation_result := uninit_result st in
  let operation_result := res_set_code operation_result TCP_CONNECT in
  let operation_result := res_set_result_code operation_result PIFUS_OK in
  Ret (ERR_OK, enqueue_in_cqueue st socket operation_result).

Definition tx_tcp_connect st (internal_op : pifus_internal_operation) :
    pifus_operation_result * stack :=
  let connect_data := op_connect (int_operation internal_op) in
  let pcb := so_pcb (st_sockets st (int_socket internal_op)) in
  let reader_addr := ipaddr_aton (connect_ip_addr connect_data) (uninit_ip st) in
  let '(result, lwip) :=
    tcp_connect pcb reader_addr (connect_port connect_data) TcpConnectedCallback
      (st_lwip st) in
  let st := st_set_lwip st lwip in
  let operation_result := uninit_result st in
  if result =? ERR_OK then (res_set_result_code operation_result PIFUS_ASYNC, st)
  else (res_set_result_code operation_result PIFUS_ERR, st).

(** ** tcp/listen.c *)

Definition tx_tcp_listen st (internal_op : pifus_internal_operation) :
    pifus_operation_result * stack :=
  let socket := int_socket internal_op in
  let listen_data := op_listen (int_operation internal_op) in
  let pcb := so_pcb (st_sockets st socket) in
  let '(pcb, lwip) :=
    tcp_listen_with_backlog pcb (listen_backlog_size listen_data) (st_lwip st) in
  let st := st_set_lwip st lwip in
  let operation_result := uninit_result st in
  match pcb with
  | None => (res_set_result_code operation_result PIFUS_ERR, st)
  | Some _ =>
      (res_set_result_code operation_result PIFUS_OK,
       set_socket st socket (set_pcb (st_sockets st socket) pcb))
  end.

(** ** tcp/accept.c *)

Definition tcp_accepted_callback st (arg : option Z) (newpcb : option Z) :
    outcome (Z * stack) :=
  socket ← deref arg;
  let operation_result := uninit_result st in
  let operation_result := res_set_code operation_result TCP_ACCEPT in
  let operation_result := res_set_result_code operation_result PIFUS_OK in
  let operation_result := res_set_accept operation_result (AcceptData None newpcb) in
  let st := st_set_lwip st (tcp_recv newpcb TcpRecvCallback (st_lwip st)) in
  let st := st_set_lwip st (tcp_arg newpcb None (st_lwip st)) in
  Ret (ERR_OK, enqueue_in_cqueue st socket operation_result).

Definition tx_tcp_accept st (internal_op : pifus_internal_operation) :
    pifus_operation_result * stack :=
  let pcb := so_pcb (st_sockets st (int_socket internal_op)) in
  let st := st_set_lwip st (tcp_accept pcb TcpAcceptedCallback (st_lwip st)) in
  (res_set_result_code (uninit_result st) PIFUS_ASYNC, st).

(** ** tcp/close.c *)

Definition tx_tcp_close st (internal_op : pifus_internal_operation) :
    pifus_operation_result * stack :=
  let s := st_sockets st (int_socket internal_op) in
  let '(result, lwip) := tcp_close (so_pcb s) (st_lwip st) in
  let st := st_set_lwip st lwip in
  let operation_result := uninit_result st in
  if result =? ERR_OK then
    let app_index := app_index (so_identifier s) in
    let socket_index := socket_index (so_identifier s) in
    (res_set_result_code operation_result PIFUS_OK,
     st_set_socket_ptrs st
       (<[app_index := <[socket_index := None]> (st_socket_ptrs st app_index)]>
          (st_socket_ptrs st)))
  else (res_set_result_code operation_result PIFUS_ERR, st).

(** ** tcp/write.c *)

Definition tx_tcp_write st (internal_op : pifus_internal_operation) :
    outcome (pifus_operation_result * stack) :=
  let write_data := op_write (int_operation internal_op) in
  let socket := int_socket internal_op in
  let s := st_sockets st socket in
  app ← deref (st_apps st (app_index (so_identifier s)));
  let block := shm_data_get_block_ptr (i64 (write_block_offset write_data)) in
  let data_ptr := ShmPtr (app_index (so_identifier s)) (shm_data_get_data_ptr block) in
  let pcb := so_pcb s in
  let operation_result := res_set_write (uninit_result st) write_data in
  if ring_buffer_is_full (so_write_queue s) then
    Ret (res_set_result_code operation_result PIFUS_ERR, st)
  else
    let '(result, lwip) := tcp_write pcb data_ptr (u16 (blk_size app block)) 0 (st_lwip st) in
    let st := st_set_lwip st lwip in
    if result =? ERR_OK then
      let write_queue_entry :=
        WriteEntry (blk_size app block) (write_block_offset write_data) in
      let '(ok, write_queue, buf) :=
        ring_buffer_put (so_write_queue s) (so_write_queue_buffer s) write_queue_entry in
      if ok then
        let st := set_socket st socket
                    (set_write_queue_buffer (set_write_queue s write_queue) buf) in
        let st := st_set_lwip st (tcp_sent pcb TcpSentCallback (st_lwip st)) in
        let st := st_set_lwip st (tcp_output pcb (st_lwip st)) in
        Ret (res_set_result_code operation_result PIFUS_ASYNC, st)
      else Exited 1
    else if result =? ERR_MEM then
      Ret (res_set_result_code operation_result PIFUS_TRY_AGAIN, st)
    else Ret (res_set_result_code operation_result PIFUS_ERR, st).

(** Each call that recurses has removed an entry. *)
Fixpoint tcp_sent_callback_rec (fuel : nat) st (arg : option Z) (len : Z) :
    outcome (Z * stack) :=
  match fuel with
  | O => NoFuel
  | S fuel =>
      socket ← deref arg;
      let s := st_sockets st socket in
      match ring_buffer_peek (so_write_queue s) with
      | None => Exited 1
      | Some i =>
          let write_queue_entry := so_write_queue_buffer s i in
          if wq_size write_queue_entry <=? len then
            let operation_result := uninit_result st in
            let operation_result := res_set_code operation_result TCP_WRITE in
            let operation_result := res_set_result_code operation_result PIFUS_OK in
            let operation_result := res_set_write operation_result
                                      (WriteData (wq_block_offset write_queue_entry)) in
            let '(_, write_queue) := ring_buffer_erase_first (so_write_queue s) in
            let st := set_socket st socket (set_write_queue s write_queue) in
            let st := enqueue_in_cqueue st socket operation_result in
            (* the entry is read again through the pointer *)
            let size := wq_size (so_write_queue_buffer (st_sockets st socket) i) in
            if size <? len then tcp_sent_callback_rec fuel st arg (u16 (len - size))
            else Ret (ERR_OK, st)
          else
            let entry := WriteEntry (u64 (wq_size write_queue_entry - len))
                           (wq_block_offset write_queue_entry) in
            Ret (ERR_OK, set_socket st socket
              (set_write_queue_buffer s (<[i := entry]> (so_write_queue_buffer s))))
      end
  end.

Definition tcp_sent_callback st (arg : option Z) (len : Z) : outcome (Z * stack) :=
  tcp_sent_callback_rec (Z.to_nat WRITE_QUEUE_SIZE) st arg len.

(** ** tcp/recv.c *)

(** The return value, the byte buffer, the region and the entry. *)
Definition pop_from_buffer (s : pifus_socket) (app : mem) (recv_block : Z)
    (recv_queue_entry : pifus_recv_queue_entry) (len_needed_recv : Z) :
    Z * pifus_byte_buffer * mem * pifus_recv_queue_entry :=
  let data_ptr := shm_data_get_data_ptr recv_block + rq_data_offset recv_queue_entry in
  let '(len_bytes_from_recv_buffer, recv_buffer, app) :=
    pifus_byte_buffer_pop (so_recv_buffer s) (so_recv_buffer_array s) len_needed_recv
      app data_ptr in
  let recv_queue_entry :=
    if 0 <? len_bytes_from_recv_buffer then
      RecvEntry (u64 (rq_size recv_queue_entry - len_bytes_from_recv_buffer))
        (rq_block_offset recv_queue_entry)
        (u64 (rq_data_offset recv_queue_entry + len_bytes_from_recv_buffer))
    else recv_queue_entry in
  (len_bytes_from_recv_buffer, recv_buffer, app, recv_queue_entry).

(** The locals of the callback that its loops change. *)
Record recv_locals := RecvLocals {
  rl_next_pbuf : list pbuf;
  rl_offset : Z;            (* offset_inside_next_pbuf *)
  rl_available : Z;         (* len_data_available *)
  rl_ackable : Z }.         (* total_data_ackable *)

(** The inner loop, [while (next_pbuf != NULL && len_needed_recv > 0)]. A pbuf
    that is not consumed completely satisfies the need, and the loop ends. *)
Fixpoint recv_copy_loop (next_pbuf : list pbuf) (offset available ackable : Z)
    (recv_block : Z) (len_needed_recv : Z) (app : mem) (entry : pifus_recv_queue_entry) :
    recv_locals * mem * pifus_recv_queue_entry :=
  match next_pbuf with
  | [] => (RecvLocals [] offset available ackable, app, entry)
  | p :: next =>
      if 0 <? len_needed_recv then
        let len_next_pbuf := u16 (pb_len p - offset) in
        let '(amount_to_copy, pbuf_completely_consumed) :=
          if len_needed_recv <? len_next_pbuf then (len_needed_recv, false)
          else (len_next_pbuf, true) in
        let data_ptr := shm_data_get_data_ptr recv_block + rq_data_offset entry in
        let app := memcpy app data_ptr (pb_payload p) offset amount_to_copy in
        let available := u16 (available - amount_to_copy) in
        let len_needed_recv := u16 (len_needed_recv - amount_to_copy) in
        let ackable := u16 (ackable + amount_to_copy) in
        let entry := RecvEntry (u64 (rq_size entry - amount_to_copy)) (rq_block_offset entry)
                       (u64 (rq_data_offset entry + amount_to_copy)) in
        if pbuf_completely_consumed then
          recv_copy_loop next 0 available ackable recv_block len_needed_recv app entry
        else
          (RecvLocals next_pbuf (u16 (offset + amount_to_copy)) available ackable, app, entry)
      else (RecvLocals next_pbuf offset available ackable, app, entry)
  end.

Definition recv_result st (recv_block_offset : Z) : pifus_operation_result :=
  let operation_result := uninit_result st in
  let operation_result := res_set_code operation_result TCP_RECV in
  let operation_result := res_set_result_code operation_result PIFUS_OK in
  res_set_recv operation_result
    (RecvData (i64 recv_block_offset) 0 None
       (recv_data_block_ptr (res_recv operation_result))).

(** The loop that matches data with the entries of the receive queue. *)
Fixpoint recv_match_loop (fuel : nat) st (socket : Z) (l : recv_locals)
    (recv_buffer_empty : bool) : outcome (recv_locals * stack) :=
  match fuel with
  | O => NoFuel
  | S fuel =>
      let s := st_sockets st socket in
      let app_index := app_index (so_identifier s) in
      match ring_buffer_peek (so_recv_queue s) with
      | None => Ret (l, st)
      | Some i =>
          if (0 <? rl_available l) || negb recv_buffer_empty then
            app ← deref (st_apps st app_index);
            let entry := so_recv_queue_buffer s i in
            let recv_block := shm_data_get_block_ptr (i64 (rq_block_offset entry)) in
            let len_needed_recv := u16 (rq_size entry) in
            let '(len_needed_recv, recv_buffer_empty, recv_buffer, app, entry) :=
              if recv_buffer_empty then
                (len_needed_recv, recv_buffer_empty, so_recv_buffer s, app, entry)
              else
                let '(len_bytes_from_recv_buffer, recv_buffer, app, entry) :=
                  pop_from_buffer s app recv_block entry len_needed_recv in
                if 0 <? len_bytes_from_recv_buffer then
                  (u16 (len_needed_recv - len_bytes_from_recv_buffer), recv_buffer_empty,
                   recv_buffer, app, entry)
                else (len_needed_recv, true, recv_buffer, app, entry) in
            let recv_op_fulfilled := negb (rl_available l <? len_needed_recv) in
            let '(l, app, entry) :=
              recv_copy_loop (rl_next_pbuf l) (rl_offset l) (rl_available l) (rl_ackable l)
                recv_block len_needed_recv app entry in
            let st := set_app st app_index app in
            let s := set_recv_buffer s recv_buffer in
            let s := set_recv_queue_buffer s (<[i := entry]> (so_recv_queue_buffer s)) in
            if recv_op_fulfilled then
              let operation_result := recv_result st (rq_block_offset entry) in
              let '(_, recv_queue) := ring_buffer_erase_first (so_recv_queue s) in
              let st := set_socket st socket (set_recv_queue s recv_queue) in
              let st := enqueue_in_cqueue st socket operation_result in
              recv_match_loop fuel st socket l recv_buffer_empty
            else
              recv_match_loop fuel (set_socket st socket s) socket l recv_buffer_empty
          else Ret (l, st)
      end
  end.

(** Every iteration but two removes an entry. *)
Definition recv_match_fuel : nat := Z.to_nat RECV_QUEUE_SIZE + 3.

(** The loop that fills the byte buffer with what nobody asked for yet. *)
Fixpoint recv_buffer_loop (next_pbuf : list pbuf) (offset available ackable : Z)
    (recv_buffer : pifus_byte_buffer) (array : arr Z) :
    pifus_byte_buffer * arr Z * Z * Z :=
  match next_pbuf with
  | [] => (recv_buffer, array, available, ackable)
  | p :: next =>
      if 0 <? available then
        let len_next_pbuf := u16 (pb_len p - offset) in
        let '(bytes_copied, recv_buffer, array) :=
          pifus_byte_buffer_add recv_buffer array (pb_payload p) offset len_next_pbuf in
        let available := u16 (available - bytes_copied) in
        let ackable := u16 (ackable + bytes_copied) in
        if bytes_copied <? len_next_pbuf then (recv_buffer, array, available, ackable)
        else recv_buffer_loop next 0 available ackable recv_buffer array
      else (recv_buffer, array, available, ackable)
  end.

(** [p] is the chain; the empty list is [NULL]. *)
Definition tcp_recv_callback st (arg : option Z) (tpcb : option Z) (p : list pbuf)
    (err : Z) : outcome (Z * stack) :=
  match arg with
  | None => Ret (ERR_MEM, st)
  | Some socket =>
      if err =? ERR_OK then
        match p with
        | [] => Ret (ERR_OK, st)
        | p0 :: _ =>
            let s := st_sockets st socket in
            let '(len_data_available, next_pbuf, offset_inside_next_pbuf) :=
              if 0 <? so_unread_data_offset s then
                let '(q, out_offset) := pbuf_skip p (so_unread_data_offset s) in
                (u16 (pb_tot_len p0 - so_unread_data_offset s), q, out_offset)
              else (pb_tot_len p0, p, 0) in
            let recv_buffer_empty :=
              negb (pifus_byte_buffer_is_empty (so_recv_buffer s) =? 0) in
            '(l, st) ← recv_match_loop recv_match_fuel st socket
                         (RecvLocals next_pbuf offset_inside_next_pbuf len_data_available 0)
                         recv_buffer_empty;
            let s := st_sockets st socket in
            let '(recv_buffer, array, len_data_available, total_data_ackable) :=
              if 0 <? rl_available l then
                recv_buffer_loop (rl_next_pbuf l) (rl_offset l) (rl_available l)
                  (rl_ackable l) (so_recv_buffer s) (so_recv_buffer_array s)
              else (so_recv_buffer s, so_recv_buffer_array s, rl_available l, rl_ackable l) in
            let s := set_recv_buffer_array (set_recv_buffer s recv_buffer) array in
            let st := set_socket st socket s in
            let st := st_set_lwip st (tcp_recved tpcb total_data_ackable (st_lwip st)) in
            if 0 <? len_data_available then
              Ret (ERR_MEM, set_socket st socket
                (set_unread_data_offset s (u16 (pb_tot_len p0 - len_data_available))))
            else
              let st := set_socket st socket (set_unread_data_offset s 0) in
              Ret (ERR_OK, st_set_lwip st (pbuf_release (st_lwip st)))
        end
      else Ret (err, st)
  end.

Definition tx_tcp_recv st (internal_op : pifus_internal_operation) :
    outcome (pifus_operation_result * stack) :=
  let recv_data := op_recv (int_operation internal_op) in
  let socket := int_socket internal_op in
  let pcb := so_pcb (st_sockets st socket) in
  let st := st_set_lwip st (tcp_recv pcb TcpRecvCallback (st_lwip st)) in
  let s := st_sockets st socket in
  let recv_queue_entry :=
    RecvEntry (recv_size recv_data) (u64 (recv_block_offset recv_data)) 0 in
  let operation_result := uninit_result st in
  let operation_result := res_set_recv operation_result
    (RecvData (i64 (rq_block_offset recv_queue_entry)) (rq_size recv_queue_entry) None
       (recv_data_block_ptr (res_recv operation_result))) in
  '(filled, entry, st) ←
    (if negb (pifus_byte_buffer_is_empty (so_recv_buffer s) =? 0) then
       Ret (false, recv_queue_entry, st)
     else
       app ← deref (st_apps st (app_index (so_identifier s)));
       let recv_block := shm_data_get_block_ptr (i64 (rq_block_offset recv_queue_entry)) in
       let '(len_bytes_from_recv_buffer, recv_buffer, app, entry) :=
         pop_from_buffer s app recv_block recv_queue_entry (u16 (rq_size recv_queue_entry)) in
       let st := set_app st (app_index (so_identifier s)) app in
       let st := set_socket st socket (set_recv_buffer s recv_buffer) in
       Ret ((0 <? len_bytes_from_recv_buffer) &&
            (recv_size recv_data =? len_bytes_from_recv_buffer), entry, st));
  if (filled : bool) then
    Ret (res_set_result_code (res_set_code operation_result TCP_RECV) PIFUS_OK, st)
  else
    let s := st_sockets st socket in
    let '(ok, recv_queue, buf) :=
      ring_buffer_put (so_recv_queue s) (so_recv_queue_buffer s) entry in
    if ok then
      Ret (res_set_result_code operation_result PIFUS_ASYNC,
           set_socket st socket (set_recv_queue_buffer (set_recv_queue s recv_queue) buf))
    else Ret (res_set_result_code operation_result PIFUS_ERR, st).

(** ** stack.c: operations *)

(** The first operation of a socket gives it a pcb. *)
Definition tx_open_pcb st (socket : Z) : outcome stack :=
  match so_pcb (st_sockets st socket) with
  | Some _ => Ret st
  | None =>
      let '(pcb, lwip) := tcp_new (st_lwip st) in
      let st := st_set_lwip st lwip in
      let st := set_socket st socket (set_pcb (st_sockets st socket) pcb) in
      p ← deref pcb;
      let st := st_set_lwip st (tcp_nagle_disable p (st_lwip st)) in
      Ret (st_set_lwip st (tcp_arg pcb (Some socket) (st_lwip st)))
  end.

Definition process_tx_op st (internal_op : pifus_internal_operation) :
    outcome (pifus_operation_result * stack) :=
  let operation := int_operation internal_op in
  let socket := int_socket internal_op in
  '(operation_result, st) ←
    (if (op_code operation =? NOP) || (op_code operation =? CLIENT_NOP) then
       Ret (res_set_result_code (uninit_result st) PIFUS_OK, st)
     else if is_tcp_operation operation then
       st ← tx_open_pcb st socket;
       if op_code operation =? TCP_BIND then Ret (tx_tcp_bind st internal_op)
       else if op_code operation =? TCP_CONNECT then Ret (tx_tcp_connect st internal_op)
       else if op_code operation =? TCP_WRITE then tx_tcp_write st internal_op
       else if op_code operation =? TCP_RECV then tx_tcp_recv st internal_op
       else if op_code operation =? TCP_LISTEN then Ret (tx_tcp_listen st internal_op)
       else if op_code operation =? TCP_ACCEPT then Ret (tx_tcp_accept st internal_op)
       else if op_code operation =? TCP_CLOSE then Ret (tx_tcp_close st internal_op)
       else Ret (uninit_result st, st) (* unknown code: only logged *)
     else Exited 1);
  Ret (res_set_code operation_result (op_code operation), st).

Definition is_recv_op (operation : pifus_internal_operation) : bool :=
  op_code (int_operation operation) =? TCP_RECV.

Definition erase_first_tx st : outcome stack :=
  '(_, q) ← deref (pifus_priority_aware_ring_buffer_erase_first (st_tx_queue st));
  Ret (st_set_tx_queue st q).

(** The result is the return value, the state and [*dequeued_ops]. The
    recursion is for one operation found by the scan. *)
Fixpoint handle_operation_rec (fuel : nat) st (tx_op : tx_ptr) (recv_scan : bool)
    (dequeued_ops : Z) : outcome (bool * stack * Z) :=
  match fuel with
  | O => NoFuel
  | S fuel =>
      let op := pr_deref (st_tx_queue st) tx_op in
      '(operation_result, st) ← process_tx_op st op;
      if (res_code operation_result =? NOP) && negb recv_scan then
        st ← erase_first_tx st;
        Ret (true, st, dequeued_ops)
      else if res_result_code operation_result =? PIFUS_TRY_AGAIN then
        if MAX_FULL_SND_BUF_ITERATIONS <=? st_full_sndbuf_iterations st then
          recv_op ← fueled (pifus_priority_aware_ring_buffer_find (st_tx_queue st) is_recv_op);
          match recv_op with
          | Some recv_op => handle_operation_rec fuel st recv_op true dequeued_ops
          | None => Ret (false, st, dequeued_ops)
          end
        else
          Ret (false,
               st_set_full_sndbuf_iterations st (u8 (st_full_sndbuf_iterations st + 1)),
               dequeued_ops)
      else
        let socket := int_socket op in
        let st :=
          if negb (res_result_code operation_result =? PIFUS_ASYNC) then
            enqueue_in_cqueue st socket operation_result
          else st in
        let s := st_sockets st socket in
        let st := set_socket st socket (set_dequeued_ops s (u64 (so_dequeued_ops s + 1))) in
        if recv_scan then
          let q := st_tx_queue st in
          Ret (true, st_set_tx_queue st (pr_store q tx_op (int_set_code (pr_deref q tx_op) NOP)),
               dequeued_ops)
        else
          let st := st_set_full_sndbuf_iterations st 0 in
          st ← erase_first_tx st;
          Ret (true, st, u8 (dequeued_ops + 1))
  end.

Definition handle_operation st (tx_op : tx_ptr) (recv_scan : bool) (dequeued_ops : Z) :
    outcome (bool * stack * Z) :=
  handle_operation_rec 2 st tx_op recv_scan dequeued_ops.

Fixpoint lwip_loop (fuel : nat) st (dequeued_operations : Z) : outcome stack :=
  match fuel with
  | O => NoFuel
  | S fuel =>
      if dequeued_operations <? MAX_DEQUEUES_PER_ITERATION then
        let '(tx_op, q) := pifus_priority_aware_ring_buffer_peek (st_tx_queue st) in
        let st := st_set_tx_queue st q in
        match tx_op with
        | None => Ret st
        | Some tx_op =>
            '(ok, st, dequeued_operations) ←
              handle_operation st tx_op false dequeued_operations;
            if (ok : bool) then lwip_loop fuel st dequeued_operations else Ret st
        end
      else Ret st
  end.

(** Every iteration removes an operation or turns a receive into a no-op, and
    the three rings hold at most [3 * (TX_QUEUE_SIZE - 1)] operations. *)
Definition lwip_loop_fuel : nat := Z.to_nat (6 * TX_QUEUE_SIZE).

Definition lwip_loop_iteration st : outcome stack := lwip_loop lwip_loop_fuel st 0.
End stack.
