(* ===== verification/StackSpec.v ===== *)
(** * Properties of the stack: invariants, accounting, termination

    What the transmit path and the callbacks leave alone, what they keep well
    formed, and how the transmit loop consumes the queue. *)
From S2P Require Import Prelude RingView RingBuffer ByteBuffer Memory Shmem.
From S2P Require Import Operation PrioRing SocketRegion Lwip Stack.

(** ** Well-formed sockets and states *)

Definition socket_wf (s : pifus_socket) : Prop :=
  rb_wf (so_squeue s) /\ rb_wf (so_cqueue s) /\
  rb_wf (so_write_queue s) /\ rb_end (so_write_queue s) <= WRITE_QUEUE_SIZE /\
  rb_wf (so_recv_queue s) /\ rb_end (so_recv_queue s) <= RECV_QUEUE_SIZE /\
  bb_wf (so_recv_buffer s).

(** What only the client and the priority thread change. *)
Record socket_kept (s s' : pifus_socket) : Prop := SocketKept {
  kept_protocol : so_protocol s' = so_protocol s;
  kept_identifier : so_identifier s' = so_identifier s;
  kept_priority : so_priority s' = so_priority s;
  kept_squeue_futex : so_squeue_futex s' = so_squeue_futex s;
  kept_squeue : so_squeue s' = so_squeue s;
  kept_squeue_buffer : so_squeue_buffer s' = so_squeue_buffer s;
  kept_enqueued_ops : so_enqueued_ops s' = so_enqueued_ops s;
  kept_dequeued_ops : so_dequeued_ops s' = so_dequeued_ops s;
  kept_wf : socket_wf s -> socket_wf s' }.

(** What only results change. *)
Definition cqueue_kept (s s' : pifus_socket) : Prop :=
  so_cqueue s' = so_cqueue s /\ so_cqueue_buffer s' = so_cqueue_buffer s /\
  so_cqueue_futex s' = so_cqueue_futex s.

#[export] Instance socket_kept_preorder : PreOrder socket_kept.
Proof.
  split; [done|]. intros s1 s2 s3 [] []. split; (congruence || tauto).
Qed.

#[export] Instance cqueue_kept_preorder : PreOrder cqueue_kept.
Proof.
  split; [done|]. intros s1 s2 s3 (?&?&?) (?&?&?). split_and!; congruence.
Qed.

Create HintDb stack.

Lemma rb_put_wf {A} rb (buf : arr A) x :
  rb_wf rb -> let '(_, rb', _) := ring_buffer_put rb buf x in
  rb_wf rb' /\ rb_end rb' = rb_end rb.
Proof.
  intros Hwf. pose proof (rb_free_bounds rb Hwf).
  destruct (decide (rb_free rb = 0)).
  - by rewrite ring_buffer_put_full.
  - destruct (ring_buffer_put_ok rb buf x Hwf) as (-> & ? & _); [lia|done].
Qed.

Lemma rb_erase_wf rb :
  rb_wf rb -> let '(_, rb') := ring_buffer_erase_first rb in
  rb_wf rb' /\ rb_end rb' = rb_end rb.
Proof.
  intros Hwf. pose proof (ring_buffer_erase_first_spec rb (fun _ => tt) Hwf) as He.
  destruct (ring_buffer_erase_first rb). by destruct He as (? & ? & _).
Qed.

Section kept.
Context `{LW : Lwip}.
Implicit Types st : stack.

Record stack_kept (R : pifus_socket -> pifus_socket -> Prop) (st st' : stack) : Prop :=
  StackKept {
    kept_tx_queue : st_tx_queue st' = st_tx_queue st;
    kept_full : st_full_sndbuf_iterations st' = st_full_sndbuf_iterations st;
    kept_socket_futexes : st_socket_futexes st' = st_socket_futexes st;
    kept_apps : forall i, is_Some (st_apps st i) -> is_Some (st_apps st' i);
    kept_sockets : forall p, socket_kept (st_sockets st p) (st_sockets st' p) /\
      R (st_sockets st p) (st_sockets st' p) }.

#[export] Instance stack_kept_preorder R : PreOrder R -> PreOrder (stack_kept R).
Proof.
  intros HR. split.
  - intros st. split; [done..|]. intros p. split; reflexivity.
  - intros st1 st2 st3 [] []. split; [congruence..|auto|].
    intros p. destruct (kept_sockets0 p), (kept_sockets1 p). split; by etrans.
Qed.

Lemma set_lwip_kept R st x : PreOrder R -> stack_kept R st (st_set_lwip st x).
Proof. split; [done..|]. intros p. split; reflexivity. Qed.

Lemma set_app_kept R st i m : PreOrder R -> stack_kept R st (set_app st i m).
Proof.
  split; [done..| |intros p; split; reflexivity]. intros j Hj. simpl.
  destruct (decide (j = i)) as [->|]; [by rewrite arr_insert_eq|by rewrite arr_insert_ne].
Qed.

Lemma set_socket_ptrs_kept R st x : PreOrder R -> stack_kept R st (st_set_socket_ptrs st x).
Proof. split; [done..|]. intros p. split; reflexivity. Qed.

Lemma set_socket_kept (R : pifus_socket -> pifus_socket -> Prop) st p s :
  PreOrder R -> socket_kept (st_sockets st p) s -> R (st_sockets st p) s ->
  stack_kept R st (set_socket st p s).
Proof.
  intros HR Hs Hr. split; [done..|]. intros q. simpl. destruct (decide (q = p)) as [->|].
  - by rewrite arr_insert_eq.
  - rewrite arr_insert_ne by done. split; reflexivity.
Qed.
End kept.

#[export] Hint Resolve set_lwip_kept set_app_kept set_socket_ptrs_kept : stack.

(** The two frames: everything a transmit handler may touch, and everything a
    callback may touch, which adds the completion queue. *)
Abbreviation tx_kept := (stack_kept cqueue_kept).
Abbreviation cb_kept := (stack_kept (fun _ _ => True)).

#[export] Instance true_preorder {A} : PreOrder (fun _ _ : A => True).
Proof. done. Qed.

Lemma tx_kept_cb `{LW : Lwip} (st st' : stack) : tx_kept st st' -> cb_kept st st'.
Proof. intros [??? Ha Hs]. split; [done..|]. intros p. split; [apply Hs|done]. Qed.

(** One assignment to a socket's field. *)
Ltac kept_field :=
  split; [reflexivity..|]; unfold socket_wf; simpl; intuition; simplify_eq/=; try lia.

Section handlers.
Context `{LW : Lwip} `{IN : !Indeterminate}.
Implicit Types (st : stack) (s : pifus_socket).

Lemma set_pcb_kept s x : socket_kept s (set_pcb s x).
Proof. kept_field. Qed.
Lemma set_unread_kept s x : socket_kept s (set_unread_data_offset s x).
Proof. kept_field. Qed.
Lemma set_recv_buffer_array_kept s x : socket_kept s (set_recv_buffer_array s x).
Proof. kept_field. Qed.
Lemma set_recv_queue_buffer_kept s x : socket_kept s (set_recv_queue_buffer s x).
Proof. kept_field. Qed.
Lemma set_write_queue_buffer_kept s x : socket_kept s (set_write_queue_buffer s x).
Proof. kept_field. Qed.
Lemma set_recv_buffer_kept s x :
  (bb_wf (so_recv_buffer s) -> bb_wf x) -> socket_kept s (set_recv_buffer s x).
Proof. intros. kept_field. Qed.

(** A queue moved by a put or an erase. *)
Definition ring_moved (rb rb' : ring_buffer) : Prop :=
  rb_wf rb -> rb_wf rb' /\ rb_end rb' = rb_end rb.

Lemma ring_moved_put {A} rb (buf : arr A) x ok rb' buf' :
  ring_buffer_put rb buf x = (ok, rb', buf') -> ring_moved rb rb'.
Proof. intros Hp Hwf. pose proof (rb_put_wf rb buf x Hwf) as Hw. by rewrite Hp in Hw. Qed.

Lemma ring_moved_erase rb ok rb' :
  ring_buffer_erase_first rb = (ok, rb') -> ring_moved rb rb'.
Proof. intros Hp Hwf. pose proof (rb_erase_wf rb Hwf) as Hw. by rewrite Hp in Hw. Qed.

Lemma set_write_queue_kept s x :
  ring_moved (so_write_queue s) x -> socket_kept s (set_write_queue s x).
Proof.
  intros Hx. split; [reflexivity..|]. intros (?&?&Hw&?&?). destruct (Hx Hw).
  unfold socket_wf. simpl. split_and!; tauto || lia.
Qed.
Lemma set_recv_queue_kept s x :
  ring_moved (so_recv_queue s) x -> socket_kept s (set_recv_queue s x).
Proof.
  intros Hx. split; [reflexivity..|]. intros (?&?&?&?&Hw&?). destruct (Hx Hw).
  unfold socket_wf. simpl. split_and!; tauto || lia.
Qed.
Lemma set_cqueue_kept s x :
  ring_moved (so_cqueue s) x -> socket_kept s (set_cqueue s x).
Proof.
  intros Hx. split; [reflexivity..|]. intros (?&Hw&?). destruct (Hx Hw).
  unfold socket_wf. simpl. split_and!; tauto || lia.
Qed.
Lemma set_cqueue_buffer_kept s x : socket_kept s (set_cqueue_buffer s x).
Proof. kept_field. Qed.
Lemma set_cqueue_futex_kept s x : socket_kept s (set_cqueue_futex s x).
Proof. kept_field. Qed.

#[local] Hint Resolve set_pcb_kept set_unread_kept set_recv_buffer_array_kept
  set_recv_queue_buffer_kept set_write_queue_buffer_kept set_recv_buffer_kept
  set_write_queue_kept set_recv_queue_kept set_cqueue_kept set_cqueue_buffer_kept
  set_cqueue_futex_kept ring_moved_put ring_moved_erase : stack.

Lemma enqueue_in_cqueue_kept st p r : cb_kept st (enqueue_in_cqueue st p r).
Proof.
  unfold enqueue_in_cqueue.
  destruct (ring_buffer_put _ _ r) as [[[] rb] buf] eqn:Hput; [|reflexivity].
  apply set_socket_kept; [apply _| |done].
  etrans; [|apply set_cqueue_futex_kept]. etrans; [|apply set_cqueue_buffer_kept].
  eauto with stack.
Qed.

Lemma tcp_err_callback_kept st arg st' : tcp_err_callback st arg = Ret st' -> cb_kept st st'.
Proof.
  unfold tcp_err_callback. destruct arg as [p|]; simpl; [|done]. intros [= <-].
  etrans; [|apply enqueue_in_cqueue_kept].
  apply set_socket_kept; [apply _|apply set_pcb_kept|done].
Qed.

Lemma tx_tcp_bind_kept st op r st' : tx_tcp_bind st op = (r, st') -> tx_kept st st'.
Proof.
  unfold tx_tcp_bind. destruct (tcp_bind _ _ _ _) as [e lw].
  destruct (e =? ERR_OK); intros [= <- <-]; eauto with stack typeclass_instances.
Qed.

Lemma tx_tcp_connect_kept st op r st' : tx_tcp_connect st op = (r, st') -> tx_kept st st'.
Proof.
  unfold tx_tcp_connect. destruct (tcp_connect _ _ _ _ _) as [e lw].
  destruct (e =? ERR_OK); intros [= <- <-]; eauto with stack typeclass_instances.
Qed.

Lemma tx_tcp_listen_kept st op r st' : tx_tcp_listen st op = (r, st') -> tx_kept st st'.
Proof.
  unfold tx_tcp_listen. destruct (tcp_listen_with_backlog _ _ _) as [[pcb|] lw];
    intros [= <- <-]; [|eauto with stack typeclass_instances].
  etrans; [by apply (set_lwip_kept _ _ lw); apply _|].
  apply set_socket_kept; [apply _|apply set_pcb_kept|done].
Qed.

Lemma tx_tcp_accept_kept st op r st' : tx_tcp_accept st op = (r, st') -> tx_kept st st'.
Proof. intros [= <- <-]. eauto with stack typeclass_instances. Qed.

Lemma tx_tcp_close_kept st op r st' : tx_tcp_close st op = (r, st') -> tx_kept st st'.
Proof.
  unfold tx_tcp_close. destruct (tcp_close _ _) as [e lw].
  destruct (e =? ERR_OK); intros [= <- <-]; [|eauto with stack typeclass_instances].
  etrans; [by apply (set_lwip_kept _ _ lw); apply _|].
  eauto with stack typeclass_instances.
Qed.

Lemma tx_tcp_write_kept st op r st' : tx_tcp_write st op = Ret (r, st') -> tx_kept st st'.
Proof.
  unfold tx_tcp_write. destruct (st_apps st _) as [app|]; cbn; [|done].
  destruct (ring_buffer_is_full _); [by intros [= <- <-]|].
  destruct (tcp_write _ _ _ _ _) as [e lw]. destruct (e =? ERR_OK).
  - destruct (ring_buffer_put _ _ _) as [[[] rb] buf] eqn:Hput; [|done].
    intros [= <- <-].
    etrans; [|eauto with stack typeclass_instances].
    etrans; [|eauto with stack typeclass_instances].
    etrans; [by apply (set_lwip_kept _ _ lw); apply _|].
    apply set_socket_kept; [apply _| |done].
    etrans; [|apply set_write_queue_buffer_kept]. eauto with stack.
  - destruct (e =? ERR_MEM); intros [= <- <-]; eauto with stack typeclass_instances.
Qed.

Lemma pop_from_buffer_wf s app blk entry len n bb app' entry' :
  pop_from_buffer s app blk entry len = (n, bb, app', entry') ->
  0 <= len < 65536 -> bb_wf (so_recv_buffer s) -> bb_wf bb.
Proof.
  unfold pop_from_buffer. intros Hp Hlen Hwf.
  destruct (byte_buffer_pop_spec (so_recv_buffer s) (so_recv_buffer_array s) len app
    (shm_data_get_data_ptr blk + rq_data_offset entry) Hwf Hlen) as (bb' & out & Heq & Hwf' & _).
  rewrite Heq in Hp. by simplify_eq.
Qed.

Lemma tx_tcp_recv_kept st op r st' : tx_tcp_recv st op = Ret (r, st') -> tx_kept st st'.
Proof.
  unfold tx_tcp_recv. set (st1 := st_set_lwip st _).
  assert (tx_kept st st1) as H1 by eauto with stack typeclass_instances.
  destruct (negb _); cbn [mbind outcome_bind].
  - destruct (ring_buffer_put _ _ _) as [[ok rb] buf] eqn:Hput.
    destruct ok; intros [= <- <-]; [|done]. etrans; [exact H1|].
    apply set_socket_kept; [apply _| |done].
    etrans; [|apply set_recv_queue_buffer_kept]. eauto with stack.
  - destruct (st_apps _ _) as [app|]; cbn [deref mbind outcome_bind]; [|done].
    destruct (pop_from_buffer _ _ _ _ _) as [[[n bb] app'] entry] eqn:Hpop.
    cbn [mbind outcome_bind].
    set (st2 := set_socket _ _ _).
    assert (tx_kept st st2) as H2.
    { etrans; [exact H1|]. etrans; [apply set_app_kept; apply _|].
      apply set_socket_kept; [apply _| |done].
      apply set_recv_buffer_kept. intros Hwf. eapply pop_from_buffer_wf; [exact Hpop| |done].
      apply u16_range. }
    destruct (_ && _); [by intros [= <- <-]|].
    destruct (ring_buffer_put _ _ _) as [[ok rb] buf] eqn:Hput.
    destruct ok; intros [= <- <-]; [|done]. etrans; [exact H2|].
    apply set_socket_kept; [apply _| |done].
    etrans; [|apply set_recv_queue_buffer_kept]. eauto with stack.
Qed.

Lemma tx_open_pcb_kept st socket st' : tx_open_pcb st socket = Ret st' -> tx_kept st st'.
Proof.
  unfold tx_open_pcb. intros H. destruct (so_pcb _); [by simplify_eq|].
  destruct (tcp_new _) as [[pcb|] lw]; cbn in H; [|done]. simplify_eq.
  etrans; [|eauto with stack typeclass_instances].
  etrans; [|eauto with stack typeclass_instances].
  etrans; [by apply (set_lwip_kept _ _ lw); apply _|].
  apply set_socket_kept; [apply _|apply set_pcb_kept|done].
Qed.

(** A process step of the transmit path changes the sockets' queues of the
    stack at most, and never comes to an end of its fuel. *)
Lemma process_tx_op_kept st op r st' :
  process_tx_op st op = Ret (r, st') ->
  tx_kept st st' /\ res_code r = op_code (int_operation op).
Proof.
  unfold process_tx_op. intros Hp.
  match type of Hp with (?o ≫= ?f) = _ =>
    destruct o as [[r1 st1]|?| |] eqn:Ho; cbn in Hp; try done end.
  simplify_eq. split; [|done].
  destruct (_ || _); [by simplify_eq|].
  destruct (is_tcp_operation _); [|done].
  match type of Ho with (?o ≫= ?f) = _ =>
    destruct o as [st2|?| |] eqn:H2; cbn in Ho; try done end.
  pose proof (tx_open_pcb_kept _ _ _ H2) as Hk2.
  etrans; [exact Hk2|].
  repeat match type of Ho with (if ?b then _ else _) = _ => destruct b end; simplify_eq;
    try reflexivity;
    eauto using tx_tcp_bind_kept, tx_tcp_connect_kept, tx_tcp_write_kept, tx_tcp_recv_kept,
      tx_tcp_listen_kept, tx_tcp_accept_kept, tx_tcp_close_kept.
Qed.

(** ** The transmit loop *)

Definition stack_wf st : Prop :=
  pr_wf (st_tx_queue st) /\
  (forall l, rb_end (tx_rb (pr_get (st_tx_queue st) l)) <= TX_QUEUE_SIZE) /\
  forall p, socket_wf (st_sockets st p).

(** Operations still to be accounted for: those of socket [p] that are not
    no-ops. *)
Definition counts (p : Z) (op : pifus_internal_operation) : nat :=
  if (int_socket op =? p) && negb (op_code (int_operation op) =? NOP) then 1 else 0.

Definition pending (p : Z) (q : list pifus_internal_operation) : nat :=
  sum_list_with (counts p) q.

(** What the loop has to do: an operation is served, and a receive may first be
    turned into a no-op. *)
Definition weight (op : pifus_internal_operation) : nat := if is_recv_op op then 2 else 1.
Definition work (q : list pifus_internal_operation) : nat := sum_list_with weight q.

(** The first operation, and the pointer a peek returns to it. *)
Definition tx_head (r : prio_ring) (p : tx_ptr) : Prop :=
  last_peek r = Some p.1 /\ pr_list r p.1 = pr_deref r p :: tail (pr_list r p.1) /\
  forall l, level_val p.1 < level_val l -> pr_list r l = [].

(** What later operations need stays: the regions, the identities and what the
    clients have submitted. *)
Definition env_kept st st' : Prop :=
  (forall i, is_Some (st_apps st i) -> is_Some (st_apps st' i)) /\
  (forall q, so_identifier (st_sockets st' q) = so_identifier (st_sockets st q)) /\
  forall q, sq_list (st_sockets st' q) = sq_list (st_sockets st q).

(** Nothing new is queued. *)
Definition queue_from (q q' : list pifus_internal_operation) : Prop :=
  forall op, op ∈ q' -> op ∈ q \/ exists op0, op0 ∈ q /\ op = int_set_code op0 NOP.

(** [served op st st']: [op] left the queue's account and was counted. *)
Definition served (op : pifus_internal_operation) st st' : Prop :=
  (forall q, pending q (pr_all (st_tx_queue st)) =
     (counts q op + pending q (pr_all (st_tx_queue st')))%nat) /\
  (forall q, so_dequeued_ops (st_sockets st' q) =
     if (counts q op =? 0)%nat then so_dequeued_ops (st_sockets st q)
     else u64 (so_dequeued_ops (st_sockets st q) + 1)) /\
  (forall q, so_enqueued_ops (st_sockets st' q) = so_enqueued_ops (st_sockets st q)) /\
  (work (pr_all (st_tx_queue st')) < work (pr_all (st_tx_queue st)))%nat /\
  queue_from (pr_all (st_tx_queue st)) (pr_all (st_tx_queue st')) /\ env_kept st st'.

(** What the clients are still to hear of. *)
Definition live (q : list pifus_internal_operation) : list pifus_internal_operation :=
  filter (fun op => op_code (int_operation op) <> NOP) q.

(** The operation was handed to its handler, which did not ask for it to be
    tried again; in front of a scan the operation at the head was. *)
Definition processed (op : pifus_internal_operation) st : Prop :=
  exists st0 r st1,
    (st0 = st \/ exists op0 r0, process_tx_op st op0 = Ret (r0, st0) /\ res_result_code r0 = PIFUS_TRY_AGAIN) /\
    process_tx_op st0 op = Ret (r, st1) /\
    (op_code (int_operation op) <> NOP -> res_result_code r <> PIFUS_TRY_AGAIN).

(** One operation is processed and leaves the queue; the others stay. *)
Record serve_event (op : pifus_internal_operation) st st' : Prop := ServeEvent {
  se_served : served op st st';
  se_live : live (pr_all (st_tx_queue st)) ≡ₚ live [op] ++ live (pr_all (st_tx_queue st'));
  se_processed : processed op st }.

Definition unserved st st' : Prop :=
  env_kept st st' /\
  pr_all (st_tx_queue st') = pr_all (st_tx_queue st) /\
  forall q, so_dequeued_ops (st_sockets st' q) = so_dequeued_ops (st_sockets st q) /\
    so_enqueued_ops (st_sockets st' q) = so_enqueued_ops (st_sockets st q).

#[export] Instance env_kept_preorder : PreOrder env_kept.
Proof.
  split; [done|]. intros s1 s2 s3 (? & H1 & H1') (? & H2 & H2'). split_and!; [auto|..];
    intros q; [by rewrite H2, H1|by rewrite H2', H1'].
Qed.

Lemma stack_kept_env R st st' : stack_kept R st st' -> env_kept st st'.
Proof.
  intros [_ _ _ Ha Hs]. split_and!; [done|..]; intros q; destruct (Hs q) as [[] _]; [done|].
  unfold sq_list. congruence.
Qed.

Lemma queue_from_tail op q : queue_from (op :: q) q.
Proof. intros op' ?. left. by right. Qed.

Lemma queue_from_insert q (k : nat) op :
  q !! k = Some op -> queue_from q (<[k := int_set_code op NOP]> q).
Proof.
  intros Hk op' [j Hj]%list_elem_of_lookup.
  apply list_lookup_insert_Some in Hj as [(_ & <- & _)|[_ Hj]].
  - right. exists op. split; [by eapply list_elem_of_lookup_2|done].
  - left. by eapply list_elem_of_lookup_2.
Qed.

Lemma cb_kept_wf st st' : cb_kept st st' -> stack_wf st -> stack_wf st'.
Proof.
  intros [Hq _ _ _ Hs] (H1 & H2 & H3). unfold stack_wf. rewrite Hq. split_and!; [done..|].
  intros p. destruct (Hs p) as [[] _]. auto.
Qed.

Lemma set_tx_queue_wf st q :
  stack_wf st -> pr_wf q -> (forall l, rb_end (tx_rb (pr_get q l)) <= TX_QUEUE_SIZE) ->
  stack_wf (st_set_tx_queue st q).
Proof. by intros (_ & _ & ?). Qed.

Lemma set_full_wf st x : stack_wf st -> stack_wf (st_set_full_sndbuf_iterations st x).
Proof. done. Qed.

Lemma set_dequeued_ops_wf st p x :
  stack_wf st -> stack_wf (set_socket st p (set_dequeued_ops (st_sockets st p) x)).
Proof.
  intros (H1 & H2 & H3). split_and!; [done..|]. intros q. simpl.
  destruct (decide (q = p)) as [->|].
  - rewrite arr_insert_eq. apply H3.
  - by rewrite arr_insert_ne.
Qed.

(** Erasing after a peek. *)
Lemma erase_first_tx_spec st p :
  stack_wf st -> tx_head (st_tx_queue st) p ->
  exists q, erase_first_tx st = Ret (st_set_tx_queue st q) /\
    stack_wf (st_set_tx_queue st q) /\
    pr_all (st_tx_queue st) = pr_deref (st_tx_queue st) p :: pr_all q.
Proof.
  intros (Hwf & Hend & Hs) (Hlast & Hl & Hup). unfold erase_first_tx.
  destruct (pr_erase_spec _ _ Hwf Hlast) as (q & Hq & Hwf' & _ & Hq' & Hend').
  rewrite Hq. cbn. exists q. split_and!; [done| |].
  - split_and!; [done| |done]. intros l. simpl. rewrite Hend'. apply Hend.
  - eapply (pr_all_cons _ _ p.1); [| |done].
    + rewrite Hq', decide_True by done. exact Hl.
    + intros l Hne. by rewrite Hq', decide_False.
Qed.

Lemma process_tx_op_fuel st op : process_tx_op st op <> NoFuel.
Proof.
  unfold process_tx_op, tx_open_pcb. intros H.
  repeat match type of H with
  | context [match ?x with _ => _ end] => destruct x; cbn in H; try done
  | context [tx_tcp_write _ _] => unfold tx_tcp_write in H
  | context [tx_tcp_recv _ _] => unfold tx_tcp_recv in H
  | context [deref ?x] => destruct x; cbn in H; try done
  end.
Qed.

(** A receive is never to be tried again. *)
Lemma tx_tcp_recv_result st op r st' :
  tx_tcp_recv st op = Ret (r, st') -> res_result_code r <> PIFUS_TRY_AGAIN.
Proof.
  unfold tx_tcp_recv. intros H.
  match type of H with (?o ≫= ?f) = _ =>
    destruct o as [[[filled entry] st1]|?| |]; cbn in H; try done end.
  destruct filled; [by simplify_eq/=|].
  destruct (ring_buffer_put _ _ _) as [[[] rb] buf]; by simplify_eq/=.
Qed.

Lemma process_recv_result st op r st' :
  is_recv_op op = true -> process_tx_op st op = Ret (r, st') ->
  res_result_code r <> PIFUS_TRY_AGAIN.
Proof.
  unfold is_recv_op, process_tx_op, is_tcp_operation. intros ->%Z.eqb_eq H. simpl in H.
  repeat match type of H with
  | (?o ≫= ?f) = _ => destruct o as [x|?| |] eqn:?; cbn in H; try done
  end.
  destruct x as [r1 st1]. simplify_eq.
  match goal with H : (?o ≫= ?f) = Ret _ |- _ => destruct o as [a|?| |]; cbn in H; try done end.
  simpl. by eapply (tx_tcp_recv_result a op r1 st').
Qed.

(** The end of [handle_operation]: the result is delivered and counted. *)
Definition finish st (socket : Z) (r : pifus_operation_result) : stack :=
  let st := if negb (res_result_code r =? PIFUS_ASYNC) then enqueue_in_cqueue st socket r
            else st in
  let s := st_sockets st socket in
  set_socket st socket (set_dequeued_ops s (u64 (so_dequeued_ops s + 1))).

Lemma finish_spec st socket r :
  stack_wf st ->
  let st' := finish st socket r in
  stack_wf st' /\ st_tx_queue st' = st_tx_queue st /\ env_kept st st' /\
  forall q, so_enqueued_ops (st_sockets st' q) = so_enqueued_ops (st_sockets st q) /\
    so_dequeued_ops (st_sockets st' q) =
      if decide (q = socket) then u64 (so_dequeued_ops (st_sockets st q) + 1)
      else so_dequeued_ops (st_sockets st q).
Proof.
  intros Hwf. unfold finish. cbv zeta.
  set (st1 := if negb _ then _ else _).
  assert (cb_kept st st1) as Hk.
  { unfold st1. destruct (negb _); [apply enqueue_in_cqueue_kept|reflexivity]. }
  pose proof (cb_kept_wf _ _ Hk Hwf) as Hwf1.
  pose proof (stack_kept_env _ _ _ Hk) as He. destruct Hk as [Hq _ _ Ha Hs].
  split_and!; [by apply set_dequeued_ops_wf|done| |].
  { etrans; [exact He|]. split; [done|]. split; intros q; simpl;
      (destruct (decide (q = socket)) as [->|]; [by rewrite arr_insert_eq|by rewrite arr_insert_ne]). }
  intros q. simpl. destruct (Hs q) as [[] _]. case_decide; subst.
  - rewrite arr_insert_eq. simpl. split; congruence.
  - by rewrite arr_insert_ne by done.
Qed.

(** How many more results the client can be told. *)
Definition cq_room s : Z := rb_free (so_cqueue s).

Lemma enqueue_in_cqueue_spec st p r :
  rb_wf (so_cqueue (st_sockets st p)) ->
  let s := st_sockets st p in
  let st' := enqueue_in_cqueue st p r in
  let s' := st_sockets st' p in
  (forall q, q <> p -> st_sockets st' q = st_sockets st q) /\
  if decide (cq_room s = 0) then st' = st
  else cq_list s' = cq_list s ++ [r] /\ so_cqueue_futex s' = u32 (so_cqueue_futex s + 1) /\
    cq_room s' = cq_room s - 1.
Proof.
  intros Hwf s st' s'. pose proof (rb_free_bounds _ Hwf) as Hb. fold s in Hwf, Hb.
  unfold cq_room, cq_list, s', st', enqueue_in_cqueue. fold s. case_decide as Hz.
  - by rewrite ring_buffer_put_full.
  - destruct (ring_buffer_put_ok (so_cqueue s) (so_cqueue_buffer s) r Hwf)
      as (-> & _ & Hf & Hc); [lia|].
    unfold set_socket, st_set_sockets. cbn [st_sockets]. split.
    + intros q Hq. by rewrite arr_insert_ne.
    + rewrite arr_insert_eq. by split_and!.
Qed.

Lemma enqueue_futex_range st p r :
  u32 (so_cqueue_futex (st_sockets st p)) = so_cqueue_futex (st_sockets st p) ->
  let s' := st_sockets (enqueue_in_cqueue st p r) p in
  u32 (so_cqueue_futex s') = so_cqueue_futex s'.
Proof.
  unfold enqueue_in_cqueue. destruct (ring_buffer_put _ _ r) as [[[] rb] buf]; [|done].
  unfold set_socket, st_set_sockets. cbn [st_sockets]. rewrite arr_insert_eq. intros _. simpl.
  apply u32_small, u32_range.
Qed.

Lemma set_socket_eq st p s : st_sockets (set_socket st p s) p = s.
Proof. apply arr_insert_eq. Qed.

Lemma set_socket_ne st p q s : q <> p -> st_sockets (set_socket st p s) q = st_sockets st q.
Proof. intros. by apply arr_insert_ne. Qed.

(** The completion queue and its futex after the replies [l], as many of them as
    there is room for. *)
Definition replied {T} (view : pifus_operation_result -> T) s s' (l : list T) : Prop :=
  view <$> cq_list s' =
    (view <$> cq_list s) ++ take (Z.to_nat (cq_room s)) l /\
  so_cqueue_futex s' =
    u32 (so_cqueue_futex s + Z.of_nat (length (take (Z.to_nat (cq_room s)) l))) /\
  cq_room s' = Z.max 0 (cq_room s - Z.of_nat (length l)).

Lemma u32_add x y : u32 (u32 x + y) = u32 (x + y).
Proof. unfold u32. by rewrite Zplus_mod_idemp_l. Qed.

Lemma replied_one {T} (view : pifus_operation_result -> T) st p r :
  rb_wf (so_cqueue (st_sockets st p)) ->
  u32 (so_cqueue_futex (st_sockets st p)) = so_cqueue_futex (st_sockets st p) ->
  replied view (st_sockets st p) (st_sockets (enqueue_in_cqueue st p r) p) [view r].
Proof.
  intros Hwf Hfut. destruct (enqueue_in_cqueue_spec st p r Hwf) as [_ He].
  pose proof (rb_free_bounds _ Hwf) as Hb.
  change (rb_free _) with (cq_room (st_sockets st p)) in Hb. unfold replied.
  case_decide as Hz.
  - rewrite He, Hz. simpl. rewrite app_nil_r, Z.add_0_r. by split_and!.
  - destruct He as (-> & -> & ->). rewrite fmap_app.
    destruct (Z.to_nat (cq_room (st_sockets st p))) eqn:Hn; [lia|]. simpl.
    rewrite take_nil. split_and!; [done|done|lia].
Qed.

Lemma replied_app {T} (view : pifus_operation_result -> T) s1 s2 s3 xs ys :
  0 <= cq_room s1 -> replied view s1 s2 xs -> replied view s2 s3 ys ->
  replied view s1 s3 (xs ++ ys).
Proof.
  intros Hpos (H1 & F1 & R1) (H2 & F2 & R2). unfold replied.
  rewrite H2, F2, R2, H1, F1, u32_add, R1, take_app, length_app.
  replace (Z.to_nat (Z.max 0 (cq_room s1 - Z.of_nat (length xs))))
    with (Z.to_nat (cq_room s1) - length xs)%nat by lia.
  rewrite <- app_assoc, length_app. split_and!; [done| |lia]. f_equal. lia.
Qed.

Lemma replied_nil {T} (view : pifus_operation_result -> T) s s' :
  u32 (so_cqueue_futex s) = so_cqueue_futex s -> 0 <= cq_room s -> cq_list s' = cq_list s ->
  so_cqueue_futex s' = so_cqueue_futex s -> cq_room s' = cq_room s -> replied view s s' [].
Proof.
  intros Hf Hpos Hc Hx Hr. unfold replied. rewrite take_nil, app_nil_r, Hc, Hx, Hr. simpl.
  rewrite Z.add_0_r. split_and!; [done|done|lia].
Qed.

Lemma replied_futex {T} (view : pifus_operation_result -> T) s s' xs :
  replied view s s' xs -> u32 (so_cqueue_futex s') = so_cqueue_futex s'.
Proof. intros (_ & -> & _). apply u32_small, u32_range. Qed.

Lemma cq_room_nonneg s : socket_wf s -> 0 <= cq_room s.
Proof. intros (_ & Hw & _). apply (rb_free_bounds _ Hw). Qed.

(** What is delivered to a client for a result [r]: nothing if it is for an
    operation that goes on, or if the completion queue is full. *)
Definition delivered s (r : pifus_operation_result) : list pifus_operation_result :=
  if (res_result_code r =? PIFUS_ASYNC) || (cq_room s =? 0) then [] else [r].

Lemma finish_delivers st socket r :
  rb_wf (so_cqueue (st_sockets st socket)) ->
  let s := st_sockets st socket in
  let st' := finish st socket r in
  let s' := st_sockets st' socket in
  cq_list s' = cq_list s ++ delivered s r /\
  so_cqueue_futex s' = (if decide (delivered s r = []) then so_cqueue_futex s
                        else u32 (so_cqueue_futex s + 1)) /\
  so_dequeued_ops s' = u64 (so_dequeued_ops s + 1) /\
  (forall x, x <> socket -> st_sockets st' x = st_sockets st x).
Proof.
  intros Hwf s st' s'. unfold s', st', finish, delivered. cbv zeta.
  set (st1 := if negb _ then _ else _).
  assert (so_dequeued_ops (st_sockets st1 socket) = so_dequeued_ops s /\
    (forall x, x <> socket -> st_sockets st1 x = st_sockets st x) /\
    cq_list (st_sockets st1 socket) = cq_list s ++ delivered s r /\
    so_cqueue_futex (st_sockets st1 socket) =
      if decide (delivered s r = []) then so_cqueue_futex s
      else u32 (so_cqueue_futex s + 1)) as (Hd & Ho & Hc & Hf).
  { unfold st1, delivered. clear st1.
    destruct (res_result_code r =? PIFUS_ASYNC); simpl.
    { by rewrite app_nil_r. }
    destruct (enqueue_in_cqueue_spec st socket r Hwf) as [Ho Hs].
    destruct (enqueue_in_cqueue_kept st socket r) as [_ _ _ _ Hk].
    destruct (Hk socket) as [[] _]. fold s in Hs.
    destruct (Z.eqb_spec (cq_room s) 0) as [Hz|Hz].
    - rewrite decide_True in Hs by done. rewrite Hs, app_nil_r. by split_and!.
    - rewrite decide_False in Hs by done. destruct Hs as (-> & -> & _). by split_and!. }
  unfold set_socket, st_set_sockets. cbn [st_sockets]. rewrite arr_insert_eq. simpl.
  split_and!; [exact Hc|exact Hf|by rewrite Hd|].
  intros x Hx. rewrite arr_insert_ne by done. by apply Ho.
Qed.

Lemma counts_one q op :
  op_code (int_operation op) <> NOP ->
  counts q op = if decide (q = int_socket op) then 1%nat else 0%nat.
Proof.
  intros Hne. unfold counts. destruct (Z.eqb_spec (op_code (int_operation op)) NOP); [done|].
  destruct (Z.eqb_spec (int_socket op) q), (decide (q = int_socket op)); simpl; congruence.
Qed.

Lemma live_cons op q : live (op :: q) = live [op] ++ live q.
Proof. apply (filter_app _ [op] q). Qed.

Lemma live_insert_nop q j op :
  q !! j = Some op -> op_code (int_operation op) <> NOP ->
  live q ≡ₚ op :: live (<[j := int_set_code op NOP]> q).
Proof.
  intros Hj Hne. pose proof (take_drop_middle q j op Hj) as Hq.
  rewrite insert_take_drop by (by eapply lookup_lt_Some). rewrite <- Hq at 1. unfold live.
  rewrite !filter_app, filter_cons_True by done.
  rewrite (filter_cons_False _ (int_set_code op NOP)) by (cbn; tauto).
  by rewrite Permutation_middle.
Qed.

(** An operation the scan found is served where it stands. *)
Lemma serve_in_place st p op (k : nat) r :
  stack_wf st -> op = pr_deref (st_tx_queue st) p -> is_recv_op op = true ->
  p.2 = rb_slot (tx_rb (pr_get (st_tx_queue st) p.1)) (Z.of_nat k) ->
  (k < length (pr_list (st_tx_queue st) p.1))%nat ->
  let st1 := finish st (int_socket op) r in
  let st' := st_set_tx_queue st1
    (pr_store (st_tx_queue st1) p (int_set_code (pr_deref (st_tx_queue st1) p) NOP)) in
  stack_wf st' /\ served op st st' /\
  live (pr_all (st_tx_queue st)) ≡ₚ op :: live (pr_all (st_tx_queue st')).
Proof.
  intros Hwf Hop Hrecv Hslot Hk st1 st'.
  destruct (finish_spec st (int_socket op) r Hwf) as (Hwf1 & Hq1 & He1 & Hs1).
  fold st1 in Hwf1, Hq1, He1, Hs1. unfold st'. clear st'. rewrite Hq1, <- Hop.
  pose proof Hwf as (Hprwf & Hend & _).
  destruct (pr_store_spec _ p k (int_set_code op NOP) Hprwf Hslot Hk) as (Hwf2 & _ & Hrb & _).
  destruct (pr_all_store _ p k (int_set_code op NOP) Hprwf Hslot Hk) as (j & Hj & Hall).
  rewrite <- Hop in Hj.
  assert (op_code (int_operation op) <> NOP) as Hne.
  { unfold is_recv_op in Hrecv. apply Z.eqb_eq in Hrecv as ->. done. }
  split.
  { apply set_tx_queue_wf; [done..|]. intros l. by rewrite Hrb. }
  split; [|cbn [st_tx_queue st_set_tx_queue]; rewrite Hall; by apply live_insert_nop].
  unfold served, pending, work. cbn [st_tx_queue st_sockets st_set_tx_queue]. rewrite Hall. split_and!.
  - intros q. pose proof (sum_list_with_insert (counts q) _ j op (int_set_code op NOP) Hj) as He.
    replace (counts q (int_set_code op NOP)) with 0%nat in He; [lia|].
    unfold counts. simpl. by rewrite andb_false_r.
  - intros q. destruct (Hs1 q) as [_ ->]. rewrite counts_one by done. by case_decide.
  - intros q. by destruct (Hs1 q).
  - pose proof (sum_list_with_insert weight _ j op (int_set_code op NOP) Hj) as He.
    change (weight (int_set_code op NOP)) with 1%nat in He.
    replace (weight op) with 2%nat in He by (unfold weight; by rewrite Hrecv). lia.
  - by apply queue_from_insert.
  - exact He1.
Qed.

(** The operation at the head is served and removed. *)
Lemma serve_head st p op r :
  stack_wf st -> tx_head (st_tx_queue st) p -> op = pr_deref (st_tx_queue st) p ->
  op_code (int_operation op) <> NOP ->
  exists st', erase_first_tx (st_set_full_sndbuf_iterations (finish st (int_socket op) r) 0)
    = Ret st' /\ stack_wf st' /\ served op st st' /\
    pr_all (st_tx_queue st) = op :: pr_all (st_tx_queue st') /\
    st_sockets st' = st_sockets (finish st (int_socket op) r) /\
    st_full_sndbuf_iterations st' = 0.
Proof.
  intros Hwf Hh Hop Hne. destruct (finish_spec st (int_socket op) r Hwf) as (Hwf1 & Hq1 & He1 & Hs1).
  set (st1 := finish st _ r) in *. set (st2 := st_set_full_sndbuf_iterations st1 0).
  destruct (erase_first_tx_spec st2 p) as (q & -> & Hwfq & Hall).
  { by apply set_full_wf. }
  { change (st_tx_queue st2) with (st_tx_queue st1). by rewrite Hq1. }
  change (st_tx_queue st2) with (st_tx_queue st1) in Hall. rewrite Hq1, <- Hop in Hall.
  eexists. split; [done|]. split_and!; [done| |done..].
  unfold served, pending, work. cbn [st_tx_queue st_sockets st_set_tx_queue]. rewrite Hall.
  split_and!.
  - done.
  - intros x. destruct (Hs1 x) as [_ Hd]. change (st_sockets st2 x) with (st_sockets st1 x). rewrite Hd, counts_one by done.
    by case_decide.
  - intros x. by destruct (Hs1 x).
  - simpl. unfold weight at 2. destruct (is_recv_op op); lia.
  - apply queue_from_tail.
  - exact He1.
Qed.

Lemma tx_kept_served op st st1 st' :
  tx_kept st st1 -> served op st1 st' -> served op st st'.
Proof.
  intros Hk (H1 & H2 & H3 & H4 & H5 & H6). pose proof (stack_kept_env _ _ _ Hk) as He.
  destruct Hk as [Hq _ _ _ Hs]. rewrite Hq in H1, H4, H5.
  split_and!; [done| | |done|done|by etrans].
  - intros q. rewrite H2. destruct (Hs q) as [[] _]. by rewrite kept_dequeued_ops0.
  - intros q. rewrite H3. destruct (Hs q) as [[] _]. done.
Qed.

Lemma tx_kept_unserved st st' : tx_kept st st' -> unserved st st'.
Proof.
  intros Hk. split; [by eapply stack_kept_env|]. destruct Hk as [Hq _ _ _ Hs].
  split; [by rewrite Hq|]. intros q. by destruct (Hs q) as [[] _].
Qed.

(** The scan for a receive: one is served in place, or there is none. *)
Lemma handle_scan_spec st p d :
  stack_wf st ->
  pifus_priority_aware_ring_buffer_find (st_tx_queue st) is_recv_op = Some (Some p) ->
  match handle_operation_rec 1 st p true d with
  | NoFuel => False
  | Ret (ok, st', _) => ok = true /\ stack_wf st' /\
      let op := pr_deref (st_tx_queue st) p in
      served op st st' /\ live (pr_all (st_tx_queue st)) ≡ₚ live [op] ++ live (pr_all (st_tx_queue st')) /\
      exists r st1, process_tx_op st op = Ret (r, st1) /\ res_result_code r <> PIFUS_TRY_AGAIN
  | _ => True
  end.
Proof.
  intros Hwf Hfind. set (op := pr_deref (st_tx_queue st) p).
  destruct (pr_find_spec _ is_recv_op (proj1 Hwf)) as (o & Ho & Hhead & Hpos).
  rewrite Hfind in Ho. injection Ho as <-. destruct (Hpos p eq_refl) as (k & Hslot & Hk).
  assert (is_recv_op op = true) as Hrecv.
  { simpl in Hhead. symmetry in Hhead. fold op in Hhead.
    assert (op ∈ filter is_recv_op (pr_all (st_tx_queue st))) as [Hr _]%list_elem_of_filter
      by (destruct (filter _ _); simplify_eq/=; left). by apply Is_true_true. }
  cbn [handle_operation_rec]. fold op.
  pose proof (process_tx_op_fuel st op) as Hfuel.
  destruct (process_tx_op st op) as [[r st1]|?| |] eqn:Hproc;
    cbn [mbind outcome_bind]; try done.
  destruct (process_tx_op_kept _ _ _ _ Hproc) as [Hkept Hcode].
  pose proof (process_recv_result _ _ _ _ Hrecv Hproc) as Hres.
  rewrite andb_false_r. destruct (Z.eqb_spec (res_result_code r) PIFUS_TRY_AGAIN); [done|].
  pose proof (cb_kept_wf _ _ (tx_kept_cb _ _ Hkept) Hwf) as Hwf1.
  pose proof (kept_tx_queue _ _ _ Hkept) as Hq.
  cbv beta iota zeta. split; [done|].
  assert (op = pr_deref (st_tx_queue st1) p) as Hop1 by (by rewrite Hq).
  destruct (serve_in_place st1 p op k r Hwf1 Hop1 Hrecv) as (Hwf' & Hserved & Hlive).
  { by rewrite Hq. }
  { by rewrite Hq. }
  split; [exact Hwf'|]. fold op. split; [eapply tx_kept_served; [exact Hkept|exact Hserved]|].
  split; [|by exists r, st1]. rewrite Hq in Hlive. rewrite Hlive. unfold live at 2.
  rewrite filter_cons_True; [done|]. unfold is_recv_op in Hrecv. by apply Z.eqb_eq in Hrecv as ->.
Qed.

(** One call for the operation at the head: it returns, ends the process or
    runs into a null pointer; if it returns true some operation was served. *)
Lemma handle_operation_spec st p d :
  stack_wf st -> tx_head (st_tx_queue st) p ->
  match handle_operation st p false d with
  | NoFuel => False
  | Ret (true, st', _) => stack_wf st' /\ exists op, serve_event op st st'
  | Ret (false, st', _) => stack_wf st' /\ unserved st st'
  | _ => True
  end.
Proof.
  intros Hwf Hh. set (op := pr_deref (st_tx_queue st) p).
  unfold handle_operation. remember 1%nat as fuel eqn:Hf. cbn [handle_operation_rec]. fold op.
  pose proof (process_tx_op_fuel st op) as Hfuel.
  destruct (process_tx_op st op) as [[r st1]|?| |] eqn:Hproc; cbn [mbind outcome_bind]; try done.
  destruct (process_tx_op_kept _ _ _ _ Hproc) as [Hkept Hcode].
  pose proof (cb_kept_wf _ _ (tx_kept_cb _ _ Hkept) Hwf) as Hwf1.
  pose proof (kept_tx_queue _ _ _ Hkept) as Hq.
  assert (tx_head (st_tx_queue st1) p) as Hh1 by (by rewrite Hq).
  assert (op = pr_deref (st_tx_queue st1) p) as Hop1 by (by rewrite Hq).
  rewrite andb_true_r, Hcode. destruct (Z.eqb_spec (op_code (int_operation op)) NOP) as [Hnop|Hnop].
  { destruct (erase_first_tx_spec st1 p Hwf1 Hh1) as (q & -> & Hwf' & Hall).
    cbn [mbind outcome_bind]. split; [done|]. exists op.
    rewrite Hq in Hall. fold op in Hall.
    split; [|cbn [st_tx_queue st_set_tx_queue]; rewrite Hall; by rewrite (live_cons op)|
      exists st, r, st1; split_and!; [by left|done|done]].
    unfold served, pending, work. simpl. rewrite Hall.
    pose proof (tx_kept_unserved _ _ Hkept) as (He & _ & Hu).
    assert (forall x, counts x op = 0%nat) as Hc.
    { intros x. unfold counts. rewrite Hnop. simpl. by rewrite andb_false_r. }
    split_and!; [done| | | | |].
    - intros x. rewrite Hc. simpl. apply Hu.
    - intros x. apply Hu.
    - simpl. unfold weight at 2. destruct (is_recv_op op); lia.
    - apply queue_from_tail.
    - exact He. }
  destruct (Z.eqb_spec (res_result_code r) PIFUS_TRY_AGAIN) as [Htry|Htry].
  { destruct (_ <=? _); [|split; [done|exact (tx_kept_unserved _ _ Hkept)]].
    destruct (pr_find_spec _ is_recv_op (proj1 Hwf1)) as (o & Ho & _). rewrite Ho.
    cbn [fueled mbind outcome_bind]. destruct o as [p'|]; [|split; [done|by apply tx_kept_unserved]].
    pose proof (handle_scan_spec st1 p' d Hwf1 Ho) as Hscan. rewrite <- Hf in Hscan.
    destruct (handle_operation_rec fuel st1 p' true d) as [[[ok st'] d']|?| |]; try done.
    destruct Hscan as (-> & Hwf' & Hserved & Hlive & r' & st2 & Hproc' & Hr'). split; [done|].
    eexists. split; [by eapply tx_kept_served|by rewrite <- Hq|].
    exists st1, r', st2. split_and!; [right; by exists op, r|done|done]. }
  destruct (serve_head st1 p op r Hwf1 Hh1 Hop1 Hnop) as (st' & He & Hwf' & Hserved & Hall & _).
  change (if negb (res_result_code r =? PIFUS_ASYNC) then _ else st1)
    with (if negb (res_result_code r =? PIFUS_ASYNC) then enqueue_in_cqueue st1 (int_socket op) r
          else st1).
  fold (finish st1 (int_socket op) r). rewrite He. cbn [mbind outcome_bind].
  split; [done|]. exists op. split; [by eapply tx_kept_served| |exists st, r, st1; split_and!; [by left|done|done]].
  rewrite <- Hq, Hall. by rewrite (live_cons op).
Qed.

(** ** The loop *)

Definition accounted st : Prop :=
  forall q, u64 (so_enqueued_ops (st_sockets st q) - so_dequeued_ops (st_sockets st q)) =
    Z.of_nat (pending q (pr_all (st_tx_queue st))).

Lemma u64_pred x n : u64 x = n -> 1 <= n -> u64 (x - 1) = n - 1.
Proof.
  intros <- Hn. pose proof (u64_range x). unfold u64 in *.
  rewrite <- Zminus_mod_idemp_l. rewrite Z.mod_small by lia. done.
Qed.

Lemma u64_sub_u64 x y : u64 (x - u64 y) = u64 (x - y).
Proof. unfold u64. by rewrite Zminus_mod_idemp_r. Qed.

Lemma served_accounted op st st' : served op st st' -> accounted st -> accounted st'.
Proof.
  intros (Hp & Hd & He & _) Ha q. rewrite Hd, He. specialize (Ha q). rewrite Hp in Ha.
  assert (counts q op = 0%nat \/ counts q op = 1%nat) as [Hc|Hc]
    by (unfold counts; destruct (_ && _); auto); rewrite Hc in Ha |- *; cbn [Nat.eqb].
  - exact Ha.
  - rewrite u64_sub_u64.
    replace (so_enqueued_ops (st_sockets st q) - (so_dequeued_ops (st_sockets st q) + 1))
      with (so_enqueued_ops (st_sockets st q) - so_dequeued_ops (st_sockets st q) - 1) by lia.
    erewrite u64_pred; [|exact Ha|lia]. lia.
Qed.

Lemma unserved_accounted st st' : unserved st st' -> accounted st -> accounted st'.
Proof. intros (_ & Hq & Hs) Ha q. destruct (Hs q) as [-> ->]. by rewrite Hq. Qed.

(** A peek only remembers where it looked. *)
Lemma peek_spec st :
  stack_wf st ->
  let '(o, r) := pifus_priority_aware_ring_buffer_peek (st_tx_queue st) in
  let st' := st_set_tx_queue st r in
  stack_wf st' /\ unserved st st' /\
  match o with Some p => tx_head r p | None => pr_all (st_tx_queue st) = [] end.
Proof.
  intros (Hwf & Hend & Hs). pose proof (pr_peek_spec _ Hwf) as Hp.
  destruct (pifus_priority_aware_ring_buffer_peek _) as [o r]. destruct Hp as [Hget Ho].
  assert (forall l, pr_list r l = pr_list (st_tx_queue st) l) as Hlist.
  { intros l. unfold pr_list. by rewrite Hget. }
  assert (pr_all r = pr_all (st_tx_queue st)) as Hall by (unfold pr_all; by rewrite !Hlist).
  split_and!.
  - split_and!; [intros l; simpl; rewrite Hget..|]; auto.
  - split; [done|]. by split.
  - destruct o as [p|]; [|apply Ho]. destruct Ho as (? & _ & Hl & Hup).
    split_and!; [done| |by intros; rewrite Hlist; apply Hup].
    rewrite !Hlist. rewrite Hl at 1. f_equal. unfold pr_deref. by rewrite Hget.
Qed.

(** The loop keeps what serving an operation and giving up keep. *)
Lemma lwip_loop_keeps (R : stack -> stack -> Prop) `{!PreOrder R} fuel st d :
  (forall op st1 st2, serve_event op st1 st2 -> R st1 st2) ->
  (forall st1 st2, unserved st1 st2 -> R st1 st2) ->
  stack_wf st -> (work (pr_all (st_tx_queue st)) < fuel)%nat ->
  match lwip_loop fuel st d with
  | NoFuel => False
  | Ret st' => stack_wf st' /\ R st st'
  | _ => True
  end.
Proof.
  intros Hs Hun. revert st d. induction fuel as [|fuel IH]; intros st d Hwf Hf; [lia|].
  cbn [lwip_loop]. destruct (d <? _); [|by split; [|reflexivity]].
  pose proof (peek_spec st Hwf) as Hp.
  destruct (pifus_priority_aware_ring_buffer_peek _) as [o r]. cbv zeta in Hp |- *.
  destruct Hp as (Hwf1 & Hu & Ho). pose proof (Hun _ _ Hu) as Hr.
  destruct o as [p|]; [|done].
  pose proof (handle_operation_spec (st_set_tx_queue st r) p d Hwf1 Ho) as Hh.
  destruct (handle_operation _ p false d) as [[[ok st'] d']|?| |];
    cbn [mbind outcome_bind]; try done.
  destruct ok.
  - destruct Hh as [Hwf' [op Hserved]]. pose proof (Hs _ _ _ Hserved) as Hr'.
    specialize (IH st' d' Hwf').
    assert (work (pr_all (st_tx_queue st')) < fuel)%nat as Hlt.
    { destruct Hserved as [(_ & _ & _ & Hw & _) _ _]. destruct Hu as (_ & Hq & _).
      rewrite Hq in Hw. lia. }
    specialize (IH Hlt). destruct (lwip_loop fuel st' d'); [|done..].
    destruct IH as [? HI]. split; [done|]. by repeat (etrans; [eassumption|]).
  - destruct Hh as [Hwf' Hu']. split; [done|]. etrans; [exact Hr|]. by apply Hun.
Qed.

Lemma lwip_loop_spec fuel st d :
  stack_wf st -> (work (pr_all (st_tx_queue st)) < fuel)%nat ->
  match lwip_loop fuel st d with
  | NoFuel => False
  | Ret st' => stack_wf st' /\ (accounted st -> accounted st')
  | _ => True
  end.
Proof.
  assert (PreOrder (fun st st' => accounted st -> accounted st')) as Hpre
    by (split; [by intros ?|intros ?????; auto]).
  apply (lwip_loop_keeps (fun st st' => accounted st -> accounted st')).
  - intros op st1 st2 [Hserved _ _]. by eapply served_accounted.
  - apply unserved_accounted.
Qed.

Lemma work_bound q : (work q <= 2 * length q)%nat.
Proof.
  induction q as [|op q IH]; [done|]. unfold work in *. simpl.
  unfold weight at 1. destruct (is_recv_op op); lia.
Qed.

Lemma lwip_loop_fuel_enough st :
  stack_wf st -> (work (pr_all (st_tx_queue st)) < lwip_loop_fuel)%nat.
Proof.
  intros (Hwf & Hend & _). pose proof (pr_length_bound _ Hwf Hend) as Hl.
  pose proof (work_bound (pr_all (st_tx_queue st))).
  unfold lwip_loop_fuel, TX_QUEUE_SIZE in *. lia.
Qed.

(** ** When the loop returns *)

(** An operation the stack can serve: it has a code for TCP, or none, and the
    region of its application is mapped. *)
Definition op_ready st (op : pifus_internal_operation) : Prop :=
  (op_code (int_operation op) = NOP \/ op_code (int_operation op) = CLIENT_NOP \/
   op_code (int_operation op) < UDP_BIND) /\
  is_Some (st_apps st (app_index (so_identifier (st_sockets st (int_socket op))))).

Definition queue_ready st : Prop := forall op, op ∈ pr_all (st_tx_queue st) -> op_ready st op.

Lemma op_ready_env st st' op : env_kept st st' -> op_ready st op -> op_ready st' op.
Proof. intros (Ha & Hi & _) [Hc Hm]. split; [done|]. rewrite Hi. by apply Ha. Qed.

Lemma served_ready op st st' : served op st st' -> queue_ready st -> queue_ready st'.
Proof.
  intros (_ & _ & _ & _ & Hq & He) Hr op' Hin. eapply op_ready_env; [exact He|].
  destruct (Hq op' Hin) as [Ho|(op0 & Ho & ->)]; [by apply Hr|].
  destruct (Hr op0 Ho) as [_ Hm]. split; [by left|exact Hm].
Qed.

(** The check after [tcp_write] that the write queue has room never fails. *)
Lemma tx_tcp_write_returns st op :
  socket_wf (st_sockets st (int_socket op)) ->
  is_Some (st_apps st (app_index (so_identifier (st_sockets st (int_socket op))))) ->
  exists x, tx_tcp_write st op = Ret x.
Proof.
  intros (_ & _ & Hw & _) [app Happ]. unfold tx_tcp_write. rewrite Happ.
  cbn [deref mbind outcome_bind]. rewrite ring_buffer_is_full_spec by done.
  case_bool_decide as Hfull; [by eexists|].
  destruct (tcp_write _ _ _ _ _) as [e lw]. destruct (e =? ERR_OK).
  - destruct (ring_buffer_put_ok (so_write_queue (st_sockets st (int_socket op)))
      (so_write_queue_buffer (st_sockets st (int_socket op)))
      (WriteEntry (blk_size app (shm_data_get_block_ptr
         (i64 (write_block_offset (op_write (int_operation op))))))
         (write_block_offset (op_write (int_operation op))))) as (-> & _); [done| |by eexists].
    pose proof (rb_free_bounds _ Hw). lia.
  - destruct (e =? ERR_MEM); by eexists.
Qed.

Lemma tx_tcp_recv_returns st op :
  is_Some (st_apps st (app_index (so_identifier (st_sockets st (int_socket op))))) ->
  exists x, tx_tcp_recv st op = Ret x.
Proof.
  intros [app Happ]. unfold tx_tcp_recv.
  destruct (negb _); cbn [mbind outcome_bind].
  - destruct (ring_buffer_put _ _ _) as [[[] rb] buf]; by eexists.
  - cbn [st_apps st_sockets st_set_lwip]. rewrite Happ. cbn [deref mbind outcome_bind].
    destruct (pop_from_buffer _ _ _ _ _) as [[[n bb] app'] entry]. cbn [mbind outcome_bind].
    destruct (_ && _); [by eexists|].
    destruct (ring_buffer_put _ _ _) as [[[] rb] buf]; by eexists.
Qed.

Context (tcp_new_total : forall lw, is_Some (tcp_new lw).1).

Lemma tx_open_pcb_returns st socket : exists st', tx_open_pcb st socket = Ret st'.
Proof using tcp_new_total.
  unfold tx_open_pcb. destruct (so_pcb _); [by eexists|].
  destruct (tcp_new_total (st_lwip st)) as [pcb Hpcb].
  destruct (tcp_new (st_lwip st)) as [o lw]. simpl in Hpcb. subst. by eexists.
Qed.

Lemma process_tx_op_returns st op :
  stack_wf st -> op_ready st op -> exists x, process_tx_op st op = Ret x.
Proof using tcp_new_total.
  intros Hwf Hr. pose proof Hr as [Hcode _]. unfold process_tx_op.
  assert (exists x, (if (op_code (int_operation op) =? NOP) ||
      (op_code (int_operation op) =? CLIENT_NOP)
    then Ret (res_set_result_code (uninit_result st) PIFUS_OK, st)
    else if is_tcp_operation (int_operation op) then
      st ← tx_open_pcb st (int_socket op);
      if op_code (int_operation op) =? TCP_BIND then Ret (tx_tcp_bind st op)
      else if op_code (int_operation op) =? TCP_CONNECT then Ret (tx_tcp_connect st op)
      else if op_code (int_operation op) =? TCP_WRITE then tx_tcp_write st op
      else if op_code (int_operation op) =? TCP_RECV then tx_tcp_recv st op
      else if op_code (int_operation op) =? TCP_LISTEN then Ret (tx_tcp_listen st op)
      else if op_code (int_operation op) =? TCP_ACCEPT then Ret (tx_tcp_accept st op)
      else if op_code (int_operation op) =? TCP_CLOSE then Ret (tx_tcp_close st op)
      else Ret (uninit_result st, st)
    else Exited 1) = Ret x) as [[r st1] ->]; [|by eexists].
  destruct (_ || _) eqn:Hnop; [by eexists|].
  assert (is_tcp_operation (int_operation op) = true) as ->.
  { unfold is_tcp_operation. apply orb_false_iff in Hnop as [?%Z.eqb_neq ?%Z.eqb_neq].
    apply Z.ltb_lt. tauto. }
  destruct (tx_open_pcb_returns st (int_socket op)) as [st1 H1]. rewrite H1.
  pose proof (tx_open_pcb_kept _ _ _ H1) as Hk. cbn [mbind outcome_bind].
  pose proof (cb_kept_wf _ _ (tx_kept_cb _ _ Hk) Hwf) as (_ & _ & Hwf1).
  destruct (op_ready_env _ _ op (stack_kept_env _ _ _ Hk) Hr) as [_ Hm1].
  repeat case_match; eauto using tx_tcp_write_returns, tx_tcp_recv_returns.
Qed.

Lemma handle_operation_returns st p d :
  stack_wf st -> tx_head (st_tx_queue st) p -> queue_ready st ->
  exists x, handle_operation st p false d = Ret x.
Proof using tcp_new_total.
  intros Hwf Hh Hready.
  set (op := pr_deref (st_tx_queue st) p).
  assert (op ∈ pr_all (st_tx_queue st)) as Hin.
  { destruct (erase_first_tx_spec st p Hwf Hh) as (q & _ & _ & Hall). rewrite Hall. left. }
  unfold handle_operation. remember 1%nat as fuel eqn:Hf. cbn [handle_operation_rec]. fold op.
  destruct (process_tx_op_returns st op Hwf (Hready op Hin)) as [[r st1] Hproc].
  rewrite Hproc. cbn [mbind outcome_bind].
  destruct (process_tx_op_kept _ _ _ _ Hproc) as [Hkept _].
  pose proof (cb_kept_wf _ _ (tx_kept_cb _ _ Hkept) Hwf) as Hwf1.
  pose proof (kept_tx_queue _ _ _ Hkept) as Hq.
  assert (tx_head (st_tx_queue st1) p) as Hh1 by (by rewrite Hq).
  destruct (_ && _).
  { destruct (erase_first_tx_spec st1 p Hwf1 Hh1) as (q & -> & _). by eexists. }
  destruct (res_result_code r =? PIFUS_TRY_AGAIN).
  { destruct (_ <=? _); [|by eexists].
    destruct (pr_find_spec _ is_recv_op (proj1 Hwf1)) as (o & Ho & Hhd & _). rewrite Ho.
    cbn [fueled mbind outcome_bind]. destruct o as [p'|]; [|by eexists].
    subst fuel. cbn [handle_operation_rec]. simpl in Hhd.
    set (op' := pr_deref (st_tx_queue st1) p') in *.
    assert (op' ∈ filter is_recv_op (pr_all (st_tx_queue st1))) as [Hr Hin']%list_elem_of_filter
      by (destruct (filter _ _); simplify_eq/=; left). apply Is_true_true in Hr.
    destruct (process_tx_op_returns st1 op' Hwf1) as [[r' st2] Hproc'].
    { eapply op_ready_env; [by eapply stack_kept_env|]. apply Hready. by rewrite <- Hq. }
    pose proof (process_recv_result _ _ _ _ Hr Hproc') as Hres. rewrite Hproc'.
    cbn [mbind outcome_bind]. rewrite andb_false_r.
    destruct (Z.eqb_spec (res_result_code r') PIFUS_TRY_AGAIN); [done|]. by eexists. }
  set (st2 := st_set_full_sndbuf_iterations _ 0).
  assert (st_tx_queue st2 = st_tx_queue st1) as Hq2.
  { destruct (finish_spec st1 (int_socket op) r Hwf1) as (_ & Hfq & _). exact Hfq. }
  assert (stack_wf st2) as Hwf2.
  { destruct (finish_spec st1 (int_socket op) r Hwf1) as (Hfw & _). exact Hfw. }
  destruct (erase_first_tx_spec st2 p Hwf2) as (q & -> & _); [by rewrite Hq2|]. by eexists.
Qed.

Lemma lwip_loop_returns fuel st d :
  stack_wf st -> queue_ready st -> (work (pr_all (st_tx_queue st)) < fuel)%nat ->
  exists st', lwip_loop fuel st d = Ret st' /\ queue_ready st'.
Proof using tcp_new_total.
  revert st d. induction fuel as [|fuel IH]; intros st d Hwf Hr Hf; [lia|]. cbn [lwip_loop].
  destruct (d <? _); [|by eexists].
  pose proof (peek_spec st Hwf) as Hp.
  destruct (pifus_priority_aware_ring_buffer_peek _) as [o r]. cbv zeta in Hp |- *.
  destruct Hp as (Hwf1 & Hu & Ho). set (st1 := st_set_tx_queue st r) in *.
  assert (queue_ready st1) as Hr1.
  { intros op Hin. destruct Hu as (He & Hq & _). rewrite Hq in Hin.
    eapply op_ready_env; [exact He|auto]. }
  destruct o as [p|]; [|by eexists].
  destruct (handle_operation_returns st1 p d Hwf1 Ho Hr1) as [[[ok st'] d'] Hx].
  pose proof (handle_operation_spec st1 p d Hwf1 Ho) as Hh. rewrite Hx in Hh |- *.
  cbn [mbind outcome_bind]. destruct ok.
  - destruct Hh as [Hwf' [op [Hserved _ _]]]. apply IH; [done|by eapply served_ready|].
    destruct Hserved as (_ & _ & _ & Hw & _). destruct Hu as (_ & Hq & _).
    rewrite Hq in Hw. lia.
  - destruct Hh as (Hwf' & He & Hq & _). eexists. split; [done|].
    intros op Hin. rewrite Hq in Hin. eapply op_ready_env; [exact He|auto].
Qed.
End handlers.
