(* ===== verification/StackExample.v ===== *)
(** * A small concrete lwIP and a running stack

    The theorems about the stack hold for any lwIP.  Here is one that counts
    pcbs, accepts what it is given and remembers the last window update, with a
    stack on top, so that the theorems can be applied to something. *)
From S2P Require Import Prelude RingView RingBuffer ByteBuffer Memory Shmem.
From S2P Require Import Operation PrioRing SocketRegion Lwip Stack StackSpec.

(** The next pcb, and the bytes lwIP may still accept for sending. *)
Record toy_state := ToyState { toy_next : Z; toy_room : Z; toy_recved : Z }.

#[export] Instance toy_lwip : Lwip := {|
  lwip_state := toy_state;
  ip_addr_t := Z;
  IP4_ADDR_ANY := 4;
  IP6_ADDR_ANY := 6;
  IP_ANY_TYPE := 46;
  ipaddr_aton _ a := a;
  tcp_new s := (Some (toy_next s), ToyState (toy_next s + 1) (toy_room s) (toy_recved s));
  tcp_nagle_disable _ s := s;
  tcp_arg _ _ s := s;
  tcp_bind _ _ _ s := (ERR_OK, s);
  tcp_connect _ _ _ _ s := (ERR_OK, s);
  tcp_listen_with_backlog p _ s := (p, s);
  tcp_accept _ _ s := s;
  tcp_write _ _ len _ s :=
    if toy_room s <? len then (ERR_MEM, s)
    else (ERR_OK, ToyState (toy_next s) (toy_room s - len) (toy_recved s));
  tcp_sent _ _ s := s;
  tcp_output _ s := s;
  tcp_recv _ _ s := s;
  tcp_recved _ n s := ToyState (toy_next s) (toy_room s) n;
  tcp_close _ s := (ERR_OK, s);
  pbuf_release s := s |}.

Definition example_result : pifus_operation_result :=
  OperationResult 0 0 (WriteData 0) (RecvData 0 0 None None) (AcceptData None None).

#[export] Instance toy_indeterminate : Indeterminate := {|
  uninit_result _ := example_result;
  uninit_ip _ := 0 |}.

(** A socket as the client and the discovery thread leave it. *)
Definition example_socket : pifus_socket :=
  Socket PROTOCOL_TCP (SocketIdentifier 0 1) PRIORITY_LOW
    0 (ring_buffer_create SQUEUE_SIZE) (fun _ => int_operation (example_op NOP))
    0 (ring_buffer_create CQUEUE_SIZE) (fun _ => example_result)
    (ring_buffer_create WRITE_QUEUE_SIZE) (fun _ => WriteEntry 0 0)
    (ring_buffer_create RECV_QUEUE_SIZE) (fun _ => RecvEntry 0 0 0)
    0 (pifus_byte_buffer_create RECV_BUFFER_SIZE) (fun _ => 0)
    PRIORITY_LOW 0 0 None.

Definition example_sockets : arr pifus_socket := fun _ => example_socket.

(** Socket 0 has one operation in the transmit queue. *)
Definition example_stack : stack :=
  Stack toy_lwip (fun _ => Some (fun _ => 0))
    (<[0 := set_enqueued_ops example_socket 1]> example_sockets) (fun _ _ => None)
    (fun _ _ => 0) example_ring 0 (ToyState 1 1000 0).

Lemma example_socket_wf : socket_wf example_socket.
Proof.
  unfold socket_wf. split_and!; try (by apply rb_create_wf); try (by apply bb_create_wf); done.
Qed.

Lemma example_stack_wf : stack_wf example_stack.
Proof.
  split_and!; [apply example_ring_wf|intros l; by destruct l|]. intros p.
  unfold example_stack. cbn [st_sockets].
  destruct (decide (p = 0)) as [->|].
  - rewrite arr_insert_eq. apply example_socket_wf.
  - rewrite arr_insert_ne by done. apply example_socket_wf.
Qed.

Lemma example_ring_all : pr_all example_ring = [example_op TCP_WRITE].
Proof. reflexivity. Qed.

Lemma example_queue_ready : queue_ready example_stack.
Proof.
  intros op Hin. simpl in Hin. rewrite example_ring_all in Hin.
  apply list_elem_of_singleton in Hin as ->. split; [|by eexists]. right. right. done.
Qed.

Lemma example_accounted : accounted example_stack.
Proof.
  intros q. unfold example_stack. cbn [st_sockets st_tx_queue]. rewrite example_ring_all.
  destruct (decide (q = 0)) as [->|].
  - by rewrite arr_insert_eq.
  - rewrite arr_insert_ne by done. unfold pending. cbn [sum_list_with].
    rewrite counts_one, decide_False by done. done.
Qed.
