(* ===== verification/StackLoop.v ===== *)
(** * What the transmit loop of the stack guarantees

    Properties of [handle_operation] and [lwip_loop_iteration]. *)
From S2P Require Import Prelude RingView RingBuffer ByteBuffer Memory Shmem.
From S2P Require Import Operation PrioRing SocketRegion Lwip Stack StackSpec StackExample.

(** C20. The transmit loop ends: an iteration never runs out of steps, whatever
    is queued and whatever lwIP answers, though it may end the process or
    dereference [NULL] ([process_tx_op_errors]).  It returns under two
    conditions: [tcp_new] never answers [NULL], as it does when the pool of
    control blocks is empty, and every queued operation has a TCP code (or is a
    no-op) and an application whose region is mapped.  The state it then leaves
    is well formed and its queue again of that kind, so that the next iteration
    returns too. *)
Theorem lwip_loop_iteration_returns `{LW : Lwip} `{IN : !Indeterminate} (st : stack) :
  stack_wf st ->
  lwip_loop_iteration st <> NoFuel /\
  ((forall lw, is_Some (tcp_new lw).1) -> queue_ready st ->
   exists st', lwip_loop_iteration st = Ret st' /\ stack_wf st' /\ queue_ready st').
Proof.
  intros Hwf. unfold lwip_loop_iteration.
  pose proof (lwip_loop_spec _ st 0 Hwf (lwip_loop_fuel_enough st Hwf)) as Hs.
  split; [by intros He; rewrite He in Hs|]. intros Hnew Hready.
  destruct (lwip_loop_returns Hnew _ st 0 Hwf Hready (lwip_loop_fuel_enough st Hwf))
    as (st' & He & Hr).
  rewrite He in Hs. exists st'. split_and!; [done|apply Hs|done].
Qed.

Lemma lwip_loop_iteration_returns_witness :
  exists st', lwip_loop_iteration example_stack = Ret st' /\ stack_wf st'.
Proof.
  destruct (lwip_loop_iteration_returns example_stack example_stack_wf) as [_ H].
  destruct H as (st' & H1 & H2 & _); [by eexists|apply example_queue_ready|].
  by exists st'.
Defined.

(** C13. The counters used for rate limiting are exact: if for every socket the
    difference of enqueued and dequeued operations is the number of its
    operations in the transmit queue (no-ops left by a scan not counted), it
    still is after an iteration of the loop, scans included. *)
Theorem lwip_loop_iteration_accounts `{LW : Lwip} `{IN : !Indeterminate} (st st' : stack) :
  stack_wf st -> accounted st -> lwip_loop_iteration st = Ret st' -> accounted st'.
Proof.
  intros Hwf Ha He.
  pose proof (lwip_loop_spec _ st 0 Hwf (lwip_loop_fuel_enough st Hwf)) as Hs.
  unfold lwip_loop_iteration in He. rewrite He in Hs. by apply Hs.
Qed.

Definition example_served : stack :=
  match lwip_loop_iteration example_stack with Ret st => st | _ => example_stack end.

Lemma lwip_loop_iteration_accounts_witness :
  so_dequeued_ops (st_sockets example_served 0) = 1 /\ accounted example_served.
Proof.
  split; [vm_compute; reflexivity|].
  apply (lwip_loop_iteration_accounts example_stack example_served
    example_stack_wf example_accounted).
  vm_compute. reflexivity.
Defined.

(** Completion. An operation that is at the head of the queue, is not a
    no-op and need not be tried again is handled by one call: it leaves the
    queue, and no other operation does; its socket is credited; the counter of
    iterations with a full send buffer starts again; and its result, marked
    with its code, is appended to the completion queue of its socket unless
    the operation goes on asynchronously or that queue is full.  No other
    socket changes. *)
Theorem handle_operation_completes `{LW : Lwip} `{IN : !Indeterminate} (st st1 : stack)
    (q : prio_ring) (p : tx_ptr) (d : Z) (r : pifus_operation_result) :
  stack_wf st -> pifus_priority_aware_ring_buffer_peek (st_tx_queue st) = (Some p, q) ->
  let op := pr_deref (st_tx_queue st) p in
  process_tx_op (st_set_tx_queue st q) op = Ret (r, st1) ->
  op_code (int_operation op) <> NOP -> res_result_code r <> PIFUS_TRY_AGAIN ->
  let s1 := st_sockets st1 (int_socket op) in
  exists st', handle_operation (st_set_tx_queue st q) p false d = Ret (true, st', u8 (d + 1)) /\
    pr_all (st_tx_queue st) = op :: pr_all (st_tx_queue st') /\
    st_full_sndbuf_iterations st' = 0 /\ res_code r = op_code (int_operation op) /\
    cq_list (st_sockets st' (int_socket op)) = cq_list s1 ++ delivered s1 r /\
    so_cqueue_futex (st_sockets st' (int_socket op)) =
      (if decide (delivered s1 r = []) then so_cqueue_futex s1
       else u32 (so_cqueue_futex s1 + 1)) /\
    so_dequeued_ops (st_sockets st' (int_socket op)) = u64 (so_dequeued_ops s1 + 1) /\
    (forall x, x <> int_socket op -> st_sockets st' x = st_sockets st1 x).
Proof.
  intros Hwf Hpeek op Hproc Hnop Hres s1.
  pose proof (peek_spec st Hwf) as Hp. rewrite Hpeek in Hp.
  destruct Hp as (Hwfq & (_ & Hall & _) & Hh). simpl in Hall.
  set (stq := st_set_tx_queue st q) in *.
  assert (op = pr_deref q p) as Hop.
  { pose proof (pr_peek_spec _ (proj1 Hwf)) as Hs. rewrite Hpeek in Hs.
    unfold op, pr_deref. by rewrite (proj1 Hs). }
  destruct (process_tx_op_kept _ _ _ _ Hproc) as [Hkept Hcode].
  pose proof (cb_kept_wf _ _ (tx_kept_cb _ _ Hkept) Hwfq) as Hwf1.
  pose proof (kept_tx_queue _ _ _ Hkept) as Hq. simpl in Hq.
  destruct (serve_head st1 p op r Hwf1) as (st' & He & _ & _ & Hall' & Hs' & Hfull);
    [by rewrite Hq|by rewrite Hq|done|].
  exists st'. split.
  { unfold handle_operation. remember 1%nat as fuel. cbn [handle_operation_rec].
    change (st_tx_queue stq) with q. rewrite <- Hop, Hproc. cbn [mbind outcome_bind].
    rewrite Hcode, andb_true_r. destruct (Z.eqb_spec (op_code (int_operation op)) NOP); [done|].
    destruct (Z.eqb_spec (res_result_code r) PIFUS_TRY_AGAIN); [done|].
    unfold finish in He. by rewrite He. }
  rewrite Hs', <- Hall, <- Hq. destruct Hwf1 as (_ & _ & Hsw).
  do 3 (split; [done|]). apply finish_delivers, Hsw.
Qed.

Definition example_peeked : stack :=
  st_set_tx_queue example_stack (pr_set_last_peek example_ring LowQueue).

Definition example_processed : pifus_operation_result * stack :=
  match process_tx_op example_peeked (example_op TCP_WRITE) with
  | Ret x => x
  | _ => (example_result, example_stack)
  end.

Lemma handle_operation_completes_witness :
  exists st', handle_operation example_peeked (LowQueue, 0) false 0 = Ret (true, st', 1) /\
    pr_all (st_tx_queue st') = [].
Proof.
  destruct (handle_operation_completes example_stack example_processed.2
    (pr_set_last_peek example_ring LowQueue) (LowQueue, 0) 0 example_processed.1
    example_stack_wf eq_refl) as (st' & H1 & H2 & _);
    [reflexivity|vm_compute; discriminate|vm_compute; discriminate|].
  exists st'. split; [exact H1|]. change (pr_all (st_tx_queue example_stack)) with
    [example_op TCP_WRITE] in H2. by injection H2 as <-.
Defined.

(** The error paths of an operation. A UDP code ends the stack process, for
    every client.  A TCP operation on a socket without a pcb when lwIP has none
    to give dereferences [NULL].  An unknown code below the UDP codes is
    answered with whatever the uninitialised result holds. *)
Theorem process_tx_op_errors `{LW : Lwip} `{IN : !Indeterminate} (st : stack)
    (op : pifus_internal_operation) :
  op_code (int_operation op) <> NOP -> op_code (int_operation op) <> CLIENT_NOP ->
  (UDP_BIND <= op_code (int_operation op) -> process_tx_op st op = Exited 1) /\
  (op_code (int_operation op) < UDP_BIND ->
   so_pcb (st_sockets st (int_socket op)) = None -> (tcp_new (st_lwip st)).1 = None ->
   process_tx_op st op = Undefined) /\
  (op_code (int_operation op) < UDP_BIND -> TCP_CLOSE < op_code (int_operation op) ->
   is_Some (so_pcb (st_sockets st (int_socket op))) ->
   process_tx_op st op =
     Ret (res_set_code (uninit_result st) (op_code (int_operation op)), st)).
Proof.
  intros Hn1%Z.eqb_neq Hn2%Z.eqb_neq. unfold process_tx_op, is_tcp_operation.
  rewrite Hn1, Hn2. cbn [orb]. split_and!.
  - intros Hge. destruct (Z.ltb_spec (op_code (int_operation op)) UDP_BIND); [lia|done].
  - intros Hlt%Z.ltb_lt Hpcb Hnew. rewrite Hlt. unfold tx_open_pcb. rewrite Hpcb.
    destruct (tcp_new (st_lwip st)) as [o lw]. simpl in Hnew. by subst.
  - intros Hlt%Z.ltb_lt Hgt [pcb Hpcb]. rewrite Hlt. unfold tx_open_pcb. rewrite Hpcb.
    cbn [mbind outcome_bind]. simpl code_val in Hgt |- *. ztest; try lia. done.
Qed.

Lemma process_tx_op_errors_witness :
  process_tx_op example_stack (example_op UDP_SEND) = Exited 1.
Proof.
  apply (process_tx_op_errors example_stack (example_op UDP_SEND)); vm_compute; discriminate.
Defined.
