(* ===== verification/StackWrite.v ===== *)
(** * Writing ([lwip/custom/stack/src/tcp/write.c])

    [tx_tcp_write] hands a block to lwIP and remembers it in the write queue;
    [tcp_sent_callback] matches acknowledged bytes with the queue and reports
    the writes that are complete. *)
From S2P Require Import Prelude RingView RingBuffer ByteBuffer Memory Shmem.
From S2P Require Import Operation PrioRing SocketRegion Lwip Stack StackSpec StackExample.

(** The writes of a socket that wait for acknowledgements, oldest first. *)
Definition wq_list (s : pifus_socket) : list pifus_write_queue_entry :=
  rb_contents (so_write_queue s) (so_write_queue_buffer s).

Definition outstanding (w : list pifus_write_queue_entry) : Z :=
  foldr (fun e z => wq_size e + z) 0 w.

(** The writes that [len] acknowledged bytes complete, and what is left. [None]:
    more was acknowledged than written. *)
Fixpoint acknowledge (w : list pifus_write_queue_entry) (len : Z) :
    option (list pifus_write_queue_entry * list pifus_write_queue_entry) :=
  match w with
  | [] => None
  | e :: w =>
      if wq_size e <? len then
        '(complete, rest) ← acknowledge w (len - wq_size e); Some (e :: complete, rest)
      else if wq_size e =? len then Some ([e], w)
      else Some ([], WriteEntry (wq_size e - len) (wq_block_offset e) :: w)
  end.

(** What the client learns: code, status and the block that is free again. *)
Definition write_reply (r : pifus_operation_result) : Z * Z * Z :=
  (res_code r, res_result_code r, write_block_offset (res_write r)).
Definition write_done (e : pifus_write_queue_entry) : Z * Z * Z :=
  (code_val TCP_WRITE, result_val PIFUS_OK, wq_block_offset e).

Lemma acknowledge_outstanding w len complete rest :
  acknowledge w len = Some (complete, rest) -> outstanding w = len + outstanding rest.
Proof.
  revert len complete rest. induction w as [|e w IH]; intros len complete rest; simpl; [done|].
  destruct (Z.ltb_spec (wq_size e) len).
  - destruct (acknowledge w _) as [[c r]|] eqn:Ha; simpl; [|done]. intros [= _ <-].
    rewrite (IH _ _ _ Ha). lia.
  - destruct (Z.eqb_spec (wq_size e) len); intros [= _ <-]; simpl; lia.
Qed.


Definition sizes_ok (w : list pifus_write_queue_entry) : Prop :=
  Forall (fun e => 0 <= wq_size e < 18446744073709551616) w.

Lemma acknowledge_sizes w len complete rest :
  0 <= len -> sizes_ok w -> acknowledge w len = Some (complete, rest) -> sizes_ok rest.
Proof.
  intros Hlen Hw. revert len Hlen complete rest.
  induction Hw as [|e w He Hw IH]; intros len Hlen complete rest; simpl; [done|].
  destruct (Z.ltb_spec (wq_size e) len).
  - destruct (acknowledge w _) as [[c r]|] eqn:Ha; simpl; [|done]. intros [= _ <-].
    eapply IH; [|exact Ha]. lia.
  - destruct (Z.eqb_spec (wq_size e) len); intros [= _ <-]; [done|].
    constructor; [simpl; lia|done].
Qed.

Lemma outstanding_nonneg w : sizes_ok w -> 0 <= outstanding w.
Proof. induction 1; simpl; lia. Qed.

Lemma acknowledge_none w len :
  0 <= len -> sizes_ok w -> (acknowledge w len = None <-> w = [] \/ outstanding w < len).
Proof.
  intros Hlen Hw. split.
  - revert len Hlen. induction Hw as [|e w He Hw IH]; intros len Hlen; simpl; [by left|].
    right. destruct (Z.ltb_spec (wq_size e) len).
    + destruct (acknowledge w (len - wq_size e)) as [[]|] eqn:Ha; [done|].
      destruct (IH (len - wq_size e) ltac:(lia) Ha) as [->|]; simpl; lia.
    + by destruct (wq_size e =? len).
  - destruct (acknowledge w len) as [[c r]|] eqn:Ha; [|done]. intros [->|Ho]; [done|].
    pose proof (acknowledge_outstanding _ _ _ _ Ha).
    pose proof (outstanding_nonneg r (acknowledge_sizes _ _ _ _ Hlen Hw Ha)). lia.
Qed.

Section write.
Context `{LW : Lwip} `{IN : !Indeterminate}.
Implicit Types (st : stack) (s : pifus_socket).

Lemma enqueue_keeps_write st p r :
  so_write_queue (st_sockets (enqueue_in_cqueue st p r) p) = so_write_queue (st_sockets st p) /\
  so_write_queue_buffer (st_sockets (enqueue_in_cqueue st p r) p) =
    so_write_queue_buffer (st_sockets st p).
Proof.
  unfold enqueue_in_cqueue. destruct (ring_buffer_put _ _ r) as [[[] rb] buf]; [|done].
  unfold set_socket, st_set_sockets. cbn [st_sockets]. by rewrite arr_insert_eq.
Qed.

Lemma tcp_sent_callback_rec_spec fuel st p len :
  socket_wf (st_sockets st p) -> sizes_ok (wq_list (st_sockets st p)) ->
  u32 (so_cqueue_futex (st_sockets st p)) = so_cqueue_futex (st_sockets st p) ->
  0 <= len < 65536 -> (length (wq_list (st_sockets st p)) < fuel)%nat ->
  match acknowledge (wq_list (st_sockets st p)) len with
  | None => tcp_sent_callback_rec fuel st (Some p) len = Exited 1
  | Some (complete, rest) => exists st',
      tcp_sent_callback_rec fuel st (Some p) len = Ret (ERR_OK, st') /\
      wq_list (st_sockets st' p) = rest /\
      replied write_reply (st_sockets st p) (st_sockets st' p) (write_done <$> complete) /\
      (forall q, q <> p -> st_sockets st' q = st_sockets st q)
  end.
Proof.
  revert st len. induction fuel as [|fuel IH]; intros st len Hwf Hsz Hfut Hlen Hf; [lia|].
  cbn [tcp_sent_callback_rec deref mbind outcome_bind].
  set (s := st_sockets st p) in *. pose proof Hwf as (_ & Hcq & Hw & _).
  destruct (ring_buffer_peek (so_write_queue s)) as [i|] eqn:Hpeek.
  2: { pose proof (ring_buffer_peek_none _ (so_write_queue_buffer s) Hw Hpeek) as Hnil.
       unfold wq_list. by rewrite Hnil. }
  destruct (ring_buffer_peek_some _ (so_write_queue_buffer s) i Hw Hpeek) as [Hi Hl].
  fold (wq_list s) in Hl. set (e := so_write_queue_buffer s i) in *.
  set (w := tail (wq_list s)) in *. rewrite Hl in Hsz, Hf |- *.
  apply Forall_cons in Hsz as [He Hsz]. cbn [acknowledge].
  destruct (Z.leb_spec (wq_size e) len) as [Hle|Hgt].
  - pose proof (ring_buffer_erase_first_spec _ (so_write_queue_buffer s) Hw) as Her.
    destruct (ring_buffer_erase_first (so_write_queue s)) as [ok wq] eqn:Herase.
    destruct Her as (Hw' & Hend & _ & _ & Hc). fold (wq_list s) in Hc. fold w in Hc.
    set (r := res_set_write _ _). set (st1 := set_socket st p (set_write_queue s wq)).
    set (st2 := enqueue_in_cqueue st1 p r).
    assert (st_sockets st1 p = set_write_queue s wq) as Hs1 by apply set_socket_eq.
    destruct (enqueue_keeps_write st1 p r) as [Hkq Hkb]. fold st2 in Hkq, Hkb.
    rewrite Hs1 in Hkq, Hkb. simpl in Hkq, Hkb.
    assert (wq_list (st_sockets st2 p) = w) as Hw2 by (unfold wq_list; by rewrite Hkq, Hkb).
    pose proof (replied_one write_reply st1 p r) as Hrep; rewrite Hs1 in Hrep.
    fold st2 in Hrep. specialize (Hrep Hcq Hfut).
    change (replied write_reply (set_write_queue s wq) (st_sockets st2 p) [write_reply r])
      with (replied write_reply s (st_sockets st2 p) [write_done e]) in Hrep.
    assert (forall q, q <> p -> st_sockets st2 q = st_sockets st q) as Hother.
    { intros q Hq. destruct (enqueue_in_cqueue_spec st1 p r) as [Ho _]; [by rewrite Hs1|].
      unfold st2. rewrite Ho by done. by apply set_socket_ne. }
    rewrite Hkb. fold e.
    destruct (Z.ltb_spec (wq_size e) len) as [Hlt|Hge].
    + rewrite u16_small by lia.
      assert (socket_wf (st_sockets st2 p)) as Hwf2.
      { destruct (enqueue_in_cqueue_kept st1 p r) as [_ _ _ _ Hk]. destruct (Hk p) as [Hkp _].
        apply (kept_wf _ _ Hkp). rewrite Hs1. destruct (set_write_queue_kept s wq); [|auto].
        by eapply ring_moved_erase. }
      assert (u32 (so_cqueue_futex (st_sockets st2 p)) = so_cqueue_futex (st_sockets st2 p))
        as Hfut2 by (apply enqueue_futex_range; by rewrite Hs1).
      specialize (IH st2 (len - wq_size e) Hwf2). rewrite Hw2 in IH.
      specialize (IH Hsz Hfut2 ltac:(lia) ltac:(simpl in Hf; lia)).
      destruct (acknowledge w (len - wq_size e)) as [[c rest]|]; cbn [mbind option_bind]; [|done].
      destruct IH as (st' & Hst' & Hrest & Hrep' & Ho').
      exists st'. split_and!; [done|done| |].
      * rewrite fmap_cons. change (write_done e :: ?l) with ([write_done e] ++ l).
        eapply replied_app; [by apply cq_room_nonneg|exact Hrep|exact Hrep'].
      * intros q Hq. rewrite Ho' by done. by apply Hother.
    + destruct (Z.eqb_spec (wq_size e) len); [|lia]. exists st2. by split_and!.
  - destruct (Z.ltb_spec (wq_size e) len); [lia|]. destruct (Z.eqb_spec (wq_size e) len); [lia|].
    rewrite u64_small by lia. eexists. split; [done|]. rewrite set_socket_eq. split_and!.
    + unfold wq_list. simpl. rewrite Hi.
      change 0 with (Z.of_nat 0) at 1. rewrite rb_contents_store; [|done|].
      * fold (wq_list s). by rewrite Hl.
      * fold (wq_list s). rewrite Hl. simpl. lia.
    + apply replied_nil; try done. by apply cq_room_nonneg.
    + intros q Hq. by apply set_socket_ne.
Qed.
End write.

(** C15. Acknowledgements are conserved. Acknowledging at most what is
    outstanding reduces it by exactly that amount, completes the oldest writes
    in order, and reports each completed block once, as far as the completion
    queue has room; no other socket changes. Acknowledging more than is
    outstanding, or anything when nothing was written, ends the process. *)
Theorem tcp_sent_callback_acknowledges `{LW : Lwip} `{IN : !Indeterminate} (st : stack)
    (p len : Z) :
  let s := st_sockets st p in
  let w := wq_list s in
  socket_wf s -> sizes_ok w -> u32 (so_cqueue_futex s) = so_cqueue_futex s ->
  0 <= len < 65536 ->
  (w = [] \/ outstanding w < len -> tcp_sent_callback st (Some p) len = Exited 1) /\
  (w <> [] -> len <= outstanding w ->
   exists complete rest st',
     tcp_sent_callback st (Some p) len = Ret (ERR_OK, st') /\
     acknowledge w len = Some (complete, rest) /\
     wq_list (st_sockets st' p) = rest /\ outstanding rest = outstanding w - len /\
     replied write_reply s (st_sockets st' p) (write_done <$> complete) /\
     (forall q, q <> p -> st_sockets st' q = st_sockets st q)).
Proof.
  intros s w Hwf Hsz Hfut Hlen.
  assert (length w < Z.to_nat WRITE_QUEUE_SIZE)%nat as Hf.
  { destruct Hwf as (_ & _ & Hw & Hend & _).
    pose proof (rb_contents_length (so_write_queue s) (so_write_queue_buffer s) Hw).
    pose proof (rb_free_bounds _ Hw). unfold w, wq_list, WRITE_QUEUE_SIZE in *. lia. }
  pose proof (tcp_sent_callback_rec_spec _ st p len Hwf Hsz Hfut Hlen Hf) as Hspec.
  fold s in Hspec. fold w in Hspec.
  pose proof (acknowledge_none w len (proj1 Hlen) Hsz) as Hnone.
  unfold tcp_sent_callback. destruct (acknowledge w len) as [[c r]|] eqn:Ha.
  - split; [by intros ?%Hnone|]. intros _ _. destruct Hspec as (st' & ? & ? & ? & ?).
    pose proof (acknowledge_outstanding _ _ _ _ Ha). exists c, r, st'.
    split_and!; try done. lia.
  - split; [done|]. intros Hne Hle. destruct Hnone as [Hnone _].
    destruct (Hnone eq_refl); [done|lia].
Qed.

(** Two writes of 100 and 50 bytes, of which 120 bytes are acknowledged. *)
Definition example_writing : stack :=
  let s := example_socket in
  let '(_, rb, buf) :=
    ring_buffer_put (so_write_queue s) (so_write_queue_buffer s) (WriteEntry 100 0) in
  let '(_, rb, buf) := ring_buffer_put rb buf (WriteEntry 50 124) in
  set_socket example_stack 0 (set_write_queue_buffer (set_write_queue s rb) buf).

Lemma tcp_sent_callback_acknowledges_witness :
  exists st', tcp_sent_callback example_writing (Some 0) 120 = Ret (ERR_OK, st') /\
    wq_list (st_sockets st' 0) = [WriteEntry 30 124].
Proof.
  destruct (tcp_sent_callback_acknowledges example_writing 0 120) as [_ H].
  - vm_compute. repeat split; discriminate.
  - change (wq_list (st_sockets example_writing 0)) with [WriteEntry 100 0; WriteEntry 50 124].
    repeat constructor; simpl; lia.
  - reflexivity.
  - lia.
  - destruct H as (c & r & st' & H1 & H2 & H3 & _); [discriminate|vm_compute; discriminate|].
    exists st'. split; [exact H1|]. rewrite H3. vm_compute in H2. by injection H2 as _ <-.
Defined.

(** C16. A write on every path. With a full write queue the operation fails and
    lwIP is not asked.  Otherwise lwIP is given the block's payload, in place:
    if it accepts, the write is remembered, with the size of its block, after
    those before it, and the operation goes on; if it has no room, the
    operation is to be tried again; any other error is reported; in both cases
    the sockets are as before.  The length lwIP is given is the block's size
    only below 65536: from there on it is cut to 16 bits, and after everything
    lwIP accepted has been acknowledged the write is still incomplete. *)
Theorem tx_tcp_write_spec `{LW : Lwip} `{IN : !Indeterminate} (st : stack)
    (op : pifus_internal_operation) (app : mem) :
  let s := st_sockets st (int_socket op) in
  let off := write_block_offset (op_write (int_operation op)) in
  let block := shm_data_get_block_ptr (i64 off) in
  let size := blk_size app block in
  socket_wf s -> st_apps st (app_index (so_identifier s)) = Some app ->
  let '(e, lw) := tcp_write (so_pcb s)
    (ShmPtr (app_index (so_identifier s)) (shm_data_get_data_ptr block)) (u16 size) 0
    (st_lwip st) in
  (exists r st', tx_tcp_write st op = Ret (r, st') /\
   write_block_offset (res_write r) = off /\
   (rb_free (so_write_queue s) = 0 -> res_result_code r = PIFUS_ERR /\ st' = st) /\
   (rb_free (so_write_queue s) <> 0 -> e = ERR_OK ->
      res_result_code r = PIFUS_ASYNC /\
      wq_list (st_sockets st' (int_socket op)) = wq_list s ++ [WriteEntry size off] /\
      outstanding (wq_list (st_sockets st' (int_socket op))) = outstanding (wq_list s) + size) /\
   (rb_free (so_write_queue s) <> 0 -> e <> ERR_OK ->
      res_result_code r = (if e =? ERR_MEM then PIFUS_TRY_AGAIN else PIFUS_ERR) /\
      st' = st_set_lwip st lw)) /\
  (size < 65536 -> u16 size = size) /\
  (65536 <= size -> acknowledge [WriteEntry size off] (u16 size) =
     Some ([], [WriteEntry (size - u16 size) off])).
Proof.
  intros s off block size Hwf Happ. destruct (tcp_write _ _ _ _ _) as [e lw] eqn:Hwrite.
  assert (0 <= size) as Hsize by (apply load64_range).
  pose proof (u16_range size) as Hr.
  assert (65536 <= size -> u16 size < size) as Hlt by lia.
  split_and!; [|intros; apply u16_small; lia|].
  2: { intros Hbig. cbn [acknowledge wq_size wq_block_offset].
       destruct (Z.ltb_spec size (u16 size)); [lia|].
       destruct (Z.eqb_spec size (u16 size)); [lia|done]. }
  pose proof Hwf as (_ & _ & Hw & _). unfold tx_tcp_write. fold s off block. rewrite Happ.
  cbn [deref mbind outcome_bind]. rewrite ring_buffer_is_full_spec by done.
  fold size. rewrite Hwrite. case_bool_decide as Hfull.
  { do 2 eexists. split; [done|]. by split_and!. }
  destruct (Z.eqb_spec e ERR_OK) as [He|He].
  - destruct (ring_buffer_put_ok (so_write_queue s) (so_write_queue_buffer s)
      (WriteEntry size off) Hw) as (-> & _ & _ & Hc); [pose proof (rb_free_bounds _ Hw); lia|].
    do 2 eexists. split; [done|]. split_and!; [done|done| |done]. intros _ _.
    cbn [st_sockets st_set_lwip]. rewrite set_socket_eq.
    unfold wq_list in *. cbn [so_write_queue so_write_queue_buffer set_write_queue_buffer
      set_write_queue]. rewrite Hc. split_and!; [done|done|].
    generalize (rb_contents (so_write_queue s) (so_write_queue_buffer s)).
    intros l. unfold outstanding. rewrite foldr_app. simpl.
    induction l; simpl; lia.
  - destruct (Z.eqb_spec e ERR_MEM); do 2 eexists; (split; [done|]); by split_and!.
Qed.

(** The toy lwIP accepts the empty block. *)
Lemma tx_tcp_write_spec_witness :
  exists r st', tx_tcp_write example_stack (example_op TCP_WRITE) = Ret (r, st') /\
    res_result_code r = PIFUS_ASYNC /\
    wq_list (st_sockets st' 0) = [WriteEntry 0 0].
Proof.
  destruct (tx_tcp_write_spec example_stack (example_op TCP_WRITE) (fun _ => 0))
    as [(r & st' & H1 & _ & _ & H2 & _) _].
  - exact (proj2 (proj2 example_stack_wf) 0).
  - reflexivity.
  - exists r, st'. destruct H2 as (H2 & H3 & _); [vm_compute; discriminate|reflexivity|].
    split_and!; [exact H1|exact H2|]. etrans; [exact H3|]. reflexivity.
Defined.
