(* ===== verification/StackRecv.v ===== *)
(** * Receiving ([lwip/custom/stack/src/tcp/recv.c])

    The bytes of a connection form one stream: those in the byte buffer of the
    socket come first, then those of the pbufs lwIP hands over.  The callback
    fills the receives that are queued with the front of the stream, buffers
    what it can of the rest, and leaves what remains to lwIP. *)
From S2P Require Import Prelude RingView RingBuffer ByteBuffer Memory Shmem.
From S2P Require Import Operation PrioRing SocketRegion Lwip Pbuf Stack StackSpec StackExample.

(** ** Filling one receive from the chain *)

(** The entry after [k] bytes have been written for it. *)
Definition entry_advance (e : pifus_recv_queue_entry) (k : Z) : pifus_recv_queue_entry :=
  RecvEntry (rq_size e - k) (rq_block_offset e) (rq_data_offset e + k).

Lemma entry_advance_0 e : entry_advance e 0 = e.
Proof. destruct e. unfold entry_advance. simpl. by rewrite Z.sub_0_r, Z.add_0_r. Qed.

Definition entry_ok (e : pifus_recv_queue_entry) : Prop :=
  0 < rq_size e < 65536 /\ 0 <= rq_data_offset e /\
  rq_data_offset e + rq_size e < 18446744073709551616.

(** Where the next byte for an entry goes. *)
Definition entry_addr (e : pifus_recv_queue_entry) : Z :=
  shm_data_get_data_ptr (shm_data_get_block_ptr (i64 (rq_block_offset e))) + rq_data_offset e.

Lemma recv_copy_loop_spec q offset available ackable n m e :
  pbuf_wf q -> offset_ok q offset ->
  available = Z.of_nat (length (rest_bytes q offset)) -> available < 65536 ->
  0 <= n <= rq_size e -> rq_size e < 65536 -> 0 <= rq_data_offset e ->
  rq_data_offset e + rq_size e < 18446744073709551616 ->
  0 <= ackable -> ackable + available < 65536 ->
  let k := Z.min n available in
  exists l m',
    recv_copy_loop q offset available ackable
      (shm_data_get_block_ptr (i64 (rq_block_offset e))) n m e =
      (l, m', entry_advance e k) /\
    pbuf_wf (rl_next_pbuf l) /\ offset_ok (rl_next_pbuf l) (rl_offset l) /\
    rest_bytes (rl_next_pbuf l) (rl_offset l) = drop (Z.to_nat k) (rest_bytes q offset) /\
    rl_available l = available - k /\ rl_ackable l = ackable + k /\
    same_mem m' (write_bytes m (entry_addr e) (take (Z.to_nat k) (rest_bytes q offset))).
Proof.
  revert offset available ackable n m e.
  induction q as [|p q IH]; intros offset available ackable n m e Hwf Ho Hav Hlt Hn Hs Hd Hds
    Hac Haa k; assert (k = Z.min n available) as Hk by done; clearbody k.
  - rewrite rest_bytes_nil in *. simpl in Hav. replace k with 0 by lia.
    exists (RecvLocals [] offset available ackable), m. rewrite entry_advance_0.
    cbn [recv_copy_loop rl_next_pbuf rl_offset rl_available rl_ackable]. rewrite rest_bytes_nil.
    split_and!; try (done || lia). by rewrite write_bytes_nil.
  - pose proof (pbuf_len_bound _ _ Hwf). pose proof Hwf as (_ & _ & _ & Hq). simpl in Ho.
    cbn [recv_copy_loop].
    destruct (Z.ltb_spec 0 n).
    2: { replace k with 0 by lia.
         exists (RecvLocals (p :: q) offset available ackable), m. rewrite entry_advance_0.
         cbn [rl_next_pbuf rl_offset rl_available rl_ackable].
         split_and!; try (done || lia). by rewrite write_bytes_nil. }
    rewrite rest_bytes_cons in Hav |- * by done. rewrite length_app, length_slice in Hav.
    set (len := pb_len p - offset) in *. rewrite (u16_small len) by lia.
    set (addr := _ + rq_data_offset e). assert (addr = entry_addr e) as -> by done.
    destruct (Z.ltb_spec n len).
    + (* the pbuf has more than is needed *)
      assert (k = n) as -> by lia.
      rewrite (u16_small (available - n)), (u16_small (ackable + n)), (u16_small (offset + n)),
        (u64_small (rq_size e - n)), (u64_small (rq_data_offset e + n)) by lia.
      do 2 eexists. split; [done|]. cbn [rl_next_pbuf rl_offset rl_available rl_ackable].
      split_and!; [done|simpl; lia| |done|done|].
      * rewrite rest_bytes_cons, drop_app_le, drop_slice by (rewrite ?length_slice; lia).
        f_equal. f_equal; lia.
      * rewrite take_app_le by (rewrite length_slice; lia). rewrite take_slice.
        rewrite memcpy_write_bytes by lia. by rewrite Z2Nat.id, Z.min_l by lia.
    + (* it is consumed completely *)
      rewrite (u16_small (available - len)), (u16_small (n - len)), (u16_small (ackable + len)),
        (u64_small (rq_size e - len)), (u64_small (rq_data_offset e + len)) by lia.
      fold (entry_advance e len).
      destruct (IH 0 (available - len) (ackable + len) (n - len)
        (memcpy m (entry_addr e) (pb_payload p) offset len) (entry_advance e len))
        as (l & m' & Heq & Hl1 & Hl2 & Hrest & Hl3 & Hl4 & Hm); simpl; try done; try lia.
      { destruct q; [done|]. simpl. pose proof (pbuf_len_bound _ _ Hq). lia. }
      { rewrite rest_bytes_0. lia. }
      rewrite rest_bytes_0 in Hrest, Hm. simpl in Heq. rewrite Heq. exists l, m'.
      split; [|split_and!; [done|done| |lia|lia|]].
      * f_equal. unfold entry_advance. simpl. f_equal; lia.
      * rewrite Hrest, drop_app, length_slice, (drop_ge (slice _ _ _))
          by (rewrite length_slice; lia). simpl. f_equal. lia.
      * rewrite Hm, take_app, length_slice, (take_ge (slice _ _ _))
          by (rewrite length_slice; lia).
        rewrite memcpy_write_bytes by lia.
        replace (entry_addr (entry_advance e len)) with
          (entry_addr e + Z.of_nat (length (slice (pb_payload p) offset len)))
          by (rewrite length_slice; unfold entry_addr; simpl; lia).
        rewrite write_bytes_app. f_equiv. f_equal. f_equal. lia.
Qed.

(** ** Filling a queue of receives from a stream *)

(** The receives that are complete, those that are left, what is left of the
    stream, and what is written where. *)
Record filled := Filled {
  fl_complete : list pifus_recv_queue_entry;
  fl_entries : list pifus_recv_queue_entry;
  fl_left : list Z;
  fl_writes : list (Z * list Z) }.

Fixpoint fill (es : list pifus_recv_queue_entry) (stream : list Z) : filled :=
  match es, stream with
  | [], _ => Filled [] [] stream []
  | _, [] => Filled [] es [] []
  | e :: es, _ =>
      let n := Z.to_nat (rq_size e) in
      if (n <=? length stream)%nat then
        let f := fill es (drop n stream) in
        Filled (e :: fl_complete f) (fl_entries f) (fl_left f)
          ((entry_addr e, take n stream) :: fl_writes f)
      else
        Filled [] (entry_advance e (Z.of_nat (length stream)) :: es) []
          [(entry_addr e, stream)]
  end.

Lemma fill_nil es : fill es [] = Filled [] es [] [].
Proof. by destruct es. Qed.

(** Taking from two lists in turn. *)
Lemma take_two {A} (b d : list A) (n : nat) :
  let i := Nat.min n (length b) in
  let j := Nat.min (n - i) (length d) in
  take i b ++ take j d = take n (b ++ d) /\ drop i b ++ drop j d = drop n (b ++ d) /\
  (i + j = Nat.min n (length (b ++ d)))%nat.
Proof.
  intros i j. unfold j, i. rewrite length_app, take_app, drop_app. split_and!; [| |lia].
  - destruct (Nat.le_gt_cases n (length b)).
    + rewrite Nat.min_l, Nat.sub_diag by done. replace (n - length b)%nat with 0%nat by lia. done.
    + rewrite Nat.min_r by lia. rewrite (take_ge b (length b)), (take_ge b n) by lia. f_equal.
      destruct (Nat.le_gt_cases (n - length b) (length d)).
      * by rewrite Nat.min_l.
      * by rewrite Nat.min_r, !take_ge by lia.
  - destruct (Nat.le_gt_cases n (length b)).
    + rewrite Nat.min_l, Nat.sub_diag by done. replace (n - length b)%nat with 0%nat by lia. done.
    + rewrite Nat.min_r by lia. rewrite (drop_ge b (length b)), (drop_ge b n) by lia. simpl.
      destruct (Nat.le_gt_cases (n - length b) (length d)).
      * by rewrite Nat.min_l.
      * by rewrite Nat.min_r, !drop_ge by lia.
Qed.

(** ** Popping from the byte buffer *)

Definition buffered (s : pifus_socket) : list Z :=
  bb_contents (so_recv_buffer s) (so_recv_buffer_array s).

Lemma pop_from_buffer_spec s app e n :
  bb_wf (so_recv_buffer s) -> 0 <= n <= rq_size e -> rq_size e < 65536 ->
  0 <= rq_data_offset e -> rq_data_offset e + rq_size e < 18446744073709551616 ->
  let k := Z.min n (Z.of_nat (length (buffered s))) in
  exists bb m,
    pop_from_buffer s app (shm_data_get_block_ptr (i64 (rq_block_offset e))) e n =
      (k, bb, m, entry_advance e k) /\
    bb_wf bb /\ bb_end bb = bb_end (so_recv_buffer s) /\
    bb_contents bb (so_recv_buffer_array s) = drop (Z.to_nat k) (buffered s) /\
    same_mem m (write_bytes app (entry_addr e) (take (Z.to_nat k) (buffered s))).
Proof.
  intros Hwf Hn Hs Hd Hds k. unfold pop_from_buffer. fold (entry_addr e).
  destruct (byte_buffer_pop_spec (so_recv_buffer s) (so_recv_buffer_array s) n app
    (entry_addr e) Hwf ltac:(lia)) as (bb & m & Heq & Hwf' & Hend & Hc & Hout & Hframe).
  assert (rv_count (bb_view (so_recv_buffer s)) = Z.of_nat (length (buffered s))) as Hlen.
  { symmetry. by apply rv_contents_lengthZ. }
  rewrite Hlen in *. fold k in Heq, Hc, Hout, Hframe. fold (buffered s) in Hc, Hout.
  rewrite Heq. exists bb, m. split; [|split_and!; try done].
  - f_equal. destruct (Z.ltb_spec 0 k).
    + rewrite !u64_small by lia. done.
    + replace k with 0 by lia. by rewrite entry_advance_0.
  - apply write_bytes_intro; rewrite length_take_le, Z2Nat.id by lia; [exact Hout|exact Hframe].
Qed.

(** ** The loop over the queue *)

Section loop.
Context `{LW : Lwip} `{IN : !Indeterminate}.
Implicit Types (st : stack) (s : pifus_socket) (l : recv_locals).

Definition rq_list s : list pifus_recv_queue_entry :=
  rb_contents (so_recv_queue s) (so_recv_queue_buffer s).

Definition unread l : list Z := rest_bytes (rl_next_pbuf l) (rl_offset l).

(** The locals describe the bytes they are about. *)
Definition locals_ok l : Prop :=
  pbuf_wf (rl_next_pbuf l) /\ offset_ok (rl_next_pbuf l) (rl_offset l) /\
  rl_available l = Z.of_nat (length (unread l)) /\ 0 <= rl_ackable l /\
  rl_ackable l + rl_available l < 65536.

(** What the client learns of a receive. *)
Definition recv_reply (r : pifus_operation_result) : Z * Z * Z :=
  (res_code r, res_result_code r, recv_block_offset (res_recv r)).
Definition recv_done (e : pifus_recv_queue_entry) : Z * Z * Z :=
  (code_val TCP_RECV, result_val PIFUS_OK, i64 (rq_block_offset e)).

(** What the loop leaves alone. *)
Record socket_frame s s' : Prop := SocketFrame {
  sf_write_queue : so_write_queue s' = so_write_queue s;
  sf_write_queue_buffer : so_write_queue_buffer s' = so_write_queue_buffer s;
  sf_array : so_recv_buffer_array s' = so_recv_buffer_array s;
  sf_buffer_end : bb_end (so_recv_buffer s') = bb_end (so_recv_buffer s);
  sf_unread : so_unread_data_offset s' = so_unread_data_offset s;
  sf_pcb : so_pcb s' = so_pcb s }.

Record recv_frame (p : Z) st st' : Prop := RecvFrame {
  rf_others : forall q, q <> p -> st_sockets st' q = st_sockets st q;
  rf_apps : forall i, i <> app_index (so_identifier (st_sockets st p)) ->
    st_apps st' i = st_apps st i;
  rf_lwip : st_lwip st' = st_lwip st;
  rf_socket_ptrs : st_socket_ptrs st' = st_socket_ptrs st;
  rf_socket : socket_frame (st_sockets st p) (st_sockets st' p);
  rf_kept : cb_kept st st' }.

#[export] Instance socket_frame_preorder : PreOrder socket_frame.
Proof. split; [done|]. intros s1 s2 s3 [] []. split; congruence. Qed.

Lemma cb_kept_identifier st st' p :
  cb_kept st st' -> so_identifier (st_sockets st' p) = so_identifier (st_sockets st p).
Proof. intros [_ _ _ _ Hs]. by destruct (Hs p) as [[] _]. Qed.

#[export] Instance recv_frame_preorder p : PreOrder (recv_frame p).
Proof.
  split.
  - intros st. by split.
  - intros st1 st2 st3 [H1 A1 L1 P1 S1 K1] [H2 A2 L2 P2 S2 K2]. split.
    + intros q Hq. by rewrite H2, H1.
    + intros i Hi. rewrite A2, A1; [done|done|]. by rewrite (cb_kept_identifier _ _ p K1).
    + congruence.
    + congruence.
    + by etrans.
    + by etrans.
Qed.

Lemma enqueue_socket_frame st p r :
  let s := st_sockets st p in let s' := st_sockets (enqueue_in_cqueue st p r) p in
  socket_frame s s' /\ so_recv_queue s' = so_recv_queue s /\
  so_recv_queue_buffer s' = so_recv_queue_buffer s /\ so_recv_buffer s' = so_recv_buffer s.
Proof.
  unfold enqueue_in_cqueue. destruct (ring_buffer_put _ _ r) as [[[] rb] buf];
    [|by split_and!]. cbv zeta. rewrite set_socket_eq. by split_and!.
Qed.

Lemma enqueue_recv_frame st p r : recv_frame p st (enqueue_in_cqueue st p r).
Proof.
  pose proof (enqueue_in_cqueue_kept st p r) as Hk.
  destruct (enqueue_socket_frame st p r) as (Hs & _).
  revert Hk Hs. unfold enqueue_in_cqueue.
  destruct (ring_buffer_put _ _ r) as [[[] rb] buf]; [|reflexivity]. intros Hk Hs.
  split; [|done..|exact Hs|exact Hk]. intros q Hq. by apply set_socket_ne.
Qed.

Lemma set_recv_frame st p app s' :
  socket_kept (st_sockets st p) s' -> socket_frame (st_sockets st p) s' ->
  recv_frame p st
    (set_socket (set_app st (app_index (so_identifier (st_sockets st p))) app) p s').
Proof.
  intros Hk Hs. split; [| |done|done| |].
  - intros q Hq. by rewrite set_socket_ne.
  - intros i Hi. simpl. by rewrite arr_insert_ne.
  - by rewrite set_socket_eq.
  - etrans; [apply set_app_kept; apply _|]. by apply set_socket_kept; [apply _| |].
Qed.

(** One iteration for the entry [e]: it takes [i] bytes from the buffer, then
    [j] from the chain; [st1] and [l1] are what it leaves. *)
Record recv_stepped (p : Z) st st1 l l1 (e : pifus_recv_queue_entry)
    (es : list pifus_recv_queue_entry) (i j : nat) : Prop := RecvStepped {
  rs_frame : recv_frame p st st1;
  rs_locals : locals_ok l1;
  rs_ackable : rl_ackable l1 = rl_ackable l + Z.of_nat j;
  rs_buffer : buffered (st_sockets st1 p) = drop i (buffered (st_sockets st p));
  rs_unread : unread l1 = drop j (unread l);
  rs_mem : exists m m1,
    st_apps st (app_index (so_identifier (st_sockets st p))) = Some m /\
    st_apps st1 (app_index (so_identifier (st_sockets st p))) = Some m1 /\
    same_mem m1 (write_bytes m (entry_addr e)
      (take i (buffered (st_sockets st p)) ++ take j (unread l)));
  rs_queue : rq_list (st_sockets st1 p) =
    if decide (rq_size e = Z.of_nat (i + j)) then es
    else entry_advance e (Z.of_nat (i + j)) :: es;
  rs_replies : replied recv_reply (st_sockets st p) (st_sockets st1 p)
    (if decide (rq_size e = Z.of_nat (i + j)) then [recv_done e] else []) }.

Definition futex_ok s : Prop := u32 (so_cqueue_futex s) = so_cqueue_futex s.

(** The two exits of an iteration: the entry is complete, or it stays. *)
Lemma recv_step_complete st p m m1 bb1 ix e es e1 l l1 i j :
  socket_wf (st_sockets st p) -> futex_ok (st_sockets st p) ->
  st_apps st (app_index (so_identifier (st_sockets st p))) = Some m ->
  rq_list (st_sockets st p) = e :: es -> rq_size e = Z.of_nat (i + j) ->
  ring_buffer_peek (so_recv_queue (st_sockets st p)) = Some ix ->
  bb_wf bb1 -> bb_end bb1 = bb_end (so_recv_buffer (st_sockets st p)) ->
  bb_contents bb1 (so_recv_buffer_array (st_sockets st p)) =
    drop i (buffered (st_sockets st p)) ->
  locals_ok l1 -> rl_ackable l1 = rl_ackable l + Z.of_nat j -> unread l1 = drop j (unread l) ->
  same_mem m1 (write_bytes m (entry_addr e)
    (take i (buffered (st_sockets st p)) ++ take j (unread l))) ->
  rq_block_offset e1 = rq_block_offset e ->
  let s := st_sockets st p in
  let st' := set_app st (app_index (so_identifier s)) m1 in
  let s1 := set_recv_queue_buffer (set_recv_buffer s bb1) (<[ix := e1]> (so_recv_queue_buffer s)) in
  let st1 := enqueue_in_cqueue
    (set_socket st' p (set_recv_queue s1 (ring_buffer_erase_first (so_recv_queue s1)).2)) p
    (recv_result st' (rq_block_offset e1)) in
  recv_stepped p st st1 l l1 e es i j.
Proof.
  intros Hwf Hfut Happ Hq Hsize Hpeek Hbwf Hbend Hbb Hl1 Hack Hun Hmem Hoff s st' s1 st1.
  pose proof Hwf as (_ & Hcq & _ & _ & Hrq & _). fold s in Hrq, Hpeek, Hq, Hcq.
  pose proof (ring_buffer_erase_first_spec _ (<[ix := e1]> (so_recv_queue_buffer s)) Hrq) as He.
  change (so_recv_queue s1) with (so_recv_queue s) in st1.
  destruct (ring_buffer_erase_first (so_recv_queue s)) as [ok rq] eqn:Herase.
  destruct He as (Hrqwf & Hrqend & _ & _ & Hrqc). simpl in st1.
  set (st2 := set_socket st' p (set_recv_queue s1 rq)) in *.
  assert (st_sockets st2 p = set_recv_queue s1 rq) as Hs2 by apply set_socket_eq.
  assert (recv_frame p st st2) as Hf2.
  { apply set_recv_frame; [|by split].
    etrans; [by apply (set_recv_buffer_kept s bb1)|].
    etrans; [by apply set_recv_queue_buffer_kept|].
    apply set_recv_queue_kept. by intros _. }
  destruct (enqueue_socket_frame st2 p (recv_result st' (rq_block_offset e1)))
    as (Hfr & Hrq1 & Hrqb1 & Hb1). fold st1 in Hfr, Hrq1, Hrqb1, Hb1.
  rewrite Hs2 in Hrq1, Hrqb1, Hb1. simpl in Hrq1, Hrqb1, Hb1.
  split.
  - etrans; [exact Hf2|apply enqueue_recv_frame].
  - done.
  - done.
  - unfold buffered. rewrite Hb1, (sf_array _ _ Hfr), Hs2. exact Hbb.
  - done.
  - exists m, m1. split_and!; [done| |exact Hmem].
    assert (st_apps st1 = st_apps st2) as ->.
    { unfold st1, enqueue_in_cqueue. by destruct (ring_buffer_put _ _ _) as [[[] ?] ?]. }
    simpl. apply arr_insert_eq.
  - rewrite decide_True by done. unfold rq_list. rewrite Hrq1, Hrqb1, Hrqc.
    destruct (ring_buffer_peek_some _ (so_recv_queue_buffer s) ix Hrq Hpeek) as [-> _].
    change 0 with (Z.of_nat 0). rewrite rb_contents_store; [|done|].
    + fold (rq_list s). by rewrite Hq.
    + fold (rq_list s). rewrite Hq. simpl. lia.
  - rewrite decide_True by done.
    pose proof (replied_one recv_reply st2 p (recv_result st' (rq_block_offset e1))) as Hr.
    rewrite Hs2 in Hr. specialize (Hr Hcq Hfut).
    change (replied recv_reply (set_recv_queue s1 rq)) with (replied recv_reply s) in Hr.
    replace (recv_done e) with (recv_reply (recv_result st' (rq_block_offset e1))); [exact Hr|].
    unfold recv_reply, recv_result, recv_done. simpl. by rewrite Hoff.
Qed.

Lemma recv_step_partial st p m m1 bb1 ix e es l l1 i j :
  socket_wf (st_sockets st p) -> futex_ok (st_sockets st p) ->
  st_apps st (app_index (so_identifier (st_sockets st p))) = Some m ->
  rq_list (st_sockets st p) = e :: es -> rq_size e <> Z.of_nat (i + j) ->
  ring_buffer_peek (so_recv_queue (st_sockets st p)) = Some ix ->
  bb_wf bb1 -> bb_end bb1 = bb_end (so_recv_buffer (st_sockets st p)) ->
  bb_contents bb1 (so_recv_buffer_array (st_sockets st p)) =
    drop i (buffered (st_sockets st p)) ->
  locals_ok l1 -> rl_ackable l1 = rl_ackable l + Z.of_nat j -> unread l1 = drop j (unread l) ->
  same_mem m1 (write_bytes m (entry_addr e)
    (take i (buffered (st_sockets st p)) ++ take j (unread l))) ->
  let s := st_sockets st p in
  let st' := set_app st (app_index (so_identifier s)) m1 in
  let s1 := set_recv_queue_buffer (set_recv_buffer s bb1)
    (<[ix := entry_advance e (Z.of_nat (i + j))]> (so_recv_queue_buffer s)) in
  recv_stepped p st (set_socket st' p s1) l l1 e es i j.
Proof.
  intros Hwf Hfut Happ Hq Hsize Hpeek Hbwf Hbend Hbb Hl1 Hack Hun Hmem s st' s1.
  pose proof Hwf as (_ & Hcq & _ & _ & Hrq & _). fold s in Hrq, Hpeek, Hq, Hcq.
  split; try done.
  - apply set_recv_frame; [|by split].
    etrans; [by apply (set_recv_buffer_kept s bb1)|by apply set_recv_queue_buffer_kept].
  - by rewrite set_socket_eq.
  - exists m, m1. split_and!; [done| |exact Hmem]. simpl. apply arr_insert_eq.
  - rewrite decide_False by done. rewrite set_socket_eq. unfold rq_list. simpl.
    destruct (ring_buffer_peek_some _ (so_recv_queue_buffer s) ix Hrq Hpeek) as [-> _].
    change 0 with (Z.of_nat 0). rewrite rb_contents_store; [|done|].
    + fold (rq_list s). by rewrite Hq.
    + fold (rq_list s). rewrite Hq. simpl. lia.
  - rewrite decide_False by done. rewrite set_socket_eq.
    apply replied_nil; try done. by apply cq_room_nonneg.
Qed.

Lemma entry_advance_advance e i j :
  entry_advance (entry_advance e i) j = entry_advance e (i + j).
Proof. unfold entry_advance. simpl. f_equal; lia. Qed.

(** Taking from the buffer: nothing if it is known to be empty. *)
Lemma recv_take_buffer s m e empty :
  socket_wf s -> entry_ok e -> (empty = true -> buffered s = []) ->
  let i := Nat.min (Z.to_nat (rq_size e)) (length (buffered s)) in
  exists empty1 bb1 m1,
    (if empty then (u16 (rq_size e), empty, so_recv_buffer s, m, e)
     else
       let '(n, recv_buffer, app, entry) :=
         pop_from_buffer s m (shm_data_get_block_ptr (i64 (rq_block_offset e))) e
           (u16 (rq_size e)) in
       if 0 <? n then (u16 (u16 (rq_size e) - n), empty, recv_buffer, app, entry)
       else (u16 (rq_size e), true, recv_buffer, app, entry)) =
    (rq_size e - Z.of_nat i, empty1, bb1, m1, entry_advance e (Z.of_nat i)) /\
    (empty1 = true -> drop i (buffered s) = []) /\ (buffered s = [] -> empty1 = true) /\
    bb_wf bb1 /\ bb_end bb1 = bb_end (so_recv_buffer s) /\
    bb_contents bb1 (so_recv_buffer_array s) = drop i (buffered s) /\
    same_mem m1 (write_bytes m (entry_addr e) (take i (buffered s))).
Proof.
  intros (_ & _ & _ & _ & _ & _ & Hbb) (Hsz & Hd & Hds) Hempty i.
  assert (i = Nat.min (Z.to_nat (rq_size e)) (length (buffered s))) as Hi by done. clearbody i.
  rewrite (u16_small (rq_size e)) by lia. destruct empty.
  - rewrite Hempty in Hi |- * by done. simpl in Hi. replace i with 0%nat by lia.
    exists true, (so_recv_buffer s), m. rewrite entry_advance_0, Z.sub_0_r.
    split_and!; try done; [by apply Hempty|by rewrite write_bytes_nil].
  - destruct (pop_from_buffer_spec s m e (rq_size e) Hbb) as (bb1 & m1 & -> & Hbw & Hbe & Hbc & Hm);
      [lia..|].
    replace (Z.min (rq_size e) (Z.of_nat (length (buffered s)))) with (Z.of_nat i) in * by lia.
    rewrite Nat2Z.id in Hbc, Hm.
    destruct (Z.ltb_spec 0 (Z.of_nat i)).
    + exists false, bb1, m1. rewrite u16_small by lia. split_and!; try done.
      intros Hb. rewrite Hb in Hi. simpl in Hi. lia.
    + exists true, bb1, m1. replace i with 0%nat in * by lia.
      assert (buffered s = []) as Hb by (apply length_zero_iff_nil; lia).
      rewrite Z.sub_0_r. split_and!; done.
Qed.

Lemma recv_match_step fuel st p l empty e es m :
  let s := st_sockets st p in
  socket_wf s -> futex_ok s -> st_apps st (app_index (so_identifier s)) = Some m ->
  rq_list s = e :: es -> entry_ok e -> locals_ok l -> (empty = true -> buffered s = []) ->
  0 < rl_available l \/ empty = false ->
  let i := Nat.min (Z.to_nat (rq_size e)) (length (buffered s)) in
  let j := Nat.min (Z.to_nat (rq_size e) - i) (length (unread l)) in
  exists st1 l1 empty1,
    recv_match_loop (S fuel) st p l empty = recv_match_loop fuel st1 p l1 empty1 /\
    recv_stepped p st st1 l l1 e es i j /\
    (empty1 = true -> drop i (buffered s) = []) /\ (buffered s = [] -> empty1 = true).
Proof.
  intros s Hwf Hfut Happ Hq He Hl Hempty Hgo i j. pose proof Hwf as (_ & _ & _ & _ & Hrq & _).
  cbn [recv_match_loop]. fold s.
  destruct (ring_buffer_peek (so_recv_queue s)) as [ix|] eqn:Hpeek.
  2: { pose proof (ring_buffer_peek_none _ (so_recv_queue_buffer s) Hrq Hpeek) as Hn.
       unfold rq_list in Hq. congruence. }
  destruct (ring_buffer_peek_some _ (so_recv_queue_buffer s) ix Hrq Hpeek) as [_ Hix].
  fold (rq_list s) in Hix. rewrite Hq in Hix. injection Hix as Hix.
  assert ((0 <? rl_available l) || negb empty = true) as ->.
  { destruct Hgo as [?| ->]; [|apply orb_true_r]. by rewrite (proj2 (Z.ltb_lt _ _)). }
  rewrite Happ. cbn [deref mbind outcome_bind]. rewrite <- Hix.
  destruct (recv_take_buffer s m e empty Hwf He Hempty)
    as (empty1 & bb1 & m1 & -> & Hem & Hem2 & Hbw & Hbe & Hbc & Hm1).
  fold i in Hem, Hbc, Hm1 |- *. destruct Hl as (Hl1 & Hl2 & Hav & Hl3 & Hl4).
  destruct He as (Hsz & Hd & Hds).
  destruct (recv_copy_loop_spec (rl_next_pbuf l) (rl_offset l) (rl_available l) (rl_ackable l)
    (rq_size e - Z.of_nat i) m1 (entry_advance e (Z.of_nat i)))
    as (l1 & m2 & Hcopy & Hn1 & Hn2 & Hn3 & Hn4 & Hn5 & Hm2); simpl; try done; try lia.
  change (rq_block_offset (entry_advance e (Z.of_nat i))) with (rq_block_offset e) in Hcopy.
  fold (unread l) in Hav, Hn3, Hm2.
  replace (Z.min (rq_size e - Z.of_nat i) (rl_available l)) with (Z.of_nat j) in * by lia.
  rewrite Nat2Z.id in Hn3, Hm2. fold (unread l1) in Hn3.
  rewrite entry_advance_advance, <- Nat2Z.inj_add in Hcopy. rewrite Hcopy.
  assert (locals_ok l1) as Hl1'.
  { unfold locals_ok. rewrite Hn3, length_drop. split_and!; try done; lia. }
  assert (same_mem m2 (write_bytes m (entry_addr e) (take i (buffered s) ++ take j (unread l))))
    as Hmem.
  { rewrite Hm2, Hm1. replace (entry_addr (entry_advance e (Z.of_nat i))) with
      (entry_addr e + Z.of_nat (length (take i (buffered s)))).
    - apply write_bytes_app.
    - rewrite length_take. unfold entry_addr. simpl. lia. }
  destruct (Z.ltb_spec (rl_available l) (rq_size e - Z.of_nat i)); cbn [negb].
  - do 3 eexists. split; [done|]. split; [|done].
    apply (recv_step_partial _ _ m); try done. lia.
  - pose proof (recv_step_complete st p m m2 bb1 ix e es (entry_advance e (Z.of_nat (i + j)))
      l l1 i j Hwf Hfut Happ Hq ltac:(lia) Hpeek Hbw Hbe Hbc Hl1' Hn5 Hn3 Hmem eq_refl) as Hst.
    cbv zeta in Hst. fold s in Hst. change (so_recv_queue (set_recv_queue_buffer _ _))
      with (so_recv_queue s) in Hst |- *.
    destruct (ring_buffer_erase_first (so_recv_queue s)) as [ok rq]. simpl in Hst.
    do 3 eexists. split; [done|]. split; [exact Hst|done].
Qed.

(** What the whole loop does. *)
Record recv_looped (p : Z) st st' l l' (f : filled) : Prop := RecvLooped {
  rp_frame : recv_frame p st st';
  rp_locals : locals_ok l';
  rp_consumed : exists i j, buffered (st_sockets st' p) = drop i (buffered (st_sockets st p)) /\
    unread l' = drop j (unread l) /\ rl_ackable l' = rl_ackable l + Z.of_nat j /\
    (j <= length (unread l))%nat;
  rp_left : buffered (st_sockets st' p) ++ unread l' = fl_left f;
  rp_queue : rq_list (st_sockets st' p) = fl_entries f;
  rp_mem : exists m m',
    st_apps st (app_index (so_identifier (st_sockets st p))) = Some m /\
    st_apps st' (app_index (so_identifier (st_sockets st p))) = Some m' /\
    same_mem m' (write_all m (fl_writes f));
  rp_replies : replied recv_reply (st_sockets st p) (st_sockets st' p)
    (recv_done <$> fl_complete f) }.


(** How many times the loop may test its condition. *)
Definition loop_steps (es : list pifus_recv_queue_entry) (stream : list Z) (empty : bool) : nat :=
  match stream with
  | [] => if empty then 1 else 2
  | _ => length es + 2
  end.

(** A socket ready to receive. *)
Definition recv_ready s : Prop :=
  socket_wf s /\ futex_ok s /\ Forall entry_ok (rq_list s).

(** Nothing to do: the queue or the stream is empty. *)
Lemma recv_looped_idle p st l m f :
  recv_ready (st_sockets st p) -> locals_ok l ->
  st_apps st (app_index (so_identifier (st_sockets st p))) = Some m ->
  f = Filled [] (rq_list (st_sockets st p)) (buffered (st_sockets st p) ++ unread l) [] ->
  recv_looped p st st l l f.
Proof.
  intros (Hwf & Hfut & _) Hl Hm ->. split; try done.
  - exists 0%nat, 0%nat. rewrite !drop_0. split_and!; try done; lia.
  - by exists m, m.
  - apply replied_nil; try done. by apply cq_room_nonneg.
Qed.

Lemma entry_ok_advance e k :
  entry_ok e -> 0 <= k < rq_size e -> entry_ok (entry_advance e k).
Proof. intros (? & ? & ?) ?. unfold entry_ok. simpl. lia. Qed.

(** After an iteration the socket is still ready. *)
Lemma recv_stepped_ready p st st1 l l1 e es (i j : nat) :
  recv_ready (st_sockets st p) -> rq_list (st_sockets st p) = e :: es ->
  Z.of_nat (i + j) <= rq_size e -> recv_stepped p st st1 l l1 e es i j ->
  recv_ready (st_sockets st1 p).
Proof.
  intros (Hwf & _ & Hes) Hq Hij Hst. destruct (rf_kept _ _ _ (rs_frame _ _ _ _ _ _ _ _ _ Hst))
    as [_ _ _ _ Hk]. destruct (Hk p) as [Hkp _]. split_and!.
  - by apply (kept_wf _ _ Hkp).
  - eapply replied_futex, (rs_replies _ _ _ _ _ _ _ _ _ Hst).
  - rewrite (rs_queue _ _ _ _ _ _ _ _ _ Hst). rewrite Hq in Hes.
    apply Forall_cons in Hes as [He Hes]. case_decide; [done|].
    constructor; [|done]. apply entry_ok_advance; [done|lia].
Qed.

(** One iteration, then the rest of the loop. *)
Lemma recv_looped_step p st st1 st' l l1 l' e es (i j : nat) (f f1 : filled) :
  recv_ready (st_sockets st p) ->
  recv_stepped p st st1 l l1 e es i j -> recv_looped p st1 st' l1 l' f1 ->
  let b := buffered (st_sockets st p) in
  (j <= length (unread l))%nat ->
  fl_complete f = (if decide (rq_size e = Z.of_nat (i + j)) then [e] else []) ++ fl_complete f1 ->
  fl_entries f = fl_entries f1 -> fl_left f = fl_left f1 ->
  (forall m, same_mem (write_all m (fl_writes f))
     (write_all (write_bytes m (entry_addr e) (take i b ++ take j (unread l))) (fl_writes f1))) ->
  recv_looped p st st' l l' f.
Proof.
  intros (Hwf & _ & _) [Hf1 _ Ha1 Hb1 Hu1 Hm1 _ Hr1] [Hf2 Hl2 Hc2 Hlf2 Hq2 Hm2 Hr2] b Hj Hc He Hl Hw.
  pose proof (cb_kept_identifier _ _ p (rf_kept _ _ _ Hf1)) as Hid.
  split; [by etrans|done| |congruence|congruence| |].
  - destruct Hc2 as (i2 & j2 & -> & -> & -> & Hj2). rewrite Hb1, Hu1, Ha1, !drop_drop.
    rewrite Hu1, length_drop in Hj2. do 2 eexists. split_and!; [done..| |]; [lia|]; lia.
  - destruct Hm1 as (m & m1 & Hm & Hm1 & Hs1). destruct Hm2 as (m1' & m' & Hm1' & Hm' & Hs2).
    rewrite Hid in Hm1', Hm'. assert (m1' = m1) as -> by congruence.
    exists m, m'. split_and!; [done..|]. by rewrite Hs2, Hs1, Hw.
  - rewrite Hc, fmap_app. eapply replied_app; [by apply cq_room_nonneg| |exact Hr2].
    by case_decide.
Qed.

(** No receive, or no data. *)
Lemma recv_match_loop_idle fuel st p l empty m :
  let s := st_sockets st p in
  recv_ready s -> st_apps st (app_index (so_identifier s)) = Some m -> locals_ok l ->
  rq_list s = [] \/ (rl_available l <= 0 /\ empty = true /\ buffered s = []) ->
  recv_match_loop (S fuel) st p l empty = Ret (l, st) /\
  recv_looped p st st l l (fill (rq_list s) (buffered s ++ unread l)).
Proof.
  intros s Hready Hm Hl [Hq|(Hav & -> & Hb)]; pose proof Hready as ((_ & _ & _ & _ & Hrq & _) & _);
    cbn [recv_match_loop]; fold s.
  - destruct (ring_buffer_peek (so_recv_queue s)) as [ix|] eqn:Hp.
    { destruct (ring_buffer_peek_some _ (so_recv_queue_buffer s) ix Hrq Hp) as [_ Hx].
      fold (rq_list s) in Hx. by rewrite Hq in Hx. }
    split; [done|]. eapply recv_looped_idle; [done..|]. fold s. by rewrite Hq.
  - pose proof Hl as (_ & _ & Hl3 & _). assert (unread l = []) as Hu by (apply length_zero_iff_nil; lia).
    rewrite Hb, Hu, fill_nil.
    assert ((0 <? rl_available l) || negb true = false) as ->
      by (rewrite orb_false_r; apply Z.ltb_ge; lia).
    split; [by destruct (ring_buffer_peek _)|]. eapply recv_looped_idle; [done..|]. fold s. by rewrite Hb, Hu.
Qed.

(** An iteration and the ones after it fill the receives from one stream. *)
Lemma recv_looped_fill p st st1 st' l l1 l' e es (i j : nat) stream :
  recv_ready (st_sockets st p) -> recv_stepped p st st1 l l1 e es i j ->
  (j <= length (unread l))%nat -> 0 < rq_size e ->
  take i (buffered (st_sockets st p)) ++ take j (unread l) = take (Z.to_nat (rq_size e)) stream ->
  (i + j = Nat.min (Z.to_nat (rq_size e)) (length stream))%nat ->
  recv_looped p st1 st' l1 l' (fill (rq_list (st_sockets st1 p)) (drop (Z.to_nat (rq_size e)) stream)) ->
  recv_looped p st st' l l' (fill (e :: es) stream).
Proof.
  intros Hready Hst Hj Hsz Htk Hij Hlp. pose proof (rs_queue _ _ _ _ _ _ _ _ _ Hst) as Hq1.
  rewrite Hq1 in Hlp. destruct stream as [|x stream].
  { (* the stream was empty *)
    rewrite drop_nil, fill_nil in Hlp. cbn [length] in Hij. rewrite decide_False in Hlp by lia.
    assert ((i + j)%nat = 0%nat) as H0 by lia. rewrite H0, entry_advance_0 in Hlp.
    eapply recv_looped_step; [exact Hready|exact Hst|exact Hlp|exact Hj|..]; try done.
    - simpl. by rewrite decide_False by lia.
    - intros m'. rewrite Htk, take_nil. simpl. by rewrite write_bytes_nil. }
  cbn [fill]. destruct (Nat.leb_spec (Z.to_nat (rq_size e)) (length (x :: stream))) as [Hle'|Hgt].
  - (* the receive is complete *)
    rewrite decide_True in Hlp by lia.
    eapply recv_looped_step; [exact Hready|exact Hst|exact Hlp|exact Hj|..]; try done.
    + simpl. by rewrite decide_True by lia.
    + intros m'. by rewrite Htk.
  - (* the stream ends in it *)
    rewrite drop_ge, fill_nil in Hlp by lia. rewrite decide_False in Hlp by lia.
    eapply recv_looped_step; [exact Hready|exact Hst|exact Hlp|exact Hj|..]; try done.
    + simpl. by rewrite decide_False by lia.
    + cbn [fl_entries]. rewrite Hij, Nat.min_r by lia. done.
    + intros m'. rewrite Htk, take_ge by lia. done.
Qed.

Lemma recv_match_loop_spec fuel st p l empty m :
  let s := st_sockets st p in
  recv_ready s -> st_apps st (app_index (so_identifier s)) = Some m -> locals_ok l ->
  (empty = true -> buffered s = []) ->
  (loop_steps (rq_list s) (buffered s ++ unread l) empty <= fuel)%nat ->
  exists l' st', recv_match_loop fuel st p l empty = Ret (l', st') /\
    recv_looped p st st' l l' (fill (rq_list s) (buffered s ++ unread l)).
Proof.
  revert st l empty m. induction fuel as [|fuel IH]; intros st l empty m s Hready Hm Hl Hem Hfuel.
  { unfold loop_steps in Hfuel. destruct (_ ++ _); [destruct empty|]; simpl in Hfuel; lia. }
  destruct (decide (rq_list s = [] \/ (rl_available l <= 0 /\ empty = true))) as [Hidle|Hgo].
  { do 2 eexists. apply recv_match_loop_idle with m; [done..|]. destruct Hidle as [|[? Ht]]; auto. }
  pose proof Hready as (Hwf & Hfut & Hes). destruct (rq_list s) as [|e es] eqn:Hq; [tauto|].
  apply Forall_cons in Hes as [He Hes].
  destruct (recv_match_step fuel st p l empty e es m Hwf Hfut Hm Hq He Hl Hem)
    as (st1 & l1 & empty1 & Heq & Hst & Hem1 & Hem2).
  { destruct empty; [left; destruct (decide (0 < rl_available l)); [done|]|by right].
    exfalso. apply Hgo. right. split; [lia|done]. }
  fold s in Heq, Hst, Hem1, Hem2. rewrite Heq.
  set (i := Nat.min _ (length (buffered s))) in *.
  set (j := Nat.min _ (length (unread l))) in *.
  destruct (take_two (buffered s) (unread l) (Z.to_nat (rq_size e))) as (Htk & Hdr & Hij).
  fold i in Htk, Hdr, Hij. fold j in Htk, Hdr, Hij.
  assert (j <= length (unread l))%nat as Hj by lia. clearbody i j.
  destruct He as (Hsz & _).
  assert (Z.of_nat (i + j) <= rq_size e) as Hle by (rewrite Hij; lia).
  pose proof (recv_stepped_ready _ _ _ _ _ _ _ _ _ Hready Hq Hle Hst) as Hready1.
  pose proof Hst as [Hf1 Hl1 _ Hb1 Hu1 (m0 & m1 & _ & Hm1 & _) Hq1 _].
  rewrite <- (cb_kept_identifier _ _ p (rf_kept _ _ _ Hf1)) in Hm1.
  remember (buffered s ++ unread l) as stream eqn:Hstream.
  assert (buffered (st_sockets st1 p) ++ unread l1 = drop (Z.to_nat (rq_size e)) stream) as Hs1
    by (by rewrite Hb1, Hu1).
  destruct (IH st1 l1 empty1 m1 Hready1 Hm1 Hl1) as (l' & st' & Heq' & Hlp).
  { intros Ht. rewrite Hb1. by apply Hem1. }
  { rewrite Hs1, Hq1. unfold loop_steps in Hfuel |- *.
    destruct stream as [|x stream'].
    - rewrite drop_nil. symmetry in Hstream. apply app_nil in Hstream as [Hb Hu].
      rewrite (Hem2 Hb). destruct empty; [|lia]. destruct Hgo. right. split; [|done].
      destruct Hl as (_ & _ & -> & _). by rewrite Hu.
    - case_decide as Hd.
      + destruct (drop (Z.to_nat (rq_size e)) _); [destruct empty1|]; simpl in Hfuel; lia.
      + rewrite drop_ge by lia. destruct empty1; simpl in Hfuel; lia. }
  exists l', st'. split; [exact Heq'|]. rewrite Hs1 in Hlp.
  eapply recv_looped_fill; [exact Hready|exact Hst|exact Hj|lia|exact Htk|exact Hij|exact Hlp].
Qed.
End loop.

(** ** Buffering the rest *)

Lemma recv_buffer_loop_spec q offset available ackable bb array :
  pbuf_wf q -> offset_ok q offset ->
  available = Z.of_nat (length (rest_bytes q offset)) -> available < 65536 ->
  0 <= ackable -> ackable + available < 65536 -> bb_wf bb ->
  let k := Z.min available (bb_free bb) in
  exists bb' array',
    recv_buffer_loop q offset available ackable bb array =
      (bb', array', available - k, ackable + k) /\
    bb_wf bb' /\ bb_end bb' = bb_end bb /\ bb_free bb' = bb_free bb - k /\
    bb_contents bb' array' = bb_contents bb array ++ take (Z.to_nat k) (rest_bytes q offset).
Proof.
  revert offset available ackable bb array.
  induction q as [|p q IH]; intros offset available ackable bb array Hwf Ho Hav Hlt Hac Haa Hbb k;
    assert (k = Z.min available (bb_free bb)) as Hk by done; clearbody k;
    pose proof (bb_free_bounds _ Hbb) as Hfree.
  - rewrite rest_bytes_nil in *. cbn [length] in Hav. replace k with 0 by lia.
    exists bb, array. cbn [recv_buffer_loop]. rewrite Z.sub_0_r, Z.add_0_r, app_nil_r.
    split_and!; try done. lia.
  - pose proof (pbuf_len_bound _ _ Hwf). pose proof Hwf as (_ & _ & _ & Hq). simpl in Ho.
    cbn [recv_buffer_loop]. destruct (Z.ltb_spec 0 available).
    2: { replace k with 0 by lia. exists bb, array. rewrite Z.sub_0_r, Z.add_0_r, app_nil_r.
         split_and!; try done. lia. }
    rewrite rest_bytes_cons in Hav |- * by done. rewrite length_app, length_slice in Hav.
    set (len := pb_len p - offset) in *. rewrite (u16_small len) by lia.
    destruct (byte_buffer_add_spec bb array (pb_payload p) offset len Hbb ltac:(lia))
      as (bb1 & array1 & -> & Hw1 & He1 & Hf1 & Hc1 & _).
    destruct (Z.ltb_spec (Z.min len (bb_free bb)) len).
    + (* the buffer is full *)
      replace k with (Z.min len (bb_free bb)) by lia. exists bb1, array1.
      rewrite !u16_small by lia. split_and!; try done. rewrite Hc1. f_equal.
      rewrite take_app_le by (rewrite length_slice; lia). rewrite take_slice. f_equal. lia.
    + assert (len <= bb_free bb) by lia.
      replace (Z.min len (bb_free bb)) with len in * by lia. rewrite !u16_small by lia.
      destruct (IH 0 (available - len) (ackable + len) bb1 array1)
        as (bb' & array' & -> & Hw & He & Hf & Hc); rewrite ?rest_bytes_0; try done; try lia.
      { destruct q; [done|]. simpl. pose proof (pbuf_len_bound _ _ Hq). lia. }
      exists bb', array'. rewrite Hf1 in *.
      split; [f_equal; [f_equal|]; lia|]. split_and!; [done|congruence|lia|].
      rewrite Hc, Hc1, <- app_assoc, rest_bytes_0. f_equal.
      rewrite take_app, length_slice, (take_ge (slice _ _ _)) by (rewrite length_slice; lia).
      f_equal. f_equal. lia.
Qed.

(** The buffering step of the callback, whether it is entered or not. *)
Lemma recv_buffering_spec l bb array :
  locals_ok l -> bb_wf bb ->
  let k := Z.min (rl_available l) (bb_free bb) in
  exists bb' array',
    (if 0 <? rl_available l then
       recv_buffer_loop (rl_next_pbuf l) (rl_offset l) (rl_available l) (rl_ackable l) bb array
     else (bb, array, rl_available l, rl_ackable l)) =
      (bb', array', rl_available l - k, rl_ackable l + k) /\
    bb_wf bb' /\ bb_end bb' = bb_end bb /\ bb_free bb' = bb_free bb - k /\
    bb_contents bb' array' = bb_contents bb array ++ take (Z.to_nat k) (unread l).
Proof.
  intros (H1 & H2 & H3 & H4 & H5) Hbb k. pose proof (bb_free_bounds _ Hbb).
  destruct (Z.ltb_spec 0 (rl_available l)).
  - apply recv_buffer_loop_spec; try done. lia.
  - exists bb, array. assert (k = 0) as -> by lia.
    rewrite !Z.sub_0_r, Z.add_0_r, app_nil_r. by split_and!.
Qed.

(** The locals the callback starts with are the data not taken before. *)
Lemma recv_first_locals p0 q offset :
  pbuf_wf (p0 :: q) -> 0 <= offset <= Z.of_nat (length (pbuf_bytes (p0 :: q))) ->
  exists next o n,
    (if 0 <? offset then
       let '(q', out_offset) := pbuf_skip (p0 :: q) offset in
       (u16 (pb_tot_len p0 - offset), q', out_offset)
     else (pb_tot_len p0, p0 :: q, 0)) = (n, next, o) /\
    locals_ok (RecvLocals next o n 0) /\
    unread (RecvLocals next o n 0) = drop (Z.to_nat offset) (pbuf_bytes (p0 :: q)).
Proof.
  intros Hwf Ho. pose proof Hwf as (Hl & Ht & Hb & _).
  pose proof (pbuf_skip_spec (p0 :: q) offset Hwf ltac:(lia)) as Hs.
  pose proof (pbuf_len_bound _ _ Hwf).
  destruct (Z.ltb_spec 0 offset).
  - destruct (pbuf_skip (p0 :: q) offset) as [q' o]. destruct Hs as (Hr & Hw & Hok).
    rewrite u16_small by lia. do 3 eexists. split; [done|]. unfold locals_ok, unread.
    cbn [rl_next_pbuf rl_offset rl_available rl_ackable]. rewrite Hr. unfold rest_bytes.
    rewrite length_drop. split_and!; try done; lia.
  - assert (offset = 0) as -> by lia. do 3 eexists. split; [done|]. unfold locals_ok, unread.
    cbn [rl_next_pbuf rl_offset rl_available rl_ackable]. rewrite rest_bytes_0.
    split_and!; try done; simpl; lia.
Qed.

Lemma fill_entries_ok es stream : Forall entry_ok es -> Forall entry_ok (fl_entries (fill es stream)).
Proof.
  revert stream. induction es as [|e es IH]; intros stream Hes; destruct stream as [|x stream];
    [done..|]. apply Forall_cons in Hes as [He Hes]. cbn [fill].
  destruct (Nat.leb_spec (Z.to_nat (rq_size e)) (length (x :: stream))); [by apply IH|].
  simpl. constructor; [|done]. apply entry_ok_advance; [done|simpl in *; lia].
Qed.

(** ** The callback *)

(** What is left of a chain from an offset. *)
Definition left_from (chain : list pbuf) (offset : Z) : list Z :=
  drop (Z.to_nat offset) (pbuf_bytes chain).

(** The end of the callback: everything was taken and the chain goes back to
    lwIP, or the byte buffer is full and lwIP keeps the chain. *)
Definition recv_ended `{LW : Lwip} (st st' : stack) (p : Z) (tpcb : option Z)
    (chain : list pbuf) (e : Z) (rest : list Z) : Prop :=
  let s := st_sockets st p in let s' := st_sockets st' p in
  let taken n := tcp_recved tpcb n (st_lwip st) in
  (e = ERR_OK /\ buffered s' = rest /\ so_unread_data_offset s' = 0 /\
   st_lwip st' = pbuf_release (taken (Z.of_nat (length (left_from chain (so_unread_data_offset s)))))) \/
  (e = ERR_MEM /\ bb_free (so_recv_buffer s') = 0 /\
   so_unread_data_offset s <= so_unread_data_offset s' < Z.of_nat (length (pbuf_bytes chain)) /\
   buffered s' ++ left_from chain (so_unread_data_offset s') = rest /\
   st_lwip st' = taken (so_unread_data_offset s' - so_unread_data_offset s)).

Section callback.
Context `{LW : Lwip} `{IN : !Indeterminate}.
Implicit Types (st : stack) (s : pifus_socket).

(** The callback after its first loop. *)
Definition recv_finish st (p : Z) (tpcb : option Z) (l : recv_locals) (tot_len : Z) : Z * stack :=
  let s := st_sockets st p in
  let '(recv_buffer, array, len_data_available, total_data_ackable) :=
    if 0 <? rl_available l then
      recv_buffer_loop (rl_next_pbuf l) (rl_offset l) (rl_available l)
        (rl_ackable l) (so_recv_buffer s) (so_recv_buffer_array s)
    else (so_recv_buffer s, so_recv_buffer_array s, rl_available l, rl_ackable l) in
  let s := set_recv_buffer_array (set_recv_buffer s recv_buffer) array in
  let st := set_socket st p s in
  let st := st_set_lwip st (tcp_recved tpcb total_data_ackable (st_lwip st)) in
  if 0 <? len_data_available then
    (ERR_MEM, set_socket st p
      (set_unread_data_offset s (u16 (tot_len - len_data_available))))
  else
    let st := set_socket st p (set_unread_data_offset s 0) in
    (ERR_OK, st_set_lwip st (pbuf_release (st_lwip st))).

Lemma recv_finish_spec st p tpcb l p0 q :
  let s := st_sockets st p in
  pbuf_wf (p0 :: q) -> bb_wf (so_recv_buffer s) -> locals_ok l ->
  0 <= so_unread_data_offset s ->
  so_unread_data_offset s + rl_ackable l + rl_available l = Z.of_nat (length (pbuf_bytes (p0 :: q))) ->
  unread l = left_from (p0 :: q) (so_unread_data_offset s + rl_ackable l) ->
  let '(e, st') := recv_finish st p tpcb l (pb_tot_len p0) in
  recv_ended st st' p tpcb (p0 :: q) e (buffered s ++ unread l) /\
  (exists bb array off, bb_wf bb /\ st_sockets st' p =
     set_unread_data_offset (set_recv_buffer_array (set_recv_buffer s bb) array) off) /\
  (forall x, x <> p -> st_sockets st' x = st_sockets st x) /\ st_apps st' = st_apps st.
Proof.
  intros s Hpb Hwf Hl Hoff Hsum Hun. pose proof Hpb as (_ & Htot & Hlim & _).
  pose proof Hl as (_ & _ & Hav & Hack & _).
  unfold recv_finish. fold s.
  destruct (recv_buffering_spec l (so_recv_buffer s) (so_recv_buffer_array s) Hl Hwf)
    as (bb & array & -> & Hw & _ & Hfree & Hc). pose proof (bb_free_bounds _ Hwf).
  set (k := Z.min _ _) in *. assert (k = Z.min (rl_available l) (bb_free (so_recv_buffer s)))
    as Hk by done. clearbody k. fold (buffered s) in Hc.
  destruct (Z.ltb_spec 0 (rl_available l - k)).
  - split_and!; [| |intros x Hx; simpl; by rewrite !arr_insert_ne|done].
    + right. rewrite !set_socket_eq. cbn [st_lwip set_socket st_set_lwip st_set_sockets].
      cbn [set_unread_data_offset so_unread_data_offset so_recv_buffer set_recv_buffer_array
        set_recv_buffer]. rewrite u16_small by lia.
      fold s. split_and!; [done|lia|lia|lia| |f_equal; lia].
      match goal with |- buffered ?x ++ _ = _ => change (buffered x) with (bb_contents bb array) end.
      rewrite Hc, <- app_assoc.
      f_equal. rewrite <- (take_drop (Z.to_nat k) (unread l)) at 2. f_equal.
      rewrite Hun. unfold left_from. rewrite drop_drop. f_equal. lia.
    + rewrite set_socket_eq. by do 3 eexists.
  - split_and!; [| |intros x Hx; simpl; by rewrite !arr_insert_ne|done].
    + left. cbn [st_lwip set_socket st_set_lwip st_set_sockets st_sockets].
      rewrite arr_insert_eq. split_and!; [done| |done|].
      * match goal with |- buffered ?x = _ => change (buffered x) with (bb_contents bb array) end.
        rewrite Hc, take_ge by lia. done.
      * do 2 f_equal. unfold left_from. rewrite length_drop. fold s. lia.
    + simpl. rewrite arr_insert_eq. by do 3 eexists.
Qed.

Lemma tcp_recv_callback_unfold st p tpcb p0 q :
  tcp_recv_callback st (Some p) tpcb (p0 :: q) ERR_OK =
  let s := st_sockets st p in
  let '(n, next, o) :=
    if 0 <? so_unread_data_offset s then
      let '(q', out_offset) := pbuf_skip (p0 :: q) (so_unread_data_offset s) in
      (u16 (pb_tot_len p0 - so_unread_data_offset s), q', out_offset)
    else (pb_tot_len p0, p0 :: q, 0) in
  '(l, st) ← recv_match_loop recv_match_fuel st p (RecvLocals next o n 0)
               (negb (pifus_byte_buffer_is_empty (so_recv_buffer s) =? 0));
  Ret (recv_finish st p tpcb l (pb_tot_len p0)).
Proof.
  unfold tcp_recv_callback. cbn [Z.eqb ERR_OK]. cbv zeta.
  destruct (if 0 <? _ then _ else _) as [[n next] o].
  destruct (recv_match_loop _ _ _ _ _) as [[l st']| | |]; [|done..].
  cbn [mbind outcome_bind]. unfold recv_finish. cbv zeta.
  destruct (if 0 <? rl_available l then _ else _) as [[[bb array] n'] m].
  by destruct (0 <? n').
Qed.
End callback.

(** C14. What arrives on a connection reaches the receives of the client as one
    stream.  Let the stream be the bytes buffered in the socket followed by
    those of the chain that were not taken before.  The callback returns, and
    it fills the queued receives from the front of the stream in order: the
    bytes are in the blocks the client gave, nothing else of the region is
    written, a receive is reported complete exactly when all of its bytes are
    there, and the one the stream ends in is kept with what it still needs.
    What is left of the stream is buffered in order.  If it fits, lwIP gets the
    chain back and may advertise all that was taken; if it does not, the byte
    buffer is full, lwIP is told to keep the chain, and the offset remembered
    says where the next call has to go on: no byte is lost or taken twice.
    Other sockets and other regions are left alone. *)
Theorem tcp_recv_callback_stream `{LW : Lwip} `{IN : !Indeterminate} (st : stack) (p : Z)
    (tpcb : option Z) (chain : list pbuf) (m : mem) :
  let s := st_sockets st p in
  let f := fill (rq_list s) (buffered s ++ left_from chain (so_unread_data_offset s)) in
  chain <> [] -> pbuf_wf chain ->
  0 <= so_unread_data_offset s <= Z.of_nat (length (pbuf_bytes chain)) ->
  recv_ready s -> st_apps st (app_index (so_identifier s)) = Some m ->
  exists e st' m', tcp_recv_callback st (Some p) tpcb chain ERR_OK = Ret (e, st') /\
    rq_list (st_sockets st' p) = fl_entries f /\
    replied recv_reply s (st_sockets st' p) (recv_done <$> fl_complete f) /\
    st_apps st' (app_index (so_identifier s)) = Some m' /\
    same_mem m' (write_all m (fl_writes f)) /\
    recv_ended st st' p tpcb chain e (fl_left f) /\
    recv_ready (st_sockets st' p) /\
    (forall q, q <> p -> st_sockets st' q = st_sockets st q) /\
    (forall i, i <> app_index (so_identifier s) -> st_apps st' i = st_apps st i).
Proof.
  intros s f Hne Hpb Hoff Hready Hm. destruct chain as [|p0 q]; [done|].
  pose proof Hready as (Hwf & Hfut & Hes). pose proof Hwf as (_ & _ & _ & _ & Hrq & Hrqe & Hbb).
  rewrite tcp_recv_callback_unfold. cbv zeta. fold s.
  destruct (recv_first_locals p0 q (so_unread_data_offset s) Hpb Hoff)
    as (next & o & n & -> & Hl & Hun).
  set (l := RecvLocals next o n 0) in *. fold (left_from (p0 :: q) (so_unread_data_offset s)) in Hun.
  destruct (recv_match_loop_spec recv_match_fuel st p l
    (negb (pifus_byte_buffer_is_empty (so_recv_buffer s) =? 0)) m)
    as (l' & st1 & -> & [Hf Hl' (i & j & _ & Hu1 & Ha1 & Hj) Hleft Hq1 (m0 & m' & Hm0 & Hm' & Hs') Hr1]);
    fold s; try done.
  { rewrite (bb_is_empty_spec _ (so_recv_buffer_array s)) by done.
    by case_bool_decide. }
  { assert (length (rq_list s) + 2 <= recv_match_fuel)%nat as Hfuel.
    { unfold rq_list. pose proof (rb_contents_length (so_recv_queue s) (so_recv_queue_buffer s) Hrq).
      unfold recv_match_fuel, RECV_QUEUE_SIZE in *. pose proof (rb_free_bounds _ Hrq). lia. }
    unfold loop_steps. destruct (buffered s ++ unread l); [|exact Hfuel].
    destruct (negb _); unfold recv_match_fuel; simpl; lia. }
  rewrite Hun in Hleft, Hq1, Hs', Hr1. fold f in Hleft, Hq1, Hs', Hr1.
  assert (m0 = m) as -> by (fold s in Hm0; congruence). cbn [mbind outcome_bind].
  pose proof (sf_unread _ _ (rf_socket _ _ _ Hf)) as Hoff1. fold s in Hoff1.
  pose proof Hl as (_ & _ & Hav & _). pose proof Hl' as (_ & _ & Hav' & _).
  rewrite Hu1, length_drop in Hav'. rewrite Hun in Hav, Hav'. unfold left_from in Hav, Hav'.
  rewrite length_drop in Hav, Hav'. simpl in Ha1.
  pose proof (recv_finish_spec st1 p tpcb l' p0 q Hpb) as Hfin. cbv zeta in Hfin.
  rewrite Hoff1, Hleft in Hfin. rewrite Hun in Hj, Hu1. unfold left_from in Hj.
  rewrite length_drop in Hj.
  destruct (rf_kept _ _ _ Hf) as [_ _ _ _ Hk]. destruct (Hk p) as [Hkp _].
  pose proof (kept_wf _ _ Hkp Hwf) as Hwf1.
  destruct (recv_finish st1 p tpcb l' (pb_tot_len p0)) as [e st'].
  destruct Hfin as (Hend & (bb & array & off & Hbw & Hs1) & Hoth & Happ).
  - apply Hwf1.
  - done.
  - lia.
  - lia.
  - rewrite Hu1, Ha1. unfold left_from. rewrite drop_drop. f_equal. lia.
  - exists e, st', m'. split_and!; [done|by rewrite Hs1|by rewrite Hs1|by rewrite Happ|exact Hs'| | | |].
    + unfold recv_ended in *. fold s. rewrite Hoff1, (rf_lwip _ _ _ Hf) in Hend. exact Hend.
    + rewrite Hs1. split_and!; [|exact (replied_futex _ _ _ _ Hr1)|].
      * unfold socket_wf in *. simpl. tauto.
      * change (Forall entry_ok (rq_list (st_sockets st1 p))). rewrite Hq1.
        by apply fill_entries_ok.
    + intros x Hx. by rewrite Hoth, (rf_others _ _ _ Hf).
    + intros x Hx. by rewrite Happ, (rf_apps _ _ _ Hf).
Qed.

(** The stack of the example with a receive of two bytes waiting. *)
Definition example_receiving : stack :=
  let s := example_socket in
  let '(_, rb, buf) :=
    ring_buffer_put (so_recv_queue s) (so_recv_queue_buffer s) (RecvEntry 2 0 0) in
  set_socket example_stack 0 (set_recv_queue_buffer (set_recv_queue s rb) buf).

Definition example_chain : list pbuf :=
  [Pbuf (fun i => i + 7) 3 1; Pbuf (fun i => i + 8) 2 2].

Lemma tcp_recv_callback_stream_witness :
  exists e st', tcp_recv_callback example_receiving (Some 0) (Some 1) example_chain ERR_OK =
      Ret (e, st') /\
    rq_list (st_sockets st' 0) = [] /\
    cq_list (st_sockets st' 0) <> [] /\ recv_ready (st_sockets st' 0).
Proof.
  destruct (tcp_recv_callback_stream example_receiving 0 (Some 1) example_chain (fun _ => 0))
    as (e & st' & m' & H1 & H2 & (H3 & _) & _ & _ & _ & H4 & _).
  - discriminate.
  - simpl. repeat split; lia.
  - vm_compute. split; discriminate.
  - split; [vm_compute; repeat split; discriminate|]. split; [reflexivity|].
    change (rq_list (st_sockets example_receiving 0)) with [RecvEntry 2 0 0].
    repeat constructor; simpl; lia.
  - reflexivity.
  - exists e, st'. split; [exact H1|]. split; [exact H2|]. split; [|exact H4].
    intros Hc. apply (f_equal (fmap recv_reply)) in Hc. rewrite H3 in Hc. discriminate Hc.
Defined.

(** ** The receive operation *)

(** Receives wait only while nothing is buffered. *)
Definition recv_waits (s : pifus_socket) : Prop := rq_list s <> [] -> buffered s = [].

(** The entry of a receive operation. *)
Definition recv_entry (r : pifus_recv_data) : pifus_recv_queue_entry :=
  RecvEntry (recv_size r) (u64 (recv_block_offset r)) 0.

(** What the operation takes from the buffer. *)
Lemma tx_recv_take s m e :
  bb_wf (so_recv_buffer s) -> entry_ok e -> rq_data_offset e = 0 ->
  let f := fill [e] (buffered s) in
  exists k bb m',
    pop_from_buffer s m (shm_data_get_block_ptr (i64 (rq_block_offset e))) e (u16 (rq_size e)) =
      (k, bb, m', entry_advance e k) /\
    k = Z.min (rq_size e) (Z.of_nat (length (buffered s))) /\ bb_wf bb /\
    bb_contents bb (so_recv_buffer_array s) = fl_left f /\
    same_mem m' (write_all m (fl_writes f)) /\
    (buffered s = [] -> k = 0) /\
    fl_entries f = (if decide (rq_size e = k) then [] else [entry_advance e k]).
Proof.
  intros Hbb (Hsz & Hd & Hds) H0 f. rewrite u16_small by lia.
  destruct (pop_from_buffer_spec s m e (rq_size e) Hbb) as (bb & m' & -> & Hw & _ & Hc & Hm); [lia..|].
  do 3 eexists. split; [done|]. split; [done|]. split; [done|]. rewrite Hc. unfold f.
  destruct (buffered s) as [|x b] eqn:Hb.
  { rewrite fill_nil. simpl. rewrite take_nil, write_bytes_nil in Hm.
    rewrite drop_nil, Z.min_r by lia. rewrite decide_False by lia. by rewrite entry_advance_0. }
  assert (forall k a bs, same_mem (write_all k [(a, bs)]) (write_bytes k a bs)) as Hone by done.
  cbn [fill]. destruct (Nat.leb_spec (Z.to_nat (rq_size e)) (length (x :: b))).
  - rewrite Z.min_l, decide_True by lia. rewrite Z.min_l in Hm by lia.
    split_and!; [done|by rewrite Hm|done|done].
  - rewrite Z.min_r, decide_False by lia. rewrite Z.min_r, Nat2Z.id in Hm by lia.
    rewrite Nat2Z.id, drop_ge by lia. rewrite take_ge in Hm by lia. by split_and!.
Qed.

Lemma set_recv_buffer_same s : set_recv_buffer s (so_recv_buffer s) = s.
Proof. by destruct s. Qed.

(** The first half of the operation, whether or not something is buffered. *)
Definition recv_take `{LW : Lwip} (st : stack) (p : Z) (e : pifus_recv_queue_entry) :
    outcome (bool * pifus_recv_queue_entry * stack) :=
  let s := st_sockets st p in
  if negb (pifus_byte_buffer_is_empty (so_recv_buffer s) =? 0) then Ret (false, e, st)
  else
    app ← deref (st_apps st (app_index (so_identifier s)));
    let '(n, recv_buffer, app, entry) :=
      pop_from_buffer s app (shm_data_get_block_ptr (i64 (rq_block_offset e))) e
        (u16 (rq_size e)) in
    let st := set_app st (app_index (so_identifier s)) app in
    let st := set_socket st p (set_recv_buffer s recv_buffer) in
    Ret ((0 <? n) && (rq_size e =? n), entry, st).

Lemma tx_recv_taken `{LW : Lwip} (st : stack) (p : Z) (m : mem) (e : pifus_recv_queue_entry) :
  let s := st_sockets st p in
  socket_wf s -> entry_ok e -> rq_data_offset e = 0 ->
  st_apps st (app_index (so_identifier s)) = Some m ->
  let f := fill [e] (buffered s) in
  exists k bb m' st',
    recv_take st p e =
    Ret (bool_decide (rq_size e = k), entry_advance e k, st') /\
    fl_entries f = (if decide (rq_size e = k) then [] else [entry_advance e k]) /\
    bb_wf bb /\ bb_contents bb (so_recv_buffer_array s) = fl_left f /\
    (rq_size e = k -> buffered s <> []) /\
    st_sockets st' p = set_recv_buffer s bb /\ st_lwip st' = st_lwip st /\
    st_apps st' (app_index (so_identifier s)) = Some m' /\
    same_mem m' (write_all m (fl_writes f)).
Proof.
  intros s Hwf He H0 Hm f. pose proof Hwf as (_ & _ & _ & _ & _ & _ & Hbb).
  pose proof He as (Hsz & _).
  destruct (tx_recv_take s m e Hbb He H0) as (k & bb & m' & Hpop & Hk & Hw & Hc & Hs & _ & Hes).
  fold f in Hc, Hs, Hes.
  unfold recv_take. fold s.
  rewrite (bb_is_empty_spec _ (so_recv_buffer_array s)) by done. fold (buffered s).
  case_bool_decide as Hb; cbn [int_of_bool Z.eqb negb].
  - unfold f. rewrite Hb, fill_nil. exists 0, (so_recv_buffer s), m, st.
    rewrite bool_decide_false, decide_False, entry_advance_0 by lia.
    split_and!; try done; [lia|]. by rewrite set_recv_buffer_same.
  - rewrite Hm. cbn [deref mbind outcome_bind]. rewrite Hpop. do 4 eexists. split; [|split_and!].
    + do 2 f_equal. f_equal. assert (0 < k).
      { destruct (buffered s); [done|]. simpl in Hk. lia. }
      rewrite (proj2 (Z.ltb_lt _ _)) by done. simpl. apply eq_true_iff_eq.
      by rewrite Z.eqb_eq, bool_decide_eq_true.
    + exact Hes.
    + exact Hw.
    + exact Hc.
    + done.
    + apply set_socket_eq.
    + done.
    + simpl. apply arr_insert_eq.
    + exact Hs.
Qed.

Lemma tx_tcp_recv_unfold `{LW : Lwip} `{IN : !Indeterminate} (st : stack)
    (op : pifus_internal_operation) :
  tx_tcp_recv st op =
  let p := int_socket op in
  let st0 := st_set_lwip st
    (tcp_recv (so_pcb (st_sockets st p)) TcpRecvCallback (st_lwip st)) in
  let e := recv_entry (op_recv (int_operation op)) in
  let r := uninit_result st0 in
  let r := res_set_recv r
    (RecvData (i64 (rq_block_offset e)) (rq_size e) None (recv_data_block_ptr (res_recv r))) in
  '(filled, entry, st) ← recv_take st0 p e;
  if (filled : bool) then Ret (res_set_result_code (res_set_code r TCP_RECV) PIFUS_OK, st)
  else
    let s := st_sockets st p in
    let '(ok, recv_queue, buf) :=
      ring_buffer_put (so_recv_queue s) (so_recv_queue_buffer s) entry in
    if ok then
      Ret (res_set_result_code r PIFUS_ASYNC,
           set_socket st p (set_recv_queue_buffer (set_recv_queue s recv_queue) buf))
    else Ret (res_set_result_code r PIFUS_ERR, st).
Proof. reflexivity. Qed.

(** A receive operation takes what is buffered first. If that is enough, the
    operation is complete at once and the receive queue stays as it is;
    otherwise all that was buffered is in the client's block and the receive
    waits, after those that wait already, for the rest.  The bytes go to the
    block in stream order and nothing else of the region is written; receives
    wait only while nothing is buffered, which the operation preserves.  With a
    full receive queue the operation fails, and what it took from the buffer
    is no longer there. *)
Theorem tx_tcp_recv_fills_or_waits `{LW : Lwip} `{IN : !Indeterminate} (st : stack)
    (op : pifus_internal_operation) (m : mem) :
  let s := st_sockets st (int_socket op) in
  let e := recv_entry (op_recv (int_operation op)) in
  let f := fill [e] (buffered s) in
  socket_wf s -> entry_ok e -> recv_waits s ->
  st_apps st (app_index (so_identifier s)) = Some m ->
  exists r st' m', tx_tcp_recv st op = Ret (r, st') /\
    let s' := st_sockets st' (int_socket op) in
    recv_block_offset (res_recv r) = i64 (rq_block_offset e) /\
    st_lwip st' = tcp_recv (so_pcb s) TcpRecvCallback (st_lwip st) /\
    st_apps st' (app_index (so_identifier s)) = Some m' /\
    same_mem m' (write_all m (fl_writes f)) /\
    buffered s' = fl_left f /\ recv_waits s' /\
    match fl_entries f with
    | [] => res_code r = TCP_RECV /\ res_result_code r = PIFUS_OK /\ rq_list s' = rq_list s
    | waiting =>
        (rb_free (so_recv_queue s) <> 0 -> res_result_code r = PIFUS_ASYNC /\
           rq_list s' = rq_list s ++ waiting) /\
        (rb_free (so_recv_queue s) = 0 -> res_result_code r = PIFUS_ERR /\
           rq_list s' = rq_list s)
    end.
Proof.
  intros s e f Hwf He Hwait Hm. pose proof Hwf as (_ & _ & _ & _ & Hrq & _).
  set (st0 := st_set_lwip st (tcp_recv (so_pcb s) TcpRecvCallback (st_lwip st))).
  destruct (tx_recv_taken st0 (int_socket op) m e Hwf He eq_refl Hm)
    as (k & bb & m' & st1 & Htaken & Hes & Hbw & Hc & Hfull & Hs1 & Hlw & Happ & Hmem).
  change (st_sockets st0 (int_socket op)) with s in *. fold f in Hes, Hc, Hmem.
  rewrite tx_tcp_recv_unfold. cbv zeta. fold s st0 e. rewrite Htaken. cbn [mbind outcome_bind]. rewrite Hes.
  assert (rq_size e <> k -> fl_left f = []) as Hleft.
  { intros Hk. rewrite decide_False in Hes by done. revert Hes. unfold f. simpl.
    destruct (buffered s); [done|]. by destruct (_ <=? _)%nat. }
  case_bool_decide as Hk.
  - do 3 eexists. split; [done|]. rewrite decide_True by done. cbv zeta. rewrite Hs1.
    split_and!; try done. intros Hq. destruct (Hfull Hk). by apply Hwait.
  - rewrite decide_False by done. rewrite Hs1.
    change (so_recv_queue (set_recv_buffer s bb)) with (so_recv_queue s).
    change (so_recv_queue_buffer (set_recv_buffer s bb)) with (so_recv_queue_buffer s).
    destruct (decide (rb_free (so_recv_queue s) = 0)) as [Hz|Hz].
    + rewrite ring_buffer_put_full by done. do 3 eexists. split; [done|]. cbv zeta. rewrite Hs1.
      split_and!; try done. intros _. change (bb_contents bb (so_recv_buffer_array s) = []).
      rewrite Hc. by apply Hleft.
    + destruct (ring_buffer_put_ok (so_recv_queue s) (so_recv_queue_buffer s)
        (entry_advance e k) Hrq) as (-> & _ & _ & Hput); [pose proof (rb_free_bounds _ Hrq); lia|].
      do 3 eexists. split; [done|]. cbv zeta. rewrite set_socket_eq.
      split_and!; try done. intros _. change (bb_contents bb (so_recv_buffer_array s) = []).
      rewrite Hc. by apply Hleft.
Qed.

(** Five bytes are buffered in the socket of the example; six are wanted. *)
Definition example_buffered : stack :=
  let s := example_socket in
  let '(_, bb, array) :=
    pifus_byte_buffer_add (so_recv_buffer s) (so_recv_buffer_array s) (fun i => i) 0 5 in
  set_socket example_stack 0 (set_recv_buffer_array (set_recv_buffer s bb) array).

Definition example_recv_op : pifus_internal_operation :=
  InternalOp (Operation TCP_RECV (BindData 0 0) (ConnectData [] 0) (WriteData 0)
    (RecvData 0 6 None None) (ListenData 0) (AcceptData None None)) 0.

Lemma tx_tcp_recv_fills_or_waits_witness :
  exists r st', tx_tcp_recv example_buffered example_recv_op = Ret (r, st') /\
    res_result_code r = PIFUS_ASYNC /\ buffered (st_sockets st' 0) = [] /\
    rq_list (st_sockets st' 0) = [RecvEntry 1 0 5].
Proof.
  destruct (tx_tcp_recv_fills_or_waits example_buffered example_recv_op (fun _ => 0))
    as (r & st' & m' & H1 & _ & _ & _ & _ & H2 & _ & H3).
  - vm_compute. repeat split; discriminate.
  - repeat split; simpl; lia.
  - intros H. destruct H. reflexivity.
  - reflexivity.
  - exists r, st'. split; [exact H1|].
    change (st_sockets example_buffered (int_socket example_recv_op)) with
      (st_sockets example_buffered 0) in H2, H3.
    vm_compute in H2. change (fl_entries _) with [RecvEntry 1 0 5] in H3.
    destruct H3 as [H3 _]. destruct H3 as [Hr Hq]; [vm_compute; discriminate|].
    split; [exact Hr|]. split; [exact H2|]. etrans; [exact Hq|]. reflexivity.
Defined.
