(* ===== verification/LinkedList.v ===== *)
(** * The list of sockets of a priority thread
      ([lwip/custom/stack/src/list/linked_list.c])

    A circular doubly linked list on the heap.  The heap of nodes is a finite
    map from addresses: touching an address that is not in it (never allocated,
    or freed) is [Undefined].  What [malloc] answers is an argument of the
    operations that call it. *)
From S2P Require Import Prelude.

Section linked_list.
Context {A : Type}.

Record ListNode := Node { element_ : A; pred_ : Z; succ_ : Z }.

Abbreviation nodes := (gmap Z ListNode).

(** [struct _ListData], with the nodes it owns and the elements its cleanup
    function was called for. *)
Record list_data := ListData {
  ld_nodes : nodes;
  size_ : Z;
  iter_round_ : Z;
  head_ : option Z;
  iter_node_ : option Z;
  func_clean_ : bool;
  ld_cleaned : list A }.

Implicit Types (ns : nodes) (self : list_data) (element : A).

Definition ld_set_nodes self ns : list_data :=
  ListData ns (size_ self) (iter_round_ self) (head_ self) (iter_node_ self)
    (func_clean_ self) (ld_cleaned self).
Definition ld_set_size self (n : Z) : list_data :=
  ListData (ld_nodes self) n (iter_round_ self) (head_ self) (iter_node_ self)
    (func_clean_ self) (ld_cleaned self).
Definition ld_set_head self (p : option Z) : list_data :=
  ListData (ld_nodes self) (size_ self) (iter_round_ self) p (iter_node_ self)
    (func_clean_ self) (ld_cleaned self).
Definition ld_set_iter self (round : Z) (p : option Z) : list_data :=
  ListData (ld_nodes self) (size_ self) round (head_ self) p
    (func_clean_ self) (ld_cleaned self).

(** [if (func_clean) func_clean(e)]. *)
Definition clean self (e : A) : list_data :=
  if func_clean_ self then
    ListData (ld_nodes self) (size_ self) (iter_round_ self) (head_ self) (iter_node_ self)
      (func_clean_ self) (ld_cleaned self ++ [e])
  else self.

(** Reading and writing through a pointer to a node, and [free]. *)
Definition load ns (p : Z) : outcome ListNode := deref (ns !! p).
Definition store_element ns (p : Z) (e : A) : outcome nodes :=
  n ← load ns p; Ret (<[p := Node e (pred_ n) (succ_ n)]> ns).
Definition store_pred ns (p q : Z) : outcome nodes :=
  n ← load ns p; Ret (<[p := Node (element_ n) q (succ_ n)]> ns).
Definition store_succ ns (p q : Z) : outcome nodes :=
  n ← load ns p; Ret (<[p := Node (element_ n) (pred_ n) q]> ns).
Definition free_node self (p : Z) : list_data := ld_set_nodes self (delete p (ld_nodes self)).

(** A fresh node with its element; its links are written before they are read. *)
Definition new_node_at ns (p : Z) element : nodes := <[p := Node element p p]> ns.

(** [new_node->pred_ = new_node->succ_ = new_node]. *)
Definition link_alone ns (new_node : Z) : outcome nodes :=
  ns ← store_succ ns new_node new_node;
  store_pred ns new_node new_node.

(** The four assignments that put a node before another. *)
Definition link_before ns (new_node track : Z) : outcome nodes :=
  ns ← store_succ ns new_node track;
  t ← load ns track;
  ns ← store_pred ns new_node (pred_ t);
  t ← load ns track;
  ns ← store_succ ns (pred_ t) new_node;
  store_pred ns track new_node.

(** [while (idx > 0) { track = track->succ_; --idx; }]. *)
Fixpoint list_walk ns (track : Z) (idx : nat) : outcome Z :=
  match idx with
  | O => Ret track
  | S idx => t ← load ns track; list_walk ns (succ_ t) idx
  end.

(** [iter_round_] is not initialised: it is an argument. *)
Definition ListInit (iter_round : Z) : list_data :=
  ListData ∅ 0 iter_round None None false [].

Definition ListPushFront self (malloc : option Z) element : outcome (bool * list_data) :=
  match malloc with
  | None => Ret (false, self)
  | Some new_node =>
      let ns := new_node_at (ld_nodes self) new_node element in
      ns ← match head_ self with
           | None => link_alone ns new_node
           | Some head => link_before ns new_node head
           end;
      let self := ld_set_head (ld_set_nodes self ns) (Some new_node) in
      Ret (true, ld_set_size self (u32 (size_ self + 1)))
  end.

Definition ListPushBack self (malloc : option Z) element : outcome (bool * list_data) :=
  match malloc with
  | None => Ret (false, self)
  | Some new_node =>
      let ns := new_node_at (ld_nodes self) new_node element in
      self ← match head_ self with
             | None =>
                 ns ← link_alone ns new_node;
                 Ret (ld_set_head (ld_set_nodes self ns) (Some new_node))
             | Some head =>
                 ns ← link_before ns new_node head; Ret (ld_set_nodes self ns)
             end;
      Ret (true, ld_set_size self (u32 (size_ self + 1)))
  end.

Definition ListInsert self (idx : Z) (malloc : option Z) element : outcome (bool * list_data) :=
  if size_ self <? idx then Ret (false, self)
  else
    match malloc with
    | None => Ret (false, self)
    | Some new_node =>
        let ns := new_node_at (ld_nodes self) new_node element in
        self ← match head_ self with
               | None =>
                   ns ← link_alone ns new_node;
                   Ret (ld_set_head (ld_set_nodes self ns) (Some new_node))
               | Some head =>
                   let self := if idx =? 0 then ld_set_head self (Some new_node) else self in
                   track ← list_walk ns head (Z.to_nat idx);
                   ns ← link_before ns new_node track; Ret (ld_set_nodes self ns)
               end;
        Ret (true, ld_set_size self (u32 (size_ self + 1)))
    end.

(** Cleaning up and freeing a node that was unlinked. *)
Definition clean_and_free self (p : Z) : outcome list_data :=
  n ← load (ld_nodes self) p;
  Ret (free_node (clean self (element_ n)) p).

Definition ListPopFront self : outcome (bool * list_data) :=
  match head_ self with
  | None => Ret (false, self)
  | Some head =>
      h ← load (ld_nodes self) head;
      self ←
        (if head =? pred_ h then
           self ← clean_and_free self head;
           Ret (ld_set_head self None)
         else
           ns ← store_succ (ld_nodes self) (pred_ h) (succ_ h);
           h ← load ns head;
           ns ← store_pred ns (succ_ h) (pred_ h);
           h ← load ns head;
           let self := ld_set_head (ld_set_nodes self ns) (Some (succ_ h)) in
           clean_and_free self head);
      Ret (true, ld_set_size self (u32 (size_ self - 1)))
  end.

Definition ListPopBack self : outcome (bool * list_data) :=
  match head_ self with
  | None => Ret (false, self)
  | Some head =>
      h ← load (ld_nodes self) head;
      self ←
        (if head =? succ_ h then
           self ← clean_and_free self head;
           Ret (ld_set_head self None)
         else
           let tail := pred_ h in
           t ← load (ld_nodes self) tail;
           ns ← store_succ (ld_nodes self) (pred_ t) head;
           t ← load ns tail;
           ns ← store_pred ns head (pred_ t);
           clean_and_free (ld_set_nodes self ns) tail);
      Ret (true, ld_set_size self (u32 (size_ self - 1)))
  end.

Definition ListRemove self (idx : Z) : outcome (bool * list_data) :=
  let size := size_ self in
  if size <=? idx then Ret (false, self)
  else
    head ← deref (head_ self);
    track ← list_walk (ld_nodes self) head (Z.to_nat idx);
    t ← load (ld_nodes self) track;
    let pred := pred_ t in
    let succ := succ_ t in
    ns ← store_succ (ld_nodes self) pred succ;
    ns ← store_pred ns succ pred;
    let self := ld_set_nodes self ns in
    let self :=
      if size =? 1 then ld_set_head self None
      else if track =? head then ld_set_head self (Some succ) else self in
    self ← clean_and_free self track;
    Ret (true, ld_set_size self (u32 (size - 1))).

(** [if (func_clean) func_clean(p->element_); p->element_ = element]. *)
Definition replace_element self (p : Z) element : outcome list_data :=
  n ← load (ld_nodes self) p;
  let self := clean self (element_ n) in
  ns ← store_element (ld_nodes self) p element;
  Ret (ld_set_nodes self ns).

Definition ListSetFront self element : outcome (bool * list_data) :=
  match head_ self with
  | None => Ret (false, self)
  | Some head => self ← replace_element self head element; Ret (true, self)
  end.

Definition ListSetBack self element : outcome (bool * list_data) :=
  match head_ self with
  | None => Ret (false, self)
  | Some head =>
      h ← load (ld_nodes self) head;
      self ← replace_element self (pred_ h) element; Ret (true, self)
  end.

Definition ListSetAt self (idx : Z) element : outcome (bool * list_data) :=
  if size_ self <=? idx then Ret (false, self)
  else
    head ← deref (head_ self);
    track ← list_walk (ld_nodes self) head (Z.to_nat idx);
    self ← replace_element self track element; Ret (true, self).

(** [None] is the return value [false]. *)
Definition ListGetFront self : outcome (option A) :=
  match head_ self with
  | None => Ret None
  | Some head => h ← load (ld_nodes self) head; Ret (Some (element_ h))
  end.

Definition ListGetBack self : outcome (option A) :=
  match head_ self with
  | None => Ret None
  | Some head =>
      h ← load (ld_nodes self) head;
      t ← load (ld_nodes self) (pred_ h); Ret (Some (element_ t))
  end.

Definition ListGetAt self (idx : Z) : outcome (option A) :=
  if size_ self <=? idx then Ret None
  else
    head ← deref (head_ self);
    track ← list_walk (ld_nodes self) head (Z.to_nat idx);
    t ← load (ld_nodes self) track; Ret (Some (element_ t)).

Definition ListSize self : Z := size_ self.

(** The loop of [ListReverse]; [range] decreases by two. *)
Fixpoint reverse_loop ns (head tail : Z) (range : nat) : outcome nodes :=
  match range with
  | S (S range) =>
      h ← load ns head;
      t ← load ns tail;
      let element_head := element_ h in
      let element_tail := element_ t in
      ns ← store_element ns head element_tail;
      ns ← store_element ns tail element_head;
      h ← load ns head;
      t ← load ns tail;
      reverse_loop ns (succ_ h) (pred_ t) range
  | _ => Ret ns
  end.

Definition ListReverse self : outcome list_data :=
  head ← deref (head_ self);
  h ← load (ld_nodes self) head;
  ns ← reverse_loop (ld_nodes self) head (pred_ h) (Z.to_nat (size_ self));
  Ret (ld_set_nodes self ns).

Definition ListFirst self (is_reverse : bool) : outcome list_data :=
  match head_ self with
  | None => Ret self
  | Some head =>
      h ← load (ld_nodes self) head;
      Ret (ld_set_iter self 0 (Some (if is_reverse then pred_ h else head)))
  end.

Definition ListNext self : outcome (option A * list_data) :=
  let iter_round := iter_round_ self in
  if iter_round =? size_ self then Ret (None, self)
  else
    iter_node ← deref (iter_node_ self);
    n ← load (ld_nodes self) iter_node;
    Ret (Some (element_ n), ld_set_iter self (u32 (iter_round + 1)) (Some (succ_ n))).

Definition ListReverseNext self : outcome (option A * list_data) :=
  let iter_round := iter_round_ self in
  if iter_round =? size_ self then Ret (None, self)
  else
    iter_node ← deref (iter_node_ self);
    n ← load (ld_nodes self) iter_node;
    Ret (Some (element_ n), ld_set_iter self (u32 (iter_round + 1)) (Some (pred_ n))).

Definition ListSetClean self (func : bool) : list_data :=
  ListData (ld_nodes self) (size_ self) (iter_round_ self) (head_ self) (iter_node_ self)
    func (ld_cleaned self).

(** The loop of [ListDeinit], until it is back at the head; [fuel] bounds it. *)
Fixpoint deinit_loop (fuel : nat) self (curr head : Z) : outcome list_data :=
  match fuel with
  | O => NoFuel
  | S fuel =>
      let pred := curr in
      c ← load (ld_nodes self) curr;
      let curr := succ_ c in
      self ← clean_and_free self pred;
      if curr =? head then Ret self else deinit_loop fuel self curr head
  end.

(** The nodes left behind and the elements cleaned up. *)
Definition ListDeinit self : outcome list_data :=
  match head_ self with
  | None => Ret self
  | Some head => deinit_loop (Z.to_nat (size_ self)) self head head
  end.

(** ** The nodes of a circular list *)

Implicit Types l : list (Z * A).

(** The address of the first and of the last node, or a default. *)
Definition hd_addr l (d : Z) : Z := default d (head (l.*1)).
Definition last_addr l (d : Z) : Z := default d (last (l.*1)).

(** The nodes from [l] on, between the addresses [p] and [n]. *)
Fixpoint seg (p : Z) l (n : Z) : nodes :=
  match l with
  | [] => ∅
  | (a, x) :: r => <[a := Node x p (hd_addr r n)]> (seg a r n)
  end.

Definition ring l : nodes := seg (last_addr l 0) l (hd_addr l 0).

Lemma hd_addr_app l1 l2 d : hd_addr (l1 ++ l2) d = hd_addr l1 (hd_addr l2 d).
Proof. by destruct l1. Qed.

Lemma last_addr_snoc l a x d : last_addr (l ++ [(a, x)]) d = a.
Proof. unfold last_addr. rewrite fmap_app. cbn [fmap list_fmap fst]. by rewrite last_snoc. Qed.

Lemma last_addr_cons l a x d : last_addr ((a, x) :: l) d = last_addr l a.
Proof. unfold last_addr. rewrite fmap_cons. by rewrite last_cons; destruct (last l.*1). Qed.

Lemma last_addr_app l1 l2 d : last_addr (l1 ++ l2) d = last_addr l2 (last_addr l1 d).
Proof.
  revert d. induction l1 as [|[a x] l1 IH]; intros d; [done|].
  by rewrite <- app_comm_cons, !last_addr_cons.
Qed.

Lemma seg_none p l n a : a ∉ l.*1 -> seg p l n !! a = None.
Proof.
  revert p. induction l as [|[b x] l IH]; intros p Ha; [done|].
  apply not_elem_of_cons in Ha as [Hne Ha]. cbn [seg]. rewrite lookup_insert_ne by done. by apply IH.
Qed.

Lemma list_seg_app p l1 l2 n :
  seg p (l1 ++ l2) n = seg p l1 (hd_addr l2 n) ∪ seg (last_addr l1 p) l2 n.
Proof.
  revert p. induction l1 as [|[a x] l1 IH]; intros p.
  - simpl. by rewrite left_id_L by apply _.
  - simpl. rewrite IH, last_addr_cons, hd_addr_app. by rewrite insert_union_l.
Qed.

Lemma seg_disjoint p1 p2 l1 l2 n1 n2 :
  NoDup (l1 ++ l2).*1 -> seg p1 l1 n1 ##ₘ seg p2 l2 n2.
Proof.
  rewrite fmap_app, NoDup_app. intros (_ & Hd & _). apply map_disjoint_spec.
  intros a x y H1 H2. destruct (decide (a ∈ l1.*1)) as [Ha|Ha].
  - rewrite seg_none in H2 by (by apply Hd). done.
  - by rewrite seg_none in H1.
Qed.

(** A circular list has no first node. *)
Lemma ring_rotate l1 l2 : NoDup (l1 ++ l2).*1 -> ring (l1 ++ l2) = ring (l2 ++ l1).
Proof.
  intros Hnd. destruct l1 as [|[a x] l1]; [by rewrite app_nil_r|].
  destruct l2 as [|[b y] l2]; [by rewrite app_nil_r|]. unfold ring.
  rewrite (list_seg_app _ (_ :: _) (_ :: _)), (list_seg_app _ (_ :: _) (_ :: _)), !last_addr_app.
  rewrite map_union_comm by (by apply seg_disjoint). f_equal; simpl; by rewrite !last_addr_cons.
Qed.

Lemma ring_first a x r : ring ((a, x) :: r) !! a = Some (Node x (last_addr r a) (hd_addr r a)).
Proof. unfold ring. rewrite last_addr_cons. apply lookup_insert_eq. Qed.

Lemma ring_at l1 a x l2 :
  NoDup (l1 ++ (a, x) :: l2).*1 ->
  ring (l1 ++ (a, x) :: l2) !! a =
    Some (Node x (last_addr (l2 ++ l1) a) (hd_addr (l2 ++ l1) a)).
Proof. intros Hnd. rewrite ring_rotate, <- app_comm_cons by done. apply ring_first. Qed.

(** ** Stores on segments *)

Lemma load_eq ns p nd : ns !! p = Some nd -> load ns p = Ret nd.
Proof. intros H. unfold load. by rewrite H. Qed.

Lemma store_succ_eq ns p v nd :
  ns !! p = Some nd -> store_succ ns p v = Ret (<[p := Node (element_ nd) (pred_ nd) v]> ns).
Proof. intros H. unfold store_succ, load. by rewrite H. Qed.

Lemma store_pred_eq ns p v nd :
  ns !! p = Some nd -> store_pred ns p v = Ret (<[p := Node (element_ nd) v (succ_ nd)]> ns).
Proof. intros H. unfold store_pred, load. by rewrite H. Qed.

Lemma store_succ_frame ns ns' n nd p v :
  n <> p -> store_succ ns p v = Ret ns' -> store_succ (<[n := nd]> ns) p v = Ret (<[n := nd]> ns').
Proof.
  intros Hne. unfold store_succ, load. rewrite lookup_insert_ne by done.
  destruct (ns !! p); [|done]. simpl. intros [= <-]. by rewrite insert_insert_ne.
Qed.

Lemma store_pred_frame ns ns' n nd p v :
  n <> p -> store_pred ns p v = Ret ns' -> store_pred (<[n := nd]> ns) p v = Ret (<[n := nd]> ns').
Proof.
  intros Hne. unfold store_pred, load. rewrite lookup_insert_ne by done.
  destruct (ns !! p); [|done]. simpl. intros [= <-]. by rewrite insert_insert_ne.
Qed.

Lemma store_pred_first p p' a x l n :
  store_pred (seg p ((a, x) :: l) n) a p' = Ret (seg p' ((a, x) :: l) n).
Proof.
  cbn [seg]. erewrite store_pred_eq by apply lookup_insert_eq. by rewrite insert_insert_eq.
Qed.

Lemma last_addr_in l d : l <> [] -> last_addr l d ∈ l.*1.
Proof.
  intros Hne. unfold last_addr. destruct (last l.*1) as [z|] eqn:Hl.
  - apply last_Some in Hl as [l' ->]. set_solver.
  - apply last_None in Hl. by destruct l.
Qed.

Lemma store_succ_last p l n n' d :
  l <> [] -> NoDup l.*1 -> store_succ (seg p l n) (last_addr l d) n' = Ret (seg p l n').
Proof.
  revert p d. induction l as [|[a x] l IH]; intros p d Hne Hnd; [done|].
  apply NoDup_cons in Hnd as [Ha Hnd]. rewrite last_addr_cons. cbn [seg].
  destruct l as [|[b y] l].
  - erewrite store_succ_eq by apply lookup_insert_eq. by rewrite insert_insert_eq.
  - apply store_succ_frame; [|by apply IH]. intros Hb. destruct Ha. change (a ∈ ((b, y) :: l).*1).
    rewrite Hb. by apply last_addr_in.
Qed.

(** ** Linking and unlinking *)

Lemma ring_snoc t x r n e :
  n ∉ ((t, x) :: r).*1 ->
  ring (((t, x) :: r) ++ [(n, e)]) =
  <[n := Node e (last_addr r t) t]> (seg n ((t, x) :: r) n).
Proof.
  intros Hn. unfold ring. rewrite last_addr_snoc, list_seg_app, last_addr_cons.
  change (hd_addr [(n, e)] _) with n. change (hd_addr _ 0) with t.
  change (seg (last_addr r t) [(n, e)] t) with (<[n := Node e (last_addr r t) t]> (∅ : nodes)).
  rewrite <- insert_union_r by (by apply seg_none). by rewrite right_id_L by apply _.
Qed.

Lemma link_before_spec t x r n e :
  NoDup ((t, x) :: r).*1 -> n ∉ ((t, x) :: r).*1 ->
  link_before (new_node_at (ring ((t, x) :: r)) n e) n t = Ret (ring (((t, x) :: r) ++ [(n, e)])).
Proof.
  intros Hnd Hn. assert (n <> t) as Hnt by set_solver. rewrite ring_snoc by done.
  unfold link_before, new_node_at.
  rewrite (store_succ_eq _ _ _ (Node e n n)) by apply lookup_insert_eq.
  cbn [mbind outcome_bind element_ pred_]. rewrite insert_insert_eq.
  assert (forall nd, <[n := nd]> (ring ((t, x) :: r)) !! t =
    Some (Node x (last_addr r t) (hd_addr r t))) as Ht.
  { intros nd. rewrite lookup_insert_ne by done. apply ring_first. }
  rewrite (load_eq _ _ _ (Ht _)). cbn [mbind outcome_bind pred_].
  rewrite (store_pred_eq _ _ _ (Node e n t)) by apply lookup_insert_eq.
  cbn [mbind outcome_bind element_ succ_]. rewrite insert_insert_eq.
  rewrite (load_eq _ _ _ (Ht _)). cbn [mbind outcome_bind pred_].
  unfold ring. rewrite last_addr_cons. change (hd_addr _ 0) with t.
  rewrite (store_succ_frame _ (seg (last_addr r t) ((t, x) :: r) n)).
  - cbn [mbind outcome_bind]. by rewrite (store_pred_frame _ (seg n ((t, x) :: r) n))
      by (done || apply store_pred_first).
  - rewrite <- (last_addr_cons r t x 0). intros Heq. destruct Hn. rewrite Heq.
    by apply last_addr_in.
  - rewrite <- (last_addr_cons r t x 0) at 2. by apply store_succ_last.
Qed.

Lemma link_alone_spec n e :
  link_alone (new_node_at ∅ n e) n = Ret (ring [(n, e)]).
Proof.
  unfold link_alone, new_node_at.
  rewrite (store_succ_eq _ _ _ (Node e n n)) by apply lookup_insert_eq.
  cbn [mbind outcome_bind element_ pred_].
  rewrite (store_pred_eq _ _ _ (Node e n n)) by apply lookup_insert_eq.
  by rewrite !insert_insert_eq.
Qed.

(** The two stores that take the first node out, when there is another. *)
Lemma unlink_spec t x r :
  r <> [] -> NoDup ((t, x) :: r).*1 ->
  let z := last_addr r t in let h := hd_addr r t in
  exists ns, store_succ (ring ((t, x) :: r)) z h = Ret ns /\
    ns !! t = Some (Node x z h) /\ store_pred ns h z = Ret (<[t := Node x z h]> (ring r)).
Proof.
  intros Hr Hnd z h. apply NoDup_cons in Hnd as [Ht Hnd].
  assert (t <> z) as Hz by (intros Heq; destruct Ht; rewrite Heq; by apply last_addr_in).
  exists (<[t := Node x z h]> (seg t r h)). split; [|split].
  - unfold ring. rewrite last_addr_cons. cbn [seg]. apply store_succ_frame; [done|].
    by apply store_succ_last.
  - apply lookup_insert_eq.
  - destruct r as [|[b y] r]; [done|]. apply store_pred_frame; [set_solver|].
    unfold z, h. unfold ring. rewrite !last_addr_cons. apply store_pred_first.
Qed.

Lemma clean_and_free_spec self t x p n r :
  t ∉ r.*1 -> ld_nodes self = <[t := Node x p n]> (ring r) ->
  clean_and_free self t = Ret (ld_set_nodes (clean self x) (ring r)).
Proof.
  intros Ht Hns. unfold clean_and_free, load. rewrite Hns, lookup_insert_eq. simpl.
  unfold free_node. f_equal. replace (ld_nodes (clean self x)) with (ld_nodes self)
    by (unfold clean; by destruct (func_clean_ self)).
  rewrite Hns, delete_insert_id; [done|]. unfold ring. by apply seg_none.
Qed.

(** ** Anywhere in the list *)

Lemma ring_in l a : a ∈ l.*1 -> is_Some (ring l !! a).
Proof.
  intros Ha. unfold ring. generalize (last_addr l 0), (hd_addr l 0). intros p n. revert p.
  induction l as [|[b x] l IH]; intros p; [by apply not_elem_of_nil in Ha|].
  cbn [seg]. destruct (decide (a = b)) as [->|Hne]; [rewrite lookup_insert_eq; by eexists|].
  rewrite lookup_insert_ne by done. apply IH. by apply elem_of_cons in Ha as [|].
Qed.

Lemma nodup_rotate l1 l2 : NoDup (l1 ++ l2).*1 -> NoDup (l2 ++ l1).*1.
Proof. rewrite !fmap_app. by rewrite (Permutation_app_comm l1.*1). Qed.

Lemma link_ring l1 l2 n e :
  l1 ++ l2 <> [] -> NoDup (l1 ++ l2).*1 -> n ∉ (l1 ++ l2).*1 ->
  link_before (new_node_at (ring (l1 ++ l2)) n e) n (hd_addr (l2 ++ l1) 0) =
  Ret (ring (l1 ++ (n, e) :: l2)).
Proof.
  intros Hne Hnd Hn. rewrite ring_rotate by done. apply nodup_rotate in Hnd.
  assert (n ∉ (l2 ++ l1).*1) as Hn' by (rewrite fmap_app in Hn |- *; set_solver).
  assert (ring (l1 ++ (n, e) :: l2) = ring ((l2 ++ l1) ++ [(n, e)])) as ->.
  { rewrite <- app_assoc, (ring_rotate l2); [by rewrite <- app_assoc|].
    rewrite app_assoc, fmap_app. apply NoDup_app. split; [done|]. split; [set_solver|].
    apply NoDup_singleton. }
  destruct (l2 ++ l1) as [|[t x] r] eqn:Heq.
  { apply app_nil in Heq as [-> ->]. done. }
  by apply link_before_spec.
Qed.

Lemma unlink_ring l1 t x l2 :
  NoDup (l1 ++ (t, x) :: l2).*1 ->
  let z := last_addr (l2 ++ l1) t in let h := hd_addr (l2 ++ l1) t in
  (t ∉ (l1 ++ l2).*1) /\
  ring (l1 ++ (t, x) :: l2) !! t = Some (Node x z h) /\
  exists ns, store_succ (ring (l1 ++ (t, x) :: l2)) z h = Ret ns /\
    ns !! t = Some (Node x z h) /\
    store_pred ns h z = Ret (<[t := Node x z h]> (ring (l1 ++ l2))).
Proof.
  intros Hnd z h. pose proof (nodup_rotate _ _ Hnd) as Hnd'. rewrite <- app_comm_cons in Hnd'.
  pose proof Hnd' as Hnd2. apply NoDup_cons in Hnd2 as [Ht Hnd2].
  change (t ∉ (l2 ++ l1).*1) in Ht. change (NoDup (l2 ++ l1).*1) in Hnd2.
  split; [rewrite fmap_app in Ht |- *; set_solver|]. split; [by apply ring_at|].
  rewrite ring_rotate, <- app_comm_cons by done. rewrite (ring_rotate l1 l2) by (by apply nodup_rotate).
  destruct (list_eq_nil_dec (l2 ++ l1)) as [Heq|Hne]; [|by apply unlink_spec].
  unfold z, h. rewrite Heq. clear z h.
  exists (ring [(t, x)]). split; [|split].
  - unfold ring. cbn [seg]. erewrite store_succ_eq by apply lookup_insert_eq.
    by rewrite insert_insert_eq.
  - apply ring_first.
  - unfold ring. cbn [seg]. erewrite store_pred_eq by apply lookup_insert_eq.
    by rewrite insert_insert_eq.
Qed.

Lemma list_walk_ring l0 l1 l2 :
  NoDup (l0 ++ l1 ++ l2).*1 -> l0 ++ l1 ++ l2 <> [] ->
  list_walk (ring (l0 ++ l1 ++ l2)) (hd_addr (l1 ++ l2 ++ l0) 0) (length l1) =
  Ret (hd_addr (l2 ++ l0 ++ l1) 0).
Proof.
  revert l0. induction l1 as [|[a x] l1 IH]; intros l0 Hnd Hne.
  - simpl. by rewrite app_nil_r.
  - cbn [length list_walk]. change (hd_addr _ 0) with a at 1.
    rewrite <- app_comm_cons in Hnd |- *. rewrite (load_eq _ _ _ (ring_at _ _ _ _ Hnd)).
    cbn [mbind outcome_bind succ_].
    specialize (IH (l0 ++ [(a, x)])). rewrite <- app_assoc in IH. cbn [app] in IH.
    replace (hd_addr ((l1 ++ l2) ++ l0) a) with (hd_addr (l1 ++ l2 ++ l0 ++ [(a, x)]) 0).
    + rewrite IH by done. by rewrite <- app_assoc.
    + by rewrite !hd_addr_app.
Qed.

(** A node that is not in the list is not in the way. *)
Lemma list_walk_frame ns n nd p k q :
  ns !! n = None -> list_walk ns p k = Ret q -> list_walk (<[n := nd]> ns) p k = Ret q.
Proof.
  intros Hn. revert p. induction k as [|k IH]; intros p; [done|].
  cbn [list_walk]. unfold load. destruct (ns !! p) as [t|] eqn:Hp; [|done].
  rewrite lookup_insert_ne, Hp by congruence. cbn [deref mbind outcome_bind]. apply IH.
Qed.

(** From the head, to the node at an index. *)
Lemma list_walk_head l1 l2 :
  NoDup (l1 ++ l2).*1 -> l1 ++ l2 <> [] ->
  list_walk (ring (l1 ++ l2)) (hd_addr (l1 ++ l2) 0) (length l1) = Ret (hd_addr (l2 ++ l1) 0).
Proof.
  intros Hnd Hne. pose proof (list_walk_ring [] l1 l2 Hnd Hne) as H.
  simpl in H. by rewrite app_nil_r in H.
Qed.

Lemma store_element_ring l1 a x l2 y :
  NoDup (l1 ++ (a, x) :: l2).*1 ->
  store_element (ring (l1 ++ (a, x) :: l2)) a y = Ret (ring (l1 ++ (a, y) :: l2)).
Proof.
  intros Hnd. assert ((l1 ++ (a, y) :: l2).*1 = (l1 ++ (a, x) :: l2).*1) as Hfst
    by (rewrite !fmap_app; done).
  rewrite (ring_rotate l1 ((a, y) :: l2)) by (by rewrite Hfst).
  rewrite (ring_rotate l1 ((a, x) :: l2)), <- !app_comm_cons by done.
  unfold store_element, load. rewrite ring_first. cbn [deref mbind outcome_bind pred_ succ_].
  unfold ring. rewrite !last_addr_cons. cbn [seg]. by rewrite insert_insert_eq.
Qed.

(** ** The abstract list *)

(** A list, whether removed elements are cleaned up, and those that were. *)
Record list_spec := ListSpec { sp_elems : list A; sp_clean : bool; sp_cleaned : list A }.
Implicit Types (sp : list_spec).

Definition sp_drop sp (es : list A) (e : A) : list_spec :=
  ListSpec es (sp_clean sp) (sp_cleaned sp ++ (if sp_clean sp then [e] else [])).
Definition sp_set sp (es : list A) : list_spec := ListSpec es (sp_clean sp) (sp_cleaned sp).

Inductive list_cmd :=
  | PushFront (malloc : option Z) (e : A)
  | PushBack (malloc : option Z) (e : A)
  | InsertAt (idx : Z) (malloc : option Z) (e : A)
  | PopFront
  | PopBack
  | RemoveAt (idx : Z)
  | SetFront (e : A)
  | SetBack (e : A)
  | SetAt (idx : Z) (e : A)
  | GetFront
  | GetBack
  | GetAt (idx : Z)
  | Size
  | Reverse
  | SetClean (func : bool).

Inductive list_ret :=
  | RBool (b : bool)
  | RElem (e : option A)
  | RSize (n : Z)
  | RUnit.

(** The element goes in at an index, unless there is no memory. *)
Definition spec_insert (idx : nat) (malloc : option Z) (e : A) sp : list_ret * list_spec :=
  match malloc with
  | None => (RBool false, sp)
  | Some _ => (RBool true, sp_set sp (take idx (sp_elems sp) ++ e :: drop idx (sp_elems sp)))
  end.

Definition spec_remove (idx : nat) sp : list_ret * list_spec :=
  match sp_elems sp !! idx with
  | None => (RBool false, sp)
  | Some e => (RBool true, sp_drop sp (delete idx (sp_elems sp)) e)
  end.

Definition spec_set (idx : nat) (e : A) sp : list_ret * list_spec :=
  match sp_elems sp !! idx with
  | None => (RBool false, sp)
  | Some old => (RBool true, sp_drop sp (<[idx := e]> (sp_elems sp)) old)
  end.

Definition list_spec_step (c : list_cmd) sp : list_ret * list_spec :=
  let es := sp_elems sp in
  match c with
  | PushFront malloc e => spec_insert 0 malloc e sp
  | PushBack malloc e => spec_insert (length es) malloc e sp
  | InsertAt idx malloc e =>
      if Z.of_nat (length es) <? idx then (RBool false, sp)
      else spec_insert (Z.to_nat idx) malloc e sp
  | PopFront => spec_remove 0 sp
  | PopBack => spec_remove (length es - 1) sp
  | RemoveAt idx => spec_remove (Z.to_nat idx) sp
  | SetFront e => spec_set 0 e sp
  | SetBack e => spec_set (length es - 1) e sp
  | SetAt idx e => spec_set (Z.to_nat idx) e sp
  | GetFront => (RElem (head es), sp)
  | GetBack => (RElem (last es), sp)
  | GetAt idx => (RElem (es !! Z.to_nat idx), sp)
  | Size => (RSize (Z.of_nat (length es)), sp)
  | Reverse => (RUnit, sp_set sp (reverse es))
  | SetClean func => (RUnit, ListSpec es func (sp_cleaned sp))
  end.

Definition ret_bool (o : outcome (bool * list_data)) : outcome (list_ret * list_data) :=
  '(b, self) ← o; Ret (RBool b, self).
Definition ret_elem self (o : outcome (option A)) : outcome (list_ret * list_data) :=
  e ← o; Ret (RElem e, self).

Definition list_exec (c : list_cmd) self : outcome (list_ret * list_data) :=
  match c with
  | PushFront malloc e => ret_bool (ListPushFront self malloc e)
  | PushBack malloc e => ret_bool (ListPushBack self malloc e)
  | InsertAt idx malloc e => ret_bool (ListInsert self idx malloc e)
  | PopFront => ret_bool (ListPopFront self)
  | PopBack => ret_bool (ListPopBack self)
  | RemoveAt idx => ret_bool (ListRemove self idx)
  | SetFront e => ret_bool (ListSetFront self e)
  | SetBack e => ret_bool (ListSetBack self e)
  | SetAt idx e => ret_bool (ListSetAt self idx e)
  | GetFront => ret_elem self (ListGetFront self)
  | GetBack => ret_elem self (ListGetBack self)
  | GetAt idx => ret_elem self (ListGetAt self idx)
  | Size => Ret (RSize (ListSize self), self)
  | Reverse => self ← ListReverse self; Ret (RUnit, self)
  | SetClean func => Ret (RUnit, ListSetClean self func)
  end.

(** ** Representation *)

(** [self] owns exactly the nodes of [l], in a circle. *)
Record list_wf self l : Prop := ListWf {
  lw_nodes : ld_nodes self = ring l;
  lw_nodup : NoDup l.*1;
  lw_head : head_ self = head l.*1;
  lw_size : size_ self = Z.of_nat (length l);
  lw_bound : size_ self < 4294967296 }.

Definition list_repr self sp : Prop :=
  exists l, list_wf self l /\ sp = ListSpec l.*2 (func_clean_ self) (ld_cleaned self).

(** [malloc] returns memory that is not in use, indices are unsigned, and a list
    does not grow to [2^32] elements.  An empty list is not to be reversed. *)
Definition malloc_ok self (malloc : option Z) : Prop :=
  match malloc with
  | None => True
  | Some p => ld_nodes self !! p = None /\ size_ self + 1 < 4294967296
  end.

Definition cmd_ok (c : list_cmd) self : Prop :=
  match c with
  | PushFront malloc _ | PushBack malloc _ => malloc_ok self malloc
  | InsertAt idx malloc _ => 0 <= idx /\ malloc_ok self malloc
  | RemoveAt idx | SetAt idx _ | GetAt idx => 0 <= idx
  | Reverse => size_ self <> 0
  | _ => True
  end.

Lemma list_wf_lookup self l l1 a x l2 :
  list_wf self l -> l = l1 ++ (a, x) :: l2 ->
  load (ld_nodes self) a = Ret (Node x (last_addr (l2 ++ l1) a) (hd_addr (l2 ++ l1) a)).
Proof. intros [Hns Hnd _ _ _] ->. apply load_eq. rewrite Hns. by apply ring_at. Qed.

(** Walking from the head to an index. *)
Lemma list_wf_walk self l1 a x l2 :
  list_wf self (l1 ++ (a, x) :: l2) ->
  exists h, head_ self = Some h /\ list_walk (ld_nodes self) h (length l1) = Ret a.
Proof.
  intros [Hns Hnd Hh _ _]. exists (hd_addr (l1 ++ (a, x) :: l2) 0). split.
  - rewrite Hh. by destruct l1.
  - rewrite Hns. rewrite (list_walk_head l1 ((a, x) :: l2)); [done|done|by destruct l1].
Qed.

Lemma elems_lookup (l : list (Z * A)) (i : nat) e :
  l.*2 !! i = Some e -> exists l1 a l2, l = l1 ++ (a, e) :: l2 /\ length l1 = i.
Proof.
  rewrite list_lookup_fmap. destruct (l !! i) as [[a x]|] eqn:Hl; [|done]. simpl. intros [= ->].
  pose proof (lookup_lt_Some _ _ _ Hl). exists (take i l), a, (drop (S i) l).
  split; [by rewrite take_drop_middle|]. rewrite length_take. lia.
Qed.

(** ** Each operation *)

Definition refines (o : outcome (list_ret * list_data)) (r : list_ret * list_spec) : Prop :=
  exists self, o = Ret (r.1, self) /\ list_repr self r.2.

Lemma wf_fresh self l n : list_wf self l -> ld_nodes self !! n = None -> n ∉ l.*1.
Proof.
  intros [Hns _ _ _ _] Hn Hin. apply ring_in in Hin. rewrite <- Hns, Hn in Hin. by destruct Hin.
Qed.

(** The list after an insertion, however the head was dealt with. *)
Lemma refines_insert self self' l1 l2 n e :
  list_wf self (l1 ++ l2) -> malloc_ok self (Some n) ->
  ld_nodes self' = ring (l1 ++ (n, e) :: l2) ->
  head_ self' = head (l1 ++ (n, e) :: l2).*1 ->
  size_ self' = u32 (size_ self + 1) -> func_clean_ self' = func_clean_ self ->
  ld_cleaned self' = ld_cleaned self ->
  refines (Ret (RBool true, self'))
    (spec_insert (length l1) (Some n) e
      (ListSpec (l1 ++ l2).*2 (func_clean_ self) (ld_cleaned self))).
Proof.
  intros Hwf [Hn Hmax] Hns Hh Hs Hf Hc. pose proof (wf_fresh _ _ _ Hwf Hn) as Hfresh.
  destruct Hwf as [_ Hnd _ Hsize _]. exists self'. split; [done|].
  rewrite u32_small in Hs by lia. exists (l1 ++ (n, e) :: l2). split.
  - split; [done| |done| |lia].
    + rewrite fmap_app, fmap_cons, <- Permutation_middle, <- fmap_app. by constructor.
    + rewrite Hs, Hsize, !length_app. simpl. lia.
  - simpl. unfold sp_set. simpl. rewrite Hf, Hc, !fmap_app, fmap_cons. f_equal.
    rewrite take_app_length', drop_app_length' by (by rewrite length_fmap). done.
Qed.

Lemma refines_none self l r :
  list_wf self l ->
  refines (Ret (r, self)) (r, ListSpec l.*2 (func_clean_ self) (ld_cleaned self)).
Proof. intros Hwf. exists self. split; [done|]. by exists l. Qed.

Lemma ListInsert_refines self l idx malloc e :
  list_wf self l -> cmd_ok (InsertAt idx malloc e) self ->
  refines (ret_bool (ListInsert self idx malloc e))
    (list_spec_step (InsertAt idx malloc e) (ListSpec l.*2 (func_clean_ self) (ld_cleaned self))).
Proof.
  intros Hwf [Hidx Hok]. unfold ListInsert. cbn [list_spec_step sp_elems]. rewrite length_fmap.
  rewrite (lw_size _ _ Hwf). destruct (Z.ltb_spec (Z.of_nat (length l)) idx) as [Hlt|Hle].
  { by apply refines_none. }
  destruct malloc as [n|]; [|by apply refines_none].
  rewrite <- (take_drop (Z.to_nat idx) l) in Hwf |- *.
  set (l1 := take _ l) in *. set (l2 := drop _ l) in *.
  assert (length l1 = Z.to_nat idx) as Hl1 by (unfold l1; rewrite length_take; lia).
  clearbody l1 l2. rewrite <- Hl1. pose proof Hok as [Hn _].
  pose proof (wf_fresh _ _ _ Hwf Hn) as Hfresh. pose proof Hwf as [Hns Hnd Hh Hs Hb].
  destruct (list_eq_nil_dec (l1 ++ l2)) as [Hnil|Hne].
  - apply app_nil in Hnil as [-> ->]. rewrite Hh, Hns. cbn [head app fmap list_fmap].
    change (ring []) with (∅ : nodes). rewrite link_alone_spec.
    cbn [mbind outcome_bind]. by eapply (refines_insert self _ [] []).
  - replace (head_ self) with (Some (hd_addr (l1 ++ l2) 0)) by (rewrite Hh; by destruct l1, l2).
    assert (list_walk (new_node_at (ld_nodes self) n e) (hd_addr (l1 ++ l2) 0) (length l1) =
      Ret (hd_addr (l2 ++ l1) 0)) as ->
      by (apply list_walk_frame; [done|]; rewrite Hns; by apply list_walk_head).
    rewrite Hns. cbn [mbind outcome_bind].
    rewrite link_ring by done. cbn [mbind outcome_bind].
    eapply (refines_insert self _ l1 l2); try done; destruct (Z.eqb_spec idx 0); try done.
    + destruct l1; [done|]. simpl in Hl1. lia.
    + destruct l1; [simpl in Hl1; lia|]. by simpl.
Qed.

Lemma ListPushFront_refines self l malloc e :
  list_wf self l -> malloc_ok self malloc ->
  refines (ret_bool (ListPushFront self malloc e))
    (spec_insert 0 malloc e (ListSpec l.*2 (func_clean_ self) (ld_cleaned self))).
Proof.
  intros Hwf Hok. destruct malloc as [n|]; [|by apply refines_none].
  pose proof Hok as [Hn _]. pose proof (wf_fresh _ _ _ Hwf Hn) as Hfresh.
  pose proof Hwf as [Hns Hnd Hh _ _]. unfold ListPushFront. rewrite Hh, Hns.
  destruct l as [|[t x] l].
  - cbn [head fmap list_fmap]. change (ring []) with (∅ : nodes). rewrite link_alone_spec.
    cbn [mbind outcome_bind]. by eapply (refines_insert self _ [] []).
  - cbn [head fmap list_fmap fst].
    pose proof (link_ring [] ((t, x) :: l) n e ltac:(done) Hnd Hfresh) as Hlink.
    cbn [app] in Hlink. rewrite app_nil_r in Hlink. change (hd_addr _ 0) with t in Hlink.
    rewrite Hlink. cbn [mbind outcome_bind]. by eapply (refines_insert self _ [] ((t, x) :: l)).
Qed.

Lemma ListPushBack_refines self l malloc e :
  list_wf self l -> malloc_ok self malloc ->
  refines (ret_bool (ListPushBack self malloc e))
    (spec_insert (length l) malloc e (ListSpec l.*2 (func_clean_ self) (ld_cleaned self))).
Proof.
  intros Hwf Hok. destruct malloc as [n|]; [|by apply refines_none].
  pose proof Hok as [Hn _]. pose proof (wf_fresh _ _ _ Hwf Hn) as Hfresh.
  pose proof Hwf as [Hns Hnd Hh _ _]. unfold ListPushBack. rewrite Hh, Hns.
  rewrite <- (app_nil_r l) in Hwf, Hnd, Hfresh.
  replace (l.*2) with ((l ++ []).*2) by (by rewrite app_nil_r).
  destruct l as [|[t x] l].
  - cbn [head fmap list_fmap]. change (ring []) with (∅ : nodes). rewrite link_alone_spec.
    cbn [mbind outcome_bind]. by eapply (refines_insert self _ [] []).
  - cbn [head fmap list_fmap fst].
    pose proof (link_ring ((t, x) :: l) [] n e ltac:(done) Hnd Hfresh) as Hlink.
    change (hd_addr _ 0) with t in Hlink. rewrite app_nil_r in Hlink.
    rewrite Hlink. cbn [mbind outcome_bind]. by eapply (refines_insert self _ ((t, x) :: l) []).
Qed.

(** The list after a removal, however the head was dealt with. *)
Lemma refines_remove self self' l1 t x l2 :
  list_wf self (l1 ++ (t, x) :: l2) ->
  ld_nodes self' = ring (l1 ++ l2) -> head_ self' = head (l1 ++ l2).*1 ->
  size_ self' = u32 (size_ self - 1) -> func_clean_ self' = func_clean_ self ->
  ld_cleaned self' = ld_cleaned self ++ (if func_clean_ self then [x] else []) ->
  refines (Ret (RBool true, self'))
    (spec_remove (length l1)
      (ListSpec (l1 ++ (t, x) :: l2).*2 (func_clean_ self) (ld_cleaned self))).
Proof.
  intros [_ Hnd _ Hsize Hb] Hns Hh Hs Hf Hc. rewrite length_app in Hsize. simpl in Hsize.
  rewrite u32_small in Hs by lia. unfold spec_remove. cbn [sp_elems].
  rewrite fmap_app, fmap_cons, <- (length_fmap snd l1), list_lookup_middle by done.
  exists self'. split; [done|]. exists (l1 ++ l2). split.
  - split; [done| |done| |lia].
    + rewrite fmap_app, fmap_cons, <- Permutation_middle in Hnd. rewrite fmap_app.
      by apply NoDup_cons in Hnd as [_ ?].
    + rewrite Hs, Hsize, length_app. lia.
  - unfold sp_drop. cbn [sp_clean sp_cleaned snd]. rewrite Hf, Hc, fmap_app. f_equal.
    rewrite delete_middle. done.
Qed.

Lemma clean_fields self x :
  ld_nodes (clean self x) = ld_nodes self /\ head_ (clean self x) = head_ self /\
  size_ (clean self x) = size_ self /\ func_clean_ (clean self x) = func_clean_ self /\
  ld_cleaned (clean self x) = ld_cleaned self ++ (if func_clean_ self then [x] else []).
Proof.
  unfold clean. destruct (func_clean_ self) eqn:E; simpl; rewrite ?app_nil_r; by split_and!.
Qed.

Lemma ListRemove_refines self l idx :
  list_wf self l -> 0 <= idx ->
  refines (ret_bool (ListRemove self idx))
    (spec_remove (Z.to_nat idx) (ListSpec l.*2 (func_clean_ self) (ld_cleaned self))).
Proof.
  intros Hwf Hidx. unfold ListRemove. destruct (l.*2 !! Z.to_nat idx) as [e|] eqn:Hl.
  2: { unfold spec_remove. cbn [sp_elems]. rewrite Hl. apply lookup_ge_None in Hl.
       rewrite length_fmap in Hl. rewrite (lw_size _ _ Hwf), (proj2 (Z.leb_le _ _)) by lia.
       by apply refines_none. }
  apply elems_lookup in Hl as (l1 & t & l2 & -> & Hlen).
  pose proof Hwf as [Hns Hnd Hh Hs Hb]. rewrite length_app in Hs. simpl in Hs.
  rewrite (proj2 (Z.leb_gt _ _)) by lia. rewrite <- Hlen.
  destruct (list_wf_walk _ _ _ _ _ Hwf) as (h & Hhead & Hwalk). rewrite Hhead.
  cbn [deref mbind outcome_bind]. rewrite Hwalk. cbn [mbind outcome_bind].
  destruct (unlink_ring _ _ _ _ Hnd) as (Ht & Hload & ns & Hs1 & _ & Hs2).
  rewrite Hns, (load_eq _ _ _ Hload). cbn [mbind outcome_bind pred_ succ_].
  rewrite Hs1. cbn [mbind outcome_bind]. rewrite Hs2. cbn [mbind outcome_bind].
  match goal with |- context [clean_and_free ?s t] => set (self1 := s) end.
  rewrite (clean_and_free_spec self1 t e _ _ (l1 ++ l2) Ht)
    by (unfold self1; destruct (size_ self =? 1); [|destruct (t =? h)]; reflexivity).
  cbn [mbind outcome_bind]. destruct (clean_fields self1 e) as (_ & Hch & _ & Hcf & Hcc).
  assert (func_clean_ self1 = func_clean_ self /\ ld_cleaned self1 = ld_cleaned self) as [Hf1 Hc1]
    by (unfold self1; by destruct (size_ self =? 1), (t =? h)).
  rewrite Hf1 in Hcf, Hcc. rewrite Hc1 in Hcc.
  eapply refines_remove; [exact Hwf|done| |done|exact Hcf|exact Hcc].
  change (head_ (clean self1 e) = head (l1 ++ l2).*1). rewrite Hch. unfold self1.
  destruct (Z.eqb_spec (size_ self) 1).
  - by destruct l1, l2; simpl in *; try lia.
  - destruct l1 as [|[a y] l1].
    + simpl in Hh. assert (h = t) as -> by congruence. rewrite Z.eqb_refl.
      destruct l2 as [|[b z] l2]; [simpl in *; lia|done].
    + simpl in Hh. assert (h = a) as -> by congruence.
      destruct (Z.eqb_spec t a) as [->|]; [|done]. simpl in Ht. set_solver.
Qed.

Lemma ListPopFront_refines self l :
  list_wf self l ->
  refines (ret_bool (ListPopFront self))
    (spec_remove 0 (ListSpec l.*2 (func_clean_ self) (ld_cleaned self))).
Proof.
  intros Hwf. pose proof Hwf as [Hns Hnd Hh Hs Hb]. unfold ListPopFront. rewrite Hh.
  destruct l as [|[t x] l]; [by apply refines_none|]. cbn [head fmap list_fmap fst].
  destruct (unlink_ring [] _ _ _ Hnd) as (Ht & Hload & ns & Hs1 & Hload1 & Hs2).
  cbn [app] in *. rewrite app_nil_r in *. change (t ∉ l.*1) in Ht.
  rewrite Hns, (load_eq _ _ _ Hload). cbn [mbind outcome_bind pred_ succ_].
  destruct (Z.eqb_spec t (last_addr l t)) as [Heq|Hne].
  - assert (l = []) as ->.
    { destruct (list_eq_nil_dec l); [done|]. destruct Ht. rewrite Heq. by apply last_addr_in. }
    rewrite (clean_and_free_spec self t x t t []) by (done || by rewrite Hns).
    cbn [mbind outcome_bind]. destruct (clean_fields self x) as (_ & _ & Hcs & Hcf & Hcc).
    eapply (refines_remove self _ [] t x []); [exact Hwf|done|done| |exact Hcf|exact Hcc].
    simpl. by rewrite Hcs.
  - rewrite Hs1. cbn [mbind outcome_bind].
    rewrite (load_eq _ _ _ Hload1). cbn [mbind outcome_bind pred_ succ_]. rewrite Hs2.
    cbn [mbind outcome_bind]. rewrite (load_eq _ _ _ (lookup_insert_eq _ _ _)).
    cbn [mbind outcome_bind succ_].
    match goal with |- context [clean_and_free ?s t] => set (self1 := s) end.
    rewrite (clean_and_free_spec self1 t x _ _ l Ht eq_refl). cbn [mbind outcome_bind].
    destruct (clean_fields self1 x) as (_ & Hch & Hcs & Hcf & Hcc).
    eapply (refines_remove self _ [] t x l); [exact Hwf|done| | |exact Hcf|exact Hcc].
    + etrans; [exact Hch|]. simpl. destruct l as [|[b y] l]; [done|done].
    + simpl. by rewrite Hcs.
Qed.

Lemma ListPopBack_refines self l :
  list_wf self l ->
  refines (ret_bool (ListPopBack self))
    (spec_remove (length l - 1) (ListSpec l.*2 (func_clean_ self) (ld_cleaned self))).
Proof.
  intros Hwf. pose proof Hwf as [Hns Hnd Hh Hs Hb]. unfold ListPopBack.
  destruct l as [|[t x] l _] using rev_ind; [rewrite Hh; by apply refines_none|].
  rewrite length_app, Nat.add_sub.
  destruct (unlink_ring l t x [] Hnd) as (Ht & Hload & ns & Hs1 & Hload1 & Hs2).
  cbn [app] in *. rewrite app_nil_r in Ht, Hs2.
  destruct (list_eq_nil_dec l) as [->|Hne].
  - cbn [app] in *. rewrite Hh. cbn [head fmap list_fmap fst].
    rewrite Hns, (load_eq _ _ _ Hload). cbn [mbind outcome_bind pred_ succ_].
    change (hd_addr [] t) with t. rewrite Z.eqb_refl.
    rewrite (clean_and_free_spec self t x t t []) by (done || by rewrite Hns).
    cbn [mbind outcome_bind]. destruct (clean_fields self x) as (_ & _ & Hcs & Hcf & Hcc).
    eapply (refines_remove self _ [] t x []); [exact Hwf|done|done| |exact Hcf|exact Hcc].
    simpl. by rewrite Hcs.
  - destruct l as [|[b y] l]; [done|]. rewrite Hh. cbn [app head fmap list_fmap fst].
    change (((b, y) :: l) ++ [(t, x)]) with ((b, y) :: (l ++ [(t, x)])) in *.
    pose proof (ring_first b y (l ++ [(t, x)])) as Hb1.
    rewrite Hns, (load_eq _ _ _ Hb1). cbn [mbind outcome_bind pred_ succ_].
    assert (b <> t) as Hbt by (intros ->; by apply Ht, elem_of_cons; left).
    destruct (Z.eqb_spec b (hd_addr (l ++ [(t, x)]) b)) as [Heq|_].
    { exfalso. rewrite hd_addr_app in Heq. change (hd_addr [(t, x)] b) with t in Heq.
      destruct l as [|[c z] l]; [done|]. cbn in Heq. subst c.
      apply NoDup_cons in Hnd as [Hin _]. apply Hin. by apply elem_of_cons; left. }
    rewrite last_addr_snoc, (load_eq _ _ _ Hload). cbn [mbind outcome_bind pred_ succ_].
    change (hd_addr ((b, y) :: l) t) with b in Hs1, Hs2, Hload1.
    rewrite Hs1. cbn [mbind outcome_bind].
    rewrite (load_eq _ _ _ Hload1). cbn [mbind outcome_bind pred_ succ_]. rewrite Hs2.
    cbn [mbind outcome_bind].
    match goal with |- context [clean_and_free ?s t] => set (self1 := s) end.
    rewrite (clean_and_free_spec self1 t x _ _ _ Ht eq_refl). cbn [mbind outcome_bind].
    destruct (clean_fields self1 x) as (_ & Hch & Hcs & Hcf & Hcc).
    eapply (refines_remove self _ ((b, y) :: l) t x []); [exact Hwf| | | |exact Hcf|exact Hcc].
    + by rewrite app_nil_r.
    + rewrite app_nil_r. etrans; [exact Hch|]. exact Hh.
    + simpl. by rewrite Hcs.
Qed.

Lemma refines_set self l1 a x l2 e :
  list_wf self (l1 ++ (a, x) :: l2) ->
  refines (ret_bool (self ← replace_element self a e; Ret (true, self)))
    (spec_set (length l1) e
      (ListSpec (l1 ++ (a, x) :: l2).*2 (func_clean_ self) (ld_cleaned self))).
Proof.
  intros Hwf. pose proof Hwf as [Hns Hnd Hh Hs Hb]. unfold replace_element.
  rewrite (list_wf_lookup _ _ _ _ _ _ Hwf eq_refl). cbn [mbind outcome_bind element_].
  destruct (clean_fields self x) as (-> & Hch & Hcs & Hcf & Hcc).
  rewrite Hns, store_element_ring by done. cbn [mbind outcome_bind ret_bool].
  unfold spec_set. cbn [sp_elems].
  assert ((l1 ++ (a, e) :: l2).*1 = (l1 ++ (a, x) :: l2).*1) as Hfst by (by rewrite !fmap_app).
  rewrite fmap_app, fmap_cons, <- (length_fmap snd l1), list_lookup_middle by done.
  eexists. split; [done|]. exists (l1 ++ (a, e) :: l2). split.
  - split; [done|by rewrite Hfst|by rewrite Hfst, <- Hh| |by rewrite <- Hcs in Hb].
    rewrite length_app in *. simpl in *. by rewrite Hcs.
  - unfold sp_drop. simpl. rewrite Hcf, Hcc, fmap_app. f_equal.
    change (x :: l2.*2) with ([x] ++ l2.*2). rewrite insert_app_r_alt, Nat.sub_diag by done. done.
Qed.

Lemma ListSet_refines self l (c : list_cmd) idx e :
  list_wf self l ->
  c = SetFront e /\ idx = 0%nat \/ c = SetBack e /\ idx = (length l - 1)%nat \/
    (exists i, c = SetAt i e /\ 0 <= i /\ idx = Z.to_nat i) ->
  refines (list_exec c self)
    (spec_set idx e (ListSpec l.*2 (func_clean_ self) (ld_cleaned self))).
Proof.
  intros Hwf Hc. pose proof Hwf as [Hns Hnd Hh Hs Hb].
  destruct (l.*2 !! idx) as [x|] eqn:Hl.
  - apply elems_lookup in Hl as (l1 & a & l2 & -> & <-).
    assert (list_exec c self = ret_bool (self ← replace_element self a e; Ret (true, self)))
      as ->; [|by apply refines_set].
    destruct (list_wf_walk _ _ _ _ _ Hwf) as (h & Hhead & Hwalk).
    rewrite length_app in Hs. simpl in Hs.
    destruct Hc as [[-> Hi]|[[-> Hi]|(i & -> & Hi & Hi')]]; simpl.
    + destruct l1; [|done]. unfold ListSetFront. rewrite Hh. done.
    + unfold ListSetBack. rewrite Hhead. destruct l2; [|rewrite length_app in Hi; simpl in Hi; lia].
      rewrite Hns in *. rewrite Hh in Hhead.
      assert (exists nd, ring (l1 ++ [(a, x)]) !! h = Some nd /\ pred_ nd = a) as (nd & Hnd1 & Hp).
      { destruct l1 as [|[b y] l1]; injection Hhead as <-.
        - eexists. split; [apply ring_first|done].
        - eexists. split; [apply ring_first|]. simpl. apply last_addr_snoc. }
      rewrite (load_eq _ _ _ Hnd1). cbn [mbind outcome_bind]. by rewrite Hp.
    + unfold ListSetAt. rewrite (proj2 (Z.leb_gt _ _)) by lia. rewrite Hhead, <- Hi'.
      cbn [deref mbind outcome_bind]. by rewrite Hwalk.
  - unfold spec_set. cbn [sp_elems]. rewrite Hl. apply lookup_ge_None in Hl.
    rewrite length_fmap in Hl. assert (list_exec c self = Ret (RBool false, self)) as ->;
      [|by apply refines_none].
    destruct Hc as [[-> ->]|[[-> ->]|(i & -> & Hi & ->)]]; simpl.
    + destruct l; [|simpl in Hl; lia]. unfold ListSetFront. by rewrite Hh.
    + destruct l; [|simpl in Hl; lia]. unfold ListSetBack. by rewrite Hh.
    + unfold ListSetAt. by rewrite (proj2 (Z.leb_le _ _)) by lia.
Qed.

Lemma ListGet_refines self l (c : list_cmd) (x : option A) :
  list_wf self l ->
  c = GetFront /\ x = head l.*2 \/ c = GetBack /\ x = last l.*2 \/
    (exists i, c = GetAt i /\ 0 <= i /\ x = l.*2 !! Z.to_nat i) ->
  refines (list_exec c self)
    (RElem x, ListSpec l.*2 (func_clean_ self) (ld_cleaned self)).
Proof.
  intros Hwf Hc. assert (list_exec c self = Ret (RElem x, self)) as ->; [|by apply refines_none].
  pose proof Hwf as [Hns Hnd Hh Hs Hb].
  destruct Hc as [[-> ->]|[[-> ->]|(i & -> & Hi & ->)]]; simpl.
  - unfold ListGetFront. rewrite Hh. destruct l as [|[a y] l]; [done|].
    cbn [head fmap list_fmap fst]. by rewrite Hns, (load_eq _ _ _ (ring_first _ _ _)).
  - unfold ListGetBack. rewrite Hh. destruct l as [|[t y] l _] using rev_ind; [done|].
    rewrite (fmap_app snd). cbn [fmap list_fmap snd]. rewrite last_snoc.
    destruct (list_wf_walk _ _ _ _ _ Hwf) as (h & Hhead & _).
    rewrite <- Hh, Hhead. rewrite Hh in Hhead.
    assert (exists nd, ring (l ++ [(t, y)]) !! h = Some nd /\ pred_ nd = t) as (nd & Hnd1 & Hp).
    { destruct l as [|[b z] l]; injection Hhead as <-.
      - eexists. split; [apply ring_first|done].
      - eexists. split; [apply ring_first|]. simpl. apply last_addr_snoc. }
    rewrite Hns, (load_eq _ _ _ Hnd1). cbn [mbind outcome_bind]. rewrite Hp.
    by rewrite (load_eq _ _ _ (ring_at _ _ _ _ Hnd)).
  - unfold ListGetAt. destruct (l.*2 !! Z.to_nat i) as [e|] eqn:Hl.
    + apply elems_lookup in Hl as (l1 & a & l2 & -> & Hlen). rewrite length_app in Hs. simpl in Hs.
      rewrite (proj2 (Z.leb_gt _ _)) by lia.
      destruct (list_wf_walk _ _ _ _ _ Hwf) as (h & -> & Hwalk). rewrite <- Hlen.
      cbn [deref mbind outcome_bind]. rewrite Hwalk. cbn [mbind outcome_bind].
      by rewrite (list_wf_lookup _ _ _ _ _ _ Hwf eq_refl).
    + apply lookup_ge_None in Hl. rewrite length_fmap in Hl.
      by rewrite (proj2 (Z.leb_le _ _)) by lia.
Qed.

(** Swapping from both ends reverses what is between. *)
Lemma reverse_loop_spec range ns pre mid post h t :
  ns = ring (pre ++ mid ++ post) -> NoDup (pre ++ mid ++ post).*1 -> range = length mid ->
  ((2 <= range)%nat -> h = hd_addr mid 0 /\ t = last_addr mid 0) ->
  reverse_loop ns h t range =
  Ret (ring (pre ++ zip mid.*1 (reverse mid.*2) ++ post)).
Proof.
  revert ns pre mid post h t. induction range as [range IH] using lt_wf_ind.
  intros ns pre mid post h t -> Hnd Hlen Hht.
  destruct mid as [|[a x] mid]; [by subst range|].
  destruct mid as [|[b y] mid _] using rev_ind; [by subst range|].
  destruct range as [|[|range]]; [done|simpl in Hlen; rewrite length_app in Hlen; simpl in Hlen; lia|].
  destruct Hht as [-> ->]; [lia|]. rewrite last_addr_cons, last_addr_snoc.
  change (hd_addr ((a, x) :: mid ++ [(b, y)]) 0) with a.
  assert (range = length mid) as Hrange
    by (simpl in Hlen; rewrite length_app in Hlen; simpl in Hlen; lia).
  replace (pre ++ ((a, x) :: mid ++ [(b, y)]) ++ post)
    with (pre ++ (a, x) :: (mid ++ (b, y) :: post)) in *
    by (by rewrite <- app_comm_cons, <- app_assoc).
  assert (pre ++ (a, y) :: mid ++ (b, y) :: post =
    (pre ++ (a, y) :: mid) ++ (b, y) :: post) as Hs1 by (by rewrite <- app_assoc).
  assert (NoDup (pre ++ (a, y) :: mid ++ (b, y) :: post).*1) as Hnd1
    by (rewrite fmap_app in Hnd |- *; exact Hnd).
  cbn [reverse_loop]. rewrite (load_eq _ _ _ (ring_at _ _ _ _ Hnd)).
  cbn [mbind outcome_bind element_].
  assert (exists nd, load (ring (pre ++ (a, x) :: mid ++ (b, y) :: post)) b = Ret nd /\
    element_ nd = y) as (nd & -> & Hy).
  { eexists. split; [apply load_eq|].
    - replace (pre ++ (a, x) :: mid ++ (b, y) :: post)
        with ((pre ++ (a, x) :: mid) ++ (b, y) :: post) in * by (by rewrite <- app_assoc).
      by apply ring_at.
    - done. }
  cbn [mbind outcome_bind]. rewrite Hy, store_element_ring by done. cbn [mbind outcome_bind].
  rewrite Hs1 in Hnd1 |- *. rewrite store_element_ring by done. cbn [mbind outcome_bind].
  assert (NoDup ((pre ++ (a, y) :: mid) ++ (b, x) :: post).*1) as Hnd2
    by (rewrite fmap_app in Hnd1 |- *; exact Hnd1).
  assert ((pre ++ (a, y) :: mid) ++ (b, x) :: post =
    (pre ++ [(a, y)]) ++ mid ++ (b, x) :: post) as Hs2 by (by rewrite <- !app_assoc).
  assert (load (ring ((pre ++ (a, y) :: mid) ++ (b, x) :: post)) a =
    Ret (Node y (last_addr ((mid ++ (b, x) :: post) ++ pre) a)
      (hd_addr ((mid ++ (b, x) :: post) ++ pre) a))) as ->.
  { rewrite <- app_assoc in Hnd2 |- *. cbn [app] in Hnd2 |- *. by rewrite (load_eq _ _ _ (ring_at _ _ _ _ Hnd2)). }
  cbn [mbind outcome_bind succ_]. rewrite (load_eq _ _ _ (ring_at _ _ _ _ Hnd2)).
  cbn [mbind outcome_bind pred_]. rewrite Hs2 in Hnd2 |- *.
  rewrite (IH range ltac:(lia) _ (pre ++ [(a, y)]) mid ((b, x) :: post) _ _ eq_refl Hnd2 Hrange).
  - do 2 f_equal. rewrite !fmap_cons, !fmap_app. cbn [fmap list_fmap fst snd].
    rewrite reverse_cons, reverse_snoc. rewrite <- !app_assoc. cbn [app zip zip_with].
    do 2 f_equal. rewrite zip_with_app by (by rewrite length_reverse, !length_fmap).
    by rewrite <- app_assoc.
  - intros Hge. destruct mid as [|c mid]; [simpl in Hrange; lia|]. split; [done|].
    rewrite !last_addr_app. cbn [app]. destruct c. by rewrite !last_addr_cons.
Qed.

Lemma ListReverse_refines self l :
  list_wf self l -> size_ self <> 0 ->
  refines (self ← ListReverse self; Ret (RUnit, self))
    (RUnit, ListSpec (reverse l.*2) (func_clean_ self) (ld_cleaned self)).
Proof.
  intros [Hns Hnd Hh Hs Hb] Hne. unfold ListReverse.
  destruct l as [|[a x] l]; [by rewrite Hs in Hne|]. rewrite Hh, Hns.
  cbn [head fmap list_fmap fst deref mbind outcome_bind].
  rewrite (load_eq _ _ _ (ring_first _ _ _)). cbn [mbind outcome_bind pred_].
  pose proof (reverse_loop_spec (Z.to_nat (size_ self)) (ring ((a, x) :: l)) [] ((a, x) :: l) [] a (last_addr l a)
    ltac:(by rewrite app_nil_r) ltac:(by rewrite app_nil_r)) as Hrev.
  cbn [app] in Hrev. rewrite !app_nil_r in Hrev. rewrite Hrev; [|lia|].
  2: { intros _. split; [done|]. by rewrite last_addr_cons. }
  cbn [mbind outcome_bind]. eexists. split; [done|].
  set (l' := zip _ _). assert (l'.*1 = ((a, x) :: l).*1) as Hfst
    by (apply fst_zip; rewrite length_reverse; simpl; rewrite !length_fmap; lia).
  exists l'. split.
  - split; simpl; [done|by rewrite Hfst|by rewrite Hfst, Hh| |done].
    rewrite Hs. f_equal. apply (f_equal length) in Hfst. by rewrite !length_fmap in Hfst.
  - simpl. f_equal. symmetry. apply snd_zip. rewrite length_reverse. simpl. rewrite !length_fmap. lia.
Qed.

(** ** Sequences of operations *)

Lemma list_exec_refines c self sp :
  list_repr self sp -> cmd_ok c self -> refines (list_exec c self) (list_spec_step c sp).
Proof.
  intros (l & Hwf & ->) Hok. destruct c; cbn [list_exec list_spec_step sp_elems].
  - by apply ListPushFront_refines.
  - rewrite length_fmap. by apply ListPushBack_refines.
  - by apply ListInsert_refines.
  - by apply ListPopFront_refines.
  - rewrite length_fmap. by apply ListPopBack_refines.
  - by apply ListRemove_refines.
  - apply (ListSet_refines _ _ (SetFront e)); eauto.
  - rewrite length_fmap. apply (ListSet_refines _ _ (SetBack e)); eauto.
  - apply (ListSet_refines _ _ (SetAt idx e)); eauto 10.
  - apply (ListGet_refines _ _ GetFront); eauto.
  - apply (ListGet_refines _ _ GetBack); eauto.
  - apply (ListGet_refines _ _ (GetAt idx)); eauto 10.
  - unfold ListSize. rewrite (lw_size _ _ Hwf), length_fmap. by apply refines_none.
  - by apply ListReverse_refines.
  - eexists. split; [done|]. exists l. split; [|done]. by destruct Hwf.
Qed.

(** A call of the interface: an operation, or a step of the iterator. *)
Inductive list_call :=
  | Call (c : list_cmd)
  | First (is_reverse : bool)
  | Next
  | ReverseNext.

Definition call_exec (c : list_call) self : outcome (list_ret * list_data) :=
  match c with
  | Call c => list_exec c self
  | First is_reverse => self ← ListFirst self is_reverse; Ret (RUnit, self)
  | Next => '(e, self) ← ListNext self; Ret (RElem e, self)
  | ReverseNext => '(e, self) ← ListReverseNext self; Ret (RElem e, self)
  end.

(** An iterator on [n] elements: how many it has given, and the index of the one it
    gives next. *)
Abbreviation iter := (option (nat * nat)).
Definition index_after (n i : nat) : nat := if decide (S i = n) then O else S i.
Definition index_before (n i : nat) : nat := match i with O => n - 1 | S i => i end.

Definition spec_next (step : nat -> nat -> nat) sp (it : iter) : list_ret * (list_spec * iter) :=
  let n := length (sp_elems sp) in
  match it with
  | None => (RElem None, (sp, it))
  | Some (r, i) =>
      if decide (r = n) then (RElem None, (sp, it))
      else (RElem (sp_elems sp !! i), (sp, Some (S r, step n i)))
  end.

(** What changes the list ends the iteration. *)
Definition keeps_iter (c : list_cmd) : bool :=
  match c with GetFront | GetBack | GetAt _ | Size | SetClean _ => true | _ => false end.

Definition call_spec (c : list_call) (s : list_spec * iter) : list_ret * (list_spec * iter) :=
  let '(sp, it) := s in
  let n := length (sp_elems sp) in
  match c with
  | Call c => let '(r, sp) := list_spec_step c sp in (r, (sp, if keeps_iter c then it else None))
  | First is_reverse =>
      (RUnit, (sp, if decide (n = O) then it else Some (O, if is_reverse then n - 1 else O)%nat))
  | Next => spec_next index_after sp it
  | ReverseNext => spec_next index_before sp it
  end.

(** [ListNext] goes on with an iteration: since [ListFirst] the list was not empty
    and has not changed. *)
Definition call_ok (c : list_call) self (it : iter) : Prop :=
  match c with Call c => cmd_ok c self | First _ => True | Next | ReverseNext => is_Some it end.

Definition iter_repr self l (it : iter) : Prop :=
  match it with
  | None => True
  | Some (r, i) => iter_round_ self = Z.of_nat r /\ (r <= length l)%nat /\
      exists a, l.*1 !! i = Some a /\ iter_node_ self = Some a
  end.
Definition call_repr self (s : list_spec * iter) : Prop :=
  exists l, list_wf self l /\ s.1 = ListSpec l.*2 (func_clean_ self) (ld_cleaned self) /\ iter_repr self l s.2.

Lemma wf_set_iter self l round p : list_wf self l -> list_wf (ld_set_iter self round p) l.
Proof. by intros [? ? ? ? ?]. Qed.

(** The nodes around the one at an index. *)
Lemma node_at_index self l i a :
  list_wf self l -> l.*1 !! i = Some a ->
  exists x p n, load (ld_nodes self) a = Ret (Node x p n) /\ l.*2 !! i = Some x /\
    l.*1 !! index_after (length l) i = Some n /\ l.*1 !! index_before (length l) i = Some p.
Proof.
  intros Hwf. rewrite list_lookup_fmap. destruct (l !! i) as [[a' x]|] eqn:Hi; [|done].
  simpl. intros [= ->]. pose proof (lookup_lt_Some _ _ _ Hi) as Hlt.
  pose proof (take_drop_middle _ _ _ Hi) as Hl. set (l1 := take i l) in *. set (l2 := drop (S i) l) in *.
  assert (length l1 = i) as Hl1 by (unfold l1; rewrite length_take; lia). clearbody l1 l2. subst l i.
  rewrite length_app in *. cbn [length] in *.
  do 3 eexists. split; [by eapply list_wf_lookup|]. split; [by rewrite list_lookup_fmap, Hi|]. split.
  - unfold index_after. case_decide as Hd.
    + destruct l2; [|simpl in Hd; lia]. rewrite app_nil_l. by destruct l1 as [|[b y] l1].
    + destruct l2 as [|[b y] l2]; [simpl in Hd; lia|]. rewrite list_lookup_fmap.
      rewrite lookup_app_r by lia. by replace (S (length l1) - length l1)%nat with 1%nat by lia.
  - unfold index_before. destruct l1 as [|[b y] l1 _] using rev_ind; cbn [length app].
    + rewrite app_nil_r. replace (0 + S (length l2) - 1)%nat with (length l2) by lia.
      destruct l2 as [|[c z] l2 _] using rev_ind; [done|]. rewrite last_addr_snoc, length_app.
      rewrite (list_lookup_fmap fst), app_comm_cons, Nat.add_1_r. by rewrite list_lookup_middle.
    + rewrite (app_assoc l2), last_addr_snoc, length_app, Nat.add_1_r, list_lookup_fmap, <- app_assoc.
      cbn [app]. by rewrite list_lookup_middle.
Qed.

Lemma next_repr self l r i (step : nat -> nat -> nat) a :
  list_wf self l -> (r < length l)%nat -> l.*1 !! step (length l) i = Some a ->
  call_repr (ld_set_iter self (u32 (Z.of_nat r + 1)) (Some a))
    (ListSpec l.*2 (func_clean_ self) (ld_cleaned self), Some (S r, step (length l) i)).
Proof.
  intros Hwf Hr Ha. exists l. split; [by apply wf_set_iter|]. split; [done|]. cbn.
  pose proof (lw_size _ _ Hwf). pose proof (lw_bound _ _ Hwf). rewrite u32_small by lia.
  split; [lia|]. split; [lia|]. by exists a.
Qed.

(** [ListNext] and [ListReverseNext] differ in the link they follow. *)
Definition steps_by (next : list_data -> outcome (option A * list_data)) (step : nat -> nat -> nat) : Prop :=
  forall self l i a,
    list_wf self l -> l.*1 !! i = Some a -> iter_node_ self = Some a -> iter_round_ self <> size_ self ->
    exists b, l.*1 !! step (length l) i = Some b /\
      next self = Ret (l.*2 !! i, ld_set_iter self (u32 (iter_round_ self + 1)) (Some b)).

Lemma ListNext_steps : steps_by ListNext index_after.
Proof.
  intros self l i a Hwf Ha Hn Hr. destruct (node_at_index self l i a Hwf Ha) as (x & p & n & Hl & -> & Hb & _).
  exists n. split; [done|]. unfold ListNext. rewrite (proj2 (Z.eqb_neq _ _) Hr), Hn. cbn [deref mbind outcome_bind].
  by rewrite Hl.
Qed.
Lemma ListReverseNext_steps : steps_by ListReverseNext index_before.
Proof.
  intros self l i a Hwf Ha Hn Hr. destruct (node_at_index self l i a Hwf Ha) as (x & p & n & Hl & -> & _ & Hb).
  exists p. split; [done|]. unfold ListReverseNext. rewrite (proj2 (Z.eqb_neq _ _) Hr), Hn. cbn [deref mbind outcome_bind].
  by rewrite Hl.
Qed.

Lemma next_refines next step self l it :
  steps_by next step -> (forall self, iter_round_ self = size_ self -> next self = Ret (None, self)) ->
  list_wf self l -> iter_repr self l it -> is_Some it ->
  let s := (ListSpec l.*2 (func_clean_ self) (ld_cleaned self)) in
  exists self', ('(e, self) ← next self; Ret (RElem e, self)) = Ret ((spec_next step s it).1, self') /\
    call_repr self' (spec_next step s it).2.
Proof.
  intros Hs Hend Hwf Hit [[r i] ->] s. destruct Hit as (Hr & Hle & a & Ha & Hn).
  pose proof (lw_size _ _ Hwf) as Hsz. unfold spec_next. cbn [sp_elems s]. rewrite length_fmap.
  case_decide as Hd.
  - rewrite Hend by lia. exists self. split; [done|]. exists l. split; [done|]. split; [done|]. split; [done|]. split; [done|]. by exists a.
  - destruct (Hs self l i a Hwf Ha Hn) as (b & Hb & ->); [lia|]. cbn [mbind outcome_bind].
    eexists. split; [done|]. rewrite Hr. apply next_repr; [done|lia|done].
Qed.

Lemma spec_keeps c sp :
  keeps_iter c = true ->
  (list_spec_step c sp).2 = match c with SetClean f => ListSpec (sp_elems sp) f (sp_cleaned sp) | _ => sp end.
Proof. by destruct c. Qed.

Lemma call_exec_refines c self s :
  call_repr self s -> call_ok c self s.2 ->
  exists self', call_exec c self = Ret ((call_spec c s).1, self') /\ call_repr self' (call_spec c s).2.
Proof.
  destruct s as [sp it]. intros (l & Hwf & Hsp & Hit) Hok. cbn [fst snd] in *. subst sp.
  destruct c as [c|is_reverse| |]; cbn [call_exec call_spec call_ok sp_elems] in *; rewrite ?length_fmap.
  - destruct (list_exec_refines c self _ (ex_intro _ l (conj Hwf eq_refl)) Hok) as (self' & He & Hr).
    rewrite He. pose proof (spec_keeps c (ListSpec l.*2 (func_clean_ self) (ld_cleaned self))) as Hs.
    destruct (list_spec_step c _) as [r sp]. cbn [fst snd] in *. exists self'. split; [done|].
    destruct (keeps_iter c) eqn:Hk; [|destruct Hr as (l' & Hwf' & ->); by exists l'].
    specialize (Hs eq_refl). exists l.
    destruct c; try done; cbn [list_exec] in He; unfold ret_elem in He; subst sp;
      try match type of He with (?o ≫= _) = _ => destruct o; [|done..] end;
      injection He as _ <-; (split; [by destruct Hwf|done]).
  - unfold ListFirst. rewrite (lw_head _ _ Hwf).
    destruct l as [|[a x] l]; [by exists self; split; [|exists []]|]. cbn [head fmap list_fmap fst].
    destruct (node_at_index self _ 0 a Hwf eq_refl) as (x' & p & n & -> & _ & _ & Hp).
    cbn [mbind outcome_bind pred_]. rewrite decide_False by done. eexists. split; [done|].
    exists ((a, x) :: l). split; [by apply wf_set_iter|]. split; [done|]. cbn [snd iter_repr].
    split; [done|]. split; [lia|]. destruct is_reverse; by eexists.
  - apply next_refines; [apply ListNext_steps| |done..].
    intros self' Hr. unfold ListNext. by rewrite Hr, Z.eqb_refl.
  - apply next_refines; [apply ListReverseNext_steps| |done..].
    intros self' Hr. unfold ListReverseNext. by rewrite Hr, Z.eqb_refl.
Qed.

Fixpoint call_run (cs : list list_call) self : outcome (list list_ret * list_data) :=
  match cs with
  | [] => Ret ([], self)
  | c :: cs =>
      '(r, self) ← call_exec c self;
      '(rs, self) ← call_run cs self; Ret (r :: rs, self)
  end.

Fixpoint call_spec_run (cs : list list_call) (s : list_spec * iter) : list list_ret * (list_spec * iter) :=
  match cs with
  | [] => ([], s)
  | c :: cs =>
      let '(r, s) := call_spec c s in
      let '(rs, s) := call_spec_run cs s in (r :: rs, s)
  end.

Fixpoint calls_ok (cs : list list_call) self (s : list_spec * iter) : Prop :=
  match cs with
  | [] => True
  | c :: cs =>
      call_ok c self s.2 /\
      match call_exec c self with Ret (_, self) => calls_ok cs self (call_spec c s).2 | _ => True end
  end.

Lemma call_run_refines cs self s :
  call_repr self s -> calls_ok cs self s ->
  exists self', call_run cs self = Ret ((call_spec_run cs s).1, self') /\
    call_repr self' (call_spec_run cs s).2.
Proof.
  revert self s. induction cs as [|c cs IH]; intros self s Hr Hok; [by exists self|].
  destruct Hok as [Hc Hok]. destruct (call_exec_refines c self s Hr Hc) as (self1 & Heq & Hr1).
  rewrite Heq in Hok. destruct (IH self1 (call_spec c s).2 Hr1 Hok) as (self2 & Hrun & Hr2).
  exists self2. cbn [call_run call_spec_run]. rewrite Heq. cbn [mbind outcome_bind].
  rewrite Hrun. cbn [mbind outcome_bind].
  destruct (call_spec c s) as [r s1]. cbn [fst snd] in *.
  by destruct (call_spec_run cs s1) as [rs s2].
Qed.

Lemma call_repr_list self s : call_repr self s -> list_repr self s.1.
Proof. intros (l & Hwf & -> & _). by exists l. Qed.

Lemma call_init_repr round : call_repr (ListInit round) (ListSpec [] false [], None).
Proof. exists []. split; [|done]. split; try done. constructor. Qed.

Lemma list_init_repr round : list_repr (ListInit round) (ListSpec [] false []).
Proof. exists []. split; [|done]. split; try done. constructor. Qed.

(** ** Taking a list down *)

Lemma deinit_loop_spec fuel self p a x l head :
  ld_nodes self = seg p ((a, x) :: l) head -> NoDup ((a, x) :: l).*1 ->
  head ∉ l.*1 -> (length l < fuel)%nat ->
  exists self', deinit_loop fuel self a head = Ret self' /\ ld_nodes self' = ∅ /\
    ld_cleaned self' = ld_cleaned self ++ (if func_clean_ self then x :: l.*2 else []).
Proof.
  revert self p a x l. induction fuel as [|fuel IH]; intros self p a x l Hns Hnd Hh Hf; [lia|].
  apply NoDup_cons in Hnd as [Ha Hnd]. change (a ∉ l.*1) in Ha. cbn [seg] in Hns.
  cbn [deinit_loop]. unfold clean_and_free, load. rewrite Hns, lookup_insert_eq.
  cbn [deref mbind outcome_bind succ_ element_].
  destruct (clean_fields self x) as (Hcn & _ & _ & Hcf & Hcc).
  set (self1 := free_node (clean self x) a).
  assert (ld_nodes self1 = seg a l head) as Hns1.
  { unfold self1. simpl. rewrite Hcn, Hns. apply delete_insert_id. by apply seg_none. }
  destruct l as [|[b y] l].
  - change (hd_addr [] head) with head. rewrite Z.eqb_refl. exists self1.
    split_and!; [done|done|exact Hcc].
  - change (hd_addr ((b, y) :: l) head) with b. destruct (Z.eqb_spec b head) as [->|Hne].
    { destruct Hh. by apply elem_of_cons; left. }
    destruct (IH self1 a b y l Hns1 Hnd) as (self' & Heq & Hn & Hc).
    + intros Hin. apply Hh. by apply elem_of_cons; right.
    + simpl in Hf. lia.
    + exists self'. split_and!; [done|done|]. rewrite Hc. change (func_clean_ self1) with (func_clean_ (clean self x)).
      change (ld_cleaned self1) with (ld_cleaned (clean self x)). rewrite Hcf, Hcc, <- app_assoc.
      by destruct (func_clean_ self).
Qed.

Lemma ListDeinit_spec self sp :
  list_repr self sp ->
  exists self', ListDeinit self = Ret self' /\ ld_nodes self' = ∅ /\
    ld_cleaned self' = sp_cleaned sp ++ (if sp_clean sp then sp_elems sp else []).
Proof.
  intros (l & [Hns Hnd Hh Hs Hb] & ->). unfold ListDeinit. rewrite Hh. simpl.
  destruct l as [|[a x] l].
  - exists self. split_and!; [done|exact Hns|]. simpl. destruct (func_clean_ self); by rewrite app_nil_r.
  - cbn [head fmap list_fmap fst]. unfold ring in Hns.
    apply (deinit_loop_spec _ _ _ _ _ _ _ Hns Hnd).
    + by apply NoDup_cons in Hnd as [? _].
    + simpl in Hs. lia.
Qed.

(** ** Iterating *)

(** [while (ListNext(list, &e))], collecting the elements. *)
Fixpoint list_traverse (next : list_data -> outcome (option A * list_data)) (fuel : nat) self :
    outcome (list A * list_data) :=
  match fuel with
  | O => NoFuel
  | S fuel =>
      '(e, self) ← next self;
      match e with
      | None => Ret ([], self)
      | Some e => '(es, self) ← list_traverse next fuel self; Ret (e :: es, self)
      end
  end.

(** The iterator has given [l1] and is to give [l2]. *)
Record list_iter self (l1 l2 : list (Z * A)) : Prop := ListIter {
  li_wf : list_wf self (l1 ++ l2);
  li_round : iter_round_ self = Z.of_nat (length l1);
  li_node : iter_node_ self = Some (hd_addr (l2 ++ l1) 0) }.

Lemma ListFirst_spec self l :
  list_wf self l -> l <> [] ->
  exists self', ListFirst self false = Ret self' /\ list_iter self' [] l /\
    self' = ld_set_iter self (iter_round_ self') (iter_node_ self').
Proof.
  intros Hwf Hne. pose proof Hwf as [Hns _ Hh _ _]. unfold ListFirst.
  destruct l as [|[a x] l]; [done|]. rewrite Hh. cbn [head fmap list_fmap fst].
  rewrite Hns, (load_eq _ _ _ (ring_first _ _ _)). cbn [mbind outcome_bind].
  eexists. split; [done|]. split; [|done]. split; [by apply wf_set_iter|done|done].
Qed.

Lemma ListNext_spec self l1 a x l2 :
  list_iter self l1 ((a, x) :: l2) ->
  exists self', ListNext self = Ret (Some x, self') /\ list_iter self' (l1 ++ [(a, x)]) l2 /\
    self' = ld_set_iter self (iter_round_ self') (iter_node_ self').
Proof.
  intros [Hwf Hr Hn]. pose proof Hwf as [Hns Hnd Hh Hs Hb]. unfold ListNext.
  rewrite length_app in Hs. simpl in Hs.
  destruct (Z.eqb_spec (iter_round_ self) (size_ self)); [lia|]. rewrite Hn.
  cbn [deref mbind outcome_bind]. change (hd_addr _ 0) with a.
  rewrite (list_wf_lookup _ _ _ _ _ _ Hwf eq_refl). cbn [mbind outcome_bind element_ succ_].
  eexists. split; [done|]. split; [|done]. split.
  - rewrite <- app_assoc. by apply wf_set_iter.
  - simpl. rewrite u32_small, Hr, length_app by lia. simpl. lia.
  - simpl. by rewrite !hd_addr_app.
Qed.

Lemma ListNext_end self l : list_iter self l [] -> ListNext self = Ret (None, self).
Proof.
  intros [[_ _ _ Hs _] Hr _]. unfold ListNext. rewrite Hr, Hs, app_nil_r. by rewrite Z.eqb_refl.
Qed.

Lemma list_traverse_next fuel self l1 l2 :
  list_iter self l1 l2 -> (length l2 < fuel)%nat ->
  exists self', list_traverse ListNext fuel self = Ret (l2.*2, self') /\
    self' = ld_set_iter self (iter_round_ self') (iter_node_ self').
Proof.
  revert self l1 l2. induction fuel as [|fuel IH]; intros self l1 l2 Hit Hf; [lia|].
  cbn [list_traverse]. destruct l2 as [|[a x] l2].
  - rewrite (ListNext_end _ _ Hit). cbn [mbind outcome_bind]. exists self. split; [done|].
    by destruct self.
  - destruct (ListNext_spec _ _ _ _ _ Hit) as (self1 & -> & Hit1 & Hself1).
    cbn [mbind outcome_bind]. destruct (IH self1 _ l2 Hit1) as (self2 & -> & Hself2);
      [simpl in Hf; lia|]. exists self2. split; [done|]. rewrite Hself2 at 1. by rewrite Hself1.
Qed.

(** Nothing is left to iterate over, but the iterator was not reset. *)
Lemma list_next_empty self :
  list_wf self [] -> iter_round_ self <> 0 -> ListNext self = Undefined.
Proof.
  intros [Hns _ _ Hs _] Hr. unfold ListNext. rewrite Hs. change (Z.of_nat (length [])) with 0.
  destruct (Z.eqb_spec (iter_round_ self) 0); [done|].
  destruct (iter_node_ self) as [p|]; [|done]. cbn [deref mbind outcome_bind].
  unfold load. rewrite Hns. change (ring []) with (∅ : nodes). by rewrite lookup_empty.
Qed.

Lemma ListRemove_iter self idx b self' :
  ListRemove self idx = Ret (b, self') -> iter_round_ self' = iter_round_ self.
Proof.
  unfold ListRemove, clean_and_free, store_succ, store_pred, load.
  destruct (size_ self <=? idx); [by intros [= _ <-]|].
  destruct (head_ self) as [h|]; [|done]. cbn [deref mbind outcome_bind].
  destruct (list_walk _ _ _) as [t| | |]; [|done..]. cbn [mbind outcome_bind].
  repeat match goal with
  | |- context [?m !! ?k] => destruct (m !! k); cbn [deref mbind outcome_bind]; [|done]
  end.
  intros [= _ <-]. unfold clean.
  by destruct (size_ self =? 1), (t =? h); simpl; destruct (func_clean_ self).
Qed.

(** Removing where the iterator stopped. *)
Lemma ListRemove_middle self l1 a x l2 :
  list_wf self (l1 ++ (a, x) :: l2) ->
  exists self', ListRemove self (Z.of_nat (length l1)) = Ret (true, self') /\
    list_repr self' (sp_drop (ListSpec [] (func_clean_ self) (ld_cleaned self)) (l1 ++ l2).*2 x) /\
    iter_round_ self' = iter_round_ self.
Proof.
  intros Hwf. destruct (ListRemove_refines self _ (Z.of_nat (length l1)) Hwf) as (self' & He & Hr);
    [lia|]. rewrite Nat2Z.id in He, Hr. unfold spec_remove in He, Hr. cbn [sp_elems] in He, Hr.
  rewrite fmap_app, fmap_cons, <- (length_fmap snd l1), list_lookup_middle in He, Hr by done.
  cbn [fst snd] in He, Hr. rewrite delete_middle, <- fmap_app in Hr.
  rewrite length_fmap in He.
  destruct (ListRemove self _) as [[b self1]| | |] eqn:Hrem; [|done..].
  cbn [ret_bool mbind outcome_bind] in He. injection He as -> ->. exists self'.
  split_and!; [done|exact Hr|by eapply ListRemove_iter].
Qed.
End linked_list.
Arguments list_data A : clear implicits.
Arguments list_cmd A : clear implicits.
Arguments list_call A : clear implicits.
Arguments list_spec A : clear implicits.

(** C23. A list that was initialised behaves as an abstract list with an iterator
    under every sequence of calls: each returns what the abstract list gives, at both
    ends, at every index and outside the range, also when [malloc] fails;
    [ListNext] and [ListReverseNext] after [ListFirst] give the elements in their
    order, each once; and the cleanup function is called for the elements that go,
    once each.  No freed or unallocated node is touched, and at any moment the nodes
    of the list are exactly its elements: taking the list down frees every node.
    The calls respect [calls_ok]: an empty list is not reversed, and
    [ListNext] follows a [ListFirst] since which the list was not empty and has not
    changed ([list_iteration] and C25 show what happens otherwise). *)
Theorem linked_list_refines_list {A} (cs : list (list_call A)) (iter_round : Z) :
  let s0 := (ListSpec [] false [], None) in
  calls_ok cs (ListInit iter_round) s0 ->
  let '(rs, (sp, _)) := call_spec_run cs s0 in
  exists self self', call_run cs (ListInit iter_round) = Ret (rs, self) /\
    list_repr self sp /\
    ListDeinit self = Ret self' /\ ld_nodes self' = ∅ /\
    ld_cleaned self' = sp_cleaned sp ++ (if sp_clean sp then sp_elems sp else []).
Proof.
  intros s0 Hok. destruct (call_run_refines cs _ _ (call_init_repr iter_round) Hok) as (self & Hrun & Hr).
  fold s0 in Hrun, Hr. apply call_repr_list in Hr. destruct (call_spec_run cs s0) as [rs [sp it]].
  destruct (ListDeinit_spec _ _ Hr) as (self' & Hd & Hn & Hc). by exists self, self'.
Qed.

Definition example_calls : list (list_call Z) :=
  [First false; Call (PushFront (Some 16) 1); Call (PushBack (Some 32) 2); Call (SetClean true);
   Call (InsertAt 1 (Some 48) 3); First false; Next; Next; Call GetBack; ReverseNext; Next;
   First true; ReverseNext; Call Reverse; Call (PushBack None 9); Call (GetAt 1); Call (RemoveAt 0);
   Call PopBack; Call PopFront; Call PopFront; Call Size; Call (PushFront (Some 16) 4)].

Lemma linked_list_refines_list_witness :
  calls_ok example_calls (ListInit 77) (ListSpec [] false [], None) /\
  exists rs self, call_run example_calls (ListInit 77) = Ret (rs, self) /\
    rs = [RUnit; RBool true; RBool true; RUnit; RBool true; RUnit; RElem (Some 1); RElem (Some 3);
          RElem (Some 2); RElem (Some 2); RElem None; RUnit; RElem (Some 2); RUnit; RBool false;
          RElem (Some 3); RBool true; RBool true; RBool true; RBool false; RSize 0; RBool true] /\
    list_repr self (ListSpec [4] true [2; 1; 3]).
Proof.
  assert (calls_ok example_calls (ListInit 77) (ListSpec [] false [], None)) as Hok.
  { vm_compute. repeat split; try (intros H; discriminate H); by eexists. }
  split; [exact Hok|].
  destruct (linked_list_refines_list example_calls 77 Hok) as (self & self' & Hrun & Hr & _).
  eexists _, self. split; [exact Hrun|]. split; [reflexivity|exact Hr].
Defined.

(** Iterating over a list. After [ListFirst], calling [ListNext] until it
    returns [false] gives the elements in order, each once, and leaves the list
    as it was.  [ListFirst] does nothing on an empty list: if elements were given
    out before, the next [ListNext] reads a node that was freed. *)
Theorem list_iteration {A} (self : list_data A) (sp : list_spec A) :
  list_repr self sp ->
  (sp_elems sp <> [] ->
   exists self1 self2, ListFirst self false = Ret self1 /\
     list_traverse ListNext (S (length (sp_elems sp))) self1 = Ret (sp_elems sp, self2) /\
     list_repr self2 sp) /\
  (sp_elems sp = [] -> ListFirst self false = Ret self /\
     (iter_round_ self = 0 -> ListNext self = Ret (None, self)) /\
     (iter_round_ self <> 0 -> ListNext self = Undefined)).
Proof.
  intros (l & Hwf & ->). cbn [sp_elems]. rewrite length_fmap. split.
  - intros Hne. destruct (ListFirst_spec self l Hwf) as (self1 & Hf & Hit & Hs1); [by intros ->|].
    destruct (list_traverse_next (S (length l)) self1 [] l Hit) as (self2 & Ht & Hs2); [lia|].
    exists self1, self2. split_and!; [done|done|]. exists l. rewrite Hs2, Hs1. split; [|done].
    by do 2 apply wf_set_iter.
  - intros Hnil. apply fmap_nil_inv in Hnil as ->. split_and!.
    + unfold ListFirst. by rewrite (lw_head _ _ Hwf).
    + intros Hr. unfold ListNext. rewrite Hr, (lw_size _ _ Hwf). reflexivity.
    + by apply list_next_empty.
Qed.

Lemma list_iteration_witness :
  exists self, call_run [Call (PushFront (Some 16) 5); Call (PushBack (Some 32) 6)] (ListInit 0) =
      Ret ([RBool true; RBool true], self) /\
    exists self1 self2, ListFirst self false = Ret self1 /\
      list_traverse ListNext 3 self1 = Ret ([5; 6], self2).
Proof.
  assert (calls_ok [Call (PushFront (Some 16) 5); Call (PushBack (Some 32) 6)] (ListInit 0) (ListSpec [] false [], None)) as Hok.
  { vm_compute. repeat split; intros H; discriminate H. }
  destruct (call_run_refines _ _ _ (call_init_repr 0) Hok) as (self & Hrun & Hr). apply call_repr_list in Hr.
  exists self. split; [exact Hrun|].
  destruct (list_iteration self _ Hr) as [Hne _].
  destruct Hne as (self1 & self2 & Hf & Ht & _); [discriminate|].
  exists self1, self2. split; [exact Hf|exact Ht].
Defined.
