(* ===== verification/PrioThread.v ===== *)
(** * The priority threads ([lwip/custom/stack/src/prio_thread.c])

    A thread per priority moves the operations of its sockets to the transmit
    queue.  A handler is one step here; [Threads] cuts it at what it shares with
    the main thread, single-writer counters and the ring buffers of [RingSpsc]. The futex system
    calls are outside: what [futex_waitv] returns is an argument. *)
From S2P Require Import Prelude RingView RingBuffer ByteBuffer Memory Shmem.
From S2P Require Import Operation PrioRing SocketRegion Lwip Stack StackSpec StackExample.
From S2P Require Import LinkedList.

Definition TX_MAX_FUTEXES_PER_THREAD : Z := 128.
Definition TX_MAX_PARALLEL_OPS_PER_SOCKET : Z := 10.
Definition DISCOVERY_MAX_NEW_SOCKETS : Z := 10.

Record pifus_new_socket_queue := NewSocketQueue {
  socket_queue : ring_buffer;
  socket_queue_buffer : arr pifus_socket_identifier;
  socket_queue_futex : Z }.

Definition nq_set_queue (q : pifus_new_socket_queue) (rb : ring_buffer) : pifus_new_socket_queue :=
  NewSocketQueue rb (socket_queue_buffer q) (socket_queue_futex q).

(** What a [uaddr] of [struct futex_waitv] points to. *)
Inductive futex_addr :=
  | SqueueFutex (socket : Z)
  | SocketQueueFutex.

Record futex_waitv := FutexWaitv { wv_uaddr : futex_addr; wv_val : Z }.

(** The locals of [prio_thread_loop]. An element of the list is the address of an
    entry of [socket_ptrs]. *)
Record prio_thread := PrioThread {
  pt_list : list_data pifus_socket_identifier;
  pt_waitvs : arr futex_waitv;
  pt_socket_from_futex_nr : arr (option Z);
  pt_new_socket_queue_futex_shadow : Z }.

Definition pt_set_list (t : prio_thread) (l : list_data pifus_socket_identifier) : prio_thread :=
  PrioThread l (pt_waitvs t) (pt_socket_from_futex_nr t) (pt_new_socket_queue_futex_shadow t).

Definition has_socket_max_parallel_ops (s : pifus_socket) : bool :=
  TX_MAX_PARALLEL_OPS_PER_SOCKET <=? u64 (so_enqueued_ops s - so_dequeued_ops s).

Section prio_thread.
Context `{LW : Lwip}.
Implicit Types (st : stack) (s : pifus_socket) (t : prio_thread) (l : prio_level).

(** [socket_ptrs[app_index][socket_index]]. *)
Definition socket_ptr st (id : pifus_socket_identifier) : option Z :=
  st_socket_ptrs st (app_index id) (socket_index id).
Definition socket_futex st (id : pifus_socket_identifier) : Z :=
  st_socket_futexes st (app_index id) (socket_index id).
Definition set_socket_futex st (id : pifus_socket_identifier) (x : Z) : stack :=
  st_set_socket_futexes st
    (<[app_index id := <[socket_index id := x]> (st_socket_futexes st (app_index id))]>
       (st_socket_futexes st)).

(** The loop of [handle_squeue_change] of the thread of level [l]. *)
Fixpoint squeue_loop (fuel : nat) st (socket : Z) l (shadow_actual_difference : Z) :
    outcome stack :=
  match fuel with
  | O => NoFuel
  | S fuel =>
      let s := st_sockets st socket in
      if (0 <? shadow_actual_difference) && negb (has_socket_max_parallel_ops s) then
        match ring_buffer_peek (so_squeue s) with
        | Some i =>
            let internal_op := InternalOp (so_squeue_buffer s i) socket in
            let '(ok, q) := pr_put (st_tx_queue st) l internal_op in
            if (ok : bool) then
              let st := st_set_tx_queue st q in
              let '(_, squeue) := ring_buffer_erase_first (so_squeue s) in
              let s := set_squeue s squeue in
              let id := so_identifier s in
              let st := set_socket_futex st id (u32 (socket_futex st id + 1)) in
              let s := set_enqueued_ops s (u64 (so_enqueued_ops s + 1)) in
              squeue_loop fuel (set_socket st socket s) socket l
                (u64 (shadow_actual_difference - 1))
            else Ret st
        | None => Ret st
        end
      else Ret st
  end.

(** A socket gets at most [TX_MAX_PARALLEL_OPS_PER_SOCKET] operations in. *)
Definition squeue_fuel : nat := Z.to_nat TX_MAX_PARALLEL_OPS_PER_SOCKET + 1.

Definition handle_squeue_change st (socket : Z) l : outcome stack :=
  let s := st_sockets st socket in
  let old_shadow_value := socket_futex st (so_identifier s) in
  let shadow_actual_difference := u32 (so_squeue_futex s - old_shadow_value) in
  squeue_loop squeue_fuel st socket l shadow_actual_difference.

(** The first loop of [fill_prio_waitv]; it returns the count and whether a
    socket of the list was closed. *)
Fixpoint fill_waitv_loop (fuel : nat) st t l (current_amount_futexes : Z)
    (removable_socket_inside_list : bool) : outcome (stack * prio_thread * Z * bool) :=
  match fuel with
  | O => NoFuel
  | S fuel =>
      '(socket_ptr_ptr, list) ← ListNext (pt_list t);
      let t := pt_set_list t list in
      match socket_ptr_ptr with
      | None => Ret (st, t, current_amount_futexes, removable_socket_inside_list)
      | Some id =>
          match socket_ptr st id with
          | None => fill_waitv_loop fuel st t l current_amount_futexes true
          | Some socket =>
              let s := st_sockets st socket in
              let sid := so_identifier s in
              st ← (if negb (so_squeue_futex s =? socket_futex st sid) then
                      handle_squeue_change st socket l
                    else Ret st);
              let n := current_amount_futexes in
              let w := FutexWaitv (SqueueFutex socket) (socket_futex st sid) in
              let t := PrioThread (pt_list t) (<[n := w]> (pt_waitvs t))
                         (<[n := Some socket]> (pt_socket_from_futex_nr t))
                         (pt_new_socket_queue_futex_shadow t) in
              fill_waitv_loop fuel st t l (u8 (n + 1)) removable_socket_inside_list
          end
      end
  end.

(** The inner loop that looks for a closed socket and removes it. *)
Fixpoint remove_closed_loop (fuel : nat) st (list : list_data pifus_socket_identifier)
    (current_index : Z) : outcome (list_data pifus_socket_identifier) :=
  match fuel with
  | O => NoFuel
  | S fuel =>
      '(socket_ptr_ptr, list) ← ListNext list;
      match socket_ptr_ptr with
      | None => Ret list
      | Some id =>
          match socket_ptr st id with
          | None => '(_, list) ← ListRemove list current_index; Ret list
          | Some _ => remove_closed_loop fuel st list (u16 (current_index + 1))
          end
      end
  end.

Definition list_fuel (list : list_data pifus_socket_identifier) : nat :=
  S (Z.to_nat (size_ list)).

(** The [while] loop around the removal runs at most once: the code resets its
    condition at the end of the body. *)
Definition fill_prio_waitv st t l : outcome (stack * prio_thread * Z) :=
  list ← ListFirst (pt_list t) false;
  '(st, t, current_amount_futexes, removable_socket_inside_list) ←
    fill_waitv_loop (list_fuel list) st (pt_set_list t list) l 0 false;
  if (removable_socket_inside_list : bool) then
    list ← ListFirst (pt_list t) false;
    list ← remove_closed_loop (list_fuel list) st list 0;
    Ret (st, pt_set_list t list, current_amount_futexes)
  else Ret (st, t, current_amount_futexes).

(** The loop that adds new sockets. [malloc] answers for a given heap. *)
Fixpoint add_sockets_loop (malloc : list_data pifus_socket_identifier -> option Z) (fuel : nat)
    t (q : pifus_new_socket_queue) : outcome (prio_thread * pifus_new_socket_queue) :=
  match fuel with
  | O => NoFuel
  | S fuel =>
      let '(new_socket, rb) := ring_buffer_get (socket_queue q) (socket_queue_buffer q) in
      let q := nq_set_queue q rb in
      match new_socket with
      | None => Ret (t, q)
      | Some new_socket =>
          '(_, list) ← ListPushFront (pt_list t) (malloc (pt_list t)) new_socket;
          add_sockets_loop malloc fuel
            (PrioThread list (pt_waitvs t) (pt_socket_from_futex_nr t)
               (u32 (pt_new_socket_queue_futex_shadow t + 1))) q
      end
  end.

(** One iteration up to the system call: the futexes to wait on, and how many. *)
Definition prio_thread_prepare (malloc : list_data pifus_socket_identifier -> option Z)
    st t l (q : pifus_new_socket_queue) :
    outcome (stack * prio_thread * pifus_new_socket_queue * Z) :=
  '(t, q) ← add_sockets_loop malloc (S (Z.to_nat (rb_end (socket_queue q)))) t q;
  '(st, t, amount_futexes) ← fill_prio_waitv st t l;
  let w := FutexWaitv SocketQueueFutex (pt_new_socket_queue_futex_shadow t) in
  let t := PrioThread (pt_list t) (<[amount_futexes := w]> (pt_waitvs t))
             (pt_socket_from_futex_nr t) (pt_new_socket_queue_futex_shadow t) in
  Ret (st, t, q, u8 (amount_futexes + 1)).

(** The rest of the iteration, after [futex_waitv] returned [ret_code]. *)
Definition prio_thread_wake st t l (ret_code : Z) : outcome (stack * prio_thread) :=
  if 0 <=? ret_code then
    st ← match pt_socket_from_futex_nr t ret_code with
         | None => Ret st
         | Some socket => handle_squeue_change st socket l
         end;
    Ret (st, PrioThread (pt_list t) (pt_waitvs t)
               (fun i => if (0 <=? i) && (i <? TX_MAX_FUTEXES_PER_THREAD) then None
                         else pt_socket_from_futex_nr t i)
               (pt_new_socket_queue_futex_shadow t))
  else Ret (st, t).

(** ** Moving operations *)

Definition inflight s : Z := u64 (so_enqueued_ops s - so_dequeued_ops s).

Definition internal (p : Z) (op : pifus_operation) : pifus_internal_operation := InternalOp op p.

(** The first [n] operations of socket [p] went to the ring of level [l], and
    nothing else changed. *)
Record squeue_moved (p : Z) l (n : nat) st st' : Prop := SqueueMoved {
  sm_squeue : sq_list (st_sockets st' p) = drop n (sq_list (st_sockets st p));
  sm_socket : exists sq enq, st_sockets st' p =
    set_enqueued_ops (set_squeue (st_sockets st p) sq) enq /\
    (rb_wf (so_squeue (st_sockets st p)) -> rb_wf sq) /\
    u64 enq = u64 (so_enqueued_ops (st_sockets st p) + Z.of_nat n);
  sm_others : forall q, q <> p -> st_sockets st' q = st_sockets st q;
  sm_list : forall l', pr_list (st_tx_queue st') l' =
    pr_list (st_tx_queue st) l' ++
    (if decide (l' = l) then internal p <$> take n (sq_list (st_sockets st p)) else []);
  sm_room : forall l', pr_room (st_tx_queue st') l' =
    pr_room (st_tx_queue st) l' - (if decide (l' = l) then Z.of_nat n else 0);
  sm_wf : pr_wf (st_tx_queue st) -> pr_wf (st_tx_queue st');
  sm_ends : last_peek (st_tx_queue st') = last_peek (st_tx_queue st) /\
    forall l', rb_end (tx_rb (pr_get (st_tx_queue st') l')) =
               rb_end (tx_rb (pr_get (st_tx_queue st) l'));
  sm_futex : u32 (socket_futex st' (so_identifier (st_sockets st p))) =
    u32 (socket_futex st (so_identifier (st_sockets st p)) + Z.of_nat n);
  sm_futexes : forall id, id <> so_identifier (st_sockets st p) ->
    socket_futex st' id = socket_futex st id;
  sm_apps : st_apps st' = st_apps st;
  sm_ptrs : st_socket_ptrs st' = st_socket_ptrs st;
  sm_lwip : st_lwip st' = st_lwip st;
  sm_full : st_full_sndbuf_iterations st' = st_full_sndbuf_iterations st }.

Lemma squeue_moved_0 p l st : squeue_moved p l 0 st st.
Proof.
  split; try done.
  - eexists (so_squeue (st_sockets st p)), (so_enqueued_ops (st_sockets st p)).
    split_and!; [by destruct (st_sockets st p)|done|]. f_equal. lia.
  - intros l'. rewrite take_0. simpl. case_decide; by rewrite app_nil_r.
  - intros l'. case_decide; lia.
  - f_equal. lia.
Qed.

Lemma u64_add_l x y : u64 (u64 x + y) = u64 (x + y).
Proof. unfold u64. by rewrite Zplus_mod_idemp_l. Qed.

Lemma u64_congr_add x y z : u64 x = u64 y -> u64 (x + z) = u64 (y + z).
Proof. intros H. by rewrite <- (u64_add_l x), H, u64_add_l. Qed.

Lemma u32_congr_add x y z : u32 x = u32 y -> u32 (x + z) = u32 (y + z).
Proof. intros H. by rewrite <- (u32_add x), H, u32_add. Qed.

Lemma squeue_moved_trans p l n1 n2 st1 st2 st3 :
  squeue_moved p l n1 st1 st2 -> squeue_moved p l n2 st2 st3 ->
  squeue_moved p l (n1 + n2) st1 st3.
Proof.
  intros [Q1 (sq1 & e1 & S1 & W1 & E1) O1 L1 R1 F1 [D1 D1'] X1 X1' A1 P1 I1 Y1]
    [Q2 (sq2 & e2 & S2 & W2 & E2) O2 L2 R2 F2 [D2 D2'] X2 X2' A2 P2 I2 Y2].
  assert (so_identifier (st_sockets st2 p) = so_identifier (st_sockets st1 p)) as Hid
    by (by rewrite S1).
  rewrite Hid in X2, X2'.
  split; try (congruence || (by auto)).
  - by rewrite Q2, Q1, drop_drop.
  - exists sq2, e2. rewrite S2, S1. split_and!; [done| |].
    + intros Hw. apply W2. rewrite S1. by apply W1.
    + rewrite E2, S1. simpl. rewrite Nat2Z.inj_add, Z.add_assoc. by apply u64_congr_add.
  - intros q Hq. by rewrite O2, O1.
  - intros l'. rewrite L2, L1, <- app_assoc. f_equal. case_decide; [|done].
    rewrite <- fmap_app, Q1. f_equal. by rewrite take_take_drop.
  - intros l'. rewrite R2, R1. case_decide; lia.
  - split; [congruence|]. intros l'. by rewrite D2', D1'.
  - rewrite X2, (u32_congr_add _ _ _ X1). f_equal. lia.
  - intros id Hne. by rewrite X2', X1'.
Qed.

(** One operation. *)
Lemma squeue_moved_one p l st i q :
  pr_wf (st_tx_queue st) -> rb_wf (so_squeue (st_sockets st p)) ->
  ring_buffer_peek (so_squeue (st_sockets st p)) = Some i ->
  pr_put (st_tx_queue st) l (InternalOp (so_squeue_buffer (st_sockets st p) i) p) = (true, q) ->
  let s := set_squeue (st_sockets st p) (ring_buffer_erase_first (so_squeue (st_sockets st p))).2 in
  let id := so_identifier s in
  let st1 := st_set_tx_queue st q in
  let st2 := set_socket_futex st1 id (u32 (socket_futex st1 id + 1)) in
  squeue_moved p l 1 st
    (set_socket st2 p (set_enqueued_ops s (u64 (so_enqueued_ops s + 1)))).
Proof.
  intros Hpr Hsq Hpeek Hput s id st1 st2.
  pose proof (pr_put_spec (st_tx_queue st) l
    (InternalOp (so_squeue_buffer (st_sockets st p) i) p) Hpr) as Hspec.
  rewrite Hput in Hspec. destruct Hspec as (Hw & Hlp & _ & Hl & Hr & He).
  pose proof (ring_buffer_erase_first_spec _ (so_squeue_buffer (st_sockets st p)) Hsq) as Her.
  destruct (ring_buffer_peek_some _ (so_squeue_buffer (st_sockets st p)) _ Hsq Hpeek) as [_ Hhd].
  fold (sq_list (st_sockets st p)) in Hhd.
  unfold s in *. clear s. destruct (ring_buffer_erase_first (so_squeue (st_sockets st p))) as [ok sq].
  destruct Her as (Hsqw & _ & _ & _ & Hc). cbn [snd] in *.
  split; try done.
  - rewrite set_socket_eq. unfold sq_list in *. simpl. rewrite Hc. by destruct (rb_contents _ _).
  - rewrite set_socket_eq. do 2 eexists. split_and!; [done|done|].
    simpl. change (Z.of_nat 1) with 1. apply u64_small, u64_range.
  - intros x Hx. simpl. by rewrite arr_insert_ne.
  - intros l'. simpl. rewrite Hl. case_decide as Hd; [subst l'|by rewrite app_nil_r].
    rewrite Hhd. done.
  - split; [done|]. intros l'. by destruct (He l').
  - unfold socket_futex. simpl. fold id. change (so_identifier (st_sockets st p)) with id.
    rewrite !arr_insert_eq. apply u32_small, u32_range.
  - intros id' Hne. change (so_identifier (st_sockets st p)) with id in Hne.
    unfold socket_futex. simpl. fold id.
    destruct (decide (app_index id' = app_index id)) as [Ha|Ha]; [|by rewrite arr_insert_ne].
    rewrite Ha, arr_insert_eq, arr_insert_ne; [done|]. intros Hs. apply Hne.
    destruct id, id'. simpl in *. congruence.
Qed.

(** How many operations a change of the submission queue lets in. *)
Definition admitted st (p : Z) l (diff : Z) : Z :=
  Z.min diff (Z.min (Z.of_nat (length (sq_list (st_sockets st p))))
    (Z.min (pr_room (st_tx_queue st) l)
      (Z.max 0 (TX_MAX_PARALLEL_OPS_PER_SOCKET - inflight (st_sockets st p))))).

Lemma squeue_moved_inflight p l n st st' :
  squeue_moved p l n st st' ->
  Z.of_nat n <= Z.max 0 (TX_MAX_PARALLEL_OPS_PER_SOCKET - inflight (st_sockets st p)) ->
  inflight (st_sockets st' p) = inflight (st_sockets st p) + Z.of_nat n.
Proof.
  intros Hm Hn. destruct (sm_socket _ _ _ _ _ Hm) as (sq & enq & Hs & _ & He). unfold inflight in *. rewrite Hs.
  simpl. pose proof (u64_range (so_enqueued_ops (st_sockets st p) - so_dequeued_ops (st_sockets st p))).
  unfold TX_MAX_PARALLEL_OPS_PER_SOCKET in Hn.
  rewrite <- (u64_small (u64 _ + _)) by lia. rewrite u64_add_l.
  unfold Z.sub at 1. rewrite (u64_congr_add _ _ _ He). f_equal. lia.
Qed.

Lemma squeue_moved_admitted p l st st' diff :
  squeue_moved p l 1 st st' -> 1 <= admitted st p l diff ->
  admitted st' p l (diff - 1) = admitted st p l diff - 1.
Proof.
  intros Hm Ha. unfold admitted in *.
  rewrite (squeue_moved_inflight _ _ _ _ _ Hm) by lia.
  rewrite (sm_squeue _ _ _ _ _ Hm), (sm_room _ _ _ _ _ Hm), decide_True, length_drop by done.
  unfold TX_MAX_PARALLEL_OPS_PER_SOCKET in *. lia.
Qed.

Lemma squeue_loop_spec fuel st p l diff :
  pr_wf (st_tx_queue st) -> rb_wf (so_squeue (st_sockets st p)) -> 0 <= diff < 4294967296 ->
  Z.max 0 (TX_MAX_PARALLEL_OPS_PER_SOCKET - inflight (st_sockets st p)) < Z.of_nat fuel ->
  exists st', squeue_loop fuel st p l diff = Ret st' /\
    squeue_moved p l (Z.to_nat (admitted st p l diff)) st st'.
Proof.
  revert st diff. induction fuel as [|fuel IH]; intros st diff Hpr Hsq Hdiff Hfuel; [lia|].
  cbn [squeue_loop]. unfold has_socket_max_parallel_ops. fold (inflight (st_sockets st p)).
  pose proof (rb_free_bounds _ (Hpr l)) as Hroom. fold (pr_room (st_tx_queue st) l) in Hroom.
  destruct (Z.ltb_spec 0 diff); cbn [andb].
  2: { exists st. replace (admitted st p l diff) with 0 by (unfold admitted; lia).
       split; [done|apply squeue_moved_0]. }
  destruct (Z.leb_spec TX_MAX_PARALLEL_OPS_PER_SOCKET (inflight (st_sockets st p))); cbn [negb].
  { exists st. replace (admitted st p l diff) with 0 by (unfold admitted; lia).
    split; [done|apply squeue_moved_0]. }
  destruct (ring_buffer_peek (so_squeue (st_sockets st p))) as [i|] eqn:Hpeek.
  2: { pose proof (ring_buffer_peek_none _ (so_squeue_buffer (st_sockets st p)) Hsq Hpeek) as Hn.
       exists st. split; [done|]. unfold admitted, sq_list. rewrite Hn. simpl length.
       replace (Z.to_nat _) with 0%nat by lia. apply squeue_moved_0. }
  destruct (ring_buffer_peek_some _ (so_squeue_buffer (st_sockets st p)) i Hsq Hpeek) as [_ Hhd].
  fold (sq_list (st_sockets st p)) in Hhd. apply (f_equal length) in Hhd. cbn [length] in Hhd.
  destruct (pr_put (st_tx_queue st) l _) as [ok q] eqn:Hput.
  pose proof (pr_put_spec (st_tx_queue st) l
    (InternalOp (so_squeue_buffer (st_sockets st p) i) p) Hpr) as Hspec.
  rewrite Hput in Hspec. destruct Hspec as (_ & _ & Hok & _).
  destruct ok; symmetry in Hok; [apply bool_decide_eq_true in Hok|apply bool_decide_eq_false in Hok].
  2: { exists st. replace (admitted st p l diff) with 0 by (unfold admitted; lia).
       split; [done|apply squeue_moved_0]. }
  pose proof (squeue_moved_one p l st i q Hpr Hsq Hpeek Hput) as Hone. cbv zeta in Hone.
  destruct (ring_buffer_erase_first (so_squeue (st_sockets st p))) as [ok sq]. cbn [snd] in Hone.
  match type of Hone with squeue_moved _ _ _ _ ?x => set (st1 := x) in * end.
  assert (1 <= admitted st p l diff) as Hadm by (unfold admitted; lia).
  rewrite u64_small by lia. destruct (IH st1 (diff - 1)) as (st2 & Heq & Hmoved).
  - by apply (sm_wf _ _ _ _ _ Hone).
  - destruct (sm_socket _ _ _ _ _ Hone) as (sq' & e' & -> & Hw & _). by apply Hw.
  - lia.
  - rewrite (squeue_moved_inflight _ _ _ _ _ Hone); lia.
  - exists st2. split; [exact Heq|].
    rewrite (squeue_moved_admitted _ _ _ _ _ Hone Hadm) in Hmoved.
    replace (Z.to_nat (admitted st p l diff)) with (1 + Z.to_nat (admitted st p l diff - 1))%nat
      by lia.
    by eapply squeue_moved_trans.
Qed.

(** What the thread takes as the number of new operations. *)
Definition squeue_diff st (p : Z) : Z :=
  u32 (so_squeue_futex (st_sockets st p) - socket_futex st (so_identifier (st_sockets st p))).

Lemma handle_squeue_change_spec st p l :
  stack_wf st ->
  exists st', handle_squeue_change st p l = Ret st' /\
    squeue_moved p l (Z.to_nat (admitted st p l (squeue_diff st p))) st st'.
Proof.
  intros (Hpr & _ & Hs). unfold handle_squeue_change. apply squeue_loop_spec.
  - done.
  - apply Hs.
  - apply u32_range.
  - pose proof (u64_range (so_enqueued_ops (st_sockets st p) - so_dequeued_ops (st_sockets st p))).
    unfold inflight, squeue_fuel, TX_MAX_PARALLEL_OPS_PER_SOCKET. lia.
Qed.

Lemma squeue_moved_wf p l n st st' : squeue_moved p l n st st' -> stack_wf st -> stack_wf st'.
Proof.
  intros Hm (Hpr & He & Hs). split_and!.
  - by apply (sm_wf _ _ _ _ _ Hm).
  - intros l'. destruct (sm_ends _ _ _ _ _ Hm) as [_ He']. by rewrite He'.
  - intros q. destruct (decide (q = p)) as [->|Hq]; [|by rewrite (sm_others _ _ _ _ _ Hm)].
    destruct (sm_socket _ _ _ _ _ Hm) as (sq & enq & -> & Hw & _). specialize (Hs p).
    unfold socket_wf in *. simpl. intuition.
Qed.

Lemma pending_app q ops1 ops2 :
  pending q (ops1 ++ ops2) = (pending q ops1 + pending q ops2)%nat.
Proof. apply sum_list_with_app. Qed.

Lemma pending_internal p q ops :
  Forall (fun op => op_code op <> NOP) ops ->
  pending q (internal p <$> ops) = if decide (q = p) then length ops else 0%nat.
Proof.
  induction 1 as [|op ops Hop _ IH]; [by case_decide|]. rewrite fmap_cons. unfold pending in *.
  cbn [sum_list_with]. rewrite IH. unfold counts, internal. cbn [int_socket int_operation].
  apply Z.eqb_neq in Hop. rewrite Hop. case_decide as Hd.
  - subst q. by rewrite Z.eqb_refl.
  - by rewrite (proj2 (Z.eqb_neq p q)) by congruence.
Qed.

Lemma squeue_moved_pending p l n st st' q :
  squeue_moved p l n st st' ->
  Forall (fun op => op_code op <> NOP) (sq_list (st_sockets st p)) ->
  (n <= length (sq_list (st_sockets st p)))%nat ->
  pending q (pr_all (st_tx_queue st')) =
    (pending q (pr_all (st_tx_queue st)) + (if decide (q = p) then n else 0))%nat.
Proof.
  intros Hm Hnop Hn. unfold pr_all.
  pose proof (pending_internal p q (take n (sq_list (st_sockets st p)))
    (Forall_take _ _ _ Hnop)) as Hp. rewrite length_take_le in Hp by done.
  rewrite !(sm_list _ _ _ _ _ Hm), !pending_app.
  assert (pending q [] = 0%nat) as Hnil by done.
  destruct l; simpl; rewrite Hp, ?Hnil; destruct (decide (q = p)); lia.
Qed.

(** ** The futexes to wait on *)

(** The sockets are handled in order, each once. *)
Inductive fill_moves l : list Z -> stack -> stack -> Prop :=
  | fill_moves_nil st : fill_moves l [] st st
  | fill_moves_cons p ps st st1 st2 :
      squeue_moved p l (Z.to_nat (admitted st p l (squeue_diff st p))) st st1 ->
      fill_moves l ps st1 st2 -> fill_moves l (p :: ps) st st2.

(** An entry of [socket_ptrs] is the socket with that identifier. *)
Definition ids_ok st : Prop :=
  forall id p, socket_ptr st id = Some p -> so_identifier (st_sockets st p) = id.

Definition open_sockets st (ids : list pifus_socket_identifier) : list Z :=
  omap (socket_ptr st) ids.

Lemma squeue_moved_ids p l n st st' id :
  squeue_moved p l n st st' ->
  socket_ptr st' id = socket_ptr st id /\ (ids_ok st -> ids_ok st') /\
  forall q, so_identifier (st_sockets st' q) = so_identifier (st_sockets st q).
Proof.
  intros Hm. assert (forall q, so_identifier (st_sockets st' q) = so_identifier (st_sockets st q))
    as Hid.
  { intros q. destruct (decide (q = p)) as [->|Hq]; [|by rewrite (sm_others _ _ _ _ _ Hm)].
    by destruct (sm_socket _ _ _ _ _ Hm) as (sq & enq & -> & _). }
  assert (forall id', socket_ptr st' id' = socket_ptr st id') as Hptr
    by (intros; unfold socket_ptr; by rewrite (sm_ptrs _ _ _ _ _ Hm)).
  split_and!; [apply Hptr| |exact Hid]. intros Hok id' q Hq. rewrite Hid. apply Hok.
  by rewrite <- Hptr.
Qed.

Lemma open_sockets_length st ids : (length (open_sockets st ids) <= length ids)%nat.
Proof.
  unfold open_sockets. induction ids as [|id ids IH]; simpl; [lia|].
  destruct (socket_ptr st id); [by apply le_n_S|by apply le_S].
Qed.

Lemma open_sockets_moved p l n st st' ids :
  squeue_moved p l n st st' -> open_sockets st' ids = open_sockets st ids.
Proof.
  intros Hm. unfold open_sockets. induction ids as [|id ids IH]; [done|]. simpl.
  destruct (squeue_moved_ids _ _ _ _ _ id Hm) as [-> _].
  destruct (socket_ptr st id); [f_equal|]; exact IH.
Qed.

Lemma fill_moves_kept l ps st st' :
  fill_moves l ps st st' ->
  (stack_wf st -> stack_wf st') /\
  (forall q, so_identifier (st_sockets st' q) = so_identifier (st_sockets st q)) /\
  st_socket_ptrs st' = st_socket_ptrs st /\
  (forall id, (forall p, p ∈ ps -> so_identifier (st_sockets st p) <> id) ->
     socket_futex st' id = socket_futex st id).
Proof.
  induction 1 as [st|p ps st st1 st2 Hm _ (IHw & IHi & IHp & IHf)]; [done|].
  destruct (squeue_moved_ids _ _ _ _ _ (SocketIdentifier 0 0) Hm) as (_ & _ & Hid). split_and!.
  - intros Hw. apply IHw. by eapply squeue_moved_wf.
  - intros q. by rewrite IHi, Hid.
  - by rewrite IHp, (sm_ptrs _ _ _ _ _ Hm).
  - intros id Hne. rewrite IHf.
    + apply (sm_futexes _ _ _ _ _ Hm). intros ->. by apply (Hne p); [left|].
    + intros q Hq. rewrite Hid. apply Hne. by right.
Qed.

(** What the thread waits for, from entry [n] on. *)
Definition waits_for t st (n : Z) (ps : list Z) : Prop :=
  forall k p, ps !! k = Some p ->
    pt_waitvs t (n + Z.of_nat k) =
      FutexWaitv (SqueueFutex p) (socket_futex st (so_identifier (st_sockets st p))) /\
    pt_socket_from_futex_nr t (n + Z.of_nat k) = Some p.

(** The handler runs only if the futex changed; otherwise it would do nothing. *)
Lemma handle_if_changed st p l :
  stack_wf st ->
  exists st', (if negb (so_squeue_futex (st_sockets st p) =?
                        socket_futex st (so_identifier (st_sockets st p))) then
                 handle_squeue_change st p l
               else Ret st) = Ret st' /\
    squeue_moved p l (Z.to_nat (admitted st p l (squeue_diff st p))) st st'.
Proof.
  intros Hwf. destruct (Z.eqb_spec (so_squeue_futex (st_sockets st p))
    (socket_futex st (so_identifier (st_sockets st p)))) as [Heq|Hne].
  - exists st. split; [done|]. unfold squeue_diff. rewrite Heq, Z.sub_diag.
    unfold admitted. change (u32 0) with 0. pose proof (rb_free_bounds _ (proj1 Hwf l)) as Hr.
    fold (pr_room (st_tx_queue st) l) in Hr. replace (Z.to_nat _) with 0%nat by lia.
    apply squeue_moved_0.
  - by apply handle_squeue_change_spec.
Qed.

Lemma fill_waitv_loop_spec fuel st t l n removable
    (l1 l2 : list (Z * pifus_socket_identifier)) :
  list_iter (pt_list t) l1 l2 -> stack_wf st -> ids_ok st -> NoDup l2.*2 ->
  (length l2 < fuel)%nat -> 0 <= n -> n + Z.of_nat (length l2) < 256 ->
  let ps := open_sockets st l2.*2 in
  exists st' t', fill_waitv_loop fuel st t l n removable =
      Ret (st', t', n + Z.of_nat (length ps),
           removable || bool_decide (Exists (fun id => socket_ptr st id = None) l2.*2)) /\
    fill_moves l ps st st' /\ waits_for t' st' n ps /\
    (forall j, j < n -> pt_waitvs t' j = pt_waitvs t j /\
       pt_socket_from_futex_nr t' j = pt_socket_from_futex_nr t j) /\
    pt_new_socket_queue_futex_shadow t' = pt_new_socket_queue_futex_shadow t /\
    pt_list t' = ld_set_iter (pt_list t) (iter_round_ (pt_list t')) (iter_node_ (pt_list t')) /\
    iter_round_ (pt_list t') = Z.of_nat (length (l1 ++ l2)).
Proof.
  revert st t n removable l1 l2. induction fuel as [|fuel IH]; intros st t n removable l1 l2
    Hit Hwf Hids Hnd Hfuel Hn Hlim ps; [lia|].
  cbn [fill_waitv_loop]. destruct l2 as [|[a id] l2].
  { rewrite (ListNext_end _ _ Hit). cbn [mbind outcome_bind]. exists st, t.
    rewrite bool_decide_false by (by intros He; inversion He). rewrite orb_false_r.
    replace (n + Z.of_nat (length ps)) with n by (unfold ps; simpl; lia).
    assert (pt_set_list t (pt_list t) = t) as -> by (by destruct t).
    split_and!; [done|constructor|done|done|done| |].
    - destruct t as [list ? ? ?]. by destruct list.
    - rewrite app_nil_r. apply (li_round _ _ _ Hit). }
  destruct (ListNext_spec _ _ _ _ _ Hit) as (list1 & -> & Hit1 & Hl1).
  cbn [mbind outcome_bind]. rewrite fmap_cons in Hnd. cbn [snd] in Hnd.
  apply NoDup_cons in Hnd as [Hid Hnd]. cbn [length] in Hfuel, Hlim.
  unfold ps. rewrite fmap_cons. cbn [snd]. clear ps.
  change (open_sockets st (id :: l2.*2)) with
    (match socket_ptr st id with Some p => p :: open_sockets st l2.*2
     | None => open_sockets st l2.*2 end).
  set (t1 := pt_set_list t list1).
  destruct (socket_ptr st id) as [p|] eqn:Hptr.
  - destruct (handle_if_changed st p l Hwf) as (st1 & -> & Hm). cbn [mbind outcome_bind].
    rewrite u8_small by lia.
    set (t2 := PrioThread _ _ _ _).
    destruct (squeue_moved_ids _ _ _ _ _ id Hm) as (_ & Hids1 & Hid1).
    destruct (IH st1 t2 (n + 1) removable _ l2 Hit1 (squeue_moved_wf _ _ _ _ _ Hm Hwf)
      (Hids1 Hids) Hnd) as (st' & t' & Heq & Hmv & Hw & Hlow & Hsh & Hli & Hir); [lia..|].
    rewrite <- app_assoc in Hir.
    rewrite (open_sockets_moved _ _ _ _ _ _ Hm) in Heq, Hmv, Hw.
    destruct (fill_moves_kept _ _ _ _ Hmv) as (_ & Hidk & _ & Hfk).
    exists st', t'. split_and!.
    + rewrite Heq. cbn [length]. do 3 f_equal; [lia|]. f_equal. apply bool_decide_ext.
      rewrite Exists_cons, Hptr. rewrite !Exists_exists.
      setoid_rewrite (fun x => proj1 (squeue_moved_ids _ _ _ _ _ x Hm)). naive_solver.
    + by econstructor.
    + intros [|k] q Hq.
      * injection Hq as <-. destruct (Hlow (n + Z.of_nat 0)) as [-> ->]; [lia|].
        replace (n + Z.of_nat 0) with n by lia. unfold t2. cbn [pt_waitvs pt_socket_from_futex_nr].
        rewrite !arr_insert_eq, Hidk, Hid1. split; [|done]. f_equal. symmetry. apply Hfk.
        intros q Hq. rewrite Hid1, (Hids _ _ Hptr).
        apply list_elem_of_omap in Hq as (id' & Hin & Hq). rewrite (Hids _ _ Hq). by intros ->.
      * replace (n + Z.of_nat (S k)) with (n + 1 + Z.of_nat k) by lia. by apply Hw.
    + intros j Hj. destruct (Hlow j) as [-> ->]; [lia|]. unfold t2.
      cbn [pt_waitvs pt_socket_from_futex_nr]. by rewrite !arr_insert_ne by lia.
    + done.
    + rewrite Hli at 1. change (pt_list t2) with list1. by rewrite Hl1 at 1.
    + done.
  - destruct (IH st t1 n true _ l2 Hit1 Hwf Hids Hnd)
      as (st' & t' & Heq & Hmv & Hw & Hlow & Hsh & Hli & Hir); [lia..|].
    rewrite <- app_assoc in Hir.
    exists st', t'. split_and!; [|done|done|done|done| |done].
    + rewrite Heq. do 2 f_equal. rewrite orb_true_l. symmetry. apply orb_true_iff. right.
      apply bool_decide_eq_true. by left.
    + rewrite Hli at 1. change (pt_list t1) with list1. by rewrite Hl1 at 1.
Qed.

(** The list without the first closed socket. *)
Fixpoint remove_closed st (ids : list pifus_socket_identifier) : list pifus_socket_identifier :=
  match ids with
  | [] => []
  | id :: ids =>
      match socket_ptr st id with
      | None => ids
      | Some _ => id :: remove_closed st ids
      end
  end.

Lemma remove_closed_loop_spec fuel st list (l1 l2 : Datatypes.list (Z * pifus_socket_identifier)) :
  list_iter list l1 l2 -> func_clean_ list = false ->
  Z.of_nat (length (l1 ++ l2)) < 65536 -> (length l2 < fuel)%nat ->
  exists list', remove_closed_loop fuel st list (Z.of_nat (length l1)) = Ret list' /\
    list_repr list' (ListSpec (l1.*2 ++ remove_closed st l2.*2) false (ld_cleaned list)) /\
    (iter_round_ list' <> 0 \/ l1 ++ l2 = []).
Proof.
  revert list l1 l2. induction fuel as [|fuel IH]; intros list l1 l2 Hit Hfc Hlim Hf; [lia|].
  cbn [remove_closed_loop]. destruct l2 as [|[a id] l2].
  { rewrite (ListNext_end _ _ Hit). cbn [mbind outcome_bind]. exists list. split; [done|]. split.
    - exists l1. rewrite app_nil_r. destruct Hit as [Hwf _ _]. rewrite app_nil_r in Hwf.
      by rewrite Hfc.
    - destruct Hit as [_ Hr _]. destruct l1; [by right|left]. rewrite Hr. simpl. lia. }
  destruct (ListNext_spec _ _ _ _ _ Hit) as (list1 & -> & Hit1 & Hl1).
  cbn [mbind outcome_bind]. cbn [fmap list_fmap snd remove_closed].
  assert (func_clean_ list1 = false /\ ld_cleaned list1 = ld_cleaned list) as [Hfc1 Hcl1]
    by (by rewrite Hl1).
  rewrite length_app in Hlim. simpl in Hlim, Hf.
  destruct (socket_ptr st id) as [p|] eqn:Hptr.
  - rewrite u16_small by lia. replace (Z.of_nat (length l1) + 1)
      with (Z.of_nat (length (l1 ++ [(a, id)]))) by (rewrite length_app; simpl; lia).
    destruct (IH list1 _ l2 Hit1 Hfc1) as (list' & -> & Hr & Hi);
      [rewrite !length_app; simpl; lia|lia|].
    exists list'. split; [done|]. split; [|left].
    + rewrite <- Hcl1. rewrite fmap_app, <- app_assoc in Hr. exact Hr.
    + destruct Hi as [Hi|Hi]; [done|]. rewrite <- app_assoc in Hi. by destruct l1.
  - destruct Hit1 as [Hwf1 Hr1 _]. rewrite <- app_assoc in Hwf1. cbn [app] in Hwf1.
    destruct (ListRemove_middle _ _ _ _ _ Hwf1) as (list' & -> & Hr & Hi).
    cbn [mbind outcome_bind]. exists list'. split; [done|]. split; [|left].
    + rewrite Hfc1, Hcl1, fmap_app in Hr. unfold sp_drop in Hr. simpl in Hr.
      by rewrite app_nil_r in Hr.
    + rewrite Hi, Hr1, length_app. simpl. lia.
Qed.

(** The list of a thread as its sockets, most recent first. *)
Definition thread_sockets t (ids : Datatypes.list pifus_socket_identifier) : Prop :=
  list_repr (pt_list t) (ListSpec ids false (ld_cleaned (pt_list t))).

Lemma remove_closed_open st ids :
  Forall (fun id => socket_ptr st id <> None) ids -> remove_closed st ids = ids.
Proof.
  induction 1 as [|id ids Hid _ IH]; [done|]. simpl. destruct (socket_ptr st id); [|done].
  by rewrite IH.
Qed.

Lemma fill_prio_waitv_nonempty st t l ids :
  stack_wf st -> ids_ok st -> thread_sockets t ids -> NoDup ids -> ids <> [] ->
  Z.of_nat (length ids) < 256 ->
  exists st' t', fill_prio_waitv st t l =
      Ret (st', t', Z.of_nat (length (open_sockets st ids))) /\
    fill_moves l (open_sockets st ids) st st' /\ waits_for t' st' 0 (open_sockets st ids) /\
    thread_sockets t' (remove_closed st ids) /\ iter_round_ (pt_list t') <> 0 /\
    pt_new_socket_queue_futex_shadow t' = pt_new_socket_queue_futex_shadow t.
Proof.
  intros Hwf Hids (lst & Hlw & Heq) Hnd Hne Hlim. injection Heq as -> Hfc.
  rewrite length_fmap in Hlim. symmetry in Hfc.
  assert (lst <> []) as Hne' by (by intros ->).
  destruct (ListFirst_spec _ _ Hlw Hne') as (list1 & Hf1 & Hit1 & Hl1).
  unfold fill_prio_waitv. rewrite Hf1. cbn [mbind outcome_bind].
  assert (list_fuel list1 = S (length lst)) as Hfuel.
  { unfold list_fuel. destruct Hit1 as [[_ _ _ -> _] _ _]. simpl. by rewrite Nat2Z.id. }
  destruct (fill_waitv_loop_spec (list_fuel list1) st (pt_set_list t list1) l 0 false [] lst Hit1
    Hwf Hids Hnd) as (st' & t' & -> & Hmv & Hw & _ & Hsh & Hli & Hir); [lia..|].
  cbn [mbind outcome_bind]. rewrite orb_false_l, Z.add_0_l.
  destruct (fill_moves_kept _ _ _ _ Hmv) as (_ & _ & Hptr & _).
  assert (forall id, socket_ptr st' id = socket_ptr st id) as Hptr'
    by (intros id; unfold socket_ptr; by rewrite Hptr).
  assert (list_wf (pt_list t') lst) as Hlw'.
  { rewrite Hli. apply wf_set_iter. simpl. rewrite Hl1. by apply wf_set_iter. }
  assert (func_clean_ (pt_list t') = false) as Hfc'.
  { rewrite Hli. simpl. by rewrite Hl1. }
  case_bool_decide as Hex.
  - destruct (ListFirst_spec _ _ Hlw' Hne') as (list2 & Hf2 & Hit2 & Hl2). rewrite Hf2.
    cbn [mbind outcome_bind].
    assert (list_fuel list2 = S (length lst)) as Hfuel2.
    { unfold list_fuel. destruct Hit2 as [[_ _ _ -> _] _ _]. simpl. by rewrite Nat2Z.id. }
    destruct (remove_closed_loop_spec (list_fuel list2) st' list2 [] lst Hit2)
      as (list3 & Heq3 & Hr3 & Hi3); [by rewrite Hl2|simpl; lia|lia|].
    change (Z.of_nat (length [])) with 0 in Heq3. rewrite Heq3. cbn [mbind outcome_bind].
    exists st', (pt_set_list t' list3). split_and!; try done.
    + unfold thread_sockets. cbn [pt_list pt_set_list].
      assert (remove_closed st lst.*2 = remove_closed st' lst.*2) as ->
        by (clear -Hptr'; induction lst.*2 as [|id ids IH]; [done|]; simpl; by rewrite Hptr', IH).
      destruct Hr3 as (l3 & Hlw3 & Heq4). exists l3. split; [done|]. by injection Heq4 as -> <- <-.
    + by destruct Hi3.
  - exists st', t'. split_and!; try done.
    + rewrite remove_closed_open.
      * exists lst. split; [done|]. by rewrite Hfc'.
      * apply Forall_forall. intros id Hin Hnone. apply Hex. apply Exists_exists. by exists id.
    + rewrite Hir. destruct lst; [done|]. simpl. lia.
Qed.

(** ** New sockets *)

Definition nq_list (q : pifus_new_socket_queue) : Datatypes.list pifus_socket_identifier :=
  rb_contents (socket_queue q) (socket_queue_buffer q).

(** Memory for nodes is found and not in use. *)
Definition malloc_fresh (malloc : list_data pifus_socket_identifier -> option Z) : Prop :=
  forall list, exists p, malloc list = Some p /\ ld_nodes list !! p = None.

Lemma add_sockets_loop_spec malloc fuel t q ids :
  malloc_fresh malloc -> rb_wf (socket_queue q) -> thread_sockets t ids ->
  (length (nq_list q) < fuel)%nat ->
  Z.of_nat (length ids + length (nq_list q)) < 4294967296 ->
  exists t' q', add_sockets_loop malloc fuel t q = Ret (t', q') /\
    thread_sockets t' (reverse (nq_list q) ++ ids) /\
    rb_wf (socket_queue q') /\ nq_list q' = [] /\ socket_queue_futex q' = socket_queue_futex q /\
    u32 (pt_new_socket_queue_futex_shadow t') =
      u32 (pt_new_socket_queue_futex_shadow t + Z.of_nat (length (nq_list q))) /\
    (nq_list q = [] -> pt_new_socket_queue_futex_shadow t' = pt_new_socket_queue_futex_shadow t /\
       pt_list t' = pt_list t).
Proof.
  intros Hmal. revert t q ids. induction fuel as [|fuel IH]; intros t q ids Hq Ht Hf Hlim; [lia|].
  cbn [add_sockets_loop].
  pose proof (ring_buffer_get_spec (socket_queue q) (socket_queue_buffer q) Hq) as Hg.
  destruct (ring_buffer_get _ _) as [r rb]. destruct Hg as (Hw & _ & -> & Hc).
  fold (nq_list q) in Hc |- *. change (rb_contents rb (socket_queue_buffer q))
    with (nq_list (nq_set_queue q rb)) in Hc.
  destruct (nq_list q) as [|id new]; cbn [head tail] in *.
  { exists t, (nq_set_queue q rb). split_and!; try done. simpl. f_equal. lia. }
  destruct (Hmal (pt_list t)) as (p & Hp & Hfresh). rewrite Hp. cbn [length] in Hf, Hlim.
  destruct Ht as (lst & Hlw & Heq). injection Heq as -> Hfc.
  rewrite length_fmap in Hlim.
  destruct (ListPushFront_refines _ _ (Some p) id Hlw) as (list & Hpush & Hr).
  { split; [done|]. rewrite (lw_size _ _ Hlw). lia. }
  destruct (ListPushFront (pt_list t) (Some p) id) as [[b list1]| | |]; [|done..].
  cbn [ret_bool mbind outcome_bind fst spec_insert] in Hpush. injection Hpush as -> ->.
  cbn [mbind outcome_bind]. set (t1 := PrioThread _ _ _ _).
  assert (thread_sockets t1 (id :: lst.*2)) as Ht1.
  { unfold thread_sockets, t1. cbn [pt_list]. destruct Hr as (l' & Hlw' & Hl'). exists l'.
    split; [done|]. cbn [spec_insert snd sp_set sp_elems sp_clean sp_cleaned] in Hl'.
    injection Hl' as Hl1 Hl2 Hl3. cbn [take drop app] in Hl1. rewrite <- Hl1, <- Hl2, <- Hfc. done. }
  destruct (IH t1 (nq_set_queue q rb) (id :: lst.*2) Hw Ht1) as (t' & q' & -> & Ht' & Hq' & Hn' & Hx & Hsh & _).
  - rewrite Hc. lia.
  - rewrite Hc. cbn [length]. rewrite length_fmap. lia.
  - exists t', q'. split_and!; try done.
    + rewrite Hc in Ht'. by rewrite reverse_cons, <- app_assoc.
    + rewrite Hsh, Hc. cbn [t1 pt_new_socket_queue_futex_shadow length]. rewrite u32_add. f_equal. lia.
Qed.

Lemma squeue_moved_diff p l n st st' :
  squeue_moved p l (Z.to_nat n) st st' -> 0 <= n <= squeue_diff st p ->
  squeue_diff st' p = squeue_diff st p - n.
Proof.
  intros Hm Hn. pose proof (u32_range (so_squeue_futex (st_sockets st p) -
    socket_futex st (so_identifier (st_sockets st p)))) as Hr.
  unfold squeue_diff in *. destruct (sm_socket _ _ _ _ _ Hm) as (sq & enq & Hs & _).
  rewrite Hs. cbn [so_identifier so_squeue_futex set_enqueued_ops set_squeue].
  pose proof (sm_futex _ _ _ _ _ Hm) as Hf. rewrite Z2Nat.id in Hf by lia.
  set (x := so_squeue_futex _) in *. set (y := socket_futex st _) in *.
  unfold u32 in *. rewrite Zminus_mod, Hf, <- Zminus_mod.
  replace (x - (y + n)) with (x - y - n) by lia.
  rewrite Zminus_mod, (Z.mod_small n) by lia. apply Z.mod_small. lia.
Qed.
End prio_thread.

(** ** A submission in the example *)

(** Socket 0 of the example has submitted another operation. *)
Definition example_submitting : pifus_socket :=
  let s := set_enqueued_ops example_socket 1 in
  let '(_, rb, buf) := ring_buffer_put (so_squeue s) (so_squeue_buffer s)
    (int_operation (example_op TCP_RECV)) in
  set_squeue_futex (set_squeue_buffer (set_squeue s rb) buf) 1.

Definition example_id : pifus_socket_identifier := SocketIdentifier 0 1.

Definition example_app_ptrs : arr (option Z) := fun _ => None.
Definition example_ptrs : arr (arr (option Z)) := fun _ => example_app_ptrs.

Definition example_submitted : stack :=
  st_set_socket_ptrs (set_socket example_stack 0 example_submitting)
    (<[0 := <[1 := Some 0]> example_app_ptrs]> example_ptrs).

Lemma example_submitted_wf : stack_wf example_submitted.
Proof.
  destruct example_stack_wf as (H1 & H2 & H3). split; [exact H1|]. split; [exact H2|].
  intros p. unfold example_submitted. cbn [st_sockets st_set_socket_ptrs].
  destruct (decide (p = 0)) as [->|Hp]; [rewrite set_socket_eq|by rewrite set_socket_ne].
  vm_compute. repeat split; discriminate.
Qed.

Lemma example_submitted_socket q :
  st_sockets example_submitted q = if decide (q = 0) then example_submitting else example_socket.
Proof.
  unfold example_submitted. cbn [st_sockets st_set_socket_ptrs].
  case_decide as Hq; [by rewrite Hq, set_socket_eq|].
  rewrite set_socket_ne by done. unfold example_stack. cbn [st_sockets].
  by rewrite arr_insert_ne.
Qed.

Lemma example_submitted_accounted : accounted example_submitted.
Proof.
  intros q. pose proof (example_accounted q) as Ha.
  change (st_tx_queue example_submitted) with (st_tx_queue example_stack). rewrite <- Ha.
  rewrite example_submitted_socket. unfold example_stack. cbn [st_sockets].
  case_decide as Hq; [by rewrite Hq, arr_insert_eq|by rewrite arr_insert_ne].
Qed.

Lemma example_submitted_ids : ids_ok example_submitted.
Proof.
  intros id p. unfold socket_ptr. change (st_socket_ptrs example_submitted) with
    (<[0 := <[1 := Some 0]> example_app_ptrs]> example_ptrs). intros Hp.
  destruct (decide (app_index id = 0)) as [Ha|Ha]; [|by rewrite arr_insert_ne in Hp].
  rewrite Ha, arr_insert_eq in Hp.
  destruct (decide (SocketRegion.socket_index id = 1)) as [Hi|Hi];
    [|by rewrite arr_insert_ne in Hp].
  rewrite Hi, arr_insert_eq in Hp. injection Hp as <-. rewrite example_submitted_socket.
  destruct id. simpl in *. by subst.
Qed.

(** A thread that just started, with the socket in its queue of new sockets. *)
Definition example_thread : prio_thread :=
  PrioThread (ListInit 0) (fun _ => FutexWaitv SocketQueueFutex 0) (fun _ => None) 0.

Definition example_new : pifus_new_socket_queue :=
  let rb := ring_buffer_create DISCOVERY_MAX_NEW_SOCKETS in
  let '(_, rb, buf) := ring_buffer_put rb (fun _ => example_id) example_id in
  NewSocketQueue rb buf 1.

Definition example_malloc (list : list_data pifus_socket_identifier) : option Z :=
  Some (fresh (dom (ld_nodes list))).

Lemma example_malloc_fresh : malloc_fresh example_malloc.
Proof. intros list. eexists. split; [done|]. apply not_elem_of_dom. apply is_fresh. Qed.

(** A change of a submission queue. The priority thread moves exactly as many
    operations as were announced, are there, fit into its ring of the transmit
    queue and keep the socket at ten operations in flight; it moves them in the
    order of submission, with their socket, behind those already queued, and
    counts them, so that the rest is seen as still to be moved.  Nothing else
    changes, and the handler always returns. *)
Theorem handle_squeue_change_moves `{LW : Lwip} (st : stack) (p : Z) (l : prio_level) :
  stack_wf st ->
  let n := admitted st p l (squeue_diff st p) in
  exists st', handle_squeue_change st p l = Ret st' /\ stack_wf st' /\
    0 <= n /\ squeue_moved p l (Z.to_nat n) st st' /\
    squeue_diff st' p = squeue_diff st p - n /\
    inflight (st_sockets st' p) = inflight (st_sockets st p) + n.
Proof.
  intros Hwf n. destruct (handle_squeue_change_spec st p l Hwf) as (st' & Heq & Hm). fold n in Hm.
  assert (0 <= n <= squeue_diff st p) as Hn.
  { pose proof (rb_free_bounds _ (proj1 Hwf l)) as Hroom. fold (pr_room (st_tx_queue st) l) in Hroom.
    pose proof (u32_range (so_squeue_futex (st_sockets st p) -
      socket_futex st (so_identifier (st_sockets st p)))) as Hr.
    fold (squeue_diff st p) in Hr. unfold n, admitted. lia. }
  exists st'. split_and!; [done|by eapply squeue_moved_wf|lia|done| |].
  - by apply (squeue_moved_diff p l n st st').
  - rewrite (squeue_moved_inflight _ _ _ _ _ Hm); [lia|]. unfold n, admitted. lia.
Qed.

Lemma handle_squeue_change_moves_witness :
  exists st', handle_squeue_change example_submitted 0 MediumQueue = Ret st' /\
    pr_list (st_tx_queue st') MediumQueue = [example_op TCP_RECV] /\
    inflight (st_sockets st' 0) = 2.
Proof.
  destruct (handle_squeue_change_moves example_submitted 0 MediumQueue example_submitted_wf)
    as (st' & Heq & _ & _ & Hm & _ & Hin).
  exists st'. split; [exact Heq|]. split.
  - rewrite (sm_list _ _ _ _ _ Hm). reflexivity.
  - rewrite Hin. reflexivity.
Defined.

(** Rate limiting. If the counters of every socket give its number of
    operations in the transmit queue and no socket has more than ten in flight,
    this still holds after a change of a submission queue was handled: no socket
    ever has more than ten operations in the transmit queue.  (The no-op code is
    internal to the stack: a client that submitted it would not be counted
    down again.) *)
Theorem handle_squeue_change_limits `{LW : Lwip} (st st' : stack) (p : Z) (l : prio_level) :
  stack_wf st -> accounted st ->
  (forall q, inflight (st_sockets st q) <= TX_MAX_PARALLEL_OPS_PER_SOCKET) ->
  Forall (fun op => op_code op <> NOP) (sq_list (st_sockets st p)) ->
  handle_squeue_change st p l = Ret st' ->
  accounted st' /\
  (forall q, inflight (st_sockets st' q) <= TX_MAX_PARALLEL_OPS_PER_SOCKET) /\
  (forall q, Z.of_nat (pending q (pr_all (st_tx_queue st'))) <= TX_MAX_PARALLEL_OPS_PER_SOCKET).
Proof.
  intros Hwf Hacc Hlim Hnop Heq. destruct (handle_squeue_change_spec st p l Hwf) as (st1 & Heq1 & Hm).
  assert (st1 = st') as -> by congruence. set (n := admitted st p l (squeue_diff st p)) in *.
  assert (Z.of_nat (Z.to_nat n) <=
    Z.max 0 (TX_MAX_PARALLEL_OPS_PER_SOCKET - inflight (st_sockets st p))) as Hn
    by (unfold n, admitted; lia).
  assert (forall q, inflight (st_sockets st' q) =
    inflight (st_sockets st q) + (if decide (q = p) then Z.of_nat (Z.to_nat n) else 0)) as Hin.
  { intros q. case_decide as Hq; [subst q; by apply (squeue_moved_inflight p l)|].
    rewrite (sm_others _ _ _ _ _ Hm) by done. lia. }
  assert (forall q, inflight (st_sockets st' q) = Z.of_nat (pending q (pr_all (st_tx_queue st'))))
    as Hacc'.
  { intros q. rewrite Hin, (squeue_moved_pending _ _ _ _ _ _ Hm Hnop) by (unfold n, admitted; lia).
    specialize (Hacc q). fold (inflight (st_sockets st q)) in Hacc. rewrite Hacc.
    destruct (decide (q = p)); lia. }
  assert (forall q, inflight (st_sockets st' q) <= TX_MAX_PARALLEL_OPS_PER_SOCKET) as Hlim'.
  { intros q. rewrite Hin. specialize (Hlim q). case_decide as Hq; [subst q|]; lia. }
  split_and!; [exact Hacc'|exact Hlim'|]. intros q. rewrite <- Hacc'. apply Hlim'.
Qed.

Lemma handle_squeue_change_limits_witness :
  exists st', handle_squeue_change example_submitted 0 MediumQueue = Ret st' /\
    Z.of_nat (pending 0 (pr_all (st_tx_queue st'))) <= TX_MAX_PARALLEL_OPS_PER_SOCKET.
Proof.
  destruct (handle_squeue_change_spec example_submitted 0 MediumQueue example_submitted_wf)
    as (st' & Heq & _). exists st'. split; [exact Heq|].
  destruct (handle_squeue_change_limits example_submitted st' 0 MediumQueue) as (_ & _ & H).
  - exact example_submitted_wf.
  - exact example_submitted_accounted.
  - intros q. rewrite example_submitted_socket. destruct (decide (q = 0)); vm_compute; discriminate.
  - change (sq_list (st_sockets example_submitted 0)) with [int_operation (example_op TCP_RECV)].
    repeat constructor. discriminate.
  - exact Heq.
  - apply H.
Defined.

(** C24. What a priority thread waits for. Before it sleeps it has taken all new
    sockets, has handled every open socket of its list once, and waits on the
    futex of each of them, with the value up to which operations were moved (so a
    submission it did not see ends the wait at once), and on the futex of its
    queue of new sockets, with the number of sockets taken so far; entries are
    within the array as long as it has fewer than 128 sockets.  A socket that was
    closed leaves the list, one per iteration. *)
Theorem prio_thread_prepare_waits `{LW : Lwip}
    (malloc : list_data pifus_socket_identifier -> option Z) (st : stack) (t : prio_thread)
    (l : prio_level) (q : pifus_new_socket_queue) (ids : list pifus_socket_identifier) :
  let all := reverse (nq_list q) ++ ids in
  let ps := open_sockets st all in
  malloc_fresh malloc -> stack_wf st -> ids_ok st -> rb_wf (socket_queue q) ->
  thread_sockets t ids -> NoDup all -> all <> [] ->
  Z.of_nat (length all) < TX_MAX_FUTEXES_PER_THREAD ->
  exists st' t' q' n, prio_thread_prepare malloc st t l q = Ret (st', t', q', n) /\
    n = Z.of_nat (length ps) + 1 /\ n <= TX_MAX_FUTEXES_PER_THREAD /\
    nq_list q' = [] /\ fill_moves l ps st st' /\ stack_wf st' /\
    waits_for t' st' 0 ps /\
    (exists seen, pt_waitvs t' (n - 1) = FutexWaitv SocketQueueFutex seen /\
       u32 seen = u32 (pt_new_socket_queue_futex_shadow t + Z.of_nat (length (nq_list q)))) /\
    thread_sockets t' (remove_closed st all).
Proof.
  intros all ps Hmal Hwf Hids Hq Ht Hnd Hne Hlim. unfold prio_thread_prepare.
  assert (length all = length (nq_list q) + length ids)%nat as Hlen
    by (unfold all; by rewrite length_app, length_reverse).
  unfold TX_MAX_FUTEXES_PER_THREAD in *.
  destruct (add_sockets_loop_spec malloc (S (Z.to_nat (rb_end (socket_queue q)))) t q ids Hmal Hq Ht)
    as (t1 & q' & -> & Ht1 & _ & Hnil & _ & Hsh & _); [|lia|].
  { pose proof (rb_contents_length (socket_queue q) (socket_queue_buffer q) Hq) as Hl.
    fold (nq_list q) in Hl. pose proof (rb_free_bounds _ Hq). lia. }
  cbn [mbind outcome_bind].
  destruct (fill_prio_waitv_nonempty st t1 l all Hwf Hids Ht1 Hnd Hne)
    as (st' & t2 & -> & Hmv & Hw & Ht2 & _ & Hsh2); [lia|].
  fold ps in Hmv, Hw |- *. cbn [mbind outcome_bind].
  assert (Z.of_nat (length ps) <= Z.of_nat (length all)) as Hps.
  { apply inj_le, open_sockets_length. }
  rewrite u8_small by lia. do 4 eexists. split; [done|]. split_and!; try done; try lia.
  - by apply (fill_moves_kept _ _ _ _ Hmv).
  - intros k p Hk. destruct (Hw k p Hk) as [H1 H2]. split; [|done]. cbn [pt_waitvs].
    rewrite arr_insert_ne; [done|]. apply lookup_lt_Some in Hk. lia.
  - eexists. cbn [pt_waitvs]. rewrite Z.add_simpl_r, arr_insert_eq. split; [done|].
    by rewrite Hsh2.
Qed.

Lemma prio_thread_prepare_waits_witness :
  exists st' t' q' n,
    prio_thread_prepare example_malloc example_submitted example_thread LowQueue example_new =
      Ret (st', t', q', n) /\ n = 2 /\
    pt_socket_from_futex_nr t' 0 = Some 0 /\ thread_sockets t' [example_id].
Proof.
  destruct (prio_thread_prepare_waits example_malloc example_submitted example_thread LowQueue
    example_new []) as (st' & t' & q' & n & Heq & Hn & _ & _ & _ & _ & Hw & _ & Ht).
  - exact example_malloc_fresh.
  - exact example_submitted_wf.
  - exact example_submitted_ids.
  - vm_compute. repeat split; discriminate.
  - apply list_init_repr.
  - apply NoDup_singleton.
  - discriminate.
  - vm_compute. reflexivity.
  - exists st', t', q', n. split; [exact Heq|]. split; [exact Hn|]. split; [|exact Ht].
    apply (Hw 0%nat 0). reflexivity.
Defined.

(** C25. A priority thread whose last socket is closed touches freed memory: the
    iteration that finds the closed socket removes it, and in the next one
    [ListFirst] does not reset the iterator of the empty list, so that [ListNext]
    reads the node that was freed. *)
Theorem fill_prio_waitv_use_after_free `{LW : Lwip} (st : stack) (t : prio_thread)
    (l : prio_level) (id : pifus_socket_identifier) :
  stack_wf st -> ids_ok st -> thread_sockets t [id] -> socket_ptr st id = None ->
  exists t', fill_prio_waitv st t l = Ret (st, t', 0) /\ thread_sockets t' [] /\
    fill_prio_waitv st t' l = Undefined.
Proof.
  intros Hwf Hids Ht Hclosed.
  destruct (fill_prio_waitv_nonempty st t l [id] Hwf Hids Ht) as
    (st' & t' & Heq & Hmv & _ & Ht' & Hround & _); [apply NoDup_singleton|done|done|].
  unfold open_sockets in Heq, Hmv. simpl in Heq, Hmv, Ht'. rewrite Hclosed in Heq, Hmv, Ht'.
  inversion Hmv; subst. exists t'. split; [exact Heq|]. split; [exact Ht'|].
  destruct Ht' as (lst & Hlw & Hs). injection Hs as Hn Hfc.
  destruct lst; [|done]. unfold fill_prio_waitv, ListFirst. rewrite (lw_head _ _ Hlw).
  cbn [head fmap list_fmap mbind outcome_bind list_fuel fill_waitv_loop].
  replace (pt_list (pt_set_list t' (pt_list t'))) with (pt_list t') by done.
  by rewrite (list_next_empty _ Hlw Hround).
Qed.

Lemma fill_prio_waitv_use_after_free_witness :
  exists t t', thread_sockets t [example_id] /\
    fill_prio_waitv example_stack t LowQueue = Ret (example_stack, t', 0) /\
    fill_prio_waitv example_stack t' LowQueue = Undefined.
Proof.
  destruct (add_sockets_loop_spec example_malloc 5 example_thread example_new [])
    as (t & q' & _ & Ht & _).
  - exact example_malloc_fresh.
  - vm_compute. repeat split; discriminate.
  - apply list_init_repr.
  - vm_compute. lia.
  - vm_compute. reflexivity.
  - change (thread_sockets t [example_id]) in Ht. exists t.
    destruct (fill_prio_waitv_use_after_free example_stack t LowQueue example_id) as (t' & H1 & _ & H2).
    + exact example_stack_wf.
    + intros id p Hp. discriminate Hp.
    + exact Ht.
    + reflexivity.
    + exists t'. split; [exact Ht|]. split; [exact H1|exact H2].
Defined.
