(* ===== verification/Regions.v ===== *)
(** * The shared memory objects of pifus
      ([api/include/pifus_constants.h], [api/src/pifus_shmem.c])

    Their names, which client and stack both make from the indices of the
    application and of the socket, and the number at the start of an
    application's region.  What the operating system answers to [shm_open] and
    [mmap] is an argument of the code that calls them: a view of the objects at
    the time of the call. *)
From Stdlib Require Import Ascii.
From stdpp Require Import pretty.
From S2P Require Import Prelude Memory.

Definition MAX_APP_AMOUNT : Z := 100.
Definition MAX_SOCKETS_PER_APP : Z := 127.
Definition SHM_APP_NAME_PREFIX : string := "/app".
Definition SHM_SOCKET_NAME_PREFIX : string := "-socket".

(** [shm_open_region] with its argument [create] (a negative number if it
    fails), the address [shm_map_region] returns for a socket, and what an
    application's region holds. *)
Record shm_view := ShmView {
  shm_open_region : string -> bool -> Z;
  shm_map_region : Z -> Z;
  shm_map_app : Z -> mem }.

(** [asprintf] with [%u]. *)
Definition dec (n : Z) : string := pretty (Z.to_N n).

Definition app_shm_name (app_index : Z) : string := SHM_APP_NAME_PREFIX +:+ dec app_index.
Definition socket_shm_name (app_index socket_index : Z) : string :=
  SHM_APP_NAME_PREFIX +:+ dec app_index +:+ SHM_SOCKET_NAME_PREFIX +:+ dec socket_index.

(** [app->highest_socket_number], at the start of the region. *)
Definition highest_socket_number (m : mem) : Z := le_decode (slice m 0 4).
Definition set_highest_socket_number (m : mem) (v : Z) : mem :=
  memcpy m 0 (arr_of_list 0 (le_encode 4 v)) 0 4.

Lemma highest_set_highest m v : highest_socket_number (set_highest_socket_number m v) = u32 v.
Proof.
  unfold highest_socket_number, set_highest_socket_number.
  rewrite slice_memcpy_same, slice_arr_of_list by (rewrite length_le_encode; lia).
  change (Z.to_nat 4) with 4%nat. rewrite take_ge by (by rewrite length_le_encode).
  apply le_decode_encode.
Qed.

Lemma set_highest_out m v x : ~ 0 <= x < 4 -> set_highest_socket_number m v x = m x.
Proof. intros. apply memcpy_out. lia. Qed.

Lemma highest_range m : 0 <= highest_socket_number m < 4294967296.
Proof. pose proof (le_decode_range (slice m 0 4)). by rewrite length_slice in *. Qed.

(** ** Names *)

Fixpoint no_dash (s : string) : Prop :=
  match s with
  | EmptyString => True
  | String c s => c <> "-"%char /\ no_dash s
  end.

Lemma no_dash_digit x : no_dash (String (pretty_N_char x) "").
Proof.
  split; [|done]. unfold pretty_N_char. by repeat case_match.
Qed.

Lemma no_dash_go x s : no_dash s -> no_dash (pretty_N_go x s).
Proof.
  revert s. induction (N.lt_wf_0 x) as [x _ IH]. intros s Hs.
  destruct (decide (x = 0)%N) as [->|Hx]; [by rewrite pretty_N_go_0|].
  rewrite pretty_N_go_step by lia. apply IH; [apply N.div_lt; lia|].
  destruct (no_dash_digit (x mod 10)) as [Hd _]. by split.
Qed.

Lemma no_dash_dec n : no_dash (dec n).
Proof.
  unfold dec, pretty, pretty_N. case_decide; [by split|]. by apply no_dash_go.
Qed.

Lemma dec_inj x y : 0 <= x -> 0 <= y -> dec x = dec y -> x = y.
Proof. intros Hx Hy H. apply (pretty_N_inj (Z.to_N x) (Z.to_N y)) in H. lia. Qed.

Lemma dash_split a b x y :
  no_dash a -> no_dash b -> a +:+ String "-" x = b +:+ String "-" y -> a = b /\ x = y.
Proof.
  revert b. induction a as [|c a IH]; intros [|c' b] Ha Hb H.
  - by injection H.
  - injection H as <- _. by destruct Hb.
  - injection H as -> _. by destruct Ha.
  - injection H as <- H. destruct Ha as [_ Ha], Hb as [_ Hb].
    destruct (IH b Ha Hb H) as [-> ->]. done.
Qed.

Lemma dash_absent a b x : no_dash a -> a <> b +:+ String "-" x.
Proof.
  revert a. induction b as [|c b IH]; intros [|c' a] Ha H; try discriminate H.
  - injection H as -> _. by destruct Ha.
  - injection H as _ H. destruct Ha as [_ Ha]. by apply (IH a).
Qed.

(** Every application and every socket has a region of its own: names of
    shared memory objects are equal only for the same application and socket, and
    a region of an application is never taken for one of a socket. *)
Theorem shm_names_distinct (a s a' s' : Z) :
  0 <= a -> 0 <= s -> 0 <= a' -> 0 <= s' ->
  (socket_shm_name a s = socket_shm_name a' s' -> a = a' /\ s = s') /\
  (app_shm_name a = app_shm_name a' -> a = a') /\
  app_shm_name a <> socket_shm_name a' s'.
Proof.
  intros Ha Hs Ha' Hs'. unfold socket_shm_name, app_shm_name, SHM_SOCKET_NAME_PREFIX.
  split_and!; intros H; apply (inj (String.append SHM_APP_NAME_PREFIX)) in H.
  - apply (dash_split _ _ _ _ (no_dash_dec a) (no_dash_dec a')) in H as [H1 H2].
    apply (inj (String.append "socket")) in H2. split; by apply dec_inj.
  - by apply dec_inj.
  - by apply (dash_absent _ _ _ (no_dash_dec a)) in H.
Qed.

Lemma shm_names_distinct_witness :
  socket_shm_name 1 11 <> socket_shm_name 11 1 /\ socket_shm_name 1 11 = "/app1-socket11".
Proof.
  split; [|reflexivity]. destruct (shm_names_distinct 1 11 11 1) as [H _]; [lia..|].
  intros Heq. destruct (H Heq) as [Hne _]. discriminate Hne.
Defined.
