(* ===== verification/Discovery.v ===== *)
(** * Discovery of applications and sockets
      ([lwip/custom/stack/src/discovery.c])

    A thread of the stack maps the regions clients create and hands new sockets
    to the priority threads.  Which regions exist is a parameter: a view of the
    shared memory objects at the time of the call. *)
From S2P Require Import Prelude RingView RingBuffer ByteBuffer Memory Shmem Regions.
From S2P Require Import Operation PrioRing SocketRegion Lwip Stack StackSpec StackExample.
From S2P Require Import PrioThread.

(** The globals of the file, and [next_app_number]. *)
Record discovery := Discovery {
  d_app_futexes : arr Z;
  d_local_highest : arr Z;              (* app_local_highest_socket_number *)
  d_waitvs : arr (Z * Z);               (* the app and the value waited for *)
  d_app_from_futex_nr : arr Z;
  d_next_app_number : Z;
  d_high : pifus_new_socket_queue;
  d_medium : pifus_new_socket_queue;
  d_low : pifus_new_socket_queue }.

Definition d_queue (d : discovery) (l : prio_level) : pifus_new_socket_queue :=
  match l with HighQueue => d_high d | MediumQueue => d_medium d | LowQueue => d_low d end.
Definition d_set_queue (d : discovery) (l : prio_level) (q : pifus_new_socket_queue) : discovery :=
  Discovery (d_app_futexes d) (d_local_highest d) (d_waitvs d) (d_app_from_futex_nr d)
    (d_next_app_number d)
    (if decide (l = HighQueue) then q else d_high d)
    (if decide (l = MediumQueue) then q else d_medium d)
    (if decide (l = LowQueue) then q else d_low d).
Definition d_set_app_futexes (d : discovery) (x : arr Z) : discovery :=
  Discovery x (d_local_highest d) (d_waitvs d) (d_app_from_futex_nr d) (d_next_app_number d)
    (d_high d) (d_medium d) (d_low d).
Definition d_set_local_highest (d : discovery) (x : arr Z) : discovery :=
  Discovery (d_app_futexes d) x (d_waitvs d) (d_app_from_futex_nr d) (d_next_app_number d)
    (d_high d) (d_medium d) (d_low d).
Definition d_set_wait (d : discovery) (w : arr (Z * Z)) (x : arr Z) : discovery :=
  Discovery (d_app_futexes d) (d_local_highest d) w x (d_next_app_number d)
    (d_high d) (d_medium d) (d_low d).
Definition d_set_next_app_number (d : discovery) (x : Z) : discovery :=
  Discovery (d_app_futexes d) (d_local_highest d) (d_waitvs d) (d_app_from_futex_nr d) x
    (d_high d) (d_medium d) (d_low d).

(** The queue for the priority of a socket. *)
Definition priority_level (priority : Z) : prio_level :=
  if priority =? PRIORITY_HIGH then HighQueue
  else if priority =? PRIORITY_MEDIUM then MediumQueue
  else LowQueue.

(** What the stack initialises in the region of a new socket. *)
Definition init_mapped_socket (s : pifus_socket) (app_index socket_index : Z) : pifus_socket :=
  let s := set_identifier s (SocketIdentifier app_index socket_index) in
  let s := set_cqueue s (ring_buffer_create CQUEUE_SIZE) in
  let s := set_write_queue s (ring_buffer_create WRITE_QUEUE_SIZE) in
  let s := set_recv_queue s (ring_buffer_create RECV_QUEUE_SIZE) in
  set_recv_buffer s (pifus_byte_buffer_create RECV_BUFFER_SIZE).

Section discovery.
Context `{LW : Lwip}.
Implicit Types (st : stack) (d : discovery) (s : pifus_socket).

(** The body of the loop for a region that was opened and mapped at [socket]. *)
Definition map_socket st d (app_index socket_index socket : Z) : stack * discovery :=
  let st := st_set_socket_ptrs st
    (<[app_index := <[socket_index := Some socket]> (st_socket_ptrs st app_index)]>
       (st_socket_ptrs st)) in
  let s := init_mapped_socket (st_sockets st socket) app_index socket_index in
  let st := set_socket st socket s in
  let st :=
    if so_protocol s =? PROTOCOL_TCP then
      match so_pcb s with
      | Some pcb => st_set_lwip st (tcp_arg (Some pcb) (Some socket) (st_lwip st))
      | None => st
      end
    else st in
  let d := d_set_local_highest d (<[app_index := socket_index]> (d_local_highest d)) in
  let l := priority_level (so_priority s) in
  let q := d_queue d l in
  let '(_, rb, buf) :=
    ring_buffer_put (socket_queue q) (socket_queue_buffer q) (so_identifier s) in
  (st, d_set_queue d l (NewSocketQueue rb buf (u32 (socket_queue_futex q + 1)))).

(** The [for] loop; [socket_ptrs] has [MAX_SOCKETS_PER_APP] entries per
    application. *)
Fixpoint map_sockets_loop (fuel : nat) (shm : shm_view) st d
    (app_index app_highest_index socket_index : Z) : outcome (stack * discovery) :=
  match fuel with
  | O => NoFuel
  | S fuel =>
      if socket_index <=? app_highest_index then
        let fd := shm_open_region shm (socket_shm_name app_index socket_index) false in
        '(st, d) ←
          (if fd <? 0 then Ret (st, d)
           else if MAX_SOCKETS_PER_APP <=? socket_index then Undefined
           else Ret (map_socket st d app_index socket_index (shm_map_region shm fd)));
        map_sockets_loop fuel shm st d app_index app_highest_index (u32 (socket_index + 1))
      else Ret (st, d)
  end.

Definition map_new_sockets (shm : shm_view) st d (app_index : Z) : outcome (stack * discovery) :=
  let current_highest_index := d_local_highest d app_index in
  app ← deref (st_apps st app_index);
  let app_highest_index := highest_socket_number app in
  if current_highest_index <? app_highest_index then
    map_sockets_loop (S (Z.to_nat (app_highest_index - current_highest_index))) shm st d
      app_index app_highest_index (u32 (current_highest_index + 1))
  else Ret (st, d).

(** The loop of [scan_for_app_regions]; [n] is how many values of [i] are left. *)
Fixpoint scan_apps_loop (n : nat) (shm : shm_view) st d : stack * discovery :=
  match n with
  | O => (st, d)
  | S n =>
      let i := d_next_app_number d in
      let fd := shm_open_region shm (app_shm_name i) false in
      if 0 <=? fd then
        scan_apps_loop n shm (set_app st i (shm_map_app shm fd))
          (d_set_next_app_number d (u32 (i + 1)))
      else (st, d)
  end.

Definition scan_for_app_regions (shm : shm_view) st d : stack * discovery :=
  scan_apps_loop (Z.to_nat (MAX_APP_AMOUNT - d_next_app_number d)) shm st d.

Definition handle_new_sockets (shm : shm_view) st d (app_index : Z) :
    outcome (stack * discovery) :=
  app ← deref (st_apps st app_index);
  let d := d_set_app_futexes d
    (<[app_index := highest_socket_number app]> (d_app_futexes d)) in
  map_new_sockets shm st d app_index.

(** The loop of [fill_waitv]; [n] is how many applications are left. *)
Fixpoint fill_apps_loop (n : nat) (shm : shm_view) st d (app_index current_amount_futexes : Z) :
    outcome (stack * discovery * Z) :=
  match n with
  | O => Ret (st, d, current_amount_futexes)
  | S n =>
      match st_apps st app_index with
      | None => fill_apps_loop n shm st d (app_index + 1) current_amount_futexes
      | Some app =>
          '(st, d) ←
            (if negb (highest_socket_number app =? d_app_futexes d app_index) then
               handle_new_sockets shm st d app_index
             else Ret (st, d));
          let k := current_amount_futexes in
          let d := d_set_wait d (<[k := (app_index, d_app_futexes d app_index)]> (d_waitvs d))
                     (<[k := app_index]> (d_app_from_futex_nr d)) in
          fill_apps_loop n shm st d (app_index + 1) (u8 (k + 1))
      end
  end.

Definition fill_waitv (shm : shm_view) st d : outcome (stack * discovery * Z) :=
  fill_apps_loop (Z.to_nat (d_next_app_number d)) shm st d 0 0.

(** One iteration of [discovery_thread_loop]; [ret_code] is what [futex_waitv]
    returns, and [shm'] the regions there are by then. *)
Definition discovery_iteration (shm shm' : shm_view) (ret_code : Z) st d :
    outcome (stack * discovery) :=
  let '(st, d) := scan_for_app_regions shm st d in
  '(st, d, amount_futexes) ← fill_waitv shm st d;
  if 0 <? amount_futexes then
    if 0 <=? ret_code then
      '(st, d) ← handle_new_sockets shm' st d (d_app_from_futex_nr d ret_code);
      Ret (st, d_set_wait d (d_waitvs d)
        (fun i => if (0 <=? i) && (i <? MAX_APP_AMOUNT) then 0 else d_app_from_futex_nr d i))
    else Ret (st, d)
  else Ret (st, d).

(** [start_discovery_thread] creates the queues of new sockets. *)
Definition create_socket_queue (q : pifus_new_socket_queue) : pifus_new_socket_queue :=
  nq_set_queue q (ring_buffer_create DISCOVERY_MAX_NEW_SOCKETS).
Definition start_discovery_thread d : discovery :=
  d_set_queue
    (d_set_queue (d_set_queue d HighQueue (create_socket_queue (d_high d)))
       MediumQueue (create_socket_queue (d_medium d)))
    LowQueue (create_socket_queue (d_low d)).
End discovery.

(** ** Mapping new sockets *)

Section mapping.
Context `{LW : Lwip}.
Implicit Types (st : stack) (d : discovery) (ps : list (Z * Z)).

(** The regions that can be opened, with the socket index of each. *)
Definition opened (shm : shm_view) (app_index : Z) (js : list Z) : list (Z * Z) :=
  omap (fun j =>
    let fd := shm_open_region shm (socket_shm_name app_index j) false in
    if fd <? 0 then None else Some (j, shm_map_region shm fd)) js.

Definition map_all st d (app_index : Z) ps : stack * discovery :=
  foldl (fun x jp => map_socket x.1 x.2 app_index jp.1 jp.2) (st, d) ps.

Lemma map_sockets_loop_fold n fuel shm st d app i hi :
  hi = i + Z.of_nat n - 1 -> 0 <= i -> hi < MAX_SOCKETS_PER_APP -> (n < fuel)%nat ->
  map_sockets_loop fuel shm st d app hi i =
  Ret (map_all st d app (opened shm app (seqZ i (Z.of_nat n)))).
Proof.
  revert fuel st d i. induction n as [|n IH]; intros fuel st d i Hhi Hi Hlim Hf;
    (destruct fuel as [|fuel]; [lia|]); cbn [map_sockets_loop].
  - rewrite (proj2 (Z.leb_gt i hi)) by lia. done.
  - rewrite (proj2 (Z.leb_le i hi)) by lia. rewrite seqZ_cons by lia.
    unfold opened. cbn [omap list_omap].
    replace (Z.succ i) with (i + 1) by lia. replace (Z.pred (Z.of_nat (S n))) with (Z.of_nat n) by lia.
    unfold MAX_SOCKETS_PER_APP in *. destruct (_ <? 0) eqn:Hfd.
    + cbn [mbind outcome_bind]. rewrite u32_small by lia. apply IH; lia.
    + rewrite (proj2 (Z.leb_gt 127 i)) by lia. cbn [mbind outcome_bind].
      destruct (map_socket _ _ _ _ _) as [st1 d1] eqn:Hm. rewrite u32_small by lia.
      rewrite IH by lia. unfold map_all. cbn [foldl fst snd]. by rewrite Hm.
Qed.

(** The identifiers of those with the priority of a level. *)
Definition ids_of_level st (app_index : Z) ps (l : prio_level) : list pifus_socket_identifier :=
  omap (fun jp =>
    if decide (priority_level (so_priority (st_sockets st jp.2)) = l)
    then Some (SocketIdentifier app_index jp.1) else None) ps.

Definition nq_room (q : pifus_new_socket_queue) : Z := rb_free (socket_queue q).

(** What mapping the sockets [ps] of an application does. *)
Record sockets_mapped (app_index : Z) ps st d st' d' : Prop := SocketsMapped {
  sp_ptrs : forall j p, (j, p) ∈ ps ->
    socket_ptr st' (SocketIdentifier app_index j) = Some p;
  sp_ptrs_kept : forall id, (app_index <> SocketRegion.app_index id \/ socket_index id ∉ ps.*1) ->
    socket_ptr st' id = socket_ptr st id;
  sp_sockets : forall j p, (j, p) ∈ ps ->
    st_sockets st' p = init_mapped_socket (st_sockets st p) app_index j;
  sp_sockets_kept : forall p, p ∉ ps.*2 -> st_sockets st' p = st_sockets st p;
  sp_queues : forall l,
    rb_wf (socket_queue (d_queue d' l)) /\
    nq_list (d_queue d' l) = nq_list (d_queue d l) ++
      take (Z.to_nat (nq_room (d_queue d l))) (ids_of_level st app_index ps l) /\
    nq_room (d_queue d' l) =
      Z.max 0 (nq_room (d_queue d l) - Z.of_nat (length (ids_of_level st app_index ps l))) /\
    u32 (socket_queue_futex (d_queue d' l)) =
      u32 (socket_queue_futex (d_queue d l) + Z.of_nat (length (ids_of_level st app_index ps l)));
  sp_highest : d_local_highest d' app_index =
    default (d_local_highest d app_index) (last ps.*1);
  sp_apps : st_apps st' = st_apps st;
  sp_tx_queue : st_tx_queue st' = st_tx_queue st }.

Lemma d_queue_set d l l' q : d_queue (d_set_queue d l q) l' = if decide (l' = l) then q else d_queue d l'.
Proof. by destruct l, l'. Qed.

Lemma d_queue_highest d x l : d_queue (d_set_local_highest d x) l = d_queue d l.
Proof. by destruct l. Qed.

(** One socket. *)
Lemma sockets_mapped_one app j p st d :
  (forall l, rb_wf (socket_queue (d_queue d l))) ->
  sockets_mapped app [(j, p)] st d (map_socket st d app j p).1 (map_socket st d app j p).2.
Proof.
  intros Hq. unfold map_socket.
  set (s := init_mapped_socket _ _ _). set (l := priority_level (so_priority s)).
  destruct (ring_buffer_put _ _ _) as [[ok rb] buf] eqn:Hput. cbn [fst snd].
  rewrite d_queue_highest in Hput |- *.
  set (st1 := if so_protocol s =? _ then _ else _).
  assert (st_socket_ptrs st1 = <[app := <[j := Some p]> (st_socket_ptrs st app)]> (st_socket_ptrs st) /\
    st_sockets st1 = <[p := s]> (st_sockets st) /\ st_apps st1 = st_apps st /\
    st_tx_queue st1 = st_tx_queue st) as (Hp & Hs & Ha & Ht).
  { unfold st1. by destruct (_ =? _), (so_pcb s). }
  assert (l = priority_level (so_priority (st_sockets st p))) as Hl by done.
  split.
  - intros j' p' Hin. apply list_elem_of_singleton in Hin. injection Hin as -> ->.
    unfold socket_ptr. rewrite Hp. simpl. by rewrite !arr_insert_eq.
  - intros id Hid. unfold socket_ptr. rewrite Hp.
    destruct (decide (SocketRegion.app_index id = app)) as [Heq|Hne].
    + rewrite Heq, arr_insert_eq, arr_insert_ne; [done|]. intros Hj.
      destruct Hid as [Hid|Hid]; [congruence|]. apply Hid. simpl. rewrite Hj. by left.
    + by rewrite arr_insert_ne by congruence.
  - intros j' p' Hin. apply list_elem_of_singleton in Hin. injection Hin as -> ->.
    by rewrite Hs, arr_insert_eq.
  - intros p' Hp'. rewrite Hs, arr_insert_ne; [done|]. intros ->. apply Hp'. by left.
  - intros l'. rewrite d_queue_set, d_queue_highest. unfold ids_of_level. cbn [omap list_omap fst snd]. rewrite <- Hl.
    specialize (Hq l'). pose proof (rb_free_bounds _ Hq) as Hfree.
    destruct (decide (l' = l)) as [->|Hne].
    2: { rewrite decide_False by congruence. rewrite take_nil, app_nil_r. simpl length.
         unfold nq_room. split_and!; [done|done|lia|]. simpl. f_equal. lia. }
    rewrite decide_True by done. cbn [socket_queue socket_queue_futex length].
    unfold nq_room, nq_list. cbn [socket_queue socket_queue_buffer].
    assert (so_identifier s = SocketIdentifier app j) as Hid by done. rewrite Hid in Hput.
    destruct (decide (rb_free (socket_queue (d_queue d l)) = 0)) as [Hz|Hz].
    + rewrite ring_buffer_put_full in Hput by done. injection Hput as <- <- <-.
      rewrite Hz. cbn [take Z.to_nat]. rewrite app_nil_r.
      split_and!; [done|done|lia|]. apply u32_small, u32_range.
    + destruct (ring_buffer_put_ok (socket_queue (d_queue d l)) (socket_queue_buffer (d_queue d l))
        (SocketIdentifier app j) Hq) as (Hput' & Hw & Hf & Hc); [lia|].
      rewrite Hput' in Hput. injection Hput as <- <- <-.
      split_and!; [done| |lia|apply u32_small, u32_range].
      rewrite Hc, take_ge by (simpl; lia). done.
  - destruct l; simpl; by rewrite arr_insert_eq.
  - done.
  - done.
Qed.

Lemma ids_of_level_app st app ps1 ps2 l :
  ids_of_level st app (ps1 ++ ps2) l = ids_of_level st app ps1 l ++ ids_of_level st app ps2 l.
Proof.
  unfold ids_of_level. induction ps1 as [|jp ps1 IH]; [done|].
  rewrite <- app_comm_cons. cbn [omap list_omap]. destruct (decide _); [|exact IH].
  rewrite <- app_comm_cons. f_equal. exact IH.
Qed.

Lemma ids_of_level_ext st st' app ps l :
  (forall p, p ∈ ps.*2 -> so_priority (st_sockets st' p) = so_priority (st_sockets st p)) ->
  ids_of_level st' app ps l = ids_of_level st app ps l.
Proof.
  unfold ids_of_level. induction ps as [|jp ps IH]; intros H; [done|]. cbn [omap list_omap].
  rewrite H by (by left). destruct (decide _); [f_equal|]; apply IH; intros; apply H; by right.
Qed.

Lemma sockets_mapped_cons app j p ps st d st1 d1 st2 d2 :
  sockets_mapped app [(j, p)] st d st1 d1 -> sockets_mapped app ps st1 d1 st2 d2 ->
  j ∉ ps.*1 -> p ∉ ps.*2 -> (forall l, 0 <= nq_room (d_queue d l)) ->
  sockets_mapped app ((j, p) :: ps) st d st2 d2.
Proof.
  intros [P1 K1 S1 O1 Q1 H1 A1 T1] [P2 K2 S2 O2 Q2 H2 A2 T2] Hj Hp Hroom. split.
  - intros j' p' Hin. apply elem_of_cons in Hin as [Heq|Hin]; [|by apply P2].
    injection Heq as -> ->. rewrite K2 by (by right). apply P1. by left.
  - intros id [Hid|Hid]; [rewrite K2, K1 by (by left); done|].
    apply not_elem_of_cons in Hid as [Hid1 Hid2]. rewrite K2, K1; [done|right|by right].
    intros Hin. apply list_elem_of_singleton in Hin. done.
  - intros j' p' Hin. apply elem_of_cons in Hin as [Heq|Hin].
    + injection Heq as -> ->. rewrite O2 by done. apply S1. by left.
    + rewrite (S2 _ _ Hin), O1; [done|]. intros Hin'. apply list_elem_of_singleton in Hin'.
      simpl in Hin'. subst p'. apply Hp. apply list_elem_of_fmap. by exists (j', p).
  - intros p' Hp'. apply not_elem_of_cons in Hp' as [Hp1 Hp2]. rewrite O2, O1; [done| |done].
    intros Hin. apply list_elem_of_singleton in Hin. done.
  - intros l. destruct (Q1 l) as (_ & C1 & R1 & F1), (Q2 l) as (W2 & C2 & R2 & F2).
    assert (ids_of_level st1 app ps l = ids_of_level st app ps l) as Hids.
    { apply ids_of_level_ext. intros q Hq. rewrite O1; [done|]. intros Hin.
      apply list_elem_of_singleton in Hin. subst. done. }
    rewrite Hids in C2, R2, F2. specialize (Hroom l).
    change ((j, p) :: ps) with ([(j, p)] ++ ps). rewrite ids_of_level_app, length_app.
    split_and!; [done| | |].
    + rewrite C2, C1, R1, take_app, <- app_assoc. do 3 f_equal. lia.
    + rewrite R2, R1. lia.
    + rewrite F2, (u32_congr_add _ _ _ F1). f_equal. lia.
  - rewrite H2, H1. rewrite fmap_cons. cbn [fst last fmap list_fmap].
    destruct (ps.*1) as [|x xs] eqn:Heq; [done|]. rewrite last_cons_cons. by destruct (last (x :: xs)) eqn:Hl; [|by apply last_None in Hl].
  - by rewrite A2, A1.
  - by rewrite T2, T1.
Qed.

Lemma map_all_cons app j p ps st d :
  map_all st d app ((j, p) :: ps) =
  map_all (map_socket st d app j p).1 (map_socket st d app j p).2 app ps.
Proof. unfold map_all. cbn [foldl fst snd]. by destruct (map_socket st d app j p). Qed.

Lemma map_all_spec app ps st d :
  (forall l, rb_wf (socket_queue (d_queue d l))) -> NoDup ps.*1 -> NoDup ps.*2 ->
  sockets_mapped app ps st d (map_all st d app ps).1 (map_all st d app ps).2.
Proof.
  revert st d. induction ps as [|[j p] ps IH]; intros st d Hq Hj Hp.
  - split; try done; try (by intros ? ? ?%not_elem_of_nil). intros l. unfold ids_of_level. simpl.
    rewrite take_nil, app_nil_r. pose proof (rb_free_bounds _ (Hq l)). unfold nq_room.
    split_and!; [done|done|lia|f_equal; lia].
  - rewrite fmap_cons in Hj, Hp. apply NoDup_cons in Hj as [Hj Hnj].
    apply NoDup_cons in Hp as [Hp Hnp]. rewrite map_all_cons.
    pose proof (sockets_mapped_one app j p st d Hq) as Hone.
    eapply sockets_mapped_cons; [exact Hone|apply IH; try done|done|done|].
    + intros l. apply (sp_queues _ _ _ _ _ _ Hone l).
    + intros l. pose proof (rb_free_bounds _ (Hq l)). unfold nq_room. lia.
Qed.
End mapping.

Lemma opened_in shm a js j : j ∈ (opened shm a js).*1 -> j ∈ js.
Proof.
  intros Hj. apply list_elem_of_fmap in Hj as ([j' p] & -> & Hin).
  apply list_elem_of_omap in Hin as (i & Hi & Hp). cbv zeta in Hp.
  destruct (_ <? 0); [done|]. injection Hp as <- _. done.
Qed.

Lemma opened_fst shm a js : NoDup js -> NoDup (opened shm a js).*1.
Proof.
  induction 1 as [|j js Hj _ IH]; [constructor|]. unfold opened. cbn [omap list_omap]. cbv zeta.
  destruct (_ <? 0); [exact IH|]. rewrite fmap_cons. constructor; [|exact IH].
  intros Hin. by apply Hj, (opened_in shm a).
Qed.

Lemma map_new_sockets_all `{LW : Lwip} shm (st : stack) d a m :
  st_apps st a = Some m -> 0 <= d_local_highest d a ->
  highest_socket_number m < MAX_SOCKETS_PER_APP ->
  map_new_sockets shm st d a =
  Ret (map_all st d a (opened shm a
    (seqZ (d_local_highest d a + 1) (highest_socket_number m - d_local_highest d a)))).
Proof.
  intros Hm Hcur Hhi. unfold map_new_sockets. rewrite Hm. cbn [deref mbind outcome_bind].
  unfold MAX_SOCKETS_PER_APP in *.
  destruct (Z.ltb_spec (d_local_highest d a) (highest_socket_number m)) as [Hlt|Hge].
  - rewrite u32_small by lia.
    rewrite <- (Z2Nat.id (highest_socket_number m - d_local_highest d a)) at 2 by lia.
    apply map_sockets_loop_fold; unfold MAX_SOCKETS_PER_APP; lia.
  - unfold seqZ. replace (Z.to_nat _) with 0%nat by lia. done.
Qed.

(** New sockets are mapped. For every socket an application has created
    since the last time, in order, whose region can be opened, the stack finds the
    socket at its index, the region knows its application and index, its queues
    are empty and of the right size, and its identifier is appended to the queue
    of the thread of its priority, whose futex counts it.  Sockets that were
    mapped before stay as they are.  The queue takes nine: of more sockets of one
    priority at once the last ones are mapped and counted, but no thread ever
    learns of them. *)
Theorem map_new_sockets_maps `{LW : Lwip} (shm : shm_view) (st : stack) (d : discovery)
    (a : Z) (m : mem) :
  let ps := opened shm a
    (seqZ (d_local_highest d a + 1) (highest_socket_number m - d_local_highest d a)) in
  st_apps st a = Some m -> 0 <= d_local_highest d a ->
  highest_socket_number m < MAX_SOCKETS_PER_APP ->
  (forall l, rb_wf (socket_queue (d_queue d l))) -> NoDup ps.*2 ->
  (forall id p, p ∈ ps.*2 -> socket_ptr st id <> Some p) ->
  exists st' d', map_new_sockets shm st d a = Ret (st', d') /\
    sockets_mapped a ps st d st' d' /\ (ids_ok st -> ids_ok st').
Proof.
  intros ps Hm Hcur Hhi Hq Hnd Hfresh. rewrite (map_new_sockets_all _ _ _ _ m) by done. fold ps.
  assert (NoDup ps.*1) as Hnd1 by (apply opened_fst, NoDup_seqZ).
  pose proof (map_all_spec a ps st d Hq Hnd1 Hnd) as Hmap.
  destruct (map_all st d a ps) as [st' d']. cbn [fst snd] in Hmap.
  exists st', d'. split_and!; [done|done|]. intros Hids id p Hp.
  destruct (decide (SocketRegion.app_index id = a /\ socket_index id ∈ ps.*1)) as [[Ha Hin]|Hout].
  - apply list_elem_of_fmap in Hin as ([j q] & Hj & Hin). cbn [fst] in Hj.
    assert (id = SocketIdentifier a j) as Heq by (destruct id; simpl in *; congruence).
    rewrite Heq, (sp_ptrs _ _ _ _ _ _ Hmap _ _ Hin) in Hp. injection Hp as <-.
    by rewrite (sp_sockets _ _ _ _ _ _ Hmap _ _ Hin).
  - rewrite (sp_ptrs_kept _ _ _ _ _ _ Hmap) in Hp.
    + rewrite (sp_sockets_kept _ _ _ _ _ _ Hmap); [by apply Hids|].
      intros Hin. by apply (Hfresh id p Hin).
    + destruct (decide (a = SocketRegion.app_index id)) as [Ha|Ha]; [right|by left].
      intros Hin. apply Hout. by rewrite Ha.
Qed.

(** ** One application with one socket *)

Definition example_app : mem := <[0 := 1]> (fun _ => 0 : Z).

Definition example_shm : shm_view :=
  ShmView (fun name _ => if decide (name = "/app0") then 3
                       else if decide (name = "/app0-socket1") then 4 else -1)
    (fun fd => fd * 1000) (fun _ => example_app).

Definition example_queue : pifus_new_socket_queue :=
  NewSocketQueue (RingBuffer 0 0 0) (fun _ => SocketIdentifier 0 0) 0.

Definition example_discovery : discovery :=
  start_discovery_thread (Discovery (fun _ => 0) (fun _ => 0) (fun _ => (0, 0)) (fun _ => 0) 1
    example_queue example_queue example_queue).

Definition example_discovered : stack := set_app example_stack 0 example_app.

Lemma map_new_sockets_maps_witness :
  exists st' d', map_new_sockets example_shm example_discovered example_discovery 0 =
      Ret (st', d') /\
    socket_ptr st' (SocketIdentifier 0 1) = Some 4000 /\
    nq_list (d_queue d' LowQueue) = [SocketIdentifier 0 1].
Proof.
  destruct (map_new_sockets_maps example_shm example_discovered example_discovery 0 example_app)
    as (st' & d' & Heq & [P _ _ _ Q _ _ _] & _).
  - reflexivity.
  - vm_compute. discriminate.
  - vm_compute. reflexivity.
  - intros l. destruct l; vm_compute; repeat split; discriminate.
  - vm_compute. apply NoDup_singleton.
  - intros id p _. discriminate.
  - change (opened example_shm 0 _) with [(1, 4000)] in P, Q.
    exists st', d'. split; [exact Heq|]. split; [apply P; by left|].
    destruct (Q LowQueue) as (_ & Hq & _). rewrite Hq. reflexivity.
Defined.

Lemma map_socket_kept `{LW : Lwip} (st : stack) d a j p :
  let x := map_socket st d a j p in
  st_apps x.1 = st_apps st /\ d_app_futexes x.2 = d_app_futexes d /\
  d_waitvs x.2 = d_waitvs d /\ d_app_from_futex_nr x.2 = d_app_from_futex_nr d /\
  d_next_app_number x.2 = d_next_app_number d /\
  (forall a', a' <> a -> d_local_highest x.2 a' = d_local_highest d a').
Proof.
  unfold map_socket. destruct (ring_buffer_put _ _ _) as [[ok rb] buf]. cbn [fst snd].
  split_and!; try by destruct (priority_level _).
  - destruct (_ =? _); [|done]. by destruct (so_pcb (init_mapped_socket _ _ _)).
  - intros a' Ha. destruct (priority_level _); simpl; by rewrite arr_insert_ne by congruence.
Qed.

Lemma map_all_kept `{LW : Lwip} (st : stack) d a ps :
  let x := map_all st d a ps in
  st_apps x.1 = st_apps st /\ d_app_futexes x.2 = d_app_futexes d /\
  d_waitvs x.2 = d_waitvs d /\ d_app_from_futex_nr x.2 = d_app_from_futex_nr d /\
  d_next_app_number x.2 = d_next_app_number d /\
  (forall a', a' <> a -> d_local_highest x.2 a' = d_local_highest d a').
Proof.
  revert st d. induction ps as [|[j p] ps IH]; intros st d; [done|]. cbv zeta.
  rewrite map_all_cons. pose proof (map_socket_kept st d a j p) as (A1 & B1 & C1 & D1 & E1 & F1).
  destruct (IH (map_socket st d a j p).1 (map_socket st d a j p).2)
    as (A2 & B2 & C2 & D2 & E2 & F2).
  split_and!; try congruence. intros a' Ha. by rewrite F2, F1.
Qed.

(** An application whose sockets can be handled. *)
Definition app_ready `{LW : Lwip} (st : stack) d (a : Z) : Prop :=
  exists m, st_apps st a = Some m /\ highest_socket_number m < MAX_SOCKETS_PER_APP /\
    0 <= d_local_highest d a.

Definition highest_of `{LW : Lwip} (st : stack) (a : Z) : Z :=
  match st_apps st a with Some m => highest_socket_number m | None => 0 end.

Lemma fill_apps_step `{LW : Lwip} (st : stack) d shm a m :
  st_apps st a = Some m -> highest_socket_number m < MAX_SOCKETS_PER_APP ->
  0 <= d_local_highest d a ->
  exists st' d',
    (if negb (highest_socket_number m =? d_app_futexes d a) then handle_new_sockets shm st d a
     else Ret (st, d)) = Ret (st', d') /\
    st_apps st' = st_apps st /\ d_app_futexes d' a = highest_socket_number m /\
    d_waitvs d' = d_waitvs d /\ d_app_from_futex_nr d' = d_app_from_futex_nr d /\
    d_next_app_number d' = d_next_app_number d /\
    (forall a', a' <> a -> d_local_highest d' a' = d_local_highest d a').
Proof.
  intros Hm Hhi Hlow. destruct (Z.eqb_spec (highest_socket_number m) (d_app_futexes d a)) as [Heq|Hne].
  - exists st, d. by split_and!.
  - cbn [negb]. unfold handle_new_sockets. rewrite Hm. cbn [deref mbind outcome_bind].
    set (d0 := d_set_app_futexes d _). rewrite (map_new_sockets_all shm st d0 a m) by done.
    match goal with |- context [map_all st d0 a ?ps] => pose proof (map_all_kept st d0 a ps) as Hk;
      destruct (map_all st d0 a ps) as [st' d'] end.
    destruct Hk as (A1 & B1 & C1 & D1 & E1 & F1). cbn [fst snd] in *.
    exists st', d'. split_and!; try done. rewrite B1. apply arr_insert_eq.
Qed.

Lemma fill_apps_loop_spec `{LW : Lwip} n shm (st : stack) d i k :
  (forall a, i <= a < i + Z.of_nat n -> app_ready st d a) ->
  0 <= k -> k + Z.of_nat n < 256 ->
  exists st' d', fill_apps_loop n shm st d i k = Ret (st', d', k + Z.of_nat n) /\
    st_apps st' = st_apps st /\ d_next_app_number d' = d_next_app_number d /\
    (forall j, 0 <= j < Z.of_nat n ->
       d_waitvs d' (k + j) = (i + j, highest_of st (i + j)) /\
       d_app_from_futex_nr d' (k + j) = i + j) /\
    (forall j, j < k -> d_waitvs d' j = d_waitvs d j /\
       d_app_from_futex_nr d' j = d_app_from_futex_nr d j).
Proof.
  revert st d i k. induction n as [|n IH]; intros st d i k Hready Hk Hlim; cbn [fill_apps_loop].
  - exists st, d. change (Z.of_nat 0) with 0. rewrite Z.add_0_r. split_and!; try done. lia.
  - destruct (Hready i ltac:(lia)) as (m & Hm & Hhi & Hlow). rewrite Hm.
    destruct (fill_apps_step st d shm i m Hm Hhi Hlow)
      as (st1 & d1 & -> & A1 & B1 & C1 & D1 & E1 & F1).
    cbn [mbind outcome_bind]. rewrite B1, u8_small by lia. set (d2 := d_set_wait d1 _ _).
    destruct (IH st1 d2 (i + 1) (k + 1)) as (st' & d' & -> & A & E & W & L); [|lia..|].
    { intros a Ha. destruct (Hready a ltac:(lia)) as (m' & Hm' & Hhi' & Hlow').
      exists m'. rewrite A1. split_and!; [done..|]. change (0 <= d_local_highest d1 a).
      by rewrite F1 by lia. }
    exists st', d'. split_and!.
    + do 2 f_equal. lia.
    + by rewrite A.
    + by rewrite E.
    + intros j Hj. destruct (decide (j = 0)) as [->|Hne].
      * rewrite !Z.add_0_r. destruct (L k ltac:(lia)) as [-> ->]. unfold d2.
        cbn [d_waitvs d_app_from_futex_nr d_set_wait]. rewrite !arr_insert_eq.
        unfold highest_of. by rewrite Hm.
      * destruct (W (j - 1) ltac:(lia)) as [H1 H2].
        replace (k + 1 + (j - 1)) with (k + j) in H1, H2 by lia.
        replace (i + 1 + (j - 1)) with (i + j) in H1, H2 by lia.
        rewrite H1, H2. unfold highest_of. by rewrite A1.
    + intros j Hj. destruct (L j ltac:(lia)) as [-> ->]. unfold d2.
      cbn [d_waitvs d_app_from_futex_nr d_set_wait].
      by rewrite !arr_insert_ne, C1, D1 by lia.
Qed.

(** No new socket is missed. Before it sleeps, the discovery thread waits on
    one futex per application, the number of its last socket, and the value it
    waits with is the number up to which it has just handled the sockets of that
    application: a client that creates another one ends the wait at once. *)
Theorem fill_waitv_waits `{LW : Lwip} (shm : shm_view) (st : stack) (d : discovery) :
  0 <= d_next_app_number d <= MAX_APP_AMOUNT ->
  (forall a, 0 <= a < d_next_app_number d -> app_ready st d a) ->
  exists st' d', fill_waitv shm st d = Ret (st', d', d_next_app_number d) /\
    st_apps st' = st_apps st /\
    forall a, 0 <= a < d_next_app_number d ->
      d_waitvs d' a = (a, highest_of st a) /\ d_app_from_futex_nr d' a = a.
Proof.
  intros Hn Hready. unfold fill_waitv, MAX_APP_AMOUNT in *.
  destruct (fill_apps_loop_spec (Z.to_nat (d_next_app_number d)) shm st d 0 0)
    as (st' & d' & Heq & Ha & _ & Hw & _); [|lia..|].
  - intros a Ha. apply Hready. lia.
  - exists st', d'. rewrite Heq. split_and!; [do 2 f_equal; lia|done|].
    intros a Hlt. destruct (Hw a ltac:(lia)) as [H1 H2]. by rewrite !Z.add_0_l in *.
Qed.

Lemma fill_waitv_waits_witness :
  exists st' d', fill_waitv example_shm example_discovered example_discovery = Ret (st', d', 1) /\
    d_waitvs d' 0 = (0, 1).
Proof.
  destruct (fill_waitv_waits example_shm example_discovered example_discovery)
    as (st' & d' & Heq & _ & Hw).
  - vm_compute. split; discriminate.
  - intros a Ha. change (d_next_app_number example_discovery) with 1 in Ha.
    assert (a = 0) as -> by lia. exists example_app. vm_compute. repeat split; discriminate.
  - exists st', d'. split; [exact Heq|]. change (d_next_app_number example_discovery) with 1 in Hw.
    destruct (Hw 0 ltac:(lia)) as [H _]. exact H.
Defined.

Lemma scan_apps_loop_spec `{LW : Lwip} n shm (st : stack) d :
  0 <= d_next_app_number d -> d_next_app_number d + Z.of_nat n <= MAX_APP_AMOUNT ->
  let next := d_next_app_number d in
  let fd i := shm_open_region shm (app_shm_name i) false in
  exists k : nat, let '(st', d') := scan_apps_loop n shm st d in
    d_next_app_number d' = next + Z.of_nat k /\ (k <= n)%nat /\
    (forall i, next <= i < next + Z.of_nat k ->
       0 <= fd i /\ st_apps st' i = Some (shm_map_app shm (fd i))) /\
    (forall i, i < next \/ next + Z.of_nat k <= i -> st_apps st' i = st_apps st i) /\
    (k = n \/ fd (next + Z.of_nat k) < 0).
Proof.
  revert st d. induction n as [|n IH]; intros st d Hd Hlim next fd; cbn [scan_apps_loop].
  - exists 0%nat. split_and!; [lia|lia|lia|done|by left].
  - fold next. fold (fd next). destruct (Z.leb_spec 0 (fd next)) as [Hfd|Hfd].
    2: { exists 0%nat. split_and!; [unfold next; lia|lia|intros; lia|done|right].
         change (Z.of_nat 0) with 0. rewrite Z.add_0_r. done. }
    unfold MAX_APP_AMOUNT in *. rewrite u32_small by (unfold next; lia).
    specialize (IH (set_app st next (shm_map_app shm (fd next))) (d_set_next_app_number d (next + 1))).
    cbn [d_next_app_number d_set_next_app_number] in IH.
    destruct IH as (k & IH); [unfold next; lia|unfold next; lia|].
    destruct (scan_apps_loop _ _ _ _) as [st' d']. destruct IH as (H1 & H2 & H3 & H4 & H5).
    exists (S k). split_and!; [lia|lia| | |].
    + intros i Hi. destruct (decide (i = next)) as [->|Hne]; [|apply H3; lia].
      split; [done|]. rewrite H4 by lia. simpl. apply arr_insert_eq.
    + intros i Hi. rewrite H4 by lia. simpl. rewrite arr_insert_ne by lia. done.
    + destruct H5 as [->|H5]; [by left|right].
      replace (next + Z.of_nat (S k)) with (next + 1 + Z.of_nat k) by lia. exact H5.
Qed.

(** Applications are found in order. A scan maps the regions of consecutive
    applications, from the first one not known yet up to the first that does not
    exist, or to the maximum; those known before keep their mapping. *)
Theorem scan_for_app_regions_maps `{LW : Lwip} (shm : shm_view) (st : stack) (d : discovery) :
  0 <= d_next_app_number d <= MAX_APP_AMOUNT ->
  let next := d_next_app_number d in
  let fd i := shm_open_region shm (app_shm_name i) false in
  let '(st', d') := scan_for_app_regions shm st d in
  let next' := d_next_app_number d' in
  next <= next' <= MAX_APP_AMOUNT /\
  (forall i, next <= i < next' -> 0 <= fd i /\ st_apps st' i = Some (shm_map_app shm (fd i))) /\
  (forall i, i < next \/ next' <= i -> st_apps st' i = st_apps st i) /\
  (next' = MAX_APP_AMOUNT \/ fd next' < 0).
Proof.
  intros Hn next fd. unfold scan_for_app_regions.
  destruct (scan_apps_loop_spec (Z.to_nat (MAX_APP_AMOUNT - d_next_app_number d)) shm st d)
    as (k & Hk); [lia|lia|]. fold next fd in Hk.
  destruct (scan_apps_loop _ _ _ _) as [st' d']. destruct Hk as (H1 & H2 & H3 & H4 & H5).
  cbv zeta. rewrite H1. split_and!; [lia|lia|done|done|].
  destruct H5 as [->|H5]; [left|by right]. unfold next. lia.
Qed.

Lemma scan_for_app_regions_maps_witness :
  exists st' d', scan_for_app_regions example_shm example_stack
      (d_set_next_app_number example_discovery 0) = (st', d') /\
    0 <= d_next_app_number d' <= 100.
Proof.
  destruct (scan_for_app_regions example_shm example_stack
    (d_set_next_app_number example_discovery 0)) as [st' d'] eqn:Heq.
  exists st', d'. split; [reflexivity|].
  pose proof (scan_for_app_regions_maps example_shm example_stack
    (d_set_next_app_number example_discovery 0)) as H. rewrite Heq in H.
  destruct H as (H & _); [vm_compute; split; discriminate|]. exact H.
Defined.
