(* ===== verification/Socket.v ===== *)
(** * The client's socket interface ([api/src/pifus_socket.c])

    Every call of the interface writes an operation into the submission queue
    of a socket's region, with its data in a block of the application's region;
    results come back through the completion queue.  The state is what one
    client process has mapped.  The mutex around the allocator in callback mode
    only orders the calls of two threads, each of which is one step here. *)
From stdpp Require Import pretty.
From S2P Require Import Prelude RingView RingBuffer ByteBuffer Memory Shmem Regions.
From S2P Require Import Operation SocketRegion.

(** The globals of [pifus.c] and [pifus_socket.c], the regions behind the
    pointers, and the names that were unlinked.  [cl_callback] is [callback != NULL]. *)
Record client := Client {
  cl_app_shm_name : string;
  cl_app_addr : Z;                     (* app_state *)
  cl_app : mem;                        (* *app_state *)
  cl_regions : arr pifus_socket;
  cl_sockets : arr (option Z);         (* sockets[] *)
  cl_callback : bool;
  cl_unlinked : list string }.

Definition cl_set_app (c : client) (m : mem) : client :=
  Client (cl_app_shm_name c) (cl_app_addr c) m (cl_regions c) (cl_sockets c) (cl_callback c) (cl_unlinked c).
Definition cl_set_region (c : client) (p : Z) (s : pifus_socket) : client :=
  Client (cl_app_shm_name c) (cl_app_addr c) (cl_app c) (<[p := s]> (cl_regions c)) (cl_sockets c)
    (cl_callback c) (cl_unlinked c).
Definition cl_set_socket (c : client) (i : Z) (p : option Z) : client :=
  Client (cl_app_shm_name c) (cl_app_addr c) (cl_app c) (cl_regions c) (<[i := p]> (cl_sockets c))
    (cl_callback c) (cl_unlinked c).
Definition cl_unlink (c : client) (name : string) : client :=
  Client (cl_app_shm_name c) (cl_app_addr c) (cl_app c) (cl_regions c) (cl_sockets c) (cl_callback c)
    (cl_unlinked c ++ [name]).

(** ["%s%s%u"] of [app_shm_name] and a socket's index. *)
Definition socket_region_name (c : client) (socket_index : Z) : string :=
  cl_app_shm_name c +:+ SHM_SOCKET_NAME_PREFIX +:+ dec socket_index.

(** A region after [memset(shmem_ptr, 0x00, size)]. *)
Definition zero_operation : pifus_operation :=
  Operation 0 (BindData 0 0) (ConnectData (repeat Ascii.zero 45) 0) (WriteData 0)
    (RecvData 0 0 None None) (ListenData 0) (AcceptData None None).
Definition zero_result : pifus_operation_result :=
  OperationResult 0 0 (WriteData 0) (RecvData 0 0 None None) (AcceptData None None).
Definition zero_socket : pifus_socket :=
  Socket 0 (SocketIdentifier 0 0) 0 0 (RingBuffer 0 0 0) (fun _ => zero_operation)
    0 (RingBuffer 0 0 0) (fun _ => zero_result)
    (RingBuffer 0 0 0) (fun _ => WriteEntry 0 0)
    (RingBuffer 0 0 0) (fun _ => RecvEntry 0 0 0)
    0 (ByteBuffer 0 0 0) (fun _ => 0) 0 0 0 None.

(** Fields of the payload unions. *)
Definition op_set_bind (op : pifus_operation) (d : pifus_bind_data) : pifus_operation :=
  Operation (op_code op) d (op_connect op) (op_write op) (op_recv op) (op_listen op)
    (op_accept op).
Definition op_set_connect (op : pifus_operation) (d : pifus_connect_data) : pifus_operation :=
  Operation (op_code op) (op_bind op) d (op_write op) (op_recv op) (op_listen op)
    (op_accept op).
Definition op_set_write (op : pifus_operation) (d : pifus_write_data) : pifus_operation :=
  Operation (op_code op) (op_bind op) (op_connect op) d (op_recv op) (op_listen op)
    (op_accept op).
Definition op_set_recv (op : pifus_operation) (d : pifus_recv_data) : pifus_operation :=
  Operation (op_code op) (op_bind op) (op_connect op) (op_write op) d (op_listen op)
    (op_accept op).
Definition op_set_listen (op : pifus_operation) (d : pifus_listen_data) : pifus_operation :=
  Operation (op_code op) (op_bind op) (op_connect op) (op_write op) (op_recv op) d
    (op_accept op).

Implicit Types (c : client) (op : pifus_operation).

(** ** Allocation *)

Definition p_alloc c (size : Z) : outcome (option (Z * Z) * client) :=
  '(ret, app) ← fueled (shm_data_allocate (cl_app_addr c) (cl_app c) size);
  Ret (ret, cl_set_app c app).

Definition p_free c (block : Z) : client := cl_set_app c (shm_data_free (cl_app_addr c) (cl_app c) block).

(** ** Queues *)

Definition is_queue_full c (socket : Z) : bool :=
  ring_buffer_is_full (so_squeue (cl_regions c socket)).

Definition enqueue_operation c (socket : Z) op : bool * client :=
  let s := cl_regions c socket in
  let '(ok, rb, buf) := ring_buffer_put (so_squeue s) (so_squeue_buffer s) op in
  if ok then
    let s := set_squeue_buffer (set_squeue s rb) buf in
    (true, cl_set_region c socket (set_squeue_futex s (u32 (so_squeue_futex s + 1))))
  else (false, c).

(** ** Sockets *)

Definition map_socket_region (shm : shm_view) c : outcome (Z * client) :=
  let next := u32 (highest_socket_number (cl_app c) + 1) in
  let fd := shm_open_region shm (socket_region_name c next) true in
  if fd <? 0 then Exited 1
  else
    let socket := shm_map_region shm fd in
    let c := cl_set_region c socket zero_socket in
    if MAX_SOCKETS_PER_APP <=? next then Undefined
    else
      let c := cl_set_socket c next (Some socket) in
      Ret (socket, cl_set_app c (set_highest_socket_number (cl_app c) next)).

Definition pifus_socket_with_tcp_pcb (shm : shm_view) c (protocol priority : Z)
    (tcp_pcb : option Z) : outcome (Z * client) :=
  '(socket, c) ← map_socket_region shm c;
  let s := set_priority (set_protocol (cl_regions c socket) protocol) priority in
  let s := match tcp_pcb with Some pcb => set_pcb s (Some pcb) | None => s end in
  Ret (socket, cl_set_region c socket (set_squeue s (ring_buffer_create SQUEUE_SIZE))).

Definition pifus_socket_new (shm : shm_view) c (protocol priority : Z) : outcome (Z * client) :=
  pifus_socket_with_tcp_pcb shm c protocol priority None.

(** ** Submitting operations

    [op] is what the uninitialised local variable holds. *)

Definition is_tcp c (socket : Z) : bool := so_protocol (cl_regions c socket) =? PROTOCOL_TCP.

Definition pifus_socket_bind op c (socket ip_type port : Z) : bool * client :=
  if is_queue_full c socket then (false, c)
  else
    let op := op_set_code op (if is_tcp c socket then TCP_BIND else UDP_BIND) in
    let op := op_set_bind op (BindData ip_type port) in
    enqueue_operation c socket op.

Definition pifus_socket_connect op c (socket : Z) (ip_addr : pifus_ip_addr) (port : Z) :
    bool * client :=
  if is_queue_full c socket then (false, c)
  else
    let op := op_set_code op (if is_tcp c socket then TCP_CONNECT else UDP_CONNECT) in
    let op := op_set_connect op (ConnectData ip_addr port) in
    enqueue_operation c socket op.

Definition pifus_socket_write op c (socket : Z) (data : arr Z) (size : Z) :
    outcome (bool * client) :=
  if is_queue_full c socket then Ret (false, c)
  else
    let op := op_set_code op (if is_tcp c socket then TCP_WRITE else UDP_SEND) in
    '(ret, c) ← p_alloc c size;
    match ret with
    | None => Ret (false, c)
    | Some (block_offset, block) =>
        let c := cl_set_app c (memcpy (cl_app c) (shm_data_get_data_ptr block) data 0 size) in
        let op := op_set_write op (WriteData (u64 block_offset)) in
        Ret (enqueue_operation c socket op)
    end.

Definition free_write_buffers c (block_offset : Z) : client :=
  p_free c (shm_data_get_block_ptr (i64 block_offset)).

Definition pifus_socket_recv op c (socket size : Z) : outcome (bool * client) :=
  if is_queue_full c socket then Ret (false, c)
  else
    let op := op_set_code op (if is_tcp c socket then TCP_RECV else UDP_RECV) in
    '(ret, c) ← p_alloc c size;
    match ret with
    | None => Ret (false, c)
    | Some (block_offset, block) =>
        let d := op_recv op in
        let op := op_set_recv op
          (RecvData block_offset size (recv_memory_block_ptr d) (recv_data_block_ptr d)) in
        Ret (enqueue_operation c socket op)
    end.

Definition pifus_socket_listen op c (socket backlog_size : Z) : bool * client :=
  if is_queue_full c socket then (false, c)
  else if is_tcp c socket then
    let op := op_set_code op TCP_LISTEN in
    let op := op_set_listen op (ListenData backlog_size) in
    enqueue_operation c socket op
  else (false, c).

Definition pifus_socket_accept op c (socket accepted_sockets_priority : Z) : bool * client :=
  if is_queue_full c socket then (false, c)
  else if is_tcp c socket then
    let op := op_set_code op TCP_ACCEPT in
    let c := cl_set_region c socket
      (set_accepted_sockets_priority (cl_regions c socket) accepted_sockets_priority) in
    enqueue_operation c socket op
  else (false, c).

Definition pifus_socket_close op c (socket : Z) : bool * client :=
  if is_queue_full c socket then (false, c)
  else
    let op := op_set_code op (if is_tcp c socket then TCP_CLOSE else UDP_DISCONNECT) in
    enqueue_operation c socket op.

Definition pifus_socket_nop op c (socket : Z) : bool * client :=
  if is_queue_full c socket then (false, c)
  else enqueue_operation c socket (op_set_code op CLIENT_NOP).

(** ** Results *)

Definition unlink_socket c (socket : Z) : client :=
  cl_unlink c (socket_region_name c (socket_index (so_identifier (cl_regions c socket)))).

(** A received result with the pointers of the client. *)
Definition point_to_block c (r : pifus_operation_result) : pifus_operation_result :=
  let block := shm_data_get_block_ptr (recv_block_offset (res_recv r)) in
  res_set_recv r (RecvData (recv_block_offset (res_recv r)) (blk_size (cl_app c) block)
    (Some block) (Some (shm_data_get_data_ptr block))).

(** What follows the [get] of [dequeue_operation]: the effects on the client of
    a result [r] that left the completion queue. *)
Definition settle_result (shm : shm_view) c (socket : Z) (r : pifus_operation_result) :
    outcome (pifus_operation_result * client) :=
  let c :=
    if res_code r =? TCP_WRITE
    then free_write_buffers c (write_block_offset (res_write r)) else c in
  '(r, c) ←
    (if (res_code r =? TCP_ACCEPT) && (res_result_code r =? PIFUS_OK) then
       '(accepted, c) ← pifus_socket_with_tcp_pcb shm c PROTOCOL_TCP
          (so_accepted_sockets_priority (cl_regions c socket)) (accept_pcb (res_accept r));
       Ret (res_set_accept r (AcceptData (Some accepted) (accept_pcb (res_accept r))), c)
     else Ret (r, c));
  let r :=
    if (res_code r =? TCP_RECV) || (res_code r =? UDP_RECV) then point_to_block c r
    else r in
  if (res_code r =? TCP_CLOSE) || (res_code r =? UDP_DISCONNECT) then
    let c := unlink_socket c socket in
    let i := socket_index (so_identifier (cl_regions c socket)) in
    if MAX_SOCKETS_PER_APP <=? i then Undefined
    else Ret (r, cl_set_socket c i None)
  else Ret (r, c).

Definition dequeue_operation (shm : shm_view) c (socket : Z) :
    outcome (option pifus_operation_result * client) :=
  let s := cl_regions c socket in
  let '(got, rb) := ring_buffer_get (so_cqueue s) (so_cqueue_buffer s) in
  match got with
  | None => Ret (None, c)
  | Some r =>
      '(r, c) ← settle_result shm (cl_set_region c socket (set_cqueue s rb)) socket r;
      Ret (Some r, c)
  end.

Definition pifus_socket_pop_result := dequeue_operation.

(** The slot of the result whose code the caller may read. *)
Definition pifus_socket_peek_result_code c (socket : Z) : option Z :=
  ring_buffer_peek (so_cqueue (cl_regions c socket)).

(** The loop of [pifus_socket_wait]: each step of [envs] is what the stack
    does while the client sleeps, or spins, in one iteration. *)
Fixpoint wait_loop (shm : shm_view) (envs : list (client -> client)) c (socket : Z) :
    outcome (pifus_operation_result * client) :=
  match envs with
  | [] => NoFuel
  | env :: envs =>
      '(r, c) ← dequeue_operation shm (env c) socket;
      match r with Some r => Ret (r, c) | None => wait_loop shm envs c socket end
  end.

Definition pifus_socket_wait (shm : shm_view) (envs : list (client -> client)) c (socket : Z) :
    outcome (pifus_operation_result * client) :=
  '(r, c) ← dequeue_operation shm c socket;
  match r with Some r => Ret (r, c) | None => wait_loop shm envs c socket end.

(** ** Leaving *)

Fixpoint exit_all_loop (fuel : nat) c (i : Z) : outcome client :=
  match fuel with
  | O => NoFuel
  | S fuel =>
      if i <=? highest_socket_number (cl_app c) then
        exit_all_loop fuel (cl_unlink c (socket_region_name c i)) (u32 (i + 1))
      else Ret c
  end.

Definition pifus_socket_exit_all c : outcome client :=
  let highest := highest_socket_number (cl_app c) in
  if 0 <? highest then exit_all_loop (Z.to_nat highest + 2) c 0 else Ret c.

Definition pifus_free c (operation_result : pifus_operation_result) : outcome client :=
  block ← deref (recv_memory_block_ptr (res_recv operation_result));
  Ret (p_free c block).

(** ** Submission *)

(** The operation [op] joins the submission queue of the socket at [p], its
    futex is incremented, and nothing else changes. *)
Record op_submitted c (p : Z) op (c' : client) : Prop := OpSubmitted {
  os_region : exists rb buf,
    cl_regions c' p = set_squeue_futex
      (set_squeue_buffer (set_squeue (cl_regions c p) rb) buf)
      (u32 (so_squeue_futex (cl_regions c p) + 1)) /\
    rb_wf rb /\ rb_free rb = rb_free (so_squeue (cl_regions c p)) - 1;
  os_list : sq_list (cl_regions c' p) = sq_list (cl_regions c p) ++ [op];
  os_regions : forall q, q <> p -> cl_regions c' q = cl_regions c q;
  os_app : cl_app c' = cl_app c;
  os_addr : cl_app_addr c' = cl_app_addr c;
  os_rest : cl_app_shm_name c' = cl_app_shm_name c /\ cl_sockets c' = cl_sockets c /\
    cl_callback c' = cl_callback c /\ cl_unlinked c' = cl_unlinked c }.

Lemma set_region_eq c p s : cl_regions (cl_set_region c p s) p = s.
Proof. apply arr_insert_eq. Qed.
Lemma set_region_ne c p q s : q <> p -> cl_regions (cl_set_region c p s) q = cl_regions c q.
Proof. intros. by apply arr_insert_ne. Qed.

Lemma enqueue_operation_spec c p op :
  let s := cl_regions c p in
  rb_wf (so_squeue s) ->
  if is_queue_full c p then enqueue_operation c p op = (false, c)
  else exists c', enqueue_operation c p op = (true, c') /\ op_submitted c p op c'.
Proof.
  intros s Hwf. unfold is_queue_full, enqueue_operation. fold s.
  rewrite (ring_buffer_is_full_spec _ Hwf). case_bool_decide as Hfree.
  - by rewrite (ring_buffer_put_full _ _ op Hwf Hfree).
  - pose proof (rb_free_bounds _ Hwf).
    destruct (ring_buffer_put_ok (so_squeue s) (so_squeue_buffer s) op Hwf) as (-> & Hwf' & Hf & Hc);
      [lia|].
    eexists. split; [done|]. split; [| | |done..].
    + do 2 eexists. split; [apply set_region_eq|done].
    + rewrite set_region_eq. exact Hc.
    + intros q Hq. by apply set_region_ne.
Qed.
