(* ===== verification/SocketSpec.v ===== *)
(** * What the client's socket interface promises

    A call either fails and changes nothing, or submits exactly one operation
    whose data is in a block of its own; the result that comes back gives the
    block, the socket or the name of the region back. *)
From stdpp Require Import pretty.
From S2P Require Import Prelude RingView RingBuffer ByteBuffer Memory Shmem ShmemSpec.
From S2P Require Import Regions Operation SocketRegion Socket.

Implicit Types (c : client) (op : pifus_operation) (m : mem) (bs : list blk).

(** ** Calls *)

Inductive api_call :=
  | ApiBind (ip_type port : Z)
  | ApiConnect (ip_addr : pifus_ip_addr) (port : Z)
  | ApiWrite (data : arr Z) (size : Z)
  | ApiRecv (size : Z)
  | ApiListen (backlog_size : Z)
  | ApiAccept (priority : Z)
  | ApiClose
  | ApiNop.

Definition api_exec op c (p : Z) (call : api_call) : outcome (bool * client) :=
  match call with
  | ApiBind ip_type port => Ret (pifus_socket_bind op c p ip_type port)
  | ApiConnect ip_addr port => Ret (pifus_socket_connect op c p ip_addr port)
  | ApiWrite data size => pifus_socket_write op c p data size
  | ApiRecv size => pifus_socket_recv op c p size
  | ApiListen backlog_size => Ret (pifus_socket_listen op c p backlog_size)
  | ApiAccept priority => Ret (pifus_socket_accept op c p priority)
  | ApiClose => Ret (pifus_socket_close op c p)
  | ApiNop => Ret (pifus_socket_nop op c p)
  end.

(** The block a call needs, and the protocols that have it. *)
Definition call_size (call : api_call) : option Z :=
  match call with ApiWrite _ size | ApiRecv size => Some size | _ => None end.
Definition call_supported (tcp : bool) (call : api_call) : bool :=
  match call with ApiListen _ | ApiAccept _ => tcp | _ => true end.

Definition call_code (tcp : bool) (call : api_call) : pifus_operation_code :=
  match call with
  | ApiBind _ _ => if tcp then TCP_BIND else UDP_BIND
  | ApiConnect _ _ => if tcp then TCP_CONNECT else UDP_CONNECT
  | ApiWrite _ _ => if tcp then TCP_WRITE else UDP_SEND
  | ApiRecv _ => if tcp then TCP_RECV else UDP_RECV
  | ApiListen _ => TCP_LISTEN
  | ApiAccept _ => TCP_ACCEPT
  | ApiClose => if tcp then TCP_CLOSE else UDP_DISCONNECT
  | ApiNop => CLIENT_NOP
  end.

(** What the stack finds in the operation of a call with a block at [offset]. *)
Definition call_carries (offset : Z) (call : api_call) op : Prop :=
  match call with
  | ApiBind ip_type port => op_bind op = BindData ip_type port
  | ApiConnect ip_addr port => op_connect op = ConnectData ip_addr port
  | ApiWrite _ _ => op_write op = WriteData offset
  | ApiRecv size => recv_block_offset (op_recv op) = offset /\ recv_size (op_recv op) = size
  | ApiListen backlog_size => op_listen op = ListenData backlog_size
  | _ => True
  end.

(** Accepting stores the priority in the region before it submits. *)
Definition call_setup c (p : Z) (call : api_call) : client :=
  match call with
  | ApiAccept priority =>
      cl_set_region c p (set_accepted_sockets_priority (cl_regions c p) priority)
  | _ => c
  end.

(** The operation of the call is submitted. *)
Definition call_submitted c (p : Z) (call : api_call) (offset : Z) (c' : client) : Prop :=
  exists op, op_submitted (call_setup c p call) p op c' /\
    op_code op = call_code (is_tcp c p) call /\ call_carries offset call op.

Lemma enqueue_call op c p (call : api_call) offset :
  rb_wf (so_squeue (cl_regions c p)) -> is_queue_full c p = false ->
  op_code op = call_code (is_tcp c p) call -> call_carries offset call op ->
  exists c', enqueue_operation (call_setup c p call) p op = (true, c') /\
    call_submitted c p call offset c'.
Proof.
  intros Hwf Hfull Hcode Hcarries.
  assert (so_squeue (cl_regions (call_setup c p call) p) = so_squeue (cl_regions c p)) as Hsq.
  { destruct call; try done. unfold call_setup. by rewrite set_region_eq. }
  pose proof (enqueue_operation_spec (call_setup c p call) p op) as Hs.
  unfold is_queue_full in *. cbv zeta in Hs. rewrite Hsq, Hfull in Hs.
  destruct (Hs Hwf) as (c' & Heq & Hsub). exists c'. split; [done|]. by exists op.
Qed.

(** A call that needs no block. *)
Lemma api_exec_plain op c p (call : api_call) :
  rb_wf (so_squeue (cl_regions c p)) -> call_size call = None ->
  is_queue_full c p = false -> call_supported (is_tcp c p) call = true ->
  exists c', api_exec op c p call = Ret (true, c') /\ call_submitted c p call 0 c'.
Proof.
  intros Hwf Hsize Hfull Hsup.
  destruct call; try done; cbn [api_exec call_supported] in *;
    unfold pifus_socket_bind, pifus_socket_connect, pifus_socket_listen, pifus_socket_accept,
      pifus_socket_close, pifus_socket_nop; rewrite Hfull, ?Hsup;
    match goal with |- context [enqueue_operation _ _ ?o] =>
      match goal with |- context [call_submitted _ _ ?call _] =>
        destruct (enqueue_call o c p call 0 Hwf Hfull) as (c' & Heq & Hsub);
          [simpl; by rewrite ?Hsup; try destruct (is_tcp c p)|done|]
      end
    end; cbn [call_setup] in Heq; rewrite Heq; by exists c'.
Qed.

Lemma api_exec_rejected op c p (call : api_call) :
  is_queue_full c p || negb (call_supported (is_tcp c p) call) = true ->
  api_exec op c p call = Ret (false, c).
Proof.
  intros Hrej. destruct call; cbn [api_exec call_supported] in *;
    unfold pifus_socket_bind, pifus_socket_connect, pifus_socket_listen, pifus_socket_accept,
      pifus_socket_close, pifus_socket_nop, pifus_socket_write, pifus_socket_recv;
    destruct (is_queue_full c p); try done; simpl in Hrej; by destruct (is_tcp c p).
Qed.

(** ** Blocks *)

Lemma allocated_payload m bs n b bs' m1 m2 :
  allocated m bs n b bs' m1 ->
  unchanged_outside (b + SIZEOF_MEMORY_BLOCK) (b + SIZEOF_MEMORY_BLOCK + n) m1 m2 ->
  allocated m bs n b bs' m2.
Proof.
  intros [Hh Hl Hu Hb Hk Hlow] Hout.
  assert ((b, n) ∈ heap_used bs') as Hin by (rewrite Hu; left).
  destruct (chain_payload _ _ _ _ _ _ Hh Hin Hout) as [Hh' Hl'].
  split; try done.
  - intros Hlk. by apply Hl', Hl.
  - intros a k Ha. destruct (Hk a k Ha) as [Hd Hs]. split; [done|].
    intros x Hx. rewrite Hs by done. symmetry. apply Hout.
    unfold SIZEOF_MEMORY_BLOCK in *. lia.
  - intros x Hx. rewrite Hout; [by apply Hlow|]. unfold SIZEOF_MEMORY_BLOCK in *. lia.
Qed.

Lemma p_alloc_spec c bs n :
  Mapped (cl_app_addr c) -> heap (cl_app c) bs -> size_ok (cl_app_addr c) n ->
  match first_fit SIZEOF_PIFUS_APP bs n with
  | None => p_alloc c n = Ret (None, cl_set_app c (cl_app c))
  | Some (b, bs') => exists m,
      p_alloc c n = Ret (Some (b - SIZEOF_PIFUS_APP, b), cl_set_app c m) /\
      allocated (cl_app c) bs n b bs' m
  end.
Proof.
  intros Hm Hh Hn. unfold p_alloc. pose proof (shm_data_allocate_spec _ _ bs n Hh Hn) as Ha.
  destruct (first_fit _ bs n) as [[b bs']|].
  - destruct Ha as (m & -> & Ha). by exists m.
  - by rewrite Ha.
Qed.

Lemma set_app_id c : cl_set_app c (cl_app c) = c.
Proof. by destruct c. Qed.

(** The operation of a call with a block joins the queue; only the region of
    the application differs from the one before. *)
Definition block_submitted c (p : Z) (call : api_call) bs (n b : Z) bs' (c' : client) : Prop :=
  allocated (cl_app c) bs n b bs' (cl_app c') /\
  call_submitted (cl_set_app c (cl_app c')) p call (b - SIZEOF_PIFUS_APP) c'.

Lemma submitted_app c p (call : api_call) offset c' :
  call_submitted c p call offset c' -> cl_app c' = cl_app c.
Proof. intros (op & Hsub & _). rewrite (os_app _ _ _ _ Hsub). by destruct call. Qed.

Lemma enqueue_block op c p (call : api_call) bs n b bs' m :
  rb_wf (so_squeue (cl_regions c p)) -> is_queue_full c p = false ->
  allocated (cl_app c) bs n b bs' m -> call_size call = Some n ->
  op_code op = call_code (is_tcp c p) call ->
  call_carries (b - SIZEOF_PIFUS_APP) call op ->
  exists c', enqueue_operation (cl_set_app c m) p op = (true, c') /\ cl_app c' = m /\
    block_submitted c p call bs n b bs' c'.
Proof.
  intros Hwf Hfull Ha Hsize Hcode Hcarries.
  destruct (enqueue_call op (cl_set_app c m) p call (b - SIZEOF_PIFUS_APP))
    as (c' & Heq & Hsub); [done..|].
  replace (call_setup (cl_set_app c m) p call) with (cl_set_app c m) in Heq
    by (by destruct call).
  assert (cl_app c' = m) as Happ by exact (submitted_app _ _ _ _ _ Hsub).
  exists c'. split_and!; [done..|]. unfold block_submitted. rewrite Happ. done.
Qed.

Lemma api_exec_write op c p data n bs :
  rb_wf (so_squeue (cl_regions c p)) -> Mapped (cl_app_addr c) -> heap (cl_app c) bs -> size_ok (cl_app_addr c) n ->
  is_queue_full c p = false ->
  match first_fit SIZEOF_PIFUS_APP bs n with
  | None => pifus_socket_write op c p data n = Ret (false, c)
  | Some (b, bs') => exists c', pifus_socket_write op c p data n = Ret (true, c') /\
      block_submitted c p (ApiWrite data n) bs n b bs' c' /\
      slice (cl_app c') (shm_data_get_data_ptr b) n = slice data 0 n
  end.
Proof.
  intros Hwf Hm Hh Hn Hfull. unfold pifus_socket_write. rewrite Hfull.
  pose proof (p_alloc_spec c bs n Hm Hh Hn) as Ha.
  destruct (first_fit _ bs n) as [[b bs']|].
  - destruct Ha as (m & -> & Ha). cbn [mbind outcome_bind].
    destruct (al_bounds _ _ _ _ _ _ Ha) as [Hb1 Hb2].
    pose proof Hn as [Hpos _].
    unfold SIZEOF_PIFUS_APP, SIZEOF_MEMORY_BLOCK, SHM_APP_SIZE in Hb1, Hb2.
    match goal with |- context [enqueue_operation ?cm p ?o] =>
      destruct (enqueue_block o c p (ApiWrite data n) bs n b bs' (cl_app cm)) as (c' & Heq & Happ & Hsub) end;
      [done|done| |done|by simpl; destruct (is_tcp c p)| |].
    + eapply allocated_payload; [exact Ha|]. intros x Hx. cbn [cl_app cl_set_app].
      apply memcpy_out. unfold shm_data_get_data_ptr. lia.
    + simpl. rewrite u64_small; [done|]. unfold SIZEOF_PIFUS_APP. lia.
    + exists c'. split_and!; [by f_equal|done|]. rewrite Happ. apply slice_memcpy_same.
  - rewrite Ha. cbn [mbind outcome_bind]. by rewrite set_app_id.
Qed.

Lemma api_exec_recv op c p n bs :
  rb_wf (so_squeue (cl_regions c p)) -> Mapped (cl_app_addr c) -> heap (cl_app c) bs -> size_ok (cl_app_addr c) n ->
  is_queue_full c p = false ->
  match first_fit SIZEOF_PIFUS_APP bs n with
  | None => pifus_socket_recv op c p n = Ret (false, c)
  | Some (b, bs') => exists c', pifus_socket_recv op c p n = Ret (true, c') /\
      block_submitted c p (ApiRecv n) bs n b bs' c'
  end.
Proof.
  intros Hwf Hm Hh Hn Hfull. unfold pifus_socket_recv. rewrite Hfull.
  pose proof (p_alloc_spec c bs n Hm Hh Hn) as Ha.
  destruct (first_fit _ bs n) as [[b bs']|].
  - destruct Ha as (m & -> & Ha). cbn [mbind outcome_bind].
    match goal with |- context [enqueue_operation ?cm p ?o] =>
      destruct (enqueue_block o c p (ApiRecv n) bs n b bs' m) as (c' & Heq & Happ & Hsub) end;
      [done|done|done|done|by simpl; destruct (is_tcp c p)|done|].
    exists c'. split; [by f_equal|done].
  - rewrite Ha. cbn [mbind outcome_bind]. by rewrite set_app_id.
Qed.

(** C27. A call that submits an operation (bind, connect, write, receive, listen,
    accept, close, nop) fails, and then nothing has changed, exactly when
    the submission queue is full, the protocol does not have the operation, or
    no block of the size fits in the region (first fit).  Otherwise it submits
    exactly one operation, with the code of the protocol and the arguments of
    the call, and increments the futex once.  A block is then allocated that
    overlaps no other one in use; a write has copied its data into it.  Sizes are
    positive and so small that no address wraps around
    ([shm_data_allocate_zero_aliases], [shm_data_allocate_wraps]). *)
Theorem api_exec_submits op c (p : Z) (call : api_call) bs :
  rb_wf (so_squeue (cl_regions c p)) -> Mapped (cl_app_addr c) -> heap (cl_app c) bs ->
  (forall n, call_size call = Some n -> size_ok (cl_app_addr c) n) ->
  if is_queue_full c p || negb (call_supported (is_tcp c p) call) then
    api_exec op c p call = Ret (false, c)
  else
    match call_size call with
    | None => exists c', api_exec op c p call = Ret (true, c') /\ call_submitted c p call 0 c'
    | Some n =>
        match first_fit SIZEOF_PIFUS_APP bs n with
        | None => api_exec op c p call = Ret (false, c)
        | Some (b, bs') => exists c', api_exec op c p call = Ret (true, c') /\
            block_submitted c p call bs n b bs' c' /\
            (forall data, call = ApiWrite data n ->
               slice (cl_app c') (shm_data_get_data_ptr b) n = slice data 0 n)
        end
    end.
Proof.
  intros Hwf Hm Hh Hn. destruct (_ || _) eqn:Hrej; [by apply api_exec_rejected|].
  apply orb_false_elim in Hrej as [Hfull Hsup%negb_false_iff].
  destruct (call_size call) as [n|] eqn:Hsize; [|by apply api_exec_plain].
  specialize (Hn n eq_refl). destruct call; try done; injection Hsize as ->; cbn [api_exec].
  - pose proof (api_exec_write op c p data n bs Hwf Hm Hh Hn Hfull) as Hw.
    destruct (first_fit _ bs n) as [[b bs']|]; [|done].
    destruct Hw as (c' & Hr & Hs & Hd). exists c'. split_and!; [done..|]. by intros d [= ->].
  - pose proof (api_exec_recv op c p n bs Hwf Hm Hh Hn Hfull) as Hw.
    destruct (first_fit _ bs n) as [[b bs']|]; [|done].
    destruct Hw as (c' & Hr & Hs). by exists c'.
Qed.

Definition example_client : client :=
  Client "/app0" example_app zero_region (fun _ => set_squeue zero_socket (ring_buffer_create SQUEUE_SIZE))
    (fun _ => None) false [].

Lemma api_exec_submits_witness :
  exists c', api_exec zero_operation example_client 0 (ApiWrite (fun i => 65 + i) 3) =
    Ret (true, c') /\ slice (cl_app c') 28 3 = [65; 66; 67].
Proof.
  destruct (api_exec_submits zero_operation example_client 0 (ApiWrite (fun i => 65 + i) 3) [])
    as (c' & Hr & _ & Hd); [by apply rb_create_wf|exact example_mapped|exact zero_region_heap|by intros n [= <-]|].
  exists c'. split; [exact Hr|]. exact (Hd _ eq_refl).
Defined.

(** ** Results *)

(** A result left the completion queue of the socket at [p], [rest] is left,
    and nothing else changed. *)
Record result_taken c (p : Z) (rest : list pifus_operation_result) c' : Prop := ResultTaken {
  rt_region : exists rb, cl_regions c' p = set_cqueue (cl_regions c p) rb /\ rb_wf rb;
  rt_list : cq_list (cl_regions c' p) = rest;
  rt_regions : forall q, q <> p -> cl_regions c' q = cl_regions c q;
  rt_app : cl_app c' = cl_app c;
  rt_addr : cl_app_addr c' = cl_app_addr c;
  rt_rest : cl_app_shm_name c' = cl_app_shm_name c /\ cl_sockets c' = cl_sockets c /\
    cl_callback c' = cl_callback c /\ cl_unlinked c' = cl_unlinked c }.

Lemma dequeue_step shm c p :
  rb_wf (so_cqueue (cl_regions c p)) ->
  match cq_list (cl_regions c p) with
  | [] => dequeue_operation shm c p = Ret (None, c)
  | r :: rest => exists c1, result_taken c p rest c1 /\
      dequeue_operation shm c p = ('(r, c') ← settle_result shm c1 p r; Ret (Some r, c'))
  end.
Proof.
  intros Hwf. unfold dequeue_operation. set (s := cl_regions c p).
  pose proof (ring_buffer_get_spec (so_cqueue s) (so_cqueue_buffer s) Hwf) as Hget.
  destruct (ring_buffer_get _ _) as [got rb]. destruct Hget as (Hwf' & _ & -> & Hrest).
  fold (cq_list s) in *. destruct (cq_list s) as [|r rest]; [done|]. cbn [head].
  exists (cl_set_region c p (set_cqueue s rb)). split; [|done]. split; [| | |done..].
  - exists rb. by rewrite set_region_eq.
  - rewrite set_region_eq. exact Hrest.
  - intros q Hq. by apply set_region_ne.
Qed.

(** What a new region of a socket holds. *)
Definition fresh_socket (protocol priority : Z) (pcb : option Z) : pifus_socket :=
  let s := set_priority (set_protocol zero_socket protocol) priority in
  set_squeue (set_pcb s pcb) (ring_buffer_create SQUEUE_SIZE).

(** The socket at [q] is the one with index [i] now. *)
Record socket_created c (q i : Z) (s : pifus_socket) c' : Prop := SocketCreated {
  sc_region : cl_regions c' q = s;
  sc_regions : forall q', q' <> q -> cl_regions c' q' = cl_regions c q';
  sc_socket : cl_sockets c' i = Some q;
  sc_sockets : forall j, j <> i -> cl_sockets c' j = cl_sockets c j;
  sc_highest : highest_socket_number (cl_app c') = i;
  sc_heap : forall bs, heap (cl_app c) bs -> heap (cl_app c') bs;
  sc_linked : forall bs, heap (cl_app c) bs -> linked (cl_app c) bs -> linked (cl_app c') bs;
  sc_payload : forall x, SIZEOF_PIFUS_APP <= x -> cl_app c' x = cl_app c x;
  sc_addr : cl_app_addr c' = cl_app_addr c;
  sc_rest : cl_app_shm_name c' = cl_app_shm_name c /\
    cl_callback c' = cl_callback c /\ cl_unlinked c' = cl_unlinked c }.

Lemma with_tcp_pcb_created shm c protocol priority pcb :
  let i := highest_socket_number (cl_app c) + 1 in
  let fd := shm_open_region shm (socket_region_name c i) true in
  0 <= fd -> i < MAX_SOCKETS_PER_APP ->
  exists c', pifus_socket_with_tcp_pcb shm c protocol priority pcb =
    Ret (shm_map_region shm fd, c') /\
    socket_created c (shm_map_region shm fd) i (fresh_socket protocol priority pcb) c'.
Proof.
  intros i fd Hfd Hi. unfold pifus_socket_with_tcp_pcb, map_socket_region.
  pose proof (highest_range (cl_app c)) as Hr. fold i in Hr. unfold MAX_SOCKETS_PER_APP in *.
  rewrite u32_small by lia. fold i fd. rewrite (proj2 (Z.ltb_ge fd 0)) by lia.
  rewrite (proj2 (Z.leb_gt 127 i)) by lia. cbn [mbind outcome_bind].
  eexists. split; [done|].
  assert (forall x, SIZEOF_PIFUS_APP <= x ->
    cl_app c x = set_highest_socket_number (cl_app c) i x) as Hext.
  { unfold SIZEOF_PIFUS_APP. intros x Hx. symmetry. apply set_highest_out. lia. }
  split.
  - rewrite set_region_eq. unfold cl_set_app, cl_set_socket, cl_set_region. cbn [cl_regions].
    rewrite (arr_insert_eq (cl_regions c)). by destruct pcb.
  - intros q' Hq. rewrite set_region_ne by done. by apply arr_insert_ne.
  - apply (arr_insert_eq (cl_sockets c)).
  - intros j Hj. by apply (arr_insert_ne (cl_sockets c)).
  - cbn [cl_app cl_set_region cl_set_app cl_set_socket]. rewrite highest_set_highest.
    apply u32_small. lia.
  - intros bs. apply chain_ext. exact Hext.
  - intros bs Hh. apply links_ext; [by eapply chain_pos|exact Hext].
  - intros x Hx. symmetry. by apply Hext.
  - done.
  - done.
Qed.

(** A new socket gets the next index of the application, a region of its own
    that is empty but for its protocol, priority and pcb and an empty
    submission queue with room for nine operations, and an entry in the table;
    the blocks of the application stay as they are.  When the region cannot be
    created the process ends; the index 127 is outside the table. *)
Theorem pifus_socket_created (shm : shm_view) c (protocol priority : Z) (pcb : option Z) :
  let i := highest_socket_number (cl_app c) + 1 in
  let fd := shm_open_region shm (socket_region_name c i) true in
  i < 4294967296 ->
  (fd < 0 -> pifus_socket_with_tcp_pcb shm c protocol priority pcb = Exited 1) /\
  (0 <= fd -> MAX_SOCKETS_PER_APP <= i ->
     pifus_socket_with_tcp_pcb shm c protocol priority pcb = Undefined) /\
  (0 <= fd -> i < MAX_SOCKETS_PER_APP ->
     exists c', pifus_socket_with_tcp_pcb shm c protocol priority pcb =
       Ret (shm_map_region shm fd, c') /\
       socket_created c (shm_map_region shm fd) i (fresh_socket protocol priority pcb) c') /\
  rb_wf (so_squeue (fresh_socket protocol priority pcb)) /\
  rb_free (so_squeue (fresh_socket protocol priority pcb)) = 9 /\
  sq_list (fresh_socket protocol priority pcb) = [].
Proof.
  intros i fd Hi. pose proof (highest_range (cl_app c)) as Hr. split_and!.
  - intros Hfd. unfold pifus_socket_with_tcp_pcb, map_socket_region.
    rewrite u32_small by lia. fold i fd. by rewrite (proj2 (Z.ltb_lt fd 0)).
  - intros Hfd Hmax. unfold pifus_socket_with_tcp_pcb, map_socket_region.
    rewrite u32_small by lia. fold i fd. rewrite (proj2 (Z.ltb_ge fd 0)) by lia.
    by rewrite (proj2 (Z.leb_le _ i)).
  - intros Hfd Hmax. by apply with_tcp_pcb_created.
  - by apply rb_create_wf.
  - apply rb_create_free.
  - done.
Qed.

Definition example_shm_create : shm_view :=
  ShmView (fun name create => if decide (name = "/app0-socket1" /\ create = true) then 4 else -1)
    (fun fd => fd * 1000) (fun _ => zero_region).

Lemma pifus_socket_created_witness :
  exists c', pifus_socket_new example_shm_create example_client PROTOCOL_TCP PRIORITY_HIGH =
    Ret (4000, c') /\ cl_sockets c' 1 = Some 4000 /\
    cl_regions c' 4000 = fresh_socket 0 2 None.
Proof.
  destruct (pifus_socket_created example_shm_create example_client PROTOCOL_TCP PRIORITY_HIGH None)
    as (_ & _ & Hc & _); [reflexivity|].
  destruct Hc as (c' & Hr & Hs); [vm_compute; congruence|reflexivity|].
  exists c'. split_and!; [exact Hr|exact (sc_socket _ _ _ _ _ Hs)|exact (sc_region _ _ _ _ _ Hs)].
Defined.

(** ** What a result does *)

Definition is_write (r : pifus_operation_result) : Prop := res_code r = TCP_WRITE.
Definition is_accepted (r : pifus_operation_result) : Prop :=
  res_code r = TCP_ACCEPT /\ res_result_code r = PIFUS_OK.
Definition is_received (r : pifus_operation_result) : Prop :=
  res_code r = TCP_RECV \/ res_code r = UDP_RECV.
Definition is_closed (r : pifus_operation_result) : Prop :=
  res_code r = TCP_CLOSE \/ res_code r = UDP_DISCONNECT.

Lemma settle_other shm c p r :
  ~ is_write r -> ~ is_accepted r -> ~ is_received r -> ~ is_closed r ->
  settle_result shm c p r = Ret (r, c).
Proof.
  unfold is_write, is_accepted, is_received, is_closed, settle_result. intros Hw Ha Hr Hc.
  destruct (Z.eqb_spec (res_code r) TCP_WRITE); [done|].
  destruct (Z.eqb_spec (res_code r) TCP_ACCEPT), (Z.eqb_spec (res_result_code r) PIFUS_OK);
    try tauto; cbn [andb mbind outcome_bind];
    (rewrite (proj2 (Z.eqb_neq (res_code r) TCP_RECV)),
      (proj2 (Z.eqb_neq (res_code r) UDP_RECV)) by tauto; cbn [orb]; cbv zeta;
     rewrite (proj2 (Z.eqb_neq (res_code r) TCP_CLOSE)),
      (proj2 (Z.eqb_neq (res_code r) UDP_DISCONNECT)) by tauto); done.
Qed.

(** Follow the code of the result through the tests. *)
Ltac follow_code H := repeat (progress (rewrite ?H; cbn)); rewrite ?H; try done.

Lemma settle_write shm c p r :
  is_write r ->
  settle_result shm c p r = Ret (r, free_write_buffers c (write_block_offset (res_write r))).
Proof. unfold is_write, settle_result. intros H. follow_code H. Qed.

Lemma settle_received shm c p r :
  is_received r -> settle_result shm c p r = Ret (point_to_block c r, c).
Proof.
  unfold settle_result. intros [H|H]; follow_code H.
Qed.

Lemma settle_accepted shm c p r :
  is_accepted r ->
  settle_result shm c p r =
  ('(q, c') ← pifus_socket_with_tcp_pcb shm c PROTOCOL_TCP
      (so_accepted_sockets_priority (cl_regions c p)) (accept_pcb (res_accept r));
   Ret (res_set_accept r (AcceptData (Some q) (accept_pcb (res_accept r))), c')).
Proof.
  unfold settle_result. intros [H H']. rewrite H'. follow_code H.
  destruct (pifus_socket_with_tcp_pcb _ _ _ _ _) as [[q c']| | |]; try done. follow_code H.
Qed.

Lemma settle_closed shm c p r :
  is_closed r ->
  let i := socket_index (so_identifier (cl_regions c p)) in
  settle_result shm c p r =
  if MAX_SOCKETS_PER_APP <=? i then Undefined
  else Ret (r, cl_set_socket (cl_unlink c (socket_region_name c i)) i None).
Proof.
  unfold settle_result. intros [H|H]; follow_code H.
Qed.

(** Taking a result from the completion queue: nothing happens when it is
    empty; otherwise the oldest result leaves it.  A result of a write has its
    block freed, an accepted connection becomes a socket of the priority asked
    for, a received one gets pointers to its block and the block's size, a
    close unlinks the socket's region and clears its entry in the table; any
    other is handed over as it is. *)
Theorem dequeue_operation_settles (shm : shm_view) c (p : Z) :
  rb_wf (so_cqueue (cl_regions c p)) ->
  match cq_list (cl_regions c p) with
  | [] => dequeue_operation shm c p = Ret (None, c)
  | r :: rest => exists c1, result_taken c p rest c1 /\
      let i := socket_index (so_identifier (cl_regions c p)) in
      (is_write r -> dequeue_operation shm c p =
        Ret (Some r, free_write_buffers c1 (write_block_offset (res_write r)))) /\
      (is_accepted r -> dequeue_operation shm c p =
        ('(q, c') ← pifus_socket_with_tcp_pcb shm c1 PROTOCOL_TCP
            (so_accepted_sockets_priority (cl_regions c p)) (accept_pcb (res_accept r));
         Ret (Some (res_set_accept r (AcceptData (Some q) (accept_pcb (res_accept r)))), c'))) /\
      (is_received r -> dequeue_operation shm c p = Ret (Some (point_to_block c r), c1)) /\
      (is_closed r -> i < MAX_SOCKETS_PER_APP -> dequeue_operation shm c p =
        Ret (Some r, cl_set_socket (cl_unlink c1 (socket_region_name c i)) i None)) /\
      (~ is_write r -> ~ is_accepted r -> ~ is_received r -> ~ is_closed r ->
        dequeue_operation shm c p = Ret (Some r, c1))
  end.
Proof.
  intros Hwf. pose proof (dequeue_step shm c p Hwf) as Hstep.
  destruct (cq_list (cl_regions c p)) as [|r rest]; [done|].
  destruct Hstep as (c1 & Ht & ->). exists c1. split; [done|]. intros i.
  destruct (rt_region _ _ _ _ Ht) as (rb & Hreg & _).
  destruct (rt_rest _ _ _ _ Ht) as (Hname & _).
  split_and!.
  - intros Hw. by rewrite (settle_write shm c1 p r Hw).
  - intros Ha. rewrite (settle_accepted shm c1 p r Ha), Hreg. cbn [so_accepted_sockets_priority set_cqueue].
    by destruct (pifus_socket_with_tcp_pcb _ _ _ _ _) as [[q c']| | |].
  - intros Hr. rewrite (settle_received shm c1 p r Hr). cbn [mbind outcome_bind].
    unfold point_to_block. by rewrite (rt_app _ _ _ _ Ht).
  - intros Hc Hi. rewrite (settle_closed shm c1 p r Hc), Hreg. cbn [so_identifier set_cqueue].
    fold i. rewrite (proj2 (Z.leb_gt _ i)) by done. cbn [mbind outcome_bind].
    unfold socket_region_name. by rewrite Hname.
  - intros Hw Ha Hr Hc. by rewrite (settle_other shm c1 p r Hw Ha Hr Hc).
Qed.

Definition example_closing : client :=
  cl_set_region (cl_set_socket example_client 1 (Some 0)) 0
    (set_identifier (set_cqueue_buffer (set_cqueue zero_socket (RingBuffer CQUEUE_SIZE 1 0))
       (fun _ => res_set_code zero_result TCP_CLOSE)) (SocketIdentifier 0 1)).

Lemma dequeue_operation_settles_witness :
  exists c', dequeue_operation example_shm_create example_closing 0 =
    Ret (Some (res_set_code zero_result TCP_CLOSE), c') /\
    cl_unlinked c' = ["/app0-socket1"] /\ cl_sockets c' 1 = None.
Proof.
  pose proof (dequeue_operation_settles example_shm_create example_closing 0
    ltac:(by vm_compute)) as (c1 & Ht & _ & _ & _ & Hc & _).
  eexists. split; [apply Hc; [by left|reflexivity]|]. split.
  - destruct (rt_rest _ _ _ _ Ht) as (_ & _ & _ & Hu). cbn [cl_unlinked cl_unlink cl_set_socket].
    rewrite Hu. reflexivity.
  - reflexivity.
Defined.

(** ** A block from the call to its end *)

Lemma offset_back b n : SIZEOF_PIFUS_APP <= b -> b + SIZEOF_MEMORY_BLOCK + n <= SHM_APP_SIZE ->
  0 < n -> shm_data_get_block_ptr (i64 (b - SIZEOF_PIFUS_APP)) = b /\
  shm_data_get_block_ptr (b - SIZEOF_PIFUS_APP) = b.
Proof.
  unfold shm_data_get_block_ptr, SIZEOF_PIFUS_APP, SIZEOF_MEMORY_BLOCK, SHM_APP_SIZE.
  intros. rewrite i64_small; lia.
Qed.

(** The region of the application is mapped and holds the list of blocks [bs],
    with the right back links. *)
Record has_blocks bs c : Prop := HasBlocks {
  hb_mapped : Mapped (cl_app_addr c);
  hb_heap : heap (cl_app c) bs;
  hb_linked : linked (cl_app c) bs }.

(** Freeing a block in use takes it, and only it, from those in use. *)
Lemma p_free_used c bs b n :
  has_blocks bs c -> (b, n) ∈ heap_used bs ->
  exists bs', heap (cl_app (p_free c b)) bs' /\ heap_used bs ≡ₚ (b, n) :: heap_used bs' /\
    forall a k, (a, k) ∈ heap_used bs' ->
      same_bytes (a + SIZEOF_MEMORY_BLOCK) (a + SIZEOF_MEMORY_BLOCK + k)
        (cl_app c) (cl_app (p_free c b)).
Proof.
  intros [Hm Hh Hl] Hin. destruct (used_split _ _ _ _ Hh Hl Hin) as (l & d & r & -> & -> & -> & Hprev).
  destruct (shm_data_free_block (cl_app_addr c) _ _ _ _ Hh Hprev) as [Hheap Hkept _].
  exists (coalesce l (Blk false n) r). split_and!; [exact Hheap|exact (coalesce_used_perm l _ r)|].
  intros a k Hak. pose proof Hak as Hall.
  assert ((a, k) ∈ heap_used (l ++ Blk false n :: r)) as Ha.
  { rewrite coalesce_used_perm. by right. }
  apply Hkept; [done|]. destruct (used_bounds _ _ _ _ _ Hh Ha) as (_ & Hpos & _).
  rewrite coalesce_used in Hak. apply chain_app in Hh as [Hsl (_ & _ & Hn & Hr)].
  unfold blk_extent, SIZEOF_MEMORY_BLOCK in *. apply elem_of_app in Hak as [Hak|Hak].
  - destruct (used_seg_bounds _ _ _ _ _ Hsl Hak) as [_ Hb]. unfold SIZEOF_MEMORY_BLOCK in *. lia.
  - destruct (used_bounds _ _ _ _ _ Hr Hak) as (Hb & _). cbn [b_size] in Hb, Hn. lia.
Qed.

(** C28. The block of a write lives from the call to its result.  When the call
    succeeds its operation carries the offset of a new block of the size of the
    data, with the data in it.  Until the result comes back others may change
    payloads and allocate and free blocks.  When the result with that offset is
    taken, the block still being in use and the back links of the region being
    right, exactly this block is freed: the other blocks in use stay, with their
    payloads.  (Freeing can leave a stale back link, and then more may be lost:
    [shm_data_free_links], C9.) *)
Theorem write_block_lifecycle (shm : shm_view) op c (p : Z) (data : arr Z) (n : Z) bs c1 :
  rb_wf (so_squeue (cl_regions c p)) -> has_blocks bs c -> size_ok (cl_app_addr c) n ->
  pifus_socket_write op c p data n = Ret (true, c1) ->
  exists op1 b bs1,
    last (sq_list (cl_regions c1 p)) = Some op1 /\ op_write op1 = WriteData (b - SIZEOF_PIFUS_APP) /\
    has_blocks bs1 c1 /\ heap_used bs1 ≡ₚ (b, n) :: heap_used bs /\
    slice (cl_app c1) (shm_data_get_data_ptr b) n = slice data 0 n /\
    forall c2 bs2 r rest, has_blocks bs2 c2 -> (b, n) ∈ heap_used bs2 ->
      rb_wf (so_cqueue (cl_regions c2 p)) -> cq_list (cl_regions c2 p) = r :: rest ->
      is_write r -> write_block_offset (res_write r) = b - SIZEOF_PIFUS_APP ->
      exists c3 bs3, dequeue_operation shm c2 p = Ret (Some r, c3) /\
        cq_list (cl_regions c3 p) = rest /\ heap (cl_app c3) bs3 /\
        heap_used bs2 ≡ₚ (b, n) :: heap_used bs3 /\
        forall a k, (a, k) ∈ heap_used bs3 ->
          same_bytes (a + SIZEOF_MEMORY_BLOCK) (a + SIZEOF_MEMORY_BLOCK + k)
            (cl_app c2) (cl_app c3).
Proof.
  intros Hwf [Hm Hh Hl] Hn Hw. destruct (is_queue_full c p) eqn:Hfull.
  { unfold pifus_socket_write in Hw. by rewrite Hfull in Hw. }
  pose proof (api_exec_write op c p data n bs Hwf Hm Hh Hn Hfull) as Hex.
  destruct (first_fit _ bs n) as [[b bs1]|]; [|congruence].
  destruct Hex as (c1' & Hw' & [Ha (op1 & Hsub & Hcode & Hcar)] & Hd).
  rewrite Hw in Hw'. injection Hw' as <-.
  destruct (al_bounds _ _ _ _ _ _ Ha) as [Hb1 Hb2].
  destruct (offset_back b n Hb1 Hb2) as [Hoff1 Hoff2]; [apply Hn|].
  pose proof (al_used _ _ _ _ _ _ Ha) as Hu.
  exists op1, b, bs1. split_and!; [|exact Hcar| |exact Hu|exact Hd|].
  - rewrite (os_list _ _ _ _ Hsub). apply last_snoc.
  - split; [by rewrite (os_addr _ _ _ _ Hsub)|apply Ha|by apply Ha].
  - intros c2 bs2 r rest Hb Hin Hcq Hlist Hr Hro.
    pose proof (dequeue_step shm c2 p Hcq) as Hstep. rewrite Hlist in Hstep.
    destruct Hstep as (c2' & Ht & ->). rewrite (settle_write shm c2' p r Hr). cbn [mbind outcome_bind].
    unfold free_write_buffers. rewrite Hro, Hoff1.
    assert (has_blocks bs2 c2') as Hb'.
    { destruct Hb. split; by rewrite ?(rt_addr _ _ _ _ Ht), ?(rt_app _ _ _ _ Ht). }
    destruct (p_free_used c2' bs2 b n Hb' Hin) as (bs3 & Hh3 & Hu3 & Hk3).
    do 2 eexists. split_and!; [done|exact (rt_list _ _ _ _ Ht)|exact Hh3|exact Hu3|].
    intros a k Hak. rewrite <- (rt_app _ _ _ _ Ht). by apply Hk3.
Qed.

Lemma used_size c bs b n : has_blocks bs c -> (b, n) ∈ heap_used bs -> blk_size (cl_app c) b = n.
Proof.
  intros [_ Hh Hl] Hin. destruct (used_split _ _ _ _ Hh Hl Hin) as (l & d & r & -> & -> & -> & _).
  by apply chain_app in Hh as [_ (_ & -> & _)].
Qed.

(** The block of a receive lives from the call until the client gives it
    back.  The operation of a successful call carries the offset and the size of
    a block; the result with that offset is handed over with the size and a
    pointer to the bytes of the block, the memory of the application being
    untouched; [pifus_free] of that result then leaves the blocks in use from
    before the call. *)
Theorem recv_block_lifecycle (shm : shm_view) op c (p : Z) (n : Z) bs c1 :
  rb_wf (so_squeue (cl_regions c p)) -> has_blocks bs c -> size_ok (cl_app_addr c) n ->
  pifus_socket_recv op c p n = Ret (true, c1) ->
  exists op1 b bs1,
    last (sq_list (cl_regions c1 p)) = Some op1 /\ recv_size (op_recv op1) = n /\
    has_blocks bs1 c1 /\ heap_used bs1 ≡ₚ (b, n) :: heap_used bs /\
    forall c2 r rest, has_blocks bs1 c2 ->
      rb_wf (so_cqueue (cl_regions c2 p)) -> cq_list (cl_regions c2 p) = r :: rest ->
      is_received r -> recv_block_offset (res_recv r) = recv_block_offset (op_recv op1) ->
      exists c3 r', dequeue_operation shm c2 p = Ret (Some r', c3) /\
        cq_list (cl_regions c3 p) = rest /\ cl_app c3 = cl_app c2 /\
        recv_size (res_recv r') = n /\
        recv_data_block_ptr (res_recv r') = Some (shm_data_get_data_ptr b) /\
        forall c4, has_blocks bs1 c4 ->
          exists c5 bs5, pifus_free c4 r' = Ret c5 /\ heap (cl_app c5) bs5 /\
            heap_used bs5 ≡ₚ heap_used bs.
Proof.
  intros Hwf [Hm Hh Hl] Hn Hw. destruct (is_queue_full c p) eqn:Hfull.
  { unfold pifus_socket_recv in Hw. by rewrite Hfull in Hw. }
  pose proof (api_exec_recv op c p n bs Hwf Hm Hh Hn Hfull) as Hex.
  destruct (first_fit _ bs n) as [[b bs1]|]; [|congruence].
  destruct Hex as (c1' & Hw' & [Ha (op1 & Hsub & Hcode & Hoff & Hsize)]).
  rewrite Hw in Hw'. injection Hw' as <-.
  destruct (al_bounds _ _ _ _ _ _ Ha) as [Hb1 Hb2].
  destruct (offset_back b n Hb1 Hb2) as [_ Hback]; [apply Hn|].
  pose proof (al_used _ _ _ _ _ _ Ha) as Hu.
  assert ((b, n) ∈ heap_used bs1) as Hin by (rewrite Hu; left).
  exists op1, b, bs1. split_and!; [|exact Hsize|by split; [rewrite (os_addr _ _ _ _ Hsub)|apply Ha|apply Ha]|exact Hu|].
  { rewrite (os_list _ _ _ _ Hsub). apply last_snoc. }
  intros c2 r rest Hb Hcq Hlist Hr Hro.
  pose proof (dequeue_step shm c2 p Hcq) as Hstep. rewrite Hlist in Hstep.
  destruct Hstep as (c3 & Ht & ->). rewrite (settle_received shm c3 p r Hr). cbn [mbind outcome_bind].
  pose proof (rt_app _ _ _ _ Ht) as Happ.
  unfold point_to_block. rewrite Hro, Hoff, Hback, Happ, (used_size c2 bs1 b n Hb Hin).
  do 2 eexists. split_and!; [done|exact (rt_list _ _ _ _ Ht)|done..|].
  intros c4 Hb4. destruct (p_free_used c4 bs1 b n Hb4 Hin) as (bs5 & Hh5 & Hu5 & _).
  exists (p_free c4 b), bs5. split_and!; [done|exact Hh5|].
  rewrite Hu in Hu5. apply Permutation_cons_inv in Hu5. by symmetry.
Qed.

(** The socket at [p] with one result in its completion queue. *)
Definition with_result c (p : Z) (r : pifus_operation_result) : client :=
  cl_set_region c p
    (set_cqueue_buffer (set_cqueue (cl_regions c p) (RingBuffer CQUEUE_SIZE 1 0)) (fun _ => r)).

Lemma with_result_list c p r :
  rb_wf (so_cqueue (cl_regions (with_result c p r) p)) /\
  cq_list (cl_regions (with_result c p r) p) = [r].
Proof. unfold with_result. rewrite set_region_eq. by split; [by vm_compute|]. Qed.

Lemma example_has_blocks : has_blocks [] example_client.
Proof. by split; [exact example_mapped|exact zero_region_heap|]. Qed.

Lemma write_block_lifecycle_witness :
  exists c1, pifus_socket_write zero_operation example_client 0 (fun i => 65 + i) 3 = Ret (true, c1) /\
  exists offset c3 bs3,
    let r := res_set_write (res_set_code zero_result TCP_WRITE) (WriteData offset) in
    dequeue_operation example_shm_create (with_result c1 0 r) 0 = Ret (Some r, c3) /\
    heap (cl_app c3) bs3 /\ heap_used bs3 = [].
Proof.
  destruct (api_exec_write zero_operation example_client 0 (fun i => 65 + i) 3 [])
    as (c1 & Hw & _); [by apply rb_create_wf|exact example_mapped|exact zero_region_heap|done|reflexivity|].
  exists c1. split; [exact Hw|].
  destruct (write_block_lifecycle example_shm_create zero_operation example_client 0
    (fun i => 65 + i) 3 [] c1) as (op1 & b & bs1 & _ & _ & Hb & Hu1 & _ & Hend);
    [by apply rb_create_wf|exact example_has_blocks|done|exact Hw|].
  exists (b - SIZEOF_PIFUS_APP). cbv zeta. set (r := res_set_write _ _).
  destruct (with_result_list c1 0 r) as [Hcq Hlist].
  destruct (Hend (with_result c1 0 r) bs1 r []) as (c3 & bs3 & Hd & _ & Hh & Hu & _);
    [by destruct Hb|rewrite Hu1; by left|exact Hcq|exact Hlist|reflexivity|reflexivity|].
  rewrite Hu1 in Hu. apply Permutation_cons_inv in Hu.
  exists c3, bs3. split_and!; [exact Hd|exact Hh|by apply Permutation_nil_r].
Defined.

Lemma recv_block_lifecycle_witness :
  exists c1 r' c5 bs5,
    pifus_socket_recv zero_operation example_client 0 16 = Ret (true, c1) /\
    recv_size (res_recv r') = 16 /\
    pifus_free c1 r' = Ret c5 /\ heap (cl_app c5) bs5 /\ heap_used bs5 = [].
Proof.
  destruct (api_exec_recv zero_operation example_client 0 16 [])
    as (c1 & Hw & _); [by apply rb_create_wf|exact example_mapped|exact zero_region_heap|done|reflexivity|].
  destruct (recv_block_lifecycle example_shm_create zero_operation example_client 0 16 [] c1)
    as (op1 & b & bs1 & _ & _ & Hb & _ & Hend);
    [by apply rb_create_wf|exact example_has_blocks|done|exact Hw|].
  set (r := res_set_recv (res_set_code zero_result TCP_RECV)
    (RecvData (recv_block_offset (op_recv op1)) 16 None None)).
  destruct (with_result_list c1 0 r) as [Hcq Hlist].
  destruct (Hend (with_result c1 0 r) r []) as (c3 & r' & _ & _ & _ & Hs & _ & Hf);
    [by destruct Hb|exact Hcq|exact Hlist|by left|reflexivity|].
  destruct (Hf c1 Hb) as (c5 & bs5 & Hr & Hh & Hu).
  exists c1, r', c5, bs5. split_and!; [exact Hw|exact Hs|exact Hr|exact Hh|by apply Permutation_nil_r].
Defined.
