(* ===== verification/Client.v ===== *)
(** * The client library ([api/src/pifus.c])

    Registration of the application, and the thread that turns completions
    into callbacks.  The callback is a parameter: any function on the state of
    the library and a state of the application's own.  What the operating
    system answers, and what others do while a thread sleeps, are arguments. *)
From stdpp Require Import pretty.
From S2P Require Import Prelude RingView RingBuffer ByteBuffer Memory Shmem ShmemSpec.
From S2P Require Import Regions Operation SocketRegion Socket SocketSpec.

Implicit Types (c : client).

(** ** Registration *)

(** The loop of [create_app_shm_region]: [eexist] tells whether [errno] is
    [EEXIST] after a failed [shm_open]. *)
Fixpoint create_loop (fuel : nat) (shm : shm_view) (eexist : string -> bool) (app_number : Z) :
    outcome (string * Z) :=
  match fuel with
  | O => NoFuel
  | S fuel =>
      let name := app_shm_name app_number in
      let fd := shm_open_region shm name true in
      if 0 <=? fd then Ret (name, fd)
      else if eexist name then create_loop fuel shm eexist (u32 (app_number + 1))
      else create_loop fuel shm eexist app_number
  end.

Definition create_app_shm_region (fuel : nat) (shm : shm_view) (eexist : string -> bool) :
    outcome (string * Z) := create_loop fuel shm eexist 0.

(** The region is created, so it is cleared. *)
Definition map_app_region (fd : Z) : mem := zero_region.

Definition cl_set_callback c (b : bool) : client :=
  Client (cl_app_shm_name c) (cl_app_addr c) (cl_app c) (cl_regions c) (cl_sockets c) b (cl_unlinked c).

(** [cb] is [cb != NULL]; the callback thread is then started. *)
Definition pifus_initialize (fuel : nat) (shm : shm_view) (eexist : string -> bool) c
    (cb : bool) : outcome client :=
  '(name, fd) ← create_app_shm_region fuel shm eexist;
  let c := Client name (shm_map_region shm fd) (map_app_region fd) (cl_regions c) (cl_sockets c) (cl_callback c)
             (cl_unlinked c) in
  Ret (if cb then cl_set_callback c true else c).

Definition pifus_exit c : outcome client :=
  c ← pifus_socket_exit_all c;
  Ret (cl_unlink c (cl_app_shm_name c)).

(** ** The callback thread *)

Section callback.
Context {A : Type} (callback : Z -> Z -> A * client -> outcome (A * client)).

(** The globals of the thread, with the application's state. *)
Record callback_thread := CallbackThread {
  ct_state : A * client;
  ct_socket_futexes : arr Z;
  ct_waitvs : arr (Z * Z);              (* the socket and the value waited for *)
  ct_socket_from_futex_nr : arr Z }.
Implicit Types (t : callback_thread).

Definition ct_client t : client := (ct_state t).2.
Definition ct_set_state t (x : A * client) : callback_thread :=
  CallbackThread x (ct_socket_futexes t) (ct_waitvs t) (ct_socket_from_futex_nr t).
Definition ct_set_futex t (i x : Z) : callback_thread :=
  CallbackThread (ct_state t) (<[i := x]> (ct_socket_futexes t)) (ct_waitvs t)
    (ct_socket_from_futex_nr t).

(** The loop: [n] is how many values of [i] are left. *)
Fixpoint callbacks_loop (n : nat) (socket : Z) (x : A * client) : outcome (A * client) :=
  match n with
  | O => Ret x
  | S n =>
      x ← (match pifus_socket_peek_result_code x.2 socket with
           | Some next => callback socket (res_code (so_cqueue_buffer (cl_regions x.2 socket) next)) x
           | None => Ret x
           end);
      callbacks_loop n socket x
  end.

Definition handle_new_cqueue_entry t (socket : option Z) : outcome callback_thread :=
  match socket with
  | None => Ret t
  | Some socket =>
      let s := cl_regions (ct_client t) socket in
      let i := socket_index (so_identifier s) in
      if MAX_SOCKETS_PER_APP <=? i then Undefined
      else
        let shadow_actual_difference := u32 (so_cqueue_futex s - ct_socket_futexes t i) in
        let t := ct_set_futex t i (so_cqueue_futex s) in
        x ← callbacks_loop (Z.to_nat shadow_actual_difference) socket (ct_state t);
        Ret (ct_set_state t x)
  end.

(** The loop of [fill_sockets_waitv]; [highest_socket_number] is read each time
    round, and never decreases. *)
Fixpoint fill_sockets_loop (fuel : nat) t (socket_index current_amount_futexes : Z) :
    outcome (callback_thread * Z) :=
  match fuel with
  | O => NoFuel
  | S fuel =>
      if socket_index <=? highest_socket_number (cl_app (ct_client t)) then
        if MAX_SOCKETS_PER_APP <=? socket_index then Undefined
        else
          match cl_sockets (ct_client t) socket_index with
          | None => fill_sockets_loop fuel t (u32 (socket_index + 1)) current_amount_futexes
          | Some socket =>
              t ← (if negb (so_cqueue_futex (cl_regions (ct_client t) socket) =?
                            ct_socket_futexes t socket_index)
                   then handle_new_cqueue_entry t (Some socket) else Ret t);
              let k := current_amount_futexes in
              let t := CallbackThread (ct_state t) (ct_socket_futexes t)
                (<[k := (socket, ct_socket_futexes t socket_index)]> (ct_waitvs t))
                (<[k := socket_index]> (ct_socket_from_futex_nr t)) in
              fill_sockets_loop fuel t (u32 (socket_index + 1)) (u8 (k + 1))
          end
      else Ret (t, current_amount_futexes)
  end.

Definition fill_sockets_waitv t : outcome (callback_thread * Z) :=
  fill_sockets_loop (Z.to_nat MAX_SOCKETS_PER_APP + 1) t 1 0.

(** One iteration of [callback_thread_loop]: [env] is what others do while it
    waits, [ret_code] what [futex_waitv] returns. *)
Definition callback_iteration (env : A * client -> A * client) (ret_code : Z) t :
    outcome callback_thread :=
  '(t, amount_futexes) ← fill_sockets_waitv t;
  if 0 <? amount_futexes then
    let t := ct_set_state t (env (ct_state t)) in
    if 0 <=? ret_code then
      let socket_index := ct_socket_from_futex_nr t ret_code in
      t ← handle_new_cqueue_entry t (cl_sockets (ct_client t) socket_index);
      Ret (CallbackThread (ct_state t) (ct_socket_futexes t) (ct_waitvs t)
        (fun i => if (0 <=? i) && (i <? MAX_SOCKETS_PER_APP) then 0
                  else ct_socket_from_futex_nr t i))
    else Ret t
  else Ret t.
End callback.
Arguments CallbackThread {A}.
Arguments ct_state {A}.
Arguments ct_socket_futexes {A}.
Arguments ct_waitvs {A}.
Arguments ct_socket_from_futex_nr {A}.
Arguments ct_client {A}.

(** ** Registration *)

Lemma create_loop_first shm eexist (n : nat) (k : Z) fuel :
  0 <= k -> k + Z.of_nat n < 4294967296 -> (n < fuel)%nat ->
  (forall i, k <= i < k + Z.of_nat n ->
     shm_open_region shm (app_shm_name i) true < 0 /\ eexist (app_shm_name i) = true) ->
  let fd := shm_open_region shm (app_shm_name (k + Z.of_nat n)) true in
  0 <= fd -> create_loop fuel shm eexist k = Ret (app_shm_name (k + Z.of_nat n), fd).
Proof.
  revert k fuel. induction n as [|n IH]; intros k fuel Hk Hmax Hf Hbefore fd Hfd;
    (destruct fuel as [|fuel]; [lia|]); cbn [create_loop]; unfold fd in *.
  - replace (k + Z.of_nat 0) with k in * by lia. by rewrite (proj2 (Z.leb_le _ _) Hfd).
  - destruct (Hbefore k) as [Hneg He]; [lia|].
    rewrite (proj2 (Z.leb_gt 0 _)) by done. rewrite He, u32_small by lia.
    replace (k + Z.of_nat (S n)) with (k + 1 + Z.of_nat n) in * by lia.
    apply IH; try lia. intros i Hi. apply Hbefore. lia.
Qed.

(** An application registers under the first number that is free: all
    smaller names exist already, the region is its own and cleared.  When a
    smaller number fails for another reason than that its name exists, the loop
    does not end. *)
Theorem pifus_initialize_first_free (shm : shm_view) (eexist : string -> bool) c (cb : bool) (n : Z) :
  0 <= n < 4294967296 ->
  (forall i, 0 <= i < n ->
     shm_open_region shm (app_shm_name i) true < 0 /\ eexist (app_shm_name i) = true) ->
  let fd := shm_open_region shm (app_shm_name n) true in
  (0 <= fd -> forall fuel, n < Z.of_nat fuel -> exists c',
     pifus_initialize fuel shm eexist c cb = Ret c' /\
     cl_app_shm_name c' = app_shm_name n /\ cl_app_addr c' = shm_map_region shm fd /\ heap (cl_app c') [] /\
     highest_socket_number (cl_app c') = 0 /\
     cl_callback c' = (if cb then true else cl_callback c)) /\
  (fd < 0 -> eexist (app_shm_name n) = false ->
     forall fuel, pifus_initialize fuel shm eexist c cb = NoFuel).
Proof.
  intros Hn Hbefore fd. unfold pifus_initialize, create_app_shm_region. split.
  - intros Hfd fuel Hfuel.
    pose proof (create_loop_first shm eexist (Z.to_nat n) 0 fuel) as Hl. cbv zeta in Hl.
    rewrite Z2Nat.id, Z.add_0_l in Hl by lia. rewrite Hl by (done || lia). cbn [mbind outcome_bind].
    eexists. split; [done|].
    split_and!; [by destruct cb|by destruct cb|by destruct cb; exact zero_region_heap|by destruct cb|by destruct cb].
  - intros Hfd He fuel.
    assert (forall (m : nat) k f, 0 <= k -> k + Z.of_nat m = n ->
      create_loop f shm eexist k = NoFuel) as Hloop.
    { intros m k f. revert m k. induction f as [|f IH]; intros m k Hk Hkn; [done|].
      cbn [create_loop]. destruct m as [|m].
      - replace k with n in * by lia. fold fd. rewrite (proj2 (Z.leb_gt 0 fd)), He by done.
        by apply (IH O); lia.
      - destruct (Hbefore k) as [Hneg He']; [lia|].
        rewrite (proj2 (Z.leb_gt 0 _)), He', u32_small by lia. apply (IH m); lia. }
    by rewrite (Hloop (Z.to_nat n) 0 fuel) by lia.
Qed.

Definition example_shm_second : shm_view :=
  ShmView (fun name _ => if decide (name = "/app0") then -1 else 7) (fun fd => fd) (fun _ => zero_region).

Lemma pifus_initialize_first_free_witness :
  exists c', pifus_initialize 5 example_shm_second (fun _ => true) example_client true = Ret c' /\
    cl_app_shm_name c' = "/app1".
Proof.
  destruct (pifus_initialize_first_free example_shm_second (fun _ => true) example_client true 1)
    as [Hok _]; [lia| |].
  { intros i Hi. replace i with 0 by lia. split; [by vm_compute|done]. }
  destruct (Hok ltac:(by vm_compute) 5%nat ltac:(lia)) as (c' & Hr & Hn & _).
  exists c'. split; [exact Hr|exact Hn].
Defined.

(** ** Leaving *)

Lemma exit_all_loop_unlinks (n : nat) c (i : Z) fuel :
  let highest := highest_socket_number (cl_app c) in
  0 <= i -> i + Z.of_nat n = highest + 1 -> highest + 1 < 4294967296 -> (n < fuel)%nat ->
  exit_all_loop fuel c i =
  Ret (foldl cl_unlink c (socket_region_name c <$> seqZ i (Z.of_nat n))).
Proof.
  revert c i fuel. induction n as [|n IH]; intros c i fuel highest Hi Hn Hmax Hf;
    (destruct fuel as [|fuel]; [lia|]); cbn [exit_all_loop]; fold highest.
  - by rewrite (proj2 (Z.leb_gt i highest)) by lia.
  - rewrite (proj2 (Z.leb_le i highest)), u32_small by lia. rewrite seqZ_cons by lia.
    rewrite fmap_cons. cbn [foldl].
    replace (Z.succ i) with (i + 1) by lia.
    replace (Z.pred (Z.of_nat (S n))) with (Z.of_nat n) by lia.
    apply (IH (cl_unlink c (socket_region_name c i)) (i + 1)); [lia| |exact Hmax|lia].
    change (i + 1 + Z.of_nat n = highest + 1). lia.
Qed.

Lemma foldl_unlink c names :
  foldl cl_unlink c names =
  Client (cl_app_shm_name c) (cl_app_addr c) (cl_app c) (cl_regions c) (cl_sockets c) (cl_callback c)
    (cl_unlinked c ++ names).
Proof.
  revert c. induction names as [|x names IH]; intros c; cbn [foldl].
  - rewrite app_nil_r. by destruct c.
  - rewrite IH. cbn [cl_unlink cl_app_shm_name cl_app cl_regions cl_sockets cl_callback cl_unlinked].
    by rewrite <- (assoc_L (++)).
Qed.

(** Leaving unlinks the region of every socket the application has created,
    by number, and then its own; nothing else changes.  (The number 0, which no
    socket has, is unlinked with them.) *)
Theorem pifus_exit_unlinks (c : client) :
  highest_socket_number (cl_app c) + 1 < 4294967296 ->
  exists c', pifus_exit c = Ret c' /\
    cl_unlinked c' = cl_unlinked c ++
      (if decide (0 < highest_socket_number (cl_app c))
       then socket_region_name c <$> seqZ 0 (highest_socket_number (cl_app c) + 1) else []) ++
      [cl_app_shm_name c] /\
    cl_app c' = cl_app c /\ cl_regions c' = cl_regions c /\ cl_sockets c' = cl_sockets c.
Proof.
  intros Hmax. pose proof (highest_range (cl_app c)) as Hr.
  set (highest := highest_socket_number (cl_app c)) in *.
  unfold pifus_exit, pifus_socket_exit_all. fold highest. case_decide as Hpos.
  - rewrite (proj2 (Z.ltb_lt 0 highest)) by done.
    rewrite (exit_all_loop_unlinks (Z.to_nat (highest + 1)) c 0) by (fold highest; lia).
    rewrite Z2Nat.id by lia. cbn [mbind outcome_bind]. rewrite foldl_unlink.
    eexists. split; [done|]. cbn. by rewrite <- (assoc_L (++)).
  - rewrite (proj2 (Z.ltb_ge 0 highest)) by lia. cbn [mbind outcome_bind].
    eexists. by split.
Qed.

Definition example_leaving : client := cl_set_app example_client (set_highest_socket_number zero_region 1).

Lemma pifus_exit_unlinks_witness :
  exists c', pifus_exit example_leaving = Ret c' /\
    cl_unlinked c' = ["/app0-socket0"; "/app0-socket1"; "/app0"].
Proof.
  destruct (pifus_exit_unlinks example_leaving) as (c' & Hr & Hu & _); [by vm_compute|].
  exists c'. split; [exact Hr|exact Hu].
Defined.

(** ** Callbacks *)

Section callbacks.
Context {A : Type} (callback : Z -> Z -> A * client -> outcome (A * client)).
Implicit Types (x : A * client) (t : @callback_thread A).

(** The callback with one code after the other. *)
Fixpoint calls (p : Z) (codes : list Z) x : outcome (A * client) :=
  match codes with
  | [] => Ret x
  | code :: codes => x ← callback p code x; calls p codes x
  end.

Definition results x (p : Z) : list pifus_operation_result := cq_list (cl_regions x.2 p).
Definition cq_futex c (p : Z) : Z := so_cqueue_futex (cl_regions c p).

(** The completion queue was created, or is still empty. *)
Definition cq_ok c : Prop := forall p,
  let rb := so_cqueue (cl_regions c p) in rb_wf rb \/ rb_head rb = rb_tail rb.

(** Which sockets there are, and how many results they were sent. *)
Record sockets_kept c c' : Prop := SocketsKept {
  sk_highest : highest_socket_number (cl_app c') = highest_socket_number (cl_app c);
  sk_sockets : cl_sockets c' = cl_sockets c;
  sk_identifier : forall p,
    so_identifier (cl_regions c' p) = so_identifier (cl_regions c p);
  sk_futex : forall p, cq_futex c' p = cq_futex c p;
  sk_ok : cq_ok c -> cq_ok c' }.

#[export] Instance sockets_kept_preorder : PreOrder sockets_kept.
Proof.
  split; [done|]. intros c1 c2 c3 [H1 H2 H3 H4 H5] [G1 G2 G3 G4 G5].
  split; [congruence|congruence| | |tauto].
  - intros p. by rewrite G3.
  - intros p. by rewrite G4.
Qed.

(** A callback that takes the results [P] it is called for, and neither opens
    nor closes a socket; it may submit operations. *)
Definition takes_result (P : pifus_operation_result -> Prop) : Prop := forall p x r rest,
  cq_ok x.2 -> P r -> results x p = r :: rest ->
  exists x', callback p (res_code r) x = Ret x' /\ sockets_kept x.2 x'.2 /\
    results x' p = rest /\ forall q, q <> p -> results x' q = results x q.

Context (P : pifus_operation_result -> Prop) (Htakes : takes_result P).

Lemma peek_results x p :
  cq_ok x.2 ->
  match results x p with
  | [] => pifus_socket_peek_result_code x.2 p = None
  | r :: rest => exists next, pifus_socket_peek_result_code x.2 p = Some next /\
      so_cqueue_buffer (cl_regions x.2 p) next = r
  end.
Proof.
  intros Hok. unfold results, pifus_socket_peek_result_code, cq_list.
  set (s := cl_regions x.2 p). destruct (Hok p) as [Hwf|He]; fold s in Hwf || fold s in He.
  - pose proof (ring_buffer_peek_spec (so_cqueue s) (so_cqueue_buffer s) Hwf) as Hp.
    destruct (rb_contents _ _) as [|r rest]; cbn [head] in Hp;
      destruct (ring_buffer_peek (so_cqueue s)) as [next|]; try done.
    exists next. split; [done|]. by injection Hp.
  - assert (rb_contents (so_cqueue s) (so_cqueue_buffer s) = []) as ->.
    { unfold rb_contents, rv_contents, rv_count, rb_view. cbn [rv_tail rv_head rv_end].
      rewrite He, Z.leb_refl, Z.sub_diag. done. }
    unfold ring_buffer_peek. by rewrite He, Z.eqb_refl.
Qed.

Lemma callbacks_loop_calls (n : nat) p x :
  cq_ok x.2 -> Forall P (take n (results x p)) ->
  exists x', callbacks_loop callback n p x = Ret x' /\
    calls p (res_code <$> take n (results x p)) x = Ret x' /\ sockets_kept x.2 x'.2 /\
    results x' p = drop n (results x p) /\ forall q, q <> p -> results x' q = results x q.
Proof using All.
  revert x. induction n as [|n IH]; intros x Hok Hall; [by exists x|].
  cbn [callbacks_loop]. pose proof (peek_results x p Hok) as Hpeek.
  destruct (results x p) as [|r rest] eqn:Hres.
  - rewrite Hpeek. cbn [mbind outcome_bind].
    destruct (IH x Hok) as (x' & Hl & Hc & Hk & Hr & Ho); [by rewrite Hres, take_nil|].
    rewrite Hres, take_nil, drop_nil in *. exists x'. by split_and!.
  - destruct Hpeek as (next & -> & ->).
    cbn [take] in Hall. apply Forall_cons in Hall as [Hr0 Hall].
    destruct (Htakes p x r rest Hok Hr0 Hres) as (x1 & Hcb & Hk1 & Hr1 & Ho1).
    rewrite Hcb. cbn [mbind outcome_bind take drop].
    destruct (IH x1 (sk_ok _ _ Hk1 Hok)) as (x' & Hl & Hc & Hk & Hr & Ho); [by rewrite Hr1|].
    rewrite Hr1 in Hc, Hr. exists x'. rewrite fmap_cons. cbn [calls]. rewrite Hcb.
    split_and!; [done..|by etrans|done|]. intros q Hq. by rewrite Ho, Ho1.
Qed.

(** How many results a socket was sent since the thread last looked. *)
Definition news t (i p : Z) : Z := u32 (cq_futex (ct_client t) p - ct_socket_futexes t i).

Lemma handle_calls t p :
  let i := socket_index (so_identifier (cl_regions (ct_client t) p)) in
  let n := Z.to_nat (news t i p) in
  cq_ok (ct_client t) -> i < MAX_SOCKETS_PER_APP ->
  Forall P (take n (results (ct_state t) p)) ->
  exists x',
    calls p (res_code <$> take n (results (ct_state t) p)) (ct_state t) = Ret x' /\
    handle_new_cqueue_entry callback t (Some p) =
      Ret (ct_set_state (ct_set_futex t i (cq_futex (ct_client t) p)) x') /\
    sockets_kept (ct_client t) x'.2 /\
    results x' p = drop n (results (ct_state t) p) /\
    forall q, q <> p -> results x' q = results (ct_state t) q.
Proof using All.
  intros i n Hok Hi Hall. unfold handle_new_cqueue_entry. fold i.
  rewrite (proj2 (Z.leb_gt _ i)) by done.
  destruct (callbacks_loop_calls n p (ct_state t) Hok Hall) as (x' & Hl & Hc & Hk & Hr & Ho).
  exists x'. split_and!; try done. cbn [ct_state ct_set_futex].
  unfold n, news, cq_futex in Hl. rewrite Hl. done.
Qed.
End callbacks.

(** A notification of a socket calls the callback once for each result the
    socket was sent since the last time, oldest first, provided each call takes
    the result it is made for (of the kinds [P] that came); what else the callback does to the application's
    state is unrestricted.  The shadow of the futex is then up to date and
    exactly those results have left the queue.  A socket that has been closed
    is skipped. *)
Theorem handle_new_cqueue_entry_calls {A : Type}
    (callback : Z -> Z -> A * client -> outcome (A * client))
    (P : pifus_operation_result -> Prop) (t : callback_thread) (p : Z) :
  let i := socket_index (so_identifier (cl_regions (ct_client t) p)) in
  let n := Z.to_nat (news t i p) in
  takes_result callback P -> cq_ok (ct_client t) -> i < MAX_SOCKETS_PER_APP ->
  Forall P (take n (results (ct_state t) p)) ->
  handle_new_cqueue_entry callback t None = Ret t /\
  exists t',
    handle_new_cqueue_entry callback t (Some p) = Ret t' /\
    calls callback p (res_code <$> take n (results (ct_state t) p)) (ct_state t) =
      Ret (ct_state t') /\
    ct_socket_futexes t' i = cq_futex (ct_client t') p /\
    results (ct_state t') p = drop n (results (ct_state t) p) /\
    (forall q, q <> p -> results (ct_state t') q = results (ct_state t) q) /\
    (forall j, j <> i -> ct_socket_futexes t' j = ct_socket_futexes t j).
Proof.
  intros i n Htakes Hok Hi Hall. split; [done|].
  destruct (handle_calls callback P Htakes t p Hok Hi Hall) as (x' & Hc & Hh & Hk & Hr & Ho).
  eexists. split; [exact Hh|]. cbn [ct_state ct_set_state ct_client snd ct_socket_futexes ct_set_futex].
  split_and!; [exact Hc| |exact Hr|exact Ho|].
  - fold i. rewrite (arr_insert_eq (ct_socket_futexes t)). unfold ct_client. cbn [ct_state].
    symmetry. apply (sk_futex _ _ Hk).
  - intros j Hj. by apply (arr_insert_ne (ct_socket_futexes t)).
Qed.

(** A callback that pops the result and logs its code. *)
Definition logging_callback (p code : Z) (x : list Z * client) : outcome (list Z * client) :=
  '(_, c) ← pifus_socket_pop_result example_shm_create x.2 p;
  Ret (x.1 ++ [code], c).

Definition plain_result (r : pifus_operation_result) : Prop :=
  ~ is_write r /\ ~ is_accepted r /\ ~ is_closed r.

Lemma logging_takes : takes_result logging_callback plain_result.
Proof.
  intros p x r rest Hok (Hw & Ha & Hc) Hres. unfold logging_callback, pifus_socket_pop_result.
  unfold results in *.
  assert (rb_wf (so_cqueue (cl_regions x.2 p))) as Hwf.
  { destruct (Hok p) as [|He]; [done|]. exfalso.
    pose proof (peek_results x p Hok) as Hpk. unfold results in Hpk. rewrite Hres in Hpk.
    destruct Hpk as (next & Hpk & _). unfold pifus_socket_peek_result_code, ring_buffer_peek in Hpk.
    by rewrite He, Z.eqb_refl in Hpk. }
  pose proof (dequeue_step example_shm_create x.2 p Hwf) as Hstep. rewrite Hres in Hstep.
  destruct Hstep as (c1 & Ht & ->).
  assert (exists r', settle_result example_shm_create c1 p r = Ret (r', c1)) as (r' & ->).
  { destruct (decide (res_code r = TCP_RECV \/ res_code r = UDP_RECV)) as [Hr|Hr].
    - eexists. by apply settle_received.
    - eexists. by apply settle_other. }
  cbn [mbind outcome_bind]. eexists. split; [done|]. cbn [snd].
  destruct (rt_region _ _ _ _ Ht) as (rb & Hreg & Hrb).
  assert (forall q, q = p \/ cl_regions c1 q = cl_regions x.2 q) as Hq.
  { intros q. destruct (decide (q = p)); [by left|right]. by apply (rt_regions _ _ _ _ Ht). }
  split_and!; [|exact (rt_list _ _ _ _ Ht)|].
  - split.
    + by rewrite (rt_app _ _ _ _ Ht).
    + apply (rt_rest _ _ _ _ Ht).
    + intros q. destruct (Hq q) as [-> | ->]; by rewrite ?Hreg.
    + intros q. unfold cq_futex. destruct (Hq q) as [-> | ->]; by rewrite ?Hreg.
    + intros _ q. destruct (Hq q) as [-> | ->]; [rewrite Hreg; by left|by apply Hok].
  - intros q Hne. by rewrite (rt_regions _ _ _ _ Ht).
Qed.

(** Two results of the socket with index 1 that the thread has not seen. *)
Definition example_notified : @callback_thread (list Z) :=
  CallbackThread ([], cl_set_region example_client 0
    (set_cqueue_futex (set_identifier
      (set_cqueue_buffer (set_cqueue zero_socket (RingBuffer CQUEUE_SIZE 2 0))
        (<[1 := res_set_code zero_result TCP_RECV]> (fun _ => res_set_code zero_result TCP_CONNECT)))
      (SocketIdentifier 0 1)) 2)) (fun _ => 0) (fun _ => (0, 0)) (fun _ => 0).

Lemma example_notified_ok : cq_ok (ct_client example_notified).
Proof.
  intros q. unfold ct_client, example_notified. cbn [ct_state snd].
  destruct (decide (q = 0)) as [->|Hq].
  - left. rewrite set_region_eq. by vm_compute.
  - right. rewrite set_region_ne by done. done.
Qed.

Lemma handle_new_cqueue_entry_calls_witness :
  exists t', handle_new_cqueue_entry logging_callback example_notified (Some 0) = Ret t' /\
    results (ct_state t') 0 = [] /\
    calls logging_callback 0 [3; 5] (ct_state example_notified) = Ret (ct_state t').
Proof.
  destruct (handle_new_cqueue_entry_calls logging_callback plain_result example_notified 0)
    as (_ & t' & Hh & Hc & _ & Hr & _);
    [exact logging_takes|exact example_notified_ok|by vm_compute| |].
  - repeat constructor; unfold is_write, is_accepted, is_closed; vm_compute; intuition congruence.
  - exists t'. split_and!; [exact Hh|exact Hr|exact Hc].
Defined.

(** ** Waiting for all sockets *)

(** The open sockets among [n] indices from [i], with their regions. *)
Definition open_from c (i n : Z) : list (Z * Z) :=
  omap (fun j => pair j <$> cl_sockets c j) (seqZ i n).

Lemma open_from_elem c i n j q :
  (j, q) ∈ open_from c i n <-> i <= j < i + n /\ cl_sockets c j = Some q.
Proof.
  unfold open_from. rewrite list_elem_of_omap. split.
  - intros (j' & Hj & Heq). apply elem_of_seqZ in Hj.
    destruct (cl_sockets c j') as [q'|] eqn:Hq; [|done]. by injection Heq as <- <-.
  - intros [Hj Hq]. exists j. rewrite Hq. split; [|done]. by apply elem_of_seqZ.
Qed.

(** The socket of every index was given that index by the stack. *)
Definition indexed c : Prop := forall j q,
  1 <= j <= highest_socket_number (cl_app c) -> cl_sockets c j = Some q ->
  socket_index (so_identifier (cl_regions c q)) = j.

Section waiting.
Context {A : Type} (callback : Z -> Z -> A * client -> outcome (A * client)).
Context (P : pifus_operation_result -> Prop) (Htakes : takes_result callback P).
Implicit Types (t : @callback_thread A) (js : list (Z * Z)).

(** What filling the wait array from [k] with the sockets [js] does. *)
Record filled js (k : Z) t t' : Prop := Filled {
  fl_waitvs : slice (ct_waitvs t') k (Z.of_nat (length js)) =
    (fun jq => (jq.2, cq_futex (ct_client t) jq.2)) <$> js;
  fl_nr : slice (ct_socket_from_futex_nr t') k (Z.of_nat (length js)) = js.*1;
  fl_before : forall x, x < k ->
    ct_waitvs t' x = ct_waitvs t x /\ ct_socket_from_futex_nr t' x = ct_socket_from_futex_nr t x;
  fl_shadow : forall j q, (j, q) ∈ js -> ct_socket_futexes t' j = cq_futex (ct_client t) q;
  fl_shadow_kept : forall j, j ∉ js.*1 -> ct_socket_futexes t' j = ct_socket_futexes t j;
  fl_kept : sockets_kept (ct_client t) (ct_client t');
  fl_taken : forall j q, (j, q) ∈ js ->
    results (ct_state t') q = drop (Z.to_nat (news t j q)) (results (ct_state t) q);
  fl_others : forall q, q ∉ js.*2 -> results (ct_state t') q = results (ct_state t) q }.

Lemma fill_socket_step t j q :
  cq_ok (ct_client t) -> j < MAX_SOCKETS_PER_APP ->
  socket_index (so_identifier (cl_regions (ct_client t) q)) = j ->
  Forall P (results (ct_state t) q) ->
  0 <= ct_socket_futexes t j < 4294967296 -> 0 <= cq_futex (ct_client t) q < 4294967296 ->
  exists t1,
    (if negb (so_cqueue_futex (cl_regions (ct_client t) q) =? ct_socket_futexes t j)
     then handle_new_cqueue_entry callback t (Some q) else Ret t) = Ret t1 /\
    ct_waitvs t1 = ct_waitvs t /\ ct_socket_from_futex_nr t1 = ct_socket_from_futex_nr t /\
    ct_socket_futexes t1 j = cq_futex (ct_client t) q /\
    (forall i, i <> j -> ct_socket_futexes t1 i = ct_socket_futexes t i) /\
    sockets_kept (ct_client t) (ct_client t1) /\
    results (ct_state t1) q = drop (Z.to_nat (news t j q)) (results (ct_state t) q) /\
    forall p, p <> q -> results (ct_state t1) p = results (ct_state t) p.
Proof using All.
  intros Hok Hj Hid Hall Hs Hf. fold (cq_futex (ct_client t) q).
  destruct (Z.eqb_spec (cq_futex (ct_client t) q) (ct_socket_futexes t j)) as [Heq|Hne]; cbn [negb].
  - exists t. unfold news. rewrite Heq, Z.sub_diag. by split_and!.
  - destruct (handle_calls callback P Htakes t q) as (x' & _ & -> & Hk & Hr & Ho);
      [done|by rewrite Hid|by apply Forall_take|].
    rewrite Hid in *. eexists. split; [done|].
    split_and!; [done|done|apply (arr_insert_eq (ct_socket_futexes t))| |exact Hk|exact Hr|exact Ho].
    intros i Hi. by apply (arr_insert_ne (ct_socket_futexes t)).
Qed.

Lemma filled_nil k t : filled [] k t t.
Proof. split; try done; try (by rewrite slice_nil); by intros j q ?%elem_of_nil. Qed.

(** One socket more, handled and entered at [k]. *)
Lemma filled_cons js k t t1 t' j q :
  let t2 := CallbackThread (ct_state t1) (ct_socket_futexes t1)
    (<[k := (q, ct_socket_futexes t1 j)]> (ct_waitvs t1))
    (<[k := j]> (ct_socket_from_futex_nr t1)) in
  ct_waitvs t1 = ct_waitvs t -> ct_socket_from_futex_nr t1 = ct_socket_from_futex_nr t ->
  ct_socket_futexes t1 j = cq_futex (ct_client t) q ->
  (forall i, i <> j -> ct_socket_futexes t1 i = ct_socket_futexes t i) ->
  sockets_kept (ct_client t) (ct_client t1) ->
  results (ct_state t1) q = drop (Z.to_nat (news t j q)) (results (ct_state t) q) ->
  (forall p, p <> q -> results (ct_state t1) p = results (ct_state t) p) ->
  j ∉ js.*1 -> q ∉ js.*2 ->
  filled js (k + 1) t2 t' -> filled ((j, q) :: js) k t t'.
Proof.
  intros t2 Hw Hn Hs Hso Hk Hr Ho Hj Hq [W N B SH SK K T OT].
  assert (forall p, cq_futex (ct_client t2) p = cq_futex (ct_client t) p) as Hfut
    by (intros p; apply (sk_futex _ _ Hk)).
  assert (forall p, results (ct_state t2) p = results (ct_state t1) p) as Hres by done.
  destruct (B k ltac:(lia)) as [Hbw Hbn].
  cbn [t2 ct_waitvs ct_socket_from_futex_nr] in Hbw, Hbn.
  rewrite (arr_insert_eq (ct_waitvs t1)) in Hbw.
  rewrite (arr_insert_eq (ct_socket_from_futex_nr t1)) in Hbn.
  assert (forall i p, (i, p) ∈ js -> i <> j /\ p <> q) as Hne.
  { intros i p Hin. split; intros ->; [apply Hj|apply Hq]; apply list_elem_of_fmap;
      by exists (i, p) || by exists (j, p) || by exists (i, q). }
  split.
  - cbn [length]. rewrite slice_cons by lia. rewrite fmap_cons. f_equal.
    + rewrite Hbw. cbn [snd]. by rewrite Hs.
    + replace (Z.of_nat (S (length js)) - 1) with (Z.of_nat (length js)) by lia. rewrite W.
      apply list_fmap_ext. intros ? [i p] _. cbn [snd]. by rewrite Hfut.
  - cbn [length]. rewrite slice_cons by lia. rewrite fmap_cons. f_equal; [exact Hbn|].
    by replace (Z.of_nat (S (length js)) - 1) with (Z.of_nat (length js)) by lia.
  - intros x Hx. destruct (B x ltac:(lia)) as [-> ->]. cbn [t2 ct_waitvs ct_socket_from_futex_nr].
    rewrite (arr_insert_ne (ct_waitvs t1)), (arr_insert_ne (ct_socket_from_futex_nr t1)) by lia.
    by rewrite Hw, Hn.
  - intros i p [[= -> ->]|Hin]%elem_of_cons; [rewrite SK by done; exact Hs|].
    rewrite (SH i p Hin). apply Hfut.
  - intros i Hi. rewrite fmap_cons in Hi. apply not_elem_of_cons in Hi as [Hij Hi].
    rewrite SK by done. by apply Hso.
  - etrans; [exact Hk|exact K].
  - intros i p [[= -> ->]|Hin]%elem_of_cons; [by rewrite OT|].
    destruct (Hne i p Hin) as [Hij Hpq]. rewrite (T i p Hin), Hres, Ho by done.
    do 2 f_equal. unfold news. rewrite Hfut. cbn [t2 ct_socket_futexes]. by rewrite Hso.
  - intros p Hp. rewrite fmap_cons in Hp. apply not_elem_of_cons in Hp as [Hpq Hp].
    rewrite OT by done. by apply Ho.
Qed.

(** What the loop needs of the sockets that are left. *)
Definition fill_ready t (i n : Z) : Prop :=
  cq_ok (ct_client t) /\ indexed (ct_client t) /\
  1 <= i /\ 0 <= n /\ highest_socket_number (cl_app (ct_client t)) = i + n - 1 /\
  i + n <= MAX_SOCKETS_PER_APP /\
  forall j q, (j, q) ∈ open_from (ct_client t) i n ->
    Forall P (results (ct_state t) q) /\
    0 <= ct_socket_futexes t j < 4294967296 /\ 0 <= cq_futex (ct_client t) q < 4294967296.

Lemma open_from_cons c i n :
  0 < n -> open_from c i n =
  match cl_sockets c i with
  | Some q => (i, q) :: open_from c (i + 1) (n - 1)
  | None => open_from c (i + 1) (n - 1)
  end.
Proof.
  intros Hn. unfold open_from at 1. rewrite seqZ_cons by lia. cbn [omap list_omap].
  replace (Z.succ i) with (i + 1) by lia. replace (Z.pred n) with (n - 1) by lia.
  by destruct (cl_sockets c i).
Qed.

Lemma fill_ready_next t t' i n :
  fill_ready t i n -> 0 < n -> sockets_kept (ct_client t) (ct_client t') ->
  (forall j, j <> i -> ct_socket_futexes t' j = ct_socket_futexes t j) ->
  (forall p, cl_sockets (ct_client t) i <> Some p ->
     results (ct_state t') p = results (ct_state t) p) ->
  fill_ready t' (i + 1) (n - 1).
Proof.
  intros (Hok & Hidx & Hi & _ & Hhi & Hmax & Hall) Hn [K1 K2 K3 K4 K5] Hs Hr.
  split_and!; [by apply K5| |lia|lia|rewrite K1; lia|lia|].
  - intros j q Hj Hq. rewrite K1 in Hj. rewrite K2 in Hq. rewrite K3. by apply Hidx.
  - intros j q [Hj Hq]%open_from_elem. rewrite K2 in Hq.
    destruct (Hall j q) as (HP & Hsh & Hf); [apply open_from_elem; split; [lia|done]|].
    rewrite Hs, K4, Hr; [done| |lia]. intros Hiq.
    pose proof (Hidx i q ltac:(lia) Hiq). pose proof (Hidx j q ltac:(lia) Hq). lia.
Qed.

Lemma open_from_fresh c i n q :
  indexed c -> 1 <= i -> highest_socket_number (cl_app c) = i + n - 1 -> 0 < n ->
  cl_sockets c i = Some q ->
  i ∉ (open_from c (i + 1) (n - 1)).*1 /\ q ∉ (open_from c (i + 1) (n - 1)).*2.
Proof.
  intros Hidx Hi Hhi Hn Hq. split; intros ([j p] & -> & [Hj Hp]%open_from_elem)%list_elem_of_fmap;
    cbn [fst snd] in *; [lia|].
  pose proof (Hidx i p ltac:(lia) Hq). pose proof (Hidx j p ltac:(lia) Hp). lia.
Qed.

Lemma fill_sockets_loop_spec (n : nat) fuel t (i k : Z) :
  fill_ready t i (Z.of_nat n) -> (n < fuel)%nat -> 0 <= k -> k + Z.of_nat n < 256 ->
  let js := open_from (ct_client t) i (Z.of_nat n) in
  exists t', fill_sockets_loop callback fuel t i k = Ret (t', k + Z.of_nat (length js)) /\
    filled js k t t'.
Proof using All.
  revert fuel t i k. induction n as [|n IH]; intros fuel t i k Hready Hf Hk Hlim js;
    (destruct fuel as [|fuel]; [lia|]); cbn [fill_sockets_loop];
    pose proof Hready as (Hok & Hidx & Hi & _ & Hhi & Hmax & Hall); unfold MAX_SOCKETS_PER_APP in *.
  - rewrite (proj2 (Z.leb_gt i _)) by lia.
    exists t. split; [do 2 f_equal; unfold js; simpl; lia|apply filled_nil].
  - rewrite (proj2 (Z.leb_le i _)), (proj2 (Z.leb_gt 127 i)), u32_small by lia.
    pose proof (fill_ready_next t) as Hnext. specialize (Hnext) with (n := Z.of_nat (S n)) (i := i).
    pose proof (open_from_fresh (ct_client t) i (Z.of_nat (S n))) as Hfresh.
    unfold js. rewrite open_from_cons by lia.
    replace (Z.of_nat (S n) - 1) with (Z.of_nat n) in * by lia.
    destruct (cl_sockets (ct_client t) i) as [q|] eqn:Hq.
    + destruct (Hall i q) as (HP & Hs & Hfq); [apply open_from_elem; split; [lia|done]|].
      destruct (fill_socket_step t i q) as (t1 & -> & H1 & H2 & H3 & H4 & H5 & H6 & H7);
        try done; [unfold MAX_SOCKETS_PER_APP; lia|by apply Hidx; [lia|]|].
      cbn [mbind outcome_bind]. rewrite u8_small by lia. set (t2 := CallbackThread _ _ _ _).
      assert (sockets_kept (ct_client t) (ct_client t2)) as Hk2 by exact H5.
      destruct (IH fuel t2 (i + 1) (k + 1)) as (t' & -> & Hfill); [|lia..|].
      { apply Hnext; [done|lia|done|exact H4|]. intros p Hp. apply H7. congruence. }
      unfold open_from in Hfill |- *. rewrite (sk_sockets _ _ Hk2) in Hfill |- *.
      destruct (Hfresh q) as [Hf1 Hf2]; [done|lia|lia|lia|done|].
      exists t'. split; [do 2 f_equal; cbn [length]; lia|].
      exact (filled_cons _ k t t1 t' i q H1 H2 H3 H4 H5 H6 H7 Hf1 Hf2 Hfill).
    + apply IH; [|lia..]. by apply Hnext; [|lia|..].
Qed.
End waiting.

(** No result is missed in callback mode.  Before it sleeps the callback
    thread has called back for every result a socket was sent, and waits on one
    futex per open socket with the value it has just handled: a further result
    of any of them ends the wait at once. *)
Theorem fill_sockets_waitv_waits {A : Type}
    (callback : Z -> Z -> A * client -> outcome (A * client))
    (P : pifus_operation_result -> Prop) (t : callback_thread) :
  let n := highest_socket_number (cl_app (ct_client t)) in
  let js := open_from (ct_client t) 1 n in
  takes_result callback P -> fill_ready P t 1 n ->
  exists t', fill_sockets_waitv callback t = Ret (t', Z.of_nat (length js)) /\
    slice (ct_waitvs t') 0 (Z.of_nat (length js)) =
      (fun jq => (jq.2, cq_futex (ct_client t') jq.2)) <$> js /\
    slice (ct_socket_from_futex_nr t') 0 (Z.of_nat (length js)) = js.*1 /\
    (forall j q, (j, q) ∈ js -> news t' j q = 0 /\
       results (ct_state t') q = drop (Z.to_nat (news t j q)) (results (ct_state t) q)).
Proof.
  intros n js Htakes Hready. pose proof Hready as (_ & _ & _ & Hn & _ & Hmax & _).
  unfold MAX_SOCKETS_PER_APP in Hmax.
  destruct (fill_sockets_loop_spec callback P Htakes (Z.to_nat n) 128 t 1 0) as (t' & Hl & Hfill);
    [by rewrite Z2Nat.id|lia..|].
  rewrite Z2Nat.id in Hl, Hfill by done. destruct Hfill as [W N _ SH _ K T _].
  exists t'. split_and!; [exact Hl| |exact N|].
  - fold js in W |- *. rewrite W. apply list_fmap_ext. intros ? jq _. f_equal.
    symmetry. apply (sk_futex _ _ K).
  - intros j q Hin. split; [|by apply T]. unfold news.
    by rewrite (SH j q Hin), (sk_futex _ _ K), Z.sub_diag.
Qed.

Definition example_waiting : @callback_thread (list Z) :=
  ct_set_state example_notified ([],
    cl_set_app (cl_set_socket (ct_client example_notified) 1 (Some 0))
      (set_highest_socket_number zero_region 1)).

Lemma fill_sockets_waitv_waits_witness :
  exists t', fill_sockets_waitv logging_callback example_waiting = Ret (t', 1) /\
    ct_waitvs t' 0 = (0, cq_futex (ct_client t') 0) /\ results (ct_state t') 0 = [].
Proof.
  destruct (fill_sockets_waitv_waits logging_callback plain_result example_waiting)
    as (t' & Hf & Hw & _ & Hr); [exact logging_takes| |].
  - change (highest_socket_number (cl_app (ct_client example_waiting))) with 1.
    split_and!; [exact example_notified_ok| |done..|].
    + intros j q Hj. change (highest_socket_number _) with 1 in Hj.
      assert (j = 1) as -> by lia. intros [= <-]. reflexivity.
    + intros j q [Hj Hq]%open_from_elem. assert (j = 1) as -> by lia. injection Hq as <-.
      split_and!; [|done..]. repeat constructor; unfold is_write, is_accepted, is_closed;
        vm_compute; intuition congruence.
  - exists t'. split_and!; [exact Hf| |].
    + change (slice (ct_waitvs t') 0 1 = [(0, cq_futex (ct_client t') 0)]) in Hw.
      rewrite slice_cons in Hw by lia. by injection Hw.
    + destruct (Hr 1 0) as [_ ->]; [by left|]. reflexivity.
Defined.
