(* ===== verification/Wait.v ===== *)
(** * Waiting for a result ([pifus_socket_wait] against [enqueue_in_cqueue])

    The client reads the futex of the completion queue, looks into the queue,
    and sleeps in [futex_wait] unless the futex has changed since; the stack
    puts a result, increments the futex and wakes.  These are the steps of two
    processes over the region they share, in any interleaving.  [futex_wait]
    compares and sleeps in one step, and may return at any time.  Taking a
    result is one step: [RingSpsc] shows that this is what the accesses to the
    ring amount to. *)
From S2P Require Import Prelude RingView RingBuffer Operation SocketRegion.
From S2P Require Import Lwip Stack Socket.

(** [enqueue_in_cqueue]: before the put, before the increment, before the wake. *)
Inductive stack_pc := StackIdle | StackPut | StackInc.

(** [pifus_socket_wait]: before reading the futex, with the value [shadow]
    before a look at the queue, before [futex_wait], and asleep in it; at last
    the result is there. *)
Inductive client_pc :=
  | WaitStart
  | WaitLook (shadow : Z)
  | WaitLoop (shadow : Z)
  | WaitAsleep (shadow : Z)
  | WaitDone (r : pifus_operation_result).

Record wait_state := WaitState {
  ws_socket : pifus_socket;
  ws_stack : stack_pc;
  ws_client : client_pc }.

Definition put_result (s : pifus_socket) (r : pifus_operation_result) : bool * pifus_socket :=
  let '(ok, rb, buf) := ring_buffer_put (so_cqueue s) (so_cqueue_buffer s) r in
  (ok, set_cqueue_buffer (set_cqueue s rb) buf).
Definition take_result (s : pifus_socket) : option pifus_operation_result * pifus_socket :=
  let '(got, rb) := ring_buffer_get (so_cqueue s) (so_cqueue_buffer s) in (got, set_cqueue s rb).
Definition inc_cqueue_futex (s : pifus_socket) : pifus_socket :=
  set_cqueue_futex s (u32 (so_cqueue_futex s + 1)).

(** [callback] is [callback != NULL]: the loop then does not call [futex_wait]. *)
Inductive wait_step (callback : bool) : wait_state -> wait_state -> Prop :=
  | step_put s s' r w :
      put_result s r = (true, s') ->
      wait_step callback (WaitState s StackIdle w) (WaitState s' StackPut w)
  | step_put_full s s' r w :
      put_result s r = (false, s') ->
      wait_step callback (WaitState s StackIdle w) (WaitState s StackIdle w)
  | step_inc s w :
      wait_step callback (WaitState s StackPut w) (WaitState (inc_cqueue_futex s) StackInc w)
  | step_wake s shadow :
      wait_step callback (WaitState s StackInc (WaitAsleep shadow))
        (WaitState s StackIdle (WaitLook shadow))
  | step_wake_nobody s w :
      (forall shadow, w <> WaitAsleep shadow) ->
      wait_step callback (WaitState s StackInc w) (WaitState s StackIdle w)
  | step_shadow s k :
      wait_step callback (WaitState s k WaitStart) (WaitState s k (WaitLook (so_cqueue_futex s)))
  | step_look_some s s' k shadow r :
      take_result s = (Some r, s') ->
      wait_step callback (WaitState s k (WaitLook shadow)) (WaitState s' k (WaitDone r))
  | step_look_none s s' k shadow :
      take_result s = (None, s') ->
      wait_step callback (WaitState s k (WaitLook shadow)) (WaitState s k (WaitLoop shadow))
  | step_sleep s k shadow :
      callback = false -> so_cqueue_futex s = shadow ->
      wait_step callback (WaitState s k (WaitLoop shadow)) (WaitState s k (WaitAsleep shadow))
  | step_changed s k shadow :
      callback = false -> so_cqueue_futex s <> shadow ->
      wait_step callback (WaitState s k (WaitLoop shadow)) (WaitState s k (WaitLook shadow))
  | step_skip s k shadow :
      callback = true ->
      wait_step callback (WaitState s k (WaitLoop shadow)) (WaitState s k (WaitLook shadow))
  | step_interrupted s k shadow :
      wait_step callback (WaitState s k (WaitAsleep shadow)) (WaitState s k (WaitLook shadow)).

(** ** The steps are the code *)

(** Putting and incrementing is [enqueue_in_cqueue]. *)
Lemma put_inc_enqueue `{LW : Lwip} (st : stack) (p : Z) r s' :
  put_result (st_sockets st p) r = (true, s') ->
  st_sockets (enqueue_in_cqueue st p r) p = inc_cqueue_futex s'.
Proof.
  unfold put_result, enqueue_in_cqueue. destruct (ring_buffer_put _ _ _) as [[ok rb] buf].
  intros [= -> <-]. unfold set_socket, st_set_sockets. cbn [st_sockets]. by rewrite arr_insert_eq.
Qed.

Lemma put_result_spec s r :
  rb_wf (so_cqueue s) ->
  let '(ok, s') := put_result s r in
  ok = bool_decide (0 < rb_free (so_cqueue s)) /\
  (ok = true -> rb_wf (so_cqueue s') /\ cq_list s' = cq_list s ++ [r] /\
     so_cqueue_futex s' = so_cqueue_futex s /\
     rb_end (so_cqueue s') = rb_end (so_cqueue s)).
Proof.
  intros Hwf. unfold put_result. pose proof (rb_free_bounds _ Hwf).
  destruct (decide (rb_free (so_cqueue s) = 0)) as [Hz|Hnz].
  - rewrite ring_buffer_put_full by done. split; [|done]. rewrite bool_decide_false; [done|lia].
  - destruct (ring_buffer_put_ok (so_cqueue s) (so_cqueue_buffer s) r Hwf) as (-> & Hwf' & _ & Hc);
      [lia|]. split; [rewrite bool_decide_true; [done|lia]|]. intros _. by split_and!.
Qed.

Lemma take_result_spec s :
  rb_wf (so_cqueue s) ->
  let '(got, s') := take_result s in
  got = head (cq_list s) /\ cq_list s' = tail (cq_list s) /\ rb_wf (so_cqueue s') /\
  so_cqueue_futex s' = so_cqueue_futex s.
Proof.
  intros Hwf. unfold take_result.
  pose proof (ring_buffer_get_spec (so_cqueue s) (so_cqueue_buffer s) Hwf) as Hg.
  destruct (ring_buffer_get _ _) as [got rb]. by destruct Hg as (Hw & _ & -> & Hr).
Qed.

(** ** The invariant *)

Definition pending (k : stack_pc) : Z := match k with StackPut => 1 | _ => 0 end.

(** [n] is how often the futex was incremented since the client read it. *)
Record wait_inv (st : wait_state) : Prop := WaitInv {
  wi_wf : rb_wf (so_cqueue (ws_socket st));
  wi_futex : 0 <= so_cqueue_futex (ws_socket st) < 4294967296;
  wi_count :
    let len := Z.of_nat (length (cq_list (ws_socket st))) in
    match ws_client st with
    | WaitStart | WaitDone _ => True
    | WaitLook shadow | WaitLoop shadow | WaitAsleep shadow =>
        exists n, 0 <= n /\ so_cqueue_futex (ws_socket st) = u32 (shadow + n) /\
          0 <= shadow < 4294967296 /\ n + pending (ws_stack st) <= len + 1 /\
          match ws_client st with
          | WaitLook _ => True
          | WaitAsleep _ =>
              (0 < len -> 0 < n + pending (ws_stack st)) /\
              (0 < n -> ws_stack st = StackInc)
          | _ => 0 < len -> 0 < n + pending (ws_stack st)
          end
    end }.

Lemma cq_list_bound s :
  rb_wf (so_cqueue s) -> Z.of_nat (length (cq_list s)) < 65535.
Proof.
  intros Hwf. pose proof (rb_contents_length (so_cqueue s) (so_cqueue_buffer s) Hwf) as Hl.
  pose proof (rb_free_bounds _ Hwf). unfold cq_list. destruct Hwf as [He _].
  cbn [rb_view rv_end] in He. lia.
Qed.

Lemma u32_shift_ne a n :
  0 <= a < 4294967296 -> 0 < n < 4294967296 -> u32 (a + n) <> a.
Proof.
  intros Ha Hn Heq. unfold u32 in Heq.
  rewrite <- (Z.mod_small a 4294967296) in Heq at 2 by lia.
  pose proof (Z.div_mod (a + n) 4294967296). pose proof (Z.div_mod a 4294967296).
  rewrite (Z.div_small a) in * by lia.
  assert (0 <= (a + n) / 4294967296 <= 1) as Hq.
  { split; [apply Z.div_pos; lia|]. apply Z.lt_succ_r, Z.div_lt_upper_bound; lia. }
  nia.
Qed.

Lemma wait_step_inv callback st st' : wait_step callback st st' -> wait_inv st -> wait_inv st'.
Proof.
  intros Hstep [Hwf Hf Hc]. destruct Hstep; cbn [ws_socket ws_stack ws_client pending] in *.
  - (* put *)
    pose proof (put_result_spec s r Hwf) as Hp. rewrite H in Hp.
    destruct Hp as [_ Hp]. destruct (Hp eq_refl) as (Hwf' & Hl & Hfu & _).
    split; cbn [ws_socket ws_stack ws_client]; [done|by rewrite Hfu|].
    rewrite Hl, length_app, Hfu. cbn [length]. cbv zeta in Hc |- *.
    destruct w; try done; destruct Hc as (n & Hn & Heq & Hs & Hle & Hrest);
      exists n; cbn [pending] in *; split_and!; try done; try lia; intuition (congruence || lia).
  - split; cbn [ws_socket ws_stack ws_client]; done.
  - (* increment *)
    split; cbn [ws_socket ws_stack ws_client]; [done|apply u32_range|].
    cbv zeta in Hc |- *. change (cq_list (inc_cqueue_futex s)) with (cq_list s).
    change (so_cqueue_futex (inc_cqueue_futex s)) with (u32 (so_cqueue_futex s + 1)).
    destruct w; try done; destruct Hc as (n & Hn & Heq & Hs & Hle & Hrest);
      exists (n + 1); cbn [pending] in *;
      (split; [lia|]); (split; [rewrite Heq; unfold u32; rewrite Zplus_mod_idemp_l; f_equal; lia|]);
      (split; [done|]); (split; [lia|]); intuition lia.
  - split; cbn [ws_socket ws_stack ws_client]; [done..|].
    destruct Hc as (n & ? & ? & ? & ? & _). by exists n.
  - split; cbn [ws_socket ws_stack ws_client]; [done..|]. cbn [pending] in *.
    destruct w; try done. by destruct (H shadow).
  - split; cbn [ws_socket ws_stack ws_client]; [done..|]. exists 0.
    split_and!; try done; try lia; [|destruct k; simpl; lia].
    by rewrite Z.add_0_r, u32_small.
  - (* found *)
    pose proof (take_result_spec s Hwf) as Ht. rewrite H in Ht.
    destruct Ht as (_ & _ & Hwf' & Hfu). split; cbn [ws_socket ws_stack ws_client]; [done| |done].
    by rewrite Hfu.
  - pose proof (take_result_spec s Hwf) as Ht. rewrite H in Ht. destruct Ht as [Hh _].
    split; cbn [ws_socket ws_stack ws_client]; [done..|].
    destruct Hc as (n & Hn & Heq & Hs & Hle & _). exists n. split_and!; try (done || lia).
    destruct (cq_list s); [|done]. cbn [length]. lia.
  - split; cbn [ws_socket ws_stack ws_client]; [done..|].
    destruct Hc as (n & Hn & Heq & Hs & Hle & Hlen). exists n. split_and!; try (done || lia).
    intros Hpos. exfalso. pose proof (cq_list_bound s Hwf). 
    apply (u32_shift_ne shadow n); [done| |congruence]. destruct k; cbn [pending] in *; lia.
  - split; cbn [ws_socket ws_stack ws_client]; [done..|].
    destruct Hc as (n & ? & ? & ? & ? & _). by exists n.
  - split; cbn [ws_socket ws_stack ws_client]; [done..|].
    destruct Hc as (n & ? & ? & ? & ? & _). by exists n.
  - split; cbn [ws_socket ws_stack ws_client]; [done..|].
    destruct Hc as (n & ? & ? & ? & ? & _). by exists n.
Qed.

(** ** No result is slept through *)

Definition wait_start (s : pifus_socket) (k : stack_pc) : wait_state := WaitState s k WaitStart.

Lemma wait_reachable_inv callback s k st :
  rb_wf (so_cqueue s) -> 0 <= so_cqueue_futex s < 4294967296 ->
  rtc (wait_step callback) (wait_start s k) st -> wait_inv st.
Proof.
  intros Hwf Hf Hr. assert (wait_inv (wait_start s k)) as Hinv by done.
  revert Hinv. induction Hr as [st|st1 st2 st3 Hstep _ IH]; [done|].
  intros Hinv. apply IH. by eapply wait_step_inv.
Qed.

(** C26. No wake-up is lost.  Whenever a client sleeps in [pifus_socket_wait] while
    there is a result for it, the stack has the increment of the futex or the wake
    still to come; and its own steps then wake the client, which takes the oldest
    result.  The 32-bit futex cannot come back to the value the client has read,
    because the queue of results is full long before. *)
Theorem pifus_socket_wait_not_lost (s : pifus_socket) (k : stack_pc) (st : wait_state) (shadow : Z) :
  rb_wf (so_cqueue s) -> 0 <= so_cqueue_futex s < 4294967296 ->
  rtc (wait_step false) (wait_start s k) st ->
  ws_client st = WaitAsleep shadow -> cq_list (ws_socket st) <> [] ->
  ws_stack st <> StackIdle /\
  exists r rest st', cq_list (ws_socket st) = r :: rest /\
    rtc (wait_step false) st st' /\ ws_stack st' = StackIdle /\
    ws_client st' = WaitDone r /\ cq_list (ws_socket st') = rest.
Proof.
  intros Hwf Hf Hr Hc Hne. destruct (wait_reachable_inv _ _ _ _ Hwf Hf Hr) as [Hwf' _ Hinv].
  destruct st as [s' k' w]. cbn [ws_socket ws_stack ws_client] in *. subst w.
  destruct Hinv as (n & Hn & _ & _ & _ & Hpend & Hinc).
  assert (0 < Z.of_nat (length (cq_list s'))) as Hlen by (destruct (cq_list s'); [done|simpl; lia]).
  assert (k' <> StackIdle) as Hk.
  { intros ->. specialize (Hpend Hlen). cbn [pending] in Hpend. by specialize (Hinc ltac:(lia)). }
  split; [done|]. destruct (cq_list s') as [|r rest] eqn:Hl; [done|].
  assert (forall s2, cq_list s2 = cq_list s' -> rb_wf (so_cqueue s2) -> exists st',
    rtc (wait_step false) (WaitState s2 StackInc (WaitAsleep shadow)) st' /\
    ws_stack st' = StackIdle /\ ws_client st' = WaitDone r /\ cq_list (ws_socket st') = rest)
    as Hwake.
  { intros s2 Hl2 Hwf2. destruct (take_result s2) as [got s3] eqn:Ht.
    pose proof (take_result_spec s2 Hwf2) as Hspec. rewrite Ht, Hl2, Hl in Hspec.
    destruct Hspec as (-> & Hrest & _). cbn [head tail] in *.
    exists (WaitState s3 StackIdle (WaitDone r)). split; [|done].
    eapply rtc_l; [apply step_wake|]. eapply rtc_once. by apply step_look_some. }
  destruct k'; [done| |].
  - destruct (Hwake (inc_cqueue_futex s')) as (st' & Hs & Hrest); [done..|].
    exists r, rest, st'. split; [done|]. split; [|done].
    eapply rtc_l; [apply step_inc|exact Hs].
  - destruct (Hwake s') as (st' & Hs & Hrest); [done..|]. by exists r, rest, st'.
Qed.

Definition example_empty : pifus_socket := set_cqueue zero_socket (ring_buffer_create CQUEUE_SIZE).
Definition example_put : pifus_socket := (put_result example_empty zero_result).2.

(** The client reads the futex and finds nothing; a result is put; the client
    sleeps, since the futex is not yet incremented. *)
Lemma pifus_socket_wait_not_lost_witness :
  exists st', rtc (wait_step false) (WaitState example_put StackPut (WaitAsleep 0)) st' /\
    ws_client st' = WaitDone zero_result.
Proof.
  destruct (pifus_socket_wait_not_lost example_empty StackIdle
    (WaitState example_put StackPut (WaitAsleep 0)) 0)
    as (_ & r & rest & st' & Hl & Hs & _ & Hd & _).
  - by apply rb_create_wf.
  - vm_compute. split; congruence.
  - eapply rtc_l; [apply step_shadow|].
    eapply rtc_l; [by eapply step_look_none|].
    eapply rtc_l; [by apply (step_put _ example_empty example_put zero_result)|].
    eapply rtc_once. by apply step_sleep.
  - reflexivity.
  - vm_compute. congruence.
  - exists st'. split; [exact Hs|]. rewrite Hd. f_equal.
    change (cq_list (ws_socket _)) with [zero_result] in Hl. congruence.
Defined.
