(* ===== verification/PbufCopy.v ===== *)
(** * Copying into and out of a chain ([lwip/src/core/pbuf.c])

    [pbuf_copy_partial] and [pbuf_get_contiguous] read a run of bytes of the
    packet however it is split into segments; [pbuf_take_at] and [pbuf_put_at]
    replace one.  The properties of the file are about all of [Pbuf.v]. *)
From S2P Require Import Prelude Memory Operation Lwip Pbuf.

(** A run of the packet. *)
Definition packet_run (m : mem) (q : list pbuf_seg) (offset n : Z) : list Z :=
  take (Z.to_nat n) (drop (Z.to_nat offset) (chain_bytes m q)).

Lemma packet_run_seg m p q offset n k :
  0 <= k <= n -> 0 <= offset -> offset + k <= sg_len p -> k = n \/ offset + k = sg_len p ->
  packet_run m (p :: q) offset n =
  slice m (sg_payload p + offset) k ++ packet_run m q 0 (n - k).
Proof.
  intros Hk Ho Hle Hend. unfold packet_run. rewrite chain_bytes_cons.
  rewrite drop_app_le by (rewrite length_slice; lia). rewrite drop_slice, Z2Nat.id by lia.
  rewrite (slice_split m _ k (sg_len p - offset)) by lia. rewrite <- app_assoc.
  replace (Z.to_nat n) with (length (slice m (sg_payload p + offset) k) + Z.to_nat (n - k))%nat
    by (rewrite length_slice; lia).
  rewrite take_app_add. f_equal. destruct Hend as [->|He].
  - by replace (Z.to_nat (n - n)) with O by lia.
  - by rewrite slice_nil by lia.
Qed.

Lemma packet_run_nil m offset n : packet_run m [] offset n = [].
Proof. unfold packet_run. change (chain_bytes m []) with (@nil Z). by rewrite drop_nil, take_nil. Qed.

Lemma length_packet_run m q offset n :
  chain_wf q -> 0 <= offset -> 0 <= n ->
  Z.of_nat (length (packet_run m q offset n)) = Z.min n (Z.max 0 (chain_len q - offset)).
Proof.
  intros Hwf Ho Hn. unfold packet_run. rewrite length_take, length_drop.
  pose proof (length_chain_bytes m _ (chain_wf_lens _ Hwf)). lia.
Qed.

Lemma packet_run_ext m m' q offset n :
  (forall x, in_chain q x -> m x = m' x) -> packet_run m q offset n = packet_run m' q offset n.
Proof. intros Heq. unfold packet_run. by rewrite (chain_bytes_ext m m') by done. Qed.

(** Skipping a whole segment. *)
Lemma packet_run_skip m p q offset n :
  0 <= sg_len p <= offset -> packet_run m (p :: q) offset n = packet_run m q (offset - sg_len p) n.
Proof.
  intros Hle. unfold packet_run. rewrite chain_bytes_cons, drop_app_ge by (rewrite length_slice; lia).
  do 2 f_equal. rewrite length_slice. lia.
Qed.

Lemma packet_run_skip_to m q offset n :
  chain_wf q -> 0 <= offset < 65536 ->
  let '(q', o) := seg_skip q offset in packet_run m q' o n = packet_run m q offset n.
Proof.
  intros Hwf Ho. pose proof (seg_skip_bytes m q offset Hwf Ho) as Hs.
  destruct (seg_skip q offset) as [q' o]. destruct Hs as (_ & _ & _ & _ & Hd).
  unfold packet_run. specialize (Hd O). rewrite !Nat.add_0_r in Hd. by rewrite Hd.
Qed.

Lemma pbuf_copy_loop_spec m q dataptr left len offset :
  chain_wf q -> 0 <= left -> 0 <= len -> left + len < 65536 -> 0 <= offset < 65536 ->
  outside q (dataptr + left) len ->
  exists m', pbuf_copy_loop m q dataptr left len offset left =
      (left + Z.min len (Z.max 0 (chain_len q - offset)), m') /\
    same_mem m' (write_bytes m (dataptr + left) (packet_run m q offset len)).
Proof.
  revert m left len offset. induction q as [|p q IH]; intros m left len offset Hwf Hl Hn Hlt Ho Hout;
    cbn [pbuf_copy_loop].
  { exists m. cbn [chain_len]. rewrite Z.max_l, Z.min_r, Z.add_0_r by lia. split; [done|].
    by rewrite packet_run_nil, write_bytes_nil. }
  pose proof Hwf as (Hpl & Htot & Htb & Hcl & Hq)%chain_wf_cons.
  apply outside_cons in Hout as [Hop Hoq]. destruct (Z.eqb_spec len 0) as [->|Hne].
  { exists m. rewrite Z.min_l, Z.add_0_r by lia. split; [done|].
    unfold packet_run. change (Z.to_nat 0) with O. by rewrite write_bytes_nil. }
  destruct (negb (offset =? 0) && (sg_len p <=? offset)) eqn:Hskip.
  - apply andb_true_iff in Hskip as [_ Hle%Z.leb_le]. rewrite u16_small by lia.
    destruct (IH m left len (offset - sg_len p)) as (m' & -> & Hm'); [done || lia..|].
    exists m'. split; [f_equal; cbn [chain_len]; lia|].
    by rewrite packet_run_skip by lia.
  - assert (offset <= sg_len p) as Hole.
    { apply andb_false_iff in Hskip as [Hz|Hz]; [apply negb_false_iff, Z.eqb_eq in Hz|apply Z.leb_gt in Hz]; lia. }
    rewrite (u16_small (sg_len p - offset)) by lia.
    set (k := if len <? sg_len p - offset then len else sg_len p - offset).
    assert (k = Z.min len (sg_len p - offset)) as Hk by (unfold k; ztests). clearbody k.
    rewrite !(u16_small (left + k)), (u16_small (len - k)) by lia.
    set (m1 := memcpy m (dataptr + left) m (sg_payload p + offset) k).
    destruct (IH m1 (left + k) (len - k) 0) as (m' & -> & Hm'); [done || lia..| |].
    { eapply outside_sub; [done|lia|lia]. }
    exists m'. split; [f_equal; cbn [chain_len]; lia|]. rewrite Hm'.
    rewrite (packet_run_ext m1 m).
    2: { intros x Hx. apply memcpy_out. intros Hr. apply (Hoq x); [lia|done]. }
    unfold m1. rewrite memcpy_write_bytes by lia.
    rewrite (packet_run_seg m p q offset len k) by lia. rewrite <- write_bytes_app, length_slice.
    rewrite Z2Nat.id by lia. by rewrite Z.add_assoc.
Qed.

(** [pbuf_copy_partial] copies what the packet has of the run. *)
Lemma pbuf_copy_partial_spec m q dataptr len offset :
  chain_wf q -> dataptr <> 0 -> 0 <= len < 65536 -> 0 <= offset < 65536 -> outside q dataptr len ->
  exists m', pbuf_copy_partial m q dataptr len offset =
      (Z.min len (Z.max 0 (chain_len q - offset)), m') /\
    same_mem m' (write_bytes m dataptr (packet_run m q offset len)).
Proof.
  intros Hwf Hd Hl Ho Hout. destruct q as [|p q].
  - exists m. rewrite packet_run_nil, write_bytes_nil.
    split; [|done]. cbn [pbuf_copy_partial chain_len]. f_equal. lia.
  - unfold pbuf_copy_partial. rewrite (proj2 (Z.eqb_neq _ _)) by done.
    destruct (pbuf_copy_loop_spec m (p :: q) dataptr 0 len offset) as (m' & -> & Hm');
      [done || lia..|by rewrite Z.add_0_r|].
    exists m'. rewrite Z.add_0_r in Hm'. by split; [|done].
Qed.

(** ** Writing *)

Lemma chain_disjoint_app q1 q2 :
  chain_disjoint (q1 ++ q2) -> chain_disjoint q2 /\ forall x, in_chain q1 x -> ~ in_chain q2 x.
Proof.
  induction q1 as [|p q1 IH]; cbn [app chain_disjoint].
  - intros Hd. split; [done|]. intros x Hx. by apply Exists_nil in Hx.
  - intros [Hp Hd]. destruct (IH Hd) as [Hq2 Hsep]. split; [done|].
    intros x [Hx|Hx]%in_chain_cons Hin; [|by apply (Hsep x)].
    apply (Hp x Hx), in_chain_app. by right.
Qed.

(** A segment after a run inside it was replaced. *)
Lemma slice_memcpy_inside (m : mem) a n o src k :
  0 <= o -> 0 <= k -> o + k <= n ->
  slice (memcpy m (a + o) m src k) a n =
  slice m a o ++ slice m src k ++ slice m (a + (o + k)) (n - (o + k)).
Proof.
  intros Ho Hk Hle. rewrite (slice_split _ a o n), (slice_split _ (a + o) k (n - o)) by lia.
  rewrite slice_memcpy_same, !slice_memcpy_other by lia. do 2 f_equal. f_equal; lia.
Qed.

(** The packet with the run from [offset] replaced. *)
Definition replace_run (l : list Z) (offset : Z) (run : list Z) : list Z :=
  take (Z.to_nat offset) l ++ run ++ drop (Z.to_nat offset + length run) l.

(** Replacing a run that ends in the first segment, or reaches its end and
    goes on in the next ones. *)
Lemma replace_run_seg (m : mem) p q o n run :
  0 <= o <= sg_len p -> length run = Z.to_nat n -> 0 <= n ->
  replace_run (chain_bytes m (p :: q)) o run =
  slice m (sg_payload p) o ++ run ++
    slice m (sg_payload p + (o + n)) (sg_len p - (o + n)) ++
    drop (Z.to_nat (o + n - sg_len p)) (chain_bytes m q).
Proof.
  intros Ho Hrun Hn. unfold replace_run. rewrite chain_bytes_cons, Hrun.
  rewrite take_app_le by (rewrite length_slice; lia). rewrite take_slice.
  replace (Z.min (Z.of_nat (Z.to_nat o)) (sg_len p)) with o by lia. do 2 f_equal.
  rewrite drop_app, drop_slice, length_slice. f_equal; [f_equal; lia|f_equal; lia].
Qed.

Lemma pbuf_take_loop_spec m q dataptr total copied :
  chain_wf q -> chain_disjoint q -> outside q (dataptr + copied) total -> 0 <= total <= chain_len q ->
  exists m', pbuf_take_loop m q dataptr total copied = Ret (0, copied + total, m') /\
    chain_bytes m' q = replace_run (chain_bytes m q) 0 (slice m (dataptr + copied) total) /\
    forall x, ~ in_chain q x -> m' x = m x.
Proof.
  revert m total copied. induction q as [|p q IH]; intros m total copied Hwf Hdis Hout Htot;
    cbn [pbuf_take_loop].
  all: destruct (Z.eqb_spec total 0) as [->|Hne];
    [exists m; rewrite slice_nil, Z.add_0_r by lia; done|].
  { cbn [chain_len] in Htot. lia. }
  pose proof Hwf as (Hpl & _ & _ & Hcl & Hq)%chain_wf_cons. destruct Hdis as [Hpd Hqd].
  apply outside_cons in Hout as [Hop Hoq]. cbn [chain_len] in Htot.
  set (k := if sg_len p <? total then sg_len p else total).
  assert (k = Z.min (sg_len p) total) as Hk by (unfold k; ztests). clearbody k.
  set (m1 := memcpy m (sg_payload p) m (dataptr + copied) k).
  destruct (IH m1 (total - k) (copied + k)) as (m' & -> & Hb & Hf); [done..| |lia|].
  { eapply outside_sub; [done|lia|lia]. }
  exists m'. split_and!.
  - by replace (copied + k + (total - k)) with (copied + total) by lia.
  - rewrite (replace_run_seg m p q 0 total) by (rewrite ?length_slice; lia).
    rewrite chain_bytes_cons, Hb, (slice_nil m _ 0) by lia. cbn [app].
    assert (slice m' (sg_payload p) (sg_len p) =
      slice m (dataptr + copied) k ++ slice m (sg_payload p + k) (sg_len p - k)) as ->.
    { transitivity (slice m1 (sg_payload p) (sg_len p)).
      - apply slice_ext. intros j Hj. apply Hf. apply Hpd. unfold in_seg. lia.
      - pose proof (slice_memcpy_inside m (sg_payload p) (sg_len p) 0 (dataptr + copied) k) as Hs.
        rewrite Z.add_0_r, (slice_nil m (sg_payload p) 0) in Hs by lia. apply Hs; lia. }
    rewrite (chain_bytes_ext m1 m).
    2: { intros x Hx. apply memcpy_out. intros Hr. apply (Hpd x); [unfold in_seg; lia|done]. }
    assert (slice m1 (dataptr + (copied + k)) (total - k) =
      slice m (dataptr + copied + k) (total - k)) as ->.
    { apply slice_ext. intros j Hj. unfold m1. rewrite memcpy_out; [f_equal; lia|].
      intros Hr. apply (Hop (dataptr + (copied + k) + j)); [lia|]. apply in_chain_cons. left.
      unfold in_seg. lia. }
    unfold replace_run. rewrite length_slice. change (Z.to_nat 0) with O. rewrite take_0. cbn [app].
    rewrite (slice_split m (dataptr + copied) k total) by lia. rewrite <- !app_assoc. f_equal.
    destruct (Z.leb_spec (sg_len p) total).
    + rewrite (slice_nil m (sg_payload p + k)), (slice_nil m (sg_payload p + (0 + total))) by lia.
      cbn [app]. f_equal. f_equal. lia.
    + replace (total - k) with 0 by lia. rewrite (slice_nil m _ 0) by lia. cbn [app].
      f_equal; f_equal; lia.
  - intros x Hx. rewrite in_chain_cons in Hx. rewrite Hf by tauto. apply memcpy_out.
    intros Hr. apply Hx. left. unfold in_seg. lia.
Qed.

Lemma chain_bytes_same m m' q : same_mem m m' -> chain_bytes m q = chain_bytes m' q.
Proof. intros Heq. apply chain_bytes_ext. intros x _. apply Heq. Qed.

(** From the segment [pbuf_skip] finds. *)
Lemma pbuf_take_seg_spec m p next dataptr len o :
  chain_wf (p :: next) -> chain_disjoint (p :: next) -> outside (p :: next) dataptr len ->
  0 < dataptr -> 0 <= len < 65536 -> 0 <= o < sg_len p -> o + len <= chain_len (p :: next) ->
  let k := Z.min (sg_len p - o) len in
  let m1 := memcpy m (sg_payload p + o) m dataptr k in
  exists m', (if 0 <? len - k then pbuf_take m1 next (dataptr + k) (len - k) else Ret (ERR_OK, m1)) =
      Ret (ERR_OK, m') /\
    chain_bytes m' (p :: next) = replace_run (chain_bytes m (p :: next)) o (slice m dataptr len) /\
    forall x, ~ in_chain (p :: next) x -> m' x = m x.
Proof.
  intros Hwf [Hpd Hqd] [Hop Hoq]%outside_cons Hd Hl Ho Hle k m1.
  assert (k = Z.min (sg_len p - o) len) as Hk by done. clearbody k.
  pose proof Hwf as (Hpl & _ & _ & Hcl & Hq)%chain_wf_cons. cbn [chain_len] in Hle.
  assert (forall x, ~ in_seg p x -> m1 x = m x) as Hm1.
  { intros x Hx. apply memcpy_out. unfold in_seg in Hx. lia. }
  assert (chain_bytes m1 next = chain_bytes m next) as Hb1.
  { apply chain_bytes_ext. intros x Hx. apply Hm1. intros Hp. by apply (Hpd x). }
  assert (slice m1 (sg_payload p) (sg_len p) = slice m (sg_payload p) o ++ slice m dataptr k ++
    slice m (sg_payload p + (o + k)) (sg_len p - (o + k))) as Hs1.
  { apply slice_memcpy_inside; lia. }
  assert (forall x, ~ in_chain (p :: next) x -> m1 x = m x) as Hf1.
  { intros x Hx. apply Hm1. intros Hp. apply Hx, in_chain_cons. by left. }
  rewrite (replace_run_seg m p next o len) by (rewrite ?length_slice; lia).
  destruct (Z.ltb_spec 0 (len - k)) as [Hmore|Hdone].
  - assert (slice m1 (dataptr + k) (len - k) = slice m (dataptr + k) (len - k)) as Hsrc.
    { apply slice_ext. intros j Hj. apply Hm1. intros Hp. apply (Hop (dataptr + k + j)); [lia|].
      apply in_chain_cons. by left. }
    destruct next as [|p1 next]; [cbn [chain_len] in Hle; lia|].
    pose proof Hq as (_ & Ht1 & _ & _)%chain_wf_cons.
    assert (0 < len - k <= chain_len (p1 :: next)) as Hrem by lia.
    unfold pbuf_take. rewrite (proj2 (Z.eqb_neq (dataptr + k) 0)) by lia.
    rewrite (proj2 (Z.ltb_ge (sg_tot_len p1) (len - k))) by (cbn [chain_len] in Hrem; lia).
    destruct (pbuf_take_loop_spec m1 (p1 :: next) (dataptr + k) (len - k) 0) as (m' & -> & Hb & Hf);
      [done..| |lia|].
    { eapply outside_sub; [exact Hoq|lia|lia]. }
    exists m'. cbn [mbind outcome_bind]. rewrite Z.eqb_refl, Z.add_0_l, Z.eqb_refl.
    split_and!; [done| |intros x Hx; rewrite Hf; [by apply Hf1|];
      intros Hin; apply Hx, in_chain_cons; by right].
    rewrite chain_bytes_cons, Hb, Hb1, Z.add_0_r, Hsrc.
    rewrite (slice_ext m' m1 _ (sg_payload p)), Hs1.
    2: { intros j Hj. apply Hf. apply Hpd. unfold in_seg. lia. }
    rewrite !(slice_nil m (sg_payload p + _)) by lia. rewrite app_nil_r, (slice_split m dataptr k len) by lia.
    unfold replace_run. rewrite length_slice. change (Z.to_nat 0) with O. rewrite take_0. cbn [app].
    rewrite <- !app_assoc. do 4 f_equal. lia.
  - exists m1. split_and!; [done| |done]. assert (k = len) as -> by lia.
    rewrite chain_bytes_cons, Hs1, Hb1, <- !app_assoc. do 3 f_equal.
    replace (Z.to_nat (o + len - sg_len p)) with O by lia. done.
Qed.

Lemma pbuf_take_at_unfold m q dataptr len offset :
  chain_wf q -> chain_disjoint q -> outside q dataptr len -> 0 < dataptr ->
  0 <= offset < 65536 -> 0 <= len < 65536 ->
  offset < chain_len q -> offset + len <= chain_len q ->
  exists m', pbuf_take_at m q dataptr len offset = Ret (ERR_OK, m') /\
    chain_bytes m' q = replace_run (chain_bytes m q) offset (slice m dataptr len) /\
    forall x, ~ in_chain q x -> m' x = m x.
Proof.
  intros Hwf Hdis Hout Hd Ho Hl Hlt Hle. unfold pbuf_take_at.
  pose proof (seg_skip_split q offset Hwf Ho) as Hs. destruct (seg_skip q offset) as [q' o].
  destruct Hs as (pre & -> & Hpre & Hq' & -> & Hor & Hend). rewrite chain_len_app in *.
  destruct q' as [|p next]; [cbn [chain_len] in *; lia|].
  apply chain_disjoint_app in Hdis as [Hd' Hsep]. apply outside_app in Hout as [_ Hout].
  pose proof Hq' as (Hpl & Ht & _ & Hcl & _)%chain_wf_cons.
  rewrite (proj2 (Z.leb_le (o + len) (sg_tot_len p))) by (cbn [chain_len] in Hle; lia).
  rewrite (proj2 (Z.ltb_lt o (sg_len p))) by done. cbn [negb LWIP_ASSERT mbind outcome_bind].
  rewrite !(u16_small (Z.min _ _)), u16_small by lia.
  destruct (pbuf_take_seg_spec m p next dataptr len o) as (m' & Heq & Hb & Hf); [done || lia..|].
  exists m'. split_and!; [exact Heq| |].
  - rewrite !chain_bytes_app, Hb, (chain_bytes_ext m' m).
    2: { intros x Hx. apply Hf, Hsep, Hx. }
    pose proof (length_chain_bytes m pre Hpre) as Hlen. unfold replace_run. rewrite length_slice.
    rewrite take_app_ge, drop_app_ge by lia. rewrite <- !app_assoc. do 3 f_equal; [f_equal; lia|].
    f_equal. f_equal. lia.
  - intros x Hx. apply Hf. intros Hin. apply Hx, in_chain_app. by right.
Qed.

Lemma pbuf_take_at_short m q dataptr len offset :
  chain_wf q -> 0 <= offset < 65536 -> 0 <= len ->
  ~ (offset < chain_len q /\ offset + len <= chain_len q) ->
  pbuf_take_at m q dataptr len offset = Ret (ERR_MEM, m).
Proof.
  intros Hwf Ho Hl Hno. unfold pbuf_take_at.
  pose proof (seg_skip_split q offset Hwf Ho) as Hs. destruct (seg_skip q offset) as [q' o].
  destruct Hs as (pre & -> & Hpre & Hq' & -> & Hor & Hend). rewrite chain_len_app in *.
  destruct q' as [|p next]; [done|]. pose proof Hq' as (Hpl & Ht & _ & Hcl & _)%chain_wf_cons.
  cbn [chain_len] in *. by rewrite (proj2 (Z.leb_gt (o + len) (sg_tot_len p))) by lia.
Qed.

Lemma packet_run_replace m m' q offset run :
  chain_wf q -> 0 <= offset -> offset + Z.of_nat (length run) <= chain_len q ->
  chain_bytes m' q = replace_run (chain_bytes m q) offset run ->
  packet_run m' q offset (Z.of_nat (length run)) = run.
Proof.
  intros Hwf Ho Hle Hb. unfold packet_run. rewrite Hb. unfold replace_run.
  pose proof (length_chain_bytes m _ (chain_wf_lens _ Hwf)).
  rewrite drop_app_length' by (rewrite length_take; lia). rewrite Nat2Z.id. by apply take_app_length.
Qed.

(** ** Single bytes and contiguous runs *)

Lemma pbuf_put_at_spec m q offset data :
  chain_wf q -> chain_disjoint q -> 0 <= offset < 65536 ->
  (offset < chain_len q ->
   chain_bytes (pbuf_put_at m q offset data) q = replace_run (chain_bytes m q) offset [data]) /\
  (chain_len q <= offset -> pbuf_put_at m q offset data = m).
Proof.
  intros Hwf Hdis Ho. unfold pbuf_put_at. pose proof (seg_skip_split q offset Hwf Ho) as Hs.
  destruct (seg_skip q offset) as [q' o].
  destruct Hs as (pre & -> & Hpre & Hq' & -> & Hor & Hend). rewrite chain_len_app.
  apply chain_disjoint_app in Hdis as [Hd' Hsep].
  destruct q' as [|p next]; [split; [cbn [chain_len]; lia|done]|].
  pose proof Hq' as (Hpl & _ & _ & Hcl & _)%chain_wf_cons. destruct Hd' as [Hpd _].
  rewrite (proj2 (Z.ltb_lt o (sg_len p))) by done. cbn [chain_len].
  split; [intros _|lia]. set (m' := <[sg_payload p + o := data]> m).
  assert (forall x, ~ in_seg p x -> m' x = m x) as Hm'.
  { intros x Hx. apply (arr_insert_ne (A := Z)). unfold in_seg in Hx. lia. }
  rewrite !chain_bytes_app, (chain_bytes_ext m' m pre), chain_bytes_cons, (chain_bytes_ext m' m next).
  2: { intros x Hx. apply Hm'. intros Hp. by apply (Hpd x). }
  2: { intros x Hx. apply Hm'. intros Hp. apply (Hsep x Hx), in_chain_cons. by left. }
  rewrite (slice_split m' _ o (sg_len p)), (slice_cons m' (sg_payload p + o)) by lia.
  rewrite (slice_ext m' m (sg_payload p) (sg_payload p)).
  2: { intros k Hk. apply (arr_insert_ne (A := Z)). lia. }
  rewrite (slice_ext m' m (sg_payload p + o + 1) (sg_payload p + (o + 1))).
  2: { intros k Hk. unfold m'. rewrite (arr_insert_ne (A := Z)) by lia. f_equal. lia. }
  assert (m' (sg_payload p + o) = data) as -> by apply (arr_insert_eq (A := Z)).
  pose proof (length_chain_bytes m pre Hpre) as Hlen.
  pose proof (replace_run_seg m p next o 1 [data] ltac:(lia) eq_refl ltac:(lia)) as Hr.
  replace (o + 1 - sg_len p) with (- (sg_len p - (o + 1))) in Hr by lia.
  replace (Z.to_nat (- _)) with O in Hr by lia. rewrite drop_0 in Hr.
  unfold replace_run in *. rewrite take_app_ge, drop_app_ge by lia.
  replace (Z.to_nat (chain_len pre + o) - length (chain_bytes m pre))%nat with (Z.to_nat o) by lia.
  replace (Z.to_nat (chain_len pre + o) + length [data] - length (chain_bytes m pre))%nat
    with (Z.to_nat o + length [data])%nat by lia.
  rewrite <- !app_assoc, Hr. cbn [app]. do 2 f_equal. by rewrite (Z.sub_add_distr (sg_len p)).
Qed.

(** [pbuf_get_contiguous] points at the run, in the packet or in the buffer. *)
Lemma pbuf_get_contiguous_spec m q buffer bufsize len offset :
  chain_wf q -> 0 < buffer -> outside q buffer len -> 0 <= len < 65536 -> len <= bufsize ->
  0 <= offset < 65536 ->
  let '(r, m') := pbuf_get_contiguous m q buffer bufsize len offset in
  (offset < chain_len q -> offset + len <= chain_len q ->
   slice m' r len = packet_run m q offset len) /\
  (chain_len q < offset + len \/ chain_len q <= offset -> r = 0) /\
  (forall x, ~ buffer <= x < buffer + len -> m' x = m x).
Proof.
  intros Hwf Hb Hout Hl Hbs Ho. destruct q as [|p0 q0].
  { cbn [pbuf_get_contiguous chain_len]. split_and!; [lia|done|done]. }
  set (q := p0 :: q0) in *. unfold pbuf_get_contiguous. fold q.
  change (match q with [] => ?a | _ :: _ => ?b end) with b.
  rewrite (proj2 (Z.eqb_neq buffer 0)), (proj2 (Z.leb_le len bufsize)) by lia. cbn [negb].
  pose proof (seg_skip_split q offset Hwf Ho) as Hs.
  pose proof (packet_run_skip_to m q offset len Hwf Ho) as Hrun.
  destruct (seg_skip q offset) as [q' o]. destruct Hs as (pre & Hq & Hpre & Hq' & Hoff & Hor & Hend).
  assert (chain_len q = chain_len pre + chain_len q') as Hcl by (by rewrite Hq, chain_len_app).
  rewrite Hq in Hout. apply outside_app in Hout as [_ Hout'].
  destruct q' as [|p next].
  { cbn [chain_len] in *. split_and!; [lia|done|done]. }
  pose proof Hq' as (Hpl & Ht & _ & Hcn & _)%chain_wf_cons.
  assert (chain_len q = chain_len pre + (sg_len p + chain_len next)) as Hcl' by done.
  destruct (Z.leb_spec (o + len) (sg_len p)).
  - split_and!; [|lia|done]. intros _ _. rewrite <- Hrun, (packet_run_seg m p next o len len) by lia.
    rewrite Z.sub_diag. unfold packet_run. change (Z.to_nat 0) with O. by rewrite take_0, app_nil_r.
  - destruct (pbuf_copy_partial_spec m (p :: next) buffer len o) as (m' & -> & Hm'); [done || lia..|].
    assert (forall x, ~ buffer <= x < buffer + len -> m' x = m x) as Hfr.
    { intros x Hx. rewrite (Hm' x). unfold write_bytes.
      rewrite length_packet_run by (done || lia). destruct (Z.leb_spec buffer x); [|done].
      case (Z.ltb_spec x (buffer + Z.min len (Z.max 0 (chain_len (p :: next) - o)))); [lia|done]. }
    pose proof (length_packet_run m (p :: next) o len Hq' ltac:(lia) ltac:(lia)) as Hlr.
    cbn [chain_len] in *. destruct (Z.eqb_spec (Z.min len (Z.max 0 (sg_len p + chain_len next - o))) len)
      as [Heq|Hne]; cbn [negb]; split_and!; try done; try lia.
    intros _ _. rewrite <- Hrun. set (run := packet_run m (p :: next) o len) in *.
    apply list_eq_same_length with (n := Z.to_nat len); rewrite ?length_slice; [lia|lia|].
    intros k x y Hk. rewrite lookup_slice by lia. rewrite (Hm' _). unfold write_bytes.
    rewrite (proj2 (Z.leb_le _ _)), (proj2 (Z.ltb_lt _ _)) by lia. cbn [andb].
    replace (Z.to_nat (buffer + Z.of_nat k - buffer)) with k by lia. intros [= <-] ->. done.
Qed.

(** ** Properties *)

(** C31. Writing into a packet and reading back, however the packet is split
    into segments.  [pbuf_take_at] succeeds exactly when the offset is inside
    the packet and the data fits; otherwise it returns [ERR_MEM] and changes
    nothing.  When it succeeds the packet is the old one with the run from the
    offset replaced, no byte outside the segments has changed, its assertions
    hold, and [pbuf_copy_partial] of the same run into another buffer copies
    all of it and leaves there the data that was written. *)
Theorem pbuf_take_at_roundtrip (m : mem) (q : list pbuf_seg) (dataptr len offset dst : Z)
    (Hwf : chain_wf q) (Hdis : chain_disjoint q) (Hsrc : outside q dataptr len)
    (Hdst : outside q dst len) (Hnull : 0 < dataptr /\ dst <> 0)
    (Ho : 0 <= offset < 65536) (Hl : 0 <= len < 65536) :
  (offset < chain_len q /\ offset + len <= chain_len q ->
   exists m1 m2,
     pbuf_take_at m q dataptr len offset = Ret (ERR_OK, m1) /\
     chain_bytes m1 q = replace_run (chain_bytes m q) offset (slice m dataptr len) /\
     (forall x, ~ in_chain q x -> m1 x = m x) /\
     pbuf_copy_partial m1 q dst len offset = (len, m2) /\
     slice m2 dst len = slice m dataptr len /\
     forall x, ~ dst <= x < dst + len -> m2 x = m1 x) /\
  (~ (offset < chain_len q /\ offset + len <= chain_len q) ->
   pbuf_take_at m q dataptr len offset = Ret (ERR_MEM, m)).
Proof.
  split; [|apply pbuf_take_at_short; (done || lia)].
  intros [Hlt Hle]. destruct Hnull as [Hd0 Hd1].
  destruct (pbuf_take_at_unfold m q dataptr len offset) as (m1 & Htake & Hb & Hf); [done || lia..|].
  destruct (pbuf_copy_partial_spec m1 q dst len offset) as (m2 & Hcopy & Hm2); [done || lia..|].
  pose proof (length_slice m dataptr len) as Hls.
  pose proof (packet_run_replace m m1 q offset _ Hwf ltac:(lia) ltac:(rewrite Hls; lia) Hb) as Hrun.
  rewrite Hls, Z2Nat.id in Hrun by lia. rewrite Hrun in Hm2.
  exists m1, m2. split_and!; try done.
  - rewrite Hcopy. f_equal. lia.
  - transitivity (slice (write_bytes m1 dst (slice m dataptr len)) dst len).
    { apply slice_ext. intros k Hk. apply Hm2. }
    etransitivity; [|apply (slice_memcpy_same m1 dst m dataptr len)]. apply slice_ext. intros k Hk.
    symmetry. apply memcpy_write_bytes. lia.
  - intros x Hx. rewrite (Hm2 x). unfold write_bytes. rewrite Hls, Z2Nat.id by lia.
    destruct (Z.leb_spec dst x), (Z.ltb_spec x (dst + len)); cbn [andb]; (done || lia).
Qed.

(** A packet of two segments. *)
Definition example_chain : list pbuf_seg := [PbufSeg 100 5 2; PbufSeg 200 3 3].
Definition example_mem : mem := arr_of_list 0 (Z.of_nat <$> seq 0 256).

Lemma example_chain_wf : chain_wf example_chain.
Proof. cbn. lia. Qed.

Lemma example_chain_in x : in_chain example_chain x <-> 100 <= x < 102 \/ 200 <= x < 203.
Proof.
  unfold example_chain. rewrite !in_chain_cons. unfold in_seg, in_chain. cbn. rewrite Exists_nil. lia.
Qed.

Lemma example_chain_disjoint : chain_disjoint example_chain.
Proof.
  split; [|split; [|done]]; intros x Hx Hin.
  - apply in_chain_cons in Hin as [Hin|Hin%Exists_nil]; [|done]. unfold in_seg in *. cbn in *. lia.
  - by apply Exists_nil in Hin.
Qed.

Lemma pbuf_take_at_roundtrip_witness : exists m1 m2,
  pbuf_take_at example_mem example_chain 10 3 1 = Ret (ERR_OK, m1) /\
  chain_bytes m1 example_chain = [100; 10; 11; 12; 202] /\
  pbuf_copy_partial m1 example_chain 20 3 1 = (3, m2) /\ slice m2 20 3 = [10; 11; 12].
Proof.
  destruct (pbuf_take_at_roundtrip example_mem example_chain 10 3 1 20) as [H _].
  - apply example_chain_wf.
  - apply example_chain_disjoint.
  - intros x Hx. rewrite example_chain_in. lia.
  - intros x Hx. rewrite example_chain_in. lia.
  - lia.
  - lia.
  - lia.
  - destruct H as (m1 & m2 & H1 & Hb & _ & H2 & Hs & _); [cbn; lia|].
    exists m1, m2. split; [exact H1|]. split; [rewrite Hb; by vm_compute|]. split; [exact H2|].
    rewrite Hs. by vm_compute.
Defined.

(** What a search from an index returns. *)
Definition first_occurrence (m : mem) (p : list pbuf_seg) (s2 n start r : Z) : Prop :=
  (r = 65535 /\ forall j, start <= j -> ~ occurs m p s2 n j) \/
  (start <= r < 65535 /\ occurs m p s2 n r /\ forall j, start <= j < r -> ~ occurs m p s2 n j).

Lemma pbuf_memfind_spec m p mem_ mem_len start_offset :
  p <> [] -> chain_wf p -> chain_len p < 65535 -> 0 <= mem_len < 65536 -> 0 <= start_offset < 65536 ->
  exists r, pbuf_memfind m p mem_ mem_len start_offset = Ret r /\
    first_occurrence m p mem_ mem_len start_offset r.
Proof.
  intros Hne Hwf Hlen Hn Hs. destruct p as [|p0 p]; [done|]. pose proof (chain_len_range _ Hwf) as Hcl.
  pose proof Hwf as (_ & Ht & _). unfold pbuf_memfind.
  destruct (Z.leb_spec (mem_len + start_offset) (sg_tot_len p0)) as [Hle|Hgt].
  - rewrite u16_small, Ht by lia.
    apply pbuf_memfind_loop_spec; unfold memfind_fuel; try (done || lia).
  - exists 65535. split; [done|]. left. split; [done|]. intros j Hj [Hoc _]. lia.
Qed.

(** [pbuf_memfind] finds the first occurrence, however the packet is split.
    On a packet shorter than [0xFFFF] bytes it terminates and returns the least
    index from the start offset at which the bytes searched for occur, or
    [0xFFFF] when there is none, the search being longer than the packet
    included. *)
Theorem pbuf_memfind_first (m : mem) (p : list pbuf_seg) (mem_ mem_len start_offset : Z)
    (Hne : p <> []) (Hwf : chain_wf p) (Hlen : chain_len p < 65535)
    (Hn : 0 <= mem_len < 65536) (Hs : 0 <= start_offset < 65536) :
  exists r, pbuf_memfind m p mem_ mem_len start_offset = Ret r /\
    ((r = 65535 /\ forall j, start_offset <= j -> ~ occurs m p mem_ mem_len j) \/
     (start_offset <= r < 65535 /\ occurs m p mem_ mem_len r /\
      forall j, start_offset <= j < r -> ~ occurs m p mem_ mem_len j)).
Proof. by apply pbuf_memfind_spec. Qed.

Lemma pbuf_memfind_first_witness :
  pbuf_memfind example_mem example_chain 201 2 0 = Ret 3 /\
  ~ occurs example_mem example_chain 201 2 2.
Proof.
  destruct (pbuf_memfind_first example_mem example_chain 201 2 0) as (r & Hr & Hspec);
    [done|apply example_chain_wf|cbn; lia|lia|lia|].
  assert (pbuf_memfind example_mem example_chain 201 2 0 = Ret 3) as H3 by by vm_compute.
  rewrite H3 in Hr. injection Hr as <-. split; [exact H3|].
  destruct Hspec as [[? _]|(_ & _ & Hno)]; [lia|]. apply Hno. lia.
Defined.
