(* ===== verification/ByteOrder.v ===== *)
(** * Byte order and the pieces of 16-bit words
      ([lwip/src/core/def.c], [lwip/src/include/lwip/def.h],
       [lwip/src/include/lwip/inet_chksum.h])

    The host is little-endian.  The macros are written with the bit operations
    of the code; the lemmas give them their arithmetic. *)
From S2P Require Import Prelude Memory.

Definition PP_HTONS (x : Z) : Z :=
  u16 (Z.lor (Z.shiftl (Z.land x 255) 8) (Z.shiftr (Z.land x 65280) 8)).
Definition PP_HTONL (x : Z) : Z :=
  u32 (Z.lor (Z.lor (Z.lor (Z.shiftl (Z.land x 255) 24) (Z.shiftl (Z.land x 65280) 8))
    (Z.shiftr (Z.land x 16711680) 8)) (Z.shiftr (Z.land x 4278190080) 24)).
Definition lwip_htons (n : Z) : Z := PP_HTONS n.
Definition lwip_htonl (n : Z) : Z := PP_HTONL n.

Definition SWAP_BYTES_IN_WORD (w : Z) : Z :=
  Z.lor (Z.shiftl (Z.land w 255) 8) (Z.shiftr (Z.land w 65280) 8).
Definition FOLD_U32T (u : Z) : Z := u32 (Z.shiftr u 16 + Z.land u 65535).

(** ** Arithmetic *)

Lemma land_255 x : Z.land x 255 = x mod 256.
Proof. change 255 with (Z.ones 8). by rewrite Z.land_ones. Qed.
Lemma land_65535 x : Z.land x 65535 = x mod 65536.
Proof. change 65535 with (Z.ones 16). by rewrite Z.land_ones. Qed.
Lemma shiftr_8 x : Z.shiftr x 8 = x / 256.
Proof. by rewrite Z.shiftr_div_pow2. Qed.
Lemma shiftr_16 x : Z.shiftr x 16 = x / 65536.
Proof. by rewrite Z.shiftr_div_pow2. Qed.
Lemma shiftr_24 x : Z.shiftr x 24 = x / 16777216.
Proof. by rewrite Z.shiftr_div_pow2. Qed.
Lemma shiftl_8 x : Z.shiftl x 8 = 256 * x.
Proof. rewrite Z.shiftl_mul_pow2 by done. change (2 ^ 8) with 256. lia. Qed.
Lemma shiftl_16 x : Z.shiftl x 16 = 65536 * x.
Proof. rewrite Z.shiftl_mul_pow2 by done. change (2 ^ 16) with 65536. lia. Qed.
Lemma shiftl_24 x : Z.shiftl x 24 = 16777216 * x.
Proof. rewrite Z.shiftl_mul_pow2 by done. change (2 ^ 24) with 16777216. lia. Qed.

(** The field of [w] bits in the place [k] of a word. *)
Lemma land_field x (w k : Z) :
  0 <= w -> 0 <= k -> Z.land x (Z.shiftl (Z.ones w) k) = Z.shiftl ((x / 2 ^ k) mod 2 ^ w) k.
Proof.
  intros Hw Hk. rewrite <- Z.land_ones, <- Z.shiftr_div_pow2, Z.shiftl_land by done.
  apply Z.bits_inj'. intros n Hn. rewrite !Z.land_spec. destruct (Z.leb_spec k n).
  - rewrite (Z.shiftl_spec (Z.shiftr x k)), Z.shiftr_spec by lia. do 2 f_equal. lia.
  - rewrite Z.shiftl_spec_low by lia. by rewrite !andb_false_r.
Qed.

Lemma land_byte x (k : Z) : 0 <= k -> Z.land x (Z.shiftl 255 k) = Z.shiftl ((x / 2 ^ k) mod 256) k.
Proof. by apply (land_field x 8). Qed.

(** The high half of a 32-bit word. *)
Lemma land_high x : 0 <= x < 4294967296 -> Z.land x 4294901760 = 65536 * (x / 65536).
Proof.
  intros Hx. change 4294901760 with (Z.shiftl (Z.ones 16) 16). rewrite land_field, shiftl_16 by done.
  change (2 ^ 16) with 65536. f_equal. apply Z.mod_small. Z.div_mod_to_equations. lia.
Qed.

(** Or-ing bits that do not overlap is adding. *)
Lemma lor_add a b (k : Z) :
  0 <= k -> 0 <= b < 2 ^ k -> Z.lor (Z.shiftl a k) b = Z.shiftl a k + b.
Proof.
  intros Hk Hb. assert (Z.land (Z.shiftl a k) b = 0) as Hl.
  { apply Z.bits_inj'. intros n Hn. rewrite Z.land_spec, Z.bits_0.
    destruct (Z.leb_spec k n).
    - rewrite <- (Z.mod_small b (2 ^ k)), Z.mod_pow2_bits_high by lia. by rewrite andb_false_r.
    - by rewrite Z.shiftl_spec_low by lia. }
  by rewrite <- Z.lxor_lor, <- Z.add_nocarry_lxor.
Qed.

Lemma SWAP_arith w : SWAP_BYTES_IN_WORD w = 256 * (w mod 256) + (w / 256) mod 256.
Proof.
  unfold SWAP_BYTES_IN_WORD. change 65280 with (Z.shiftl 255 8). rewrite (land_byte w 8) by done.
  rewrite Z.shiftr_shiftl_l by done. change (8 - 8) with 0. rewrite Z.shiftl_0_r.
  rewrite lor_add by (done || by apply Z.mod_pos_bound).
  by rewrite shiftl_8, land_255.
Qed.

Lemma PP_HTONS_swap x : PP_HTONS x = SWAP_BYTES_IN_WORD x.
Proof.
  unfold PP_HTONS. fold (SWAP_BYTES_IN_WORD x). rewrite SWAP_arith. apply u16_small.
  pose proof (Z.mod_pos_bound x 256). pose proof (Z.mod_pos_bound (x / 256) 256). lia.
Qed.

Lemma lwip_htons_arith x : lwip_htons x = 256 * (x mod 256) + (x / 256) mod 256.
Proof. unfold lwip_htons. by rewrite PP_HTONS_swap, SWAP_arith. Qed.

Lemma FOLD_arith u : 0 <= u < 4294967296 -> FOLD_U32T u = u / 65536 + u mod 65536.
Proof.
  intros Hu. unfold FOLD_U32T. rewrite shiftr_16, land_65535. apply u32_small.
  pose proof (Z.mod_pos_bound u 65536). pose proof (Z.div_pos u 65536).
  pose proof (Z.div_lt_upper_bound u 65536 65536). lia.
Qed.

(** The four bytes of a word, least significant first, in the other order. *)
Lemma PP_HTONL_bytes a b c d :
  0 <= a < 256 -> 0 <= b < 256 -> 0 <= c < 256 -> 0 <= d < 256 ->
  PP_HTONL (a + 256 * (b + 256 * (c + 256 * d))) = d + 256 * (c + 256 * (b + 256 * a)).
Proof.
  intros Ha Hb Hc Hd. set (x := a + _). unfold PP_HTONL.
  change 65280 with (Z.shiftl 255 8). change 16711680 with (Z.shiftl 255 16).
  change 4278190080 with (Z.shiftl 255 24). rewrite !land_byte, land_255 by done.
  change (2 ^ 8) with 256. change (2 ^ 16) with 65536. change (2 ^ 24) with 16777216.
  assert (x mod 256 = a) as -> by (unfold x; Z.div_mod_to_equations; lia).
  assert ((x / 256) mod 256 = b) as -> by (unfold x; Z.div_mod_to_equations; lia).
  assert ((x / 65536) mod 256 = c) as -> by (unfold x; Z.div_mod_to_equations; lia).
  assert ((x / 16777216) mod 256 = d) as -> by (unfold x; Z.div_mod_to_equations; lia).
  rewrite !Z.shiftl_shiftl, !Z.shiftr_shiftl_l by done.
  change (8 + 8) with 16. change (16 - 8) with 8. change (24 - 24) with 0.
  rewrite Z.shiftl_0_r. rewrite <- !Z.lor_assoc.
  rewrite (lor_add c d 8) by done. rewrite (lor_add b _ 16) by (rewrite ?shiftl_8; lia).
  rewrite (lor_add a _ 24) by (rewrite ?shiftl_8, ?shiftl_16; lia).
  rewrite shiftl_8, shiftl_16, shiftl_24. rewrite u32_small; lia.
Qed.

(** Every 32-bit word has four bytes. *)
Lemma word_bytes x :
  0 <= x < 4294967296 ->
  exists a b c d, x = a + 256 * (b + 256 * (c + 256 * d)) /\
    0 <= a < 256 /\ 0 <= b < 256 /\ 0 <= c < 256 /\ 0 <= d < 256.
Proof.
  intros Hx. exists (x mod 256), (x / 256 mod 256), (x / 65536 mod 256), (x / 16777216 mod 256).
  Z.div_mod_to_equations. lia.
Qed.

Lemma lwip_htonl_involutive x : 0 <= x < 4294967296 -> lwip_htonl (lwip_htonl x) = x.
Proof.
  intros (a & b & c & d & -> & Ha & Hb & Hc & Hd)%word_bytes. unfold lwip_htonl.
  by rewrite !PP_HTONL_bytes.
Qed.

Lemma lwip_htons_involutive x : 0 <= x < 65536 -> lwip_htons (lwip_htons x) = x.
Proof. intros Hx. rewrite !lwip_htons_arith. Z.div_mod_to_equations. lia. Qed.
