(* ===== verification/Checksum.v ===== *)
(** * The Internet checksum ([lwip/src/core/inet_chksum.c])

    The three versions of [lwip_standard_chksum] that the source offers (the
    build selects the second), over the address of the data, whose alignment
    they look at, and its bytes.  The reference is RFC 1071: the one's
    complement sum of the 16-bit words of the data. *)
From S2P Require Import Prelude Memory ByteOrder.

(** ** [lwip_standard_chksum], version 1 *)

(** [while (len > 1)]: the sum, and what is left of the data. *)
Fixpoint chksum1_loop (acc : Z) (data : list Z) : Z * list Z :=
  match data with
  | b0 :: b1 :: data =>
      let src := u16 (Z.shiftl (u8 b0) 8) in
      let src := Z.lor src (u8 b1) in
      chksum1_loop (u32 (acc + src)) data
  | _ => (acc, data)
  end.

Definition lwip_standard_chksum_1 (dataptr : Z) (data : list Z) : Z :=
  let '(acc, rest) := chksum1_loop 0 data in
  let acc := match rest with
             | b :: _ => u32 (acc + u16 (Z.shiftl (u8 b) 8))
             | [] => acc
             end in
  let acc := u32 (Z.shiftr acc 16 + Z.land acc 65535) in
  let acc := if Z.land acc 4294901760 =? 0 then acc
             else u32 (Z.shiftr acc 16 + Z.land acc 65535) in
  lwip_htons (u16 acc).

(** ** Version 2 *)

(** [while (len > 1)]: [sum += *ps++]. *)
Fixpoint sum_u16_loop (sum : Z) (ps : list Z) : Z * list Z :=
  match ps with
  | b0 :: b1 :: ps => sum_u16_loop (u32 (sum + le_decode [b0; b1])) ps
  | _ => (sum, ps)
  end.

(** [if (odd && len > 0)]: [t[1] = *pb++]. *)
Definition take_odd (odd : bool) (pb : list Z) : Z * list Z :=
  match pb with
  | b :: pb' => if odd then (u8 b, pb') else (0, pb)
  | [] => (0, pb)
  end.

(** [if (len > 0)]: the left-over byte goes to [t[0]]. *)
Definition take_tail (ps : list Z) : Z :=
  match ps with b :: _ => u8 b | [] => 0 end.

Definition is_odd (ptr : Z) : bool := negb (Z.land ptr 1 =? 0).

(** The last lines of versions 2 and 3: the end bytes, the folds, the swap. *)
Definition chksum_end (odd : bool) (sum t0 t1 : Z) : Z :=
  let sum := u32 (sum + le_decode [t0; t1]) in
  let sum := FOLD_U32T sum in
  let sum := FOLD_U32T sum in
  let sum := if odd then SWAP_BYTES_IN_WORD sum else sum in
  u16 sum.

Definition lwip_standard_chksum_2 (dataptr : Z) (data : list Z) : Z :=
  let odd := is_odd dataptr in
  let '(t1, pb) := take_odd odd data in
  let '(sum, ps) := sum_u16_loop 0 pb in
  let t0 := take_tail ps in
  chksum_end odd sum t0 t1.

(** ** Version 3 *)

(** [tmp = sum + w; if (tmp < sum) tmp++]. *)
Definition add_back_carry (sum w : Z) : Z :=
  let tmp := u32 (sum + w) in
  if tmp <? sum then u32 (tmp + 1) else tmp.

(** [while (len > 7)]. *)
Fixpoint sum_u32_loop (sum : Z) (pl : list Z) : Z * list Z :=
  match pl with
  | b0 :: b1 :: b2 :: b3 :: b4 :: b5 :: b6 :: b7 :: pl =>
      let tmp := add_back_carry sum (le_decode [b0; b1; b2; b3]) in
      let sum := add_back_carry tmp (le_decode [b4; b5; b6; b7]) in
      sum_u32_loop sum pl
  | _ => (sum, pl)
  end.

Definition lwip_standard_chksum_3 (dataptr : Z) (data : list Z) : Z :=
  let odd := is_odd dataptr in
  let '(t1, pb) := take_odd odd data in
  let ps := if odd && (0 <? Z.of_nat (length data)) then dataptr + 1 else dataptr in
  let '(sum, pl) :=
    match pb with
    | b0 :: b1 :: pb' =>
        if Z.land ps 3 =? 0 then (0, pb) else (u32 (0 + le_decode [b0; b1]), pb')
    | _ => (0, pb)
    end in
  let '(sum, ps) := sum_u32_loop sum pl in
  let sum := FOLD_U32T sum in
  let '(sum, ps) := sum_u16_loop sum ps in
  let t0 := take_tail ps in
  chksum_end odd sum t0 t1.

(** The build selects version 2. *)
Definition LWIP_CHKSUM (dataptr : Z) (data : list Z) : Z := lwip_standard_chksum_2 dataptr data.

(** [(u16_t)~x]. *)
Definition not16 (x : Z) : Z := u16 (Z.lnot x).

Definition inet_chksum (dataptr : Z) (data : list Z) : Z := not16 (LWIP_CHKSUM dataptr data).

(** ** The reference of RFC 1071 *)

(** One's complement addition of 16-bit numbers: the end-around carry. *)
Definition ones_add (x y : Z) : Z := let s := x + y in if s <? 65536 then s else s - 65535.

Fixpoint ones_sum (data : list Z) : Z :=
  match data with
  | b0 :: b1 :: data => ones_add (le_decode [b0; b1]) (ones_sum data)
  | [b] => u8 b
  | [] => 0
  end.

(** ** The arithmetic of one's complement sums *)

(** The plain sum of the bytes, those in the high half of a word taken 256
    times; [h] says which half comes first. *)
Fixpoint wsum (h : bool) (data : list Z) : Z :=
  match data with
  | [] => 0
  | b :: data => (if h then 256 else 1) * u8 b + wsum (negb h) data
  end.

(** [acc] stands for [w]: the sums the code keeps are equal modulo 65535, and
    zero only together. *)
Record sums (acc w : Z) : Prop := {
  sums_acc : 0 <= acc;
  sums_w : 0 <= w;
  sums_mod : acc mod 65535 = w mod 65535;
  sums_zero : acc = 0 <-> w = 0 }.

Definition canon (w : Z) : Z := if w =? 0 then 0 else (w - 1) mod 65535 + 1.

Lemma wsum_nonneg h data : 0 <= wsum h data.
Proof.
  revert h. induction data as [|b data IH]; intros h; simpl; [done|].
  pose proof (u8_range b). specialize (IH (negb h)). destruct h; lia.
Qed.

Lemma wsum_app h l1 l2 :
  wsum h (l1 ++ l2) = wsum h l1 + wsum (xorb h (Nat.odd (length l1))) l2.
Proof.
  revert h. induction l1 as [|b l1 IH]; intros h; cbn [app wsum length]; [by rewrite xorb_false_r|].
  rewrite IH, Nat.odd_succ, <- Nat.negb_odd. destruct h, (Nat.odd (length l1)); simpl; lia.
Qed.

Lemma wsum_swap h data : (256 * wsum h data) mod 65535 = wsum (negb h) data mod 65535.
Proof.
  revert h. induction data as [|b data IH]; intros h; cbn [wsum]; [done|].
  rewrite Z.mul_add_distr_l, Z.add_mod, IH, <- Z.add_mod by done.
  destruct h; cbn [negb]; [|f_equal; lia].
  replace (256 * (256 * u8 b) + wsum true data) with (1 * u8 b + wsum true data + u8 b * 65535) by lia.
  by rewrite Z.mod_add.
Qed.

Lemma wsum_zero h data : wsum h data = 0 <-> wsum (negb h) data = 0.
Proof.
  revert h. induction data as [|b data IH]; intros h; cbn [wsum]; [done|].
  pose proof (u8_range b). pose proof (wsum_nonneg h data).
  pose proof (wsum_nonneg (negb h) data). specialize (IH h).
  rewrite negb_involutive. destruct h; cbn [negb] in *; lia.
Qed.

Lemma wsum_le h data : wsum h data <= 65535 * ((Z.of_nat (length data) + 1) / 2) /\
  wsum h data <= 65535 * Z.of_nat (length data).
Proof.
  assert (forall n l, (length l <= n)%nat -> forall h,
    wsum h l <= 65535 * ((Z.of_nat (length l) + 1) / 2)) as Hw.
  { clear. induction n as [|n IH]; intros [|b0 [|b1 l]] Hl h; cbn [length wsum] in *; try lia.
    - done.
    - done.
    - pose proof (u8_range b0). destruct h; change ((Z.of_nat 1 + 1) / 2) with 1; lia.
    - pose proof (u8_range b0). pose proof (u8_range b1).
      specialize (IH l ltac:(lia) (negb (negb h))).
      replace (Z.of_nat (S (S (length l))) + 1) with (Z.of_nat (length l) + 1 + 1 * 2) by lia.
      rewrite Z.div_add by done. destruct h; cbn [negb] in *; lia. }
  split; [by eapply Hw|]. transitivity (65535 * ((Z.of_nat (length data) + 1) / 2));
    [by eapply Hw|]. apply Z.mul_le_mono_nonneg_l; [done|].
  destruct data; [done|]. cbn [length]. apply Z.div_le_upper_bound; lia.
Qed.

(** ** What the operations do to a sum *)

Lemma sums_refl w : 0 <= w -> sums w w.
Proof. by split. Qed.

Lemma sums_add a w b v : sums a w -> sums b v -> sums (a + b) (w + v).
Proof.
  intros [Ha Hw Hm Hz] [Hb Hv Hm' Hz']. split; [lia..| |lia].
  by rewrite Z.add_mod, Hm, Hm', <- Z.add_mod.
Qed.

Lemma sums_trans a b w : sums a b -> sums b w -> sums a w.
Proof. intros [????] [????]. split; [done..|congruence|tauto]. Qed.

Lemma sums_sym a b : sums a b -> sums b a.
Proof. intros [????]. by split. Qed.

Lemma sums_canon a w : sums a w -> a <= 65535 -> a = canon w.
Proof.
  intros [Ha Hw Hm Hz] Hle. unfold canon. case (Z.eqb_spec w 0); [tauto|]. intros Hne.
  revert Hm. generalize (Z.div_mod w 65535) (Z.div_mod a 65535). Z.div_mod_to_equations. lia.
Qed.

Lemma canon_sums w : 0 <= w -> sums (canon w) w /\ canon w <= 65535.
Proof.
  intros Hw. unfold canon. destruct (Z.eqb_spec w 0) as [->|Hne]; [by repeat split|].
  pose proof (Z.mod_pos_bound (w - 1) 65535 ltac:(lia)). split; [|lia]. split; [lia..| |lia].
  rewrite Z.add_mod_idemp_l by done. f_equal. lia.
Qed.

Lemma sums_wsum h a data : sums a (256 * wsum h data) -> sums a (wsum (negb h) data).
Proof.
  intros Hs. refine (sums_trans _ _ _ Hs _).
  pose proof (wsum_nonneg h data). pose proof (wsum_nonneg (negb h) data).
  pose proof (wsum_zero h data). split; [lia..|by rewrite wsum_swap|lia].
Qed.

Lemma FOLD_range u : 0 <= u < 4294967296 -> 0 <= FOLD_U32T u <= 131070.
Proof. intros Hu. rewrite FOLD_arith by done. Z.div_mod_to_equations. lia. Qed.

Lemma FOLD_range2 u : 0 <= u <= 131070 -> 0 <= FOLD_U32T u <= 65535.
Proof. intros Hu. rewrite FOLD_arith by lia. Z.div_mod_to_equations. lia. Qed.

Lemma sums_fold a w : sums a w -> a < 4294967296 -> sums (FOLD_U32T a) w.
Proof.
  intros Hs Hlt. refine (sums_trans _ _ _ _ Hs). pose proof (sums_acc _ _ Hs).
  rewrite FOLD_arith by lia. split; Z.div_mod_to_equations; lia.
Qed.

Lemma SWAP_range a : 0 <= SWAP_BYTES_IN_WORD a <= 65535.
Proof. rewrite SWAP_arith. Z.div_mod_to_equations. lia. Qed.

Lemma sums_swap a w : sums a w -> a <= 65535 -> sums (SWAP_BYTES_IN_WORD a) (256 * w).
Proof.
  intros Hs Hle. pose proof (sums_acc _ _ Hs). pose proof (SWAP_range a).
  apply (sums_trans _ (256 * a)).
  - rewrite SWAP_arith in *. split; Z.div_mod_to_equations; lia.
  - destruct Hs as [? ? Hm ?]. split; [lia..| |lia]. by rewrite Z.mul_mod, Hm, <- Z.mul_mod.
Qed.

Lemma sums_ones_add x y : 0 <= x <= 65535 -> 0 <= y <= 65535 ->
  sums (ones_add x y) (x + y) /\ ones_add x y <= 65535.
Proof.
  intros Hx Hy. unfold ones_add. case_match; [split; [apply sums_refl|]; lia|].
  split; [|lia]. split; [lia..| |lia]. replace (x + y) with (x + y - 65535 + 1 * 65535) at 2 by lia.
  by rewrite Z.mod_add.
Qed.

(** Two bytes of the data at a time. *)
Lemma list_pair_ind {A} (P : list A -> Prop) :
  P [] -> (forall b, P [b]) -> (forall b0 b1 l, P l -> P (b0 :: b1 :: l)) -> forall l, P l.
Proof.
  intros H0 H1 H2. fix go 1. intros [|b0 [|b1 l]]; [exact H0|exact (H1 b0)|exact (H2 b0 b1 l (go l))].
Qed.

Lemma le_decode_pair b0 b1 : le_decode [b0; b1] = u8 b0 + 256 * u8 b1.
Proof. cbn [le_decode]. lia. Qed.

Lemma le_decode_pair_range b0 b1 : 0 <= le_decode [b0; b1] <= 65535.
Proof. rewrite le_decode_pair. pose proof (u8_range b0). pose proof (u8_range b1). lia. Qed.

Lemma wsum_pair b0 b1 l : wsum false (b0 :: b1 :: l) = le_decode [b0; b1] + wsum false l.
Proof. rewrite le_decode_pair. cbn [wsum negb]. lia. Qed.

Lemma ones_sum_sums data : sums (ones_sum data) (wsum false data) /\ ones_sum data <= 65535.
Proof.
  induction data as [|b|b0 b1 l [IH IHle]] using list_pair_ind; cbn [ones_sum].
  - split; [by apply sums_refl|done].
  - pose proof (u8_range b). cbn [wsum negb]. split; [|lia].
    replace (1 * u8 b + 0) with (u8 b) by lia. apply sums_refl. lia.
  - rewrite wsum_pair. pose proof (le_decode_pair_range b0 b1).
    destruct (sums_ones_add (le_decode [b0; b1]) (ones_sum l)) as [Hs Hle];
      [lia|split; [apply IH|done]|]. split; [|done].
    apply (sums_trans _ _ _ Hs), sums_add; [|done]. apply sums_refl. lia.
Qed.

(** The only 16-bit number that stands for the sum of the data. *)
Lemma sums_ones_sum a data : sums a (wsum false data) -> a <= 65535 -> a = ones_sum data.
Proof.
  intros Hs Hle. destruct (ones_sum_sums data) as [Hs' Hle'].
  rewrite (sums_canon _ _ Hs Hle). symmetry. by apply sums_canon.
Qed.

(** ** The three versions compute the reference *)

Lemma take_odd_wsum odd data :
  256 * u8 (take_odd odd data).1 + wsum false (take_odd odd data).2 = wsum odd data.
Proof.
  destruct data as [|b data]; [by destruct odd|]. destruct odd; cbn [take_odd fst snd wsum negb].
  - unfold u8 at 1. rewrite Z.mod_small by apply u8_range. lia.
  - change (u8 0) with 0. lia.
Qed.

Lemma take_odd_length odd data : (length (take_odd odd data).2 <= length data)%nat.
Proof. destruct data; [done|]. destruct odd; simpl; lia. Qed.

Lemma take_tail_range ps : 0 <= take_tail ps < 256.
Proof. destruct ps; [done|apply u8_range]. Qed.

Lemma sum_u16_loop_wsum sum ps :
  0 <= sum -> sum + wsum false ps < 4294967296 ->
  sum <= (sum_u16_loop sum ps).1 /\
  (sum_u16_loop sum ps).1 + take_tail (sum_u16_loop sum ps).2 = sum + wsum false ps.
Proof.
  revert sum. induction ps as [|b|b0 b1 l IH] using list_pair_ind; intros sum Hs Hlt.
  - simpl in *. lia.
  - cbn [sum_u16_loop fst snd take_tail wsum]. lia.
  - cbn [sum_u16_loop]. rewrite wsum_pair in *. pose proof (le_decode_pair_range b0 b1).
    pose proof (wsum_nonneg false l). rewrite u32_small by lia.
    destruct (IH (sum + le_decode [b0; b1])); lia.
Qed.

Lemma chksum_end_ones odd sum t0 t1 data :
  0 <= sum -> sum + le_decode [t0; t1] < 4294967296 ->
  sums (sum + le_decode [t0; t1]) (wsum odd data) ->
  chksum_end odd sum t0 t1 = ones_sum data.
Proof.
  intros Hs Hlt Hsum. unfold chksum_end. pose proof (le_decode_pair_range t0 t1).
  rewrite (u32_small (sum + _)) by lia. set (x := sum + _) in *.
  pose proof (FOLD_range x ltac:(lia)) as Hf. pose proof (FOLD_range2 _ Hf) as Hf2.
  assert (sums (FOLD_U32T (FOLD_U32T x)) (wsum odd data)) as Hff.
  { apply sums_fold; [|lia]. by apply sums_fold. }
  destruct odd.
  - pose proof (SWAP_range (FOLD_U32T (FOLD_U32T x))). rewrite u16_small by lia.
    apply sums_ones_sum; [|lia]. apply (sums_wsum true), sums_swap; [done|lia].
  - rewrite u16_small by lia. apply sums_ones_sum; [done|lia].
Qed.

Lemma wsum_small h data : Z.of_nat (length data) <= 131072 -> wsum h data < 4294967296.
Proof. intros Hl. pose proof (wsum_le h data) as [Hw _]. Z.div_mod_to_equations. lia. Qed.

Lemma chksum_2_ones dataptr data :
  Z.of_nat (length data) <= 131072 -> lwip_standard_chksum_2 dataptr data = ones_sum data.
Proof.
  intros Hl. unfold lwip_standard_chksum_2. pose proof (take_odd_wsum (is_odd dataptr) data) as Ht.
  pose proof (wsum_small (is_odd dataptr) data Hl) as Hlt.
  destruct (take_odd (is_odd dataptr) data) as [t1 pb]. cbn [fst snd] in Ht.
  pose proof (u8_range t1). destruct (sum_u16_loop_wsum 0 pb) as [Hle Hps]; [lia..|].
  destruct (sum_u16_loop 0 pb) as [sum ps]. cbn [fst snd] in *. pose proof (take_tail_range ps).
  apply chksum_end_ones; [done|..]; rewrite le_decode_pair, (u8_small (take_tail ps)) by done.
  - lia.
  - replace (sum + _) with (wsum (is_odd dataptr) data) by lia. apply sums_refl, wsum_nonneg.
Qed.

Lemma add_back_carry_sums sum w :
  0 <= sum < 4294967296 -> 0 <= w < 4294967296 ->
  sums (add_back_carry sum w) (sum + w) /\ add_back_carry sum w < 4294967296.
Proof.
  intros Hs Hw. unfold add_back_carry. destruct (Z.ltb_spec (sum + w) 4294967296).
  - rewrite u32_small by lia. case_match; [lia|]. split; [apply sums_refl; lia|lia].
  - assert (u32 (sum + w) = sum + w - 4294967296) as ->.
    { unfold u32. Z.div_mod_to_equations. lia. }
    case_match; [|lia]. rewrite u32_small by lia. split; [|lia].
    split; Z.div_mod_to_equations; lia.
Qed.

Lemma le_decode_quad b0 b1 b2 b3 :
  0 <= le_decode [b0; b1; b2; b3] < 4294967296 /\
  sums (le_decode [b0; b1; b2; b3]) (le_decode [b0; b1] + le_decode [b2; b3]).
Proof.
  pose proof (le_decode_range [b0; b1; b2; b3]) as Hr.
  assert (le_decode [b0; b1; b2; b3] = le_decode [b0; b1] + 65536 * le_decode [b2; b3]) as He
    by (cbn [le_decode]; lia).
  pose proof (le_decode_pair_range b0 b1). pose proof (le_decode_pair_range b2 b3).
  split; [done|]. rewrite He. split; Z.div_mod_to_equations; lia.
Qed.

Lemma sum_u32_loop_sums n sum v pl :
  (length pl <= n)%nat -> 0 <= sum < 4294967296 -> sums sum v ->
  exists v', sums (sum_u32_loop sum pl).1 v' /\ (sum_u32_loop sum pl).1 < 4294967296 /\
    v' + wsum false (sum_u32_loop sum pl).2 = v + wsum false pl /\
    (length (sum_u32_loop sum pl).2 < 8)%nat.
Proof.
  revert sum v pl. induction n as [|n IH]; intros sum v
    [|b0 [|b1 [|b2 [|b3 [|b4 [|b5 [|b6 [|b7 pl]]]]]]]] Hl Hs Hv; cbn [length] in Hl; try lia;
    try (exists v; cbn [sum_u32_loop fst snd length]; split_and!; [done|lia|done|lia]).
  cbn [sum_u32_loop]. destruct (le_decode_quad b0 b1 b2 b3) as [Hr1 Hd1].
  destruct (le_decode_quad b4 b5 b6 b7) as [Hr2 Hd2].
  destruct (add_back_carry_sums sum _ Hs Hr1) as [Ha1 Hlt1].
  pose proof (sums_acc _ _ Ha1).
  destruct (add_back_carry_sums (add_back_carry sum (le_decode [b0; b1; b2; b3])) _
    (conj (sums_acc _ _ Ha1) Hlt1) Hr2) as [Ha2 Hlt2].
  destruct (IH _ (v + (le_decode [b0; b1] + le_decode [b2; b3]) +
    (le_decode [b4; b5] + le_decode [b6; b7])) pl ltac:(lia)
    (conj (sums_acc _ _ Ha2) Hlt2)) as (v' & Hv' & Hlt' & Heq & Hlen).
  - apply (sums_trans _ _ _ Ha2), sums_add; [|done]. apply (sums_trans _ _ _ Ha1).
    by apply sums_add.
  - exists v'. split_and!; [done..| |done]. rewrite Heq, !wsum_pair. lia.
Qed.

(** The word that aligns version 3 to four bytes. *)
Lemma align_word_wsum (aligned : bool) pb :
  let r := match pb with
           | b0 :: b1 :: pb' => if aligned then (0, pb) else (u32 (0 + le_decode [b0; b1]), pb')
           | _ => (0, pb)
           end in
  0 <= r.1 <= 65535 /\ r.1 + wsum false r.2 = wsum false pb.
Proof.
  destruct pb as [|b0 [|b1 pb]]; [done|done|]. destruct aligned; [done|].
  pose proof (le_decode_pair_range b0 b1). cbn [fst snd].
  rewrite wsum_pair, u32_small by lia. lia.
Qed.

Lemma chksum_3_ones dataptr data : lwip_standard_chksum_3 dataptr data = ones_sum data.
Proof.
  unfold lwip_standard_chksum_3. pose proof (take_odd_wsum (is_odd dataptr) data) as Ht.
  destruct (take_odd (is_odd dataptr) data) as [t1 pb]. cbn [fst snd] in Ht.
  set (ps := if _ && _ then _ else _).
  pose proof (align_word_wsum (Z.land ps 3 =? 0) pb) as Ha. cbv zeta in Ha.
  destruct (match pb with b0 :: b1 :: pb' => _ | _ => _ end) as [sum0 pl].
  destruct Ha as [Hr0 Hw0]. cbn [fst snd] in *.
  destruct (sum_u32_loop_sums (length pl) sum0 sum0 pl) as (v & Hv & Hlt & Heq & Hlen);
    [done|lia|apply sums_refl; lia|].
  destruct (sum_u32_loop sum0 pl) as [sum1 rest]. cbn [fst snd] in *.
  pose proof (sums_acc _ _ Hv). pose proof (FOLD_range sum1 ltac:(lia)).
  pose proof (sums_fold _ _ Hv Hlt) as Hf. pose proof (wsum_le false rest) as [_ Hrest].
  pose proof (wsum_nonneg false rest).
  destruct (sum_u16_loop_wsum (FOLD_U32T sum1) rest) as [Hle Hps]; [lia..|].
  destruct (sum_u16_loop (FOLD_U32T sum1) rest) as [sum2 ps']. cbn [fst snd] in *.
  pose proof (take_tail_range ps'). pose proof (u8_range t1).
  apply chksum_end_ones; [lia|..]; rewrite le_decode_pair, (u8_small (take_tail ps')) by done; [lia|].
  replace (sum2 + _) with (256 * u8 t1 + (FOLD_U32T sum1 + wsum false rest)) by lia.
  rewrite <- Ht, <- Hw0, <- Heq. repeat apply sums_add; [|done|]; apply sums_refl; lia.
Qed.

Lemma chksum1_src b0 b1 : Z.lor (u16 (Z.shiftl (u8 b0) 8)) (u8 b1) = 256 * u8 b0 + u8 b1.
Proof.
  pose proof (u8_range b0). pose proof (u8_range b1).
  rewrite u16_small by (rewrite shiftl_8; lia). rewrite lor_add by done. by rewrite shiftl_8.
Qed.

Lemma chksum1_loop_wsum acc data :
  0 <= acc -> acc + wsum true data < 4294967296 ->
  acc <= (chksum1_loop acc data).1 /\
  (chksum1_loop acc data).1 + 256 * take_tail (chksum1_loop acc data).2 = acc + wsum true data.
Proof.
  revert acc. induction data as [|b|b0 b1 l IH] using list_pair_ind; intros acc Hs Hlt.
  - simpl in *. lia.
  - cbn [chksum1_loop fst snd take_tail wsum]. lia.
  - cbn [chksum1_loop wsum negb] in *. rewrite chksum1_src. pose proof (u8_range b0).
    pose proof (u8_range b1). pose proof (wsum_nonneg true l). rewrite u32_small by lia.
    destruct (IH (acc + (256 * u8 b0 + u8 b1))); lia.
Qed.

Lemma chksum_1_ones dataptr data :
  Z.of_nat (length data) <= 131072 -> lwip_standard_chksum_1 dataptr data = ones_sum data.
Proof.
  intros Hl. unfold lwip_standard_chksum_1. pose proof (wsum_small true data Hl) as Hlt.
  destruct (chksum1_loop_wsum 0 data) as [Hle Hsum]; [lia..|].
  destruct (chksum1_loop 0 data) as [acc rest]. cbn [fst snd] in *.
  pose proof (take_tail_range rest).
  assert (match rest with b :: _ => u32 (acc + u16 (Z.shiftl (u8 b) 8)) | [] => acc end
    = wsum true data) as ->.
  { destruct rest as [|b rest]; cbn [take_tail] in *; [lia|]. rewrite shiftl_8.
    rewrite u16_small, u32_small; lia. }
  pose proof (wsum_nonneg true data) as Hn. set (w := wsum true data) in *.
  fold (FOLD_U32T w). pose proof (FOLD_range w ltac:(lia)) as Hf.
  pose proof (FOLD_range2 _ Hf) as Hf2. fold (FOLD_U32T (FOLD_U32T w)).
  set (r := if _ =? 0 then _ else _).
  assert (sums r w /\ r <= 65535) as [Hr Hrle].
  { unfold r. rewrite land_high by lia. destruct (Z.eqb_spec (65536 * (FOLD_U32T w / 65536)) 0).
    - split; [by apply sums_fold; [apply sums_refl|]|]. Z.div_mod_to_equations. lia.
    - split; [|lia]. apply sums_fold; [|lia]. by apply sums_fold; [apply sums_refl|]. }
  pose proof (sums_acc _ _ Hr). rewrite (u16_small r) by lia.
  unfold lwip_htons. rewrite PP_HTONS_swap. pose proof (SWAP_range r).
  apply sums_ones_sum; [|lia]. by apply (sums_wsum true), sums_swap.
Qed.

(** ** Properties *)

(** C29. Whatever the alignment of the data, the three versions of
    [lwip_standard_chksum] the source offers return the same number: the one's
    complement sum of RFC 1071 over the little-endian 16-bit words, a last odd
    byte counting as the low half of a word.  Versions 1 and 2 defer the
    carries to the end and are right up to the length the comment promises,
    [0x20000]; version 3 adds its carries back and has no bound. *)
Theorem lwip_standard_chksum_equiv (dataptr : Z) (data : list Z) :
  lwip_standard_chksum_3 dataptr data = ones_sum data /\
  (Z.of_nat (length data) <= 131072 ->
   lwip_standard_chksum_1 dataptr data = ones_sum data /\
   lwip_standard_chksum_2 dataptr data = ones_sum data).
Proof.
  split; [apply chksum_3_ones|]. intros Hl. split; [by apply chksum_1_ones|by apply chksum_2_ones].
Qed.

Lemma lwip_standard_chksum_equiv_witness :
  lwip_standard_chksum_1 7 [1; 2; 250; 255; 255; 255; 3; 4; 5; 6; 7; 255; 9; 10; 11; 12; 13] = 8493 /\
  lwip_standard_chksum_2 7 [1; 2; 250; 255; 255; 255; 3; 4; 5; 6; 7; 255; 9; 10; 11; 12; 13] = 8493.
Proof.
  destruct (lwip_standard_chksum_equiv 7
    [1; 2; 250; 255; 255; 255; 3; 4; 5; 6; 7; 255; 9; 10; 11; 12; 13]) as [_ H].
  destruct (H ltac:(vm_compute; congruence)) as [H1 H2]. rewrite H1, H2. by vm_compute.
Defined.
