(* ===== verification/ChecksumPbuf.v ===== *)
(** * Checksums of packets ([lwip/src/core/inet_chksum.c])

    The checksum of a chain of segments, alone or with the pseudo header of
    IPv4 and IPv6, sums the segments one by one and swaps the bytes of the sum
    after each segment of odd length.  The properties say that the result is
    the one's complement sum of RFC 1071 over the bytes in the order they are
    sent, whatever the segments. *)
From S2P Require Import Prelude Memory Operation Lwip Pbuf PbufCopy ByteOrder Checksum.

(** ** The code *)

(** [for (q = p; q != NULL; q = q->next)]: [acc] and [swapped]. *)
Fixpoint chksum_chain (m : mem) (q : list pbuf_seg) (acc : Z) (swapped : bool) : Z * bool :=
  match q with
  | [] => (acc, swapped)
  | q :: next =>
      let acc := u32 (acc + LWIP_CHKSUM (sg_payload q) (slice m (sg_payload q) (sg_len q))) in
      let acc := FOLD_U32T acc in
      let '(acc, swapped) :=
        if negb (sg_len q mod 2 =? 0) then (SWAP_BYTES_IN_WORD acc, negb swapped)
        else (acc, swapped) in
      chksum_chain m next acc swapped
  end.

(** The lines after the loop that the two [base] functions share. *)
Definition chksum_pseudo_end (acc : Z) (swapped : bool) (proto proto_len : Z) : Z :=
  let acc := if swapped then SWAP_BYTES_IN_WORD acc else acc in
  let acc := u32 (acc + lwip_htons (u16 proto)) in
  let acc := u32 (acc + lwip_htons proto_len) in
  let acc := FOLD_U32T acc in
  let acc := FOLD_U32T acc in
  not16 (Z.land acc 65535).

Definition inet_cksum_pseudo_base (m : mem) (p : list pbuf_seg) (proto proto_len acc : Z) : Z :=
  let '(acc, swapped) := chksum_chain m p acc false in
  chksum_pseudo_end acc swapped proto proto_len.

(** [acc += addr & 0xffff; acc += (addr >> 16) & 0xffff]. *)
Definition add_halves (acc addr : Z) : Z :=
  let acc := u32 (acc + Z.land addr 65535) in
  u32 (acc + Z.land (Z.shiftr addr 16) 65535).

Definition inet_chksum_pseudo (m : mem) (p : list pbuf_seg) (proto proto_len src dest : Z) : Z :=
  let acc := add_halves 0 src in
  let acc := add_halves acc dest in
  let acc := FOLD_U32T acc in
  let acc := FOLD_U32T acc in
  inet_cksum_pseudo_base m p proto proto_len acc.

(** [ip_addr_t]: the words of the union, in network byte order, and the type.
    The IPv4 address is the first word. *)
Record ip_addr := IpAddr { u_addr : arr Z; ip_type : Z }.
Definition IPADDR_TYPE_V6 : Z := 6.
Definition IP_IS_V6 (ipaddr : ip_addr) : bool := ip_type ipaddr =? IPADDR_TYPE_V6.

(** [for (addr_part = 0; addr_part < 4; addr_part++)]. *)
Definition add_ip6_addrs (src dest : arr Z) : Z :=
  foldl (fun acc part => add_halves (add_halves acc (src part)) (dest part)) 0 [0; 1; 2; 3].

Definition ip6_chksum_pseudo (m : mem) (p : list pbuf_seg) (proto proto_len : Z) (src dest : arr Z) : Z :=
  let acc := add_ip6_addrs src dest in
  let acc := FOLD_U32T acc in
  let acc := FOLD_U32T acc in
  inet_cksum_pseudo_base m p proto proto_len acc.

Definition ip_chksum_pseudo (m : mem) (p : list pbuf_seg) (proto proto_len : Z) (src dest : ip_addr) : Z :=
  if IP_IS_V6 dest then ip6_chksum_pseudo m p proto proto_len (u_addr src) (u_addr dest)
  else inet_chksum_pseudo m p proto proto_len (u_addr src 0) (u_addr dest 0).

(** [for (q = p; (q != NULL) && (chksum_len > 0); q = q->next)]. *)
Fixpoint chksum_chain_partial (m : mem) (q : list pbuf_seg) (chksum_len acc : Z) (swapped : bool)
    : outcome (Z * bool) :=
  match q with
  | [] => Ret (acc, swapped)
  | q :: next =>
      if negb (0 <? chksum_len) then Ret (acc, swapped)
      else
        let chklen := sg_len q in
        let chklen := if chksum_len <? chklen then chksum_len else chklen in
        let acc := u32 (acc + LWIP_CHKSUM (sg_payload q) (slice m (sg_payload q) chklen)) in
        let chksum_len := u16 (chksum_len - chklen) in
        _ ← LWIP_ASSERT (chksum_len <? 32767);
        let acc := FOLD_U32T acc in
        let '(acc, swapped) :=
          if negb (sg_len q mod 2 =? 0) then (SWAP_BYTES_IN_WORD acc, negb swapped)
          else (acc, swapped) in
        chksum_chain_partial m next chksum_len acc swapped
  end.

Definition inet_cksum_pseudo_partial_base (m : mem) (p : list pbuf_seg)
    (proto proto_len chksum_len acc : Z) : outcome Z :=
  '(acc, swapped) ← chksum_chain_partial m p chksum_len acc false;
  Ret (chksum_pseudo_end acc swapped proto proto_len).

Definition inet_chksum_pseudo_partial (m : mem) (p : list pbuf_seg)
    (proto proto_len chksum_len src dest : Z) : outcome Z :=
  let acc := add_halves 0 src in
  let acc := add_halves acc dest in
  let acc := FOLD_U32T acc in
  let acc := FOLD_U32T acc in
  inet_cksum_pseudo_partial_base m p proto proto_len chksum_len acc.

Definition ip6_chksum_pseudo_partial (m : mem) (p : list pbuf_seg)
    (proto proto_len chksum_len : Z) (src dest : arr Z) : outcome Z :=
  let acc := add_ip6_addrs src dest in
  let acc := FOLD_U32T acc in
  let acc := FOLD_U32T acc in
  inet_cksum_pseudo_partial_base m p proto proto_len chksum_len acc.

Definition ip_chksum_pseudo_partial (m : mem) (p : list pbuf_seg)
    (proto proto_len chksum_len : Z) (src dest : ip_addr) : outcome Z :=
  if IP_IS_V6 dest then
    ip6_chksum_pseudo_partial m p proto proto_len chksum_len (u_addr src) (u_addr dest)
  else inet_chksum_pseudo_partial m p proto proto_len chksum_len (u_addr src 0) (u_addr dest 0).

Definition inet_chksum_pbuf (m : mem) (p : list pbuf_seg) : Z :=
  let '(acc, swapped) := chksum_chain m p 0 false in
  let acc := if swapped then SWAP_BYTES_IN_WORD acc else acc in
  not16 (Z.land acc 65535).

(** [lwip_chksum_copy], and its use in [pbuf_fill_chksum] with the pointer
    [chksum] as the value read and the value written. *)
Definition lwip_chksum_copy (m : mem) (dst src len : Z) : Z * mem :=
  let m := memcpy m dst m src len in
  (LWIP_CHKSUM dst (slice m dst len), m).

Definition pbuf_fill_chksum (m : mem) (p : pbuf_seg) (start_offset dataptr len chksum : Z)
    : outcome (Z * Z * mem) :=
  _ ← LWIP_ASSERT (negb (dataptr =? 0));
  _ ← LWIP_ASSERT (negb (len =? 0));
  if (sg_len p <=? start_offset) || (sg_len p <? start_offset + len) then Ret (ERR_ARG, chksum, m)
  else
    let dst_ptr := sg_payload p + start_offset in
    let '(copy_chksum, m) := lwip_chksum_copy m dst_ptr dataptr len in
    let copy_chksum :=
      if negb (Z.land start_offset 1 =? 0) then u16 (SWAP_BYTES_IN_WORD copy_chksum) else copy_chksum in
    let acc := chksum in
    let acc := u32 (acc + copy_chksum) in
    Ret (ERR_OK, u16 (FOLD_U32T acc), m).

(** ** The bytes the pseudo headers stand for *)

(** RFC 793: the addresses, a zero, the protocol and the length. *)
Definition pseudo_header (src dest proto proto_len : Z) : list Z :=
  le_encode 4 src ++ le_encode 4 dest ++ [0; proto; proto_len / 256; proto_len mod 256].

(** RFC 2460: the addresses, the length and the next header, in 32 bits each. *)
Definition ip6_bytes (a : arr Z) : list Z :=
  le_encode 4 (a 0) ++ le_encode 4 (a 1) ++ le_encode 4 (a 2) ++ le_encode 4 (a 3).
Definition pseudo_header6 (src dest : arr Z) (proto proto_len : Z) : list Z :=
  ip6_bytes src ++ ip6_bytes dest ++ [0; 0; proto_len / 256; proto_len mod 256; 0; 0; 0; proto].

(** ** Sums with their bytes swapped *)

Definition scaled (swapped : bool) (w : Z) : Z := if swapped then 256 * w else w.

Lemma sums_scaled_swap s acc w :
  sums acc (scaled s w) -> acc <= 65535 -> sums (SWAP_BYTES_IN_WORD acc) (scaled (negb s) w).
Proof.
  intros Hs Hle. pose proof (sums_swap _ _ Hs Hle) as Hsw. destruct s; cbn [scaled negb] in *; [|done].
  apply (sums_trans _ _ _ Hsw). pose proof (sums_w _ _ Hs).
  split; [lia..| |lia]. replace (256 * (256 * w)) with (w + w * 65535) by lia. by rewrite Z.mod_add.
Qed.

Lemma sums_scaled_wsum s data : sums (wsum false data) (scaled s (wsum s data)).
Proof.
  pose proof (wsum_nonneg s data). destruct s; cbn [scaled]; [|by apply sums_refl].
  apply sums_sym, (sums_wsum true), sums_refl. lia.
Qed.

Lemma scaled_add s w v : scaled s (w + v) = scaled s w + scaled s v.
Proof. destruct s; cbn [scaled]; lia. Qed.

(** One segment of the loops. *)
Lemma chksum_step s acc w dataptr data :
  Z.of_nat (length data) <= 131072 -> sums acc (scaled s w) -> acc <= 65535 ->
  let acc' := FOLD_U32T (u32 (acc + LWIP_CHKSUM dataptr data)) in
  sums acc' (scaled s (w + wsum s data)) /\ acc' <= 65535.
Proof.
  intros Hl Hs Hle acc'. unfold acc', LWIP_CHKSUM. rewrite chksum_2_ones by done.
  destruct (ones_sum_sums data) as [Ho Hole]. pose proof (sums_acc _ _ Ho).
  pose proof (sums_acc _ _ Hs). rewrite u32_small by lia.
  split; [|apply FOLD_range2; lia]. apply sums_fold; [|lia]. rewrite scaled_add.
  apply sums_add; [done|]. apply (sums_trans _ _ _ Ho), sums_scaled_wsum.
Qed.

Lemma odd_length (n : Z) : 0 <= n -> Nat.odd (Z.to_nat n) = negb (n mod 2 =? 0).
Proof.
  intros Hn. pose proof (Zmod_odd n) as Hz. rewrite <- (Z2Nat.id n) in Hz at 2 by done.
  rewrite <- Z.negb_even, <- Nat.negb_even in *. rewrite Hz.
  replace (Z.even (Z.of_nat (Z.to_nat n))) with (Nat.even (Z.to_nat n)); [by destruct (Nat.even _)|].
  destruct (Nat.even (Z.to_nat n)) eqn:He; symmetry.
  - apply Nat.even_spec in He as [k Hk]. apply Z.even_spec. exists (Z.of_nat k). lia.
  - rewrite <- Nat.negb_odd in He. apply negb_false_iff, Nat.odd_spec in He as [k Hk].
    rewrite <- Z.negb_odd. apply negb_false_iff, Z.odd_spec. exists (Z.of_nat k). lia.
Qed.

Lemma chksum_chain_sums m q acc s w :
  chain_wf q -> sums acc (scaled s w) -> acc <= 65535 ->
  sums (chksum_chain m q acc s).1
    (scaled (chksum_chain m q acc s).2 (w + wsum s (chain_bytes m q))) /\
  (chksum_chain m q acc s).1 <= 65535.
Proof.
  revert acc s w. induction q as [|p q IH]; intros acc s w Hwf Hs Hle; cbn [chksum_chain].
  { change (chain_bytes m []) with (@nil Z). cbn [wsum fst snd]. by rewrite Z.add_0_r. }
  pose proof Hwf as (Hpl & _ & _ & _ & Hq)%chain_wf_cons.
  destruct (chksum_step s acc w (sg_payload p) (slice m (sg_payload p) (sg_len p))) as [Hs' Hle'];
    [rewrite length_slice; lia|done|done|].
  set (acc' := FOLD_U32T _) in *.
  rewrite chain_bytes_cons, wsum_app, length_slice, odd_length, Z.add_assoc by lia.
  destruct (negb (sg_len p mod 2 =? 0)); [rewrite xorb_true_r|rewrite xorb_false_r]; apply IH; try done.
  - by apply sums_scaled_swap.
  - apply SWAP_range.
Qed.

Lemma not16_canon acc data :
  sums acc (wsum false data) -> acc <= 65535 -> not16 (Z.land acc 65535) = 65535 - ones_sum data.
Proof.
  intros Hs Hle. pose proof (sums_acc _ _ Hs). rewrite land_65535, Z.mod_small by lia.
  unfold not16. rewrite <- (sums_ones_sum _ _ Hs Hle).
  unfold u16, Z.lnot. replace (Z.pred (- acc)) with (65535 - acc + (-1) * 65536) by lia.
  rewrite Z.mod_add by done. apply Z.mod_small. lia.
Qed.

(** ** The pseudo headers *)

Definition word32 (a : Z) : Prop := 0 <= a < 4294967296.

Lemma wsum_word a : word32 a -> wsum false (le_encode 4 a) = a mod 65536 + a / 65536.
Proof.
  unfold word32. intros Ha. cbn [le_encode wsum negb]. unfold u8. rewrite !Z.mod_mod by done.
  Z.div_mod_to_equations. lia.
Qed.

Lemma wsum_word_range a : word32 a -> 0 <= wsum false (le_encode 4 a) <= 131070.
Proof. intros Ha. rewrite wsum_word by done. unfold word32 in Ha. Z.div_mod_to_equations. lia. Qed.

Lemma add_halves_wsum acc a :
  word32 a -> 0 <= acc < 4294000000 -> add_halves acc a = acc + wsum false (le_encode 4 a).
Proof.
  intros Ha Hacc. pose proof (wsum_word_range a Ha). rewrite wsum_word in * by done. unfold word32 in Ha.
  unfold add_halves. rewrite shiftr_16, !land_65535.
  rewrite (Z.mod_small (a / 65536)) by (Z.div_mod_to_equations; lia).
  rewrite (u32_small (acc + _)) by (Z.div_mod_to_equations; lia). rewrite u32_small; lia.
Qed.

Lemma wsum_word_app a l : wsum false (le_encode 4 a ++ l) = wsum false (le_encode 4 a) + wsum false l.
Proof. by rewrite wsum_app, length_le_encode. Qed.

Lemma chksum_pseudo_end_spec acc s w proto proto_len data :
  sums acc (scaled s w) -> acc <= 65535 -> 0 <= proto < 256 -> 0 <= proto_len < 65536 ->
  wsum false data = w + (256 * proto + (proto_len / 256 + 256 * (proto_len mod 256))) ->
  chksum_pseudo_end acc s proto proto_len = 65535 - ones_sum data.
Proof.
  intros Hs Hle Hp Hl Hd. unfold chksum_pseudo_end.
  set (acc1 := if s then SWAP_BYTES_IN_WORD acc else acc).
  assert (sums acc1 w /\ acc1 <= 65535) as [H1 H1le].
  { unfold acc1. destruct s; [|done]. split; [|apply SWAP_range].
    by apply (sums_scaled_swap true). }
  clearbody acc1. pose proof (sums_acc _ _ H1). rewrite (u16_small proto) by lia.
  rewrite !lwip_htons_arith, (Z.mod_small proto), (Z.div_small proto) by lia.
  rewrite (Z.mod_small (proto_len / 256)) by (Z.div_mod_to_equations; lia).
  pose proof (Z.mod_pos_bound proto_len 256 ltac:(lia)).
  assert (0 <= proto_len / 256 < 256) as Hhi by (Z.div_mod_to_equations; lia).
  rewrite Z.mod_0_l by done. rewrite (u32_small (acc1 + _)), u32_small by lia.
  set (x := acc1 + _ + _).
  assert (sums x (wsum false data)) as Hx.
  { rewrite Hd. replace x with (acc1 + (256 * proto + (proto_len / 256 + 256 * (proto_len mod 256))))
      by (unfold x; lia).
    apply sums_add; [done|]. apply sums_refl. lia. }
  assert (0 <= x < 4294967296) as Hxr by (unfold x; lia). pose proof (FOLD_range x Hxr) as Hf.
  apply not16_canon; [|by apply FOLD_range2]. apply sums_fold; [|lia]. apply sums_fold; [done|lia].
Qed.

(** The sum of the addresses, folded twice. *)
Lemma fold_twice_sums x w : 0 <= x < 4294967296 -> x = w ->
  sums (FOLD_U32T (FOLD_U32T x)) w /\ FOLD_U32T (FOLD_U32T x) <= 65535.
Proof.
  intros Hx <-. pose proof (FOLD_range x Hx) as Hf. split; [|by apply FOLD_range2].
  apply sums_fold; [|lia]. apply sums_fold; [|lia]. apply sums_refl. lia.
Qed.

Lemma add_ip6_addrs_wsum src dest :
  (forall i, 0 <= i < 4 -> word32 (src i) /\ word32 (dest i)) ->
  add_ip6_addrs src dest = wsum false (ip6_bytes src ++ ip6_bytes dest) /\
  0 <= add_ip6_addrs src dest < 4294967296.
Proof.
  intros Hw. destruct (Hw 0), (Hw 1), (Hw 2), (Hw 3); try lia.
  repeat match goal with H : word32 ?a |- _ =>
    lazymatch goal with _ : 0 <= wsum false (le_encode 4 a) <= _ |- _ => fail
    | _ => pose proof (wsum_word_range a H) end end.
  unfold add_ip6_addrs, ip6_bytes. cbn [foldl].
  repeat match goal with |- context [add_halves ?a ?b] =>
    lazymatch a with
    | context [add_halves _ _] => fail
    | _ => rewrite (add_halves_wsum a b) by (done || lia)
    end end.
  rewrite <- !app_assoc, !wsum_word_app. lia.
Qed.

Lemma inet_chksum_pseudo_spec m p proto proto_len src dest :
  chain_wf p -> word32 src -> word32 dest -> 0 <= proto < 256 -> 0 <= proto_len < 65536 ->
  inet_chksum_pseudo m p proto proto_len src dest =
  65535 - ones_sum (pseudo_header src dest proto proto_len ++ chain_bytes m p).
Proof.
  intros Hwf Hs Hd Hp Hl. unfold inet_chksum_pseudo, inet_cksum_pseudo_base.
  pose proof (wsum_word_range src Hs). pose proof (wsum_word_range dest Hd).
  rewrite (add_halves_wsum 0 src), add_halves_wsum, Z.add_0_l by (done || lia).
  set (x := wsum false (le_encode 4 src) + _).
  destruct (fold_twice_sums x x) as [Hx Hxle]; [unfold x; lia|done|].
  destruct (chksum_chain_sums m p _ false x Hwf Hx Hxle) as [Hc Hcle].
  destruct (chksum_chain m p _ false) as [acc swapped]. cbn [fst snd] in *.
  apply (chksum_pseudo_end_spec _ _ _ _ _ _ Hc); [done..|].
  unfold pseudo_header. rewrite <- !app_assoc, !wsum_word_app. cbn [app wsum negb]. unfold x.
  rewrite !u8_small by (Z.div_mod_to_equations; lia). lia.
Qed.

Lemma ip6_chksum_pseudo_spec m p proto proto_len src dest :
  chain_wf p -> (forall i, 0 <= i < 4 -> word32 (src i) /\ word32 (dest i)) ->
  0 <= proto < 256 -> 0 <= proto_len < 65536 ->
  ip6_chksum_pseudo m p proto proto_len src dest =
  65535 - ones_sum (pseudo_header6 src dest proto proto_len ++ chain_bytes m p).
Proof.
  intros Hwf Hw Hp Hl. unfold ip6_chksum_pseudo, inet_cksum_pseudo_base.
  destruct (add_ip6_addrs_wsum src dest Hw) as [Hsum Hr].
  destruct (fold_twice_sums _ _ Hr Hsum) as [Hx Hxle].
  destruct (chksum_chain_sums m p _ false _ Hwf Hx Hxle) as [Hc Hcle].
  destruct (chksum_chain m p _ false) as [acc swapped]. cbn [fst snd] in *.
  apply (chksum_pseudo_end_spec _ _ _ _ _ _ Hc); [done..|].
  unfold pseudo_header6. rewrite <- !app_assoc, (app_assoc (ip6_bytes src)).
  rewrite wsum_app. replace (Nat.odd _) with false by done. cbn [app wsum negb xorb].
  rewrite !u8_small by (Z.div_mod_to_equations; lia). lia.
Qed.

Lemma inet_chksum_pbuf_spec m p :
  chain_wf p -> inet_chksum_pbuf m p = 65535 - ones_sum (chain_bytes m p).
Proof.
  intros Hwf. unfold inet_chksum_pbuf.
  destruct (chksum_chain_sums m p 0 false 0 Hwf) as [Hc Hcle]; [by apply sums_refl|done|].
  destruct (chksum_chain m p 0 false) as [acc swapped]. cbn [fst snd] in *. rewrite Z.add_0_l in Hc.
  destruct swapped; cbn [scaled] in Hc; apply not16_canon; try done.
  - by apply (sums_scaled_swap true).
  - apply SWAP_range.
Qed.

Lemma inet_chksum_spec dataptr data :
  Z.of_nat (length data) <= 131072 -> inet_chksum dataptr data = 65535 - ones_sum data.
Proof.
  intros Hl. unfold inet_chksum, LWIP_CHKSUM. rewrite chksum_2_ones by done.
  destruct (ones_sum_sums data) as [Ho Hole]. pose proof (sums_acc _ _ Ho).
  rewrite <- (not16_canon _ _ Ho Hole), land_65535, Z.mod_small by lia. done.
Qed.

(** ** Part of a packet *)

(** The assertion left in the loop holds after the first segment, and then to
    the end. *)
Definition partial_ok (q : list pbuf_seg) (chksum_len : Z) : Prop :=
  match q with [] => True | p :: _ => chksum_len - Z.min (sg_len p) chksum_len < 32767 end.

Lemma partial_ok_small q n : 0 <= n < 32767 -> chain_wf q -> partial_ok q n.
Proof. intros Hn Hwf. destruct q as [|p q]; [done|]. apply chain_wf_cons in Hwf. cbn [partial_ok]. lia. Qed.

Lemma chksum_chain_partial_sums m q n acc s w :
  chain_wf q -> 0 <= n < 65536 -> sums acc (scaled s w) -> acc <= 65535 -> partial_ok q n ->
  exists acc' s', chksum_chain_partial m q n acc s = Ret (acc', s') /\
    sums acc' (scaled s' (w + wsum s (take (Z.to_nat n) (chain_bytes m q)))) /\ acc' <= 65535.
Proof.
  revert n acc s w. induction q as [|p q IH]; intros n acc s w Hwf Hn Hs Hle Hok;
    cbn [chksum_chain_partial].
  { exists acc, s. change (chain_bytes m []) with (@nil Z). rewrite take_nil. cbn [wsum].
    by rewrite Z.add_0_r. }
  pose proof Hwf as (Hpl & _ & _ & _ & Hq)%chain_wf_cons. cbn [partial_ok] in Hok.
  destruct (Z.ltb_spec 0 n) as [Hpos|Hz]; cbn [negb].
  2: { exists acc, s. replace (Z.to_nat n) with O by lia. rewrite take_0. cbn [wsum].
       by rewrite Z.add_0_r. }
  set (k := if n <? sg_len p then n else sg_len p).
  assert (k = Z.min (sg_len p) n) as Hk by (unfold k; ztests). clearbody k.
  destruct (chksum_step s acc w (sg_payload p) (slice m (sg_payload p) k)) as [Hs' Hle'];
    [rewrite length_slice; lia|done|done|].
  rewrite (u16_small (n - k)), (proj2 (Z.ltb_lt (n - k) 32767)) by lia. cbn [LWIP_ASSERT mbind outcome_bind].
  set (acc' := FOLD_U32T _) in *.
  assert (w + wsum s (take (Z.to_nat n) (chain_bytes m (p :: q))) =
    w + wsum s (slice m (sg_payload p) k) +
    wsum (xorb s (negb (sg_len p mod 2 =? 0))) (take (Z.to_nat (n - k)) (chain_bytes m q))) as ->.
  { rewrite chain_bytes_cons, take_app, take_slice, length_slice, wsum_app, length_slice.
    replace (Z.min (Z.of_nat (Z.to_nat n)) (sg_len p)) with k by lia. rewrite Z.add_assoc.
    replace (Z.to_nat n - Z.to_nat (sg_len p))%nat with (Z.to_nat (n - k)) by lia.
    destruct (Z.leb_spec (sg_len p) n).
    - replace k with (sg_len p) by lia. by rewrite odd_length by lia.
    - replace (Z.to_nat (n - k)) with O by lia. by rewrite !take_0. }
  assert (partial_ok q (n - k)) as Hok' by (apply partial_ok_small; (done || lia)).
  destruct (negb (sg_len p mod 2 =? 0)); [rewrite xorb_true_r|rewrite xorb_false_r];
    apply IH; try (done || lia).
  - by apply sums_scaled_swap.
  - apply SWAP_range.
Qed.

Lemma chksum_chain_partial_abort m p q n acc s :
  0 <= sg_len p -> 0 <= n < 65536 -> ~ partial_ok (p :: q) n ->
  chksum_chain_partial m (p :: q) n acc s = Exited 134.
Proof.
  intros Hp Hn Hno. cbn [partial_ok chksum_chain_partial] in *.
  rewrite (proj2 (Z.ltb_lt 0 n)) by lia. cbn [negb].
  set (k := if n <? sg_len p then n else sg_len p).
  assert (k = Z.min (sg_len p) n) as Hk by (unfold k; ztests). clearbody k.
  by rewrite (u16_small (n - k)), (proj2 (Z.ltb_ge (n - k) 32767)) by lia.
Qed.

Lemma inet_chksum_pseudo_partial_ok m p proto proto_len n src dest :
  chain_wf p -> word32 src -> word32 dest -> 0 <= proto < 256 -> 0 <= proto_len < 65536 ->
  0 <= n < 65536 -> partial_ok p n ->
  inet_chksum_pseudo_partial m p proto proto_len n src dest =
  Ret (65535 - ones_sum (pseudo_header src dest proto proto_len ++
    take (Z.to_nat n) (chain_bytes m p))).
Proof.
  intros Hwf Hs Hd Hp Hl Hn Hok. unfold inet_chksum_pseudo_partial, inet_cksum_pseudo_partial_base.
  pose proof (wsum_word_range src Hs). pose proof (wsum_word_range dest Hd).
  rewrite (add_halves_wsum 0 src), add_halves_wsum, Z.add_0_l by (done || lia).
  set (x := wsum false (le_encode 4 src) + _).
  destruct (fold_twice_sums x x) as [Hx Hxle]; [unfold x; lia|done|].
  destruct (chksum_chain_partial_sums m p n _ false x Hwf Hn Hx Hxle Hok) as (acc & s & -> & Hc & Hcle).
  cbn [mbind outcome_bind]. f_equal. apply (chksum_pseudo_end_spec _ _ _ _ _ _ Hc); [done..|].
  unfold pseudo_header. rewrite <- !app_assoc, !wsum_word_app. cbn [app wsum negb]. unfold x.
  rewrite !u8_small by (Z.div_mod_to_equations; lia). lia.
Qed.

(** ** Copying and summing *)

(** The running checksum of [pbuf_fill_chksum] goes on standing for the bytes
    copied, those at odd offsets counting as high bytes. *)
Lemma pbuf_fill_chksum_spec m p start_offset dataptr len chksum w :
  sums chksum w -> chksum <= 65535 -> dataptr <> 0 -> 0 <= start_offset -> 0 < len ->
  start_offset + len <= sg_len p -> sg_len p < 65536 ->
  exists chksum',
    pbuf_fill_chksum m p start_offset dataptr len chksum =
      Ret (ERR_OK, chksum', memcpy m (sg_payload p + start_offset) m dataptr len) /\
    sums chksum' (w + wsum (is_odd start_offset) (slice m dataptr len)) /\ chksum' <= 65535.
Proof.
  intros Hs Hle Hd Ho Hl Hfit Hsz. unfold pbuf_fill_chksum.
  rewrite (proj2 (Z.eqb_neq dataptr 0)), (proj2 (Z.eqb_neq len 0)) by lia.
  cbn [negb LWIP_ASSERT mbind outcome_bind].
  rewrite (proj2 (Z.leb_gt (sg_len p) start_offset)), (proj2 (Z.ltb_ge (sg_len p) (start_offset + len))) by lia.
  cbn [orb lwip_chksum_copy]. unfold LWIP_CHKSUM. rewrite slice_memcpy_same.
  rewrite chksum_2_ones by (rewrite length_slice; lia). set (data := slice m dataptr len).
  destruct (ones_sum_sums data) as [Hc Hcle]. fold (is_odd start_offset).
  set (c := if is_odd start_offset then _ else _).
  assert (sums c (wsum (is_odd start_offset) data) /\ c <= 65535) as [Hc' Hcle'].
  { unfold c. destruct (is_odd start_offset); [|done]. pose proof (SWAP_range (ones_sum data)).
    rewrite u16_small by lia. split; [|lia]. by apply (sums_wsum false), sums_swap. }
  clearbody c. pose proof (sums_acc _ _ Hc'). pose proof (sums_acc _ _ Hs).
  rewrite u32_small by lia. pose proof (FOLD_range2 (chksum + c) ltac:(lia)).
  rewrite u16_small by lia. eexists. split; [done|]. split; [|lia].
  apply sums_fold; [|lia]. by apply sums_add.
Qed.

(** ** Verification by the receiver *)

Lemma wsum_field pre post x :
  Nat.odd (length pre) = false -> 0 <= x < 65536 ->
  wsum false (pre ++ le_encode 2 x ++ post) = wsum false (pre ++ [0; 0] ++ post) + x.
Proof.
  intros He Hx. rewrite !wsum_app, He. cbn [xorb le_encode wsum negb app length Nat.odd Nat.even].
  unfold u8. rewrite !Z.mod_mod, Z.mod_0_l by done.
  Z.div_mod_to_equations. lia.
Qed.

Lemma ones_sum_verifies pre post :
  Nat.odd (length pre) = false ->
  let c := 65535 - ones_sum (pre ++ [0; 0] ++ post) in
  ones_sum (pre ++ le_encode 2 c ++ post) = 65535.
Proof.
  intros He c. destruct (ones_sum_sums (pre ++ [0; 0] ++ post)) as [[Ha Hw Hm Hz] Hle].
  symmetry. apply sums_ones_sum; [|done]. rewrite wsum_field by (unfold c; (done || lia)).
  set (W := wsum false (pre ++ [0; 0] ++ post)) in *. unfold c. set (o := ones_sum _) in *.
  split; Z.div_mod_to_equations; lia.
Qed.

Lemma ones_sum_detects pre post x y :
  Nat.odd (length pre) = false -> 0 <= x < 65536 -> 0 <= y < 65536 ->
  x <> y -> Z.abs (x - y) <> 65535 ->
  ones_sum (pre ++ le_encode 2 x ++ post) = 65535 ->
  ones_sum (pre ++ le_encode 2 y ++ post) <> 65535.
Proof.
  intros He Hx Hy Hne Habs H1 H2.
  destruct (ones_sum_sums (pre ++ le_encode 2 x ++ post)) as [[_ _ Hm _] _].
  destruct (ones_sum_sums (pre ++ le_encode 2 y ++ post)) as [[_ _ Hm' _] _].
  rewrite H1, wsum_field in Hm by done. rewrite H2, wsum_field in Hm' by done.
  Z.div_mod_to_equations. lia.
Qed.

Lemma pseudo_header_even src dest proto proto_len pre :
  Nat.odd (length pre) = false ->
  Nat.odd (length (pseudo_header src dest proto proto_len ++ pre)) = false.
Proof. intros He. unfold pseudo_header. by rewrite length_app. Qed.

(** ** Properties *)

(** C30. The checksums of packets are those of RFC 1071, 793 and 2460: for
    every way of cutting the packet into segments, at even or odd addresses and
    of even or odd lengths, each function returns the complement of the one's
    complement sum of the bytes, those of the pseudo header first.
    [ip_chksum_pseudo] chooses the header by the type of the destination. *)
Theorem inet_chksum_rfc1071 (m : mem) (p : list pbuf_seg) (proto proto_len : Z) (src dest : ip_addr)
    (Hwf : chain_wf p) (Hp : 0 <= proto < 256) (Hl : 0 <= proto_len < 65536)
    (Hw : forall i, 0 <= i < 4 -> word32 (u_addr src i) /\ word32 (u_addr dest i)) :
  inet_chksum_pbuf m p = 65535 - ones_sum (chain_bytes m p) /\
  ip_chksum_pseudo m p proto proto_len src dest =
    65535 - ones_sum
      ((if IP_IS_V6 dest then pseudo_header6 (u_addr src) (u_addr dest) proto proto_len
        else pseudo_header (u_addr src 0) (u_addr dest 0) proto proto_len) ++ chain_bytes m p).
Proof.
  split; [by apply inet_chksum_pbuf_spec|]. unfold ip_chksum_pseudo.
  destruct (Hw 0 ltac:(lia)). destruct (IP_IS_V6 dest).
  - by apply ip6_chksum_pseudo_spec.
  - by apply inet_chksum_pseudo_spec.
Qed.

(** 10.0.0.1 and 10.0.0.2, in network byte order. *)
Definition example_src : ip_addr := IpAddr (fun i => if i =? 0 then 16777226 else 0) 0.
Definition example_dest : ip_addr := IpAddr (fun i => if i =? 0 then 33554442 else 0) 0.

Lemma inet_chksum_rfc1071_witness :
  ip_chksum_pseudo example_mem [PbufSeg 101 6 3; PbufSeg 200 3 3] 6 6 example_src example_dest =
  65535 - ones_sum [10; 0; 0; 1; 10; 0; 0; 2; 0; 6; 0; 6; 101; 102; 103; 200; 201; 202].
Proof.
  destruct (inet_chksum_rfc1071 example_mem [PbufSeg 101 6 3; PbufSeg 200 3 3] 6 6
    example_src example_dest) as [_ H].
  - cbn. lia.
  - lia.
  - lia.
  - intros i Hi. unfold word32. cbn. destruct (i =? 0); lia.
  - rewrite H. by vm_compute.
Defined.

(** What the sender stores, the receiver accepts, and a damaged word it
    does not.  Let the packet have a zero field of two bytes at an even offset,
    and let the sender put there, as the [u16_t] it is, the checksum computed
    with the pseudo header.  Then the receiver, whatever segments the packet
    arrives in, computes 0; and when one aligned word of the packet arrives
    changed, to a value that does not differ from it by 65535 ([0] for
    [0xffff] or back, which one's complement cannot tell apart), it does not
    compute 0. *)
Theorem inet_chksum_pseudo_verifies (m1 m2 : mem) (p1 p2 : list pbuf_seg)
    (proto proto_len src dest : Z)
    (Hwf1 : chain_wf p1) (Hwf2 : chain_wf p2) (Hs : word32 src) (Hd : word32 dest)
    (Hp : 0 <= proto < 256) (Hl : 0 <= proto_len < 65536) :
  (forall pre post,
     Nat.odd (length pre) = false -> chain_bytes m1 p1 = pre ++ [0; 0] ++ post ->
     chain_bytes m2 p2 =
       pre ++ le_encode 2 (inet_chksum_pseudo m1 p1 proto proto_len src dest) ++ post ->
     inet_chksum_pseudo m2 p2 proto proto_len src dest = 0) /\
  (forall pre post x y,
     Nat.odd (length pre) = false -> 0 <= x < 65536 -> 0 <= y < 65536 ->
     x <> y -> Z.abs (x - y) <> 65535 ->
     chain_bytes m1 p1 = pre ++ le_encode 2 x ++ post ->
     chain_bytes m2 p2 = pre ++ le_encode 2 y ++ post ->
     inet_chksum_pseudo m1 p1 proto proto_len src dest = 0 ->
     inet_chksum_pseudo m2 p2 proto proto_len src dest <> 0).
Proof.
  rewrite !inet_chksum_pseudo_spec by done. set (hdr := pseudo_header src dest proto proto_len).
  assert (forall pre, Nat.odd (length pre) = false -> Nat.odd (length (hdr ++ pre)) = false) as Heven
    by (intros; by apply pseudo_header_even).
  split.
  - intros pre post He -> ->. rewrite (app_assoc hdr pre), (app_assoc hdr pre).
    rewrite ones_sum_verifies by auto. done.
  - intros pre post x y He Hx Hy Hne Habs -> ->. rewrite (app_assoc hdr pre), (app_assoc hdr pre).
    intros H1. assert (ones_sum ((hdr ++ pre) ++ le_encode 2 y ++ post) <> 65535); [|lia].
    apply (ones_sum_detects _ _ x); (auto || lia).
Qed.

Lemma inet_chksum_pseudo_verifies_witness :
  let sent := arr_of_list 0 [1; 2; 0; 0; 9] in
  let c := inet_chksum_pseudo sent [PbufSeg 0 5 5] 6 5 16777226 33554442 in
  let received := arr_of_list 0 ([1; 2] ++ le_encode 2 c ++ [9]) in
  inet_chksum_pseudo received [PbufSeg 0 5 1; PbufSeg 1 4 4] 6 5 16777226 33554442 = 0.
Proof.
  intros sent c received.
  destruct (inet_chksum_pseudo_verifies sent received [PbufSeg 0 5 5] [PbufSeg 0 5 1; PbufSeg 1 4 4]
    6 5 16777226 33554442) as [H _]; try (unfold word32; lia); try (cbn; lia).
  apply (H [1; 2] [9]); [done|by vm_compute|by vm_compute].
Defined.

(** The checksum of the first [chksum_len] bytes (UDP-Lite).  The
    assertion "delete me" left in the loop decides whether there is one: when
    the first segment leaves less than 0x7fff bytes to sum, the function
    returns the checksum of the pseudo header and that prefix of the packet,
    all of the packet when it is shorter; otherwise the process is aborted. *)
Theorem inet_chksum_pseudo_partial_prefix (m : mem) (p : list pbuf_seg)
    (proto proto_len chksum_len src dest : Z)
    (Hwf : chain_wf p) (Hs : word32 src) (Hd : word32 dest)
    (Hp : 0 <= proto < 256) (Hl : 0 <= proto_len < 65536) (Hn : 0 <= chksum_len < 65536) :
  (partial_ok p chksum_len ->
   inet_chksum_pseudo_partial m p proto proto_len chksum_len src dest =
   Ret (65535 - ones_sum (pseudo_header src dest proto proto_len ++
     take (Z.to_nat chksum_len) (chain_bytes m p)))) /\
  (~ partial_ok p chksum_len ->
   inet_chksum_pseudo_partial m p proto proto_len chksum_len src dest = Exited 134).
Proof.
  split; [by apply inet_chksum_pseudo_partial_ok|]. intros Hno. destruct p as [|p q]; [done|].
  unfold inet_chksum_pseudo_partial, inet_cksum_pseudo_partial_base.
  apply chain_wf_cons in Hwf. by rewrite chksum_chain_partial_abort by (done || lia).
Qed.

Lemma inet_chksum_pseudo_partial_prefix_witness :
  inet_chksum_pseudo_partial example_mem [PbufSeg 101 6 3; PbufSeg 200 3 3] 136 6 4 1 2 =
    Ret (65535 - ones_sum [1; 0; 0; 0; 2; 0; 0; 0; 0; 136; 0; 6; 101; 102; 103; 200]) /\
  inet_chksum_pseudo_partial example_mem [PbufSeg 101 40001 1; PbufSeg 200 40000 40000]
    136 40001 40001 1 2 = Exited 134.
Proof.
  split.
  - destruct (inet_chksum_pseudo_partial_prefix example_mem [PbufSeg 101 6 3; PbufSeg 200 3 3]
      136 6 4 1 2) as [H _]; try (unfold word32; lia); try (cbn; lia).
    rewrite H by (cbn; lia). by vm_compute.
  - destruct (inet_chksum_pseudo_partial_prefix example_mem
      [PbufSeg 101 40001 1; PbufSeg 200 40000 40000] 136 40001 40001 1 2) as [_ H];
      try (unfold word32; lia); try (cbn; lia).
    apply H. cbn. lia.
Defined.
