(* ===== verification/Threads.v ===== *)
(** * The threads of the stack process, one shared access at a time

    The main loop, the transmit threads, lwIP's callbacks and the clients run
    at the same time.  Here the main loop and the loop of
    [handle_squeue_change] are cut at each access to what the threads share,
    the counters of a socket, its submission queue, its completion queue and
    the transmit queue, so that the others may run in between.  A call of a
    ring buffer is one access ([RingSpsc] shows why it may be), and so is
    [process_tx_op], which works on what the main thread alone changes and on
    memory of the application.  Run without the others, the cut loops are those
    of [Stack] and [PrioThread]. *)
From Stdlib Require Import FunctionalExtensionality.
From S2P Require Import Prelude RingView RingBuffer ByteBuffer Memory Shmem.
From S2P Require Import Operation PrioRing SocketRegion Lwip Pbuf Stack StackSpec StackExample.
From S2P Require Import StackRecv LinkedList PrioThread Regions Discovery Socket.

(** Equal contents are equal regions. *)
Lemma arr_insert_insert {A} (a : arr A) i x y : <[i := y]> (<[i := x]> a) = <[i := y]> a.
Proof.
  apply functional_extensionality. intros j. destruct (decide (j = i)) as [->|Hne].
  - by rewrite !arr_insert_eq.
  - by rewrite !arr_insert_ne.
Qed.

Section threads.
Context `{LW : Lwip} `{IN : !Indeterminate}.
Implicit Types (st : stack) (l : prio_level) (op : pifus_internal_operation).

(** Where the main thread is: in front of the next iteration, in front of the
    condition of its loop, in front of [process_tx_op], of the scan, of
    [enqueue_in_cqueue], of the counter, and of the removal of [op]. *)
Inductive main_pc :=
  | MainIdle
  | MainLoop (dequeued_operations : Z)
  | MainHandle (tx_op : tx_ptr) (recv_scan : bool) (dequeued_ops : Z)
  | MainScan (dequeued_ops : Z)
  | MainReply op (tx_op : tx_ptr) (recv_scan : bool) (dequeued_ops : Z) (r : pifus_operation_result)
  | MainCredit op (tx_op : tx_ptr) (recv_scan : bool) (dequeued_ops : Z)
  | MainRemove op (tx_op : tx_ptr) (recv_scan : bool) (dequeued_ops : Z).

Definition main_step (pc : main_pc) st : outcome (main_pc * stack) :=
  match pc with
  | MainIdle => Ret (MainLoop 0, st)
  | MainLoop d =>
      if d <? MAX_DEQUEUES_PER_ITERATION then
        let '(tx_op, q) := pifus_priority_aware_ring_buffer_peek (st_tx_queue st) in
        let st := st_set_tx_queue st q in
        match tx_op with
        | None => Ret (MainIdle, st)
        | Some tx_op => Ret (MainHandle tx_op false d, st)
        end
      else Ret (MainIdle, st)
  | MainHandle tx_op recv_scan d =>
      let op := pr_deref (st_tx_queue st) tx_op in
      '(operation_result, st) ← process_tx_op st op;
      if (res_code operation_result =? NOP) && negb recv_scan then
        st ← erase_first_tx st;
        Ret (MainLoop d, st)
      else if res_result_code operation_result =? PIFUS_TRY_AGAIN then
        if MAX_FULL_SND_BUF_ITERATIONS <=? st_full_sndbuf_iterations st then Ret (MainScan d, st)
        else
          Ret (MainIdle,
               st_set_full_sndbuf_iterations st (u8 (st_full_sndbuf_iterations st + 1)))
      else Ret (MainReply op tx_op recv_scan d operation_result, st)
  | MainScan d =>
      recv_op ← fueled (pifus_priority_aware_ring_buffer_find (st_tx_queue st) is_recv_op);
      match recv_op with
      | Some recv_op => Ret (MainHandle recv_op true d, st)
      | None => Ret (MainIdle, st)
      end
  | MainReply op tx_op recv_scan d r =>
      Ret (MainCredit op tx_op recv_scan d,
           if negb (res_result_code r =? PIFUS_ASYNC) then enqueue_in_cqueue st (int_socket op) r
           else st)
  | MainCredit op tx_op recv_scan d =>
      let s := st_sockets st (int_socket op) in
      Ret (MainRemove op tx_op recv_scan d,
           set_socket st (int_socket op) (set_dequeued_ops s (u64 (so_dequeued_ops s + 1))))
  | MainRemove op tx_op recv_scan d =>
      if recv_scan then
        let q := st_tx_queue st in
        Ret (MainLoop d, st_set_tx_queue st (pr_store q tx_op (int_set_code (pr_deref q tx_op) NOP)))
      else
        st ← erase_first_tx (st_set_full_sndbuf_iterations st 0);
        Ret (MainLoop (u8 (d + 1)), st)
  end.

(** Where the transmit thread of a socket is, with [shadow_actual_difference]:
    outside its loop, in front of the condition, of the peek, of the put of
    [op], of the erase, and of the counters. *)
Inductive tx_pc :=
  | TxIdle
  | TxCheck l (diff : Z)
  | TxPeek l (diff : Z)
  | TxPut l (diff : Z) op
  | TxErase l (diff : Z)
  | TxCount l (diff : Z).

Definition tx_start st (socket : Z) l : tx_pc := TxCheck l (squeue_diff st socket).

Definition tx_step (socket : Z) (pc : tx_pc) st : tx_pc * stack :=
  let s := st_sockets st socket in
  match pc with
  | TxIdle => (TxIdle, st)
  | TxCheck l diff =>
      (if (0 <? diff) && negb (has_socket_max_parallel_ops s) then TxPeek l diff else TxIdle, st)
  | TxPeek l diff =>
      (match ring_buffer_peek (so_squeue s) with
       | Some i => TxPut l diff (InternalOp (so_squeue_buffer s i) socket)
       | None => TxIdle
       end, st)
  | TxPut l diff internal_op =>
      let '(ok, q) := pr_put (st_tx_queue st) l internal_op in
      if (ok : bool) then (TxErase l diff, st_set_tx_queue st q) else (TxIdle, st)
  | TxErase l diff =>
      let '(_, squeue) := ring_buffer_erase_first (so_squeue s) in
      (TxCount l diff, set_socket st socket (set_squeue s squeue))
  | TxCount l diff =>
      let id := so_identifier s in
      let st := set_socket_futex st id (u32 (socket_futex st id + 1)) in
      (TxCheck l (u64 (diff - 1)),
       set_socket st socket (set_enqueued_ops s (u64 (so_enqueued_ops s + 1))))
  end.

(** [enqueue_operation] of a client: the put, and the wake-up. *)
Definition client_put st (socket : Z) (op : pifus_operation) : option stack :=
  let s := st_sockets st socket in
  let '(ok, rb, buf) := ring_buffer_put (so_squeue s) (so_squeue_buffer s) op in
  if (ok : bool) then Some (set_socket st socket (set_squeue_buffer (set_squeue s rb) buf)) else None.

Definition client_signal st (socket : Z) : stack :=
  let s := st_sockets st socket in
  set_socket st socket (set_squeue_futex s (u32 (so_squeue_futex s + 1))).

(** ** The cut loops are the loops *)

Definition main_move (x y : main_pc * stack) : Prop := main_step x.1 x.2 = Ret y.
Definition tx_move (socket : Z) (x y : tx_pc * stack) : Prop := tx_step socket x.1 x.2 = y.

Lemma handle_operation_cut fuel st tx_op scan d ok st' d' :
  handle_operation_rec fuel st tx_op scan d = Ret (ok, st', d') ->
  rtc main_move (MainHandle tx_op scan d, st) (if ok then MainLoop d' else MainIdle, st').
Proof.
  revert st tx_op scan. induction fuel as [|fuel IH]; intros st tx_op scan; [done|].
  cbn [handle_operation_rec]. set (op := pr_deref (st_tx_queue st) tx_op).
  destruct (process_tx_op st op) as [[r st1]|?| |] eqn:Hproc; cbn [mbind outcome_bind]; try done.
  destruct (_ && _) eqn:Hnop.
  { destruct (erase_first_tx st1) as [st2|?| |] eqn:He; cbn [mbind outcome_bind]; try done.
    intros [= <- <- <-]. apply rtc_once. unfold main_move. cbn [fst snd main_step]. fold op.
    rewrite Hproc. cbn [mbind outcome_bind]. rewrite Hnop, He. done. }
  destruct (_ =? PIFUS_TRY_AGAIN) eqn:Htry.
  { destruct (_ <=? _) eqn:Hfull.
    - destruct (pifus_priority_aware_ring_buffer_find _ _) as [recv_op|] eqn:Hfind;
        cbn [fueled mbind outcome_bind]; [|done].
      assert (main_move (MainHandle tx_op scan d, st) (MainScan d, st1)) as Hstep.
      { unfold main_move. cbn [fst snd main_step]. fold op. rewrite Hproc. cbn [mbind outcome_bind].
        by rewrite Hnop, Htry, Hfull. }
      destruct recv_op as [p'|]; [intros Hrec|intros [= <- <- <-]].
      + eapply rtc_l; [exact Hstep|]. eapply rtc_l; [|by apply IH].
        unfold main_move. cbn [fst snd main_step]. by rewrite Hfind.
      + eapply rtc_l; [exact Hstep|]. apply rtc_once. unfold main_move. cbn [fst snd main_step]. by rewrite Hfind.
    - intros [= <- <- <-]. apply rtc_once. unfold main_move. cbn [fst snd main_step]. fold op.
      rewrite Hproc. cbn [mbind outcome_bind]. by rewrite Hnop, Htry, Hfull. }
  intros Hend. eapply rtc_l.
  { unfold main_move. cbn [fst snd main_step]. fold op. rewrite Hproc. cbn [mbind outcome_bind].
    rewrite Hnop, Htry. reflexivity. }
  eapply rtc_l; [reflexivity|]. eapply rtc_l; [reflexivity|]. apply rtc_once.
  unfold main_move. cbn [fst snd main_step]. destruct scan.
  - by injection Hend as <- <- <-.
  - destruct (erase_first_tx _) as [st2|?| |] eqn:He; cbn [mbind outcome_bind] in Hend |- *; try done.
    by injection Hend as <- <- <-.
Qed.

Lemma lwip_loop_cut fuel st d st' :
  lwip_loop fuel st d = Ret st' -> rtc main_move (MainLoop d, st) (MainIdle, st').
Proof.
  revert st d. induction fuel as [|fuel IH]; intros st d; [done|]. cbn [lwip_loop].
  destruct (d <? _) eqn:Hd; [|intros [= <-]].
  2: { apply rtc_once. unfold main_move. cbn [fst snd main_step]. by rewrite Hd. }
  destruct (pifus_priority_aware_ring_buffer_peek _) as [[p|] q] eqn:Hpeek; [|intros [= <-]].
  2: { apply rtc_once. unfold main_move. cbn [fst snd main_step]. by rewrite Hd, Hpeek. }
  intros Hrest. eapply rtc_l.
  { unfold main_move. cbn [fst snd main_step]. rewrite Hd, Hpeek. reflexivity. }
  destruct (handle_operation _ p false d) as [[[ok st1] d1]|?| |] eqn:Hh; cbn [mbind outcome_bind] in Hrest; try done.
  etrans; [by eapply handle_operation_cut|]. destruct ok; [by apply IH|].
  by injection Hrest as <-.
Qed.

(** An iteration of the main loop, when no other thread runs. *)
Lemma lwip_loop_iteration_cut st st' :
  lwip_loop_iteration st = Ret st' -> rtc main_move (MainIdle, st) (MainIdle, st').
Proof. intros Ho. eapply rtc_l; [reflexivity|]. by eapply lwip_loop_cut. Qed.

Lemma squeue_loop_cut fuel st p l diff st' :
  squeue_loop fuel st p l diff = Ret st' -> rtc (tx_move p) (TxCheck l diff, st) (TxIdle, st').
Proof.
  revert st diff. induction fuel as [|fuel IH]; intros st diff; [done|]. cbn [squeue_loop].
  destruct (_ && _) eqn:Hcond; [|intros [= <-]].
  2: { apply rtc_once. unfold tx_move. cbn [fst snd tx_step]. by rewrite Hcond. }
  intros Hrest. eapply rtc_l; [unfold tx_move; cbn [fst snd tx_step]; rewrite Hcond; reflexivity|].
  destruct (ring_buffer_peek _) as [i|] eqn:Hpeek; [|injection Hrest as <-].
  2: { apply rtc_once. unfold tx_move. cbn [fst snd tx_step]. by rewrite Hpeek. }
  eapply rtc_l; [unfold tx_move; cbn [fst snd tx_step]; rewrite Hpeek; reflexivity|].
  destruct (pr_put _ l _) as [[] q] eqn:Hput; [|injection Hrest as <-].
  2: { apply rtc_once. unfold tx_move. cbn [fst snd tx_step]. by rewrite Hput. }
  eapply rtc_l; [unfold tx_move; cbn [fst snd tx_step]; rewrite Hput; reflexivity|].
  destruct (ring_buffer_erase_first _) as [ok sq] eqn:Her.
  eapply rtc_l.
  { unfold tx_move. cbn [fst snd tx_step st_sockets st_set_tx_queue]. rewrite Her. reflexivity. }
  eapply rtc_l; [reflexivity|].
  set (st1 := set_socket _ p (set_squeue _ _)). set (s := set_squeue _ _) in *.
  cbn [fst snd tx_step]. assert (st_sockets st1 p = s) as Hs by apply set_socket_eq. rewrite !Hs.
  match goal with |- rtc _ (_, ?x) _ => assert (x = set_socket (set_socket_futex (st_set_tx_queue st q)
    (so_identifier s) (u32 (socket_futex (st_set_tx_queue st q) (so_identifier s) + 1))) p
    (set_enqueued_ops s (u64 (so_enqueued_ops s + 1)))) as -> end.
  { unfold st1, set_socket, st_set_sockets, set_socket_futex, st_set_socket_futexes, socket_futex.
    cbn. by rewrite arr_insert_insert. }
  by apply IH.
Qed.
(** A client's call, when no other thread runs. *)
Lemma enqueue_operation_cut st c p (op : pifus_operation) ok c' :
  cl_regions c p = st_sockets st p -> enqueue_operation c p op = (ok, c') ->
  if ok then exists st1, client_put st p op = Some st1 /\
    st_sockets (client_signal st1 p) p = cl_regions c' p
  else client_put st p op = None /\ c' = c.
Proof.
  unfold enqueue_operation, client_put. intros ->.
  destruct (ring_buffer_put _ _ op) as [[[] rb] buf]; intros [= <- <-]; [|done].
  eexists. split; [done|]. unfold client_signal. rewrite !set_socket_eq.
  unfold cl_set_region. cbn [cl_regions]. by rewrite (arr_insert_eq (cl_regions c)).
Qed.

(** ** All threads together *)

(** The callbacks lwIP may make, with any arguments. *)
Inductive callback_step (st st' : stack) : Prop :=
  | StepErr arg : tcp_err_callback st arg = Ret st' -> callback_step st st'
  | StepConnected arg r : tcp_connected_callback st arg = Ret (r, st') -> callback_step st st'
  | StepAccepted arg newpcb r :
      tcp_accepted_callback st arg newpcb = Ret (r, st') -> callback_step st st'
  | StepSent arg len r : tcp_sent_callback st arg len = Ret (r, st') -> callback_step st st'
  | StepRecv arg tpcb p err r :
      tcp_recv_callback st arg tpcb p err = Ret (r, st') -> callback_step st st'.

(** The shared state, where the main thread is, and where the transmit thread is
    with each socket.  A socket belongs to one thread, which is with one of its
    sockets at a time; here it may be with several. *)
Record system := System { sy_stack : stack; sy_main : main_pc; sy_tx : arr tx_pc }.

(** The operation that is processed for good in a step of the main thread, not
    to be tried again. *)
Definition handled (pc pc' : main_pc) st : list pifus_internal_operation :=
  match pc, pc' with
  | MainHandle tx_op _ _, (MainLoop _ | MainReply _ _ _ _ _) => [pr_deref (st_tx_queue st) tx_op]
  | _, _ => []
  end.

(** A step of one of the threads, with the operations that are submitted and
    handled in it.  A client submits an operation other than the no-op that is
    internal to the stack, takes a result, or writes whatever it likes into the
    region of its application. *)
Inductive system_step (sy : system) :
    list pifus_internal_operation -> list pifus_internal_operation -> system -> Prop :=
  | StepMain pc st' :
      main_step (sy_main sy) (sy_stack sy) = Ret (pc, st') ->
      system_step sy [] (handled (sy_main sy) pc (sy_stack sy)) (System st' pc (sy_tx sy))
  | StepTxStart p l :
      sy_tx sy p = TxIdle ->
      system_step sy [] []
        (System (sy_stack sy) (sy_main sy) (<[p := tx_start (sy_stack sy) p l]> (sy_tx sy)))
  | StepTx p pc st' :
      tx_step p (sy_tx sy p) (sy_stack sy) = (pc, st') ->
      system_step sy [] [] (System st' (sy_main sy) (<[p := pc]> (sy_tx sy)))
  | StepMap d app_index socket_index p :
      system_step sy [] []
        (System (map_socket (sy_stack sy) d app_index socket_index p).1 (sy_main sy) (sy_tx sy))
  | StepCallback st' :
      callback_step (sy_stack sy) st' -> system_step sy [] [] (System st' (sy_main sy) (sy_tx sy))
  | StepPut p (op : pifus_operation) st' :
      op_code op <> NOP -> client_put (sy_stack sy) p op = Some st' ->
      system_step sy [internal p op] [] (System st' (sy_main sy) (sy_tx sy))
  | StepSignal p :
      system_step sy [] [] (System (client_signal (sy_stack sy) p) (sy_main sy) (sy_tx sy))
  | StepTake p got rb :
      let s := st_sockets (sy_stack sy) p in
      ring_buffer_get (so_cqueue s) (so_cqueue_buffer s) = (got, rb) ->
      system_step sy [] []
        (System (set_socket (sy_stack sy) p (set_cqueue s rb)) (sy_main sy) (sy_tx sy))
  | StepWriteRegion i m :
      system_step sy [] [] (System (set_app (sy_stack sy) i m) (sy_main sy) (sy_tx sy)).

Inductive system_run (sy : system) :
    list pifus_internal_operation -> list pifus_internal_operation -> system -> Prop :=
  | RunNone : system_run sy [] [] sy
  | RunStep sub1 srv1 sy1 sub2 srv2 sy2 :
      system_step sy sub1 srv1 sy1 -> system_run sy1 sub2 srv2 sy2 ->
      system_run sy (sub1 ++ sub2) (srv1 ++ srv2) sy2.
End threads.
