(* ===== verification/System.v ===== *)
(** * The invariant of the stack process

    What holds in every state the threads of [Threads] can reach, by induction
    on their steps: the shared state is well formed, the counters of a socket
    give its operations in the transmit queue up to the ones a thread is just
    moving or removing, and the limit of operations in flight is kept. *)
From S2P Require Import Prelude RingView RingBuffer ByteBuffer Memory Shmem.
From S2P Require Import Operation PrioRing SocketRegion Lwip Pbuf Stack StackSpec StackExample.
From S2P Require Import StackRecv LinkedList PrioThread Regions Discovery Socket Threads.

Section system.
Context `{LW : Lwip} `{IN : !Indeterminate}.
Implicit Types (st : stack) (s : pifus_socket).

(** ** Callbacks *)

Lemma tcp_sent_callback_rec_kept fuel st arg len r st' :
  tcp_sent_callback_rec fuel st arg len = Ret (r, st') -> cb_kept st st'.
Proof.
  revert st len. induction fuel as [|fuel IH]; intros st len; [done|]. cbn [tcp_sent_callback_rec].
  destruct arg as [p|]; cbn [deref mbind outcome_bind]; [|done].
  destruct (ring_buffer_peek _) as [i|]; [|done]. destruct (_ <=? len).
  - destruct (ring_buffer_erase_first _) as [ok rb] eqn:Her. intros Ho.
    match type of Ho with (if _ then tcp_sent_callback_rec _ ?x _ _ else _) = _ => set (st1 := x) in Ho end.
    assert (cb_kept st st1) as Hk.
    { etrans; [|apply enqueue_in_cqueue_kept]. apply set_socket_kept; [apply _| |done].
      apply set_write_queue_kept. by eapply ring_moved_erase. }
    destruct (_ <? len); [|by injection Ho as _ <-]. etrans; [exact Hk|]. by eapply IH.
  - intros [= _ <-]. apply set_socket_kept; [apply _|apply set_write_queue_buffer_kept|done].
Qed.

Lemma recv_match_loop_kept fuel st p l empty l' st' :
  recv_match_loop fuel st p l empty = Ret (l', st') -> cb_kept st st'.
Proof.
  revert st l empty. induction fuel as [|fuel IH]; intros st l empty; [done|].
  cbn [recv_match_loop]. set (s := st_sockets st p).
  destruct (ring_buffer_peek _) as [i|]; [|by intros [= _ <-]].
  destruct (_ || _); [|by intros [= _ <-]].
  destruct (st_apps st _) as [app|]; cbn [deref mbind outcome_bind]; [|done].
  destruct (if empty then _ else _) as [[[[need empty'] bb] app'] entry'] eqn:Hpop.
  destruct (recv_copy_loop _ _ _ _ _ _ _ _) as [[l1 app1] entry1].
  set (s1 := set_recv_queue_buffer (set_recv_buffer s bb) _).
  assert (socket_kept s s1) as Hs1.
  { etrans; [|apply set_recv_queue_buffer_kept]. apply set_recv_buffer_kept. intros Hwf.
    destruct empty; [by simplify_eq|].
    destruct (pop_from_buffer _ _ _ _ _) as [[[n bb'] app''] entry''] eqn:Hp.
    assert (bb = bb') as -> by (destruct (0 <? n); by simplify_eq).
    eapply pop_from_buffer_wf; [exact Hp|apply u16_range|done]. }
  assert (forall s2, socket_kept s1 s2 ->
    cb_kept st (set_socket (set_app st (app_index (so_identifier s)) app1) p s2)) as Hset.
  { intros s2 Hs2. etrans; [apply set_app_kept; apply _|].
    apply set_socket_kept; [apply _|by etrans|done]. }
  destruct (negb _).
  - destruct (ring_buffer_erase_first _) as [ok rb] eqn:Her. intros Ho%IH. etrans; [|exact Ho].
    etrans; [|apply enqueue_in_cqueue_kept]. apply Hset, set_recv_queue_kept.
    by eapply ring_moved_erase.
  - intros Ho%IH. etrans; [|exact Ho]. by apply Hset.
Qed.

Lemma recv_buffer_loop_wf q o av ack bb a bb' a' av' ack' :
  recv_buffer_loop q o av ack bb a = (bb', a', av', ack') -> bb_wf bb -> bb_wf bb'.
Proof.
  revert o av ack bb a. induction q as [|p q IH]; intros o av ack bb a; cbn [recv_buffer_loop];
    [by intros [= <- _ _ _]|].
  destruct (0 <? av); [|by intros [= <- _ _ _]].
  intros Ho Hwf.
  destruct (byte_buffer_add_spec bb a (pb_payload p) o (u16 (pb_len p - o)) Hwf (u16_range _))
    as (bb1 & a1 & Heq & Hw & _). rewrite Heq in Ho. destruct (_ <? u16 _); [by injection Ho as <- _ _ _|]. by eapply IH.
Qed.

(** The end of the receive callback. *)
Lemma recv_end_kept st st1 p s1 lw x :
  cb_kept st st1 -> socket_kept (st_sockets st1 p) s1 ->
  cb_kept st (set_socket (st_set_lwip (set_socket st1 p s1) lw) p (set_unread_data_offset s1 x)).
Proof.
  intros Hk Hs. etrans; [exact Hk|].
  etrans; [apply (set_socket_kept _ _ p s1); [apply _|exact Hs|done]|].
  etrans; [apply (set_lwip_kept _ _ lw); apply _|].
  apply set_socket_kept; [apply _| |done]. cbn [st_sockets st_set_lwip set_socket st_set_sockets].
  rewrite arr_insert_eq. apply set_unread_kept.
Qed.

Lemma recv_buffered_kept s l bb a av ack :
  (if 0 <? rl_available l then
     recv_buffer_loop (rl_next_pbuf l) (rl_offset l) (rl_available l) (rl_ackable l)
       (so_recv_buffer s) (so_recv_buffer_array s)
   else (so_recv_buffer s, so_recv_buffer_array s, rl_available l, rl_ackable l)) = (bb, a, av, ack) ->
  socket_kept s (set_recv_buffer_array (set_recv_buffer s bb) a).
Proof.
  intros Hbuf. etrans; [|apply set_recv_buffer_array_kept]. apply set_recv_buffer_kept.
  destruct (0 <? rl_available l); [by eapply recv_buffer_loop_wf|by simplify_eq].
Qed.

Lemma tcp_recv_callback_kept st arg tpcb p err r st' :
  tcp_recv_callback st arg tpcb p err = Ret (r, st') -> cb_kept st st'.
Proof.
  unfold tcp_recv_callback. generalize recv_match_fuel. intros fuel.
  destruct arg as [socket|]; [|by intros [= _ <-]].
  destruct (err =? ERR_OK); [|by intros [= _ <-]]. destruct p as [|p0 p]; [by intros [= _ <-]|].
  destruct (if 0 <? _ then _ else _) as [[av q] o].
  destruct (recv_match_loop _ _ _ _ _) as [[l st1]|?| |] eqn:Hmatch; cbn [mbind outcome_bind]; try done.
  pose proof (recv_match_loop_kept _ _ _ _ _ _ _ Hmatch) as Hk1.
  destruct (if 0 <? rl_available l then _ else _) as [[[bb a] av'] ack] eqn:Hbuf.
  pose proof (recv_buffered_kept _ _ _ _ _ _ Hbuf) as Hs1. clear Hmatch Hbuf.
  destruct (0 <? av'); intros [= _ <-].
  - by apply recv_end_kept.
  - etrans; [|apply set_lwip_kept; apply _]. by apply recv_end_kept.
Qed.

Lemma tcp_sent_callback_kept st arg len r st' :
  tcp_sent_callback st arg len = Ret (r, st') -> cb_kept st st'.
Proof.
  unfold tcp_sent_callback. generalize (Z.to_nat WRITE_QUEUE_SIZE). intros fuel.
  apply tcp_sent_callback_rec_kept.
Qed.

Lemma tcp_connected_callback_kept st arg r st' :
  tcp_connected_callback st arg = Ret (r, st') -> cb_kept st st'.
Proof. destruct arg as [p|]; [|done]. intros [= _ <-]. apply enqueue_in_cqueue_kept. Qed.

Lemma tcp_accepted_callback_kept st arg newpcb r st' :
  tcp_accepted_callback st arg newpcb = Ret (r, st') -> cb_kept st st'.
Proof.
  destruct arg as [p|]; [|done]. intros [= _ <-]. etrans; [|apply enqueue_in_cqueue_kept].
  etrans; [|apply set_lwip_kept; apply _]. apply set_lwip_kept. apply _.
Qed.

Lemma callback_step_kept st st' : callback_step st st' -> cb_kept st st'.
Proof.
  intros [arg Ho|arg r Ho|arg newpcb r Ho|arg len r Ho|arg tpcb p err r Ho].
  - exact (tcp_err_callback_kept _ _ _ Ho).
  - exact (tcp_connected_callback_kept _ _ _ _ Ho).
  - exact (tcp_accepted_callback_kept _ _ _ _ _ Ho).
  - exact (tcp_sent_callback_kept _ _ _ _ _ Ho).
  - exact (tcp_recv_callback_kept _ _ _ _ _ _ _ Ho).
Qed.

(** ** The invariant *)

(** The pointer of the main thread: to the head of the ring it peeked at, or to
    the receive the scan found. *)
Definition pointed (r : prio_ring) (p : tx_ptr) (scan : bool) (op : pifus_internal_operation) : Prop :=
  exists k, pr_at r p k op /\
    if scan then is_recv_op op = true else k = 0%nat /\ last_peek r = Some p.1.

Definition main_ok (r : prio_ring) (pc : main_pc) : Prop :=
  match pc with
  | MainHandle p scan _ => exists op, pointed r p scan op
  | MainReply op p scan _ _ | MainCredit op p scan _ | MainRemove op p scan _ =>
      pointed r p scan op /\ op_code (int_operation op) <> NOP
  | _ => True
  end.

(** The thread puts the first operation of the submission queue, and erases it. *)
Definition tx_ok (p : Z) (sq : list pifus_operation) (pc : tx_pc) : Prop :=
  match pc with
  | TxPut _ _ op => head (internal p <$> sq) = Some op
  | TxErase _ _ => sq <> []
  | _ => True
  end.

(** Counted as dequeued, and still in the transmit queue. *)
Definition credited (q : Z) (pc : main_pc) : nat :=
  match pc with MainRemove op _ _ _ => counts q op | _ => 0 end.

(** In the transmit queue, and not yet counted as enqueued. *)
Definition uncounted (pc : tx_pc) : nat :=
  match pc with TxErase _ _ | TxCount _ _ => 1 | _ => 0 end.

(** Found below the limit, and not yet in the transmit queue. *)
Definition admitted_one (pc : tx_pc) : nat :=
  match pc with TxPeek _ _ | TxPut _ _ _ => 1 | _ => 0 end.

Definition queued (q : Z) st : nat := pending q (pr_all (st_tx_queue st)).

Record system_inv (sy : system) : Prop := SystemInv {
  inv_wf : stack_wf (sy_stack sy);
  inv_main : main_ok (st_tx_queue (sy_stack sy)) (sy_main sy);
  inv_tx : forall p, tx_ok p (sq_list (st_sockets (sy_stack sy) p)) (sy_tx sy p);
  inv_no_nop : forall q, Forall (fun op => op_code op <> NOP) (sq_list (st_sockets (sy_stack sy) q));
  inv_count : forall q, inflight (st_sockets (sy_stack sy) q) =
    u64 (Z.of_nat (queued q (sy_stack sy)) - Z.of_nat (credited q (sy_main sy)) - Z.of_nat (uncounted (sy_tx sy q)));
  inv_limit : forall q, Z.of_nat (queued q (sy_stack sy)) + Z.of_nat (admitted_one (sy_tx sy q)) <=
    TX_MAX_PARALLEL_OPS_PER_SOCKET + Z.of_nat (credited q (sy_main sy)) }.

Lemma pending_perm q ops1 ops2 : ops1 ≡ₚ ops2 -> pending q ops1 = pending q ops2.
Proof. unfold pending. induction 1; cbn [sum_list_with]; lia. Qed.

Lemma pointed_put r l x r' p scan op :
  pr_wf r -> pr_put r l x = (true, r') -> pointed r p scan op -> pointed r' p scan op.
Proof.
  intros Hwf Hput (k & Hat & Hs). destruct (pr_put_at _ _ _ _ _ _ _ Hwf Hput Hat) as [Hat' Hl].
  exists k. rewrite Hl. by split.
Qed.

Lemma main_ok_put r l x r' pc :
  pr_wf r -> pr_put r l x = (true, r') -> main_ok r pc -> main_ok r' pc.
Proof.
  intros Hwf Hput. destruct pc; cbn [main_ok]; try done.
  - intros [op Hp]. exists op. by eapply pointed_put.
  - intros [Hp Hn]. split; [by eapply pointed_put|done].
  - intros [Hp Hn]. split; [by eapply pointed_put|done].
  - intros [Hp Hn]. split; [by eapply pointed_put|done].
Qed.

Lemma pr_at_queued q r p k op : pr_at r p k op -> (counts q op <= pending q (pr_all r))%nat.
Proof.
  intros [_ Hk%list_elem_of_lookup_2]. assert (op ∈ pr_all r) as Hin.
  { unfold pr_all. destruct p as [[] i]; cbn [fst] in Hk; rewrite !elem_of_app; tauto. }
  apply list_elem_of_split in Hin as (l1 & l2 & ->). unfold pending. rewrite sum_list_with_app. simpl. lia.
Qed.

Lemma credited_queued q sy : system_inv sy -> (credited q (sy_main sy) <= queued q (sy_stack sy))%nat.
Proof.
  intros Hinv. pose proof (inv_main _ Hinv) as Hm. destruct (sy_main sy); cbn [credited]; try lia.
  destruct Hm as [(k & Hat & _) _]. by eapply pr_at_queued.
Qed.

(** ** Steps that leave the queues and the counters alone *)

Record frame st st' : Prop := Frame {
  fr_wf : stack_wf st -> stack_wf st';
  fr_tx_queue : st_tx_queue st' = st_tx_queue st;
  fr_squeue : forall q, sq_list (st_sockets st' q) = sq_list (st_sockets st q);
  fr_enqueued : forall q, so_enqueued_ops (st_sockets st' q) = so_enqueued_ops (st_sockets st q);
  fr_dequeued : forall q, so_dequeued_ops (st_sockets st' q) = so_dequeued_ops (st_sockets st q) }.

#[export] Instance frame_preorder : PreOrder frame.
Proof.
  split; [done|]. intros s1 s2 s3 [] []. split; [auto|congruence|..]; intros q; etrans; eauto.
Qed.

Lemma cb_kept_frame st st' : cb_kept st st' -> frame st st'.
Proof.
  intros Hk. split; [by apply cb_kept_wf|..]; destruct Hk as [Hq _ _ _ Hs]; [done|..];
    intros q; destruct (Hs q) as [[] _]; try done.
  unfold sq_list. by rewrite kept_squeue, kept_squeue_buffer.
Qed.

Lemma set_socket_wf st p s : stack_wf st -> socket_wf s -> stack_wf (set_socket st p s).
Proof.
  intros (H1 & H2 & H3) Hs. split_and!; [done..|]. intros q.
  destruct (decide (q = p)) as [->|]; [by rewrite set_socket_eq|by rewrite set_socket_ne].
Qed.

Lemma set_socket_frame st p s :
  (socket_wf (st_sockets st p) -> socket_wf s) ->
  sq_list s = sq_list (st_sockets st p) -> so_enqueued_ops s = so_enqueued_ops (st_sockets st p) ->
  so_dequeued_ops s = so_dequeued_ops (st_sockets st p) -> frame st (set_socket st p s).
Proof.
  intros Hs Hl He Hd. split; [|done|..].
  - intros Hwf. apply set_socket_wf; [done|]. apply Hs, Hwf.
  - intros q. destruct (decide (q = p)) as [->|]; [by rewrite set_socket_eq|by rewrite set_socket_ne].
  - intros q. destruct (decide (q = p)) as [->|]; [by rewrite set_socket_eq|by rewrite set_socket_ne].
  - intros q. destruct (decide (q = p)) as [->|]; [by rewrite set_socket_eq|by rewrite set_socket_ne].
Qed.

Lemma map_socket_frame st d i j p : frame st (map_socket st d i j p).1.
Proof.
  unfold map_socket. destruct (ring_buffer_put _ _ _) as [[ok rb] buf]. cbn [fst].
  set (st1 := st_set_socket_ptrs st (<[i := <[j := Some p]> (st_socket_ptrs st i)]> (st_socket_ptrs st))).
  assert (frame st (set_socket st1 p (init_mapped_socket (st_sockets st1 p) i j))) as Hq.
  { etrans; [by apply (cb_kept_frame st st1), set_socket_ptrs_kept|]. apply set_socket_frame; [|done..].
    by intros (Hsq & _). }
  destruct (_ =? _); [|done]. destruct (so_pcb _); [|done].
  etrans; [exact Hq|]. by apply cb_kept_frame, set_lwip_kept.
Qed.

Lemma system_inv_frame sy st' pc :
  system_inv sy -> frame (sy_stack sy) st' -> main_ok (st_tx_queue st') pc ->
  (forall q, credited q pc = credited q (sy_main sy)) -> system_inv (System st' pc (sy_tx sy)).
Proof.
  intros [Hwf Hm Htx Hnop Hc Hl] [Fw Ft Fs Fe Fd] Hm' Hcr.
  split; cbn [sy_stack sy_main sy_tx]; unfold queued, inflight in *; [auto|done|..]; intros q.
  - by rewrite Fs.
  - by rewrite Fs.
  - by rewrite Fe, Fd, Ft, Hcr.
  - by rewrite Ft, Hcr.
Qed.
(** ** The main thread *)

(** Handled, and still in the transmit queue. *)
Definition in_hand (pc : main_pc) : list pifus_internal_operation :=
  match pc with
  | MainReply op _ _ _ _ | MainCredit op _ _ _ | MainRemove op _ _ _ => [op]
  | _ => []
  end.

(** Handled, and not yet counted. *)
Definition owed (pc : main_pc) : list pifus_internal_operation :=
  match pc with MainReply op _ _ _ _ | MainCredit op _ _ _ => [op] | _ => [] end.

(** What the main thread does to the transmit queue and the counters. *)
Record main_moved pc st pc' st' : Prop := MainMoved {
  mm_wf : stack_wf st';
  mm_ok : main_ok (st_tx_queue st') pc';
  mm_squeue : forall q, sq_list (st_sockets st' q) = sq_list (st_sockets st q);
  mm_enqueued : forall q, so_enqueued_ops (st_sockets st' q) = so_enqueued_ops (st_sockets st q);
  mm_live : live (pr_all (st_tx_queue st)) ++ in_hand pc' ≡ₚ
    live (handled pc pc' st) ++ live (pr_all (st_tx_queue st')) ++ in_hand pc;
  mm_dequeued : forall q, u64 (so_dequeued_ops (st_sockets st' q) + Z.of_nat (pending q (owed pc'))) =
    u64 (so_dequeued_ops (st_sockets st q) + Z.of_nat (pending q (owed pc)) +
      Z.of_nat (pending q (handled pc pc' st)));
  mm_owed : forall q, (pending q (owed pc') <= pending q (owed pc) + pending q (handled pc pc' st))%nat }.

Lemma live_nop op : op_code (int_operation op) = NOP -> live [op] = [].
Proof. intros Hn. unfold live. rewrite filter_cons_False, filter_nil; [done|tauto]. Qed.

Lemma live_one op : op_code (int_operation op) <> NOP -> live [op] = [op].
Proof. intros Hn. unfold live. by rewrite filter_cons_True. Qed.

Lemma pending_nop q op : op_code (int_operation op) = NOP -> pending q [op] = 0%nat.
Proof. intros Hn. unfold pending, counts. cbn [sum_list_with]. rewrite Hn. by rewrite andb_false_r. Qed.

(** A step that changes neither: what is handled is owed. *)
Lemma main_moved_frame pc st pc' st' :
  stack_wf st -> frame st st' -> main_ok (st_tx_queue st') pc' ->
  in_hand pc' ≡ₚ live (handled pc pc' st) ++ in_hand pc ->
  owed pc' ≡ₚ handled pc pc' st ++ owed pc -> main_moved pc st pc' st'.
Proof.
  intros Hwf [Fw Ft Fs Fe Fd] Hok Hin How. pose proof (fun q => pending_perm q _ _ How) as Hp.
  setoid_rewrite pending_app in Hp. split; [auto|done|done|done|..].
  - rewrite Ft, Hin. solve_Permutation.
  - intros q. rewrite Fd, Hp. f_equal. lia.
  - intros q. rewrite Hp. lia.
Qed.

(** The queue of the stack changes, and nothing else does. *)
Lemma erase_first_at st p op :
  stack_wf st -> pointed (st_tx_queue st) p false op ->
  exists q, erase_first_tx st = Ret (st_set_tx_queue st q) /\ stack_wf (st_set_tx_queue st q) /\
    pr_all (st_tx_queue st) ≡ₚ op :: pr_all q.
Proof.
  intros Hwf (k & Hat & -> & Hlast). pose proof Hwf as (Hpr & Hend & _).
  destruct (pr_erase_at _ _ _ Hpr Hat Hlast) as (q & He & Hq & Hall & Hends).
  exists q. unfold erase_first_tx. rewrite He. split_and!; [done| |done].
  apply set_tx_queue_wf; [done..|]. intros l. by rewrite Hends.
Qed.

Lemma main_handle_moved st p scan d pc' st' :
  stack_wf st -> main_ok (st_tx_queue st) (MainHandle p scan d) ->
  main_step (MainHandle p scan d) st = Ret (pc', st') -> main_moved (MainHandle p scan d) st pc' st'.
Proof.
  intros Hwf [op Hp]. assert (pr_deref (st_tx_queue st) p = op) as Hop.
  { destruct Hp as (k & Hat & _). by eapply pr_at_deref; [apply Hwf|]. }
  cbn [main_step]. rewrite Hop.
  destruct (process_tx_op st op) as [[r st1]|?| |] eqn:Hproc; cbn [mbind outcome_bind]; try done.
  destruct (process_tx_op_kept _ _ _ _ Hproc) as [Hkept%tx_kept_cb Hcode].
  pose proof (cb_kept_frame _ _ Hkept) as Hf. pose proof (fr_wf _ _ Hf Hwf) as Hwf1.
  pose proof (fr_tx_queue _ _ Hf) as Hq. rewrite Hcode.
  destruct (_ && negb scan) eqn:Hnop.
  { apply andb_true_iff in Hnop as [Hn Hscan]. apply Z.eqb_eq in Hn. destruct scan; [done|].
    destruct (erase_first_at st1 p op Hwf1) as (q & -> & Hwf2 & Hall); [by rewrite Hq|].
    cbn [mbind outcome_bind]. intros [= <- <-].
    split; cbn [handled in_hand owed main_ok st_tx_queue st_sockets st_set_tx_queue]; rewrite ?Hop.
    - done.
    - done.
    - intros x. apply Hf.
    - intros x. apply Hf.
    - rewrite Hq in Hall. rewrite live_nop, !app_nil_r by done. cbn [app].
      unfold live. rewrite Hall, filter_cons_False; [done|tauto].
    - intros x. rewrite (fr_dequeued _ _ Hf), pending_nop by done. f_equal.
      unfold pending. cbn [sum_list_with]. lia.
    - intros x. cbn. lia. }
  assert (op_code (int_operation op) <> NOP) as Hn.
  { destruct scan; [|by rewrite andb_true_r in Hnop; apply Z.eqb_neq in Hnop].
    destruct Hp as (k & _ & Hrecv). unfold is_recv_op in Hrecv. apply Z.eqb_eq in Hrecv as ->. done. }
  destruct (_ =? PIFUS_TRY_AGAIN).
  - destruct (_ <=? _); intros [= <- <-]; apply main_moved_frame; try done.
    etrans; [exact Hf|]. by split.
  - intros [= <- <-]. apply main_moved_frame; [done|done|..]; cbn [main_ok in_hand owed handled];
      rewrite ?Hop, ?live_one, ?app_nil_r by done; [by rewrite Hq|done|done].
Qed.

Lemma main_remove_moved st op p scan d pc' st' :
  stack_wf st -> main_ok (st_tx_queue st) (MainRemove op p scan d) ->
  main_step (MainRemove op p scan d) st = Ret (pc', st') -> main_moved (MainRemove op p scan d) st pc' st'.
Proof.
  intros Hwf [Hp Hn]. cbn [main_step]. destruct scan.
  - destruct Hp as (k & Hat & Hrecv). pose proof Hwf as (Hpr & Hend & _).
    rewrite (pr_at_deref _ _ _ _ Hpr Hat). destruct Hat as [Hslot Hk].
    pose proof (lookup_lt_Some _ _ _ Hk) as Hlt.
    destruct (pr_store_spec _ p k (int_set_code op NOP) Hpr Hslot Hlt) as (Hwf2 & _ & Hrb & _).
    destruct (pr_all_store _ p k (int_set_code op NOP) Hpr Hslot Hlt) as (j & Hj & Hall).
    rewrite (pr_at_deref _ _ _ _ Hpr (conj Hslot Hk)) in Hj.
    set (r' := pr_store _ p _) in *. clearbody r'. intros [= <- <-].
    split; cbn [handled in_hand owed main_ok st_tx_queue st_sockets st_set_tx_queue]; try done.
    + apply set_tx_queue_wf; [done..|]. intros l. by rewrite Hrb.
    + rewrite Hall, (live_insert_nop _ _ _ Hj Hn), app_nil_r. change (live []) with (@nil pifus_internal_operation).
      cbn [app]. solve_Permutation.
    + intros q. by rewrite !Z.add_0_r.
  - destruct (erase_first_at (st_set_full_sndbuf_iterations st 0) p op) as (q & -> & Hwf2 & Hall);
      [by apply set_full_wf|done|]. cbn [mbind outcome_bind]. intros [= <- <-].
    split; cbn [handled in_hand owed main_ok st_tx_queue st_sockets st_set_tx_queue st_set_full_sndbuf_iterations]; try done.
    + change (st_tx_queue (st_set_full_sndbuf_iterations st 0)) with (st_tx_queue st) in Hall.
      rewrite app_nil_r. unfold live. rewrite Hall, filter_cons_True, filter_nil by done. cbn [app]. solve_Permutation.
    + intros x. by rewrite !Z.add_0_r.
Qed.

Lemma main_credit_moved st op p scan d :
  stack_wf st -> main_ok (st_tx_queue st) (MainCredit op p scan d) ->
  main_moved (MainCredit op p scan d) st (MainRemove op p scan d)
    (set_socket st (int_socket op) (set_dequeued_ops (st_sockets st (int_socket op))
       (u64 (so_dequeued_ops (st_sockets st (int_socket op)) + 1)))).
Proof.
  intros Hwf [Hp Hn]. split; cbn [handled in_hand owed main_ok st_tx_queue].
  - by apply set_dequeued_ops_wf.
  - by split.
  - intros q. destruct (decide (q = int_socket op)) as [->|Hq]; [by rewrite set_socket_eq|by rewrite set_socket_ne].
  - intros q. destruct (decide (q = int_socket op)) as [->|Hq]; [by rewrite set_socket_eq|by rewrite set_socket_ne].
  - done.
  - intros q. unfold pending. cbn [sum_list_with]. rewrite counts_one by done. case_decide as Hq.
    + subst q. rewrite set_socket_eq. cbn [so_dequeued_ops set_dequeued_ops]. rewrite u64_add_l.
      f_equal; lia.
    + rewrite set_socket_ne by done. f_equal; lia.
  - intros q. cbn. lia.
Qed.

Lemma main_step_moved st pc pc' st' :
  stack_wf st -> main_ok (st_tx_queue st) pc -> main_step pc st = Ret (pc', st') ->
  main_moved pc st pc' st'.
Proof.
  intros Hwf Hok Hs. destruct pc as [|d|p scan d|d|op p scan d r|op p scan d|op p scan d].
  - injection Hs as <- <-. by apply main_moved_frame.
  - cbn [main_step] in Hs. pose proof (peek_spec st Hwf) as Hpeek.
    destruct (pifus_priority_aware_ring_buffer_peek (st_tx_queue st)) as [o q] eqn:Hq. cbv zeta in Hpeek, Hs.
    destruct Hpeek as (Hwf1 & (_ & Hall & _) & _). simpl in Hall.
    assert (main_ok q (match o with Some p => MainHandle p false d | None => MainIdle end)) as Hok'.
    { destruct o as [p|]; [|done]. destruct (pr_peek_at _ _ _ (proj1 Hwf) Hq) as [Hat Hl].
      exists (pr_deref (st_tx_queue st) p), 0%nat. by split. }
    destruct (d <? _); [|injection Hs as <- <-; by apply main_moved_frame].
    assert (pc' = (match o with Some p => MainHandle p false d | None => MainIdle end) /\
      st' = st_set_tx_queue st q) as [-> ->] by (destruct o; by injection Hs as <- <-).
    split; [done|done|done|done|..]; destruct o; cbn [handled in_hand owed st_tx_queue st_set_tx_queue].
    + by rewrite Hall, !app_nil_r.
    + by rewrite Hall, !app_nil_r.
    + intros x. cbn. by rewrite !Z.add_0_r.
    + intros x. cbn. by rewrite !Z.add_0_r.
    + done.
    + done.
  - by apply main_handle_moved.
  - cbn [main_step] in Hs. destruct (pr_find_spec _ is_recv_op (proj1 Hwf)) as (o & Ho & Hhead & Hpos).
    rewrite Ho in Hs. cbn [fueled mbind outcome_bind] in Hs.
    destruct o as [p|]; injection Hs as <- <-; [|by apply main_moved_frame].
    destruct (Hpos p eq_refl) as (k & Hslot & Hk). apply main_moved_frame; try done.
    exists (pr_deref (st_tx_queue st) p), k. split; [by apply pr_at_of_slot; [apply Hwf|..]|].
    cbn in Hhead. assert (pr_deref (st_tx_queue st) p ∈ filter is_recv_op (pr_all (st_tx_queue st))) as Hin
      by (destruct (filter _ _); simplify_eq/=; left).
    apply list_elem_of_filter in Hin as [Hr _]. by apply Is_true_true.
  - cbn [main_step] in Hs. injection Hs as <- <-. destruct (negb _); [|by apply main_moved_frame].
    pose proof (cb_kept_frame _ _ (enqueue_in_cqueue_kept st (int_socket op) r)) as Hf.
    apply main_moved_frame; [done|done| |done..]. by rewrite (fr_tx_queue _ _ Hf).
  - injection Hs as <- <-. by apply main_credit_moved.
  - by apply main_remove_moved.
Qed.
(** ** A transmit thread *)

(** What the socket has submitted and is not in the transmit queue. *)
Definition waiting (sq : list pifus_operation) (pc : tx_pc) : list pifus_operation :=
  match pc with TxErase _ _ => tail sq | _ => sq end.

(** [moved] goes into the transmit queue. *)
Record tx_moved p pc st (moved : list pifus_internal_operation) pc' st' : Prop := TxMoved {
  tm_wf : stack_wf st';
  tm_main : forall mpc, main_ok (st_tx_queue st) mpc -> main_ok (st_tx_queue st') mpc;
  tm_queue : pr_all (st_tx_queue st') ≡ₚ moved ++ pr_all (st_tx_queue st);
  tm_dequeued : forall q, so_dequeued_ops (st_sockets st' q) = so_dequeued_ops (st_sockets st q);
  tm_others : forall q, q <> p -> st_sockets st' q = st_sockets st q;
  tm_squeue : exists n, sq_list (st_sockets st' p) = drop n (sq_list (st_sockets st p));
  tm_waiting : internal p <$> waiting (sq_list (st_sockets st p)) pc =
    moved ++ (internal p <$> waiting (sq_list (st_sockets st' p)) pc');
  tm_enqueued : u64 (so_enqueued_ops (st_sockets st' p) + Z.of_nat (uncounted pc')) =
    u64 (so_enqueued_ops (st_sockets st p) + Z.of_nat (uncounted pc) + Z.of_nat (length moved));
  tm_ok : tx_ok p (sq_list (st_sockets st' p)) pc';
  tm_limit : (length moved + admitted_one pc' <= admitted_one pc)%nat \/
    (moved = [] /\ admitted_one pc' = 1%nat /\ uncounted pc = 0%nat /\ st' = st /\
     inflight (st_sockets st p) < TX_MAX_PARALLEL_OPS_PER_SOCKET) }.

(** The thread only looks. *)
Lemma tx_moved_still p pc st pc' :
  stack_wf st -> uncounted pc = 0%nat -> uncounted pc' = 0%nat ->
  tx_ok p (sq_list (st_sockets st p)) pc' ->
  (admitted_one pc' <= admitted_one pc)%nat \/
    (admitted_one pc' = 1%nat /\ inflight (st_sockets st p) < TX_MAX_PARALLEL_OPS_PER_SOCKET) ->
  tx_moved p pc st [] pc' st.
Proof.
  intros Hwf Hu Hu' Hok Hl. split; try done.
  - by exists 0%nat.
  - cbn [app]. by destruct pc, pc'.
  - rewrite Hu, Hu'. f_equal. cbn. lia.
  - destruct Hl as [Hl|[Ha Hl]]; [by left|by right].
Qed.

Lemma tx_put_moved p l diff op st q :
  stack_wf st -> tx_ok p (sq_list (st_sockets st p)) (TxPut l diff op) ->
  pr_put (st_tx_queue st) l op = (true, q) ->
  tx_moved p (TxPut l diff op) st [op] (TxErase l diff) (st_set_tx_queue st q).
Proof.
  intros (Hpr & Hend & Hs) Hop Hput. destruct (pr_put_all _ _ _ _ Hpr Hput) as (Hwf & Hall & Hends).
  split; cbn [st_tx_queue st_sockets st_set_tx_queue uncounted admitted_one tx_ok waiting]; try done.
  - split_and!; [done| |done]. intros l'. cbn. by rewrite Hends.
  - intros mpc. by eapply main_ok_put.
  - by exists 0%nat.
  - cbn [tx_ok] in Hop. destruct (sq_list _) as [|x sq]; [done|]. injection Hop as <-. done.
  - f_equal. cbn. lia.
  - by destruct (sq_list _).
  - by left.
Qed.

Lemma tx_erase_moved p l diff st pc' st' :
  stack_wf st -> tx_step p (TxErase l diff) st = (pc', st') -> tx_moved p (TxErase l diff) st [] pc' st'.
Proof.
  intros Hwf. cbn [tx_step]. pose proof (proj2 (proj2 Hwf) p) as Hsw.
  pose proof (ring_buffer_erase_first_spec _ (so_squeue_buffer (st_sockets st p)) (proj1 Hsw)) as Her.
  destruct (ring_buffer_erase_first _) as [ok sq]. destruct Her as (Hsq & _ & _ & _ & Hc).
  intros [= <- <-]. split; cbn [st_tx_queue set_socket st_set_sockets uncounted admitted_one waiting]; try done.
  - apply set_socket_wf; [done|]. destruct Hsw as [_ Hsw]. by split.
  - intros q. destruct (decide (q = p)) as [->|Hq]; [by rewrite set_socket_eq|by rewrite set_socket_ne].
  - intros q Hq. by rewrite set_socket_ne.
  - exists 1%nat. rewrite set_socket_eq. unfold sq_list at 1. cbn. rewrite Hc. by destruct (rb_contents _ _).
  - rewrite set_socket_eq. unfold sq_list. cbn. by rewrite Hc.
  - rewrite set_socket_eq. cbn. f_equal; lia.
  - by left.
Qed.

Lemma tx_count_moved p l diff st pc' st' :
  stack_wf st -> tx_step p (TxCount l diff) st = (pc', st') -> tx_moved p (TxCount l diff) st [] pc' st'.
Proof.
  intros Hwf [= <- <-]. split; cbn [st_tx_queue set_socket st_set_sockets uncounted admitted_one waiting app length]; try done.
  - by apply (set_socket_wf (set_socket_futex st _ _)); [|apply Hwf].
  - intros q. destruct (decide (q = p)) as [->|Hq]; [by rewrite set_socket_eq|by rewrite set_socket_ne].
  - intros q Hq. by rewrite set_socket_ne.
  - exists 0%nat. by rewrite set_socket_eq.
  - by rewrite set_socket_eq.
  - rewrite set_socket_eq. cbn [so_enqueued_ops set_enqueued_ops]. rewrite u64_add_l. f_equal; lia.
  - by left.
Qed.

Lemma tx_step_moved p pc st pc' st' :
  stack_wf st -> tx_ok p (sq_list (st_sockets st p)) pc -> tx_step p pc st = (pc', st') ->
  exists moved, tx_moved p pc st moved pc' st'.
Proof.
  intros Hwf Hok Hs. destruct pc as [|l diff|l diff|l diff op|l diff|l diff].
  - injection Hs as <- <-. exists []. apply tx_moved_still; try done. by left.
  - exists []. cbn [tx_step] in Hs. injection Hs as <- <-.
    destruct (_ && _) eqn:Hc; apply tx_moved_still; try done; [|by left]. right. split; [done|].
    apply andb_true_iff in Hc as [_ Hc]. unfold has_socket_max_parallel_ops in Hc. unfold inflight.
    destruct (Z.leb_spec TX_MAX_PARALLEL_OPS_PER_SOCKET (u64 (so_enqueued_ops (st_sockets st p) - so_dequeued_ops (st_sockets st p)))); [done|lia].
  - exists []. cbn [tx_step] in Hs.
    destruct (ring_buffer_peek _) as [i|] eqn:Hp; injection Hs as <- <-; apply tx_moved_still; try done;
      [|by left|left; cbn; lia].
    destruct (ring_buffer_peek_some _ (so_squeue_buffer (st_sockets st p)) i
      (proj1 (proj2 (proj2 Hwf) p)) Hp) as [_ Hhd]. cbn [tx_ok]. unfold sq_list. by rewrite Hhd.
  - cbn [tx_step] in Hs. destruct (pr_put _ l op) as [[] q] eqn:Hput; injection Hs as <- <-.
    + exists [op]. by apply tx_put_moved.
    + exists []. apply tx_moved_still; try done. left. cbn. lia.
  - exists []. by eapply tx_erase_moved.
  - exists []. by eapply tx_count_moved.
Qed.

(** What it puts is what the socket submitted. *)
Lemma tx_moved_internal p pc st moved pc' st' :
  tx_moved p pc st moved pc' st' ->
  Forall (fun op => op_code op <> NOP) (sq_list (st_sockets st p)) ->
  exists ops, moved = internal p <$> ops /\ Forall (fun op => op_code op <> NOP) ops.
Proof.
  intros Hm Hf. exists (take (length moved) (waiting (sq_list (st_sockets st p)) pc)).
  split; [by rewrite fmap_take, (tm_waiting _ _ _ _ _ _ Hm), take_app_length|]. apply Forall_take.
  destruct pc; cbn [waiting]; try done. by destruct Hf.
Qed.

Lemma waiting_app p sq pc op : tx_ok p sq pc -> waiting (sq ++ [op]) pc = waiting sq pc ++ [op].
Proof. destruct pc; cbn [tx_ok waiting]; try done. by destruct sq. Qed.

(** A client puts behind what it submitted before. *)
Lemma client_put_spec st p (op : pifus_operation) st' :
  stack_wf st -> client_put st p op = Some st' ->
  stack_wf st' /\ st_tx_queue st' = st_tx_queue st /\
  sq_list (st_sockets st' p) = sq_list (st_sockets st p) ++ [op] /\
  (forall q, q <> p -> st_sockets st' q = st_sockets st q) /\
  (forall q, so_enqueued_ops (st_sockets st' q) = so_enqueued_ops (st_sockets st q)) /\
  (forall q, so_dequeued_ops (st_sockets st' q) = so_dequeued_ops (st_sockets st q)).
Proof.
  intros Hwf. unfold client_put. pose proof (proj2 (proj2 Hwf) p) as [Hsq Hsw].
  destruct (ring_buffer_put _ _ op) as [[[] rb] buf] eqn:Hput; [|done]. intros [= <-].
  destruct (ring_moved_put _ _ _ _ _ _ Hput Hsq) as [Hrb _].
  assert (rb_free (so_squeue (st_sockets st p)) <> 0) as Hroom.
  { intros Hz. by rewrite (ring_buffer_put_full _ _ _ Hsq Hz) in Hput. }
  destruct (ring_buffer_put_ok (so_squeue (st_sockets st p)) (so_squeue_buffer (st_sockets st p)) op Hsq)
    as (Hok & _ & _ & Hl); [pose proof (rb_free_bounds _ Hsq); lia|].
  rewrite Hput in Hok. injection Hok as -> ->. split_and!.
  - apply set_socket_wf; [done|]. by split.
  - done.
  - rewrite set_socket_eq. exact Hl.
  - intros q Hq. by rewrite set_socket_ne.
  - intros q. destruct (decide (q = p)) as [->|Hq]; [by rewrite set_socket_eq|by rewrite set_socket_ne].
  - intros q. destruct (decide (q = p)) as [->|Hq]; [by rewrite set_socket_eq|by rewrite set_socket_ne].
Qed.
(** ** Every step *)

Lemma u64_eq x y : u64 x = u64 y <-> exists k, x = y + k * 18446744073709551616.
Proof.
  unfold u64. split.
  - intros He. exists (x / 18446744073709551616 - y / 18446744073709551616).
    pose proof (Z.div_mod x 18446744073709551616). pose proof (Z.div_mod y 18446744073709551616). lia.
  - intros [k ->]. by rewrite Z.mod_add.
Qed.

Lemma pending_live q ops : pending q (live ops) = pending q ops.
Proof.
  induction ops as [|op ops IH]; [done|]. rewrite live_cons, pending_app, IH. clear IH.
  unfold pending at 3. cbn [sum_list_with]. fold (pending q ops). f_equal.
  destruct (decide (op_code (int_operation op) = NOP)) as [Hn|Hn].
  - rewrite live_nop by done. unfold counts. rewrite Hn. by rewrite andb_false_r.
  - rewrite live_one by done. cbn. lia.
Qed.

Lemma in_hand_split q r pc :
  main_ok r pc -> pending q (in_hand pc) = (pending q (owed pc) + credited q pc)%nat.
Proof. destruct pc; cbn; lia. Qed.

Lemma main_inv sy pc' st' :
  system_inv sy -> main_step (sy_main sy) (sy_stack sy) = Ret (pc', st') ->
  system_inv (System st' pc' (sy_tx sy)).
Proof.
  intros [Hwf Hok Htx Hnop Hc Hl] Hs.
  destruct (main_step_moved _ _ _ _ Hwf Hok Hs) as [Hwf' Hok' Hsq He Hlive Hd Ho].
  assert (forall q, (queued q (sy_stack sy) + (pending q (owed pc') + credited q pc') =
    pending q (handled (sy_main sy) pc' (sy_stack sy)) + (queued q st' + (pending q (owed (sy_main sy)) + credited q (sy_main sy))))%nat)
    as Hq.
  { intros q. pose proof (pending_perm q _ _ Hlive) as Hp. rewrite !pending_app, !pending_live in Hp.
    rewrite (in_hand_split q _ _ Hok), (in_hand_split q _ _ Hok') in Hp. exact Hp. }
  split; cbn [sy_stack sy_main sy_tx]; [done|done|..]; intros q.
  - rewrite Hsq. apply Htx.
  - rewrite Hsq. apply Hnop.
  - specialize (Hq q). specialize (Hd q). specialize (Hc q). unfold inflight in *.
    apply u64_eq in Hd as [k1 Hd]. apply u64_eq in Hc as [k2 Hc]. rewrite He. apply u64_eq.
    exists (k2 - k1). lia.
  - specialize (Hq q). specialize (Ho q). specialize (Hl q). lia.
Qed.

Lemma tx_inv sy p pc' st' :
  system_inv sy -> tx_step p (sy_tx sy p) (sy_stack sy) = (pc', st') ->
  system_inv (System st' (sy_main sy) (<[p := pc']> (sy_tx sy))).
Proof.
  intros Hinv Hs. pose proof (credited_queued p sy Hinv) as Hcr. destruct Hinv as [Hwf Hok Htx Hnop Hc Hl].
  destruct (tx_step_moved _ _ _ _ _ Hwf (Htx p) Hs) as (moved & Hm). pose proof Hm as [Tw Tm Tq Td To (n & Ts) _ Te Tok Tl].
  assert (forall q, pending q moved = if decide (q = p) then length moved else 0%nat) as Hmoved.
  { intros q. destruct (tx_moved_internal _ _ _ _ _ _ Hm (Hnop p)) as (ops & -> & Hf). rewrite pending_internal by done. by rewrite length_fmap. }
  assert (forall q, queued q st' = (queued q (sy_stack sy) + if decide (q = p) then length moved else 0)%nat) as Hq.
  { intros q. unfold queued. rewrite (pending_perm q _ _ Tq), pending_app, Hmoved. lia. }
  split; cbn [sy_stack sy_main sy_tx]; [done|by apply Tm|..]; intros q;
    pose proof (Hq p) as Hqp; pose proof (Hq q) as Hqq; rewrite decide_True in Hqp by done;
    (destruct (decide (q = p)) as [->|Hne];
     [rewrite ?arr_insert_eq|rewrite ?arr_insert_ne by done]).
  - exact Tok.
  - rewrite To by done. apply Htx.
  - rewrite Ts. apply Forall_drop, Hnop.
  - rewrite To by done. apply Hnop.
  - specialize (Hc p). specialize (Td p). unfold inflight in *. rewrite Td.
    apply u64_eq in Te as [k1 Te]. apply u64_eq in Hc as [k2 Hc]. apply u64_eq. exists (k2 + k1). lia.
  - rewrite To by done. rewrite Hc, Hqq. f_equal. lia.
  - specialize (Hl p). destruct Tl as [Tl|(-> & Ha & Hu & -> & Hlt)]; [lia|].
    rewrite Hc, Hu, u64_small in Hlt by (unfold TX_MAX_PARALLEL_OPS_PER_SOCKET in *; lia). rewrite Ha. lia.
  - specialize (Hl q). lia.
Qed.

Lemma client_put_inv sy p (op : pifus_operation) st' :
  system_inv sy -> op_code op <> NOP -> client_put (sy_stack sy) p op = Some st' ->
  system_inv (System st' (sy_main sy) (sy_tx sy)).
Proof.
  intros [Hwf Hok Htx Hnop Hc Hl] Hop Hput.
  destruct (client_put_spec _ _ _ _ Hwf Hput) as (Hwf' & Hq & Hsq & Ho & He & Hd).
  split; cbn [sy_stack sy_main sy_tx]; unfold queued, inflight in *; [done|by rewrite Hq|..]; intros q.
  - destruct (decide (q = p)) as [->|Hne]; [|rewrite Ho by done; apply Htx]. rewrite Hsq.
    specialize (Htx p). destruct (sy_tx sy p); cbn [tx_ok] in *; try done.
    + rewrite fmap_app. by destruct (internal p <$> sq_list _).
    + by destruct (sq_list _).
  - destruct (decide (q = p)) as [->|Hne]; [|rewrite Ho by done; apply Hnop]. rewrite Hsq.
    apply Forall_app_2; [apply Hnop|by apply Forall_singleton].
  - rewrite He, Hd, Hq. apply Hc.
  - rewrite Hq. apply Hl.
Qed.

Lemma system_step_inv sy sub srv sy' : system_step sy sub srv sy' -> system_inv sy -> system_inv sy'.
Proof.
  intros Hstep Hinv.
  destruct Hstep as [pc st' Hs|p l Hi|p pc st' Hs|d i j p|st' Hcb|p op st' Hop Hput|p|p got rb s Hget|i m].
  - by apply main_inv.
  - destruct Hinv as [Hwf Hok Htx Hnop Hc Hl].
    split; cbn [sy_stack sy_main sy_tx]; [done|done|..]; intros q; [|apply Hnop|..];
      (destruct (decide (q = p)) as [->|Hne]; [rewrite arr_insert_eq|rewrite arr_insert_ne by done]); try done.
    + rewrite Hc, Hi. done.
    + specialize (Hl p). by rewrite Hi in Hl.
  - by apply tx_inv.
  - apply system_inv_frame; [done|apply map_socket_frame| |done].
    rewrite (fr_tx_queue _ _ (map_socket_frame _ d i j p)). apply Hinv.
  - pose proof (cb_kept_frame _ _ (callback_step_kept _ _ Hcb)) as Hf.
    apply system_inv_frame; [done|done| |done]. rewrite (fr_tx_queue _ _ Hf). apply Hinv.
  - by eapply client_put_inv.
  - apply system_inv_frame; [done|by apply set_socket_frame|apply Hinv|done].
  - apply system_inv_frame; [done| |apply Hinv|done]. apply set_socket_frame; [|done..].
    intros (Hsq & Hcq & Hw). split; [done|]. split; [|done].
    pose proof (ring_buffer_get_spec _ (so_cqueue_buffer s) Hcq) as Hg.
    unfold s in *. rewrite Hget in Hg. by destruct Hg as [Hrb _].
  - apply system_inv_frame; [done| |apply Hinv|done]. by apply cb_kept_frame, set_app_kept.
Qed.

Lemma system_run_inv sy sub srv sy' : system_run sy sub srv sy' -> system_inv sy -> system_inv sy'.
Proof. induction 1 as [|sy sub1 srv1 sy1 sub2 srv2 sy2 Hstep _ IH]; [done|]. intros Hinv. by eapply IH, system_step_inv. Qed.
End system.

(** C11. The invariant of the stack process, with its threads cut at every
    access to the counters, the queues and the ring buffers they share.  Start
    from a state that satisfies it: the rings and the byte buffer of every region
    are well formed, the pointer of the main thread and the operation a transmit
    thread is about to put are those of the queues, no no-op is submitted, and
    the counters of every socket give its operations in the transmit queue, but
    for one that the main thread has counted and not yet removed and one that a
    transmit thread has put and not yet counted.  Then this is so in every state
    that the main thread, the transmit threads, the discovery thread, the
    callbacks of lwIP (any, with any arguments) and the clients reach, in
    whatever order they take their steps.  No socket ever has more than ten
    operations in the transmit queue that the main thread has not counted, nor
    more than eleven in all, and the difference of its counters, which may be
    one less than nothing while an operation is put and handled, is exact
    whenever the thread of the socket compares it with the limit. *)
Theorem stack_reachable_inv `{LW : Lwip} `{IN : !Indeterminate} (sy sy' : system)
    (sub srv : list pifus_internal_operation) :
  system_inv sy -> system_run sy sub srv sy' ->
  system_inv sy' /\
  forall q,
    let n := Z.of_nat (pending q (pr_all (st_tx_queue (sy_stack sy')))) in
    let c := Z.of_nat (credited q (sy_main sy')) in
    0 <= c <= 1 /\ c <= n /\ n - c <= TX_MAX_PARALLEL_OPS_PER_SOCKET /\
    (uncounted (sy_tx sy' q) = 0%nat ->
     u64 (so_enqueued_ops (st_sockets (sy_stack sy') q) - so_dequeued_ops (st_sockets (sy_stack sy') q)) = n - c).
Proof.
  intros Hinv Hrun. assert (system_inv sy') as Hinv' by (by eapply system_run_inv). split; [done|]. intros q n c.
  pose proof (credited_queued q _ Hinv') as Hcr. pose proof (inv_limit _ Hinv' q) as Hl.
  pose proof (inv_count _ Hinv' q) as Hc. unfold queued in *. fold n c in Hl, Hc.
  assert (c <= 1) as Hc1.
  { unfold c, credited, counts. destruct (sy_main sy'); try lia. destruct (_ && _); lia. }
  unfold inflight, TX_MAX_PARALLEL_OPS_PER_SOCKET in *.
  split_and!; [lia|done|lia|lia|]. intros Hu. rewrite Hc, Hu, Z.sub_0_r. apply u64_small. lia.
Qed.

(** The next step of the main thread, and of the transmit thread of a socket. *)
Definition main_next `{LW : Lwip} `{IN : !Indeterminate} (sy : system) : system :=
  match main_step (sy_main sy) (sy_stack sy) with
  | Ret (pc, st) => System st pc (sy_tx sy)
  | _ => sy
  end.

Definition main_runs `{LW : Lwip} `{IN : !Indeterminate} (sy : system) : bool :=
  match main_step (sy_main sy) (sy_stack sy) with Ret _ => true | _ => false end.

Definition main_handles `{LW : Lwip} `{IN : !Indeterminate} (sy : system) :
    list pifus_internal_operation :=
  handled (sy_main sy) (sy_main (main_next sy)) (sy_stack sy).

Definition tx_next `{LW : Lwip} (p : Z) (sy : system) : system :=
  let '(pc, st) := tx_step p (sy_tx sy p) (sy_stack sy) in
  System st (sy_main sy) (<[p := pc]> (sy_tx sy)).

Lemma main_next_step `{LW : Lwip} `{IN : !Indeterminate} (sy : system) :
  main_runs sy = true -> system_step sy [] (main_handles sy) (main_next sy).
Proof.
  unfold main_runs, main_handles, main_next. destruct (main_step _ _) as [[pc st]|?| |] eqn:Hs; try done.
  intros _. by apply StepMain.
Qed.

Lemma tx_next_step `{LW : Lwip} `{IN : !Indeterminate} (p : Z) (sy : system) :
  system_step sy [] [] (tx_next p sy).
Proof. unfold tx_next. destruct (tx_step _ _ _) as [pc st] eqn:Hs. by apply StepTx. Qed.

(** One operation is in the transmit queue and one submitted. *)
Definition example_threads : system := System example_submitted MainIdle (fun _ => TxIdle).

Lemma example_threads_inv : system_inv example_threads.
Proof.
  split; cbn [sy_stack sy_main sy_tx example_threads].
  - exact example_submitted_wf.
  - done.
  - done.
  - intros q. rewrite example_submitted_socket. destruct (decide (q = 0)).
    + change (sq_list example_submitting) with [int_operation (example_op TCP_RECV)].
      repeat constructor. discriminate.
    + change (sq_list example_socket) with (@nil pifus_operation). constructor.
  - intros q. unfold inflight. rewrite (example_submitted_accounted q). cbn [credited uncounted].
    unfold queued. rewrite !Z.sub_0_r. symmetry. apply u64_small.
    pose proof (example_submitted_accounted q) as Ha. rewrite <- Ha. apply u64_range.
  - intros q. unfold queued. rewrite <- (example_submitted_accounted q), example_submitted_socket.
    destruct (decide (q = 0)); by vm_compute.
Qed.

(** The transmit thread puts the submitted operation, and before it can count
    it the main thread handles and counts it. *)
Definition example_started : system :=
  System example_submitted MainIdle (<[0 := tx_start example_submitted 0 MediumQueue]> (fun _ => TxIdle)).
Definition example_put : system := tx_next 0 (tx_next 0 (tx_next 0 example_started)).
Definition example_handled : system := main_next (main_next (main_next example_put)).
Definition example_overtaken : system := main_next (main_next example_handled).

Lemma example_overtaken_run :
  exists sub srv, system_run example_threads sub srv example_overtaken.
Proof.
  do 2 eexists.
  apply (RunStep _ [] [] example_started); [by apply (StepTxStart example_threads 0 MediumQueue)|].
  unfold example_overtaken, example_handled, example_put.
  do 3 (eapply RunStep; [apply (tx_next_step 0)|]).
  do 5 (eapply RunStep; [apply main_next_step; vm_compute; reflexivity|]).
  apply RunNone.
Qed.

Lemma stack_reachable_inv_witness :
  inflight (st_sockets (sy_stack example_overtaken) 0) = 0 /\
  length (pr_all (st_tx_queue (sy_stack example_overtaken))) = 2%nat /\
  sy_tx example_overtaken 0 = TxErase MediumQueue 1 /\ system_inv example_overtaken.
Proof.
  split; [vm_compute; reflexivity|]. split; [vm_compute; reflexivity|]. split; [vm_compute; reflexivity|].
  destruct example_overtaken_run as (sub & srv & Hrun).
  apply (stack_reachable_inv example_threads example_overtaken sub srv example_threads_inv Hrun).
Defined.
