(* ===== verification/Delivery.v ===== *)
(** * Operations from their submission to lwIP

    Which operations clients submitted and which the main thread handed to
    their handlers, along the steps of the threads of [Threads].  In whatever
    order the threads take their steps, nothing is lost and nothing is handled
    twice. *)
From S2P Require Import Prelude RingView RingBuffer ByteBuffer Memory Shmem.
From S2P Require Import Operation PrioRing SocketRegion Lwip Pbuf Stack StackSpec StackExample.
From S2P Require Import StackRecv LinkedList PrioThread Regions Discovery Socket Threads System.

Section delivery.
Context `{LW : Lwip} `{IN : !Indeterminate}.
Implicit Types (st : stack) (sy : system) (q : Z) (l : list pifus_internal_operation).

(** ** What is on its way *)

Definition of_socket q l : list pifus_internal_operation := filter (fun op => int_socket op = q) l.

(** In the transmit queue, and in the submission queue of the socket but for the
    one a transmit thread has just put. *)
Definition outstanding q sy : list pifus_internal_operation :=
  of_socket q (live (pr_all (st_tx_queue (sy_stack sy)))) ++
  (internal q <$> waiting (sq_list (st_sockets (sy_stack sy) q)) (sy_tx sy q)).

(** What was there and came in is what was handled and is there, where the
    operation in the hand of the main thread still is in the transmit queue; each
    handled operation is counted, or about to be. *)
Record balanced q sy (sub srv : list pifus_internal_operation) sy' : Prop := Balanced {
  ba_ops : outstanding q sy ++ of_socket q sub ++ of_socket q (in_hand (sy_main sy')) ≡ₚ
    of_socket q (live srv) ++ outstanding q sy' ++ of_socket q (in_hand (sy_main sy));
  ba_count :
    u64 (so_dequeued_ops (st_sockets (sy_stack sy') q) + Z.of_nat (pending q (owed (sy_main sy')))) =
    u64 (so_dequeued_ops (st_sockets (sy_stack sy) q) + Z.of_nat (pending q (owed (sy_main sy))) +
      Z.of_nat (pending q srv)) }.

Lemma of_socket_app q l1 l2 : of_socket q (l1 ++ l2) = of_socket q l1 ++ of_socket q l2.
Proof. apply filter_app. Qed.

Lemma live_app l1 l2 : live (l1 ++ l2) = live l1 ++ live l2.
Proof. apply filter_app. Qed.

#[export] Instance of_socket_proper q : Proper ((≡ₚ) ==> (≡ₚ)) (of_socket q).
Proof. intros l1 l2 Hl. unfold of_socket. by rewrite Hl. Qed.

#[export] Instance live_proper : Proper ((≡ₚ) ==> (≡ₚ)) live.
Proof. intros l1 l2 Hl. unfold live. by rewrite Hl. Qed.

(** What is counted is what is listed. *)
Lemma pending_of_socket q l : pending q l = length (of_socket q (live l)).
Proof.
  induction l as [|op l IH]; [done|]. rewrite live_cons, of_socket_app, length_app, <- IH.
  change (op :: l) with ([op] ++ l). rewrite pending_app. f_equal.
  destruct (decide (op_code (int_operation op) = NOP)) as [Hn|Hn].
  - by rewrite live_nop, pending_nop.
  - rewrite live_one by done. unfold of_socket, pending. cbn [sum_list_with].
    rewrite counts_one, filter_cons, filter_nil by done. do 2 case_decide; cbn; congruence.
Qed.

Lemma balanced_refl q sy : balanced q sy [] [] sy.
Proof. split; [done|]. cbn [pending sum_list_with]. f_equal. cbn. lia. Qed.

(** Balances of successive runs add up. *)
Lemma balanced_trans q sy1 sy2 sy3 sub1 srv1 sub2 srv2 :
  balanced q sy1 sub1 srv1 sy2 -> balanced q sy2 sub2 srv2 sy3 ->
  balanced q sy1 (sub1 ++ sub2) (srv1 ++ srv2) sy3.
Proof.
  intros [H1 C1] [H2 C2]. split.
  - rewrite live_app, !of_socket_app.
    apply (Permutation_app_inv_r (of_socket q (in_hand (sy_main sy2)))).
    transitivity ((outstanding q sy1 ++ of_socket q sub1 ++ of_socket q (in_hand (sy_main sy2))) ++
      of_socket q sub2 ++ of_socket q (in_hand (sy_main sy3))); [solve_Permutation|]. rewrite H1.
    transitivity ((outstanding q sy2 ++ of_socket q sub2 ++ of_socket q (in_hand (sy_main sy3))) ++
      of_socket q (live srv1) ++ of_socket q (in_hand (sy_main sy1))); [solve_Permutation|]. rewrite H2.
    solve_Permutation.
  - rewrite pending_app. apply u64_eq in C1 as [k1 C1]. apply u64_eq in C2 as [k2 C2].
    apply u64_eq. exists (k1 + k2). lia.
Qed.

(** Steps that neither submit nor handle nor move an operation. *)
Lemma frame_balanced q sy st' :
  frame (sy_stack sy) st' -> balanced q sy [] [] (System st' (sy_main sy) (sy_tx sy)).
Proof.
  intros [_ Ft Fs _ Fd]. split; unfold outstanding; cbn [sy_stack sy_main sy_tx].
  - by rewrite Ft, Fs.
  - rewrite Fd. f_equal. cbn. lia.
Qed.

(** ** Each step *)

Lemma main_balanced q sy pc' st' :
  system_inv sy -> main_step (sy_main sy) (sy_stack sy) = Ret (pc', st') ->
  balanced q sy [] (handled (sy_main sy) pc' (sy_stack sy)) (System st' pc' (sy_tx sy)).
Proof.
  intros Hinv Hs.
  destruct (main_step_moved _ _ _ _ (inv_wf _ Hinv) (inv_main _ Hinv) Hs) as [_ _ Hsq _ Hlive Hd _].
  split; unfold outstanding; cbn [sy_stack sy_main sy_tx of_socket filter list_filter app]; [|apply Hd].
  rewrite Hsq. set (w := internal q <$> _).
  transitivity (of_socket q (live (pr_all (st_tx_queue (sy_stack sy))) ++ in_hand pc') ++ w);
    [rewrite of_socket_app; solve_Permutation|]. rewrite Hlive, !of_socket_app. solve_Permutation.
Qed.

Lemma of_socket_internal q p ops :
  of_socket q (internal p <$> ops) = if decide (p = q) then internal p <$> ops else [].
Proof.
  induction ops as [|op ops IH]; [by case_decide|]. cbn [fmap list_fmap]. unfold of_socket in *.
  rewrite filter_cons, IH. cbn [int_socket internal]. by repeat case_decide.
Qed.

Lemma live_internal p ops :
  Forall (fun op => op_code op <> NOP) ops -> live (internal p <$> ops) = internal p <$> ops.
Proof.
  induction 1 as [|op ops Hop _ IH]; [done|]. cbn [fmap list_fmap]. rewrite live_cons, IH.
  unfold live. by rewrite filter_cons_True.
Qed.

(** A transmit thread moves an operation from one queue to the other. *)
Lemma tx_balanced q sy p pc' st' :
  system_inv sy -> tx_step p (sy_tx sy p) (sy_stack sy) = (pc', st') ->
  balanced q sy [] [] (System st' (sy_main sy) (<[p := pc']> (sy_tx sy))).
Proof.
  intros Hinv Hs. destruct (tx_step_moved _ _ _ _ _ (inv_wf _ Hinv) (inv_tx _ Hinv p) Hs)
    as (moved & Hm). pose proof Hm as [_ _ Tq Td To _ Twait _ _ _].
  destruct (tx_moved_internal _ _ _ _ _ _ Hm (inv_no_nop _ Hinv p)) as (ops & -> & Hf).
  split; cbn [sy_stack sy_main sy_tx]; [|rewrite Td; f_equal; cbn; lia].
  unfold outstanding. cbn [sy_stack sy_main sy_tx live of_socket filter list_filter app].
  fold (of_socket q). fold live. rewrite Tq, live_app, of_socket_app, live_internal, of_socket_internal by done.
  destruct (decide (p = q)) as [<-|Hne].
  - rewrite arr_insert_eq, Twait. solve_Permutation.
  - rewrite arr_insert_ne, To by congruence. solve_Permutation.
Qed.

Lemma put_balanced q sy p (op : pifus_operation) st' :
  system_inv sy -> op_code op <> NOP -> client_put (sy_stack sy) p op = Some st' ->
  balanced q sy [internal p op] [] (System st' (sy_main sy) (sy_tx sy)).
Proof.
  intros Hinv Hop Hput. destruct (client_put_spec _ _ _ _ (inv_wf _ Hinv) Hput) as (_ & Hq & Hsq & Ho & _ & Hd).
  split; cbn [sy_stack sy_main sy_tx]; [|rewrite Hd; f_equal; cbn; lia].
  unfold outstanding. cbn [sy_stack sy_main sy_tx]. rewrite Hq.
  change [internal p op] with (internal p <$> [op]). rewrite of_socket_internal.
  destruct (decide (p = q)) as [<-|Hne]; [|rewrite Ho by done; solve_Permutation].
  rewrite Hsq, (waiting_app p), fmap_app by apply (inv_tx _ Hinv).
  solve_Permutation.
Qed.
Lemma system_step_balanced q sy sub srv sy' :
  system_inv sy -> system_step sy sub srv sy' -> balanced q sy sub srv sy'.
Proof.
  intros Hinv [pc st' Hs|p l Hi|p pc st' Hs|d i j p|st' Hcb|p op st' Hop Hput|p|p got rb s Hget|i m].
  - by apply main_balanced.
  - split; unfold outstanding; cbn [sy_stack sy_main sy_tx]; [|f_equal; cbn; lia].
    destruct (decide (q = p)) as [->|Hne]; [by rewrite arr_insert_eq, Hi|by rewrite arr_insert_ne].
  - by apply tx_balanced.
  - apply frame_balanced, map_socket_frame.
  - by apply frame_balanced, cb_kept_frame, callback_step_kept.
  - by apply put_balanced.
  - by apply frame_balanced, set_socket_frame.
  - apply frame_balanced, set_socket_frame; [|done..]. intros (Hsq & Hcq & Hw). split; [done|]. split; [|done].
    pose proof (ring_buffer_get_spec _ (so_cqueue_buffer s) Hcq) as Hg.
    unfold s in *. rewrite Hget in Hg. by destruct Hg as [Hrb _].
  - by apply frame_balanced, cb_kept_frame, set_app_kept.
Qed.

Lemma system_run_balanced q sy sub srv sy' :
  system_run sy sub srv sy' -> system_inv sy -> balanced q sy sub srv sy'.
Proof.
  induction 1 as [|sy sub1 srv1 sy1 sub2 srv2 sy2 Hstep _ IH]; intros Hinv; [apply balanced_refl|].
  eapply balanced_trans; [by apply system_step_balanced|]. by eapply IH, system_step_inv.
Qed.

(** ** What is handled was processed *)

(** The operation was handed to [process_tx_op] in a state of the run, and was
    not to be tried again. *)
Definition processed_in sy op : Prop :=
  exists sub srv sy1 r st,
    system_run sy sub srv sy1 /\ process_tx_op (sy_stack sy1) op = Ret (r, st) /\
    (op_code (int_operation op) <> NOP -> res_result_code r <> PIFUS_TRY_AGAIN).

Lemma handled_processed pc st pc' st' op :
  main_step pc st = Ret (pc', st') -> op ∈ handled pc pc' st ->
  exists r st1, process_tx_op st op = Ret (r, st1) /\
    (op_code (int_operation op) <> NOP -> res_result_code r <> PIFUS_TRY_AGAIN).
Proof.
  destruct pc as [|d|p scan d|d|op' p scan d r|op' p scan d|op' p scan d]; cbn [handled]; try by rewrite elem_of_nil.
  cbn [main_step]. destruct (process_tx_op st _) as [[r st1]|?| |] eqn:Hproc; cbn [mbind outcome_bind]; try done.
  destruct (process_tx_op_kept _ _ _ _ Hproc) as [_ Hcode]. intros Hs Hin.
  assert (op = pr_deref (st_tx_queue st) p) as ->.
  { destruct pc'; by apply list_elem_of_singleton in Hin || by apply elem_of_nil in Hin. }
  exists r, st1. split; [done|]. intros Hn. rewrite Hcode in Hs.
  apply Z.eqb_neq in Hn. rewrite Hn in Hs. cbn [andb] in Hs.
  destruct (Z.eqb_spec (res_result_code r) PIFUS_TRY_AGAIN); [|done].
  destruct (_ <=? _); injection Hs as <- _; by apply elem_of_nil in Hin.
Qed.

Lemma system_run_processed sy sub srv sy' :
  system_run sy sub srv sy' -> forall op, op ∈ srv -> processed_in sy op.
Proof.
  induction 1 as [|sy sub1 srv1 sy1 sub2 srv2 sy2 Hstep _ IH]; intros op Hin; [by apply elem_of_nil in Hin|].
  apply elem_of_app in Hin as [Hin|Hin].
  - destruct Hstep as [pc st' Hs|p l Hi|p pc st' Hs|d i j p|st' Hcb|p op' st' Hop Hput|p|p got rb s Hget|i m];
      try by apply elem_of_nil in Hin.
    destruct (handled_processed _ _ _ _ _ Hs Hin) as (r & st1 & Hr). exists [], [], sy, r, st1.
    split; [apply RunNone|exact Hr].
  - destruct (IH op Hin) as (sub & srv & sy3 & r & st1 & Hrun & Hr). exists (sub1 ++ sub), (srv1 ++ srv), sy3, r, st1.
    split; [by eapply RunStep|exact Hr].
Qed.
End delivery.

(** C12. Every operation is handled exactly once, with the threads cut at every
    access to the counters and queues they share.  Whatever steps the main
    thread, the transmit threads, the discovery thread, the callbacks and the
    clients take from a state that satisfies the invariant and in which the main
    thread is between two operations, for every socket: the operations on their
    way at the start together with those its clients submitted are, each as often
    as it is there, those the main thread handed to their handlers together with
    those still on their way, in the submission queue of the socket or in the
    transmit queue, where the one it has handled and not yet removed is still in
    the queue.  What was handled was processed in a state of the run and was not
    to be tried again; and the counter of dequeued operations has advanced by
    what was handled, modulo 2^64, the one in hand perhaps not yet counted. *)
Theorem operations_handled_once `{LW : Lwip} `{IN : !Indeterminate} (sy sy' : system)
    (sub srv : list pifus_internal_operation) :
  system_inv sy -> in_hand (sy_main sy) = [] -> system_run sy sub srv sy' ->
  (forall op, op ∈ srv -> processed_in sy op) /\
  forall q,
    outstanding q sy ++ of_socket q sub ++ of_socket q (in_hand (sy_main sy')) ≡ₚ
      of_socket q (live srv) ++ outstanding q sy' /\
    u64 (so_dequeued_ops (st_sockets (sy_stack sy') q) + Z.of_nat (pending q (owed (sy_main sy')))) =
      u64 (so_dequeued_ops (st_sockets (sy_stack sy) q) + Z.of_nat (length (of_socket q (live srv)))).
Proof.
  intros Hinv Hidle Hrun. split; [by eapply system_run_processed|]. intros q.
  destruct (system_run_balanced q _ _ _ _ Hrun Hinv) as [Hb Hc]. split.
  - rewrite Hb, Hidle. by rewrite app_nil_r.
  - rewrite Hc, <- pending_of_socket. f_equal.
    assert (owed (sy_main sy) = []) as -> by by destruct (sy_main sy). cbn. lia.
Qed.

(** The run of the example: the operation submitted is handled as soon as it is
    put, and in the hand of the main thread. *)
Lemma operations_handled_once_witness :
  exists sub srv, system_run example_threads sub srv example_overtaken /\
    outstanding 0 example_threads ++ of_socket 0 sub ++ of_socket 0 (in_hand (sy_main example_overtaken)) ≡ₚ
      of_socket 0 (live srv) ++ outstanding 0 example_overtaken.
Proof.
  destruct example_overtaken_run as (sub & srv & Hrun). exists sub, srv. split; [exact Hrun|].
  exact (proj1 (proj2 (operations_handled_once example_threads example_overtaken sub srv
    example_threads_inv eq_refl Hrun) 0)).
Defined.
