(* ===== verification/PbufRef.v ===== *)
(** * Reference counts of packet buffers ([lwip/src/core/pbuf.c])

    [pbuf_free], [pbuf_ref], [pbuf_cat], [pbuf_chain] and [pbuf_dechain] over a
    heap of pbufs.  A pointer that was freed is not in the heap any more, and
    reading through it is undefined.  The comment of the field [ref] is the
    invariant: it "always equals the number of pointers that refer to this
    pbuf", those of callers and those of other pbufs. *)
From S2P Require Import Prelude Memory Operation Lwip Pbuf.

(** ** The code *)

(** [struct pbuf]; [pn_custom_free] says that the [custom_free_function] of a
    custom pbuf is not [NULL]. *)
Record pbuf_node := PbufNode {
  pn_next : option Z;
  pn_payload : Z;
  pn_tot_len : Z;
  pn_len : Z;
  pn_type_internal : Z;
  pn_flags : Z;
  pn_ref : Z;
  pn_if_idx : Z;
  pn_custom_free : bool }.

Definition pn_set_next (n : pbuf_node) (x : option Z) : pbuf_node :=
  PbufNode x (pn_payload n) (pn_tot_len n) (pn_len n) (pn_type_internal n) (pn_flags n) (pn_ref n)
    (pn_if_idx n) (pn_custom_free n).
Definition pn_set_payload (n : pbuf_node) (x : Z) : pbuf_node :=
  PbufNode (pn_next n) x (pn_tot_len n) (pn_len n) (pn_type_internal n) (pn_flags n) (pn_ref n)
    (pn_if_idx n) (pn_custom_free n).
Definition pn_set_tot_len (n : pbuf_node) (x : Z) : pbuf_node :=
  PbufNode (pn_next n) (pn_payload n) x (pn_len n) (pn_type_internal n) (pn_flags n) (pn_ref n)
    (pn_if_idx n) (pn_custom_free n).
Definition pn_set_len (n : pbuf_node) (x : Z) : pbuf_node :=
  PbufNode (pn_next n) (pn_payload n) (pn_tot_len n) x (pn_type_internal n) (pn_flags n) (pn_ref n)
    (pn_if_idx n) (pn_custom_free n).
Definition pn_set_ref (n : pbuf_node) (x : Z) : pbuf_node :=
  PbufNode (pn_next n) (pn_payload n) (pn_tot_len n) (pn_len n) (pn_type_internal n) (pn_flags n) x
    (pn_if_idx n) (pn_custom_free n).

Abbreviation pbuf_heap := (gmap Z pbuf_node).

Definition PBUF_FLAG_IS_CUSTOM : Z := 2.
Definition PBUF_TYPE_ALLOC_SRC_MASK : Z := 15.
Definition PBUF_TYPE_ALLOC_SRC_MASK_STD_HEAP : Z := 0.
Definition PBUF_TYPE_ALLOC_SRC_MASK_STD_MEMP_PBUF : Z := 1.
Definition PBUF_TYPE_ALLOC_SRC_MASK_STD_MEMP_PBUF_POOL : Z := 2.

(** Giving a pbuf back: to the custom function, the pools or the heap of lwIP.
    Wherever it goes, it is not a pbuf any more. *)
Definition pbuf_dealloc (h : pbuf_heap) (p : Z) (n : pbuf_node) : outcome pbuf_heap :=
  let alloc_src := Z.land (pn_type_internal n) PBUF_TYPE_ALLOC_SRC_MASK in
  if negb (Z.land (pn_flags n) PBUF_FLAG_IS_CUSTOM =? 0) then
    _ ← LWIP_ASSERT (pn_custom_free n); Ret (delete p h)
  else if alloc_src =? PBUF_TYPE_ALLOC_SRC_MASK_STD_MEMP_PBUF_POOL then Ret (delete p h)
  else if alloc_src =? PBUF_TYPE_ALLOC_SRC_MASK_STD_MEMP_PBUF then Ret (delete p h)
  else if alloc_src =? PBUF_TYPE_ALLOC_SRC_MASK_STD_HEAP then Ret (delete p h)
  else _ ← LWIP_ASSERT false; Ret h.

(** [while (p != NULL)]. *)
Fixpoint pbuf_free_loop (fuel : nat) (h : pbuf_heap) (p : option Z) (count : Z) : outcome (Z * pbuf_heap) :=
  match p with
  | None => Ret (count, h)
  | Some p =>
      match fuel with
      | O => NoFuel
      | S fuel =>
          n ← deref (h !! p);
          _ ← LWIP_ASSERT (0 <? pn_ref n);
          let ref := u8 (pn_ref n - 1) in
          let h := <[p := pn_set_ref n ref]> h in
          if ref =? 0 then
            let q := pn_next n in
            h ← pbuf_dealloc h p n;
            pbuf_free_loop fuel h q (u8 (count + 1))
          else Ret (count, h)
      end
  end.

(** Every iteration but the last takes a pbuf out of the heap. *)
Definition pbuf_free (h : pbuf_heap) (p : option Z) : outcome (Z * pbuf_heap) :=
  match p with
  | None => _ ← LWIP_ASSERT false; Ret (0, h)
  | Some _ => pbuf_free_loop (S (size h)) h p 0
  end.

Definition pbuf_ref (h : pbuf_heap) (p : option Z) : outcome pbuf_heap :=
  match p with
  | None => Ret h
  | Some p =>
      n ← deref (h !! p);
      let h := <[p := pn_set_ref n (u8 (pn_ref n + 1))]> h in
      _ ← LWIP_ASSERT (0 <? u8 (pn_ref n + 1));
      Ret h
  end.

(** [for (p = h; p->next != NULL; p = p->next)]: the last pbuf. *)
Fixpoint pbuf_cat_loop (fuel : nat) (h : pbuf_heap) (p t : Z) : outcome (Z * pbuf_heap) :=
  match fuel with
  | O => NoFuel
  | S fuel =>
      n ← deref (h !! p);
      match pn_next n with
      | None => Ret (p, h)
      | Some q =>
          tn ← deref (h !! t);
          let h := <[p := pn_set_tot_len n (u16 (pn_tot_len n + pn_tot_len tn))]> h in
          pbuf_cat_loop fuel h q t
      end
  end.

Definition pbuf_cat (h : pbuf_heap) (hd t : option Z) : outcome pbuf_heap :=
  match hd, t with
  | Some hd, Some t =>
      '(p, h) ← pbuf_cat_loop (S (size h)) h hd t;
      n ← deref (h !! p);
      _ ← LWIP_ASSERT (pn_tot_len n =? pn_len n);
      _ ← LWIP_ASSERT (bool_decide (pn_next n = None));
      tn ← deref (h !! t);
      let n := pn_set_tot_len n (u16 (pn_tot_len n + pn_tot_len tn)) in
      Ret (<[p := pn_set_next n (Some t)]> h)
  | _, _ => Ret h
  end.

Definition pbuf_chain (h : pbuf_heap) (hd t : option Z) : outcome pbuf_heap :=
  h ← pbuf_cat h hd t;
  pbuf_ref h t.

Definition pbuf_dechain (h : pbuf_heap) (p : Z) : outcome (option Z * pbuf_heap) :=
  n ← deref (h !! p);
  '(tail_gone, h) ←
    match pn_next n with
    | Some q =>
        qn ← deref (h !! q);
        _ ← LWIP_ASSERT (pn_tot_len qn =? pn_tot_len n - pn_len n);
        let h := <[q := pn_set_tot_len qn (u16 (pn_tot_len n - pn_len n))]> h in
        let h := <[p := pn_set_tot_len (pn_set_next n None) (pn_len n)]> h in
        pbuf_free h (Some q)
    | None => Ret (1, h)
    end;
  n' ← deref (h !! p);
  _ ← LWIP_ASSERT (pn_tot_len n' =? pn_len n');
  Ret (if 0 <? tail_gone then None else pn_next n, h).

(** ** The invariant *)

(** The pbufs whose [next] is [p]. *)
Definition preds (h : pbuf_heap) (p : Z) : gset Z := dom (filter (fun kn => pn_next kn.2 = Some p) h).
Definition indeg (h : pbuf_heap) (p : Z) : nat := size (preds h p).

(** The chain from a pointer. *)
Fixpoint path (h : pbuf_heap) (q : option Z) (l : list Z) : Prop :=
  match l with
  | [] => q = None
  | x :: l => q = Some x /\ exists n, h !! x = Some n /\ path h (pn_next n) l
  end.

(** A pbuf that can be given back. *)
Definition node_ok (n : pbuf_node) : Prop :=
  if decide (Z.land (pn_flags n) PBUF_FLAG_IS_CUSTOM = 0)
  then 0 <= Z.land (pn_type_internal n) PBUF_TYPE_ALLOC_SRC_MASK <= 2
  else pn_custom_free n = true.

(** [own p] pointers to [p] are in the hands of callers. *)
Record refs_ok (h : pbuf_heap) (own : Z -> nat) : Prop := RefsOk {
  ro_ref : forall p n, h !! p = Some n -> pn_ref n = Z.of_nat (own p + indeg h p) /\ 0 < pn_ref n < 256;
  ro_node : forall p n, h !! p = Some n -> node_ok n;
  ro_own : forall p, own p <> O -> is_Some (h !! p);
  ro_path : forall p n, h !! p = Some n -> exists l, path h (Some p) l }.

Definition own_add (own : Z -> nat) (p : Z) : Z -> nat := fun x => if decide (x = p) then S (own x) else own x.
Definition own_drop (own : Z -> nat) (p : Z) : Z -> nat := fun x => if decide (x = p) then pred (own x) else own x.

(** The caller's pointer moves from one pbuf to another. *)
Definition own_move (own : Z -> nat) (q r : option Z) : Z -> nat :=
  let own := match q with Some q => own_drop own q | None => own end in
  match r with Some r => own_add own r | None => own end.

Lemma elem_of_preds h p x : x ∈ preds h p <-> exists n, h !! x = Some n /\ pn_next n = Some p.
Proof.
  unfold preds. rewrite elem_of_dom. split.
  - intros [n [Hn He]%map_lookup_filter_Some]. by exists n.
  - intros (n & Hn & He). exists n. by apply map_lookup_filter_Some.
Qed.

(** Only the [next] fields count. *)
Lemma preds_ext h h' p :
  (forall x, pn_next <$> h !! x = pn_next <$> h' !! x) -> preds h p = preds h' p.
Proof.
  intros Heq. apply set_eq. intros x. rewrite !elem_of_preds. specialize (Heq x).
  split; intros (n & Hn & Hp); rewrite Hn in Heq.
  - destruct (h' !! x) as [n'|]; [|done]. exists n'. injection Heq as <-. done.
  - destruct (h !! x) as [n'|]; [|done]. exists n'. injection Heq as ->. done.
Qed.

Lemma indeg_delete h x n p :
  h !! x = Some n ->
  indeg h p = (indeg (delete x h) p + if decide (pn_next n = Some p) then 1 else 0)%nat.
Proof.
  intros Hx. unfold indeg. assert (preds (delete x h) p = preds h p ∖ {[x]}) as ->.
  { apply set_eq. intros y. rewrite elem_of_difference, elem_of_singleton, !elem_of_preds.
    setoid_rewrite lookup_delete_Some. naive_solver. }
  case_decide as Hn.
  - assert (x ∈ preds h p) by (apply elem_of_preds; eauto).
    rewrite size_difference by set_solver. rewrite size_singleton.
    assert (0 < size (preds h p))%nat; [|lia].
    apply Nat.neq_0_lt_0. intros Hz%size_empty_inv. set_solver.
  - replace (preds h p ∖ {[x]}) with (preds h p); [lia|]. apply set_eq. intros y.
    rewrite elem_of_difference, elem_of_singleton. split; [|tauto]. intros Hy. split; [done|].
    intros ->. apply elem_of_preds in Hy as (n' & ? & ?). congruence.
Qed.

Lemma indeg_insert h x n p :
  h !! x = None ->
  indeg (<[x := n]> h) p = (indeg h p + if decide (pn_next n = Some p) then 1 else 0)%nat.
Proof.
  intros Hx. rewrite (indeg_delete _ x n) by apply lookup_insert_eq.
  by rewrite delete_insert_id.
Qed.

Lemma indeg_zero h p x n : indeg h p = O -> h !! x = Some n -> pn_next n <> Some p.
Proof.
  intros Hz Hx He. apply size_empty_inv in Hz. assert (x ∈ preds h p); [|set_solver].
  apply elem_of_preds. eauto.
Qed.

Lemma path_ext h h' q l :
  (forall x, x ∈ l -> pn_next <$> h !! x = pn_next <$> h' !! x) -> path h q l -> path h' q l.
Proof.
  revert q. induction l as [|x l IH]; intros q Heq; [done|]. intros (-> & n & Hn & Hp). split; [done|].
  pose proof (Heq x ltac:(by left)) as Hx. rewrite Hn in Hx.
  destruct (h' !! x) as [n'|] eqn:Hn'; [|done]. injection Hx as Hnext. exists n'. split; [done|].
  rewrite <- Hnext. apply IH; [|done]. intros y Hy. apply Heq. by right.
Qed.

(** Behind the first pbuf of a chain, every pbuf has a predecessor. *)
Lemma path_pred h q l x :
  path h q l -> x ∈ l -> q = Some x \/ exists y n, h !! y = Some n /\ pn_next n = Some x.
Proof.
  revert q. induction l as [|y l IH]; intros q; [by intros _ ?%elem_of_nil|].
  intros (-> & n & Hn & Hp) [->|Hx]%elem_of_cons; [by left|]. right.
  destruct (IH _ Hp Hx) as [He|?]; [|done]. by exists y, n.
Qed.

Lemma path_det h q l l' : path h q l -> path h q l' -> l = l'.
Proof.
  revert q l'. induction l as [|x l IH]; intros q [|y l']; cbn [path].
  - done.
  - intros -> (? & _). done.
  - intros (-> & _) ?. done.
  - intros (-> & n & Hn & Hp) (Heq & n' & Hn' & Hp'). simplify_eq. f_equal. by eapply IH.
Qed.

(** ** What keeps the invariant *)

Lemma refs_ok_own h own own' : refs_ok h own -> (forall p, own p = own' p) -> refs_ok h own'.
Proof.
  intros [Hr Hn Ho Hp] Heq. split; [|done| |done].
  - intros p n Hpn. rewrite <- Heq. by apply Hr.
  - intros p. rewrite <- Heq. apply Ho.
Qed.

(** Everything but the payload and the lengths. *)
Definition shape (n : pbuf_node) : pbuf_node := pn_set_payload (pn_set_len (pn_set_tot_len n 0) 0) 0.
Definition same_shape (h h' : pbuf_heap) : Prop := forall x, shape <$> h !! x = shape <$> h' !! x.

#[export] Instance same_shape_equivalence : Equivalence same_shape.
Proof.
  split; [done|by intros h h' H x|]. intros h1 h2 h3 H1 H2 x. by rewrite H1.
Qed.

Lemma same_shape_lookup h h' x n' :
  same_shape h h' -> h' !! x = Some n' -> exists n, h !! x = Some n /\ shape n = shape n'.
Proof.
  intros Hs Hx. specialize (Hs x). rewrite Hx in Hs. destruct (h !! x) as [n|]; [|done].
  exists n. split; [done|]. cbn in Hs. congruence.
Qed.

Lemma same_shape_next h h' x : same_shape h h' -> pn_next <$> h !! x = pn_next <$> h' !! x.
Proof.
  intros Hs. specialize (Hs x).
  destruct (h !! x) as [[]|], (h' !! x) as [[]|]; by simplify_eq/=.
Qed.

Lemma refs_ok_shape h h' own : refs_ok h own -> same_shape h h' -> refs_ok h' own.
Proof.
  intros [Hr Hn Ho Hp] Hs. split.
  - intros p n' Hpn. destruct (same_shape_lookup _ _ _ _ Hs Hpn) as (n & Hx & He).
    unfold indeg. rewrite <- (preds_ext h h') by (intros; by apply same_shape_next).
    replace (pn_ref n') with (pn_ref n); [by apply Hr|]. destruct n, n'. by injection He.
  - intros p n' Hpn. destruct (same_shape_lookup _ _ _ _ Hs Hpn) as (n & Hx & He).
    specialize (Hn _ _ Hx). destruct n, n'. injection He as -> -> -> -> -> ->. exact Hn.
  - intros p Hop. destruct (Ho p Hop) as [n Hx]. symmetry in Hs.
    destruct (h' !! p) as [n'|] eqn:Hx'; [done|]. specialize (Hs p). by rewrite Hx, Hx' in Hs.
  - intros p n' Hpn. destruct (same_shape_lookup _ _ _ _ Hs Hpn) as (n & Hx & He).
    destruct (Hp _ _ Hx) as [l Hl]. exists l. revert Hl. apply path_ext.
    intros x _. by apply same_shape_next.
Qed.

(** A different count, the same chains. *)
Lemma set_ref_next (h : pbuf_heap) p n r x :
  h !! p = Some n -> pn_next <$> <[p := pn_set_ref n r]> h !! x = pn_next <$> h !! x.
Proof.
  intros Hp. destruct (decide (x = p)) as [->|Hx]; [by rewrite lookup_insert_eq, Hp|].
  by rewrite lookup_insert_ne by done.
Qed.

Lemma refs_ok_set_ref (h : pbuf_heap) own own' p n r :
  refs_ok h own -> h !! p = Some n -> 0 < r < 256 ->
  r = Z.of_nat (own' p + indeg h p) -> (forall x, x <> p -> own' x = own x) ->
  refs_ok (<[p := pn_set_ref n r]> h) own'.
Proof.
  intros [Hr Hn Ho Hp] Hpn Hrr Heq Hown.
  assert (forall x, indeg (<[p := pn_set_ref n r]> h) x = indeg h x) as Hdeg.
  { intros x. unfold indeg. f_equal. apply preds_ext. intros y. by apply set_ref_next. }
  split.
  - intros x m Hx. rewrite Hdeg. destruct (decide (x = p)) as [->|Hne].
    + rewrite lookup_insert_eq in Hx. by injection Hx as <-.
    + rewrite lookup_insert_ne in Hx by done. rewrite Hown by done. by apply Hr.
  - intros x m Hx. destruct (decide (x = p)) as [->|Hne].
    + rewrite lookup_insert_eq in Hx. injection Hx as <-. exact (Hn _ _ Hpn).
    + rewrite lookup_insert_ne in Hx by done. by eapply Hn.
  - intros x Hx. destruct (decide (x = p)) as [->|Hne]; [by rewrite lookup_insert_eq|].
    rewrite lookup_insert_ne by done. rewrite Hown in Hx by done. by apply Ho.
  - intros x m Hx. assert (is_Some (h !! x)) as [m' Hx'].
    { destruct (decide (x = p)) as [->|Hne]; [by rewrite Hpn|].
      rewrite lookup_insert_ne in Hx by done. by eexists. }
    destruct (Hp _ _ Hx') as [l Hl]. exists l. revert Hl. apply path_ext.
    intros y _. by rewrite set_ref_next.
Qed.

(** The pointer a pbuf that is given back held is in nobody's [next] any more. *)
Definition own_next (own : Z -> nat) (n : pbuf_node) : Z -> nat :=
  match pn_next n with Some q => own_add own q | None => own end.

Lemma refs_ok_next h own p n q :
  refs_ok h own -> h !! p = Some n -> pn_next n = Some q -> is_Some (h !! q).
Proof.
  intros Hok Hp Hq. destruct (ro_path _ _ Hok _ _ Hp) as [[|x l] Hl]; [done|].
  destruct Hl as (Hx & n' & Hn' & Hl). simplify_eq. destruct l as [|y l]; [cbn in Hl; congruence|].
  destruct Hl as (Hy & m & Hm & _). simplify_eq. eauto.
Qed.

Lemma free_last h own p n :
  refs_ok h own -> own p <> O -> h !! p = Some n -> pn_ref n = 1 ->
  pn_next n <> Some p /\ refs_ok (delete p h) (own_next (own_drop own p) n).
Proof.
  intros Hok Hop Hpn Href. destruct (ro_ref _ _ Hok _ _ Hpn) as [Hr _].
  assert (indeg h p = O /\ own p = 1%nat) as [Hz H1] by lia.
  pose proof (indeg_zero _ _ _ _ Hz Hpn) as Hnp. split; [done|].
  assert (forall x, own_next (own_drop own p) n x =
    if decide (x = p) then O else (own x + if decide (pn_next n = Some x) then 1 else 0)%nat) as Hown.
  { intros x. unfold own_next, own_drop, own_add.
    destruct (pn_next n) as [q|]; repeat case_decide; simplify_eq; try lia; congruence. }
  split.
  - intros x m [Hne Hx]%lookup_delete_Some. rewrite Hown, decide_False by done.
    destruct (ro_ref _ _ Hok _ _ Hx) as [Hrx ?]. rewrite (indeg_delete h p n x Hpn) in Hrx.
    split; [|done]. rewrite Hrx. lia.
  - intros x m [Hne Hx]%lookup_delete_Some. by eapply (ro_node _ _ Hok).
  - intros x. rewrite Hown. case_decide; [done|]. intros Hx. rewrite lookup_delete_ne by done.
    case_decide as Hq; [by eapply refs_ok_next|]. apply (ro_own _ _ Hok). lia.
  - intros x m [Hne Hx]%lookup_delete_Some. destruct (ro_path _ _ Hok _ _ Hx) as [l Hl].
    exists l. revert Hl. intros Hl. refine (path_ext _ _ _ _ _ Hl). intros y Hy.
    rewrite lookup_delete_ne; [done|]. intros <-.
    destruct (path_pred _ _ _ _ Hl Hy) as [Heq|(z & m' & Hz' & Hzn)]; [congruence|].
    by apply (indeg_zero _ _ _ _ Hz Hz').
Qed.

Lemma pbuf_dealloc_ok h p n : node_ok n -> pbuf_dealloc h p n = Ret (delete p h).
Proof.
  unfold node_ok, pbuf_dealloc, PBUF_TYPE_ALLOC_SRC_MASK_STD_MEMP_PBUF_POOL,
    PBUF_TYPE_ALLOC_SRC_MASK_STD_MEMP_PBUF, PBUF_TYPE_ALLOC_SRC_MASK_STD_HEAP.
  case_decide as Hc; intros Hok.
  - rewrite (proj2 (Z.eqb_eq _ _) Hc). cbn [negb].
    set (a := Z.land (pn_type_internal n) _) in *.
    destruct (Z.eqb_spec a 2); [done|]. destruct (Z.eqb_spec a 1); [done|].
    destruct (Z.eqb_spec a 0); [done|]. lia.
  - rewrite (proj2 (Z.eqb_neq _ _) Hc), Hok. done.
Qed.

(** ** The operations *)

Lemma u8_succ_add c k : u8 (u8 (c + 1) + k) = u8 (c + (1 + k)).
Proof. unfold u8. rewrite Zplus_mod_idemp_l. f_equal. lia. Qed.

Lemma own_next_drop own p n q x :
  pn_next n = Some q -> q <> p -> own_drop (own_next (own_drop own p) n) q x = own_drop own p x.
Proof.
  intros Hq Hne. unfold own_next, own_drop, own_add. rewrite Hq.
  destruct (decide (x = q)) as [->|]; [|done]. by rewrite decide_False.
Qed.

(** What a call leaves of a pbuf it does not free. *)
Definition no_ref (n : pbuf_node) : pbuf_node := pn_set_ref n 0.

Record freed_from (h : pbuf_heap) (p : Z) (freed : list Z) (h' : pbuf_heap) : Prop := FreedFrom {
  ff_prefix : exists rest, path h (Some p) (freed ++ rest);
  ff_gone : forall x, x ∈ freed -> h' !! x = None;
  ff_kept : forall x, x ∉ freed -> no_ref <$> h' !! x = no_ref <$> h !! x }.

(** One more pbuf at the head. *)
Lemma freed_cons (h : pbuf_heap) p n q freed h' :
  h !! p = Some n -> pn_next n = Some q -> freed_from (delete p h) q freed h' ->
  freed_from h p (p :: freed) h'.
Proof.
  intros Hn Hq [[rest Hrest] Hgone Hkept].
  assert (forall l o, path (delete p h) o l -> p ∉ l) as Hnotp.
  { intros l. induction l as [|y l IHl]; intros o Hl; [apply not_elem_of_nil|].
    destruct Hl as (-> & m & Hm & Hl). apply not_elem_of_cons. split; [|by eapply IHl].
    intros ->. by rewrite lookup_delete_eq in Hm. }
  split.
  - exists rest. split; [done|]. exists n. split; [done|]. rewrite Hq.
    refine (path_ext _ _ _ _ _ Hrest). intros x Hx. rewrite lookup_delete_ne; [done|].
    intros ->. by apply (Hnotp _ _ Hrest).
  - intros x [->|Hx]%elem_of_cons; [|by apply Hgone]. destruct (decide (p ∈ freed)); [by apply Hgone|].
    pose proof (Hkept p ltac:(done)) as Hkp. rewrite lookup_delete_eq in Hkp. by destruct (h' !! p).
  - intros x Hx%not_elem_of_cons. destruct Hx as [Hxp Hxf]. rewrite Hkept by done.
    by rewrite lookup_delete_ne.
Qed.

Lemma freed_one (h : pbuf_heap) p n : h !! p = Some n -> pn_next n = None -> freed_from h p [p] (delete p h).
Proof.
  intros Hn Hq. split.
  - exists []. split; [done|]. exists n. by split.
  - intros x ->%list_elem_of_singleton. apply lookup_delete_eq.
  - intros x Hx%not_elem_of_cons. by rewrite lookup_delete_ne by (intros <-; tauto).
Qed.

Lemma pbuf_free_loop_spec fuel h own p count :
  refs_ok h own -> own p <> O -> (size h <= fuel)%nat ->
  exists h' freed,
    pbuf_free_loop fuel h (Some p) count =
      Ret (if decide (freed = []) then count else u8 (count + Z.of_nat (length freed)), h') /\
    refs_ok h' (own_drop own p) /\ freed_from h p freed h'.
Proof.
  revert h own p count. induction fuel as [|fuel IH]; intros h own p count Hok Hop Hfuel.
  all: destruct (ro_own _ _ Hok p Hop) as [n Hn].
  { apply Nat.le_0_r, map_size_empty_inv in Hfuel. subst h. by rewrite lookup_empty in Hn. }
  cbn [pbuf_free_loop]. rewrite Hn. cbn [deref mbind outcome_bind].
  destruct (ro_ref _ _ Hok _ _ Hn) as [Hr Hr1].
  rewrite (proj2 (Z.ltb_lt _ _)) by lia. cbn [LWIP_ASSERT mbind outcome_bind].
  rewrite u8_small by lia. destruct (Z.eqb_spec (pn_ref n - 1) 0) as [Hz|Hz].
  - destruct (free_last h own p n Hok Hop Hn ltac:(lia)) as [Hnp Hok'].
    rewrite pbuf_dealloc_ok by (by eapply (ro_node _ _ Hok)). cbn [mbind outcome_bind].
    rewrite delete_insert_eq.
    destruct (pn_next n) as [q|] eqn:Hq.
    + assert (q <> p) as Hqp by congruence.
      assert (size (delete p h) = pred (size h)) as Hsz by (apply map_size_delete_Some; eauto).
      assert (size h <> O) as Hsz0.
      { intros ?%map_size_empty_inv. subst h. by rewrite lookup_empty in Hn. }
      assert (own_next (own_drop own p) n q <> O) as Hoq.
      { unfold own_next. rewrite Hq. unfold own_add. by rewrite decide_True. }
      destruct (IH (delete p h) _ q (u8 (count + 1)) Hok' Hoq ltac:(lia))
        as (h' & freed & -> & Hok'' & Hfr).
      exists h', (p :: freed). split_and!.
      * rewrite (decide_False (P := p :: freed = [])) by done. do 2 f_equal. cbn [length].
        destruct (decide (freed = [])) as [->|]; cbn [length]; [f_equal; lia|].
        rewrite u8_succ_add. f_equal. lia.
      * eapply refs_ok_own; [exact Hok''|]. intros x. by apply own_next_drop.
      * by eapply freed_cons.
    + exists (delete p h), [p]. rewrite decide_False by done. split_and!; [by destruct fuel| |].
      * eapply refs_ok_own; [exact Hok'|]. intros x. unfold own_next. by rewrite Hq.
      * by eapply freed_one.
  - exists (<[p := pn_set_ref n (pn_ref n - 1)]> h), []. rewrite decide_True by done. split_and!; [done| |].
    + eapply refs_ok_set_ref; [done|done|lia| |].
      * unfold own_drop. rewrite decide_True by done. lia.
      * intros x Hx. unfold own_drop. by rewrite decide_False.
    + split; [|by intros x ?%elem_of_nil|].
      * apply (ro_path _ _ Hok _ _ Hn).
      * intros x _. destruct (decide (x = p)) as [->|Hx]; [by rewrite lookup_insert_eq, Hn|].
        by rewrite lookup_insert_ne.
Qed.

Lemma pbuf_free_spec h own p :
  refs_ok h own -> own p <> O ->
  exists h' freed, pbuf_free h (Some p) = Ret (u8 (Z.of_nat (length freed)), h') /\
    refs_ok h' (own_drop own p) /\ freed_from h p freed h'.
Proof.
  intros Hok Hop. destruct (pbuf_free_loop_spec (S (size h)) h own p 0 Hok Hop ltac:(lia))
    as (h' & freed & Heq & Hok' & Hf). exists h', freed. split; [|done].
  unfold pbuf_free. rewrite Heq. do 2 f_equal. by destruct freed.
Qed.

Lemma pbuf_ref_spec h own p n :
  refs_ok h own -> h !! p = Some n -> pn_ref n < 255 ->
  exists h', pbuf_ref h (Some p) = Ret h' /\ refs_ok h' (own_add own p) /\
    h' = <[p := pn_set_ref n (pn_ref n + 1)]> h.
Proof.
  intros Hok Hn Hlt. destruct (ro_ref _ _ Hok _ _ Hn) as [Hr Hr1]. unfold pbuf_ref. rewrite Hn.
  cbn [deref mbind outcome_bind]. rewrite u8_small, (proj2 (Z.ltb_lt _ _)) by lia.
  eexists. split; [done|]. split; [|done]. eapply refs_ok_set_ref; [done|done|lia| |].
  - unfold own_add. rewrite decide_True by done. lia.
  - intros x Hx. unfold own_add. by rewrite decide_False.
Qed.

(** ** Chains *)

Lemma path_drop h q l k x : path h q l -> l !! k = Some x -> path h (Some x) (drop k l).
Proof.
  revert q k. induction l as [|y l IH]; intros q k; [done|]. intros (-> & n & Hn & Hp) Hk.
  destruct k as [|k]; [injection Hk as ->; split; eauto|]. by eapply IH.
Qed.

Lemma path_nodup h q l : path h q l -> NoDup l.
Proof.
  revert q. induction l as [|x l IH]; intros q Hp; [by constructor|]. pose proof Hp as (_ & n & Hn & Hl).
  constructor; [|by eapply IH]. intros [k Hk]%list_elem_of_lookup.
  pose proof (path_drop _ _ _ (S k) _ Hp Hk) as Hd. cbn [drop] in Hd. destruct Hp as (-> & _).
  pose proof (path_det h (Some x) (x :: l) _ ltac:(split; eauto) Hd) as He.
  apply (f_equal length) in He. rewrite length_drop in He. cbn [length] in He. lia.
Qed.

Lemma path_in_heap h q l x : path h q l -> x ∈ l -> is_Some (h !! x).
Proof.
  revert q. induction l as [|y l IH]; intros q; [by intros _ ?%elem_of_nil|].
  intros (_ & n & Hn & Hp) [->|Hx]%elem_of_cons; [by eexists|by eapply IH].
Qed.

(** Linking the last pbuf of a chain to another chain. *)
Lemma path_link (h : pbuf_heap) z n t lt q l :
  h !! z = Some n -> pn_next n = None -> path h (Some t) lt -> z ∉ lt -> path h q l ->
  path (<[z := pn_set_next n (Some t)]> h) q (if decide (z ∈ l) then l ++ lt else l).
Proof.
  intros Hz Hnone Ht Hzt. set (h' := <[z := _]> h).
  assert (forall l q, z ∉ l -> path h q l -> path h' q l) as Hext.
  { intros l0 q0 Hl0. apply path_ext. intros x Hx. unfold h'. rewrite lookup_insert_ne; [done|].
    intros <-. done. }
  revert q. induction l as [|x l IH]; intros q; [rewrite decide_False by apply not_elem_of_nil; done|].
  intros (-> & m & Hm & Hp). destruct (decide (x = z)) as [->|Hxz].
  - simplify_eq. rewrite Hnone in Hp. destruct l; [|by destruct Hp]. rewrite decide_True by by left.
    split; [done|]. eexists. split; [apply lookup_insert_eq|]. by apply Hext.
  - assert (h' !! x = Some m) as Hm' by (unfold h'; by rewrite lookup_insert_ne).
    specialize (IH _ Hp). case_decide as Hin.
    + rewrite decide_True by by right. split; [done|]. eauto.
    + rewrite decide_False by set_solver. split; [done|]. eauto.
Qed.

Lemma indeg_update (h : pbuf_heap) z n n' p :
  h !! z = Some n ->
  (indeg (<[z := n']> h) p + (if decide (pn_next n = Some p) then 1 else 0) =
   indeg h p + if decide (pn_next n' = Some p) then 1 else 0)%nat.
Proof.
  intros Hz. rewrite (indeg_delete h z n p Hz), (indeg_delete (<[z := n']> h) z n' p) by apply lookup_insert_eq.
  rewrite delete_insert_eq. lia.
Qed.

Lemma refs_ok_link h own z n t lt :
  refs_ok h own -> h !! z = Some n -> pn_next n = None -> own t <> O ->
  path h (Some t) lt -> z ∉ lt ->
  refs_ok (<[z := pn_set_next n (Some t)]> h) (own_drop own t).
Proof.
  intros Hok Hz Hnone Hot Ht Hzt. set (h' := <[z := _]> h).
  assert (forall x, indeg h' x = (indeg h x + if decide (t = x) then 1 else 0)%nat) as Hdeg.
  { intros x. pose proof (indeg_update h z n (pn_set_next n (Some t)) x Hz) as He. fold h' in He.
    rewrite Hnone in He. cbn [pn_next pn_set_next] in He. rewrite decide_False in He by done.
    destruct (decide (Some t = Some x)), (decide (t = x)); simplify_eq; lia. }
  assert (forall x m, h' !! x = Some m -> exists m', h !! x = Some m' /\ pn_ref m = pn_ref m' /\
    (node_ok m' -> node_ok m)) as Hback.
  { intros x m Hx. unfold h' in Hx. destruct (decide (x = z)) as [->|Hne].
    - rewrite lookup_insert_eq in Hx. injection Hx as <-. eauto.
    - rewrite lookup_insert_ne in Hx by done. eauto. }
  split.
  - intros x m Hx. destruct (Hback x m Hx) as (m' & Hx' & -> & _).
    destruct (ro_ref _ _ Hok _ _ Hx') as [Hr ?]. split; [|done]. rewrite Hr, Hdeg. unfold own_drop.
    destruct (decide (x = t)), (decide (t = x)); subst; try congruence; lia.
  - intros x m Hx. destruct (Hback x m Hx) as (m' & Hx' & _ & Hok'). apply Hok'. by eapply (ro_node _ _ Hok).
  - intros x Hx. assert (is_Some (h !! x)).
    { apply (ro_own _ _ Hok). unfold own_drop in Hx. case_decide; [|done]. intros Hz0. by rewrite Hz0 in Hx. }
    unfold h'. destruct (decide (x = z)) as [->|]; [by rewrite lookup_insert_eq|by rewrite lookup_insert_ne].
  - intros x m Hx. destruct (Hback x m Hx) as (m' & Hx' & _).
    destruct (ro_path _ _ Hok _ _ Hx') as [l Hl]. eexists. by eapply path_link.
Qed.

(** Cutting a chain behind a pbuf. *)
Lemma path_cut (h : pbuf_heap) z n q l :
  h !! z = Some n -> path h q l -> exists l', path (<[z := pn_set_next n None]> h) q l'.
Proof.
  intros Hz. revert q. induction l as [|x l IH]; intros q; [intros ->; by exists []|].
  intros (-> & m & Hm & Hp). destruct (decide (x = z)) as [->|Hxz].
  - exists [z]. split; [done|]. eexists. by split; [apply lookup_insert_eq|].
  - destruct (IH _ Hp) as [l' Hl']. exists (x :: l'). split; [done|]. exists m.
    by rewrite lookup_insert_ne.
Qed.

Lemma refs_ok_unlink h own z n q :
  refs_ok h own -> h !! z = Some n -> pn_next n = Some q ->
  refs_ok (<[z := pn_set_next n None]> h) (own_add own q).
Proof.
  intros Hok Hz Hq. set (h' := <[z := _]> h).
  assert (forall x, (indeg h' x + if decide (q = x) then 1 else 0)%nat = indeg h x) as Hdeg.
  { intros x. pose proof (indeg_update h z n (pn_set_next n None) x Hz) as He. fold h' in He.
    rewrite Hq in He. cbn [pn_next pn_set_next] in He. rewrite (decide_False (P := None = Some x)) in He by done.
    destruct (decide (Some q = Some x)), (decide (q = x)); simplify_eq; lia. }
  assert (forall x m, h' !! x = Some m -> exists m', h !! x = Some m' /\ pn_ref m = pn_ref m' /\
    (node_ok m' -> node_ok m)) as Hback.
  { intros x m Hx. unfold h' in Hx. destruct (decide (x = z)) as [->|Hne].
    - rewrite lookup_insert_eq in Hx. injection Hx as <-. eauto.
    - rewrite lookup_insert_ne in Hx by done. eauto. }
  split.
  - intros x m Hx. destruct (Hback x m Hx) as (m' & Hx' & -> & _).
    destruct (ro_ref _ _ Hok _ _ Hx') as [Hr ?]. split; [|done]. rewrite Hr, <- Hdeg. unfold own_add.
    destruct (decide (x = q)), (decide (q = x)); subst; try congruence; lia.
  - intros x m Hx. destruct (Hback x m Hx) as (m' & Hx' & _ & Hok'). apply Hok'. by eapply (ro_node _ _ Hok).
  - intros x Hx. assert (is_Some (h !! x)).
    { unfold own_add in Hx. case_decide as Hxq; [|by apply (ro_own _ _ Hok)]. subst x.
      by eapply refs_ok_next. }
    unfold h'. destruct (decide (x = z)) as [->|]; [by rewrite lookup_insert_eq|by rewrite lookup_insert_ne].
  - intros x m Hx. destruct (Hback x m Hx) as (m' & Hx' & _).
    destruct (ro_path _ _ Hok _ _ Hx') as [l Hl]. by eapply path_cut.
Qed.

Lemma set_tot_len_shape (h : pbuf_heap) p n x :
  h !! p = Some n -> same_shape h (<[p := pn_set_tot_len n x]> h).
Proof.
  intros Hp y. destruct (decide (y = p)) as [->|Hy]; [by rewrite lookup_insert_eq, Hp|].
  by rewrite lookup_insert_ne.
Qed.

Lemma same_shape_path h h' q l : same_shape h h' -> path h q l -> path h' q l.
Proof. intros Hs. apply path_ext. intros x _. by apply same_shape_next. Qed.

(** The walk of [pbuf_cat] ends at the last pbuf of the chain, which it leaves
    alone. *)
Lemma pbuf_cat_loop_spec fuel h p t l :
  path h (Some p) l -> (length l <= fuel)%nat -> is_Some (h !! t) ->
  exists h' l0 z, l = l0 ++ [z] /\ pbuf_cat_loop fuel h p t = Ret (z, h') /\ same_shape h h' /\
    h' !! z = h !! z.
Proof.
  revert h p l. induction fuel as [|fuel IH]; intros h p [|x l] Hp Hlen [tn Ht]; cbn [length] in Hlen;
    try lia; try done.
  pose proof (path_nodup _ _ _ Hp) as [Hxl Hnd]%NoDup_cons. destruct Hp as (Hx & n & Hn & Hp).
  injection Hx as <-. cbn [pbuf_cat_loop]. rewrite Hn. cbn [deref mbind outcome_bind].
  destruct l as [|y l].
  - cbn [path] in Hp. rewrite Hp. exists h, [], p. split_and!; done.
  - pose proof Hp as (-> & _). rewrite Ht. cbn [deref mbind outcome_bind].
    set (h1 := <[p := _]> h). assert (same_shape h h1) as Hs by (by apply set_tot_len_shape).
    destruct (IH h1 y (y :: l)) as (h' & l0 & z & Hl & -> & Hs' & Hz).
    + eapply same_shape_path; [exact Hs|]. by rewrite <- (proj1 Hp).
    + cbn [length] in *. lia.
    + destruct (h1 !! t) eqn:Ht1; [done|]. specialize (Hs t). by rewrite Ht, Ht1 in Hs.
    + exists h', (p :: l0), z. split; [by rewrite Hl|]. split; [done|]. split; [by etrans|].
      rewrite Hz. unfold h1. rewrite lookup_insert_ne; [done|]. intros ->. apply Hxl.
      rewrite Hl. apply elem_of_app. right. by left.
Qed.

Lemma path_last h q l z n : path h q (l ++ [z]) -> h !! z = Some n -> pn_next n = None.
Proof.
  revert q. induction l as [|x l IH]; intros q (-> & m & Hm & Hp) Hz; [by simplify_eq|by eapply IH].
Qed.

Lemma path_length h q l : path h q l -> (length l <= size h)%nat.
Proof.
  intros Hp. rewrite <- (size_dom (D := gset Z)).
  rewrite <- (size_list_to_set (C := gset Z)) by (by eapply path_nodup).
  apply subseteq_size. intros x Hx%elem_of_list_to_set. apply elem_of_dom. by eapply path_in_heap.
Qed.

(** The two chains do not end in the same pbuf. *)
Definition chains_apart (h : pbuf_heap) (a t : Z) : Prop :=
  forall la lt, path h (Some a) la -> path h (Some t) lt -> last la <> last lt.

Lemma pbuf_cat_spec h own a t h' :
  refs_ok h own -> is_Some (h !! a) -> own t <> O -> chains_apart h a t ->
  pbuf_cat h (Some a) (Some t) = Ret h' ->
  refs_ok h' (own_drop own t) /\
  forall la lt, path h (Some a) la -> path h (Some t) lt -> path h' (Some a) (la ++ lt).
Proof.
  intros Hok [an Ha] Hot Hap Ho. destruct (ro_own _ _ Hok t Hot) as [tn Ht].
  destruct (ro_path _ _ Hok _ _ Ha) as [la Hla]. destruct (ro_path _ _ Hok _ _ Ht) as [lt Hlt].
  destruct (pbuf_cat_loop_spec (S (size h)) h a t la Hla) as (h1 & l0 & z & Hl & Heq & Hs & Hz);
    [pose proof (path_length _ _ _ Hla); lia|by eexists|].
  assert (is_Some (h !! z)) as [zn Hzn].
  { eapply path_in_heap; [exact Hla|]. rewrite Hl. apply elem_of_app. right. by left. }
  assert (pn_next zn = None) as Hnone by (eapply path_last; [by rewrite <- Hl|done]).
  unfold pbuf_cat in Ho. rewrite Heq in Ho. cbn [mbind outcome_bind] in Ho. rewrite Hz, Hzn in Ho.
  cbn [deref mbind outcome_bind] in Ho. destruct (_ =? _); [|done]. cbn [LWIP_ASSERT mbind outcome_bind] in Ho.
  rewrite bool_decide_true in Ho by done. cbn [LWIP_ASSERT mbind outcome_bind] in Ho.
  destruct (h1 !! t) as [tn1|]; [|done]. cbn [deref mbind outcome_bind] in Ho.
  set (h2 := <[z := pn_set_next zn (Some t)]> h).
  assert (same_shape h2 h') as Hs2.
  { injection Ho as <-. intros x. unfold h2. destruct (decide (x = z)) as [->|Hx].
    - by rewrite !lookup_insert_eq.
    - rewrite !lookup_insert_ne by done. apply Hs. }
  assert (z ∉ lt) as Hzt.
  { intros Hin. apply (Hap la lt Hla Hlt). rewrite Hl, last_snoc.
    apply list_elem_of_split in Hin as (l1 & l2 & Hlt2).
    assert (path h (Some z) (z :: l2)) as Hzp.
    { pose proof (path_drop _ _ _ (length l1) z Hlt) as Hd. rewrite Hlt2 in Hd.
      rewrite drop_app_length in Hd. apply Hd. by rewrite list_lookup_middle. }
    destruct Hzp as (_ & m & Hm & Hp2). simplify_eq. rewrite Hnone in Hp2.
    destruct l2; [|by destruct Hp2]. by rewrite last_snoc. }
  split.
  - eapply refs_ok_shape; [|exact Hs2]. by eapply refs_ok_link.
  - intros la' lt' Hla' Hlt'. rewrite (path_det _ _ _ _ Hla' Hla), (path_det _ _ _ _ Hlt' Hlt).
    eapply same_shape_path; [exact Hs2|].
    pose proof (path_link h z zn t lt (Some a) la Hzn Hnone Hlt Hzt Hla) as Hlink.
    rewrite decide_True in Hlink; [done|]. rewrite Hl. apply elem_of_app. right. by left.
Qed.

(** [pbuf_chain] keeps the caller's pointer to the tail. *)
Lemma pbuf_chain_spec h own a t h' :
  refs_ok h own -> is_Some (h !! a) -> own t <> O -> chains_apart h a t ->
  pbuf_chain h (Some a) (Some t) = Ret h' -> refs_ok h' own.
Proof.
  intros Hok Ha Hot Hap Ho. unfold pbuf_chain in Ho.
  destruct (pbuf_cat h (Some a) (Some t)) as [h1|?| |] eqn:Hcat; cbn [mbind outcome_bind] in Ho; try done.
  destruct (pbuf_cat_spec h own a t h1 Hok Ha Hot Hap Hcat) as [Hok1 _].
  unfold pbuf_ref in Ho. destruct (h1 !! t) as [tn|] eqn:Ht; [|done]. cbn [deref mbind outcome_bind] in Ho.
  destruct (ro_ref _ _ Hok1 _ _ Ht) as [Hr Hr1].
  assert (pn_ref tn < 255) as Hlt.
  { destruct (Z.ltb_spec (pn_ref tn) 255); [done|]. replace (pn_ref tn + 1) with 256 in Ho by lia. done. }
  destruct (pbuf_ref_spec h1 _ t tn Hok1 Ht Hlt) as (h2 & Heq & Hok2 & _).
  unfold pbuf_ref in Heq. rewrite Ht in Heq. cbn [deref mbind outcome_bind] in Heq.
  rewrite Heq in Ho. injection Ho as <-. eapply refs_ok_own; [exact Hok2|].
  intros x. unfold own_add, own_drop. case_decide; subst; lia.
Qed.

(** [pbuf_dechain] returns the rest of the chain when somebody else still has a
    pointer to it; the number of freed pbufs it tests counts 8 bits. *)
Lemma pbuf_dechain_spec h own p r h' :
  refs_ok h own -> own p <> O -> pbuf_dechain h p = Ret (r, h') ->
  refs_ok h' own /\
  forall n q, h !! p = Some n -> pn_next n = Some q ->
    exists h1 freed, freed_from h1 q freed h' /\ path h1 (Some p) [p] /\
      r = if 0 <? u8 (Z.of_nat (length freed)) then None else Some q.
Proof.
  intros Hok Hop Ho. destruct (ro_own _ _ Hok p Hop) as [n Hn]. unfold pbuf_dechain in Ho.
  rewrite Hn in Ho. cbn [deref mbind outcome_bind] in Ho. destruct (pn_next n) as [q|] eqn:Hq.
  - destruct (refs_ok_next _ _ _ _ _ Hok Hn Hq) as [qn Hqn]. rewrite Hqn in Ho.
    cbn [deref mbind outcome_bind] in Ho. destruct (_ =? _); [|done]. cbn [LWIP_ASSERT mbind outcome_bind] in Ho.
    set (h1 := <[p := pn_set_tot_len _ _]> _) in Ho.
    assert (same_shape (<[p := pn_set_next n None]> h) h1) as Hs.
    { intros x. unfold h1. destruct (decide (x = p)) as [->|Hx]; [by rewrite !lookup_insert_eq|].
      rewrite !(lookup_insert_ne _ p) by done. destruct (decide (x = q)) as [->|Hxq].
      - by rewrite lookup_insert_eq, Hqn.
      - by rewrite lookup_insert_ne. }
    pose proof (refs_ok_shape _ _ _ (refs_ok_unlink h own p n q Hok Hn Hq) Hs) as Hok1.
    destruct (pbuf_free_spec h1 (own_add own q) q Hok1) as (h2 & freed & Heq & Hok2 & Hf).
    { unfold own_add. by rewrite decide_True. }
    rewrite Heq in Ho. cbn [mbind outcome_bind] in Ho. destruct (h2 !! p) as [n'|]; [|done].
    cbn [deref mbind outcome_bind] in Ho. destruct (_ =? _); [|done]. cbn [LWIP_ASSERT mbind outcome_bind] in Ho.
    injection Ho as <- <-. split.
    + eapply refs_ok_own; [exact Hok2|]. intros x. unfold own_add, own_drop. case_decide; subst; lia.
    + intros n0 q0 Hn0 Hq0. simplify_eq. exists h1, freed. split_and!; [done| |done].
      split; [done|]. eexists. split; [apply lookup_insert_eq|done].
  - cbn [mbind outcome_bind] in Ho. rewrite Hn in Ho. cbn [deref mbind outcome_bind] in Ho.
    destruct (_ =? _); [|done]. cbn [LWIP_ASSERT mbind outcome_bind] in Ho. injection Ho as _ <-.
    split; [done|]. intros n0 q Hn0 Hq0. simplify_eq.
Qed.

(** ** No leaks *)

(** Without pointers of callers every pbuf has a predecessor, and chains get
    longer for ever. *)
Lemma long_paths h own k :
  refs_ok h own -> (forall p, own p = O) -> h <> ∅ ->
  exists p l, path h (Some p) l /\ (k <= length l)%nat.
Proof.
  intros Hok Hown Hne. induction k as [|k IH].
  - apply map_choose in Hne as (p & n & Hp). destruct (ro_path _ _ Hok _ _ Hp) as [l Hl].
    exists p, l. split; [done|lia].
  - destruct IH as (p & [|x l] & Hl & Hk); [by cbn in Hl|].
    pose proof Hl as (Hx & n & Hn & _). injection Hx as <-.
    destruct (ro_ref _ _ Hok _ _ Hn) as [Hr Hr1]. rewrite Hown in Hr.
    assert (exists y, y ∈ preds h p) as [y (m & Hm & Hmn)%elem_of_preds].
    { apply set_choose_L. unfold indeg in Hr. intros He. rewrite He, size_empty in Hr. lia. }
    exists y, (y :: p :: l). cbn [length] in *. split; [|lia]. split; [done|]. exists m.
    rewrite Hmn. by split.
Qed.

Lemma no_owner_no_pbuf h own : refs_ok h own -> (forall p, own p = O) -> h = ∅.
Proof.
  intros Hok Hown. destruct (decide (h = ∅)) as [|Hne]; [done|].
  destruct (long_paths h own (S (size h)) Hok Hown Hne) as (p & l & Hl & Hk).
  apply path_length in Hl. lia.
Qed.

(** ** Callers that keep to the rules *)

(** A caller uses a pointer only while it has it: [pbuf_ref] gives one more,
    [pbuf_free] takes it back, [pbuf_cat] hands the pointer to the tail over to
    the chain. *)
Inductive pbuf_step : pbuf_heap * (Z -> nat) -> pbuf_heap * (Z -> nat) -> Prop :=
  | StepRef h own p h' : own p <> O ->
      pbuf_ref h (Some p) = Ret h' -> pbuf_step (h, own) (h', own_add own p)
  | StepFree h own p count h' : own p <> O ->
      pbuf_free h (Some p) = Ret (count, h') -> pbuf_step (h, own) (h', own_drop own p)
  | StepCat h own a t h' : own a <> O -> own t <> O -> chains_apart h a t ->
      pbuf_cat h (Some a) (Some t) = Ret h' -> pbuf_step (h, own) (h', own_drop own t)
  | StepChain h own a t h' : own a <> O -> own t <> O -> chains_apart h a t ->
      pbuf_chain h (Some a) (Some t) = Ret h' -> pbuf_step (h, own) (h', own)
  | StepDechain h own p r h' : own p <> O ->
      pbuf_dechain h p = Ret (r, h') -> pbuf_step (h, own) (h', own).

Lemma pbuf_step_ok s s' : pbuf_step s s' -> refs_ok s.1 s.2 -> refs_ok s'.1 s'.2.
Proof.
  intros [h own p h' Hp Ho|h own p count h' Hp Ho|h own a t h' Ha Ht Hap Ho|
    h own a t h' Ha Ht Hap Ho|h own p r h' Hp Ho] Hok; cbn [fst snd] in *.
  - destruct (ro_own _ _ Hok p Hp) as [n Hn]. destruct (ro_ref _ _ Hok _ _ Hn) as [Hr Hr1].
    assert (pn_ref n < 255) as Hlt.
    { destruct (Z.ltb_spec (pn_ref n) 255); [done|]. unfold pbuf_ref in Ho. rewrite Hn in Ho.
      cbn [deref mbind outcome_bind] in Ho. replace (pn_ref n + 1) with 256 in Ho by lia. done. }
    destruct (pbuf_ref_spec h own p n Hok Hn Hlt) as (h1 & Heq & Hok1 & _). congruence.
  - destruct (pbuf_free_spec h own p Hok Hp) as (h1 & freed & Heq & Hok1 & _). congruence.
  - apply (pbuf_cat_spec h own a t h' Hok (ro_own _ _ Hok a Ha) Ht Hap Ho).
  - exact (pbuf_chain_spec h own a t h' Hok (ro_own _ _ Hok a Ha) Ht Hap Ho).
  - apply (pbuf_dechain_spec h own p r h' Hok Hp Ho).
Qed.

(** C32. Reference counting is exact.  Let the counts be right at the start, and
    let callers use [pbuf_ref], [pbuf_free], [pbuf_cat], [pbuf_chain] and
    [pbuf_dechain] in any order, each with pointers it has.  Then in every state
    reached the count of each pbuf is the number of pointers to it, of callers
    and of other pbufs; no pointer of a caller dangles, and [pbuf_free] of one
    never fails, frees exactly the pbufs from the head of the chain that it
    counts (modulo 256, the count being 8 bits) and leaves every other pbuf as
    it was but for its count; and when the callers have given back all their
    pointers, all pbufs have been freed. *)
Theorem pbuf_refcounts_exact (h h' : pbuf_heap) (own own' : Z -> nat) :
  refs_ok h own -> rtc pbuf_step (h, own) (h', own') ->
  (forall p n, h' !! p = Some n -> pn_ref n = Z.of_nat (own' p + indeg h' p)) /\
  (forall p, own' p <> O -> exists h1 freed,
     pbuf_free h' (Some p) = Ret (u8 (Z.of_nat (length freed)), h1) /\ freed_from h' p freed h1) /\
  ((forall p, own' p = O) -> h' = ∅).
Proof.
  intros Hok Hsteps. assert (refs_ok h' own') as Hok'.
  { change (refs_ok (h', own').1 (h', own').2). change (refs_ok (h, own).1 (h, own).2) in Hok.
    revert Hok Hsteps. generalize (h, own), (h', own'). intros s s' Hok Hsteps.
    induction Hsteps as [s|s s1 s2 Hstep _ IH]; [done|]. apply IH. by eapply pbuf_step_ok. }
  split_and!.
  - intros p n Hp. by apply (ro_ref _ _ Hok').
  - intros p Hp. destruct (pbuf_free_spec h' own' p Hok' Hp) as (h1 & freed & Heq & _ & Hf). eauto.
  - by apply no_owner_no_pbuf.
Qed.

(** Two pbufs from the pool, the second held by the first and by a caller. *)
Definition example_heap : pbuf_heap :=
  {[ 10 := PbufNode (Some 20) 40 5 2 130 0 1 0 false; 20 := PbufNode None 80 3 3 130 0 2 0 false ]}.
Definition example_own : Z -> nat := fun p => if decide (p = 10 \/ p = 20) then 1%nat else O.

Lemma example_heap_cases p n :
  example_heap !! p = Some n ->
  (p = 10 /\ n = PbufNode (Some 20) 40 5 2 130 0 1 0 false) \/ (p = 20 /\ n = PbufNode None 80 3 3 130 0 2 0 false).
Proof.
  unfold example_heap. rewrite lookup_insert_Some, lookup_singleton_Some. naive_solver.
Qed.

Lemma example_refs_ok : refs_ok example_heap example_own.
Proof.
  split.
  - intros p n [[-> ->]|[-> ->]]%example_heap_cases; split; [by vm_compute|done|by vm_compute|done].
  - intros p n [[-> ->]|[-> ->]]%example_heap_cases; by vm_compute.
  - intros p. unfold example_own. case_decide as Hp; [intros _|done].
    destruct Hp as [->| ->]; by eexists.
  - intros p n [[-> ->]|[-> ->]]%example_heap_cases.
    + exists [10; 20]. split; [done|]. eexists. split; [done|]. split; [done|]. by eexists.
    + exists [20]. split; [done|]. by eexists.
Qed.

(** The first pointer is given back, then the second. *)
Lemma pbuf_refcounts_exact_witness :
  exists h1, pbuf_free example_heap (Some 10) = Ret (1, h1) /\
    pbuf_free h1 (Some 20) = Ret (1, ∅).
Proof.
  assert (exists h1, pbuf_free example_heap (Some 10) = Ret (1, h1) /\
    exists h2, pbuf_free h1 (Some 20) = Ret (1, h2)) as (h1 & H1 & h2 & H2).
  { eexists. split; [vm_compute; reflexivity|]. eexists. vm_compute. reflexivity. }
  exists h1. split; [exact H1|]. rewrite H2. do 2 f_equal.
  apply (pbuf_refcounts_exact example_heap h2 example_own (own_drop (own_drop example_own 10) 20)).
  - exact example_refs_ok.
  - eapply rtc_l; [eapply StepFree; [|exact H1]; vm_compute; discriminate|].
    apply rtc_once. eapply StepFree; [|exact H2]. vm_compute. discriminate.
  - intros p. unfold own_drop, example_own. repeat case_decide; simplify_eq; try done; lia.
Defined.
