(* ===== verification/PbufAlloc.v ===== *)
(** * Allocation and headers of packet buffers ([lwip/src/core/pbuf.c])

    [pbuf_alloc] and the functions that move the payload pointer to hide or
    reveal headers, over the heap of [PbufRef].  What the pools and the heap of
    lwIP answer is an argument. *)
From S2P Require Import Prelude Memory Align Operation Lwip Pbuf PbufRef.

(** ** The code *)

(** Two pointers, two lengths and four bytes. *)
Definition SIZEOF_STRUCT_PBUF : Z := LWIP_MEM_ALIGN_SIZE 24.
Definition PBUF_POOL_BUFSIZE : Z := 256.
Definition PBUF_POOL_BUFSIZE_ALIGNED : Z := LWIP_MEM_ALIGN_SIZE PBUF_POOL_BUFSIZE.

(** [pbuf_layer], with [LWIP_IPV6]. *)
Definition PBUF_LINK_ENCAPSULATION_HLEN : Z := 0.
Definition PBUF_LINK_HLEN : Z := 14.
Definition PBUF_IP_HLEN : Z := 40.
Definition PBUF_TRANSPORT_HLEN : Z := 20.
Inductive pbuf_layer := PBUF_TRANSPORT | PBUF_IP | PBUF_LINK | PBUF_RAW_TX | PBUF_RAW.
Definition pbuf_layer_value (l : pbuf_layer) : Z :=
  match l with
  | PBUF_TRANSPORT => PBUF_LINK_ENCAPSULATION_HLEN + PBUF_LINK_HLEN + PBUF_IP_HLEN + PBUF_TRANSPORT_HLEN
  | PBUF_IP => PBUF_LINK_ENCAPSULATION_HLEN + PBUF_LINK_HLEN + PBUF_IP_HLEN
  | PBUF_LINK => PBUF_LINK_ENCAPSULATION_HLEN + PBUF_LINK_HLEN
  | PBUF_RAW_TX => PBUF_LINK_ENCAPSULATION_HLEN
  | PBUF_RAW => 0
  end.

Definition PBUF_TYPE_FLAG_STRUCT_DATA_CONTIGUOUS : Z := 0x80.
Definition PBUF_TYPE_FLAG_DATA_VOLATILE : Z := 0x40.
Definition PBUF_ALLOC_FLAG_RX : Z := 0x100.
Definition PBUF_ALLOC_FLAG_DATA_CONTIGUOUS : Z := 0x200.
Inductive pbuf_type := PBUF_RAM | PBUF_ROM | PBUF_REF | PBUF_POOL.
Definition pbuf_type_value (t : pbuf_type) : Z :=
  match t with
  | PBUF_RAM => Z.lor (Z.lor PBUF_ALLOC_FLAG_DATA_CONTIGUOUS PBUF_TYPE_FLAG_STRUCT_DATA_CONTIGUOUS)
                  PBUF_TYPE_ALLOC_SRC_MASK_STD_HEAP
  | PBUF_ROM => PBUF_TYPE_ALLOC_SRC_MASK_STD_MEMP_PBUF
  | PBUF_REF => Z.lor PBUF_TYPE_FLAG_DATA_VOLATILE PBUF_TYPE_ALLOC_SRC_MASK_STD_MEMP_PBUF
  | PBUF_POOL => Z.lor (Z.lor PBUF_ALLOC_FLAG_RX PBUF_TYPE_FLAG_STRUCT_DATA_CONTIGUOUS)
                  PBUF_TYPE_ALLOC_SRC_MASK_STD_MEMP_PBUF_POOL
  end.

Definition NETIF_NO_INDEX : Z := 0.

(** A custom pbuf has its [custom_free_function] from the caller. *)
Definition pbuf_init_alloced_pbuf (h : pbuf_heap) (p payload tot_len len : Z) (type : pbuf_type)
    (flags : Z) (custom_free : bool) : pbuf_heap :=
  <[p := PbufNode None payload tot_len len (u8 (pbuf_type_value type)) flags 1 NETIF_NO_INDEX custom_free]> h.

(** [memp_malloc(MEMP_PBUF)]: [mp]. *)
Definition pbuf_alloc_reference (h : pbuf_heap) (payload length : Z) (type : pbuf_type) (mp : option Z)
    : outcome (option Z * pbuf_heap) :=
  _ ← LWIP_ASSERT match type with PBUF_REF | PBUF_ROM => true | _ => false end;
  match mp with
  | None => Ret (None, h)
  | Some p => Ret (Some p, pbuf_init_alloced_pbuf h p payload length length type 0 false)
  end.

(** The [do ... while (rem_len > 0)]: [memp] is what the calls of
    [memp_malloc(MEMP_PBUF_POOL)] answer in turn, [NULL] from its end on. *)
Fixpoint pbuf_alloc_pool (memp : list (option Z)) (h : pbuf_heap) (p last : option Z) (rem_len offset : Z)
    : outcome (option Z * pbuf_heap) :=
  match memp with
  | Some q :: memp =>
      let qlen := Z.min rem_len (u16 (PBUF_POOL_BUFSIZE_ALIGNED - LWIP_MEM_ALIGN_SIZE offset)) in
      let payload := LWIP_MEM_ALIGN (q + SIZEOF_STRUCT_PBUF + offset) in
      let h := pbuf_init_alloced_pbuf h q payload rem_len qlen PBUF_POOL 0 false in
      _ ← LWIP_ASSERT (payload mod MEM_ALIGNMENT =? 0);
      _ ← LWIP_ASSERT (0 <? u32 (PBUF_POOL_BUFSIZE_ALIGNED - LWIP_MEM_ALIGN_SIZE offset));
      '(p, h) ←
        match p with
        | None => Ret (q, h)
        | Some p =>
            last ← deref last;
            ln ← deref (h !! last);
            Ret (p, <[last := pn_set_next ln (Some q)]> h)
        end;
      let rem_len := u16 (rem_len - qlen) in
      if 0 <? rem_len then pbuf_alloc_pool memp h (Some p) (Some q) rem_len 0
      else Ret (Some p, h)
  | _ =>
      match p with
      | Some _ => '(_, h) ← pbuf_free h p; Ret (None, h)
      | None => Ret (None, h)
      end
  end.

(** [mem_size_t] has 16 bits: the heap is smaller than 64000 bytes. *)
Definition pbuf_alloc (h : pbuf_heap) (layer : pbuf_layer) (length : Z) (type : pbuf_type)
    (memp : list (option Z)) (mem_malloc : Z -> option Z) : outcome (option Z * pbuf_heap) :=
  let offset := u16 (pbuf_layer_value layer) in
  match type with
  | PBUF_REF | PBUF_ROM => pbuf_alloc_reference h 0 length type (default None (head memp))
  | PBUF_POOL => pbuf_alloc_pool memp h None None length offset
  | PBUF_RAM =>
      let payload_len := u16 (LWIP_MEM_ALIGN_SIZE offset + LWIP_MEM_ALIGN_SIZE length) in
      let alloc_len := u16 (LWIP_MEM_ALIGN_SIZE SIZEOF_STRUCT_PBUF + payload_len) in
      if (payload_len <? LWIP_MEM_ALIGN_SIZE length) || (alloc_len <? LWIP_MEM_ALIGN_SIZE length) then
        Ret (None, h)
      else
        match mem_malloc alloc_len with
        | None => Ret (None, h)
        | Some p =>
            let payload := LWIP_MEM_ALIGN (p + SIZEOF_STRUCT_PBUF + offset) in
            let h := pbuf_init_alloced_pbuf h p payload length length type 0 false in
            _ ← LWIP_ASSERT (payload mod MEM_ALIGNMENT =? 0);
            Ret (Some p, h)
        end
  end.

(** [payload_mem = 0] is [NULL]. *)
Definition pbuf_alloced_custom (h : pbuf_heap) (l : pbuf_layer) (length : Z) (type : pbuf_type) (p : Z)
    (custom_free : bool) (payload_mem payload_mem_len : Z) : option Z * pbuf_heap :=
  let offset := u16 (pbuf_layer_value l) in
  if payload_mem_len <? u32 (LWIP_MEM_ALIGN_SIZE offset + length) then (None, h)
  else
    let payload := if negb (payload_mem =? 0) then payload_mem + LWIP_MEM_ALIGN_SIZE offset else 0 in
    (Some p, pbuf_init_alloced_pbuf h p payload length length type PBUF_FLAG_IS_CUSTOM custom_free).

(** Non-zero is failure. *)
Definition pbuf_add_header_impl (h : pbuf_heap) (p : option Z) (header_size_increment : Z) (force : bool)
    : outcome (Z * pbuf_heap) :=
  match p with
  | None => _ ← LWIP_ASSERT false; Ret (1, h)
  | Some p =>
      if 0xFFFF <? header_size_increment then Ret (1, h)
      else if header_size_increment =? 0 then Ret (0, h)
      else
        n ← deref (h !! p);
        let increment_magnitude := u16 header_size_increment in
        if u16 (increment_magnitude + pn_tot_len n) <? increment_magnitude then Ret (1, h)
        else
          let payload := pn_payload n - header_size_increment in
          let moved := <[p := pn_set_tot_len (pn_set_len (pn_set_payload n payload)
                                (u16 (pn_len n + increment_magnitude)))
                              (u16 (pn_tot_len n + increment_magnitude))]> h in
          if negb (Z.land (pn_type_internal n) PBUF_TYPE_FLAG_STRUCT_DATA_CONTIGUOUS =? 0) then
            if payload <? p + SIZEOF_STRUCT_PBUF then Ret (1, h) else Ret (0, moved)
          else if force then Ret (0, moved)
          else Ret (1, h)
  end.

Definition pbuf_add_header (h : pbuf_heap) (p : option Z) (header_size_increment : Z) :=
  pbuf_add_header_impl h p header_size_increment false.
Definition pbuf_add_header_force (h : pbuf_heap) (p : option Z) (header_size_increment : Z) :=
  pbuf_add_header_impl h p header_size_increment true.

Definition pbuf_remove_header (h : pbuf_heap) (p : option Z) (header_size_decrement : Z)
    : outcome (Z * pbuf_heap) :=
  match p with
  | None => _ ← LWIP_ASSERT false; Ret (1, h)
  | Some p =>
      if 0xFFFF <? header_size_decrement then Ret (1, h)
      else if header_size_decrement =? 0 then Ret (0, h)
      else
        n ← deref (h !! p);
        let increment_magnitude := u16 header_size_decrement in
        if negb (increment_magnitude <=? pn_len n) then Ret (1, h)
        else
          Ret (0, <[p := pn_set_tot_len (pn_set_len (pn_set_payload n (pn_payload n + header_size_decrement))
                            (u16 (pn_len n - increment_magnitude)))
                          (u16 (pn_tot_len n - increment_magnitude))]> h)
  end.

(** [(size_t) - header_size_increment] of a negative [s16_t]. *)
Definition pbuf_header_impl (h : pbuf_heap) (p : option Z) (header_size_increment : Z) (force : bool) :=
  if header_size_increment <? 0 then pbuf_remove_header h p (u64 (- header_size_increment))
  else pbuf_add_header_impl h p (u64 header_size_increment) force.
Definition pbuf_header (h : pbuf_heap) (p : option Z) (header_size_increment : Z) :=
  pbuf_header_impl h p header_size_increment false.
Definition pbuf_header_force (h : pbuf_heap) (p : option Z) (header_size_increment : Z) :=
  pbuf_header_impl h p header_size_increment true.

(** ** Alignment *)

(** The payload of a pbuf in a block that is aligned. *)
Lemma mem_align_payload q offset :
  q mod 4 = 0 -> 0 <= q < 18446744073709400000 -> 0 <= offset < 65536 ->
  LWIP_MEM_ALIGN (q + SIZEOF_STRUCT_PBUF + offset) = q + SIZEOF_STRUCT_PBUF + LWIP_MEM_ALIGN_SIZE offset.
Proof.
  intros Hq Hr Ho. change SIZEOF_STRUCT_PBUF with 24. rewrite mem_align, mem_align_size by lia.
  pose proof (Z.div_mod q 4 ltac:(lia)). replace (q + 24 + offset + 3) with (offset + 3 + (q / 4 + 6) * 4) by lia.
  rewrite Z.div_add by lia. lia.
Qed.

(** ** The segments of a chain *)

Definition pn_seg (n : pbuf_node) : pbuf_seg := PbufSeg (pn_payload n) (pn_tot_len n) (pn_len n).
Definition segs (h : pbuf_heap) (l : list Z) : list pbuf_seg := omap (fun x => pn_seg <$> h !! x) l.

Lemma segs_cons h x l n : h !! x = Some n -> segs h (x :: l) = pn_seg n :: segs h l.
Proof. intros Hx. unfold segs. cbn [omap list_omap]. by rewrite Hx. Qed.

Lemma segs_app h l1 l2 : segs h (l1 ++ l2) = segs h l1 ++ segs h l2.
Proof. apply omap_app. Qed.

Lemma segs_ext h h' l :
  (forall x, x ∈ l -> pn_seg <$> h !! x = pn_seg <$> h' !! x) -> segs h l = segs h' l.
Proof.
  induction l as [|x l IH]; intros Heq; [done|]. unfold segs. cbn [omap list_omap].
  rewrite (Heq x) by (by left). unfold segs in IH. rewrite IH; [done|]. intros y Hy. apply Heq. by right.
Qed.

Lemma no_ref_eq (o o' : option pbuf_node) :
  no_ref <$> o' = no_ref <$> o -> pn_seg <$> o = pn_seg <$> o' /\ pn_next <$> o = pn_next <$> o'.
Proof. destruct o as [[]|], o' as [[]|]; intros [=]; subst; done. Qed.

(** ** A chain nobody else knows *)

Record fresh_chain (h h1 : pbuf_heap) (l : list Z) : Prop := FreshChain {
  fc_path : path h1 (head l) l;
  fc_fresh : forall x, x ∈ l -> h !! x = None;
  fc_kept : forall x, x ∉ l -> h1 !! x = h !! x;
  fc_nodes : forall x, x ∈ l -> exists n, h1 !! x = Some n /\ pn_ref n = 1 /\ node_ok n }.

Lemma refs_ok_insert (h : pbuf_heap) own x n :
  refs_ok h (own_next own n) -> h !! x = None -> pn_ref n = 1 -> node_ok n ->
  refs_ok (<[x := n]> h) (own_add own x).
Proof.
  intros Hok Hx Href Hnode.
  assert (forall p, own_next own n p = (own p + if decide (pn_next n = Some p) then 1 else 0)%nat) as Hown.
  { intros p. unfold own_next, own_add. destruct (pn_next n) as [q|]; repeat case_decide; simplify_eq; lia. }
  assert (own_next own n x = O) as Hox.
  { destruct (decide (own_next own n x = O)) as [|Hne]; [done|].
    destruct (ro_own _ _ Hok _ Hne) as [? ?]. congruence. }
  rewrite Hown in Hox. assert (pn_next n <> Some x) as Hnx by (case_decide; [lia|done]).
  assert (indeg h x = O) as Hdeg.
  { destruct (decide (preds h x = ∅)) as [He|Hne]; [unfold indeg; by rewrite He, size_empty|].
    apply set_choose_L in Hne as [y (m & Hy & Hm)%elem_of_preds].
    destruct (refs_ok_next _ _ _ _ _ Hok Hy Hm). congruence. }
  split.
  - intros p m Hp. rewrite indeg_insert by done. unfold own_add. destruct (decide (p = x)) as [->|Hne].
    + rewrite lookup_insert_eq in Hp. injection Hp as <-. rewrite decide_False by done. rewrite Href. lia.
    + rewrite lookup_insert_ne in Hp by done. destruct (ro_ref _ _ Hok _ _ Hp) as [Hr ?].
      rewrite Hown in Hr. split; [|done]. rewrite Hr. lia.
  - intros p m Hp. destruct (decide (p = x)) as [->|Hne].
    + rewrite lookup_insert_eq in Hp. by injection Hp as <-.
    + rewrite lookup_insert_ne in Hp by done. by eapply (ro_node _ _ Hok).
  - intros p. unfold own_add. destruct (decide (p = x)) as [->|Hne]; [by rewrite lookup_insert_eq|].
    intros Hp. rewrite lookup_insert_ne by done. apply (ro_own _ _ Hok). rewrite Hown. lia.
  - assert (forall q l, path h q l -> path (<[x := n]> h) q l) as Hext.
    { intros q l Hl. refine (path_ext _ _ _ _ _ Hl). intros y Hy. rewrite lookup_insert_ne; [done|].
      intros <-. destruct (path_in_heap _ _ _ _ Hl Hy). congruence. }
    intros p m Hp. destruct (decide (p = x)) as [->|Hne].
    + destruct (pn_next n) as [q|] eqn:Hq.
      * destruct (ro_own _ _ Hok q) as [qn Hqn]; [rewrite Hown, decide_True by done; lia|].
        destruct (ro_path _ _ Hok _ _ Hqn) as [l Hl]. exists (x :: l). split; [done|].
        exists n. split; [apply lookup_insert_eq|]. rewrite Hq. by apply Hext.
      * exists [x]. split; [done|]. exists n. split; [apply lookup_insert_eq|done].
    + rewrite lookup_insert_ne in Hp by done. destruct (ro_path _ _ Hok _ _ Hp) as [l Hl].
      exists l. by apply Hext.
Qed.

Lemma fresh_chain_tail h h1 x l :
  fresh_chain h h1 (x :: l) -> exists n, h1 !! x = Some n /\ pn_ref n = 1 /\ node_ok n /\
    pn_next n = head l /\ fresh_chain h (delete x h1) l.
Proof.
  intros [Hp Hf Hk Hn]. pose proof (path_nodup _ _ _ Hp) as [Hxl _]%NoDup_cons.
  destruct Hp as (_ & n & Hx & Hp). destruct (Hn x ltac:(by left)) as (n' & Hx' & Href & Hok). simplify_eq.
  exists n. split_and!; [done..| |].
  - destruct l; [done|]. by destruct Hp.
  - split.
    + destruct l as [|y l]; [done|]. pose proof Hp as (Hy & _). cbn [head]. rewrite <- Hy.
      refine (path_ext _ _ _ _ _ Hp). intros z Hz. rewrite lookup_delete_ne; [done|]. by intros <-.
    + intros y Hy. apply Hf. by right.
    + intros y Hy. destruct (decide (y = x)) as [->|Hne]; [by rewrite lookup_delete_eq, Hf by (by left)|].
      rewrite lookup_delete_ne by done. apply Hk. apply not_elem_of_cons. tauto.
    + intros y Hy. rewrite lookup_delete_ne by (by intros <-). apply Hn. by right.
Qed.

(** The caller that allocated it has its pointer. *)
Lemma fresh_chain_refs h own h1 x l :
  refs_ok h own -> fresh_chain h h1 (x :: l) -> refs_ok h1 (own_add own x).
Proof.
  intros Hok. revert h1 x. induction l as [|y l IH]; intros h1 x Hfc;
    destruct (fresh_chain_tail _ _ _ _ Hfc) as (n & Hx & Href & Hn & Hnext & Htl);
    rewrite <- (insert_id h1 x n Hx), <- insert_delete_eq;
    apply refs_ok_insert; (apply lookup_delete_eq || done || idtac); unfold own_next; rewrite Hnext; cbn [head].
  - assert (delete x h1 = h) as ->; [|done]. apply map_eq. intros y. apply (fc_kept _ _ _ Htl). apply not_elem_of_nil.
  - by apply IH.
Qed.

(** Freeing it takes all of it away. *)
Lemma pbuf_free_loop_fresh fuel h h1 x l count :
  fresh_chain h h1 (x :: l) -> (length l < fuel)%nat ->
  exists count', pbuf_free_loop fuel h1 (Some x) count = Ret (count', h).
Proof.
  revert h1 x l count. induction fuel as [|fuel IH]; intros h1 x l count Hfc Hlen; [lia|].
  destruct (fresh_chain_tail _ _ _ _ Hfc) as (n & Hx & Href & Hn & Hnext & Htl).
  cbn [pbuf_free_loop]. rewrite Hx. cbn [deref mbind outcome_bind]. rewrite Href.
  cbn [LWIP_ASSERT mbind outcome_bind Z.ltb Z.compare]. change (u8 (1 - 1) =? 0) with true. cbv iota.
  rewrite pbuf_dealloc_ok by done. cbn [mbind outcome_bind]. rewrite delete_insert_eq, Hnext.
  destruct l as [|y l]; cbn [head].
  - assert (delete x h1 = h) as ->; [|destruct fuel; by eexists]. apply map_eq. intros y.
    apply (fc_kept _ _ _ Htl). apply not_elem_of_nil.
  - apply IH with l; [done|]. cbn [length] in Hlen. lia.
Qed.

Lemma pbuf_free_fresh h h1 x l :
  fresh_chain h h1 (x :: l) -> exists count, pbuf_free h1 (Some x) = Ret (count, h).
Proof.
  intros Hfc. apply pbuf_free_loop_fresh with l; [done|].
  pose proof (path_length _ _ _ (fc_path _ _ _ Hfc)). cbn [length] in *. lia.
Qed.

(** ** Allocation *)

(** The payload is inside the block of the pbuf. *)
Definition in_block (size_ p : Z) (n : pbuf_node) : Prop :=
  p + SIZEOF_STRUCT_PBUF <= pn_payload n /\ 0 <= pn_len n /\
  pn_payload n + pn_len n <= p + SIZEOF_STRUCT_PBUF + size_.

(** A chain under construction: [rem] bytes are still to come. *)
Fixpoint chain_rem (q : list pbuf_seg) (rem : Z) : Prop :=
  match q with
  | [] => True
  | p :: next => 0 <= sg_len p /\ sg_tot_len p = chain_len q + rem /\ sg_tot_len p < 65536 /\ chain_rem next rem
  end.

Lemma chain_rem_0 q : chain_rem q 0 -> chain_wf q.
Proof.
  induction q as [|p q IH]; [done|]. intros (? & Ht & ? & ?). rewrite Z.add_0_r in Ht.
  split_and!; [done..|by apply IH].
Qed.

Lemma chain_rem_snoc q s rem :
  chain_rem q (sg_len s + rem) -> 0 <= sg_len s -> sg_tot_len s = sg_len s + rem -> sg_tot_len s < 65536 ->
  chain_rem (q ++ [s]) rem.
Proof.
  intros Hq Hl Ht Hb. induction q as [|p q IH].
  - cbn [app chain_rem chain_len]. split_and!; (done || lia).
  - destruct Hq as (? & Hpt & ? & Hq). cbn [app chain_rem]. split_and!; [done| |done|by apply IH].
    rewrite Hpt, app_comm_cons, chain_len_app. cbn [chain_len]. lia.
Qed.

(** The pbufs of the pool so far: [l], of a packet of [total] bytes with [rem]
    to come. *)
Record pool_chain (h h1 : pbuf_heap) (layer total : Z) (l : list Z) (rem : Z) : Prop := PoolChain {
  pc_fresh : fresh_chain h h1 l;
  pc_lens : chain_rem (segs h1 l) rem;
  pc_total : chain_len (segs h1 l) + rem = total;
  pc_blocks : forall x n, x ∈ l -> h1 !! x = Some n ->
    in_block PBUF_POOL_BUFSIZE_ALIGNED x n /\ pn_type_internal n = 0x82;
  pc_room : forall x n, head l = Some x -> h1 !! x = Some n ->
    pn_payload n = x + SIZEOF_STRUCT_PBUF + layer }.

Definition pool_answers (h : pbuf_heap) (memp : list (option Z)) : Prop :=
  NoDup (omap id memp) /\
  forall q, Some q ∈ memp -> h !! q = None /\ q mod 4 = 0 /\ 0 <= q < 18446744073709400000.

Lemma head_snoc {A} (l : list A) x y : head ((l ++ [x]) ++ [y]) = head (l ++ [x]).
Proof. by destruct l. Qed.

(** The new pbuf behind the last one. *)
Definition appended (h1 : pbuf_heap) (z : Z) (zn : pbuf_node) (q : Z) (n : pbuf_node) : pbuf_heap :=
  <[z := pn_set_next zn (Some q)]> (<[q := n]> h1).

Lemma appended_lookup h1 z zn q n x :
  h1 !! z = Some zn -> z <> q -> x <> q ->
  exists f, appended h1 z zn q n !! x = f <$> h1 !! x /\
    forall m, pn_seg (f m) = pn_seg m /\ pn_ref (f m) = pn_ref m /\ (node_ok m -> node_ok (f m)) /\
      pn_type_internal (f m) = pn_type_internal m.
Proof.
  intros Hz Hzq Hxq. unfold appended. destruct (decide (x = z)) as [->|Hne].
  - exists (fun m => pn_set_next m (Some q)). rewrite lookup_insert_eq, Hz. split; [done|]. by intros [].
  - exists id. rewrite !lookup_insert_ne by done. split; [by destruct (h1 !! x)|done].
Qed.

Lemma fresh_chain_snoc h h1 l0 z zn q n :
  fresh_chain h h1 (l0 ++ [z]) -> h1 !! z = Some zn -> q ∉ l0 ++ [z] -> h !! q = None ->
  pn_next n = None -> pn_ref n = 1 -> node_ok n ->
  fresh_chain h (appended h1 z zn q n) ((l0 ++ [z]) ++ [q]).
Proof.
  intros Hfc Hz Hq Hhq Hnext Href Hok. pose proof Hfc as [Hp Hf Hk Hn].
  assert (z <> q) as Hzq by (intros ->; apply Hq, elem_of_app; right; by left).
  assert (path (<[q := n]> h1) (head (l0 ++ [z])) (l0 ++ [z])) as Hp2.
  { refine (path_ext _ _ _ _ _ Hp). intros x Hx. rewrite lookup_insert_ne; [done|]. by intros ->. }
  split.
  - rewrite head_snoc.
    pose proof (path_link (<[q := n]> h1) z zn q [q] (head (l0 ++ [z])) (l0 ++ [z])) as Hl.
    rewrite decide_True in Hl by (apply elem_of_app; right; by left). apply Hl; [|..|done].
    + by rewrite lookup_insert_ne.
    + eapply path_last; [exact Hp|done].
    + split; [done|]. exists n. by rewrite lookup_insert_eq.
    + by intros ?%list_elem_of_singleton.
  - intros x [Hx| ->%list_elem_of_singleton]%elem_of_app; [by apply Hf|done].
  - intros x Hx. rewrite not_elem_of_app, not_elem_of_cons in Hx. destruct Hx as (Hxl & Hxq & _).
    unfold appended. rewrite !lookup_insert_ne; [by apply Hk|by intros <-|].
    intros <-. apply Hxl, elem_of_app. right. by left.
  - intros x [Hx| ->%list_elem_of_singleton]%elem_of_app.
    + destruct (appended_lookup h1 z zn q n x Hz Hzq) as (f & -> & Hfm); [by intros ->|].
      destruct (Hn x Hx) as (m & -> & Hr & Hm). exists (f m). destruct (Hfm m) as (_ & -> & Hok' & _).
      split_and!; [done..|by apply Hok'].
    + exists n. unfold appended. by rewrite lookup_insert_ne, lookup_insert_eq.
Qed.

Lemma fresh_chain_one h q n :
  h !! q = None -> pn_next n = None -> pn_ref n = 1 -> node_ok n -> fresh_chain h (<[q := n]> h) [q].
Proof.
  intros Hq Hnext Href Hok. split.
  - split; [done|]. exists n. by rewrite lookup_insert_eq.
  - by intros x ->%list_elem_of_singleton.
  - intros x Hx%not_elem_of_cons. rewrite lookup_insert_ne; [done|]. intros ->. tauto.
  - intros x ->%list_elem_of_singleton. exists n. by rewrite lookup_insert_eq.
Qed.

(** A pbuf of the pool as [pbuf_alloc] initialises it. *)
Definition pool_node (q rem offset : Z) : pbuf_node :=
  PbufNode None (q + SIZEOF_STRUCT_PBUF + offset) rem (Z.min rem (PBUF_POOL_BUFSIZE_ALIGNED - offset))
    0x82 0 1 0 false.

Lemma pool_node_block q rem offset :
  0 <= rem -> 0 <= offset <= PBUF_POOL_BUFSIZE_ALIGNED -> in_block PBUF_POOL_BUFSIZE_ALIGNED q (pool_node q rem offset).
Proof. intros Hr Ho. unfold in_block, pool_node. cbn [pn_payload pn_len]. lia. Qed.

Lemma pool_chain_one h q layer rem :
  h !! q = None -> 0 <= rem < 65536 -> 0 <= layer <= PBUF_POOL_BUFSIZE_ALIGNED ->
  pool_chain h (<[q := pool_node q rem layer]> h) layer rem [q]
    (rem - Z.min rem (PBUF_POOL_BUFSIZE_ALIGNED - layer)).
Proof.
  intros Hq Hr Hl. split.
  - by apply fresh_chain_one.
  - rewrite (segs_cons _ _ _ (pool_node q rem layer)) by apply lookup_insert_eq.
    cbn [segs omap list_omap chain_rem chain_len pn_seg sg_len sg_tot_len pool_node pn_len pn_tot_len]. lia.
  - rewrite (segs_cons _ _ _ (pool_node q rem layer)) by apply lookup_insert_eq.
    cbn [segs omap list_omap chain_len pn_seg sg_len pool_node pn_len]. lia.
  - intros x n ->%list_elem_of_singleton. rewrite lookup_insert_eq. intros [= <-].
    split; [apply pool_node_block; lia|done].
  - intros x n [= <-]. rewrite lookup_insert_eq. by intros [= <-].
Qed.

Lemma pool_chain_snoc h h1 layer total l0 z zn q rem :
  pool_chain h h1 layer total (l0 ++ [z]) rem -> h1 !! z = Some zn -> q ∉ l0 ++ [z] -> h !! q = None ->
  0 <= rem < 65536 ->
  pool_chain h (appended h1 z zn q (pool_node q rem 0)) layer total ((l0 ++ [z]) ++ [q])
    (rem - Z.min rem PBUF_POOL_BUFSIZE_ALIGNED).
Proof.
  intros [Hfc Hlens Htot Hbl Hroom] Hz Hq Hhq Hr.
  assert (z <> q) as Hzq by (intros ->; apply Hq, elem_of_app; right; by left).
  set (h2 := appended _ _ _ _ _).
  assert (h2 !! q = Some (pool_node q rem 0)) as Hh2q.
  { unfold h2, appended. by rewrite lookup_insert_ne, lookup_insert_eq. }
  assert (forall x, x ∈ l0 ++ [z] -> exists f, h2 !! x = f <$> h1 !! x /\
    forall m, pn_seg (f m) = pn_seg m /\ pn_ref (f m) = pn_ref m /\ (node_ok m -> node_ok (f m)) /\
      pn_type_internal (f m) = pn_type_internal m) as Hlk.
  { intros x Hx. apply appended_lookup; [done..|]. by intros ->. }
  assert (segs h2 (l0 ++ [z]) = segs h1 (l0 ++ [z])) as Hsegs.
  { apply segs_ext. intros x Hx. destruct (Hlk x Hx) as (f & -> & Hf). destruct (h1 !! x); [|done].
    cbn. f_equal. apply Hf. }
  split.
  - by apply fresh_chain_snoc.
  - rewrite segs_app, (segs_cons _ _ _ _ Hh2q), Hsegs.
    apply chain_rem_snoc; cbn [pn_seg pool_node sg_len sg_tot_len pn_len pn_tot_len];
        change PBUF_POOL_BUFSIZE_ALIGNED with 256; try lia.
    replace (_ + _) with rem by lia. done.
  - rewrite segs_app, (segs_cons _ _ _ _ Hh2q), Hsegs, chain_len_app.
    cbn [segs omap list_omap chain_len pn_seg sg_len pool_node pn_len]. lia.
  - intros x n [Hx| ->%list_elem_of_singleton]%elem_of_app.
    + destruct (Hlk x Hx) as (f & -> & Hf). destruct (h1 !! x) as [m|] eqn:Hm; [|done]. intros [= <-].
      destruct (Hbl x m Hx Hm) as [Hb Ht]. destruct (Hf m) as (Hseg & _ & _ & ->). injection Hseg as Hp Htl Hln.
      unfold in_block. rewrite Hp, Hln. done.
    + rewrite Hh2q. intros [= <-]. split; [apply pool_node_block; [lia|by vm_compute]|done].
  - intros x n. rewrite head_snoc. intros Hx. assert (x ∈ l0 ++ [z]) as Hin by (destruct l0; injection Hx as <-; by left).
    destruct (Hlk x Hin) as (f & -> & Hf). destruct (h1 !! x) as [m|] eqn:Hm; [|done]. intros [= <-].
    destruct (Hf m) as (Hseg & _). injection Hseg as Hp _ _. rewrite Hp. by apply Hroom.
Qed.

Lemma pbuf_layer_range layer : 0 <= pbuf_layer_value layer <= 74.
Proof. by destruct layer. Qed.

(** The room a layer asks for, rounded up. *)
Definition layer_room (layer : pbuf_layer) : Z := LWIP_MEM_ALIGN_SIZE (pbuf_layer_value layer).

Lemma layer_room_range layer : pbuf_layer_value layer <= layer_room layer <= 76 /\ layer_room layer mod 4 = 0.
Proof. by destruct layer. Qed.

Lemma align_room_mod offset : 0 <= offset < 65536 -> LWIP_MEM_ALIGN_SIZE offset mod 4 = 0.
Proof. intros Ho. rewrite mem_align_size, Z.mul_comm by lia. by rewrite Z.mod_mul. Qed.

(** One round of the loop, up to the link from the previous pbuf. *)
Lemma pool_init (h : pbuf_heap) q rem offset :
  q mod 4 = 0 -> 0 <= q < 18446744073709400000 -> 0 <= offset <= 74 ->
  let room := LWIP_MEM_ALIGN_SIZE offset in
  pbuf_init_alloced_pbuf h q (LWIP_MEM_ALIGN (q + SIZEOF_STRUCT_PBUF + offset)) rem
    (Z.min rem (u16 (PBUF_POOL_BUFSIZE_ALIGNED - room))) PBUF_POOL 0 false
  = <[q := pool_node q rem room]> h /\
  (LWIP_MEM_ALIGN (q + SIZEOF_STRUCT_PBUF + offset)) mod MEM_ALIGNMENT = 0 /\
  0 < u32 (PBUF_POOL_BUFSIZE_ALIGNED - room) /\ u16 (PBUF_POOL_BUFSIZE_ALIGNED - room) = 256 - room /\
  0 <= room <= 76.
Proof.
  intros Hq Hr Ho room. rewrite mem_align_payload by lia. fold room.
  assert (0 <= room <= 76 /\ room mod 4 = 0) as [Hroom Hmod].
  { unfold room. split; [|apply align_room_mod; lia]. rewrite mem_align_size by lia.
    pose proof (Z.div_le_mono (offset + 3) 77 4). pose proof (Z.div_pos (offset + 3) 4).
    change (77 / 4) with 19 in *. lia. }
  change PBUF_POOL_BUFSIZE_ALIGNED with 256. rewrite u16_small, u32_small by lia.
  split_and!; [done| |lia|done|lia..]. unfold MEM_ALIGNMENT. change SIZEOF_STRUCT_PBUF with (6 * 4).
  rewrite <- Z.add_assoc, Z.add_mod, Hq, Z.add_0_l, Z.mod_mod by lia.
  rewrite Z.add_comm, Z.mod_add by lia. done.
Qed.

Record answers_ok (h : pbuf_heap) (l : list Z) (memp : list (option Z)) : Prop := AnswersOk {
  an_nodup : NoDup (omap id memp);
  an_fresh : forall q, Some q ∈ memp -> h !! q = None /\ (q ∉ l) /\ q mod 4 = 0 /\ 0 <= q < 18446744073709400000 }.

Lemma answers_ok_cons h l q memp :
  answers_ok h l (Some q :: memp) ->
  (h !! q = None /\ (q ∉ l) /\ q mod 4 = 0 /\ 0 <= q < 18446744073709400000) /\ answers_ok h (l ++ [q]) memp.
Proof.
  intros [Hnd Hf]. cbn [omap list_omap id] in Hnd. apply NoDup_cons in Hnd as [Hq Hnd].
  split; [apply Hf; by left|]. split; [done|]. intros x Hx. destruct (Hf x) as (? & ? & ? & ?); [by right|].
  split_and!; [done| |done|lia..]. rewrite not_elem_of_app. split; [done|].
  intros ->%list_elem_of_singleton. apply Hq, list_elem_of_omap. by exists (Some q).
Qed.

(** What the pool gives: the chain, or nothing and nothing is lost. *)
Definition pool_result (h : pbuf_heap) (layer total : Z) (r : option Z) (h' : pbuf_heap) : Prop :=
  match r with
  | None => h' = h
  | Some p => exists l, pool_chain h h' layer total (p :: l) 0
  end.

Lemma pbuf_alloc_pool_next memp h h1 layer total x l0 z rem :
  pool_chain h h1 layer total (l0 ++ [z]) rem -> head (l0 ++ [z]) = Some x -> 0 < rem < 65536 ->
  answers_ok h (l0 ++ [z]) memp ->
  exists r h', pbuf_alloc_pool memp h1 (Some x) (Some z) rem 0 = Ret (r, h') /\
    pool_result h layer total r h'.
Proof.
  revert h1 l0 z rem. induction memp as [|[q|] memp IH]; intros h1 l0 z rem Hpc Hx Hr Han; cbn [pbuf_alloc_pool].
  1, 3: destruct (l0 ++ [z]) as [|y l] eqn:Hl; [done|]; injection Hx as ->;
    destruct (pbuf_free_fresh h h1 x l (pc_fresh _ _ _ _ _ _ Hpc)) as [count Hfree];
    rewrite Hfree; by eexists None, h.
  destruct (answers_ok_cons _ _ _ _ Han) as ((Hhq & Hql & Hq4 & Hqr) & Han').
  destruct (pool_init h1 q rem 0 Hq4 Hqr ltac:(lia)) as (-> & -> & Hpos & -> & _).
  apply Z.ltb_lt in Hpos. rewrite Hpos. cbn [LWIP_ASSERT mbind outcome_bind deref Z.eqb].
  assert (is_Some (h1 !! z)) as [zn Hz].
  { eapply path_in_heap; [apply (fc_path _ _ _ (pc_fresh _ _ _ _ _ _ Hpc))|]. apply elem_of_app. right. by left. }
  rewrite lookup_insert_ne by (intros ->; apply Hql, elem_of_app; right; by left).
  rewrite Hz. cbn [deref mbind outcome_bind]. change (LWIP_MEM_ALIGN_SIZE 0) with 0.
  fold (appended h1 z zn q (pool_node q rem 0)).
  pose proof (pool_chain_snoc h h1 layer total l0 z zn q rem Hpc Hz Hql Hhq ltac:(lia)) as Hpc'.
  change PBUF_POOL_BUFSIZE_ALIGNED with 256 in *. rewrite Z.sub_0_r, u16_small by lia.
  destruct (Z.ltb_spec 0 (rem - Z.min rem 256)) as [Hgt|Hle].
  - apply IH with (l0 ++ [z]); [exact Hpc'|by rewrite head_snoc|lia|exact Han'].
  - eexists (Some x), _. split; [done|]. replace (rem - Z.min rem 256) with 0 in Hpc' by lia.
    destruct l0 as [|y l0]; injection Hx as ->; [exists [q]|exists ((l0 ++ [z]) ++ [q])]; exact Hpc'.
Qed.

Lemma pbuf_alloc_pool_spec memp h layer length :
  0 <= length < 65536 -> answers_ok h [] memp ->
  exists r h', pbuf_alloc_pool memp h None None length (pbuf_layer_value layer) = Ret (r, h') /\
    pool_result h (layer_room layer) length r h'.
Proof.
  intros Hlen Han. destruct memp as [|[q|] memp]; cbn [pbuf_alloc_pool]; [by eexists None, h| |by eexists None, h].
  destruct (answers_ok_cons _ _ _ _ Han) as ((Hhq & _ & Hq4 & Hqr) & Han').
  destruct (pool_init h q length (pbuf_layer_value layer) Hq4 Hqr (pbuf_layer_range layer)) as (-> & -> & Hpos & -> & _).
  fold (layer_room layer) in *. apply Z.ltb_lt in Hpos. rewrite Hpos. cbn [LWIP_ASSERT mbind outcome_bind Z.eqb].
  destruct (layer_room_range layer) as [Hroom _]. pose proof (pbuf_layer_range layer).
  change PBUF_POOL_BUFSIZE_ALIGNED with 256 in *.
  pose proof (pool_chain_one h q (layer_room layer) length Hhq Hlen ltac:(split; [lia|by destruct layer])) as Hpc.
  change PBUF_POOL_BUFSIZE_ALIGNED with 256 in *.
  rewrite u16_small by lia. destruct (Z.ltb_spec 0 (length - Z.min length (256 - layer_room layer))) as [Hgt|Hle].
  - apply (pbuf_alloc_pool_next memp h _ (layer_room layer) length q []); [exact Hpc|done|lia|exact Han'].
  - eexists (Some q), _. split; [done|]. exists [].
    replace (length - Z.min length (256 - layer_room layer)) with 0 in Hpc by lia. done.
Qed.

(** Where the payload of a pbuf of a type is. *)
Definition payload_placed (type : pbuf_type) (mem_malloc : Z -> option Z) (p : Z) (n : pbuf_node) : Prop :=
  match type with
  | PBUF_POOL => in_block PBUF_POOL_BUFSIZE_ALIGNED p n
  | PBUF_RAM => exists size_, mem_malloc (SIZEOF_STRUCT_PBUF + size_) = Some p /\ in_block size_ p n
  | PBUF_REF | PBUF_ROM => pn_payload n = 0
  end.

(** A chain of [length] bytes that only its caller knows. *)
Record allocated (h h' : pbuf_heap) (length : Z) (type : pbuf_type) (mem_malloc : Z -> option Z)
    (room p : Z) (l : list Z) : Prop := Allocated {
  al_fresh : fresh_chain h h' (p :: l);
  al_wf : chain_wf (segs h' (p :: l));
  al_len : chain_len (segs h' (p :: l)) = length;
  al_placed : forall x n, x ∈ p :: l -> h' !! x = Some n ->
    payload_placed type mem_malloc x n /\ pn_type_internal n = u8 (pbuf_type_value type);
  al_room : forall n, h' !! p = Some n -> type = PBUF_RAM \/ type = PBUF_POOL ->
    pn_payload n = p + SIZEOF_STRUCT_PBUF + room }.

Lemma u8_type_ok type : 0 <= Z.land (u8 (pbuf_type_value type)) PBUF_TYPE_ALLOC_SRC_MASK <= 2.
Proof. by destruct type. Qed.

Lemma allocated_one h p payload length type mem_malloc room :
  h !! p = None -> 0 <= length < 65536 ->
  let h' := pbuf_init_alloced_pbuf h p payload length length type 0 false in
  (forall n, h' !! p = Some n -> payload_placed type mem_malloc p n) ->
  (type = PBUF_RAM \/ type = PBUF_POOL -> payload = p + SIZEOF_STRUCT_PBUF + room) ->
  allocated h h' length type mem_malloc room p [].
Proof.
  intros Hp Hlen h' Hpl Hroom. assert (h' !! p = Some (PbufNode None payload length length
    (u8 (pbuf_type_value type)) 0 1 NETIF_NO_INDEX false)) as Hn by apply lookup_insert_eq.
  split.
  - apply fresh_chain_one; [done..|]. unfold node_ok. rewrite decide_True by done. apply u8_type_ok.
  - rewrite (segs_cons _ _ _ _ Hn). cbn [segs omap list_omap chain_wf chain_len pn_seg sg_len sg_tot_len pn_len pn_tot_len].
    lia.
  - rewrite (segs_cons _ _ _ _ Hn). cbn [segs omap list_omap chain_len pn_seg sg_len pn_len]. lia.
  - intros x n ->%list_elem_of_singleton Hx. split; [by apply Hpl|]. simplify_eq/=. done.
  - intros n Hx Ht. simplify_eq/=. by apply Hroom.
Qed.

Lemma mem_align_size_bounds z : 0 <= z < 4294967292 -> z <= LWIP_MEM_ALIGN_SIZE z < z + 4.
Proof.
  intros Hz. rewrite mem_align_size by lia. pose proof (Z.div_mod (z + 3) 4 ltac:(lia)).
  pose proof (Z.mod_pos_bound (z + 3) 4 ltac:(lia)). lia.
Qed.

(** Blocks of the heap of lwIP are aligned and not in use. *)
Definition heap_answers (h : pbuf_heap) (mem_malloc : Z -> option Z) : Prop :=
  forall size_ p, mem_malloc size_ = Some p -> h !! p = None /\ p mod 4 = 0 /\ 0 <= p < 18446744073709400000.

(** The test for overflow of 16 bits is exact. *)
Lemma u16_wraps a b : 0 <= a <= 100 -> 0 <= b <= 65636 -> (u16 (a + b) <? b) = false -> u16 (a + b) = a + b.
Proof.
  intros Ha Hb Hlt%Z.ltb_ge. destruct (Z.ltb_spec (a + b) 65536); [apply u16_small; lia|].
  replace (a + b) with (a + b - 65536 + 1 * 65536) in Hlt by lia.
  unfold u16 in Hlt. rewrite Z.mod_add, Z.mod_small in Hlt by lia. lia.
Qed.

Lemma pbuf_alloc_ram h layer length memp mem_malloc :
  0 <= length < 65536 -> heap_answers h mem_malloc ->
  exists r h', pbuf_alloc h layer length PBUF_RAM memp mem_malloc = Ret (r, h') /\
    match r with
    | None => h' = h
    | Some p => allocated h h' length PBUF_RAM mem_malloc (layer_room layer) p []
    end.
Proof.
  intros Hlen Hheap. unfold pbuf_alloc. pose proof (pbuf_layer_range layer) as Hl.
  rewrite (u16_small (pbuf_layer_value layer)) by lia.
  pose proof (mem_align_size_bounds length ltac:(lia)). destruct (layer_room_range layer) as [Hroom Hroom4].
  fold (layer_room layer). change (LWIP_MEM_ALIGN_SIZE SIZEOF_STRUCT_PBUF) with 24.
  set (room := layer_room layer) in *. set (al := LWIP_MEM_ALIGN_SIZE length) in *.
  destruct (u16 (room + al) <? al) eqn:H1; [by eexists None, h|].
  pose proof (u16_wraps room al ltac:(lia) ltac:(lia) H1) as E1. rewrite E1. rewrite E1 in H1.
  pose proof (u16_range (room + al)). cbn [orb].
  destruct (u16 (24 + (room + al)) <? al) eqn:H2; [by eexists None, h|].
  assert (u16 (24 + (room + al)) = 24 + (room + al)) as E2.
  { rewrite Z.add_assoc. apply u16_wraps; [lia..|]. rewrite <- Z.add_assoc. done. }
  rewrite E2. destruct (mem_malloc (24 + (room + al))) as [p|] eqn:Hm; [|by eexists None, h].
  destruct (Hheap _ _ Hm) as (Hp & Hp4 & Hpr).
  rewrite mem_align_payload by lia. fold (layer_room layer). fold room.
  eexists (Some p), _. split.
  - replace ((p + SIZEOF_STRUCT_PBUF + room) mod MEM_ALIGNMENT) with 0; [done|].
    unfold MEM_ALIGNMENT. change SIZEOF_STRUCT_PBUF with (6 * 4).
    rewrite (Z.add_comm p), <- Z.add_assoc, Z.add_comm, Z.mod_add, Z.add_mod, Hp4, Hroom4 by lia. done.
  - apply allocated_one; [done..| |done]. intros n Hn.
    unfold pbuf_init_alloced_pbuf in Hn. rewrite lookup_insert_eq in Hn. injection Hn as <-. exists (room + al).
    split; [done|]. unfold in_block. cbn [pn_payload pn_len]. lia.
Qed.

Lemma pbuf_alloc_ok h layer length type memp mem_malloc :
  0 <= length < 65536 -> answers_ok h [] memp -> heap_answers h mem_malloc ->
  exists r h', pbuf_alloc h layer length type memp mem_malloc = Ret (r, h') /\
    match r with
    | None => h' = h
    | Some p => exists l, allocated h h' length type mem_malloc (layer_room layer) p l
    end.
Proof.
  intros Hlen Han Hheap.
  assert (type = PBUF_ROM \/ type = PBUF_REF -> exists r h', pbuf_alloc h layer length type memp mem_malloc = Ret (r, h') /\
    match r with
    | None => h' = h
    | Some p => exists l, allocated h h' length type mem_malloc (layer_room layer) p l
    end) as Href.
  { intros Ht. destruct memp as [|[p|] memp].
    1, 3: by exists None, h; destruct Ht as [->| ->].
    destruct (answers_ok_cons _ _ _ _ Han) as ((Hp & _) & _).
    eexists (Some p), _. split; [by destruct Ht as [->| ->]|]. exists [].
    apply allocated_one; [done..| |by destruct Ht as [->| ->]; intros [|]].
    intros n Hn. unfold pbuf_init_alloced_pbuf in Hn. rewrite lookup_insert_eq in Hn. injection Hn as <-.
    by destruct Ht as [->| ->]. }
  destruct type; [|by apply Href; left|by apply Href; right|].
  - destruct (pbuf_alloc_ram h layer length memp mem_malloc Hlen Hheap) as (r & h' & Heq & Hr).
    exists r, h'. split; [done|]. destruct r; [by eexists|done].
  - destruct (pbuf_alloc_pool_spec memp h layer length Hlen Han) as (r & h' & Heq & Hr).
    exists r, h'. split; [unfold pbuf_alloc; rewrite u16_small by (pose proof (pbuf_layer_range layer); lia); done|].
    destruct r as [p|]; [|done]. destruct Hr as (l & [Hfc Hrem Htot Hbl Hroom]). exists l. split.
    + done.
    + by apply chain_rem_0.
    + lia.
    + done.
    + intros n Hn _. by apply Hroom.
Qed.

(** ** Headers *)

(** The first pbuf with its payload moved to the front by [k] bytes. *)
Definition moved (n : pbuf_node) (k : Z) : pbuf_node :=
  pn_set_tot_len (pn_set_len (pn_set_payload n (pn_payload n - k)) (pn_len n + k)) (pn_tot_len n + k).

Lemma moved_moved n k : moved (moved n (- k)) k = n.
Proof.
  destruct n. unfold moved, pn_set_tot_len, pn_set_len, pn_set_payload. cbn. f_equal; lia.
Qed.

Definition header_fits (p : Z) (n : pbuf_node) (k : Z) : Prop :=
  pn_tot_len n + k < 65536 /\ Z.land (pn_type_internal n) PBUF_TYPE_FLAG_STRUCT_DATA_CONTIGUOUS <> 0 /\
  p + SIZEOF_STRUCT_PBUF <= pn_payload n - k.

#[export] Instance header_fits_dec p n k : Decision (header_fits p n k).
Proof. unfold header_fits. apply _. Defined.

(** A pbuf whose lengths are in range. *)
Definition lens_ok (n : pbuf_node) : Prop := 0 <= pn_len n <= pn_tot_len n /\ pn_tot_len n < 65536.

Lemma pbuf_add_header_spec (h : pbuf_heap) p n k :
  h !! p = Some n -> lens_ok n -> 0 <= k ->
  pbuf_add_header h (Some p) k =
    if decide (k = 0) then Ret (0, h)
    else if decide (header_fits p n k) then Ret (0, <[p := moved n k]> h) else Ret (1, h).
Proof.
  intros Hp [Hl Ht] Hk. unfold pbuf_add_header, pbuf_add_header_impl.
  destruct (Z.ltb_spec 65535 k) as [Hbig|Hsm].
  { rewrite decide_False by lia. rewrite decide_False; [done|]. intros (? & _). lia. }
  destruct (Z.eqb_spec k 0) as [->|Hk0]; [done|]. rewrite (decide_False (P := k = 0)) by done.
  rewrite Hp. cbn [deref mbind outcome_bind]. rewrite (u16_small k) by lia.
  destruct (Z.ltb_spec (pn_tot_len n + k) 65536) as [Hfit|Hwrap].
  - rewrite (u16_small (k + _)), (u16_small (_ + k)), (u16_small (pn_tot_len n + k)) by lia.
    rewrite (proj2 (Z.ltb_ge _ _)) by lia.
    destruct (Z.eqb_spec (Z.land (pn_type_internal n) PBUF_TYPE_FLAG_STRUCT_DATA_CONTIGUOUS) 0) as [Hc|Hc]; cbn [negb].
    + rewrite decide_False; [done|]. by intros (_ & ? & _).
    + destruct (Z.ltb_spec (pn_payload n - k) (p + SIZEOF_STRUCT_PBUF)).
      * rewrite decide_False; [done|]. intros (_ & _ & ?). lia.
      * by rewrite decide_True.
  - rewrite decide_False by (intros (? & _); lia).
    replace (k + pn_tot_len n) with (k + pn_tot_len n - 65536 + 1 * 65536) by lia.
    unfold u16. rewrite Z.mod_add, Z.mod_small by lia. rewrite (proj2 (Z.ltb_lt _ _)) by lia. done.
Qed.

Lemma pbuf_remove_header_spec (h : pbuf_heap) p n k :
  h !! p = Some n -> lens_ok n -> 0 <= k ->
  pbuf_remove_header h (Some p) k =
    if decide (k = 0) then Ret (0, h)
    else if decide (k <= pn_len n) then Ret (0, <[p := moved n (- k)]> h) else Ret (1, h).
Proof.
  intros Hp [Hl Ht] Hk. unfold pbuf_remove_header.
  destruct (Z.ltb_spec 65535 k) as [Hbig|Hsm].
  { rewrite !decide_False by lia. done. }
  destruct (Z.eqb_spec k 0) as [->|Hk0]; [done|]. rewrite (decide_False (P := k = 0)) by done.
  rewrite Hp. cbn [deref mbind outcome_bind]. rewrite (u16_small k) by lia.
  destruct (Z.leb_spec k (pn_len n)) as [Hle|Hgt]; cbn [negb].
  - rewrite decide_True, !u16_small by lia. unfold moved. do 3 f_equal.
    replace (pn_payload n - - k) with (pn_payload n + k) by lia. done.
  - by rewrite decide_False by lia.
Qed.

(** Only the first pbuf of the chain changes. *)
Lemma segs_moved (h : pbuf_heap) p n k l :
  h !! p = Some n -> path h (Some p) l -> exists l',
    l = p :: l' /\ segs h l = pn_seg n :: segs h l' /\
    segs (<[p := moved n k]> h) l = pn_seg (moved n k) :: segs h l' /\ path (<[p := moved n k]> h) (Some p) l.
Proof.
  intros Hp Hl. pose proof (path_nodup _ _ _ Hl) as Hnd. destruct l as [|x l]; [done|].
  pose proof Hl as (Hx & _). injection Hx as <-. apply NoDup_cons in Hnd as [Hpl _]. exists l.
  split_and!; [done|by apply segs_cons| |].
  - rewrite (segs_cons _ _ _ (moved n k)) by apply lookup_insert_eq. f_equal. apply segs_ext.
    intros y Hy. rewrite lookup_insert_ne; [done|]. by intros ->.
  - refine (path_ext _ _ _ _ _ Hl). intros y _. destruct (decide (y = p)) as [->|Hne].
    + by rewrite lookup_insert_eq, Hp.
    + by rewrite lookup_insert_ne.
Qed.

Lemma chain_wf_moved n k q :
  chain_wf (pn_seg n :: q) -> 0 <= pn_len n + k -> pn_tot_len n + k < 65536 -> chain_wf (pn_seg (moved n k) :: q).
Proof.
  intros (? & Ht & ? & ?) Hl Hb. cbn [chain_wf chain_len pn_seg moved sg_len sg_tot_len] in *. split_and!; try done.
  cbn. cbn in Ht. lia.
Qed.

Lemma chain_wf_lens_ok n q : chain_wf (pn_seg n :: q) -> lens_ok n.
Proof. intros (? & ? & ? & ? & _)%chain_wf_cons. unfold lens_ok. cbn in *. lia. Qed.

(** C33. Moving headers is exact. Of a packet in a chain of pbufs
    [pbuf_remove_header] hides the first [k] bytes when the first pbuf has them,
    and does nothing and reports it otherwise; [pbuf_add_header] reveals the [k]
    bytes in front of the payload exactly when the pbuf has its payload behind
    it, they are in its block, and the length of the packet still fits 16 bits.
    Both keep the lengths of the chain right; and what was hidden is revealed
    again, the heap being as it was. *)
Theorem pbuf_header_exact (h : pbuf_heap) (m : mem) (p : Z) (n : pbuf_node) (l : list Z) (k : Z) :
  h !! p = Some n -> path h (Some p) l -> chain_wf (segs h l) -> 0 <= k ->
  (if decide (k <= pn_len n) then
     exists h1, pbuf_remove_header h (Some p) k = Ret (0, h1) /\
       path h1 (Some p) l /\ chain_wf (segs h1 l) /\
       chain_bytes m (segs h1 l) = drop (Z.to_nat k) (chain_bytes m (segs h l)) /\
       (header_fits p n 0 -> pbuf_add_header h1 (Some p) k = Ret (0, h))
   else pbuf_remove_header h (Some p) k = Ret (1, h)) /\
  (if decide (k = 0 \/ header_fits p n k) then
     exists h1, pbuf_add_header h (Some p) k = Ret (0, h1) /\
       path h1 (Some p) l /\ chain_wf (segs h1 l) /\
       chain_bytes m (segs h1 l) = slice m (pn_payload n - k) k ++ chain_bytes m (segs h l)
   else pbuf_add_header h (Some p) k = Ret (1, h)).
Proof.
  intros Hp Hl Hwf Hk.
  destruct (segs_moved h p n (- k) l Hp Hl) as (l' & Hll & Hseg & Hsegd & Hpd).
  destruct (segs_moved h p n k l Hp Hl) as (l2 & Hl2 & _ & Hsegu & Hpu). simplify_eq.
  pose proof Hwf as Hwf0. rewrite Hseg in Hwf. pose proof (chain_wf_lens_ok _ _ Hwf) as Hok.
  rewrite (pbuf_remove_header_spec h p n k Hp Hok Hk), (pbuf_add_header_spec h p n k Hp Hok Hk). split.
  - destruct (decide (k = 0)) as [->|Hk0].
    { destruct (decide (0 <= pn_len n)); [|by destruct Hok; lia]. exists h. split_and!; done. }
    destruct (decide (k <= pn_len n)) as [Hle|Hgt]; [|done]. eexists. split; [done|]. split; [done|].
    assert (chain_wf (segs (<[p:=moved n (- k)]> h) (p :: l2))) as Hwf1.
    { rewrite Hsegd. apply chain_wf_moved; [done|lia|]. destruct Hok. lia. }
    split; [done|]. split.
    + rewrite Hsegd, Hseg, !chain_bytes_cons, drop_app_le by (rewrite length_slice; cbn; lia).
      rewrite drop_slice. cbn [pn_seg moved sg_payload sg_len pn_set_tot_len pn_set_len pn_set_payload pn_payload pn_len].
      do 2 f_equal; lia.
    + intros (Hf & Hc & Hs).
      rewrite (pbuf_add_header_spec _ p (moved n (- k))); [|apply lookup_insert_eq| |done].
      2:{ rewrite Hsegd in Hwf1. by eapply chain_wf_lens_ok. }
      rewrite decide_False by done. rewrite decide_True.
      * by rewrite insert_insert_eq, moved_moved, insert_id.
      * unfold header_fits. cbn. split_and!; [destruct Hok; lia|done|lia].
  - destruct (decide (k = 0)) as [->|Hk0].
    { rewrite decide_True by tauto. exists h. split_and!; [done..|]. by rewrite slice_nil. }
    destruct (decide (header_fits p n k)) as [Hfit|Hno]; [|rewrite decide_False by tauto; done].
    rewrite decide_True by tauto. eexists. split; [done|]. split; [done|]. destruct Hfit as (Hf & _). split.
    + rewrite Hsegu. apply chain_wf_moved; [done| |done]. destruct Hok. lia.
    + rewrite Hsegu, Hseg, !chain_bytes_cons.
      cbn [pn_seg moved sg_payload sg_len pn_set_tot_len pn_set_len pn_set_payload pn_payload pn_len].
      rewrite app_assoc. f_equal. rewrite (slice_split m _ k) by (destruct Hok; lia). f_equal. f_equal; lia.
Qed.

(** ** Allocation, for the caller *)

Lemma allocated_headroom h h' length type mem_malloc layer p l k :
  allocated h h' length type mem_malloc (layer_room layer) p l -> type = PBUF_RAM \/ type = PBUF_POOL ->
  0 <= k <= pbuf_layer_value layer -> length + k < 65536 ->
  exists h2, pbuf_add_header h' (Some p) k = Ret (0, h2).
Proof.
  intros [Hfc Hwf Hlen Hpl Hroom] Ht Hk Hfit.
  destruct (fc_path _ _ _ Hfc) as (_ & n & Hn & _). rewrite (segs_cons _ _ _ _ Hn) in Hwf, Hlen.
  rewrite (pbuf_add_header_spec _ _ _ _ Hn (chain_wf_lens_ok _ _ Hwf)) by lia.
  destruct (decide (k = 0)) as [|]; [by eexists|]. rewrite decide_True; [by eexists|].
  pose proof (layer_room_range layer) as [Hlr _]. destruct Hwf as (_ & Htot & _). rewrite Hlen in Htot.
  cbn [pn_seg sg_tot_len] in Htot. unfold header_fits. rewrite (Hroom n Hn Ht).
  destruct (Hpl p n ltac:(by left) Hn) as [_ ->]. split_and!; [lia| |lia].
  by destruct Ht as [->| ->].
Qed.

(** [pbuf_alloc] gives a packet of its caller's own, or nothing.  It returns
    for every layer, length, type and answer of the pools.  A packet is a chain
    of new pbufs with one pointer each, [length] bytes in all and the lengths
    right, each payload inside the block of its pbuf (none yet for [PBUF_ROM] and
    [PBUF_REF]), and nothing else changes; one from [PBUF_RAM] or [PBUF_POOL] has
    room for the headers of its layer.  Without memory, also in the middle of a
    chain, the result is [NULL] and the heap is what it was. *)
Theorem pbuf_alloc_chain (h : pbuf_heap) (own : Z -> nat) (layer : pbuf_layer) (length : Z) (type : pbuf_type)
    (memp : list (option Z)) (mem_malloc : Z -> option Z) :
  refs_ok h own -> 0 <= length < 65536 -> answers_ok h [] memp -> heap_answers h mem_malloc ->
  exists r h', pbuf_alloc h layer length type memp mem_malloc = Ret (r, h') /\
    match r with
    | None => h' = h
    | Some p =>
        refs_ok h' (own_add own p) /\ (forall x n, h !! x = Some n -> h' !! x = Some n) /\
        (exists l, path h' (Some p) (p :: l) /\ chain_wf (segs h' (p :: l)) /\ chain_len (segs h' (p :: l)) = length /\
           forall x, x ∈ p :: l -> h !! x = None /\
             exists n, h' !! x = Some n /\ pn_ref n = 1 /\ payload_placed type mem_malloc x n) /\
        (forall k, type = PBUF_RAM \/ type = PBUF_POOL -> 0 <= k <= pbuf_layer_value layer -> length + k < 65536 ->
           exists h2, pbuf_add_header h' (Some p) k = Ret (0, h2))
    end.
Proof.
  intros Hok Hlen Han Hheap.
  destruct (pbuf_alloc_ok h layer length type memp mem_malloc Hlen Han Hheap) as (r & h' & Heq & Hr).
  exists r, h'. split; [done|]. destruct r as [p|]; [|done]. destruct Hr as (l & Hal).
  pose proof Hal as [Hfc Hwf Hl Hpl Hroom]. split_and!.
  - by apply fresh_chain_refs with h l.
  - intros x n Hx. rewrite (fc_kept _ _ _ Hfc); [done|].
    intros Hin. pose proof (fc_fresh _ _ _ Hfc x Hin). congruence.
  - exists l. split_and!; [apply (fc_path _ _ _ Hfc)|done..|]. intros x Hx. split; [by apply (fc_fresh _ _ _ Hfc)|].
    destruct (fc_nodes _ _ _ Hfc x Hx) as (n & Hn & Href & _). exists n. split_and!; [done..|]. by apply Hpl.
  - intros k Ht Hk Hfit. by eapply allocated_headroom.
Qed.

(** 400 bytes from the pool, in two pbufs. *)
Lemma pbuf_alloc_chain_witness :
  exists h', pbuf_alloc ∅ PBUF_TRANSPORT 400 PBUF_POOL [Some 1000; Some 2000; None] (fun _ => None) = Ret (Some 1000, h') /\
    refs_ok h' (own_add (fun _ => O) 1000).
Proof.
  destruct (pbuf_alloc_chain ∅ (fun _ => O) PBUF_TRANSPORT 400 PBUF_POOL [Some 1000; Some 2000; None] (fun _ => None))
    as (r & h' & Heq & Hr).
  - by split.
  - lia.
  - split; [repeat constructor; set_solver|]. intros q Hq. rewrite !elem_of_cons in Hq.
    destruct Hq as [[= ->]|[[= ->]|[|Hq]]]; [split_and!; (done || apply not_elem_of_nil || lia)..|done|].
    by apply elem_of_nil in Hq.
  - by intros ? ?.
  - assert (r = Some 1000) as -> by (vm_compute in Heq; by injection Heq).
    exists h'. split; [exact Heq|]. by apply Hr.
Defined.

(** The packet of two pbufs of [example_heap]: its first pbuf has two
    bytes, and room for six in front of them. *)
Lemma pbuf_header_exact_witness :
  exists h1, pbuf_remove_header example_heap (Some 10) 2 = Ret (0, h1) /\
    chain_bytes (fun x => x) (segs h1 [10; 20]) = [80; 81; 82] /\
    pbuf_add_header h1 (Some 10) 2 = Ret (0, example_heap) /\
    pbuf_add_header example_heap (Some 10) 7 = Ret (1, example_heap).
Proof.
  destruct (pbuf_header_exact example_heap (fun x => x) 10 (PbufNode (Some 20) 40 5 2 130 0 1 0 false) [10; 20] 2)
    as [(h1 & Heq & _ & _ & Hb & Hback) _]; [done|repeat (split; [done|]; eexists; split; [done|]); done|by vm_compute|lia|].
  exists h1. split; [exact Heq|]. split; [rewrite Hb; by vm_compute|].
  split; [apply Hback; split_and!; by vm_compute|].
  apply (pbuf_header_exact example_heap (fun x => x) 10 (PbufNode (Some 20) 40 5 2 130 0 1 0 false) [10; 20] 7);
    [done|repeat (split; [done|]; eexists; split; [done|]); done|by vm_compute|lia].
Defined.
