(* ===== verification/PbufTrim.v ===== *)
(** * Trimming of packet buffers ([lwip/src/core/pbuf.c])

    [pbuf_realloc] takes bytes off the end of a packet and [pbuf_free_header]
    off its front; both give pbufs back to whoever allocated them. *)
From S2P Require Import Prelude Memory Operation Lwip Pbuf PbufRef PbufAlloc.

(** ** The code *)

(** [while (rem_len > q->len)]: the new last pbuf, and its length. *)
Fixpoint pbuf_realloc_skip (fuel : nat) (h : pbuf_heap) (q rem_len shrink : Z)
    : outcome (Z * Z * pbuf_heap) :=
  match fuel with
  | O => NoFuel
  | S fuel =>
      n ← deref (h !! q);
      if pn_len n <? rem_len then
        let h := <[q := pn_set_tot_len n (u16 (pn_tot_len n - shrink))]> h in
        match pn_next n with
        | Some next => pbuf_realloc_skip fuel h next (u16 (rem_len - pn_len n)) shrink
        | None => _ ← LWIP_ASSERT false; Undefined
        end
      else Ret (q, rem_len, h)
  end.

Definition pbuf_match_allocsrc (n : pbuf_node) (type : Z) : bool :=
  Z.land (pn_type_internal n) PBUF_TYPE_ALLOC_SRC_MASK =? Z.land type PBUF_TYPE_ALLOC_SRC_MASK.

Definition pbuf_realloc (h : pbuf_heap) (p : option Z) (new_len : Z) (mem_trim : Z -> Z -> option Z)
    : outcome pbuf_heap :=
  _ ← LWIP_ASSERT (bool_decide (p <> None));
  p ← deref p;
  n ← deref (h !! p);
  if pn_tot_len n <=? new_len then Ret h
  else
    let shrink := u16 (pn_tot_len n - new_len) in
    '(q, rem_len, h) ← pbuf_realloc_skip (S (size h)) h p new_len shrink;
    n ← deref (h !! q);
    _ ←
      if pbuf_match_allocsrc n PBUF_TYPE_ALLOC_SRC_MASK_STD_HEAP && negb (rem_len =? pn_len n)
         && (Z.land (pn_flags n) PBUF_FLAG_IS_CUSTOM =? 0) then
        let r := mem_trim q (u16 (pn_payload n - q + rem_len)) in
        _ ← LWIP_ASSERT (bool_decide (r <> None));
        LWIP_ASSERT (bool_decide (r = Some q))
      else Ret tt;
    let h := <[q := pn_set_tot_len (pn_set_len n rem_len) rem_len]> h in
    h ← match pn_next n with
        | Some next => '(_, h) ← pbuf_free h (Some next); Ret h
        | None => Ret h
        end;
    n ← deref (h !! q);
    Ret (<[q := pn_set_next n None]> h).

(** [while (free_left && p)]. *)
Fixpoint pbuf_free_header_loop (fuel : nat) (h : pbuf_heap) (p : option Z) (free_left : Z)
    : outcome (option Z * pbuf_heap) :=
  match fuel with
  | O => NoFuel
  | S fuel =>
      match p with
      | Some f =>
          if free_left =? 0 then Ret (p, h)
          else
            n ← deref (h !! f);
            if pn_len n <=? free_left then
              let free_left := u16 (free_left - pn_len n) in
              let h := <[f := pn_set_next n None]> h in
              '(_, h) ← pbuf_free h (Some f);
              pbuf_free_header_loop fuel h (pn_next n) free_left
            else
              '(_, h) ← pbuf_remove_header h p free_left;
              pbuf_free_header_loop fuel h p 0
      | None => Ret (p, h)
      end
  end.

(** A pbuf of the chain per iteration, or the last test. *)
Definition pbuf_free_header (h : pbuf_heap) (q : option Z) (size_ : Z) : outcome (option Z * pbuf_heap) :=
  pbuf_free_header_loop (S (size h)) h q size_.

(** ** Trimming *)

(** Freeing a chain does not look at a pbuf outside it. *)
Lemma pbuf_dealloc_frame (h : pbuf_heap) q n' p n :
  q <> p -> pbuf_dealloc (<[q := n']> h) p n = (h' ← pbuf_dealloc h p n; Ret (<[q := n']> h')).
Proof.
  intros Hne. unfold pbuf_dealloc. rewrite (delete_insert_ne h p q) by done.
  destruct (negb _); [by destruct (pn_custom_free n)|]. repeat (destruct (_ =? _); [done|]). done.
Qed.

Lemma pbuf_free_loop_frame fuel (h : pbuf_heap) q n' p l count :
  path h p l -> q ∉ l ->
  pbuf_free_loop fuel (<[q := n']> h) p count =
    ('(c, h') ← pbuf_free_loop fuel h p count; Ret (c, <[q := n']> h')).
Proof.
  revert h p l count. induction fuel as [|fuel IH]; intros h p l count Hp Hq; [by destruct p|].
  destruct p as [p|]; [|done]. pose proof (path_nodup _ _ _ Hp) as Hnd. destruct l as [|x l]; [done|].
  apply NoDup_cons in Hnd as [Hxl _]. destruct Hp as (Hx & n & Hn & Hp). injection Hx as <-.
  apply not_elem_of_cons in Hq as [Hqp Hql]. cbn [pbuf_free_loop]. rewrite lookup_insert_ne, Hn by done.
  cbn [deref mbind outcome_bind]. destruct (0 <? pn_ref n); [|done]. cbn [LWIP_ASSERT mbind outcome_bind].
  rewrite (insert_insert_ne h p q) by done. destruct (u8 (pn_ref n - 1) =? 0); [|done].
  rewrite pbuf_dealloc_frame by done.
  destruct (pbuf_dealloc _ p n) as [h'|?| |] eqn:Hd; cbn [mbind outcome_bind]; [|done..].
  apply IH with l; [|done]. refine (path_ext _ _ _ _ _ Hp). intros y Hy.
  assert (y <> p) as Hyp by (by intros ->).
  assert (h' !! y = h !! y) as ->; [|done]. unfold pbuf_dealloc in Hd.
  assert (delete p (<[p:=pn_set_ref n (u8 (pn_ref n - 1))]> h) !! y = h !! y) as Hy1
    by (by rewrite lookup_delete_ne, lookup_insert_ne).
  destruct (negb _); [destruct (pn_custom_free n); [|done]|repeat (destruct (_ =? _); [by injection Hd as <-|]); done].
  by injection Hd as <-.
Qed.

Lemma pbuf_free_frame (h : pbuf_heap) q n' p l :
  is_Some (h !! q) -> path h (Some p) l -> q ∉ l ->
  pbuf_free (<[q := n']> h) (Some p) = ('(c, h') ← pbuf_free h (Some p); Ret (c, <[q := n']> h')).
Proof.
  intros Hq Hp Hl. unfold pbuf_free. rewrite map_size_insert_Some by done. by apply pbuf_free_loop_frame with l.
Qed.

(** Freeing the rest of a chain before or after it is cut off is the same. *)
Lemma pbuf_free_rest (h : pbuf_heap) own z n r :
  refs_ok h own -> h !! z = Some n -> pn_next n = Some r ->
  exists h' freed c, pbuf_free h (Some r) = Ret (c, <[z := n]> h') /\
    h' !! z = Some (pn_set_next n None) /\ refs_ok h' own /\
    freed_from (<[z := pn_set_next n None]> h) r freed h'.
Proof.
  intros Hok Hz Hr. pose proof (refs_ok_unlink h own z n r Hok Hz Hr) as Hu.
  set (hu := <[z := pn_set_next n None]> h) in *.
  destruct (pbuf_free_spec hu (own_add own r) r Hu) as (h' & freed & Heq & Hok' & Hf).
  { unfold own_add. by rewrite decide_True. }
  destruct (refs_ok_next _ _ _ _ _ Hok Hz Hr) as [rn Hrn]. destruct (ro_path _ _ Hok _ _ Hrn) as [l Hl].
  assert (z ∉ l) as Hzl.
  { assert (path h (Some z) (z :: l)) as Hzp by (split; [done|]; exists n; by rewrite Hr).
    apply path_nodup in Hzp. by apply NoDup_cons in Hzp as [? _]. }
  assert (path hu (Some r) l) as Hlu.
  { refine (path_ext _ _ _ _ _ Hl). intros x Hx. unfold hu. rewrite lookup_insert_ne; [done|]. by intros <-. }
  assert (is_Some (hu !! z)) as Hsz by (unfold hu; by rewrite lookup_insert_eq).
  assert (h' !! z = Some (pn_set_next n None)) as Hz'.
  { pose proof (pbuf_free_frame hu z (pn_set_next n None) r l Hsz Hlu Hzl) as Hfr.
    assert (<[z := pn_set_next n None]> hu = hu) as Hid by (unfold hu; apply insert_insert_eq).
    rewrite Hid, Heq in Hfr. cbn [mbind outcome_bind] in Hfr. injection Hfr as Hh'. rewrite Hh'. apply lookup_insert_eq. }
  exists h', freed, (u8 (Z.of_nat (length freed))). split_and!; [|done| |done].
  - assert (<[z := n]> hu = h) as Hid by (unfold hu; by rewrite insert_insert_eq, insert_id).
    pose proof (pbuf_free_frame hu z n r l Hsz Hlu Hzl) as Hfr. by rewrite Hid, Heq in Hfr.
  - eapply refs_ok_own; [exact Hok'|]. intros x. unfold own_add, own_drop. case_decide; subst; lia.
Qed.

(** The pbufs in front of the new last one. *)
Definition shrunk (g : list pbuf_seg) (shrink : Z) : list pbuf_seg :=
  (fun s => PbufSeg (sg_payload s) (sg_tot_len s - shrink) (sg_len s)) <$> g.

Lemma chain_len_shrunk g shrink : chain_len (shrunk g shrink) = chain_len g.
Proof. induction g as [|s g IH]; [done|]. cbn [shrunk fmap list_fmap chain_len sg_len]. unfold shrunk in IH. lia. Qed.

Lemma chain_bytes_shrunk m g shrink : chain_bytes m (shrunk g shrink) = chain_bytes m g.
Proof. induction g as [|s g IH]; [done|]. cbn [shrunk fmap list_fmap]. rewrite !chain_bytes_cons. by f_equal. Qed.

Lemma chain_wf_shrunk g1 s g2 rem :
  chain_wf (g1 ++ s :: g2) -> 0 <= rem <= sg_len s ->
  chain_wf (shrunk g1 (chain_len (g1 ++ s :: g2) - (chain_len g1 + rem)) ++ [PbufSeg (sg_payload s) rem rem]).
Proof.
  intros Hwf Hrem. induction g1 as [|p g1 IH]; cbn [app] in *.
  - apply chain_wf_cons in Hwf as (? & _). cbn [shrunk fmap list_fmap app chain_wf chain_len sg_len sg_tot_len]. lia.
  - pose proof Hwf as (? & ? & ? & ? & Hq)%chain_wf_cons. specialize (IH Hq).
    assert (chain_len (p :: g1 ++ s :: g2) - (chain_len (p :: g1) + rem) =
      chain_len (g1 ++ s :: g2) - (chain_len g1 + rem)) as -> by (cbn [chain_len]; lia).
    cbn [shrunk fmap list_fmap app chain_wf]. fold (shrunk g1 (chain_len (g1 ++ s :: g2) - (chain_len g1 + rem))).
    assert (chain_len g1 + rem <= chain_len (g1 ++ s :: g2)).
    { rewrite chain_len_app. cbn [chain_len].
      pose proof (chain_wf_lens _ Hq) as Hl. apply Forall_app in Hl as [_ Hl]. apply Forall_cons in Hl as [_ Hl].
      rewrite <- (length_chain_bytes (fun _ => 0) g2) by done. lia. }
    split_and!; [cbn [sg_len]; lia| |cbn [sg_tot_len]; lia|done].
    cbn [chain_len sg_len sg_tot_len]. rewrite (chain_len_app (shrunk _ _)), chain_len_shrunk.
    cbn [chain_len sg_len]. lia.
Qed.

Lemma take_chain_bytes m g1 s g2 rem :
  chain_wf (g1 ++ s :: g2) -> 0 <= rem <= sg_len s ->
  chain_bytes m (g1 ++ [PbufSeg (sg_payload s) rem rem]) =
  take (Z.to_nat (chain_len g1 + rem)) (chain_bytes m (g1 ++ s :: g2)).
Proof.
  intros Hwf Hrem. pose proof (chain_wf_lens _ Hwf) as Hl. apply Forall_app in Hl as [Hl _].
  pose proof (length_chain_bytes m g1 Hl) as Hlen.
  rewrite !chain_bytes_app, take_app_ge, !chain_bytes_cons, take_app_le by (rewrite ?length_slice; lia).
  f_equal. rewrite take_slice. cbn [chain_bytes chain_at pbuf_bytes fmap list_fmap concat sg_payload sg_len].
  rewrite app_nil_r. f_equal. lia.
Qed.

Lemma segs_lookup h l1 z l2 n :
  h !! z = Some n -> segs h (l1 ++ z :: l2) = segs h l1 ++ pn_seg n :: segs h l2.
Proof. intros Hz. by rewrite segs_app, (segs_cons _ _ _ _ Hz). Qed.

Lemma pbuf_realloc_skip_spec fuel h q l rem shrink :
  path h (Some q) l -> (length l <= fuel)%nat -> chain_wf (segs h l) -> 0 <= rem -> 0 <= shrink ->
  chain_len (segs h l) = rem + shrink ->
  exists l1 z l2 n rem' h', l = l1 ++ z :: l2 /\ pbuf_realloc_skip fuel h q rem shrink = Ret (z, rem', h') /\
    h !! z = Some n /\ 0 <= rem' <= pn_len n /\ rem = chain_len (segs h l1) + rem' /\
    same_shape h h' /\ segs h' l1 = shrunk (segs h l1) shrink /\ (forall x, x ∉ l1 -> h' !! x = h !! x).
Proof.
  revert h q l rem. induction fuel as [|fuel IH]; intros h q l rem Hp Hfuel Hwf Hrem Hshr Htot.
  { destruct l; [done|]. cbn [length] in Hfuel. lia. }
  pose proof (path_nodup _ _ _ Hp) as Hnd. destruct l as [|x l]; [done|]. apply NoDup_cons in Hnd as [Hql _].
  destruct Hp as (Hx & n & Hn & Hp). injection Hx as <-. rewrite (segs_cons _ _ _ _ Hn) in Hwf, Htot.
  pose proof Hwf as (Hl & Ht & Hb & Hl0 & Hwf')%chain_wf_cons. cbn [pn_seg sg_len sg_tot_len chain_len] in *.
  cbn [pbuf_realloc_skip]. rewrite Hn. cbn [deref mbind outcome_bind].
  destruct (Z.ltb_spec (pn_len n) rem) as [Hlt|Hge].
  - destruct (pn_next n) as [r|] eqn:Hr.
    2:{ destruct l; [cbn in Htot; lia|by destruct Hp]. }
    rewrite (u16_small (rem - pn_len n)) by lia. set (h1 := <[q := _]> h).
    assert (forall y, y <> q -> h1 !! y = h !! y) as Hh1 by (intros y Hy; unfold h1; by rewrite lookup_insert_ne).
    assert (forall y, y ∈ l -> h1 !! y = h !! y) as Hh1l by (intros y Hy; apply Hh1; by intros ->).
    assert (segs h1 l = segs h l) as Hsegs by (apply segs_ext; intros y Hy; by rewrite Hh1l).
    destruct (IH h1 r l (rem - pn_len n)) as (l1 & z & l2 & zn & rem' & h' & Hll & -> & Hz & Hrem' & Hsum & Hs & Hcut & Hkept).
    + refine (path_ext _ _ _ _ _ Hp). intros y Hy. by rewrite Hh1l.
    + cbn [length] in Hfuel. lia.
    + by rewrite Hsegs.
    + lia.
    + done.
    + rewrite Hsegs. lia.
    + assert (q ∉ l1) as Hql1 by (intros Hin; apply Hql; rewrite Hll; apply elem_of_app; by left).
      assert (segs h1 l1 = segs h l1) as Hs1.
      { apply segs_ext. intros y Hy. rewrite Hh1l; [done|]. rewrite Hll. apply elem_of_app. by left. }
      assert (h' !! q = Some (pn_set_tot_len n (u16 (pn_tot_len n - shrink)))) as Hq'.
      { rewrite Hkept by done. apply lookup_insert_eq. }
      exists (q :: l1), z, l2, zn, rem', h'. split_and!; [by rewrite Hll|done| |lia|lia| | | |].
      * rewrite <- Hz. symmetry. apply Hh1l. rewrite Hll. apply elem_of_app. right. by left.
      * rewrite (segs_cons _ _ _ _ Hn). cbn [chain_len pn_seg sg_len]. rewrite Hs1 in Hsum. lia.
      * etrans; [|exact Hs]. by apply set_tot_len_shape.
      * rewrite (segs_cons _ _ _ _ Hq'), (segs_cons _ _ _ _ Hn), Hcut, Hs1.
        cbn [shrunk fmap list_fmap]. f_equal. unfold pn_seg. cbn. rewrite u16_small by lia. done.
      * intros y [Hy Hyl]%not_elem_of_cons. rewrite Hkept by done. by apply Hh1.
  - exists [], q, l, n, rem, h. split_and!; done || lia.
Qed.

Lemma path_cut_at (h : pbuf_heap) z n q l1 l2 :
  h !! z = Some n -> path h q (l1 ++ z :: l2) -> path (<[z := pn_set_next n None]> h) q (l1 ++ [z]).
Proof.
  intros Hz Hp. pose proof (path_nodup _ _ _ Hp) as Hnd. revert q Hp Hnd.
  induction l1 as [|x l1 IH]; intros q Hp Hnd; cbn [app] in *.
  - destruct Hp as (-> & _). split; [done|]. eexists. by split; [apply lookup_insert_eq|].
  - destruct Hp as (-> & m & Hm & Hp). apply NoDup_cons in Hnd as [Hx Hnd]. split; [done|].
    exists m. split; [|by apply IH]. rewrite lookup_insert_ne; [done|]. intros <-. apply Hx, elem_of_app. right. by left.
Qed.

Lemma same_shape_insert (h : pbuf_heap) z n n' :
  h !! z = Some n -> shape n = shape n' -> same_shape h (<[z := n']> h).
Proof.
  intros Hz Hs x. destruct (decide (x = z)) as [->|]; [by rewrite lookup_insert_eq, Hz; cbn; f_equal|].
  by rewrite lookup_insert_ne.
Qed.

(** The pbufs in front of a freed rest keep what they hold. *)
Lemma freed_rest_kept (h h' : pbuf_heap) z n r freed q l1 l2 :
  h !! z = Some n -> pn_next n = Some r -> path h q (l1 ++ z :: l2) ->
  freed_from (<[z := pn_set_next n None]> h) r freed h' ->
  path h' q (l1 ++ [z]) /\ segs h' (l1 ++ [z]) = segs h (l1 ++ [z]).
Proof.
  intros Hz Hr Hp [[rest Hrest] _ Hkept]. pose proof (path_nodup _ _ _ Hp) as Hnd.
  pose proof (path_drop _ _ _ (length l1) z Hp) as Hd. rewrite drop_app_length in Hd.
  destruct (Hd ltac:(by apply list_lookup_middle)) as (_ & n' & Hn' & Hl2). simplify_eq. rewrite Hr in Hl2. clear Hd.
  apply NoDup_app in Hnd as (_ & Hdis & [Hzl2 _]%NoDup_cons).
  set (hc := <[z := pn_set_next n None]> h) in *.
  assert (freed ++ rest = l2) as Hfl.
  { eapply path_det; [exact Hrest|]. refine (path_ext _ _ _ _ _ Hl2). intros x Hx. unfold hc.
    rewrite lookup_insert_ne; [done|]. by intros ->. }
  assert (forall x, x ∈ l1 ++ [z] -> x ∉ freed) as Hnf.
  { intros x Hx Hin. assert (x ∈ l2) by (rewrite <- Hfl; apply elem_of_app; by left).
    apply elem_of_app in Hx as [Hx| ->%list_elem_of_singleton]; [|done]. apply (Hdis x Hx). by right. }
  split.
  - refine (path_ext hc _ _ _ _ _); [|by eapply path_cut_at]. intros x Hx. by apply no_ref_eq, Hkept, Hnf.
  - apply segs_ext. intros x Hx. pose proof (no_ref_eq _ _ (Hkept x (Hnf x Hx))) as [Hs _].
    rewrite <- Hs. unfold hc. destruct (decide (x = z)) as [->|]; [by rewrite lookup_insert_eq, Hz|].
    by rewrite lookup_insert_ne.
Qed.

(** The last step of [pbuf_realloc]: the rest of the chain is given back. *)
Lemma pbuf_realloc_rest (h : pbuf_heap) own z n q l1 l2 :
  refs_ok h own -> h !! z = Some n -> path h q (l1 ++ z :: l2) ->
  exists h', (h ← match pn_next n with
                  | Some next => '(_, h) ← pbuf_free h (Some next); Ret h
                  | None => Ret h
                  end;
              n ← deref (h !! z);
              Ret (<[z := pn_set_next n None]> h)) = Ret h' /\
    refs_ok h' own /\ path h' q (l1 ++ [z]) /\ segs h' (l1 ++ [z]) = segs h (l1 ++ [z]).
Proof.
  intros Hok Hz Hp. destruct (pn_next n) as [r|] eqn:Hr.
  - destruct (pbuf_free_rest h own z n r Hok Hz Hr) as (h' & freed & c & Heq & Hz' & Hok' & Hfr).
    exists h'. rewrite Heq. cbn [mbind outcome_bind]. rewrite lookup_insert_eq. cbn [deref mbind outcome_bind].
    rewrite insert_insert_eq, insert_id by done. split; [done|]. split; [done|].
    by apply (freed_rest_kept h h' z n r freed q l1 l2).
  - cbn [mbind outcome_bind]. rewrite Hz. cbn [deref mbind outcome_bind].
    replace (pn_set_next n None) with n by (destruct n; cbn in Hr; by subst). rewrite insert_id by done.
    exists h. split_and!; [done..| |done].
    pose proof (path_cut_at h z n q l1 l2 Hz Hp) as Hc.
    replace (pn_set_next n None) with n in Hc by (destruct n; cbn in Hr; by subst). by rewrite insert_id in Hc.
Qed.

(** [pbuf_realloc] trims a packet exactly.  It returns, the packet has the
    first [new_len] bytes it had (all of them when it was not longer), in the
    pbufs at the head of its chain with the right lengths; the others are given
    back, and the count of every pbuf stays the number of pointers to it. *)
Theorem pbuf_realloc_trims (h : pbuf_heap) (own : Z -> nat) (m : mem) (p : Z) (l : list Z) (new_len : Z)
    (mem_trim : Z -> Z -> option Z) :
  refs_ok h own -> path h (Some p) l -> chain_wf (segs h l) -> 0 <= new_len ->
  (forall q size_, mem_trim q size_ = Some q) ->
  exists h' l', pbuf_realloc h (Some p) new_len mem_trim = Ret h' /\ refs_ok h' own /\
    path h' (Some p) l' /\ l' `prefix_of` l /\ chain_wf (segs h' l') /\
    chain_bytes m (segs h' l') = take (Z.to_nat new_len) (chain_bytes m (segs h l)).
Proof.
  intros Hok Hp Hwf Hnew Htrim. unfold pbuf_realloc. cbn [LWIP_ASSERT mbind outcome_bind deref].
  rewrite bool_decide_true by done. cbn [LWIP_ASSERT mbind outcome_bind deref].
  assert (exists n g, h !! p = Some n /\ segs h l = pn_seg n :: g) as (n0 & g & Hn0 & Hg).
  { destruct l as [|x l]; [done|]. pose proof Hp as (Hx & n & Hn & _). injection Hx as <-.
    exists n, (segs h l). split; [done|]. by apply segs_cons. }
  assert (pn_tot_len n0 = chain_len (segs h l) /\ pn_tot_len n0 < 65536 /\ 0 <= pn_tot_len n0) as (Htot & Hb & H0).
  { rewrite Hg in Hwf |- *. pose proof (chain_len_range _ Hwf). destruct Hwf as (_ & Ht & Hb & _). cbn in *. lia. }
  rewrite Hn0. cbn [deref mbind outcome_bind]. destruct (Z.leb_spec (pn_tot_len n0) new_len) as [Hle|Hgt].
  { exists h, l. split_and!; [done..|]. symmetry. apply take_ge.
    pose proof (length_chain_bytes m _ (chain_wf_lens _ Hwf)). lia. }
  rewrite u16_small by lia.
  destruct (pbuf_realloc_skip_spec (S (size h)) h p l new_len (pn_tot_len n0 - new_len) Hp)
    as (l1 & z & l2 & n & rem & h1 & -> & -> & Hz & Hrem & Hsum & Hs & Hcut & Hkept);
    [pose proof (path_length _ _ _ Hp); lia|done|lia..|].
  assert (z ∉ l1) as Hzl1.
  { pose proof (path_nodup _ _ _ Hp) as (_ & Hd & _)%NoDup_app. intros Hin. apply (Hd z Hin). by left. }
  assert (h1 !! z = Some n) as Hz1 by (by rewrite Hkept).
  cbn [mbind outcome_bind]. rewrite Hz1. cbn [deref mbind outcome_bind]. rewrite Htrim.
  match goal with |- context [if ?b then _ else _] => replace (if b then _ else _) with (Ret tt)
    by (destruct b; [by rewrite !bool_decide_true|done]) end.
  cbn [mbind outcome_bind]. set (n2 := pn_set_tot_len (pn_set_len n rem) rem). set (h2 := <[z := n2]> h1).
  assert (same_shape h h2) as Hs2.
  { etrans; [exact Hs|]. apply same_shape_insert with n; [done|]. by destruct n. }
  assert (h2 !! z = Some n2) as Hz2 by apply lookup_insert_eq.
  destruct (pbuf_realloc_rest h2 own z n2 (Some p) l1 l2) as (h' & Heq & Hok' & Hp' & Hsegs');
    [by eapply refs_ok_shape|done|by eapply same_shape_path|].
  assert (segs h2 (l1 ++ [z]) = shrunk (segs h l1) (chain_len (segs h (l1 ++ z :: l2)) - (chain_len (segs h l1) + rem))
    ++ [PbufSeg (sg_payload (pn_seg n)) rem rem]) as Hseg2.
  { rewrite segs_app, (segs_cons _ _ _ _ Hz2). f_equal. rewrite <- Htot, <- Hsum, <- Hcut. apply segs_ext.
    intros x Hx. unfold h2. rewrite lookup_insert_ne; [done|]. by intros <-. }
  pose proof (segs_lookup h l1 z l2 n Hz) as Hlk. rewrite Hlk in Hwf, Hseg2.
  exists h', (l1 ++ [z]). rewrite Hsegs', Hseg2. split_and!; [exact Heq|done|done| | |].
  - exists l2. by rewrite <- app_assoc.
  - by apply chain_wf_shrunk.
  - rewrite Hlk, chain_bytes_app, chain_bytes_shrunk, <- chain_bytes_app, (take_chain_bytes _ _ _ _ _ Hwf) by done.
    by rewrite Hsum.
Qed.

(** ** Giving back the pbufs in front *)

Lemma own_move_id own f x : own f <> O -> own_move own (Some f) (Some f) x = own x.
Proof. intros Hf. unfold own_move, own_add, own_drop. case_decide; subst; lia. Qed.

Lemma own_move_next own f r q x :
  r <> f -> own_move (own_drop (own_add own r) f) (Some r) q x = own_move own (Some f) q x.
Proof.
  intros Hne. unfold own_move. assert (forall y, own_drop (own_drop (own_add own r) f) r y = own_drop own f y) as He.
  { intros y. unfold own_drop, own_add. repeat case_decide; subst; try done; lia. }
  destruct q; [|apply He]. unfold own_add at 1 3. by rewrite !He.
Qed.

(** The first pbuf taken off the chain and given back. *)
Lemma free_first (h : pbuf_heap) own f n l :
  refs_ok h own -> own f <> O -> h !! f = Some n -> path h (Some f) (f :: l) ->
  exists c h', pbuf_free (<[f := pn_set_next n None]> h) (Some f) = Ret (c, h') /\
    path h' (pn_next n) l /\ segs h' l = segs h l /\
    refs_ok h' (match pn_next n with Some r => own_drop (own_add own r) f | None => own_drop own f end).
Proof.
  intros Hok Hf Hn Hp. pose proof (path_nodup _ _ _ Hp) as [Hfl _]%NoDup_cons.
  pose proof (path_cut_at h f n (Some f) [] l Hn Hp) as Hpc. cbn [app] in Hpc.
  destruct Hp as (_ & n' & Hn' & Hp). rewrite Hn in Hn'. injection Hn' as <-. set (h1 := <[f := _]> h) in *.
  assert (exists own1, refs_ok h1 own1 /\ own1 f <> O /\ forall x, own_drop own1 f x =
    match pn_next n with Some r => own_drop (own_add own r) f x | None => own_drop own f x end) as (own1 & Hok1 & Hf1 & Hown1).
  { destruct (pn_next n) as [r|] eqn:Hr.
    - exists (own_add own r). split; [by eapply refs_ok_unlink|]. split; [unfold own_add; case_decide; lia|done].
    - exists own. split_and!; [|done..]. unfold h1.
      replace (pn_set_next n None) with n by (destruct n; cbn in Hr; by subst). by rewrite insert_id. }
  destruct (pbuf_free_spec h1 own1 f Hok1 Hf1) as (h' & freed & Heq & Hok' & [[rest Hrest] _ Hkept]).
  pose proof (path_det _ _ _ _ Hrest Hpc) as Hfr.
  assert (forall x, x ∈ l -> no_ref <$> h' !! x = no_ref <$> h !! x) as Hl.
  { intros x Hx. assert (x <> f) by (by intros ->). rewrite Hkept.
    - unfold h1. by rewrite lookup_insert_ne.
    - intros Hin. assert (x ∈ freed ++ rest) as Hin2 by (apply elem_of_app; by left).
      rewrite Hfr in Hin2. by apply list_elem_of_singleton in Hin2. }
  eexists _, h'. split; [exact Heq|]. split_and!.
  - refine (path_ext _ _ _ _ _ Hp). intros x Hx. by apply no_ref_eq, Hl.
  - symmetry. apply segs_ext. intros x Hx. by apply no_ref_eq, Hl.
  - eapply refs_ok_own; [exact Hok'|]. intros x. rewrite Hown1. by destruct (pn_next n).
Qed.

(** The headers of the first pbuf taken off. *)
Lemma remove_first (h : pbuf_heap) (own : Z -> nat) (m : mem) (f : Z) (n : pbuf_node) (l : list Z) (k : Z) :
  refs_ok h own -> own f <> O -> h !! f = Some n -> path h (Some f) (f :: l) -> chain_wf (segs h (f :: l)) ->
  0 < k <= pn_len n ->
  exists h', pbuf_remove_header h (Some f) k = Ret (0, h') /\ refs_ok h' (own_move own (Some f) (Some f)) /\
    path h' (Some f) (f :: l) /\ chain_wf (segs h' (f :: l)) /\
    chain_bytes m (segs h' (f :: l)) = drop (Z.to_nat k) (chain_bytes m (segs h (f :: l))).
Proof.
  intros Hok Hown Hn Hp Hwf Hk. pose proof (segs_cons h f l n Hn) as Hseg. rewrite Hseg in Hwf |- *.
  pose proof (chain_wf_lens_ok _ _ Hwf) as Hlok. rewrite (pbuf_remove_header_spec h f n k Hn Hlok) by lia.
  rewrite decide_False, decide_True by lia.
  destruct (segs_moved h f n (- k) (f :: l) Hn Hp) as (l' & [= <-] & _ & Hsm & Hpm).
  eexists. split_and!; [done| |done| |].
  - eapply refs_ok_shape; [eapply refs_ok_own; [exact Hok|]|].
    + intros x. by rewrite own_move_id.
    + apply same_shape_insert with n; [done|]. by destruct n.
  - rewrite Hsm. apply chain_wf_moved; [done|lia|]. destruct Hlok. lia.
  - rewrite Hsm, !chain_bytes_cons, drop_app_le by (rewrite length_slice; cbn; lia).
    rewrite drop_slice. cbn [pn_seg moved sg_payload sg_len pn_set_tot_len pn_set_len pn_set_payload pn_payload pn_len].
    do 2 f_equal; lia.
Qed.

Lemma pbuf_free_header_loop_spec fuel (h : pbuf_heap) own m q l free_left :
  refs_ok h own -> match q with Some f => own f <> O | None => True end -> path h q l -> (length l < fuel)%nat ->
  chain_wf (segs h l) -> 0 <= free_left < 65536 ->
  exists r h' l', pbuf_free_header_loop fuel h q free_left = Ret (r, h') /\ refs_ok h' (own_move own q r) /\
    path h' r l' /\ chain_wf (segs h' l') /\
    chain_bytes m (segs h' l') = drop (Z.to_nat free_left) (chain_bytes m (segs h l)).
Proof.
  revert h own q l free_left. induction fuel as [|fuel IH]; intros h own q l free_left Hok Hown Hp Hlen Hwf Hr; [lia|].
  cbn [pbuf_free_header_loop]. destruct q as [f|].
  2:{ destruct l; [|by destruct Hp]. exists None, h, []. split_and!; [done..|]. symmetry. apply drop_nil. }
  destruct (Z.eqb_spec free_left 0) as [->|Hfl].
  { exists (Some f), h, l. split_and!; [done| |done..]. eapply refs_ok_own; [exact Hok|]. intros x. by rewrite own_move_id. }
  destruct l as [|x l]; [done|]. pose proof Hp as (Hx & n & Hn & Hpn). injection Hx as <-.
  rewrite Hn. cbn [deref mbind outcome_bind]. pose proof (segs_cons h f l n Hn) as Hseg. rewrite Hseg in Hwf.
  pose proof Hwf as (Hl & _ & _ & _ & Hwf')%chain_wf_cons.
  cbn [pn_seg sg_len] in Hl.
  rewrite Hseg, chain_bytes_cons. cbn [pn_seg sg_len sg_payload].
  destruct (Z.leb_spec (pn_len n) free_left) as [Hle|Hgt].
  - destruct (free_first h own f n l Hok Hown Hn Hp) as (c & h2 & -> & Hp2 & Hs2 & Hok2).
    cbn [mbind outcome_bind]. rewrite u16_small by lia.
    rewrite drop_app_ge by (rewrite length_slice; lia). rewrite length_slice.
    destruct (pn_next n) as [r|] eqn:Hnext.
    + assert (r <> f) as Hrf.
      { destruct l as [|y l]; [done|]. destruct Hpn as (Hy & _). injection Hy as <-.
        pose proof (path_nodup _ _ _ Hp) as [Hnin _]%NoDup_cons. intros ->. apply Hnin. by left. }
      destruct (IH h2 _ (Some r) l (free_left - pn_len n) Hok2) as (q & h' & l' & -> & Hok' & Hp' & Hwf2 & Hb');
        [unfold own_drop, own_add; rewrite decide_False, decide_True by done; done|done|cbn [length] in Hlen; lia|
         by rewrite Hs2|lia|].
      exists q, h', l'. split_and!; [done| |done..|].
      * eapply refs_ok_own; [exact Hok'|]. intros x. by apply own_move_next.
      * rewrite Hb', Hs2. f_equal. lia.
    + destruct (IH h2 _ None l (free_left - pn_len n) Hok2) as (q & h' & l' & Heq & Hok' & Hp' & Hwf2 & Hb');
        [done|done|cbn [length] in Hlen; lia|by rewrite Hs2|lia|].
      assert (q = None) as -> by (destruct fuel; [done|by injection Heq]).
      exists None, h', l'. split_and!; [done..|]. rewrite Hb', Hs2. f_equal. lia.
  - destruct (remove_first h own m f n l free_left Hok Hown Hn Hp) as (h' & Heq & Hok' & Hp' & Hwf2 & Hb');
      [by rewrite Hseg|lia|].
    rewrite Heq. cbn [mbind outcome_bind]. destruct fuel as [|fuel]; [cbn [length] in Hlen; lia|].
    exists (Some f), h', (f :: l). split_and!; [done..|]. by rewrite Hb', Hseg, chain_bytes_cons.
Qed.

(** [pbuf_free_header] drops exactly the first bytes of a packet.  It
    returns; the pointer it gives back is to the chain of the bytes that are
    left, with the right lengths ([NULL] when there are none left in any pbuf);
    the pbufs it passed have lost the pointer to them, and every count stays the
    number of pointers, the caller's pointer having moved. *)
Theorem pbuf_free_header_drops (h : pbuf_heap) (own : Z -> nat) (m : mem) (q : Z) (l : list Z) (size_ : Z) :
  refs_ok h own -> own q <> O -> path h (Some q) l -> chain_wf (segs h l) -> 0 <= size_ < 65536 ->
  exists r h' l', pbuf_free_header h (Some q) size_ = Ret (r, h') /\ refs_ok h' (own_move own (Some q) r) /\
    path h' r l' /\ chain_wf (segs h' l') /\
    chain_bytes m (segs h' l') = drop (Z.to_nat size_) (chain_bytes m (segs h l)).
Proof.
  intros Hok Hq Hp Hwf Hs. unfold pbuf_free_header. apply pbuf_free_header_loop_spec; [done..| |done|done].
  pose proof (path_length _ _ _ Hp). lia.
Qed.

(** ** On the packet of two pbufs of [example_heap] *)

Lemma pbuf_realloc_trims_witness :
  exists h' l', pbuf_realloc example_heap (Some 10) 1 (fun q _ => Some q) = Ret h' /\ refs_ok h' example_own /\
    path h' (Some 10) l' /\ chain_bytes (fun x => x) (segs h' l') = [40].
Proof.
  destruct (pbuf_realloc_trims example_heap example_own (fun x => x) 10 [10; 20] 1 (fun q _ => Some q))
    as (h' & l' & Heq & Hok & Hp & _ & _ & Hb);
    [exact example_refs_ok|repeat (split; [done|]; eexists; split; [done|]); done|by vm_compute|lia|done|].
  exists h', l'. split_and!; [exact Heq|done..|]. rewrite Hb. by vm_compute.
Defined.

Lemma pbuf_free_header_drops_witness :
  exists h' l', pbuf_free_header example_heap (Some 10) 3 = Ret (Some 20, h') /\
    refs_ok h' (own_move example_own (Some 10) (Some 20)) /\
    path h' (Some 20) l' /\ chain_bytes (fun x => x) (segs h' l') = [81; 82].
Proof.
  destruct (pbuf_free_header_drops example_heap example_own (fun x => x) 10 [10; 20] 3)
    as (r & h' & l' & Heq & Hok & Hp & _ & Hb);
    [exact example_refs_ok|by vm_compute|repeat (split; [done|]; eexists; split; [done|]); done|by vm_compute|lia|].
  assert (r = Some 20) as -> by (vm_compute in Heq; by injection Heq).
  exists h', l'. split_and!; [exact Heq|done..|]. rewrite Hb. by vm_compute.
Defined.
