(* ===== verification/PbufMove.v ===== *)
(** * Copies between packet buffers ([lwip/src/core/pbuf.c])

    [pbuf_copy_partial_pbuf] and [pbuf_copy] copy the bytes of one chain into
    another, each split in its own way; [pbuf_clone] and [pbuf_coalesce] do so
    into a packet they allocate; [pbuf_strstr] searches for a C string. *)
From S2P Require Import Prelude Memory Operation Lwip Pbuf PbufRef PbufAlloc PbufCopy.

(** ** The code *)

Definition ERR_VAL : Z := -6.

(** [p->len == p->tot_len] with a [next]: another packet follows. *)
Definition pbuf_queue (q : list pbuf_seg) : bool :=
  match q with
  | p :: _ :: _ => sg_len p =? sg_tot_len p
  | _ => false
  end.

(** [do ... while (copy_len)]. *)
Fixpoint pbuf_copy_pbuf_loop (fuel : nat) (m : mem) (p_to p_from : list pbuf_seg)
    (copy_len offset_to offset_from : Z) : outcome (Z * mem) :=
  match fuel with
  | O => NoFuel
  | S fuel =>
      match p_to, p_from with
      | t :: t_next, f :: f_next =>
          let room := u64 (sg_len t - offset_to) in
          let left := u64 (sg_len f - offset_from) in
          let len := if left <=? room then left else room in
          let len := Z.min copy_len len in
          let m := memcpy m (sg_payload t + offset_to) m (sg_payload f + offset_from) len in
          let offset_to := u64 (offset_to + len) in
          let offset_from := u64 (offset_from + len) in
          let copy_len := u16 (copy_len - len) in
          _ ← LWIP_ASSERT (offset_to <=? sg_len t);
          _ ← LWIP_ASSERT (offset_from <=? sg_len f);
          let '(p_from, offset_from) :=
            if sg_len f <=? offset_from then (f_next, 0) else (f :: f_next, offset_from) in
          if negb (negb (bool_decide (p_from = [])) || (copy_len =? 0)) then Ret (ERR_ARG, m)
          else
            let '(p_to, offset_to) :=
              if offset_to =? sg_len t then (t_next, 0) else (t :: t_next, offset_to) in
            if negb (negb (bool_decide (p_to = [])) || (copy_len =? 0)) then Ret (ERR_ARG, m)
            else if pbuf_queue p_from then Ret (ERR_VAL, m)
            else if pbuf_queue p_to then Ret (ERR_VAL, m)
            else if copy_len =? 0 then Ret (ERR_OK, m)
            else pbuf_copy_pbuf_loop fuel m p_to p_from copy_len offset_to offset_from
      | _, _ => Undefined
      end
  end.

(** An iteration finishes a pbuf of one of the chains, or the copy. *)
Definition pbuf_copy_partial_pbuf (m : mem) (p_to p_from : list pbuf_seg) (copy_len offset : Z)
    : outcome (Z * mem) :=
  match p_from, p_to with
  | f :: _, t :: _ =>
      if negb (copy_len <=? sg_tot_len f) then Ret (ERR_ARG, m)
      else if negb (offset + copy_len <=? sg_tot_len t) then Ret (ERR_ARG, m)
      else pbuf_copy_pbuf_loop (length p_to + length p_from) m p_to p_from copy_len offset 0
  | _, _ => Ret (ERR_ARG, m)
  end.

Definition pbuf_copy (m : mem) (p_to p_from : list pbuf_seg) : outcome (Z * mem) :=
  match p_from with
  | [] => Ret (ERR_ARG, m)
  | f :: _ => pbuf_copy_partial_pbuf m p_to p_from (sg_tot_len f) 0
  end.

(** The segments of the chain at a pointer, as the functions over segments see
    it: [p], [p->next] and so on. *)
Fixpoint pbuf_chain_segs (fuel : nat) (h : pbuf_heap) (p : option Z) : outcome (list pbuf_seg) :=
  match p with
  | None => Ret []
  | Some p =>
      match fuel with
      | O => NoFuel
      | S fuel =>
          n ← deref (h !! p);
          q ← pbuf_chain_segs fuel h (pn_next n);
          Ret (pn_seg n :: q)
      end
  end.

Definition pbuf_clone (h : pbuf_heap) (m : mem) (layer : pbuf_layer) (type : pbuf_type) (p : Z)
    (memp : list (option Z)) (mem_malloc : Z -> option Z) : outcome (option Z * pbuf_heap * mem) :=
  n ← deref (h !! p);
  '(q, h) ← pbuf_alloc h layer (pn_tot_len n) type memp mem_malloc;
  match q with
  | None => Ret (None, h, m)
  | Some q =>
      to ← pbuf_chain_segs (size h) h (Some q);
      from ← pbuf_chain_segs (size h) h (Some p);
      '(err, m) ← pbuf_copy m to from;
      _ ← LWIP_ASSERT (err =? ERR_OK);
      Ret (Some q, h, m)
  end.

Definition pbuf_coalesce (h : pbuf_heap) (m : mem) (p : Z) (layer : pbuf_layer)
    (memp : list (option Z)) (mem_malloc : Z -> option Z) : outcome (Z * pbuf_heap * mem) :=
  n ← deref (h !! p);
  match pn_next n with
  | None => Ret (p, h, m)
  | Some _ =>
      '(q, h, m) ← pbuf_clone h m layer PBUF_RAM p memp mem_malloc;
      match q with
      | None => Ret (p, h, m)
      | Some q => '(_, h) ← pbuf_free h (Some p); Ret (q, h, m)
      end
  end.

(** [strlen] on a string of less than [fuel] bytes. *)
Fixpoint strlen (fuel : nat) (m : mem) (s : Z) : outcome Z :=
  match fuel with
  | O => NoFuel
  | S fuel =>
      if u8 (m s) =? 0 then Ret 0
      else n ← strlen fuel m (s + 1); Ret (n + 1)
  end.

(** [substr = 0] is [NULL]. *)
Definition pbuf_strstr (fuel : nat) (m : mem) (p : list pbuf_seg) (substr : Z) : outcome Z :=
  if substr =? 0 then Ret 65535
  else if u8 (m substr) =? 0 then Ret 65535
  else
    match p with
    | [] => Undefined
    | p0 :: _ =>
        if sg_tot_len p0 =? 65535 then Ret 65535
        else
          substr_len ← strlen fuel m substr;
          if 65535 <=? substr_len then Ret 65535
          else pbuf_memfind m p substr (u16 substr_len) 0
    end.

(** ** Runs *)

Lemma replace_run_twice (l : list Z) o r1 r2 :
  0 <= o -> (Z.to_nat o + length r1 <= length l)%nat ->
  replace_run (replace_run l o r1) (o + Z.of_nat (length r1)) r2 = replace_run l o (r1 ++ r2).
Proof.
  intros Ho Hl. unfold replace_run.
  replace (Z.to_nat (o + Z.of_nat (length r1))) with (Z.to_nat o + length r1)%nat by lia.
  set (a := take (Z.to_nat o) l). assert (length a = Z.to_nat o) as Ha by (unfold a; rewrite length_take; lia).
  rewrite (app_assoc a r1 (drop _ _)), take_app_length', drop_app_ge by (rewrite length_app; lia).
  rewrite drop_drop, <- !app_assoc. do 3 f_equal. f_equal. rewrite !length_app. lia.
Qed.

(** A run that starts behind the first segment. *)
Lemma replace_run_behind (a b r : list Z) o :
  Z.to_nat o = length a -> replace_run (a ++ b) o r = a ++ replace_run b 0 r.
Proof.
  intros Ho. unfold replace_run. rewrite Ho, take_app_length, drop_app_ge by lia.
  change (Z.to_nat 0) with O. rewrite take_0. cbn [app]. do 3 f_equal. lia.
Qed.

Lemma slice_in_seg m f next of_ k :
  0 <= of_ -> 0 <= k -> of_ + k <= sg_len f ->
  slice m (sg_payload f + of_) k = take (Z.to_nat k) (drop (Z.to_nat of_) (chain_bytes m (f :: next))).
Proof.
  intros Ho Hk Hle. rewrite chain_bytes_cons, drop_app_le, drop_slice by (rewrite length_slice; lia).
  rewrite take_app_le, take_slice by (rewrite length_slice; lia). f_equal; lia.
Qed.

(** ** Copying *)

(** No packet queue: only the last pbuf holds all that is left. *)
Fixpoint one_packet (q : list pbuf_seg) : Prop :=
  match q with
  | [] => True
  | p :: next => pbuf_queue q = false /\ one_packet next
  end.

Lemma one_packet_queue q : one_packet q -> pbuf_queue q = false.
Proof. destruct q; [done|]. by intros [? _]. Qed.

(** Where a side goes on after [k] more bytes. *)
Lemma next_position m p next o k :
  0 <= o -> 0 <= k -> o + k <= sg_len p ->
  let '(q, o') := if sg_len p <=? o + k then (next, 0) else (p :: next, o + k) in
  drop (Z.to_nat o') (chain_bytes m q) = drop (Z.to_nat (o + k)) (chain_bytes m (p :: next)) /\
  chain_len q - o' = chain_len (p :: next) - (o + k) /\ 0 <= o' /\
  (forall x, in_chain q x -> in_chain (p :: next) x) /\
  match q with [] => o' = 0 | p' :: _ => o' = 0 \/ o' <= sg_len p' end /\
  (length q <= S (length next))%nat /\
  (one_packet (p :: next) -> one_packet q) /\ (chain_wf (p :: next) -> chain_wf q) /\
  (sg_len p <= o + k -> (length q <= length next)%nat).
Proof.
  intros Ho Hk Hle. destruct (Z.leb_spec (sg_len p) (o + k)) as [Hge|Hlt].
  - split_and!; try lia.
    + change (Z.to_nat 0) with O. rewrite drop_0, chain_bytes_cons, drop_app_ge by (rewrite length_slice; lia).
      rewrite length_slice. by replace (Z.to_nat (o + k) - Z.to_nat (sg_len p))%nat with O by lia.
    + cbn [chain_len]. lia.
    + intros x Hx. apply in_chain_cons. by right.
    + destruct next; [reflexivity|left; reflexivity].
    + by intros [_ ?].
    + by intros (? & ? & ? & ? & ?)%chain_wf_cons.
  - split_and!; try (done || lia).
Qed.

(** One iteration copies a run of one segment into one segment. *)
Lemma copy_one (m : mem) t t_next f f_next ot of_ k :
  chain_disjoint (t :: t_next) -> (forall x, in_chain (f :: f_next) x -> ~ in_chain (t :: t_next) x) ->
  0 <= ot -> 0 <= of_ -> 0 <= k -> ot + k <= sg_len t -> of_ + k <= sg_len f ->
  let m1 := memcpy m (sg_payload t + ot) m (sg_payload f + of_) k in
  chain_bytes m1 (t :: t_next) = replace_run (chain_bytes m (t :: t_next)) ot
    (take (Z.to_nat k) (drop (Z.to_nat of_) (chain_bytes m (f :: f_next)))) /\
  chain_bytes m1 t_next = chain_bytes m t_next /\
  chain_bytes m1 (f :: f_next) = chain_bytes m (f :: f_next) /\
  (forall x, ~ in_seg t x -> m1 x = m x).
Proof.
  intros [Htd Htn] Hsep Hot Hof Hk Ht Hf m1.
  assert (forall x, ~ in_seg t x -> m1 x = m x) as Hm1.
  { intros x Hx. apply memcpy_out. unfold in_seg in Hx. lia. }
  assert (chain_bytes m1 t_next = chain_bytes m t_next) as Htb.
  { apply chain_bytes_ext. intros x Hx. apply Hm1. intros Hin. by apply (Htd x). }
  split_and!; [|done| |done].
  - rewrite <- slice_in_seg by lia.
    rewrite (replace_run_seg m t t_next ot k) by (rewrite ?length_slice; lia).
    rewrite chain_bytes_cons, Htb. unfold m1. rewrite slice_memcpy_inside by lia.
    rewrite <- !app_assoc. do 3 f_equal. by replace (Z.to_nat (ot + k - sg_len t)) with O by lia.
  - apply chain_bytes_ext. intros x Hx. apply Hm1. intros Hin. apply (Hsep x Hx), in_chain_cons. by left.
Qed.

(** What is replaced behind the first segment is replaced in the chain. *)
Lemma replace_rest (m1 m' : mem) t tn o run :
  chain_disjoint (t :: tn) -> 0 <= o <= sg_len t ->
  let '(q, o') := if sg_len t <=? o then (tn, 0) else (t :: tn, o) in
  chain_bytes m' q = replace_run (chain_bytes m1 q) o' run -> (forall x, ~ in_chain q x -> m' x = m1 x) ->
  chain_bytes m' (t :: tn) = replace_run (chain_bytes m1 (t :: tn)) o run.
Proof.
  intros [Htd _] Ho. destruct (Z.leb_spec (sg_len t) o); [|done]. intros Hb Hf.
  rewrite !chain_bytes_cons, replace_run_behind by (rewrite length_slice; lia). rewrite <- Hb. f_equal.
  apply slice_ext. intros j Hj. apply Hf, Htd. unfold in_seg. lia.
Qed.

Lemma chain_len_pos_cons q o : 0 < chain_len q - o -> match q with [] => o = 0 | _ => True end -> q <> [].
Proof. intros Hlt Ho ->. cbn [chain_len] in Hlt. lia. Qed.

(** Two copies in a row are one. *)
Lemma replace_run_grow (l src : list Z) ot of_ k c :
  0 <= ot -> 0 <= of_ -> 0 <= k <= c -> ot + c <= Z.of_nat (length l) -> of_ + c <= Z.of_nat (length src) ->
  replace_run (replace_run l ot (take (Z.to_nat k) (drop (Z.to_nat of_) src))) (ot + k)
    (take (Z.to_nat (c - k)) (drop (Z.to_nat (of_ + k)) src)) =
  replace_run l ot (take (Z.to_nat c) (drop (Z.to_nat of_) src)).
Proof.
  intros Hot Hof Hk Hl Hs. set (r := drop (Z.to_nat of_) src).
  assert (length (take (Z.to_nat k) r) = Z.to_nat k) as Hlen by (unfold r; rewrite length_take, length_drop; lia).
  replace (drop (Z.to_nat (of_ + k)) src) with (drop (Z.to_nat k) r) by (unfold r; rewrite drop_drop; f_equal; lia).
  replace (ot + k) with (ot + Z.of_nat (length (take (Z.to_nat k) r))) by lia.
  rewrite replace_run_twice, take_take_drop by lia. do 2 f_equal. lia.
Qed.

Lemma pbuf_copy_pbuf_loop_spec fuel (m : mem) to from c ot of_ :
  chain_wf to -> chain_wf from -> one_packet to -> one_packet from -> chain_disjoint to ->
  (forall x, in_chain from x -> ~ in_chain to x) ->
  (match to with [] => False | t :: _ => 0 <= ot <= sg_len t end) ->
  (match from with [] => False | f :: _ => 0 <= of_ <= sg_len f end) ->
  0 <= c < 65536 -> ot + c <= chain_len to -> of_ + c <= chain_len from ->
  (length to + length from <= fuel)%nat ->
  exists m', pbuf_copy_pbuf_loop fuel m to from c ot of_ = Ret (ERR_OK, m') /\
    chain_bytes m' to = replace_run (chain_bytes m to) ot
      (take (Z.to_nat c) (drop (Z.to_nat of_) (chain_bytes m from))) /\
    forall x, ~ in_chain to x -> m' x = m x.
Proof.
  revert m to from c ot of_. induction fuel as [|fuel IH];
    intros m [|t tn] [|f fn] c ot of_ Hwt Hwf Hpt Hpf Hdis Hsep Hot Hof Hc Hct Hcf Hfuel; try done;
    cbn [length] in Hfuel; [lia|].
  pose proof Hwt as (Hlt & _ & _ & Hclt & _)%chain_wf_cons. pose proof Hwf as (Hlf & _ & _ & Hclf & _)%chain_wf_cons.
  cbn [pbuf_copy_pbuf_loop]. rewrite !(u64_small (_ - _)) by lia.
  set (k := Z.min c _). assert (k = Z.min c (Z.min (sg_len f - of_) (sg_len t - ot))) as Hk by (unfold k; ztests).
  clearbody k. cbn zeta. rewrite (u64_small (ot + k)), (u64_small (of_ + k)), (u16_small (c - k)) by lia.
  rewrite (proj2 (Z.leb_le (ot + k) (sg_len t))), (proj2 (Z.leb_le (of_ + k) (sg_len f))) by lia.
  cbn [LWIP_ASSERT mbind outcome_bind].
  destruct (copy_one m t tn f fn ot of_ k Hdis Hsep) as (Hbt & Hbtn & Hbf & Hm1); [lia..|].
  set (m1 := memcpy _ _ _ _ _) in *.
  assert ((if ot + k =? sg_len t then (tn, 0) else (t :: tn, ot + k)) =
    (if sg_len t <=? ot + k then (tn, 0) else (t :: tn, ot + k))) as -> by ztests.
  pose proof (next_position m1 f fn of_ k ltac:(lia) ltac:(lia) ltac:(lia)) as Hnf.
  pose proof (next_position m1 t tn ot k ltac:(lia) ltac:(lia) ltac:(lia)) as Hnt.
  destruct (if sg_len f <=? of_ + k then _ else _) as [from' of'] eqn:Hfrom'.
  pose proof (replace_rest m1) as Hrr.
  destruct Hnf as (Hdf & Hlf' & Hof' & Hinf & Hmf & Hszf & Hpf' & Hwf' & Hadvf).
  specialize (Hpf' Hpf). specialize (Hwf' Hwf).
  destruct (Z.eqb_spec (c - k) 0) as [Hz|Hnz].
  - rewrite !orb_true_r. cbn [negb]. assert (c = k) as -> by lia.
    destruct (if sg_len t <=? ot + k then _ else _) as [to' ot'] eqn:Hto'.
    destruct Hnt as (_ & _ & _ & _ & _ & _ & Hpt' & _ & _).
    rewrite (one_packet_queue _ Hpf'), (one_packet_queue _ (Hpt' Hpt)).
    rewrite orb_true_r. exists m1. split_and!; [done..|]. intros x Hx. apply Hm1. intros Hin. apply Hx, in_chain_cons. by left.
  - assert (from' <> []) as Hfne by (apply chain_len_pos_cons with of'; [lia|by destruct from']).
    destruct (if sg_len t <=? ot + k then _ else _) as [to' ot'] eqn:Hto'.
    destruct Hnt as (_ & Hlt' & Hot' & Hint & Hmt & Hszt & Hpt' & Hwt' & Hadvt).
    specialize (Hpt' Hpt). specialize (Hwt' Hwt).
    assert (to' <> []) as Htne by (apply chain_len_pos_cons with ot'; [lia|by destruct to']).
    rewrite !bool_decide_false by done. cbn [negb orb].
    rewrite (one_packet_queue _ Hpf'), (one_packet_queue _ Hpt').
    destruct (IH m1 to' from' (c - k) ot' of') as (m' & Heq & Hb & Hm'); try done; try lia.
    + destruct (sg_len t <=? ot + k); injection Hto' as <- _; [apply Hdis|done].
    + intros x Hx Hin. by apply (Hsep x); [apply Hinf|apply Hint].
    + destruct to' as [|t' ?]; [done|]. apply chain_wf_cons in Hwt'. lia.
    + destruct from' as [|f' ?]; [done|]. apply chain_wf_cons in Hwf'. lia.
    + exists m'. split; [exact Heq|]. specialize (Hrr m' t tn (ot + k)). rewrite Hto' in Hrr.
      rewrite (Hrr _ Hdis ltac:(lia) Hb Hm'). split.
      * rewrite Hbt, Hdf, Hbf. pose proof (length_chain_bytes m _ (chain_wf_lens _ Hwt)).
        pose proof (length_chain_bytes m _ (chain_wf_lens _ Hwf)). apply replace_run_grow; lia.
      * intros x Hx. rewrite Hm' by (intros Hin; apply Hx, Hint, Hin). apply Hm1.
        intros Hin. apply Hx, in_chain_cons. by left.
Qed.

(** A packet that can be copied: its lengths are right and it is no queue. *)
Definition packet_ok (q : list pbuf_seg) : Prop := chain_wf q /\ one_packet q.

Lemma pbuf_copy_ok (m : mem) to from c offset :
  packet_ok to -> packet_ok from -> chain_disjoint to -> (forall x, in_chain from x -> ~ in_chain to x) ->
  to <> [] -> from <> [] -> 0 <= c -> 0 <= offset ->
  offset <= default 0 (sg_len <$> head to) -> c <= chain_len from -> offset + c <= chain_len to ->
  exists m', pbuf_copy_partial_pbuf m to from c offset = Ret (ERR_OK, m') /\
    chain_bytes m' to = replace_run (chain_bytes m to) offset (take (Z.to_nat c) (chain_bytes m from)) /\
    forall x, ~ in_chain to x -> m' x = m x.
Proof.
  intros [Hwt Hpt] [Hwf Hpf] Hdis Hsep Ht0 Hf0 Hc Ho Hfirst Hcf Hct.
  destruct to as [|t tn]; [done|]. destruct from as [|f fn]; [done|].
  pose proof (chain_len_range _ Hwf). pose proof Hwt as (_ & Ht & _). pose proof Hwf as (Hfl & Hf & _).
  unfold pbuf_copy_partial_pbuf. rewrite Ht, Hf, !(proj2 (Z.leb_le _ _)) by lia. cbn [negb].
  cbn [head fmap option_fmap option_map default] in Hfirst.
  destruct (pbuf_copy_pbuf_loop_spec (length (t :: tn) + length (f :: fn)) m (t :: tn) (f :: fn) c offset 0)
    as (m' & Heq & Hb & Hm'); [done..|cbn in Hfirst; lia|lia|lia|done|done|lia|].
  exists m'. done.
Qed.

(** Copying between packets is exact.  [pbuf_copy_partial_pbuf] copies the
    first [copy_len] bytes of one packet to an offset in the first pbuf of
    another, however both are split: it returns, the destination has the bytes
    there and its own around them, and nothing else changes.  When either packet
    is too short it reports [ERR_ARG] and writes nothing.  An offset behind the
    first pbuf of the destination, with enough room in the packet, ends in an
    assertion after the copy went out of the pbuf. *)
Theorem pbuf_copy_partial_pbuf_exact (m : mem) (to from : list pbuf_seg) (copy_len offset : Z) :
  packet_ok to -> packet_ok from -> chain_disjoint to -> (forall x, in_chain from x -> ~ in_chain to x) ->
  to <> [] -> from <> [] -> 0 <= copy_len -> 0 <= offset ->
  if decide (copy_len <= chain_len from /\ offset + copy_len <= chain_len to) then
    if decide (offset <= default 0 (sg_len <$> head to)) then
      exists m', pbuf_copy_partial_pbuf m to from copy_len offset = Ret (ERR_OK, m') /\
        chain_bytes m' to =
          take (Z.to_nat offset) (chain_bytes m to) ++ take (Z.to_nat copy_len) (chain_bytes m from) ++
          drop (Z.to_nat (offset + copy_len)) (chain_bytes m to) /\
        forall x, ~ in_chain to x -> m' x = m x
    else pbuf_copy_partial_pbuf m to from copy_len offset = Exited 134
  else pbuf_copy_partial_pbuf m to from copy_len offset = Ret (ERR_ARG, m).
Proof.
  intros Ht Hf Hdis Hsep Ht0 Hf0 Hc Ho. destruct (decide (_ /\ _)) as [[Hcf Hct]|Hno].
  - destruct (decide (offset <= _)) as [Hfirst|Hbehind].
    + destruct (pbuf_copy_ok m to from copy_len offset) as (m' & Heq & Hb & Hm'); [done..|].
      exists m'. split_and!; [done| |done]. rewrite Hb. unfold replace_run. do 3 f_equal.
      destruct Hf as [Hwf _]. pose proof (length_chain_bytes m _ (chain_wf_lens _ Hwf)). rewrite length_take. lia.
    + destruct to as [|t tn]; [done|]. destruct from as [|f fn]; [done|].
      destruct Ht as [Hwt _], Hf as [Hwf _]. pose proof (chain_len_range _ Hwt).
      pose proof Hwt as (Hlt & _)%chain_wf_cons. pose proof Hwf as (Hlf & _)%chain_wf_cons.
      destruct Hwt as (_ & Ht & _), Hwf as (_ & Hf & _). cbn [head fmap option_fmap option_map default] in Hbehind.
      assert (sg_len t < offset) as Hlt' by (apply Z.nle_gt; exact Hbehind).
      unfold pbuf_copy_partial_pbuf. rewrite Ht, Hf, !(proj2 (Z.leb_le _ _)) by lia. cbn [negb length Nat.add].
      cbn [pbuf_copy_pbuf_loop]. set (k := Z.min copy_len _).
      assert (0 <= k) as Hk by (unfold k; pose proof (u64_range (sg_len t - offset));
        pose proof (u64_range (sg_len f - 0)); ztests).
      assert (k <= copy_len) by (unfold k; lia). clearbody k.
      rewrite (u64_small (offset + k)) by lia. by rewrite (proj2 (Z.leb_gt (offset + k) (sg_len t))) by lia.
  - destruct to as [|t tn]; [done|]. destruct from as [|f fn]; [done|].
    destruct Ht as [(_ & Ht & _) _], Hf as [(_ & Hf & _) _].
    unfold pbuf_copy_partial_pbuf. rewrite Ht, Hf.
    destruct (Z.leb_spec copy_len (chain_len (f :: fn))); [|done]. cbn [negb].
    destruct (Z.leb_spec (offset + copy_len) (chain_len (t :: tn))); [|done]. exfalso. apply Hno. lia.
Qed.

(** ** One packet out of a chain *)

Lemma pbuf_chain_segs_spec fuel h q l :
  path h q l -> (length l <= fuel)%nat -> pbuf_chain_segs fuel h q = Ret (segs h l).
Proof.
  revert q l. induction fuel as [|fuel IH]; intros q [|x l]; cbn [path length].
  1, 3: by intros ->.
  - lia.
  - intros (-> & n & Hn & Hp) Hlen. cbn [pbuf_chain_segs]. rewrite Hn. cbn [deref mbind outcome_bind].
    rewrite (IH _ l Hp) by lia. cbn [mbind outcome_bind]. by rewrite (segs_cons _ _ _ _ Hn).
Qed.

Lemma path_kept (h h' : pbuf_heap) q l :
  (forall x n, h !! x = Some n -> h' !! x = Some n) -> path h q l -> path h' q l /\ segs h' l = segs h l.
Proof.
  intros Hsub Hp. assert (forall x, x ∈ l -> h !! x = h' !! x) as Heq.
  { intros x Hx. destruct (path_in_heap _ _ _ _ Hp Hx) as [n Hn]. by rewrite Hn, (Hsub x n Hn). }
  split; [refine (path_ext _ _ _ _ _ Hp)|apply segs_ext]; intros x Hx; by rewrite Heq.
Qed.

(** The blocks of the heap hold no byte of the packet. *)
Definition blocks_apart (mem_malloc : Z -> option Z) (q : list pbuf_seg) : Prop :=
  forall size_ b x, mem_malloc size_ = Some b -> b <= x < b + size_ -> ~ in_chain q x.

(** [pbuf_clone] into one pbuf. *)
Lemma pbuf_clone_ram h m layer p l memp mem_malloc :
  path h (Some p) l -> packet_ok (segs h l) -> heap_answers h mem_malloc -> blocks_apart mem_malloc (segs h l) ->
  exists r h' m', pbuf_clone h m layer PBUF_RAM p memp mem_malloc = Ret (r, h', m') /\
    match r with
    | None => h' = h /\ m' = m
    | Some q => fresh_chain h h' [q] /\ chain_bytes m' (segs h' [q]) = chain_bytes m (segs h l) /\
        forall x, ~ in_chain (segs h' [q]) x -> m' x = m x
    end.
Proof.
  intros Hp Hok Hheap Hblk. pose proof Hok as [Hwf _].
  assert (exists n g, h !! p = Some n /\ segs h l = pn_seg n :: g) as (n & g & Hn & Hg).
  { destruct l as [|x l]; [done|]. pose proof Hp as (Hx & n & Hn & _). injection Hx as <-.
    exists n, (segs h l). split; [done|]. by apply segs_cons. }
  pose proof (chain_len_range _ Hwf) as Hrange.
  assert (pn_tot_len n = chain_len (segs h l)) as Htot by (rewrite Hg in Hwf |- *; by destruct Hwf as (_ & Ht & _)).
  unfold pbuf_clone. rewrite Hn. cbn [deref mbind outcome_bind].
  destruct (pbuf_alloc_ram h layer (pn_tot_len n) memp mem_malloc ltac:(lia) Hheap) as (r & h1 & -> & Hal).
  cbn [mbind outcome_bind]. destruct r as [q|]; [|by exists None, h1, m].
  destruct Hal as [Hfc Hw1 Hl1 Hpl _].
  assert (forall x n, h !! x = Some n -> h1 !! x = Some n) as Hsub.
  { intros x nx Hx. rewrite (fc_kept _ _ _ Hfc); [done|]. intros Hin. pose proof (fc_fresh _ _ _ Hfc x Hin). congruence. }
  destruct (path_kept h h1 _ _ Hsub Hp) as [Hp1 Hs1]. pose proof (fc_path _ _ _ Hfc) as Hpq. cbn [head] in Hpq.
  rewrite (pbuf_chain_segs_spec _ _ _ _ Hpq), (pbuf_chain_segs_spec _ _ _ _ Hp1), Hs1
    by (by eapply path_length). cbn [mbind outcome_bind].
  destruct (fc_nodes _ _ _ Hfc q ltac:(by left)) as (nq & Hnq & _). rewrite (segs_cons _ _ _ _ Hnq) in *.
  destruct (Hpl q nq ltac:(by left) Hnq) as [(size_ & Hm & Hb1 & Hb2 & Hb3) _].
  change (segs h1 []) with (@nil pbuf_seg).
  assert (pbuf_copy m [pn_seg nq] (segs h l) =
    pbuf_copy_partial_pbuf m [pn_seg nq] (segs h l) (chain_len (segs h l)) 0) as ->.
  { rewrite <- Htot. by rewrite Hg. }
  destruct (pbuf_copy_ok m [pn_seg nq] (segs h l) (chain_len (segs h l)) 0) as (m' & -> & Hb & Hm').
  - split; [exact Hw1|done].
  - done.
  - split; [|done]. intros x _ Hx. by apply Exists_nil in Hx.
  - intros x Hx [Hin|Hin]%in_chain_cons; [|by apply Exists_nil in Hin]. unfold in_seg in Hin. cbn in Hin.
    apply (Hblk _ _ x Hm); [|done]. change SIZEOF_STRUCT_PBUF with 24 in *. lia.
  - done.
  - by rewrite Hg.
  - lia.
  - lia.
  - cbn. lia.
  - lia.
  - change (segs h1 []) with (@nil pbuf_seg) in Hl1. lia.
  - exists (Some q), h1, m'. cbn [mbind outcome_bind]. split; [done|]. split; [done|].
    rewrite (segs_cons _ _ _ _ Hnq). change (segs h1 []) with (@nil pbuf_seg) in *. split; [|done].
    rewrite Hb. unfold replace_run. change (Z.to_nat 0) with O. rewrite take_0. cbn [app].
    pose proof (length_chain_bytes m _ (chain_wf_lens _ Hwf)). pose proof (length_chain_bytes m _ (chain_wf_lens _ Hw1)).
    rewrite take_ge, drop_ge, app_nil_r by lia. done.
Qed.

(** [pbuf_coalesce] makes one pbuf of a packet.  It returns.  Either the
    packet was in one pbuf or there is no memory, and the caller keeps it as it
    is; or the result is a new single pbuf with the same bytes, the caller's
    pointer having moved to it, the counts of all pbufs are right, and no byte of
    memory outside the new pbuf has changed. *)
Theorem pbuf_coalesce_single (h : pbuf_heap) (own : Z -> nat) (m : mem) (p : Z) (l : list Z) (layer : pbuf_layer)
    (memp : list (option Z)) (mem_malloc : Z -> option Z) :
  refs_ok h own -> own p <> O -> path h (Some p) l -> packet_ok (segs h l) -> heap_answers h mem_malloc ->
  blocks_apart mem_malloc (segs h l) ->
  exists r h' m', pbuf_coalesce h m p layer memp mem_malloc = Ret (r, h', m') /\
    ((r = p /\ h' = h /\ m' = m) \/
     (h !! r = None /\ refs_ok h' (own_move own (Some p) (Some r)) /\ path h' (Some r) [r] /\
      chain_bytes m' (segs h' [r]) = chain_bytes m (segs h l) /\
      forall x, ~ in_chain (segs h' [r]) x -> m' x = m x)).
Proof.
  intros Hok Hown Hp Hpk Hheap Hblk. destruct (ro_own _ _ Hok p Hown) as [n Hn].
  unfold pbuf_coalesce. rewrite Hn. cbn [deref mbind outcome_bind].
  destruct (pn_next n); [|exists p, h, m; by split; [|left]].
  destruct (pbuf_clone_ram h m layer p l memp mem_malloc Hp Hpk Hheap Hblk) as (r & h1 & m1 & -> & Hr).
  cbn [mbind outcome_bind]. destruct r as [q|]; [|destruct Hr as [-> ->]; exists p, h, m; by split; [|left]].
  destruct Hr as (Hfc & Hb & Hm1). pose proof (fc_fresh _ _ _ Hfc q ltac:(by left)) as Hq.
  assert (q <> p) as Hqp by congruence.
  destruct (pbuf_free_spec h1 (own_add own q) p) as (h2 & freed & -> & Hok2 & [[rest Hrest] _ Hkept]).
  { by eapply fresh_chain_refs. }
  { unfold own_add. by rewrite decide_False. }
  assert (q ∉ freed) as Hqf.
  { intros Hin. assert (path h1 (Some p) l) as Hp1.
    { eapply path_kept; [|exact Hp]. intros x nx Hx. rewrite (fc_kept _ _ _ Hfc); [done|].
      intros ->%list_elem_of_singleton. congruence. }
    rewrite <- (path_det _ _ _ _ Hrest Hp1) in Hp. destruct (path_in_heap _ _ _ q Hp); [|congruence].
    apply elem_of_app. by left. }
  destruct (no_ref_eq _ _ (Hkept q Hqf)) as [Hseg Hnext].
  assert (segs h2 [q] = segs h1 [q]) as Hs by (symmetry; apply segs_ext; by intros x ->%list_elem_of_singleton).
  exists q, h2, m1. split; [done|]. right. rewrite Hs. split_and!; [done| | |done|done].
  - eapply refs_ok_own; [exact Hok2|]. intros x. unfold own_move, own_add, own_drop. repeat case_decide; congruence.
  - refine (path_ext _ _ _ _ _ (fc_path _ _ _ Hfc)). by intros x ->%list_elem_of_singleton.
Qed.

(** ** Searching for a C string *)

Lemma strlen_spec fuel m s n :
  0 <= n < Z.of_nat fuel -> (forall i, 0 <= i < n -> u8 (m (s + i)) <> 0) -> u8 (m (s + n)) = 0 ->
  strlen fuel m s = Ret n.
Proof.
  revert s n. induction fuel as [|fuel IH]; intros s n Hn Hnz Hz; [lia|]. cbn [strlen].
  destruct (decide (n = 0)) as [->|Hne].
  - rewrite Z.add_0_r in Hz. by rewrite Hz.
  - rewrite (proj2 (Z.eqb_neq _ _)); [|specialize (Hnz 0); rewrite Z.add_0_r in Hnz; apply Hnz; lia].
    rewrite (IH (s + 1) (n - 1)); [|lia| |].
    + cbn [mbind outcome_bind]. f_equal. lia.
    + intros i Hi. replace (s + 1 + i) with (s + (i + 1)) by lia. apply Hnz. lia.
    + by replace (s + 1 + (n - 1)) with (s + n) by lia.
Qed.

(** The first occurrence of a C string of [n] bytes, as [pbuf_memfind] finds it. *)
Lemma pbuf_strstr_spec fuel m p s n :
  p <> [] -> chain_wf p -> chain_len p < 65535 -> s <> 0 -> 0 < n < 65535 -> n < Z.of_nat fuel ->
  (forall i, 0 <= i < n -> u8 (m (s + i)) <> 0) -> u8 (m (s + n)) = 0 ->
  exists r, pbuf_strstr fuel m p s = Ret r /\ first_occurrence m p s n 0 r.
Proof.
  intros Hne Hwf Hlen Hs Hn Hfuel Hnz Hz. unfold pbuf_strstr. rewrite (proj2 (Z.eqb_neq s 0)) by done.
  rewrite (proj2 (Z.eqb_neq (u8 (m s)) 0)) by (specialize (Hnz 0); rewrite Z.add_0_r in Hnz; apply Hnz; lia).
  destruct p as [|p0 p]; [done|]. pose proof Hwf as (_ & Ht & _). rewrite Ht, (proj2 (Z.eqb_neq (chain_len _) _)) by lia.
  rewrite (strlen_spec fuel m s n) by (done || lia). cbn [mbind outcome_bind].
  rewrite (proj2 (Z.leb_gt 65535 n)), u16_small by lia. apply pbuf_memfind_spec; done || lia.
Qed.

(** ** Examples *)

(** Three bytes in two pbufs, copied to an offset in a packet of two. *)
Definition move_to : list pbuf_seg := [PbufSeg 100 4 2; PbufSeg 200 2 2].
Definition move_from : list pbuf_seg := [PbufSeg 300 3 1; PbufSeg 400 2 2].

Lemma in_two a b x : in_chain [a; b] x <-> in_seg a x \/ in_seg b x.
Proof. rewrite !in_chain_cons. split; [intros [|[|Hx]]; try tauto; by apply Exists_nil in Hx|tauto]. Qed.

Lemma pbuf_copy_partial_pbuf_exact_witness :
  (exists m', pbuf_copy_partial_pbuf (fun x => x) move_to move_from 3 1 = Ret (ERR_OK, m') /\
    chain_bytes m' move_to = [100; 300; 400; 401]) /\
  pbuf_copy_partial_pbuf (fun x => x) move_to move_from 1 3 = Exited 134.
Proof.
  assert (packet_ok move_to /\ packet_ok move_from) as [Ht Hf] by (split; by vm_compute).
  assert (chain_disjoint move_to) as Hd.
  { split; [|split; [|done]]; intros x Hx Hin; unfold in_seg in *; cbn in *.
    - apply in_chain_cons in Hin as [Hin|Hin]; [unfold in_seg in Hin; cbn in Hin; lia|by apply Exists_nil in Hin].
    - by apply Exists_nil in Hin. }
  assert (forall x, in_chain move_from x -> ~ in_chain move_to x) as Hs.
  { intros x Hx Hin. apply in_two in Hx, Hin. unfold in_seg in *. cbn in *. lia. }
  split.
  - pose proof (pbuf_copy_partial_pbuf_exact (fun x => x) move_to move_from 3 1 Ht Hf Hd Hs) as H.
    rewrite !decide_True in H by (cbn; lia). destruct H as (m' & Heq & Hb & _); [done|done|lia|lia|].
    exists m'. split; [exact Heq|]. rewrite Hb. by vm_compute.
  - pose proof (pbuf_copy_partial_pbuf_exact (fun x => x) move_to move_from 1 3 Ht Hf Hd Hs) as H.
    rewrite decide_True, decide_False in H by (cbn; lia). apply H; done || lia.
Defined.

(** The packet of [example_heap] in one pbuf at 1000. *)
Definition example_malloc (size_ : Z) : option Z := if size_ =? 32 then Some 1000 else None.

Lemma pbuf_coalesce_single_witness :
  exists h' m', pbuf_coalesce example_heap (fun x => x) 10 PBUF_RAW [] example_malloc = Ret (1000, h', m') /\
    refs_ok h' (own_move example_own (Some 10) (Some 1000)) /\
    chain_bytes m' (segs h' [1000]) = [40; 41; 80; 81; 82].
Proof.
  destruct (pbuf_coalesce_single example_heap example_own (fun x => x) 10 [10; 20] PBUF_RAW [] example_malloc)
    as (r & h' & m' & Heq & Hr).
  - exact example_refs_ok.
  - by vm_compute.
  - repeat (split; [done|]; eexists; split; [done|]). done.
  - split; by vm_compute.
  - intros size_ q Hq. unfold example_malloc in Hq. destruct (size_ =? 32); [|done]. injection Hq as <-.
    split_and!; [done|done|lia|lia].
  - intros size_ b x Hq Hx Hin. unfold example_malloc in Hq. destruct (Z.eqb_spec size_ 32); [|done].
    injection Hq as <-. change (segs example_heap [10; 20]) with [PbufSeg 40 5 2; PbufSeg 80 3 3] in Hin.
    apply in_two in Hin. unfold in_seg in Hin. cbn in Hin. lia.
  - assert (r = 1000) as -> by (vm_compute in Heq; by injection Heq).
    destruct Hr as [(? & _)|(_ & Hok & _ & Hb & _)]; [done|].
    exists h', m'. split_and!; [exact Heq|exact Hok|]. rewrite Hb. by vm_compute.
Defined.
