(* ===== verification/Heap.v ===== *)
(** * The heap of lwIP ([lwip/src/core/mem.c])

    [mem_malloc], [mem_free], [mem_trim] and [mem_calloc] over the bytes of the
    heap.  The build has one thread ([NO_SYS]) and a heap of less than 64000
    bytes, so there is no lock and [mem_size_t] has 16 bits.  A [struct mem *]
    is an address; the indices [next] and [prev] count from [ram]. *)
From S2P Require Import Prelude Memory Align Lwip Pbuf.

(** ** The code *)

Definition MEM_SIZE : Z := 10240.
Definition MEM_SIZE_ALIGNED : Z := LWIP_MEM_ALIGN_SIZE MEM_SIZE.
Definition MIN_SIZE : Z := 12.
Definition MIN_SIZE_ALIGNED : Z := LWIP_MEM_ALIGN_SIZE MIN_SIZE.
(** Two indices and a byte, padded to six bytes. *)
Definition SIZEOF_STRUCT_MEM : Z := LWIP_MEM_ALIGN_SIZE 6.

(** [struct mem] at an address. *)
Definition mem_next (m : mem) (p : Z) : Z := load16 m p.
Definition mem_prev (m : mem) (p : Z) : Z := load16 m (p + 2).
Definition mem_used (m : mem) (p : Z) : Z := u8 (m (p + 4)).
Definition set_mem_next (m : mem) (p v : Z) : mem := store16 m p v.
Definition set_mem_prev (m : mem) (p v : Z) : mem := store16 m (p + 2) v.
Definition set_mem_used (m : mem) (p v : Z) : mem := <[p + 4 := u8 v]> m.

(** The globals of the file and the bytes they point to. *)
Record heap := Heap { hp_mem : mem; hp_ram : Z; hp_ram_end : Z; hp_lfree : Z; hp_stats : stats_mem }.
Definition hp_set_mem (h : heap) (m : mem) : heap :=
  Heap m (hp_ram h) (hp_ram_end h) (hp_lfree h) (hp_stats h).
Definition hp_set_lfree (h : heap) (p : Z) : heap :=
  Heap (hp_mem h) (hp_ram h) (hp_ram_end h) p (hp_stats h).
Definition hp_set_stats (h : heap) (s : stats_mem) : heap :=
  Heap (hp_mem h) (hp_ram h) (hp_ram_end h) (hp_lfree h) s.

Definition ptr_to_mem (h : heap) (ptr : Z) : Z := hp_ram h + ptr.
Definition mem_to_ptr (h : heap) (mem : Z) : Z := u16 (mem - hp_ram h).

(** [if (x->next != MEM_SIZE_ALIGNED) ptr_to_mem(x->next)->prev = ptr;] *)
Definition set_prev_of_next (h : heap) (next ptr : Z) : heap :=
  if negb (next =? MEM_SIZE_ALIGNED)
  then hp_set_mem h (set_mem_prev (hp_mem h) (ptr_to_mem h next) ptr) else h.

Definition plug_holes_forward (h : heap) (mem : Z) : heap :=
  let nmem := ptr_to_mem h (mem_next (hp_mem h) mem) in
  if negb (mem =? nmem) && (mem_used (hp_mem h) nmem =? 0) && negb (nmem =? hp_ram_end h) then
    let h := if hp_lfree h =? nmem then hp_set_lfree h mem else h in
    let next := mem_next (hp_mem h) nmem in
    let h := hp_set_mem h (set_mem_next (hp_mem h) mem next) in
    set_prev_of_next h (mem_next (hp_mem h) nmem) (mem_to_ptr h mem)
  else h.

Definition plug_holes_backward (h : heap) (mem : Z) : heap :=
  let pmem := ptr_to_mem h (mem_prev (hp_mem h) mem) in
  if negb (pmem =? mem) && (mem_used (hp_mem h) pmem =? 0) then
    let h := if hp_lfree h =? mem then hp_set_lfree h pmem else h in
    let next := mem_next (hp_mem h) mem in
    let h := hp_set_mem h (set_mem_next (hp_mem h) pmem next) in
    set_prev_of_next h (mem_next (hp_mem h) mem) (mem_to_ptr h pmem)
  else h.

Definition plug_holes (h : heap) (mem : Z) : outcome heap :=
  _ ← LWIP_ASSERT (hp_ram h <=? mem);
  _ ← LWIP_ASSERT (mem <? hp_ram_end h);
  _ ← LWIP_ASSERT (mem_used (hp_mem h) mem =? 0);
  _ ← LWIP_ASSERT (mem_next (hp_mem h) mem <=? MEM_SIZE_ALIGNED);
  Ret (plug_holes_backward (plug_holes_forward h mem) mem).

(** [ram_heap] is where the linker put the array. *)
Definition mem_init (h : heap) (ram_heap : Z) : outcome heap :=
  _ ← LWIP_ASSERT (Z.land SIZEOF_STRUCT_MEM (MEM_ALIGNMENT - 1) =? 0);
  let ram := LWIP_MEM_ALIGN ram_heap in
  let m := set_mem_used (set_mem_prev (set_mem_next (hp_mem h) ram MEM_SIZE_ALIGNED) ram 0) ram 0 in
  let ram_end := ram + MEM_SIZE_ALIGNED in
  let m := set_mem_prev (set_mem_next (set_mem_used m ram_end 1) ram_end MEM_SIZE_ALIGNED) ram_end MEM_SIZE_ALIGNED in
  Ret (Heap m ram ram_end ram (stats_set_avail (hp_stats h) MEM_SIZE_ALIGNED)).

Definition mem_link_valid (h : heap) (mem : Z) : bool :=
  let rmem_idx := mem_to_ptr h mem in
  let nmem := ptr_to_mem h (mem_next (hp_mem h) mem) in
  let pmem := ptr_to_mem h (mem_prev (hp_mem h) mem) in
  negb ((MEM_SIZE_ALIGNED <? mem_next (hp_mem h) mem) || (MEM_SIZE_ALIGNED <? mem_prev (hp_mem h) mem) ||
        (negb (mem_prev (hp_mem h) mem =? rmem_idx) && negb (mem_next (hp_mem h) pmem =? rmem_idx)) ||
        (negb (nmem =? hp_ram_end h) && negb (mem_prev (hp_mem h) nmem =? rmem_idx))).

(** [LWIP_MEM_ILLEGAL_FREE] and the count of illegal frees. *)
Definition mem_illegal_free (h : heap) : outcome heap :=
  _ ← LWIP_ASSERT false;
  Ret (hp_set_stats h (stats_inc_illegal (hp_stats h))).

Definition mem_free (h : heap) (rmem : Z) : outcome heap :=
  if rmem =? 0 then Ret h
  else if negb (Z.land rmem (MEM_ALIGNMENT - 1) =? 0) then mem_illegal_free h
  else
    let mem := rmem - SIZEOF_STRUCT_MEM in
    if (mem <? hp_ram h) || (hp_ram_end h <? rmem + MIN_SIZE_ALIGNED) then mem_illegal_free h
    else if mem_used (hp_mem h) mem =? 0 then mem_illegal_free h
    else if negb (mem_link_valid h mem) then mem_illegal_free h
    else
      let h := hp_set_mem h (set_mem_used (hp_mem h) mem 0) in
      let h := if mem <? hp_lfree h then hp_set_lfree h mem else h in
      let h := hp_set_stats h (stats_dec_used (hp_stats h)
                 (mem_next (hp_mem h) mem - u16 (mem - hp_ram h))) in
      plug_holes h mem.

(** The two ways [mem_trim] puts a free block behind the shrunk one. *)
Definition mem_trim_move (h : heap) (mem ptr newsize size : Z) : outcome heap :=
  let mem2 := ptr_to_mem h (mem_next (hp_mem h) mem) in
  _ ← LWIP_ASSERT (negb (mem_next (hp_mem h) mem =? MEM_SIZE_ALIGNED));
  let next := mem_next (hp_mem h) mem2 in
  let ptr2 := u16 (ptr + SIZEOF_STRUCT_MEM + newsize) in
  let h := if hp_lfree h =? mem2 then hp_set_lfree h (ptr_to_mem h ptr2) else h in
  let mem2 := ptr_to_mem h ptr2 in
  let m := set_mem_prev (set_mem_next (set_mem_used (hp_mem h) mem2 0) mem2 next) mem2 ptr in
  let h := hp_set_mem h (set_mem_next m mem ptr2) in
  let h := set_prev_of_next h (mem_next (hp_mem h) mem2) ptr2 in
  Ret (hp_set_stats h (stats_dec_used (hp_stats h) (size - newsize))).

Definition mem_trim_split (h : heap) (mem ptr newsize size : Z) : outcome heap :=
  let ptr2 := u16 (ptr + SIZEOF_STRUCT_MEM + newsize) in
  _ ← LWIP_ASSERT (negb (mem_next (hp_mem h) mem =? MEM_SIZE_ALIGNED));
  let mem2 := ptr_to_mem h ptr2 in
  let h := if mem2 <? hp_lfree h then hp_set_lfree h mem2 else h in
  let m := set_mem_used (hp_mem h) mem2 0 in
  let m := set_mem_prev (set_mem_next m mem2 (mem_next m mem)) mem2 ptr in
  let h := hp_set_mem h (set_mem_next m mem ptr2) in
  let h := set_prev_of_next h (mem_next (hp_mem h) mem2) ptr2 in
  Ret (hp_set_stats h (stats_dec_used (hp_stats h) (size - newsize))).

Definition aligned_request (size_in : Z) : Z :=
  let size := u16 (LWIP_MEM_ALIGN_SIZE size_in) in
  if size <? MIN_SIZE_ALIGNED then MIN_SIZE_ALIGNED else size.

Definition mem_trim (h : heap) (rmem new_size : Z) : outcome (option Z * heap) :=
  let newsize := aligned_request new_size in
  if (MEM_SIZE_ALIGNED <? newsize) || (newsize <? new_size) then Ret (None, h)
  else
    _ ← LWIP_ASSERT ((hp_ram h <=? rmem) && (rmem <? hp_ram_end h));
    if (rmem <? hp_ram h) || (hp_ram_end h <=? rmem) then
      Ret (Some rmem, hp_set_stats h (stats_inc_illegal (hp_stats h)))
    else
      let mem := rmem - SIZEOF_STRUCT_MEM in
      let ptr := mem_to_ptr h mem in
      let size := u16 (u16 (mem_next (hp_mem h) mem - ptr) - SIZEOF_STRUCT_MEM) in
      _ ← LWIP_ASSERT (newsize <=? size);
      if size <? newsize then Ret (None, h)
      else if newsize =? size then Ret (Some rmem, h)
      else
        let mem2 := ptr_to_mem h (mem_next (hp_mem h) mem) in
        h ← (if mem_used (hp_mem h) mem2 =? 0 then mem_trim_move h mem ptr newsize size
             else if newsize + SIZEOF_STRUCT_MEM + MIN_SIZE_ALIGNED <=? size
                  then mem_trim_split h mem ptr newsize size
                  else Ret h);
        Ret (Some rmem, h).

(** Taking the free block at [ptr], whose size is at least [size]. *)
Definition mem_malloc_take (h : heap) (ptr size : Z) : outcome heap :=
  let mem := ptr_to_mem h ptr in
  let next := mem_next (hp_mem h) mem in
  if size + SIZEOF_STRUCT_MEM + MIN_SIZE_ALIGNED <=? u64 (next - (ptr + SIZEOF_STRUCT_MEM)) then
    let ptr2 := u16 (ptr + SIZEOF_STRUCT_MEM + size) in
    _ ← LWIP_ASSERT (negb (ptr2 =? MEM_SIZE_ALIGNED));
    let mem2 := ptr_to_mem h ptr2 in
    let m := set_mem_used (hp_mem h) mem2 0 in
    let m := set_mem_prev (set_mem_next m mem2 (mem_next m mem)) mem2 ptr in
    let m := set_mem_used (set_mem_next m mem ptr2) mem 1 in
    let h := hp_set_mem h m in
    let h := set_prev_of_next h (mem_next m mem2) ptr2 in
    Ret (hp_set_stats h (stats_inc_used (hp_stats h) (size + SIZEOF_STRUCT_MEM)))
  else
    let h := hp_set_mem h (set_mem_used (hp_mem h) mem 1) in
    Ret (hp_set_stats h (stats_inc_used (hp_stats h)
           (mem_next (hp_mem h) mem - mem_to_ptr h mem))).

(** [while (cur->used && cur != ram_end)]. *)
Fixpoint next_free_loop (fuel : nat) (h : heap) (cur : Z) : outcome Z :=
  match fuel with
  | O => NoFuel
  | S fuel =>
      if negb (mem_used (hp_mem h) cur =? 0) && negb (cur =? hp_ram_end h)
      then next_free_loop fuel h (ptr_to_mem h (mem_next (hp_mem h) cur))
      else Ret cur
  end.

(** The blocks a heap can have, and one. *)
Definition heap_fuel : nat := Z.to_nat (MEM_SIZE_ALIGNED / (SIZEOF_STRUCT_MEM + MIN_SIZE_ALIGNED) + 2).

Definition mem_malloc_adjust_lfree (h : heap) (mem : Z) : outcome heap :=
  if mem =? hp_lfree h then
    cur ← next_free_loop heap_fuel h (hp_lfree h);
    let h := hp_set_lfree h cur in
    _ ← LWIP_ASSERT ((hp_lfree h =? hp_ram_end h) || (mem_used (hp_mem h) (hp_lfree h) =? 0));
    Ret h
  else Ret h.

Fixpoint mem_malloc_loop (fuel : nat) (h : heap) (ptr size : Z) : outcome (option Z * heap) :=
  match fuel with
  | O => NoFuel
  | S fuel =>
      if ptr <? u32 (MEM_SIZE_ALIGNED - size) then
        let mem := ptr_to_mem h ptr in
        if (mem_used (hp_mem h) mem =? 0) &&
           (size <=? u64 (mem_next (hp_mem h) mem - (ptr + SIZEOF_STRUCT_MEM))) then
          h ← mem_malloc_take h ptr size;
          h ← mem_malloc_adjust_lfree h mem;
          _ ← LWIP_ASSERT (mem + SIZEOF_STRUCT_MEM + size <=? hp_ram_end h);
          _ ← LWIP_ASSERT ((mem + SIZEOF_STRUCT_MEM) mod MEM_ALIGNMENT =? 0);
          _ ← LWIP_ASSERT (Z.land mem (MEM_ALIGNMENT - 1) =? 0);
          Ret (Some (mem + SIZEOF_STRUCT_MEM), h)
        else mem_malloc_loop fuel h (mem_next (hp_mem h) mem) size
      else Ret (None, hp_set_stats h (stats_inc_err (hp_stats h)))
  end.

Definition mem_malloc (h : heap) (size_in : Z) : outcome (option Z * heap) :=
  if size_in =? 0 then Ret (None, h)
  else
    let size := aligned_request size_in in
    if (MEM_SIZE_ALIGNED <? size) || (size <? size_in) then Ret (None, h)
    else mem_malloc_loop heap_fuel h (mem_to_ptr h (hp_lfree h)) size.

Definition mem_calloc (h : heap) (count size : Z) : outcome (option Z * heap) :=
  let alloc_size := u64 (count * size) in
  if negb (u16 alloc_size =? alloc_size) then Ret (None, h)
  else
    '(p, h) ← mem_malloc h (u16 alloc_size);
    match p with
    | Some p => Ret (Some p, hp_set_mem h (memset (hp_mem h) p 0 alloc_size))
    | None => Ret (None, h)
    end.
