(* ===== verification/HeapSpec.v ===== *)
(** * What the heap of lwIP promises

    The bytes of the heap are a list of blocks; [mem_malloc] takes the first
    that fits, [mem_free] merges, [mem_trim] gives back the end of a block.  Seen
    from outside, the heap is a map from the addresses of the live blocks to
    their bytes. *)
From S2P Require Import Prelude Memory Align Lwip Pbuf Heap.

(** ** Reading a header after a write *)

(** The bytes of a [struct mem]. *)
Definition same_hdr (m m' : mem) (p : Z) : Prop := same_bytes p (p + 5) m m'.

Lemma mem_next_ext m m' p : same_hdr m m' p -> mem_next m p = mem_next m' p.
Proof. intros H. apply load16_ext. intros x Hx. apply H. lia. Qed.
Lemma mem_prev_ext m m' p : same_hdr m m' p -> mem_prev m p = mem_prev m' p.
Proof. intros H. apply load16_ext. intros x Hx. apply H. lia. Qed.
Lemma mem_used_ext m m' p : same_hdr m m' p -> mem_used m p = mem_used m' p.
Proof. intros H. unfold mem_used. f_equal. apply H. lia. Qed.

Lemma set_mem_next_out m p v x : ~ p <= x < p + 2 -> set_mem_next m p v x = m x.
Proof. apply store16_out. Qed.
Lemma set_mem_prev_out m p v x : ~ p + 2 <= x < p + 4 -> set_mem_prev m p v x = m x.
Proof. intros. apply store16_out. lia. Qed.
Lemma set_mem_used_out m p v x : x <> p + 4 -> set_mem_used m p v x = m x.
Proof. intros. unfold set_mem_used. by apply arr_insert_ne. Qed.

Lemma mem_next_set_next m p v : mem_next (set_mem_next m p v) p = u16 v.
Proof. apply load16_store16. Qed.
Lemma mem_prev_set_prev m p v : mem_prev (set_mem_prev m p v) p = u16 v.
Proof. apply load16_store16. Qed.
Lemma mem_used_set_used m p v : mem_used (set_mem_used m p v) p = u8 v.
Proof. unfold mem_used, set_mem_used, mem in *. rewrite arr_insert_eq. apply Z.mod_mod. lia. Qed.

Lemma mem_next_set_prev m p q v : p = q \/ p + 8 <= q \/ q + 8 <= p -> mem_next (set_mem_prev m q v) p = mem_next m p.
Proof. intros. apply load16_ext. intros. apply set_mem_prev_out. lia. Qed.
Lemma mem_next_set_used m p q v : p = q \/ p + 8 <= q \/ q + 8 <= p -> mem_next (set_mem_used m q v) p = mem_next m p.
Proof. intros. apply load16_ext. intros. apply set_mem_used_out. lia. Qed.
Lemma mem_next_set_next_ne m p q v : p + 8 <= q \/ q + 8 <= p -> mem_next (set_mem_next m q v) p = mem_next m p.
Proof. intros. apply load16_ext. intros. apply set_mem_next_out. lia. Qed.
Lemma mem_prev_set_next m p q v : p = q \/ p + 8 <= q \/ q + 8 <= p -> mem_prev (set_mem_next m q v) p = mem_prev m p.
Proof. intros. apply load16_ext. intros. apply set_mem_next_out. lia. Qed.
Lemma mem_prev_set_used m p q v : p = q \/ p + 8 <= q \/ q + 8 <= p -> mem_prev (set_mem_used m q v) p = mem_prev m p.
Proof. intros. apply load16_ext. intros. apply set_mem_used_out. lia. Qed.
Lemma mem_prev_set_prev_ne m p q v : p + 8 <= q \/ q + 8 <= p -> mem_prev (set_mem_prev m q v) p = mem_prev m p.
Proof. intros. apply load16_ext. intros. apply set_mem_prev_out. lia. Qed.
Lemma mem_used_set_next m p q v : p = q \/ p + 8 <= q \/ q + 8 <= p -> mem_used (set_mem_next m q v) p = mem_used m p.
Proof. intros. unfold mem_used. f_equal. apply set_mem_next_out. lia. Qed.
Lemma mem_used_set_prev m p q v : p = q \/ p + 8 <= q \/ q + 8 <= p -> mem_used (set_mem_prev m q v) p = mem_used m p.
Proof. intros. unfold mem_used. f_equal. apply set_mem_prev_out. lia. Qed.
Lemma mem_used_set_used_ne m p q v : p + 8 <= q \/ q + 8 <= p -> mem_used (set_mem_used m q v) p = mem_used m p.
Proof. intros. unfold mem_used. f_equal. apply set_mem_used_out. lia. Qed.

(** Reads of a header behind any writes to headers. *)
Ltac hdr_read :=
  repeat first
    [ rewrite mem_next_set_next | rewrite mem_prev_set_prev | rewrite mem_used_set_used
    | rewrite mem_next_set_prev by lia | rewrite mem_next_set_used by lia | rewrite mem_next_set_next_ne by lia
    | rewrite mem_prev_set_next by lia | rewrite mem_prev_set_used by lia | rewrite mem_prev_set_prev_ne by lia
    | rewrite mem_used_set_next by lia | rewrite mem_used_set_prev by lia | rewrite mem_used_set_used_ne by lia ].

(** Other bytes behind them. *)
Ltac hdr_other :=
  repeat first
    [ rewrite set_mem_next_out by lia | rewrite set_mem_prev_out by lia | rewrite set_mem_used_out by lia ].

(** ** Blocks *)

(** A block from its header to the next one, as indices into the heap. *)
Record blk := Blk { bk_ptr : Z; bk_next : Z; bk_used : bool }.
#[export] Instance blk_eq_dec : EqDecision blk.
Proof. solve_decision. Defined.

(** What a block can hold. *)
Definition bk_size (b : blk) : Z := bk_next b - bk_ptr b - SIZEOF_STRUCT_MEM.

Definition blk_ok (b : blk) : Prop := MIN_SIZE_ALIGNED <= bk_size b /\ bk_ptr b mod 4 = 0 /\ bk_next b mod 4 = 0.

(** The blocks [l] cover [p] to [q] without a gap. *)
Fixpoint tiles (p : Z) (l : list blk) (q : Z) : Prop :=
  match l with
  | [] => p = q
  | b :: l => bk_ptr b = p /\ blk_ok b /\ tiles (bk_next b) l q
  end.

(** The headers of the blocks, the first with back link [prev]. *)
Fixpoint links (m : mem) (ram prev : Z) (l : list blk) : Prop :=
  match l with
  | [] => True
  | b :: l =>
      mem_next m (ram + bk_ptr b) = bk_next b /\ mem_prev m (ram + bk_ptr b) = prev /\
      mem_used m (ram + bk_ptr b) = int_of_bool (bk_used b) /\ links m ram (bk_ptr b) l
  end.

(** No two free blocks in a row. *)
Fixpoint no_holes (l : list blk) : Prop :=
  match l with
  | b :: (c :: _) as l => (bk_used b = true \/ bk_used c = true) /\ no_holes l
  | _ => True
  end.

(** The lowest free block, or the end. *)
Definition is_low (l : list blk) (f : Z) : Prop :=
  (f = MEM_SIZE_ALIGNED \/ exists b, b ∈ l /\ bk_used b = false /\ bk_ptr b = f) /\
  forall b, b ∈ l -> bk_used b = false -> f <= bk_ptr b.

Fixpoint used_bytes (l : list blk) : Z :=
  match l with [] => 0 | b :: l => (if bk_used b then bk_next b - bk_ptr b else 0) + used_bytes l end.

Record heap_ok (h : heap) (l : list blk) : Prop := HeapOk {
  ho_ram : 0 < hp_ram h /\ hp_ram h mod 4 = 0 /\ hp_ram h + MEM_SIZE_ALIGNED + SIZEOF_STRUCT_MEM < 18446744073709551616;
  ho_end : hp_ram_end h = hp_ram h + MEM_SIZE_ALIGNED;
  ho_end_used : mem_used (hp_mem h) (hp_ram_end h) = 1;
  ho_tiles : tiles 0 l MEM_SIZE_ALIGNED;
  ho_links : links (hp_mem h) (hp_ram h) 0 l;
  ho_no_holes : no_holes l;
  ho_low : exists f, hp_lfree h = hp_ram h + f /\ is_low l f;
  ho_stats : ms_used (hp_stats h) = used_bytes l }.

Lemma sizeof_struct_mem : SIZEOF_STRUCT_MEM = 8. Proof. done. Qed.
Lemma min_size_aligned : MIN_SIZE_ALIGNED = 12. Proof. done. Qed.
Lemma mem_size_aligned : MEM_SIZE_ALIGNED = 10240. Proof. done. Qed.

(** The constants as numbers, for [lia]. *)
Ltac heap_consts :=
  unfold bk_size in *; rewrite ?sizeof_struct_mem, ?min_size_aligned, ?mem_size_aligned in *.
Ltac hlia := unfold blk_ok in *; heap_consts; lia.

Section blocks.
Implicit Types (l : list blk) (b c : blk).

Lemma blk_ok_room b : blk_ok b -> bk_ptr b + 20 <= bk_next b.
Proof. intros []. hlia. Qed.

Lemma blk_ok_intro p q u : p mod 4 = 0 -> q mod 4 = 0 -> p + 20 <= q -> blk_ok (Blk p q u).
Proof. intros. unfold blk_ok. heap_consts. cbn [bk_ptr bk_next]. split_and!; (done || lia). Qed.

Lemma tiles_app p l1 l2 q : tiles p (l1 ++ l2) q <-> exists r, tiles p l1 r /\ tiles r l2 q.
Proof.
  revert p. induction l1 as [|b l1 IH]; intros p; simpl.
  - split; [by exists p|by intros (r & -> & ?)].
  - setoid_rewrite IH. split.
    + intros (? & ? & r & ? & ?). by exists r.
    + intros (r & (? & ? & ?) & ?). split_and!; [done..|by exists r].
Qed.

Lemma tiles_le p l q : tiles p l q -> p <= q.
Proof.
  revert p. induction l as [|b l IH]; intros p; simpl; [lia|].
  intros (<- & Hb%blk_ok_room & Hl%IH). lia.
Qed.

Lemma tiles_mod p l q : tiles p l q -> l <> [] -> p mod 4 = 0 /\ q mod 4 = 0.
Proof.
  revert p. induction l as [|b l IH]; intros p; simpl; [done|].
  intros (<- & (_ & ? & Hn) & Hl) _. split; [done|].
  destruct l as [|c l]; [|by apply (IH (bk_next b))]. by rewrite <- (Hl : bk_next b = q).
Qed.

Lemma tiles_elem p l q b : tiles p l q -> b ∈ l -> p <= bk_ptr b /\ bk_ptr b + 20 <= bk_next b <= q /\ blk_ok b.
Proof.
  revert p. induction l as [|c l IH]; intros p; simpl; [by intros _ ?%elem_of_nil|].
  intros (<- & Hc & Hl) [->|Hb]%elem_of_cons.
  - pose proof (blk_ok_room _ Hc). pose proof (tiles_le _ _ _ Hl). split_and!; (done || lia).
  - destruct (IH _ Hl Hb) as (? & ? & ?). pose proof (blk_ok_room _ Hc). split_and!; (done || lia).
Qed.

(** Two blocks are one, or one ends before the other. *)
Lemma tiles_disjoint p l q b c :
  tiles p l q -> b ∈ l -> c ∈ l -> b = c \/ bk_next b <= bk_ptr c \/ bk_next c <= bk_ptr b.
Proof.
  revert p. induction l as [|d l IH]; intros p; simpl; [by intros _ ?%elem_of_nil|].
  intros (<- & Hd & Hl) [->|Hb]%elem_of_cons [->|Hc]%elem_of_cons; [by left|..].
  - destruct (tiles_elem _ _ _ _ Hl Hc). lia.
  - destruct (tiles_elem _ _ _ _ Hl Hb). lia.
  - by apply (IH _ Hl).
Qed.

Lemma tiles_uncons p b l q : tiles p (b :: l) q -> tiles p [b] (bk_next b) /\ tiles (bk_next b) l q.
Proof. by intros (? & ? & ?). Qed.

(** A block in the middle: what is in front of it and behind it. *)
Lemma tiles_middle l1 b l2 p q :
  tiles p (l1 ++ b :: l2) q <-> tiles p l1 (bk_ptr b) /\ blk_ok b /\ tiles (bk_next b) l2 q.
Proof.
  rewrite tiles_app. simpl. split; [by intros (r & ? & <- & ?)|].
  intros (? & ? & ?). by exists (bk_ptr b).
Qed.

Lemma heap_links_app m ram p l1 l2 :
  links m ram p (l1 ++ l2) <->
  links m ram p l1 /\ links m ram (default p (bk_ptr <$> last l1)) l2.
Proof.
  revert p. induction l1 as [|b l1 IH]; intros p; [simpl; tauto|].
  rewrite last_cons. cbn [app links]. rewrite IH. destruct (last l1); simpl; tauto.
Qed.

Lemma heap_links_ext m m' ram p l :
  (forall b, b ∈ l -> same_hdr m m' (ram + bk_ptr b)) -> links m ram p l -> links m' ram p l.
Proof.
  revert p. induction l as [|b l IH]; intros p Hs; [done|]. intros (Hn & Hp & Hu & Hl).
  pose proof (Hs b ltac:(by left)) as Hb. cbn [links].
  rewrite <- (mem_next_ext _ _ _ Hb), <- (mem_prev_ext _ _ _ Hb), <- (mem_used_ext _ _ _ Hb).
  split_and!; [done..|]. apply IH; [|done]. intros c Hc. apply Hs. by right.
Qed.

Lemma used_bytes_app l1 l2 : used_bytes (l1 ++ l2) = used_bytes l1 + used_bytes l2.
Proof. induction l1; simpl; lia. Qed.

Lemma used_bytes_range p l q : tiles p l q -> 0 <= used_bytes l <= q - p.
Proof.
  revert p. induction l as [|b l IH]; intros p; simpl; [lia|].
  intros (<- & Hb%blk_ok_room & Hl%IH). destruct (bk_used b); lia.
Qed.

Lemma no_holes_cons b l :
  no_holes (b :: l) <-> no_holes l /\ (forall c, head l = Some c -> bk_used b = true \/ bk_used c = true).
Proof.
  destruct l as [|c l]; cbn [no_holes head]; [by split|]. split.
  - intros [H ?]. split; [done|]. by intros ? [= <-].
  - intros [? H]. split; [by apply H|done].
Qed.

Lemma no_holes_app b l1 l2 :
  no_holes (l1 ++ b :: l2) <->
  no_holes l1 /\ no_holes (b :: l2) /\ (forall a, last l1 = Some a -> bk_used a = true \/ bk_used b = true).
Proof.
  induction l1 as [|a l1 IH]; [by cbn [app]; split; [|intros (_ & ? & _)]|].
  rewrite <- app_comm_cons, !(no_holes_cons a), IH, last_cons. destruct l1 as [|a' l1]; cbn [app head last].
  - split; [intros (? & H)|intros (? & ? & H)]; split_and!; try tauto; intros ? [= <-]; by apply H.
  - destruct (last (a' :: l1)) eqn:He; [|by apply last_None in He]. tauto.
Qed.
End blocks.

#[export] Hint Resolve tiles_le : pifus.

(** ** A heap between two writes *)

(** What holds of the headers, without the other globals. *)
Record chained (m : mem) (ram : Z) (l : list blk) : Prop := Chained {
  ch_tiles : tiles 0 l MEM_SIZE_ALIGNED;
  ch_links : links m ram 0 l }.

(** Only headers and free blocks change: not what is in used blocks, nor what
    is outside of the heap. *)
Definition kept (ram : Z) (l : list blk) (m m' : mem) : Prop :=
  (forall b, b ∈ l -> bk_used b = true -> same_bytes (ram + bk_ptr b + SIZEOF_STRUCT_MEM) (ram + bk_next b) m m') /\
  (forall x, ~ ram <= x < ram + MEM_SIZE_ALIGNED -> m x = m' x).

#[export] Instance kept_equiv ram l : Equivalence (kept ram l).
Proof.
  split.
  - intros m. by split.
  - intros m m' [H1 H2]. split; [|intros x Hx; by rewrite H2].
    intros b Hb Hu x Hx. symmetry. by apply (H1 b).
  - intros m1 m2 m3 [H1 H2] [H3 H4]. split; [|intros x Hx; rewrite H2, H4; done].
    intros b Hb Hu x Hx. rewrite (H1 b Hb Hu x Hx). by apply (H3 b).
Qed.

(** The back link of what follows a block. *)
Lemma set_prev_of_next_spec h r p ptr l2 :
  tiles r l2 MEM_SIZE_ALIGNED -> links (hp_mem h) (hp_ram h) p l2 -> 0 <= ptr < 65536 ->
  let h' := set_prev_of_next h r ptr in
  links (hp_mem h') (hp_ram h) ptr l2 /\
  (forall x, ~ hp_ram h + r + 2 <= x < hp_ram h + r + 4 \/ r = MEM_SIZE_ALIGNED -> hp_mem h' x = hp_mem h x) /\
  h' = hp_set_mem h (hp_mem h').
Proof.
  intros Ht Hl Hptr h'. subst h'. unfold set_prev_of_next.
  destruct (Z.eqb_spec r MEM_SIZE_ALIGNED) as [->|Hr]; cbn [negb].
  - destruct l2 as [|c l2]; [by destruct h|]. destruct Ht as (? & Hc%blk_ok_room & Hl2%tiles_le). lia.
  - destruct l2 as [|c l2]; [by destruct Ht|]. destruct Ht as (<- & Hc & Ht).
    destruct Hl as (Hn & Hp & Hu & Hl). cbn [hp_mem hp_set_mem]. unfold ptr_to_mem. split_and!; [|..|by destruct h].
    + cbn [links]. hdr_read. rewrite u16_small by done. split_and!; [done..|].
      refine (heap_links_ext _ _ _ _ _ _ Hl). intros d Hd x Hx. symmetry. apply set_mem_prev_out.
      destruct (tiles_elem _ _ _ _ Ht Hd). pose proof (blk_ok_room _ Hc). lia.
    + intros x Hx. apply set_mem_prev_out. lia.
Qed.

(** What may change at [x]: a header, or a byte of a free block. *)
Definition loose (ram : Z) (l : list blk) (x : Z) : Prop :=
  exists c, c ∈ l /\ (ram + bk_ptr c <= x < ram + bk_ptr c + 8 \/
    (bk_used c = false /\ ram + bk_ptr c <= x < ram + bk_next c)).

Lemma kept_intro ram l m m' :
  tiles 0 l MEM_SIZE_ALIGNED -> (forall x, m x = m' x \/ loose ram l x) -> kept ram l m m'.
Proof.
  intros Ht Hx. split.
  - intros b Hb Hu x Hin. rewrite sizeof_struct_mem in Hin. destruct (Hx x) as [|(c & Hc & Hl)]; [done|].
    destruct (tiles_elem _ _ _ _ Ht Hc) as (_ & ? & _), (tiles_elem _ _ _ _ Ht Hb) as (_ & ? & _).
    destruct (tiles_disjoint _ _ _ _ _ Ht Hb Hc) as [->|?]; [|lia].
    destruct Hl as [?|[? ?]]; [lia|congruence].
  - intros x Hout. destruct (Hx x) as [|(c & Hc & Hl)]; [done|].
    destruct (tiles_elem _ _ _ _ Ht Hc) as (? & ? & _). lia.
Qed.

(** The blocks from [b] on are written anew, those in front of it are left. *)
Lemma chained_replace m m' ram l1 b l2 bs p :
  chained m ram (l1 ++ b :: l2) ->
  (forall x, x < ram + bk_ptr b -> m' x = m x) ->
  p = default 0 (bk_ptr <$> last l1) ->
  tiles (bk_ptr b) bs MEM_SIZE_ALIGNED -> links m' ram p bs ->
  chained m' ram (l1 ++ bs).
Proof.
  intros [Ht Hl] Hm -> Hbs Hlb. apply tiles_middle in Ht as (Ht1 & Hb & Ht2). apply heap_links_app in Hl as [Hl1 _].
  split.
  - apply tiles_app. by exists (bk_ptr b).
  - apply heap_links_app. split; [|done]. refine (heap_links_ext _ _ _ _ _ _ Hl1).
    intros c Hc x Hx. symmetry. apply Hm. destruct (tiles_elem _ _ _ _ Ht1 Hc). lia.
Qed.

Lemma chained_middle m ram l1 b l2 :
  chained m ram (l1 ++ b :: l2) ->
  mem_next m (ram + bk_ptr b) = bk_next b /\
  mem_prev m (ram + bk_ptr b) = default 0 (bk_ptr <$> last l1) /\
  mem_used m (ram + bk_ptr b) = int_of_bool (bk_used b) /\
  links m ram (bk_ptr b) l2 /\ tiles 0 l1 (bk_ptr b) /\ blk_ok b /\ tiles (bk_next b) l2 MEM_SIZE_ALIGNED /\
  0 <= bk_ptr b /\ bk_ptr b + 20 <= bk_next b <= 10240.
Proof.
  intros [Ht Hl]. apply heap_links_app in Hl as [_ Hl]. destruct Hl as (-> & -> & -> & Hl).
  apply tiles_middle in Ht as (Ht1 & Hb & Ht2). pose proof (blk_ok_room _ Hb).
  pose proof (tiles_le _ _ _ Ht1). pose proof (tiles_le _ _ _ Ht2). rewrite mem_size_aligned in *.
  split_and!; (done || lia).
Qed.

(** A block cut for a request, and the rest of it when that can be a block. *)
Definition carve (size : Z) (b : blk) : list blk :=
  if size + SIZEOF_STRUCT_MEM + MIN_SIZE_ALIGNED <=? bk_size b
  then [Blk (bk_ptr b) (bk_ptr b + SIZEOF_STRUCT_MEM + size) true;
        Blk (bk_ptr b + SIZEOF_STRUCT_MEM + size) (bk_next b) false]
  else [Blk (bk_ptr b) (bk_next b) true].

Definition size_ok (size : Z) : Prop := MIN_SIZE_ALIGNED <= size /\ size mod 4 = 0.

Lemma mod4_add x y : x mod 4 = 0 -> y mod 4 = 0 -> (x + y) mod 4 = 0.
Proof. intros Hx Hy. by rewrite Z.add_mod, Hx, Hy by lia. Qed.

Lemma mod4_off p size : p mod 4 = 0 -> size mod 4 = 0 -> (p + 8 + size) mod 4 = 0.
Proof. intros. by repeat apply mod4_add. Qed.

(** Only the flag of a block changes. *)
Lemma use_spec m ram l1 b l2 (v : bool) :
  chained m ram (l1 ++ b :: l2) ->
  let l' := l1 ++ Blk (bk_ptr b) (bk_next b) v :: l2 in
  chained (set_mem_used m (ram + bk_ptr b) (int_of_bool v)) ram l' /\
  kept ram l' m (set_mem_used m (ram + bk_ptr b) (int_of_bool v)).
Proof.
  intros Hc l'. pose proof Hc as [Ht _].
  destruct (chained_middle _ _ _ _ _ Hc) as (Hn & Hp & _ & Hl2 & Ht1 & Hb & Ht2 & Hb0 & Hbr).
  assert (chained (set_mem_used m (ram + bk_ptr b) (int_of_bool v)) ram l') as Hc'.
  { apply chained_replace with m b l2 (default 0 (bk_ptr <$> last l1)); [done|..|done| |].
    - intros x Hx. by hdr_other.
    - cbn [tiles bk_ptr bk_next]. by split_and!.
    - cbn [links bk_ptr bk_next bk_used]. hdr_read. split_and!; [done..|by destruct v|].
      refine (heap_links_ext _ _ _ _ _ _ Hl2). intros c Hc2 x Hx. symmetry.
      destruct (tiles_elem _ _ _ _ Ht2 Hc2). by hdr_other. }
  split; [done|]. apply kept_intro; [by destruct Hc'|]. intros x.
  destruct (decide (x = ram + bk_ptr b + 4)) as [->|Hx]; [|left; by hdr_other].
  right. eexists. split; [apply elem_of_app; right; by left|]. left. cbn [bk_ptr]. lia.
Qed.

(** A block cut in two at [ptr2]: [mm] has both headers, the second block takes
    what was behind [b] up to [nx]. *)
Lemma cut_spec h mm l1 b mid l2 ptr2 nx v :
  chained (hp_mem h) (hp_ram h) (l1 ++ b :: mid ++ l2) -> tiles (bk_next b) mid nx ->
  bk_ptr b + 20 <= ptr2 -> ptr2 + 20 <= nx -> ptr2 mod 4 = 0 ->
  mem_next mm (hp_ram h + bk_ptr b) = ptr2 ->
  mem_prev mm (hp_ram h + bk_ptr b) = mem_prev (hp_mem h) (hp_ram h + bk_ptr b) ->
  mem_used mm (hp_ram h + bk_ptr b) = int_of_bool v ->
  mem_next mm (hp_ram h + ptr2) = nx -> mem_prev mm (hp_ram h + ptr2) = bk_ptr b ->
  mem_used mm (hp_ram h + ptr2) = 0 ->
  (forall x, ~ hp_ram h + bk_ptr b <= x < hp_ram h + bk_ptr b + 8 -> ~ hp_ram h + ptr2 <= x < hp_ram h + ptr2 + 8 ->
    mm x = hp_mem h x) ->
  let l' := l1 ++ Blk (bk_ptr b) ptr2 v :: Blk ptr2 nx false :: l2 in
  exists m', set_prev_of_next (hp_set_mem h mm) nx ptr2 = hp_set_mem h m' /\
    chained m' (hp_ram h) l' /\ kept (hp_ram h) l' (hp_mem h) m'.
Proof.
  intros Hc Hmid H1 H2 H3 Hbn Hbp Hbu Hpn Hpp Hpu Hsame l'.
  destruct (chained_middle _ _ _ _ _ Hc) as (_ & Hp & _ & Hl2 & Ht1 & (_ & Hm1 & _) & Ht2 & Hb0 & _).
  apply tiles_app in Ht2 as (nx' & Hmid' & Ht2).
  assert (nx' = nx) as -> by (clear -Hmid Hmid'; revert Hmid Hmid'; generalize (bk_next b);
    induction mid as [|c mid IH]; intros p; [by intros <- <-|intros (_ & _ & ?) (_ & _ & ?); by eapply IH]).
  pose proof (tiles_le _ _ _ Ht2) as Hle. pose proof (tiles_le _ _ _ Hmid) as Hle'. rewrite mem_size_aligned in Hle.
  apply heap_links_app in Hl2 as [_ Hl2]. set (q := default (bk_ptr b) _) in Hl2.
  assert (nx mod 4 = 0) as Hm2.
  { destruct l2 as [|c l2]; [by rewrite (Ht2 : nx = 10240)|]. by apply (tiles_mod _ _ _ Ht2). }
  assert (links mm (hp_ram h) q l2) as Hl2'.
  { refine (heap_links_ext _ _ _ _ _ _ Hl2). intros c Hcl x Hx. symmetry.
    destruct (tiles_elem _ _ _ _ Ht2 Hcl). apply Hsame; lia. }
  destruct (set_prev_of_next_spec (hp_set_mem h mm) nx q ptr2 l2) as (Hl3 & Hout & ->); [done..|lia|].
  cbn [hp_set_mem hp_mem hp_ram] in Hl3, Hout. rewrite mem_size_aligned in Hout.
  set (m' := hp_mem (set_prev_of_next _ _ _)) in *.
  assert (forall p, p + 8 <= hp_ram h + nx -> same_hdr mm m' p) as Hkeep.
  { intros p Hpx x Hx. symmetry. apply Hout. lia. }
  assert (tiles 0 l' MEM_SIZE_ALIGNED) as Ht'.
  { apply tiles_middle. cbn [bk_ptr bk_next tiles]. split_and!; (done || apply blk_ok_intro; (done || lia)). }
  exists m'. split; [done|]. split.
  - apply chained_replace with (hp_mem h) b (mid ++ l2) (default 0 (bk_ptr <$> last l1)); [done|..|done| |].
    + intros x Hx. rewrite Hout by lia. apply Hsame; lia.
    + by apply tiles_app in Ht' as (r & Hr & (<- & ?)).
    + cbn [links bk_ptr bk_next bk_used int_of_bool].
      rewrite <- !(mem_next_ext mm m'), <- !(mem_prev_ext mm m'), <- !(mem_used_ext mm m') by (apply Hkeep; lia).
      rewrite Hbp. split_and!; done.
  - apply kept_intro; [done|]. intros x.
    destruct (decide (hp_ram h + nx + 2 <= x < hp_ram h + nx + 4 /\ nx <> 10240)) as [[Hx Hne]|Hx].
    { right. destruct l2 as [|c l2]; [destruct Hne; exact Ht2|]. destruct Ht2 as (Hc2 & _). exists c.
      split; [apply elem_of_app; right; do 2 right; by left|]. left. lia. }
    rewrite Hout by lia.
    destruct (decide (hp_ram h + bk_ptr b <= x < hp_ram h + bk_ptr b + 8)) as [Hxb|Hxb].
    { right. eexists. split; [apply elem_of_app; right; by left|]. left. exact Hxb. }
    destruct (decide (hp_ram h + ptr2 <= x < hp_ram h + ptr2 + 8)) as [Hxp|Hxp].
    { right. eexists. split; [apply elem_of_app; right; right; by left|]. left. exact Hxp. }
    left. by rewrite Hsame.
Qed.

Lemma kept_sub ram l l' m m' :
  (forall b, b ∈ l' -> bk_used b = true -> b ∈ l) -> kept ram l m m' -> kept ram l' m m'.
Proof. intros Hsub [H1 H2]. split; [|done]. intros b Hb Hu. apply H1; [by apply Hsub|done]. Qed.

Lemma mem_malloc_take_spec h l1 b l2 size :
  chained (hp_mem h) (hp_ram h) (l1 ++ b :: l2) -> bk_used b = false -> size_ok size -> size <= bk_size b ->
  exists m', mem_malloc_take h (bk_ptr b) size =
      Ret (hp_set_stats (hp_set_mem h m') (stats_inc_used (hp_stats h) (used_bytes (carve size b)))) /\
    chained m' (hp_ram h) (l1 ++ carve size b ++ l2) /\ kept (hp_ram h) (l1 ++ b :: l2) (hp_mem h) m'.
Proof.
  intros Hc Hu [Hs1 Hs2] Hsz. pose proof Hc as [Ht _].
  destruct (chained_middle _ _ _ _ _ Hc) as (Hn & Hp & Hub & Hl2 & Ht1 & Hb & Ht2 & Hb0 & Hr).
  pose proof Hb as (_ & Hm1 & Hm2).
  unfold mem_malloc_take, carve, ptr_to_mem. rewrite Hn. heap_consts. rewrite u64_small by lia.
  replace (bk_next b - (bk_ptr b + 8)) with (bk_next b - bk_ptr b - 8) by lia.
  destruct (Z.leb_spec (size + 8 + 12) (bk_next b - bk_ptr b - 8)) as [Hsplit|Hfit].
  - pose proof (mod4_off _ _ Hm1 Hs2) as Hm3. rewrite u16_small by lia.
    destruct (Z.eqb_spec (bk_ptr b + 8 + size) 10240); [lia|]. cbn [negb LWIP_ASSERT mbind outcome_bind].
    hdr_read. rewrite Hn, u16_small by lia. set (mm := set_mem_used (set_mem_next _ _ _) _ _).
    destruct (cut_spec h mm l1 b [] l2 (bk_ptr b + 8 + size) (bk_next b) true) as (m' & -> & Hc' & Hk);
      [done|done|lia|lia|done|subst mm; hdr_read; rewrite ?u16_small by lia; done..| |].
    { intros x Hx1 Hx2. subst mm. by hdr_other. }
    exists m'. split; [by cbn [used_bytes bk_used bk_ptr bk_next]; do 3 f_equal; lia|]. split; [done|].
    refine (kept_sub _ _ _ _ _ _ Hk). intros c Hin Huc. apply elem_of_app in Hin as [|[->|]%elem_of_cons];
      [apply elem_of_app; by left|congruence|apply elem_of_app; right; by do 2 right].
  - destruct (use_spec _ _ _ _ _ true Hc) as [Hc' Hk]. exists (set_mem_used (hp_mem h) (hp_ram h + bk_ptr b) 1).
    cbn [hp_set_mem hp_mem hp_ram]. split.
    { unfold mem_to_ptr. cbn [hp_ram hp_set_mem used_bytes bk_used bk_next bk_ptr]. hdr_read.
      rewrite Hn, u16_small by lia. do 3 f_equal. lia. }
    split; [exact Hc'|]. refine (kept_sub _ _ _ _ _ _ Hk).
    intros c Hin Huc. apply elem_of_app in Hin as [|[->|]%elem_of_cons];
      [apply elem_of_app; by left|congruence|apply elem_of_app; right; by right].
Qed.

(** ** The search *)

(** The request rounded as the heap rounds it. *)
Definition request_size (n : Z) : Z := Z.max MIN_SIZE_ALIGNED (4 * ((n + 3) / 4)).

Definition fits (size : Z) (b : blk) : Prop := bk_used b = false /\ size <= bk_size b.
#[export] Instance fits_dec size b : Decision (fits size b).
Proof. unfold fits. apply _. Defined.

Lemma request_size_ok n : 0 <= n -> size_ok (request_size n) /\ n <= request_size n.
Proof.
  intros Hn. unfold size_ok, request_size. heap_consts.
  pose proof (Z.div_mod (n + 3) 4 ltac:(lia)). pose proof (Z.mod_pos_bound (n + 3) 4 ltac:(lia)).
  split; [split; [lia|]|lia]. destruct (Z.max_spec 12 (4 * ((n + 3) / 4))) as [[_ ->]|[_ ->]]; [|done].
  rewrite Z.mul_comm. by apply Z.mod_mul.
Qed.

Lemma aligned_request_spec n :
  0 <= n < 65536 ->
  if (MEM_SIZE_ALIGNED <? aligned_request n) || (aligned_request n <? n)
  then MEM_SIZE_ALIGNED < request_size n
  else aligned_request n = request_size n /\ request_size n <= MEM_SIZE_ALIGNED.
Proof.
  intros Hn. destruct (request_size_ok n ltac:(lia)) as [_ Hr].
  unfold aligned_request. pose proof (mem_align_size_range n Hn) as [_ Ha]. heap_consts.
  assert (4 * ((n + 3) / 4) = LWIP_MEM_ALIGN_SIZE n) as Heq by (rewrite mem_align_size by lia; lia).
  unfold request_size in *. rewrite Heq in *. heap_consts. set (a := LWIP_MEM_ALIGN_SIZE n) in *.
  destruct (Z.ltb_spec a 65536) as [Hlt|Hge].
  - rewrite u16_small by lia. ztest; cbn [orb]; lia.
  - replace (u16 a) with (a - 65536).
    2:{ unfold u16. apply Z.mod_unique with 1; lia. }
    ztest; cbn [orb]; lia.
Qed.

Lemma tiles_length p l q : tiles p l q -> 20 * Z.of_nat (length l) <= q - p.
Proof.
  revert p. induction l as [|b l IH]; intros p; cbn [tiles length]; [lia|].
  intros (<- & Hb%blk_ok_room & Hl%IH). lia.
Qed.

Lemma heap_fuel_enough l : tiles 0 l MEM_SIZE_ALIGNED -> (length l + 1 < heap_fuel)%nat.
Proof.
  intros Ht%tiles_length. rewrite mem_size_aligned in Ht. change heap_fuel with (Z.to_nat 514). lia.
Qed.

Lemma is_low_app_used l1 l2 f : Forall (fun b => bk_used b = true) l1 -> is_low l2 f -> is_low (l1 ++ l2) f.
Proof.
  intros Hu [Hf Hle]. split.
  - destruct Hf as [|(b & Hb & ?)]; [by left|]. right. exists b. split; [|done]. apply elem_of_app. by right.
  - intros b [Hb|Hb]%elem_of_app Hfree; [|by apply Hle]. rewrite Forall_forall in Hu.
    rewrite (Hu b Hb) in Hfree. done.
Qed.

Lemma is_low_head p b l q : tiles p (b :: l) q -> bk_used b = false -> is_low (b :: l) (bk_ptr b).
Proof.
  intros Ht Hu. pose proof Ht as (<- & _). split; [right; exists b; split; [by left|done]|].
  intros c Hc _. destruct (tiles_elem _ _ _ _ Ht Hc). lia.
Qed.

Lemma links_used m ram p l b : links m ram p l -> b ∈ l -> mem_used m (ram + bk_ptr b) = int_of_bool (bk_used b).
Proof.
  revert p. induction l as [|c l IH]; intros p; [by intros _ ?%elem_of_nil|].
  intros (_ & _ & Hu & Hl) [->|Hb]%elem_of_cons; [done|]. by apply (IH (bk_ptr c)).
Qed.

Lemma low_unused m ram p l f : links m ram p l -> is_low l f -> f = MEM_SIZE_ALIGNED \/ mem_used m (ram + f) = 0.
Proof.
  intros Hl [[->|(b & Hb & Hu & <-)] _]; [by left|right]. by rewrite (links_used _ _ _ _ _ Hl Hb), Hu.
Qed.

Definition end_ok (h : heap) : Prop :=
  hp_ram_end h = hp_ram h + MEM_SIZE_ALIGNED /\ mem_used (hp_mem h) (hp_ram_end h) = 1.

Lemma next_free_loop_spec fuel h p r l :
  end_ok h -> tiles r l MEM_SIZE_ALIGNED -> links (hp_mem h) (hp_ram h) p l -> (length l < fuel)%nat ->
  exists f, next_free_loop fuel h (hp_ram h + r) = Ret (hp_ram h + f) /\ is_low l f.
Proof.
  intros [He1 He2]. revert p r l. induction fuel as [|fuel IH]; intros p r l Ht Hl Hlen; [lia|].
  cbn [next_free_loop]. destruct l as [|b l].
  - cbn [tiles] in Ht. subst r. rewrite <- He1, He2, Z.eqb_refl. cbn [negb Z.eqb andb].
    exists MEM_SIZE_ALIGNED. rewrite He1. split; [done|]. split; [by left|]. by intros ? ?%elem_of_nil.
  - pose proof Ht as (<- & Hb & Ht2). destruct Hl as (Hn & _ & Hu & Hl). rewrite Hu.
    destruct (bk_used b) eqn:Hub; cbn [int_of_bool].
    + pose proof (blk_ok_room _ Hb). pose proof (tiles_le _ _ _ Ht2).
      assert ((hp_ram h + bk_ptr b =? hp_ram_end h) = false) as -> by (apply Z.eqb_neq; lia).
      cbn [negb Z.eqb andb]. rewrite Hn. unfold ptr_to_mem.
      destruct (IH (bk_ptr b) (bk_next b) l Ht2 Hl) as (f & -> & Hf); [cbn [length] in Hlen; lia|].
      exists f. split; [done|]. apply (is_low_app_used [b]); [by constructor|done].
    + cbn [negb Z.eqb andb]. exists (bk_ptr b). split; [done|]. by eapply is_low_head.
Qed.

(** [b] becomes [carve size b] in a heap that is otherwise in order. *)
Section carve_list.
#[local] Set Default Proof Using "All".
Variables (size : Z) (b : blk).
Hypotheses (Hfree : bk_used b = false) (Hsize : size_ok size) (Hfit : size <= bk_size b).

Lemma carve_cons : exists q e, carve size b = Blk (bk_ptr b) q true :: e /\ q <= bk_next b /\
  bk_ptr b + 8 + size <= q /\ (e = [] \/ exists f, e = [f] /\ bk_used f = false /\ bk_ptr b < bk_ptr f).
Proof.
  unfold carve. destruct Hsize. destruct (Z.leb_spec (size + SIZEOF_STRUCT_MEM + MIN_SIZE_ALIGNED) (bk_size b));
    do 2 eexists; (split; [done|]); heap_consts; split_and!; try lia; [right|by left].
  eexists. split; [done|]. cbn [bk_used bk_ptr]. split; [done|lia].
Qed.

Lemma carve_no_holes l1 l2 : no_holes (l1 ++ b :: l2) -> no_holes (l1 ++ carve size b ++ l2).
Proof.
  intros (H1 & (H2 & Hh)%no_holes_cons & Hl)%no_holes_app.
  destruct carve_cons as (q & e & -> & _ & _ & He). apply no_holes_app. split_and!; [done| |by right].
  apply no_holes_cons. split; [|by left].
  destruct He as [->|(f & -> & Hf & _)]; [done|]. cbn [app]. apply no_holes_cons. split; [done|].
  intros c Hc. right. destruct (Hh c Hc); [congruence|done].
Qed.

(** The lowest free block when it was not [b] ... *)
Lemma carve_low_other l1 l2 f :
  tiles 0 (l1 ++ b :: l2) MEM_SIZE_ALIGNED -> is_low (l1 ++ b :: l2) f -> f <> bk_ptr b ->
  is_low (l1 ++ carve size b ++ l2) f.
Proof.
  intros Ht [Hf Hle] Hne. pose proof (Hle b ltac:(apply elem_of_app; right; by left) Hfree) as Hb.
  apply tiles_middle in Ht as (Ht1 & Hbo & Ht2). pose proof (tiles_le _ _ _ Ht2). pose proof (blk_ok_room _ Hbo).
  destruct Hf as [->|(c & Hc & Hcf & <-)]; [lia|].
  assert (c ∈ l1) as Hc1.
  { apply elem_of_app in Hc as [Hc|[->|Hc]%elem_of_cons]; [done|done|].
    destruct (tiles_elem _ _ _ _ Ht2 Hc). lia. }
  split; [right; exists c; split; [apply elem_of_app; by left|done]|].
  intros d [Hd|[Hd|Hd]%elem_of_app]%elem_of_app Hdf.
  - apply Hle; [apply elem_of_app; by left|done].
  - destruct carve_cons as (q & e & Heq & _ & _ & He). rewrite Heq in Hd.
    apply elem_of_cons in Hd as [->|Hd]; [done|]. destruct He as [->|(g & -> & _ & ?)]; [by apply elem_of_nil in Hd|].
    apply list_elem_of_singleton in Hd as ->. lia.
  - apply Hle; [apply elem_of_app; right; by right|done].
Qed.
End carve_list.

(** ... and when it was: all in front of it are used. *)
Lemma low_front_used l1 b l2 :
  tiles 0 (l1 ++ b :: l2) MEM_SIZE_ALIGNED -> is_low (l1 ++ b :: l2) (bk_ptr b) -> Forall (fun c => bk_used c = true) l1.
Proof.
  intros (Ht1 & _)%tiles_middle [_ Hle]. apply Forall_forall. intros c Hc. destruct (bk_used c) eqn:Hu; [done|].
  pose proof (Hle c ltac:(apply elem_of_app; by left) Hu). destruct (tiles_elem _ _ _ _ Ht1 Hc). lia.
Qed.

(** Taking the first block that fits, on to the return. *)
Definition taken (h : heap) (l1 : list blk) (b : blk) (l2 : list blk) (size : Z) (h' : heap) : Prop :=
  heap_ok h' (l1 ++ carve size b ++ l2) /\ kept (hp_ram h) (l1 ++ b :: l2) (hp_mem h) (hp_mem h') /\
  hp_ram h' = hp_ram h.

Lemma mem_malloc_found h l1 b l2 size :
  heap_ok h (l1 ++ b :: l2) -> size_ok size -> fits size b ->
  exists h', (h1 ← mem_malloc_take h (bk_ptr b) size; mem_malloc_adjust_lfree h1 (hp_ram h + bk_ptr b)) = Ret h' /\
    taken h l1 b l2 size h'.
Proof.
  intros [Hram He Heu Ht Hl Hh (f & Hf & Hlow) Hst] Hs [Hfree Hfit].
  destruct (mem_malloc_take_spec h l1 b l2 size) as (m' & -> & [Ht' Hl'] & Hk); [done..|].
  cbn [mbind outcome_bind].
  set (h1 := hp_set_stats _ _).
  assert (end_ok h1) as Hend.
  { split; [exact He|]. rewrite <- Heu. symmetry. apply mem_used_ext. intros x Hx.
    destruct Hk as [_ Hout]. apply Hout. change (hp_ram_end h1) with (hp_ram_end h) in Hx. hlia. }
  assert (ms_used (hp_stats h1) = used_bytes (l1 ++ carve size b ++ l2)) as Hst1.
  { cbn [h1 hp_set_stats hp_stats stats_inc_used ms_used]. rewrite Hst, !used_bytes_app. cbn [used_bytes].
    rewrite Hfree. pose proof (used_bytes_range _ _ _ Ht) as Hr. rewrite used_bytes_app in Hr. cbn [used_bytes] in Hr.
    rewrite Hfree in Hr. pose proof (used_bytes_range _ _ _ Ht') as Hr'. rewrite !used_bytes_app in Hr'. heap_consts.
    rewrite u16_small; lia. }
  assert (forall f', is_low (l1 ++ carve size b ++ l2) f' ->
    heap_ok (hp_set_lfree h1 (hp_ram h + f')) (l1 ++ carve size b ++ l2)) as Hok.
  { intros f' Hf'. destruct Hend as [? ?]. split; try done; [by apply carve_no_holes|by exists f']. }
  pose proof Ht as Htm. apply tiles_middle in Htm as (Ht1 & Hb & Ht2).
  unfold mem_malloc_adjust_lfree. change (hp_lfree h1) with (hp_lfree h).
  change (hp_ram h1) with (hp_ram h) in *. rewrite Hf.
  destruct (Z.eqb_spec (hp_ram h + bk_ptr b) (hp_ram h + f)) as [Heq|Hne].
  - assert (f = bk_ptr b) as -> by lia.
    apply tiles_app in Ht' as Ht3. destruct Ht3 as (r & Htr & Ht3).
    assert (r = bk_ptr b) as ->.
    { destruct (carve_cons size b Hfree Hs Hfit) as (q & e & Hce & _). rewrite Hce in Ht3. by destruct Ht3 as [<- _]. }
    apply heap_links_app in Hl' as Hl3. destruct Hl3 as [_ Hl3].
    destruct (next_free_loop_spec heap_fuel h1 _ _ _ Hend Ht3 Hl3) as (f' & Hloop & Hf').
    { pose proof (heap_fuel_enough _ Ht') as Hlen. rewrite length_app in Hlen. lia. }
    change (hp_ram h1) with (hp_ram h) in Hloop. rewrite Hloop. cbn [mbind outcome_bind].
    exists (hp_set_lfree h1 (hp_ram h + f')). split; [|split; [|done]].
    + cbn [hp_lfree hp_set_lfree hp_ram_end hp_mem]. destruct Hend as [-> _].
      destruct (low_unused _ _ _ _ _ Hl3 Hf') as [->|Hu].
      * by rewrite Z.eqb_refl.
      * change m' with (hp_mem h1) in Hu. by rewrite Hu, orb_true_r.
    + apply Hok. apply is_low_app_used; [|done]. by eapply low_front_used.
  - exists h1. split; [done|]. split; [|done]. 
    assert (h1 = hp_set_lfree h1 (hp_ram h + f)) as -> by (by rewrite <- Hf; destruct h).
    apply Hok. apply carve_low_other; [done..|]. by intros ->.
Qed.

Lemma tiles_last l r : tiles 0 l r -> default 0 (bk_next <$> last l) = r.
Proof.
  destruct l as [|b l _] using rev_ind; [done|]. intros (_ & _ & <-)%tiles_middle. by rewrite last_snoc.
Qed.

Lemma outcome_bind_ret {A B} (o : outcome A) (f : A -> outcome B) r :
  (o ≫= f) = Ret r -> exists a, o = Ret a /\ f a = Ret r.
Proof. destruct o as [a| | |]; [|done..]. by exists a. Qed.

Lemma land3 x : Z.land x 3 = x mod 4.
Proof. change 3 with (Z.ones 2). by rewrite Z.land_ones. Qed.

(** The assertions before the return hold. *)
Lemma mem_malloc_asserts h l1 b l2 size h' :
  heap_ok h (l1 ++ b :: l2) -> size <= bk_size b -> taken h l1 b l2 size h' ->
  let mem := hp_ram h + bk_ptr b in
  (mem + SIZEOF_STRUCT_MEM + size <=? hp_ram_end h') = true /\
  ((mem + SIZEOF_STRUCT_MEM) mod MEM_ALIGNMENT =? 0) = true /\ (Z.land mem (MEM_ALIGNMENT - 1) =? 0) = true.
Proof.
  intros Hok Hsz (Hok' & _ & Hram) mem. subst mem. destruct (ho_ram _ _ Hok) as (_ & Hr & _).
  pose proof (ho_tiles _ _ Hok) as (_ & (Hb1 & Hb2 & _) & Hle%tiles_le)%tiles_middle.
  rewrite (ho_end _ _ Hok'), Hram. change (MEM_ALIGNMENT - 1) with 3. change MEM_ALIGNMENT with 4. heap_consts.
  split; [apply Z.leb_le; lia|]. rewrite land3.
  split; apply Z.eqb_eq; [apply mod4_add; [|done]|]; by apply mod4_add.
Qed.

(** No block in front of [l2], where the search is, fits. *)
Lemma mem_malloc_loop_spec fuel h l1 l2 size :
  heap_ok h (l1 ++ l2) -> size_ok size -> size <= MEM_SIZE_ALIGNED ->
  Forall (fun b => ~ fits size b) l1 -> (length l2 < fuel)%nat ->
  (exists l b l3 h', l1 ++ l2 = l ++ b :: l3 /\ fits size b /\ Forall (fun c => ~ fits size c) l /\
     mem_malloc_loop fuel h (default 0 (bk_next <$> last l1)) size = Ret (Some (hp_ram h + bk_ptr b + SIZEOF_STRUCT_MEM), h') /\
     taken h l b l3 size h') \/
  (Forall (fun b => ~ fits size b) (l1 ++ l2) /\
   mem_malloc_loop fuel h (default 0 (bk_next <$> last l1)) size =
     Ret (None, hp_set_stats h (stats_inc_err (hp_stats h)))).
Proof.
  revert l1 l2. induction fuel as [|fuel IH]; intros l1 l2 Hok Hs Hmax Hno Hlen; [lia|].
  assert (exists r, tiles 0 l1 r /\ tiles r l2 MEM_SIZE_ALIGNED /\ default 0 (bk_next <$> last l1) = r) as (r & Ht1 & Ht2 & ->).
  { pose proof (ho_tiles _ _ Hok) as (r & Ht1 & Ht2)%tiles_app. exists r.
    split_and!; [done..|by apply tiles_last]. }
  pose proof (tiles_le _ _ _ Ht1). pose proof (tiles_le _ _ _ Ht2). pose proof Hs as [Hs1 Hs2]. heap_consts.
  cbn [mem_malloc_loop]. rewrite mem_size_aligned, u32_small by lia.
  destruct (Z.ltb_spec r (10240 - size)) as [Hr|Hr].
  - destruct l2 as [|b l2]; [cbn [tiles] in Ht2; lia|]. pose proof Ht2 as (<- & Hb & Ht3).
    destruct (chained_middle (hp_mem h) (hp_ram h) l1 b l2) as (Hn & _ & Hu & _ & _ & _ & _ & Hr0 & Hr2); [by destruct Hok|].
    unfold ptr_to_mem. rewrite Hn, Hu, u64_small by hlia.
    replace (size <=? bk_next b - (bk_ptr b + SIZEOF_STRUCT_MEM)) with (size <=? bk_size b) by (f_equal; hlia).
    destruct (decide (fits size b)) as [Hfit|Hfit].
    + pose proof Hfit as [Hf1 Hf2]. rewrite Hf1. cbn [int_of_bool Z.eqb andb].
      destruct (Z.leb_spec size (bk_size b)); [|lia].
      destruct (mem_malloc_found h l1 b l2 size Hok Hs Hfit) as (h' & (h1 & Ht & Ha)%outcome_bind_ret & Htk).
      left. exists l1, b, l2, h'. split_and!; [done..| |done]. rewrite Ht. cbn [mbind outcome_bind]. rewrite Ha.
      cbn [mbind outcome_bind]. destruct (mem_malloc_asserts _ _ _ _ _ _ Hok Hf2 Htk) as (-> & -> & ->). done.
    + assert ((int_of_bool (bk_used b) =? 0) && (size <=? bk_size b) = false) as ->.
      { destruct (bk_used b) eqn:Hub; [done|]. cbn [int_of_bool Z.eqb andb]. apply Z.leb_gt.
        destruct (Z.le_gt_cases size (bk_size b)); [by destruct Hfit|done]. }
      destruct (IH (l1 ++ [b]) l2) as [(l & c & l3 & h' & IHr)|IHr]; rewrite <- ?app_assoc; [done..| | | |].
      * apply Forall_app. split; [done|]. by constructor.
      * cbn [length] in Hlen. lia.
      * left. exists l, c, l3, h'. rewrite last_snoc, <- app_assoc in IHr. exact IHr.
      * right. rewrite last_snoc, <- app_assoc in IHr. exact IHr.
  - right. split; [|done]. apply Forall_app. split; [done|]. apply Forall_forall. intros b Hb [_ Hf].
    destruct (tiles_elem _ _ _ _ Ht2 Hb). hlia.
Qed.

Lemma low_split l f :
  tiles 0 l MEM_SIZE_ALIGNED -> is_low l f ->
  exists l1 l2, l = l1 ++ l2 /\ tiles 0 l1 f /\ Forall (fun b => bk_used b = true) l1 /\ 0 <= f <= MEM_SIZE_ALIGNED.
Proof.
  intros Ht [[->|(b & Hb & Hu & <-)] Hle].
  - exists l, []. rewrite app_nil_r. split_and!; [done..| |done|done]. apply Forall_forall. intros b Hb.
    destruct (bk_used b) eqn:Hu; [done|]. pose proof (Hle b Hb Hu). destruct (tiles_elem _ _ _ _ Ht Hb). lia.
  - apply list_elem_of_split in Hb as (l1 & l2 & ->). exists l1, (b :: l2). split; [done|].
    assert (is_low (l1 ++ b :: l2) (bk_ptr b)) as Hlow.
    { split; [|done]. right. exists b. split; [apply elem_of_app; right; by left|done]. }
    pose proof (low_front_used _ _ _ Ht Hlow) as Hused.
    apply tiles_middle in Ht as (Ht1 & Hb%blk_ok_room & Ht2%tiles_le). pose proof (tiles_le _ _ _ Ht1).
    split_and!; (done || lia).
Qed.

Lemma heap_ok_stats h l s :
  heap_ok h l -> ms_used s = ms_used (hp_stats h) -> heap_ok (hp_set_stats h s) l.
Proof. intros [] Hs. split; try done. by rewrite <- ho_stats0. Qed.

(** What [mem_malloc] does on the blocks. *)
Lemma mem_malloc_spec h l n :
  heap_ok h l -> 0 <= n < 65536 ->
  (exists l1 b l2 h', 0 < n /\ l = l1 ++ b :: l2 /\ fits (request_size n) b /\
     Forall (fun c => ~ fits (request_size n) c) l1 /\
     mem_malloc h n = Ret (Some (hp_ram h + bk_ptr b + SIZEOF_STRUCT_MEM), h') /\
     taken h l1 b l2 (request_size n) h') \/
  ((n = 0 \/ Forall (fun b => ~ fits (request_size n) b) l) /\
   exists h', mem_malloc h n = Ret (None, h') /\ heap_ok h' l /\ hp_mem h' = hp_mem h /\ hp_ram h' = hp_ram h).
Proof.
  intros Hok Hn. unfold mem_malloc. destruct (Z.eqb_spec n 0) as [->|Hn0].
  { right. split; [by left|]. by exists h. }
  pose proof (aligned_request_spec n Hn) as Hr. destruct (request_size_ok n ltac:(lia)) as [Hs _].
  destruct (_ || _).
  { right. split; [right|by exists h]. apply Forall_forall. intros b Hb [_ Hf].
    destruct (tiles_elem _ _ _ _ (ho_tiles _ _ Hok) Hb). hlia. }
  destruct Hr as [-> Hmax]. destruct (ho_low _ _ Hok) as (f & Hf & Hlow).
  destruct (low_split _ _ (ho_tiles _ _ Hok) Hlow) as (l1 & l2 & -> & Ht1 & Hu & Hf0).
  assert (mem_to_ptr h (hp_lfree h) = default 0 (bk_next <$> last l1)) as ->.
  { rewrite (tiles_last _ _ Ht1). unfold mem_to_ptr. rewrite Hf, u16_small; hlia. }
  destruct (mem_malloc_loop_spec heap_fuel h l1 l2 (request_size n))
    as [(l & b & l3 & h' & Hl & Hfit & Hno & Heq & Htk)|[Hno Heq]]; [done..| | | |].
  - refine (Forall_impl _ _ _ Hu _). intros b Hb [Hb' _]. congruence.
  - pose proof (heap_fuel_enough _ (ho_tiles _ _ Hok)) as Hlen. rewrite length_app in Hlen. lia.
  - left. exists l, b, l3, h'. split_and!; (done || lia).
  - right. split; [by right|]. eexists. split; [exact Heq|]. split; [|done]. by apply heap_ok_stats.
Qed.

(** ** The start *)

Lemma mem_init_spec h ram_heap :
  0 < ram_heap < 18446744073709500000 -> ms_used (hp_stats h) = 0 ->
  exists h', mem_init h ram_heap = Ret h' /\ heap_ok h' [Blk 0 MEM_SIZE_ALIGNED false] /\
    hp_ram h' = LWIP_MEM_ALIGN ram_heap.
Proof.
  intros Hr Hst. unfold mem_init. eexists. split; [done|]. split; [|done].
  pose proof (mem_align ram_heap ltac:(lia)) as Ha.
  pose proof (Z.div_mod (ram_heap + 3) 4 ltac:(lia)). pose proof (Z.mod_pos_bound (ram_heap + 3) 4 ltac:(lia)).
  set (ram := LWIP_MEM_ALIGN ram_heap) in *.
  split; cbn [hp_mem hp_ram hp_ram_end hp_lfree hp_stats stats_set_avail ms_used used_bytes]; heap_consts;
    [|done|..|done| |done].
  - split_and!; [lia| |lia]. rewrite Ha, Z.mul_comm. by apply Z.mod_mul.
  - hdr_read. done.
  - split_and!; [done| |done]. by apply blk_ok_intro.
  - cbn [links bk_ptr bk_next bk_used]. rewrite Z.add_0_r. hdr_read. done.
  - exists 0. split; [lia|]. by apply (is_low_head 0 (Blk 0 10240 false) [] 10240).
Qed.

(** ** Freeing *)

Lemma mem_to_ptr_index h p : 0 <= p < 65536 -> mem_to_ptr h (hp_ram h + p) = p.
Proof. intros. unfold mem_to_ptr. rewrite u16_small; lia. Qed.

Lemma mem_to_ptr_set_mem h m p : 0 <= p < 65536 -> mem_to_ptr (hp_set_mem h m) (hp_ram h + p) = p.
Proof. apply (mem_to_ptr_index (hp_set_mem h m)). Qed.

(** Two free blocks in a row become one. *)
Definition merge (a b : blk) : blk := Blk (bk_ptr a) (bk_next b) false.

Lemma merge_spec h l1 a b l2 :
  chained (hp_mem h) (hp_ram h) (l1 ++ a :: b :: l2) -> bk_used a = false -> bk_used b = false ->
  let h1 := hp_set_mem h (set_mem_next (hp_mem h) (hp_ram h + bk_ptr a) (bk_next b)) in
  exists m', set_prev_of_next h1 (mem_next (hp_mem h1) (hp_ram h + bk_ptr b)) (bk_ptr a) = hp_set_mem h m' /\
    chained m' (hp_ram h) (l1 ++ merge a b :: l2) /\ kept (hp_ram h) (l1 ++ a :: b :: l2) (hp_mem h) m' /\
    mem_used m' (hp_ram h + bk_ptr b) = 0.
Proof.
  intros Hc Hua Hub h1. pose proof Hc as [Ht _].
  destruct (chained_middle _ _ _ _ _ Hc) as (Hna & Hpa & Hfa & _ & Ht1 & Ha & Ht2 & Ha0 & Har).
  rewrite cons_middle, app_assoc in Hc.
  destruct (chained_middle _ _ _ _ _ Hc) as (Hnb & _ & Hfb & Hl2 & _ & Hb & Ht3 & Hb0 & Hbr).
  destruct Ht2 as (Hab & _ & _). pose proof (blk_ok_room _ Ha). rewrite Hub in Hfb. rewrite Hua in Hfa.
  assert (mem_next (hp_mem h1) (hp_ram h + bk_ptr b) = bk_next b) as ->.
  { subst h1. cbn [hp_mem hp_set_mem]. hdr_read. done. }
  assert (links (hp_mem h1) (hp_ram h1) (bk_ptr b) l2) as Hl2'.
  { refine (heap_links_ext _ _ _ _ _ _ Hl2). intros c Hcl x Hx. symmetry. subst h1. cbn [hp_mem hp_set_mem].
    destruct (tiles_elem _ _ _ _ Ht3 Hcl). by hdr_other. }
  destruct (set_prev_of_next_spec h1 (bk_next b) (bk_ptr b) (bk_ptr a) l2 Ht3 Hl2') as (Hl3 & Hout & ->); [lia|].
  set (m' := hp_mem (set_prev_of_next _ _ _)) in *. rewrite mem_size_aligned in Hout.
  change (hp_ram h1) with (hp_ram h) in *.
  assert (forall x, ~ hp_ram h + bk_ptr a <= x < hp_ram h + bk_ptr a + 2 ->
    ~ hp_ram h + bk_next b + 2 <= x < hp_ram h + bk_next b + 4 \/ bk_next b = 10240 -> m' x = hp_mem h x) as Hm'.
  { intros x Hx1 Hx2. rewrite Hout by done. subst h1. cbn [hp_mem hp_set_mem]. by hdr_other. }
  assert (forall q, q + 8 <= hp_ram h + bk_next b -> same_hdr (hp_mem h1) m' q) as Hsame.
  { intros q Hq x Hx. symmetry. apply Hout. lia. }
  exists m'. split; [done|]. rewrite <- app_assoc in Hc. split_and!.
  - apply chained_replace with (hp_mem h) a (b :: l2) (default 0 (bk_ptr <$> last l1)); [done|..|done| |].
    + intros x Hx. apply Hm'; lia.
    + cbn [tiles merge bk_ptr bk_next]. destruct Ha as (_ & ? & _), Hb as (_ & _ & ?).
      split_and!; [done|apply blk_ok_intro; (done || lia)|done].
    + cbn [links merge bk_ptr bk_next bk_used int_of_bool].
      rewrite <- (mem_next_ext (hp_mem h1) m'), <- (mem_prev_ext (hp_mem h1) m'), <- (mem_used_ext (hp_mem h1) m')
        by (apply Hsame; lia).
      subst h1. cbn [hp_mem hp_set_mem]. hdr_read. rewrite u16_small by lia. by split_and!.
  - apply kept_intro; [done|]. intros x.
    destruct (decide (hp_ram h + bk_ptr a <= x < hp_ram h + bk_ptr a + 2)) as [Hx|Hx].
    { right. exists a. split; [apply elem_of_app; right; by left|]. left. lia. }
    destruct (decide (hp_ram h + bk_next b + 2 <= x < hp_ram h + bk_next b + 4 /\ bk_next b <> 10240)) as [[Hx2 Hne]|Hx2].
    + right. destruct l2 as [|c l2]; [destruct Hne; exact Ht3|]. destruct Ht3 as (Hc2 & _). exists c.
      split; [apply elem_of_app; right; do 2 right; by left|]. left. lia.
    + left. symmetry. apply Hm'; [done|lia].
  - rewrite <- (mem_used_ext (hp_mem h) m'); [done|]. intros x Hx. symmetry. apply Hm'; lia.
Qed.

Lemma is_low_merge l1 a b l2 f :
  tiles 0 (l1 ++ a :: b :: l2) MEM_SIZE_ALIGNED -> bk_used a = false -> bk_used b = false ->
  is_low (l1 ++ a :: b :: l2) f -> f <= bk_ptr a /\ is_low (l1 ++ merge a b :: l2) f.
Proof.
  intros Ht Hua Hub [Hf Hle]. pose proof (Hle a ltac:(apply elem_of_app; right; by left) Hua) as Ha. split; [done|].
  apply tiles_middle in Ht as (Ht1 & Hao%blk_ok_room & Ht2). pose proof (tiles_le _ _ _ Ht2).
  split.
  - destruct Hf as [->|(c & Hc & Hcf & <-)]; [by left|right].
    apply elem_of_app in Hc as [Hc|[->|Hc]%elem_of_cons].
    + exists c. split; [apply elem_of_app; by left|done].
    + exists (merge a b). split; [apply elem_of_app; right; by left|done].
    + destruct (tiles_elem _ _ _ _ Ht2 Hc). lia.
  - intros c [Hc|[->|Hc]%elem_of_cons]%elem_of_app Hcf; [|done|]; apply Hle; (done || apply elem_of_app);
      [by left|right; by do 2 right].
Qed.

(** What the neighbours of a block that becomes free leave of the heap. *)
Definition fwd_next (b : blk) (l2 : list blk) : Z :=
  match l2 with c :: _ => if bk_used c then bk_next b else bk_next c | [] => bk_next b end.
Definition fwd_tail (l2 : list blk) : list blk :=
  match l2 with c :: l2' => if bk_used c then l2 else l2' | [] => [] end.
Definition back_ptr (l1 : list blk) (b : blk) : Z :=
  match last l1 with Some a => if bk_used a then bk_ptr b else bk_ptr a | None => bk_ptr b end.
Definition back_front (l1 : list blk) : list blk :=
  match last l1 with Some a => if bk_used a then l1 else removelast l1 | None => l1 end.
Definition coalesce (l1 : list blk) (b : blk) (l2 : list blk) : list blk :=
  back_front l1 ++ Blk (back_ptr l1 b) (fwd_next b l2) false :: fwd_tail l2.

(** What a step of [plug_holes] at the free block [b] leaves. *)
Definition plugged (h : heap) (l : list blk) (p : Z) (h' : heap) (l' : list blk) : Prop :=
  exists m', h' = hp_set_mem h m' /\ chained m' (hp_ram h) l' /\ kept (hp_ram h) l (hp_mem h) m' /\
    mem_used m' (hp_ram h + p) = 0 /\ (forall f, is_low l f -> is_low l' f) /\
    (forall b, bk_used b = true -> b ∈ l' <-> b ∈ l) /\ used_bytes l' = used_bytes l.

Lemma plugged_same h l p :
  chained (hp_mem h) (hp_ram h) l -> mem_used (hp_mem h) (hp_ram h + p) = 0 -> plugged h l p h l.
Proof. intros Hc Hu. exists (hp_mem h). split_and!; (done || by destruct h). Qed.

Lemma plugged_merge h l1 a b l2 p h' :
  chained (hp_mem h) (hp_ram h) (l1 ++ a :: b :: l2) -> bk_used a = false -> bk_used b = false ->
  p = bk_ptr a \/ p = bk_ptr b ->
  let h1 := hp_set_mem h (set_mem_next (hp_mem h) (hp_ram h + bk_ptr a) (bk_next b)) in
  h' = set_prev_of_next h1 (mem_next (hp_mem h1) (hp_ram h + bk_ptr b)) (bk_ptr a) ->
  plugged h (l1 ++ a :: b :: l2) p h' (l1 ++ merge a b :: l2).
Proof.
  intros Hc Ha Hb Hp h1 Heq. destruct (merge_spec h l1 a b l2 Hc Ha Hb) as (m' & Hm & Hc' & Hk & Hu).
  exists m'. split_and!; [exact (eq_trans Heq Hm)|done|done| | | |].
  - destruct Hp as [->| ->]; [|done]. by destruct (chained_middle _ _ _ _ _ Hc') as (_ & _ & ? & _).
  - intros f Hf. destruct Hc. by eapply is_low_merge.
  - intros c Hu'. rewrite !elem_of_app, !elem_of_cons.
    assert (c <> a /\ c <> b /\ c <> merge a b) by (split_and!; intros ->; cbn [merge bk_used] in Hu'; congruence). tauto.
  - rewrite !used_bytes_app. cbn [used_bytes merge bk_used]. by rewrite Ha, Hb.
Qed.

Lemma plug_holes_forward_spec h l1 b l2 f :
  chained (hp_mem h) (hp_ram h) (l1 ++ b :: l2) -> end_ok h -> bk_used b = false ->
  hp_lfree h = hp_ram h + f -> is_low (l1 ++ b :: l2) f ->
  plugged h (l1 ++ b :: l2) (bk_ptr b) (plug_holes_forward h (hp_ram h + bk_ptr b))
    (l1 ++ Blk (bk_ptr b) (fwd_next b l2) false :: fwd_tail l2).
Proof.
  intros Hc [He Heu] Hb Hf Hlow.
  destruct (chained_middle _ _ _ _ _ Hc) as (Hn & _ & Hu & Hl2 & Ht1 & Hbo & Ht2 & Hb0 & Hbr). rewrite Hb in Hu.
  unfold plug_holes_forward, ptr_to_mem. rewrite Hn.
  destruct (Z.eqb_spec (hp_ram h + bk_ptr b) (hp_ram h + bk_next b)); [lia|]. cbn [negb andb].
  assert (Blk (bk_ptr b) (bk_next b) false = b) as Hbb by (destruct b; cbn in Hb; by subst).
  destruct l2 as [|c l2]; cbn [fwd_next fwd_tail].
  { cbn [tiles] in Ht2. assert ((hp_ram h + bk_next b =? hp_ram_end h) = true) as -> by (apply Z.eqb_eq; lia).
    rewrite andb_false_r, Hbb. by apply plugged_same. }
  destruct Ht2 as (Hc2 & Hco & Ht2). pose proof (blk_ok_room _ Hco). pose proof (tiles_le _ _ _ Ht2).
  destruct Hl2 as (Hnc & _ & Huc & _). rewrite <- Hc2, Huc. destruct (bk_used c) eqn:Hcu; cbn [int_of_bool Z.eqb andb].
  { rewrite Hc2, Hbb. by apply plugged_same. }
  destruct (Z.eqb_spec (hp_ram h + bk_ptr c) (hp_ram_end h)); [lia|]. cbn [negb].
  pose proof Hc as [Ht _]. destruct (is_low_merge _ _ _ _ _ Ht Hb Hcu Hlow) as [Hfb _].
  destruct (Z.eqb_spec (hp_lfree h) (hp_ram h + bk_ptr c)); [lia|].
  apply plugged_merge; [done..|by left|]. by rewrite Hnc, mem_to_ptr_set_mem by lia.
Qed.

Lemma plug_holes_backward_spec h l1 b l2 f :
  chained (hp_mem h) (hp_ram h) (l1 ++ b :: l2) -> bk_used b = false ->
  hp_lfree h = hp_ram h + f -> is_low (l1 ++ b :: l2) f ->
  plugged h (l1 ++ b :: l2) (bk_ptr b) (plug_holes_backward h (hp_ram h + bk_ptr b))
    (back_front l1 ++ Blk (back_ptr l1 b) (bk_next b) false :: l2).
Proof.
  intros Hc Hb Hf Hlow.
  destruct (chained_middle _ _ _ _ _ Hc) as (Hn & Hp & Hu & Hl2 & Ht1 & Hbo & Ht2 & Hb0 & Hbr). rewrite Hb in Hu.
  unfold plug_holes_backward, ptr_to_mem, back_front, back_ptr. rewrite Hp.
  assert (Blk (bk_ptr b) (bk_next b) false = b) as Hbb by (destruct b; cbn in Hb; by subst).
  destruct l1 as [|a l1 _] using rev_ind.
  { cbn [last fmap option_fmap option_map default]. destruct Ht1. rewrite Z.eqb_refl. cbn [negb andb].
    rewrite Hbb. by apply plugged_same. }
  rewrite last_snoc. change (default 0 (bk_ptr <$> Some a)) with (bk_ptr a). rewrite <- app_assoc in Hc, Hlow |- *. cbn [app] in Hc, Hlow.
  destruct (chained_middle _ _ _ _ _ Hc) as (Hna & _ & Hua & _ & _ & Hao & Hta & Ha0 & Har).
  assert (bk_ptr b = bk_next a) as Hab by (by destruct Hta). pose proof (blk_ok_room _ Hao).
  destruct (Z.eqb_spec (hp_ram h + bk_ptr a) (hp_ram h + bk_ptr b)); [lia|]. rewrite Hua. cbn [negb andb].
  destruct (bk_used a) eqn:Hau; cbn [int_of_bool Z.eqb].
  { rewrite Hbb, <- app_assoc. by apply plugged_same. }
  rewrite removelast_last. pose proof Hc as [Ht _].
  destruct (is_low_merge _ _ _ _ _ Ht Hau Hb Hlow) as [Hfa _].
  destruct (Z.eqb_spec (hp_lfree h) (hp_ram h + bk_ptr b)); [lia|].
  apply plugged_merge; [done..|by right|]. by rewrite Hn, mem_to_ptr_set_mem by lia.
Qed.

Lemma plugged_trans h1 l1 p h2 l2 h3 l3 :
  plugged h1 l1 p h2 l2 -> plugged h2 l2 p h3 l3 -> plugged h1 l1 p h3 l3.
Proof.
  intros (m2 & -> & Hc2 & Hk2 & Hu2 & Hf2 & Hs2 & Hb2) (m3 & -> & Hc3 & Hk3 & Hu3 & Hf3 & Hs3 & Hb3).
  exists m3. split_and!; [by destruct h1|done| |done|auto| |congruence].
  - transitivity m2; [done|]. refine (kept_sub _ _ _ _ _ _ Hk3). intros b Hb Hu. by apply Hs2.
  - intros b Hu. by rewrite Hs3, Hs2.
Qed.

Lemma plug_holes_spec h l1 b l2 f :
  chained (hp_mem h) (hp_ram h) (l1 ++ b :: l2) -> end_ok h -> bk_used b = false ->
  hp_lfree h = hp_ram h + f -> is_low (l1 ++ b :: l2) f ->
  exists h', plug_holes h (hp_ram h + bk_ptr b) = Ret h' /\ plugged h (l1 ++ b :: l2) (bk_ptr b) h' (coalesce l1 b l2).
Proof.
  intros Hc Hend Hb Hf Hlow. pose proof Hend as [He _].
  destruct (chained_middle _ _ _ _ _ Hc) as (Hn & _ & Hu & _ & _ & _ & _ & Hb0 & Hbr). rewrite Hb in Hu.
  unfold plug_holes. rewrite Hn, Hu, mem_size_aligned. destruct (Z.leb_spec (hp_ram h) (hp_ram h + bk_ptr b)); [|lia].
  destruct (Z.ltb_spec (hp_ram h + bk_ptr b) (hp_ram_end h)); [|hlia]. destruct (Z.leb_spec (bk_next b) 10240); [|lia].
  cbn [LWIP_ASSERT mbind outcome_bind int_of_bool Z.eqb]. eexists. split; [done|].
  pose proof (plug_holes_forward_spec h l1 b l2 f Hc Hend Hb Hf Hlow) as Hfwd.
  eapply plugged_trans; [exact Hfwd|]. destruct Hfwd as (m' & -> & Hc' & _ & _ & Hlow' & _).
  by apply (plug_holes_backward_spec (hp_set_mem h m') l1 (Blk (bk_ptr b) (fwd_next b l2) false) _ f); [..|apply Hlow'].
Qed.

Lemma coalesce_no_holes l1 b l2 : no_holes (l1 ++ b :: l2) -> no_holes (coalesce l1 b l2).
Proof.
  intros (H1 & (H2 & _)%no_holes_cons & _)%no_holes_app. unfold coalesce. apply no_holes_app. split_and!.
  - unfold back_front. destruct l1 as [|a l1 _] using rev_ind; [done|]. rewrite last_snoc.
    destruct (bk_used a); [done|]. rewrite removelast_last. by apply no_holes_app in H1 as (? & _).
  - apply no_holes_cons. unfold fwd_tail. destruct l2 as [|c l2]; [by split|]. destruct (bk_used c) eqn:Hc.
    + split; [done|]. intros d [= <-]. by right.
    + apply no_holes_cons in H2 as [H2 Hh]. split; [done|]. intros d Hd. right. destruct (Hh d Hd); [congruence|done].
  - intros a Ha. left. revert Ha. unfold back_front. destruct l1 as [|a' l1 _] using rev_ind; [done|].
    rewrite last_snoc. destruct (bk_used a') eqn:Ha'; [rewrite last_snoc; by intros [= <-]|].
    rewrite removelast_last. intros Ha. apply no_holes_app in H1 as (_ & _ & Hh).
    destruct (Hh a Ha); [done|congruence].
Qed.

Definition unuse (b : blk) : blk := Blk (bk_ptr b) (bk_next b) false.

Lemma mem_link_valid_ok h l1 b l2 :
  heap_ok h (l1 ++ b :: l2) -> mem_link_valid h (hp_ram h + bk_ptr b) = true.
Proof.
  intros Hok. pose proof Hok as [_ He _ Ht Hl _ _ _].
  destruct (chained_middle _ _ l1 b l2 (Chained _ _ _ Ht Hl)) as (Hn & Hp & _ & Hl2 & Ht1 & Hb & Ht2 & Hb0 & Hbr).
  unfold mem_link_valid, ptr_to_mem. rewrite mem_to_ptr_index, Hn, Hp, mem_size_aligned by lia.
  assert (default 0 (bk_ptr <$> last l1) <= bk_ptr b /\
    negb (default 0 (bk_ptr <$> last l1) =? bk_ptr b) &&
    negb (mem_next (hp_mem h) (hp_ram h + default 0 (bk_ptr <$> last l1)) =? bk_ptr b) = false) as [Hle ->].
  { destruct l1 as [|a l1 _] using rev_ind.
    - change (default 0 (bk_ptr <$> last [])) with 0. destruct Ht1. by split.
    - rewrite last_snoc. change (default 0 (bk_ptr <$> Some a)) with (bk_ptr a). rewrite <- app_assoc in Ht, Hl.
      destruct (chained_middle _ _ l1 a (b :: l2) (Chained _ _ _ Ht Hl)) as (Hna & _ & _ & _ & _ & Ha%blk_ok_room & Hta & _).
      destruct Hta as [Hab _]. rewrite Hna, Hab, Z.eqb_refl, andb_false_r. split; [lia|done]. }
  destruct (Z.ltb_spec 10240 (bk_next b)), (Z.ltb_spec 10240 (default 0 (bk_ptr <$> last l1))); try lia.
  cbn [orb negb]. destruct l2 as [|c l2].
  - cbn [tiles] in Ht2. rewrite He, Ht2, Z.eqb_refl. done.
  - destruct Ht2 as (<- & _). destruct Hl2 as (_ & -> & _). by rewrite Z.eqb_refl, andb_false_r.
Qed.

Lemma is_low_unuse l1 b l2 f :
  is_low (l1 ++ b :: l2) f -> bk_used b = true -> bk_ptr b <= MEM_SIZE_ALIGNED ->
  is_low (l1 ++ unuse b :: l2) (Z.min f (bk_ptr b)).
Proof.
  intros [Hf Hle] Hu Hb. split.
  - destruct (Z.min_spec f (bk_ptr b)) as [[Hlt ->]|[_ ->]].
    + destruct Hf as [->|(c & Hc & Hcf & <-)]; [by left|right]. exists c. split; [|done].
      apply elem_of_app in Hc as [Hc|[->|Hc]%elem_of_cons]; [apply elem_of_app; by left|congruence|].
      apply elem_of_app; right; by right.
    + right. exists (unuse b). split; [apply elem_of_app; right; by left|done].
  - intros c [Hc|[->|Hc]%elem_of_cons]%elem_of_app Hcf; [..|cbn [unuse bk_ptr]; lia|];
      (transitivity f; [lia|]); apply Hle; (done || apply elem_of_app); [by left|right; by right].
Qed.

(** A well-formed heap after the block [b] was freed. *)
Definition released (h : heap) (l1 : list blk) (b : blk) (l2 : list blk) (h' : heap) : Prop :=
  heap_ok h' (coalesce l1 b l2) /\ kept (hp_ram h) (l1 ++ unuse b :: l2) (hp_mem h) (hp_mem h') /\
  hp_ram h' = hp_ram h /\ mem_used (hp_mem h') (hp_ram h + bk_ptr b) = 0 /\
  (forall c, bk_used c = true -> c ∈ coalesce l1 b l2 <-> c ∈ l1 ++ unuse b :: l2).


Lemma mem_free_spec h l1 b l2 :
  heap_ok h (l1 ++ b :: l2) -> bk_used b = true ->
  exists h', mem_free h (hp_ram h + bk_ptr b + SIZEOF_STRUCT_MEM) = Ret h' /\ released h l1 b l2 h'.
Proof.
  intros Hok Hub. pose proof Hok as [Hram He Heu Ht Hl Hh (f & Hf & Hlow) Hst].
  pose proof (Chained _ _ _ Ht Hl) as Hc.
  destruct (chained_middle _ _ _ _ _ Hc) as (Hn & Hp & Hu & _ & Ht1 & Hb & Ht2 & Hb0 & Hbr).
  destruct (use_spec _ _ _ _ _ false Hc) as [Hc' Hk']. pose proof Hc' as [Ht' _].
  unfold mem_free. change (MEM_ALIGNMENT - 1) with 3. rewrite land3.
  assert ((hp_ram h + bk_ptr b + SIZEOF_STRUCT_MEM) mod 4 = 0) as ->.
  { destruct Hb as (_ & ? & _). repeat apply mod4_add; (done || tauto). }
  replace (hp_ram h + bk_ptr b + SIZEOF_STRUCT_MEM - SIZEOF_STRUCT_MEM) with (hp_ram h + bk_ptr b) by lia.
  destruct (Z.eqb_spec (hp_ram h + bk_ptr b + SIZEOF_STRUCT_MEM) 0); [hlia|].
  destruct (Z.ltb_spec (hp_ram h + bk_ptr b) (hp_ram h)); [lia|].
  destruct (Z.ltb_spec (hp_ram_end h) (hp_ram h + bk_ptr b + SIZEOF_STRUCT_MEM + MIN_SIZE_ALIGNED)); [hlia|].
  cbn [orb negb Z.eqb]. rewrite Hu, Hub, (mem_link_valid_ok _ _ _ _ Hok). cbn [int_of_bool Z.eqb negb].
  set (h1 := hp_set_mem h _).
  set (h2 := if _ <? hp_lfree h1 then hp_set_lfree h1 _ else h1).
  assert (h2 = hp_set_lfree h1 (hp_ram h + Z.min f (bk_ptr b))) as ->.
  { subst h2. change (hp_lfree h1) with (hp_lfree h). rewrite Hf. ztest; [by rewrite Z.min_r by lia|].
    rewrite Z.min_l, <- Hf by lia. by destruct h. }
  set (h3 := hp_set_stats _ _).
  assert (end_ok h3) as Hend.
  { split; [exact He|]. rewrite <- Heu. symmetry. apply mem_used_ext. intros x Hx. destruct Hk' as [_ Hout].
    apply Hout. change (hp_ram_end h3) with (hp_ram_end h) in Hx. hlia. }
  assert (ms_used (hp_stats h3) = used_bytes (l1 ++ unuse b :: l2)) as Hst3.
  { cbn [h3 hp_set_stats hp_stats stats_dec_used ms_used h1 hp_set_mem hp_set_lfree hp_mem hp_ram]. hdr_read.
    rewrite Hn, Hst, (u16_small (hp_ram h + _ - _)), !used_bytes_app by lia.
    cbn [used_bytes unuse bk_used bk_next bk_ptr]. rewrite Hub.
    pose proof (used_bytes_range _ _ _ Ht') as Hr. rewrite used_bytes_app in Hr.
    cbn [used_bytes unuse bk_used] in Hr. rewrite u16_small; hlia. }
  pose proof (is_low_unuse _ _ _ _ Hlow Hub ltac:(rewrite mem_size_aligned; lia)) as Hlow'.
  destruct (plug_holes_spec h3 l1 (unuse b) l2 _ Hc' Hend eq_refl eq_refl Hlow') as (h' & Heq & m' & -> & Hc4 & Hk4 & Hu4 & Hf4 & Hs4 & Hb4).
  exists (hp_set_mem h3 m'). split; [exact Heq|]. destruct Hc4 as [Ht4 Hl4]. split_and!; try done.
  - split; try done; [| |eexists; split; [done|by apply Hf4]|exact (eq_trans Hst3 (eq_sym Hb4))].
    + destruct Hend as [_ <-]. symmetry. apply mem_used_ext. intros x Hx. destruct Hk4 as [_ Hout].
      apply Hout. change (hp_ram_end (hp_set_mem h3 m')) with (hp_ram_end h) in Hx. change (hp_ram h3) with (hp_ram h). hlia.
    + by apply coalesce_no_holes.
  - by transitivity (hp_mem h3).
Qed.

(** ** Trimming *)

(** What is behind a block that was cut at [ptr2]: the free block that follows
    grows, or a new free block appears when it can hold something. *)
Definition trimmed (l1 : list blk) (b : blk) (l2 : list blk) (newsize : Z) : list blk :=
  let ptr2 := bk_ptr b + SIZEOF_STRUCT_MEM + newsize in
  if newsize =? bk_size b then l1 ++ b :: l2
  else match l2 with
  | c :: l2' =>
      if bk_used c then
        if newsize + SIZEOF_STRUCT_MEM + MIN_SIZE_ALIGNED <=? bk_size b
        then l1 ++ Blk (bk_ptr b) ptr2 true :: Blk ptr2 (bk_next b) false :: l2
        else l1 ++ b :: l2
      else l1 ++ Blk (bk_ptr b) ptr2 true :: Blk ptr2 (bk_next c) false :: l2'
  | [] => l1 ++ [b]
  end.

(** The last block of the heap, with room for a free block behind the cut: the
    assertion in that branch does not allow it. *)
Definition trims_last (b : blk) (l2 : list blk) (newsize : Z) : Prop :=
  l2 = [] /\ newsize + SIZEOF_STRUCT_MEM + MIN_SIZE_ALIGNED <= bk_size b.

Lemma trimmed_cut_free l1 b c l2 newsize :
  bk_used c = false -> newsize <> bk_size b ->
  trimmed l1 b (c :: l2) newsize =
    l1 ++ Blk (bk_ptr b) (bk_ptr b + 8 + newsize) true :: Blk (bk_ptr b + 8 + newsize) (bk_next c) false :: l2.
Proof. intros Hc Hn. unfold trimmed. rewrite Hc. by destruct (Z.eqb_spec newsize (bk_size b)). Qed.

Lemma is_low_cut_free l1 b c l2 p f :
  tiles 0 (l1 ++ b :: c :: l2) MEM_SIZE_ALIGNED -> bk_used b = true -> bk_used c = false ->
  bk_ptr b < p <= bk_ptr c -> is_low (l1 ++ b :: c :: l2) f ->
  is_low (l1 ++ Blk (bk_ptr b) p true :: Blk p (bk_next c) false :: l2) (if f =? bk_ptr c then p else f).
Proof.
  intros Ht Hb Hc Hp [Hf Hle].
  pose proof (Hle c ltac:(apply elem_of_app; right; right; by left) Hc) as Hfc.
  apply tiles_middle in Ht as (Ht1 & Hbo%blk_ok_room & Hcp & Hco%blk_ok_room & Ht2). pose proof (tiles_le _ _ _ Ht2).
  assert (forall d, d ∈ l1 -> bk_ptr d < bk_ptr b) as Hl1 by (intros d Hd; destruct (tiles_elem _ _ _ _ Ht1 Hd); lia).
  destruct (Z.eqb_spec f (bk_ptr c)) as [->|Hne].
  - split.
    + right. eexists. split; [apply elem_of_app; right; right; by left|done].
    + intros d [Hd|[->|[->|Hd]%elem_of_cons]%elem_of_cons]%elem_of_app Hdf; [|done|cbn [bk_ptr]; lia|].
      * pose proof (Hle d ltac:(apply elem_of_app; by left) Hdf). specialize (Hl1 d Hd). lia.
      * destruct (tiles_elem _ _ _ _ Ht2 Hd). lia.
  - assert (exists d, d ∈ l1 /\ bk_used d = false /\ bk_ptr d = f) as (d & Hd & Hdf & <-).
    { destruct Hf as [->|(d & Hd & Hdf & <-)]; [lia|].
      apply elem_of_app in Hd as [Hd|[->|[->|Hd]%elem_of_cons]%elem_of_cons]; [by exists d|congruence|done|].
      destruct (tiles_elem _ _ _ _ Ht2 Hd). lia. }
    split; [right; exists d; split; [apply elem_of_app; by left|done]|].
    specialize (Hl1 d Hd).
    intros e [He|[->|[->|He]%elem_of_cons]%elem_of_cons]%elem_of_app Hef; [|done|cbn [bk_ptr]; lia|].
    + apply Hle; [apply elem_of_app; by left|done].
    + destruct (tiles_elem _ _ _ _ Ht2 He). lia.
Qed.

Lemma is_low_cut_used l1 b l2 p f :
  tiles 0 (l1 ++ b :: l2) MEM_SIZE_ALIGNED -> bk_used b = true -> p < bk_next b ->
  is_low (l1 ++ b :: l2) f ->
  is_low (l1 ++ Blk (bk_ptr b) p true :: Blk p (bk_next b) false :: l2) (Z.min f p).
Proof.
  intros Ht Hb Hp [Hf Hle]. apply tiles_middle in Ht as (_ & _ & Ht2). pose proof (tiles_le _ _ _ Ht2).
  split.
  - destruct (Z.min_spec f p) as [[Hlt ->]|[_ ->]].
    + destruct Hf as [->|(d & Hd & Hdf & <-)]; [lia|]. right. exists d. split; [|done].
      apply elem_of_app in Hd as [Hd|[->|Hd]%elem_of_cons]; [apply elem_of_app; by left|congruence|].
      apply elem_of_app; right; by do 2 right.
    + right. eexists. split; [apply elem_of_app; right; right; by left|done].
  - intros d [Hd|[->|[->|Hd]%elem_of_cons]%elem_of_cons]%elem_of_app Hdf; [|done|cbn [bk_ptr]; lia|];
      (transitivity f; [lia|]); apply Hle; (done || apply elem_of_app); [by left|right; by right].
Qed.

Section trim.
Variables (h : heap) (l1 : list blk) (b : blk) (l2 : list blk) (newsize : Z).
Hypotheses (Hok : heap_ok h (l1 ++ b :: l2)) (Hused : bk_used b = true)
  (Hsize : size_ok newsize) (Hlt : newsize < bk_size b).
#[local] Set Default Proof Using "All".
Let ptr2 := bk_ptr b + 8 + newsize.

(** The heap with new bytes, list, lowest free block and statistics. *)
Lemma trim_heap_ok m' f' l' :
  chained m' (hp_ram h) l' -> kept (hp_ram h) l' (hp_mem h) m' -> no_holes l' -> is_low l' f' ->
  used_bytes l' = used_bytes (l1 ++ b :: l2) - (bk_size b - newsize) ->
  heap_ok (hp_set_stats (hp_set_mem (hp_set_lfree h (hp_ram h + f')) m')
    (stats_dec_used (hp_stats h) (bk_size b - newsize))) l'.
Proof.
  intros [Ht Hl] [_ Hout] Hh Hf Hu. pose proof Hok as [Hram He Heu Hto _ _ _ Hst].
  split; cbn [hp_set_stats hp_set_mem hp_set_lfree hp_mem hp_ram hp_ram_end hp_lfree hp_stats]; try done.
  - rewrite <- Heu. symmetry. apply mem_used_ext. intros x Hx. apply Hout. hlia.
  - by exists f'.
  - cbn [stats_dec_used ms_used]. rewrite Hst, Hu.
    pose proof (used_bytes_range _ _ _ Ht). pose proof (used_bytes_range _ _ _ Hto). apply u16_small. hlia.
Qed.

Lemma trim_facts :
  mem_next (hp_mem h) (hp_ram h + bk_ptr b) = bk_next b /\ mem_used (hp_mem h) (hp_ram h + bk_ptr b) = 1 /\
  links (hp_mem h) (hp_ram h) (bk_ptr b) l2 /\ tiles (bk_next b) l2 MEM_SIZE_ALIGNED /\ 0 <= bk_ptr b /\ bk_next b <= 10240 /\
  bk_ptr b + 20 <= ptr2 <= bk_next b - 4 /\ ptr2 mod 4 = 0.
Proof.
  pose proof Hok as [_ _ _ Ht Hl _ _ _]. destruct Hsize as [Hs1 Hs2].
  destruct (chained_middle _ _ _ _ _ (Chained _ _ _ Ht Hl)) as (Hn & _ & Hu & Hl2 & _ & (_ & Hm1 & Hm2) & Ht2 & ? & ?).
  rewrite Hused in Hu. assert (ptr2 mod 4 = 0) as Hm by (by apply mod4_off). subst ptr2. heap_consts. split_and!; try (done || lia).
  assert (bk_ptr b + 8 + newsize < bk_next b) by lia.
  pose proof (Z.div_mod (bk_ptr b + 8 + newsize) 4 ltac:(lia)). pose proof (Z.div_mod (bk_next b) 4 ltac:(lia)). lia.
Qed.

Lemma mem_trim_move_spec c l2' :
  l2 = c :: l2' -> bk_used c = false ->
  exists h', mem_trim_move h (hp_ram h + bk_ptr b) (bk_ptr b) newsize (bk_size b) = Ret h' /\
    let l' := l1 ++ Blk (bk_ptr b) ptr2 true :: Blk ptr2 (bk_next c) false :: l2' in
    heap_ok h' l' /\ kept (hp_ram h) l' (hp_mem h) (hp_mem h') /\ hp_ram h' = hp_ram h.
Proof.
  intros Hl2' Hc. destruct trim_facts as (Hn & Hu & Hl & Ht2 & Hb0 & Hb1 & Hp & Hp4). pose proof Hok as [_ _ _ Ht Hlk Hh (f & Hf & Hlow) _].
  pose proof (Chained _ _ _ Ht Hlk) as Hch. rewrite Hl2' in Hl, Ht2, Ht, Hh, Hlow, Hch.
  destruct Ht2 as (Hcp & Hco & Ht2). pose proof (blk_ok_room _ Hco). pose proof (tiles_le _ _ _ Ht2) as Hle.
  destruct Hl as (Hcn & _ & Hcu & _). rewrite mem_size_aligned in Hle.
  unfold mem_trim_move, ptr_to_mem. rewrite Hn, sizeof_struct_mem, mem_size_aligned, u16_small by lia.
  fold ptr2. destruct (Z.eqb_spec (bk_next b) 10240); [lia|]. cbn [negb LWIP_ASSERT mbind outcome_bind].
  rewrite <- Hcp, Hcn, Hf.
  set (h1 := if hp_ram h + f =? hp_ram h + bk_ptr c then _ else h).
  assert (h1 = hp_set_lfree h (hp_ram h + if f =? bk_ptr c then ptr2 else f)) as ->.
  { subst h1. replace (hp_ram h + f =? hp_ram h + bk_ptr c) with (f =? bk_ptr c) by (ztest; lia).
    destruct (f =? bk_ptr c); [done|]. rewrite <- Hf. by destruct h. }
  set (g := hp_set_lfree h _). change (hp_ram g) with (hp_ram h). change (hp_mem g) with (hp_mem h).
  set (mm := set_mem_next (set_mem_prev _ _ _) _ _). change (hp_mem (hp_set_mem g mm)) with mm.
  change (hp_ram (hp_set_mem g mm)) with (hp_ram h).
  assert (mem_next mm (hp_ram h + ptr2) = bk_next c) as -> by (subst mm; hdr_read; rewrite u16_small; lia).
  destruct (cut_spec g mm l1 b [c] l2' ptr2 (bk_next c) true) as (m' & -> & Hc' & Hk);
    [done|by split_and!|lia|lia|done|change (hp_ram g) with (hp_ram h); subst mm; hdr_read; rewrite ?u16_small by lia; done..| |].
  { intros x Hx1 Hx2. change (hp_ram g) with (hp_ram h) in *. subst mm. by hdr_other. }
  eexists. split; [done|]. split_and!; [|done|done]. apply trim_heap_ok; [done..| | |].
  - apply no_holes_app in Hh as (Hh1 & (Hh2 & _)%no_holes_cons & _). apply no_holes_app.
    split_and!; [done| |by right]. apply no_holes_cons in Hh2 as [Hh2 Hh3]. apply no_holes_cons. split; [|by left].
    apply no_holes_cons. split; [done|]. intros d Hd. right. destruct (Hh3 d Hd); [congruence|done].
  - apply is_low_cut_free; [done..|lia|done].
  - rewrite Hl2', !used_bytes_app. cbn [used_bytes bk_used bk_ptr bk_next]. rewrite Hused, Hc. subst ptr2. hlia.
Qed.

Lemma mem_trim_split_spec c l2' :
  l2 = c :: l2' -> bk_used c = true -> newsize + SIZEOF_STRUCT_MEM + MIN_SIZE_ALIGNED <= bk_size b ->
  exists h', mem_trim_split h (hp_ram h + bk_ptr b) (bk_ptr b) newsize (bk_size b) = Ret h' /\
    let l' := l1 ++ Blk (bk_ptr b) ptr2 true :: Blk ptr2 (bk_next b) false :: l2 in
    heap_ok h' l' /\ kept (hp_ram h) l' (hp_mem h) (hp_mem h') /\ hp_ram h' = hp_ram h.
Proof.
  intros Hl2' Hc Hroom. destruct trim_facts as (Hn & Hu & Hl & Ht2 & Hb0 & Hb1 & Hp & Hp4).
  pose proof Hok as [_ _ _ Ht Hlk Hh (f & Hf & Hlow) _]. pose proof (Chained _ _ _ Ht Hlk) as Hch.
  assert (bk_next b < 10240) as Hlast.
  { subst l2. destruct Ht2 as (<- & Hco%blk_ok_room & Ht2%tiles_le). hlia. }
  assert (ptr2 + 20 <= bk_next b) as Hr by (subst ptr2; hlia).
  unfold mem_trim_split, ptr_to_mem. rewrite Hn, sizeof_struct_mem, mem_size_aligned, u16_small by lia.
  fold ptr2. destruct (Z.eqb_spec (bk_next b) 10240); [lia|]. cbn [negb LWIP_ASSERT mbind outcome_bind].
  rewrite Hf. set (g := if hp_ram h + ptr2 <? hp_ram h + f then _ else h).
  assert (g = hp_set_lfree h (hp_ram h + Z.min f ptr2)) as ->.
  { subst g. destruct (Z.ltb_spec (hp_ram h + ptr2) (hp_ram h + f)); [by rewrite Z.min_r by lia|].
    rewrite Z.min_l, <- Hf by lia. by destruct h. }
  set (g := hp_set_lfree h _). change (hp_ram g) with (hp_ram h). change (hp_mem g) with (hp_mem h).
  assert (mem_next (set_mem_used (hp_mem h) (hp_ram h + ptr2) 0) (hp_ram h + bk_ptr b) = bk_next b) as ->
    by (hdr_read; done).
  set (mm := set_mem_next (set_mem_prev _ _ _) _ _). change (hp_mem (hp_set_mem g mm)) with mm.
  change (hp_ram (hp_set_mem g mm)) with (hp_ram h).
  assert (mem_next mm (hp_ram h + ptr2) = bk_next b) as -> by (subst mm; hdr_read; rewrite u16_small; lia).
  destruct (cut_spec g mm l1 b [] l2 ptr2 (bk_next b) true) as (m' & -> & Hc' & Hk);
    [done|done|lia|lia|done|change (hp_ram g) with (hp_ram h); subst mm; hdr_read; rewrite ?u16_small by lia; done..| |].
  { intros x Hx1 Hx2. change (hp_ram g) with (hp_ram h) in *. subst mm. by hdr_other. }
  eexists. split; [done|]. split_and!; [|done|done]. apply trim_heap_ok; [done..| | |].
  - apply no_holes_app in Hh as (Hh1 & (Hh2 & _)%no_holes_cons & _). apply no_holes_app.
    split_and!; [done| |by right]. apply no_holes_cons. split; [|by left]. apply no_holes_cons. split; [done|].
    subst l2. intros d [= <-]. by right.
  - apply is_low_cut_used; [done..|lia|done].
  - rewrite !used_bytes_app. cbn [used_bytes bk_used bk_ptr bk_next]. rewrite Hused. subst ptr2. hlia.
Qed.
End trim.

(** The size of a block is a request that is already rounded. *)
Lemma request_size_le n b : blk_ok b -> n <= bk_size b -> request_size n <= bk_size b.
Proof.
  intros (H1 & H2 & H3) Hn. unfold request_size. heap_consts.
  pose proof (Z.div_mod (n + 3) 4 ltac:(lia)). pose proof (Z.mod_pos_bound (n + 3) 4 ltac:(lia)).
  pose proof (Z.div_mod (bk_ptr b) 4 ltac:(lia)). pose proof (Z.div_mod (bk_next b) 4 ltac:(lia)). lia.
Qed.

Section trim_all.
Variables (h : heap) (l1 : list blk) (b : blk) (l2 : list blk) (n : Z).
Hypotheses (Hok : heap_ok h (l1 ++ b :: l2)) (Hused : bk_used b = true) (Hn : 0 <= n <= bk_size b).
#[local] Set Default Proof Using "All".

(** [mem_trim] as far as the choice of what to do behind the block. *)
Lemma mem_trim_cases :
  mem_trim h (hp_ram h + bk_ptr b + SIZEOF_STRUCT_MEM) n =
  if request_size n =? bk_size b then Ret (Some (hp_ram h + bk_ptr b + SIZEOF_STRUCT_MEM), h)
  else h' ← (if match l2 with c :: _ => negb (bk_used c) | [] => false end
             then mem_trim_move h (hp_ram h + bk_ptr b) (bk_ptr b) (request_size n) (bk_size b)
             else if request_size n + SIZEOF_STRUCT_MEM + MIN_SIZE_ALIGNED <=? bk_size b
             then mem_trim_split h (hp_ram h + bk_ptr b) (bk_ptr b) (request_size n) (bk_size b) else Ret h);
       Ret (Some (hp_ram h + bk_ptr b + SIZEOF_STRUCT_MEM), h').
Proof.
  pose proof Hok as [Hram He Heu Ht Hlk _ _ _].
  destruct (chained_middle _ _ _ _ _ (Chained _ _ _ Ht Hlk)) as (Hbn & _ & Hu & Hl2 & _ & Hb & Ht2 & Hb0 & Hbr).
  pose proof (request_size_le n b Hb ltac:(lia)) as Hle. destruct (request_size_ok n ltac:(lia)) as [_ Hrn].
  assert (bk_size b = bk_next b - bk_ptr b - 8) as Hsz by hlia.
  unfold mem_trim. pose proof (aligned_request_spec n ltac:(lia)) as Ha.
  destruct ((MEM_SIZE_ALIGNED <? aligned_request n) || (aligned_request n <? n)); [rewrite mem_size_aligned in Ha; lia|].
  destruct Ha as [-> Hmax].
  destruct (Z.leb_spec (hp_ram h) (hp_ram h + bk_ptr b + SIZEOF_STRUCT_MEM)); [|hlia].
  destruct (Z.ltb_spec (hp_ram h + bk_ptr b + SIZEOF_STRUCT_MEM) (hp_ram_end h)); [|hlia].
  cbn [andb LWIP_ASSERT mbind outcome_bind].
  destruct (Z.ltb_spec (hp_ram h + bk_ptr b + SIZEOF_STRUCT_MEM) (hp_ram h)); [hlia|].
  destruct (Z.leb_spec (hp_ram_end h) (hp_ram h + bk_ptr b + SIZEOF_STRUCT_MEM)); [hlia|]. cbn [orb].
  replace (hp_ram h + bk_ptr b + SIZEOF_STRUCT_MEM - SIZEOF_STRUCT_MEM) with (hp_ram h + bk_ptr b) by lia.
  rewrite Hbn, mem_to_ptr_index by lia. rewrite (u16_small (bk_next b - bk_ptr b)) by lia.
  assert (u16 (bk_next b - bk_ptr b - SIZEOF_STRUCT_MEM) = bk_size b) as -> by (rewrite u16_small; hlia).
  destruct (Z.leb_spec (request_size n) (bk_size b)); [|lia]. cbn [LWIP_ASSERT mbind outcome_bind].
  destruct (Z.ltb_spec (bk_size b) (request_size n)); [lia|].
  destruct (request_size n =? bk_size b); [done|]. do 2 f_equal. unfold ptr_to_mem.
  destruct l2 as [|c l2'].
  - rewrite (Ht2 : bk_next b = MEM_SIZE_ALIGNED), <- He, Heu. done.
  - destruct Ht2 as (<- & _). destruct Hl2 as (_ & _ & -> & _). by destruct (bk_used c).
Qed.

Lemma mem_trim_spec :
  ~ trims_last b l2 (request_size n) ->
  exists h', mem_trim h (hp_ram h + bk_ptr b + SIZEOF_STRUCT_MEM) n =
      Ret (Some (hp_ram h + bk_ptr b + SIZEOF_STRUCT_MEM), h') /\
    let l' := trimmed l1 b l2 (request_size n) in
    heap_ok h' l' /\ kept (hp_ram h) l' (hp_mem h) (hp_mem h') /\ hp_ram h' = hp_ram h.
Proof.
  intros Hlast. rewrite mem_trim_cases. pose proof Hok as [_ _ _ (_ & Hb & _)%tiles_middle _ _ _ _].
  pose proof (request_size_le n b Hb ltac:(lia)) as Hle. destruct (request_size_ok n ltac:(lia)) as [Hso _].
  unfold trimmed. destruct (Z.eqb_spec (request_size n) (bk_size b)) as [|Hne]; [by exists h|].
  assert (request_size n < bk_size b) as Hlt by lia.
  destruct l2 as [|c l2']; [|destruct (bk_used c) eqn:Hc]; cbn [negb].
  - destruct (Z.leb_spec (request_size n + SIZEOF_STRUCT_MEM + MIN_SIZE_ALIGNED) (bk_size b)); [by destruct Hlast|].
    by exists h.
  - destruct (Z.leb_spec (request_size n + SIZEOF_STRUCT_MEM + MIN_SIZE_ALIGNED) (bk_size b)); [|by exists h].
    destruct (mem_trim_split_spec h l1 b (c :: l2') (request_size n) Hok Hused Hso Hlt c l2') as (h' & -> & Hr); [done..|].
    exists h'. split; [done|]. exact Hr.
  - destruct (mem_trim_move_spec h l1 b (c :: l2') (request_size n) Hok Hused Hso Hlt c l2') as (h' & -> & Hr); [done..|].
    exists h'. split; [done|]. exact Hr.
Qed.

(** A cut at the last block ends the process. *)
Lemma mem_trim_last :
  trims_last b l2 (request_size n) -> mem_trim h (hp_ram h + bk_ptr b + SIZEOF_STRUCT_MEM) n = Exited 134.
Proof.
  intros [Hl2 Hroom]. rewrite mem_trim_cases, Hl2.
  destruct (Z.eqb_spec (request_size n) (bk_size b)); [hlia|].
  destruct (Z.leb_spec (request_size n + SIZEOF_STRUCT_MEM + MIN_SIZE_ALIGNED) (bk_size b)); [|hlia].
  pose proof Hok as [_ _ _ Ht Hlk _ _ _]. rewrite Hl2 in Ht, Hlk.
  destruct (chained_middle _ _ _ _ _ (Chained _ _ _ Ht Hlk)) as (Hbn & _ & _ & _ & _ & _ & Ht2 & _).
  unfold mem_trim_split. rewrite Hbn, (Ht2 : bk_next b = MEM_SIZE_ALIGNED), Z.eqb_refl. done.
Qed.
End trim_all.

(** ** The theorems *)

(** C35. [mem_malloc] is first fit: it takes the first free block that can hold
    the request rounded up to four bytes (and to twelve), cuts off the rest when
    that can be a block, and answers [NULL] exactly when no block fits; other
    blocks, their bytes and what is outside of the heap stay, and the result is a
    well-formed heap with no two free blocks in a row. *)
Theorem mem_malloc_first_fit (h : heap) (l : list blk) (n : Z) :
  heap_ok h l -> 0 < n < 65536 ->
  exists r h', mem_malloc h n = Ret (r, h') /\
    match r with
    | Some p =>
        exists l1 b l2, l = l1 ++ b :: l2 /\ fits (request_size n) b /\
          Forall (fun c => ~ fits (request_size n) c) l1 /\
          p = hp_ram h + bk_ptr b + SIZEOF_STRUCT_MEM /\ p mod MEM_ALIGNMENT = 0 /\
          heap_ok h' (l1 ++ carve (request_size n) b ++ l2) /\ kept (hp_ram h) l (hp_mem h) (hp_mem h')
    | None =>
        Forall (fun c => ~ fits (request_size n) c) l /\ heap_ok h' l /\ hp_mem h' = hp_mem h
    end.
Proof.
  intros Hok Hn.
  destruct (mem_malloc_spec h l n Hok ltac:(lia)) as [(l1 & b & l2 & h' & _ & -> & Hfit & Hno & Heq & Hok' & Hk & _)|([->|Hno] & h' & Heq & Hok' & Hm & _)].
  - eexists _, h'. split; [exact Heq|]. exists l1, b, l2. split_and!; try done.
    destruct (ho_ram _ _ Hok) as (_ & ? & _). pose proof (ho_tiles _ _ Hok) as (_ & (_ & ? & _) & _)%tiles_middle.
    by repeat apply mod4_add.
  - lia.
  - exists None, h'. by split_and!.
Qed.

(** A heap of one block. *)
Definition example_init : outcome heap := mem_init (Heap (fun _ => 7) 0 0 0 (StatsMem 0 0 0 0 0)) 1001.

Lemma mem_malloc_first_fit_witness :
  exists h r h', example_init = Ret h /\ mem_malloc h 10 = Ret (r, h') /\ r = Some 1012 /\
    heap_ok h' [Blk 0 20 true; Blk 20 10240 false].
Proof.
  destruct (mem_init_spec (Heap (fun _ => 7) 0 0 0 (StatsMem 0 0 0 0 0)) 1001) as (h & Hi & Hok & Hram); [lia|done|].
  destruct (mem_malloc_first_fit h _ 10 Hok ltac:(lia)) as ([p|] & h' & Heq & Hr).
  - destruct Hr as (l1 & b & l2 & Hl & _ & _ & -> & _ & Hok' & _).
    destruct l1 as [|? [|]]; [|done..]. injection Hl as <- <-.
    eexists h, _, h'. split; [exact Hi|]. split; [exact Heq|]. split; [by rewrite Hram|exact Hok'].
  - destruct Hr as ([Hno _]%Forall_cons & _). destruct Hno. split; [done|by vm_compute].
Defined.
