(* ===== verification/HeapClient.v ===== *)
(** * The heap of lwIP, seen by its clients

    A client knows the addresses it was given and the bytes it wrote there.
    [client_step] says what each call may do to that map; the functions of
    [mem.c] implement it for every sequence of calls. *)
From S2P Require Import Prelude Memory Align Lwip Pbuf Refinement Heap HeapSpec.

(** ** Live blocks *)

Definition blk_addr (ram : Z) (b : blk) : Z := ram + bk_ptr b + SIZEOF_STRUCT_MEM.
Definition blk_bytes (m : mem) (ram : Z) (b : blk) : list Z := slice m (blk_addr ram b) (bk_size b).

(** [live] holds the addresses and bytes of the used blocks of [l]. *)
Definition rep (m : mem) (ram : Z) (l : list blk) (live : gmap Z (list Z)) : Prop :=
  forall a bs, live !! a = Some bs <->
    exists b, b ∈ l /\ bk_used b = true /\ a = blk_addr ram b /\ bs = blk_bytes m ram b.

Definition heap_rep (h : heap) (live : gmap Z (list Z)) : Prop :=
  exists l, heap_ok h l /\ rep (hp_mem h) (hp_ram h) l live.

Section rep.
Implicit Types (m : mem) (ram : Z) (l : list blk) (b c : blk) (live : gmap Z (list Z)).

Lemma kept_bytes ram l m m' b : kept ram l m m' -> b ∈ l -> bk_used b = true -> blk_bytes m ram b = blk_bytes m' ram b.
Proof.
  intros [Hk _] Hb Hu. apply (same_bytes_slice (ram + bk_ptr b + SIZEOF_STRUCT_MEM) (ram + bk_next b));
    [by apply Hk|done|]. unfold blk_addr. hlia.
Qed.

Lemma rep_bytes m m' ram l live :
  (forall b, b ∈ l -> bk_used b = true -> blk_bytes m ram b = blk_bytes m' ram b) ->
  rep m ram l live -> rep m' ram l live.
Proof.
  intros Hk Hr a bs. rewrite (Hr a bs). split; intros (b & Hb & Hu & -> & ->); exists b; split_and!; try done;
    [|symmetry]; by apply Hk.
Qed.

Lemma rep_kept m m' ram l live : kept ram l m m' -> rep m ram l live -> rep m' ram l live.
Proof. intros Hk. apply rep_bytes. intros b Hb Hu. by apply (kept_bytes _ l). Qed.

Lemma rep_used_iff m ram l l' live :
  (forall b, bk_used b = true -> b ∈ l' <-> b ∈ l) -> rep m ram l live -> rep m ram l' live.
Proof.
  intros Hiff Hr a bs. rewrite (Hr a bs). split; intros (b & Hb & Hu & ?); exists b; (split; [by apply Hiff|done]).
Qed.

(** Blocks of a tiling are known by their addresses. *)
Lemma tiles_addr p l q ram b c :
  tiles p l q -> b ∈ l -> c ∈ l -> blk_addr ram b = blk_addr ram c -> b = c.
Proof.
  intros Ht Hb Hc Heq. destruct (tiles_elem _ _ _ _ Ht Hb) as (_ & ? & _), (tiles_elem _ _ _ _ Ht Hc) as (_ & ? & _).
  destruct (tiles_disjoint _ _ _ _ _ Ht Hb Hc); [done|]. unfold blk_addr in Heq. lia.
Qed.

(** The same for one block against the others. *)
Lemma tiles_middle_addr p l1 b l2 q ram c :
  tiles p (l1 ++ b :: l2) q -> c ∈ l1 ++ l2 -> blk_addr ram b <> blk_addr ram c.
Proof.
  intros (Ht1 & Hb%blk_ok_room & Ht2)%tiles_middle [Hc|Hc]%elem_of_app; unfold blk_addr.
  - destruct (tiles_elem _ _ _ _ Ht1 Hc). lia.
  - destruct (tiles_elem _ _ _ _ Ht2 Hc). lia.
Qed.

Lemma rep_insert m ram l1 b l2 live p q :
  tiles p (l1 ++ b :: l2) q -> bk_used b = true -> rep m ram (l1 ++ l2) live ->
  rep m ram (l1 ++ b :: l2) (<[blk_addr ram b := blk_bytes m ram b]> live).
Proof.
  intros Ht Hu Hr a bs. rewrite lookup_insert_Some, (Hr a bs). split.
  - intros [[<- <-]|[Hne (c & Hc & ?)]]; [exists b|exists c]; (split; [|done]); apply elem_of_app.
    + right. by left.
    + apply elem_of_app in Hc as [|]; [by left|right; by right].
  - intros (c & Hc & Huc & -> & ->). destruct (decide (c = b)) as [->|Hne]; [by left|right].
    assert (c ∈ l1 ++ l2) as Hc'.
    { apply elem_of_app in Hc as [|[|]%elem_of_cons]; [apply elem_of_app; by left|done|apply elem_of_app; by right]. }
    split; [by eapply tiles_middle_addr|]. by exists c.
Qed.

Lemma rep_delete m ram l1 b l2 live p q :
  tiles p (l1 ++ b :: l2) q -> rep m ram (l1 ++ b :: l2) live ->
  rep m ram (l1 ++ l2) (delete (blk_addr ram b) live).
Proof.
  intros Ht Hr a bs. rewrite lookup_delete_Some, (Hr a bs). split.
  - intros [Hne (c & Hc & Huc & -> & ->)]. exists c. split_and!; try done.
    apply elem_of_app in Hc as [|[->|]%elem_of_cons]; [apply elem_of_app; by left|done|apply elem_of_app; by right].
  - intros (c & Hc & Huc & -> & ->). split; [by eapply tiles_middle_addr|]. exists c. split_and!; try done.
    apply elem_of_app in Hc as [|]; apply elem_of_app; [by left|right; by right].
Qed.
End rep.

Lemma length_blk_bytes m ram b : length (blk_bytes m ram b) = Z.to_nat (bk_size b).
Proof. apply length_slice. Qed.

(** ** What a client may do, and what the heap may answer *)

Inductive heap_op :=
  | OpMalloc (n : Z)
  | OpCalloc (count size : Z)
  | OpFree (p : Z)
  | OpTrim (p n : Z)
  | OpStore (p off : Z) (bs : list Z).  (* the client writes into its block *)

Definition heap_exec (h : heap) (op : heap_op) : outcome (option Z * heap) :=
  match op with
  | OpMalloc n => mem_malloc h n
  | OpCalloc count size => mem_calloc h count size
  | OpFree p => h ← mem_free h p; Ret (None, h)
  | OpTrim p n => mem_trim h p n
  | OpStore p off bs => Ret (None, hp_set_mem h (write_bytes (hp_mem h) (p + off) bs))
  end.

(** A new block: aligned, inside the heap, apart from every live block. *)
Record new_block (ram : Z) (live : gmap Z (list Z)) (n p : Z) (bs : list Z) : Prop := NewBlock {
  nb_fresh : live !! p = None;
  nb_size : n <= Z.of_nat (length bs);
  nb_aligned : p mod 4 = 0;
  nb_inside : ram + SIZEOF_STRUCT_MEM <= p /\ p + Z.of_nat (length bs) <= ram + MEM_SIZE_ALIGNED;
  nb_apart : forall q cs, live !! q = Some cs ->
    p + Z.of_nat (length bs) + SIZEOF_STRUCT_MEM <= q \/ q + Z.of_nat (length cs) + SIZEOF_STRUCT_MEM <= p }.

(** The bytes [cs] written over [bs] from [off]. *)
Definition overwrite (bs : list Z) (off : nat) (cs : list Z) : list Z :=
  take off bs ++ cs ++ drop (off + length cs) bs.

Inductive client_step (ram : Z) (live : gmap Z (list Z)) : heap_op -> option Z -> gmap Z (list Z) -> Prop :=
  | client_malloc n p bs :
      new_block ram live n p bs -> client_step ram live (OpMalloc n) (Some p) (<[p := bs]> live)
  | client_malloc_null n : client_step ram live (OpMalloc n) None live
  | client_calloc count size p bs :
      new_block ram live (count * size) p bs ->
      take (Z.to_nat (count * size)) bs = replicate (Z.to_nat (count * size)) 0 ->
      client_step ram live (OpCalloc count size) (Some p) (<[p := bs]> live)
  | client_calloc_null count size : client_step ram live (OpCalloc count size) None live
  | client_free p bs :
      live !! p = Some bs -> client_step ram live (OpFree p) None (delete p live)
  | client_free_null : client_step ram live (OpFree 0) None live
  | client_trim p n bs k :
      live !! p = Some bs -> n <= Z.of_nat k <= Z.of_nat (length bs) ->
      client_step ram live (OpTrim p n) (Some p) (<[p := take k bs]> live)
  | client_store p off bs cs :
      live !! p = Some bs -> client_step ram live (OpStore p off cs) None (<[p := overwrite bs (Z.to_nat off) cs]> live).

(** What the client has to keep to: sizes of 16 bits, pointers it was given and
    not yet freed, a trim that only shrinks, bytes in the block.  A trim of the
    last block of the heap that leaves room for a free block is not allowed:
    there [mem_trim] ends the process ([mem_trim_last]). *)
Definition allowed (ram : Z) (live : gmap Z (list Z)) (op : heap_op) : Prop :=
  match op with
  | OpMalloc n => 0 <= n < 65536
  | OpCalloc count size => 0 <= count < 65536 /\ 0 <= size < 65536
  | OpFree p => p = 0 \/ is_Some (live !! p)
  | OpTrim p n => exists bs, live !! p = Some bs /\ 0 <= n <= Z.of_nat (length bs) /\
      (p + Z.of_nat (length bs) < ram + MEM_SIZE_ALIGNED \/
       Z.of_nat (length bs) < request_size n + SIZEOF_STRUCT_MEM + MIN_SIZE_ALIGNED)
  | OpStore p off cs => exists bs, live !! p = Some bs /\ 0 <= off /\
      off + Z.of_nat (length cs) <= Z.of_nat (length bs)
  end.

(** ** The functions implement it *)

Lemma heap_rep_intro h l live : heap_ok h l -> rep (hp_mem h) (hp_ram h) l live -> heap_rep h live.
Proof. intros. by exists l. Qed.

(** A live address is that of a used block in the middle of the list. *)
Lemma heap_rep_lookup h live p bs :
  heap_rep h live -> live !! p = Some bs ->
  exists l1 b l2, heap_ok h (l1 ++ b :: l2) /\ rep (hp_mem h) (hp_ram h) (l1 ++ b :: l2) live /\
    bk_used b = true /\ p = blk_addr (hp_ram h) b /\ bs = blk_bytes (hp_mem h) (hp_ram h) b /\
    12 <= bk_size b /\ Z.of_nat (length bs) = bk_size b.
Proof.
  intros (l & Hok & Hr) Hp. destruct (proj1 (Hr p bs) Hp) as (b & Hb & Hu & -> & ->).
  destruct (tiles_elem _ _ _ _ (ho_tiles _ _ Hok) Hb) as (_ & ? & _).
  apply list_elem_of_split in Hb as (l1 & l2 & ->). exists l1, b, l2. rewrite length_blk_bytes.
  split_and!; (done || hlia).
Qed.

(** A used block put between [l1] and [l2] is a new block. *)
Lemma new_block_intro m ram l1 b l2 live n :
  0 < ram /\ ram mod 4 = 0 -> tiles 0 (l1 ++ b :: l2) MEM_SIZE_ALIGNED -> rep m ram (l1 ++ l2) live -> n <= bk_size b ->
  new_block ram live n (blk_addr ram b) (blk_bytes m ram b).
Proof.
  intros [Hr0 Hr4] Ht Hr Hn.
  assert (b ∈ l1 ++ b :: l2) as Hb by (apply elem_of_app; right; by left).
  destruct (tiles_elem _ _ _ _ Ht Hb) as (Hb0 & Hb1 & _ & Hb4 & _).
  assert (Z.of_nat (length (blk_bytes m ram b)) = bk_size b) as Hlen by (rewrite length_blk_bytes; hlia).
  assert (forall c, c ∈ l1 ++ l2 -> c ∈ l1 ++ b :: l2) as Hsub.
  { intros c [Hc|Hc]%elem_of_app; apply elem_of_app; [by left|right; by right]. }
  split; rewrite ?Hlen; [| |unfold blk_addr; heap_consts..|].
  - apply eq_None_not_Some. intros [bs (c & Hc & _ & Heq & _)%Hr]. by eapply tiles_middle_addr in Heq.
  - done.
  - repeat apply mod4_add; done.
  - hlia.
  - intros q cs (c & Hc & _ & -> & ->)%Hr. rewrite length_blk_bytes.
    destruct (tiles_elem _ _ _ _ Ht (Hsub _ Hc)) as (_ & ? & _).
    destruct (tiles_disjoint _ _ _ _ _ Ht Hb (Hsub _ Hc)) as [->|Hd].
    + exfalso. by apply (tiles_middle_addr _ _ _ _ _ ram _ Ht Hc).
    + unfold blk_addr. hlia.
Qed.

Lemma used_free_iff l1 e l2 b :
  Forall (fun c => bk_used c = false) e -> bk_used b = true -> b ∈ l1 ++ e ++ l2 <-> b ∈ l1 ++ l2.
Proof.
  intros He Hb. rewrite !elem_of_app. rewrite Forall_forall in He.
  assert (b ∉ e) by (intros Hin; specialize (He b Hin); congruence). tauto.
Qed.

(** The new block is known by its address, and what is written there is not
    written to any other. *)
Lemma mem_malloc_rep h live n :
  heap_rep h live -> 0 <= n < 65536 ->
  exists r h', mem_malloc h n = Ret (r, h') /\ hp_ram h' = hp_ram h /\
    match r with
    | None => heap_rep h' live
    | Some p => exists bs, new_block (hp_ram h) live n p bs /\ heap_rep h' (<[p := bs]> live)
    end.
Proof.
  intros (l & Hok & Hr) Hn.
  destruct (mem_malloc_spec h l n Hok Hn) as [(l1 & b & l2 & h' & Hn0 & -> & [Hf Hfit] & _ & Heq & Hok' & Hk & Hram)|(_ & h' & Heq & Hok' & Hm & Hram)].
  - exists (Some (hp_ram h + bk_ptr b + SIZEOF_STRUCT_MEM)), h'. split_and!; [done..|].
    destruct (request_size_ok n ltac:(lia)) as [Hs Hle].
    destruct (carve_cons (request_size n) b Hf Hs Hfit) as (q & e & Hc & Hq1 & Hq2 & He).
    rewrite Hc in Hok'. set (b' := Blk (bk_ptr b) q true) in *. cbn [app] in Hok'.
    assert (Forall (fun c => bk_used c = false) e) as Hef.
    { destruct He as [->|(f & -> & Hff & _)]; by repeat constructor. }
    assert (rep (hp_mem h') (hp_ram h) (l1 ++ e ++ l2) live) as Hr'.
    { apply rep_used_iff with (l1 ++ [b] ++ l2); [|by apply rep_kept with (hp_mem h)].
      intros c Hc'. rewrite !used_free_iff; [done|by repeat constructor|done|done|done]. }
    exists (blk_bytes (hp_mem h') (hp_ram h) b'). split.
    + apply (new_block_intro (hp_mem h') (hp_ram h) l1 b' (e ++ l2)); [by destruct (ho_ram _ _ Hok) as (? & ? & _)| |done|].
      * apply (ho_tiles _ _ Hok').
      * unfold b', bk_size. cbn [bk_next bk_ptr]. hlia.
    + eapply heap_rep_intro; [exact Hok'|]. rewrite Hram. eapply rep_insert; [apply (ho_tiles _ _ Hok')|done|done].
  - exists None, h'. split_and!; [done..|]. eapply heap_rep_intro; [done|]. by rewrite Hm, Hram.
Qed.

Lemma mem_free_rep h live p bs :
  heap_rep h live -> live !! p = Some bs ->
  exists h', mem_free h p = Ret h' /\ hp_ram h' = hp_ram h /\ heap_rep h' (delete p live) /\
    mem_used (hp_mem h') (p - SIZEOF_STRUCT_MEM) = 0.
Proof.
  intros Hrep Hp. destruct (heap_rep_lookup _ _ _ _ Hrep Hp) as (l1 & b & l2 & Hok & Hr & Hu & -> & _).
  destruct (mem_free_spec h l1 b l2 Hok Hu) as (h' & Heq & Hok' & Hk & Hram & Hu' & Hiff).
  exists h'. split_and!; [done..| |].
  - eapply heap_rep_intro; [exact Hok'|]. rewrite Hram. apply rep_used_iff with (l1 ++ unuse b :: l2); [done|].
    apply rep_kept with (hp_mem h); [done|]. apply rep_used_iff with (l1 ++ l2).
    + intros c Hc. apply (used_free_iff l1 [unuse b] l2 c); [by repeat constructor|done].
    + eapply rep_delete; [apply (ho_tiles _ _ Hok)|done].
  - unfold blk_addr. by replace (hp_ram h + bk_ptr b + SIZEOF_STRUCT_MEM - SIZEOF_STRUCT_MEM) with (hp_ram h + bk_ptr b) by lia.
Qed.

Lemma trimmed_shape l1 b l2 n :
  bk_used b = true -> n <= bk_size b ->
  exists b' l3, trimmed l1 b l2 n = l1 ++ b' :: l3 /\ bk_ptr b' = bk_ptr b /\ bk_used b' = true /\
    n <= bk_size b' <= bk_size b /\ (forall c, bk_used c = true -> c ∈ l1 ++ l3 <-> c ∈ l1 ++ l2).
Proof.
  intros Hu Hn. unfold trimmed. destruct (Z.eqb_spec n (bk_size b)); [exists b, l2; split_and!; (done || lia)|].
  destruct l2 as [|c l2]; [exists b, []; split_and!; (done || lia)|].
  assert (n <= bk_size (Blk (bk_ptr b) (bk_ptr b + SIZEOF_STRUCT_MEM + n) true) <= bk_size b) as Hsz
    by (unfold bk_size; cbn [bk_next bk_ptr]; hlia).
  destruct (bk_used c) eqn:Hc; [destruct (_ <=? _); [|exists b, (c :: l2); split_and!; (done || lia)]|];
    do 2 eexists; split_and!; try done; try apply Hsz.
  - intros d Hd. by apply (used_free_iff l1 [_] (c :: l2)); [repeat constructor|].
  - intros d Hd. transitivity (d ∈ l1 ++ l2); [|symmetry].
    + by apply (used_free_iff l1 [_] l2); [repeat constructor|].
    + by apply (used_free_iff l1 [c] l2); [repeat constructor|].
Qed.

Lemma mem_trim_rep h live p bs n :
  heap_rep h live -> live !! p = Some bs -> 0 <= n <= Z.of_nat (length bs) ->
  p + Z.of_nat (length bs) < hp_ram h + MEM_SIZE_ALIGNED \/
    Z.of_nat (length bs) < request_size n + SIZEOF_STRUCT_MEM + MIN_SIZE_ALIGNED ->
  exists k h', mem_trim h p n = Ret (Some p, h') /\ hp_ram h' = hp_ram h /\
    n <= Z.of_nat k <= Z.of_nat (length bs) /\ heap_rep h' (<[p := take k bs]> live).
Proof.
  intros Hrep Hp Hn Hlast. destruct (heap_rep_lookup _ _ _ _ Hrep Hp) as (l1 & b & l2 & Hok & Hr & Hu & -> & -> & Hb12 & Hlen).
  rewrite Hlen in *.
  destruct (mem_trim_spec h l1 b l2 n Hok Hu ltac:(lia)) as (h' & Heq & Hok' & Hk & Hram).
  { intros [-> Hroom]. pose proof (ho_tiles _ _ Hok) as (_ & _ & Hend)%tiles_middle. cbn [tiles] in Hend.
    unfold blk_addr, bk_size in Hlast. rewrite Hend in Hlast. unfold bk_size in Hroom. rewrite Hend in Hroom. lia. }
  pose proof (ho_tiles _ _ Hok) as (_ & Hbo & _)%tiles_middle. pose proof (request_size_le n b Hbo ltac:(lia)) as Hle.
  destruct (request_size_ok n ltac:(lia)) as [_ Hrn].
  destruct (trimmed_shape l1 b l2 (request_size n) Hu Hle) as (b' & l3 & Htr & Hptr & Hu' & Hsz & Hiff).
  rewrite Htr in Hok', Hk. assert (blk_addr (hp_ram h) b' = blk_addr (hp_ram h) b) as Ha by (unfold blk_addr; lia).
  assert (blk_bytes (hp_mem h) (hp_ram h) b' = take (Z.to_nat (bk_size b')) (blk_bytes (hp_mem h) (hp_ram h) b)) as Hbytes.
  { unfold blk_bytes. rewrite take_slice, Ha. f_equal. lia. }
  exists (Z.to_nat (bk_size b')), h'. split_and!; [exact Heq|done|lia|lia|].
  eapply heap_rep_intro; [exact Hok'|]. rewrite Hram. apply rep_kept with (hp_mem h); [done|].
  rewrite <- Hbytes, <- insert_delete_eq, <- Ha.
  eapply rep_insert; [apply (ho_tiles _ _ Hok')|done|]. rewrite Ha. apply rep_used_iff with (l1 ++ l2); [done|].
  eapply rep_delete; [apply (ho_tiles _ _ Hok)|done].
Qed.

(** Bytes inside a used block are no part of any header. *)
Lemma heap_ok_payload h l1 b l2 m' :
  heap_ok h (l1 ++ b :: l2) ->
  (forall x, ~ blk_addr (hp_ram h) b <= x < blk_addr (hp_ram h) b + bk_size b -> m' x = hp_mem h x) ->
  heap_ok (hp_set_mem h m') (l1 ++ b :: l2).
Proof.
  intros [Hram He Heu Ht Hl Hh Hlow Hst] Hm.
  assert (b ∈ l1 ++ b :: l2) as Hb by (apply elem_of_app; right; by left).
  destruct (tiles_elem _ _ _ _ Ht Hb) as (? & ? & _). unfold blk_addr in Hm.
  split; cbn [hp_set_mem hp_mem hp_ram hp_ram_end hp_lfree hp_stats]; try done.
  - rewrite <- Heu. symmetry. apply mem_used_ext. intros x Hx. symmetry. apply Hm. hlia.
  - refine (heap_links_ext _ _ _ _ _ _ Hl). intros c Hc x Hx. symmetry. apply Hm.
    destruct (tiles_elem _ _ _ _ Ht Hc) as (? & ? & _).
    destruct (tiles_disjoint _ _ _ _ _ Ht Hb Hc) as [<-|?]; hlia.
Qed.

Lemma store_rep h live p bs off cs m' :
  heap_rep h live -> live !! p = Some bs -> 0 <= off -> off + Z.of_nat (length cs) <= Z.of_nat (length bs) ->
  same_mem m' (write_bytes (hp_mem h) (p + off) cs) ->
  heap_rep (hp_set_mem h m') (<[p := overwrite bs (Z.to_nat off) cs]> live).
Proof.
  intros Hrep Hp Hoff Hlen Hm. destruct (heap_rep_lookup _ _ _ _ Hrep Hp) as (l1 & b & l2 & Hok & Hr & Hu & -> & -> & Hb12 & Hbl).
  rewrite Hbl in *.
  assert (forall x, ~ blk_addr (hp_ram h) b <= x < blk_addr (hp_ram h) b + bk_size b -> m' x = hp_mem h x) as Hout.
  { intros x Hx. rewrite (Hm x). unfold write_bytes. ztest; cbn [andb]; (done || lia). }
  pose proof (heap_ok_payload _ _ _ _ _ Hok Hout) as Hok'. pose proof (ho_tiles _ _ Hok) as Ht.
  eapply heap_rep_intro; [exact Hok'|]. cbn [hp_set_mem hp_mem hp_ram].
  assert (overwrite (blk_bytes (hp_mem h) (hp_ram h) b) (Z.to_nat off) cs = blk_bytes m' (hp_ram h) b) as ->.
  { unfold blk_bytes, overwrite. rewrite take_slice, drop_slice.
    rewrite (slice_split m' _ off (bk_size b)) by lia.
    rewrite (slice_split m' (_ + off) (Z.of_nat (length cs)) (bk_size b - off)) by lia. f_equal; [|f_equal].
    - rewrite Z2Nat.id, Z.min_l by lia. apply slice_ext. intros k Hk. symmetry. rewrite (Hm _).
      unfold write_bytes. ztest; cbn [andb]; (done || lia).
    - by rewrite (slice_same_mem _ _ _ _ Hm), slice_write_bytes.
    - rewrite Nat2Z.inj_add, Z2Nat.id by lia. rewrite !Z.add_assoc, !Z.sub_add_distr. apply slice_ext.
      intros k Hk. symmetry. rewrite (Hm _). unfold write_bytes. ztest; cbn [andb]; (done || lia). }
  rewrite <- insert_delete_eq. eapply rep_insert; [exact Ht|done|].
  apply rep_bytes with (hp_mem h); [|by eapply rep_delete].
  intros c Hc Huc. unfold blk_bytes. apply slice_ext. intros k Hk. symmetry. apply Hout.
  assert (b ∈ l1 ++ b :: l2) as Hb by (apply elem_of_app; right; by left).
  assert (c ∈ l1 ++ b :: l2) as Hc' by (apply elem_of_app in Hc as []; apply elem_of_app; [by left|right; by right]).
  pose proof (tiles_middle_addr _ _ _ _ _ (hp_ram h) _ Ht Hc) as Hne.
  destruct (tiles_disjoint _ _ _ _ _ Ht Hb Hc') as [->|?]; [done|]. unfold blk_addr, bk_size in *. hlia.
Qed.

Lemma mem_calloc_rep h live count size :
  heap_rep h live -> 0 <= count < 65536 -> 0 <= size < 65536 ->
  exists r h', mem_calloc h count size = Ret (r, h') /\ hp_ram h' = hp_ram h /\
    match r with
    | None => heap_rep h' live
    | Some p => exists bs, new_block (hp_ram h) live (count * size) p bs /\
        take (Z.to_nat (count * size)) bs = replicate (Z.to_nat (count * size)) 0 /\ heap_rep h' (<[p := bs]> live)
    end.
Proof.
  intros Hrep Hc Hs. unfold mem_calloc. assert (0 <= count * size < 65536 * 65536) as Hcs by nia.
  rewrite u64_small by lia. destruct (Z.eqb_spec (u16 (count * size)) (count * size)) as [Heq|]; cbn [negb];
    [|by exists None, h].
  rewrite Heq. pose proof (u16_range (count * size)).
  destruct (mem_malloc_rep h live (count * size) Hrep ltac:(lia)) as ([p|] & h' & -> & Hram & Hr);
    cbn [mbind outcome_bind]; [|by exists None, h'].
  destruct Hr as (bs & [Hf Hsz Ha Hi Hap] & Hr). set (n := Z.to_nat (count * size)).
  exists (Some p), (hp_set_mem h' (memset (hp_mem h') p 0 (count * size))). split_and!; [done..|].
  exists (overwrite bs 0 (replicate n 0)).
  assert (length (overwrite bs 0 (replicate n 0)) = length bs) as Hlen.
  { unfold overwrite. rewrite !length_app, length_take, length_drop, length_replicate. lia. }
  split_and!.
  - split; rewrite ?Hlen; done.
  - unfold overwrite. rewrite take_0, app_nil_l. apply take_app_length'. by rewrite length_replicate.
  - rewrite <- (insert_insert_eq live p _ bs).
    apply (store_rep h' _ p bs 0); [done|apply lookup_insert_eq|lia|rewrite length_replicate; lia|].
    intros x. unfold memset, write_bytes, n. rewrite length_replicate, Z.add_0_r, Z2Nat.id by lia.
    destruct (Z.leb_spec p x), (Z.ltb_spec x (p + count * size)); cbn [andb]; try done.
    by rewrite lookup_replicate_2 by lia.
Qed.

Lemma heap_exec_step h live op :
  heap_rep h live -> allowed (hp_ram h) live op ->
  exists r h' live', heap_exec h op = Ret (r, h') /\ client_step (hp_ram h) live op r live' /\
    heap_rep h' live' /\ hp_ram h' = hp_ram h.
Proof.
  intros Hrep Hal. destruct op as [n|count size|p|p n|p off cs]; cbn [allowed heap_exec] in *.
  - destruct (mem_malloc_rep h live n Hrep Hal) as ([p|] & h' & -> & Hram & Hr).
    + destruct Hr as (bs & Hb & Hr). exists (Some p), h', (<[p := bs]> live). split_and!; (done || by constructor).
    + exists None, h', live. split_and!; (done || constructor).
  - destruct Hal. destruct (mem_calloc_rep h live count size Hrep) as ([p|] & h' & -> & Hram & Hr); [done..| |].
    + destruct Hr as (bs & Hb & Hz & Hr). exists (Some p), h', (<[p := bs]> live). split_and!; (done || by constructor).
    + exists None, h', live. split_and!; (done || constructor).
  - destruct Hal as [->|[bs Hp]].
    + exists None, h, live. split_and!; (done || constructor).
    + destruct (mem_free_rep h live p bs Hrep Hp) as (h' & -> & Hram & Hr & _).
      exists None, h', (delete p live). split_and!; (done || by econstructor).
  - destruct Hal as (bs & Hp & Hn & Hlast).
    destruct (mem_trim_rep h live p bs n Hrep Hp Hn Hlast) as (k & h' & -> & Hram & Hk & Hr).
    exists (Some p), h', (<[p := take k bs]> live). split_and!; (done || by constructor).
  - destruct Hal as (bs & Hp & Hoff & Hlen). eexists None, _, _. split_and!; [done|by constructor| |done].
    by apply store_rep.
Qed.

(** ** The contract *)

(** What a client knows of its blocks: their addresses, and how long they are. *)
Definition block_len (h : heap) (p : Z) : Z :=
  mem_next (hp_mem h) (p - SIZEOF_STRUCT_MEM) - mem_to_ptr h (p - SIZEOF_STRUCT_MEM) - SIZEOF_STRUCT_MEM.

(** The contract, checked before each call for the addresses the client holds. *)
Definition may_call (h : heap) (held : list Z) (op : heap_op) : bool :=
  match op with
  | OpMalloc n => (0 <=? n) && (n <? 65536)
  | OpCalloc count size => (0 <=? count) && (count <? 65536) && (0 <=? size) && (size <? 65536)
  | OpFree p => (p =? 0) || bool_decide (p ∈ held)
  | OpTrim p n =>
      bool_decide (p ∈ held) && (0 <=? n) && (n <=? block_len h p) &&
      ((p + block_len h p <? hp_ram h + MEM_SIZE_ALIGNED) ||
       (block_len h p <? request_size n + SIZEOF_STRUCT_MEM + MIN_SIZE_ALIGNED))
  | OpStore p off cs => bool_decide (p ∈ held) && (0 <=? off) && (off + Z.of_nat (length cs) <=? block_len h p)
  end.

Definition held_after (held : list Z) (op : heap_op) (r : option Z) : list Z :=
  match op, r with
  | OpMalloc _, Some p | OpCalloc _ _, Some p => p :: held
  | OpFree p, _ => filter (fun q => q <> p) held
  | _, _ => held
  end.

Definition holds (held : list Z) (live : gmap Z (list Z)) : Prop := forall p, p ∈ held <-> is_Some (live !! p).

Lemma block_len_live h live p bs :
  heap_rep h live -> live !! p = Some bs -> block_len h p = Z.of_nat (length bs).
Proof.
  intros Hrep Hp. destruct (heap_rep_lookup _ _ _ _ Hrep Hp) as (l1 & b & l2 & Hok & _ & _ & -> & _ & _ & ->).
  destruct (chained_middle _ _ l1 b l2 (Chained _ _ _ (ho_tiles _ _ Hok) (ho_links _ _ Hok))) as (Hn & _ & _ & _ & _ & _ & _ & ? & ?).
  unfold block_len, blk_addr. replace (hp_ram h + bk_ptr b + SIZEOF_STRUCT_MEM - SIZEOF_STRUCT_MEM) with (hp_ram h + bk_ptr b) by lia.
  rewrite Hn, mem_to_ptr_index by lia. done.
Qed.

(** A live block holds its bytes. *)
Lemma heap_rep_slice h live p bs :
  heap_rep h live -> live !! p = Some bs -> slice (hp_mem h) p (Z.of_nat (length bs)) = bs.
Proof.
  intros Hrep Hp. destruct (heap_rep_lookup _ _ _ _ Hrep Hp) as (l1 & b & l2 & _ & _ & _ & -> & Hb & _ & ->).
  by rewrite Hb.
Qed.

Lemma may_call_allowed h held live op :
  heap_rep h live -> holds held live -> may_call h held op = true -> allowed (hp_ram h) live op.
Proof.
  intros Hrep Hh. assert (forall p, bool_decide (p ∈ held) = true -> exists bs, live !! p = Some bs /\ block_len h p = Z.of_nat (length bs)) as Hp.
  { intros p [bs Hp]%bool_decide_eq_true%Hh. exists bs. split; [done|]. by eapply block_len_live. }
  destruct op as [n|count size|p|p n|p off cs]; cbn [may_call allowed]; rewrite ?andb_true_iff, ?orb_true_iff.
  - intros [?%Z.leb_le ?%Z.ltb_lt]. lia.
  - intros [[[?%Z.leb_le ?%Z.ltb_lt] ?%Z.leb_le] ?%Z.ltb_lt]. lia.
  - intros [?%Z.eqb_eq|(bs & ? & _)%Hp]; [by left|right; by exists bs].
  - intros [[[(bs & ? & Hlen)%Hp ?%Z.leb_le] Hn%Z.leb_le] Hlast]. rewrite Hlen in *. exists bs. split_and!; [done..|].
    destruct Hlast as [?%Z.ltb_lt|?%Z.ltb_lt]; [by left|by right].
  - intros [[(bs & ? & Hlen)%Hp ?%Z.leb_le] ?%Z.leb_le]. rewrite Hlen in *. by exists bs.
Qed.

Lemma heap_rep_null h live : heap_rep h live -> live !! 0 = None.
Proof.
  intros Hrep. apply eq_None_not_Some. intros [bs Hp].
  destruct (heap_rep_lookup _ _ _ _ Hrep Hp) as (l1 & b & l2 & Hok & _ & _ & Ha & _).
  pose proof (ho_ram _ _ Hok) as [? _]. pose proof (ho_tiles _ _ Hok) as (?%tiles_le & _)%tiles_middle.
  unfold blk_addr in Ha. hlia.
Qed.

Lemma holds_after ram held live op r live' :
  live !! 0 = None -> holds held live -> client_step ram live op r live' -> holds (held_after held op r) live'.
Proof.
  intros H0 Hh Hst p. specialize (Hh p).
  destruct Hst as [n q bs _|n|c s q bs _ _|c s|q bs Hq| |q n bs k Hq _|q off bs cs Hq]; cbn [held_after];
    rewrite ?elem_of_cons, ?list_elem_of_filter, ?lookup_insert_is_Some, ?lookup_delete_is_Some.
  all: try (destruct (decide (q = p)) as [->|Hne]).
  all: rewrite ?Hh, ?Hq; try tauto; try by intuition eauto.
  split; [tauto|]. intros [bs Hp]. split; [congruence|by exists bs].
Qed.

(** The heap, what the client holds and the live blocks. *)
Definition heap_rel (ram : Z) (h : heap) (held : list Z) (live : gmap Z (list Z)) : Prop :=
  heap_rep h live /\ holds held live /\ hp_ram h = ram.

Lemma heap_call_refines ram :
  call_refines heap_exec (client_step ram) may_call held_after (heap_rel ram).
Proof.
  intros h held live op (Hrep & Hh & <-) Hmay.
  pose proof (may_call_allowed _ _ _ _ Hrep Hh Hmay) as Hal.
  destruct (heap_exec_step h live op Hrep Hal) as (r & h' & live' & Heq & Hst & Hrep' & Hram).
  exists r, h', live'. split_and!; [done..|]. split_and!; [done| |done].
  eapply (holds_after _ _ live); [by apply (heap_rep_null h)|done|exact Hst].
Qed.

(** ** Nothing is lost *)

Lemma rep_empty_free m ram l b : rep m ram l ∅ -> b ∈ l -> bk_used b = false.
Proof.
  intros Hr Hb. destruct (bk_used b) eqn:Hu; [|done].
  assert (Hx : (∅ : gmap Z (list Z)) !! blk_addr ram b = Some (blk_bytes m ram b)) by (apply Hr; by exists b).
  by rewrite lookup_empty in Hx.
Qed.

(** With nothing live the heap is one free block again. *)
Lemma heap_rep_empty h : heap_rep h ∅ -> heap_ok h [Blk 0 MEM_SIZE_ALIGNED false].
Proof.
  intros (l & Hok & Hr). pose proof (ho_tiles _ _ Hok) as Ht. pose proof (ho_no_holes _ _ Hok) as Hh.
  destruct l as [|b l]; [done|]. pose proof (rep_empty_free _ _ _ b Hr ltac:(by left)) as Hb.
  destruct l as [|c l].
  - destruct Ht as (Hp & _ & Hn). destruct b as [p q u]. cbn in *. by subst.
  - pose proof (rep_empty_free _ _ _ c Hr ltac:(right; by left)) as Hc. destruct Hh as [[?|?] _]; congruence.
Qed.

Lemma heap_whole h n :
  heap_ok h [Blk 0 MEM_SIZE_ALIGNED false] -> 0 < n <= MEM_SIZE_ALIGNED - SIZEOF_STRUCT_MEM ->
  exists h', mem_malloc h n = Ret (Some (hp_ram h + SIZEOF_STRUCT_MEM), h').
Proof.
  intros Hok Hn. assert (fits (request_size n) (Blk 0 MEM_SIZE_ALIGNED false)) as Hfit.
  { split; [done|]. apply request_size_le; [by apply blk_ok_intro|]. unfold bk_size. cbn [bk_next bk_ptr]. lia. }
  destruct (mem_malloc_spec h _ n Hok ltac:(hlia)) as [(l1 & b & l2 & h' & _ & Hl & _ & _ & -> & _)|[[->|Hno] _]].
  - destruct l1 as [|? [|]]; [|done..]. injection Hl as <- _. exists h'. cbn [bk_ptr]. by rewrite Z.add_0_r.
  - lia.
  - by apply Forall_cons in Hno as [? _].
Qed.

Lemma mem_init_rep h ram_heap :
  0 < ram_heap < 18446744073709500000 -> ms_used (hp_stats h) = 0 ->
  exists h', mem_init h ram_heap = Ret h' /\ heap_rep h' ∅ /\ hp_ram h' = LWIP_MEM_ALIGN ram_heap.
Proof.
  intros Hr Hs. destruct (mem_init_spec h ram_heap Hr Hs) as (h' & Heq & Hok & Hram). exists h'. split_and!; [done| |done].
  eapply heap_rep_intro; [done|]. intros a bs. rewrite lookup_empty. split; [done|].
  by intros (b & ->%list_elem_of_singleton & ? & _).
Qed.

(** ** The theorems *)

(** C34. From [mem_init] on, every sequence of calls of a client that keeps to
    the contract [may_call] returns, without assertion failure, undefined read or
    endless search, and does what [client_step] says: a new block is aligned, inside
    the heap and apart from every live one, and zero if it comes from [mem_calloc]; no
    call changes the bytes of a live block but the store into it; a trim keeps the
    front of a block; freed blocks can be given out again.  After the sequence,
    which may end anywhere, every live address holds the bytes that the
    specification has for it.  When the client has freed everything the heap is
    whole again: any size up to that of the heap less one header is granted, and
    no byte is counted as used.  The contract leaves out what ends the process, C36,
    also the trims of the last block that the interface allows. *)
Theorem heap_refines_client (h : heap) (ram_heap : Z) (ops : list heap_op) :
  0 < ram_heap < 18446744073709500000 -> ms_used (hp_stats h) = 0 ->
  (forall h0, mem_init h ram_heap = Ret h0 -> keeps_contract heap_exec may_call held_after h0 [] ops = true) ->
  exists h0 rs h' live',
    mem_init h ram_heap = Ret h0 /\ run_calls heap_exec h0 ops = Ret (rs, h') /\
    spec_run (client_step (hp_ram h0)) ∅ ops rs live' /\
    (forall p bs, live' !! p = Some bs -> slice (hp_mem h') p (Z.of_nat (length bs)) = bs) /\
    (live' = ∅ -> ms_used (hp_stats h') = 0 /\
      forall n, 0 < n <= MEM_SIZE_ALIGNED - SIZEOF_STRUCT_MEM ->
      exists h2, mem_malloc h' n = Ret (Some (hp_ram h' + SIZEOF_STRUCT_MEM), h2)).
Proof.
  intros Hr Hs Hk. destruct (mem_init_rep h ram_heap Hr Hs) as (h0 & Hinit & Hrep & _).
  destruct (run_calls_refines _ _ _ _ _ ops h0 [] ∅ (heap_call_refines (hp_ram h0)))
    as (rs & h' & held & live' & Hrun & Hcl & (Hrep' & _ & _)); [|by apply Hk|].
  { split_and!; [done| |done]. intros p. rewrite lookup_empty, elem_of_nil. split; [done|by intros []]. }
  exists h0, rs, h', live'. split_and!; [done|done|done|intros p bs; by apply heap_rep_slice|]. intros ->. pose proof (heap_rep_empty _ Hrep') as Hok.
  split; [by rewrite (ho_stats _ _ Hok)|]. intros n Hn. by apply heap_whole.
Qed.

(** Twelve bytes between two other blocks, written, cut and freed. *)
Definition example_ops : list heap_op :=
  [OpMalloc 10; OpMalloc 100; OpStore 1032 96 [1; 2; 3; 4]; OpCalloc 5 4; OpTrim 1032 20; OpFree 1012; OpMalloc 9;
   OpMalloc 65000; OpFree 1032; OpFree 1012; OpFree 0; OpFree 1140].

Definition example_heap : heap := Heap (fun _ => 7) 0 0 0 (StatsMem 0 0 0 0 0).
Definition example_answers : list (option Z) :=
  [Some 1012; Some 1032; None; Some 1140; Some 1032; None; Some 1012; None; None; None; None; None].

Example example_contract :
  match mem_init example_heap 1001 with Ret h0 => keeps_contract heap_exec may_call held_after h0 [] example_ops | _ => false end = true.
Proof. by vm_compute. Qed.

Example example_run :
  match mem_init example_heap 1001 with
  | Ret h0 => match run_calls heap_exec h0 example_ops with Ret (rs, _) => rs | _ => [] end
  | _ => []
  end = example_answers.
Proof. by vm_compute. Qed.

Lemma heap_refines_client_witness :
  exists h0 rs h', mem_init example_heap 1001 = Ret h0 /\ run_calls heap_exec h0 example_ops = Ret (rs, h') /\
    rs = example_answers.
Proof.
  destruct (heap_refines_client example_heap 1001 example_ops) as (h0 & rs & h' & live' & Hinit & Hrun & _).
  - lia.
  - done.
  - intros h0 Hi. pose proof example_contract as Hc. by rewrite Hi in Hc.
  - exists h0, rs, h'. split; [exact Hinit|]. split; [exact Hrun|].
    pose proof example_run as Hr. by rewrite Hinit, Hrun in Hr.
Defined.

(** A trim that would grow the block. *)
Lemma mem_trim_grow h live p bs n :
  heap_rep h live -> live !! p = Some bs -> Z.of_nat (length bs) < n < 65536 ->
  mem_trim h p n = if MEM_SIZE_ALIGNED <? request_size n then Ret (None, h) else Exited 134.
Proof.
  intros Hrep Hp Hn. destruct (heap_rep_lookup _ _ _ _ Hrep Hp) as (l1 & b & l2 & Hok & _ & Hu & -> & _ & Hb12 & Hlen).
  rewrite Hlen in Hn. pose proof Hok as [Hram He Heu Ht Hlk _ _ _].
  destruct (chained_middle _ _ _ _ _ (Chained _ _ _ Ht Hlk)) as (Hbn & _ & _ & _ & _ & Hb & Ht2 & Hb0 & Hbr).
  destruct (request_size_ok n ltac:(lia)) as [_ Hrn]. unfold blk_addr.
  assert (bk_size b = bk_next b - bk_ptr b - 8) as Hsz by hlia.
  unfold mem_trim. pose proof (aligned_request_spec n ltac:(lia)) as Ha.
  destruct ((MEM_SIZE_ALIGNED <? aligned_request n) || (aligned_request n <? n)).
  { by rewrite (proj2 (Z.ltb_lt _ _) Ha). }
  destruct Ha as [-> Hmax]. rewrite (proj2 (Z.ltb_ge _ _) Hmax).
  destruct (Z.leb_spec (hp_ram h) (hp_ram h + bk_ptr b + SIZEOF_STRUCT_MEM)); [|hlia].
  destruct (Z.ltb_spec (hp_ram h + bk_ptr b + SIZEOF_STRUCT_MEM) (hp_ram_end h)); [|hlia].
  cbn [andb LWIP_ASSERT mbind outcome_bind].
  destruct (Z.ltb_spec (hp_ram h + bk_ptr b + SIZEOF_STRUCT_MEM) (hp_ram h)); [hlia|].
  destruct (Z.leb_spec (hp_ram_end h) (hp_ram h + bk_ptr b + SIZEOF_STRUCT_MEM)); [hlia|]. cbn [orb].
  replace (hp_ram h + bk_ptr b + SIZEOF_STRUCT_MEM - SIZEOF_STRUCT_MEM) with (hp_ram h + bk_ptr b) by lia.
  rewrite Hbn, mem_to_ptr_index by lia. rewrite (u16_small (bk_next b - bk_ptr b)) by lia.
  assert (u16 (bk_next b - bk_ptr b - SIZEOF_STRUCT_MEM) = bk_size b) as -> by (rewrite u16_small; hlia).
  by rewrite (proj2 (Z.leb_gt (request_size n) (bk_size b))) by lia.
Qed.

(** C36. What the heap does outside of its contract.  [mem_free] ignores [NULL]; a
    pointer that is not aligned or not inside the heap, and a block that was just
    freed, end the process in an assertion.  [mem_trim] to more than the block has
    answers [NULL] when that is more than the heap, and ends the process
    otherwise; so does shrinking the last block of the heap when a free block
    would fit behind it, although the interface allows that (the assertion of that
    branch takes the end of the heap for an invalid link). *)
Theorem mem_free_errors (h : heap) (live : gmap Z (list Z)) (p : Z) :
  heap_rep h live ->
  mem_free h 0 = Ret h /\
  (0 < p -> p mod MEM_ALIGNMENT <> 0 -> mem_free h p = Exited 134) /\
  (0 < p -> p < hp_ram h + SIZEOF_STRUCT_MEM \/ hp_ram h + MEM_SIZE_ALIGNED < p + MIN_SIZE_ALIGNED -> mem_free h p = Exited 134) /\
  (forall bs, live !! p = Some bs ->
    (exists h', mem_free h p = Ret h' /\ heap_rep h' (delete p live) /\ mem_free h' p = Exited 134) /\
    (forall n, Z.of_nat (length bs) < n < 65536 ->
      mem_trim h p n = if MEM_SIZE_ALIGNED <? request_size n then Ret (None, h) else Exited 134) /\
    (forall n, 0 <= n <= Z.of_nat (length bs) ->
      p + Z.of_nat (length bs) = hp_ram h + MEM_SIZE_ALIGNED ->
      request_size n + SIZEOF_STRUCT_MEM + MIN_SIZE_ALIGNED <= Z.of_nat (length bs) ->
      mem_trim h p n = Exited 134)).
Proof.
  intros Hrep. assert (hp_ram_end h = hp_ram h + MEM_SIZE_ALIGNED) as He by (by destruct Hrep as (l & [] & _)).
  assert (0 < p -> forall h, negb (Z.land p (MEM_ALIGNMENT - 1) =? 0) || ((p - SIZEOF_STRUCT_MEM <? hp_ram h) || (hp_ram_end h <? p + MIN_SIZE_ALIGNED))
    || (mem_used (hp_mem h) (p - SIZEOF_STRUCT_MEM) =? 0) = true -> mem_free h p = Exited 134) as Hill.
  { intros Hp0 h'. unfold mem_free. destruct (Z.eqb_spec p 0); [lia|].
    destruct (negb (Z.land _ _ =? 0)); [done|].
    destruct ((p - SIZEOF_STRUCT_MEM <? hp_ram h') || (hp_ram_end h' <? p + MIN_SIZE_ALIGNED)); [done|].
    cbn [orb]. by destruct (mem_used _ _ =? 0). }
  split_and!; [done|..].
  - intros Hp0 Hne. apply Hill; [done|]. change (MEM_ALIGNMENT - 1) with 3. rewrite land3. by destruct (Z.eqb_spec (p mod 4) 0).
  - intros Hp0 Hout. apply Hill; [done|]. rewrite He.
    destruct (Z.ltb_spec (p - SIZEOF_STRUCT_MEM) (hp_ram h)), (Z.ltb_spec (hp_ram h + MEM_SIZE_ALIGNED) (p + MIN_SIZE_ALIGNED));
      try lia; by rewrite ?orb_true_r.
  - intros bs Hp. split_and!.
    + destruct (mem_free_rep h live p bs Hrep Hp) as (h' & Heq & _ & Hrep' & Hu). exists h'. split_and!; [done..|].
      apply Hill; [|by rewrite Hu, orb_true_r]. destruct (heap_rep_lookup _ _ _ _ Hrep Hp) as (l1 & b & l2 & Hok & _ & _ & -> & _).
      pose proof (ho_ram _ _ Hok) as [? _]. pose proof (ho_tiles _ _ Hok) as (?%tiles_le & _)%tiles_middle.
      unfold blk_addr. hlia.
    + intros n Hn. by eapply mem_trim_grow.
    + intros n Hn Hend Hroom. destruct (heap_rep_lookup _ _ _ _ Hrep Hp) as (l1 & b & l2 & Hok & _ & Hu & -> & _ & _ & Hlen).
      rewrite Hlen in *. apply (mem_trim_last h l1 b l2); [done..|]. split; [|done].
      destruct l2 as [|c l2]; [done|]. pose proof (ho_tiles _ _ Hok) as (_ & _ & _ & Hc%blk_ok_room & Hle%tiles_le)%tiles_middle.
      exfalso. pose proof (ho_tiles _ _ Hok) as (_ & _ & Hcp & _)%tiles_middle. unfold blk_addr, bk_size in Hend. lia.
Qed.

(** The only block of the heap, as large as it can be. *)
Lemma mem_free_errors_witness :
  exists h, example_init = Ret h /\ exists h', mem_malloc h 10232 = Ret (Some 1012, h') /\ mem_trim h' 1012 100 = Exited 134 /\
    mem_trim h' 1012 20000 = Ret (None, h') /\ mem_trim h' 1012 10236 = Exited 134 /\
    mem_free h' 1014 = Exited 134 /\ exists h'', mem_free h' 1012 = Ret h'' /\ mem_free h'' 1012 = Exited 134.
Proof.
  destruct (mem_init_rep example_heap 1001) as (h & Hi & Hrep & Hram); [lia|done|].
  exists h. split; [exact Hi|]. change (LWIP_MEM_ALIGN 1001) with 1004 in Hram.
  destruct (heap_whole h 10232 (heap_rep_empty h Hrep)) as (h1 & Hm1); [by split|]. rewrite Hram in Hm1.
  destruct (mem_malloc_rep h ∅ 10232 Hrep ltac:(lia)) as (r & h' & Hm & Hram' & Hr).
  rewrite Hm1 in Hm. injection Hm as <- <-. destruct Hr as (bs & [_ Hsz _ [Hin1 Hin2] _] & Hr).
  exists h1. split; [exact Hm1|]. rewrite Hram in *.
  assert (Z.of_nat (length bs) = 10232) as Hlen by (rewrite sizeof_struct_mem, mem_size_aligned in *; lia).
  destruct (mem_free_errors h1 _ 1012 Hr) as (_ & _ & _ & H3). rewrite Hram' in H3.
  destruct (H3 bs ltac:(apply lookup_insert_eq)) as ((h2 & Hf & _ & Hd) & Hg & H4).
  destruct (mem_free_errors h1 _ 1014 Hr) as (_ & H1 & _).
  split; [apply H4; [rewrite Hlen; lia|rewrite Hlen; done|rewrite Hlen; by vm_compute]|].
  split; [rewrite Hg by (rewrite Hlen; lia); reflexivity|].
  split; [rewrite Hg by (rewrite Hlen; lia); reflexivity|].
  split; [by apply H1|]. by exists h2.
Defined.
