(* ===== verification/Memp.v ===== *)
(** * The pools of lwIP ([lwip/src/core/memp.c])

    A pool is an array of elements of one size; the free ones form a list
    threaded through their first bytes.  The array of pools is a list, [memp_t] an
    index into it.  The build checks no guard bytes ([MEMP_OVERFLOW_CHECK] is 0),
    so an element has no header. *)
From S2P Require Import Prelude Memory Align Lwip Pbuf Refinement.

(** ** The code *)

Definition MEMP_SIZE : Z := 0.

(** [struct memp_desc], with what its pointers point to: the first free element
    ([0] is [NULL]) and the statistics. *)
Record memp_desc := MempDesc { md_size : Z; md_num : Z; md_base : Z; md_tab : Z; md_stats : stats_mem }.
Definition md_set_tab (d : memp_desc) (tab : Z) : memp_desc :=
  MempDesc (md_size d) (md_num d) (md_base d) tab (md_stats d).
Definition md_set_stats (d : memp_desc) (s : stats_mem) : memp_desc :=
  MempDesc (md_size d) (md_num d) (md_base d) (md_tab d) s.

(** [memp->next]. *)
Definition memp_next (m : mem) (memp : Z) : Z := load64 m memp.
Definition set_memp_next (m : mem) (memp next : Z) : mem := store64 m memp next.

(** The [for] loop over the elements. *)
Fixpoint memp_init_loop (n : nat) (m : mem) (tab memp size : Z) : mem * Z :=
  match n with
  | O => (m, tab)
  | S n => memp_init_loop n (set_memp_next m memp tab) memp (memp + MEMP_SIZE + size) size
  end.

Definition memp_init_pool (m : mem) (desc : memp_desc) : mem * memp_desc :=
  let '(m, tab) := memp_init_loop (Z.to_nat (md_num desc)) m 0 (LWIP_MEM_ALIGN (md_base desc)) (md_size desc) in
  (m, md_set_stats (md_set_tab desc tab) (stats_set_avail (md_stats desc) (md_num desc))).

Record memp_state := MempState { mp_mem : mem; memp_pools : list memp_desc }.
Definition MEMP_MAX (st : memp_state) : Z := Z.of_nat (length (memp_pools st)).

Fixpoint memp_init_pools (m : mem) (pools : list memp_desc) : mem * list memp_desc :=
  match pools with
  | [] => (m, [])
  | desc :: pools =>
      let '(m, desc) := memp_init_pool m desc in
      let '(m, pools) := memp_init_pools m pools in
      (m, desc :: pools)
  end.

Definition memp_init (st : memp_state) : memp_state :=
  let '(m, pools) := memp_init_pools (mp_mem st) (memp_pools st) in MempState m pools.

Definition do_memp_malloc_pool (m : mem) (desc : memp_desc) : outcome (option Z * memp_desc) :=
  let memp := md_tab desc in
  if negb (memp =? 0) then
    let desc := md_set_tab desc (memp_next m memp) in
    _ ← LWIP_ASSERT (memp mod MEM_ALIGNMENT =? 0);
    Ret (Some (memp + MEMP_SIZE), md_set_stats desc (stats_inc_used (md_stats desc) 1))
  else Ret (None, md_set_stats desc (stats_inc_err (md_stats desc))).

Definition do_memp_free_pool (m : mem) (desc : memp_desc) (mem : Z) : outcome (Memory.mem * memp_desc) :=
  _ ← LWIP_ASSERT (mem mod MEM_ALIGNMENT =? 0);
  let memp := mem - MEMP_SIZE in
  let desc := md_set_stats desc (stats_dec_used (md_stats desc) 1) in
  Ret (set_memp_next m memp (md_tab desc), md_set_tab desc memp).

(** A private pool; [None] is [NULL]. *)
Definition memp_malloc_pool (m : mem) (desc : option memp_desc) : outcome (option Z * option memp_desc) :=
  _ ← LWIP_ASSERT (bool_decide (is_Some desc));
  match desc with
  | None => Ret (None, None)
  | Some desc => '(r, desc) ← do_memp_malloc_pool m desc; Ret (r, Some desc)
  end.

Definition memp_free_pool (m : mem) (desc : option memp_desc) (mem : Z) : outcome (Memory.mem * option memp_desc) :=
  _ ← LWIP_ASSERT (bool_decide (is_Some desc));
  match desc with
  | None => Ret (m, None)
  | Some d => if mem =? 0 then Ret (m, desc) else '(m, d) ← do_memp_free_pool m d mem; Ret (m, Some d)
  end.

Definition memp_malloc (st : memp_state) (type : Z) : outcome (option Z * memp_state) :=
  if negb (type <? MEMP_MAX st) then Ret (None, st)
  else
    desc ← deref (memp_pools st !! Z.to_nat type);
    '(memp, desc) ← do_memp_malloc_pool (mp_mem st) desc;
    Ret (memp, MempState (mp_mem st) (<[Z.to_nat type := desc]> (memp_pools st))).

Definition memp_free (st : memp_state) (type mem : Z) : outcome memp_state :=
  if negb (type <? MEMP_MAX st) then Ret st
  else if mem =? 0 then Ret st
  else
    desc ← deref (memp_pools st !! Z.to_nat type);
    '(m, desc) ← do_memp_free_pool (mp_mem st) desc mem;
    Ret (MempState m (<[Z.to_nat type := desc]> (memp_pools st))).

(** ** A pool *)

Definition elem_base (d : memp_desc) : Z := LWIP_MEM_ALIGN (md_base d).
Definition elems (d : memp_desc) : list Z := (fun i => elem_base d + i * md_size d) <$> seqZ 0 (md_num d).

(** What the declaration of a pool gives: elements of a multiple of four bytes
    that can hold a pointer, in memory of their own. *)
Definition desc_ok (d : memp_desc) : Prop :=
  8 <= md_size d < 65536 /\ md_size d mod 4 = 0 /\ 0 <= md_num d < 65536 /\
  0 < md_base d < 18446744000000000000.

(** The free list threaded through the elements. *)
Fixpoint free_list (m : mem) (tab : Z) (fl : list Z) : Prop :=
  match fl with
  | [] => tab = 0
  | a :: fl => tab = a /\ free_list m (memp_next m a) fl
  end.

Record pool_ok (m : mem) (d : memp_desc) (fl : list Z) : Prop := PoolOk {
  po_desc : desc_ok d;
  po_free : free_list m (md_tab d) fl;
  po_nodup : NoDup fl;
  po_elems : forall a, a ∈ fl -> a ∈ elems d;
  po_used : ms_used (md_stats d) = md_num d - Z.of_nat (length fl) }.

(** Elements do not depend on the list and the counters. *)
Definition same_elems (d d' : memp_desc) : Prop :=
  md_size d' = md_size d /\ md_num d' = md_num d /\ md_base d' = md_base d.

Lemma same_elems_eq d d' : same_elems d d' -> elems d' = elems d /\ elem_base d' = elem_base d.
Proof. intros (Hs & Hn & Hb). unfold elems, elem_base. by rewrite Hs, Hn, Hb. Qed.

Lemma same_elems_ok d d' : same_elems d d' -> desc_ok d -> desc_ok d'.
Proof. intros (Hs & Hn & Hb). unfold desc_ok. by rewrite Hs, Hn, Hb. Qed.

Lemma elem_base_ok d : desc_ok d -> 0 < elem_base d < 18446744000000000004 /\ elem_base d mod 4 = 0.
Proof.
  intros (_ & _ & _ & Hb). unfold elem_base. rewrite mem_align by lia.
  pose proof (Z.div_mod (md_base d + 3) 4 ltac:(lia)). pose proof (Z.mod_pos_bound (md_base d + 3) 4 ltac:(lia)).
  split; [lia|]. rewrite Z.mul_comm. by apply Z.mod_mul.
Qed.

Lemma elem_of_elems d a : a ∈ elems d <-> exists i, 0 <= i < md_num d /\ a = elem_base d + i * md_size d.
Proof.
  unfold elems. rewrite list_elem_of_fmap. split.
  - intros (i & -> & Hi%elem_of_seqZ). exists i. split; [lia|done].
  - intros (i & Hi & ->). exists i. split; [done|]. apply elem_of_seqZ. lia.
Qed.

Lemma elem_ok d a : desc_ok d -> a ∈ elems d -> 0 < a < 18446744073709551600 /\ a mod 4 = 0.
Proof.
  intros Hd (i & Hi & ->)%elem_of_elems. destruct (elem_base_ok d Hd) as [Hb Hb4].
  destruct Hd as (Hs & Hs4 & Hn & _). split; [nia|].
  rewrite Z.add_mod, Z.mul_mod, Hs4, Z.mul_0_r, Hb4 by lia. done.
Qed.

(** Elements lie in the array of their pool, and apart from each other. *)
Lemma elem_in_pool d a :
  desc_ok d -> a ∈ elems d -> elem_base d <= a /\ a + md_size d <= elem_base d + md_num d * md_size d.
Proof. intros (Hs & _) (i & Hi & ->)%elem_of_elems. nia. Qed.

Lemma elems_apart d a b :
  desc_ok d -> a ∈ elems d -> b ∈ elems d -> a <> b -> a + md_size d <= b \/ b + md_size d <= a.
Proof.
  intros (Hs & _) (i & Hi & ->)%elem_of_elems (j & Hj & ->)%elem_of_elems Hne.
  destruct (Z.lt_trichotomy i j) as [|[->|]]; [left; nia|done|right; nia].
Qed.

Lemma free_list_ext m m' tab fl :
  (forall a, a ∈ fl -> same_bytes a (a + 8) m m') -> free_list m tab fl -> free_list m' tab fl.
Proof.
  revert tab. induction fl as [|a fl IH]; intros tab Hs; [done|]. intros [-> Hfl]. split; [done|].
  unfold memp_next in *. rewrite <- (load64_ext m m') by (apply Hs; by left).
  apply IH; [|done]. intros b Hb. apply Hs. by right.
Qed.

Lemma memp_next_set m a v : 0 <= v < 18446744073709551616 -> memp_next (set_memp_next m a v) a = v.
Proof. intros Hv. unfold memp_next, set_memp_next. by rewrite load64_store64, u64_small. Qed.

Lemma set_memp_next_out m a v x : ~ a <= x < a + 8 -> set_memp_next m a v x = m x.
Proof. apply store64_out. Qed.

Lemma free_length d fl :
  0 <= md_num d -> NoDup fl -> (forall a, a ∈ fl -> a ∈ elems d) -> Z.of_nat (length fl) <= md_num d.
Proof.
  intros Hn Hnd Hin. pose proof (submseteq_length fl (elems d)) as Hlen. unfold elems in Hlen at 2.
  rewrite length_fmap, length_seqZ in Hlen. assert (length fl <= Z.to_nat (md_num d))%nat; [|lia].
  by apply Hlen, NoDup_submseteq.
Qed.

(** Only the first bytes of free elements count. *)
Lemma pool_ok_ext m m' d fl :
  (forall a, a ∈ fl -> same_bytes a (a + 8) m m') -> pool_ok m d fl -> pool_ok m' d fl.
Proof. intros Hs []. split; try done. by apply (free_list_ext m). Qed.

(** ** The operations on one pool *)

Lemma do_memp_malloc_pool_spec m d fl :
  pool_ok m d fl ->
  exists d', same_elems d d' /\
    match fl with
    | a :: fl' => do_memp_malloc_pool m d = Ret (Some a, d') /\ pool_ok m d' fl'
    | [] => do_memp_malloc_pool m d = Ret (None, d') /\ pool_ok m d' []
    end.
Proof.
  intros [Hd Hf Hnd Hin Hu]. unfold do_memp_malloc_pool. destruct fl as [|a fl].
  - cbn [free_list] in Hf. rewrite Hf. eexists. split; [|split; [done|]]; [done|]. split; done.
  - destruct Hf as [Ht Hf]. destruct (elem_ok d a Hd) as [Ha Ha4]; [apply Hin; by left|].
    rewrite Ht. destruct (Z.eqb_spec a 0); [lia|]. cbn [negb]. change MEM_ALIGNMENT with 4. rewrite Ha4.
    cbn [Z.eqb LWIP_ASSERT mbind outcome_bind]. change (a + MEMP_SIZE) with (a + 0). rewrite Z.add_0_r.
    eexists. split; [|split; [done|]]; [done|].
    apply NoDup_cons in Hnd as [Hni Hnd].
    split; cbn [md_set_stats md_set_tab md_tab md_stats md_num stats_inc_used ms_used]; try done.
    + intros b Hb. apply (Hin b). by right.
    + rewrite Hu. pose proof Hd as (_ & _ & Hn & _).
      pose proof (free_length d (a :: fl) ltac:(lia) ltac:(by constructor) Hin) as Hlen.
      cbn [length] in *. rewrite u16_small; lia.
Qed.

Lemma do_memp_free_pool_spec m d fl a :
  pool_ok m d fl -> a ∈ elems d -> a ∉ fl ->
  exists m' d', do_memp_free_pool m d a = Ret (m', d') /\ same_elems d d' /\ pool_ok m' d' (a :: fl) /\
    (forall x, ~ a <= x < a + 8 -> m' x = m x).
Proof.
  intros [Hd Hf Hnd Hin Hu] Ha Hni. destruct (elem_ok d a Hd Ha) as [Hr Ha4].
  unfold do_memp_free_pool. change MEM_ALIGNMENT with 4. rewrite Ha4. cbn [Z.eqb LWIP_ASSERT mbind outcome_bind].
  change (a - MEMP_SIZE) with (a - 0). rewrite Z.sub_0_r. cbn [md_set_stats md_tab].
  eexists _, _. split; [done|]. split; [done|]. split; [|intros x Hx; by apply set_memp_next_out].
  split; cbn [md_set_stats md_set_tab md_tab md_stats md_num stats_dec_used ms_used length]; try done.
  - split; [done|]. rewrite memp_next_set.
    + refine (free_list_ext _ _ _ _ _ Hf). intros b Hb x Hx. symmetry. apply set_memp_next_out.
      destruct (elems_apart d a b Hd Ha (Hin b Hb)) as [?|?]; [by intros ->|..]; destruct Hd; lia.
    + destruct fl as [|b fl]; [cbn in Hf; lia|]. destruct Hf as [-> _].
      destruct (elem_ok d b Hd (Hin b ltac:(by left))). lia.
  - by constructor.
  - intros b [->|Hb]%elem_of_cons; [done|by apply Hin].
  - rewrite Hu. pose proof Hd as (_ & _ & Hn & _).
    assert (Z.of_nat (length (a :: fl)) <= md_num d) as Hlen.
    { apply free_length; [lia|by constructor|]. intros b [->|Hb]%elem_of_cons; [done|by apply Hin]. }
    cbn [length] in Hlen. rewrite u16_small; lia.
Qed.

(** [memp_init_loop] puts the elements in front of the list one by one. *)
Lemma memp_init_loop_spec n m tab memp size fl :
  8 <= size -> 0 < memp -> memp + Z.of_nat n * size < 18446744073709551616 ->
  free_list m tab fl -> 0 <= tab < 18446744073709551616 -> (forall a, a ∈ fl -> a + 8 <= memp) ->
  exists m' tab', memp_init_loop n m tab memp size = (m', tab') /\
    free_list m' tab' (reverse ((fun i => memp + i * size) <$> seqZ 0 (Z.of_nat n)) ++ fl) /\
    (forall x, ~ memp <= x < memp + Z.of_nat n * size -> m' x = m x).
Proof.
  intros Hs. revert m tab memp fl. induction n as [|n IH]; intros m tab memp fl H0 Hb Hf Ht Hfl.
  { by exists m, tab. }
  cbn [memp_init_loop]. change MEMP_SIZE with 0. rewrite Z.add_0_r.
  assert (forall x, ~ memp <= x < memp + 8 -> set_memp_next m memp tab x = m x) as Hout
    by (intros; by apply set_memp_next_out).
  destruct (IH (set_memp_next m memp tab) memp (memp + size) (memp :: fl)) as (m' & tab' & Heq & Hf' & Hm'); [lia..| |lia| |].
  - split; [done|]. rewrite memp_next_set by done. refine (free_list_ext _ _ _ _ _ Hf).
    intros a Ha x Hx. symmetry. apply Hout. specialize (Hfl a Ha). lia.
  - intros a [->|Ha]%elem_of_cons; [lia|]. specialize (Hfl a Ha). lia.
  - exists m', tab'. split; [done|]. split.
    + replace (Z.of_nat (S n)) with (1 + Z.of_nat n) by lia. rewrite seqZ_app by lia. rewrite fmap_app, reverse_app, <- app_assoc.
      change (reverse ((fun i => memp + i * size) <$> seqZ 0 1) ++ fl) with (memp + 0 * size :: fl).
      rewrite Z.mul_0_l, Z.add_0_r.
      replace ((fun i => memp + i * size) <$> seqZ (0 + 1) (Z.of_nat n)) with
        ((fun i => memp + size + i * size) <$> seqZ 0 (Z.of_nat n)); [done|].
      rewrite <- (fmap_add_seqZ 1 0), <- list_fmap_compose. apply list_fmap_ext. intros ? i _. simpl. lia.
    + intros x Hx. rewrite Hm' by lia. apply Hout. lia.
Qed.

Lemma memp_init_pool_spec m d :
  desc_ok d -> ms_used (md_stats d) = 0 ->
  exists m' d', memp_init_pool m d = (m', d') /\ same_elems d d' /\ pool_ok m' d' (reverse (elems d)) /\
    (forall x, ~ elem_base d <= x < elem_base d + md_num d * md_size d -> m' x = m x).
Proof.
  intros Hd Hu. destruct (elem_base_ok d Hd) as [Hb _]. pose proof Hd as (Hs & Hs4 & Hn & Hbs). unfold memp_init_pool.
  destruct (memp_init_loop_spec (Z.to_nat (md_num d)) m 0 (elem_base d) (md_size d) [])
    as (m' & tab & Heq & Hf & Hm'); [lia|lia|nia|done|done|by intros ? ?%elem_of_nil|].
  unfold elem_base in Heq at 1. rewrite Heq. eexists _, _. split; [done|]. split; [done|].
  rewrite Z2Nat.id, app_nil_r in * by lia. split; [|done].
  split; cbn [md_set_stats md_set_tab md_tab md_stats md_num stats_set_avail ms_used]; try done.
  - rewrite reverse_Permutation. apply NoDup_fmap_2_strong; [|apply NoDup_seqZ]. intros i j _ _ ?. nia.
  - intros a. by rewrite elem_of_reverse.
  - unfold elems. rewrite length_reverse, length_fmap, length_seqZ. lia.
Qed.
