(* ===== verification/MempClient.v ===== *)
(** * The pools of lwIP, seen by their clients

    A client knows the elements it was given, the pool of each, and the bytes it
    wrote there.  [pool_step] says what each call may do to that map;
    [memp_malloc] and [memp_free] implement it for every sequence of calls. *)
From S2P Require Import Prelude Memory Align Lwip Pbuf Refinement Memp.

(** ** All pools *)

(** The elements of a pool, and their size. *)
Definition shape (d : memp_desc) : list Z * Z := (elems d, md_size d).

(** Elements of one pool or of two never overlap. *)
Record shape_ok (sh : list (list Z * Z)) : Prop := ShapeOk {
  so_elem : forall t es sz p, sh !! t = Some (es, sz) -> p ∈ es -> 0 < p /\ p mod 4 = 0 /\ 8 <= sz;
  so_unique : forall t es sz t' es' sz' p,
    sh !! t = Some (es, sz) -> sh !! t' = Some (es', sz') -> p ∈ es -> p ∈ es' -> t = t';
  so_apart : forall t es sz t' es' sz' p q,
    sh !! t = Some (es, sz) -> sh !! t' = Some (es', sz') -> p ∈ es -> q ∈ es' -> p <> q ->
    (p + sz <= q) \/ (q + sz' <= p) }.

(** The linker gives every pool memory of its own. *)
Definition pools_apart (pools : list memp_desc) : Prop :=
  forall i j di dj, pools !! i = Some di -> pools !! j = Some dj -> i <> j ->
    elem_base di + md_num di * md_size di <= elem_base dj \/ elem_base dj + md_num dj * md_size dj <= elem_base di.

Lemma pools_shape_ok pools :
  Forall desc_ok pools -> pools_apart pools -> shape_ok (shape <$> pools).
Proof.
  intros Hd Hap. rewrite Forall_lookup in Hd.
  assert (forall t es sz, (shape <$> pools) !! t = Some (es, sz) ->
    exists d, pools !! t = Some d /\ es = elems d /\ sz = md_size d /\ desc_ok d) as Hsh.
  { intros t es sz. rewrite list_lookup_fmap. destruct (pools !! t) as [d|] eqn:Ht; [|done].
    intros [= <- <-]. exists d. split_and!; [done..|]. by eapply Hd. }
  split.
  - intros t es sz p (d & _ & -> & -> & Hok)%Hsh Hp. destruct (elem_ok d p Hok Hp). destruct Hok. lia.
  - intros t es sz t' es' sz' p (d & Ht & -> & -> & Hok)%Hsh (d' & Ht' & -> & -> & Hok')%Hsh Hp Hp'.
    destruct (decide (t = t')) as [|Hne]; [done|exfalso].
    destruct (elem_in_pool d p Hok Hp), (elem_in_pool d' p Hok' Hp'). destruct Hok as [? _], Hok' as [? _].
    destruct (Hap _ _ _ _ Ht Ht' Hne); lia.
  - intros t es sz t' es' sz' p q (d & Ht & -> & -> & Hok)%Hsh (d' & Ht' & -> & -> & Hok')%Hsh Hp Hq Hpq.
    destruct (decide (t = t')) as [->|Hne].
    + rewrite Ht in Ht'. injection Ht' as <-. by apply elems_apart.
    + destruct (elem_in_pool d p Hok Hp), (elem_in_pool d' q Hok' Hq). destruct (Hap _ _ _ _ Ht Ht' Hne); lia.
Qed.

(** Every pool with its free list. *)
Record memp_ok (st : memp_state) (sh : list (list Z * Z)) (fls : list (list Z)) : Prop := MempOk {
  mo_pools : Forall2 (pool_ok (mp_mem st)) (memp_pools st) fls;
  mo_shape : shape <$> memp_pools st = sh;
  mo_apart : shape_ok sh }.

(** ** Live elements *)

Definition rep (m : mem) (sh : list (list Z * Z)) (fls : list (list Z)) (live : gmap Z (nat * list Z)) : Prop :=
  forall p t bs, live !! p = Some (t, bs) <->
    exists es sz fl, sh !! t = Some (es, sz) /\ fls !! t = Some fl /\ (p ∈ es) /\ (p ∉ fl) /\ bs = slice m p sz.

Section rep.
Context (sh : list (list Z * Z)) (Hsh : shape_ok sh).
Implicit Types (m : mem) (fls : list (list Z)) (live : gmap Z (nat * list Z)).
#[local] Set Default Proof Using "All".

Lemma rep_take m fls live t es sz a fl :
  rep m sh fls live -> sh !! t = Some (es, sz) -> fls !! t = Some (a :: fl) -> a ∈ es -> a ∉ fl ->
  rep m sh (<[t := fl]> fls) (<[a := (t, slice m a sz)]> live).
Proof.
  intros Hr Ht Hf Ha Hni p t' bs. pose proof (lookup_lt_Some _ _ _ Hf) as Hlt. rewrite lookup_insert_Some, (Hr p t' bs). split.
  - intros [[<- [= <- <-]]|(Hne & es' & sz' & fl' & Ht' & Hf' & Hp & Hnp & ->)].
    + exists es, sz, fl. rewrite list_lookup_insert_eq by done. done.
    + destruct (decide (t' = t)) as [->|Htt].
      * rewrite Ht in Ht'. injection Ht' as <- <-. rewrite Hf in Hf'. injection Hf' as <-. exists es, sz, fl. rewrite list_lookup_insert_eq by done. split_and!; try done.
        intros Hin. apply Hnp. by right.
      * exists es', sz', fl'. by rewrite list_lookup_insert_ne.
  - intros (es' & sz' & fl' & Ht' & Hf' & Hp & Hnp & ->). destruct (decide (t' = t)) as [->|Htt].
    + rewrite Ht in Ht'. injection Ht' as <- <-. rewrite list_lookup_insert_eq in Hf' by done. injection Hf' as <-.
      destruct (decide (a = p)) as [->|Hne]; [by left|right].
      split; [done|]. exists es, sz, (a :: fl). split_and!; try done. apply not_elem_of_cons. by split; [by intros ->|].
    + rewrite list_lookup_insert_ne in Hf' by done. right. split.
      * intros ->. apply Htt. by eapply (so_unique _ Hsh).
      * by exists es', sz', fl'.
Qed.

Lemma rep_give m fls live t es sz p fl :
  rep m sh fls live -> sh !! t = Some (es, sz) -> fls !! t = Some fl -> p ∈ es ->
  rep m sh (<[t := p :: fl]> fls) (delete p live).
Proof.
  intros Hr Ht Hf Ha q t' bs. pose proof (lookup_lt_Some _ _ _ Hf) as Hlt. rewrite lookup_delete_Some, (Hr q t' bs). split.
  - intros (Hne & es' & sz' & fl' & Ht' & Hf' & Hq & Hnq & ->). destruct (decide (t' = t)) as [->|Htt].
    + rewrite Ht in Ht'. injection Ht' as <- <-. rewrite Hf in Hf'. injection Hf' as <-. exists es, sz, (p :: fl). rewrite list_lookup_insert_eq by done. split_and!; try done.
      apply not_elem_of_cons. by split; [by intros ->|].
    + exists es', sz', fl'. by rewrite list_lookup_insert_ne.
  - intros (es' & sz' & fl' & Ht' & Hf' & Hq & Hnq & ->). destruct (decide (t' = t)) as [->|Htt].
    + rewrite Ht in Ht'. injection Ht' as <- <-. rewrite list_lookup_insert_eq in Hf' by done. injection Hf' as <-.
      apply not_elem_of_cons in Hnq as [? ?].
      split; [by intros ->|]. by exists es, sz, fl.
    + rewrite list_lookup_insert_ne in Hf' by done. split.
      * intros ->. apply Htt. by eapply (so_unique _ Hsh).
      * by exists es', sz', fl'.
Qed.

(** Writes that stay inside one element that is not live leave the live ones. *)
Lemma rep_mem m m' fls live :
  (forall p t bs, live !! p = Some (t, bs) -> forall es sz, sh !! t = Some (es, sz) -> slice m' p sz = slice m p sz) ->
  rep m sh fls live -> rep m' sh fls live.
Proof.
  intros Hs Hr p t bs. rewrite (Hr p t bs).
  split; intros (es & sz & fl & Ht & Hf & Hp & Hn & ->); exists es, sz, fl; split_and!; try done;
    [symmetry|]; eapply Hs; try done; apply Hr; by exists es, sz, fl.
Qed.

Lemma rep_elem m fls live p t bs :
  rep m sh fls live -> live !! p = Some (t, bs) -> exists es sz, sh !! t = Some (es, sz) /\ p ∈ es /\ bs = slice m p sz.
Proof. intros Hr (es & sz & fl & ? & ? & ? & ? & ?)%Hr. by exists es, sz. Qed.
End rep.

(** ** What a client may do, and what the pools may answer *)

Inductive memp_op :=
  | MempMalloc (type : Z)
  | MempFree (type p : Z)
  | MempStore (type p off : Z) (bs : list Z).  (* the client writes into its element *)

Definition memp_exec (st : memp_state) (op : memp_op) : outcome (option Z * memp_state) :=
  match op with
  | MempMalloc type => memp_malloc st type
  | MempFree type p => st ← memp_free st type p; Ret (None, st)
  | MempStore type p off bs => Ret (None, MempState (write_bytes (mp_mem st) (p + off) bs) (memp_pools st))
  end.

(** The bytes [cs] written over [bs] from [off]. *)
Definition overwritten (bs : list Z) (off : Z) (cs bs' : list Z) : Prop :=
  length bs' = length bs /\
  forall k, bs' !! k = if bool_decide (off <= Z.of_nat k < off + Z.of_nat (length cs))
                       then cs !! Z.to_nat (Z.of_nat k - off) else bs !! k.

Inductive pool_step (sh : list (list Z * Z)) (live : gmap Z (nat * list Z)) :
    memp_op -> option Z -> gmap Z (nat * list Z) -> Prop :=
  | pool_malloc t es sz p bs :
      sh !! t = Some (es, sz) -> p ∈ es -> live !! p = None -> length bs = Z.to_nat sz -> p mod MEM_ALIGNMENT = 0 ->
      (forall q t' cs, live !! q = Some (t', cs) ->
         p + Z.of_nat (length bs) <= q \/ q + Z.of_nat (length cs) <= p) ->
      pool_step sh live (MempMalloc (Z.of_nat t)) (Some p) (<[p := (t, bs)]> live)
  | pool_malloc_empty t es sz :
      sh !! t = Some (es, sz) -> (forall p, p ∈ es -> exists bs, live !! p = Some (t, bs)) ->
      pool_step sh live (MempMalloc (Z.of_nat t)) None live
  | pool_malloc_type type : Z.of_nat (length sh) <= type -> pool_step sh live (MempMalloc type) None live
  | pool_free t p bs : live !! p = Some (t, bs) -> pool_step sh live (MempFree (Z.of_nat t) p) None (delete p live)
  | pool_free_null type : pool_step sh live (MempFree type 0) None live
  | pool_store t p off bs cs bs' :
      live !! p = Some (t, bs) -> overwritten bs off cs bs' ->
      pool_step sh live (MempStore (Z.of_nat t) p off cs) None (<[p := (t, bs')]> live).

(** What the client has to keep to: elements it was given and not yet freed,
    each to its pool, and stores inside them. *)
Definition may_call (st : memp_state) (held : list (Z * Z)) (op : memp_op) : bool :=
  match op with
  | MempMalloc type => 0 <=? type
  | MempFree type p => (p =? 0) || bool_decide ((type, p) ∈ held)
  | MempStore type p off cs =>
      bool_decide ((type, p) ∈ held) && (0 <=? off) &&
      (off + Z.of_nat (length cs) <=? default 0 (md_size <$> memp_pools st !! Z.to_nat type))
  end.

Definition held_after (held : list (Z * Z)) (op : memp_op) (r : option Z) : list (Z * Z) :=
  match op, r with
  | MempMalloc type, Some p => (type, p) :: held
  | MempFree type p, _ => filter (fun x => x.2 <> p) held
  | _, _ => held
  end.

Definition holds (held : list (Z * Z)) (live : gmap Z (nat * list Z)) : Prop :=
  forall type p, (type, p) ∈ held <-> 0 <= type /\ exists bs, live !! p = Some (Z.to_nat type, bs).

Definition memp_rel (sh : list (list Z * Z)) (st : memp_state) (held : list (Z * Z)) (live : gmap Z (nat * list Z)) : Prop :=
  exists fls, memp_ok st sh fls /\ rep (mp_mem st) sh fls live /\ holds held live.

(** ** The functions implement it *)

Section step.
Context (st : memp_state) (sh : list (list Z * Z)) (fls : list (list Z)) (live : gmap Z (nat * list Z)).
Hypotheses (Hok : memp_ok st sh fls) (Hr : rep (mp_mem st) sh fls live).
#[local] Set Default Proof Using "All".

Lemma memp_ok_lookup t :
  (t < length sh)%nat ->
  exists d fl, memp_pools st !! t = Some d /\ fls !! t = Some fl /\ sh !! t = Some (elems d, md_size d) /\
    pool_ok (mp_mem st) d fl.
Proof.
  destruct Hok as [Hp <- _]. rewrite length_fmap. intros [d Hd]%lookup_lt_is_Some.
  destruct (Forall2_lookup_l _ _ _ _ _ Hp Hd) as (fl & Hf & Hpo). exists d, fl. rewrite list_lookup_fmap, Hd. done.
Qed.

(** A pool replaced by one with the same elements. *)
Lemma memp_ok_insert t d d' m' fl' :
  memp_pools st !! t = Some d -> same_elems d d' -> pool_ok m' d' fl' ->
  (forall t' fl a, t' <> t -> fls !! t' = Some fl -> a ∈ fl -> same_bytes a (a + 8) (mp_mem st) m') ->
  memp_ok (MempState m' (<[t := d']> (memp_pools st))) sh (<[t := fl']> fls).
Proof.
  intros Ht Hse Hp Hm. pose proof Hok as [Hpo Hsh Hap]. pose proof (lookup_lt_Some _ _ _ Ht) as Hlt.
  split; cbn [mp_mem memp_pools]; [|rewrite list_fmap_insert, <- Hsh; apply list_insert_id|done].
  - apply Forall2_same_length_lookup_2.
    { rewrite !length_insert. by eapply Forall2_length. }
    intros i di fli. destruct (decide (i = t)) as [->|Hne].
    + rewrite !list_lookup_insert_eq; [by intros [= <-] [= <-]|by erewrite <- Forall2_length|done].
    + rewrite !list_lookup_insert_ne by done. intros Hdi Hfi.
      apply (pool_ok_ext (mp_mem st)); [|by eapply Forall2_lookup_lr].
      intros a Ha. by eapply Hm.
  - rewrite list_lookup_fmap, Ht. cbn [fmap option_fmap option_map]. f_equal. unfold shape.
    destruct (same_elems_eq _ _ Hse) as [-> _]. by destruct Hse as [-> _].
Qed.

Lemma memp_malloc_spec t :
  exists r st', memp_malloc st (Z.of_nat t) = Ret (r, st') /\
    match r with
    | Some p => exists fls' bs, pool_step sh live (MempMalloc (Z.of_nat t)) (Some p) (<[p := (t, bs)]> live) /\
        memp_ok st' sh fls' /\ rep (mp_mem st') sh fls' (<[p := (t, bs)]> live)
    | None => pool_step sh live (MempMalloc (Z.of_nat t)) None live /\
        memp_ok st' sh fls /\ rep (mp_mem st') sh fls live
    end.
Proof.
  unfold memp_malloc, MEMP_MAX. pose proof Hok as [_ Hsh Hap].
  assert (length (memp_pools st) = length sh) as -> by (by rewrite <- Hsh, length_fmap).
  destruct (Z.ltb_spec (Z.of_nat t) (Z.of_nat (length sh))) as [Hlt|Hge]; cbn [negb].
  2: { exists None, st. split_and!; [done|by constructor|done..]. }
  destruct (memp_ok_lookup t ltac:(lia)) as (d & fl & Hd & Hf & Hst & Hpo). rewrite Nat2Z.id, Hd. cbn [deref mbind outcome_bind].
  destruct (do_memp_malloc_pool_spec _ _ _ Hpo) as (d' & Hse & Hm).
  assert (forall fl', pool_ok (mp_mem st) d' fl' ->
    memp_ok (MempState (mp_mem st) (<[t := d']> (memp_pools st))) sh (<[t := fl']> fls)) as Hok'.
  { intros fl' Hp'. by apply memp_ok_insert with d. }
  destruct fl as [|a fl]; destruct Hm as [-> Hpo']; cbn [mbind outcome_bind]; eexists _, _; (split; [done|]).
  - split.
    + apply (pool_malloc_empty _ _ t (elems d) (md_size d)); [done|]. intros p Hp. eexists.
      apply Hr. exists (elems d), (md_size d), []. split_and!; [done..|apply not_elem_of_nil|done].
    + specialize (Hok' [] Hpo'). rewrite (list_insert_id fls t []) in Hok' by done. by split.
  - exists (<[t := fl]> fls), (slice (mp_mem st) a (md_size d)).
    assert (a ∈ elems d) as Ha by (apply (po_elems _ _ _ Hpo); by left).
    pose proof (po_nodup _ _ _ Hpo) as [Hni _]%NoDup_cons.
    split_and!; [|by apply Hok'|by eapply rep_take].
    destruct (so_elem _ Hap _ _ _ _ Hst Ha) as (? & ? & ?).
    apply (pool_malloc _ _ t (elems d) (md_size d)); try done.
    + apply eq_None_not_Some. intros [[t' bs] (es & sz & fl' & Ht' & Hf' & Hp & Hn & _)%Hr].
      assert (t' = t) as -> by (by eapply (so_unique _ Hap)). rewrite Hf in Hf'. injection Hf' as <-. apply Hn. by left.
    + by rewrite length_slice.
    + intros q t' cs Hq. pose proof Hq as (es & sz & fl' & Ht' & Hf' & Hqe & Hn & ->)%Hr. rewrite !length_slice.
      destruct (so_elem _ Hap _ _ _ _ Ht' Hqe) as (? & ? & ?).
      assert (a <> q) as Hne.
      { intros ->. assert (t' = t) as -> by (by eapply (so_unique _ Hap)). rewrite Hf in Hf'. injection Hf' as <-. apply Hn. by left. }
      destruct (so_apart _ Hap _ _ _ _ _ _ _ _ Hst Ht' Ha Hqe Hne); lia.
Qed.

(** Bytes of one element change. *)
Lemma elem_write t es sz p m' t' es' sz' q :
  sh !! t = Some (es, sz) -> p ∈ es -> sh !! t' = Some (es', sz') -> q ∈ es' -> q <> p ->
  (forall x, ~ p <= x < p + sz -> m' x = mp_mem st x) -> same_bytes q (q + sz') (mp_mem st) m'.
Proof.
  intros Ht Hp Ht' Hq Hne Hm x Hx. symmetry. apply Hm. pose proof (mo_apart _ _ _ Hok) as Hap.
  destruct (so_apart _ Hap _ _ _ _ _ _ _ _ Ht Ht' Hp Hq ltac:(by intros ->)); lia.
Qed.

(** A free element belongs to the pool of its list. *)
Lemma free_elem_pool t fl a t' es sz :
  fls !! t = Some fl -> a ∈ fl -> sh !! t' = Some (es, sz) -> a ∈ es -> t = t'.
Proof.
  intros Hf Ha Ht Hae. pose proof Hok as [Hpo Hsh Hap].
  destruct (Forall2_lookup_r _ _ _ _ _ Hpo Hf) as (d & Hd & Hpd).
  apply (so_unique _ Hap t (elems d) (md_size d) t' es sz a); [by rewrite <- Hsh, list_lookup_fmap, Hd|done| |done].
  by apply (po_elems _ _ _ Hpd).
Qed.

(** The free lists do not notice. *)
Lemma elem_write_free t es sz p m' t' fl a :
  sh !! t = Some (es, sz) -> p ∈ es -> fls !! t' = Some fl -> a ∈ fl -> a <> p ->
  (forall x, ~ p <= x < p + sz -> m' x = mp_mem st x) -> same_bytes a (a + 8) (mp_mem st) m'.
Proof.
  intros Ht Hp Hf Ha Hne Hm. pose proof Hok as [Hpo Hsh Hap].
  destruct (Forall2_lookup_r _ _ _ _ _ Hpo Hf) as (d & Hd & Hpd).
  assert (sh !! t' = Some (elems d, md_size d)) as Ht' by (by rewrite <- Hsh, list_lookup_fmap, Hd).
  pose proof (po_elems _ _ _ Hpd a Ha) as Hae.
  destruct (so_elem _ Hap _ _ _ _ Ht' Hae) as (_ & _ & Hs8).
  apply (same_bytes_sub a (a + md_size d)); [|lia|lia]. by apply (elem_write t es sz p m' t' (elems d) (md_size d) a).
Qed.

Lemma memp_free_spec t p bs :
  live !! p = Some (t, bs) ->
  exists st' fls', memp_free st (Z.of_nat t) p = Ret st' /\ memp_ok st' sh fls' /\
    rep (mp_mem st') sh fls' (delete p live).
Proof.
  intros Hp. pose proof Hp as (es & sz & fl & Ht & Hf & Hpe & Hni & ->)%Hr. pose proof Hok as [Hpo Hsh Hap].
  pose proof (lookup_lt_Some _ _ _ Ht) as Hlt.
  destruct (memp_ok_lookup t Hlt) as (d & fl' & Hd & Hf' & Ht' & Hpd). rewrite Hf in Hf'. injection Hf' as <-.
  rewrite Ht in Ht'. injection Ht' as -> ->.
  destruct (so_elem _ Hap _ _ _ _ Ht Hpe) as (Hp0 & _ & Hs8).
  unfold memp_free, MEMP_MAX. assert (length (memp_pools st) = length sh) as -> by (by rewrite <- Hsh, length_fmap).
  destruct (Z.ltb_spec (Z.of_nat t) (Z.of_nat (length sh))); [|lia]. cbn [negb].
  destruct (Z.eqb_spec p 0); [lia|]. rewrite Nat2Z.id, Hd. cbn [deref mbind outcome_bind].
  destruct (do_memp_free_pool_spec _ _ _ _ Hpd Hpe Hni) as (m' & d' & -> & Hse & Hpd' & Hm'). cbn [mbind outcome_bind].
  assert (forall x, ~ p <= x < p + md_size d -> m' x = mp_mem st x) as Hm by (intros x Hx; apply Hm'; lia).
  exists (MempState m' (<[t := d']> (memp_pools st))), (<[t := p :: fl]> fls). split; [done|]. split.
  - apply memp_ok_insert with d; [done..|]. intros t' fl2 a Hne Hf2 Ha.
    apply (elem_write_free t (elems d) (md_size d) p m' t' fl2 a); try done. intros ->. apply Hne.
    by eapply free_elem_pool.
  - cbn [mp_mem]. apply rep_mem with (mp_mem st); [done| |by eapply rep_give].
    intros q t' cs [Hne Hq]%lookup_delete_Some es2 sz2 Ht2.
    destruct (rep_elem sh Hap _ _ _ _ _ _ Hr Hq) as (es3 & sz3 & Ht3 & Hq3 & _). rewrite Ht2 in Ht3. injection Ht3 as <- <-.
    symmetry. apply (same_bytes_slice q (q + sz2)); [|lia|lia].
    by eapply (elem_write t (elems d) (md_size d) p); [..|done].
Qed.

Lemma overwritten_write m p sz off cs :
  0 <= off -> off + Z.of_nat (length cs) <= sz ->
  overwritten (slice m p sz) off cs (slice (write_bytes m (p + off) cs) p sz).
Proof.
  intros Ho Hl. split; [by rewrite !length_slice|]. intros k.
  destruct (Z.ltb_spec (Z.of_nat k) sz) as [Hk|Hk].
  - rewrite !lookup_slice by lia. unfold write_bytes.
    case_bool_decide; destruct (Z.leb_spec (p + off) (p + Z.of_nat k)), (Z.ltb_spec (p + Z.of_nat k) (p + off + Z.of_nat (length cs)));
      cbn [andb]; try lia; [|done..].
    replace (p + Z.of_nat k - (p + off)) with (Z.of_nat k - off) by lia.
    destruct (lookup_lt_is_Some_2 cs (Z.to_nat (Z.of_nat k - off))) as [x ->]; [lia|done].
  - rewrite bool_decide_false by lia. rewrite !lookup_ge_None_2; [done|rewrite length_slice; lia..].
Qed.

(** Writes that stay inside live elements. *)
Lemma memp_writes_spec m' :
  (forall x, (forall p t bs es sz, live !! p = Some (t, bs) -> sh !! t = Some (es, sz) -> ~ p <= x < p + sz) ->
     m' x = mp_mem st x) ->
  memp_ok (MempState m' (memp_pools st)) sh fls /\
  rep m' sh fls (map_imap (fun p x => Some (x.1, slice m' p (default 0 (snd <$> sh !! x.1)))) live).
Proof.
  intros Hm. pose proof Hok as [Hpo Hsh Hap]. split.
  - split; [|done|done]. cbn [mp_mem memp_pools]. apply Forall2_same_length_lookup_2; [by eapply Forall2_length|].
    intros i di fli Hdi Hfi. pose proof (Forall2_lookup_lr _ _ _ _ _ _ Hpo Hdi Hfi) as Hpd.
    apply (pool_ok_ext (mp_mem st)); [|done]. intros a Ha x Hx. symmetry. apply Hm.
    intros p t bs es sz (es' & sz' & fl & Ht & Hf & Hpe & Hni & _)%Hr Ht'. rewrite Ht' in Ht. injection Ht as <- <-.
    assert (sh !! i = Some (elems di, md_size di)) as Hi by (by rewrite <- Hsh, list_lookup_fmap, Hdi).
    pose proof (po_elems _ _ _ Hpd a Ha) as Hae. destruct (so_elem _ Hap _ _ _ _ Hi Hae) as (_ & _ & ?).
    assert (a <> p) as Hne.
    { intros ->. assert (i = t) as -> by (by eapply (so_unique _ Hap)). rewrite Hf in Hfi. injection Hfi as <-. done. }
    destruct (so_apart _ Hap _ _ _ _ _ _ _ _ Hi Ht' Hae Hpe Hne); lia.
  - intros q t' ds. rewrite map_lookup_imap, bind_Some. split.
    + intros ([t bs] & Hq & [= -> <-]). cbn [fst]. pose proof Hq as (es & sz & fl & Ht & Hf & Hpe & Hni & _)%Hr.
      exists es, sz, fl. by rewrite Ht.
    + intros (es & sz & fl & Ht & Hf & Hpe & Hni & ->). exists (t', slice (mp_mem st) q sz). cbn [fst]. rewrite Ht.
      split; [|done]. apply Hr. by exists es, sz, fl.
Qed.

(** A write that stays inside a live element. *)
Lemma memp_write_spec t p bs m' sz es :
  live !! p = Some (t, bs) -> sh !! t = Some (es, sz) ->
  (forall x, ~ p <= x < p + sz -> m' x = mp_mem st x) ->
  memp_ok (MempState m' (memp_pools st)) sh fls /\ rep m' sh fls (<[p := (t, slice m' p sz)]> live).
Proof.
  intros Hp Ht Hm. pose proof Hp as (es' & sz' & fl & Ht' & Hf & Hpe & Hni & ->)%Hr. pose proof Hok as [Hpo Hsh Hap].
  rewrite Ht in Ht'. injection Ht' as <- <-. split.
  - apply memp_writes_spec. intros x Hx. apply Hm. by eapply Hx.
  - intros q t' ds. rewrite lookup_insert_Some. split.
    + intros [[<- [= <- <-]]|[Hne Hq]]; [by exists es, sz, fl|].
      pose proof Hq as (es2 & sz2 & fl2 & Ht2 & Hf2 & Hq2 & Hn2 & ->)%Hr. exists es2, sz2, fl2. split_and!; try done.
      apply (same_bytes_slice q (q + sz2)); [|lia|lia]. by eapply (elem_write t es sz p); [..|done].
    + intros (es2 & sz2 & fl2 & Ht2 & Hf2 & Hq2 & Hn2 & ->). destruct (decide (p = q)) as [->|Hne].
      * left. assert (t' = t) as -> by (by eapply (so_unique _ Hap)). rewrite Ht in Ht2. by injection Ht2 as <- <-.
      * right. split; [done|]. apply Hr. exists es2, sz2, fl2. split_and!; try done.
        symmetry. apply (same_bytes_slice q (q + sz2)); [|lia|lia]. by eapply (elem_write t es sz p); [..|done].
Qed.

Lemma memp_store_spec t p bs off cs :
  live !! p = Some (t, bs) -> 0 <= off -> off + Z.of_nat (length cs) <= Z.of_nat (length bs) ->
  let m' := write_bytes (mp_mem st) (p + off) cs in
  exists bs', overwritten bs off cs bs' /\
    memp_ok (MempState m' (memp_pools st)) sh fls /\ rep m' sh fls (<[p := (t, bs')]> live).
Proof.
  intros Hp Ho Hl m'. pose proof Hp as (es & sz & fl & Ht & Hf & Hpe & Hni & ->)%Hr. pose proof Hok as [Hpo Hsh Hap].
  rewrite length_slice in Hl. destruct (so_elem _ Hap _ _ _ _ Ht Hpe) as (Hp0 & _ & Hs8).
  exists (slice m' p sz). split; [apply overwritten_write; lia|].
  apply (memp_write_spec t p (slice (mp_mem st) p sz) m' sz es); [done..|].
  intros x Hx. unfold m', write_bytes.
  destruct (Z.leb_spec (p + off) x), (Z.ltb_spec x (p + off + Z.of_nat (length cs))); cbn [andb]; (done || lia).
Qed.
End step.

Lemma holds_type held live type p t bs :
  holds held live -> (type, p) ∈ held -> live !! p = Some (t, bs) -> type = Z.of_nat t.
Proof. intros Hh (H0 & bs' & Hp)%Hh Hp'. rewrite Hp in Hp'. injection Hp' as <- _. lia. Qed.

Lemma memp_call_refines sh : call_refines memp_exec (pool_step sh) may_call held_after (memp_rel sh).
Proof.
  intros st held live op (fls & Hok & Hr & Hh) Hmay. pose proof (mo_apart _ _ _ Hok) as Hap.
  assert (forall type p, (type, p) ∈ held -> exists t bs, type = Z.of_nat t /\ live !! p = Some (t, bs) /\ p <> 0) as Hheld.
  { intros type p (H0 & bs & Hp)%Hh. exists (Z.to_nat type), bs. split_and!; [lia|done|].
    destruct (rep_elem sh Hap _ _ _ _ _ _ Hr Hp) as (es & sz & Ht & He & _).
    destruct (so_elem _ Hap _ _ _ _ Ht He). lia. }
  destruct op as [type|type p|type p off cs]; cbn [may_call memp_exec] in *.
  - apply Z.leb_le in Hmay. destruct (memp_malloc_spec st sh fls live Hok Hr (Z.to_nat type)) as (r & st' & Heq & Hres).
    rewrite Z2Nat.id in * by done. exists r, st'. destruct r as [p|].
    + destruct Hres as (fls' & bs & Hst & Hok' & Hr'). exists (<[p := (Z.to_nat type, bs)]> live).
      split_and!; [done..|]. exists fls'. split_and!; [done..|]. cbn [held_after].
      assert (live !! p = None) as Hnone by (by inversion Hst).
      intros ty q. rewrite elem_of_cons, (Hh ty q). split.
      * intros [[= -> ->]|[H0 [bs' Hq]]]; [split; [done|exists bs; apply lookup_insert_eq]|].
        split; [done|]. exists bs'. rewrite lookup_insert_ne; [done|congruence].
      * intros [H0 [bs' [[<- [= Ht <-]]|[Hne Hq]]%lookup_insert_Some]]; [left; f_equal; lia|right; eauto].
    + destruct Hres as (Hst & Hok' & Hr'). exists live. split_and!; [done..|]. by exists fls.
  - destruct (Z.eqb_spec p 0) as [->|Hp0].
    + exists None, st, live. assert (live !! 0 = None) as Hnull.
      { apply eq_None_not_Some. intros [[t bs] Hp]. destruct (rep_elem sh Hap _ _ _ _ _ _ Hr Hp) as (es & sz & Ht & He & _).
        destruct (so_elem _ Hap _ _ _ _ Ht He). lia. }
      split_and!; [|constructor|].
      * unfold memp_free. by destruct (negb _).
      * exists fls. split_and!; [done..|]. intros ty q. cbn [held_after]. rewrite list_elem_of_filter, (Hh ty q). cbn [snd].
        split; [tauto|]. intros [H0 [bs Hq]]. split; [congruence|eauto].
    + apply bool_decide_eq_true in Hmay. destruct (Hheld _ _ Hmay) as (t & bs & -> & Hp & _).
      destruct (memp_free_spec st sh fls live Hok Hr t p bs Hp) as (st' & fls' & Heq & Hok' & Hr').
      exists None, st', (delete p live). rewrite Heq. split_and!; [done|by econstructor|].
      exists fls'. split_and!; [done..|]. intros ty q. cbn [held_after]. rewrite list_elem_of_filter, (Hh ty q). cbn [snd].
      setoid_rewrite lookup_delete_Some.
      split; [intros (? & ? & bs' & ?)|intros (? & bs' & ? & ?)]; eauto.
  - apply andb_true_iff in Hmay as [[Hin%bool_decide_eq_true ?%Z.leb_le]%andb_true_iff Hl%Z.leb_le].
    destruct (Hheld _ _ Hin) as (t & bs & -> & Hp & _). rewrite Nat2Z.id in Hl.
    destruct (rep_elem sh Hap _ _ _ _ _ _ Hr Hp) as (es & sz & Ht & He & Hbs).
    assert (default 0 (md_size <$> memp_pools st !! t) = sz) as Hsz.
    { rewrite <- (mo_shape _ _ _ Hok), list_lookup_fmap in Ht. destruct (memp_pools st !! t); [|done]. by injection Ht. }
    rewrite Hsz in Hl. destruct (so_elem _ Hap _ _ _ _ Ht He) as (_ & _ & ?).
    destruct (memp_store_spec st sh fls live Hok Hr t p bs off cs Hp) as (bs' & Ho & Hok' & Hr');
      [done|subst bs; rewrite length_slice; lia|].
    eexists None, _, (<[p := (t, bs')]> live). split_and!; [done|by econstructor|].
    exists fls. split_and!; [done..|]. intros ty q. cbn [held_after]. rewrite (Hh ty q).
    destruct (decide (q = p)) as [->|Hne]; [|by rewrite lookup_insert_ne].
    rewrite lookup_insert_eq, Hp. split; intros [? [? [= -> _]]]; (split; [done|]); eauto.
Qed.

(** ** Initialisation *)

Lemma memp_init_pools_spec m pools :
  Forall desc_ok pools -> pools_apart pools -> Forall (fun d => ms_used (md_stats d) = 0) pools ->
  exists m' pools', memp_init_pools m pools = (m', pools') /\ Forall2 same_elems pools pools' /\
    Forall2 (pool_ok m') pools' ((fun d => reverse (elems d)) <$> pools) /\
    (forall x, (forall d, d ∈ pools -> ~ elem_base d <= x < elem_base d + md_num d * md_size d) -> m' x = m x).
Proof.
  revert m. induction pools as [|d pools IH]; intros m Hd Hap Hu.
  { exists m, []. split_and!; (done || constructor). }
  apply Forall_cons in Hd as [Hd Hds]. apply Forall_cons in Hu as [Hu Hus]. cbn [memp_init_pools].
  destruct (memp_init_pool_spec m d Hd Hu) as (m1 & d' & -> & Hse & Hpo & Hm1).
  destruct (IH m1) as (m2 & pools' & -> & Hses & Hpos & Hm2); [done| |done|].
  { intros i j di dj Hi Hj Hne. apply (Hap (S i) (S j)); (done || lia). }
  exists m2, (d' :: pools'). split; [done|]. split; [by constructor|]. split.
  - constructor; [|done]. apply (pool_ok_ext m1); [|done]. intros a Ha x Hx. symmetry. apply Hm2.
    intros d2 Hd2. rewrite elem_of_reverse in Ha.
    destruct (elem_in_pool d a Hd Ha). apply list_elem_of_lookup in Hd2 as [j Hj].
    destruct Hd as [? _]. destruct (Hap 0%nat (S j) d d2); [done|done|lia|lia..].
  - intros x Hx. rewrite Hm2; [apply Hm1, Hx; by left|]. intros d2 Hd2. apply Hx. by right.
Qed.

Lemma memp_init_rel st :
  Forall desc_ok (memp_pools st) -> pools_apart (memp_pools st) ->
  Forall (fun d => ms_used (md_stats d) = 0) (memp_pools st) ->
  memp_rel (shape <$> memp_pools st) (memp_init st) [] ∅.
Proof.
  intros Hd Hap Hu. unfold memp_init.
  destruct (memp_init_pools_spec (mp_mem st) (memp_pools st) Hd Hap Hu) as (m' & pools' & -> & Hse & Hpo & _).
  exists ((fun d => reverse (elems d)) <$> memp_pools st). split_and!.
  - split; cbn [memp_pools mp_mem]; [done| |by apply pools_shape_ok].
    symmetry. apply list_eq. intros i. rewrite !list_lookup_fmap.
    destruct (proj1 (Forall2_lookup _ _ _) Hse i) as [d d' Hdd|]; [|done]. cbn. f_equal. unfold shape.
    destruct (same_elems_eq _ _ Hdd) as [-> _]. by destruct Hdd as [-> _].
  - intros p t bs. rewrite lookup_empty. split; [done|]. intros (es & sz & fl & Ht & Hf & Hp & Hn & _). exfalso.
    rewrite list_lookup_fmap in Ht. rewrite list_lookup_fmap in Hf. destruct (memp_pools st !! t) as [d|]; [|done].
    injection Ht as <- <-. injection Hf as <-. by rewrite elem_of_reverse in Hn.
  - intros type p. rewrite elem_of_nil, lookup_empty. split; [done|]. by intros [_ [? ?]].
Qed.

(** The counter of a pool is the number of its live elements. *)
Lemma memp_used_live sh st held live t d :
  memp_rel sh st held live -> memp_pools st !! t = Some d ->
  exists ps, NoDup ps /\ (forall p, p ∈ ps <-> exists bs, live !! p = Some (t, bs)) /\
    ms_used (md_stats d) = Z.of_nat (length ps).
Proof.
  intros (fls & Hok & Hr & _) Hd. pose proof Hok as [Hpo Hsh Hap].
  destruct (Forall2_lookup_l _ _ _ _ _ Hpo Hd) as (fl & Hf & Hp). pose proof Hp as [Hdo _ Hnd Hin Hu].
  assert (sh !! t = Some (elems d, md_size d)) as Ht by (by rewrite <- Hsh, list_lookup_fmap, Hd).
  assert (NoDup (elems d)) as Hnde.
  { apply NoDup_fmap_2_strong; [|apply NoDup_seqZ]. intros i j _ _ ?. destruct Hdo as [? _]. nia. }
  exists (filter (fun p => p ∉ fl) (elems d)). split_and!; [by apply NoDup_filter|..].
  - intros p. rewrite list_elem_of_filter. split.
    + intros [Hn He]. exists (slice (mp_mem st) p (md_size d)). apply Hr. by exists (elems d), (md_size d), fl.
    + intros [bs (es & sz & fl' & Ht' & Hf' & He & Hn & _)%Hr]. rewrite Ht in Ht'. injection Ht' as <- <-.
      rewrite Hf in Hf'. by injection Hf' as <-.
  - rewrite Hu. assert (fl ++ filter (fun p => p ∉ fl) (elems d) ≡ₚ elems d) as Hperm.
    { apply NoDup_Permutation; [|done|].
      - apply NoDup_app. split_and!; [done| |by apply NoDup_filter].
        intros p Hpf Hpe. by apply list_elem_of_filter in Hpe as [? _].
      - intros p. rewrite elem_of_app, list_elem_of_filter. destruct (decide (p ∈ fl)) as [Hpf|Hpf]; [|tauto].
        split; [intros _; by apply Hin|by left]. }
    apply Permutation_length in Hperm. rewrite length_app in Hperm. unfold elems in Hperm at 2.
    rewrite length_fmap, length_seqZ in Hperm. destruct Hdo as (_ & _ & ? & _). lia.
Qed.

(** A live element holds its bytes. *)
Lemma memp_rel_slice sh st held live p t bs :
  memp_rel sh st held live -> live !! p = Some (t, bs) -> slice (mp_mem st) p (Z.of_nat (length bs)) = bs.
Proof.
  intros (fls & Hok & Hr & _) (es & sz & fl & Ht & _ & Hp & _ & ->)%Hr.
  destruct (so_elem _ (mo_apart _ _ _ Hok) _ _ _ _ Ht Hp) as (_ & _ & ?).
  rewrite length_slice, Z2Nat.id by lia. done.
Qed.

(** C37. From [memp_init] on, every sequence of calls of a client that keeps to
    the contract returns, without assertion failure or bad read, and does what
    [pool_step] says: an element handed out is aligned, belongs to the pool it
    was asked from and overlaps no live element of any pool; [NULL] comes exactly
    when all elements of the pool are live; no call changes the bytes of a live
    element but the store into it; a freed element can be handed out again.  After
    the sequence, which may end anywhere, every live element holds the bytes that the
    specification has for it.  The
    count of used elements of each pool is the number of its live ones. *)
Theorem memp_refines_client (st : memp_state) (ops : list memp_op) :
  Forall desc_ok (memp_pools st) -> pools_apart (memp_pools st) ->
  Forall (fun d => ms_used (md_stats d) = 0) (memp_pools st) ->
  keeps_contract memp_exec may_call held_after (memp_init st) [] ops = true ->
  exists rs st' live',
    run_calls memp_exec (memp_init st) ops = Ret (rs, st') /\
    spec_run (pool_step (shape <$> memp_pools st)) ∅ ops rs live' /\
    (forall p t bs, live' !! p = Some (t, bs) -> slice (mp_mem st') p (Z.of_nat (length bs)) = bs) /\
    (forall t d, memp_pools st' !! t = Some d ->
      exists ps, NoDup ps /\ (forall p, p ∈ ps <-> exists bs, live' !! p = Some (t, bs)) /\
        ms_used (md_stats d) = Z.of_nat (length ps)).
Proof.
  intros Hd Hap Hu Hk. pose proof (memp_init_rel st Hd Hap Hu) as Hrel.
  destruct (run_calls_refines _ _ _ _ _ ops _ _ _ (memp_call_refines _) Hrel Hk)
    as (rs & st' & held & live' & Hrun & Hspec & Hrel').
  exists rs, st', live'. split_and!; [done..| |].
  - intros p t bs Hp. by eapply memp_rel_slice.
  - intros t d Ht. by eapply memp_used_live.
Qed.

(** Two pools, of two elements of 24 bytes and of one of 280. *)
Definition example_pools : memp_state :=
  MempState (fun _ => 9)
    [MempDesc 24 2 1001 0 (StatsMem 0 0 0 0 0); MempDesc 280 1 2000 0 (StatsMem 0 0 0 0 0)].
Definition example_memp_ops : list memp_op :=
  [MempMalloc 0; MempMalloc 0; MempMalloc 0; MempStore 0 1004 0 [1; 2; 3; 4; 5; 6; 7; 8; 9]; MempMalloc 1;
   MempFree 0 1028; MempFree 0 1004; MempMalloc 0; MempMalloc 7; MempFree 1 0].

Lemma memp_refines_client_witness :
  exists rs st', run_calls memp_exec (memp_init example_pools) example_memp_ops = Ret (rs, st') /\
    rs = [Some 1028; Some 1004; None; None; Some 2000; None; None; Some 1004; None; None].
Proof.
  destruct (memp_refines_client example_pools example_memp_ops) as (rs & st' & live' & Hrun & _).
  - repeat constructor; by vm_compute.
  - intros [|[|i]] [|[|j]] di dj; cbn; intros [= <-] [= <-]; try done; intros _; [left|right]; by vm_compute.
  - by repeat constructor.
  - by vm_compute.
  - exists rs, st'. split; [exact Hrun|].
    assert (fst <$> match run_calls memp_exec (memp_init example_pools) example_memp_ops with Ret x => Some x | _ => None end
      = Some [Some 1028; Some 1004; None; None; Some 2000; None; None; Some 1004; None; None]) as Hr by (by vm_compute).
    rewrite Hrun in Hr. by injection Hr.
Defined.
