(* ===== verification/MempIface.v ===== *)
(** * What the pools of lwIP promise to the code that keeps structs in them

    The code above [memp.c] allocates a struct of some kind, reads and writes its
    fields through pointers, and gives it back.  [MempOps] are the calls,
    [MempLaws] is what it may rely on: which elements are live, that an answer
    is a new one, that [NULL] means all elements are out, and that the bytes of
    one live element change only by writes into it.  [memp_laws] discharges the
    laws with the pools of [Memp]. *)
From S2P Require Import Prelude Memory Align Lwip Pbuf Refinement Memp MempClient.

Class MempOps (P : Type) := {
  mp_malloc : P -> Z -> outcome (option Z * P);
  mp_free : P -> Z -> Z -> outcome P;
  mp_bytes : P -> mem;
  mp_set_bytes : P -> mem -> P }.

(** [mp_live p live]: the elements handed out, each with its pool; [mp_shape]
    is the number and the size of the elements of a pool. *)
Class MempLaws (P : Type) `{!MempOps P} := {
  mp_live : P -> gmap Z Z -> Prop;
  mp_shape : Z -> option (Z * Z);
  mp_bytes_set p m : mp_bytes (mp_set_bytes p m) = m;
  mp_set_set p m m' : mp_set_bytes (mp_set_bytes p m) m' = mp_set_bytes p m';
  mp_live_shape p live a t : mp_live p live -> live !! a = Some t ->
    0 < a < 18446744073709551616 /\ a mod 4 = 0 /\ exists num size, mp_shape t = Some (num, size) /\ 8 <= size;
  mp_live_apart p live a t num size b t' num' size' :
    mp_live p live -> live !! a = Some t -> live !! b = Some t' -> a <> b ->
    mp_shape t = Some (num, size) -> mp_shape t' = Some (num', size') -> a + size <= b \/ b + size' <= a;
  mp_live_count p live t num size ps : mp_live p live -> mp_shape t = Some (num, size) ->
    NoDup ps -> (forall a, a ∈ ps -> live !! a = Some t) -> Z.of_nat (length ps) <= num;
  mp_malloc_law p live t num size : mp_live p live -> mp_shape t = Some (num, size) ->
    exists r p', mp_malloc p t = Ret (r, p') /\ mp_bytes p' = mp_bytes p /\
      match r with
      | Some a => live !! a = None /\ mp_live p' (<[a := t]> live)
      | None => mp_live p' live /\
          exists ps, NoDup ps /\ Z.of_nat (length ps) = num /\ forall a, a ∈ ps -> live !! a = Some t
      end;
  mp_free_law p live a t : mp_live p live -> live !! a = Some t ->
    exists p', mp_free p t a = Ret p' /\ mp_live p' (delete a live) /\
      forall b t' num' size', b <> a -> live !! b = Some t' -> mp_shape t' = Some (num', size') ->
        same_bytes b (b + size') (mp_bytes p) (mp_bytes p');
  mp_set_law p live m : mp_live p live ->
    (forall x, (forall a t num size, live !! a = Some t -> mp_shape t = Some (num, size) -> ~ a <= x < a + size) ->
       m x = mp_bytes p x) -> mp_live (mp_set_bytes p m) live }.

(** ** The pools of [memp.c] *)

#[export] Instance memp_ops : MempOps memp_state := {
  mp_malloc := memp_malloc;
  mp_free := memp_free;
  mp_bytes := mp_mem;
  mp_set_bytes st m := MempState m (memp_pools st) }.

Section memp.
Context (sh : list (list Z * Z)).

Definition pool_types (live : gmap Z (nat * list Z)) : gmap Z Z := (fun x => Z.of_nat x.1) <$> live.
Definition pool_live (st : memp_state) (live : gmap Z Z) : Prop :=
  exists fls blive, memp_ok st sh fls /\ rep (mp_mem st) sh fls blive /\ live = pool_types blive.
Definition pool_shape (t : Z) : option (Z * Z) :=
  if t <? 0 then None else (fun x => (Z.of_nat (length x.1), x.2)) <$> sh !! Z.to_nat t.

Lemma pool_types_lookup blive a t :
  pool_types blive !! a = Some t <-> exists n bs, t = Z.of_nat n /\ blive !! a = Some (n, bs).
Proof.
  unfold pool_types. rewrite lookup_fmap. destruct (blive !! a) as [[n bs]|]; cbn.
  - split; [intros [= <-]; by eexists _, _|]. by intros (? & ? & -> & [= -> ->]).
  - split; [done|]. by intros (? & ? & ? & ?).
Qed.

Lemma pool_shape_some t num size :
  pool_shape t = Some (num, size) <->
  exists n es, t = Z.of_nat n /\ sh !! n = Some (es, size) /\ num = Z.of_nat (length es).
Proof.
  unfold pool_shape. destruct (Z.ltb_spec t 0).
  - split; [done|]. intros (n & es & -> & _). lia.
  - rewrite fmap_Some. split.
    + intros ([es sz] & Hs & [= -> ->]). exists (Z.to_nat t), es. split; [lia|done].
    + intros (n & es & -> & Hs & ->). exists (es, size). by rewrite Nat2Z.id.
Qed.

(** A live element, with what is known of its pool. *)
Lemma pool_live_elem st fls blive a n bs :
  memp_ok st sh fls -> rep (mp_mem st) sh fls blive -> blive !! a = Some (n, bs) ->
  exists d, memp_pools st !! n = Some d /\ sh !! n = Some (elems d, md_size d) /\ desc_ok d /\ a ∈ elems d.
Proof.
  intros Hok Hr Ha. destruct (rep_elem sh (mo_apart _ _ _ Hok) _ _ _ _ _ _ Hr Ha) as (es & sz & Hs & He & _).
  destruct (memp_ok_lookup st sh fls blive Hok Hr n) as (d & fl & Hd & _ & Hs' & Hp); [by eapply lookup_lt_Some|].
  rewrite Hs in Hs'. injection Hs' as -> ->. exists d. by destruct Hp.
Qed.

Lemma elems_nodup d : desc_ok d -> NoDup (elems d).
Proof. intros [? _]. apply NoDup_fmap_2_strong; [|apply NoDup_seqZ]. intros i j _ _ ?. nia. Qed.

Lemma pool_shape_desc st fls blive n es size :
  memp_ok st sh fls -> rep (mp_mem st) sh fls blive -> sh !! n = Some (es, size) ->
  exists d, memp_pools st !! n = Some d /\ es = elems d /\ size = md_size d /\ desc_ok d.
Proof.
  intros Hok Hr Hs. destruct (memp_ok_lookup st sh fls blive Hok Hr n) as (d & fl & Hd & _ & Hs' & Hp); [by eapply lookup_lt_Some|].
  rewrite Hs in Hs'. injection Hs' as -> ->. exists d. by destruct Hp.
Qed.

#[export] Program Instance memp_laws : MempLaws memp_state := {
  mp_live := pool_live;
  mp_shape := pool_shape }.
Next Obligation. done. Qed.
Next Obligation. done. Qed.
Next Obligation.
  intros st live a t (fls & bl & Hok & Hr & ->) (n & bs & -> & Ha)%pool_types_lookup.
  destruct (pool_live_elem _ _ _ _ _ _ Hok Hr Ha) as (d & Hd & Hs & Hdo & He).
  destruct (elem_ok d a Hdo He) as [? ?]. split; [lia|]. split; [done|].
  eexists _, (md_size d). split; [|destruct Hdo; lia]. apply pool_shape_some. by eexists _, (elems d).
Qed.
Next Obligation.
  intros st live a t num size b t' num' size' (fls & bl & Hok & Hr & ->).
  intros (n & bs & -> & Ha)%pool_types_lookup (n' & bs' & -> & Hb)%pool_types_lookup Hne.
  intros (k & es & Hk%Nat2Z.inj & Hs & _)%pool_shape_some (k' & es' & Hk'%Nat2Z.inj & Hs' & _)%pool_shape_some. subst k k'.
  destruct (pool_live_elem _ _ _ _ _ _ Hok Hr Ha) as (d & _ & Hsd & _ & He).
  destruct (pool_live_elem _ _ _ _ _ _ Hok Hr Hb) as (d' & _ & Hsd' & _ & He').
  rewrite Hs in Hsd. rewrite Hs' in Hsd'. injection Hsd as -> ->. injection Hsd' as -> ->.
  by apply (so_apart sh (mo_apart _ _ _ Hok) n (elems d) (md_size d) n' (elems d') (md_size d') a b).
Qed.
Next Obligation.
  intros st live t num size ps (fls & bl & Hok & Hr & ->) (n & es & -> & Hs & ->)%pool_shape_some Hnd Hps.
  destruct (pool_shape_desc _ _ _ _ _ _ Hok Hr Hs) as (d & _ & -> & -> & Hdo).
  assert (length ps <= length (elems d))%nat; [|lia].
  apply submseteq_length, NoDup_submseteq; [done|]. intros a (k & bs & Hk%Nat2Z.inj & Ha)%Hps%pool_types_lookup. subst k.
  destruct (pool_live_elem _ _ _ _ _ _ Hok Hr Ha) as (d' & _ & Hs' & _ & He). rewrite Hs in Hs'. injection Hs' as -> _. done.
Qed.
Next Obligation.
  intros st live t num size (fls & bl & Hok & Hr & ->) (n & es & -> & Hs & ->)%pool_shape_some.
  destruct (memp_malloc_spec st sh fls bl Hok Hr n) as (r & st' & Heq & Hres). exists r, st'. split; [done|].
  assert (mp_mem st' = mp_mem st) as Hm.
  { unfold memp_malloc in Heq. destruct (negb _); [by injection Heq as _ <-|].
    destruct (memp_pools st !! _); [|done]. cbn in Heq. destruct (do_memp_malloc_pool _ _) as [[]| | |]; try done.
    by injection Heq as _ <-. }
  split; [done|]. destruct r as [a|].
  - destruct Hres as (fls' & bs & Hst & Hok' & Hr'). inversion Hst as [t' es' sz' p' bs' ? ? Hnone| | | | |]; simplify_eq. split.
    + unfold pool_types. by rewrite lookup_fmap, Hnone.
    + exists fls', (<[a := (n, bs)]> bl). split_and!; [done..|]. unfold pool_types. by rewrite fmap_insert.
  - destruct Hres as (Hst & Hok' & Hr'). split; [by exists fls, bl|].
    destruct (pool_shape_desc _ _ _ _ _ _ Hok Hr Hs) as (d & _ & -> & -> & Hdo).
    exists (elems d). split_and!; [by apply elems_nodup|done|]. intros a Ha. apply pool_types_lookup.
    inversion Hst as [|t' es' sz' Hs' Hall Ht'| type Hlt Ht'| | |].
    + apply Nat2Z.inj in Ht'. subst t'. rewrite Hs in Hs'. injection Hs' as <- <-. destruct (Hall a Ha) as [bs Hb]. by exists n, bs.
    + apply lookup_lt_Some in Hs. lia.
Qed.
Next Obligation.
  intros st live a t (fls & bl & Hok & Hr & ->) (n & bs & -> & Ha)%pool_types_lookup.
  destruct (memp_free_spec st sh fls bl Hok Hr n a bs Ha) as (st' & fls' & Heq & Hok' & Hr').
  exists st'. split; [done|]. split.
  { exists fls', (delete a bl). split_and!; [done..|]. unfold pool_types. by rewrite fmap_delete. }
  intros b t' num' size' Hne (n' & bs' & -> & Hb)%pool_types_lookup (k & es & Hk%Nat2Z.inj & Hs & _)%pool_shape_some. subst k.
  intros x Hx. pose proof Hb as (es1 & sz1 & fl1 & Hs1 & _ & _ & _ & Hbs)%Hr. rewrite Hs in Hs1. injection Hs1 as <- <-.
  assert (delete a bl !! b = Some (n', bs')) as Hb' by (by rewrite lookup_delete_ne).
  pose proof Hb' as (es2 & sz2 & fl2 & Hs2 & _ & _ & _ & Hbs2)%Hr'. rewrite Hs in Hs2. injection Hs2 as <- <-.
  assert (slice (mp_mem st) b size' !! Z.to_nat (x - b) = slice (mp_mem st') b size' !! Z.to_nat (x - b)) as Hl by congruence.
  rewrite !lookup_slice in Hl by lia. injection Hl as Hl. by replace (b + Z.of_nat (Z.to_nat (x - b))) with x in Hl by lia.
Qed.
Next Obligation.
  intros st live m (fls & bl & Hok & Hr & ->) Hm.
  set (bl' := map_imap (fun p x => Some (x.1, slice m p (default 0 (snd <$> sh !! x.1)))) bl).
  assert (forall x, (forall p n bs es sz, bl !! p = Some (n, bs) -> sh !! n = Some (es, sz) -> ~ p <= x < p + sz) ->
    m x = mp_mem st x) as Hm'.
  { intros x Hx. apply Hm. intros a t num size (n & bs & -> & Ha)%pool_types_lookup (k & es & Hk%Nat2Z.inj & Hs & _)%pool_shape_some.
    subst k. by eapply Hx. }
  destruct (memp_writes_spec st sh fls bl Hok Hr m Hm') as [Hok' Hr'].
  exists fls, bl'. split; [exact Hok'|]. split; [exact Hr'|]. apply map_eq. intros p. unfold pool_types, bl'.
  rewrite !lookup_fmap, map_lookup_imap. by destruct (bl !! p) as [[n bs]|].
Qed.
End memp.

(** After [memp_init] nothing is live. *)
Lemma memp_init_live st :
  Forall desc_ok (memp_pools st) -> pools_apart (memp_pools st) ->
  Forall (fun d => ms_used (md_stats d) = 0) (memp_pools st) ->
  pool_live (shape <$> memp_pools st) (memp_init st) ∅.
Proof.
  intros Hd Hap Hu. destruct (memp_init_rel st Hd Hap Hu) as (fls & Hok & Hr & _).
  exists fls, ∅. split_and!; [done..|]. unfold pool_types. by rewrite fmap_empty.
Qed.

(** The two conditions on the declarations, to be evaluated. *)
Definition desc_ok_b (d : memp_desc) : bool :=
  (8 <=? md_size d) && (md_size d <? 65536) && (md_size d mod 4 =? 0) && (0 <=? md_num d) && (md_num d <? 65536) &&
  (0 <? md_base d) && (md_base d <? 18446744000000000000).

Definition before_b (d d' : memp_desc) : bool := elem_base d + md_num d * md_size d <=? elem_base d'.

Fixpoint ascending_b (pools : list memp_desc) : bool :=
  match pools with
  | [] => true
  | d :: pools => forallb (before_b d) pools && ascending_b pools
  end.

Lemma desc_ok_b_spec pools : forallb desc_ok_b pools = true -> Forall desc_ok pools.
Proof.
  rewrite forallb_forall, Forall_forall. setoid_rewrite <- list_elem_of_In. intros Hall d Hd. specialize (Hall d Hd).
  unfold desc_ok_b in Hall. rewrite !andb_true_iff, !Z.leb_le, !Z.ltb_lt, Z.eqb_eq in Hall. unfold desc_ok. lia.
Qed.

Lemma ascending_apart pools : ascending_b pools = true -> pools_apart pools.
Proof.
  induction pools as [|d pools IH]; cbn [ascending_b]; [by intros _ [|?]|].
  intros [Hd Hp]%andb_true_iff. rewrite forallb_forall in Hd.
  assert (forall i d', pools !! i = Some d' -> elem_base d + md_num d * md_size d <= elem_base d') as Hb.
  { intros i d' Hi. apply Z.leb_le, Hd, list_elem_of_In. by eapply list_elem_of_lookup_2. }
  intros [|i] [|j] di dj; cbn; [done|..].
  - intros [= <-] Hj _. left. by eapply Hb.
  - intros Hi [= <-] _. right. by eapply Hb.
  - intros Hi Hj Hne. apply (IH Hp i j); (done || congruence).
Qed.
