(* ===== verification/Timeouts.v ===== *)
(** * The timers of lwIP ([lwip/src/core/timeouts.c])

    One list of timeouts, sorted by the time they are due, threaded through
    elements of the pool [MEMP_SYS_TIMEOUT].  Times are milliseconds in 32 bits
    that wrap around after 49 days.  The main loop calls [sys_check_timeouts];
    the stack's own timers put themselves back into the list.

    The code of a handler that is not in this file (the timer of ARP, say) is
    unknown: what it may do to the timers is a list of [timer_call]s, among which
    time passes. *)
From S2P Require Import Prelude Memory Align Lwip Pbuf Memp MempIface.

(** ** [struct sys_timeo], in an element of the pool *)

Definition timeo_next (m : mem) (t : Z) : Z := load64 m t.
Definition timeo_time (m : mem) (t : Z) : Z := load32 m (t + 8).
Definition timeo_h (m : mem) (t : Z) : Z := load64 m (t + 16).
Definition timeo_arg (m : mem) (t : Z) : Z := load64 m (t + 24).
Definition set_timeo_next (m : mem) (t v : Z) : mem := store64 m t v.
Definition set_timeo_time (m : mem) (t v : Z) : mem := store32 m (t + 8) v.
Definition set_timeo_h (m : mem) (t v : Z) : mem := store64 m (t + 16) v.
Definition set_timeo_arg (m : mem) (t v : Z) : mem := store64 m (t + 24) v.
Definition SIZEOF_SYS_TIMEO : Z := 32.

(** The index of the pool in this configuration, and its elements. *)
Definition MEMP_SYS_TIMEOUT : Z := 10.
Definition MEMP_NUM_SYS_TIMEOUT : Z := 17.

Definition LWIP_MAX_TIMEOUT : Z := 2147483647.
Definition LWIP_UINT32_MAX : Z := 4294967295.
Definition SYS_TIMEOUTS_SLEEPTIME_INFINITE : Z := 4294967295.
Definition TIME_LESS_THAN (t compare_to : Z) : bool := LWIP_MAX_TIMEOUT <? u32 (t - compare_to).

(** ** The cyclic timers of this configuration *)

Definition TCP_TMR_INTERVAL : Z := 1.

Inductive cyclic_handler :=
  | tcp_tmr | ip_reass_tmr | etharp_tmr | dhcp_coarse_tmr | dhcp_fine_tmr | acd_tmr
  | igmp_tmr | dns_tmr | nd6_tmr | ip6_reass_tmr | mld6_tmr.

Definition lwip_cyclic_timers : list (Z * cyclic_handler) :=
  [(TCP_TMR_INTERVAL, tcp_tmr); (1000, ip_reass_tmr); (1000, etharp_tmr); (60000, dhcp_coarse_tmr);
   (500, dhcp_fine_tmr); (100, acd_tmr); (100, igmp_tmr); (1000, dns_tmr);
   (1000, nd6_tmr); (1000, ip6_reass_tmr); (100, mld6_tmr)].

(** Where the linker puts the two handlers of this file and the table; an entry
    of the table has 16 bytes. *)
Class TimerSymbols := {
  lwip_cyclic_timer_addr : Z;
  tcpip_tcp_timer_addr : Z;
  lwip_cyclic_timers_addr : Z }.

(** What a handler that is not in this file may do. *)
Inductive timer_call :=
  | Elapse (ms : Z)
  | SetTcpPcbs (active tw : bool)
  | Timeout (msecs h arg : Z)
  | Untimeout (h arg : Z)
  | TimerNeeded.

Section timeouts.
Context {P : Type} `{!MempOps P} `{!TimerSymbols}.

(** The globals, the pools, and of the rest of the world: the clock in
    milliseconds, whether TCP has active or closing connections, and how many
    unknown handlers ran. *)
Record timers := Timers {
  tm_pool : P;
  next_timeout : Z;
  current_timeout_due_time : Z;
  tcpip_tcp_timer_active : bool;
  tm_clock : Z;
  tcp_active_pcbs : bool;
  tcp_tw_pcbs : bool;
  tm_ran : nat }.

Implicit Types (st : timers).
Definition tm_mem st : mem := mp_bytes (tm_pool st).
Definition tm_set_pool st (p : P) : timers :=
  Timers p (next_timeout st) (current_timeout_due_time st) (tcpip_tcp_timer_active st) (tm_clock st)
    (tcp_active_pcbs st) (tcp_tw_pcbs st) (tm_ran st).
Definition tm_set_mem st (m : mem) : timers := tm_set_pool st (mp_set_bytes (tm_pool st) m).
Definition set_next_timeout st (t : Z) : timers :=
  Timers (tm_pool st) t (current_timeout_due_time st) (tcpip_tcp_timer_active st) (tm_clock st)
    (tcp_active_pcbs st) (tcp_tw_pcbs st) (tm_ran st).
Definition set_due_time st (t : Z) : timers :=
  Timers (tm_pool st) (next_timeout st) t (tcpip_tcp_timer_active st) (tm_clock st)
    (tcp_active_pcbs st) (tcp_tw_pcbs st) (tm_ran st).
Definition set_timer_active st (b : bool) : timers :=
  Timers (tm_pool st) (next_timeout st) (current_timeout_due_time st) b (tm_clock st)
    (tcp_active_pcbs st) (tcp_tw_pcbs st) (tm_ran st).
Definition tm_elapse st (ms : Z) : timers :=
  Timers (tm_pool st) (next_timeout st) (current_timeout_due_time st) (tcpip_tcp_timer_active st)
    (tm_clock st + ms) (tcp_active_pcbs st) (tcp_tw_pcbs st) (tm_ran st).
Definition tm_set_pcbs st (active tw : bool) : timers :=
  Timers (tm_pool st) (next_timeout st) (current_timeout_due_time st) (tcpip_tcp_timer_active st)
    (tm_clock st) active tw (tm_ran st).
Definition tm_count st : timers :=
  Timers (tm_pool st) (next_timeout st) (current_timeout_due_time st) (tcpip_tcp_timer_active st)
    (tm_clock st) (tcp_active_pcbs st) (tcp_tw_pcbs st) (S (tm_ran st)).

Definition sys_now st : Z := u32 (tm_clock st).

(** The [for] loop that looks for the place of [timeout]. *)
Fixpoint timeout_insert_loop (fuel : nat) (m : mem) (timeout t : Z) : outcome mem :=
  match fuel with
  | O => NoFuel
  | S fuel =>
      if t =? 0 then Ret m
      else if (timeo_next m t =? 0) || TIME_LESS_THAN (timeo_time m timeout) (timeo_time m (timeo_next m t)) then
        let m := set_timeo_next m timeout (timeo_next m t) in
        Ret (set_timeo_next m t timeout)
      else timeout_insert_loop fuel m timeout (timeo_next m t)
  end.

(** A list cannot have more timeouts than the pool, and one for its end. *)
Definition timeout_fuel : nat := Z.to_nat (MEMP_NUM_SYS_TIMEOUT + 1).

Definition sys_timeout_abs st (abs_time h arg : Z) : outcome timers :=
  '(r, pool) ← mp_malloc (tm_pool st) MEMP_SYS_TIMEOUT;
  let st := tm_set_pool st pool in
  match r with
  | None => _ ← LWIP_ASSERT false; Ret st
  | Some timeout =>
      let m := set_timeo_next (tm_mem st) timeout 0 in
      let m := set_timeo_h m timeout h in
      let m := set_timeo_arg m timeout arg in
      let m := set_timeo_time m timeout abs_time in
      let st := tm_set_mem st m in
      if next_timeout st =? 0 then Ret (set_next_timeout st timeout)
      else if TIME_LESS_THAN (timeo_time m timeout) (timeo_time m (next_timeout st)) then
        let st := tm_set_mem st (set_timeo_next m timeout (next_timeout st)) in
        Ret (set_next_timeout st timeout)
      else
        m ← timeout_insert_loop timeout_fuel m timeout (next_timeout st);
        Ret (tm_set_mem st m)
  end.

Definition sys_timeout st (msecs h arg : Z) : outcome timers :=
  _ ← LWIP_ASSERT (msecs <=? LWIP_UINT32_MAX / 4);
  let next_timeout_time := u32 (sys_now st + msecs) in
  sys_timeout_abs st next_timeout_time h arg.

(** The [for] loop over the list; [None] is [prev_t = NULL]. *)
Fixpoint untimeout_loop (fuel : nat) st (prev_t : option Z) (t h arg : Z) : outcome timers :=
  match fuel with
  | O => NoFuel
  | S fuel =>
      if t =? 0 then Ret st
      else
        let m := tm_mem st in
        if (timeo_h m t =? h) && (timeo_arg m t =? arg) then
          let st := match prev_t with
                    | None => set_next_timeout st (timeo_next m t)
                    | Some prev_t => tm_set_mem st (set_timeo_next m prev_t (timeo_next m t))
                    end in
          pool ← mp_free (tm_pool st) MEMP_SYS_TIMEOUT t;
          Ret (tm_set_pool st pool)
        else untimeout_loop fuel st (Some t) (timeo_next m t) h arg
  end.

Definition sys_untimeout st (h arg : Z) : outcome timers :=
  if next_timeout st =? 0 then Ret st
  else untimeout_loop timeout_fuel st None (next_timeout st) h arg.

Definition tcp_timer_needed st : outcome timers :=
  if negb (tcpip_tcp_timer_active st) && (tcp_active_pcbs st || tcp_tw_pcbs st) then
    sys_timeout (set_timer_active st true) TCP_TMR_INTERVAL tcpip_tcp_timer_addr 0
  else Ret st.

Definition timer_call_exec st (c : timer_call) : outcome timers :=
  match c with
  | Elapse ms => Ret (tm_elapse st ms)
  | SetTcpPcbs active tw => Ret (tm_set_pcbs st active tw)
  | Timeout msecs h arg => sys_timeout st msecs h arg
  | Untimeout h arg => sys_untimeout st h arg
  | TimerNeeded => tcp_timer_needed st
  end.

Fixpoint timer_calls_exec st (cs : list timer_call) : outcome timers :=
  match cs with
  | [] => Ret st
  | c :: cs => st ← timer_call_exec st c; timer_calls_exec st cs
  end.

(** [handlers n] is what the [n]-th unknown handler does. *)
Context (handlers : nat -> list timer_call).

Definition run_unknown st : outcome timers :=
  timer_calls_exec (tm_count st) (handlers (tm_ran st)).

Definition tcpip_tcp_timer st : outcome timers :=
  st ← run_unknown st;   (* tcp_tmr() *)
  if tcp_active_pcbs st || tcp_tw_pcbs st
  then sys_timeout st TCP_TMR_INTERVAL tcpip_tcp_timer_addr 0
  else Ret (set_timer_active st false).

(** The entry of the table [arg] points to. *)
Definition cyclic_at (arg : Z) : option (Z * cyclic_handler) :=
  let off := arg - lwip_cyclic_timers_addr in
  if (0 <=? off) && (off mod 16 =? 0) then lwip_cyclic_timers !! Z.to_nat (off / 16) else None.

Definition lwip_cyclic_timer st (arg : Z) : outcome timers :=
  cyclic ← deref (cyclic_at arg);
  let interval_ms := cyclic.1 in
  st ← run_unknown st;   (* cyclic->handler() *)
  let now := sys_now st in
  let next_timeout_time := u32 (current_timeout_due_time st + interval_ms) in
  if TIME_LESS_THAN next_timeout_time now
  then sys_timeout_abs st (u32 (now + interval_ms)) lwip_cyclic_timer_addr arg
  else sys_timeout_abs st next_timeout_time lwip_cyclic_timer_addr arg.

Definition cyclic_arg (i : Z) : Z := lwip_cyclic_timers_addr + 16 * i.

Fixpoint init_loop st (i : Z) (cyclics : list (Z * cyclic_handler)) : outcome timers :=
  match cyclics with
  | [] => Ret st
  | cyclic :: cyclics =>
      st ← sys_timeout st cyclic.1 lwip_cyclic_timer_addr (cyclic_arg i);
      init_loop st (i + 1) cyclics
  end.

Definition sys_timeouts_init st : outcome timers := init_loop st 1 (drop 1 lwip_cyclic_timers).

(** [handler(arg)]. *)
Definition call_handler st (handler arg : Z) : outcome timers :=
  if handler =? lwip_cyclic_timer_addr then lwip_cyclic_timer st arg
  else if handler =? tcpip_tcp_timer_addr then tcpip_tcp_timer st
  else run_unknown st.

(** The [do] loop; the result lists the handlers called, with the times they
    were due and their arguments.  Freeing the segments TCP could not deliver
    ([PBUF_CHECK_FREE_OOSEQ]) leaves the timers alone. *)
Fixpoint check_timeouts_loop (fuel : nat) (now : Z) st : outcome (list (Z * Z * Z) * timers) :=
  match fuel with
  | O => NoFuel
  | S fuel =>
      let tmptimeout := next_timeout st in
      let m := tm_mem st in
      if tmptimeout =? 0 then Ret ([], st)
      else if TIME_LESS_THAN now (timeo_time m tmptimeout) then Ret ([], st)
      else
        let st := set_next_timeout st (timeo_next m tmptimeout) in
        let handler := timeo_h m tmptimeout in
        let arg := timeo_arg m tmptimeout in
        let st := set_due_time st (timeo_time m tmptimeout) in
        pool ← mp_free (tm_pool st) MEMP_SYS_TIMEOUT tmptimeout;
        let st := tm_set_pool st pool in
        st ← (if negb (handler =? 0) then call_handler st handler arg else Ret st);
        '(called, st) ← check_timeouts_loop fuel now st;
        Ret ((timeo_time m tmptimeout, handler, arg) :: called, st)
  end.

(** A timer that runs can be due once more at the same time, but not a third
    time. *)
Definition check_fuel : nat := Z.to_nat (2 * MEMP_NUM_SYS_TIMEOUT + 1).

Definition sys_check_timeouts st : outcome (list (Z * Z * Z) * timers) :=
  check_timeouts_loop check_fuel (sys_now st) st.

Fixpoint restart_loop (fuel : nat) (m : mem) (t base now : Z) : outcome mem :=
  match fuel with
  | O => NoFuel
  | S fuel =>
      if t =? 0 then Ret m
      else
        let m := set_timeo_time m t (u32 (u32 (timeo_time m t - base) + now)) in
        restart_loop fuel m (timeo_next m t) base now
  end.

Definition sys_restart_timeouts st : outcome timers :=
  if next_timeout st =? 0 then Ret st
  else
    let now := sys_now st in
    let base := timeo_time (tm_mem st) (next_timeout st) in
    m ← restart_loop timeout_fuel (tm_mem st) (next_timeout st) base now;
    Ret (tm_set_mem st m).

Definition sys_timeouts_sleeptime st : outcome Z :=
  if next_timeout st =? 0 then Ret SYS_TIMEOUTS_SLEEPTIME_INFINITE
  else
    let now := sys_now st in
    let time := timeo_time (tm_mem st) (next_timeout st) in
    if TIME_LESS_THAN time now then Ret 0
    else
      let ret := u32 (time - now) in
      _ ← LWIP_ASSERT (ret <=? LWIP_MAX_TIMEOUT);
      Ret ret.
End timeouts.
Arguments timers P : clear implicits.
