(* ===== verification/Schedule.v ===== *)
(** * The schedule the timers of lwIP implement

    What [Timeouts] promises, without memory and with a clock that does not
    wrap around: a list of entries in the order they are due, first come first
    served among those due in the same millisecond.  An operation that breaks
    the contract of its caller is [Undefined] here: a time out of range, more
    timeouts than the pool has, a clock that runs ahead of the oldest entry by
    more than [LATE]. *)
From Stdlib Require Import Sorted.
From S2P Require Import Prelude Memory Lwip Pbuf Timeouts.

Record entry := Entry { e_due : Z; e_h : Z; e_arg : Z }.

#[export] Instance entry_eq_dec : EqDecision entry.
Proof. solve_decision. Defined.

Fixpoint insert_entry (e : entry) (l : list entry) : list entry :=
  match l with
  | [] => [e]
  | x :: l => if e_due e <? e_due x then e :: x :: l else x :: insert_entry e l
  end.

Definition entry_is (h arg : Z) (e : entry) : bool := (e_h e =? h) && (e_arg e =? arg).

Fixpoint remove_entry (h arg : Z) (l : list entry) : list entry :=
  match l with
  | [] => []
  | e :: l => if entry_is h arg e then l else e :: remove_entry h arg l
  end.

(** Six days: how late the main loop may be; and how far apart two entries of
    the list then are. *)
Definition LATE : Z := 536870912.
Definition SPAN : Z := 1610612735.

Record schedule := Schedule {
  s_entries : list entry; s_due : Z; s_active : bool; s_clock : Z;
  s_pcbs : bool; s_tw : bool; s_ran : nat }.
Definition s_set_entries (s : schedule) (l : list entry) : schedule :=
  Schedule l (s_due s) (s_active s) (s_clock s) (s_pcbs s) (s_tw s) (s_ran s).
Definition s_set_active (s : schedule) (b : bool) : schedule :=
  Schedule (s_entries s) (s_due s) b (s_clock s) (s_pcbs s) (s_tw s) (s_ran s).
Definition s_elapse (s : schedule) (ms : Z) : schedule :=
  Schedule (s_entries s) (s_due s) (s_active s) (s_clock s + ms) (s_pcbs s) (s_tw s) (s_ran s).
Definition s_set_pcbs (s : schedule) (active tw : bool) : schedule :=
  Schedule (s_entries s) (s_due s) (s_active s) (s_clock s) active tw (s_ran s).
Definition s_count (s : schedule) : schedule :=
  Schedule (s_entries s) (s_due s) (s_active s) (s_clock s) (s_pcbs s) (s_tw s) (S (s_ran s)).
Definition s_pop (s : schedule) (e : entry) (l : list entry) : schedule :=
  Schedule l (e_due e) (s_active s) (s_clock s) (s_pcbs s) (s_tw s) (s_ran s).

(** The contract. *)
Definition guard (b : bool) : outcome unit := if b then Ret tt else Undefined.
Definition word (z : Z) : bool := (0 <=? z) && (z <? 18446744073709551616).
Definition on_time (s : schedule) : bool := forallb (fun e => s_clock s - LATE <=? e_due e) (s_entries s).

Section schedule.
Context `{!TimerSymbols} (handlers : nat -> list timer_call).
Implicit Types (s : schedule).

Definition s_add s (due h arg : Z) : outcome schedule :=
  _ ← guard ((Z.of_nat (length (s_entries s)) <? MEMP_NUM_SYS_TIMEOUT) && word h && word arg);
  Ret (s_set_entries s (insert_entry (Entry due h arg) (s_entries s))).

Definition s_timeout s (msecs h arg : Z) : outcome schedule :=
  _ ← guard ((0 <? msecs) && (msecs <=? LWIP_UINT32_MAX / 4));
  s_add s (s_clock s + msecs) h arg.

Definition s_untimeout s (h arg : Z) : schedule := s_set_entries s (remove_entry h arg (s_entries s)).

Definition s_needed s : outcome schedule :=
  if negb (s_active s) && (s_pcbs s || s_tw s)
  then s_timeout (s_set_active s true) TCP_TMR_INTERVAL tcpip_tcp_timer_addr 0
  else Ret s.

Definition s_call s (c : timer_call) : outcome schedule :=
  match c with
  | Elapse ms => _ ← guard ((0 <=? ms) && on_time (s_elapse s ms)); Ret (s_elapse s ms)
  | SetTcpPcbs active tw => Ret (s_set_pcbs s active tw)
  | Timeout msecs h arg => s_timeout s msecs h arg
  | Untimeout h arg => Ret (s_untimeout s h arg)
  | TimerNeeded => s_needed s
  end.

Fixpoint s_calls s (cs : list timer_call) : outcome schedule :=
  match cs with [] => Ret s | c :: cs => s ← s_call s c; s_calls s cs end.

Definition s_unknown s : outcome schedule := s_calls (s_count s) (handlers (s_ran s)).

Definition s_tcp_timer s : outcome schedule :=
  s ← s_unknown s;
  if s_pcbs s || s_tw s
  then s_timeout s TCP_TMR_INTERVAL tcpip_tcp_timer_addr 0
  else Ret (s_set_active s false).

(** A cyclic timer keeps its period, unless that is already over. *)
Definition s_cyclic s (arg : Z) : outcome schedule :=
  cyclic ← deref (cyclic_at arg);
  s ← s_unknown s;
  _ ← guard (s_clock s - LATE <=? s_due s);
  if s_due s + cyclic.1 <? s_clock s
  then s_add s (s_clock s + cyclic.1) lwip_cyclic_timer_addr arg
  else s_add s (s_due s + cyclic.1) lwip_cyclic_timer_addr arg.

Definition s_handler s (h arg : Z) : outcome schedule :=
  if h =? 0 then Ret s
  else if h =? lwip_cyclic_timer_addr then s_cyclic s arg
  else if h =? tcpip_tcp_timer_addr then s_tcp_timer s
  else s_unknown s.

(** Everything that is due at [now] runs. *)
Fixpoint s_check_loop (fuel : nat) (now : Z) s : outcome (list entry * schedule) :=
  match fuel with
  | O => NoFuel
  | S fuel =>
      match s_entries s with
      | [] => Ret ([], s)
      | e :: l =>
          if now <? e_due e then Ret ([], s)
          else
            s ← s_handler (s_pop s e l) (e_h e) (e_arg e);
            _ ← guard (s_clock s - LATE <=? now);
            '(called, s) ← s_check_loop fuel now s;
            Ret (e :: called, s)
      end
  end.

Definition s_check s : outcome (list entry * schedule) := s_check_loop check_fuel (s_clock s) s.

(** An entry as late or as early as before, when the list starts now. *)
Definition moved_entry (base now : Z) (e : entry) : entry := Entry (e_due e - base + now) (e_h e) (e_arg e).

Definition s_restart s : schedule :=
  match s_entries s with
  | [] => s
  | x :: _ => s_set_entries s (moved_entry (e_due x) (s_clock s) <$> s_entries s)
  end.

Definition s_sleeptime s : Z :=
  match s_entries s with
  | [] => SYS_TIMEOUTS_SLEEPTIME_INFINITE
  | e :: _ => Z.max 0 (e_due e - s_clock s)
  end.

Lemma cyclic_at_arg i : 0 <= i -> cyclic_at (cyclic_arg i) = lwip_cyclic_timers !! Z.to_nat i.
Proof.
  intros Hi. unfold cyclic_at, cyclic_arg. cbv zeta.
  replace (lwip_cyclic_timers_addr + 16 * i - lwip_cyclic_timers_addr) with (i * 16) by lia.
  rewrite Z.mod_mul, Z.div_mul by done. destruct (Z.leb_spec 0 (i * 16)); [done|lia].
Qed.

(** [sys_timeouts_init] as a list of calls. *)
Definition init_calls (i : Z) (cyclics : list (Z * cyclic_handler)) : list timer_call :=
  imap (fun k c => Timeout c.1 lwip_cyclic_timer_addr (cyclic_arg (i + Z.of_nat k))) cyclics.

Lemma init_calls_cons i c cyclics :
  init_calls i (c :: cyclics) = Timeout c.1 lwip_cyclic_timer_addr (cyclic_arg i) :: init_calls (i + 1) cyclics.
Proof.
  unfold init_calls. cbn [imap]. rewrite Z.add_0_r. f_equal. apply imap_ext. intros k x _. cbn. do 2 f_equal. lia.
Qed.

Definition s_init (s : schedule) : outcome schedule := s_calls s (init_calls 1 (drop 1 lwip_cyclic_timers)).

(** ** The schedule is in order *)

Definition sorted (l : list entry) : Prop := StronglySorted (fun x y => e_due x <= e_due y) l.

Record sched_ok s : Prop := SchedOk {
  so_sorted : sorted (s_entries s);
  so_window : forall e, e ∈ s_entries s -> s_clock s - LATE <= e_due e <= s_clock s + SPAN;
  so_span : forall x y, x ∈ s_entries s -> y ∈ s_entries s -> e_due x - e_due y <= SPAN;
  so_word : forall e, e ∈ s_entries s -> word (e_h e) = true /\ word (e_arg e) = true;
  so_room : Z.of_nat (length (s_entries s)) <= MEMP_NUM_SYS_TIMEOUT }.

Lemma insert_entry_perm e l : insert_entry e l ≡ₚ e :: l.
Proof.
  induction l as [|x l IH]; cbn [insert_entry]; [done|]. destruct (_ <? _); [done|]. rewrite IH. by constructor.
Qed.

Lemma elem_of_insert e x l : x ∈ insert_entry e l <-> x = e \/ x ∈ l.
Proof. by rewrite insert_entry_perm, elem_of_cons. Qed.

Lemma length_insert_entry e l : length (insert_entry e l) = S (length l).
Proof. by rewrite insert_entry_perm. Qed.

Lemma insert_entry_sorted e l : sorted l -> sorted (insert_entry e l).
Proof.
  unfold sorted. induction 1 as [|x l Hs IH Hx]; cbn [insert_entry]; [by repeat constructor|].
  destruct (Z.ltb_spec (e_due e) (e_due x)).
  - constructor; [by constructor|]. constructor; [lia|]. eapply Forall_impl; [exact Hx|]. intros y ?. cbn in *. lia.
  - constructor; [done|]. rewrite Forall_forall in *. intros y [->|Hy]%elem_of_insert; [lia|by apply Hx].
Qed.

(** Entries due no later keep their place in front of a new one. *)
Lemma insert_entry_app e l1 l2 :
  (forall x, x ∈ l1 -> e_due x <= e_due e) -> insert_entry e (l1 ++ l2) = l1 ++ insert_entry e l2.
Proof.
  induction l1 as [|x l1 IH]; intros Hl; [done|]. cbn [insert_entry app].
  destruct (Z.ltb_spec (e_due e) (e_due x)) as [Hlt|]; [specialize (Hl x ltac:(by left)); lia|].
  rewrite IH; [done|]. intros y Hy. apply Hl. by right.
Qed.

Lemma remove_entry_sublist h arg l : remove_entry h arg l `sublist_of` l.
Proof. induction l as [|e l IH]; cbn [remove_entry]; [done|]. destruct (entry_is h arg e); by constructor. Qed.

Lemma sublist_sorted l l' : l' `sublist_of` l -> sorted l -> sorted l'.
Proof.
  unfold sorted. induction 1 as [|x l1 l2 Hsub IH|x l1 l2 Hsub IH]; intros Hs; inversion Hs; subst; [done| |by apply IH].
  constructor; [by apply IH|]. rewrite Forall_forall in *. intros y Hy.
  match goal with H : forall _, _ |- _ => apply H end. eapply elem_of_submseteq; [exact Hy|by apply sublist_submseteq].
Qed.

(** ** The operations keep it in order *)

Lemma sched_ok_sublist s l : sched_ok s -> l `sublist_of` s_entries s -> sched_ok (s_set_entries s l).
Proof.
  intros [] Hl. assert (forall e, e ∈ l -> e ∈ s_entries s) as Hin.
  { intros e He. eapply elem_of_submseteq; [exact He|by apply sublist_submseteq]. }
  split; cbn [s_set_entries s_entries s_clock]; eauto using sublist_sorted.
  apply sublist_length in Hl. lia.
Qed.

Lemma s_add_spec s due h arg s' :
  sched_ok s -> s_add s due h arg = Ret s' -> s_clock s <= due <= s_clock s + 1073741823 ->
  s' = s_set_entries s (insert_entry (Entry due h arg) (s_entries s)) /\ sched_ok s'.
Proof.
  intros [Hs Hw Hsp Hwo Hr] Hadd Hdue. unfold s_add, guard in Hadd.
  destruct (Z.ltb_spec (Z.of_nat (length (s_entries s))) MEMP_NUM_SYS_TIMEOUT) as [Hlen|]; [|done].
  destruct (word h) eqn:Hh, (word arg) eqn:Ha; try done. injection Hadd as <-. split; [done|].
  split; cbn [s_set_entries s_entries s_clock].
  - by apply insert_entry_sorted.
  - intros e [->|He]%elem_of_insert; [cbn [e_due]; unfold LATE, SPAN; lia|by apply Hw].
  - intros x y [->|Hx]%elem_of_insert [->|Hy]%elem_of_insert; cbn [e_due].
    + unfold SPAN. lia.
    + specialize (Hw y Hy). unfold LATE, SPAN in *. lia.
    + specialize (Hw x Hx). unfold SPAN in *. lia.
    + by apply Hsp.
  - intros e [->|He]%elem_of_insert; [done|by apply Hwo].
  - rewrite length_insert_entry. lia.
Qed.

Lemma on_time_spec s :
  on_time s = true <-> forall e, e ∈ s_entries s -> s_clock s - LATE <= e_due e.
Proof.
  unfold on_time. rewrite forallb_forall. setoid_rewrite Z.leb_le. by setoid_rewrite <- list_elem_of_In.
Qed.

(** What a handler may have done: time passed, entries came and went. *)
Record s_moved s s' : Prop := SMoved {
  sm_clock : s_clock s <= s_clock s';
  sm_due : s_due s' = s_due s;
  sm_ok : sched_ok s' }.

Lemma guard_ret {A} b (k : outcome A) r : (_ ← guard b; k) = Ret r -> b = true /\ k = Ret r.
Proof. destruct b; [done|by intros [=]]. Qed.

Lemma s_timeout_spec s msecs h arg s' :
  sched_ok s -> s_timeout s msecs h arg = Ret s' ->
  s' = s_set_entries s (insert_entry (Entry (s_clock s + msecs) h arg) (s_entries s)) /\
  0 < msecs <= 1073741823 /\ sched_ok s'.
Proof.
  intros Hok ([Hlo%Z.ltb_lt Hhi%Z.leb_le]%andb_true_iff & Hadd)%guard_ret.
  change (LWIP_UINT32_MAX / 4) with 1073741823 in Hhi.
  by destruct (s_add_spec _ _ _ _ _ Hok Hadd ltac:(lia)) as [? ?].
Qed.

Lemma s_set_active_ok s b : sched_ok s -> sched_ok (s_set_active s b).
Proof. by intros []. Qed.

Lemma s_call_moved s c s' : sched_ok s -> s_call s c = Ret s' -> s_moved s s'.
Proof.
  intros Hok. destruct c as [ms|a tw|ms h arg|h arg|]; cbn [s_call].
  - intros ([Hms%Z.leb_le Hon]%andb_true_iff & [= <-])%guard_ret.
    rewrite on_time_spec in Hon.
    destruct Hok. split; cbn [s_elapse s_clock s_due]; [lia|done|].
    split; cbn [s_elapse s_entries s_clock]; try done. intros e He.
    specialize (Hon e He). cbn [s_elapse s_clock] in Hon. destruct (so_window0 e He). lia.
  - intros [= <-]. destruct Hok. by split; [cbn; lia|..].
  - intros Hs. destruct (s_timeout_spec _ _ _ _ _ Hok Hs) as (-> & _ & ?). by split; [cbn; lia|..].
  - intros [= <-]. split; [cbn; lia|done|]. apply sched_ok_sublist; [done|]. apply remove_entry_sublist.
  - unfold s_needed. destruct (negb _ && _).
    + intros Hs. destruct (s_timeout_spec _ _ _ _ _ (s_set_active_ok s true Hok) Hs) as (-> & _ & ?).
      by split; [cbn; lia|..].
    + intros [= <-]. by split; [lia|..].
Qed.

Lemma s_moved_trans s1 s2 s3 : s_moved s1 s2 -> s_moved s2 s3 -> s_moved s1 s3.
Proof. intros [] []. split; [lia|congruence|done]. Qed.

Lemma s_calls_moved s cs s' : sched_ok s -> s_calls s cs = Ret s' -> s_moved s s'.
Proof.
  revert s. induction cs as [|c cs IH]; intros s Hok; cbn [s_calls].
  { intros [= <-]. by split. }
  destruct (s_call s c) as [s1| | |] eqn:Hc; cbn [mbind outcome_bind]; try done. intros Hcs.
  pose proof (s_call_moved _ _ _ Hok Hc) as Hm. eapply s_moved_trans; [exact Hm|]. apply IH; [by destruct Hm|done].
Qed.

Lemma s_unknown_moved s s' : sched_ok s -> s_unknown s = Ret s' -> s_moved s s'.
Proof.
  intros Hok Hs. apply s_calls_moved in Hs; [|by destruct Hok]. by destruct Hs.
Qed.

Lemma cyclic_interval arg c : cyclic_at arg = Some c -> 0 < c.1 <= 60000.
Proof.
  unfold cyclic_at. cbv zeta. destruct (_ && _); [|done]. intros Hc.
  assert (Forall (fun c => 0 < c.1 <= 60000) lwip_cyclic_timers) as Hall by (repeat (constructor; [unfold TCP_TMR_INTERVAL; cbn; lia|]); constructor).
  rewrite Forall_lookup in Hall. by eapply Hall.
Qed.

(** A cyclic timer is due again later than it was, and not in the past. *)
Lemma s_cyclic_spec s arg s' :
  sched_ok s -> s_due s <= s_clock s -> s_cyclic s arg = Ret s' ->
  exists s1 c due, cyclic_at arg = Some c /\ s_unknown s = Ret s1 /\ s_moved s s1 /\
    s' = s_set_entries s1 (insert_entry (Entry due lwip_cyclic_timer_addr arg) (s_entries s1)) /\
    s_clock s1 <= due /\ (due = s_due s + c.1 \/ s_due s + c.1 < s_clock s1 /\ due = s_clock s1 + c.1) /\
    s_moved s s'.
Proof.
  intros Hok Hd. unfold s_cyclic. destruct (cyclic_at arg) as [c|] eqn:Hc; [|done]. cbn [deref mbind outcome_bind].
  pose proof (cyclic_interval _ _ Hc) as Hi.
  destruct (s_unknown s) as [s1| | |] eqn:Hu; try done. cbn [mbind outcome_bind].
  intros (Hl%Z.leb_le & Hs)%guard_ret. pose proof (s_unknown_moved _ _ Hok Hu) as [Hm1 Hm2 Hm3]. rewrite Hm2 in *.
  exists s1, c. destruct (Z.ltb_spec (s_due s + c.1) (s_clock s1)) as [Hlt|Hge].
  - destruct (s_add_spec _ _ _ _ _ Hm3 Hs ltac:(lia)) as [-> Hok'].
    eexists. split_and!; [done..|lia|right; split; [done|reflexivity]|by split].
  - destruct (s_add_spec _ _ _ _ _ Hm3 Hs ltac:(lia)) as [-> Hok'].
    eexists. split_and!; [done..|lia|left; reflexivity|by split].
Qed.

Lemma s_tcp_timer_moved s s' : sched_ok s -> s_tcp_timer s = Ret s' -> s_moved s s'.
Proof.
  intros Hok. unfold s_tcp_timer. destruct (s_unknown s) as [s1| | |] eqn:Hu; try done. cbn [mbind outcome_bind].
  pose proof (s_unknown_moved _ _ Hok Hu) as Hm. destruct (s_pcbs s1 || s_tw s1).
  - intros Hs. destruct Hm as [? ? Hm]. destruct (s_timeout_spec _ _ _ _ _ Hm Hs) as (-> & _ & ?). by split.
  - intros [= <-]. destruct Hm as [? ? Hm]. split; [done..|]. by apply s_set_active_ok.
Qed.

Lemma s_handler_moved s h arg s' :
  sched_ok s -> s_due s <= s_clock s -> s_handler s h arg = Ret s' -> s_moved s s'.
Proof.
  intros Hok Hd. unfold s_handler. destruct (h =? 0); [intros [= <-]; by split|].
  destruct (h =? lwip_cyclic_timer_addr).
  { intros Hs. by destruct (s_cyclic_spec _ _ _ Hok Hd Hs) as (? & ? & ? & ? & ? & ? & ? & ? & ? & ?). }
  destruct (h =? tcpip_tcp_timer_addr); [by apply s_tcp_timer_moved|by apply s_unknown_moved].
Qed.

Lemma s_pop_ok s e l : sched_ok s -> s_entries s = e :: l -> sched_ok (s_pop s e l).
Proof.
  intros Hok He. pose proof (sched_ok_sublist s l Hok) as Hl. rewrite He in Hl.
  destruct Hl; [by constructor|]. by split.
Qed.

Lemma s_restart_ok s : sched_ok s -> sched_ok (s_restart s).
Proof.
  intros Hok. unfold s_restart. destruct (s_entries s) as [|x l] eqn:Hs; [done|]. rewrite <- Hs.
  pose proof Hok as [Hso Hw Hsp Hwo Hr]. assert (x ∈ s_entries s) as Hx by (rewrite Hs; by left).
  assert (forall e, e ∈ s_entries s -> e_due x <= e_due e) as Hmin.
  { rewrite Hs in Hso. apply StronglySorted_inv in Hso as [_ Hso]. rewrite Forall_forall in Hso.
    intros e. rewrite Hs. intros [->|He]%elem_of_cons; [lia|by apply Hso]. }
  assert (forall e, e ∈ moved_entry (e_due x) (s_clock s) <$> s_entries s ->
    exists y, e = moved_entry (e_due x) (s_clock s) y /\ y ∈ s_entries s) as Hin by (intros e; apply list_elem_of_fmap).
  split; cbn [s_set_entries s_entries s_clock].
  - clear -Hso. unfold sorted in *. induction Hso as [|y l Hs IH Hy]; cbn [fmap list_fmap]; constructor; [done|].
    rewrite Forall_fmap. eapply Forall_impl; [exact Hy|]. intros z ?. cbn in *. lia.
  - intros e (y & -> & Hy)%Hin. cbn [moved_entry e_due].
    specialize (Hmin y Hy). specialize (Hsp y x Hy Hx). unfold LATE. lia.
  - intros e1 e2 (y & -> & Hy)%Hin (z & -> & Hz)%Hin. cbn [moved_entry e_due].
    specialize (Hsp y z Hy Hz). lia.
  - intros e (y & -> & Hy)%Hin. exact (Hwo y Hy).
  - by rewrite length_fmap.
Qed.
End schedule.
