(* ===== verification/ScheduleCheck.v ===== *)
(** * What one call of [sys_check_timeouts] runs

    On the schedule: everything that was due, in order, and of what handlers
    added meanwhile at most the cyclic timers that are due at once.  The call
    comes to an end. *)
From Stdlib Require Import Sorted.
From S2P Require Import Prelude Memory Lwip Pbuf Timeouts Schedule.

Section check.
Context `{!TimerSymbols} (handlers : nat -> list timer_call).
Implicit Types (s : schedule) (now : Z) (D R : list entry).

(** Entries that a handler may add while [now] is checked. *)
Definition fresh_entry now (x : entry) : Prop :=
  now <= e_due x /\ (e_due x = now -> e_h x = lwip_cyclic_timer_addr).

(** Nothing but fresh entries is new in [s']. *)
Definition s_came now s s' : Prop :=
  forall x, x ∈ s_entries s' -> x ∈ s_entries s \/ fresh_entry now x.

Lemma s_came_refl now s : s_came now s s.
Proof. intros x Hx. by left. Qed.

Lemma s_came_trans now s1 s2 s3 : s_came now s1 s2 -> s_came now s2 s3 -> s_came now s1 s3.
Proof. intros H1 H2 x [Hx|Hx]%H2; [by apply H1|by right]. Qed.

Lemma s_came_insert now s e s' :
  s_entries s' = insert_entry e (s_entries s) -> fresh_entry now e -> s_came now s s'.
Proof. intros Hs He x. rewrite Hs, elem_of_insert. intros [->|?]; [by right|by left]. Qed.

Lemma timeout_fresh now s msecs h arg :
  now <= s_clock s -> 0 < msecs -> fresh_entry now (Entry (s_clock s + msecs) h arg).
Proof. intros. split; cbn; lia. Qed.

Lemma s_call_came now s c s' : sched_ok s -> now <= s_clock s -> s_call s c = Ret s' -> s_came now s s'.
Proof.
  intros Hok Hn. destruct c as [ms|a tw|ms h arg|h arg|]; cbn [s_call].
  - intros (_ & [= <-])%guard_ret x Hx. by left.
  - intros [= <-] x Hx. by left.
  - intros (-> & Hms & _)%(s_timeout_spec _ _ _ _ _ Hok). eapply s_came_insert; [done|]. apply timeout_fresh; lia.
  - intros [= <-] x Hx. left. eapply elem_of_submseteq; [exact Hx|]. apply sublist_submseteq, remove_entry_sublist.
  - unfold s_needed. destruct (negb _ && _); [|intros [= <-]; apply s_came_refl].
    intros (-> & Hms & _)%(s_timeout_spec _ _ _ _ _ (s_set_active_ok _ true Hok)).
    eapply s_came_insert; [done|]. by apply timeout_fresh.
Qed.

Lemma s_calls_came now s cs s' : sched_ok s -> now <= s_clock s -> s_calls s cs = Ret s' -> s_came now s s'.
Proof.
  revert s. induction cs as [|c cs IH]; intros s Hok Hn; cbn [s_calls]; [intros [= <-]; apply s_came_refl|].
  destruct (s_call s c) as [s1| | |] eqn:Hc; cbn [mbind outcome_bind]; try done. intros Hcs.
  destruct (s_call_moved _ _ _ Hok Hc). eapply s_came_trans; [by eapply s_call_came|]. apply IH; [done|lia|done].
Qed.

Lemma s_unknown_came now s s' : sched_ok s -> now <= s_clock s -> s_unknown handlers s = Ret s' -> s_came now s s'.
Proof. intros Hok Hn Hs. eapply (s_calls_came now (s_count s)); [by destruct Hok|done|exact Hs]. Qed.

Lemma s_tcp_timer_came now s s' :
  sched_ok s -> now <= s_clock s -> s_tcp_timer handlers s = Ret s' -> s_came now s s'.
Proof.
  intros Hok Hn. unfold s_tcp_timer. destruct (s_unknown handlers s) as [s1| | |] eqn:Hu; try done. cbn [mbind outcome_bind].
  pose proof (s_unknown_came now _ _ Hok Hn Hu) as Hc. destruct (s_unknown_moved _ _ _ Hok Hu) as [? ? Hok1].
  destruct (s_pcbs s1 || s_tw s1); [|intros [= <-]; exact Hc].
  intros (-> & Hms & _)%(s_timeout_spec _ _ _ _ _ Hok1). eapply s_came_trans; [exact Hc|].
  eapply s_came_insert; [done|]. apply timeout_fresh; lia.
Qed.

(** Where a cyclic timer that was due at [s_due s] goes. *)
Lemma s_cyclic_came now s arg s' :
  sched_ok s -> s_due s <= now -> now <= s_clock s -> s_cyclic handlers s arg = Ret s' ->
  exists s1 e, s_unknown handlers s = Ret s1 /\ s_came now s s1 /\
    s_entries s' = insert_entry e (s_entries s1) /\ fresh_entry now e /\ (e_due e = now -> s_due s < now).
Proof.
  intros Hok Hd Hn Hs. destruct (s_cyclic_spec _ _ _ _ Hok ltac:(lia) Hs)
    as (s1 & c & due & Hc & Hu & [Hcl _ _] & -> & Hdue & Hcase & _).
  pose proof (cyclic_interval _ _ Hc). exists s1, (Entry due lwip_cyclic_timer_addr arg).
  split_and!; [done|by apply s_unknown_came|done|split; [cbn; lia|done]|cbn; lia].
Qed.

Lemma s_handler_came now s h arg s' :
  sched_ok s -> s_due s <= now -> now <= s_clock s -> s_handler handlers s h arg = Ret s' -> s_came now s s'.
Proof.
  intros Hok Hd Hn. unfold s_handler. destruct (h =? 0); [intros [= <-]; apply s_came_refl|].
  destruct (h =? lwip_cyclic_timer_addr).
  { intros Hs. destruct (s_cyclic_came now _ _ _ Hok Hd Hn Hs) as (s1 & e & Hu & Hc & Hs' & He & _).
    eapply s_came_trans; [exact Hc|]. by apply (s_came_insert _ _ e). }
  destruct (h =? tcpip_tcp_timer_addr); [by apply s_tcp_timer_came|by apply s_unknown_came].
Qed.

(** ** The call ends *)

(** How often an entry can still run in this call. *)
Definition weight now (e : entry) : nat :=
  if e_due e <? now then 2 else if e_due e =? now then 1 else 0.
Definition weights now (l : list entry) : nat := sum_list_with (weight now) l.

Lemma weights_insert now e l : weights now (insert_entry e l) = (weight now e + weights now l)%nat.
Proof.
  unfold weights. induction l as [|x l IH]; cbn [insert_entry sum_list_with]; [done|].
  destruct (_ <? _); cbn [sum_list_with]; [done|]. rewrite IH. lia.
Qed.

Lemma weights_remove now h arg l : (weights now (remove_entry h arg l) <= weights now l)%nat.
Proof.
  unfold weights. induction l as [|x l IH]; cbn [remove_entry sum_list_with]; [done|].
  destruct (entry_is h arg x); cbn [sum_list_with]; lia.
Qed.

Lemma weights_bound now l : (weights now l <= 2 * length l)%nat.
Proof.
  unfold weights. induction l as [|x l IH]; cbn [sum_list_with length]; [done|].
  assert (weight now x <= 2)%nat by (unfold weight; ztests). lia.
Qed.

Lemma timeout_weight now s msecs h arg :
  now <= s_clock s -> 0 < msecs -> weight now (Entry (s_clock s + msecs) h arg) = 0%nat.
Proof. intros. unfold weight. cbn [e_due]. ztests. Qed.

Lemma s_call_weight now s c s' :
  sched_ok s -> now <= s_clock s -> s_call s c = Ret s' ->
  (weights now (s_entries s') <= weights now (s_entries s))%nat.
Proof.
  intros Hok Hn. destruct c as [ms|a tw|ms h arg|h arg|]; cbn [s_call].
  - by intros (_ & [= <-])%guard_ret.
  - by intros [= <-].
  - intros (-> & Hms & _)%(s_timeout_spec _ _ _ _ _ Hok). cbn [s_set_entries s_entries].
    rewrite weights_insert, timeout_weight by lia. done.
  - intros [= <-]. apply weights_remove.
  - unfold s_needed. destruct (negb _ && _); [|by intros [= <-]].
    intros (-> & Hms & _)%(s_timeout_spec _ _ _ _ _ (s_set_active_ok _ true Hok)).
    cbn [s_set_entries s_set_active s_entries]. rewrite weights_insert, timeout_weight by (cbn; lia). done.
Qed.

Lemma s_calls_weight now s cs s' :
  sched_ok s -> now <= s_clock s -> s_calls s cs = Ret s' ->
  (weights now (s_entries s') <= weights now (s_entries s))%nat.
Proof.
  revert s. induction cs as [|c cs IH]; intros s Hok Hn; cbn [s_calls]; [by intros [= <-]|].
  destruct (s_call s c) as [s1| | |] eqn:Hc; cbn [mbind outcome_bind]; try done. intros Hcs.
  destruct (s_call_moved _ _ _ Hok Hc). pose proof (s_call_weight now _ _ _ Hok Hn Hc).
  specialize (IH s1 ltac:(done) ltac:(lia) Hcs). lia.
Qed.

Lemma s_unknown_weight now s s' :
  sched_ok s -> now <= s_clock s -> s_unknown handlers s = Ret s' ->
  (weights now (s_entries s') <= weights now (s_entries s))%nat.
Proof. intros Hok Hn Hs. eapply (s_calls_weight now (s_count s)); [by destruct Hok|done|exact Hs]. Qed.

Lemma s_handler_weight now s e l s' :
  sched_ok (s_pop s e l) -> e_due e <= now -> now <= s_clock s ->
  s_handler handlers (s_pop s e l) (e_h e) (e_arg e) = Ret s' ->
  (weights now (s_entries s') < weight now e + weights now l)%nat.
Proof.
  intros Hok Hd Hn. assert (1 <= weight now e)%nat as He by (unfold weight; ztests).
  unfold s_handler. destruct (e_h e =? 0); [intros [= <-]; cbn [s_pop s_entries]; lia|].
  destruct (e_h e =? lwip_cyclic_timer_addr).
  - intros Hs. destruct (s_cyclic_came now _ _ _ Hok Hd Hn Hs) as (s1 & x & Hu & Hc & -> & Hx & Hxn).
    pose proof (s_unknown_weight now _ _ Hok Hn Hu) as Hw. cbn [s_pop s_entries s_due] in *.
    rewrite weights_insert. destruct Hx as [Hx _]. unfold weight in *. ztests.
  - destruct (e_h e =? tcpip_tcp_timer_addr).
    + unfold s_tcp_timer. destruct (s_unknown handlers (s_pop s e l)) as [s1| | |] eqn:Hu; try done. cbn [mbind outcome_bind].
      pose proof (s_unknown_weight now _ _ Hok Hn Hu) as Hw. destruct (s_unknown_moved _ _ _ Hok Hu) as [Hcl _ Hok1].
      cbn [s_pop s_entries s_clock] in *. destruct (s_pcbs s1 || s_tw s1); [|intros [= <-]; cbn [s_set_active s_entries]; lia].
      intros (-> & Hms & _)%(s_timeout_spec _ _ _ _ _ Hok1). cbn [s_set_entries s_entries].
      rewrite weights_insert, timeout_weight by lia. lia.
    + intros Hu. pose proof (s_unknown_weight now _ _ Hok Hn Hu) as Hw. cbn [s_pop s_entries] in Hw. lia.
Qed.

(** A value, or a contract that was broken; never lack of fuel. *)
Definition settled {A} (o : outcome A) : Prop := o = Undefined \/ exists x, o = Ret x.

Lemma settled_bind {A B} (o : outcome A) (k : A -> outcome B) :
  settled o -> (forall x, o = Ret x -> settled (k x)) -> settled (x ← o; k x).
Proof. intros [->|[x ->]] Hk; [by left|]. by apply Hk. Qed.

Lemma settled_ret {A} (x : A) : settled (Ret x).
Proof. right. by exists x. Qed.

Lemma settled_guard b : settled (guard b).
Proof. destruct b; [apply settled_ret|by left]. Qed.

#[local] Hint Resolve settled_ret settled_guard : core.

Lemma s_add_settled s due h arg : settled (s_add s due h arg).
Proof. apply settled_bind; auto. Qed.

Lemma s_timeout_settled s msecs h arg : settled (s_timeout s msecs h arg).
Proof. apply settled_bind; auto using s_add_settled. Qed.

Lemma s_call_settled s c : settled (s_call s c).
Proof.
  destruct c; cbn [s_call]; auto using s_timeout_settled.
  - apply settled_bind; auto.
  - unfold s_needed. destruct (negb _ && _); auto using s_timeout_settled.
Qed.

Lemma s_calls_settled s cs : settled (s_calls s cs).
Proof.
  revert s. induction cs as [|c cs IH]; intros s; cbn [s_calls]; [auto|].
  apply settled_bind; [apply s_call_settled|]. intros s1 _. apply IH.
Qed.

Lemma s_unknown_settled s : settled (s_unknown handlers s).
Proof. apply s_calls_settled. Qed.

Lemma s_handler_settled s h arg : settled (s_handler handlers s h arg).
Proof.
  unfold s_handler. destruct (h =? 0); [auto|]. destruct (h =? lwip_cyclic_timer_addr).
  - unfold s_cyclic. apply settled_bind; [destruct (cyclic_at arg); [apply settled_ret|by left]|]. intros c _.
    apply settled_bind; [apply s_unknown_settled|]. intros s1 _. apply settled_bind; [auto|]. intros _ _.
    destruct (_ <? _); apply s_add_settled.
  - destruct (h =? tcpip_tcp_timer_addr); [|apply s_unknown_settled].
    unfold s_tcp_timer. apply settled_bind; [apply s_unknown_settled|]. intros s1 _.
    destruct (s_pcbs s1 || s_tw s1); auto using s_timeout_settled.
Qed.

(** A handler that ran, and what is known then. *)
Lemma s_handler_ran now s e l s1 :
  sched_ok s -> now <= s_clock s -> s_entries s = e :: l -> e_due e <= now ->
  s_handler handlers (s_pop s e l) (e_h e) (e_arg e) = Ret s1 ->
  sched_ok s1 /\ now <= s_clock s1 /\ s_clock s <= s_clock s1 /\
  (forall x, x ∈ s_entries s1 -> x ∈ l \/ fresh_entry now x) /\
  (weights now (s_entries s1) < weights now (s_entries s))%nat.
Proof.
  intros Hok Hn Hs Hd Hh. pose proof (s_pop_ok _ _ _ Hok Hs) as Hok1.
  destruct (s_handler_moved _ _ _ _ _ Hok1 ltac:(cbn; lia) Hh) as [Hcl _ Hok2]. cbn [s_pop s_clock] in Hcl.
  split_and!; [done|lia|lia|exact (s_handler_came now _ _ _ _ Hok1 Hd Hn Hh)|].
  rewrite Hs. by apply (s_handler_weight now s e l).
Qed.

Lemma s_check_loop_settled fuel now s :
  sched_ok s -> now <= s_clock s -> (weights now (s_entries s) < fuel)%nat ->
  settled (s_check_loop handlers fuel now s).
Proof.
  revert s. induction fuel as [|fuel IH]; intros s Hok Hn Hf; [lia|]. cbn [s_check_loop].
  destruct (s_entries s) as [|e l] eqn:Hs; [auto|]. destruct (Z.ltb_spec now (e_due e)) as [|Hd]; [auto|].
  apply settled_bind; [apply s_handler_settled|]. intros s1 Hh.
  destruct (s_handler_ran now _ _ _ _ Hok Hn Hs Hd Hh) as (Hok1 & Hn1 & _ & _ & Hw). rewrite Hs in Hw.
  apply settled_bind; [auto|]. intros _ _. apply settled_bind; [apply IH; [done..|lia]|]. intros [called s2] _. auto.
Qed.

Lemma s_check_settled s : sched_ok s -> settled (s_check handlers s).
Proof.
  intros Hok. apply s_check_loop_settled; [done..|]. pose proof (weights_bound (s_clock s) (s_entries s)).
  pose proof (so_room _ Hok). unfold check_fuel, MEMP_NUM_SYS_TIMEOUT in *. lia.
Qed.

(** ** What it ran, in which order *)

Lemma s_check_loop_sorted fuel now s b called s' :
  sched_ok s -> now <= s_clock s -> b <= now -> (forall x, x ∈ s_entries s -> b <= e_due x) ->
  s_check_loop handlers fuel now s = Ret (called, s') ->
  sorted called /\ (forall x, x ∈ called -> b <= e_due x <= now) /\
  (forall x, x ∈ s_entries s' -> now < e_due x) /\ sched_ok s' /\ s_clock s <= s_clock s'.
Proof.
  revert s b called. induction fuel as [|fuel IH]; intros s b called Hok Hn Hb Hlow; [done|]. cbn [s_check_loop].
  destruct (s_entries s) as [|e l] eqn:Hs.
  { intros [= <- <-]. rewrite Hs. split_and!; [constructor|by intros ? ?%elem_of_nil|by intros ? ?%elem_of_nil|done|lia]. }
  destruct (Z.ltb_spec now (e_due e)) as [Hlt|Hd].
  { intros [= <- <-]. rewrite Hs. split_and!; [constructor|by intros ? ?%elem_of_nil| |done|lia].
    pose proof (so_sorted _ Hok) as Hso. rewrite Hs in Hso. apply StronglySorted_inv in Hso as [_ Hso].
    rewrite Forall_forall in Hso. intros x [->|Hx]%elem_of_cons; [done|]. specialize (Hso x Hx). cbn in Hso. lia. }
  destruct (s_handler handlers _ _ _) as [s1| | |] eqn:Hh; try done. cbn [mbind outcome_bind].
  destruct (s_handler_ran now _ _ _ _ Hok Hn Hs Hd Hh) as (Hok1 & Hn1 & Hcl & Hin & _).
  intros (_ & Hrest)%guard_ret. destruct (s_check_loop _ _ _ s1) as [[called1 s2]| | |] eqn:Hl; try done.
  injection Hrest as <- <-.
  assert (forall x, x ∈ s_entries s1 -> e_due e <= e_due x) as Hlow1.
  { intros x [Hx|[Hx _]]%Hin; [|lia]. pose proof (so_sorted _ Hok) as Hso. rewrite Hs in Hso.
    apply StronglySorted_inv in Hso as [_ Hso]. rewrite Forall_forall in Hso. by apply Hso. }
  destruct (IH s1 (e_due e) called1 Hok1 Hn1 Hd Hlow1 Hl) as (Hso1 & Hr1 & Hlate & Hok2 & Hcl2).
  pose proof (Hlow e ltac:(by left)). split_and!; [|..|done|done|lia].
  - constructor; [done|]. rewrite Forall_forall. intros x Hx. by apply Hr1.
  - intros x [->|Hx]%elem_of_cons; [lia|]. specialize (Hr1 x Hx). lia.
Qed.

(** ** Without cancellations *)

Lemma s_check_runs s called s' :
  sched_ok s -> s_check handlers s = Ret (called, s') ->
  sorted called /\ (forall x, x ∈ called -> e_due x <= s_clock s) /\
  (forall x, x ∈ s_entries s' -> s_clock s < e_due x) /\ sched_ok s' /\ s_clock s <= s_clock s'.
Proof.
  intros Hok Hs.
  destruct (s_check_loop_sorted check_fuel (s_clock s) s (s_clock s - LATE) called s')
    as (Hso & Hr & Hlate & Hok' & Hcl); [done|lia|unfold LATE; lia| |exact Hs|].
  - intros x Hx. by destruct (so_window _ Hok x Hx).
  - split_and!; try done. intros x Hx. apply Hr in Hx. lia.
Qed.

Lemma filter_sublist (Q : entry -> Prop) `{!forall x, Decision (Q x)} l l' :
  l `sublist_of` l' -> filter Q l `sublist_of` filter Q l'.
Proof.
  induction 1 as [|x l l' _ IH|x l l' _ IH]; [done|rewrite !filter_cons; case_decide; [by constructor|done]|].
  rewrite filter_cons. case_decide; [by constructor|done].
Qed.

Section keeps.
Hypothesis Hno : forall n h arg, Untimeout h arg ∉ handlers n.

(** [D] stays at the front, [R] stays, and what is new is fresh. *)
Definition keeps now D R s' : Prop :=
  exists R', s_entries s' = D ++ R' /\ R `sublist_of` R' /\ forall x, x ∈ R' -> x ∈ R \/ fresh_entry now x.

Lemma keeps_refl now D R s : s_entries s = D ++ R -> keeps now D R s.
Proof. intros Hs. exists R. split_and!; [done..|by left]. Qed.

Lemma keeps_trans now D R s1 s2 :
  keeps now D R s1 -> (forall R', s_entries s1 = D ++ R' -> keeps now D R' s2) -> keeps now D R s2.
Proof.
  intros (R1 & Hs1 & Hsub & Hx) Hk. destruct (Hk R1 Hs1) as (R2 & Hs2 & Hsub2 & Hx2). exists R2.
  split_and!; [done|by etrans|]. intros x [?%Hx|?]%Hx2; [done|by right].
Qed.

Lemma insert_sublist e l : l `sublist_of` insert_entry e l.
Proof. induction l as [|x l IH]; cbn [insert_entry]; [by constructor|]. destruct (_ <? _); by constructor. Qed.

Lemma keeps_insert now D R s e s' :
  (forall x, x ∈ D -> e_due x <= now) -> s_entries s = D ++ R ->
  s_entries s' = insert_entry e (s_entries s) -> fresh_entry now e -> keeps now D R s'.
Proof.
  intros HD Hs Hs' He. exists (insert_entry e R). split_and!; [|apply insert_sublist|].
  - rewrite Hs', Hs. apply insert_entry_app. intros x Hx. specialize (HD x Hx). destruct He. lia.
  - intros x [->|?]%elem_of_insert; [by right|by left].
Qed.

Section shape.
Context (now : Z) (D : list entry).
Hypothesis HD : forall x, x ∈ D -> e_due x <= now.
#[local] Set Default Proof Using "All".

Lemma s_timeout_keeps R s msecs h arg s' :
  sched_ok s -> now <= s_clock s -> s_entries s = D ++ R -> s_timeout s msecs h arg = Ret s' -> keeps now D R s'.
Proof.
  intros Hok Hn Hs (-> & Hms & _)%(s_timeout_spec _ _ _ _ _ Hok).
  eapply keeps_insert; [exact HD|exact Hs|done|]. apply timeout_fresh; lia.
Qed.

Lemma s_calls_keeps R s cs s' :
  sched_ok s -> now <= s_clock s -> s_entries s = D ++ R -> (forall h arg, Untimeout h arg ∉ cs) ->
  s_calls s cs = Ret s' -> keeps now D R s'.
Proof.
  revert R s. induction cs as [|c cs IH]; intros R s Hok Hn Hs Hcs; cbn [s_calls].
  { intros [= <-]. by apply keeps_refl. }
  destruct (s_call s c) as [s1| | |] eqn:Hc; cbn [mbind outcome_bind]; try done. intros Hcs'.
  destruct (s_call_moved _ _ _ Hok Hc) as [? ? Hok1]. apply keeps_trans with s1.
  - destruct c as [ms|a tw|ms h arg|h arg|]; cbn [s_call] in Hc.
    + apply guard_ret in Hc as [_ [= <-]]. by apply keeps_refl.
    + injection Hc as <-. by apply keeps_refl.
    + by eapply (s_timeout_keeps R s).
    + exfalso. apply (Hcs h arg). by left.
    + unfold s_needed in Hc. destruct (negb _ && _); [|injection Hc as <-; by apply keeps_refl].
      by eapply (s_timeout_keeps R (s_set_active s true)); [apply s_set_active_ok|..|exact Hc].
  - intros R' Hs'. apply (IH R' s1); [done|lia|done| |done]. intros h arg Hin. apply (Hcs h arg). by right.
Qed.

Lemma s_unknown_keeps R s s' :
  sched_ok s -> now <= s_clock s -> s_entries s = D ++ R -> s_unknown handlers s = Ret s' -> keeps now D R s'.
Proof. intros Hok Hn Hs Hu. eapply (s_calls_keeps R (s_count s)); [by destruct Hok|done..|exact Hu]. Qed.

Lemma s_handler_keeps R s h arg s' :
  sched_ok s -> s_due s <= now -> now <= s_clock s -> s_entries s = D ++ R ->
  s_handler handlers s h arg = Ret s' -> keeps now D R s'.
Proof.
  intros Hok Hd Hn Hs. unfold s_handler. destruct (h =? 0); [intros [= <-]; by apply keeps_refl|].
  destruct (h =? lwip_cyclic_timer_addr).
  - intros Hc. destruct (s_cyclic_came now _ _ _ Hok Hd Hn Hc) as (s1 & e & Hu & _ & Hs' & He & _).
    apply keeps_trans with s1; [by apply (s_unknown_keeps R s)|]. intros R' HR'. by eapply keeps_insert.
  - destruct (h =? tcpip_tcp_timer_addr); [|by apply (s_unknown_keeps R s)].
    unfold s_tcp_timer. destruct (s_unknown handlers s) as [s1| | |] eqn:Hu; try done. cbn [mbind outcome_bind].
    destruct (s_unknown_moved _ _ _ Hok Hu) as [? ? Hok1]. intros Ht. apply keeps_trans with s1; [by apply (s_unknown_keeps R s)|].
    intros R' HR'. destruct (s_pcbs s1 || s_tw s1); [|injection Ht as <-; by apply keeps_refl].
    eapply (s_timeout_keeps R' s1); [done|lia|done|exact Ht].
Qed.
End shape.

#[local] Set Default Proof Using "All".
Lemma s_check_loop_prefix fuel now D R s called s' :
  sched_ok s -> now <= s_clock s -> s_entries s = D ++ R ->
  (forall x, x ∈ D -> e_due x <= now) -> (forall x, x ∈ R -> fresh_entry now x) ->
  s_check_loop handlers fuel now s = Ret (called, s') ->
  exists again, called = D ++ again /\
    (forall x, x ∈ again -> e_due x = now /\ e_h x = lwip_cyclic_timer_addr) /\
    filter (fun x => now < e_due x) R `sublist_of` s_entries s'.
Proof.
  revert D R s called. induction fuel as [|fuel IH]; intros D R s called Hok Hn Hs HD HR; [done|]. cbn [s_check_loop].
  destruct (s_entries s) as [|e l] eqn:Hse.
  { symmetry in Hs. apply app_eq_nil in Hs as [-> ->]. intros [= <- <-]. exists []. split_and!; [done|by intros ? ?%elem_of_nil|].
    apply sublist_nil_l. }
  destruct (Z.ltb_spec now (e_due e)) as [Hlt|Hd].
  { destruct D as [|d D]; [cbn [app] in Hs; subst R|injection Hs as -> ->; specialize (HD d ltac:(by left)); lia].
    intros [= <- <-]. exists []. split_and!; [done|by intros ? ?%elem_of_nil|]. rewrite Hse. apply sublist_filter. }
  destruct (s_handler handlers _ _ _) as [s1| | |] eqn:Hh; try done. cbn [mbind outcome_bind].
  destruct (s_handler_ran now _ _ _ _ Hok Hn Hse Hd Hh) as (Hok1 & Hn1 & _).
  intros (_ & Hrest)%guard_ret. destruct (s_check_loop _ _ _ s1) as [[called1 s2]| | |] eqn:Hl; try done.
  injection Hrest as <- <-. pose proof (s_pop_ok _ _ _ Hok Hse) as Hokp. destruct D as [|d D].
  - cbn [app] in Hs. subst R. destruct (s_handler_keeps now [] ltac:(by intros ? ?%elem_of_nil) l _ _ _ _ Hokp Hd Hn eq_refl Hh)
      as (R1 & Hs1 & Hsub & HR1).
    destruct (IH [] R1 s1 called1) as (again & -> & Hag & Hf); [done..|by intros ? ?%elem_of_nil| |done|].
    { intros x [Hx|?]%HR1; [apply HR; by right|done]. }
    destruct (HR e ltac:(by left)) as [Hge Hcy]. exists (e :: again). split_and!; [done| |].
    + intros x [->|Hx]%elem_of_cons; [split; [lia|apply Hcy; lia]|by apply Hag].
    + rewrite filter_cons, decide_False by lia. etrans; [|exact Hf]. by apply filter_sublist.
  - injection Hs as <- ->. destruct (s_handler_keeps now D ltac:(intros x Hx; apply HD; by right) R _ _ _ _ Hokp Hd Hn eq_refl Hh)
      as (R1 & Hs1 & Hsub & HR1).
    destruct (IH D R1 s1 called1) as (again & -> & Hag & Hf); [done|done|done|intros x Hx; apply HD; by right| |done|].
    { intros x [Hx|?]%HR1; [by apply HR|done]. }
    exists again. split_and!; [done..|]. etrans; [|exact Hf]. by apply filter_sublist.
Qed.
End keeps.

(** What is due comes first in a schedule. *)
Lemma sorted_split now l : sorted l ->
  l = filter (fun x => e_due x <= now) l ++ filter (fun x => now < e_due x) l.
Proof.
  induction 1 as [|x l Hs IH Hx]; [done|]. rewrite !filter_cons.
  destruct (decide (e_due x <= now)) as [Hle|Hgt].
  - rewrite (decide_False (P := now < e_due x)) by lia. by rewrite <- app_comm_cons, <- IH.
  - rewrite decide_True by lia. rewrite Forall_forall in Hx.
    assert (filter (fun x => e_due x <= now) l = []) as Hnil.
    { apply elem_of_nil_inv. intros y [Hy Hin]%list_elem_of_filter. specialize (Hx y Hin). cbn in Hx. lia. }
    rewrite Hnil in IH |- *. cbn [app] in *. by rewrite <- IH.
Qed.
End check.
