(* ===== verification/TimeoutsSpec.v ===== *)
(** * The timers of lwIP implement the schedule

    [timers_rel] lays a schedule over the list in the pool: the elements that
    are live in the pool of timeouts are those of the list, in the order of the
    schedule, with the times cut to 32 bits.  While the main loop is not later
    than [LATE], comparing those is comparing the times. *)
From Stdlib Require Import Sorted.
From S2P Require Import Prelude Memory Align Lwip Pbuf Memp MempIface Timeouts Schedule ScheduleCheck.

(** ** Times that wrap around *)

Lemma time_less_than a b :
  -2147483648 <= a - b <= 2147483647 -> TIME_LESS_THAN (u32 a) (u32 b) = (a <? b).
Proof.
  intros Hab. unfold TIME_LESS_THAN, LWIP_MAX_TIMEOUT.
  assert (u32 (u32 a - u32 b) = u32 (a - b)) as -> by (unfold u32; by rewrite <- Zminus_mod).
  destruct (Z.ltb_spec a b).
  - unfold u32. rewrite <- (Z.mod_unique (a - b) 4294967296 (-1) (a - b + 4294967296)) by lia. ztests.
  - rewrite u32_small by lia. ztests.
Qed.

Lemma u32_plus a b : u32 (u32 a + b) = u32 (a + b).
Proof. unfold u32. by rewrite Zplus_mod_idemp_l. Qed.

(** ** The list in memory *)

Definition timeo_is (m : mem) (t : Z) (e : entry) : Prop :=
  timeo_time m t = u32 (e_due e) /\ timeo_h m t = e_h e /\ timeo_arg m t = e_arg e.

Fixpoint timeo_list (m : mem) (p : Z) (ts : list Z) (es : list entry) : Prop :=
  match ts, es with
  | [], [] => p = 0
  | t :: ts, e :: es => p = t /\ timeo_is m t e /\ timeo_list m (timeo_next m t) ts es
  | _, _ => False
  end.

(** Elements of 32 bytes, apart from each other. *)
Record slots (ts : list Z) : Prop := Slots {
  sl_word : forall a, a ∈ ts -> 0 < a < 18446744073709551616;
  sl_apart : forall a b, a ∈ ts -> b ∈ ts -> a <> b -> a + 32 <= b \/ b + 32 <= a }.

Lemma slots_sub ts ts' : slots ts -> (forall a, a ∈ ts' -> a ∈ ts) -> slots ts'.
Proof. intros [] Hsub. split; eauto. Qed.

Definition same_slot (m m' : mem) (t : Z) : Prop := same_bytes t (t + 32) m m'.

Lemma same_slot_trans m1 m2 m3 t : same_slot m1 m2 t -> same_slot m2 m3 t -> same_slot m1 m3 t.
Proof. intros H1 H2 x Hx. by rewrite H1, H2. Qed.

Lemma timeo_next_ext m m' t : same_slot m m' t -> timeo_next m t = timeo_next m' t.
Proof. intros Hs. apply load64_ext. intros x Hx. apply Hs. lia. Qed.

Lemma timeo_is_ext m m' t e : same_slot m m' t -> timeo_is m t e -> timeo_is m' t e.
Proof.
  intros Hs (Ht & Hh & Ha). unfold timeo_is, timeo_time, timeo_h, timeo_arg in *.
  rewrite <- Ht, <- Hh, <- Ha. split_and!; symmetry; [apply load32_ext|apply load64_ext..]; intros x Hx; apply Hs; lia.
Qed.

Lemma timeo_list_ext m m' p ts es :
  (forall t, t ∈ ts -> same_slot m m' t) -> timeo_list m p ts es -> timeo_list m' p ts es.
Proof.
  revert p es. induction ts as [|t ts IH]; intros p [|e es] Hs; cbn [timeo_list]; try done.
  intros (-> & He & Hl). pose proof (Hs t ltac:(by left)) as Ht. split_and!; [done|by eapply timeo_is_ext|].
  rewrite <- (timeo_next_ext m m') by done. apply IH; [|done]. intros t' Ht'. apply Hs. by right.
Qed.

Lemma timeo_list_cons m t ts e es :
  timeo_is m t e -> timeo_list m (timeo_next m t) ts es -> timeo_list m t (t :: ts) (e :: es).
Proof. done. Qed.

Lemma timeo_list_length m p ts es : timeo_list m p ts es -> length ts = length es.
Proof.
  revert p es. induction ts as [|t ts IH]; intros p [|e es]; cbn [timeo_list length]; try done.
  intros (_ & _ & Hl). f_equal. by eapply IH.
Qed.

Lemma timeo_list_head m p ts es : timeo_list m p ts es -> p = hd 0 ts.
Proof. destruct ts, es; cbn [timeo_list hd]; [done..|]. by intros (-> & _). Qed.

Lemma set_next_out m t v x : ~ t <= x < t + 8 -> set_timeo_next m t v x = m x.
Proof. apply store64_out. Qed.

Lemma set_next_slot m t v a : a + 32 <= t \/ t + 32 <= a -> same_slot m (set_timeo_next m t v) a.
Proof. intros Ha x Hx. symmetry. apply set_next_out. lia. Qed.

Lemma timeo_next_set m t v : word v = true -> timeo_next (set_timeo_next m t v) t = v.
Proof.
  intros [?%Z.leb_le ?%Z.ltb_lt]%andb_true_iff. unfold timeo_next, set_timeo_next. by rewrite load64_store64, u64_small.
Qed.

Lemma timeo_is_set_next m t v e : timeo_is m t e -> timeo_is (set_timeo_next m t v) t e.
Proof.
  intros (Ht & Hh & Ha). unfold timeo_is, timeo_time, timeo_h, timeo_arg in *. rewrite <- Ht, <- Hh, <- Ha.
  split_and!; [apply load32_ext|apply load64_ext..]; intros x Hx; apply set_next_out; lia.
Qed.

Lemma word_spec v : word v = true <-> 0 <= v < 18446744073709551616.
Proof. unfold word. rewrite andb_true_iff, Z.leb_le, Z.ltb_lt. lia. Qed.

Lemma slots_head ts p : slots ts -> p = hd 0 ts -> word p = true.
Proof. intros [Hw _] ->. apply word_spec. destruct ts as [|t ts]; cbn [hd]; [lia|]. specialize (Hw t ltac:(by left)). lia. Qed.

(** ** Finding the place of a new timeout *)

Section insert.
Context (timeout t : Z) (ts : list Z).
Hypotheses (Hsl : slots (timeout :: t :: ts)) (Hnd : NoDup (timeout :: t :: ts)).
#[local] Set Default Proof Using "All".

Lemma insert_words : 0 < t < 18446744073709551616 /\ word timeout = true /\ word t = true.
Proof.
  pose proof (sl_word _ Hsl t ltac:(right; by left)). pose proof (sl_word _ Hsl timeout ltac:(by left)).
  rewrite !word_spec. lia.
Qed.

Lemma insert_apart : timeout <> t /\ (timeout ∉ t :: ts) /\ (t ∉ timeout :: ts).
Proof.
  apply NoDup_cons in Hnd as [Hn1 Hnd']. apply NoDup_cons in Hnd' as [Hn2 _].
  rewrite !not_elem_of_cons in *. naive_solver.
Qed.

(** Writes to the link of an element leave the others. *)
Lemma insert_other m v a b :
  a ∈ timeout :: t :: ts -> b ∈ timeout :: t :: ts -> a <> b -> same_slot m (set_timeo_next m b v) a.
Proof. intros Ha Hb Hne. apply set_next_slot. by apply (sl_apart _ Hsl). Qed.

(** [timeout] linked in behind [t]. *)
Lemma link_behind m e x es :
  timeo_list m t (t :: ts) (x :: es) -> timeo_is m timeout e ->
  let m' := set_timeo_next (set_timeo_next m timeout (timeo_next m t)) t timeout in
  timeo_list m' t (t :: timeout :: ts) (x :: e :: es) /\
  (forall a, (forall b, b ∈ timeout :: t :: ts -> ~ b <= a < b + 32) -> m' a = m a).
Proof.
  intros (_ & Hx & Hl) He. destruct insert_apart as (Hne & Hn1 & Hn2), insert_words as (_ & Hwt & Hw).
  set (m1 := set_timeo_next m timeout (timeo_next m t)). intros m'.
  assert (forall a, a ∈ t :: ts -> same_slot m m1 a) as Hs1.
  { intros a Ha. apply insert_other; [by right|by left|by intros ->]. }
  assert (forall a, a ∈ timeout :: ts -> same_slot m1 m' a) as Hs2.
  { intros a Ha. apply insert_other; [|right; by left|by intros ->].
    apply elem_of_cons in Ha as [->|Ha]; [by left|right; by right]. }
  split.
  - cbn [timeo_list]. split; [done|]. split.
    { apply timeo_is_set_next. apply (timeo_is_ext m); [|done]. apply Hs1. by left. }
    unfold m' at 1. rewrite timeo_next_set by done. split; [done|]. split.
    { apply (timeo_is_ext m1); [apply Hs2; by left|]. by apply timeo_is_set_next. }
    rewrite <- (timeo_next_ext m1) by (apply Hs2; by left). unfold m1 at 1.
    rewrite timeo_next_set.
    + apply (timeo_list_ext m); [|done]. intros a Ha.
      eapply same_slot_trans; [apply Hs1; by right|apply Hs2; by right].
    + apply (slots_head ts); [|by eapply timeo_list_head]. apply (slots_sub _ _ Hsl). intros a Ha. right. by right.
  - intros a Ha. unfold m', m1. rewrite !set_next_out; [done|..].
    + specialize (Ha timeout ltac:(by left)). lia.
    + specialize (Ha t ltac:(right; by left)). lia.
Qed.

(** The test of the loop. *)
Lemma insert_here m e x es :
  timeo_list m t (t :: ts) (x :: es) -> timeo_is m timeout e ->
  (forall y, y ∈ es -> -2147483648 <= e_due e - e_due y <= 2147483647) ->
  (timeo_next m t =? 0) || TIME_LESS_THAN (timeo_time m timeout) (timeo_time m (timeo_next m t)) =
    match es with [] => true | y :: _ => e_due e <? e_due y end.
Proof.
  intros (_ & _ & Hl) (He & _) Hr. destruct ts as [|t2 ts2], es as [|y es2]; cbn [timeo_list] in Hl; try done.
  - by rewrite Hl.
  - destruct Hl as (-> & (Hy & _) & _). pose proof (sl_word _ Hsl t2 ltac:(right; right; by left)).
    destruct (Z.eqb_spec t2 0); [lia|]. cbn [orb]. rewrite He, Hy. apply time_less_than, Hr. by left.
Qed.
End insert.

Lemma timeout_insert_loop_spec fuel m timeout t ts e x es :
  timeo_list m t (t :: ts) (x :: es) -> slots (timeout :: t :: ts) -> NoDup (timeout :: t :: ts) ->
  timeo_is m timeout e -> (forall y, y ∈ es -> -2147483648 <= e_due e - e_due y <= 2147483647) ->
  (length ts < fuel)%nat ->
  exists m' ts', timeout_insert_loop fuel m timeout t = Ret m' /\
    timeo_list m' t (t :: ts') (x :: insert_entry e es) /\ ts' ≡ₚ timeout :: ts /\
    (forall a, (forall b, b ∈ timeout :: t :: ts -> ~ b <= a < b + 32) -> m' a = m a).
Proof.
  revert t ts x es. induction fuel as [|fuel IH]; intros t ts x es Hl Hsl Hnd He Hr Hf; [lia|].
  destruct (insert_words _ _ _ Hsl Hnd) as (Ht & Hwt & Hw), (insert_apart _ _ _ Hsl Hnd) as (Hne & Hn1 & Hn2).
  cbn [timeout_insert_loop]. destruct (Z.eqb_spec t 0); [lia|].
  rewrite (insert_here _ _ _ Hsl Hnd m e x es) by done.
  destruct (match es with [] => true | y :: _ => e_due e <? e_due y end) eqn:Hb.
  - destruct (link_behind _ _ _ Hsl Hnd m e x es Hl He) as [Hl' Hfr].
    eexists _, (timeout :: ts). split; [done|]. split; [|done].
    destruct es as [|y es2]; [done|]. cbn [insert_entry]. by rewrite Hb.
  - destruct Hl as (_ & Hx & Hl). destruct ts as [|t2 ts2], es as [|y es2]; cbn [timeo_list] in Hl; try done.
    pose proof Hl as (Hn & _). rewrite Hn in Hl |- *.
    destruct (IH t2 ts2 y es2 Hl) as (m' & ts' & -> & Hl' & Hp & Hfr).
    + apply (slots_sub _ _ Hsl). intros a [->|Ha]%elem_of_cons; [by left|right; by right].
    + rewrite !NoDup_cons in *. rewrite !not_elem_of_cons in *. naive_solver.
    + done.
    + intros z Hz. apply Hr. by right.
    + cbn [length] in Hf. lia.
    + assert (forall b, b ∈ timeout :: t2 :: ts2 -> b ∈ timeout :: t :: t2 :: ts2 /\ b <> t) as Hin.
      { intros b Hbi. split; [apply elem_of_cons in Hbi as [->|?]; [by left|right; by right]|by intros ->]. }
      exists m', (t2 :: ts'). split; [done|].
      assert (same_slot m m' t) as Hst.
      { intros a Ha. symmetry. apply Hfr. intros b [Hbi Hbt]%Hin.
        destruct (sl_apart _ Hsl b t Hbi ltac:(right; by left) Hbt); lia. }
      split; [|split].
      * cbn [insert_entry]. rewrite Hb. cbn [timeo_list]. split; [done|]. split; [by apply (timeo_is_ext m)|].
        rewrite <- (timeo_next_ext m) by done. rewrite Hn. exact Hl'.
      * rewrite Hp. apply Permutation_swap.
      * intros a Ha. apply Hfr. intros b [Hbi _]%Hin. by apply Ha.
Qed.

(** ** The list and the pool *)

Section rel.
Context {P : Type} `{!MempOps P} `{!MempLaws P}.
Hypothesis Hshape : mp_shape MEMP_SYS_TIMEOUT = Some (MEMP_NUM_SYS_TIMEOUT, SIZEOF_SYS_TIMEO).
#[local] Set Default Proof Using "Hshape".

(** The elements of the list are those that are live in the pool. *)
Definition list_rel (p : P) (next : Z) (es : list entry) : Prop :=
  exists ts live, timeo_list (mp_bytes p) next ts es /\ NoDup ts /\ mp_live p live /\
    forall a, a ∈ ts <-> live !! a = Some MEMP_SYS_TIMEOUT.

Lemma live_slots p live ts :
  mp_live p live -> (forall a, a ∈ ts -> live !! a = Some MEMP_SYS_TIMEOUT) -> slots ts.
Proof.
  intros Hp Hin. split.
  - intros a Ha. by destruct (mp_live_shape _ _ _ _ Hp (Hin a Ha)).
  - intros a b Ha Hb Hne. exact (mp_live_apart _ _ _ _ _ _ _ _ _ _ Hp (Hin a Ha) (Hin b Hb) Hne Hshape Hshape).
Qed.

(** Writing into the elements of the list. *)
Lemma live_writes p live (ts : list Z) m :
  mp_live p live -> (forall a, a ∈ ts -> live !! a = Some MEMP_SYS_TIMEOUT) ->
  (forall x, (forall b, b ∈ ts -> ~ b <= x < b + 32) -> m x = mp_bytes p x) -> mp_live (mp_set_bytes p m) live.
Proof.
  intros Hp Hin Hm. apply mp_set_law; [done|]. intros x Hx. apply Hm. intros b Hb.
  exact (Hx b _ _ _ (Hin b Hb) Hshape).
Qed.

Lemma list_rel_count p next es : list_rel p next es -> Z.of_nat (length es) <= MEMP_NUM_SYS_TIMEOUT.
Proof.
  intros (ts & live & Hl & Hnd & Hp & Hin). rewrite <- (timeo_list_length _ _ _ _ Hl).
  apply (mp_live_count p live MEMP_SYS_TIMEOUT _ _ ts Hp Hshape Hnd). intros a. apply Hin.
Qed.

(** A new element, filled in. *)
Lemma new_timeout_spec p next es due h arg :
  list_rel p next es -> Z.of_nat (length es) < MEMP_NUM_SYS_TIMEOUT -> word h = true -> word arg = true ->
  exists t p1 ts live, mp_malloc p MEMP_SYS_TIMEOUT = Ret (Some t, p1) /\ mp_bytes p1 = mp_bytes p /\
    mp_live p1 live /\ (forall a, a ∈ t :: ts <-> live !! a = Some MEMP_SYS_TIMEOUT) /\ NoDup (t :: ts) /\
    timeo_list (mp_bytes p) next ts es /\
    let m := set_timeo_time (set_timeo_arg (set_timeo_h (set_timeo_next (mp_bytes p) t 0) t h) t arg) t (u32 due) in
    timeo_is m t (Entry due h arg) /\ timeo_next m t = 0 /\
    (forall x, ~ t <= x < t + 32 -> m x = mp_bytes p x).
Proof.
  intros (ts & live & Hl & Hnd & Hp & Hin) Hroom Hh Ha.
  destruct (mp_malloc_law _ _ _ _ _ Hp Hshape) as (r & p1 & Hm & Hb & Hr). destruct r as [t|].
  2: { exfalso. destruct Hr as (_ & ps & Hnd' & Hlen & Hps).
    assert (length ps <= length ts)%nat as Hle.
    { apply submseteq_length, NoDup_submseteq; [done|]. intros a Hap. by apply Hin, Hps. }
    rewrite (timeo_list_length _ _ _ _ Hl) in Hle. lia. }
  destruct Hr as [Hnone Hp1]. exists t, p1, ts, (<[t := MEMP_SYS_TIMEOUT]> live).
  assert (t ∉ ts) as Hnt by (rewrite Hin, Hnone; done).
  split_and!; [done..| |by constructor|done|].
  { intros a. rewrite elem_of_cons, lookup_insert_Some, Hin. destruct (decide (t = a)) as [->|Hne]; naive_solver. }
  apply word_spec in Hh, Ha. unfold timeo_is, timeo_time, timeo_h, timeo_arg, timeo_next.
  unfold set_timeo_time, set_timeo_arg, set_timeo_h, set_timeo_next. cbn [e_due e_h e_arg]. split_and!.
  - rewrite load32_store32. unfold u32. by rewrite Zmod_mod.
  - transitivity (load64 (store64 (store64 (mp_bytes p) t 0) (t + 16) h) (t + 16)); [|by rewrite load64_store64, u64_small].
    apply load64_ext. intros x Hx. rewrite store32_out by lia. apply store64_out. lia.
  - transitivity (load64 (store64 (store64 (store64 (mp_bytes p) t 0) (t + 16) h) (t + 24) arg) (t + 24));
      [|by rewrite load64_store64, u64_small].
    apply load64_ext. intros x Hx. apply store32_out. lia.
  - transitivity (load64 (store64 (mp_bytes p) t 0) t); [|by rewrite load64_store64].
    apply load64_ext. intros x Hx. rewrite store32_out by lia. rewrite store64_out by lia. apply store64_out. lia.
  - intros x Hx. rewrite store32_out, !store64_out by lia. done.
Qed.

(** A state with another list. *)
Definition with_list (st : timers P) (p : P) (next : Z) : timers P := set_next_timeout (tm_set_pool st p) next.

(** The list after writes into its elements. *)
Lemma list_rel_write p live ts (ts' : list Z) m next es :
  mp_live p live -> (forall a, a ∈ ts <-> live !! a = Some MEMP_SYS_TIMEOUT) -> NoDup ts ->
  ts' ≡ₚ ts -> timeo_list m next ts' es ->
  (forall x, (forall b, b ∈ ts -> ~ b <= x < b + 32) -> m x = mp_bytes p x) ->
  list_rel (mp_set_bytes p m) next es.
Proof.
  intros Hp Hin Hnd Hperm Hl Hm. exists ts', live. rewrite mp_bytes_set. split_and!.
  - done.
  - by rewrite Hperm.
  - apply (live_writes p live ts); [done|intros a; apply Hin|done].
  - intros a. by rewrite Hperm.
Qed.

Lemma sys_timeout_abs_spec (st : timers P) es due h arg :
  list_rel (tm_pool st) (next_timeout st) es -> Z.of_nat (length es) < MEMP_NUM_SYS_TIMEOUT ->
  word h = true -> word arg = true ->
  (forall y, y ∈ es -> -2147483648 <= due - e_due y <= 2147483647) ->
  exists p' next', sys_timeout_abs st (u32 due) h arg = Ret (with_list st p' next') /\
    list_rel p' next' (insert_entry (Entry due h arg) es).
Proof.
  intros Hrel Hroom Hh Ha Hr.
  destruct (new_timeout_spec _ _ _ due _ _ Hrel Hroom Hh Ha)
    as (t & p1 & ts & live & Hmal & Hb & Hlive & Hin & Hnd & Hl & He & Hn0 & Hout).
  set (m := set_timeo_time _ _ _) in *. set (e := Entry due h arg) in *.
  assert (slots (t :: ts)) as Hsl by (apply (live_slots p1 live); [done|intros a; apply Hin]).
  assert (forall a, a ∈ ts -> a <> t) as Hne by (intros a Hat ->; by apply NoDup_cons in Hnd as [Hnd _]).
  assert (timeo_list m (next_timeout st) ts es) as Hlm.
  { apply (timeo_list_ext (mp_bytes (tm_pool st))); [|done]. intros a Hat x Hx. symmetry. apply Hout.
    destruct (sl_apart _ Hsl a t ltac:(by right) ltac:(by left) (Hne a Hat)); lia. }
  assert (forall x, (forall b, b ∈ t :: ts -> ~ b <= x < b + 32) -> m x = mp_bytes p1 x) as Hmo.
  { intros x Hx. rewrite Hb. apply Hout, Hx. by left. }
  unfold sys_timeout_abs. rewrite Hmal. cbn [mbind outcome_bind]. unfold tm_mem, tm_set_mem.
  cbn [tm_set_pool tm_pool next_timeout]. rewrite Hb. fold m. pose proof (timeo_list_head _ _ _ _ Hl) as Hhd.
  destruct ts as [|t2 ts2], es as [|x es2]; try (by destruct Hl); cbn [hd] in Hhd.
  - rewrite Hhd. cbn [Z.eqb]. exists (mp_set_bytes p1 m), t. split; [done|].
    apply (list_rel_write p1 live [t] [t]); [done..| |done]. cbn [insert_entry timeo_list]. by split_and!.
  - pose proof (sl_word _ Hsl t2 ltac:(right; by left)) as Ht2. rewrite Hhd in *.
    destruct (Z.eqb_spec t2 0); [lia|]. pose proof Hlm as (_ & (Htx & _) & _). pose proof He as (Hte & _).
    rewrite Hte, Htx, time_less_than by (apply Hr; by left). cbn [insert_entry]. change (e_due e) with due.
    destruct (Z.ltb_spec due (e_due x)) as [Hlt|Hge].
    + rewrite mp_set_set. exists (mp_set_bytes p1 (set_timeo_next m t t2)), t. split; [done|].
      assert (word t2 = true) as Hw2 by (apply word_spec; lia).
      apply (list_rel_write p1 live (t :: t2 :: ts2) (t :: t2 :: ts2)); [done..| |].
      * apply timeo_list_cons; [by apply timeo_is_set_next|]. rewrite timeo_next_set by done.
        apply (timeo_list_ext m); [|done]. intros a Hat. apply set_next_slot, (sl_apart _ Hsl); [by right|by left|by apply Hne].
      * intros y Hy. rewrite set_next_out; [by apply Hmo|]. specialize (Hy t ltac:(by left)). lia.
    + destruct (timeout_insert_loop_spec timeout_fuel m t t2 ts2 e x es2) as (m' & ts' & -> & Hl' & Hp & Hfr); [done..| | |].
      * intros y Hy. apply Hr. by right.
      * pose proof (timeo_list_length _ _ _ _ Hl) as Hlen. cbn [length] in Hlen, Hroom.
        unfold timeout_fuel, MEMP_NUM_SYS_TIMEOUT in *. lia.
      * cbn [mbind outcome_bind]. rewrite mp_set_set. exists (mp_set_bytes p1 m'), t2. split; [unfold with_list; by rewrite <- Hhd|].
        apply (list_rel_write p1 live (t :: t2 :: ts2) (t2 :: ts')); [done..| |done|].
        -- rewrite Hp. apply Permutation_swap.
        -- intros y Hy. rewrite Hfr by done. by apply Hmo.
Qed.

(** ** Taking a timeout out *)

Lemma list_rel_free p live t ts next es :
  mp_live p live -> (forall a, a ∈ t :: ts <-> live !! a = Some MEMP_SYS_TIMEOUT) -> NoDup (t :: ts) ->
  timeo_list (mp_bytes p) next ts es ->
  exists p', mp_free p MEMP_SYS_TIMEOUT t = Ret p' /\ list_rel p' next es.
Proof.
  intros Hp Hin [Hnt Hnd]%NoDup_cons Hl.
  destruct (mp_free_law _ _ _ _ Hp (proj1 (Hin t) ltac:(by left))) as (p' & Hf & Hp' & Hb).
  exists p'. split; [done|]. exists ts, (delete t live). split_and!; [|done|done|].
  - apply (timeo_list_ext (mp_bytes p)); [|done]. intros a Ha.
    apply (Hb a MEMP_SYS_TIMEOUT MEMP_NUM_SYS_TIMEOUT SIZEOF_SYS_TIMEO); [by intros ->| |done]. apply Hin. by right.
  - intros a. rewrite lookup_delete_Some, <- Hin, elem_of_cons. naive_solver.
Qed.

Lemma pop_timeout_spec p next e es :
  list_rel p next (e :: es) ->
  next <> 0 /\ timeo_is (mp_bytes p) next e /\
  exists p', mp_free p MEMP_SYS_TIMEOUT next = Ret p' /\ list_rel p' (timeo_next (mp_bytes p) next) es.
Proof.
  intros (ts & live & Hl & Hnd & Hp & Hin). destruct ts as [|t ts]; [done|]. destruct Hl as (-> & He & Hl).
  split_and!; [|done|by apply (list_rel_free p live t ts)].
  destruct (mp_live_shape _ _ _ _ Hp (proj1 (Hin t) ltac:(by left))). lia.
Qed.

Lemma list_rel_null p next : list_rel p next [] -> next = 0.
Proof. intros (ts & live & Hl & _). by destruct ts. Qed.

(** An element in the middle. *)
Lemma timeo_list_at m p (ps : list Z) t ts (pes : list entry) e es :
  timeo_list m p (ps ++ t :: ts) (pes ++ e :: es) -> length ps = length pes ->
  timeo_is m t e /\ timeo_list m (timeo_next m t) ts es.
Proof.
  revert p pes. induction ps as [|a ps IH]; intros p [|pe pes] Hl Hlen; try done.
  - by destruct Hl as (-> & He & Hl).
  - destruct Hl as (_ & _ & Hl). by eapply IH; [|injection Hlen].
Qed.

(** [t] unlinked behind [tp]. *)
Lemma unlink_behind m p (ps : list Z) tp t ts (pes : list entry) ep e es :
  timeo_list m p (ps ++ tp :: t :: ts) (pes ++ ep :: e :: es) -> length ps = length pes ->
  NoDup (ps ++ tp :: t :: ts) -> slots (ps ++ tp :: t :: ts) ->
  timeo_list (set_timeo_next m tp (timeo_next m t)) p (ps ++ tp :: ts) (pes ++ ep :: es).
Proof.
  intros Hl Hlen Hnd Hsl. set (m' := set_timeo_next _ _ _).
  assert (forall a, a ∈ ps ++ tp :: t :: ts -> a <> tp -> same_slot m m' a) as Hext.
  { intros a Ha Hne. apply set_next_slot, (sl_apart _ Hsl); [done|set_solver|done]. }
  clear Hsl. revert p pes Hl Hlen Hnd Hext. induction ps as [|a ps IH]; intros p [|pe pes] Hl Hlen Hnd Hext; try done.
  - cbn [app] in *. destruct Hl as (-> & Hep & Hn & He & Hl). apply timeo_list_cons; [by apply timeo_is_set_next|].
    unfold m'. rewrite timeo_next_set.
    + apply (timeo_list_ext m); [|done]. intros a Ha. apply Hext; [by right; right|].
      intros ->. apply NoDup_cons in Hnd as [Hnd _]. apply Hnd. by right.
    + apply word_spec, load64_range.
  - cbn [app] in *. destruct Hl as (-> & Hpe & Hl). apply NoDup_cons in Hnd as [Hna Hnd].
    assert (same_slot m m' a) as Ha by (apply Hext; [by left|intros ->; apply Hna; set_solver]).
    apply timeo_list_cons; [by apply (timeo_is_ext m)|]. rewrite <- (timeo_next_ext m) by done.
    apply IH; [done|by injection Hlen|done|]. intros b Hb. apply Hext. by right.
Qed.

(** Where the walk over the list stands: [ps] are the elements behind it. *)
Lemma untimeout_loop_spec fuel (st : timers P) h arg ps ts live pes es :
  timeo_list (tm_mem st) (next_timeout st) (ps ++ ts) (pes ++ es) -> length ps = length pes ->
  NoDup (ps ++ ts) -> mp_live (tm_pool st) live -> (forall a, a ∈ ps ++ ts <-> live !! a = Some MEMP_SYS_TIMEOUT) ->
  (length ts < fuel)%nat ->
  exists p' next', untimeout_loop fuel st (last ps) (hd 0 ts) h arg = Ret (with_list st p' next') /\
    list_rel p' next' (pes ++ remove_entry h arg es).
Proof.
  intros Hl Hlen Hnd Hp Hin Hf. assert (slots (ps ++ ts)) as Hsl by (apply (live_slots (tm_pool st) live); [done|intros a; apply Hin]).
  revert ps ts pes es Hl Hlen Hnd Hin Hf Hsl. induction fuel as [|fuel IH]; intros ps ts pes es Hl Hlen Hnd Hin Hf Hsl; [lia|].
  pose proof (timeo_list_length _ _ _ _ Hl) as Hlen2. rewrite !length_app in Hlen2. cbn [untimeout_loop].
  destruct ts as [|t ts], es as [|e es]; cbn [length] in Hlen2; try lia; cbn [hd].
  { exists (tm_pool st), (next_timeout st). split; [by destruct st|]. by exists (ps ++ []), live. }
  pose proof (sl_word _ Hsl t ltac:(set_solver)). destruct (Z.eqb_spec t 0); [lia|].
  destruct (timeo_list_at _ _ _ _ _ _ _ _ Hl Hlen) as [He Hrest].
  pose proof He as (_ & Hh & Ha). rewrite Hh, Ha. cbn [remove_entry]. fold (entry_is h arg e).
  destruct (entry_is h arg e) eqn:Hm; cbn [andb].
  - assert (forall a, a ∈ t :: ps ++ ts <-> live !! a = Some MEMP_SYS_TIMEOUT) as Hin'.
    { intros a. rewrite <- Hin. set_solver. }
    assert (NoDup (t :: ps ++ ts)) as Hnd' by (by rewrite Permutation_middle).
    destruct (decide (ps = [])) as [->|Hne].
    + destruct pes; [|done]. destruct Hl as (Hhd & _ & Hl). cbn [last app] in *.
      destruct (list_rel_free (tm_pool st) live t ts (timeo_next (tm_mem st) t) es Hp Hin' Hnd' Hl) as (p' & Hfr & Hrel).
      cbn [set_next_timeout tm_pool]. rewrite Hfr. by eexists _, _.
    + destruct (exists_last Hne) as (ps' & tp & ->). rewrite last_snoc.
      destruct (exists_last (l := pes)) as (pes' & ep & ->); [by intros ->; rewrite length_app in Hlen; cbn in Hlen; lia|].
      rewrite !length_app in Hlen. cbn [length] in Hlen. rewrite <- !app_assoc in *. cbn [app] in *.
      pose proof (unlink_behind _ _ _ _ _ _ _ _ _ _ Hl ltac:(lia) Hnd Hsl) as Hl'.
      cbn [tm_set_mem tm_set_pool tm_pool]. set (m' := set_timeo_next _ _ _) in *.
      assert (mp_live (mp_set_bytes (tm_pool st) m') live) as Hp'.
      { apply (live_writes _ _ (ps' ++ tp :: t :: ts)); [done|intros a; apply Hin|]. intros x Hx.
        apply set_next_out. specialize (Hx tp ltac:(set_solver)). lia. }
      destruct (list_rel_free (mp_set_bytes (tm_pool st) m') live t (ps' ++ tp :: ts) (next_timeout st) (pes' ++ ep :: es))
        as (p' & Hfr & Hrel); [done|done|done|by rewrite mp_bytes_set|].
      rewrite Hfr. cbn [mbind outcome_bind]. exists p', (next_timeout st). split; [by destruct st|done].
  - assert (forall l : list Z, ps ++ t :: l = (ps ++ [t]) ++ l) as Hz by (intros; by rewrite <- app_assoc).
    assert (forall l : list entry, pes ++ e :: l = (pes ++ [e]) ++ l) as He' by (intros; by rewrite <- app_assoc).
    rewrite (timeo_list_head _ _ _ _ Hrest).
    rewrite Hz in *. rewrite He' in Hl |- *. rewrite <- (last_snoc t ps).
    apply (IH (ps ++ [t]) ts (pes ++ [e]) es); [done| |done|done|cbn [length] in Hf; lia|done].
    rewrite !length_app. cbn. lia.
Qed.

(** ** Every operation implements that of the schedule *)

Context `{!TimerSymbols} (handlers : nat -> list timer_call).

Record timers_rel (st : timers P) (s : schedule) : Prop := TimersRel {
  tr_ok : sched_ok s;
  tr_list : list_rel (tm_pool st) (next_timeout st) (s_entries s);
  tr_due : current_timeout_due_time st = u32 (s_due s);
  tr_active : tcpip_tcp_timer_active st = s_active s;
  tr_clock : tm_clock st = s_clock s;
  tr_pcbs : tcp_active_pcbs st = s_pcbs s;
  tr_tw : tcp_tw_pcbs st = s_tw s;
  tr_ran : tm_ran st = s_ran s }.

Lemma timers_rel_list st s p next l :
  timers_rel st s -> sched_ok (s_set_entries s l) -> list_rel p next l ->
  timers_rel (with_list st p next) (s_set_entries s l).
Proof. intros [] Hok Hl. by split. Qed.

(** If the schedule does the step, so do the timers. *)
Definition refines (o : outcome (timers P)) (a : outcome schedule) : Prop :=
  forall s', a = Ret s' -> exists st', o = Ret st' /\ timers_rel st' s'.

Lemma refines_ret st s : timers_rel st s -> refines (Ret st) (Ret s).
Proof. intros Hr s' [= <-]. by exists st. Qed.

Lemma refines_bind o a f g :
  refines o a -> (forall st s, a = Ret s -> timers_rel st s -> refines (f st) (g s)) ->
  refines (st ← o; f st) (s ← a; g s).
Proof.
  intros Ho Hf s' Hs. destruct a as [s| | |] eqn:Ha; try done. destruct (Ho s eq_refl) as (st & -> & Hr).
  by apply (Hf st s).
Qed.

Lemma sys_timeout_abs_refines st s due h arg :
  timers_rel st s -> s_clock s <= due <= s_clock s + 1073741823 ->
  refines (sys_timeout_abs st (u32 due) h arg) (s_add s due h arg).
Proof.
  intros Hr Hd s' Hs. pose proof (tr_ok _ _ Hr) as Hok. destruct (s_add_spec _ _ _ _ _ Hok Hs Hd) as [-> Hok'].
  unfold s_add in Hs. apply guard_ret in Hs as [[[Hroom%Z.ltb_lt Hh]%andb_true_iff Ha]%andb_true_iff _].
  destruct (sys_timeout_abs_spec st (s_entries s) due h arg) as (p & next & -> & Hl); [apply Hr|done..| |].
  { intros y Hy. destruct (so_window _ Hok y Hy). unfold LATE, SPAN in *. lia. }
  eexists. split; [done|]. by apply timers_rel_list.
Qed.

Lemma sys_timeout_refines st s msecs h arg :
  timers_rel st s -> refines (sys_timeout st msecs h arg) (s_timeout s msecs h arg).
Proof.
  intros Hr s' Hs. pose proof Hs as ([Hlo%Z.ltb_lt Hhi]%andb_true_iff & Hadd)%guard_ret. unfold sys_timeout.
  rewrite Hhi. cbn [LWIP_ASSERT mbind outcome_bind]. apply Z.leb_le in Hhi. change (LWIP_UINT32_MAX / 4) with 1073741823 in Hhi.
  unfold sys_now. rewrite u32_plus, (tr_clock _ _ Hr). eapply sys_timeout_abs_refines; [done|lia|done].
Qed.

Lemma sys_untimeout_refines st s h arg :
  timers_rel st s -> refines (sys_untimeout st h arg) (Ret (s_untimeout s h arg)).
Proof.
  intros Hr s' [= <-]. pose proof Hr as [Hok Hl _ _ _ _ _ _]. unfold sys_untimeout.
  assert (sched_ok (s_untimeout s h arg)) as Hok' by (apply sched_ok_sublist; [done|apply remove_entry_sublist]).
  pose proof Hl as (ts & live & Htl & Hnd & Hp & Hin). pose proof (timeo_list_head _ _ _ _ Htl) as Hhd.
  destruct (Z.eqb_spec (next_timeout st) 0) as [H0|Hne].
  - exists st. split; [done|]. destruct ts as [|t ts]; cbn [hd] in Hhd.
    + destruct (s_entries s) eqn:Hs; [|done]. assert (s_untimeout s h arg = s) as ->; [|done].
      unfold s_untimeout. rewrite Hs. destruct s. cbn in *. by subst.
    + destruct (mp_live_shape _ _ _ _ Hp (proj1 (Hin t) ltac:(by left))). lia.
  - destruct (untimeout_loop_spec timeout_fuel st h arg [] ts live [] (s_entries s)) as (p & next & Heq & Hl'); [done..| |].
    + pose proof (list_rel_count _ _ _ Hl) as Hc. rewrite <- (timeo_list_length _ _ _ _ Htl) in Hc.
      unfold timeout_fuel, MEMP_NUM_SYS_TIMEOUT in *. lia.
    + cbn [last] in Heq. rewrite <- Hhd in Heq. rewrite Heq. eexists. split; [done|]. by apply timers_rel_list.
Qed.

Lemma timer_call_refines st s c :
  timers_rel st s -> refines (timer_call_exec st c) (s_call s c).
Proof.
  intros Hr. destruct c as [ms|a tw|ms h arg|h arg|]; cbn [timer_call_exec s_call].
  - intros s' Hs. pose proof (s_call_moved s (Elapse ms) s' (tr_ok _ _ Hr) Hs) as [_ _ Hok]. apply guard_ret in Hs as [_ [= <-]].
    eexists. split; [done|]. destruct Hr. split; cbn; (done || lia).
  - intros s' [= <-]. eexists. split; [done|]. destruct Hr as [[] ? ? ? ? ? ? ?]. by split.
  - by apply sys_timeout_refines.
  - by apply sys_untimeout_refines.
  - unfold tcp_timer_needed, s_needed. destruct Hr as [[] Hl Hd Ha Hc Hpc Htw Hrn] eqn:E. rewrite Ha, Hpc, Htw.
    destruct (negb _ && _); [|by apply refines_ret]. apply sys_timeout_refines. by split.
Qed.

Lemma timer_calls_refines st s cs :
  timers_rel st s -> refines (timer_calls_exec st cs) (s_calls s cs).
Proof.
  revert st s. induction cs as [|c cs IH]; intros st s Hr; cbn [timer_calls_exec s_calls]; [by apply refines_ret|].
  apply refines_bind; [by apply timer_call_refines|]. intros st1 s1 _ Hr1. by apply IH.
Qed.

Lemma run_unknown_refines st s :
  timers_rel st s -> refines (run_unknown handlers st) (s_unknown handlers s).
Proof.
  intros Hr. unfold run_unknown, s_unknown. rewrite (tr_ran _ _ Hr). apply timer_calls_refines.
  destruct Hr as [[] ? ? ? ? ? ? ?]. split; cbn; (done || congruence).
Qed.

Lemma tcpip_tcp_timer_refines st s :
  timers_rel st s -> refines (tcpip_tcp_timer handlers st) (s_tcp_timer handlers s).
Proof.
  intros Hr. apply refines_bind; [by apply run_unknown_refines|]. intros st1 s1 _ Hr1.
  rewrite (tr_pcbs _ _ Hr1), (tr_tw _ _ Hr1). destruct (_ || _); [by apply sys_timeout_refines|].
  apply refines_ret. destruct Hr1 as [[] ? ? ? ? ? ? ?]. by split.
Qed.

Lemma lwip_cyclic_timer_refines st s arg :
  timers_rel st s -> s_due s <= s_clock s -> refines (lwip_cyclic_timer handlers st arg) (s_cyclic handlers s arg).
Proof.
  intros Hr Hd s' Hs. pose proof Hs as Hs0. unfold s_cyclic in Hs0. unfold lwip_cyclic_timer.
  destruct (cyclic_at arg) as [c|] eqn:Hc; [|done]. cbn [deref mbind outcome_bind] in *.
  pose proof (cyclic_interval _ _ Hc) as Hi.
  destruct (s_unknown handlers s) as [s1| | |] eqn:Hu; try done.
  destruct (run_unknown_refines st s Hr s1 Hu) as (st1 & -> & Hr1). cbn [mbind outcome_bind] in *.
  pose proof (s_unknown_moved _ _ _ (tr_ok _ _ Hr) Hu) as [Hcl Hdue Hok1]. apply guard_ret in Hs0 as [Hl%Z.leb_le Hs0].
  unfold sys_now. rewrite (tr_due _ _ Hr1), (tr_clock _ _ Hr1), !u32_plus. rewrite time_less_than by (unfold LATE in *; lia).
  destruct (Z.ltb_spec (s_due s1 + c.1) (s_clock s1)); eapply sys_timeout_abs_refines; [done|lia|done|done|lia|done].
Qed.

Lemma call_handler_refines st s h arg :
  timers_rel st s -> s_due s <= s_clock s ->
  refines (if negb (h =? 0) then call_handler handlers st h arg else Ret st) (s_handler handlers s h arg).
Proof.
  intros Hr Hd. unfold s_handler, call_handler. destruct (h =? 0); cbn [negb]; [by apply refines_ret|].
  destruct (h =? lwip_cyclic_timer_addr); [by apply lwip_cyclic_timer_refines|].
  destruct (h =? tcpip_tcp_timer_addr); [by apply tcpip_tcp_timer_refines|by apply run_unknown_refines].
Qed.

(** A called handler as the code sees it. *)
Definition entry_call (e : entry) : Z * Z * Z := (u32 (e_due e), e_h e, e_arg e).

Lemma check_timeouts_loop_refines fuel now st s called s' :
  timers_rel st s -> now <= s_clock s -> s_clock s - LATE <= now ->
  s_check_loop handlers fuel now s = Ret (called, s') ->
  exists st', check_timeouts_loop handlers fuel (u32 now) st = Ret (entry_call <$> called, st') /\ timers_rel st' s'.
Proof.
  revert st s called. induction fuel as [|fuel IH]; intros st s called Hr Hn Hlate; [done|].
  cbn [s_check_loop check_timeouts_loop]. pose proof Hr as [Hok Hl Hdu Hac Hcl Hpc Htw Hrn].
  destruct (s_entries s) as [|e l] eqn:Hs.
  { intros [= <- <-]. rewrite (list_rel_null _ _ Hl). exists st. done. }
  destruct (pop_timeout_spec _ _ _ _ Hl) as (H0 & (Ht & Hh & Ha) & p' & Hf & Hl').
  destruct (Z.eqb_spec (next_timeout st) 0); [done|]. unfold tm_mem. rewrite Ht, Hh, Ha.
  pose proof (so_window _ Hok e ltac:(rewrite Hs; by left)) as He.
  rewrite time_less_than by (unfold LATE, SPAN in *; lia).
  destruct (Z.ltb_spec now (e_due e)) as [|Hd]; [intros [= <- <-]; by exists st|].
  cbn [set_due_time set_next_timeout tm_pool]. rewrite Hf. cbn [mbind outcome_bind].
  destruct (s_handler handlers (s_pop s e l) (e_h e) (e_arg e)) as [s1| | |] eqn:Hs1; try done. cbn [mbind outcome_bind].
  intros (Hg%Z.leb_le & Hrest)%guard_ret. destruct (s_check_loop handlers fuel now s1) as [[called1 s2]| | |] eqn:Hlp; try done.
  injection Hrest as <- <-. pose proof (s_pop_ok _ _ _ Hok Hs) as Hokp.
  edestruct (call_handler_refines (tm_set_pool (set_due_time (set_next_timeout st (timeo_next (mp_bytes (tm_pool st)) (next_timeout st))) (u32 (e_due e))) p') (s_pop s e l) (e_h e) (e_arg e))
    as (st1 & Hst1 & Hr1); [by split|cbn; lia|exact Hs1|].
  cbn [set_due_time set_next_timeout tm_pool] in Hst1. rewrite Hst1. cbn [mbind outcome_bind].
  destruct (s_handler_moved _ _ _ _ _ Hokp ltac:(cbn; lia) Hs1) as [Hc1 _ _]. cbn [s_pop s_clock] in Hc1.
  destruct (IH st1 s1 called1 Hr1 ltac:(lia) Hg Hlp) as (st2 & Hst2 & Hr2). rewrite Hst2. exists st2. by split.
Qed.

Lemma sys_check_timeouts_refines st s called s' :
  timers_rel st s -> s_check handlers s = Ret (called, s') ->
  exists st', sys_check_timeouts handlers st = Ret (entry_call <$> called, st') /\ timers_rel st' s'.
Proof.
  intros Hr Hs. unfold sys_check_timeouts, sys_now. rewrite (tr_clock _ _ Hr).
  eapply check_timeouts_loop_refines; [done|lia|unfold LATE; lia|exact Hs].
Qed.

(** ** Rebasing the times *)

Lemma restart_time base now due :
  u32 (u32 (u32 due - u32 base) + u32 now) = u32 (due - base + now).
Proof. unfold u32. rewrite <- Zminus_mod, <- Zplus_mod. done. Qed.

Lemma set_time_moved m t e base now :
  timeo_is m t e ->
  let m' := set_timeo_time m t (u32 (u32 (timeo_time m t - u32 base) + u32 now)) in
  timeo_is m' t (moved_entry base now e) /\ timeo_next m' t = timeo_next m t /\
  forall x, ~ t <= x < t + 32 -> m' x = m x.
Proof.
  intros (Ht & Hh & Ha) m'. assert (forall x, ~ t + 8 <= x < t + 12 -> m' x = m x) as Hout by (intros x Hx; apply store32_out; lia).
  unfold timeo_is, timeo_h, timeo_arg, timeo_next, timeo_time in *.
  cbn [moved_entry e_due e_h e_arg]. rewrite <- Hh, <- Ha. split_and!.
  - unfold m', set_timeo_time. rewrite load32_store32, Ht, restart_time. unfold u32. by rewrite Zmod_mod.
  - apply load64_ext. intros x Hx. apply Hout. lia.
  - apply load64_ext. intros x Hx. apply Hout. lia.
  - apply load64_ext. intros x Hx. apply Hout. lia.
  - intros x Hx. apply Hout. lia.
Qed.

Lemma restart_loop_spec fuel m t ts es base now :
  timeo_list m t ts es -> slots ts -> NoDup ts -> (length ts < fuel)%nat ->
  exists m', restart_loop fuel m t (u32 base) (u32 now) = Ret m' /\
    timeo_list m' t ts (moved_entry base now <$> es) /\
    (forall x, (forall b, b ∈ ts -> ~ b <= x < b + 32) -> m' x = m x).
Proof.
  revert m t ts es. induction fuel as [|fuel IH]; intros m t ts es Hl Hsl Hnd Hf; [lia|]. cbn [restart_loop].
  destruct ts as [|t' ts], es as [|e es]; try done.
  { rewrite Hl. exists m. done. }
  destruct Hl as (-> & He & Hl). pose proof (sl_word _ Hsl t' ltac:(by left)). destruct (Z.eqb_spec t' 0); [lia|].
  destruct (set_time_moved m t' e base now He) as (He' & Hn & Hout). set (m1 := set_timeo_time _ _ _) in *. rewrite Hn.
  apply NoDup_cons in Hnd as [Hnt Hnd].
  assert (forall m m', (forall x, ~ t' <= x < t' + 32 -> m' x = m x) -> forall a, a ∈ ts -> same_slot m m' a) as Hext.
  { intros m2 m2' Hm a Ha x Hx. symmetry. apply Hm.
    destruct (sl_apart _ Hsl t' a ltac:(by left) ltac:(by right) ltac:(by intros ->)); lia. }
  destruct (IH m1 (timeo_next m t') ts es) as (m' & Hm' & Hl' & Hfr); [|by apply (slots_sub _ _ Hsl); right|done|cbn [length] in Hf; lia|].
  { apply (timeo_list_ext m); [by apply Hext|done]. }
  exists m'. split; [done|]. assert (same_slot m1 m' t') as Hst.
  { intros x Hx. symmetry. apply Hfr. intros b Hb. destruct (sl_apart _ Hsl b t' ltac:(by right) ltac:(by left) ltac:(by intros ->)); lia. }
  split.
  - cbn [fmap list_fmap]. apply timeo_list_cons; [by apply (timeo_is_ext m1)|]. by rewrite <- (timeo_next_ext m1), Hn.
  - intros x Hx. rewrite Hfr by (intros b Hb; apply Hx; by right). apply Hout, Hx. by left.
Qed.

Lemma sys_restart_timeouts_refines st s :
  timers_rel st s -> refines (sys_restart_timeouts st) (Ret (s_restart s)).
Proof.
  intros Hr s' [= <-]. pose proof (s_restart_ok _ (tr_ok _ _ Hr)) as Hok'. pose proof Hr as [Hok Hl _ _ Hcl _ _ _].
  unfold sys_restart_timeouts, s_restart in *. destruct (s_entries s) as [|e l] eqn:Hs.
  { rewrite (list_rel_null _ _ Hl). by exists st. }
  destruct (pop_timeout_spec _ _ _ _ Hl) as (H0 & (Ht & _) & _). destruct (Z.eqb_spec (next_timeout st) 0); [done|].
  unfold tm_mem. rewrite Ht. unfold sys_now. rewrite Hcl. pose proof Hl as (ts & live & Htl & Hnd & Hp & Hin).
  destruct (restart_loop_spec timeout_fuel (mp_bytes (tm_pool st)) (next_timeout st) ts (e :: l) (e_due e) (s_clock s))
    as (m' & -> & Hl' & Hfr); [done|apply (live_slots (tm_pool st) live); [done|intros a; apply Hin]|done| |].
  { pose proof (list_rel_count _ _ _ Hl) as Hc. rewrite <- (timeo_list_length _ _ _ _ Htl) in Hc.
    unfold timeout_fuel, MEMP_NUM_SYS_TIMEOUT in *. lia. }
  cbn [mbind outcome_bind]. eexists. split; [done|].
  assert (tm_set_mem st m' = with_list st (mp_set_bytes (tm_pool st) m') (next_timeout st)) as -> by (by destruct st).
  apply timers_rel_list; [done..|]. by apply (list_rel_write (tm_pool st) live ts ts).
Qed.

Lemma sys_timeouts_sleeptime_spec st s :
  timers_rel st s -> sys_timeouts_sleeptime st = Ret (s_sleeptime s).
Proof.
  intros [Hok Hl _ _ Hcl _ _ _]. unfold sys_timeouts_sleeptime, s_sleeptime. destruct (s_entries s) as [|e l] eqn:Hs.
  { by rewrite (list_rel_null _ _ Hl). }
  destruct (pop_timeout_spec _ _ _ _ Hl) as (H0 & (Ht & _) & _). destruct (Z.eqb_spec (next_timeout st) 0); [done|].
  unfold tm_mem, sys_now. rewrite Ht, Hcl. pose proof (so_window _ Hok e ltac:(rewrite Hs; by left)) as He.
  unfold LATE, SPAN in He. rewrite time_less_than by lia. destruct (Z.ltb_spec (e_due e) (s_clock s)); [f_equal; lia|].
  assert (u32 (u32 (e_due e) - u32 (s_clock s)) = e_due e - s_clock s) as ->.
  { unfold u32. rewrite <- Zminus_mod. apply Z.mod_small. lia. }
  unfold LWIP_MAX_TIMEOUT. destruct (Z.leb_spec (e_due e - s_clock s) 2147483647); [|lia].
  cbn [LWIP_ASSERT mbind outcome_bind]. f_equal. lia.
Qed.

(** ** Starting the cyclic timers *)

Lemma init_loop_calls (st : timers P) i cyclics : init_loop st i cyclics = timer_calls_exec st (init_calls i cyclics).
Proof.
  revert st i. induction cyclics as [|c cyclics IH]; intros st i; [done|]. rewrite init_calls_cons.
  cbn [init_loop timer_calls_exec timer_call_exec].
  destruct (sys_timeout st _ _ _) as [st1| | |]; cbn [mbind outcome_bind]; [apply IH|done..].
Qed.

Lemma sys_timeouts_init_refines st s : timers_rel st s -> refines (sys_timeouts_init st) (s_init s).
Proof. intros Hr. unfold sys_timeouts_init. rewrite init_loop_calls. by apply timer_calls_refines. Qed.
End rel.
