(* ===== verification/TimeoutsClient.v ===== *)
(** * What the timers of lwIP promise

    For every sequence of calls, and whatever the handlers do within the
    contract of the schedule, [timeouts.c] does what the schedule does; one call
    of [sys_check_timeouts] runs what is due, in order, and comes back; no cyclic
    timer is lost or doubled. *)
From Stdlib Require Import Sorted.
From S2P Require Import Prelude Memory Align Lwip Pbuf Refinement Memp MempClient MempIface Timeouts Schedule.
From S2P Require Import ScheduleCheck TimeoutsSpec.

Inductive timers_op :=
  | TimersCall (c : timer_call)
  | TimersInit
  | TimersCheck
  | TimersRestart
  | TimersSleeptime.

Inductive timers_answer :=
  | Done
  | Called (handlers : list (Z * Z * Z))
  | Sleep (ms : Z).

Section exec.
Context {P : Type} `{!MempOps P} `{!TimerSymbols} (handlers : nat -> list timer_call).

Definition timers_exec (st : timers P) (op : timers_op) : outcome (timers_answer * timers P) :=
  match op with
  | TimersCall c => st ← timer_call_exec st c; Ret (Done, st)
  | TimersInit => st ← sys_timeouts_init st; Ret (Done, st)
  | TimersCheck => '(called, st) ← sys_check_timeouts handlers st; Ret (Called called, st)
  | TimersRestart => st ← sys_restart_timeouts st; Ret (Done, st)
  | TimersSleeptime => ms ← sys_timeouts_sleeptime st; Ret (Sleep ms, st)
  end.

Definition s_exec (s : schedule) (op : timers_op) : outcome (timers_answer * schedule) :=
  match op with
  | TimersCall c => s ← s_call s c; Ret (Done, s)
  | TimersInit => s ← s_init s; Ret (Done, s)
  | TimersCheck => '(called, s) ← s_check handlers s; Ret (Called (entry_call <$> called), s)
  | TimersRestart => Ret (Done, s_restart s)
  | TimersSleeptime => Ret (Sleep (s_sleeptime s), s)
  end.

(** Before anything was started. *)
Definition timers_start (p : P) (clock : Z) : timers P := Timers p 0 0 false clock false false 0.
Definition s_start (clock : Z) : schedule := Schedule [] 0 false clock false false 0.

Lemma s_start_ok clock : sched_ok (s_start clock).
Proof. split; cbn [s_start s_entries]; [constructor|set_solver..|done]. Qed.

Lemma s_exec_settled s op : sched_ok s -> settled (s_exec s op).
Proof.
  intros Hok. destruct op; cbn [s_exec]; try apply settled_ret.
  - apply settled_bind; [apply s_call_settled|]. intros ? _. apply settled_ret.
  - apply settled_bind; [|intros ? _; apply settled_ret]. apply s_calls_settled.
  - apply settled_bind; [by apply s_check_settled|]. intros [called s'] _. apply settled_ret.
Qed.

Lemma s_exec_ok s op r s' : sched_ok s -> s_exec s op = Ret (r, s') -> sched_ok s'.
Proof.
  intros Hok. destruct op as [c| | | |]; cbn [s_exec].
  - destruct (s_call s c) as [s1| | |] eqn:Hc; try done. intros [= _ <-]. by destruct (s_call_moved _ _ _ Hok Hc).
  - destruct (s_init s) as [s1| | |] eqn:Hc; try done. intros [= _ <-]. by destruct (s_calls_moved _ _ _ Hok Hc).
  - destruct (s_check handlers s) as [[called s1]| | |] eqn:Hc; try done. intros [= _ <-].
    by destruct (s_check_runs handlers s called s1 Hok Hc) as (_ & _ & _ & ? & _).
  - intros [= _ <-]. by apply s_restart_ok.
  - by intros [= _ <-].
Qed.

Context `{!MempLaws P}.
Hypothesis Hshape : mp_shape MEMP_SYS_TIMEOUT = Some (MEMP_NUM_SYS_TIMEOUT, SIZEOF_SYS_TIMEO).

Lemma timers_exec_refines st s op r s' :
  timers_rel st s -> s_exec s op = Ret (r, s') ->
  exists st', timers_exec st op = Ret (r, st') /\ timers_rel st' s'.
Proof using Hshape.
  intros Hr. destruct op as [c| | | |]; cbn [s_exec timers_exec].
  - destruct (s_call s c) as [s1| | |] eqn:Hc; try done. intros [= <- <-].
    destruct (timer_call_refines Hshape st s c Hr s1 Hc) as (st1 & -> & Hr1). by exists st1.
  - destruct (s_init s) as [s1| | |] eqn:Hc; try done. intros [= <- <-].
    destruct (sys_timeouts_init_refines Hshape st s Hr s1 Hc) as (st1 & -> & Hr1). by exists st1.
  - destruct (s_check handlers s) as [[called s1]| | |] eqn:Hc; try done. intros [= <- <-].
    destruct (sys_check_timeouts_refines Hshape handlers st s called s1 Hr Hc) as (st1 & -> & Hr1). by exists st1.
  - intros [= <- <-]. destruct (sys_restart_timeouts_refines Hshape st s Hr _ eq_refl) as (st1 & -> & Hr1). by exists st1.
  - intros [= <- <-]. rewrite (sys_timeouts_sleeptime_spec Hshape st s Hr). by exists st.
Qed.

Lemma timers_start_rel p clock live :
  mp_live p live -> (forall a, live !! a <> Some MEMP_SYS_TIMEOUT) -> timers_rel (timers_start p clock) (s_start clock).
Proof using Hshape.
  intros Hp Hno. split; try done.
  - apply s_start_ok.
  - exists [], live. split_and!; [done|constructor|done|]. intros a. rewrite elem_of_nil. split; [done|by intros ?%Hno].
Qed.
End exec.

(** ** The theorems *)

Section theorems.
Context {P : Type} `{!MempOps P} `{!MempLaws P} `{!TimerSymbols} (handlers : nat -> list timer_call).
Hypothesis Hshape : mp_shape MEMP_SYS_TIMEOUT = Some (MEMP_NUM_SYS_TIMEOUT, SIZEOF_SYS_TIMEO).

Lemma timers_run_refines ops st s :
  timers_rel st s -> run_calls (s_exec handlers) s ops <> Undefined ->
  exists rs s' st', run_calls (s_exec handlers) s ops = Ret (rs, s') /\
    run_calls (timers_exec handlers) st ops = Ret (rs, st') /\ timers_rel st' s'.
Proof using Hshape.
  revert st s. induction ops as [|op ops IH]; intros st s Hr; cbn [run_calls].
  { intros _. by exists [], s, st. }
  destruct (s_exec_settled handlers s op (tr_ok _ _ Hr)) as [->|[[r s1] Hs]]; [done|].
  destruct (timers_exec_refines handlers Hshape st s op r s1 Hr Hs) as (st1 & -> & Hr1). rewrite Hs. cbn [mbind outcome_bind].
  intros Hu. destruct (IH st1 s1 Hr1) as (rs & s' & st' & Hrs & Hrst & Hr'); [by intros Hn; rewrite Hn in Hu|].
  rewrite Hrs, Hrst. by exists (r :: rs), s', st'.
Qed.

End theorems.

(** C38. Timers that wrap around every 49 days, in a list threaded through a
    pool of 17 elements, behave as a schedule with a clock that never wraps and
    serves first come first served: for every sequence of calls, whatever the
    handlers do, as long as the contract of the schedule is kept (delays in
    range, no more than 17 timeouts, the main loop at most six days late), all
    calls return, with the answers of the schedule, and the schedule stays in
    order.  Any pools that keep the laws of [MempLaws] will do. *)
Theorem timers_refine_schedule {P} `{!MempOps P} `{!MempLaws P} `{!TimerSymbols} (handlers : nat -> list timer_call)
    (p : P) (live : gmap Z Z) (clock : Z) (ops : list timers_op) :
  mp_shape MEMP_SYS_TIMEOUT = Some (MEMP_NUM_SYS_TIMEOUT, SIZEOF_SYS_TIMEO) ->
  mp_live p live -> (forall a, live !! a <> Some MEMP_SYS_TIMEOUT) ->
  run_calls (s_exec handlers) (s_start clock) ops <> Undefined ->
  exists rs s' st', run_calls (s_exec handlers) (s_start clock) ops = Ret (rs, s') /\
    run_calls (timers_exec handlers) (timers_start p clock) ops = Ret (rs, st') /\
    sched_ok s' /\ timers_rel st' s'.
Proof.
  intros Hshape Hp Hno Hu.
  destruct (timers_run_refines handlers Hshape ops _ _ (timers_start_rel Hshape p clock live Hp Hno) Hu)
    as (rs & s' & st' & Hrs & Hrst & Hr). exists rs, s', st'. by destruct Hr.
Qed.

(** C39. One call of [sys_check_timeouts], in any state the timers can be in and
    with any handlers that keep the contract, returns.  It calls the handlers in
    the order they were due, none before its time, and leaves nothing that was
    due when it began.  If no handler cancels a timeout, it calls exactly those
    that were due, each once, and then only cyclic timers that are due again in
    the same millisecond; those due later stay. *)
Theorem sys_check_timeouts_runs {P} `{!MempOps P} `{!MempLaws P} `{!TimerSymbols} (handlers : nat -> list timer_call)
    (st : timers P) (s : schedule) :
  mp_shape MEMP_SYS_TIMEOUT = Some (MEMP_NUM_SYS_TIMEOUT, SIZEOF_SYS_TIMEO) ->
  timers_rel st s -> s_check handlers s <> Undefined ->
  let now := s_clock s in
  exists called st' s', sys_check_timeouts handlers st = Ret (entry_call <$> called, st') /\ timers_rel st' s' /\
    StronglySorted (fun x y => e_due x <= e_due y) called /\
    (forall x, x ∈ called -> e_due x <= now) /\ (forall x, x ∈ s_entries s' -> now < e_due x) /\
    ((forall n h arg, Untimeout h arg ∉ handlers n) ->
      exists again, called = filter (fun x => e_due x <= now) (s_entries s) ++ again /\
        (forall x, x ∈ again -> e_due x = now /\ e_h x = lwip_cyclic_timer_addr) /\
        filter (fun x => now < e_due x) (s_entries s) `sublist_of` s_entries s').
Proof.
  intros Hshape Hr Hu now. pose proof (tr_ok _ _ Hr) as Hok.
  destruct (s_check_settled handlers s Hok) as [?|[[called s'] Hs]]; [done|].
  destruct (sys_check_timeouts_refines Hshape handlers st s called s' Hr Hs) as (st' & Hst & Hr').
  destruct (s_check_runs handlers s called s' Hok Hs) as (Hso & Hle & Hlate & _).
  exists called, st', s'. split_and!; try done. intros Hno.
  pose proof (sorted_split now _ (so_sorted _ Hok)) as Hsplit.
  destruct (s_check_loop_prefix handlers Hno check_fuel now _ _ s called s' Hok ltac:(lia) Hsplit) as (again & -> & Hag & Hsub).
  - intros x [Hx _]%list_elem_of_filter. done.
  - intros x [Hx _]%list_elem_of_filter. split; lia.
  - exact Hs.
  - exists again. split_and!; [done..|]. etrans; [|exact Hsub]. clear.
    induction (s_entries s) as [|x l IH]; [done|]. rewrite filter_cons. case_decide as Hx; [|done].
    rewrite filter_cons, decide_True by done. by constructor.
Qed.

(** ** An example *)

(** Ten pools without elements and the one of the timeouts, where the linker
    put the code, and a start 296 milliseconds before the clock wraps around. *)
Definition example_timer_pools : memp_state :=
  let stats := StatsMem 0 0 0 0 0 in
  MempState (fun _ => 9)
    (((fun i => MempDesc 8 0 (1000 + i) 0 stats) <$> seqZ 0 10) ++ [MempDesc 32 17 2001 0 stats]).
Definition example_shape : list (list Z * Z) := shape <$> memp_pools example_timer_pools.
#[export] Instance example_symbols : TimerSymbols := {
  lwip_cyclic_timer_addr := 500; tcpip_tcp_timer_addr := 600; lwip_cyclic_timers_addr := 700 }.
Definition example_clock : Z := 4294967000.

(** The first handler takes three milliseconds, arms a timer of its own and
    opens a connection; the others take a millisecond. *)
Definition example_handlers (n : nat) : list timer_call :=
  match n with
  | O => [Elapse 3; Timeout 50 900 1; SetTcpPcbs true false; TimerNeeded]
  | _ => [Elapse 1]
  end.
Definition example_timer_ops : list timers_op :=
  [TimersInit; TimersSleeptime; TimersCall (Elapse 101); TimersCheck; TimersSleeptime; TimersCall (Elapse 100);
   TimersCheck; TimersCall (Elapse 100); TimersCheck; TimersRestart; TimersSleeptime].

Lemma example_pools_live : pool_live example_shape (memp_init example_timer_pools) ∅.
Proof.
  apply memp_init_live; [by apply desc_ok_b_spec; vm_compute|by apply ascending_apart; vm_compute|].
  repeat constructor.
Qed.

(** The state after [sys_timeouts_init] and 101 milliseconds. *)
Definition example_later : outcome (list timers_answer * schedule) :=
  run_calls (s_exec example_handlers) (s_start example_clock) [TimersInit; TimersCall (Elapse 101)].

Lemma timers_refine_schedule_witness :
  exists rs st', run_calls (timers_exec example_handlers) (timers_start (memp_init example_timer_pools) example_clock)
      example_timer_ops = Ret (rs, st') /\
    rs = [Done; Sleep 100; Done; Called [(4294967100, 500, 780); (4294967100, 500, 796); (4294967100, 500, 860)];
          Sleep 0; Done;
          Called [(4294967105, 600, 0); (4294967154, 900, 1); (4294967200, 500, 780);
             (4294967200, 500, 796); (4294967200, 500, 860)];
          Done; Called [(4294967208, 600, 0); (4, 500, 780); (4, 500, 796); (4, 500, 860)]; Done; Sleep 0].
Proof.
  destruct (@timers_refine_schedule memp_state _ (memp_laws example_shape) _ example_handlers
    (memp_init example_timer_pools) ∅ example_clock example_timer_ops) as (rs & s' & st' & Hs & Hst & _).
  - by vm_compute.
  - apply example_pools_live.
  - by intros a; rewrite lookup_empty.
  - by vm_compute.
  - exists rs, st'. split; [exact Hst|].
    vm_compute in Hs. injection Hs as <- _. reflexivity.
Defined.

Lemma sys_check_timeouts_runs_witness :
  exists (st : timers memp_state) called st', sys_check_timeouts example_handlers st = Ret (called, st') /\
    take 3 called = [(4294967100, 500, 780); (4294967100, 500, 796); (4294967100, 500, 860)].
Proof.
  destruct (@timers_run_refines memp_state _ (memp_laws example_shape) _ example_handlers ltac:(by vm_compute)
    [TimersInit; TimersCall (Elapse 101)] (timers_start (memp_init example_timer_pools) example_clock) (s_start example_clock))
    as (rs & s & st & Hs & _ & Hr).
  - apply timers_start_rel with ∅; [by vm_compute|apply example_pools_live|by intros a; rewrite lookup_empty].
  - by vm_compute.
  - vm_compute in Hs. injection Hs as _ <-.
    destruct (@sys_check_timeouts_runs memp_state _ (memp_laws example_shape) _ example_handlers st _ ltac:(by vm_compute) Hr)
      as (called & st' & s' & Hc & _ & _ & _ & _ & Hno); [by vm_compute|].
    exists st, (entry_call <$> called), st'. split; [exact Hc|].
    destruct Hno as (again & -> & Hag & _).
    { intros n h arg. destruct n as [|n]; set_solver. }
    rewrite fmap_app. reflexivity.
Defined.
