(* ===== verification/TimeoutsCyclic.v ===== *)
(** * The cyclic timers of lwIP never stop

    [sys_timeouts_init] arms every cyclic timer but that of TCP, which
    [tcp_timer_needed] arms when there are connections.  A timer that ran arms
    itself again.  As long as nobody else uses their handlers, each of them is
    in the list exactly once between two calls, and due within its interval. *)
From S2P Require Import Prelude Memory Align Lwip Pbuf Refinement Memp MempClient MempIface Timeouts Schedule.
From S2P Require Import ScheduleCheck TimeoutsSpec TimeoutsClient.

Definition count_entries (f : entry -> bool) (l : list entry) : Z := Z.of_nat (length (filter (fun e => f e = true) l)).

Lemma count_cons f e l : count_entries f (e :: l) = int_of_bool (f e) + count_entries f l.
Proof. unfold count_entries. rewrite filter_cons. destruct (f e); cbn [int_of_bool]; case_decide; try done; cbn [length]; lia. Qed.

Lemma count_nonneg f l : 0 <= count_entries f l.
Proof. unfold count_entries. lia. Qed.

Lemma count_insert f e l : count_entries f (insert_entry e l) = int_of_bool (f e) + count_entries f l.
Proof. rewrite <- count_cons. unfold count_entries. by rewrite insert_entry_perm. Qed.

Lemma count_remove f h arg l :
  (forall e, e_h e = h -> f e = false) -> count_entries f (remove_entry h arg l) = count_entries f l.
Proof.
  intros Hf. induction l as [|e l IH]; cbn [remove_entry]; [done|].
  destruct (entry_is h arg e) eqn:He; rewrite ?count_cons; [|by rewrite IH].
  unfold entry_is in He. apply andb_true_iff in He as [He%Z.eqb_eq _]. by rewrite (Hf e He).
Qed.

Lemma count_none f l : count_entries f l = 0 -> forall x, x ∈ l -> f x = false.
Proof.
  induction l as [|e l IH]; [by intros _ ? ?%elem_of_nil|]. rewrite count_cons. pose proof (count_nonneg f l).
  destruct (f e) eqn:He; cbn [int_of_bool]; [lia|]. intros H0 x [->|Hx]%elem_of_cons; [done|]. apply IH; [lia|done].
Qed.

Lemma count_one f l :
  count_entries f l = 1 ->
  exists e l1 l2, l = l1 ++ e :: l2 /\ f e = true /\ forall x, x ∈ l1 ++ l2 -> f x = false.
Proof.
  induction l as [|e l IH]; [done|]. rewrite count_cons. destruct (f e) eqn:He; cbn [int_of_bool]; intros H1.
  - exists e, [], l. split_and!; [done..|]. exact (count_none f l ltac:(lia)).
  - destruct IH as (e' & l1 & l2 & -> & He' & Hx); [lia|]. exists e', (e :: l1), l2. split_and!; [done..|].
    intros x [->|Hin]%elem_of_cons; [done|by apply Hx].
Qed.

Section cyclic.
Context `{!TimerSymbols} (handlers : nat -> list timer_call).
Hypotheses (Hdiff : lwip_cyclic_timer_addr <> tcpip_tcp_timer_addr)
  (Hcyc0 : lwip_cyclic_timer_addr <> 0) (Htcp0 : tcpip_tcp_timer_addr <> 0).
Implicit Types (s : schedule).

(** Code that leaves the handlers of [timeouts.c] alone. *)
Definition own_call (c : timer_call) : Prop :=
  match c with
  | Timeout _ h _ | Untimeout h _ => h <> lwip_cyclic_timer_addr /\ h <> tcpip_tcp_timer_addr
  | _ => True
  end.
Hypothesis Hown : forall n, Forall own_call (handlers n).
#[local] Set Default Proof Using "All".

Definition cyclic_armed s (arg : Z) : Z := count_entries (entry_is lwip_cyclic_timer_addr arg) (s_entries s).
Definition is_tcp (e : entry) : bool := e_h e =? tcpip_tcp_timer_addr.
Definition tcp_armed s : Z := count_entries is_tcp (s_entries s).

(** Cyclic timers are due within their interval. *)
Definition soon s : Prop :=
  forall e, e ∈ s_entries s -> e_h e = lwip_cyclic_timer_addr ->
    exists c, cyclic_at (e_arg e) = Some c /\ e_due e <= s_clock s + c.1.

(** What other code does to them: nothing, but to start the timer of TCP. *)
Record undisturbed s s' : Prop := Undisturbed {
  un_cyclic : forall arg, cyclic_armed s' arg = cyclic_armed s arg;
  un_tcp : tcp_armed s' - int_of_bool (s_active s') = tcp_armed s - int_of_bool (s_active s);
  un_soon : soon s -> soon s' }.

Lemma undisturbed_refl s : undisturbed s s.
Proof. by split. Qed.

Lemma undisturbed_trans s1 s2 s3 : undisturbed s1 s2 -> undisturbed s2 s3 -> undisturbed s1 s3.
Proof. intros [Hc1 Ht1 Hs1] [Hc2 Ht2 Hs2]. split; [intros; by rewrite Hc2|lia|auto]. Qed.

Lemma soon_insert s due h arg s' :
  soon s -> s_clock s' = s_clock s -> s_entries s' = insert_entry (Entry due h arg) (s_entries s) ->
  (h = lwip_cyclic_timer_addr -> exists c, cyclic_at arg = Some c /\ due <= s_clock s + c.1) -> soon s'.
Proof.
  intros Hs Hcl He Hh e. rewrite He, Hcl. intros [->|Hin]%elem_of_insert; [exact Hh|by apply Hs].
Qed.

Lemma own_call_undisturbed s c s' :
  sched_ok s -> own_call c -> s_call s c = Ret s' -> undisturbed s s'.
Proof.
  intros Hok Hc. destruct c as [ms|a tw|ms h arg|h arg|]; cbn [s_call own_call] in *.
  - intros ([Hms%Z.leb_le _]%andb_true_iff & [= <-])%guard_ret. split; [done..|].
    intros Hs e He Hh. destruct (Hs e He Hh) as (c & ? & ?). exists c. cbn [s_elapse s_clock]. split; [done|lia].
  - intros [= <-]. by split.
  - destruct Hc as [Hc1 Hc2]. intros (-> & _ & _)%(s_timeout_spec _ _ _ _ _ Hok). split.
    + intros a. unfold cyclic_armed. cbn [s_set_entries s_entries]. rewrite count_insert. unfold entry_is at 1. cbn [e_h].
      destruct (Z.eqb_spec h lwip_cyclic_timer_addr); [done|]. cbn. lia.
    + unfold tcp_armed. cbn [s_set_entries s_entries s_active]. rewrite count_insert. unfold is_tcp at 1. cbn [e_h].
      destruct (Z.eqb_spec h tcpip_tcp_timer_addr); [done|]. cbn. lia.
    + intros Hs. eapply soon_insert; [exact Hs|done..].
  - destruct Hc as [Hc1 Hc2]. intros [= <-]. split.
    + intros a. apply count_remove. intros e He. unfold entry_is. rewrite He.
      destruct (Z.eqb_spec h lwip_cyclic_timer_addr); done.
    + unfold tcp_armed. cbn [s_untimeout s_set_entries s_entries s_active]. rewrite count_remove; [done|].
      intros e He. unfold is_tcp. rewrite He. by apply Z.eqb_neq.
    + intros Hs e He Hh. apply Hs; [|done]. eapply elem_of_submseteq; [exact He|]. apply sublist_submseteq, remove_entry_sublist.
  - unfold s_needed. destruct (s_active s) eqn:Ha; cbn [negb andb]; [intros [= <-]; apply undisturbed_refl|].
    destruct (_ || _); [|intros [= <-]; apply undisturbed_refl].
    intros (-> & _ & _)%(s_timeout_spec _ _ _ _ _ (s_set_active_ok _ true Hok)). split.
    + intros a. unfold cyclic_armed. cbn [s_set_entries s_set_active s_entries]. rewrite count_insert. unfold entry_is at 1. cbn [e_h].
      destruct (Z.eqb_spec tcpip_tcp_timer_addr lwip_cyclic_timer_addr); [congruence|]. cbn. lia.
    + unfold tcp_armed. cbn [s_set_entries s_set_active s_entries s_active]. rewrite count_insert, Ha.
      unfold is_tcp at 1. cbn [e_h]. rewrite Z.eqb_refl. cbn. lia.
    + intros Hs. eapply (soon_insert s); [exact Hs|done..|]. congruence.
Qed.

Lemma own_calls_undisturbed s cs s' :
  sched_ok s -> Forall own_call cs -> s_calls s cs = Ret s' -> undisturbed s s'.
Proof.
  intros Hok Hcs. revert s Hok. induction Hcs as [|c cs Hc Hcs IH]; intros s Hok; cbn [s_calls].
  { intros [= <-]. apply undisturbed_refl. }
  destruct (s_call s c) as [s1| | |] eqn:Hs; try done. cbn [mbind outcome_bind]. intros Hcs'.
  eapply undisturbed_trans; [by eapply own_call_undisturbed|]. apply IH; [|done]. by destruct (s_call_moved _ _ _ Hok Hs).
Qed.

Lemma unknown_undisturbed s s' : sched_ok s -> s_unknown handlers s = Ret s' -> undisturbed s s'.
Proof.
  intros Hok Hs. assert (sched_ok (s_count s)) as Hok' by (by destruct Hok).
  by destruct (own_calls_undisturbed (s_count s) (handlers (s_ran s)) s' Hok' (Hown _) Hs).
Qed.

(** Every cyclic timer once, the timer of TCP when it is active; but for the
    one whose handler runs, [out] and [out_tcp]. *)
Record armed_but s (out : Z -> bool) (out_tcp : bool) : Prop := ArmedBut {
  ar_cyclic : forall i, 1 <= i < Z.of_nat (length lwip_cyclic_timers) ->
    cyclic_armed s (cyclic_arg i) = 1 - int_of_bool (out i);
  ar_tcp : tcp_armed s = int_of_bool (s_active s) - int_of_bool out_tcp;
  ar_soon : soon s }.
Definition armed s : Prop := armed_but s (fun _ => false) false.

Lemma armed_but_ext s out out' b : (forall i, out i = out' i) -> armed_but s out b -> armed_but s out' b.
Proof. intros Hext [Hc Ht Hs]. split; [|done..]. intros i Hi. by rewrite <- Hext, Hc. Qed.

Lemma armed_undisturbed s s' out b : armed_but s out b -> undisturbed s s' -> armed_but s' out b.
Proof. intros [Hc Ht Hs] [Hu1 Hu2 Hu3]. split; [|lia|by auto]. intros i Hi. by rewrite Hu1, Hc. Qed.

Lemma armed_pop s e l :
  s_entries s = e :: l -> armed s ->
  armed_but (s_pop s e l) (fun i => entry_is lwip_cyclic_timer_addr (cyclic_arg i) e) (is_tcp e).
Proof.
  intros Hs [Hcy Htc Hso]. unfold cyclic_armed, tcp_armed, soon in *. rewrite Hs in *. rewrite count_cons in Htc. split.
  - intros i Hi. specialize (Hcy i Hi). rewrite count_cons in Hcy. unfold cyclic_armed. cbn [s_pop s_entries int_of_bool] in *. lia.
  - unfold tcp_armed. cbn [s_pop s_entries s_active int_of_bool] in *. lia.
  - intros x Hx. apply Hso. by right.
Qed.

Lemma armed_insert_cyclic s due arg :
  armed_but s (fun i => cyclic_arg i =? arg) false ->
  (exists c, cyclic_at arg = Some c /\ due <= s_clock s + c.1) ->
  armed (s_set_entries s (insert_entry (Entry due lwip_cyclic_timer_addr arg) (s_entries s))).
Proof.
  intros [Hc Ht Hs] Hdue. split.
  - intros i Hi. specialize (Hc i Hi). unfold cyclic_armed in *. cbn [s_set_entries s_entries]. rewrite count_insert, Hc.
    unfold entry_is. cbn [e_h e_arg int_of_bool]. rewrite Z.eqb_refl, (Z.eqb_sym arg). cbn [andb]. lia.
  - unfold tcp_armed in *. cbn [s_set_entries s_entries s_active]. rewrite count_insert, Ht. unfold is_tcp. cbn [e_h].
    destruct (Z.eqb_spec lwip_cyclic_timer_addr tcpip_tcp_timer_addr); [done|]. cbn [int_of_bool]. lia.
  - by eapply (soon_insert s).
Qed.

Lemma cyclic_ran s arg s' :
  sched_ok s -> s_due s <= s_clock s -> armed_but s (fun i => cyclic_arg i =? arg) false ->
  s_cyclic handlers s arg = Ret s' -> armed s'.
Proof.
  intros Hok Hd Ha Hs.
  destruct (s_cyclic_spec _ _ _ _ Hok Hd Hs) as (s1 & c & due & Hca & Hu & [Hcl _ _] & -> & Hdue & Hcase & _).
  apply armed_insert_cyclic; [|exists c; split; [done|lia]].
  eapply armed_undisturbed; [exact Ha|]. by apply unknown_undisturbed.
Qed.

Lemma tcp_ran s s' :
  sched_ok s -> armed_but s (fun _ => false) true -> s_tcp_timer handlers s = Ret s' -> armed s'.
Proof.
  intros Hok Ha Hh. unfold s_tcp_timer in Hh. destruct (s_unknown handlers s) as [s1| | |] eqn:Hu; try done.
  cbn [mbind outcome_bind] in Hh. destruct (s_unknown_moved _ _ _ Hok Hu) as [_ _ Hok1].
  pose proof (armed_undisturbed _ _ _ _ Ha (unknown_undisturbed _ _ Hok Hu)) as [Hc Ht Hso].
  unfold tcp_armed in Ht. pose proof (count_nonneg is_tcp (s_entries s1)). cbn [int_of_bool] in Ht.
  assert (s_active s1 = true /\ count_entries is_tcp (s_entries s1) = 0) as [Hact Hz] by (destruct (s_active s1); cbn in *; lia).
  destruct (s_pcbs s1 || s_tw s1); [|injection Hh as <-; by split].
  apply (s_timeout_spec _ _ _ _ _ Hok1) in Hh as (-> & _ & _). split.
  - intros i Hi. specialize (Hc i Hi). unfold cyclic_armed in *. cbn [s_set_entries s_entries]. rewrite count_insert, Hc.
    unfold entry_is. cbn [e_h]. destruct (Z.eqb_spec tcpip_tcp_timer_addr lwip_cyclic_timer_addr); [congruence|]. cbn. lia.
  - unfold tcp_armed. cbn [s_set_entries s_entries s_active]. rewrite count_insert, Hact, Hz. unfold is_tcp. cbn [e_h].
    by rewrite Z.eqb_refl.
  - eapply (soon_insert s1); [exact Hso|done..|]. congruence.
Qed.

(** A handler that was taken out of the list and ran. *)
Lemma handler_armed s e l s' :
  sched_ok s -> s_entries s = e :: l -> e_due e <= s_clock s -> armed s ->
  s_handler handlers (s_pop s e l) (e_h e) (e_arg e) = Ret s' -> armed s'.
Proof.
  intros Hok Hs Hd Har Hh. pose proof (s_pop_ok _ _ _ Hok Hs) as Hokp. pose proof (armed_pop s e l Hs Har) as Ha.
  unfold s_handler in Hh. unfold is_tcp in Ha. destruct (Z.eqb_spec (e_h e) lwip_cyclic_timer_addr) as [Hc|Hc].
  - destruct (Z.eqb_spec (e_h e) 0), (Z.eqb_spec (e_h e) tcpip_tcp_timer_addr); try congruence.
    apply (cyclic_ran (s_pop s e l) (e_arg e)); [done|done| |done]. refine (armed_but_ext _ _ _ _ _ Ha).
    intros i. unfold entry_is. by rewrite Hc, Z.eqb_refl, Z.eqb_sym.
  - assert (forall i, entry_is lwip_cyclic_timer_addr (cyclic_arg i) e = false) as Hout.
    { intros i. unfold entry_is. by destruct (Z.eqb_spec (e_h e) lwip_cyclic_timer_addr). }
    apply (armed_but_ext _ _ (fun _ => false)) in Ha; [|done].
    destruct (Z.eqb_spec (e_h e) tcpip_tcp_timer_addr) as [Ht|Ht].
    + destruct (Z.eqb_spec (e_h e) 0); [congruence|]. by apply (tcp_ran (s_pop s e l)).
    + destruct (e_h e =? 0); [by injection Hh as <-|]. eapply armed_undisturbed; [exact Ha|]. by apply unknown_undisturbed.
Qed.

Lemma s_check_loop_armed fuel now s called s' :
  sched_ok s -> now <= s_clock s -> armed s -> s_check_loop handlers fuel now s = Ret (called, s') -> armed s'.
Proof.
  revert s called. induction fuel as [|fuel IH]; intros s called Hok Hn Har; [done|]. cbn [s_check_loop].
  destruct (s_entries s) as [|e l] eqn:Hs; [by intros [= _ <-]|].
  destruct (Z.ltb_spec now (e_due e)) as [|Hd]; [by intros [= _ <-]|].
  destruct (s_handler handlers _ _ _) as [s1| | |] eqn:Hh; try done. cbn [mbind outcome_bind].
  intros (_ & Hrest)%guard_ret. destruct (s_check_loop handlers fuel now s1) as [[called1 s2]| | |] eqn:Hl; try done.
  injection Hrest as _ <-. destruct (s_handler_ran handlers now _ _ _ _ Hok Hn Hs Hd Hh) as (Hok1 & Hn1 & _).
  eapply (IH s1 called1); [done..| |done]. apply (handler_armed s e l); [done..|lia|done|done].
Qed.

Lemma init_calls_armed s i cyclics s' :
  sched_ok s -> 0 <= i -> (forall k c, cyclics !! k = Some c -> lwip_cyclic_timers !! (Z.to_nat i + k)%nat = Some c) ->
  s_calls s (init_calls i cyclics) = Ret s' ->
  (forall j, cyclic_armed s' (cyclic_arg j) = cyclic_armed s (cyclic_arg j) +
     int_of_bool ((i <=? j) && (j <? i + Z.of_nat (length cyclics)))) /\
  tcp_armed s' = tcp_armed s /\ s_active s' = s_active s /\ (soon s -> soon s').
Proof.
  revert s i. induction cyclics as [|c cyclics IH]; intros s i Hok Hi Hc.
  { intros [= <-]. split_and!; try done. intros j. cbn [length]. destruct (Z.leb_spec i j), (Z.ltb_spec j (i + Z.of_nat 0)); cbn; lia. }
  rewrite init_calls_cons. cbn [s_calls s_call]. destruct (s_timeout s _ _ _) as [s1| | |] eqn:Hs; try done. cbn [mbind outcome_bind].
  apply (s_timeout_spec _ _ _ _ _ Hok) in Hs as (-> & Hms & Hok1). intros Hcs.
  destruct (IH _ (i + 1) Hok1 ltac:(lia)) with (2 := Hcs) as (Hc' & Ht' & Ha' & Hs').
  { intros k x Hk. replace (Z.to_nat (i + 1) + k)%nat with (Z.to_nat i + S k)%nat by lia. by apply (Hc (S k)). }
  cbn [s_set_entries s_active] in Ha'. split_and!; [|rewrite Ht'|done|].
  - intros j. rewrite Hc'. unfold cyclic_armed. cbn [s_set_entries s_entries length]. rewrite count_insert.
    unfold entry_is at 1. cbn [e_h e_arg]. rewrite Z.eqb_refl. cbn [andb]. unfold cyclic_arg at 1 2.
    destruct (Z.eqb_spec (lwip_cyclic_timers_addr + 16 * i) (lwip_cyclic_timers_addr + 16 * j)),
      (Z.leb_spec i j), (Z.leb_spec (i + 1) j), (Z.ltb_spec j (i + 1 + Z.of_nat (length cyclics))),
      (Z.ltb_spec j (i + Z.of_nat (S (length cyclics)))); cbn [int_of_bool andb]; lia.
  - unfold tcp_armed. cbn [s_set_entries s_entries]. rewrite count_insert. unfold is_tcp at 1. cbn [e_h].
    destruct (Z.eqb_spec lwip_cyclic_timer_addr tcpip_tcp_timer_addr); [done|]. cbn [int_of_bool]. lia.
  - intros Hso. apply Hs'. eapply (soon_insert s); [exact Hso|done..|]. intros _. exists c. rewrite cyclic_at_arg by done.
    split; [|lia]. replace (Z.to_nat i) with (Z.to_nat i + 0)%nat by lia. by apply (Hc 0%nat).
Qed.

Lemma s_init_armed clock s' : s_init (s_start clock) = Ret s' -> armed s'.
Proof.
  intros Hs. pose proof (s_start_ok clock) as Hok.
  destruct (init_calls_armed _ 1 (drop 1 lwip_cyclic_timers) s' Hok ltac:(lia)) with (2 := Hs) as (Hc & Ht & Ha & Hso); [done|].
  split; [|by rewrite Ht, Ha|apply Hso; intros e He; by apply elem_of_nil in He].
  intros i Hi. rewrite Hc. change (cyclic_armed (s_start clock) (cyclic_arg i)) with 0.
  change (Z.of_nat (length lwip_cyclic_timers)) with 11 in Hi. change (Z.of_nat (length (drop 1 lwip_cyclic_timers))) with 10.
  destruct (Z.leb_spec 1 i), (Z.ltb_spec i (1 + 10)); cbn [andb int_of_bool]; lia.
Qed.
End cyclic.

(** Calls that leave the handlers of [timeouts.c] alone. *)
Definition own_op `{!TimerSymbols} (op : timers_op) : Prop :=
  match op with
  | TimersCall c => own_call c
  | TimersCheck | TimersSleeptime => True
  | TimersInit | TimersRestart => False
  end.

Section run.
Context `{!TimerSymbols} (handlers : nat -> list timer_call).
Hypotheses (Hdiff : lwip_cyclic_timer_addr <> tcpip_tcp_timer_addr)
  (Hcyc0 : lwip_cyclic_timer_addr <> 0) (Htcp0 : tcpip_tcp_timer_addr <> 0)
  (Hown : forall n, Forall own_call (handlers n)).
#[local] Set Default Proof Using "All".

Lemma own_op_armed s op r s' :
  sched_ok s -> own_op op -> armed s -> s_exec handlers s op = Ret (r, s') -> armed s'.
Proof.
  intros Hok Ho Ha. destruct op as [c| | | |]; cbn [own_op s_exec] in *; try done.
  - destruct (s_call s c) as [s1| | |] eqn:Hc; try done. intros [= _ <-].
    by eapply armed_undisturbed; [..|exact Ha|]; [..|by eapply own_call_undisturbed].
  - destruct (s_check handlers s) as [[called s1]| | |] eqn:Hc; try done. intros [= _ <-].
    by eapply s_check_loop_armed; [..|exact Hc].
  - by intros [= _ <-].
Qed.

Lemma own_ops_armed s ops rs s' :
  sched_ok s -> Forall own_op ops -> armed s -> run_calls (s_exec handlers) s ops = Ret (rs, s') -> armed s'.
Proof.
  revert s rs. induction ops as [|op ops IH]; intros s rs Hok Ho Ha; cbn [run_calls]; [by intros [= _ <-]|].
  apply Forall_cons in Ho as [Ho Hos]. destruct (s_exec handlers s op) as [[r s1]| | |] eqn:Hs; try done. cbn [mbind outcome_bind].
  destruct (run_calls (s_exec handlers) s1 ops) as [[rs1 s2]| | |] eqn:Hr; try done. intros [= _ <-].
  eapply IH; [|done| |exact Hr]; [by eapply s_exec_ok|by eapply own_op_armed].
Qed.
End run.

(** C40. From [sys_timeouts_init] on, through any sequence of calls that leaves
    the handlers of [timeouts.c] to [timeouts.c] (those of the other modules do
    as well, whatever else they do), every cyclic timer but that of TCP is in the
    list exactly once, and due no later than its interval from now; the timer of
    TCP is in the list once when [tcpip_tcp_timer_active] says so, and not
    otherwise. *)
Theorem cyclic_timers_stay_armed {P} `{!MempOps P} `{!MempLaws P} `{!TimerSymbols} (handlers : nat -> list timer_call)
    (p : P) (live : gmap Z Z) (clock : Z) (ops : list timers_op) :
  mp_shape MEMP_SYS_TIMEOUT = Some (MEMP_NUM_SYS_TIMEOUT, SIZEOF_SYS_TIMEO) ->
  mp_live p live -> (forall a, live !! a <> Some MEMP_SYS_TIMEOUT) ->
  lwip_cyclic_timer_addr <> tcpip_tcp_timer_addr -> lwip_cyclic_timer_addr <> 0 -> tcpip_tcp_timer_addr <> 0 ->
  (forall n, Forall own_call (handlers n)) -> Forall own_op ops ->
  run_calls (s_exec handlers) (s_start clock) (TimersInit :: ops) <> Undefined ->
  exists rs st' s', run_calls (timers_exec handlers) (timers_start p clock) (TimersInit :: ops) = Ret (rs, st') /\
    timers_rel st' s' /\
    (forall i c, 1 <= i -> lwip_cyclic_timers !! Z.to_nat i = Some c ->
      exists e l1 l2, s_entries s' = l1 ++ e :: l2 /\ e_h e = lwip_cyclic_timer_addr /\ e_arg e = cyclic_arg i /\
        e_due e <= tm_clock st' + c.1 /\
        (forall x, x ∈ l1 ++ l2 -> ~ (e_h x = lwip_cyclic_timer_addr /\ e_arg x = cyclic_arg i))) /\
    count_entries is_tcp (s_entries s') = int_of_bool (tcpip_tcp_timer_active st').
Proof.
  intros Hshape Hp Hno Hdiff Hcyc0 Htcp0 Hown Hops Hu.
  destruct (timers_run_refines handlers Hshape _ _ _ (timers_start_rel Hshape p clock live Hp Hno) Hu)
    as (rs & s' & st' & Hrs & Hrst & Hr). exists rs, st', s'. split_and!; [done..| |].
  all: assert (armed s') as [Hc Ht Hso].
  1, 3: cbn [run_calls s_exec] in Hrs; destruct (s_init (s_start clock)) as [s1| | |] eqn:Hi; try done;
    cbn [mbind outcome_bind] in Hrs; destruct (run_calls (s_exec handlers) s1 ops) as [[rs1 s2]| | |] eqn:Hrun; try done;
    injection Hrs as _ <-; eapply own_ops_armed; [..|exact Hrun]; try done;
    [eapply (s_exec_ok handlers (s_start clock) TimersInit Done); [apply s_start_ok|cbn [s_exec]; by rewrite Hi]|by eapply (s_init_armed handlers)].
  - intros i c Hi Hic. pose proof (lookup_lt_Some _ _ _ Hic). specialize (Hc i ltac:(lia)).
    cbn [int_of_bool] in Hc. destruct (count_one _ _ Hc) as (e & l1 & l2 & Hl & He & Hx). exists e, l1, l2.
    unfold entry_is in He. apply andb_true_iff in He as [Hh%Z.eqb_eq Ha%Z.eqb_eq]. split_and!; [done..| |].
    + destruct (Hso e ltac:(rewrite Hl; set_solver) Hh) as (c' & Hc' & Hd). rewrite Ha, cyclic_at_arg, Hic in Hc' by lia.
      injection Hc' as <-. by rewrite (tr_clock _ _ Hr).
    + intros x Hxin [Hxh Hxa]. specialize (Hx x Hxin). unfold entry_is in Hx. by rewrite Hxh, Hxa, !Z.eqb_refl in Hx.
  - unfold tcp_armed in Ht. rewrite Ht, (tr_active _ _ Hr). cbn [int_of_bool]. lia.
Qed.

Lemma cyclic_timers_stay_armed_witness :
  exists rs (st' : timers memp_state) e, run_calls (timers_exec example_handlers)
      (timers_start (memp_init example_timer_pools) example_clock)
      [TimersInit; TimersCall (Elapse 101); TimersCheck; TimersSleeptime; TimersCall (Elapse 400); TimersCheck] = Ret (rs, st') /\
    e_arg e = 748 /\ e_due e <= tm_clock st' + 60000.
Proof.
  destruct (@cyclic_timers_stay_armed memp_state _ (memp_laws example_shape) _ example_handlers (memp_init example_timer_pools) ∅
    example_clock [TimersCall (Elapse 101); TimersCheck; TimersSleeptime; TimersCall (Elapse 400); TimersCheck])
    as (rs & st' & s' & Hrun & _ & Hcyc & _).
  - by vm_compute.
  - apply example_pools_live.
  - by intros a; rewrite lookup_empty.
  - done.
  - done.
  - done.
  - intros [|n]; repeat constructor; done.
  - repeat constructor.
  - by vm_compute.
  - destruct (Hcyc 3 (60000, dhcp_coarse_tmr) ltac:(lia) eq_refl) as (e & _ & _ & _ & _ & Ha & Hd & _).
    exists rs, st', e. split; [exact Hrun|]. split; [exact Ha|exact Hd].
Defined.
