(* ===== verification/TcpPcb.v ===== *)
(** * The protocol control blocks of TCP
      ([lwip/src/include/lwip/tcp.h], [lwip/src/include/lwip/priv/tcp_priv.h],
       [lwip/src/core/tcp.c])

    The blocks in use are a finite map from addresses, the elements of the pools
    [MEMP_TCP_PCB] and [MEMP_TCP_PCB_LISTEN] that are free two lists, in the
    order the pools hand them out.  Four global lists are threaded through the
    blocks.  A function of C is an action on this state: it returns, or reaches
    what C leaves undefined (an address that is not in use is dereferenced, a
    listening block is taken for a connection), or fails an assertion.

    What goes on elsewhere is an argument, the class [TcpEnv]: memory for packets,
    the layers below and interfaces answer, receiving data changes the variables
    of the transfer of one connection, and the callback for errors, which is
    called when the block is gone, does what it likes outside of TCP. *)
From S2P Require Import Prelude ByteOrder Lwip Pbuf ChecksumPbuf.

(** ** Data *)

(** [err_t]; [ERR_OK] and [ERR_MEM] are in [Lwip], [ERR_ARG] in [Pbuf]. *)
Definition ERR_BUF : Z := -2.
Definition ERR_RTE : Z := -4.
Definition ERR_VAL : Z := -6.
Definition ERR_USE : Z := -8.
Definition ERR_ISCONN : Z := -10.
Definition ERR_CONN : Z := -11.
Definition ERR_ABRT : Z := -13.
Definition ERR_RST : Z := -14.
Definition ERR_CLSD : Z := -15.

Inductive tcp_state :=
  | CLOSED | LISTEN | SYN_SENT | SYN_RCVD | ESTABLISHED | FIN_WAIT_1 | FIN_WAIT_2
  | CLOSE_WAIT | CLOSING | LAST_ACK | TIME_WAIT.

#[export] Instance tcp_state_eq_dec : EqDecision tcp_state.
Proof. solve_decision. Defined.

(** The bits of [flags]. *)
Definition TF_ACK_DELAY : Z := 1.
Definition TF_ACK_NOW : Z := 2.
Definition TF_INFR : Z := 4.
Definition TF_CLOSEPEND : Z := 8.
Definition TF_RXCLOSED : Z := 16.
Definition TF_FIN : Z := 32.
Definition TF_NODELAY : Z := 64.
Definition TF_NAGLEMEMERR : Z := 128.
Definition TF_BACKLOGPEND : Z := 512.
Definition TF_RTO : Z := 2048.

(** The flags of a header. *)
Definition TCP_FIN : Z := 1.
Definition TCP_SYN : Z := 2.
Definition TCP_RST : Z := 4.
Definition TCP_PSH : Z := 8.
Definition TCP_ACK : Z := 16.
Definition has (fl bits : Z) : bool := negb (Z.land fl bits =? 0).

(** The configuration. *)
Definition TCP_MSS : Z := 1024.
Definition TCP_WND : Z := 20480.
Definition TCP_SND_BUF : Z := 64000.
Definition TCP_TTL : Z := 255.
Definition INITIAL_MSS : Z := 536.
Definition TCP_SLOW_INTERVAL : Z := 2.
Definition TCP_WND_UPDATE_THRESHOLD : Z := 4096.
Definition TCP_PRIO_NORMAL : Z := 64.
Definition TCP_PRIO_MAX : Z := 127.
Definition SOF_INHERITED : Z := 12.
Definition NETIF_NO_INDEX : Z := 0.

(** The bits of [recv_flags]. *)
Definition TF_RESET : Z := 8.
Definition TF_CLOSED : Z := 16.
Definition TF_GOT_FIN : Z := 32.

(** Sequence numbers compare modulo 2^32. *)
Definition TCP_SEQ_LT (a b : Z) : bool := negb (Z.land (u32 (u32 a - u32 b)) 2147483648 =? 0).
Definition TCP_SEQ_LEQ (a b : Z) : bool := negb (TCP_SEQ_LT b a).
Definition TCP_SEQ_GT (a b : Z) : bool := TCP_SEQ_LT b a.
Definition TCP_SEQ_GEQ (a b : Z) : bool := TCP_SEQ_LEQ b a.
Definition TCP_SEQ_BETWEEN (a b c : Z) : bool := TCP_SEQ_GEQ a b && TCP_SEQ_LEQ a c.

(** A pointer to a callback: none, one of lwIP's own, or the application's. *)
Inductive tcp_fn := FN_NULL | FN_recv_null | FN_accept_null | FN_user (f : Z).

(** ** Addresses

    The fifth word of an IPv6 address is its zone. *)

Definition IP6_NO_ZONE : Z := 0.
Definition IPADDR_TYPE_ANY : Z := 46.
Definition ip_2_zone (a : ip_addr) : Z := u_addr a 4.
Definition IP_IS_ANY_TYPE_VAL (a : ip_addr) : bool := ip_type a =? IPADDR_TYPE_ANY.

(** [IP4_ADDR_ANY], and [ip_addr_copy]: an IPv4 address clears the words behind it. *)
Definition IP4_ADDR_ANY : ip_addr := IpAddr (fun _ => 0) 0.
Definition ip_addr_copy (src : ip_addr) : ip_addr :=
  if IP_IS_V6 src then src
  else IpAddr (fun i => if i =? 0 then u_addr src 0 else 0) (ip_type src).
Definition IP_SET_TYPE_VAL (a : ip_addr) (iptype : Z) : ip_addr := IpAddr (u_addr a) iptype.
Definition ip6_addr_set_zone (a : ip_addr) (zone : Z) : ip_addr := IpAddr (<[4 := zone]> (u_addr a)) (ip_type a).

Definition ip_addr_isany (a : ip_addr) : bool :=
  if IP_IS_V6 a then (u_addr a 0 =? 0) && (u_addr a 1 =? 0) && (u_addr a 2 =? 0) && (u_addr a 3 =? 0)
  else u_addr a 0 =? 0.
Definition ip_addr_eq (a b : ip_addr) : bool :=
  if negb (ip_type a =? ip_type b) then false
  else if IP_IS_V6 a then
    (u_addr a 0 =? u_addr b 0) && (u_addr a 1 =? u_addr b 1) && (u_addr a 2 =? u_addr b 2)
      && (u_addr a 3 =? u_addr b 3) && (ip_2_zone a =? ip_2_zone b)
  else u_addr a 0 =? u_addr b 0.

(** The scope of an IPv6 address; [unicast] is [type == IP6_UNICAST]. *)
Definition masked_is (a : ip_addr) (mask v : Z) : bool := Z.land (u_addr a 0) (PP_HTONL mask) =? PP_HTONL v.
Definition ip6_addr_islinklocal (a : ip_addr) : bool := masked_is a 4290772992 4269801472.
Definition ip6_addr_ismulticast_iflocal (a : ip_addr) : bool := masked_is a 4287561728 4278255616.
Definition ip6_addr_ismulticast_linklocal (a : ip_addr) : bool := masked_is a 4287561728 4278321152.
Definition ip6_addr_has_scope (a : ip_addr) (unicast : bool) : bool :=
  ip6_addr_islinklocal a
  || (negb unicast && (ip6_addr_ismulticast_iflocal a || ip6_addr_ismulticast_linklocal a)).
Definition ip6_addr_lacks_zone (a : ip_addr) (unicast : bool) : bool :=
  (ip_2_zone a =? IP6_NO_ZONE) && ip6_addr_has_scope a unicast.

(** ** Blocks *)

(** The common part of all blocks of IP ([IP_PCB]). *)
Record ip_pcb := IpPcb {
  local_ip : ip_addr;
  remote_ip : ip_addr;
  netif_idx : Z;
  so_options : Z;
  tos : Z;
  ttl : Z }.

(** The integers of [struct tcp_pcb] that sending and receiving work with. *)
Inductive tcp_var :=
  | rcv_nxt | rcv_wnd | rcv_ann_wnd | rcv_ann_right_edge | rtime | mss | rttest | rtseq
  | sa | sv | rto | nrtx | dupacks | lastack | cwnd | ssthresh | rto_end
  | snd_nxt | snd_wl1 | snd_wl2 | snd_lbb | snd_wnd | snd_wnd_max | snd_buf | snd_queuelen
  | unsent_oversize | bytes_acked | keep_idle
  | polltmr | persist_cnt | persist_backoff | persist_probe | keep_cnt_sent.

#[export] Instance tcp_var_eq_dec : EqDecision tcp_var.
Proof. solve_decision. Defined.

(** A segment on one of the queues: its buffer, the length of its data, and of its
    header the sequence number and the flags. *)
Record tcp_seg := TcpSeg {
  seg_p : Z;
  seg_len : Z;
  seg_seqno : Z;
  seg_hdrflags : Z }.

(** [q == NULL], for a queue. *)
Definition is_nil {A} (q : list A) : bool := match q with [] => true | _ => false end.

(** The integers, and the three queues of segments. *)
Record tcp_transfer := TcpTransfer {
  tv : tcp_var -> Z;
  unsent : list tcp_seg;
  unacked : list tcp_seg;
  ooseq : list tcp_seg }.

(** The rest of [struct tcp_pcb] after its common part. *)
Record tcp_conn := TcpConn {
  remote_port : Z;
  flags : Z;
  pollinterval : Z;
  last_timer : Z;
  tmr : Z;
  tx : tcp_transfer;
  refused_data : Z;
  listener : Z;
  fn_sent : tcp_fn;
  fn_recv : tcp_fn;
  fn_connected : tcp_fn;
  fn_poll : tcp_fn;
  fn_errf : tcp_fn }.

(** The rest of [struct tcp_pcb_listen]. *)
Record tcp_listening := TcpListening {
  fn_accept : tcp_fn;
  backlog : Z;
  accepts_pending : Z }.

Inductive pcb_rest :=
  | Conn (c : tcp_conn)
  | Listening (l : tcp_listening).

(** [TCP_PCB_COMMON], and what follows it. *)
Record tcp_pcb := TcpPcb {
  ip : ip_pcb;
  next : Z;
  callback_arg : Z;
  state : tcp_state;
  prio : Z;
  local_port : Z;
  rest : pcb_rest }.

(** Assignments to one member. *)
Definition set_ip (v : ip_pcb) (p : tcp_pcb) : tcp_pcb :=
  TcpPcb v (next p) (callback_arg p) (state p) (prio p) (local_port p) (rest p).
Definition set_next (v : Z) (p : tcp_pcb) : tcp_pcb :=
  TcpPcb (ip p) v (callback_arg p) (state p) (prio p) (local_port p) (rest p).
Definition set_callback_arg (v : Z) (p : tcp_pcb) : tcp_pcb :=
  TcpPcb (ip p) (next p) v (state p) (prio p) (local_port p) (rest p).
Definition set_state (v : tcp_state) (p : tcp_pcb) : tcp_pcb :=
  TcpPcb (ip p) (next p) (callback_arg p) v (prio p) (local_port p) (rest p).
Definition set_prio (v : Z) (p : tcp_pcb) : tcp_pcb :=
  TcpPcb (ip p) (next p) (callback_arg p) (state p) v (local_port p) (rest p).
Definition set_local_port (v : Z) (p : tcp_pcb) : tcp_pcb :=
  TcpPcb (ip p) (next p) (callback_arg p) (state p) (prio p) v (rest p).
Definition set_rest (v : pcb_rest) (p : tcp_pcb) : tcp_pcb :=
  TcpPcb (ip p) (next p) (callback_arg p) (state p) (prio p) (local_port p) v.

Definition set_local_ip (v : ip_addr) (p : ip_pcb) : ip_pcb :=
  IpPcb v (remote_ip p) (netif_idx p) (so_options p) (tos p) (ttl p).
Definition set_remote_ip (v : ip_addr) (p : ip_pcb) : ip_pcb :=
  IpPcb (local_ip p) v (netif_idx p) (so_options p) (tos p) (ttl p).

Definition set_remote_port (v : Z) (c : tcp_conn) : tcp_conn :=
  TcpConn v (flags c) (pollinterval c) (last_timer c) (tmr c) (tx c) (refused_data c) (listener c)
    (fn_sent c) (fn_recv c) (fn_connected c) (fn_poll c) (fn_errf c).
Definition set_flags (v : Z) (c : tcp_conn) : tcp_conn :=
  TcpConn (remote_port c) v (pollinterval c) (last_timer c) (tmr c) (tx c) (refused_data c) (listener c)
    (fn_sent c) (fn_recv c) (fn_connected c) (fn_poll c) (fn_errf c).
Definition set_tmr (v : Z) (c : tcp_conn) : tcp_conn :=
  TcpConn (remote_port c) (flags c) (pollinterval c) (last_timer c) v (tx c) (refused_data c) (listener c)
    (fn_sent c) (fn_recv c) (fn_connected c) (fn_poll c) (fn_errf c).
Definition set_tx (v : tcp_transfer) (c : tcp_conn) : tcp_conn :=
  TcpConn (remote_port c) (flags c) (pollinterval c) (last_timer c) (tmr c) v (refused_data c) (listener c)
    (fn_sent c) (fn_recv c) (fn_connected c) (fn_poll c) (fn_errf c).
Definition set_refused_data (v : Z) (c : tcp_conn) : tcp_conn :=
  TcpConn (remote_port c) (flags c) (pollinterval c) (last_timer c) (tmr c) (tx c) v (listener c)
    (fn_sent c) (fn_recv c) (fn_connected c) (fn_poll c) (fn_errf c).
Definition set_listener (v : Z) (c : tcp_conn) : tcp_conn :=
  TcpConn (remote_port c) (flags c) (pollinterval c) (last_timer c) (tmr c) (tx c) (refused_data c) v
    (fn_sent c) (fn_recv c) (fn_connected c) (fn_poll c) (fn_errf c).
Definition set_fn_sent (v : tcp_fn) (c : tcp_conn) : tcp_conn :=
  TcpConn (remote_port c) (flags c) (pollinterval c) (last_timer c) (tmr c) (tx c) (refused_data c) (listener c)
    v (fn_recv c) (fn_connected c) (fn_poll c) (fn_errf c).
Definition set_fn_recv (v : tcp_fn) (c : tcp_conn) : tcp_conn :=
  TcpConn (remote_port c) (flags c) (pollinterval c) (last_timer c) (tmr c) (tx c) (refused_data c) (listener c)
    (fn_sent c) v (fn_connected c) (fn_poll c) (fn_errf c).
Definition set_fn_connected (v : tcp_fn) (c : tcp_conn) : tcp_conn :=
  TcpConn (remote_port c) (flags c) (pollinterval c) (last_timer c) (tmr c) (tx c) (refused_data c) (listener c)
    (fn_sent c) (fn_recv c) v (fn_poll c) (fn_errf c).
Definition set_poll (f : tcp_fn) (i : Z) (c : tcp_conn) : tcp_conn :=
  TcpConn (remote_port c) (flags c) i (last_timer c) (tmr c) (tx c) (refused_data c) (listener c)
    (fn_sent c) (fn_recv c) (fn_connected c) f (fn_errf c).
Definition set_fn_errf (v : tcp_fn) (c : tcp_conn) : tcp_conn :=
  TcpConn (remote_port c) (flags c) (pollinterval c) (last_timer c) (tmr c) (tx c) (refused_data c) (listener c)
    (fn_sent c) (fn_recv c) (fn_connected c) (fn_poll c) v.

Definition set_tv (x : tcp_var) (v : Z) (t : tcp_transfer) : tcp_transfer :=
  TcpTransfer (<[x := v]> (tv t)) (unsent t) (unacked t) (ooseq t).
Definition set_unsent (l : list tcp_seg) (t : tcp_transfer) : tcp_transfer :=
  TcpTransfer (tv t) l (unacked t) (ooseq t).
Definition set_unacked (l : list tcp_seg) (t : tcp_transfer) : tcp_transfer :=
  TcpTransfer (tv t) (unsent t) l (ooseq t).
Definition set_ooseq (l : list tcp_seg) (t : tcp_transfer) : tcp_transfer :=
  TcpTransfer (tv t) (unsent t) (unacked t) l.

Definition set_fn_accept (v : tcp_fn) (l : tcp_listening) : tcp_listening :=
  TcpListening v (backlog l) (accepts_pending l).
Definition set_accepts_pending (v : Z) (l : tcp_listening) : tcp_listening :=
  TcpListening (fn_accept l) (backlog l) v.

(** [tcp_set_flags], [tcp_clear_flags] and tests of a flag. *)
Definition tcp_set_flags (set : Z) (c : tcp_conn) : tcp_conn := set_flags (u16 (Z.lor (flags c) set)) c.
Definition tcp_clear_flags (clr : Z) (c : tcp_conn) : tcp_conn :=
  set_flags (u16 (Z.land (flags c) (Z.land (Z.lnot clr) 65535))) c.
Definition tcp_is_flag_set (c : tcp_conn) (flag : Z) : bool := has (flags c) flag.
Definition tcp_ack_now (c : tcp_conn) : tcp_conn := tcp_set_flags TF_ACK_NOW c.

(** ** The world below and above *)

(** What arrived: the header of the segment, its addresses and its payload
    ([tcphdr], [inseg], the globals of [tcp_in.c]). *)
Record tcp_segment_in := TcpSegmentIn {
  in_src : Z;
  in_dest : Z;
  in_seqno : Z;
  in_ackno : Z;
  in_wnd : Z;
  in_flags : Z;
  in_tot_len : Z;
  in_p : Z;
  in_netif : Z;
  current_src : ip_addr;
  current_dest : ip_addr }.

(** What receiving the data of a segment ([tcp_receive]) does to a connection and
    to the globals of [tcp_in.c]. *)
Record tcp_received := TcpReceived {
  rx_transfer : tcp_transfer;
  rx_flags : Z;
  rx_got_fin : bool;
  rx_close_wait : bool;
  rx_recv_acked : Z;
  rx_recv_data : Z;
  rx_inseg_p : Z }.

(** What [tcp_write] found memory for: bytes for the last segment that waits, new
    segments, and the number of buffers of both. *)
Record tcp_queued := TcpQueued {
  wr_grow : nat;
  wr_segs : list tcp_seg;
  wr_pbufs : nat }.

Class TcpEnv (E : Type) := {
  (* Memory for a segment without data ([pbuf_alloc], [tcp_create_segment]), and for an empty ACK. *)
  new_segment : E -> option Z * E;
  new_control_pbuf : E -> bool * E;
  (* The layers below: sending a control segment and a data segment, and whether the latter is still queued. *)
  output_control_segment : E -> Z * E;
  ip_output_segment : tcp_seg -> Z -> E -> Z * E;
  tcp_output_segment_busy : tcp_seg -> E -> bool;
  tcp_rst : Z -> Z -> ip_addr -> ip_addr -> Z -> Z -> E -> E;
  tcp_rst_netif : Z -> Z -> Z -> ip_addr -> ip_addr -> Z -> Z -> E -> E;
  tcp_seg_free : tcp_seg -> E -> E;
  pbuf_free : Z -> E -> E;
  pbuf_tot_len : Z -> E -> Z;
  pbuf_flag_fin : Z -> E -> bool;
  set_pbuf_flag_fin : Z -> E -> E;
  (* Interfaces. *)
  ip_route : ip_addr -> ip_addr -> E -> Z;
  ip6_route : ip_addr -> ip_addr -> E -> Z;
  netif_get_by_index : Z -> E -> Z;
  netif_get_index : Z -> E -> Z;
  ip_netif_get_local_ip : Z -> ip_addr -> E -> option ip_addr;
  tcp_eff_send_mss_netif : Z -> Z -> ip_addr -> E -> Z;
  tcp_timer_needed : bool -> bool -> E -> E;
  (* Parts of TCP that are not modelled: queueing data, receiving data and the options of a header. *)
  queue_data : Z -> Z -> Z -> tcp_pcb -> E -> option tcp_queued * E;
  receive_data : tcp_segment_in -> tcp_pcb -> E -> tcp_received * E;
  parse_mss : tcp_segment_in -> E -> option Z;
  (* The callback for errors, and what a block fresh from its pool holds. *)
  call_errf : tcp_fn -> Z -> Z -> E -> E;
  raw_ip_addr : Z -> ip_addr }.

(** The flags that receiving data changes: the two of delayed acknowledgments,
    [TF_INFR] and [TF_RTO]. *)
Definition TF_TRANSFER : Z := 2055.
Definition merge_flags (old new : Z) : Z :=
  Z.lor (Z.land old (Z.lnot TF_TRANSFER)) (Z.land new TF_TRANSFER).

(** ** The globals *)

(** The lists of blocks, in the order of [tcp_pcb_lists]. *)
Inductive pcb_list := LISTEN_PCBS | BOUND_PCBS | ACTIVE_PCBS | TW_PCBS.

#[export] Instance pcb_list_eq_dec : EqDecision pcb_list.
Proof. solve_decision. Defined.

Definition tcp_pcb_lists : list pcb_list := [LISTEN_PCBS; BOUND_PCBS; ACTIVE_PCBS; TW_PCBS].

Record tcp (E : Type) := Tcp {
  pcbs : gmap Z tcp_pcb;
  pcb_free : list Z;
  lpcb_free : list Z;
  heads : pcb_list -> Z;
  tcp_port : Z;
  tcp_ticks : Z;
  tcp_timer_ctr : Z;
  iss : Z;
  tcp_active_pcbs_changed : bool;
  tcp_input_pcb : Z;
  recv_flags : Z;
  env : E }.
Arguments Tcp {E}.
Arguments pcbs {E} t.
Arguments pcb_free {E} t.
Arguments lpcb_free {E} t.
Arguments heads {E} t.
Arguments tcp_port {E} t.
Arguments tcp_ticks {E} t.
Arguments tcp_timer_ctr {E} t.
Arguments iss {E} t.
Arguments tcp_active_pcbs_changed {E} t.
Arguments tcp_input_pcb {E} t.
Arguments recv_flags {E} t.
Arguments env {E} t.

Section setters.
Context {E : Type}.
Implicit Types (st : tcp E).
Definition set_pcbs (v : gmap Z tcp_pcb) st : tcp E :=
  Tcp v (pcb_free st) (lpcb_free st) (heads st) (tcp_port st) (tcp_ticks st) (tcp_timer_ctr st) (iss st)
    (tcp_active_pcbs_changed st) (tcp_input_pcb st) (recv_flags st) (env st).
Definition set_pcb_free (v : list Z) st : tcp E :=
  Tcp (pcbs st) v (lpcb_free st) (heads st) (tcp_port st) (tcp_ticks st) (tcp_timer_ctr st) (iss st)
    (tcp_active_pcbs_changed st) (tcp_input_pcb st) (recv_flags st) (env st).
Definition set_lpcb_free (v : list Z) st : tcp E :=
  Tcp (pcbs st) (pcb_free st) v (heads st) (tcp_port st) (tcp_ticks st) (tcp_timer_ctr st) (iss st)
    (tcp_active_pcbs_changed st) (tcp_input_pcb st) (recv_flags st) (env st).
Definition set_head (l : pcb_list) (v : Z) st : tcp E :=
  Tcp (pcbs st) (pcb_free st) (lpcb_free st) (<[l := v]> (heads st)) (tcp_port st) (tcp_ticks st)
    (tcp_timer_ctr st) (iss st) (tcp_active_pcbs_changed st) (tcp_input_pcb st) (recv_flags st) (env st).
Definition set_tcp_port (v : Z) st : tcp E :=
  Tcp (pcbs st) (pcb_free st) (lpcb_free st) (heads st) v (tcp_ticks st) (tcp_timer_ctr st) (iss st)
    (tcp_active_pcbs_changed st) (tcp_input_pcb st) (recv_flags st) (env st).
Definition set_iss (v : Z) st : tcp E :=
  Tcp (pcbs st) (pcb_free st) (lpcb_free st) (heads st) (tcp_port st) (tcp_ticks st) (tcp_timer_ctr st) v
    (tcp_active_pcbs_changed st) (tcp_input_pcb st) (recv_flags st) (env st).
Definition set_changed st : tcp E :=
  Tcp (pcbs st) (pcb_free st) (lpcb_free st) (heads st) (tcp_port st) (tcp_ticks st) (tcp_timer_ctr st) (iss st)
    true (tcp_input_pcb st) (recv_flags st) (env st).
Definition set_tcp_input_pcb (v : Z) st : tcp E :=
  Tcp (pcbs st) (pcb_free st) (lpcb_free st) (heads st) (tcp_port st) (tcp_ticks st) (tcp_timer_ctr st) (iss st)
    (tcp_active_pcbs_changed st) v (recv_flags st) (env st).
Definition set_recv_flags (v : Z) st : tcp E :=
  Tcp (pcbs st) (pcb_free st) (lpcb_free st) (heads st) (tcp_port st) (tcp_ticks st) (tcp_timer_ctr st) (iss st)
    (tcp_active_pcbs_changed st) (tcp_input_pcb st) v (env st).
Definition set_env (v : E) st : tcp E :=
  Tcp (pcbs st) (pcb_free st) (lpcb_free st) (heads st) (tcp_port st) (tcp_ticks st) (tcp_timer_ctr st) (iss st)
    (tcp_active_pcbs_changed st) (tcp_input_pcb st) (recv_flags st) v.
End setters.

(** ** Actions *)

Definition tcpM (E A : Type) : Type := tcp E -> outcome (A * tcp E).

#[export] Instance tcpM_ret E : MRet (tcpM E) := fun A a st => Ret (a, st).
#[export] Instance tcpM_bind E : MBind (tcpM E) := fun A B f m st =>
  match m st with
  | Ret (a, st) => f a st
  | Exited c => Exited c
  | Undefined => Undefined
  | NoFuel => NoFuel
  end.

Section actions.
Context {E : Type} `{!TcpEnv E}.
Notation act := (tcpM E).

Definition lift {A} (o : outcome A) : act A := fun st => a ← o; Ret (a, st).
Definition gets {A} (f : tcp E -> A) : act A := fun st => Ret (f st, st).
Definition modify (f : tcp E -> tcp E) : act unit := fun st => Ret (tt, f st).
Definition ASSERT (b : bool) : act unit := lift (LWIP_ASSERT b).

(** Reading and writing through a pointer. *)
Definition load (p : Z) : act tcp_pcb := fun st => c ← deref (pcbs st !! p); Ret (c, st).
Definition store (p : Z) (f : tcp_pcb -> tcp_pcb) : act unit :=
  c ← load p; modify (fun st => set_pcbs (<[p := f c]> (pcbs st)) st).

Definition as_conn (c : tcp_pcb) : outcome tcp_conn :=
  match rest c with Conn c => Ret c | Listening _ => Undefined end.
Definition as_listening (c : tcp_pcb) : outcome tcp_listening :=
  match rest c with Conn _ => Undefined | Listening l => Ret l end.

(** A connection, and a listening block. *)
Definition load_conn (p : Z) : act tcp_conn := c ← load p; lift (as_conn c).
Definition store_conn (p : Z) (f : tcp_conn -> tcp_conn) : act unit :=
  c ← load_conn p; store p (set_rest (Conn (f c))).
Definition load_listening (p : Z) : act tcp_listening := c ← load p; lift (as_listening c).
Definition store_listening (p : Z) (f : tcp_listening -> tcp_listening) : act unit :=
  l ← load_listening p; store p (set_rest (Listening (f l))).
Definition store_tx (p : Z) (f : tcp_transfer -> tcp_transfer) : act unit :=
  store_conn p (fun c => set_tx (f (tx c)) c).
Definition store_tv (p : Z) (x : tcp_var) (v : Z) : act unit := store_tx p (set_tv x v).

(** Calls of the world. *)
Definition effect (f : E -> E) : act unit := modify (fun st => set_env (f (env st)) st).
Definition ask {A} (f : E -> A) : act A := gets (fun st => f (env st)).
Definition call {A} (f : E -> A * E) : act A := fun st => let '(a, e) := f (env st) in Ret (a, set_env e st).

(** A loop over a list of blocks cannot take more steps than there are blocks. *)
Definition list_fuel : act nat := gets (fun st => S (size (pcbs st))).

(** The first block of a list that passes a test, or [NULL]. *)
Fixpoint pcb_find (fuel : nat) (test : tcp_pcb -> bool) (p : Z) : act Z :=
  match fuel with
  | O => lift NoFuel
  | S fuel =>
      if p =? 0 then mret 0
      else
        c ← load p;
        if test c then mret p else pcb_find fuel test (next c)
  end.

(** An accumulator carried along a list. *)
Fixpoint pcb_fold {A} (fuel : nat) (f : A -> Z -> tcp_pcb -> A) (a : A) (p : Z) : act A :=
  match fuel with
  | O => lift NoFuel
  | S fuel =>
      if p =? 0 then mret a
      else c ← load p; pcb_fold fuel f (f a p c) (next c)
  end.

(** ** [TCP_REG] and [TCP_RMV] *)

Definition TCP_REG (l : pcb_list) (npcb : Z) : act unit :=
  h ← gets (fun st => heads st l);
  store npcb (set_next h) ;;
  modify (set_head l npcb) ;;
  a ← gets (fun st => negb (heads st ACTIVE_PCBS =? 0));
  t ← gets (fun st => negb (heads st TW_PCBS =? 0));
  effect (tcp_timer_needed a t).

Fixpoint tcp_rmv_loop (fuel : nat) (npcb tcp_tmp_pcb : Z) : act unit :=
  match fuel with
  | O => lift NoFuel
  | S fuel =>
      if tcp_tmp_pcb =? 0 then mret tt
      else
        c ← load tcp_tmp_pcb;
        if next c =? npcb then
          n ← load npcb;
          store tcp_tmp_pcb (set_next (next n))
        else tcp_rmv_loop fuel npcb (next c)
  end.

Definition TCP_RMV (l : pcb_list) (npcb : Z) : act unit :=
  h ← gets (fun st => heads st l);
  (if h =? npcb then
     c ← load h;
     modify (set_head l (next c))
   else
     fuel ← list_fuel;
     tcp_rmv_loop fuel npcb h) ;;
  store npcb (set_next 0).

Definition TCP_REG_ACTIVE (npcb : Z) : act unit := TCP_REG ACTIVE_PCBS npcb ;; modify set_changed.
Definition TCP_RMV_ACTIVE (npcb : Z) : act unit := TCP_RMV ACTIVE_PCBS npcb ;; modify set_changed.
End actions.
