(* ===== verification/TcpOut.v ===== *)
(** * Sending in TCP ([lwip/src/core/tcp_out.c])

    Segments wait in [unsent] until the window lets them go and in [unacked]
    until they are acknowledged.  [tcp_output] moves them from one queue to the
    other; a SYN or a FIN is a segment without data. *)
From S2P Require Import Prelude Lwip Pbuf ChecksumPbuf TcpPcb.

(** The configuration: [TCP_SND_QUEUELEN]. *)
Definition TCP_SND_QUEUELEN : Z := 125.

(** [TCP_TCPLEN]: SYN and FIN take a sequence number each, together one. *)
Definition TCP_TCPLEN (seg : tcp_seg) : Z :=
  seg_len seg + (if has (seg_hdrflags seg) (Z.lor TCP_FIN TCP_SYN) then 1 else 0).

(** [TCPH_SET_FLAG]. *)
Definition TCPH_SET_FLAG (fl : Z) (seg : tcp_seg) : tcp_seg :=
  TcpSeg (seg_p seg) (seg_len seg) (seg_seqno seg) (Z.lor (seg_hdrflags seg) fl).

(** The algorithm of Nagle. *)
Definition tcp_do_output_nagle (c : tcp_conn) : bool :=
  let t := tx c in
  is_nil (unacked t) ||
  has (flags c) (Z.lor TF_NODELAY TF_INFR) ||
  match unsent t with
  | [] => false
  | seg :: q => match q with [] => tv t mss <=? seg_len seg | _ => true end
  end ||
  ((tv t snd_buf =? 0) || (TCP_SND_QUEUELEN <=? tv t snd_queuelen)).

(** Where a segment that was sent goes in [unacked]: to the end, or before the
    first segment that does not precede it when it precedes the last. *)
Fixpoint insert_before (seg : tcp_seg) (q : list tcp_seg) : list tcp_seg :=
  match q with
  | [] => [seg]
  | cur :: q' =>
      if TCP_SEQ_LT (seg_seqno cur) (seg_seqno seg) then cur :: insert_before seg q'
      else seg :: q
  end.
Definition put_unacked (seg : tcp_seg) (q : list tcp_seg) : list tcp_seg :=
  match last q with
  | None => [seg]
  | Some useg =>
      if TCP_SEQ_LT (seg_seqno seg) (seg_seqno useg) then insert_before seg q else q ++ [seg]
  end.

Section tcp_out.
Context {E : Type} `{!TcpEnv E}.
Notation act := (tcpM E).

(** [pcb->rcv_ann_right_edge = pcb->rcv_nxt + pcb->rcv_ann_wnd]. *)
Definition announce_window (pcb : Z) : act unit :=
  store_tx pcb (fun t => set_tv rcv_ann_right_edge (u32 (tv t rcv_nxt + tv t rcv_ann_wnd)) t).

Definition tcp_send_empty_ack (pcb : Z) : act Z :=
  load_conn pcb ;;
  p ← call new_control_pbuf;
  if negb p then
    store_conn pcb (tcp_set_flags (Z.lor TF_ACK_DELAY TF_ACK_NOW)) ;;
    mret ERR_BUF
  else
    announce_window pcb ;;
    err ← call output_control_segment;
    (if negb (err =? ERR_OK) then store_conn pcb (tcp_set_flags (Z.lor TF_ACK_DELAY TF_ACK_NOW))
     else store_conn pcb (tcp_clear_flags (Z.lor TF_ACK_DELAY TF_ACK_NOW))) ;;
    mret err.

(** What [tcp_output_segment] does to the variables, and the answer of IP. *)
Definition tcp_output_segment (seg : tcp_seg) (pcb netif : Z) : act Z :=
  busy ← ask (tcp_output_segment_busy seg);
  if busy : bool then mret ERR_OK
  else
    announce_window pcb ;;
    c ← load_conn pcb;
    (if tv (tx c) rtime <? 0 then store_tv pcb rtime 0 else mret tt) ;;
    (if tv (tx c) rttest =? 0 then
       ticks ← gets tcp_ticks;
       store_tv pcb rttest ticks ;;
       store_tv pcb rtseq (seg_seqno seg)
     else mret tt) ;;
    call (ip_output_segment seg netif).

(** [while (seg != NULL && ... <= wnd)]; the answer is that of the segment that
    could not be sent, or [ERR_OK]. *)
Fixpoint output_loop (fuel : nat) (pcb netif wnd : Z) : act Z :=
  match fuel with
  | O => lift NoFuel
  | S fuel =>
      b ← load pcb;
      c ← load_conn pcb;
      match unsent (tx c) with
      | [] => mret ERR_OK
      | seg :: rest_q =>
          if negb (u32 (seg_seqno seg - tv (tx c) lastack + seg_len seg) <=? wnd) then mret ERR_OK
          else
            ASSERT (negb (has (seg_hdrflags seg) TCP_RST)) ;;
            if negb (tcp_do_output_nagle c) && negb (has (flags c) (Z.lor TF_NAGLEMEMERR TF_FIN)) then mret ERR_OK
            else
              let seg := if decide (state b = SYN_SENT) then seg else TCPH_SET_FLAG TCP_ACK seg in
              store_tx pcb (set_unsent (seg :: rest_q)) ;;
              err ← tcp_output_segment seg pcb netif;
              if negb (err =? ERR_OK) then
                store_conn pcb (tcp_set_flags TF_NAGLEMEMERR) ;;
                mret err
              else
                store_tx pcb (set_unsent rest_q) ;;
                (if decide (state b = SYN_SENT) then mret tt
                 else store_conn pcb (tcp_clear_flags (Z.lor TF_ACK_DELAY TF_ACK_NOW))) ;;
                let snd_nxt' := u32 (seg_seqno seg + TCP_TCPLEN seg) in
                (if TCP_SEQ_LT (tv (tx c) snd_nxt) snd_nxt' then store_tv pcb snd_nxt snd_nxt' else mret tt) ;;
                (if 0 <? TCP_TCPLEN seg then store_tx pcb (fun t => set_unacked (put_unacked seg (unacked t)) t)
                 else effect (tcp_seg_free seg)) ;;
                output_loop fuel pcb netif wnd
      end
  end.

Definition tcp_route (c : ip_pcb) (src dst : ip_addr) : act Z :=
  if negb (netif_idx c =? NETIF_NO_INDEX) then ask (netif_get_by_index (netif_idx c))
  else ask (ip_route src dst).

Definition output_done (pcb : Z) : act Z := store_conn pcb (tcp_clear_flags TF_NAGLEMEMERR) ;; mret ERR_OK.

(** [tcp_output] once the interface and the local address are known: [seg] is the
    head of [unsent]. *)
Definition output_in_window (pcb netif wnd : Z) (seg : tcp_seg) : act Z :=
  c ← load_conn pcb;
  if wnd <? u32 (seg_seqno seg - tv (tx c) lastack + seg_len seg) then
    (if (wnd =? tv (tx c) snd_wnd) && is_nil (unacked (tx c)) && (tv (tx c) persist_backoff =? 0) then
       store_tv pcb persist_cnt 0 ;;
       store_tv pcb persist_backoff 1 ;;
       store_tv pcb persist_probe 0
     else mret tt) ;;
    if has (flags c) TF_ACK_NOW then tcp_send_empty_ack pcb else output_done pcb
  else
    store_tv pcb persist_backoff 0 ;;
    err ← output_loop (S (length (unsent (tx c)))) pcb netif wnd;
    if negb (err =? ERR_OK) then mret err
    else
      c ← load_conn pcb;
      (if is_nil (unsent (tx c)) then store_tv pcb unsent_oversize 0 else mret tt) ;;
      output_done pcb.

(** [ip_netif_get_local_ip]: the address of the interface, when the connection has
    none; [false] when the interface has none either. *)
Definition take_local_ip (pcb netif : Z) : act bool :=
  b ← load pcb;
  if ip_addr_isany (local_ip (ip b)) then
    local ← ask (ip_netif_get_local_ip netif (remote_ip (ip b)));
    match local with
    | None => mret false
    | Some local => store pcb (fun b => set_ip (set_local_ip (ip_addr_copy local) (ip b)) b) ;; mret true
    end
  else mret true.

Definition tcp_output (pcb : Z) : act Z :=
  b ← load pcb;
  ASSERT (negb (bool_decide (state b = LISTEN))) ;;
  input ← gets tcp_input_pcb;
  if input =? pcb then mret ERR_OK
  else
    c ← load_conn pcb;
    let wnd := Z.min (tv (tx c) snd_wnd) (tv (tx c) cwnd) in
    match unsent (tx c) with
    | [] => if has (flags c) TF_ACK_NOW then tcp_send_empty_ack pcb else output_done pcb
    | seg :: _ =>
        netif ← tcp_route (ip b) (local_ip (ip b)) (remote_ip (ip b));
        if netif =? 0 then mret ERR_RTE
        else
          found ← take_local_ip pcb netif;
          if found : bool then output_in_window pcb netif wnd seg else mret ERR_RTE
    end.

(** [LWIP_ASSERT]: there are segments when buffers are counted. *)
Definition assert_queued (t : tcp_transfer) : act unit :=
  if negb (tv t snd_queuelen =? 0) then ASSERT (negb (is_nil (unacked t)) || negb (is_nil (unsent t)))
  else mret tt.

(** A SYN or a FIN at the end of [unsent]. *)
Definition tcp_enqueue_flags (pcb fl : Z) : act Z :=
  ASSERT (has fl (Z.lor TCP_SYN TCP_FIN)) ;;
  c ← load_conn pcb;
  p ← call new_segment;
  match p with
  | None =>
      store_conn pcb (tcp_set_flags TF_NAGLEMEMERR) ;;
      mret ERR_MEM
  | Some p =>
      let seg := TcpSeg p 0 (tv (tx c) snd_lbb) fl in
      store_tx pcb (fun t => set_unsent (unsent t ++ [seg]) t) ;;
      store_tv pcb unsent_oversize 0 ;;
      (if has fl TCP_SYN || has fl TCP_FIN then store_tv pcb snd_lbb (u32 (tv (tx c) snd_lbb + 1)) else mret tt) ;;
      (if has fl TCP_FIN then store_conn pcb (tcp_set_flags TF_FIN) else mret tt) ;;
      store_tx pcb (fun t => set_tv snd_queuelen (u16 (tv t snd_queuelen + 1)) t) ;;
      c ← load_conn pcb;
      assert_queued (tx c) ;;
      mret ERR_OK
  end.

(** The FIN goes into the header of the last segment when that has no flag of its
    own. *)
Definition tcp_send_fin (pcb : Z) : act Z :=
  c ← load_conn pcb;
  match last (unsent (tx c)) with
  | Some last_unsent =>
      if negb (has (seg_hdrflags last_unsent) (Z.lor (Z.lor TCP_SYN TCP_FIN) TCP_RST)) then
        store_tx pcb (fun t => set_unsent (removelast (unsent t) ++ [TCPH_SET_FLAG TCP_FIN last_unsent]) t) ;;
        store_conn pcb (tcp_set_flags TF_FIN) ;;
        mret ERR_OK
      else tcp_enqueue_flags pcb TCP_FIN
  | None => tcp_enqueue_flags pcb TCP_FIN
  end.

(** ** Sending again *)

Definition tcp_rexmit_rto_prepare (pcb : Z) : act Z :=
  c ← load_conn pcb;
  match last (unacked (tx c)) with
  | None => mret ERR_VAL
  | Some seg =>
      busy ← ask (fun e => existsb (fun s => tcp_output_segment_busy s e) (unacked (tx c)));
      if busy : bool then mret ERR_VAL
      else
        store_tx pcb (fun t => set_unacked [] (set_unsent (unacked t ++ unsent t) t)) ;;
        store_conn pcb (tcp_set_flags TF_RTO) ;;
        store_tv pcb rto_end (u32 (seg_seqno seg + TCP_TCPLEN seg)) ;;
        store_tv pcb rttest 0 ;;
        mret ERR_OK
  end.

Definition count_rexmit (pcb : Z) : act unit :=
  store_tx pcb (fun t => if tv t nrtx <? 255 then set_tv nrtx (tv t nrtx + 1) t else t).
Definition tcp_rexmit_rto_commit (pcb : Z) : act unit := count_rexmit pcb ;; tcp_output pcb ;; mret tt.
Definition tcp_rexmit_rto (pcb : Z) : act unit :=
  err ← tcp_rexmit_rto_prepare pcb;
  if err =? ERR_OK then tcp_rexmit_rto_commit pcb else mret tt.

Definition tcp_rexmit (pcb : Z) : act Z :=
  c ← load_conn pcb;
  match unacked (tx c) with
  | [] => mret ERR_VAL
  | seg :: q =>
      busy ← ask (tcp_output_segment_busy seg);
      if busy : bool then mret ERR_VAL
      else
        store_tx pcb (fun t => set_unsent (insert_before seg (unsent t)) (set_unacked q t)) ;;
        (if forallb (fun s => TCP_SEQ_LT (seg_seqno s) (seg_seqno seg)) (unsent (tx c)) then
           store_tv pcb unsent_oversize 0
         else mret tt) ;;
        count_rexmit pcb ;;
        store_tv pcb rttest 0 ;;
        mret ERR_OK
  end.

(** ** Queueing data *)

Definition TCP_SNDQUEUELEN_OVERFLOW : Z := 65532.

Definition tcp_write_checks (pcb len : Z) : act Z :=
  b ← load pcb;
  c ← load_conn pcb;
  match state b with
  | ESTABLISHED | CLOSE_WAIT | SYN_SENT | SYN_RCVD =>
      if len =? 0 then mret ERR_OK
      else if (tv (tx c) snd_buf <? len)
              || (Z.min TCP_SND_QUEUELEN TCP_SNDQUEUELEN_OVERFLOW <=? tv (tx c) snd_queuelen) then
        store_conn pcb (tcp_set_flags TF_NAGLEMEMERR) ;;
        mret ERR_MEM
      else
        (if negb (tv (tx c) snd_queuelen =? 0) then assert_queued (tx c)
         else ASSERT (is_nil (unacked (tx c)) && is_nil (unsent (tx c)))) ;;
        mret ERR_OK
  | _ => mret ERR_CONN
  end.

(** The last segment that waits takes more bytes. *)
Definition grow_last (n : nat) (q : list tcp_seg) : list tcp_seg :=
  match last q with
  | None => q
  | Some s => removelast q ++ [TcpSeg (seg_p s) (seg_len s + Z.of_nat n) (seg_seqno s) (seg_hdrflags s)]
  end.

(** The end of [tcp_write]: what was made of the data is queued, unless memory ran
    out or there are too many buffers. *)
Definition write_queued (pcb len : Z) (w : option tcp_queued) : act Z :=
  c ← load_conn pcb;
  let memerr :=
    store_conn pcb (tcp_set_flags TF_NAGLEMEMERR) ;;
    c ← load_conn pcb;
    assert_queued (tx c) ;;
    mret ERR_MEM in
  match w with
  | None => memerr
  | Some w =>
      let queuelen := tv (tx c) snd_queuelen + Z.of_nat (wr_pbufs w) in
      if Z.min TCP_SND_QUEUELEN TCP_SNDQUEUELEN_OVERFLOW <? queuelen then memerr
      else
        store_tx pcb (fun t =>
          set_tv snd_queuelen queuelen (set_tv snd_buf (u16 (tv t snd_buf - len)) (set_tv snd_lbb (u32 (tv t snd_lbb + len))
            (set_unsent (grow_last (wr_grow w) (unsent t) ++ wr_segs w) t)))) ;;
        c ← load_conn pcb;
        assert_queued (tx c) ;;
        mret ERR_OK
  end.

(** How the data is cut into segments is not modelled. *)
Definition tcp_write (pcb dataptr len apiflags : Z) : act Z :=
  if (pcb =? 0) || (dataptr =? 0) then mret ERR_ARG
  else
    err ← tcp_write_checks pcb len;
    if negb (err =? ERR_OK) then mret err
    else
      b ← load pcb;
      w ← call (queue_data dataptr len apiflags b);
      write_queued pcb len w.
End tcp_out.
