(* ===== verification/Tcp.v ===== *)
(** * Connections and listeners ([lwip/src/core/tcp.c])

    The raw interface the stack calls: blocks are allocated, bound, made to
    listen or to connect, and closed or aborted.  When blocks run out the
    allocation sacrifices connections, the least valuable first. *)
From S2P Require Import Prelude ByteOrder Lwip Pbuf ChecksumPbuf TcpPcb TcpOut.

(** The ports to choose from. *)
Definition TCP_LOCAL_PORT_RANGE_START : Z := 49152.
Definition TCP_LOCAL_PORT_RANGE_END : Z := 65535.
Definition TCP_ENSURE_LOCAL_PORT_RANGE (port : Z) : Z :=
  u16 (Z.land port (u16 (Z.lnot TCP_LOCAL_PORT_RANGE_START)) + TCP_LOCAL_PORT_RANGE_START).

Section tcp.
Context {E : Type} `{!TcpEnv E}.
Notation act := (tcpM E).

(** [tcp_init], with the answer of [LWIP_RAND]. *)
Definition tcp_init (rand : Z) : act unit := modify (set_tcp_port (TCP_ENSURE_LOCAL_PORT_RANGE rand)).

(** ** The pools

    [memp_malloc] takes the first free element, [memp_free] puts an element in
    front of the others. *)
Definition memp_malloc_pcb : act Z := fun st =>
  match pcb_free st with
  | [] => Ret (0, st)
  | a :: fl => Ret (a, set_pcb_free fl st)
  end.
Definition memp_malloc_lpcb : act Z := fun st =>
  match lpcb_free st with
  | [] => Ret (0, st)
  | a :: fl => Ret (a, set_lpcb_free fl st)
  end.
Definition new_pcb (p : Z) (c : tcp_pcb) : act unit := modify (fun st => set_pcbs (<[p := c]> (pcbs st)) st).
Definition memp_free_pcb (p : Z) : act unit :=
  load_conn p ;;
  modify (fun st => set_pcb_free (p :: pcb_free st) (set_pcbs (delete p (pcbs st)) st)).
Definition memp_free_lpcb (p : Z) : act unit :=
  load_listening p ;;
  modify (fun st => set_lpcb_free (p :: lpcb_free st) (set_pcbs (delete p (pcbs st)) st)).

Definition tcp_free (pcb : Z) : act unit :=
  b ← load pcb;
  ASSERT (negb (bool_decide (state b = LISTEN))) ;;
  memp_free_pcb pcb.
Definition tcp_free_listen (pcb : Z) : act unit :=
  b ← load pcb;
  ASSERT (negb (bool_decide (state b = LISTEN))) ;;
  memp_free_lpcb pcb.

(** ** The backlog of a listener *)

Definition tcp_backlog_delayed (pcb : Z) : act unit :=
  c ← load_conn pcb;
  if tcp_is_flag_set c TF_BACKLOGPEND then mret tt
  else if listener c =? 0 then mret tt
  else
    store_listening (listener c) (fun l => set_accepts_pending (u8 (accepts_pending l + 1)) l) ;;
    l ← load_listening (listener c);
    ASSERT (negb (accepts_pending l =? 0)) ;;
    store_conn pcb (tcp_set_flags TF_BACKLOGPEND).

Definition tcp_backlog_accepted (pcb : Z) : act unit :=
  c ← load_conn pcb;
  if tcp_is_flag_set c TF_BACKLOGPEND then
    if listener c =? 0 then mret tt
    else
      l ← load_listening (listener c);
      ASSERT (negb (accepts_pending l =? 0)) ;;
      store_listening (listener c) (fun l => set_accepts_pending (u8 (accepts_pending l - 1)) l) ;;
      store_conn pcb (tcp_clear_flags TF_BACKLOGPEND)
  else mret tt.

(** [for (pcb = list; pcb != NULL; pcb = pcb->next)]. *)
Fixpoint remove_listener_loop (fuel : nat) (lpcb pcb : Z) : act unit :=
  match fuel with
  | O => lift NoFuel
  | S fuel =>
      if pcb =? 0 then mret tt
      else
        c ← load_conn pcb;
        (if listener c =? lpcb then store_conn pcb (set_listener 0) else mret tt) ;;
        b ← load pcb;
        remove_listener_loop fuel lpcb (next b)
  end.
Definition tcp_remove_listener (list lpcb : Z) : act unit :=
  fuel ← list_fuel;
  remove_listener_loop fuel lpcb list.

Definition tcp_listen_closed (pcb : Z) : act unit :=
  b ← load pcb;
  ASSERT (bool_decide (state b = LISTEN)) ;;
  h ← gets heads;
  tcp_remove_listener (h BOUND_PCBS) pcb ;;
  tcp_remove_listener (h ACTIVE_PCBS) pcb ;;
  tcp_remove_listener (h TW_PCBS) pcb.

(** ** Taking a block out of service *)

Definition tcp_segs_free (q : list tcp_seg) : act unit :=
  effect (fun e => foldl (fun e seg => tcp_seg_free seg e) e q).

Definition tcp_free_ooseq (pcb : Z) : act unit :=
  c ← load_conn pcb;
  if is_nil (ooseq (tx c)) then mret tt
  else
    tcp_segs_free (ooseq (tx c)) ;;
    store_tx pcb (set_ooseq []).

(** The states that hold no data. *)
Definition no_data (s : tcp_state) : bool :=
  match s with CLOSED | TIME_WAIT | LISTEN => true | _ => false end.

Definition tcp_pcb_purge (pcb : Z) : act unit :=
  b ← load pcb;
  if no_data (state b) then mret tt
  else
    tcp_backlog_accepted pcb ;;
    c ← load_conn pcb;
    (if refused_data c =? 0 then mret tt
     else effect (pbuf_free (refused_data c)) ;; store_conn pcb (set_refused_data 0)) ;;
    tcp_free_ooseq pcb ;;
    store_tv pcb rtime (-1) ;;
    tcp_segs_free (unsent (tx c)) ;;
    tcp_segs_free (unacked (tx c)) ;;
    store_tx pcb (fun t => set_unacked [] (set_unsent [] t)) ;;
    store_tv pcb unsent_oversize 0.

(** An acknowledgment that was put off is sent now. *)
Definition send_delayed_ack (pcb : Z) : act unit :=
  b ← load pcb;
  match state b with
  | TIME_WAIT | LISTEN => mret tt
  | _ =>
      c ← load_conn pcb;
      if has (flags c) TF_ACK_DELAY then
        store_conn pcb tcp_ack_now ;;
        tcp_output pcb ;; mret tt
      else mret tt
  end.

Definition tcp_pcb_remove (pcblist : pcb_list) (pcb : Z) : act unit :=
  TCP_RMV pcblist pcb ;;
  tcp_pcb_purge pcb ;;
  send_delayed_ack pcb ;;
  b ← load pcb;
  (if bool_decide (state b = LISTEN) then mret tt
   else
     c ← load_conn pcb;
     ASSERT (is_nil (unsent (tx c))) ;;
     ASSERT (is_nil (unacked (tx c))) ;;
     ASSERT (is_nil (ooseq (tx c)))) ;;
  store pcb (set_state CLOSED) ;;
  store pcb (set_local_port 0).

Definition TCP_PCB_REMOVE_ACTIVE (pcb : Z) : act unit := tcp_pcb_remove ACTIVE_PCBS pcb ;; modify set_changed.

(** ** Giving up a connection *)

Definition TCP_EVENT_ERR (errf : tcp_fn) (arg err : Z) : act unit :=
  match errf with FN_NULL => mret tt | _ => effect (call_errf errf arg err) end.

Definition tcp_abandon (pcb : Z) (reset : bool) : act unit :=
  b ← load pcb;
  ASSERT (negb (bool_decide (state b = LISTEN))) ;;
  if bool_decide (state b = TIME_WAIT) then
    tcp_pcb_remove TW_PCBS pcb ;;
    tcp_free pcb
  else
    c ← load_conn pcb;
    (if bool_decide (state b = CLOSED) then
       if local_port b =? 0 then mret tt else TCP_RMV BOUND_PCBS pcb
     else TCP_PCB_REMOVE_ACTIVE pcb) ;;
    let send_rst := if bool_decide (state b = CLOSED) then false else reset in
    let port := if bool_decide (state b = CLOSED) then 0 else local_port b in
    c' ← load_conn pcb;
    tcp_segs_free (unacked (tx c')) ;;
    tcp_segs_free (unsent (tx c')) ;;
    tcp_segs_free (ooseq (tx c')) ;;
    tcp_backlog_accepted pcb ;;
    b' ← load pcb;
    (if send_rst : bool then
       effect (tcp_rst (tv (tx c) snd_nxt) (tv (tx c) rcv_nxt) (local_ip (ip b')) (remote_ip (ip b')) port (remote_port c'))
     else mret tt) ;;
    tcp_free pcb ;;
    TCP_EVENT_ERR (fn_errf c) (callback_arg b) ERR_ABRT.

Definition tcp_abort (pcb : Z) : act unit := tcp_abandon pcb true.

(** ** Closing *)

Definition tcp_trigger_input_pcb_close : act unit :=
  modify (fun st => set_recv_flags (Z.lor (recv_flags st) TF_CLOSED) st).

(** [err] of [tcp_send_fin] and the state the connection goes to with it. *)
Definition fin_sent (pcb err : Z) : act Z :=
  if err =? ERR_OK then tcp_output pcb ;; mret ERR_OK
  else if err =? ERR_MEM then
    store_conn pcb (tcp_set_flags TF_CLOSEPEND) ;;
    mret ERR_OK
  else mret err.

Definition tcp_close_shutdown_fin (pcb : Z) : act Z :=
  b ← load pcb;
  match state b with
  | SYN_RCVD =>
      err ← tcp_send_fin pcb;
      (if err =? ERR_OK then
         tcp_backlog_accepted pcb ;;
         store pcb (set_state FIN_WAIT_1)
       else mret tt) ;;
      fin_sent pcb err
  | ESTABLISHED =>
      err ← tcp_send_fin pcb;
      (if err =? ERR_OK then store pcb (set_state FIN_WAIT_1) else mret tt) ;;
      fin_sent pcb err
  | CLOSE_WAIT =>
      err ← tcp_send_fin pcb;
      (if err =? ERR_OK then store pcb (set_state LAST_ACK) else mret tt) ;;
      fin_sent pcb err
  | _ => mret ERR_OK
  end.

(** Data the application did not take: the other side gets a RST. *)
Definition close_with_rst (pcb : Z) : act Z :=
  b ← load pcb;
  c ← load_conn pcb;
  ASSERT (tcp_is_flag_set c TF_RXCLOSED) ;;
  effect (tcp_rst (tv (tx c) snd_nxt) (tv (tx c) rcv_nxt) (local_ip (ip b)) (remote_ip (ip b))
    (local_port b) (remote_port c)) ;;
  tcp_pcb_purge pcb ;;
  TCP_RMV_ACTIVE pcb ;;
  input ← gets tcp_input_pcb;
  (if input =? pcb then tcp_trigger_input_pcb_close else tcp_free pcb) ;;
  mret ERR_OK.

Definition close_by_state (pcb : Z) : act Z :=
  b ← load pcb;
  match state b with
  | CLOSED =>
      (if local_port b =? 0 then mret tt else TCP_RMV BOUND_PCBS pcb) ;;
      tcp_free pcb ;;
      mret ERR_OK
  | LISTEN =>
      tcp_listen_closed pcb ;;
      tcp_pcb_remove LISTEN_PCBS pcb ;;
      tcp_free_listen pcb ;;
      mret ERR_OK
  | SYN_SENT =>
      TCP_PCB_REMOVE_ACTIVE pcb ;;
      tcp_free pcb ;;
      mret ERR_OK
  | _ => tcp_close_shutdown_fin pcb
  end.

Definition tcp_close_shutdown (pcb : Z) (rst_on_unacked_data : bool) : act Z :=
  b ← load pcb;
  if rst_on_unacked_data && (bool_decide (state b = ESTABLISHED) || bool_decide (state b = CLOSE_WAIT)) then
    c ← load_conn pcb;
    if negb (refused_data c =? 0) || negb (tv (tx c) rcv_wnd =? TCP_WND) then close_with_rst pcb
    else close_by_state pcb
  else close_by_state pcb.

Definition tcp_close (pcb : Z) : act Z :=
  if pcb =? 0 then mret ERR_ARG
  else
    b ← load pcb;
    (if bool_decide (state b = LISTEN) then mret tt else store_conn pcb (tcp_set_flags TF_RXCLOSED)) ;;
    tcp_close_shutdown pcb true.

Definition tcp_shutdown (pcb : Z) (shut_rx shut_tx : bool) : act Z :=
  if pcb =? 0 then mret ERR_ARG
  else
    b ← load pcb;
    if bool_decide (state b = LISTEN) then mret ERR_CONN
    else
      (if shut_rx then store_conn pcb (tcp_set_flags TF_RXCLOSED) else mret tt) ;;
      if shut_rx && shut_tx then tcp_close_shutdown pcb true
      else
        (if shut_rx then
           c ← load_conn pcb;
           if refused_data c =? 0 then mret tt
           else effect (pbuf_free (refused_data c)) ;; store_conn pcb (set_refused_data 0)
         else mret tt) ;;
        if shut_tx then
          match state b with
          | SYN_RCVD | ESTABLISHED | CLOSE_WAIT => tcp_close_shutdown pcb shut_rx
          | _ => mret ERR_CONN
          end
        else mret ERR_OK.

(** ** Ports *)

(** Whether some block uses the port, in the order of the lists. *)
Fixpoint port_in_use (ls : list pcb_list) (port : Z) : act bool :=
  match ls with
  | [] => mret false
  | l :: ls =>
      fuel ← list_fuel;
      h ← gets (fun st => heads st l);
      p ← pcb_find fuel (fun c => local_port c =? port) h;
      if p =? 0 then port_in_use ls port else mret true
  end.

(** [again:], at most [TCP_LOCAL_PORT_RANGE_END - TCP_LOCAL_PORT_RANGE_START]
    times more. *)
Fixpoint new_port_loop (fuel : nat) (n : Z) : act Z :=
  match fuel with
  | O => lift NoFuel
  | S fuel =>
      port ← gets (fun st => u16 (tcp_port st + 1));
      let port := if port =? TCP_LOCAL_PORT_RANGE_END then TCP_LOCAL_PORT_RANGE_START else port in
      modify (set_tcp_port port) ;;
      used ← port_in_use tcp_pcb_lists port;
      if used : bool then
        let n := u16 (n + 1) in
        if TCP_LOCAL_PORT_RANGE_END - TCP_LOCAL_PORT_RANGE_START <? n then mret 0
        else new_port_loop fuel n
      else mret port
  end.

Definition new_port_fuel : nat := Z.to_nat (TCP_LOCAL_PORT_RANGE_END - TCP_LOCAL_PORT_RANGE_START + 1).
Definition tcp_new_port : act Z := new_port_loop new_port_fuel 0.

(** Whether a block stands in the way of binding to an address and a port. *)
Definition bind_conflict (ipaddr : ip_addr) (port : Z) (cpcb : tcp_pcb) : bool :=
  (local_port cpcb =? port)
  && Bool.eqb (IP_IS_V6 ipaddr) (IP_IS_V6 (local_ip (ip cpcb)))
  && (ip_addr_isany (local_ip (ip cpcb)) || ip_addr_isany ipaddr || ip_addr_eq (local_ip (ip cpcb)) ipaddr).

Fixpoint address_in_use (ls : list pcb_list) (ipaddr : ip_addr) (port : Z) : act bool :=
  match ls with
  | [] => mret false
  | l :: ls =>
      fuel ← list_fuel;
      h ← gets (fun st => heads st l);
      p ← pcb_find fuel (bind_conflict ipaddr port) h;
      if p =? 0 then address_in_use ls ipaddr port else mret true
  end.

(** The address with a zone, when it should have one and has not. *)
Definition zoned (ipaddr : ip_addr) : act ip_addr :=
  if IP_IS_V6 ipaddr && ip6_addr_lacks_zone ipaddr true then
    netif ← ask (ip6_route ipaddr ipaddr);
    if netif =? 0 then mret (ip_addr_copy ipaddr)
    else
      idx ← ask (netif_get_index netif);
      mret (ip6_addr_set_zone (ip_addr_copy ipaddr) (if ip6_addr_has_scope ipaddr false then idx else 0))
  else mret ipaddr.

Definition tcp_bind (pcb : Z) (ipaddr : option ip_addr) (port : Z) : act Z :=
  let ipaddr := default IP4_ADDR_ANY ipaddr in
  if pcb =? 0 then mret ERR_ARG
  else
    b ← load pcb;
    if negb (bool_decide (state b = CLOSED)) then mret ERR_VAL
    else
      ipaddr ← zoned ipaddr;
      new ← (if port =? 0 then tcp_new_port else mret port);
      if new =? 0 then mret ERR_BUF
      else
        used ← (if port =? 0 then mret false else address_in_use tcp_pcb_lists ipaddr port);
        if used : bool then mret ERR_USE
        else
          (if negb (ip_addr_isany ipaddr) || negb (ip_type ipaddr =? ip_type (local_ip (ip b))) then
             store pcb (fun b => set_ip (set_local_ip (ip_addr_copy ipaddr) (ip b)) b)
           else mret tt) ;;
          store pcb (set_local_port new) ;;
          TCP_REG BOUND_PCBS pcb ;;
          mret ERR_OK.

(** ** Listening *)

(** [tcp_backlog_set]: a listener has room for at least one connection. *)
Definition tcp_backlog_set (new_backlog : Z) : Z := if new_backlog =? 0 then 1 else new_backlog.

(** The block of the listener, which takes over what it needs of the connection's. *)
Definition listener_of (lpcb backlog : Z) (b : tcp_pcb) : tcp_pcb :=
  TcpPcb
    (IpPcb (ip_addr_copy (local_ip (ip b))) (IP_SET_TYPE_VAL (raw_ip_addr lpcb) (ip_type (local_ip (ip b))))
       (netif_idx (ip b)) (so_options (ip b)) (tos (ip b)) (ttl (ip b)))
    0 (callback_arg b) LISTEN (prio b) (local_port b)
    (Listening (TcpListening FN_accept_null (tcp_backlog_set backlog) 0)).

(** The new block and [*err]. *)
Definition tcp_listen_with_backlog_and_err (pcb backlog : Z) : act (Z * Z) :=
  if pcb =? 0 then mret (0, ERR_ARG)
  else
    b ← load pcb;
    if negb (bool_decide (state b = CLOSED)) then mret (0, ERR_CLSD)
    else
      lpcb ← memp_malloc_lpcb;
      if lpcb =? 0 then mret (0, ERR_MEM)
      else
        (if local_port b =? 0 then mret tt else TCP_RMV BOUND_PCBS pcb) ;;
        tcp_free pcb ;;
        new_pcb lpcb (listener_of lpcb backlog b) ;;
        TCP_REG LISTEN_PCBS lpcb ;;
        mret (lpcb, ERR_OK).

Definition tcp_listen_with_backlog (pcb backlog : Z) : act Z :=
  '(lpcb, _) ← tcp_listen_with_backlog_and_err pcb backlog;
  mret lpcb.

(** ** The window for receiving *)

Definition tcp_update_rcv_ann_wnd (pcb : Z) : act Z :=
  c ← load_conn pcb;
  let t := tx c in
  let new_right_edge := u32 (tv t rcv_nxt + tv t rcv_wnd) in
  if TCP_SEQ_GEQ new_right_edge (u32 (tv t rcv_ann_right_edge + Z.min (TCP_WND / 2) (tv t mss))) then
    store_tv pcb rcv_ann_wnd (tv t rcv_wnd) ;;
    mret (u32 (new_right_edge - tv t rcv_ann_right_edge))
  else
    (if TCP_SEQ_GT (tv t rcv_nxt) (tv t rcv_ann_right_edge) then store_tv pcb rcv_ann_wnd 0
     else
       let new_rcv_ann_wnd := u32 (tv t rcv_ann_right_edge - tv t rcv_nxt) in
       ASSERT (new_rcv_ann_wnd <=? 65535) ;;
       store_tv pcb rcv_ann_wnd (u16 new_rcv_ann_wnd)) ;;
    mret 0.

Definition tcp_recved (pcb len : Z) : act unit :=
  if pcb =? 0 then mret tt
  else
    b ← load pcb;
    ASSERT (negb (bool_decide (state b = LISTEN))) ;;
    c ← load_conn pcb;
    let wnd := u16 (tv (tx c) rcv_wnd + len) in
    (if (TCP_WND <? wnd) || (wnd <? tv (tx c) rcv_wnd) then store_tv pcb rcv_wnd TCP_WND
     else store_tv pcb rcv_wnd wnd) ;;
    wnd_inflation ← tcp_update_rcv_ann_wnd pcb;
    if TCP_WND_UPDATE_THRESHOLD <=? wnd_inflation then
      store_conn pcb tcp_ack_now ;;
      tcp_output pcb ;; mret tt
    else mret tt.

(** [tcp_recv_null], what happens to data nobody takes. *)
Definition tcp_recv_null (pcb p err : Z) : act Z :=
  if pcb =? 0 then mret ERR_ARG
  else if negb (p =? 0) then
    tot_len ← ask (pbuf_tot_len p);
    tcp_recved pcb tot_len ;;
    effect (pbuf_free p) ;;
    mret ERR_OK
  else if err =? ERR_OK then tcp_close pcb
  else mret ERR_OK.

(** [tcp_accept_null]. *)
Definition tcp_accept_null (pcb : Z) : act Z :=
  ASSERT (negb (pcb =? 0)) ;;
  tcp_abort pcb ;;
  mret ERR_ABRT.

(** ** Connecting *)

Definition tcp_next_iss : act Z :=
  modify (fun st => set_iss (u32 (iss st + tcp_ticks st)) st) ;;
  gets iss.

(** The variables a connection starts with. *)
Definition connect_vars (i mss' : Z) (t : tcp_transfer) : tcp_transfer :=
  set_tv cwnd 1 (set_tv mss mss' (set_tv snd_wnd TCP_WND (set_tv rcv_ann_right_edge 0
    (set_tv rcv_ann_wnd TCP_WND (set_tv rcv_wnd TCP_WND (set_tv snd_lbb (u32 (i - 1))
      (set_tv snd_wl2 (u32 (i - 1)) (set_tv lastack (u32 (i - 1)) (set_tv snd_nxt i
        (set_tv rcv_nxt 0 t)))))))))).

Definition connect_zone (pcb netif : Z) : act unit :=
  b ← load pcb;
  let r := remote_ip (ip b) in
  if IP_IS_V6 r && ip6_addr_lacks_zone r true then
    idx ← ask (netif_get_index netif);
    store pcb (fun b => set_ip (set_remote_ip (ip6_addr_set_zone r (if ip6_addr_has_scope r true then idx else 0)) (ip b)) b)
  else mret tt.

Definition connect_syn (pcb netif old_local_port : Z) (connected : tcp_fn) : act Z :=
  i ← tcp_next_iss;
  b ← load pcb;
  mss' ← ask (tcp_eff_send_mss_netif INITIAL_MSS netif (remote_ip (ip b)));
  store_tx pcb (connect_vars i mss') ;;
  store_conn pcb (set_fn_connected connected) ;;
  ret ← tcp_enqueue_flags pcb TCP_SYN;
  (if ret =? ERR_OK then
     store pcb (set_state SYN_SENT) ;;
     (if old_local_port =? 0 then mret tt else TCP_RMV BOUND_PCBS pcb) ;;
     TCP_REG_ACTIVE pcb ;;
     tcp_output pcb ;; mret tt
   else mret tt) ;;
  mret ret.

Definition tcp_connect (pcb : Z) (ipaddr : option ip_addr) (port : Z) (connected : tcp_fn) : act Z :=
  match ipaddr with
  | None => mret ERR_ARG
  | Some ipaddr =>
      if pcb =? 0 then mret ERR_ARG
      else
        b ← load pcb;
        if negb (bool_decide (state b = CLOSED)) then mret ERR_ISCONN
        else
          store pcb (fun b => set_ip (set_remote_ip (ip_addr_copy ipaddr) (ip b)) b) ;;
          store_conn pcb (set_remote_port port) ;;
          netif ← (if negb (netif_idx (ip b) =? NETIF_NO_INDEX) then ask (netif_get_by_index (netif_idx (ip b)))
                   else ask (ip_route (local_ip (ip b)) (ip_addr_copy ipaddr)));
          if netif =? 0 then mret ERR_RTE
          else
            found ← take_local_ip pcb netif;
            if negb found then mret ERR_RTE
            else
              connect_zone pcb netif ;;
              let old_local_port := local_port b in
              new ← (if old_local_port =? 0 then tcp_new_port else mret old_local_port);
              (if old_local_port =? 0 then store pcb (set_local_port new) else mret tt) ;;
              if new =? 0 then mret ERR_BUF
              else connect_syn pcb netif old_local_port connected
  end.

(** ** Making room *)

(** [(u32_t)(tcp_ticks - pcb->tmr)]; listening blocks have no timer. *)
Definition inactivity_of (ticks : Z) (b : tcp_pcb) : Z :=
  match rest b with Conn c => u32 (ticks - tmr c) | Listening _ => 0 end.

(** The loops look for the block that has been inactive longest, the last one of
    several. *)
Definition oldest_step (test : tcp_pcb -> bool) (ticks : Z) (a : Z * Z) (p : Z) (b : tcp_pcb) : Z * Z :=
  let '(inactive, inactivity) := a in
  if test b && (inactivity <=? inactivity_of ticks b) then (p, inactivity_of ticks b) else a.

(** [inactive], [inactivity] and [mprio]. *)
Definition kill_prio_step (ticks : Z) (a : Z * Z * Z) (p : Z) (b : tcp_pcb) : Z * Z * Z :=
  let '(inactive, inactivity, mprio) := a in
  if (prio b <? mprio) || ((prio b =? mprio) && (inactivity <=? inactivity_of ticks b)) then
    (p, inactivity_of ticks b, prio b)
  else a.

Definition tcp_kill_prio (prio' : Z) : act unit :=
  let mprio := Z.min TCP_PRIO_MAX prio' in
  if mprio =? 0 then mret tt
  else
    fuel ← list_fuel;
    h ← gets (fun st => heads st ACTIVE_PCBS);
    ticks ← gets tcp_ticks;
    '(inactive, _, _) ← pcb_fold fuel (kill_prio_step ticks) (0, 0, mprio - 1) h;
    if inactive =? 0 then mret tt else tcp_abort inactive.

Definition tcp_kill_state (s : tcp_state) : act unit :=
  ASSERT (bool_decide (s = CLOSING) || bool_decide (s = LAST_ACK)) ;;
  fuel ← list_fuel;
  h ← gets (fun st => heads st ACTIVE_PCBS);
  ticks ← gets tcp_ticks;
  '(inactive, _) ← pcb_fold fuel (oldest_step (fun b => bool_decide (state b = s)) ticks) (0, 0) h;
  if inactive =? 0 then mret tt else tcp_abandon inactive false.

Definition tcp_kill_timewait : act unit :=
  fuel ← list_fuel;
  h ← gets (fun st => heads st TW_PCBS);
  ticks ← gets tcp_ticks;
  '(inactive, _) ← pcb_fold fuel (oldest_step (fun _ => true) ticks) (0, 0) h;
  if inactive =? 0 then mret tt else tcp_abort inactive.

Fixpoint closepend_loop (fuel : nat) (pcb : Z) : act unit :=
  match fuel with
  | O => lift NoFuel
  | S fuel =>
      if pcb =? 0 then mret tt
      else
        b ← load pcb;
        c ← load_conn pcb;
        (if tcp_is_flag_set c TF_CLOSEPEND then
           store_conn pcb (tcp_clear_flags TF_CLOSEPEND) ;;
           tcp_close_shutdown_fin pcb ;; mret tt
         else mret tt) ;;
        closepend_loop fuel (next b)
  end.
Definition tcp_handle_closepend : act unit :=
  fuel ← list_fuel;
  h ← gets (fun st => heads st ACTIVE_PCBS);
  closepend_loop fuel h.

(** ** Allocating *)

(** The block after [memset] and the assignments that follow. *)
Definition initial_vars (x : tcp_var) : Z :=
  match x with
  | snd_buf => TCP_SND_BUF
  | rcv_wnd | rcv_ann_wnd => TCP_WND
  | mss => INITIAL_MSS
  | rto | sv => 3000 / TCP_SLOW_INTERVAL
  | rtime => -1
  | cwnd => 1
  | ssthresh => TCP_SND_BUF
  | keep_idle => 7200000
  | _ => 0
  end.
Definition initial_pcb (prio' ticks timer_ctr : Z) : tcp_pcb :=
  let zero := IpAddr (fun _ => 0) 0 in
  TcpPcb (IpPcb zero zero 0 0 0 TCP_TTL) 0 0 CLOSED prio' 0
    (Conn (TcpConn 0 0 0 timer_ctr ticks (TcpTransfer initial_vars [] [] []) 0 0
       FN_NULL FN_recv_null FN_NULL FN_NULL FN_NULL)).

(** [pcb = memp_malloc()] again after [room] was made, if there was none. *)
Definition or_after (pcb : Z) (room : act unit) : act Z :=
  if pcb =? 0 then room ;; memp_malloc_pcb else mret pcb.

Definition tcp_alloc (prio' : Z) : act Z :=
  pcb ← memp_malloc_pcb;
  pcb ← or_after pcb (tcp_handle_closepend ;; tcp_kill_timewait);
  pcb ← or_after pcb (tcp_kill_state LAST_ACK);
  pcb ← or_after pcb (tcp_kill_state CLOSING);
  pcb ← or_after pcb (tcp_kill_prio prio');
  if pcb =? 0 then mret 0
  else
    ticks ← gets tcp_ticks;
    ctr ← gets tcp_timer_ctr;
    new_pcb pcb (initial_pcb prio' ticks ctr) ;;
    mret pcb.

Definition tcp_new : act Z := tcp_alloc TCP_PRIO_NORMAL.
Definition tcp_new_ip_type (type : Z) : act Z :=
  pcb ← tcp_alloc TCP_PRIO_NORMAL;
  (if pcb =? 0 then mret tt
   else store pcb (fun b => set_ip (set_remote_ip (IP_SET_TYPE_VAL (remote_ip (ip b)) type)
                                     (set_local_ip (IP_SET_TYPE_VAL (local_ip (ip b)) type) (ip b))) b)) ;;
  mret pcb.

(** ** Members the application sets *)

Definition tcp_setprio (pcb prio' : Z) : act unit := if pcb =? 0 then mret tt else store pcb (set_prio prio').
Definition tcp_arg (pcb arg : Z) : act unit := if pcb =? 0 then mret tt else store pcb (set_callback_arg arg).

(** [tcp_recv], [tcp_sent], [tcp_err] and [tcp_poll]: not on a listener. *)
Definition set_callback (pcb : Z) (f : tcp_conn -> tcp_conn) : act unit :=
  if pcb =? 0 then mret tt
  else
    b ← load pcb;
    ASSERT (negb (bool_decide (state b = LISTEN))) ;;
    store_conn pcb f.
Definition tcp_recv (pcb : Z) (recv : tcp_fn) : act unit := set_callback pcb (set_fn_recv recv).
Definition tcp_sent (pcb : Z) (sent : tcp_fn) : act unit := set_callback pcb (set_fn_sent sent).
Definition tcp_err (pcb : Z) (err : tcp_fn) : act unit := set_callback pcb (set_fn_errf err).
Definition tcp_poll (pcb : Z) (poll : tcp_fn) (interval : Z) : act unit := set_callback pcb (set_poll poll interval).
Definition tcp_nagle_disable (pcb : Z) : act unit := store_conn pcb (tcp_set_flags TF_NODELAY).

(** [tcp_accept]: only on a listener. *)
Definition tcp_accept (pcb : Z) (accept : tcp_fn) : act unit :=
  if pcb =? 0 then mret tt
  else
    b ← load pcb;
    if bool_decide (state b = LISTEN) then store_listening pcb (set_fn_accept accept) else mret tt.
End tcp.
