(* ===== verification/TcpIn.v ===== *)
(** * Receiving in TCP ([lwip/src/core/tcp_in.c])

    A segment is given to the connection it belongs to, or to a listener, which
    makes a new connection of a SYN; [tcp_process] is the state machine of a
    connection.  On the way the application is called back.  What it does is an
    argument, the class [TcpApp]: an action on the whole state, with an answer.

    [tcp_input] starts where the header has been checked and converted.  Of
    [tcp_receive], which trims the data and keeps the queues, the effect on the
    connection is an argument ([receive_data]).  The flag PUSH of a buffer is left
    out. *)
From S2P Require Import Prelude ByteOrder Lwip Pbuf ChecksumPbuf TcpPcb TcpOut Tcp.

(** A call of a callback: the function, its argument and the rest. *)
Inductive tcp_event :=
  | EvAccept (f : tcp_fn) (arg newpcb err : Z)
  | EvRecv (f : tcp_fn) (arg pcb p err : Z)
  | EvSent (f : tcp_fn) (arg pcb len : Z)
  | EvConnected (f : tcp_fn) (arg pcb err : Z).

Class TcpApp (E : Type) := { app_event : tcp_event -> tcpM E Z }.

Definition TCP_SYNMAXRTX : Z := 4.
Definition LWIP_TCP_CALC_INITIAL_CWND (mss' : Z) : Z := u16 (Z.min (u32 (4 * mss')) (Z.max (u32 (2 * mss')) 4380)).

(** [recv_acked], [recv_data] and [inseg.p]. *)
Record recv_globals := RecvGlobals { recv_acked : Z; recv_data : Z; inseg_p : Z }.
Definition nothing_received (s : tcp_segment_in) : recv_globals := RecvGlobals 0 0 (in_p s).

(** [tcplen]: SYN and FIN count. *)
Definition tcplen (s : tcp_segment_in) : Z :=
  if has (in_flags s) (Z.lor TCP_FIN TCP_SYN) then u16 (in_tot_len s + 1) else in_tot_len s.

Section tcp_in.
Context {E : Type} `{!TcpEnv E} `{!TcpApp E}.
Notation act := (tcpM E).

(** ** Calling back *)

Definition TCP_EVENT_ACCEPT (lpcb pcb arg err : Z) : act Z :=
  l ← load_listening lpcb;
  match fn_accept l with
  | FN_NULL => mret ERR_ARG
  | FN_accept_null => tcp_accept_null pcb
  | f => app_event (EvAccept f arg pcb err)
  end.
Definition TCP_EVENT_SENT (pcb space : Z) : act Z :=
  b ← load pcb;
  c ← load_conn pcb;
  match fn_sent c with
  | FN_NULL => mret ERR_OK
  | f => app_event (EvSent f (callback_arg b) pcb space)
  end.
Definition TCP_EVENT_RECV (pcb p err : Z) : act Z :=
  b ← load pcb;
  c ← load_conn pcb;
  match fn_recv c with
  | FN_NULL | FN_recv_null => tcp_recv_null pcb p err
  | f => app_event (EvRecv f (callback_arg b) pcb p err)
  end.
Definition TCP_EVENT_CLOSED (pcb : Z) : act Z :=
  b ← load pcb;
  c ← load_conn pcb;
  match fn_recv c with
  | FN_NULL => mret ERR_OK
  | FN_recv_null => tcp_recv_null pcb 0 ERR_OK
  | f => app_event (EvRecv f (callback_arg b) pcb 0 ERR_OK)
  end.
Definition TCP_EVENT_CONNECTED (pcb err : Z) : act Z :=
  b ← load pcb;
  c ← load_conn pcb;
  match fn_connected c with
  | FN_NULL => mret ERR_OK
  | f => app_event (EvConnected f (callback_arg b) pcb err)
  end.

(** [rcv_wnd] corrected for the sequence number of a FIN, and the event. *)
Definition fin_received (pcb : Z) : act Z :=
  c ← load_conn pcb;
  (if tv (tx c) rcv_wnd =? TCP_WND then mret tt else store_tv pcb rcv_wnd (u16 (tv (tx c) rcv_wnd + 1))) ;;
  TCP_EVENT_CLOSED pcb.

(** Data that was refused is offered again ([tcp.c]). *)
Definition tcp_process_refused_data (pcb : Z) : act Z :=
  if pcb =? 0 then mret ERR_ARG
  else
    c ← load_conn pcb;
    let refused := refused_data c in
    refused_fin ← ask (pbuf_flag_fin refused);
    store_conn pcb (set_refused_data 0) ;;
    err ← TCP_EVENT_RECV pcb refused ERR_OK;
    if err =? ERR_OK then
      if refused_fin : bool then
        err ← fin_received pcb;
        mret (if err =? ERR_ABRT then ERR_ABRT else ERR_OK)
      else mret ERR_OK
    else if err =? ERR_ABRT then mret ERR_ABRT
    else
      store_conn pcb (set_refused_data refused) ;;
      mret (-5).

(** ** Segments for the states without data *)

Definition tcp_parseopt (s : tcp_segment_in) (pcb : Z) : act unit :=
  m ← ask (parse_mss s);
  match m with Some m => store_tv pcb mss m | None => mret tt end.

(** The block of a connection that a SYN opens; [i] is its first sequence number. *)
Definition passive_pcb (s : tcp_segment_in) (pcb i : Z) (l b : tcp_pcb) (c : tcp_conn) : tcp_pcb :=
  let t := set_tv snd_wl1 (u32 (in_seqno s - 1)) (set_tv snd_lbb i (set_tv lastack i (set_tv snd_nxt i
    (set_tv snd_wl2 i (set_tv rcv_ann_right_edge (u32 (in_seqno s + 1)) (set_tv rcv_nxt (u32 (in_seqno s + 1)) (tx c))))))) in
  TcpPcb
    (IpPcb (ip_addr_copy (current_dest s)) (ip_addr_copy (current_src s)) (netif_idx (ip l))
       (Z.land (so_options (ip l)) SOF_INHERITED) (tos (ip b)) (ttl (ip b)))
    (next b) (callback_arg l) SYN_RCVD (prio b) (local_port l)
    (Conn (set_listener pcb (set_remote_port (in_src s) (tcp_set_flags TF_BACKLOGPEND (set_tx t c))))).

Definition tcp_listen_input (s : tcp_segment_in) (pcb : Z) : act unit :=
  if has (in_flags s) TCP_RST then mret tt
  else if has (in_flags s) TCP_ACK then
    effect (tcp_rst_netif (in_netif s) (in_ackno s) (u32 (in_seqno s + tcplen s)) (current_dest s) (current_src s)
      (in_dest s) (in_src s))
  else if has (in_flags s) TCP_SYN then
    lb ← load pcb;
    l ← load_listening pcb;
    if backlog l <=? accepts_pending l then mret tt
    else
      npcb ← tcp_alloc (prio lb);
      if npcb =? 0 then
        TCP_EVENT_ACCEPT pcb 0 (callback_arg lb) ERR_MEM ;; mret tt
      else
        store_listening pcb (fun l => set_accepts_pending (u8 (accepts_pending l + 1)) l) ;;
        i ← tcp_next_iss;
        c ← load_conn npcb;
        store npcb (fun b => passive_pcb s pcb i lb b c) ;;
        TCP_REG_ACTIVE npcb ;;
        tcp_parseopt s npcb ;;
        store_tx npcb (fun t => set_tv snd_wnd_max (in_wnd s) (set_tv snd_wnd (in_wnd s) t)) ;;
        nb ← load npcb;
        nc ← load_conn npcb;
        netif ← ask (ip_route (local_ip (ip nb)) (remote_ip (ip nb)));
        m ← ask (tcp_eff_send_mss_netif (tv (tx nc) mss) netif (remote_ip (ip nb)));
        store_tv npcb mss m ;;
        rc ← tcp_enqueue_flags npcb (Z.lor TCP_SYN TCP_ACK);
        if negb (rc =? ERR_OK) then tcp_abandon npcb false
        else tcp_output npcb ;; mret tt
  else mret tt.

Definition rst_for (s : tcp_segment_in) : act unit :=
  effect (tcp_rst (in_ackno s) (u32 (in_seqno s + tcplen s)) (current_dest s) (current_src s) (in_dest s) (in_src s)).

Definition tcp_timewait_input (s : tcp_segment_in) (pcb : Z) : act unit :=
  if has (in_flags s) TCP_RST then mret tt
  else
    c ← load_conn pcb;
    let rcv := tv (tx c) rcv_nxt in
    if has (in_flags s) TCP_SYN
       && TCP_SEQ_BETWEEN (in_seqno s) rcv (u32 (rcv + tv (tx c) rcv_wnd)) then rst_for s
    else
      ticks ← gets tcp_ticks;
      (if negb (has (in_flags s) TCP_SYN) && has (in_flags s) TCP_FIN then store_conn pcb (set_tmr ticks)
       else mret tt) ;;
      if 0 <? tcplen s then
        store_conn pcb tcp_ack_now ;;
        tcp_output pcb ;; mret tt
      else mret tt.

(** ** The state machine *)

(** [TCP_STATE >= ESTABLISHED]. *)
Definition synchronized (st : tcp_state) : bool :=
  match st with CLOSED | LISTEN | SYN_SENT | SYN_RCVD => false | _ => true end.

Definition tcp_receive (s : tcp_segment_in) (pcb : Z) : act recv_globals :=
  b ← load pcb;
  c ← load_conn pcb;
  ASSERT (synchronized (state b)) ;;
  r ← call (receive_data s b);
  store_conn pcb (fun c => set_tx (rx_transfer r) (set_flags (merge_flags (flags c) (rx_flags r)) c)) ;;
  (if rx_got_fin r then modify (fun st => set_recv_flags (Z.lor (recv_flags st) TF_GOT_FIN) st) else mret tt) ;;
  (if rx_close_wait r && bool_decide (state b = ESTABLISHED) then store pcb (set_state CLOSE_WAIT) else mret tt) ;;
  mret (RecvGlobals (rx_recv_acked r) (rx_recv_data r) (rx_inseg_p r)).

Definition got_fin : act bool := gets (fun st => has (recv_flags st) TF_GOT_FIN).
Definition ack_now (pcb : Z) : act unit := store_conn pcb tcp_ack_now.

(** Both sides have closed: the connection waits for two segment lifetimes. *)
Definition enter_time_wait (pcb : Z) : act unit :=
  tcp_pcb_purge pcb ;;
  TCP_RMV_ACTIVE pcb ;;
  store pcb (set_state TIME_WAIT) ;;
  TCP_REG TW_PCBS pcb.

(** [(flags & TCP_ACK) && (ackno == pcb->snd_nxt) && pcb->unsent == NULL]: our FIN
    is acknowledged. *)
Definition fin_acked (s : tcp_segment_in) (pcb : Z) : act bool :=
  c ← load_conn pcb;
  mret (has (in_flags s) TCP_ACK && (in_ackno s =? tv (tx c) snd_nxt) && is_nil (unsent (tx c))).

(** A RST. *)
Definition process_rst (s : tcp_segment_in) (pcb : Z) : act Z :=
  b ← load pcb;
  c ← load_conn pcb;
  let rcv := tv (tx c) rcv_nxt in
  let acceptable :=
    if bool_decide (state b = SYN_SENT) then in_ackno s =? tv (tx c) snd_nxt
    else in_seqno s =? rcv in
  (if negb (bool_decide (state b = SYN_SENT)) && negb (in_seqno s =? rcv)
      && TCP_SEQ_BETWEEN (in_seqno s) rcv (u32 (rcv + tv (tx c) rcv_wnd))
   then ack_now pcb else mret tt) ;;
  if acceptable then
    ASSERT (negb (bool_decide (state b = CLOSED))) ;;
    modify (fun st => set_recv_flags (Z.lor (recv_flags st) TF_RESET) st) ;;
    store_conn pcb (tcp_clear_flags TF_ACK_DELAY) ;;
    mret ERR_RST
  else mret ERR_OK.

(** The SYN of an active open has been answered. *)
Definition process_syn_sent (s : tcp_segment_in) (pcb : Z) : act Z :=
  c ← load_conn pcb;
  if has (in_flags s) TCP_ACK && has (in_flags s) TCP_SYN && (in_ackno s =? u32 (tv (tx c) lastack + 1)) then
    store_tx pcb (fun t =>
      set_tv snd_wl1 (u32 (in_seqno s - 1)) (set_tv snd_wnd_max (in_wnd s) (set_tv snd_wnd (in_wnd s)
        (set_tv lastack (in_ackno s) (set_tv rcv_ann_right_edge (u32 (in_seqno s + 1))
          (set_tv rcv_nxt (u32 (in_seqno s + 1)) t)))))) ;;
    store pcb (set_state ESTABLISHED) ;;
    b ← load pcb;
    netif ← ask (ip_route (local_ip (ip b)) (remote_ip (ip b)));
    m ← ask (tcp_eff_send_mss_netif (tv (tx c) mss) netif (remote_ip (ip b)));
    store_tx pcb (fun t => set_tv cwnd (LWIP_TCP_CALC_INITIAL_CWND m) (set_tv mss m t)) ;;
    ASSERT (0 <? tv (tx c) snd_queuelen) ;;
    store_tv pcb snd_queuelen (tv (tx c) snd_queuelen - 1) ;;
    match unacked (tx c), unsent (tx c) with
    | rseg :: q, _ =>
        store_tx pcb (set_unacked q) ;;
        effect (tcp_seg_free rseg) ;;
        (if is_nil q then store_tv pcb rtime (-1) else store_tx pcb (fun t => set_tv nrtx 0 (set_tv rtime 0 t)))
    | [], rseg :: q =>
        store_tx pcb (set_unsent q) ;;
        effect (tcp_seg_free rseg) ;;
        store_tv pcb rtime (-1)
    | [], [] => ASSERT false
    end ;;
    err ← TCP_EVENT_CONNECTED pcb ERR_OK;
    if err =? ERR_ABRT then mret ERR_ABRT
    else
      ack_now pcb ;;
      mret ERR_OK
  else if has (in_flags s) TCP_ACK then
    rst_for s ;;
    (if tv (tx c) nrtx <? TCP_SYNMAXRTX then
       store_tv pcb rtime 0 ;;
       tcp_rexmit_rto pcb
     else mret tt) ;;
    mret ERR_OK
  else mret ERR_OK.

(** The third segment of the handshake: the application is asked to accept. *)
Definition accept_event (pcb : Z) : act Z :=
  c ← load_conn pcb;
  if listener c =? 0 then mret ERR_VAL
  else
    l ← load_listening (listener c);
    ASSERT (match fn_accept l with FN_NULL => false | _ => true end) ;;
    tcp_backlog_accepted pcb ;;
    b ← load pcb;
    TCP_EVENT_ACCEPT (listener c) pcb (callback_arg b) ERR_OK.

Definition process_syn_rcvd (s : tcp_segment_in) (pcb : Z) : act (Z * recv_globals) :=
  c ← load_conn pcb;
  if has (in_flags s) TCP_SYN then
    (if in_seqno s =? u32 (tv (tx c) rcv_nxt - 1) then tcp_rexmit pcb ;; mret tt else mret tt) ;;
    mret (ERR_OK, nothing_received s)
  else if has (in_flags s) TCP_ACK then
    if TCP_SEQ_BETWEEN (in_ackno s) (u32 (tv (tx c) lastack + 1)) (tv (tx c) snd_nxt) then
      store pcb (set_state ESTABLISHED) ;;
      err ← accept_event pcb;
      if negb (err =? ERR_OK) then
        (if negb (err =? ERR_ABRT) then tcp_abort pcb else mret tt) ;;
        mret (ERR_ABRT, nothing_received s)
      else
        r ← tcp_receive s pcb;
        store_tx pcb (fun t => set_tv cwnd (LWIP_TCP_CALC_INITIAL_CWND (tv t mss)) t) ;;
        fin ← got_fin;
        (if fin : bool then ack_now pcb ;; store pcb (set_state CLOSE_WAIT) else mret tt) ;;
        mret (ERR_OK, RecvGlobals (if recv_acked r =? 0 then 0 else recv_acked r - 1) (recv_data r) (inseg_p r))
    else
      rst_for s ;;
      mret (ERR_OK, nothing_received s)
  else mret (ERR_OK, nothing_received s).

(** The states with data; [close] is what the received segment means for them. *)
Definition receive_then (s : tcp_segment_in) (pcb : Z) (close : act unit) : act (Z * recv_globals) :=
  r ← tcp_receive s pcb;
  close ;;
  mret (ERR_OK, r).

Definition established_close (pcb : Z) : act unit :=
  fin ← got_fin;
  if fin : bool then ack_now pcb ;; store pcb (set_state CLOSE_WAIT) else mret tt.
Definition fin_wait_1_close (s : tcp_segment_in) (pcb : Z) : act unit :=
  fin ← got_fin;
  acked ← fin_acked s pcb;
  if fin : bool then
    if acked : bool then ack_now pcb ;; enter_time_wait pcb
    else ack_now pcb ;; store pcb (set_state CLOSING)
  else if acked : bool then store pcb (set_state FIN_WAIT_2)
  else mret tt.
Definition fin_wait_2_close (pcb : Z) : act unit :=
  fin ← got_fin;
  if fin : bool then ack_now pcb ;; enter_time_wait pcb else mret tt.
Definition closing_close (s : tcp_segment_in) (pcb : Z) : act unit :=
  acked ← fin_acked s pcb;
  if acked : bool then enter_time_wait pcb else mret tt.
Definition last_ack_close (s : tcp_segment_in) (pcb : Z) : act unit :=
  acked ← fin_acked s pcb;
  if acked : bool then modify (fun st => set_recv_flags (Z.lor (recv_flags st) TF_CLOSED) st) else mret tt.

Definition tcp_process (s : tcp_segment_in) (pcb : Z) : act (Z * recv_globals) :=
  b ← load pcb;
  if has (in_flags s) TCP_RST then
    err ← process_rst s pcb;
    mret (err, nothing_received s)
  else if has (in_flags s) TCP_SYN && negb (bool_decide (state b = SYN_SENT)) && negb (bool_decide (state b = SYN_RCVD)) then
    ack_now pcb ;;
    mret (ERR_OK, nothing_received s)
  else
    c ← load_conn pcb;
    ticks ← gets tcp_ticks;
    (if tcp_is_flag_set c TF_RXCLOSED then mret tt else store_conn pcb (set_tmr ticks)) ;;
    store_tx pcb (fun t => set_tv persist_probe 0 (set_tv keep_cnt_sent 0 t)) ;;
    tcp_parseopt s pcb ;;
    match state b with
    | SYN_SENT => err ← process_syn_sent s pcb; mret (err, nothing_received s)
    | SYN_RCVD => process_syn_rcvd s pcb
    | CLOSE_WAIT | ESTABLISHED => receive_then s pcb (established_close pcb)
    | FIN_WAIT_1 => receive_then s pcb (fin_wait_1_close s pcb)
    | FIN_WAIT_2 => receive_then s pcb (fin_wait_2_close pcb)
    | CLOSING => receive_then s pcb (closing_close s pcb)
    | LAST_ACK => receive_then s pcb (last_ack_close s pcb)
    | CLOSED | LISTEN | TIME_WAIT => mret (ERR_OK, nothing_received s)
    end.

(** ** Finding the connection *)

(** Bound to an interface that is not the segment's. *)
Definition other_netif (s : tcp_segment_in) (b : tcp_pcb) : act bool :=
  idx ← ask (netif_get_index (in_netif s));
  mret (negb (netif_idx (ip b) =? NETIF_NO_INDEX) && negb (netif_idx (ip b) =? idx)).

Definition pcb_matches (s : tcp_segment_in) (b : tcp_pcb) (c : tcp_conn) : bool :=
  (remote_port c =? in_src s) && (local_port b =? in_dest s)
  && ip_addr_eq (remote_ip (ip b)) (current_src s) && ip_addr_eq (local_ip (ip b)) (current_dest s).

(** The block goes to the front of its list; [prev] is the one before it. *)
Definition move_to_front (l : pcb_list) (prev pcb : Z) : act unit :=
  if prev =? 0 then mret tt
  else
    b ← load pcb;
    store prev (set_next (next b)) ;;
    h ← gets (fun st => heads st l);
    store pcb (set_next h) ;;
    modify (set_head l pcb).

Definition not_itself (pcb : Z) : act unit :=
  b ← load pcb;
  ASSERT (negb (next b =? pcb)).

Fixpoint find_active (fuel : nat) (s : tcp_segment_in) (pcb prev : Z) : act Z :=
  match fuel with
  | O => lift NoFuel
  | S fuel =>
      if pcb =? 0 then mret 0
      else
        b ← load pcb;
        ASSERT (negb (bool_decide (state b = CLOSED))) ;;
        ASSERT (negb (bool_decide (state b = TIME_WAIT))) ;;
        ASSERT (negb (bool_decide (state b = LISTEN))) ;;
        c ← load_conn pcb;
        other ← other_netif s b;
        if negb other && pcb_matches s b c then
          not_itself pcb ;;
          move_to_front ACTIVE_PCBS prev pcb ;;
          not_itself pcb ;;
          mret pcb
        else find_active fuel s (next b) pcb
  end.

Fixpoint find_time_wait (fuel : nat) (s : tcp_segment_in) (pcb : Z) : act Z :=
  match fuel with
  | O => lift NoFuel
  | S fuel =>
      if pcb =? 0 then mret 0
      else
        b ← load pcb;
        ASSERT (bool_decide (state b = TIME_WAIT)) ;;
        c ← load_conn pcb;
        other ← other_netif s b;
        if negb other && pcb_matches s b c then mret pcb
        else find_time_wait fuel s (next b)
  end.

Definition listener_matches (s : tcp_segment_in) (b : tcp_pcb) : bool :=
  (local_port b =? in_dest s)
  && (IP_IS_ANY_TYPE_VAL (local_ip (ip b))
      || ((ip_type (local_ip (ip b)) =? ip_type (current_dest s))
          && (ip_addr_eq (local_ip (ip b)) (current_dest s) || ip_addr_isany (local_ip (ip b))))).

Fixpoint find_listener (fuel : nat) (s : tcp_segment_in) (lpcb prev : Z) : act Z :=
  match fuel with
  | O => lift NoFuel
  | S fuel =>
      if lpcb =? 0 then mret 0
      else
        b ← load lpcb;
        other ← other_netif s b;
        if negb other && listener_matches s b then
          move_to_front LISTEN_PCBS prev lpcb ;;
          mret lpcb
        else find_listener fuel s (next b) lpcb
  end.

(** ** A segment for a connection *)

Definition tcp_input_delayed_close (pcb : Z) : act bool :=
  closed ← gets (fun st => has (recv_flags st) TF_CLOSED);
  if closed : bool then
    b ← load pcb;
    c ← load_conn pcb;
    (if tcp_is_flag_set c TF_RXCLOSED then mret tt else TCP_EVENT_ERR (fn_errf c) (callback_arg b) ERR_CLSD) ;;
    tcp_pcb_remove ACTIVE_PCBS pcb ;;
    tcp_free pcb ;;
    mret true
  else mret false.

(** The data received goes to the application; [true] is [goto aborted]. *)
Definition deliver_data (pcb data : Z) : act bool :=
  if data =? 0 then mret false
  else
    c ← load_conn pcb;
    ASSERT (refused_data c =? 0) ;;
    if tcp_is_flag_set c TF_RXCLOSED then
      effect (pbuf_free data) ;;
      tcp_abort pcb ;;
      mret true
    else
      err ← TCP_EVENT_RECV pcb data ERR_OK;
      if err =? ERR_ABRT then mret true
      else
        (if err =? ERR_OK then mret tt else store_conn pcb (set_refused_data data)) ;;
        mret false.

Definition deliver_fin (pcb : Z) : act bool :=
  fin ← got_fin;
  if fin : bool then
    c ← load_conn pcb;
    if refused_data c =? 0 then
      err ← fin_received pcb;
      mret (err =? ERR_ABRT)
    else
      effect (set_pbuf_flag_fin (refused_data c)) ;;
      mret false
  else mret false.

(** What follows [tcp_process] when the connection is still there. *)
Definition input_tail (pcb acked data : Z) : act unit :=
  aborted ← (if 0 <? acked then err ← TCP_EVENT_SENT pcb (u16 acked); mret (err =? ERR_ABRT) else mret false);
  if aborted : bool then mret tt
  else
    closed ← tcp_input_delayed_close pcb;
    if closed : bool then mret tt
    else
      aborted ← deliver_data pcb data;
      if aborted : bool then mret tt
      else
        aborted ← deliver_fin pcb;
        if aborted : bool then mret tt
        else
          modify (set_tcp_input_pcb 0) ;;
          closed ← tcp_input_delayed_close pcb;
          if closed : bool then mret tt
          else tcp_output pcb ;; mret tt.

(** The answer is [inseg.p], for the end. *)
Definition input_process (s : tcp_segment_in) (pcb : Z) : act Z :=
  modify (set_tcp_input_pcb pcb) ;;
  '(err, r) ← tcp_process s pcb;
  (if err =? ERR_ABRT then mret tt
  else
    reset ← gets (fun st => has (recv_flags st) TF_RESET);
    if reset : bool then
      b ← load pcb;
      c ← load_conn pcb;
      TCP_EVENT_ERR (fn_errf c) (callback_arg b) ERR_RST ;;
      tcp_pcb_remove ACTIVE_PCBS pcb ;;
      tcp_free pcb
    else input_tail pcb (recv_acked r) (recv_data r)) ;;
  mret (inseg_p r).

(** Data refused before is offered first; [true] when the segment is dropped. *)
Definition input_refused (s : tcp_segment_in) (pcb : Z) : act bool :=
  c ← load_conn pcb;
  if refused_data c =? 0 then mret false
  else
    err ← tcp_process_refused_data pcb;
    c ← load_conn pcb;
    if (err =? ERR_ABRT) || (negb (refused_data c =? 0) && (0 <? tcplen s)) then
      (if tv (tx c) rcv_ann_wnd =? 0 then tcp_send_empty_ack pcb ;; mret tt else mret tt) ;;
      mret true
    else mret false.

Definition input_connection (s : tcp_segment_in) (pcb : Z) : act unit :=
  modify (set_recv_flags 0) ;;
  dropped ← input_refused s pcb;
  p ← (if dropped : bool then mret (in_p s) else input_process s pcb);
  modify (set_tcp_input_pcb 0) ;;
  if p =? 0 then mret tt else effect (pbuf_free p).

Definition tcp_input (s : tcp_segment_in) : act unit :=
  if tcplen s <? in_tot_len s then effect (pbuf_free (in_p s))
  else
    fuel ← list_fuel;
    h ← gets heads;
    pcb ← find_active fuel s (h ACTIVE_PCBS) 0;
    if negb (pcb =? 0) then input_connection s pcb
    else
      pcb ← find_time_wait fuel s (h TW_PCBS);
      if negb (pcb =? 0) then
        tcp_timewait_input s pcb ;;
        effect (pbuf_free (in_p s))
      else
        lpcb ← find_listener fuel s (h LISTEN_PCBS) 0;
        if negb (lpcb =? 0) then
          tcp_listen_input s lpcb ;;
          effect (pbuf_free (in_p s))
        else
          (if has (in_flags s) TCP_RST then mret tt
           else effect (tcp_rst_netif (in_netif s) (in_ackno s) (u32 (in_seqno s + tcplen s)) (current_dest s)
                  (current_src s) (in_dest s) (in_src s))) ;;
          effect (pbuf_free (in_p s)).
End tcp_in.
