(* ===== verification/TcpWp.v ===== *)
(** * Reasoning about actions on the blocks of TCP

    [wp m Q st]: from [st] the action [m] returns, with a result and a state for
    which [Q] holds; so it reaches nothing undefined and fails no assertion.
    A [quiet] step touches one block, and nothing in it the lists or the
    accounting of the backlog depend on: sending, for example, is quiet. *)
From S2P Require Import Prelude ByteOrder Lwip Pbuf ChecksumPbuf TcpPcb TcpOut.

Section wp.
Context {E : Type}.
Implicit Types (st : tcp E).

Definition wp {A} (m : tcpM E A) (Q : A -> tcp E -> Prop) st : Prop :=
  exists a st', m st = Ret (a, st') /\ Q a st'.

Lemma wp_mono {A} (m : tcpM E A) (Q Q' : A -> tcp E -> Prop) st :
  wp m Q st -> (forall a st', Q a st' -> Q' a st') -> wp m Q' st.
Proof. intros (a & st' & Hm & HQ) H. exists a, st'. auto. Qed.

Lemma wp_ret {A} (a : A) (Q : A -> tcp E -> Prop) st : Q a st -> wp (mret a) Q st.
Proof. intros. by exists a, st. Qed.

Lemma wp_bind {A B} (m : tcpM E A) (k : A -> tcpM E B) (Q : B -> tcp E -> Prop) st :
  wp m (fun a => wp (k a) Q) st -> wp (m ≫= k) Q st.
Proof.
  intros (a & st' & Hm & b & st'' & Hk & HQ). exists b, st''. split; [|done].
  unfold mbind, tcpM_bind. by rewrite Hm.
Qed.

Lemma wp_gets {A} (f : tcp E -> A) (Q : A -> tcp E -> Prop) st : Q (f st) st -> wp (gets f) Q st.
Proof. intros. by exists (f st), st. Qed.
Lemma wp_modify (f : tcp E -> tcp E) (Q : unit -> tcp E -> Prop) st : Q tt (f st) -> wp (modify f) Q st.
Proof. intros. by exists tt, (f st). Qed.
Lemma wp_effect (f : E -> E) (Q : unit -> tcp E -> Prop) st :
  Q tt (set_env (f (env st)) st) -> wp (effect f) Q st.
Proof. apply wp_modify. Qed.
Lemma wp_ask {A} (f : E -> A) (Q : A -> tcp E -> Prop) st : Q (f (env st)) st -> wp (ask f) Q st.
Proof. intros. by apply wp_gets. Qed.
Lemma wp_call {A} (f : E -> A * E) (Q : A -> tcp E -> Prop) st :
  (forall a e, Q a (set_env e st)) -> wp (call f) Q st.
Proof. intros H. unfold wp, call. destruct (f (env st)) as [a e]. exists a, (set_env e st). auto. Qed.
Lemma wp_ASSERT (b : bool) (Q : unit -> tcp E -> Prop) st : b = true -> Q tt st -> wp (ASSERT b) Q st.
Proof. intros -> ?. by exists tt, st. Qed.
Lemma wp_load p b (Q : tcp_pcb -> tcp E -> Prop) st :
  pcbs st !! p = Some b -> Q b st -> wp (load p) Q st.
Proof. intros Hp HQ. exists b, st. unfold load. by rewrite Hp. Qed.
Lemma wp_store p f b (Q : unit -> tcp E -> Prop) st :
  pcbs st !! p = Some b -> Q tt (set_pcbs (<[p := f b]> (pcbs st)) st) -> wp (store p f) Q st.
Proof. intros Hp HQ. apply wp_bind, (wp_load p b); [done|]. by apply wp_modify. Qed.
Lemma wp_load_conn p b c (Q : tcp_conn -> tcp E -> Prop) st :
  pcbs st !! p = Some b -> rest b = Conn c -> Q c st -> wp (load_conn p) Q st.
Proof.
  intros Hp Hb HQ. apply wp_bind, (wp_load p b); [done|]. exists c, st. unfold lift, as_conn. by rewrite Hb.
Qed.
Lemma wp_load_listening p b l (Q : tcp_listening -> tcp E -> Prop) st :
  pcbs st !! p = Some b -> rest b = Listening l -> Q l st -> wp (load_listening p) Q st.
Proof.
  intros Hp Hb HQ. apply wp_bind, (wp_load p b); [done|]. exists l, st. unfold lift, as_listening. by rewrite Hb.
Qed.
Lemma wp_store_conn p f b c (Q : unit -> tcp E -> Prop) st :
  pcbs st !! p = Some b -> rest b = Conn c ->
  Q tt (set_pcbs (<[p := set_rest (Conn (f c)) b]> (pcbs st)) st) -> wp (store_conn p f) Q st.
Proof.
  intros Hp Hb HQ. apply wp_bind, (wp_load_conn p b c); [done..|]. by apply (wp_store p _ b).
Qed.
Lemma wp_store_listening p f b l (Q : unit -> tcp E -> Prop) st :
  pcbs st !! p = Some b -> rest b = Listening l ->
  Q tt (set_pcbs (<[p := set_rest (Listening (f l)) b]> (pcbs st)) st) -> wp (store_listening p f) Q st.
Proof.
  intros Hp Hb HQ. apply wp_bind, (wp_load_listening p b l); [done..|]. by apply (wp_store p _ b).
Qed.
End wp.

(** ** Actions on one connection

    [at_conn p b c e st] is [st] with the connection [c] in the block [b] at [p]
    and [e] for the world; an action that touches nothing else leads from one
    such state to another. *)

Section at_conn.
Context {E : Type} (p : Z).
Implicit Types (st : tcp E) (b : tcp_pcb) (c : tcp_conn) (e : E).

Definition at_conn b c e st : tcp E := set_env e (set_pcbs (<[p := set_rest (Conn c) b]> (pcbs st)) st).

Definition local {A} (m : tcpM E A) (Phi : A -> tcp_pcb -> tcp_conn -> E -> Prop) b c e st : Prop :=
  exists a b' c' e', m (at_conn b c e st) = Ret (a, at_conn b' c' e' st) /\ Phi a b' c' e'.

Lemma at_conn_lookup b c e st : pcbs (at_conn b c e st) !! p = Some (set_rest (Conn c) b).
Proof. apply lookup_insert_eq. Qed.

Lemma at_conn_id b c st : pcbs st !! p = Some b -> rest b = Conn c -> at_conn b c (env st) st = st.
Proof.
  intros Hp Hb. unfold at_conn. destruct b as [i n a s pr lp r]. cbn in Hb. subst r.
  unfold set_rest. cbn. destruct st as [h]. cbn in *. by rewrite insert_id.
Qed.

Lemma local_wp {A} (m : tcpM E A) Phi b c st :
  pcbs st !! p = Some b -> rest b = Conn c -> local m Phi b c (env st) st ->
  wp m (fun a st' => exists b' c' e', st' = at_conn b' c' e' st /\ Phi a b' c' e') st.
Proof.
  intros Hp Hb (a & b' & c' & e' & Hm & HPhi). rewrite at_conn_id in Hm by done.
  exists a, (at_conn b' c' e' st). naive_solver.
Qed.

Lemma local_mono {A} (m : tcpM E A) (Phi Psi : A -> tcp_pcb -> tcp_conn -> E -> Prop) b c e st :
  local m Phi b c e st -> (forall a b' c' e', Phi a b' c' e' -> Psi a b' c' e') -> local m Psi b c e st.
Proof. intros (a & b' & c' & e' & Hm & HPhi) H. exists a, b', c', e'. auto. Qed.

Lemma local_ret {A} (a : A) (Phi : A -> tcp_pcb -> tcp_conn -> E -> Prop) b c e st :
  Phi a b c e -> local (mret a) Phi b c e st.
Proof. intros. by exists a, b, c, e. Qed.

Lemma local_bind {A B} (m : tcpM E A) (k : A -> tcpM E B) (Phi : B -> tcp_pcb -> tcp_conn -> E -> Prop) b c e st :
  local m (fun a b' c' e' => local (k a) Phi b' c' e' st) b c e st -> local (m ≫= k) Phi b c e st.
Proof.
  intros (a & b' & c' & e' & Hm & r & b2 & c2 & e2 & Hk & HPhi). exists r, b2, c2, e2. split; [|done].
  unfold mbind, tcpM_bind. by rewrite Hm.
Qed.

Lemma local_gets {A} (f : tcp E -> A) (Phi : A -> tcp_pcb -> tcp_conn -> E -> Prop) b c e st :
  Phi (f (at_conn b c e st)) b c e -> local (gets f) Phi b c e st.
Proof. intros. by exists (f (at_conn b c e st)), b, c, e. Qed.
Lemma local_effect (f : E -> E) (Phi : unit -> tcp_pcb -> tcp_conn -> E -> Prop) b c e st :
  Phi tt b c (f e) -> local (effect f) Phi b c e st.
Proof. intros. by exists tt, b, c, (f e). Qed.
Lemma local_ask {A} (f : E -> A) (Phi : A -> tcp_pcb -> tcp_conn -> E -> Prop) b c e st :
  Phi (f e) b c e -> local (ask f) Phi b c e st.
Proof. intros. by exists (f e), b, c, e. Qed.
Lemma local_call_eq {A} (f : E -> A * E) (Phi : A -> tcp_pcb -> tcp_conn -> E -> Prop) b c e st :
  (forall a e', f e = (a, e') -> Phi a b c e') -> local (call f) Phi b c e st.
Proof.
  intros H. unfold local, call. change (env (at_conn b c e st)) with e.
  destruct (f e) as [a e']. exists a, b, c, e'. auto.
Qed.
Lemma local_call {A} (f : E -> A * E) (Phi : A -> tcp_pcb -> tcp_conn -> E -> Prop) b c e st :
  (forall a e', Phi a b c e') -> local (call f) Phi b c e st.
Proof. intros H. apply local_call_eq. auto. Qed.
Lemma local_ASSERT (t : bool) (Phi : unit -> tcp_pcb -> tcp_conn -> E -> Prop) b c e st :
  t = true -> Phi tt b c e -> local (ASSERT t) Phi b c e st.
Proof. intros -> ?. by exists tt, b, c, e. Qed.
Lemma local_load (Phi : tcp_pcb -> tcp_pcb -> tcp_conn -> E -> Prop) b c e st :
  Phi (set_rest (Conn c) b) b c e -> local (load p) Phi b c e st.
Proof.
  intros. exists (set_rest (Conn c) b), b, c, e. split; [|done].
  unfold load. by rewrite at_conn_lookup.
Qed.
Lemma local_load_conn (Phi : tcp_conn -> tcp_pcb -> tcp_conn -> E -> Prop) b c e st :
  Phi c b c e -> local (load_conn p) Phi b c e st.
Proof. intros. apply local_bind, local_load. by exists c, b, c, e. Qed.

Lemma at_conn_store b c b' c' e st :
  set_pcbs (<[p := set_rest (Conn c') b']> (pcbs (at_conn b c e st))) (at_conn b c e st) = at_conn b' c' e st.
Proof. unfold at_conn, set_pcbs, set_env. cbn. by rewrite insert_insert_eq. Qed.

Lemma local_store f b' (Phi : unit -> tcp_pcb -> tcp_conn -> E -> Prop) b c e st :
  f (set_rest (Conn c) b) = set_rest (Conn c) b' -> Phi tt b' c e -> local (store p f) Phi b c e st.
Proof.
  intros Hf HPhi. apply local_bind, local_load. exists tt, b', c, e. split; [|done].
  unfold modify. by rewrite Hf, at_conn_store.
Qed.
Lemma local_store_conn f (Phi : unit -> tcp_pcb -> tcp_conn -> E -> Prop) b c e st :
  Phi tt b (f c) e -> local (store_conn p f) Phi b c e st.
Proof.
  intros HPhi. apply local_bind, local_load_conn, local_bind, local_load. exists tt, b, (f c), e. split; [|done].
  unfold modify. change (set_rest (Conn (f c)) (set_rest (Conn c) b)) with (set_rest (Conn (f c)) b).
  by rewrite at_conn_store.
Qed.
Lemma local_store_tx f (Phi : unit -> tcp_pcb -> tcp_conn -> E -> Prop) b c e st :
  Phi tt b (set_tx (f (tx c)) c) e -> local (store_tx p f) Phi b c e st.
Proof. apply (local_store_conn (fun c => set_tx (f (tx c)) c)). Qed.
Lemma local_store_tv x v (Phi : unit -> tcp_pcb -> tcp_conn -> E -> Prop) b c e st :
  Phi tt b (set_tx (set_tv x v (tx c)) c) e -> local (store_tv p x v) Phi b c e st.
Proof. apply (local_store_tx (set_tv x v)). Qed.
End at_conn.

(** One step of a local action. *)
Ltac lstep :=
  match goal with
  | |- local _ (_ ≫= _) _ _ _ _ _ => apply local_bind
  | |- local _ (mret _) _ _ _ _ _ => apply local_ret
  | |- local _ (gets _) _ _ _ _ _ => apply local_gets
  | |- local _ (effect _) _ _ _ _ _ => apply local_effect
  | |- local _ (ask _) _ _ _ _ _ => apply local_ask
  | |- local _ (call _) _ _ _ _ _ => apply local_call; intros
  | |- local _ (load_conn _) _ _ _ _ _ => apply local_load_conn
  | |- local _ (load _) _ _ _ _ _ => apply local_load
  | |- local _ (store_conn _ _) _ _ _ _ _ => apply local_store_conn
  | |- local _ (store_tv _ _ _) _ _ _ _ _ => apply local_store_tv
  | |- local _ (store_tx _ _) _ _ _ _ _ => apply local_store_tx
  | |- local _ (store _ (set_state ?s)) _ ?b _ _ _ => apply (local_store _ _ (set_state s b)); [reflexivity|]
  | |- local _ (store _ (set_local_port ?v)) _ ?b _ _ _ => apply (local_store _ _ (set_local_port v b)); [reflexivity|]
  | |- local _ (if ?t then _ else _) _ _ _ _ _ => destruct t eqn:?
  end.

(** ** Blocks in their lists *)

(** The states of a connection that exchanges segments. *)
Definition active (s : tcp_state) : Prop :=
  match s with CLOSED | LISTEN | TIME_WAIT => False | _ => True end.

#[export] Instance active_dec s : Decision (active s).
Proof. destruct s; apply _. Defined.

(** The connection counts in the backlog of the listener [l]. *)
Definition pends_on (l : Z) (b : tcp_pcb) : Prop :=
  match rest b with Conn c => listener c = l /\ tcp_is_flag_set c TF_BACKLOGPEND = true | Listening _ => False end.

#[export] Instance pends_on_dec l b : Decision (pends_on l b).
Proof. unfold pends_on. destruct (rest b); apply _. Defined.

Definition has_syn (seg : tcp_seg) : Prop := has (seg_hdrflags seg) TCP_SYN = true /\ 0 <= seg_len seg.

Definition no_rst (seg : tcp_seg) : Prop := has (seg_hdrflags seg) TCP_RST = false.

(** A segment that is sent and has to be acknowledged. *)
Definition seg_fine (seg : tcp_seg) : Prop := no_rst seg /\ 0 < TCP_TCPLEN seg.

Definition queued (t : tcp_transfer) : list tcp_seg := unsent t ++ unacked t.

(** What the queues hold. *)
Definition queues_ok (s : tcp_state) (c : tcp_conn) : Prop :=
  Forall seg_fine (unsent (tx c) ++ unacked (tx c)) /\
  match s with
  | CLOSED => tv (tx c) snd_queuelen = 0 /\ unsent (tx c) = [] /\ unacked (tx c) = []
  | SYN_SENT => Exists has_syn (unsent (tx c) ++ unacked (tx c)) /\ 0 < tv (tx c) snd_queuelen
  | TIME_WAIT => unsent (tx c) = [] /\ unacked (tx c) = [] /\ ooseq (tx c) = []
  | _ => True
  end.

(** In the states in which data may be queued, or that lead to one, [snd_queuelen]
    counts at least one buffer for each segment, and none when there is no segment;
    while only a SYN is queued it is one. It stays below what [tcp_write] allows,
    and the FIN may be one more. *)
Definition counts_queued (t : tcp_transfer) : Prop :=
  Z.of_nat (length (queued t)) <= tv t snd_queuelen /\ (queued t = [] -> tv t snd_queuelen = 0).

Definition counts_to (m : Z) (t : tcp_transfer) : Prop := counts_queued t /\ tv t snd_queuelen <= m.

Definition counted (s : tcp_state) (t : tcp_transfer) : Prop :=
  match s with
  | SYN_SENT => counts_to TCP_SND_QUEUELEN t /\ queued t <> [] /\
      forall g, queued t = [g] -> seg_len g = 0 /\ tv t snd_queuelen = 1
  | SYN_RCVD | ESTABLISHED => counts_to TCP_SND_QUEUELEN t
  | FIN_WAIT_1 | CLOSE_WAIT => counts_to (TCP_SND_QUEUELEN + 1) t
  | _ => True
  end.

(** ** Flags *)

Lemma land_u16 x m : Z.land m 65535 = m -> Z.land (u16 x) m = Z.land x m.
Proof.
  intros Hm. unfold u16. change 65536 with (2 ^ 16). rewrite <- Z.land_ones by done.
  rewrite <- Z.land_assoc. change (Z.ones 16) with 65535. by rewrite (Z.land_comm 65535), Hm.
Qed.

(** Setting and clearing other flags leaves a flag alone. *)
Lemma has_set_other c s m :
  Z.land m 65535 = m -> Z.land s m = 0 -> tcp_is_flag_set (tcp_set_flags s c) m = tcp_is_flag_set c m.
Proof.
  intros Hm Hs. unfold tcp_is_flag_set, has, tcp_set_flags, set_flags. cbn [flags].
  by rewrite land_u16, Z.land_lor_distr_l, Hs, Z.lor_0_r.
Qed.
Lemma has_clear_other c s m :
  Z.land m 65535 = m -> Z.land (Z.land (Z.lnot s) 65535) m = m ->
  tcp_is_flag_set (tcp_clear_flags s c) m = tcp_is_flag_set c m.
Proof.
  intros Hm Hs. unfold tcp_is_flag_set, has, tcp_clear_flags, set_flags. cbn [flags].
  by rewrite land_u16, <- Z.land_assoc, Hs.
Qed.
Lemma has_merge_other c fl m :
  Z.land (Z.lnot TF_TRANSFER) m = m -> Z.land TF_TRANSFER m = 0 ->
  tcp_is_flag_set (set_flags (merge_flags (flags c) fl) c) m = tcp_is_flag_set c m.
Proof.
  intros Hm Ht. unfold tcp_is_flag_set, has, merge_flags, set_flags. cbn [flags].
  by rewrite Z.land_lor_distr_l, <- !Z.land_assoc, Hm, Ht, Z.land_0_r, Z.lor_0_r.
Qed.
Lemma has_set_same c s : Z.land s 65535 = s -> s <> 0 -> tcp_is_flag_set (tcp_set_flags s c) s = true.
Proof.
  intros Hs Hn. unfold tcp_is_flag_set, has, tcp_set_flags, set_flags. cbn [flags].
  rewrite land_u16, Z.land_lor_distr_l, Z.land_diag by done.
  destruct (Z.eqb_spec (Z.lor (Z.land (flags c) s) s) 0) as [H|]; [|done].
  by apply Z.lor_eq_0_iff in H as [_ H].
Qed.
Lemma has_clear_same c s : Z.land s 65535 = s -> tcp_is_flag_set (tcp_clear_flags s c) s = false.
Proof.
  intros Hs. unfold tcp_is_flag_set, has, tcp_clear_flags, set_flags. cbn [flags].
  rewrite land_u16 by done. apply negb_false_iff, Z.eqb_eq. apply Z.bits_inj'. intros n Hn.
  rewrite !Z.land_spec, Z.lnot_spec, Z.bits_0 by done.
  by destruct (Z.testbit s n), (Z.testbit (flags c) n), (Z.testbit 65535 n).
Qed.

(** ** Quiet steps *)

(** The members of the block that lists and states are about. *)
Definition same_block (b b' : tcp_pcb) : Prop :=
  next b' = next b /\ state b' = state b /\ local_port b' = local_port b.

Definition refused_ok (c : tcp_conn) : Prop := fn_recv c = FN_recv_null -> refused_data c = 0.

(** The window: its variables fit their types, and what was announced of it is at
    most 64 kilobytes ahead of what arrived. *)
Definition window_ok (t : tcp_transfer) : Prop :=
  0 <= tv t rcv_wnd < 65536 /\ 0 <= tv t rcv_ann_wnd < 65536 /\
  (u32 (tv t rcv_ann_right_edge - tv t rcv_nxt) < 65536 \/
   TCP_SEQ_GT (tv t rcv_nxt) (tv t rcv_ann_right_edge) = true).

(** Variables after assignments to others. *)
Ltac tvs := repeat first [rewrite fn_lookup_insert|rewrite fn_lookup_insert_ne by discriminate].

Lemma window_ok_announce t :
  window_ok t -> window_ok (set_tv rcv_ann_right_edge (u32 (tv t rcv_nxt + tv t rcv_ann_wnd)) t).
Proof.
  intros (Hw & Ha & _). unfold window_ok. cbn. tvs.
  split_and!; [lia..|left]. unfold u32. rewrite Zminus_mod_idemp_l.
  replace (tv t rcv_nxt + tv t rcv_ann_wnd - tv t rcv_nxt) with (tv t rcv_ann_wnd) by lia.
  rewrite Z.mod_small; lia.
Qed.

Record quiet (b : tcp_pcb) (c : tcp_conn) (b' : tcp_pcb) (c' : tcp_conn) : Prop := Quiet {
  q_block : same_block b b';
  q_listener : listener c' = listener c;
  q_pending : tcp_is_flag_set c' TF_BACKLOGPEND = tcp_is_flag_set c TF_BACKLOGPEND;
  q_queues : queues_ok (state b) c -> queues_ok (state b) c';
  q_counted : queues_ok (state b) c -> counted (state b) (tx c) -> counted (state b) (tx c');
  q_refused : refused_data c' = refused_data c /\ fn_recv c' = fn_recv c;
  q_window : window_ok (tx c) -> window_ok (tx c') }.

Lemma quiet_refl b c : quiet b c b c.
Proof. by split. Qed.

Lemma quiet_then b1 c1 b2 c2 b3 c3 : quiet b1 c1 b2 c2 -> quiet b2 c2 b3 c3 -> quiet b1 c1 b3 c3.
Proof.
  intros [(Hn & Hs & Hp) Hl Hf Hq Hk Hr Hw] [(Hn' & Hs' & Hp') Hl' Hf' Hq' Hk' Hr' Hw'].
  rewrite Hs in Hq', Hk'. split; [|congruence|congruence|tauto|tauto|intuition congruence|tauto].
  split_and!; congruence.
Qed.

(** Members a step does not touch: what [quiet] asks for is computed. *)
Lemma tv_ne x y v t : x <> y -> tv (set_tv x v t) y = tv t y.
Proof. intros. apply fn_lookup_insert_ne. done. Qed.
Lemma tv_eq x v t : tv (set_tv x v t) x = v.
Proof. apply fn_lookup_insert. Qed.

Ltac flags_other :=
  repeat first
    [ rewrite has_set_other by (vm_compute; reflexivity)
    | rewrite has_clear_other by (vm_compute; reflexivity)
    | rewrite has_merge_other by (vm_compute; reflexivity)
    | match goal with |- context [tcp_is_flag_set (set_tx ?t ?c) ?m] =>
        change (tcp_is_flag_set (set_tx t c) m) with (tcp_is_flag_set c m) end
    | match goal with |- context [tcp_is_flag_set (tcp_ack_now ?c) ?m] =>
        change (tcp_is_flag_set (tcp_ack_now c) m) with (tcp_is_flag_set (tcp_set_flags TF_ACK_NOW c) m) end
    | match goal with |- context [tcp_is_flag_set (?f ?x ?c) ?m] =>
        progress change (tcp_is_flag_set (f x c) m) with (tcp_is_flag_set c m) end ];
  try reflexivity.

Ltac window_done :=
  first [ done
        | exact (window_ok_announce _)
        | unfold window_ok; cbn; tvs; done ].

Ltac counted_done :=
  let H := fresh "Hk" in intros _ H; unfold counted, counts_to, counts_queued, queued in *; cbn in *;
  rewrite ?fn_lookup_insert_ne in * by discriminate; exact H.

Ltac quiet_done :=
  split; [by split_and!|reflexivity|flags_other| |counted_done|done|window_done];
  let H := fresh "Hq" in
  intros H; unfold queues_ok in *;
  repeat match goal with |- context [match state ?b with _ => _ end] => destruct (state b) end;
  cbn in *; rewrite ?fn_lookup_insert_ne in * by discriminate; by (done || tauto).

(** What the model relies on in queueing data: the segments that are made have data
    and no RST, each is made of one buffer at least, and when a segment that waits
    takes more bytes or buffers it is the last one and has data already. *)
Class TcpEnvLaws (E : Type) `{!TcpEnv E} : Prop := {
  queue_data_fine d len fl b e w e' :
    queue_data d len fl b e = (Some w, e') -> Forall seg_fine (wr_segs w);
  queue_data_buffers d len fl b e w e' :
    queue_data d len fl b e = (Some w, e') -> (length (wr_segs w) <= wr_pbufs w)%nat;
  queue_data_extends d len fl b c e w e' :
    rest b = Conn c -> queue_data d len fl b e = (Some w, e') ->
    wr_grow w <> 0%nat \/ (wr_segs w = [] /\ wr_pbufs w <> 0%nat) ->
    exists g, last (unsent (tx c)) = Some g /\ 0 < seg_len g }.

Section quietly.
Context {E : Type} `{!TcpEnv E} (p : Z).
Implicit Types (st : tcp E) (b : tcp_pcb) (c : tcp_conn) (e : E).

(** The action does nothing but quiet steps. *)
Definition quietly {A} (m : tcpM E A) b c e st : Prop :=
  local p m (fun _ b' c' _ => quiet b c b' c') b c e st.

Lemma quietly_bind {A B} (m : tcpM E A) (k : A -> tcpM E B) b c e st :
  quietly m b c e st ->
  (forall a b' c' e', quiet b c b' c' -> quietly (k a) b' c' e' st) -> quietly (m ≫= k) b c e st.
Proof.
  intros Hm Hk. apply local_bind. eapply local_mono; [exact Hm|]. intros a b' c' e' Hq.
  eapply local_mono; [by apply Hk|]. intros ? ? ? ? Hq2. exact (quiet_then _ _ _ _ _ _ Hq Hq2).
Qed.

Lemma announce_window_quiet b c e st : quietly (announce_window p) b c e st.
Proof. unfold quietly, announce_window. repeat lstep. quiet_done. Qed.

Lemma tcp_send_empty_ack_quiet b c e st : quietly (tcp_send_empty_ack p) b c e st.
Proof.
  unfold quietly, tcp_send_empty_ack, announce_window. repeat lstep; quiet_done.
Qed.
(** ** Sending *)

Lemma tcp_output_segment_vars seg netif b c e st (Phi : Z -> tcp_pcb -> tcp_conn -> E -> Prop) :
  (forall err t e', unsent t = unsent (tx c) -> unacked t = unacked (tx c) -> ooseq t = ooseq (tx c) ->
     (forall x, ~ In x [rcv_ann_right_edge; rtime; rttest; rtseq] -> tv t x = tv (tx c) x) ->
     (window_ok (tx c) -> window_ok t) ->
     Phi err b (set_tx t c) e') ->
  local p (tcp_output_segment seg p netif) Phi b c e st.
Proof.
  intros H. unfold tcp_output_segment, announce_window. destruct c as [rp fl pi lt tm t rd ls f1 f2 f3 f4 f5].
  repeat lstep; cbn in H |- *.
  all: refine (H _ _ _ _ _ _ _ _); cbn; try reflexivity.
  all: try (intros x Hx; rewrite ?fn_lookup_insert_ne; [reflexivity|naive_solver..]).
  1: done.
  all: intros Hw%window_ok_announce; revert Hw; unfold window_ok; cbn; by tvs.
Qed.

Lemma has_syn_tcplen seg : has_syn seg -> 0 < TCP_TCPLEN seg.
Proof.
  intros [Hs Hl]. unfold TCP_TCPLEN.
  enough (has (seg_hdrflags seg) (Z.lor TCP_FIN TCP_SYN) = true) as -> by lia.
  unfold has in *. apply negb_true_iff, Z.eqb_neq in Hs. apply negb_true_iff, Z.eqb_neq. intros H.
  apply Hs. change (Z.lor TCP_FIN TCP_SYN) with 3 in H. change TCP_SYN with (Z.land 3 2).
  by rewrite Z.land_assoc, H.
Qed.

Lemma insert_before_elem seg q x : x ∈ insert_before seg q <-> x = seg \/ x ∈ q.
Proof.
  induction q as [|y q IH]; simpl; [set_solver|]. destruct (TCP_SEQ_LT _ _); set_solver.
Qed.
Lemma put_unacked_elem seg q x : x ∈ put_unacked seg q <-> x = seg \/ x ∈ q.
Proof.
  unfold put_unacked. destruct (last q) as [u|] eqn:Hu.
  - destruct (TCP_SEQ_LT _ _); [apply insert_before_elem|set_solver].
  - apply last_None in Hu as ->. set_solver.
Qed.

Lemma insert_before_perm seg q : insert_before seg q ≡ₚ seg :: q.
Proof.
  induction q as [|y q IH]; simpl; [done|]. destruct (TCP_SEQ_LT _ _); [|done]. rewrite IH. apply Permutation_swap.
Qed.
Lemma put_unacked_perm seg q : put_unacked seg q ≡ₚ seg :: q.
Proof.
  unfold put_unacked. destruct (last q) as [u|] eqn:Hu.
  - destruct (TCP_SEQ_LT _ _); [apply insert_before_perm|]. symmetry. apply Permutation_cons_append.
  - by apply last_None in Hu as ->.
Qed.

(** Only the lengths of the segments matter, and not their order. *)
Lemma counted_perm s t t' :
  seg_len <$> queued t' ≡ₚ seg_len <$> queued t -> tv t' snd_queuelen = tv t snd_queuelen -> counted s t -> counted s t'.
Proof.
  intros Hp Hn. pose proof (Permutation_length Hp) as Hl. rewrite !length_fmap in Hl.
  assert (forall m, counts_to m t -> counts_to m t') as Hc.
  { intros m. unfold counts_to, counts_queued. rewrite Hl, Hn. intros [[H1 H2] H3]. split_and!; [done| |done]. intros Hq. apply H2. apply length_zero_iff_nil.
    by rewrite <- Hl, Hq. }
  destruct s; cbn [counted]; try apply Hc; try done. intros (H1 & H2 & H3). split_and!; [auto| |].
  - intros Hq. apply H2, length_zero_iff_nil. by rewrite <- Hl, Hq.
  - intros g Hq. rewrite Hq in Hp, Hl. destruct (queued t) as [|g0 [|]]; try done. destruct (H3 g0) as [H4 H5]; [done|].
    rewrite Hn. split; [|done]. apply Permutation_length_1 in Hp. congruence.
Qed.

(** What the loop leaves alone. *)
Record sent_some (s : tcp_state) (c c' : tcp_conn) : Prop := SentSome {
  ss_listener : listener c' = listener c;
  ss_pending : tcp_is_flag_set c' TF_BACKLOGPEND = tcp_is_flag_set c TF_BACKLOGPEND;
  ss_queuelen : tv (tx c') snd_queuelen = tv (tx c) snd_queuelen;
  ss_ooseq : ooseq (tx c') = ooseq (tx c);
  ss_fine : Forall seg_fine (unsent (tx c) ++ unacked (tx c)) -> Forall seg_fine (unsent (tx c') ++ unacked (tx c'));
  ss_lens : Forall seg_fine (unsent (tx c) ++ unacked (tx c)) -> seg_len <$> queued (tx c') ≡ₚ seg_len <$> queued (tx c);
  ss_syn : s = SYN_SENT -> Exists has_syn (unsent (tx c) ++ unacked (tx c)) ->
           Exists has_syn (unsent (tx c') ++ unacked (tx c'));
  ss_refused : refused_data c' = refused_data c /\ fn_recv c' = fn_recv c;
  ss_window : window_ok (tx c) -> window_ok (tx c') }.

Lemma sent_some_trans s c1 c2 c3 : sent_some s c1 c2 -> sent_some s c2 c3 -> sent_some s c1 c3.
Proof.
  intros [] []. split. all: try congruence. all: try tauto.
  - intros H. etrans; [apply ss_lens1|]; auto.
  - intuition congruence.
Qed.

Lemma no_rst_set fl seg : Z.land fl TCP_RST = 0 -> no_rst seg -> no_rst (TCPH_SET_FLAG fl seg).
Proof.
  intros Hf. unfold no_rst, has, TCPH_SET_FLAG. cbn [seg_hdrflags]. by rewrite Z.land_lor_distr_l, Hf, Z.lor_0_r.
Qed.
Lemma has_lor_keep f fl m : has f m = true -> has (Z.lor f fl) m = true.
Proof.
  unfold has. intros H%negb_true_iff%Z.eqb_neq. apply negb_true_iff, Z.eqb_neq. rewrite Z.land_lor_distr_l.
  by intros [Ha _]%Z.lor_eq_0_iff.
Qed.
Lemma tcplen_set fl seg : TCP_TCPLEN seg <= TCP_TCPLEN (TCPH_SET_FLAG fl seg).
Proof.
  unfold TCP_TCPLEN, TCPH_SET_FLAG. cbn [seg_len seg_hdrflags].
  destruct (has (seg_hdrflags seg) _) eqn:Hh; [by rewrite has_lor_keep|].
  match goal with |- context [has (Z.lor ?x ?y) ?z] => destruct (has (Z.lor x y) z) end; lia.
Qed.
Lemma seg_fine_set fl seg : Z.land fl TCP_RST = 0 -> seg_fine seg -> seg_fine (TCPH_SET_FLAG fl seg).
Proof.
  intros Hf [Hr Hl]. split; [by apply no_rst_set|]. pose proof (tcplen_set fl seg). lia.
Qed.
Lemma has_syn_set fl seg : has_syn seg -> has_syn (TCPH_SET_FLAG fl seg).
Proof.
  unfold has_syn, has, TCPH_SET_FLAG. cbn [seg_hdrflags seg_len]. intros [H Hl]. split; [|done].
  apply negb_true_iff, Z.eqb_neq in H. apply negb_true_iff, Z.eqb_neq. rewrite Z.land_lor_distr_l.
  intros [Ha _]%Z.lor_eq_0_iff. done.
Qed.

(** A segment leaves [unsent], for [unacked] or for good. *)
Lemma sent_one s (c c' : tcp_conn) seg seg' q :
  unsent (tx c) = seg :: q -> unsent (tx c') = q ->
  (s = SYN_SENT -> seg' = seg) -> (seg_fine seg -> seg_fine seg') -> seg_len seg' = seg_len seg ->
  unacked (tx c') = (if 0 <? TCP_TCPLEN seg' then put_unacked seg' (unacked (tx c)) else unacked (tx c)) ->
  (Forall seg_fine (unsent (tx c) ++ unacked (tx c)) -> Forall seg_fine (unsent (tx c') ++ unacked (tx c'))) /\
  (Forall seg_fine (unsent (tx c) ++ unacked (tx c)) -> seg_len <$> queued (tx c') ≡ₚ seg_len <$> queued (tx c)) /\
  (s = SYN_SENT -> Exists has_syn (unsent (tx c) ++ unacked (tx c)) ->
   Exists has_syn (unsent (tx c') ++ unacked (tx c'))).
Proof.
  intros Hu Hu' Hseg Hrst Hlen Ha. unfold queued. rewrite Hu, Hu', Ha. rewrite !Forall_forall, !Exists_exists. split_and!.
  2: { intros H. destruct (Hrst (H seg ltac:(set_solver))) as [_ Hpos].
       destruct (Z.ltb_spec 0 (TCP_TCPLEN seg')); [|lia]. rewrite put_unacked_perm, !fmap_app. cbn. rewrite Hlen.
       solve_Permutation. }
  - intros H x. rewrite elem_of_app. intros [Hx|Hx]; [apply H; set_solver|].
    destruct (0 <? TCP_TCPLEN seg'); [apply put_unacked_elem in Hx as [->|Hx]|];
      [apply Hrst, H; set_solver|apply H; set_solver..].
  - intros -> (x & Hx & Hs). rewrite Hseg in * by done.
    exists x. split; [|done]. apply elem_of_app in Hx as [[->|Hx]%elem_of_cons|Hx].
    + apply elem_of_app. right. apply has_syn_tcplen in Hs as Hl.
      destruct (Z.ltb_spec 0 (TCP_TCPLEN seg)); [|lia]. apply put_unacked_elem. by left.
    + apply elem_of_app. by left.
    + apply elem_of_app. right. destruct (0 <? TCP_TCPLEN seg); [|done]. apply put_unacked_elem. by right.
Qed.

Lemma output_loop_sent fuel netif wnd b c e st :
  (length (unsent (tx c)) < fuel)%nat -> Forall seg_fine (unsent (tx c) ++ unacked (tx c)) ->
  local p (output_loop fuel p netif wnd)
    (fun _ b' c' _ => b' = b /\ sent_some (state b) c c') b c e st.
Proof.
  revert b c e. induction fuel as [|fuel IH]; intros b c e Hf Hr; [lia|].
  cbn [output_loop]. do 4 lstep. destruct (unsent (tx c)) as [|seg q] eqn:Hq; [by lstep|].
  destruct (negb (_ <=? wnd)); [by lstep|]. lstep. apply local_ASSERT.
  { apply negb_true_iff. by apply Forall_cons in Hr as [[Hr _] _]. }
  destruct (_ && _); [by lstep|].
  cbn [state set_rest]. set (seg' := if decide (state b = SYN_SENT) then seg else TCPH_SET_FLAG TCP_ACK seg).
  do 3 lstep. apply tcp_output_segment_vars. intros err t e' Hut Hat Hot Htv Hwt.
  cbn [tx set_tx set_unsent unsent unacked ooseq tv] in Hut, Hat, Hot, Htv.
  assert (seg_fine seg -> seg_fine seg') as Hrs.
  { subst seg'. destruct (decide _); [done|]. by apply seg_fine_set. }
  assert (seg_len seg' = seg_len seg) as Hln by (subst seg'; by destruct (decide _)).
  assert (state b = SYN_SENT -> seg' = seg) as Hss by (intros; subst seg'; by destruct (decide _)).
  destruct (negb (err =? ERR_OK)).
  { do 3 lstep. split; [done|]. split; [done|flags_other| |done| | | |done|done]; cbn.
    - by rewrite Htv by (cbn; naive_solver).
    - rewrite Hut, Hat, Hq. cbn. rewrite !Forall_cons. naive_solver.
    - intros _. unfold queued. cbn. rewrite Hut, Hat, Hq. cbn. by rewrite Hln.
    - intros Hs. by rewrite Hut, Hat, Hq, Hss. }
  assert (forall c4, unsent (tx c4) = q -> ooseq (tx c4) = ooseq t -> tv (tx c4) snd_queuelen = tv t snd_queuelen ->
    unacked (tx c4) = (if 0 <? TCP_TCPLEN seg' then put_unacked seg' (unacked t) else unacked t) ->
    listener c4 = listener c -> tcp_is_flag_set c4 TF_BACKLOGPEND = tcp_is_flag_set c TF_BACKLOGPEND ->
    refused_data c4 = refused_data c -> fn_recv c4 = fn_recv c -> (window_ok t -> window_ok (tx c4)) ->
    forall e4, local p (output_loop fuel p netif wnd) (fun _ b' c' _ => b' = b /\ sent_some (state b) c c') b c4 e4 st) as Hgo.
  { intros c4 Hu Ho Hl Ha Hli Hfl Hrd Hfr Hw4 e4. rewrite Hat in Ha.
    destruct (sent_one (state b) c c4 seg seg' q) as (Hr4 & Hl4 & Hs4); [done..|].
    eapply local_mono; [apply IH|].
    - rewrite Hu. cbn in Hf. lia.
    - apply Hr4. by rewrite Hq.
    - intros _ b' c' _ [-> Hc']. split; [done|]. eapply sent_some_trans; [|exact Hc'].
      split; [done|done| |congruence|done|done|done| |auto].
      + by rewrite Hl, Htv by (cbn; naive_solver).
      + done. }
  repeat lstep.
  all: apply Hgo; cbn; rewrite ?fn_lookup_insert_ne by discriminate; first [done|window_done|flags_other].
Qed.

Lemma sent_some_quiet b c c' :
  sent_some (state b) c c' -> unsent (tx c) <> [] -> quiet b c b c'.
Proof.
  intros [Hl Hf Hn Ho Hr Hle Hs Hrd Hw] Ht. split; [by split_and!|done..| | |done|done]; unfold queues_ok.
  - intros [Hrst Hq]. split; [auto|]. destruct (state b); try done; [by destruct Hq as (_ & Hq & _)|destruct Hq; split; [by apply Hs|by rewrite Hn]|].
    by destruct Hq as [Hq _].
  - intros [Hfi _]. apply counted_perm; auto.
Qed.

Lemma output_in_window_quiet netif wnd seg b c e st :
  queues_ok (state b) c -> unsent (tx c) <> [] -> quietly (output_in_window p netif wnd seg) b c e st.
Proof.
  intros Hq Hu. unfold quietly, output_in_window. do 3 lstep.
  { lstep. lstep; repeat lstep.
    all: try (eapply local_mono; [apply tcp_send_empty_ack_quiet|]; intros ? ? ? ? H; eapply quiet_then; [|exact H]).
    all: unfold output_done; repeat lstep; quiet_done. }
  do 3 lstep. eapply local_mono; [apply output_loop_sent; [cbn; lia|apply Hq]|].
  intros err b' c' e' [-> Hc']. eassert (quiet b c b c') as Hcc.
  { eapply quiet_then; [|apply sent_some_quiet; [exact Hc'|]]; [quiet_done|done]. }
  lstep; [by lstep|]. unfold output_done. repeat lstep.
  all: eapply quiet_then; [exact Hcc|quiet_done].
Qed.

Lemma tcp_route_local i src dst b c e st (Phi : Z -> tcp_pcb -> tcp_conn -> E -> Prop) :
  (forall n, Phi n b c e) -> local p (tcp_route i src dst) Phi b c e st.
Proof. intros H. unfold tcp_route. by repeat lstep. Qed.

Lemma take_local_ip_local netif b c e st (Phi : bool -> tcp_pcb -> tcp_conn -> E -> Prop) :
  (forall r b', same_block b b' -> Phi r b' c e) -> local p (take_local_ip p netif) Phi b c e st.
Proof.
  intros H. unfold take_local_ip. do 3 lstep; [|lstep; by apply H].
  do 2 lstep. destruct (ip_netif_get_local_ip _ _ _) as [local|]; [|lstep; by apply H].
  lstep. eapply (local_store _ _ (set_ip _ b)); [reflexivity|]. lstep. by apply H.
Qed.

Lemma tcp_output_quiet b c e st :
  state b <> LISTEN -> queues_ok (state b) c -> quietly (tcp_output p) b c e st.
Proof.
  intros Hs Hq. unfold quietly, tcp_output. do 3 lstep. apply local_ASSERT.
  { cbn. by apply negb_true_iff, bool_decide_eq_false. }
  do 3 lstep; [by lstep; apply quiet_refl|]. do 2 lstep. cbn [ip set_rest].
  destruct (unsent (tx c)) as [|seg q] eqn:Hu.
  { lstep; [apply tcp_send_empty_ack_quiet|]. unfold output_done. repeat lstep. quiet_done. }
  lstep. apply tcp_route_local. intros netif. lstep; [lstep; apply quiet_refl|].
  lstep. apply take_local_ip_local. intros found b' Hb. assert (quiet b c b' c) as Hbb.
  { split; try done. }
  lstep; [|by lstep]. eapply local_mono; [apply output_in_window_quiet|].
  - by destruct Hb as (_ & -> & _).
  - by rewrite Hu.
  - intros ? ? ? ? H. eapply quiet_then; [exact Hbb|exact H].
Qed.

(** ** Queueing *)

(** A segment without data at the end of [unsent]. *)
Record enqueued (fl : Z) (c c' : tcp_conn) : Prop := Enqueued {
  en_listener : listener c' = listener c;
  en_pending : tcp_is_flag_set c' TF_BACKLOGPEND = tcp_is_flag_set c TF_BACKLOGPEND;
  en_unsent : exists pb seqno, unsent (tx c') = unsent (tx c) ++ [TcpSeg pb 0 seqno fl];
  en_unacked : unacked (tx c') = unacked (tx c);
  en_ooseq : ooseq (tx c') = ooseq (tx c);
  en_queuelen : tv (tx c') snd_queuelen = u16 (tv (tx c) snd_queuelen + 1);
  en_refused : refused_data c' = refused_data c;
  en_recv : fn_recv c' = fn_recv c;
  en_window : window_ok (tx c) -> window_ok (tx c') }.

Lemma assert_queued_local t (Phi : unit -> tcp_pcb -> tcp_conn -> E -> Prop) b c e st :
  (queued t = [] -> tv t snd_queuelen = 0) -> Phi tt b c e -> local p (assert_queued t) Phi b c e st.
Proof.
  intros Hq HPhi. unfold assert_queued. destruct (Z.eqb_spec (tv t snd_queuelen) 0) as [Hz|Hz]; cbn [negb]; [by lstep|].
  apply local_ASSERT; [|done]. unfold queued in Hq. destruct (unacked t), (unsent t); try done. by destruct Hz, Hq.
Qed.

Lemma tcp_enqueue_flags_local fl b c e st :
  has fl (Z.lor TCP_SYN TCP_FIN) = true ->
  local p (tcp_enqueue_flags p fl)
    (fun err b' c' _ => b' = b /\ (err = ERR_MEM /\ quiet b c b c' \/ err = ERR_OK /\ enqueued fl c c')) b c e st.
Proof.
  intros Hfl. unfold tcp_enqueue_flags. lstep. apply local_ASSERT; [done|]. do 4 lstep.
  destruct a as [pb|].
  2: { repeat lstep. split; [done|]. left. split; [done|quiet_done]. }
  repeat lstep.
  all: apply assert_queued_local; [unfold queued; cbn; by destruct (unsent (tx c))|].
  all: lstep; split; [done|right]; split; [done|].
  all: split; cbn; rewrite ?fn_lookup_insert_ne by discriminate; try done; try (by eexists _, _);
    try window_done; flags_other.
  all: by rewrite fn_lookup_insert, ?fn_lookup_insert_ne by discriminate.
Qed.

(** What [tcp_send_fin] does to the connection. Its state changes afterwards. *)
Record fin_queued (c c' : tcp_conn) : Prop := FinQueued {
  fq_listener : listener c' = listener c;
  fq_pending : tcp_is_flag_set c' TF_BACKLOGPEND = tcp_is_flag_set c TF_BACKLOGPEND;
  fq_counts m : m < 65535 -> counts_to m (tx c) -> counts_to (m + 1) (tx c');
  fq_fine : Forall seg_fine (unsent (tx c) ++ unacked (tx c)) -> Forall seg_fine (unsent (tx c') ++ unacked (tx c'));
  fq_refused : refused_data c' = refused_data c /\ fn_recv c' = fn_recv c;
  fq_window : window_ok (tx c) -> window_ok (tx c') }.

Lemma Forall_last {A} (P : A -> Prop) l x : last l = Some x -> Forall P l -> Forall P (removelast l) /\ P x.
Proof.
  intros (l' & ->)%last_Some H. rewrite removelast_last.
  by rewrite Forall_app, Forall_singleton in H.
Qed.

Lemma tcp_send_fin_local b c e st :
  local p (tcp_send_fin p) (fun err b' c' _ =>
    b' = b /\ (err = ERR_OK /\ fin_queued c c' \/ err = ERR_MEM /\ quiet b c b c')) b c e st.
Proof.
  unfold tcp_send_fin. do 2 lstep.
  assert (local p (tcp_enqueue_flags p TCP_FIN) (fun err b' c' _ =>
    b' = b /\ (err = ERR_OK /\ fin_queued c c' \/ err = ERR_MEM /\ quiet b c b c')) b c e st) as Hen.
  { eapply local_mono; [by apply tcp_enqueue_flags_local|].
    intros err b' c' _ [-> [[-> H]|[-> [Hl Hp (pb & sq & Hu) Hun _ Hn Hrd Hrf Hw]]]]; (split; [done|]); [by right|].
    left. split; [done|]. split; try done.
    { intros m Hm [[H1 H2] H3]. unfold counts_to, counts_queued, queued in *. rewrite Hn, Hu, Hun. rewrite !length_app in *. cbn.
      unfold u16. rewrite Z.mod_small by lia. split_and!; [lia|by destruct (unsent (tx c))|lia]. }
    rewrite Hu, Hun, !Forall_app. intros [H H']. split_and!; [done| |done].
    by repeat constructor. }
  destruct (last (unsent (tx c))) as [seg|] eqn:Hl; [|done]. lstep; [|done]. repeat lstep. split; [done|]. left.
  split; [done|]. split; [done|flags_other| | |done|window_done]; cbn.
  { intros m _. unfold counts_to, counts_queued, queued. cbn. rewrite ?fn_lookup_insert_ne by discriminate.
    apply last_Some in Hl as (q & ->). rewrite removelast_last, !length_app. cbn. intros [[H1 H2] H3].
    split_and!; [lia|by destruct q|lia]. }
  rewrite !Forall_app. intros [H H'].
  apply (Forall_last _ _ _ Hl) in H as [H1 H2]. split_and!; [done| |done]. constructor; [|done]. by apply seg_fine_set.
Qed.

(** ** Sending again *)

Lemma tcp_rexmit_rto_prepare_quiet b c e st :
  active (state b) -> quietly (tcp_rexmit_rto_prepare p) b c e st.
Proof.
  intros Ha. unfold quietly, tcp_rexmit_rto_prepare. do 2 lstep.
  destruct (last (unacked (tx c))) as [seg|]; [|lstep; apply quiet_refl].
  repeat lstep; [apply quiet_refl|].
  split; [by split_and!|done|flags_other| | |done|window_done]; unfold queues_ok; cbn.
  - rewrite ?fn_lookup_insert_ne, app_nil_r by discriminate. intros [H1 H].
    split; [rewrite Forall_app in *; tauto|]. destruct (state b); try done.
    destruct H as [H Hn]. split; [|done]. rewrite Exists_app in *. tauto.
  - intros _. apply counted_perm; [|by tvs]. unfold queued. cbn. rewrite app_nil_r, !fmap_app. solve_Permutation.
Qed.

Lemma count_rexmit_quiet b c e st : quietly (count_rexmit p) b c e st.
Proof.
  unfold quietly, count_rexmit. apply local_store_tx. destruct (tv (tx c) nrtx <? 255); quiet_done.
Qed.

Lemma quiet_state b c b' c' : quiet b c b' c' -> state b' = state b.
Proof. by intros [(_ & H & _)]. Qed.

Lemma tcp_rexmit_rto_quiet b c e st :
  active (state b) -> queues_ok (state b) c -> quietly (tcp_rexmit_rto p) b c e st.
Proof.
  intros Ha Hq. unfold tcp_rexmit_rto.
  apply quietly_bind; [by apply tcp_rexmit_rto_prepare_quiet|]. intros err b1 c1 e1 H1.
  destruct (err =? ERR_OK); [|apply local_ret, quiet_refl].
  unfold tcp_rexmit_rto_commit. apply quietly_bind; [apply count_rexmit_quiet|]. intros _ b2 c2 e2 H2.
  pose proof (quiet_then _ _ _ _ _ _ H1 H2) as H12.
  apply quietly_bind; [|intros; apply local_ret, quiet_refl].
  apply tcp_output_quiet; rewrite (quiet_state _ _ _ _ H12).
  - by destruct (state b).
  - by apply H12.
Qed.

Lemma tcp_rexmit_quiet b c e st : active (state b) -> quietly (tcp_rexmit p) b c e st.
Proof.
  intros Ha. unfold quietly, tcp_rexmit, count_rexmit. do 2 lstep.
  destruct (unacked (tx c)) as [|seg q] eqn:Hu; [lstep; apply quiet_refl|].
  repeat lstep; [apply quiet_refl|..].
  all: cbn; destruct (_ <? 255); (split; [by split_and!|done|flags_other| | |done|window_done]); unfold queues_ok; cbn.
  all: try (intros _; apply counted_perm; [|by tvs]; unfold queued; cbn;
    rewrite Hu, !fmap_app, insert_before_perm; cbn; solve_Permutation).
  all: rewrite ?fn_lookup_insert_ne by discriminate; rewrite Hu, !Forall_forall.
  all: intros [H1 H]; split; [intros x Hx; apply H1; rewrite elem_of_app, insert_before_elem in Hx; set_solver|].
  all: destruct (state b); try done; destruct H as [H Hn]; split; [|done]; rewrite Exists_exists in *;
    destruct H as (x & Hx & Hs); exists x; split; [|done]; rewrite elem_of_app, insert_before_elem; set_solver.
Qed.

(** ** Data *)

Lemma grow_last_elem n q x : x ∈ grow_last n q -> exists y, y ∈ q /\ seg_hdrflags x = seg_hdrflags y.
Proof.
  unfold grow_last. destruct (last q) as [s|] eqn:Hl; [|by exists x].
  apply last_Some in Hl as (l & ->). rewrite removelast_last.
  rewrite elem_of_app, list_elem_of_singleton. intros [Hx| ->]; [exists x|exists s]; set_solver.
Qed.
Lemma grow_last_syn n q : Exists has_syn q -> Exists has_syn (grow_last n q).
Proof.
  unfold grow_last. destruct (last q) as [s|] eqn:Hl; [|done].
  apply last_Some in Hl as (l & ->). rewrite removelast_last, !Exists_app.
  intros [H|H]; [by left|right]. apply Exists_cons in H as [[H Hn]|H]; [|by apply Exists_nil in H].
  constructor. split; [done|]. cbn. lia.
Qed.

Lemma grow_last_fine n q : Forall seg_fine q -> Forall seg_fine (grow_last n q).
Proof.
  unfold grow_last. destruct (last q) as [s|] eqn:Hl; [|done].
  apply last_Some in Hl as (l & ->). rewrite removelast_last, !Forall_app, !Forall_singleton.
  intros [H [Hr Hs]]. split; [done|]. split; [done|]. unfold TCP_TCPLEN in *. cbn. lia.
Qed.
Lemma grow_last_length n q : length (grow_last n q) = length q.
Proof.
  unfold grow_last. destruct (last q) as [s|] eqn:Hl; [|done].
  apply last_Some in Hl as (l & ->). by rewrite removelast_last, !length_app.
Qed.
Lemma grow_last_0 q : seg_len <$> grow_last 0 q = seg_len <$> q.
Proof.
  unfold grow_last. destruct (last q) as [s|] eqn:Hl; [|done].
  apply last_Some in Hl as (l & ->). rewrite removelast_last, !fmap_app. cbn. by rewrite Z.add_0_r.
Qed.

(** What [queue_data] promises of a connection. *)
Record write_ok (t : tcp_transfer) (w : tcp_queued) : Prop := WriteOk {
  wo_fine : Forall seg_fine (wr_segs w);
  wo_buffers : (length (wr_segs w) <= wr_pbufs w)%nat;
  wo_extends : wr_grow w <> 0%nat \/ (wr_segs w = [] /\ wr_pbufs w <> 0%nat) ->
    exists g, last (unsent t) = Some g /\ 0 < seg_len g }.

Lemma counts_written t t' w :
  write_ok t w -> unsent t' = grow_last (wr_grow w) (unsent t) ++ wr_segs w -> unacked t' = unacked t ->
  tv t' snd_queuelen = tv t snd_queuelen + Z.of_nat (wr_pbufs w) -> counts_queued t -> counts_queued t'.
Proof.
  intros [_ Hb Hx] Hu Ha Hn [H1 H2]. unfold counts_queued, queued in *. rewrite Hu, Ha, Hn.
  rewrite !length_app, grow_last_length in *. split; [lia|]. intros Hq.
  apply (f_equal length) in Hq. rewrite !length_app, grow_last_length in Hq. cbn in Hq.
  assert (unsent t = [] /\ unacked t = []) as [Eu Ea] by (split; apply length_zero_iff_nil; lia).
  assert (wr_segs w = []) as Es by (apply length_zero_iff_nil; lia). rewrite H2 by (by rewrite Eu, Ea).
  destruct (decide (wr_pbufs w = 0%nat)) as [->|Hp]; [done|]. destruct Hx as (g & Hg & _); [by right|]. by rewrite Eu in Hg.
Qed.

Lemma counted_written s t t' w :
  write_ok t w -> unsent t' = grow_last (wr_grow w) (unsent t) ++ wr_segs w -> unacked t' = unacked t ->
  tv t' snd_queuelen = tv t snd_queuelen + Z.of_nat (wr_pbufs w) -> tv t' snd_queuelen <= TCP_SND_QUEUELEN ->
  counted s t -> counted s t'.
Proof.
  intros Hw Hu Ha Hn. pose proof (counts_written t t' w Hw Hu Ha Hn) as Hc.
  intros Hmax. assert (forall m, TCP_SND_QUEUELEN <= m -> counts_to m t -> counts_to m t') as Hct.
  { intros m Hm [H1 _]. split; [by apply Hc|lia]. }
  destruct s; cbn [counted]; try (apply Hct; lia); try done. intros (H1 & H2 & H3). destruct Hw as [_ Hb Hx].
  assert (length (queued t') = (length (queued t) + length (wr_segs w))%nat) as Hl.
  { unfold queued. rewrite Hu, Ha, !length_app, grow_last_length. lia. }
  assert (length (queued t) <> 0%nat) as Hnz by (intros Hz%length_zero_iff_nil; done).
  split_and!; [by apply Hct|intros Hq; rewrite Hq in Hl; cbn in Hl; lia|]. intros g Hq. rewrite Hq in Hl. cbn in Hl.
  destruct (queued t) as [|g0 [|]] eqn:Hq0; cbn in Hl, Hnz; try lia. destruct (H3 g0 eq_refl) as [Hg0 Hn0].
  assert (wr_segs w = []) as Es by (apply length_zero_iff_nil; lia).
  assert (~ (wr_grow w <> 0%nat \/ (wr_segs w = [] /\ wr_pbufs w <> 0%nat))) as Hno.
  { intros H. destruct (Hx H) as (g' & Hg' & Hpos). apply last_Some in Hg' as (l & Hg').
    unfold queued in Hq0. rewrite Hg' in Hq0. destruct l as [|? [|]]; [|done..]. injection Hq0 as -> _. lia. }
  assert (wr_grow w = 0%nat /\ wr_pbufs w = 0%nat) as [Eg Ep].
  { destruct (decide (wr_grow w = 0%nat)), (decide (wr_pbufs w = 0%nat)); tauto. }
  rewrite Hn, Ep. split; [|lia]. apply (f_equal (fmap seg_len)) in Hq0, Hq. unfold queued in Hq, Hq0.
  rewrite Hu, Ha, Es, Eg, app_nil_r, fmap_app, grow_last_0 in Hq. rewrite fmap_app in Hq0. rewrite Hq0 in Hq.
  cbn in Hq. congruence.
Qed.

(** Data at the end of [unsent]. *)
Lemma queued_quiet b c c' w :
  write_ok (tx c) w -> unsent (tx c') = grow_last (wr_grow w) (unsent (tx c)) ++ wr_segs w ->
  unacked (tx c') = unacked (tx c) -> tv (tx c') snd_queuelen = tv (tx c) snd_queuelen + Z.of_nat (wr_pbufs w) ->
  tv (tx c') snd_queuelen <= TCP_SND_QUEUELEN ->
  listener c' = listener c -> tcp_is_flag_set c' TF_BACKLOGPEND = tcp_is_flag_set c TF_BACKLOGPEND ->
  refused_data c' = refused_data c /\ fn_recv c' = fn_recv c -> (window_ok (tx c) -> window_ok (tx c')) ->
  active (state b) -> quiet b c b c'.
Proof.
  intros Hwo Hu Ha Hn Hmax Hli Hp Hrd Hw Hst. split; [by split_and!|done..| | |done|done].
  - unfold queues_ok. rewrite Hu, Ha. intros [Hr H]. split.
    + rewrite !Forall_app in *. destruct Hr as [Hr Hr']. split_and!; [by apply grow_last_fine|apply Hwo|done].
    + destruct (state b); try done. destruct H as [H Hl]. split; [|lia].
      rewrite !Exists_app in *. destruct H as [H%(grow_last_syn (wr_grow w))|H]; tauto.
  - intros _. by apply (counted_written _ _ _ w).
Qed.

Lemma tcp_write_checks_local len b c e st :
  counted (state b) (tx c) ->
  local p (tcp_write_checks p len)
    (fun err b' c' _ => b' = b /\ quiet b c b c' /\ (err = ERR_OK -> c' = c /\ active (state b) /\ counts_queued (tx c)))
    b c e st.
Proof.
  intros Hk. unfold tcp_write_checks. do 4 lstep. cbn [state set_rest].
  assert (counts_queued (tx c) -> active (state b) -> local p
    (if len =? 0 then mret ERR_OK
     else if (tv (tx c) snd_buf <? len) || (Z.min TCP_SND_QUEUELEN TCP_SNDQUEUELEN_OVERFLOW <=? tv (tx c) snd_queuelen) then
       store_conn p (tcp_set_flags TF_NAGLEMEMERR) ;; mret ERR_MEM
     else (if negb (tv (tx c) snd_queuelen =? 0) then assert_queued (tx c)
           else ASSERT (is_nil (unacked (tx c)) && is_nil (unsent (tx c)))) ;; mret ERR_OK)
    (fun err b' c' _ => b' = b /\ quiet b c b c' /\ (err = ERR_OK -> c' = c /\ active (state b) /\ counts_queued (tx c)))
    b c e st) as Hgo.
  { intros Hc Ha. lstep; [lstep; split_and!; [done|apply quiet_refl|done]|].
    lstep; [repeat lstep; split_and!; [done|quiet_done|done]|]. pose proof Hc as [Hc1 Hc2]. lstep. lstep.
    - apply assert_queued_local; [done|]. lstep. split_and!; [done|apply quiet_refl|done].
    - apply local_ASSERT; [|lstep; split_and!; [done|apply quiet_refl|done]].
      match goal with H : negb _ = false |- _ => apply negb_false_iff, Z.eqb_eq in H; rewrite H in Hc1 end.
      unfold queued in Hc1. rewrite length_app in Hc1. destruct (unacked (tx c)), (unsent (tx c)); cbn in Hc1 |- *; (done || lia). }
  destruct (state b); try (lstep; split_and!; [done|apply quiet_refl|done]).
  all: apply Hgo; [|done]; cbn [counted] in Hk; unfold counts_to in Hk; tauto.
Qed.

Lemma write_queued_quiet len w b c e st :
  active (state b) -> counts_queued (tx c) -> (forall w', w = Some w' -> write_ok (tx c) w') ->
  quietly (write_queued p len w) b c e st.
Proof.
  intros Ha Hc Hw. unfold quietly, write_queued. do 2 lstep.
  assert (local p (store_conn p (tcp_set_flags TF_NAGLEMEMERR) ;; c ← load_conn p; assert_queued (tx c) ;; mret ERR_MEM)
    (fun _ b' c' _ => quiet b c b' c') b c e st) as Hmem.
  { do 5 lstep. apply assert_queued_local; [apply Hc|]. lstep. quiet_done. }
  destruct w as [w|]; [|exact Hmem]. specialize (Hw w eq_refl). lstep; [exact Hmem|]. do 5 lstep.
  match goal with |- local _ (assert_queued (tx ?c')) _ _ _ _ _ => set (c1 := c') end.
  assert (unsent (tx c1) = grow_last (wr_grow w) (unsent (tx c)) ++ wr_segs w) as Hu by done.
  assert (tv (tx c1) snd_queuelen = tv (tx c) snd_queuelen + Z.of_nat (wr_pbufs w)) as Hn by (unfold c1; cbn; by tvs).
  assert (tv (tx c1) snd_queuelen <= TCP_SND_QUEUELEN) as Hmax.
  { rewrite Hn. match goal with H : (_ <? _) = false |- _ => apply Z.ltb_ge in H end. unfold TCP_SND_QUEUELEN, TCP_SNDQUEUELEN_OVERFLOW in *. lia. }
  apply assert_queued_local; [by apply (counts_written (tx c) (tx c1) w)|]. lstep. by apply (queued_quiet b c c1 w).
Qed.

Lemma tcp_write_quiet `{!TcpEnvLaws E} d len fl b c e st :
  counted (state b) (tx c) -> quietly (tcp_write p d len fl) b c e st.
Proof.
  intros Hk. unfold quietly, tcp_write. destruct ((p =? 0) || (d =? 0)); [by lstep; apply quiet_refl|].
  lstep. eapply local_mono; [by apply tcp_write_checks_local|].
  intros err b1 c1 e1 (-> & Hq & Hok). destruct (Z.eqb_spec err ERR_OK) as [He|He]; cbn [negb]; [|by lstep].
  destruct (Hok He) as (-> & Ha & Hc). do 3 lstep. apply local_call_eq. intros w e2 Hw.
  apply write_queued_quiet; [done..|]. intros w' ->.
  split; [by eapply queue_data_fine|by eapply queue_data_buffers|by apply (queue_data_extends _ _ _ (set_rest (Conn c) b) c _ _ _ eq_refl Hw)].
Qed.
End quietly.
