(* ===== verification/TcpLists.v ===== *)
(** * The lists of blocks

    A list is a chain of blocks that ends in [NULL].  [TCP_REG] puts a block in
    front, [TCP_RMV] takes one out wherever it is and does nothing but clear
    [next] when it is in no place of the list.  Searches along a chain end. *)
From S2P Require Import Prelude Lwip Pbuf ChecksumPbuf TcpPcb TcpOut TcpWp.

(** ** Chains *)

(** [xs] are the blocks that [p] leads to. *)
Fixpoint chain (h : gmap Z tcp_pcb) (xs : list Z) (p : Z) : Prop :=
  match xs with
  | [] => p = 0
  | a :: xs => p = a /\ a <> 0 /\ exists b, h !! a = Some b /\ chain h xs (next b)
  end.

(** The blocks of two heaps are the same, but for [next]. *)
Definition relinked (h h' : gmap Z tcp_pcb) : Prop := set_next 0 <$> h = set_next 0 <$> h'.

#[export] Instance relinked_equiv : Equivalence relinked.
Proof. split; unfold relinked; [done|congruence..]. Qed.

Lemma relinked_lookup h h' a b :
  relinked h h' -> h !! a = Some b -> exists n, h' !! a = Some (set_next n b).
Proof.
  intros H Ha. assert ((set_next 0 <$> h) !! a = (set_next 0 <$> h') !! a) as E by by rewrite H.
  rewrite !lookup_fmap, Ha in E. cbn in E. destruct (h' !! a) as [b'|]; [|done]. cbn in E.
  injection E as E1 E2 E3 E4 E5 E6. exists (next b'). unfold set_next. rewrite E1, E2, E3, E4, E5, E6.
  by destruct b'.
Qed.
Lemma relinked_none h h' a : relinked h h' -> h !! a = None -> h' !! a = None.
Proof.
  intros H Ha. destruct (h' !! a) as [b|] eqn:E; [|done].
  apply (relinked_lookup h' h) in E as [n E]; [congruence|done].
Qed.
Lemma relinked_insert h a b n : h !! a = Some b -> relinked h (<[a := set_next n b]> h).
Proof.
  intros Ha. unfold relinked. rewrite fmap_insert. symmetry. apply insert_id. by rewrite lookup_fmap, Ha.
Qed.
Lemma relinked_size h h' : relinked h h' -> size h = size h'.
Proof. intros H. rewrite <- (map_size_fmap (set_next 0) h), H. apply map_size_fmap. Qed.

Lemma chain_same_next h h' xs p :
  (forall a, a ∈ xs -> next <$> h' !! a = next <$> h !! a) -> chain h xs p -> chain h' xs p.
Proof.
  revert p. induction xs as [|a xs IH]; intros p H; [done|]. intros (-> & Ha & b & Hb & Hc).
  split_and!; [done..|]. specialize (H a ltac:(set_solver)) as Hn. rewrite Hb in Hn. cbn in Hn.
  destruct (h' !! a) as [b'|]; [|done]. injection Hn as Hn. exists b'. split; [done|].
  rewrite Hn. apply IH; [|done]. set_solver.
Qed.
Lemma chain_insert h xs p a b :
  a ∉ xs -> chain h xs p -> chain (<[a := b]> h) xs p.
Proof. intros Ha. apply chain_same_next. intros x Hx. rewrite lookup_insert_ne; [done|]. set_solver. Qed.
Lemma chain_insert_same h xs p a b b' :
  h !! a = Some b -> next b' = next b -> chain h xs p -> chain (<[a := b']> h) xs p.
Proof.
  intros Ha Hn. apply chain_same_next. intros x Hx. destruct (decide (a = x)) as [->|].
  - rewrite lookup_insert_eq, Ha. cbn. by rewrite Hn.
  - by rewrite lookup_insert_ne.
Qed.
Lemma chain_delete h xs p a : a ∉ xs -> chain h xs p -> chain (delete a h) xs p.
Proof. intros Ha. apply chain_same_next. intros x Hx. rewrite lookup_delete_ne; [done|]. set_solver. Qed.

Lemma chain_in h xs p a : chain h xs p -> a ∈ xs -> a <> 0 /\ is_Some (h !! a).
Proof.
  revert p. induction xs as [|x xs IH]; intros p Hc Ha; [by apply not_elem_of_nil in Ha|].
  destruct Hc as (-> & Hx & b & Hb & Hc). apply elem_of_cons in Ha as [->|Ha]; [by eauto|by eapply IH].
Qed.
Lemma chain_zero h xs p : chain h xs p -> (p = 0 <-> xs = []).
Proof. destruct xs; [done|]. intros (-> & ? & _). done. Qed.
Lemma chain_zero_notin h xs p : chain h xs p -> 0 ∉ xs.
Proof. intros Hc H. by destruct (chain_in h xs p 0 Hc H). Qed.

Lemma chain_unique h xs ys p : chain h xs p -> chain h ys p -> xs = ys.
Proof.
  revert ys p. induction xs as [|x xs IH]; intros [|y ys] p; cbn; [done|by intros -> (? & ? & _)|by intros (-> & ? & _) ?|].
  intros (-> & _ & b & Hb & Hc) (-> & _ & b' & Hb' & Hc'). rewrite Hb in Hb'. injection Hb' as <-. f_equal. by apply (IH ys (next b)).
Qed.

(** The blocks after a given one. *)
Lemma chain_after h xs a ys p :
  chain h (xs ++ a :: ys) p -> exists b, h !! a = Some b /\ a <> 0 /\ chain h ys (next b).
Proof.
  revert p. induction xs as [|x xs IH]; intros p; cbn.
  - intros (_ & ? & b & ? & ?). by exists b.
  - intros (_ & _ & b & _ & Hc). by apply (IH (next b)).
Qed.

(** A chain has as many blocks as the heap at most. *)
Lemma chain_length h xs p : NoDup xs -> chain h xs p -> (length xs <= size h)%nat.
Proof.
  intros Hn Hc. rewrite <- size_dom, <- (size_list_to_set (C := gset Z)) by done.
  apply subseteq_size. intros a Ha%elem_of_list_to_set. apply elem_of_dom.
  by apply (chain_in h xs p a).
Qed.

(** ** Walks *)

Section walks.
Context {E : Type} `{!TcpEnv E}.
Implicit Types (st : tcp E).

Lemma wp_list_fuel (Q : nat -> tcp E -> Prop) st : Q (S (size (pcbs st))) st -> wp list_fuel Q st.
Proof. apply (wp_gets (fun st => S (size (pcbs st)))). Qed.

(** A fold visits the blocks in their order. *)
Definition blocks (h : gmap Z tcp_pcb) (xs : list Z) : list (Z * tcp_pcb) :=
  omap (fun a => b ← h !! a; Some (a, b)) xs.

Lemma pcb_fold_spec {A} fuel (f : A -> Z -> tcp_pcb -> A) xs a p (Q : A -> tcp E -> Prop) st :
  (length xs < fuel)%nat -> chain (pcbs st) xs p ->
  Q (foldl (fun a '(p, b) => f a p b) a (blocks (pcbs st) xs)) st -> wp (pcb_fold fuel f a p) Q st.
Proof.
  revert a p xs. induction fuel as [|fuel IH]; intros a p xs Hf Hc HQ; [lia|]. cbn [pcb_fold].
  destruct xs as [|x xs].
  - cbn in Hc. subst p. by apply wp_ret.
  - destruct Hc as (-> & Hx & b & Hb & Hc). destruct (Z.eqb_spec x 0); [done|].
    apply wp_bind, (wp_load x b); [done|]. apply IH with xs; [cbn in Hf; lia|done|].
    unfold blocks in HQ. cbn in HQ. rewrite Hb in HQ. exact HQ.
Qed.

(** A search finds the first block that passes the test. *)
Lemma pcb_find_spec fuel test xs p (Q : Z -> tcp E -> Prop) st :
  (length xs < fuel)%nat -> chain (pcbs st) xs p ->
  Q (default 0 (fst <$> find (fun '(_, b) => test b) (blocks (pcbs st) xs))) st -> wp (pcb_find fuel test p) Q st.
Proof.
  revert p xs. induction fuel as [|fuel IH]; intros p xs Hf Hc HQ; [lia|]. cbn [pcb_find].
  destruct xs as [|x xs].
  - cbn in Hc. subst p. by apply wp_ret.
  - destruct Hc as (-> & Hx & b & Hb & Hc). destruct (Z.eqb_spec x 0); [done|].
    apply wp_bind, (wp_load x b); [done|]. unfold blocks in HQ. cbn in HQ. rewrite Hb in HQ. cbn in HQ.
    destruct (test b); [by apply wp_ret|]. apply IH with xs; [cbn in Hf; lia|done..].
Qed.

Lemma blocks_elem h xs a b : (a, b) ∈ blocks h xs <-> a ∈ xs /\ h !! a = Some b.
Proof.
  unfold blocks. rewrite list_elem_of_omap. split.
  - intros (x & Hx & Hb). destruct (h !! x) as [b'|] eqn:Hhx; [|done]. cbn in Hb. by simplify_eq.
  - intros [Ha Hb]. exists a. by rewrite Hb.
Qed.

(** ** Putting in and taking out *)

(** [TCP_REG] relinks the block in front of the list. *)
Lemma TCP_REG_spec l p xs b (Q : unit -> tcp E -> Prop) st :
  pcbs st !! p = Some b -> p <> 0 -> p ∉ xs -> chain (pcbs st) xs (heads st l) ->
  (forall st' e, st' = set_env e (set_head l p (set_pcbs (<[p := set_next (heads st l) b]> (pcbs st)) st)) ->
     chain (pcbs st') (p :: xs) (heads st' l) -> Q tt st') ->
  wp (TCP_REG l p) Q st.
Proof.
  intros Hp H0 Hx Hc HQ. unfold TCP_REG. apply wp_bind, wp_gets, wp_bind, (wp_store p _ b); [done|].
  apply wp_bind, wp_modify, wp_bind, wp_gets, wp_bind, wp_gets, wp_effect. eapply HQ; [reflexivity|].
  cbn. rewrite fn_lookup_insert. split_and!; [done..|]. exists (set_next (heads st l) b).
  rewrite lookup_insert_eq. split; [done|]. by apply chain_insert.
Qed.

Definition set_heads (hs : pcb_list -> Z) st : tcp E :=
  Tcp (pcbs st) (pcb_free st) (lpcb_free st) hs (tcp_port st) (tcp_ticks st) (tcp_timer_ctr st) (iss st)
    (tcp_active_pcbs_changed st) (tcp_input_pcb st) (recv_flags st) (env st).

(** What [TCP_RMV] leaves: the list without the block, whose [next] is clear. *)
Definition without (p : Z) (xs : list Z) : list Z := filter (.≠ p) xs.

Lemma without_notin p xs : p ∉ xs -> without p xs = xs.
Proof.
  unfold without. induction xs as [|x xs IH]; intros H; [done|].
  rewrite filter_cons_True by set_solver. rewrite IH by set_solver. done.
Qed.
Lemma without_cons p xs : p ∉ xs -> without p (p :: xs) = xs.
Proof. intros H. unfold without. rewrite filter_cons_False by naive_solver. by apply without_notin. Qed.
Lemma elem_of_without p xs a : a ∈ without p xs <-> a ∈ xs /\ a <> p.
Proof. unfold without. rewrite list_elem_of_filter. naive_solver. Qed.

Lemma tcp_rmv_loop_spec fuel p b x xs (Q : unit -> tcp E -> Prop) st :
  (length (x :: xs) < fuel)%nat -> NoDup (x :: xs) -> x <> p -> p <> 0 ->
  pcbs st !! p = Some b -> chain (pcbs st) (x :: xs) x ->
  (forall h, relinked (pcbs st) h -> (forall a, a ∉ x :: xs -> h !! a = pcbs st !! a) ->
     h !! p = Some b -> chain h (x :: without p xs) x -> Q tt (set_pcbs h st)) ->
  wp (tcp_rmv_loop fuel p x) Q st.
Proof.
  revert x xs Q st. induction fuel as [|fuel IH]; intros x xs Q st Hf Hn Hxp H0 Hp Hc HQ; [lia|].
  cbn [tcp_rmv_loop]. destruct Hc as (_ & Hx0 & bx & Hbx & Hc).
  destruct (Z.eqb_spec x 0); [done|]. apply wp_bind, (wp_load x bx); [done|].
  destruct xs as [|y ys].
  - cbn in Hc. rewrite Hc. destruct (Z.eqb_spec 0 p); [congruence|].
    destruct fuel as [|fuel]; [cbn in Hf; lia|]. cbn. apply wp_ret.
    replace st with (set_pcbs (pcbs st) st) by (by destruct st).
    apply HQ; try done. cbn. split_and!; [done..|]. by exists bx.
  - apply NoDup_cons in Hn as [Hnx Hn]. destruct Hc as (Hny & Hy0 & by' & Hby & Hc). rewrite Hny.
    destruct (Z.eqb_spec y p) as [->|Hyp].
    + rewrite Hp in Hby. injection Hby as <-. apply wp_bind, (wp_load p b); [done|]. apply (wp_store x _ bx); [done|].
      apply NoDup_cons in Hn as [Hpy Hn]. apply HQ.
      * by apply relinked_insert.
      * intros a Ha. rewrite lookup_insert_ne; [done|]. set_solver.
      * by rewrite lookup_insert_ne.
      * rewrite without_cons by done. cbn. split_and!; [done..|]. exists (set_next (next b) bx).
        rewrite lookup_insert_eq. split; [done|]. apply chain_insert; [|done]. set_solver.
    + apply IH with ys; [cbn in *; lia|done..| |].
      { cbn. split_and!; [done..|]. by exists by'. }
      intros h Hr Hout Hpb Hch. apply HQ; [done| |done|].
      * intros a Ha. apply Hout. set_solver.
      * unfold without. rewrite filter_cons_True by done. cbn. split_and!; [done..|].
        exists bx. rewrite Hout by done. split; [done|]. rewrite Hny. exact Hch.
Qed.

Lemma TCP_RMV_spec l p b xs (Q : unit -> tcp E -> Prop) st :
  NoDup xs -> p <> 0 -> pcbs st !! p = Some b -> chain (pcbs st) xs (heads st l) ->
  (forall h hs, relinked (pcbs st) h -> (forall a, a ∉ p :: xs -> h !! a = pcbs st !! a) ->
     h !! p = Some (set_next 0 b) -> (forall l', l' <> l -> hs l' = heads st l') -> chain h (without p xs) (hs l) ->
     Q tt (set_pcbs h (set_heads hs st))) ->
  wp (TCP_RMV l p) Q st.
Proof.
  intros Hn H0 Hp Hc HQ. unfold TCP_RMV. apply wp_bind, wp_gets, wp_bind.
  assert (forall h hs, relinked (pcbs st) h -> (forall a, a ∉ p :: xs -> h !! a = pcbs st !! a) ->
    h !! p = Some b -> (forall l', l' <> l -> hs l' = heads st l') -> chain h (without p xs) (hs l) ->
    wp (store p (set_next 0)) Q (set_pcbs h (set_heads hs st))) as Hend.
  { intros h hs Hr Ho Hpb Hhs Hch. apply (wp_store p _ b); [done|].
    change (Q tt (set_pcbs (<[p:=set_next 0 b]> h) (set_heads hs st))). apply HQ.
    - transitivity h; [done|]. by apply relinked_insert.
    - intros a Ha. rewrite lookup_insert_ne by set_solver. by apply Ho.
    - apply lookup_insert_eq.
    - done.
    - apply chain_insert; [|done]. rewrite elem_of_without. naive_solver. }
  destruct (Z.eqb_spec (heads st l) p) as [Hh|Hh].
  - rewrite Hh in *. destruct xs as [|x xs]; [done|]. destruct Hc as (<- & _ & bx & Hbx & Hc).
    apply NoDup_cons in Hn as [Hpx Hn]. rewrite Hp in Hbx. injection Hbx as <-.
    apply wp_bind, (wp_load p b); [done|]. apply wp_modify.
    change (set_head l (next b) st) with (set_pcbs (pcbs st) (set_heads (<[l := next b]> (heads st)) st)).
    apply Hend; try done.
    + intros l' Hl. by apply fn_lookup_insert_ne.
    + by rewrite without_cons, fn_lookup_insert.
  - apply wp_bind, wp_list_fuel.
    destruct xs as [|x xs].
    + cbn in Hc. rewrite Hc. cbn.
      apply wp_ret. replace st with (set_pcbs (pcbs st) (set_heads (heads st) st)) by (by destruct st).
      by apply Hend.
    + destruct (Hc) as (Hx & _). rewrite Hx in *. apply tcp_rmv_loop_spec with b xs; try done.
      { apply chain_length in Hc; [lia|done]. }
      intros h Hr Ho Hpb Hch.
      change (set_pcbs h st) with (set_pcbs h (set_heads (heads st) st)).
      apply Hend; [done|set_solver|done..|].
      rewrite Hx. unfold without in *. by rewrite filter_cons_True by done.
Qed.
End walks.
