(* ===== verification/TcpInv.v ===== *)
(** * The invariant of the control blocks

    [Inv ls X st]: [ls] are the four lists of [st].  Every block is in the state
    its list is for, in whatever state the header [tcp_priv.h] states for the list
    it is in, or closed when it is in none; the blocks of [X] are exempt while an
    operation is under way.  A listener counts the connections that pend on it,
    and a pool has the elements that are not in use. *)
From S2P Require Import Prelude Lwip Pbuf ChecksumPbuf TcpPcb TcpOut Tcp TcpWp TcpLists.

(** ** Blocks by themselves *)

(** The connection counts in the backlog of a listener. *)
Definition pending (b : tcp_pcb) : bool :=
  match rest b with Conn c => tcp_is_flag_set c TF_BACKLOGPEND | Listening _ => false end.

Definition conn_ok (b : tcp_pcb) : Prop :=
  match rest b with
  | Conn c => queues_ok (state b) c /\ refused_ok c /\ window_ok (tx c)
  | Listening _ => False
  end.

(** The buffers on the queues are counted. *)
Definition counted_ok (b : tcp_pcb) : Prop :=
  match rest b with
  | Conn c => counted (state b) (tx c)
  | Listening _ => False
  end.

(** No listener has a claim on the block. *)
Definition unclaimed (b : tcp_pcb) : Prop :=
  match rest b with
  | Conn c => listener c = 0
  | Listening _ => False
  end.

(** No listener counts the connection, nor will. *)
Definition released (b : tcp_pcb) : Prop :=
  match rest b with
  | Conn c => listener c = 0 \/ tcp_is_flag_set c TF_BACKLOGPEND = false
  | Listening _ => False
  end.

Definition listening_ok (b : tcp_pcb) : Prop :=
  match rest b with
  | Conn _ => False
  | Listening l => 0 < backlog l < 256 /\ fn_accept l <> FN_NULL
  end.

(** A block in a list, or in none ([None]). *)
Definition pcb_ok (w : option pcb_list) (b : tcp_pcb) : Prop :=
  match w with
  | Some LISTEN_PCBS => state b = LISTEN /\ listening_ok b
  | Some BOUND_PCBS => state b = CLOSED /\ local_port b <> 0 /\ conn_ok b /\ unclaimed b
  | Some ACTIVE_PCBS => active (state b) /\ conn_ok b /\ counted_ok b
  | Some TW_PCBS => state b = TIME_WAIT /\ conn_ok b /\ released b
  | None => state b = CLOSED /\ conn_ok b /\ unclaimed b
  end.

Definition is_conn (b : tcp_pcb) : bool := match rest b with Conn _ => true | Listening _ => false end.
Definition is_listening (b : tcp_pcb) : bool := negb (is_conn b).

(** How many connections pend on a listener. *)
Definition pend_count (l : Z) (h : gmap Z tcp_pcb) : nat := size (filter (fun '(_, b) => pends_on l b) h).

Lemma pend_count_insert l p b h :
  pend_count l (<[p := b]> h) = ((if decide (pends_on l b) then 1 else 0) + pend_count l (delete p h))%nat.
Proof.
  unfold pend_count. rewrite <- insert_delete_eq. destruct (decide (pends_on l b)).
  - rewrite map_filter_insert_True by done. rewrite map_size_insert_None; [done|].
    apply map_lookup_filter_None. left. apply lookup_delete_eq.
  - rewrite map_filter_insert_False by done. by rewrite delete_id by apply lookup_delete_eq.
Qed.
Lemma pend_count_lookup l p b h :
  h !! p = Some b ->
  pend_count l h = ((if decide (pends_on l b) then 1 else 0) + pend_count l (delete p h))%nat.
Proof. intros Hp. rewrite <- (insert_id h p b Hp) at 1. apply pend_count_insert. Qed.

(** A block that pends or does not as it did. *)
Lemma pend_count_same l p b b' h :
  h !! p = Some b -> (pends_on l b' <-> pends_on l b) -> pend_count l (<[p := b']> h) = pend_count l h.
Proof.
  intros Hp Hb. rewrite pend_count_insert, (pend_count_lookup l p b h) by done.
  destruct (decide (pends_on l b)), (decide (pends_on l b')); tauto.
Qed.
Lemma pend_count_fresh l p b h : h !! p = None -> ~ pends_on l b -> pend_count l (<[p := b]> h) = pend_count l h.
Proof. intros Hp Hb. rewrite pend_count_insert, delete_id by done. by destruct (decide _). Qed.
Lemma pend_count_delete l p b h : h !! p = Some b -> ~ pends_on l b -> pend_count l (delete p h) = pend_count l h.
Proof. intros Hp Hb. rewrite (pend_count_lookup l p b h) by done. by destruct (decide _). Qed.
Lemma pend_count_pos l p b h : h !! p = Some b -> pends_on l b -> (0 < pend_count l h)%nat.
Proof. intros Hp Hb. rewrite (pend_count_lookup l p b h) by done. destruct (decide _); [lia|done]. Qed.
Lemma pend_count_zero l h : (forall p b, h !! p = Some b -> ~ pends_on l b) -> pend_count l h = 0%nat.
Proof.
  intros H. unfold pend_count. apply map_size_empty_iff, map_empty. intros p.
  apply map_lookup_filter_None. right. intros b Hb. by apply (H p).
Qed.
Lemma pend_count_relinked l h h' : relinked h h' -> pend_count l h = pend_count l h'.
Proof.
  assert (forall h, pend_count l (set_next 0 <$> h) = pend_count l h) as H.
  { intros g. unfold pend_count. rewrite map_filter_fmap, map_size_fmap. done. }
  intros Hr. by rewrite <- (H h), Hr.
Qed.

(** ** The invariant *)

(** [w] says where the block is. *)
Definition placed (ls : pcb_list -> list Z) (p : Z) (w : option pcb_list) : Prop :=
  match w with Some l => p ∈ ls l | None => forall l, p ∉ ls l end.

Lemma placed_exists ls p : exists w, placed ls p w.
Proof.
  destruct (decide (p ∈ ls LISTEN_PCBS)); [by exists (Some LISTEN_PCBS)|].
  destruct (decide (p ∈ ls BOUND_PCBS)); [by exists (Some BOUND_PCBS)|].
  destruct (decide (p ∈ ls ACTIVE_PCBS)); [by exists (Some ACTIVE_PCBS)|].
  destruct (decide (p ∈ ls TW_PCBS)); [by exists (Some TW_PCBS)|].
  exists None. intros []; done.
Qed.

(** A listener that a connection may refer to. *)
Definition refers_ok (ls : pcb_list -> list Z) (c : tcp_conn) : Prop :=
  listener c = 0 \/ listener c ∈ ls LISTEN_PCBS.

Lemma released_pends l b : l <> 0 -> released b -> ~ pends_on l b.
Proof.
  unfold released, pends_on. destruct (rest b); [|done]. intros Hl [H|H] [H1 H2]; congruence.
Qed.
Lemma unclaimed_released b : unclaimed b -> released b.
Proof. unfold unclaimed, released. destruct (rest b); [tauto|done]. Qed.

Record lists_ok {E} (ls : pcb_list -> list Z) (st : tcp E) : Prop := ListsOk {
  lists_chain l : chain (pcbs st) (ls l) (heads st l);
  lists_nodup l : NoDup (ls l);
  lists_disjoint l l' p : p ∈ ls l -> p ∈ ls l' -> l = l' }.

Record content_ok (ls : pcb_list -> list Z) (X : gset Z) (h : gmap Z tcp_pcb) : Prop := ContentOk {
  content_pcb w p b : placed ls p w -> h !! p = Some b -> p ∉ X -> pcb_ok w b;
  content_listener p b c :
    h !! p = Some b -> rest b = Conn c -> p ∉ X \/ tcp_is_flag_set c TF_BACKLOGPEND = true -> refers_ok ls c;
  content_pending l b r :
    l ∈ ls LISTEN_PCBS -> l ∉ X -> h !! l = Some b -> rest b = Listening r ->
    accepts_pending r = Z.of_nat (pend_count l h) /\ accepts_pending r <= backlog r }.

(** The elements [S] of a pool are free or in use. *)
Record pool_ok (S : gset Z) (kind : tcp_pcb -> bool) (free : list Z) (h : gmap Z tcp_pcb) : Prop := PoolOk {
  pool_nodup : NoDup free;
  pool_free a : a ∈ free -> a ∈ S /\ h !! a = None;
  pool_used a b : h !! a = Some b -> kind b = true -> a ∈ S;
  pool_all a : a ∈ S -> a ∈ free \/ exists b, h !! a = Some b /\ kind b = true }.

Section inv.
Context {E : Type} `{!TcpEnv E} (P L : gset Z).
Implicit Types (st : tcp E) (ls : pcb_list -> list Z) (X : gset Z).

Record Inv ls X st : Prop := MkInv {
  inv_lists : lists_ok ls st;
  inv_content : content_ok ls X (pcbs st);
  inv_pcb_pool : pool_ok P is_conn (pcb_free st) (pcbs st);
  inv_lpcb_pool : pool_ok L is_listening (lpcb_free st) (pcbs st);
  inv_pools : P ## L /\ 0 ∉ P /\ 0 ∉ L;
  inv_port : TCP_LOCAL_PORT_RANGE_START <= tcp_port st < TCP_LOCAL_PORT_RANGE_END }.

Lemma Inv_same ls X st st' :
  pcbs st' = pcbs st -> heads st' = heads st -> pcb_free st' = pcb_free st -> lpcb_free st' = lpcb_free st ->
  tcp_port st' = tcp_port st -> Inv ls X st -> Inv ls X st'.
Proof.
  intros H1 H2 H3 H4 H5 [[Hc Hn Hd] Hco Hp Hl Hs Ht]. split; rewrite ?H1, ?H3, ?H4, ?H5; try done.
  split; rewrite ?H1, ?H2; done.
Qed.

Lemma Inv_set_port ls X st port :
  TCP_LOCAL_PORT_RANGE_START <= port < TCP_LOCAL_PORT_RANGE_END -> Inv ls X st -> Inv ls X (set_tcp_port port st).
Proof. intros Hp [[Hc Hn Hd] Hco H1 H2 H3 _]. by split. Qed.

Lemma Inv_exempt p ls X st : Inv ls X st -> Inv ls ({[p]} ∪ X) st.
Proof.
  intros [Hl [H1 H2 H3] Hp Hq Hs Ht]. split; try done. split.
  - intros w a b Hw Ha HX. apply (H1 w a); [done..|set_solver].
  - intros a b c Ha Hb [HX|HX]; [|by eauto]. apply (H2 a b); [done..|left; set_solver].
  - intros l b r Hll HX. apply H3; [done|set_solver].
Qed.

(** An operation on a block is over: the block is what its place asks for. *)
Lemma Inv_settle p ls X st b :
  p ∉ X -> pcbs st !! p = Some b -> (forall w, placed ls p w -> pcb_ok w b) ->
  (forall c, rest b = Conn c -> refers_ok ls c) ->
  (forall r, p ∈ ls LISTEN_PCBS -> rest b = Listening r ->
     accepts_pending r = Z.of_nat (pend_count p (pcbs st)) /\ accepts_pending r <= backlog r) ->
  Inv ls ({[p]} ∪ X) st -> Inv ls X st.
Proof.
  intros HpX Hb Hok Hr Hli [Hl [H1 H2 H3] Hp Hq Hs Ht]. split; try done. split.
  - intros w a b' Hw Ha HX. destruct (decide (a = p)) as [->|].
    + rewrite Hb in Ha. injection Ha as <-. by apply Hok.
    + apply (H1 w a); [done..|set_solver].
  - intros a b' c Ha Hb' HX. destruct (decide (a = p)) as [->|].
    + rewrite Hb in Ha. injection Ha as <-. by apply Hr.
    + apply (H2 a b'); [done..|]. destruct HX; [left; set_solver|by right].
  - intros l b' r Hll HX Hb' Hrl. destruct (decide (l = p)) as [->|].
    + rewrite Hb in Hb'. injection Hb' as <-. by apply Hli.
    + apply (H3 l b'); [done|set_solver|done..].
Qed.

Lemma inv_placed ls X st p w b :
  Inv ls X st -> placed ls p w -> pcbs st !! p = Some b -> p ∉ X -> pcb_ok w b.
Proof. intros [? [H _ _] _ _ _ _]. apply H. Qed.

Lemma inv_in ls X st l p : Inv ls X st -> p ∈ ls l -> p <> 0 /\ is_Some (pcbs st !! p).
Proof. intros [[Hc _ _] _ _ _ _ _] Hp. by eapply chain_in. Qed.

Lemma inv_nonzero ls X st p b : Inv ls X st -> pcbs st !! p = Some b -> p <> 0.
Proof.
  intros [_ _ Hp Hl (_ & H0 & H0') _] Hb ->. destruct (is_conn b) eqn:Hc.
  - by apply (pool_used _ _ _ _ Hp) in Hb.
  - apply (pool_used _ _ _ _ Hl) in Hb; [done|]. unfold is_listening. by rewrite Hc.
Qed.

(** ** One block changes *)

Lemma pool_ok_same S kind free h p b b' :
  h !! p = Some b -> kind b' = kind b -> pool_ok S kind free h -> pool_ok S kind free (<[p := b']> h).
Proof.
  intros Hp Hk [Hn Hf Hu Ha]. split; [done|..].
  - intros a [HS Hh]%Hf. split; [done|]. rewrite lookup_insert_ne; [done|]. congruence.
  - intros a c Hc Hkc. destruct (decide (a = p)) as [->|].
    + rewrite lookup_insert_eq in Hc. injection Hc as <-. apply (Hu p b); congruence.
    + rewrite lookup_insert_ne in Hc by done. by apply (Hu a c).
  - intros a [H|(c & Hc & Hkc)]%Ha; [by left|right]. destruct (decide (a = p)) as [->|].
    + exists b'. rewrite lookup_insert_eq. split; [done|congruence].
    + exists c. by rewrite lookup_insert_ne.
Qed.

(** The same claims on listeners. *)
Definition same_claim (b b' : tcp_pcb) : Prop :=
  match rest b, rest b' with
  | Conn c, Conn c' =>
      listener c' = listener c /\ tcp_is_flag_set c' TF_BACKLOGPEND = tcp_is_flag_set c TF_BACKLOGPEND
  | Listening l, Listening l' => accepts_pending l' = accepts_pending l /\ backlog l' = backlog l
  | _, _ => False
  end.

Lemma pends_on_same l b b' : same_claim b b' -> pends_on l b' <-> pends_on l b.
Proof. unfold same_claim, pends_on. destruct (rest b), (rest b'); try done. by intros [-> ->]. Qed.

Lemma lists_ok_insert ls st st' p b b' :
  pcbs st !! p = Some b -> next b' = next b -> pcbs st' = <[p := b']> (pcbs st) -> heads st' = heads st ->
  lists_ok ls st -> lists_ok ls st'.
Proof.
  intros Hb Hn Hp Hh [Hc Hd Hj]. split; [|done..]. intros l. rewrite Hp, Hh. by apply (chain_insert_same _ _ _ _ b).
Qed.

(** What the change of a block has to respect. *)
Lemma Inv_update ls X st st' p b b' :
  Inv ls X st -> pcbs st !! p = Some b -> next b' = next b -> is_conn b' = is_conn b ->
  (p ∉ X -> forall w, placed ls p w -> pcb_ok w b -> pcb_ok w b') ->
  (forall l, l ∈ ls LISTEN_PCBS -> l ∉ X -> pends_on l b' <-> pends_on l b) ->
  (forall c', rest b' = Conn c' -> p ∉ X \/ tcp_is_flag_set c' TF_BACKLOGPEND = true -> refers_ok ls c') ->
  (forall r', p ∉ X -> rest b' = Listening r' ->
     exists r, rest b = Listening r /\ accepts_pending r' = accepts_pending r /\ backlog r' = backlog r) ->
  pcbs st' = <[p := b']> (pcbs st) -> heads st' = heads st -> pcb_free st' = pcb_free st ->
  lpcb_free st' = lpcb_free st -> tcp_port st' = tcp_port st -> Inv ls X st'.
Proof.
  intros [Hl [H1 H2 H3] Hp Hq Hs Ht] Hb Hn Hk Hok Hpe Hre Hli E1 E2 E3 E4 E5.
  split; rewrite ?E3, ?E4, ?E5, ?E1; try done.
  - by apply (lists_ok_insert ls st st' p b b').
  - split.
    + intros w a c Hw. destruct (decide (a = p)) as [->|].
      * rewrite lookup_insert_eq. intros [= <-] HX. apply Hok; [done..|]. by apply (H1 w p).
      * rewrite lookup_insert_ne by done. by apply H1.
    + intros a b0 c0. destruct (decide (a = p)) as [->|].
      * rewrite lookup_insert_eq. intros [= <-]. by apply Hre.
      * rewrite lookup_insert_ne by done. apply H2.
    + intros l b0 r Hll HX. rewrite (pend_count_same l p b b') by (done || by apply Hpe).
      destruct (decide (l = p)) as [->|].
      * rewrite lookup_insert_eq. intros [= <-] Hr. destruct (Hli r HX Hr) as (r0 & Hr0 & -> & ->). by apply (H3 p b).
      * rewrite lookup_insert_ne by done. by apply H3.
  - by apply (pool_ok_same _ _ _ _ _ b).
  - apply (pool_ok_same _ _ _ _ _ b); [done| |done]. unfold is_listening. by rewrite Hk.
Qed.

Lemma Inv_insert ls X st st' p b b' :
  Inv ls X st -> pcbs st !! p = Some b -> next b' = next b -> same_claim b b' ->
  (p ∉ X -> forall w, placed ls p w -> pcb_ok w b -> pcb_ok w b') ->
  pcbs st' = <[p := b']> (pcbs st) -> heads st' = heads st -> pcb_free st' = pcb_free st ->
  lpcb_free st' = lpcb_free st -> tcp_port st' = tcp_port st -> Inv ls X st'.
Proof.
  intros Hi Hb Hn Hc Hok. apply (Inv_update ls X st st' p b b'); try done.
  - unfold same_claim, is_conn in *. by destruct (rest b), (rest b').
  - intros l _ _. by apply pends_on_same.
  - intros c' Hr' HX. unfold same_claim in Hc. rewrite Hr' in Hc. destruct (rest b) as [c|] eqn:Hrb; [|done].
    destruct Hc as [E6 E7]. unfold refers_ok. rewrite E6. rewrite E7 in HX.
    by apply (content_listener _ _ _ (inv_content _ _ _ Hi) p b c).
  - intros r' _ Hr'. unfold same_claim in Hc. rewrite Hr' in Hc. destruct (rest b) as [|r]; [done|]. by exists r.
Qed.

Lemma Inv_at_conn ls X st p b c b' c' e :
  Inv ls X st -> pcbs st !! p = Some b -> rest b = Conn c -> next b' = next b ->
  listener c' = listener c -> tcp_is_flag_set c' TF_BACKLOGPEND = tcp_is_flag_set c TF_BACKLOGPEND ->
  (p ∉ X -> forall w, placed ls p w -> pcb_ok w b -> pcb_ok w (set_rest (Conn c') b')) ->
  Inv ls X (at_conn p b' c' e st).
Proof.
  intros Hi Hb Hr Hn Hli Hf Hok. apply (Inv_insert ls X st _ p b (set_rest (Conn c') b')); try done.
  unfold same_claim. by rewrite Hr.
Qed.

Lemma quiet_pcb_ok w b c b' c' :
  rest b = Conn c -> quiet b c b' c' -> pcb_ok w b -> pcb_ok w (set_rest (Conn c') b').
Proof.
  intros Hr [(Hn & Hs & Hp) Hl Hf Hq Hk Hrd Hw].
  assert (conn_ok b -> conn_ok (set_rest (Conn c') b')) as Hco.
  { unfold conn_ok, refused_ok. rewrite Hr. cbn. rewrite Hs. destruct Hrd as [-> ->]. tauto. }
  assert (conn_ok b -> counted_ok b -> counted_ok (set_rest (Conn c') b')) as Hcd.
  { unfold conn_ok, counted_ok. rewrite Hr. cbn. rewrite Hs. tauto. }
  assert (unclaimed b -> unclaimed (set_rest (Conn c') b')) as Hu.
  { unfold unclaimed. rewrite Hr. cbn. congruence. }
  assert (released b -> released (set_rest (Conn c') b')) as Hre.
  { unfold released. rewrite Hr. cbn. by rewrite Hl, Hf. }
  assert (~ listening_ok b) as Hli by (unfold listening_ok; rewrite Hr; tauto).
  destruct w as [[]|]; cbn [pcb_ok state local_port set_rest]; rewrite ?Hs, ?Hp; tauto.
Qed.
End inv.
