(* ===== verification/TcpSteps.v ===== *)
(** * Steps that keep the invariant of the control blocks

    A quiet action, a block that goes into a list or leaves it, a block that is
    taken from its pool or given back, and the accounting of the backlog. *)
From S2P Require Import Prelude Lwip Pbuf ChecksumPbuf TcpPcb TcpOut Tcp TcpWp TcpLists TcpInv.

(** What an operation on one connection does not change: the globals of the input,
    and of the listeners all but their count, which does not grow. *)
Record calm {E} (st st' : tcp E) : Prop := Calm {
  calm_input : tcp_input_pcb st' = tcp_input_pcb st;
  calm_flags : recv_flags st' = recv_flags st;
  calm_listening l b r :
    pcbs st !! l = Some b -> rest b = Listening r ->
    exists b' r', pcbs st' !! l = Some b' /\ rest b' = Listening r' /\
      fn_accept r' = fn_accept r /\ backlog r' = backlog r /\ accepts_pending r' <= accepts_pending r }.

#[export] Instance calm_preorder E : PreOrder (@calm E).
Proof.
  split.
  - intros st. split; [done..|]. intros l b r Hb Hr. by exists b, r.
  - intros st1 st2 st3 [Hi Hf Hl] [Hi' Hf' Hl']. split; [congruence..|].
    intros l b r Hb Hr. destruct (Hl l b r Hb Hr) as (b2 & r2 & Hb2 & Hr2 & ? & ? & ?).
    destruct (Hl' l b2 r2 Hb2 Hr2) as (b3 & r3 & Hb3 & Hr3 & ? & ? & ?). exists b3, r3.
    split_and!; try done; [congruence..|lia].
Qed.

Section steps.
Context {E : Type} `{!TcpEnv E} (P L : gset Z).
Implicit Types (st : tcp E) (ls : pcb_list -> list Z) (X : gset Z).
Notation Inv := (Inv P L).

Lemma calm_insert st st' p b c b' :
  pcbs st !! p = Some b -> rest b = Conn c -> pcbs st' = <[p := b']> (pcbs st) ->
  tcp_input_pcb st' = tcp_input_pcb st -> recv_flags st' = recv_flags st -> calm st st'.
Proof.
  intros Hp Hc E1 E2 E3. split; [done..|]. intros l b0 r Hb Hr. exists b0, r.
  rewrite E1, lookup_insert_ne by congruence. done.
Qed.

Lemma calm_same st st' :
  pcbs st' = pcbs st -> tcp_input_pcb st' = tcp_input_pcb st -> recv_flags st' = recv_flags st -> calm st st'.
Proof. intros E1 E2 E3. split; [done..|]. intros l b r Hb Hr. exists b, r. by rewrite E1. Qed.

Lemma calm_at_conn st p b c b' c' e :
  pcbs st !! p = Some b -> rest b = Conn c -> calm st (at_conn p b' c' e st).
Proof. intros Hp Hc. by eapply calm_insert. Qed.

(** ** Actions on one connection *)

Lemma set_rest_id b r : rest b = r -> set_rest r b = b.
Proof. intros <-. by destruct b. Qed.

Lemma wp_local {A} (m : tcpM E A) p b c Phi (Q : A -> tcp E -> Prop) st :
  pcbs st !! p = Some (set_rest (Conn c) b) -> local p m Phi b c (env st) st ->
  (forall a b' c' e', Phi a b' c' e' -> calm st (at_conn p b' c' e' st) -> Q a (at_conn p b' c' e' st)) -> wp m Q st.
Proof.
  intros Hp Hm HQ. assert (at_conn p b c (env st) st = st) as Hid.
  { change (at_conn p b c (env st) st) with (at_conn p (set_rest (Conn c) b) c (env st) st). by apply at_conn_id. }
  destruct Hm as (a & b' & c' & e' & Hm & HPhi). rewrite Hid in Hm.
  exists a, (at_conn p b' c' e' st). split; [done|]. apply HQ; [done|]. by eapply calm_at_conn.
Qed.

(** A quiet action is fine at any time. *)
Lemma wp_quiet {A} (m : tcpM E A) ls X p b c (Q : A -> tcp E -> Prop) st :
  Inv ls X st -> pcbs st !! p = Some b -> rest b = Conn c -> quietly p m b c (env st) st ->
  (forall a b' c' st', quiet b c b' c' -> pcbs st' !! p = Some (set_rest (Conn c') b') -> Inv ls X st' ->
     calm st st' -> Q a st') -> wp m Q st.
Proof.
  intros Hi Hp Hr Hm HQ. eapply (wp_local m p b c _ Q st); [by rewrite set_rest_id|exact Hm|]. intros a b' c' e' Hq Hc.
  apply (HQ a b' c'); [done|apply at_conn_lookup| |done].
  destruct Hq as [(Hn & Hs & Hlp) Hl Hf Hqq Hrr Hw] eqn:?. apply (Inv_at_conn P L ls X st p b c); try done.
  intros _ w Hw' Hok. by apply (quiet_pcb_ok w b c).
Qed.

(** An assignment to members the invariant does not mention. *)
Lemma wp_store_conn_inv ls X p b c f (Q : unit -> tcp E -> Prop) st :
  Inv ls X st -> pcbs st !! p = Some b -> rest b = Conn c -> quiet b c b (f c) ->
  (forall st', pcbs st' !! p = Some (set_rest (Conn (f c)) b) -> Inv ls X st' -> calm st st' -> Q tt st') ->
  wp (store_conn p f) Q st.
Proof.
  intros Hi Hp Hr Hq HQ. apply (wp_local _ p b c (fun _ b' c' _ => b' = b /\ c' = f c)); [by rewrite set_rest_id| |].
  - apply local_store_conn. done.
  - intros [] b' c' e' [-> ->] Hc. apply HQ; [apply at_conn_lookup| |done].
    apply (Inv_at_conn P L ls X st p b c); try done; try apply Hq.
    intros _ w Hw' Hok. by apply (quiet_pcb_ok w b c).
Qed.

(** ** Into a list and out of it *)

Definition drop_pcb (p : Z) (ls : pcb_list -> list Z) (l : pcb_list) : list Z := without p (ls l).
Definition add_pcb (l : pcb_list) (p : Z) (ls : pcb_list -> list Z) : pcb_list -> list Z := <[l := p :: ls l]> ls.

Lemma drop_pcb_notin p ls l : p ∉ drop_pcb p ls l.
Proof. unfold drop_pcb. rewrite elem_of_without. tauto. Qed.
Lemma elem_of_drop p ls l a : a ∈ drop_pcb p ls l <-> a ∈ ls l /\ a <> p.
Proof. apply elem_of_without. Qed.
Lemma placed_drop p ls a w : a <> p -> placed (drop_pcb p ls) a w -> placed ls a w.
Proof.
  intros Ha. destruct w as [l|]; cbn; [by intros [? _]%elem_of_drop|].
  intros H l Hl. apply (H l). by apply elem_of_drop.
Qed.
Lemma elem_of_add l p ls l' a : a ∈ add_pcb l p ls l' <-> (a = p /\ l' = l) \/ a ∈ ls l'.
Proof.
  unfold add_pcb. destruct (decide (l = l')) as [->|Hl].
  - rewrite fn_lookup_insert, elem_of_cons. tauto.
  - rewrite fn_lookup_insert_ne by done. split; [tauto|]. by intros [[_ ?]|?].
Qed.
Lemma placed_add l p ls a w : a <> p -> placed (add_pcb l p ls) a w -> placed ls a w.
Proof.
  intros Ha. destruct w as [l'|]; cbn; [rewrite elem_of_add; tauto|].
  intros H l' Hl. apply (H l'). rewrite elem_of_add. tauto.
Qed.

Lemma pcb_ok_set_next w n b : pcb_ok w (set_next n b) <-> pcb_ok w b.
Proof. destruct w as [[]|]; done. Qed.

(** The content does not depend on [next]. *)
Lemma content_ok_relinked ls X h h' : relinked h h' -> content_ok ls X h -> content_ok ls X h'.
Proof.
  intros Hr [H1 H2 H3]. symmetry in Hr. split.
  - intros w p b Hw Hb HX. destruct (relinked_lookup _ _ _ _ Hr Hb) as [n Hn].
    apply (proj1 (pcb_ok_set_next w n b)). by apply (H1 w p).
  - intros p b c Hb Hc HX. destruct (relinked_lookup _ _ _ _ Hr Hb) as [n Hn]. by apply (H2 p (set_next n b) c).
  - intros l b r Hl HX Hb Hc. destruct (relinked_lookup _ _ _ _ Hr Hb) as [n Hn].
    rewrite (pend_count_relinked l h' h) by done. by apply (H3 l (set_next n b) r).
Qed.
Lemma pool_ok_relinked S kind free h h' :
  (forall n b, kind (set_next n b) = kind b) -> relinked h h' -> pool_ok S kind free h -> pool_ok S kind free h'.
Proof.
  intros Hk Hr [H1 H2 H3 H4]. split; [done|..].
  - intros a [HS Ha]%H2. split; [done|]. by apply (relinked_none h).
  - intros a b Hb Hkb. symmetry in Hr. destruct (relinked_lookup _ _ _ _ Hr Hb) as [n Hn].
    apply (H3 a (set_next n b)); [done|]. by rewrite Hk.
  - intros a [H|(b & Hb & Hkb)]%H4; [by left|right]. destruct (relinked_lookup _ _ _ _ Hr Hb) as [n Hn].
    exists (set_next n b). by rewrite Hk.
Qed.

(** The places of other blocks. *)
Lemma content_ok_places ls ls' X h p :
  p ∈ X -> (forall a w, a <> p -> placed ls' a w -> placed ls a w) ->
  (forall a b c, h !! a = Some b -> rest b = Conn c -> a ∉ X \/ tcp_is_flag_set c TF_BACKLOGPEND = true ->
     refers_ok ls c -> refers_ok ls' c) ->
  content_ok ls X h -> content_ok ls' X h.
Proof.
  intros HpX Hpl Href [H1 H2 H3]. split.
  - intros w a b Hw Hb HX. destruct (decide (a = p)) as [->|]; [done|]. apply (H1 w a); [by apply Hpl|done..].
  - intros a b c Hb Hc HX. apply (Href a b c); [done..|]. by apply (H2 a b c).
  - intros l b r Hl HX. destruct (decide (l = p)) as [->|Hlp]; [done|].
    apply H3; [|done]. by apply (Hpl l (Some LISTEN_PCBS)).
Qed.

Lemma wp_TCP_RMV ls X l p b (Q : unit -> tcp E -> Prop) st :
  Inv ls X st -> p ∈ X -> pcbs st !! p = Some b -> (forall l', p ∈ ls l' -> l' = l) ->
  (p ∈ ls LISTEN_PCBS -> forall a b c, pcbs st !! a = Some b -> rest b = Conn c ->
     a ∉ X \/ tcp_is_flag_set c TF_BACKLOGPEND = true -> listener c <> p) ->
  (forall st', Inv (drop_pcb p ls) X st' -> pcbs st' !! p = Some (set_next 0 b) -> calm st st' ->
     relinked (pcbs st) (pcbs st') -> Q tt st') ->
  wp (TCP_RMV l p) Q st.
Proof.
  intros [[Hc Hn Hd] Hco Hp Hq Hs Ht] HX Hb Hpl Href HQ.
  assert (p <> 0) as Hp0 by (eapply (inv_nonzero P L ls X st); [by split|done]).
  apply TCP_RMV_spec with b (ls l); [done..|]. intros h hs Hr Ho Hpb Hhs Hch. apply HQ; try done.
  - split; cbn; try done.
    + split.
      * intros l'. cbn. destruct (decide (l' = l)) as [->|Hl]; [done|]. unfold drop_pcb.
        rewrite without_notin by (intros Hpl'%Hpl; done). rewrite Hhs by done.
        apply (chain_same_next (pcbs st)); [|done]. intros a Ha. rewrite Ho; [done|].
        rewrite elem_of_cons. intros [->|Hal]; [by apply Hpl in Ha|]. by apply Hl, (Hd l' l a).
      * intros l'. by apply list.NoDup_filter.
      * intros l1 l2 a [H1 _]%elem_of_drop [H2 _]%elem_of_drop. by apply (Hd l1 l2 a).
    + apply (content_ok_relinked _ _ (pcbs st)); [done|]. apply (content_ok_places ls _ X _ p); [done|..|done].
      * intros a w Ha. by apply placed_drop.
      * intros a ba ca Hba Hca Hex [H|H]; [by left|right]. apply elem_of_drop. split; [done|].
        intros Hl. rewrite Hl in H. by apply (Href H a ba ca).
    + by apply (pool_ok_relinked _ _ _ (pcbs st)).
    + by apply (pool_ok_relinked _ _ _ (pcbs st)).
  - split; [done..|]. intros l0 b0 r Hb0 Hr0. cbn.
    destruct (relinked_lookup _ _ _ _ Hr Hb0) as [n Hn']. by exists (set_next n b0), r.
Qed.

Lemma wp_TCP_REG ls X l p b (Q : unit -> tcp E -> Prop) st :
  Inv ls X st -> p ∈ X -> pcbs st !! p = Some b -> (forall l', p ∉ ls l') ->
  (forall st' n, Inv (add_pcb l p ls) X st' -> pcbs st' !! p = Some (set_next n b) -> calm st st' ->
     relinked (pcbs st) (pcbs st') -> Q tt st') ->
  wp (TCP_REG l p) Q st.
Proof.
  intros Hi HX Hb Hpl HQ. pose proof (inv_nonzero _ _ _ _ _ _ _ Hi Hb) as Hp0.
  destruct (Hi) as [[Hc Hn Hd] Hco Hp Hq Hs Ht].
  apply TCP_REG_spec with (ls l) b; [done..|]. intros st' e -> Hch. cbn in Hch.
  assert (relinked (pcbs st) (<[p := set_next (heads st l) b]> (pcbs st))) as Hr by by apply relinked_insert.
  apply (HQ _ (heads st l)).
  - split; cbn; try done.
    + split.
      * intros l'. unfold add_pcb. destruct (decide (l = l')) as [<-|Hl].
        { rewrite fn_lookup_insert. exact Hch. }
        cbn. rewrite !fn_lookup_insert_ne by done. by apply chain_insert.
      * intros l'. unfold add_pcb. destruct (decide (l = l')) as [<-|Hl].
        { rewrite fn_lookup_insert. by constructor. }
        by rewrite fn_lookup_insert_ne.
      * intros l1 l2 a H1 H2. apply elem_of_add in H1 as [[E1 E2]|H1], H2 as [[E3 E4]|H2]; [congruence|..].
        { rewrite E1 in H2. by apply Hpl in H2. }
        { rewrite E3 in H1. by apply Hpl in H1. }
        by apply (Hd l1 l2 a).
    + apply (content_ok_relinked _ _ (pcbs st)); [done|]. apply (content_ok_places ls _ X _ p); [done|..|done].
      * intros a w Ha. by apply placed_add.
      * intros a ba ca _ _ _ [H|H]; [by left|right]. apply elem_of_add. by right.
    + by apply (pool_ok_relinked _ _ _ (pcbs st)).
    + by apply (pool_ok_relinked _ _ _ (pcbs st)).
  - cbn. by rewrite lookup_insert_eq.
  - split; [done..|]. intros l0 b0 r Hb0 Hr0. cbn.
    destruct (relinked_lookup _ _ _ _ Hr Hb0) as [n Hn']. by exists (set_next n b0), r.
  - done.
Qed.

(** No connection counts for a block that is no listener yet. *)
Lemma inv_no_pend ls X st p : Inv ls X st -> p <> 0 -> p ∉ ls LISTEN_PCBS -> pend_count p (pcbs st) = 0%nat.
Proof.
  intros Hi Hp Hl. apply pend_count_zero. intros a b Hb. unfold pends_on. destruct (rest b) as [c|] eqn:Hc; [|tauto].
  intros [E1 E2]. destruct (content_listener _ _ _ (inv_content _ _ _ _ _ Hi) a b c) as [H|H]; [done..|by right| |]; congruence.
Qed.
End steps.
