(* ===== verification/TcpPools.v ===== *)
(** * Blocks between the pools and the lists

    A block that [memp_malloc] hands out belongs to no pool until it is
    initialised; one that is given back must be in no list and count nowhere. *)
From S2P Require Import Prelude Lwip Pbuf ChecksumPbuf TcpPcb TcpOut Tcp TcpWp TcpLists TcpInv TcpSteps.

Lemma pool_ok_pop S kind a free h :
  pool_ok S kind (a :: free) h -> pool_ok (S ∖ {[a]}) kind free h.
Proof.
  intros [Hn Hf Hu Ha]. apply NoDup_cons in Hn as [Hna Hn]. split; [done|..].
  - intros x Hx. destruct (Hf x) as [HS Hh]; [by right|]. split; [|done]. set_solver.
  - intros x b Hb Hk. apply elem_of_difference. split; [by apply (Hu x b)|].
    intros ->%elem_of_singleton. destruct (Hf a) as [_ Hh]; [by left|]. congruence.
  - intros x [HS Hx]%elem_of_difference. destruct (Ha x HS) as [[->|H]%elem_of_cons|H]; [set_solver|by left|by right].
Qed.

Lemma pool_ok_new S kind a b free h :
  a ∈ S -> h !! a = None -> kind b = true -> pool_ok (S ∖ {[a]}) kind free h -> pool_ok S kind free (<[a := b]> h).
Proof.
  intros HaS Hh Hk [Hn Hf Hu Ha]. split; [done|..].
  - intros x [HS Hx]%Hf. rewrite lookup_insert_ne by set_solver. split; [set_solver|done].
  - intros x c. destruct (decide (x = a)) as [->|]; [done|]. rewrite lookup_insert_ne by done.
    intros Hc Hkc. specialize (Hu x c Hc Hkc). set_solver.
  - intros x HS. destruct (decide (x = a)) as [->|].
    + right. exists b. by rewrite lookup_insert_eq.
    + rewrite lookup_insert_ne by done. apply Ha. set_solver.
Qed.

Lemma pool_ok_new_other S kind a b free h :
  a ∉ S -> h !! a = None -> kind b = false -> pool_ok S kind free h -> pool_ok S kind free (<[a := b]> h).
Proof.
  intros HaS Hh Hk [Hn Hf Hu Ha]. split; [done|..].
  - intros x [HS Hx]%Hf. rewrite lookup_insert_ne by set_solver. done.
  - intros x c. destruct (decide (x = a)) as [->|].
    + rewrite lookup_insert_eq. intros [= <-]. by rewrite Hk.
    + rewrite lookup_insert_ne by done. apply Hu.
  - intros x [H|(c & Hc & Hkc)]%Ha; [by left|right]. exists c. rewrite lookup_insert_ne; [done|congruence].
Qed.

Lemma pool_ok_free S kind a b free h :
  h !! a = Some b -> kind b = true -> pool_ok S kind free h -> pool_ok S kind (a :: free) (delete a h).
Proof.
  intros Hb Hk [Hn Hf Hu Ha]. split.
  - constructor; [|done]. intros [_ Hh]%Hf. congruence.
  - intros x [->|Hx]%elem_of_cons; [split; [by apply (Hu a b)|apply lookup_delete_eq]|].
    apply Hf in Hx as [HS Hh]. split; [done|]. rewrite lookup_delete_ne; [done|congruence].
  - intros x c [_ Hc]%lookup_delete_Some. by apply Hu.
  - intros x HS. destruct (decide (x = a)) as [->|]; [left; by left|].
    destruct (Ha x HS) as [H|(c & Hc & Hkc)]; [left; by right|right]. exists c. by rewrite lookup_delete_ne.
Qed.

Lemma pool_ok_free_other S kind a b free h :
  h !! a = Some b -> kind b = false -> pool_ok S kind free h -> pool_ok S kind free (delete a h).
Proof.
  intros Hb Hk [Hn Hf Hu Ha]. split; [done|..].
  - intros x [HS Hx]%Hf. split; [done|]. by apply lookup_delete_None; right.
  - intros x c [_ Hc]%lookup_delete_Some. by apply Hu.
  - intros x [H|(c & Hc & Hkc)]%Ha; [by left|right]. exists c. rewrite lookup_delete_ne; [done|congruence].
Qed.

Section pools.
Context {E : Type} `{!TcpEnv E}.
Implicit Types (st : tcp E) (ls : pcb_list -> list Z) (X P L : gset Z).

(** ** From the pool *)

Lemma wp_memp_malloc_pcb P L ls X (Q : Z -> tcp E -> Prop) st :
  Inv P L ls X st -> (pcb_free st = [] -> Q 0 st) ->
  (forall a st', a <> 0 -> a ∈ P -> a ∉ L -> pcbs st' !! a = None -> Inv (P ∖ {[a]}) L ls X st' -> calm st st' ->
     Q a st') ->
  wp memp_malloc_pcb Q st.
Proof.
  intros [Hl Hc Hp Hq (HPL & H0 & H0') Ht] Hnone Hsome. unfold wp, memp_malloc_pcb.
  destruct (pcb_free st) as [|a fl] eqn:Hfl.
  { exists 0, st. auto. }
  exists a, (set_pcb_free fl st). split; [done|]. destruct (pool_free _ _ _ _ Hp a) as [HaP Ha]; [by left|].
  apply Hsome; [congruence|done|set_solver|done| |by apply calm_same].
  split; try done.
  - destruct Hl. by split.
  - by apply pool_ok_pop.
  - set_solver.
Qed.

Lemma wp_memp_malloc_lpcb P L ls X (Q : Z -> tcp E -> Prop) st :
  Inv P L ls X st -> (lpcb_free st = [] -> Q 0 st) ->
  (forall a st', a <> 0 -> a ∈ L -> a ∉ P -> pcbs st' = pcbs st -> pcbs st !! a = None -> Inv P (L ∖ {[a]}) ls X st' ->
     calm st st' -> Q a st') ->
  wp memp_malloc_lpcb Q st.
Proof.
  intros [Hl Hc Hp Hq (HPL & H0 & H0') Ht] Hnone Hsome. unfold wp, memp_malloc_lpcb.
  destruct (lpcb_free st) as [|a fl] eqn:Hfl.
  { exists 0, st. auto. }
  exists a, (set_lpcb_free fl st). split; [done|]. destruct (pool_free _ _ _ _ Hq a) as [HaP Ha]; [by left|].
  apply Hsome; [congruence|done|set_solver|done|done| |by apply calm_same].
  split; try done.
  - destruct Hl. by split.
  - by apply pool_ok_pop.
  - set_solver.
Qed.

(** A new block in no list. *)
Lemma lists_ok_new ls st a b :
  pcbs st !! a = None -> lists_ok ls st -> lists_ok ls (set_pcbs (<[a := b]> (pcbs st)) st).
Proof.
  intros Ha [Hc Hn Hd]. split; [|done..]. intros l. apply chain_insert; [|apply Hc].
  intros Hin. destruct (chain_in _ _ _ _ (Hc l) Hin) as [_ [? ?]]. cbn in *. congruence.
Qed.
Lemma content_ok_new ls X h a b :
  h !! a = None -> (forall l, a ∉ ls l) -> (forall l, l <> 0 -> ~ pends_on l b) -> 0 ∉ ls LISTEN_PCBS ->
  (a ∉ X -> pcb_ok None b) ->
  (forall c, rest b = Conn c -> a ∉ X \/ tcp_is_flag_set c TF_BACKLOGPEND = true -> refers_ok ls c) ->
  content_ok ls X h -> content_ok ls X (<[a := b]> h).
Proof.
  intros Ha Hls Hp H0 Hok Hr [H1 H2 H3]. split.
  - intros w x c Hw. destruct (decide (x = a)) as [->|].
    + rewrite lookup_insert_eq. intros [= <-] HX. destruct w as [l|]; [by apply Hls in Hw|by apply Hok].
    + rewrite lookup_insert_ne by done. by apply H1.
  - intros x d c. destruct (decide (x = a)) as [->|].
    + rewrite lookup_insert_eq. intros [= <-]. by apply Hr.
    + rewrite lookup_insert_ne by done. by apply H2.
  - intros l d r Hl HX. destruct (decide (l = a)) as [->|]; [by apply Hls in Hl|].
    rewrite lookup_insert_ne, pend_count_fresh by (done || (apply Hp; congruence)). by apply H3.
Qed.

Lemma wp_new_pcb P L ls X a b c (Q : unit -> tcp E -> Prop) st :
  Inv (P ∖ {[a]}) L ls X st -> a <> 0 -> a ∈ P -> a ∉ L -> pcbs st !! a = None -> rest b = Conn c ->
  pcb_ok None b -> tcp_is_flag_set c TF_BACKLOGPEND = false ->
  (forall st', Inv P L ls X st' -> pcbs st' !! a = Some b -> (forall l, a ∉ ls l) -> calm st st' -> Q tt st') ->
  wp (new_pcb a b) Q st.
Proof.
  intros [Hl Hc Hp Hq (HPL & H0 & H0') Ht] Ha0 HaP HaL Ha Hb Hok Hf HQ. apply wp_modify.
  assert (forall l, a ∉ ls l) as Hls.
  { intros l Hin. destruct (chain_in _ _ _ _ (lists_chain _ _ Hl l) Hin) as [_ [? ?]]. congruence. }
  assert (is_conn b = true) as Hk by (unfold is_conn; by rewrite Hb).
  apply HQ; [|apply lookup_insert_eq|done|].
  2: { split; [done..|]. intros l d r Hd Hr. exists d, r. cbn. rewrite lookup_insert_ne; [done|congruence]. }
  split; try done.
  - by apply lists_ok_new.
  - apply content_ok_new; try done.
    + intros l _. unfold pends_on. rewrite Hb, Hf. by intros [_ ?].
    + apply (chain_zero_notin _ _ _ (lists_chain _ _ Hl LISTEN_PCBS)).
    + intros d Hd _. destruct Hok as (_ & _ & Hu). unfold unclaimed in Hu. rewrite Hb in *. left. congruence.
  - by apply pool_ok_new.
  - apply pool_ok_new_other; try done. unfold is_listening. by rewrite Hk.
  - set_solver.
Qed.

(** A new listener, which goes into its list next. *)
Lemma wp_new_lpcb P L ls X a b r (Q : unit -> tcp E -> Prop) st :
  Inv P (L ∖ {[a]}) ls X st -> a <> 0 -> a ∈ L -> a ∉ P -> pcbs st !! a = None -> rest b = Listening r -> a ∈ X ->
  (forall st', Inv P L ls X st' -> pcbs st' !! a = Some b -> (forall l, a ∉ ls l) -> calm st st' ->
     pcbs st' = <[a := b]> (pcbs st) -> Q tt st') ->
  wp (new_pcb a b) Q st.
Proof.
  intros [Hl Hc Hp Hq (HPL & H0 & H0') Ht] Ha0 HaL HaP Ha Hb HX HQ. apply wp_modify.
  assert (forall l, a ∉ ls l) as Hls.
  { intros l Hin. destruct (chain_in _ _ _ _ (lists_chain _ _ Hl l) Hin) as [_ [? ?]]. congruence. }
  assert (is_conn b = false) as Hk by (unfold is_conn; by rewrite Hb).
  apply HQ; [|apply lookup_insert_eq|done| |done].
  2: { split; [done..|]. intros l d r' Hd Hr. exists d, r'. cbn. rewrite lookup_insert_ne; [done|congruence]. }
  split; try done.
  - by apply lists_ok_new.
  - apply content_ok_new; try done.
    + intros l _. unfold pends_on. rewrite Hb. tauto.
    + apply (chain_zero_notin _ _ _ (lists_chain _ _ Hl LISTEN_PCBS)).
    + intros d Hd. congruence.
  - by apply pool_ok_new_other.
  - apply pool_ok_new; try done. unfold is_listening. by rewrite Hk.
  - set_solver.
Qed.

(** ** Back to the pool *)

Lemma lists_ok_delete ls st a fl fl' :
  (forall l, a ∉ ls l) -> lists_ok ls st ->
  lists_ok ls (set_pcb_free fl (set_lpcb_free fl' (set_pcbs (delete a (pcbs st)) st))).
Proof. intros Ha [Hc Hn Hd]. split; [|done..]. intros l. apply chain_delete; [done|apply Hc]. Qed.
Lemma content_ok_delete ls X h a b :
  h !! a = Some b -> (forall l, a ∉ ls l) -> (forall l, l <> 0 -> ~ pends_on l b) -> 0 ∉ ls LISTEN_PCBS ->
  content_ok ls ({[a]} ∪ X) h -> content_ok ls X (delete a h).
Proof.
  intros Ha Hls Hp H0 [H1 H2 H3]. split.
  - intros w x c Hw [Hx Hc]%lookup_delete_Some HX. apply (H1 w x); [done..|set_solver].
  - intros x d c [Hx Hd]%lookup_delete_Some Hr [HX|HX]; apply (H2 x d); try done; [left; set_solver|by right].
  - intros l d r Hl HX [Hx Hd]%lookup_delete_Some. rewrite (pend_count_delete l a b); [apply H3; [done|set_solver|done]|done|].
    apply Hp. congruence.
Qed.

Lemma wp_tcp_free_exact P L ls X p b c (Q : unit -> tcp E -> Prop) st :
  Inv P L ls ({[p]} ∪ X) st -> pcbs st !! p = Some b -> rest b = Conn c -> state b <> LISTEN -> released b ->
  (forall l, p ∉ ls l) ->
  (forall st', Inv P L ls X st' -> pcbs st' = delete p (pcbs st) -> calm st st' -> Q tt st') -> wp (tcp_free p) Q st.
Proof.
  intros [Hl Hc Hp Hq (HPL & H0 & H0') Ht] Hb Hr Hs Hre Hls HQ. unfold tcp_free.
  apply wp_bind, (wp_load p b); [done|]. apply wp_bind, wp_ASSERT; [by apply negb_true_iff, bool_decide_eq_false|].
  unfold memp_free_pcb. apply wp_bind, (wp_load_conn p b c); [done..|]. apply wp_modify.
  assert (is_conn b = true) as Hk by (unfold is_conn; by rewrite Hr).
  apply HQ; [|done|].
  2: { split; [done..|]. intros l d r Hd Hrd. exists d, r. cbn. rewrite lookup_delete_ne; [done|congruence]. }
  split; try done.
  - apply (lists_ok_delete ls st p (p :: pcb_free st) (lpcb_free st)); done.
  - apply (content_ok_delete ls X _ p b); try done.
    + intros l Hl0. by apply released_pends.
    + apply (chain_zero_notin _ _ _ (lists_chain _ _ Hl LISTEN_PCBS)).
  - by apply (pool_ok_free _ _ _ b).
  - apply (pool_ok_free_other _ _ _ b); try done. unfold is_listening. by rewrite Hk.
Qed.

Lemma wp_tcp_free P L ls X p b c (Q : unit -> tcp E -> Prop) st :
  Inv P L ls ({[p]} ∪ X) st -> pcbs st !! p = Some b -> rest b = Conn c -> state b <> LISTEN -> released b ->
  (forall l, p ∉ ls l) ->
  (forall st', Inv P L ls X st' -> pcbs st' !! p = None -> calm st st' -> Q tt st') -> wp (tcp_free p) Q st.
Proof.
  intros Hi Hb Hr Hs Hre Hls HQ. apply (wp_tcp_free_exact P L ls X p b c); try done.
  intros st' Hi' E1 Hca. apply HQ; [done| |done]. rewrite E1. apply lookup_delete_eq.
Qed.

Lemma wp_memp_free_lpcb P L ls X p b r (Q : unit -> tcp E -> Prop) st :
  Inv P L ls ({[p]} ∪ X) st -> pcbs st !! p = Some b -> rest b = Listening r -> (forall l, p ∉ ls l) ->
  (forall st', Inv P L ls X st' -> pcbs st' !! p = None -> tcp_input_pcb st' = tcp_input_pcb st ->
     recv_flags st' = recv_flags st -> Q tt st') -> wp (memp_free_lpcb p) Q st.
Proof.
  intros [Hl Hc Hp Hq (HPL & H0 & H0') Ht] Hb Hr Hls HQ.
  unfold memp_free_lpcb. apply wp_bind, (wp_load_listening p b r); [done..|]. apply wp_modify.
  assert (is_conn b = false) as Hk by (unfold is_conn; by rewrite Hr).
  apply HQ; [|apply lookup_delete_eq|done|done]. split; try done.
  - apply (lists_ok_delete ls st p (pcb_free st) (p :: lpcb_free st)); done.
  - apply (content_ok_delete ls X _ p b); try done.
    + intros l _. unfold pends_on. rewrite Hr. tauto.
    + apply (chain_zero_notin _ _ _ (lists_chain _ _ Hl LISTEN_PCBS)).
  - by apply (pool_ok_free_other _ _ _ b).
  - apply (pool_ok_free _ _ _ b); try done. unfold is_listening. by rewrite Hk.
Qed.
End pools.
