(* ===== verification/TcpRemove.v ===== *)
(** * Taking a connection out of service

    The backlog is settled, what is queued is freed, the block leaves its list and
    goes back to the pool ([tcp_pcb_purge], [tcp_pcb_remove], [tcp_abandon]). *)
From S2P Require Import Prelude Lwip Pbuf ChecksumPbuf TcpPcb TcpOut Tcp TcpWp TcpLists TcpInv TcpSteps TcpPools.

Section purge.
Context {E : Type} `{!TcpEnv E} (P L : gset Z).
Implicit Types (st : tcp E) (ls : pcb_list -> list Z) (X : gset Z).
Notation Inv := (Inv P L).

(** ** The backlog *)

(** The connection at [p] and the count of the listener [l] change together. *)
Lemma Inv_claim ls X st st' p b c b' c' l bl r n :
  Inv ls X st -> pcbs st !! p = Some b -> rest b = Conn c -> rest b' = Conn c' -> next b' = next b ->
  l ∈ ls LISTEN_PCBS -> l ∉ X -> pcbs st !! l = Some bl -> rest bl = Listening r ->
  (p ∉ X -> forall w, placed ls p w -> pcb_ok w b -> pcb_ok w b') ->
  (p ∉ X \/ tcp_is_flag_set c' TF_BACKLOGPEND = true -> refers_ok ls c') ->
  (forall l', l' <> l -> l' ∈ ls LISTEN_PCBS -> pends_on l' b' <-> pends_on l' b) ->
  n + (if decide (pends_on l b) then 1 else 0) = accepts_pending r + (if decide (pends_on l b') then 1 else 0) ->
  n <= backlog r ->
  pcbs st' = <[p := b']> (<[l := set_rest (Listening (set_accepts_pending n r)) bl]> (pcbs st)) ->
  heads st' = heads st -> pcb_free st' = pcb_free st -> lpcb_free st' = lpcb_free st -> tcp_port st' = tcp_port st ->
  Inv ls X st'.
Proof.
  intros [Hli [H1 H2 H3] Hp Hq Hs Ht] Hb Hr Hr' Hn Hl HlX Hbl Hrl Hok Href Hoth Hcnt Hbk E1 E2 E3 E4 E5.
  assert (p <> l) as Hpl by congruence. set (bl' := set_rest _ bl) in E1. set (h1 := <[l := bl']> (pcbs st)) in E1.
  assert (h1 !! p = Some b) as Hb1 by (unfold h1; by rewrite lookup_insert_ne).
  assert (forall l', pend_count l' h1 = pend_count l' (pcbs st)) as Hc1.
  { intros l'. apply (pend_count_same l' l bl); [done|]. unfold pends_on. by rewrite Hrl. }
  split; rewrite ?E3, ?E4, ?E5; try done.
  - apply (lists_ok_insert ls (set_pcbs h1 st) st' p b b'); try done. by apply (lists_ok_insert ls st _ l bl bl').
  - rewrite E1. split.
    + intros w a d Hw. destruct (decide (a = p)) as [->|].
      * rewrite lookup_insert_eq. intros [= <-] HX. apply Hok; [done..|]. by apply (H1 w p).
      * rewrite lookup_insert_ne by done. unfold h1. destruct (decide (a = l)) as [->|].
        -- rewrite lookup_insert_eq. intros [= <-] HX. assert (pcb_ok w bl) as Hwl by by apply (H1 w l).
           clear -Hwl Hrl. destruct w as [[]|]; cbn [pcb_ok] in *; unfold listening_ok, conn_ok, unclaimed in *; cbn;
             rewrite Hrl in Hwl; tauto.
        -- rewrite lookup_insert_ne by done. by apply H1.
    + intros a d e. destruct (decide (a = p)) as [->|].
      * rewrite lookup_insert_eq. intros [= <-]. rewrite Hr'. intros [= <-]. apply Href.
      * rewrite lookup_insert_ne by done. unfold h1. destruct (decide (a = l)) as [->|].
        -- rewrite lookup_insert_eq. by intros [= <-].
        -- rewrite lookup_insert_ne by done. by apply H2.
    + intros l' d r' Hl' HX'. rewrite pend_count_insert.
      pose proof (pend_count_lookup l' p b h1 Hb1) as Hcnt'. rewrite Hc1 in Hcnt'.
      destruct (decide (l' = p)) as [->|]; [rewrite lookup_insert_eq; intros [= <-]; congruence|].
      rewrite lookup_insert_ne by done. unfold h1 at 1. destruct (decide (l' = l)) as [->|Hll].
      * rewrite lookup_insert_eq. intros [= <-]. intros [= <-]. destruct (H3 l bl r) as [E6 E7]; [done..|]. cbn.
        split; [|done]. destruct (decide (pends_on l b)), (decide (pends_on l b')); lia.
      * rewrite lookup_insert_ne by done. intros Hd Hr'2. destruct (H3 l' d r') as [E6 E7]; [done..|]. split; [|done].
        specialize (Hoth l' Hll Hl'). destruct (decide (pends_on l' b)), (decide (pends_on l' b')); (lia || tauto).
  - rewrite E1. apply (pool_ok_same _ _ _ _ _ b); [done| |apply (pool_ok_same _ _ _ _ _ bl); [done| |done]].
    all: unfold is_conn; cbn [rest set_rest bl']; by rewrite ?Hr, ?Hr', ?Hrl.
  - rewrite E1. apply (pool_ok_same _ _ _ _ _ b); [done| |apply (pool_ok_same _ _ _ _ _ bl); [done| |done]].
    all: unfold is_listening, is_conn; cbn [rest set_rest bl']; by rewrite ?Hr, ?Hr', ?Hrl.
Qed.

(** A listener a connection refers to is there. *)
Lemma inv_listener ls X st l :
  Inv ls X st -> l ∈ ls LISTEN_PCBS -> l ∉ X ->
  exists bl r, pcbs st !! l = Some bl /\ rest bl = Listening r /\ state bl = LISTEN /\
    0 < backlog r < 256 /\ fn_accept r <> FN_NULL /\
    accepts_pending r = Z.of_nat (pend_count l (pcbs st)) /\ accepts_pending r <= backlog r.
Proof.
  intros Hi Hl HX. destruct (inv_in _ _ _ _ _ _ _ Hi Hl) as [_ [bl Hbl]].
  destruct (inv_placed _ _ _ _ _ _ (Some LISTEN_PCBS) bl Hi Hl Hbl HX) as [Hs Ho]. unfold listening_ok in Ho.
  destruct (rest bl) as [|r] eqn:Hr; [done|]. exists bl, r.
  destruct (content_pending _ _ _ (inv_content _ _ _ _ _ Hi) l bl r) as [? ?]; [done..|]. tauto.
Qed.

(** No listener is being closed. *)
Definition listeners_settled ls X : Prop := forall l, l ∈ ls LISTEN_PCBS -> l ∉ X.

Lemma wp_tcp_backlog_accepted ls X p b c (Q : unit -> tcp E -> Prop) st :
  Inv ls X st -> listeners_settled ls X -> pcbs st !! p = Some b -> rest b = Conn c ->
  (forall c' st', (c' = c \/ c' = tcp_clear_flags TF_BACKLOGPEND c) -> released (set_rest (Conn c') b) ->
     pcbs st' !! p = Some (set_rest (Conn c') b) -> Inv ls X st' -> calm st st' -> Q tt st') ->
  wp (tcp_backlog_accepted p) Q st.
Proof.
  intros Hi HLX Hb Hr HQ. unfold tcp_backlog_accepted. apply wp_bind, (wp_load_conn p b c); [done..|].
  assert (forall c0, rest b = Conn c0 -> b = set_rest (Conn c0) b) as Hid by (intros c0 <-; by destruct b).
  destruct (tcp_is_flag_set c TF_BACKLOGPEND) eqn:Hf.
  2: { apply wp_ret, (HQ c); try done; [by left|by right|]. by rewrite <- Hid. }
  destruct (Z.eqb_spec (listener c) 0) as [H0|H0].
  { apply wp_ret, (HQ c); try done; [by left|by left|]. by rewrite <- Hid. }
  set (l := listener c). assert (l ∈ ls LISTEN_PCBS) as Hl.
  { destruct (content_listener _ _ _ (inv_content _ _ _ _ _ Hi) p b c) as [?|?]; try done. by right. }
  destruct (inv_listener ls X st l Hi Hl (HLX l Hl)) as (bl & r & Hbl & Hrl & _ & Hbk & _ & Hac & Hab).
  assert (p <> l) as Hpl by congruence. assert (pends_on l b) as Hpo by (unfold pends_on; by rewrite Hr).
  pose proof (pend_count_pos l p b _ Hb Hpo) as Hpos.
  apply wp_bind, (wp_load_listening _ bl r); [done..|]. apply wp_bind, wp_ASSERT; [lia|].
  apply wp_bind, (wp_store_listening _ _ bl r); [done..|].
  apply (wp_store_conn p _ b c); [cbn; by rewrite lookup_insert_ne|done|].
  assert (tcp_is_flag_set (tcp_clear_flags TF_BACKLOGPEND c) TF_BACKLOGPEND = false) as Hcl by by apply has_clear_same.
  assert (forall l', ~ pends_on l' (set_rest (Conn (tcp_clear_flags TF_BACKLOGPEND c)) b)) as Hno.
  { intros l'. unfold pends_on. cbn [rest set_rest]. rewrite Hcl. by intros [_ ?]. }
  replace (u8 (accepts_pending r - 1)) with (accepts_pending r - 1) by (unfold u8; rewrite Z.mod_small; lia).
  apply (HQ (tcp_clear_flags TF_BACKLOGPEND c)).
  - by right.
  - by right.
  - apply lookup_insert_eq.
  - apply (Inv_claim ls X st _ p b c (set_rest (Conn (tcp_clear_flags TF_BACKLOGPEND c)) b)
      (tcp_clear_flags TF_BACKLOGPEND c) l bl r (accepts_pending r - 1)); try done; [by apply HLX|..].
    + intros _ w _. destruct w as [[]|]; cbn [pcb_ok]; unfold conn_ok, counted_ok, unclaimed, released, listening_ok; cbn [rest set_rest];
        rewrite Hr; cbn; tauto.
    + intros _. right. exact Hl.
    + intros l' Hll' _. split; [by intros ?%Hno|]. unfold pends_on. rewrite Hr. intros [? _]. subst l. congruence.
    + destruct (decide (pends_on l b)); [|done]. destruct (decide _) as [Hd|]; [by apply Hno in Hd|lia].
    + lia.
  - split; [done..|]. intros l0 b0 r0 Hb0 Hr0. cbn. rewrite lookup_insert_ne by congruence.
    destruct (decide (l0 = l)) as [->|].
    + rewrite lookup_insert_eq. rewrite Hbl in Hb0. injection Hb0 as <-. rewrite Hrl in Hr0. injection Hr0 as <-.
      eexists _, _. split_and!; [done..|]. cbn. lia.
    + rewrite lookup_insert_ne by done. by exists b0, r0.
Qed.
End purge.

(** ** Removing a connection ([tcp_pcb_purge], [tcp_pcb_remove], [tcp_abandon]) *)

(** Nothing is queued any more. *)
Record emptied (c c' : tcp_conn) : Prop := Emptied {
  em_listener : listener c' = listener c;
  em_pending : tcp_is_flag_set c' TF_BACKLOGPEND = tcp_is_flag_set c TF_BACKLOGPEND;
  em_unsent : unsent (tx c') = [];
  em_unacked : unacked (tx c') = [];
  em_ooseq : ooseq (tx c') = [];
  em_refused : refused_ok c -> refused_ok c';
  em_window : window_ok (tx c) -> window_ok (tx c') }.

Lemma emptied_trans c1 c2 c3 : emptied c1 c2 -> emptied c2 c3 -> emptied c1 c3.
Proof. intros [] []. split; first [congruence|tauto]. Qed.

Section remove.
Context {E : Type} `{!TcpEnv E} (P L : gset Z).
Implicit Types (st : tcp E) (ls : pcb_list -> list Z) (X : gset Z).
Notation Inv := (Inv P L).

(** The part of [tcp_pcb_purge] after the backlog. *)
Lemma purge_local p b c e st :
  local p
    (c ← load_conn p;
     (if refused_data c =? 0 then mret tt
      else effect (pbuf_free (refused_data c)) ;; store_conn p (set_refused_data 0)) ;;
     tcp_free_ooseq p ;;
     store_tv p rtime (-1) ;;
     tcp_segs_free (unsent (tx c)) ;;
     tcp_segs_free (unacked (tx c)) ;;
     store_tx p (fun t => set_unacked [] (set_unsent [] t)) ;;
     store_tv p unsent_oversize 0)
    (fun _ b' c' _ => b' = b /\ emptied c c' /\ refused_data c' = 0) b c e st.
Proof.
  unfold tcp_free_ooseq, tcp_segs_free. lstep. lstep. lstep. apply local_mono with
    (fun _ b' c' _ => b' = b /\ listener c' = listener c /\ flags c' = flags c /\ tx c' = tx c /\
       fn_recv c' = fn_recv c /\ refused_data c' = 0).
  { destruct (Z.eqb_spec (refused_data c) 0) as [H0|]; repeat lstep; by split_and!. }
  intros [] b1 c1 e1 (-> & H1 & H2 & H3 & H4 & H5). do 3 lstep.
  destruct (ooseq (tx c1)) as [|seg q] eqn:Ho; cbn [is_nil]; repeat lstep; (split; [done|split; [|done]]).
  all: destruct c1 as [rp fl pi lt tm t rd li f1 f2 f3 f4 f5]; cbn in *; subst; split; cbn; try done.
  all: try (unfold tcp_is_flag_set; cbn; congruence).
  all: unfold window_ok; cbn; by tvs.
Qed.

(** Releasing keeps what concerns the transfer. *)
Lemma emptied_clear c c1 c' :
  c1 = c \/ c1 = tcp_clear_flags TF_BACKLOGPEND c -> emptied c1 c' ->
  (refused_ok c -> refused_ok c') /\ (window_ok (tx c) -> window_ok (tx c')).
Proof. intros [->| ->] [? ? ? ? ? Hr Hw]; done. Qed.

Lemma released_emptied b c c' : emptied c c' -> released (set_rest (Conn c) b) -> released (set_rest (Conn c') b).
Proof. intros [Hl Hf _ _ _ _ _]. unfold released. cbn. by rewrite Hl, Hf. Qed.

Lemma Inv_emptied ls X st p b c c' e :
  Inv ls X st -> p ∈ X -> pcbs st !! p = Some b -> rest b = Conn c -> emptied c c' ->
  Inv ls X (at_conn p b c' e st).
Proof. intros Hi HX Hb Hr [Hl Hf _ _ _ _ _]. by apply (Inv_at_conn P L ls X st p b c). Qed.

(** In a state with data: everything queued is gone, the listener is told. *)
Lemma wp_tcp_pcb_purge ls X p b c (Q : unit -> tcp E -> Prop) st :
  Inv ls X st -> p ∈ X -> listeners_settled ls X -> pcbs st !! p = Some b -> rest b = Conn c ->
  no_data (state b) = false ->
  (forall c' st', pcbs st' !! p = Some (set_rest (Conn c') b) -> Inv ls X st' -> calm st st' ->
     listener c' = listener c -> released (set_rest (Conn c') b) -> unsent (tx c') = [] -> unacked (tx c') = [] ->
     ooseq (tx c') = [] -> refused_data c' = 0 -> (window_ok (tx c) -> window_ok (tx c')) -> Q tt st') ->
  wp (tcp_pcb_purge p) Q st.
Proof.
  intros Hi HX HLX Hb Hr Hs HQ. unfold tcp_pcb_purge. apply wp_bind, (wp_load p b); [done|]. rewrite Hs.
  apply wp_bind, (wp_tcp_backlog_accepted P L ls X p b c); [done..|].
  intros c1 st1 Hc1 Hre Hb1 Hi1 Hca1.
  eapply (wp_local _ p b c1 _ Q st1 Hb1); [apply purge_local|].
  intros [] b' c' e' (-> & Hem & Hrd) Hca. destruct (emptied_clear c c1 c' Hc1 Hem) as [_ Hw].
  apply (HQ c').
  - apply at_conn_lookup.
  - by apply (Inv_emptied ls X st1 p (set_rest (Conn c1) b) c1).
  - by transitivity st1.
  - rewrite (em_listener _ _ Hem). by destruct Hc1 as [->| ->].
  - by apply (released_emptied b c1).
  - apply Hem.
  - apply Hem.
  - apply Hem.
  - done.
  - done.
Qed.

(** ** An acknowledgment that was put off *)

(** The flags and the window of a connection without segments to send. *)
Record acked (c c' : tcp_conn) : Prop := Acked {
  ak_listener : listener c' = listener c;
  ak_pending : tcp_is_flag_set c' TF_BACKLOGPEND = tcp_is_flag_set c TF_BACKLOGPEND;
  ak_unsent : unsent (tx c') = unsent (tx c);
  ak_unacked : unacked (tx c') = unacked (tx c);
  ak_ooseq : ooseq (tx c') = ooseq (tx c);
  ak_refused : refused_data c' = refused_data c;
  ak_recv : fn_recv c' = fn_recv c;
  ak_window : window_ok (tx c) -> window_ok (tx c') }.

Ltac acked_done := split; first [reflexivity | window_done | solve [flags_other]].

Lemma tcp_output_nothing p b c e st :
  state b <> LISTEN -> unsent (tx c) = [] ->
  local p (tcp_output p) (fun _ b' c' _ => b' = b /\ acked c c') b c e st.
Proof.
  intros Hs Hu. unfold tcp_output. do 3 lstep. apply local_ASSERT.
  { cbn. by apply negb_true_iff, bool_decide_eq_false. }
  do 2 lstep. lstep; [lstep; split; [done|by split]|]. do 2 lstep. rewrite Hu.
  unfold tcp_send_empty_ack, announce_window, output_done. repeat lstep; (split; [done|acked_done]).
Qed.

Lemma send_delayed_ack_local p b c e st :
  unsent (tx c) = [] -> local p (send_delayed_ack p) (fun _ b' c' _ => b' = b /\ acked c c') b c e st.
Proof.
  intros Hu. unfold send_delayed_ack. do 2 lstep. cbn [state set_rest].
  destruct (state b) eqn:Hs; try (lstep; split; [done|by split]).
  all: do 2 lstep; destruct (has (flags c) TF_ACK_DELAY); [|lstep; split; [done|by split]].
  all: do 3 lstep; eapply local_mono; [apply tcp_output_nothing; [congruence|done]|].
  all: intros a b' c' e' (-> & Ha); lstep; split; [done|]; destruct Ha; split; try done.
  all: etransitivity; [eassumption|flags_other].
Qed.

(** ** [tcp_pcb_remove] *)

(** The part after the purge. *)
Definition remove_tail (p : Z) : tcpM E unit :=
  send_delayed_ack p ;;
  b ← load p;
  (if bool_decide (state b = LISTEN) then mret tt
   else
     c ← load_conn p;
     ASSERT (is_nil (unsent (tx c))) ;;
     ASSERT (is_nil (unacked (tx c))) ;;
     ASSERT (is_nil (ooseq (tx c)))) ;;
  store p (set_state CLOSED) ;;
  store p (set_local_port 0).

Lemma remove_tail_local p b c e st :
  state b <> LISTEN -> unsent (tx c) = [] -> unacked (tx c) = [] -> ooseq (tx c) = [] ->
  local p (remove_tail p)
    (fun _ b' c' _ => b' = set_local_port 0 (set_state CLOSED b) /\ acked c c') b c e st.
Proof.
  intros Hs Hu Ha Ho. unfold remove_tail. lstep. eapply local_mono; [by apply send_delayed_ack_local|].
  intros [] b' c' e' [-> Hak]. pose proof Hak as [_ _ Hu' Ha' Ho' _ _ _]. rewrite Hu in Hu'. rewrite Ha in Ha'.
  rewrite Ho in Ho'. do 3 lstep. cbn [state set_rest]. rewrite (bool_decide_eq_false_2 _ Hs). do 2 lstep.
  rewrite Hu', Ha', Ho'. lstep. apply local_ASSERT; [done|]. lstep. apply local_ASSERT; [done|].
  apply local_ASSERT; [done|]. do 2 lstep. lstep. done.
Qed.

(** The queues of a state without data are empty and its listener has no claim. *)
Definition idle (b : tcp_pcb) (c : tcp_conn) : Prop :=
  no_data (state b) = true ->
  released b /\ unsent (tx c) = [] /\ unacked (tx c) = [] /\ ooseq (tx c) = [].

Lemma released_acked b b' c c' : rest b = Conn c -> acked c c' -> released b -> released (set_rest (Conn c') b').
Proof. intros Hr [Hl Hf _ _ _ _ _ _]. unfold released. rewrite Hr. cbn. by rewrite Hl, Hf. Qed.

Lemma wp_tcp_pcb_remove ls X l p b c (Q : unit -> tcp E -> Prop) st :
  Inv ls X st -> p ∈ X -> listeners_settled ls X -> pcbs st !! p = Some b -> rest b = Conn c ->
  l <> LISTEN_PCBS -> (forall l', p ∈ ls l' -> l' = l) -> state b <> LISTEN -> idle b c ->
  (forall b' c' st', pcbs st' !! p = Some b' -> rest b' = Conn c' -> state b' = CLOSED -> released b' ->
     Inv (drop_pcb p ls) X st' -> calm st st' -> Q tt st') ->
  wp (tcp_pcb_remove l p) Q st.
Proof.
  intros Hi HX HLX Hb Hr Hl Hpl Hs Hid HQ. unfold tcp_pcb_remove.
  apply wp_bind, (wp_TCP_RMV P L ls X l p b); [done..| |].
  { intros Hin. by apply Hpl in Hin. }
  intros st1 Hi1 Hb1 Hca1 _.
  assert (listeners_settled (drop_pcb p ls) X) as HLX1 by (intros x [Hx _]%elem_of_drop; by apply HLX).
  assert (forall c2 st2, pcbs st2 !! p = Some (set_rest (Conn c2) (set_next 0 b)) -> Inv (drop_pcb p ls) X st2 ->
    calm st st2 -> released (set_rest (Conn c2) b) -> unsent (tx c2) = [] -> unacked (tx c2) = [] -> ooseq (tx c2) = [] ->
    wp (remove_tail p) Q st2) as Htail.
  { intros c2 st2 Hb2 Hi2 Hca2 Hre2 Hu Ha Ho.
    eapply (wp_local _ p (set_next 0 b) c2); [done|by apply remove_tail_local|].
    intros [] b' c' e' [-> Hak] Hca3. eapply HQ.
    - apply at_conn_lookup.
    - done.
    - done.
    - by apply (released_acked (set_rest (Conn c2) b) _ c2).
    - destruct Hak. by apply (Inv_at_conn P L _ X st2 p (set_rest (Conn c2) (set_next 0 b)) c2).
    - by transitivity st2. }
  apply wp_bind. destruct (no_data (state b)) eqn:Hnd.
  - unfold tcp_pcb_purge. apply wp_bind, (wp_load p (set_next 0 b)); [done|]. cbn [state set_next]. rewrite Hnd.
    destruct (Hid Hnd) as (Hre & Hu & Ha & Ho). apply wp_ret, (Htail c); try done.
    + by rewrite Hb1, set_rest_id.
    + by rewrite (set_rest_id b).
  - eapply (wp_tcp_pcb_purge (drop_pcb p ls) X p (set_next 0 b) c); try done.
    intros c2 st2 Hb2 Hi2 Hca2 _ Hre Hu Ha Ho _ _. apply (Htail c2); try done. by transitivity st1.
Qed.

(** ** [tcp_abandon] *)

(** The list for the blocks in a state. *)
Definition home (s : tcp_state) : pcb_list :=
  match s with CLOSED => BOUND_PCBS | LISTEN => LISTEN_PCBS | TIME_WAIT => TW_PCBS | _ => ACTIVE_PCBS end.

(** A connection that can be taken out of service: in the list of its state, or in none. *)
Record leaving ls (p : Z) (b : tcp_pcb) (c : tcp_conn) : Prop := Leaving {
  lv_rest : rest b = Conn c;
  lv_state : state b <> LISTEN;
  lv_home l : p ∈ ls l -> l = home (state b);
  lv_released : no_data (state b) = true -> released b;
  lv_ok : conn_ok b;
  lv_unbound : state b = CLOSED -> local_port b = 0 -> forall l, p ∉ ls l }.

Lemma active_home s : active s -> home s = ACTIVE_PCBS /\ s <> LISTEN /\ no_data s = false.
Proof. by destruct s. Qed.

Lemma inv_leaving ls X st p b c :
  Inv ls X st -> p ∉ X -> pcbs st !! p = Some b -> rest b = Conn c -> leaving ls p b c.
Proof.
  intros Hi HX Hb Hr. destruct (placed_exists ls p) as [w Hw].
  pose proof (inv_placed _ _ _ _ _ _ w b Hi Hw Hb HX) as Hok.
  assert (forall l, w = Some l -> forall l', p ∈ ls l' -> l' = l) as Hone.
  { intros l -> l' Hl'. by apply (lists_disjoint _ _ (inv_lists _ _ _ _ _ Hi) l' l p). }
  destruct w as [[]|]; cbn [pcb_ok placed] in Hok, Hw.
  - destruct Hok as [_ Ho]. unfold listening_ok in Ho. by rewrite Hr in Ho.
  - destruct Hok as (Hs & Hp & Hco & Hu). split; rewrite ?Hs; try done.
    + by apply Hone.
    + intros _. by apply unclaimed_released.
  - destruct Hok as (Hs & Hco & _). apply active_home in Hs as (Hh & Hnl & Hnd). split; rewrite ?Hh, ?Hnd; try done.
    + by apply Hone.
    + intros Hs. by rewrite Hs in Hnd.
  - destruct Hok as (Hs & Hq & Hre). split; rewrite ?Hs; try done. by apply Hone.
  - destruct Hok as (Hs & Hco & Hu). split; rewrite ?Hs; try done.
    + intros l Hl. by apply Hw in Hl.
    + intros _. by apply unclaimed_released.
Qed.

Lemma Inv_lists_ext ls ls' X st : (forall l, ls l = ls' l) -> Inv ls X st -> Inv ls' X st.
Proof.
  intros H [[Hc Hn Hd] [H1 H2 H3] Hp Hq Hs Ht].
  assert (forall a w, placed ls' a w -> placed ls a w) as Hpl.
  { intros a [l|]; cbn; [by rewrite H|]. intros Hls l. by rewrite H. }
  split; try done.
  - split; [intros l; by rewrite <- H|intros l; by rewrite <- H|].
    intros l l' p. rewrite <- !H. apply Hd.
  - split; [|..].
    + intros w p b Hw. by apply H1, Hpl.
    + intros p b c Hb Hr HX. unfold refers_ok. rewrite <- H. by apply (H2 p b).
    + intros l b r. rewrite <- H. apply H3.
Qed.

Lemma drop_pcb_nowhere p ls l : (forall l, p ∉ ls l) -> ls l = drop_pcb p ls l.
Proof. intros H. unfold drop_pcb. by rewrite without_notin. Qed.

Lemma leaving_idle ls p b c : leaving ls p b c -> state b <> CLOSED -> idle b c.
Proof.
  intros [Hr Hs _ Hre Hq _] Hc Hn. split; [by apply Hre|]. unfold conn_ok, queues_ok in Hq. rewrite Hr in Hq.
  destruct (state b); try done. tauto.
Qed.

Lemma settled_exempt ls X p :
  listeners_settled ls X -> p ∉ ls LISTEN_PCBS -> listeners_settled ls ({[p]} ∪ X).
Proof. intros H Hp l Hl. specialize (H l Hl). set_solver. Qed.
Lemma settled_drop ls X p : listeners_settled ls X -> listeners_settled (drop_pcb p ls) X.
Proof. intros H l [Hl _]%elem_of_drop. by apply H. Qed.

(** The part after the block has left its list. *)
Definition abandon_tail (p : Z) (c0 : tcp_conn) (arg port : Z) (rst : bool) : tcpM E unit :=
  c' ← load_conn p;
  tcp_segs_free (unacked (tx c')) ;;
  tcp_segs_free (unsent (tx c')) ;;
  tcp_segs_free (ooseq (tx c')) ;;
  tcp_backlog_accepted p ;;
  b' ← load p;
  (if rst then
     effect (tcp_rst (tv (tx c0) snd_nxt) (tv (tx c0) rcv_nxt) (local_ip (ip b')) (remote_ip (ip b')) port (remote_port c'))
   else mret tt) ;;
  tcp_free p ;;
  TCP_EVENT_ERR (fn_errf c0) arg ERR_ABRT.

Lemma wp_abandon_tail ls X p b c c0 arg port (rst : bool) (Q : unit -> tcp E -> Prop) st :
  Inv ls ({[p]} ∪ X) st -> listeners_settled ls ({[p]} ∪ X) -> pcbs st !! p = Some b -> rest b = Conn c ->
  state b <> LISTEN -> (forall l, p ∉ ls l) ->
  (forall st', Inv ls X st' -> pcbs st' !! p = None -> calm st st' -> Q tt st') ->
  wp (abandon_tail p c0 arg port rst) Q st.
Proof.
  intros Hi HLX Hb Hr Hs Hls HQ. unfold abandon_tail. apply wp_bind, (wp_load_conn p b c); [done..|].
  do 3 (apply wp_bind, wp_effect). match goal with |- wp _ _ ?s => set (st1 := s) end.
  assert (Inv ls ({[p]} ∪ X) st1) as Hi1 by by apply (Inv_same P L ls _ st).
  assert (calm st st1) as Hc1 by by apply calm_same.
  apply wp_bind, (wp_tcp_backlog_accepted P L ls ({[p]} ∪ X) p b c); [done..|].
  intros c1 st2 _ Hre Hb2 Hi2 Hc2. apply wp_bind, (wp_load p _ _ _ Hb2).
  assert (forall st3, Inv ls ({[p]} ∪ X) st3 -> pcbs st3 = pcbs st2 -> calm st st3 ->
    wp (tcp_free p ;; TCP_EVENT_ERR (fn_errf c0) arg ERR_ABRT) Q st3) as Hend.
  { intros st3 Hi3 E3 Hc3. eapply wp_bind, (wp_tcp_free P L ls X p (set_rest (Conn c1) b) c1); try done.
    { by rewrite E3. }
    intros st4 Hi4 Hn4 Hc4. assert (calm st st4) as Hc04 by by transitivity st3. unfold TCP_EVENT_ERR.
    destruct (fn_errf c0); [by apply wp_ret, HQ|..].
    all: apply wp_effect, HQ; [by apply (Inv_same P L ls _ st4)|done|transitivity st4; [done|by apply calm_same]]. }
  assert (calm st st2) as Hc02 by by transitivity st1.
  apply wp_bind. destruct rst; [apply wp_effect|apply wp_ret]; apply Hend; try done.
  - by apply (Inv_same P L ls _ st2).
  - transitivity st2; [done|by apply calm_same].
Qed.

Lemma wp_tcp_abandon_leaving ls X p b c reset (Q : unit -> tcp E -> Prop) st :
  Inv ls ({[p]} ∪ X) st -> listeners_settled ls X -> pcbs st !! p = Some b -> leaving ls p b c ->
  (forall st', Inv (drop_pcb p ls) X st' -> pcbs st' !! p = None -> calm st st' -> Q tt st') ->
  wp (tcp_abandon p reset) Q st.
Proof.
  intros Hi HLX Hb Hlv HQ. pose proof Hlv as [Hr Hs Hh Hre _ Hub].
  assert (p ∉ ls LISTEN_PCBS) as Hpl by (intros H%Hh; by destruct (state b)).
  pose proof (settled_exempt ls X p HLX Hpl) as HLX'.
  unfold tcp_abandon. apply wp_bind, (wp_load p b); [done|].
  apply wp_bind, wp_ASSERT; [by apply negb_true_iff, bool_decide_eq_false|].
  assert (forall l (Q : unit -> tcp E -> Prop), l <> LISTEN_PCBS -> home (state b) = l -> state b <> CLOSED ->
    (forall b' c' st', pcbs st' !! p = Some b' -> rest b' = Conn c' -> state b' = CLOSED -> released b' ->
       Inv (drop_pcb p ls) ({[p]} ∪ X) st' -> calm st st' -> Q tt st') -> wp (tcp_pcb_remove l p) Q st) as Hrm.
  { intros l Q' Hl Hhl Hncl HQ'. apply (wp_tcp_pcb_remove ls ({[p]} ∪ X) l p b c); try done; [set_solver|..].
    - intros l' Hl'%Hh. congruence.
    - by apply (leaving_idle ls p). }
  case_bool_decide as Htw.
  - apply wp_bind, Hrm; [done|by rewrite Htw|by rewrite Htw|].
    intros b' c' st' Hb' Hr' Hs' Hre' Hi' Hc'. apply (wp_tcp_free P L (drop_pcb p ls) X p b' c'); try done.
    { by rewrite Hs'. }
    { intros l. apply drop_pcb_notin. }
    intros st2 Hi2 Hn2 Hc2. apply HQ; [done..|]. by transitivity st'.
  - apply wp_bind, (wp_load_conn p b c); [done..|]. apply wp_bind.
    assert (forall b' c' st', pcbs st' !! p = Some b' -> rest b' = Conn c' -> state b' = CLOSED ->
      Inv (drop_pcb p ls) ({[p]} ∪ X) st' -> calm st st' -> forall (r : bool) q,
        wp (abandon_tail p c (callback_arg b) q r) Q st') as Hend.
    { intros b' c' st' Hb' Hr' Hs' Hi' Hc' r q.
      apply (wp_abandon_tail (drop_pcb p ls) X p b' c'); try done.
      - by apply settled_drop.
      - by rewrite Hs'.
      - intros l. apply drop_pcb_notin.
      - intros st2 Hi2 Hn2 Hc2. apply HQ; [done..|]. by transitivity st'. }
    case_bool_decide as Hcl.
    + destruct (Z.eqb_spec (local_port b) 0) as [Hp0|Hp0].
      * apply wp_ret. refine (Hend b c st Hb Hr Hcl _ _ false 0); [|done].
        apply (Inv_lists_ext ls); [|done]. intros l. by apply drop_pcb_nowhere, Hub.
      * apply (wp_TCP_RMV P L ls ({[p]} ∪ X) BOUND_PCBS p b); [done|set_solver|done| |done|].
        { intros l' Hl'%Hh. by rewrite Hcl in Hl'. }
        intros st1 Hi1 Hb1 Hc1 _. by apply (Hend (set_next 0 b) c st1 Hb1 Hr Hcl Hi1 Hc1 false 0).
    + apply wp_bind, Hrm; [done|by destruct (state b)|done|].
      intros b' c' st' Hb' Hr' Hs' _ Hi' Hc'. apply wp_modify. refine (Hend b' c' _ _ Hr' Hs' _ _ reset (local_port b)); [done|..].
      * by apply (Inv_same P L _ _ st').
      * transitivity st'; [done|by apply calm_same].
Qed.

Lemma wp_tcp_abandon ls X p b c reset (Q : unit -> tcp E -> Prop) st :
  Inv ls X st -> p ∉ X -> listeners_settled ls X -> pcbs st !! p = Some b -> rest b = Conn c ->
  (forall st', Inv (drop_pcb p ls) X st' -> pcbs st' !! p = None -> calm st st' -> Q tt st') ->
  wp (tcp_abandon p reset) Q st.
Proof.
  intros Hi HX HLX Hb Hr. apply (wp_tcp_abandon_leaving ls X p b c); [by apply Inv_exempt|done..|].
  by apply (inv_leaving ls X st).
Qed.
End remove.
