(* ===== verification/TcpWork.v ===== *)
(** * Work on one connection

    [at_work]: the block at [p] is exempt while an operation is under way, and is
    a connection that exchanges segments.  Whether it is in the list of active
    connections or has just been taken out of it does not matter meanwhile. *)
From S2P Require Import Prelude Lwip Pbuf ChecksumPbuf TcpPcb TcpOut Tcp TcpIn TcpWp TcpLists TcpInv TcpSteps.
From S2P Require Import TcpPools TcpRemove.

Record lively (b : tcp_pcb) (c : tcp_conn) : Prop := Lively {
  lively_rest : rest b = Conn c;
  lively_active : active (state b);
  lively_queues : queues_ok (state b) c;
  lively_refused : refused_ok c;
  lively_window : window_ok (tx c) }.

(** What the calls of the interface make of the state of a connection. *)
Definition api_moves (s s' : tcp_state) : Prop :=
  s' = s \/ (s = SYN_RCVD \/ s = ESTABLISHED) /\ s' = FIN_WAIT_1 \/ s = CLOSE_WAIT /\ s' = LAST_ACK.

Lemma api_moves_trans s1 s2 s3 : api_moves s1 s2 -> api_moves s2 s3 -> api_moves s1 s3.
Proof. unfold api_moves. intuition congruence. Qed.

(** What an operation does not undo. *)
Record outlives (b : tcp_pcb) (c : tcp_conn) (b' : tcp_pcb) (c' : tcp_conn) : Prop := Outlives {
  ev_listener : listener c' = listener c;
  ev_released : released b -> released b';
  ev_moves : api_moves (state b) (state b');
  ev_synchronized : synchronized (state b) = true -> synchronized (state b') = true;
  ev_refused : refused_data c = 0 -> refused_data c' = 0;
  ev_port : local_port b' = local_port b }.

(** And when the connection stays in its list. *)
Record evolves (b : tcp_pcb) (c : tcp_conn) (b' : tcp_pcb) (c' : tcp_conn) : Prop := Evolves {
  ev_outlives :> outlives b c b' c';
  ev_counted : counted (state b) (tx c) -> counted (state b') (tx c') }.

Lemma outlives_trans b1 c1 b2 c2 b3 c3 : outlives b1 c1 b2 c2 -> outlives b2 c2 b3 c3 -> outlives b1 c1 b3 c3.
Proof. intros [] []. split; first [congruence|tauto|by eapply api_moves_trans]. Qed.
Lemma evolves_refl b c : evolves b c b c.
Proof. split; [split|]; try done. by left. Qed.
Lemma evolves_trans b1 c1 b2 c2 b3 c3 : evolves b1 c1 b2 c2 -> evolves b2 c2 b3 c3 -> evolves b1 c1 b3 c3.
Proof. intros [H1 K1] [H2 K2]. split; [by apply (outlives_trans _ _ b2 c2)|tauto]. Qed.

Lemma lively_ok b c : lively b c -> counted (state b) (tx c) -> pcb_ok (Some ACTIVE_PCBS) b.
Proof. intros [Hr Ha Hq Hrf Hw] Hk. split; [done|]. unfold conn_ok, counted_ok. by rewrite Hr. Qed.
Lemma ok_lively b c : pcb_ok (Some ACTIVE_PCBS) b -> rest b = Conn c -> lively b c.
Proof. intros (Ha & Hco & _) Hr. unfold conn_ok in Hco. rewrite Hr in Hco. destruct Hco as (? & ? & ?). by split. Qed.
Lemma ok_counted b c : pcb_ok (Some ACTIVE_PCBS) b -> rest b = Conn c -> counted (state b) (tx c).
Proof. intros (_ & _ & Hk) Hr. unfold counted_ok in Hk. by rewrite Hr in Hk. Qed.

(** In a state with data that is not SYN_SENT the queues are as they may be. *)
Lemma queues_ok_state s s' c : active s -> s <> SYN_SENT -> queues_ok s' c -> queues_ok s c.
Proof. intros Ha Hs [Hq _]. split; [done|]. destruct s; done. Qed.

Section work.
Context {E : Type} `{!TcpEnv E} (P L : gset Z).
Implicit Types (st : tcp E) (ls : pcb_list -> list Z) (X : gset Z).
Notation Inv := (Inv P L).

Record at_work ls X (p : Z) (b : tcp_pcb) (c : tcp_conn) st : Prop := AtWork {
  aw_inv : Inv ls X st;
  aw_exempt : p ∈ X;
  aw_settled : listeners_settled ls X;
  aw_block : pcbs st !! p = Some b;
  aw_lively : lively b c }.

(** A step that leaves the claims on listeners alone. *)
Lemma wp_work_local {A} (m : tcpM E A) ls X p b c (Phi : A -> tcp_pcb -> tcp_conn -> E -> Prop)
    (Q : A -> tcp E -> Prop) st :
  at_work ls X p b c st -> local p m Phi b c (env st) st ->
  (forall a b' c' e', Phi a b' c' e' ->
     next b' = next b /\ listener c' = listener c /\
     tcp_is_flag_set c' TF_BACKLOGPEND = tcp_is_flag_set c TF_BACKLOGPEND /\
     lively (set_rest (Conn c') b') c' /\
     (synchronized (state b) = true -> synchronized (state b') = true)) ->
  (forall a b' c' e', Phi a b' c' e' -> forall st', st' = at_conn p b' c' e' st ->
     at_work ls X p (set_rest (Conn c') b') c' st' -> calm st st' -> Q a st') ->
  wp m Q st.
Proof.
  intros [Hi HX HLX Hb [Hr Ha Hq Hrf Hw]] Hm Hstep HQ.
  eapply (wp_local m p b c Phi); [by rewrite set_rest_id|done|].
  intros a b' c' e' HPhi Hca. destruct (Hstep a b' c' e' HPhi) as (Hn & Hl & Hf & Hlv & Hsy).
  apply (HQ a b' c' e' HPhi _ eq_refl); [|done].
  split; try done; [|apply at_conn_lookup]. by apply (Inv_at_conn P L ls X st p b c).
Qed.

Lemma quiet_lively b c b' c' : quiet b c b' c' -> lively b c -> lively (set_rest (Conn c') b') c'.
Proof.
  intros [(Hn & Hs & Hp) Hl Hf Hq _ [Hr Hr'] Hw] [Hrb Ha Hqu Hrf Hwi].
  split; cbn; rewrite ?Hs; auto. unfold refused_ok. by rewrite Hr, Hr'.
Qed.
Lemma quiet_released b c b' c' :
  rest b = Conn c -> quiet b c b' c' -> released b -> released (set_rest (Conn c') b').
Proof. intros Hr [_ Hl Hf _ _ _ _]. unfold released. rewrite Hr. cbn. by rewrite Hl, Hf. Qed.

(** A quiet step that also keeps what was refused; [R] is what else is known of the
    connection then. *)
Lemma wp_work_quiet_with {A} (R : tcp_conn -> Prop) (m : tcpM E A) ls X p b c (Q : A -> tcp E -> Prop) st :
  at_work ls X p b c st -> local p m (fun _ b' c' _ => quiet b c b' c' /\ R c') b c (env st) st ->
  (forall a b' c' st', at_work ls X p b' c' st' -> state b' = state b -> evolves b c b' c' -> R c' -> calm st st' -> Q a st') ->
  wp m Q st.
Proof.
  intros Hw Hm HQ. pose proof Hw as [_ _ _ _ Hlv].
  eapply (wp_work_local m ls X p b c _ Q st Hw Hm).
  - intros a b' c' e' [Hq _]. pose proof (quiet_lively _ _ _ _ Hq Hlv). destruct Hq as [(Hn & Hs & _) Hl Hf _ _ _ _].
    split_and!; try done. by rewrite Hs.
  - intros a b' c' e' [Hq HR] st' _ Hw' Hca. apply (HQ a (set_rest (Conn c') b') c'); try done; [apply Hq|].
    pose proof Hq as [(_ & Hs & Hp) Hl Hf _ Hk [Hrd _] _]. split; [split; try done|].
    + apply (quiet_released b c); [apply Hlv|done].
    + left. by cbn.
    + cbn. by rewrite Hs.
    + congruence.
    + cbn. rewrite Hs. apply Hk, Hlv.
Qed.
Lemma wp_work_quiet {A} (m : tcpM E A) ls X p b c (Q : A -> tcp E -> Prop) st :
  at_work ls X p b c st -> quietly p m b c (env st) st ->
  (forall a b' c' st', at_work ls X p b' c' st' -> state b' = state b -> evolves b c b' c' -> calm st st' -> Q a st') ->
  wp m Q st.
Proof.
  intros Hw Hm HQ. apply (wp_work_quiet_with (fun _ => True) m ls X p b c); [done| |].
  - eapply local_mono; [exact Hm|]. by intros a b' c' e' Hq.
  - intros a b' c' st' H1 H2 H3 _ H4. by apply (HQ a b' c').
Qed.

(** The connection goes on to another state. *)
Lemma wp_work_state ls X p b c s (Q : unit -> tcp E -> Prop) st :
  at_work ls X p b c st -> active s -> synchronized s = true ->
  (forall st', at_work ls X p (set_state s b) c st' -> calm st st' -> Q tt st') -> wp (store p (set_state s)) Q st.
Proof.
  intros Hw Hs Hsy HQ. pose proof Hw as [_ _ _ _ [Hr Ha Hq Hrf Hwi]].
  assert (set_rest (Conn c) (set_state s b) = set_state s b) as Hid by by apply set_rest_id.
  eapply (wp_work_local _ ls X p b c (fun _ b' c' _ => b' = set_state s b /\ c' = c)); [done| | |].
  - by lstep.
  - intros [] b' c' e' [-> ->]. rewrite Hid. split_and!; try done.
    split; try done. apply (queues_ok_state s (state b)); [done| |done]. by destruct s.
  - intros [] b' c' e' [-> ->] st' _ Hw' Hca. rewrite Hid in Hw'. by apply HQ.
Qed.

Lemma wp_work_backlog ls X p b c (Q : unit -> tcp E -> Prop) st :
  at_work ls X p b c st ->
  (forall b' c' st', at_work ls X p b' c' st' -> state b' = state b -> tx c' = tx c -> evolves b c b' c' -> released b' -> calm st st' ->
     Q tt st') ->
  wp (tcp_backlog_accepted p) Q st.
Proof.
  intros [Hi HX HLX Hb [Hr Ha Hq Hrf Hwi]] HQ.
  apply (wp_tcp_backlog_accepted P L ls X p b c); [done..|]. intros c' st' Hc' Hre Hb' Hi' Hca.
  apply (HQ (set_rest (Conn c') b) c'); try done.
  - split; try done. destruct Hc' as [->| ->]; by split.
  - by destruct Hc' as [->| ->].
  - split; [split|]; try done; try (by destruct Hc' as [->| ->]). by left.
Qed.

(** ** [tcp_close_shutdown_fin] *)

(** What [tcp_send_fin] makes of the connection, before its state changes. *)
Record fin_evolves (b : tcp_pcb) (c : tcp_conn) (b' : tcp_pcb) (c' : tcp_conn) : Prop := FinEvolves {
  fe_listener : listener c' = listener c;
  fe_released : released b -> released b';
  fe_state : state b' = state b;
  fe_counts : counts_to TCP_SND_QUEUELEN (tx c) -> counts_to (TCP_SND_QUEUELEN + 1) (tx c');
  fe_refused : refused_data c = 0 -> refused_data c' = 0;
  fe_port : local_port b' = local_port b }.

Lemma fin_evolves_then b c b1 c1 b2 c2 s :
  fin_evolves b c b1 c1 -> evolves b1 c1 b2 c2 -> tx c2 = tx c1 -> s <> state b -> api_moves (state b) s ->
  evolves b c (set_state s b2) c2.
Proof.
  intros [H1 H2 H3 H4 H5 H6] [[G1 G2 _ G3 G4 G5] _] Ht Hn Hm. split; [split|].
  - congruence.
  - intros Hr. by apply G2, H2.
  - done.
  - cbn. intros _. destruct Hm as [->|[[_ ->]|[_ ->]]]; done.
  - tauto.
  - cbn. congruence.
  - cbn. rewrite Ht. destruct Hm as [->|[[[Hs|Hs] ->]|[_ ->]]]; [done|rewrite Hs..|done]; exact H4.
Qed.

Lemma wp_send_fin ls X p b c (Q : Z -> tcp E -> Prop) st :
  at_work ls X p b c st ->
  (forall b' c' st', at_work ls X p b' c' st' -> fin_evolves b c b' c' -> calm st st' -> Q ERR_OK st') ->
  (forall b' c' st', at_work ls X p b' c' st' -> evolves b c b' c' -> calm st st' -> Q ERR_MEM st') ->
  state b <> SYN_SENT -> wp (tcp_send_fin p) Q st.
Proof.
  intros Hw HQ HQ' Hss. pose proof Hw as [_ _ _ _ Hlv]. pose proof Hlv as [Hr Ha Hqu Hrf Hwi].
  eapply (wp_work_local _ ls X p b c _ Q st Hw (tcp_send_fin_local p b c (env st) st)).
  - intros err b' c' e' [-> [[-> [Hl Hf _ Hfi Hrd Hwin]]|[-> Hq]]].
    + split_and!; try done. split; try done; cbn; auto; [|unfold refused_ok; destruct Hrd as [-> ->]; done].
      destruct Hqu as [Hqu _]. split; [auto|]. cbn. by destruct (state b).
    + pose proof (quiet_lively _ _ _ _ Hq Hlv). destruct Hq as [(Hn & Hs & _) Hl Hf _ _ _ _]. by split_and!.
  - intros err b' c' e' [-> [[-> [Hl Hf Hct Hfi Hrd Hwin]]|[-> Hq]]] st' _ Hw' Hca.
    + apply (HQ (set_rest (Conn c') b) c'); try done. split; try done; [|by apply Hct|by destruct Hrd as [-> _]].
      unfold released. rewrite Hr. cbn. by rewrite Hl, Hf.
    + apply (HQ' (set_rest (Conn c') b) c'); try done. pose proof Hq as [(_ & Hs & Hp) Hl Hf _ Hk [Hrd _] _]. split; [split; try done|].
      * by apply (quiet_released b c).
      * by left.
      * congruence.
      * cbn. by apply Hk.
Qed.

Lemma wp_fin_sent ls X p b c err (Q : Z -> tcp E -> Prop) st :
  at_work ls X p b c st ->
  (forall err b' c' st', at_work ls X p b' c' st' -> evolves b c b' c' -> calm st st' -> Q err st') ->
  wp (fin_sent p err) Q st.
Proof.
  intros Hw HQ. pose proof Hw as [_ _ _ _ [Hr Ha Hq _ _]]. unfold fin_sent. destruct (err =? ERR_OK).
  - eapply wp_bind, (wp_work_quiet _ ls X p b c); [done| |].
    + apply tcp_output_quiet; [by destruct (state b)|done].
    + intros a b' c' st' Hw' _ He Hca. apply wp_ret. by apply (HQ _ b' c').
  - destruct (err =? ERR_MEM); [|by apply wp_ret, (HQ _ b c); [|apply evolves_refl|]].
    eapply wp_bind, (wp_work_quiet _ ls X p b c); [done| |].
    + unfold quietly. lstep. quiet_done.
    + intros a b' c' st' Hw' _ He Hca. apply wp_ret. by apply (HQ _ b' c').
Qed.

Lemma wp_close_shutdown_fin ls X p b c (Q : Z -> tcp E -> Prop) st :
  at_work ls X p b c st ->
  (forall err b' c' st', at_work ls X p b' c' st' -> evolves b c b' c' -> calm st st' -> Q err st') ->
  wp (tcp_close_shutdown_fin p) Q st.
Proof.
  intros Hw HQ. pose proof Hw as [_ _ _ Hb [Hr Ha _ _ _]]. unfold tcp_close_shutdown_fin.
  apply wp_bind, (wp_load p b); [done|].
  assert (forall b1 c1 st1 err, at_work ls X p b1 c1 st1 -> evolves b c b1 c1 -> calm st st1 ->
    wp (fin_sent p err) Q st1) as Hfin.
  { intros b1 c1 st1 err Hw1 He1 Hc1. apply (wp_fin_sent ls X p b1 c1); [done|]. intros err' b2 c2 st2 Hw2 He2 Hc2.
    apply (HQ _ b2 c2); [done|by apply (evolves_trans _ _ b1 c1)|by transitivity st1]. }
  assert (forall b1 c1 b2 c2 st2 s, fin_evolves b c b1 c1 -> at_work ls X p b2 c2 st2 -> evolves b1 c1 b2 c2 ->
    tx c2 = tx c1 -> calm st st2 -> s <> state b -> api_moves (state b) s ->
    wp (store p (set_state s)) (fun _ => wp (fin_sent p ERR_OK) Q) st2) as Hset.
  { intros b1 c1 b2 c2 st2 s Hf1 Hw2 He2 Es Hc2 Hn Hs.
    apply (wp_work_state ls X p b2 c2); [done|(by destruct Hs as [->|[[_ ->]|[_ ->]]])..|].
    intros st3 Hw3 Hc3. apply (Hfin (set_state s b2) c2); [done|by apply (fin_evolves_then b c b1 c1)|by transitivity st2]. }
  destruct (state b) eqn:Hs; try (by apply wp_ret, (HQ _ b c); [|apply evolves_refl|]).
  all: apply wp_bind, (wp_send_fin ls X p b c); [done| |
    intros b1 c1 st1 Hw1 He1 Hc1; apply wp_bind, wp_ret, (Hfin b1 c1); done|by rewrite Hs];
    intros b1 c1 st1 Hw1 He1 Hc1; apply wp_bind; cbn [Z.eqb ERR_OK].
  - apply wp_bind, (wp_work_backlog ls X p b1 c1); [done|]. intros b2 c2 st2 Hw2 _ Et He2 _ Hc2.
    apply (Hset b1 c1 b2 c2); try done; [by transitivity st1|unfold api_moves; tauto].
  - apply (Hset b1 c1 b1 c1); try done; [apply evolves_refl|unfold api_moves; tauto].
  - apply (Hset b1 c1 b1 c1); try done; [apply evolves_refl|unfold api_moves; tauto].
Qed.
End work.

(** ** The window for receiving ([tcp_recved], [tcp_update_rcv_ann_wnd])

    What the application took makes the window larger.  The announced window never
    exceeds its 16 bits, which an assertion checks. *)

Section window.
Context {E : Type} `{!TcpEnv E} (p : Z).
Implicit Types (st : tcp E) (b : tcp_pcb) (c : tcp_conn) (e : E).

Ltac window_var :=
  split; [by split_and!|reflexivity|flags_other|
    intros Hq; unfold queues_ok in *; cbn in *; rewrite ?fn_lookup_insert_ne in * by discriminate; exact Hq|counted_done|done|
    unfold window_ok; cbn; tvs; intros (? & ? & ?); split_and!; (done || lia || apply u16_range)].

Lemma tcp_update_rcv_ann_wnd_quiet b c e st : window_ok (tx c) -> quietly p (tcp_update_rcv_ann_wnd p) b c e st.
Proof.
  intros (Hw & Ha & Hr). unfold quietly, tcp_update_rcv_ann_wnd. do 2 lstep. cbv zeta. lstep.
  { repeat lstep. window_var. }
  lstep. lstep; repeat lstep; [window_var|].
  apply local_ASSERT; [|repeat lstep; window_var]. apply Z.leb_le. destruct Hr as [Hr|Hr]; [lia|congruence].
Qed.

Lemma tcp_recved_quiet len b c e st :
  state b <> LISTEN -> queues_ok (state b) c -> window_ok (tx c) -> quietly p (tcp_recved p len) b c e st.
Proof.
  intros Hs Hqu Hw. unfold tcp_recved. destruct (p =? 0); [apply local_ret, quiet_refl|].
  unfold quietly. do 2 lstep. lstep. apply local_ASSERT; [by apply negb_true_iff, bool_decide_eq_false|].
  do 2 lstep. cbv zeta.
  assert (forall v, 0 <= v < 65536 -> quiet b c b (set_tx (set_tv rcv_wnd v (tx c)) c)) as Hset.
  { intros v Hv. window_var. }
  apply quietly_bind.
  { unfold quietly. lstep; lstep; apply Hset; [done|apply u16_range]. }
  intros _ b1 c1 e1 H1. apply quietly_bind; [by apply tcp_update_rcv_ann_wnd_quiet, (q_window _ _ _ _ H1)|].
  intros infl b2 c2 e2 H2. destruct (_ <=? infl); [|apply local_ret, quiet_refl].
  apply quietly_bind; [unfold quietly; lstep; quiet_done|]. intros _ b3 c3 e3 H3.
  pose proof (quiet_then _ _ _ _ _ _ H1 (quiet_then _ _ _ _ _ _ H2 H3)) as H13.
  apply quietly_bind; [|intros; apply local_ret, quiet_refl].
  apply tcp_output_quiet; rewrite (quiet_state _ _ _ _ H13); [done|by apply (q_queues _ _ _ _ H13)].
Qed.
End window.
