(* ===== verification/TcpClose.v ===== *)
(** * Closing ([tcp_close], [tcp_shutdown])

    A connection without data goes at once, one that has data the application did
    not take is reset, any other sends its FIN and goes on.  A listener is
    forgotten by the connections that came in through it. *)
From S2P Require Import Prelude Lwip Pbuf ChecksumPbuf TcpPcb TcpOut Tcp TcpIn TcpWp TcpLists TcpInv TcpSteps.
From S2P Require Import TcpPools TcpRemove TcpWork.

Section close.
Context {E : Type} `{!TcpEnv E} (P L : gset Z).
Implicit Types (st : tcp E) (ls : pcb_list -> list Z) (X : gset Z).
Notation Inv := (Inv P L).

(** ** Listeners *)

(** Connections may have lost their listener. *)
Record forgetful st st' : Prop := Forgetful {
  fg_heads : heads st' = heads st;
  fg_input : tcp_input_pcb st' = tcp_input_pcb st;
  fg_flags : recv_flags st' = recv_flags st;
  fg_next a : next <$> pcbs st' !! a = next <$> pcbs st !! a;
  fg_kind a : is_conn <$> pcbs st' !! a = is_conn <$> pcbs st !! a;
  fg_listening a b r : pcbs st !! a = Some b -> rest b = Listening r -> pcbs st' !! a = Some b;
  fg_conn a b' c' : pcbs st' !! a = Some b' -> rest b' = Conn c' ->
    exists b c, pcbs st !! a = Some b /\ rest b = Conn c /\ (b' = b \/ listener c' = 0) }.

#[local] Instance forgetful_preorder : PreOrder forgetful.
Proof.
  split.
  - intros st. split; try done. intros a b c Hb Hc. exists b, c. auto.
  - intros s1 s2 s3 [H1 H2 H3 H4 H5 H6 H7] [G1 G2 G3 G4 G5 G6 G7]. split; [congruence..|by eauto|].
    intros a b' c' Hb' Hc'. destruct (G7 a b' c' Hb' Hc') as (b2 & c2 & Hb2 & Hc2 & Hx).
    destruct (H7 a b2 c2 Hb2 Hc2) as (b1 & c1 & Hb1 & Hc1 & Hy). exists b1, c1. split_and!; try done.
    destruct Hx as [->|?]; [|by right]. rewrite Hc2 in Hc'. injection Hc' as <-. tauto.
Qed.

Lemma forgetful_step st x b c :
  pcbs st !! x = Some b -> rest b = Conn c ->
  forgetful st (set_pcbs (<[x := set_rest (Conn (set_listener 0 c)) b]> (pcbs st)) st).
Proof.
  intros Hb Hr. split; try done.
  - intros a. cbn. destruct (decide (a = x)) as [->|]; [by rewrite lookup_insert_eq, Hb|by rewrite lookup_insert_ne].
  - intros a. cbn. destruct (decide (a = x)) as [->|]; [|by rewrite lookup_insert_ne].
    rewrite lookup_insert_eq, Hb. cbn. unfold is_conn. by rewrite Hr.
  - intros a ba ra Hba Hra. cbn. rewrite lookup_insert_ne; [done|congruence].
  - intros a b' c'. cbn. destruct (decide (a = x)) as [->|].
    + rewrite lookup_insert_eq. intros [= <-] [= <-]. exists b, c. auto.
    + rewrite lookup_insert_ne by done. intros Hb' Hc'. exists b', c'. auto.
Qed.

Lemma Inv_forget ls X st p a b c :
  Inv ls X st -> p ∈ X -> a ∉ X -> pcbs st !! a = Some b -> rest b = Conn c -> listener c = p ->
  Inv ls X (set_pcbs (<[a := set_rest (Conn (set_listener 0 c)) b]> (pcbs st)) st).
Proof.
  intros Hi HpX HaX Hb Hr Hl. apply (Inv_update P L ls X st _ a b (set_rest (Conn (set_listener 0 c)) b)); try done.
  - unfold is_conn. by rewrite Hr.
  - intros _ w _. assert (unclaimed (set_rest (Conn (set_listener 0 c)) b)) by done.
    assert (released (set_rest (Conn (set_listener 0 c)) b)) by by left.
    assert (conn_ok b -> conn_ok (set_rest (Conn (set_listener 0 c)) b)) by (unfold conn_ok; by rewrite Hr).
    assert (counted_ok b -> counted_ok (set_rest (Conn (set_listener 0 c)) b)) by (unfold counted_ok; by rewrite Hr).
    assert (listening_ok b -> False) by (unfold listening_ok; by rewrite Hr).
    destruct w as [[]|]; cbn [pcb_ok state local_port set_rest]; tauto.
  - intros l Hl' HX. unfold pends_on. rewrite Hr. cbn. split.
    + intros [<- _]. by apply (chain_zero_notin _ _ _ (lists_chain _ _ (inv_lists _ _ _ _ _ Hi) LISTEN_PCBS)) in Hl'.
    + intros [<- _]. by rewrite Hl in HX.
  - intros c' [= <-] _. by left.
Qed.

Lemma remove_listener_loop_spec fuel ls X p xs q (Q : unit -> tcp E -> Prop) st :
  (length xs < fuel)%nat -> Inv ls X st -> p ∈ X -> chain (pcbs st) xs q ->
  (forall a, a ∈ xs -> a ∉ X /\ exists b c, pcbs st !! a = Some b /\ rest b = Conn c) ->
  (forall st', Inv ls X st' -> forgetful st st' ->
     (forall a b c, a ∈ xs -> pcbs st' !! a = Some b -> rest b = Conn c -> p <> 0 -> listener c <> p) -> Q tt st') ->
  wp (remove_listener_loop fuel p q) Q st.
Proof.
  revert xs q st. induction fuel as [|fuel IH]; intros xs q st Hf Hi HpX Hc Hxs HQ; [lia|].
  cbn [remove_listener_loop]. destruct xs as [|x xs].
  { cbn in Hc. subst q. apply wp_ret, HQ; [done..|]. intros a b c Ha. by apply not_elem_of_nil in Ha. }
  destruct Hc as (-> & Hx0 & bx & Hbx & Hc). destruct (Z.eqb_spec x 0); [done|].
  destruct (Hxs x) as (HxX & b & c & Hb & Hr); [by left|]. rewrite Hbx in Hb. injection Hb as <-.
  apply wp_bind, (wp_load_conn x bx c); [done..|]. apply wp_bind.
  assert (forall st1 b1 c1, Inv ls X st1 -> forgetful st st1 -> pcbs st1 !! x = Some b1 -> rest b1 = Conn c1 ->
    next b1 = next bx -> (p <> 0 -> listener c1 <> p) ->
    wp (b ← load x; remove_listener_loop fuel p (next b)) Q st1) as Hgo.
  { intros st1 b1 c1 Hi1 Hf1 Hb1 Hr1 Hn1 Hl1. apply wp_bind, (wp_load x b1); [done|]. rewrite Hn1.
    apply (IH xs); [cbn in Hf; lia|done..| | |].
    - apply (chain_same_next (pcbs st)); [|done]. intros a _. apply Hf1.
    - intros a Ha. destruct (Hxs a) as (HaX & ba & ca & Hba & Hca); [by right|]. split; [done|].
      pose proof (fg_kind _ _ Hf1 a) as Hk. rewrite Hba in Hk. destruct (pcbs st1 !! a) as [b2|]; [|done].
      cbn in Hk. unfold is_conn in Hk. rewrite Hca in Hk. destruct (rest b2) as [c2|r2] eqn:Hr2; [by exists b2, c2|done].
    - intros st2 Hi2 Hf2 Hl2. apply HQ; [done|by transitivity st1|]. intros a ba ca Ha Hba Hca Hp0.
      apply elem_of_cons in Ha as [->|Ha]; [|by apply (Hl2 a ba)].
      destruct (fg_conn _ _ Hf2 x ba ca Hba Hca) as (b2 & c2 & Hb2 & Hc2 & Hor).
      rewrite Hb1 in Hb2. injection Hb2 as <-. rewrite Hr1 in Hc2. injection Hc2 as <-.
      destruct Hor as [->|Hz]; [|congruence]. rewrite Hr1 in Hca. injection Hca as <-. by apply Hl1. }
  destruct (Z.eqb_spec (listener c) p) as [Hl|Hl].
  - apply (wp_store_conn x _ bx c); [done..|]. eapply (Hgo _ (set_rest (Conn (set_listener 0 c)) bx)); try done.
    + by apply (Inv_forget ls X st p).
    + by apply forgetful_step.
    + cbn. apply lookup_insert_eq.
  - by apply wp_ret, (Hgo st bx c).
Qed.

(** Every block of a list other than that of the listeners is a connection. *)
Lemma inv_listed_conn ls X st l a :
  Inv ls X st -> l <> LISTEN_PCBS -> a ∈ ls l -> a ∉ X -> exists b c, pcbs st !! a = Some b /\ rest b = Conn c.
Proof.
  intros Hi Hl Ha HX. destruct (inv_in _ _ _ _ _ _ _ Hi Ha) as [_ [b Hb]].
  pose proof (inv_placed _ _ _ _ _ _ (Some l) b Hi Ha Hb HX) as Ho. exists b.
  destruct (rest b) as [c|r] eqn:Hr; [by exists c|]. exfalso. unfold pcb_ok, conn_ok in Ho. rewrite Hr in Ho.
  destruct l; tauto.
Qed.

(** No block of a list is exempt, and an exempt one claims no listener. *)
Record settled ls X st : Prop := Settled {
  settled_lists l a : a ∈ ls l -> a ∉ X;
  settled_released a b c : a ∈ X -> pcbs st !! a = Some b -> rest b = Conn c -> released b }.

Lemma settled_listeners ls X st : settled ls X st -> listeners_settled ls X.
Proof. intros [H _] l Hl. by apply (H LISTEN_PCBS). Qed.

Lemma wp_remove_listener ls X p l (h : Z) (Q : unit -> tcp E -> Prop) st :
  Inv ls X st -> p ∈ X -> l <> LISTEN_PCBS -> (forall a, a ∈ ls l -> a ∉ X) -> h = heads st l ->
  (forall st', Inv ls X st' -> forgetful st st' ->
     (forall a b c, a ∈ ls l -> pcbs st' !! a = Some b -> rest b = Conn c -> p <> 0 -> listener c <> p) -> Q tt st') ->
  wp (tcp_remove_listener h p) Q st.
Proof.
  intros Hi HpX Hl HX -> HQ. apply wp_bind, wp_list_fuel.
  destruct (inv_lists _ _ _ _ _ Hi) as [Hc Hn _].
  apply remove_listener_loop_spec with ls X (ls l); try done.
  - pose proof (chain_length _ _ _ (Hn l) (Hc l)). lia.
  - intros a Ha. split; [by apply HX|]. apply (inv_listed_conn ls X st l); auto.
Qed.

Lemma forgetful_kept st st' p a b' c' :
  forgetful st st' -> (forall b c, pcbs st !! a = Some b -> rest b = Conn c -> p <> 0 -> listener c <> p) ->
  pcbs st' !! a = Some b' -> rest b' = Conn c' -> p <> 0 -> listener c' <> p.
Proof.
  intros Hf H Hb Hc Hp. destruct (fg_conn _ _ Hf a b' c' Hb Hc) as (b & c & Hb1 & Hc1 & [->|Hz]); [|congruence].
  rewrite Hc1 in Hc. injection Hc as <-. by apply (H b).
Qed.

Lemma wp_tcp_listen_closed ls X p b r (Q : unit -> tcp E -> Prop) st :
  Inv ls X st -> p ∈ X -> (forall l a, l <> LISTEN_PCBS -> a ∈ ls l -> a ∉ X) ->
  pcbs st !! p = Some b -> rest b = Listening r -> state b = LISTEN ->
  (forall st', Inv ls X st' -> forgetful st st' ->
     (forall l a b c, l <> LISTEN_PCBS -> a ∈ ls l -> pcbs st' !! a = Some b -> rest b = Conn c -> p <> 0 ->
        listener c <> p) -> Q tt st') ->
  wp (tcp_listen_closed p) Q st.
Proof.
  intros Hi HpX HX Hb Hr Hs HQ. unfold tcp_listen_closed. apply wp_bind, (wp_load p b); [done|].
  apply wp_bind, wp_ASSERT; [by apply bool_decide_eq_true|]. apply wp_bind, wp_gets.
  apply wp_bind, (wp_remove_listener ls X p BOUND_PCBS); try done; [intros a; by apply HX|]. intros st1 Hi1 Hf1 H1.
  apply wp_bind, (wp_remove_listener ls X p ACTIVE_PCBS); try done; [intros a; by apply HX|by rewrite (fg_heads _ _ Hf1)|].
  intros st2 Hi2 Hf2 H2. assert (forgetful st st2) as Hf02 by by transitivity st1.
  apply (wp_remove_listener ls X p TW_PCBS); try done; [intros a; by apply HX|by rewrite (fg_heads _ _ Hf02)|].
  intros st3 Hi3 Hf3 H3. apply HQ; [done|by transitivity st2|]. intros l a b' c' Hl Ha.
  destruct l; [done|..|by apply H3].
  - apply (forgetful_kept st2 st3); [done|]. intros b2 c2. apply (forgetful_kept st1 st2); [done|].
    intros b1 c1. by apply H1.
  - apply (forgetful_kept st2 st3); [done|]. intros b2 c2. by apply H2.
Qed.

Lemma wp_close_listener ls X p b r (Q : Z -> tcp E -> Prop) st :
  Inv ls X st -> settled ls X st -> p ∉ X -> pcbs st !! p = Some b -> rest b = Listening r ->
  (forall st', Inv (drop_pcb p ls) X st' -> pcbs st' !! p = None -> tcp_input_pcb st' = tcp_input_pcb st ->
     recv_flags st' = recv_flags st -> Q ERR_OK st') ->
  wp (close_by_state p) Q st.
Proof.
  intros Hi HS HpX Hb Hr HQ. pose proof (inv_nonzero _ _ _ _ _ _ _ Hi Hb) as Hp0.
  assert (p ∈ ls LISTEN_PCBS /\ state b = LISTEN) as [Hpl Hs].
  { destruct (placed_exists ls p) as [w Hw]. pose proof (inv_placed _ _ _ _ _ _ w b Hi Hw Hb HpX) as Ho.
    unfold pcb_ok, conn_ok in Ho. rewrite Hr in Ho. destruct w as [[]|]; tauto. }
  assert (forall l, p ∈ ls l -> l = LISTEN_PCBS) as Hone.
  { intros l Hl. by apply (lists_disjoint _ _ (inv_lists _ _ _ _ _ Hi) l LISTEN_PCBS p). }
  unfold close_by_state. apply wp_bind, (wp_load p b); [done|]. rewrite Hs.
  apply wp_bind, (wp_tcp_listen_closed ls ({[p]} ∪ X) p b r); try done.
  { by apply Inv_exempt. }
  { set_solver. }
  { intros l a Hl Ha [->%elem_of_singleton|HaX]%elem_of_union; [by apply Hone in Ha|].
    by apply (settled_lists _ _ _ HS l a). }
  intros st1 Hi1 Hf1 Hno. pose proof (fg_listening _ _ Hf1 p b r Hb Hr) as Hb1.
  apply wp_bind. unfold tcp_pcb_remove. apply wp_bind, (wp_TCP_RMV P L ls ({[p]} ∪ X) LISTEN_PCBS p b); try done.
  { set_solver. }
  { intros _ a b' c' Hb' Hc' Hex Hl. destruct (fg_conn _ _ Hf1 a b' c' Hb' Hc') as (b0 & c0 & Hb0 & Hc0 & Hor).
    destruct Hor as [->|Hz]; [|congruence]. rewrite Hc0 in Hc'. injection Hc' as <-.
    assert (a <> p) as Hap by (intros ->; congruence).
    destruct (placed_exists ls a) as [w Hw]. destruct (decide (a ∈ X)) as [HaX|HaX].
    { pose proof (settled_released _ _ _ HS a b0 c0 HaX Hb0 Hc0) as Hrl. unfold released in Hrl. rewrite Hc0 in Hrl.
      destruct Hex; [set_solver|]. destruct Hrl; congruence. }
    pose proof (inv_placed _ _ _ _ _ _ w b0 Hi Hw Hb0 HaX) as Ho.
    destruct w as [l|].
    - apply (Hno l a b0 c0); try done. intros ->. destruct Ho as [_ Ho]. unfold listening_ok in Ho. by rewrite Hc0 in Ho.
    - destruct Ho as (_ & _ & Hu). unfold unclaimed in Hu. rewrite Hc0 in Hu. congruence. }
  intros st2 Hi2 Hb2 Hca2 _. apply wp_bind. unfold tcp_pcb_purge. apply wp_bind, (wp_load p _ _ _ Hb2).
  cbn [state set_next]. rewrite Hs. apply wp_ret, wp_bind. unfold send_delayed_ack.
  apply wp_bind, (wp_load p _ _ _ Hb2). cbn [state set_next]. rewrite Hs. apply wp_ret, wp_bind, (wp_load p _ _ _ Hb2).
  cbn [state set_next]. rewrite Hs. apply wp_bind, wp_ret, wp_bind, (wp_store p _ _ _ _ Hb2).
  eapply wp_store; [apply lookup_insert_eq|]. match goal with |- wp _ _ ?s => set (st3 := s) end.
  assert (pcbs st3 !! p = Some (set_local_port 0 (set_state CLOSED (set_next 0 b)))) as Hb3 by apply lookup_insert_eq.
  assert (Inv (drop_pcb p ls) ({[p]} ∪ X) st3) as Hi3.
  { apply (Inv_insert P L _ _ st2 _ p (set_next 0 b) (set_local_port 0 (set_state CLOSED (set_next 0 b)))); try done.
    - unfold same_claim. cbn. by rewrite Hr.
    - set_solver.
    - cbn. by rewrite insert_insert_eq. }
  apply wp_bind. unfold tcp_free_listen. apply wp_bind, (wp_load p _ _ _ Hb3), wp_bind, wp_ASSERT; [done|].
  apply (wp_memp_free_lpcb P L _ X p _ r _ _ Hi3 Hb3 Hr); [intros l; apply drop_pcb_notin|].
  intros st4 Hi4 Hn4 E1 E2. apply wp_ret, HQ; try done.
  - rewrite E1. cbn. rewrite (calm_input _ _ Hca2). apply Hf1.
  - rewrite E2. cbn. rewrite (calm_flags _ _ Hca2). apply Hf1.
Qed.
End close.

(** ** Closing a connection

    What becomes of a connection that the application closes ([close_result]): it
    is gone, or it goes on until the other side has closed too, or, when a segment
    for it is being processed, it is kept out of the lists until that is over. *)

Lemma lively_leaving ls p b c :
  lively b c -> (forall l, p ∈ ls l -> l = ACTIVE_PCBS) -> leaving ls p b c.
Proof.
  intros [Hr Ha Hq Hrf Hw] Hl. destruct (active_home _ Ha) as (Hh & Hs & Hn).
  split; rewrite ?Hh, ?Hn; try done.
  - unfold conn_ok. by rewrite Hr.
  - intros E. by rewrite E in Ha.
Qed.
Lemma leaving_lively ls p b c : leaving ls p b c -> active (state b) -> lively b c.
Proof.
  intros [Hr _ _ _ Hco _] Ha. unfold conn_ok in Hco. rewrite Hr in Hco. destruct Hco as (? & ? & ?). by split.
Qed.

(** A connection in no list that a segment is being processed for. *)
Record zombie {E} (ls : pcb_list -> list Z) (p : Z) (b : tcp_pcb) (c : tcp_conn) (st : tcp E) : Prop := Zombie {
  zb_block : pcbs st !! p = Some b;
  zb_nowhere l : p ∉ ls l;
  zb_lively : lively b c;
  zb_released : released b;
  zb_input : tcp_input_pcb st = p;
  zb_closed : has (recv_flags st) TF_CLOSED = true }.

Lemma has_lor_closed f : has (Z.lor f TF_CLOSED) TF_CLOSED = true.
Proof.
  unfold has, TF_CLOSED. rewrite Z.land_lor_distr_l. change (Z.land 16 16) with 16.
  apply negb_true_iff, Z.eqb_neq. intros [_ H]%Z.lor_eq_0_iff. done.
Qed.

Section shut.
Context {E : Type} `{!TcpEnv E} (P L : gset Z).
Implicit Types (st : tcp E) (ls : pcb_list -> list Z) (X : gset Z).
Notation Inv := (Inv P L).

Inductive close_result ls X p b c st st' : Prop :=
  | close_gone :
      Inv (drop_pcb p ls) X st' -> pcbs st' !! p = None -> calm st st' ->
      (synchronized (state b) = true -> tcp_input_pcb st <> p) -> close_result ls X p b c st st'
  | close_stays b' c' :
      Inv ls ({[p]} ∪ X) st' -> pcbs st' !! p = Some b' -> leaving ls p b' c' ->
      (state b = TIME_WAIT /\ state b' = TIME_WAIT \/ active (state b) /\ active (state b')) ->
      evolves b c b' c' -> calm st st' -> close_result ls X p b c st st'
  | close_zombie b' c' :
      Inv (drop_pcb p ls) ({[p]} ∪ X) st' -> zombie (drop_pcb p ls) p b' c' st' -> active (state b) ->
      outlives b c b' c' -> tcp_input_pcb st' = tcp_input_pcb st -> recv_flags st' = Z.lor (recv_flags st) TF_CLOSED ->
      close_result ls X p b c st st'.

(** ** Data that was not taken *)

Lemma wp_close_with_rst ls X p b c (Q : Z -> tcp E -> Prop) st :
  Inv ls ({[p]} ∪ X) st -> listeners_settled ls X -> pcbs st !! p = Some b -> leaving ls p b c -> active (state b) ->
  state b <> SYN_SENT -> tcp_is_flag_set c TF_RXCLOSED = true ->
  (forall st', close_result ls X p b c st st' -> Q ERR_OK st') -> wp (close_with_rst p) Q st.
Proof.
  intros Hi HLX Hb Hlv Ha Hss Hrx HQ. pose proof Hlv as [Hr Hs Hh _ Hco _].
  destruct (active_home _ Ha) as (Hh' & _ & Hnd). rewrite Hh' in Hh.
  assert (listeners_settled ls ({[p]} ∪ X)) as HLX' by (apply settled_exempt; [done|]; by intros ?%Hh).
  unfold close_with_rst. apply wp_bind, (wp_load p b); [done|]. apply wp_bind, (wp_load_conn p b c); [done..|].
  apply wp_bind, wp_ASSERT; [done|]. apply wp_bind, wp_effect. match goal with |- wp _ _ ?s => set (st0 := s) end.
  assert (Inv ls ({[p]} ∪ X) st0) as Hi0 by by apply (Inv_same P L ls _ st).
  assert (calm st st0) as Hca0 by by apply calm_same.
  apply wp_bind, (wp_tcp_pcb_purge P L ls ({[p]} ∪ X) p b c); try done; [set_solver|].
  intros c1 st1 Hb1 Hi1 Hca1 Hl1 Hre1 Hu1 Ha1 Ho1 Hrd1 Hw1.
  unfold TCP_RMV_ACTIVE. apply wp_bind, wp_bind.
  apply (wp_TCP_RMV P L ls ({[p]} ∪ X) ACTIVE_PCBS p (set_rest (Conn c1) b)); try done; [set_solver|by intros ?%Hh|].
  intros st2 Hi2 Hb2 Hca2 _. apply wp_modify. match goal with |- wp _ _ ?s => set (st3 := s) end.
  assert (Inv (drop_pcb p ls) ({[p]} ∪ X) st3) as Hi3 by by apply (Inv_same P L _ _ st2).
  assert (calm st st3) as Hca3 by (do 3 (etransitivity; [eassumption|]); by apply calm_same).
  assert (lively (set_next 0 (set_rest (Conn c1) b)) c1) as Hlv1.
  { unfold conn_ok in Hco. rewrite Hr in Hco. destruct Hco as (_ & _ & Hwi). split; [done|done| |by intros _|by apply Hw1].
    unfold queues_ok. rewrite Hu1, Ha1. split; [by constructor|]. cbn. by destruct (state b). }
  apply wp_bind, wp_gets. destruct (Z.eqb_spec (tcp_input_pcb st3) p) as [Hin|Hin].
  - apply wp_bind, wp_modify, wp_ret, HQ.
    apply (close_zombie _ _ _ _ _ _ _ (set_next 0 (set_rest (Conn c1) b)) c1).
    + by apply (Inv_same P L _ _ st3).
    + split; try done; [intros l; apply drop_pcb_notin|apply has_lor_closed].
    + done.
    + split; [done|by intros _|by left|done..].
    + apply Hca3.
    + cbn. by rewrite <- (calm_flags _ _ Hca3).
  - apply wp_bind, (wp_tcp_free P L (drop_pcb p ls) X p _ c1 _ _ Hi3 Hb2); try done.
    { intros l. apply drop_pcb_notin. }
    intros st4 Hi4 Hn4 Hca4. apply wp_ret, HQ, close_gone; [done..|by transitivity st3|].
    intros _. by rewrite <- (calm_input _ _ Hca3).
Qed.

(** ** By state *)

Lemma wp_close_by_state ls X p b c (Q : Z -> tcp E -> Prop) st :
  Inv ls ({[p]} ∪ X) st -> listeners_settled ls X -> pcbs st !! p = Some b -> leaving ls p b c ->
  (forall err st', close_result ls X p b c st st' -> Q err st') -> wp (close_by_state p) Q st.
Proof.
  intros Hi HLX Hb Hlv HQ. pose proof Hlv as [Hr Hs Hh Hre Hco Hub].
  assert (p ∉ ls LISTEN_PCBS) as Hpl by (intros H%Hh; by destruct (state b)).
  pose proof (settled_exempt ls X p HLX Hpl) as HLX'.
  unfold close_by_state. apply wp_bind, (wp_load p b); [done|].
  assert (active (state b) -> at_work P L ls ({[p]} ∪ X) p b c st) as Haw.
  { intros Ha. split; try done; [set_solver|]. by apply (leaving_lively ls p). }
  assert (active (state b) -> wp (tcp_close_shutdown_fin p) Q st) as Hfin.
  { intros Ha. apply (wp_close_shutdown_fin P L ls ({[p]} ∪ X) p b c); [by apply Haw|].
    intros err b' c' st' [Hi' _ _ Hb' Hlv'] He Hca. apply HQ, (close_stays _ _ _ _ _ _ _ b' c'); try done.
    - apply lively_leaving; [done|]. intros l Hl. rewrite (Hh l Hl). by apply active_home.
    - right. split; [done|]. apply Hlv'. }
  destruct (state b) eqn:Est; try (by apply Hfin); try done.
  - assert (forall st1 b1, pcbs st1 !! p = Some b1 -> rest b1 = Conn c -> state b1 = CLOSED -> released b1 ->
      Inv (drop_pcb p ls) ({[p]} ∪ X) st1 -> calm st st1 ->
      wp (tcp_free p ;; mret ERR_OK) Q st1) as Hend.
    { intros st1 b1 Hb1 Hr1 Hs1 Hre1 Hi1 Hca1.
      apply wp_bind, (wp_tcp_free P L (drop_pcb p ls) X p b1 c); try done; [by rewrite Hs1|intros l; apply drop_pcb_notin|].
      intros st2 Hi2 Hn2 Hca2. apply wp_ret, HQ, close_gone; [done..|by transitivity st1|by rewrite Est]. }
    apply wp_bind. destruct (Z.eqb_spec (local_port b) 0) as [Hp0|Hp0].
    + apply wp_ret, (Hend st b); try done; [by apply Hre|].
      apply (Inv_lists_ext P L ls); [|done]. intros l. by apply drop_pcb_nowhere, Hub.
    + apply (wp_TCP_RMV P L ls ({[p]} ∪ X) BOUND_PCBS p b); try done; [set_solver|].
      intros st1 Hi1 Hb1 Hca1 _. apply (Hend st1 (set_next 0 b)); try done. by apply Hre.
  - apply wp_bind. unfold TCP_PCB_REMOVE_ACTIVE.
    apply wp_bind, (wp_tcp_pcb_remove P L ls ({[p]} ∪ X) ACTIVE_PCBS p b c); try done; [set_solver|by rewrite Est| |].
    { apply (leaving_idle ls p); [done|by rewrite Est]. }
    intros b1 c1 st1 Hb1 Hr1 Hs1 Hre1 Hi1 Hca1. apply wp_modify. match goal with |- wp _ _ ?s => set (st2 := s) end.
    apply wp_bind, (wp_tcp_free P L (drop_pcb p ls) X p b1 c1); try done; [|by rewrite Hs1|intros l; apply drop_pcb_notin|].
    { by apply (Inv_same P L _ _ st1). }
    intros st3 Hi3 Hn3 Hca3. apply wp_ret, HQ, close_gone; [done..| |by rewrite Est].
    transitivity st2; [|done]. transitivity st1; [done|by apply calm_same].
  - unfold tcp_close_shutdown_fin. apply wp_bind, (wp_load p b); [done|]. rewrite Est. apply wp_ret, HQ.
    apply (close_stays _ _ _ _ _ _ _ b c); try done; [by left|apply evolves_refl].
Qed.

Lemma wp_tcp_close_shutdown ls X p b c (rst : bool) (Q : Z -> tcp E -> Prop) st :
  Inv ls ({[p]} ∪ X) st -> listeners_settled ls X -> pcbs st !! p = Some b -> leaving ls p b c ->
  (rst = true -> tcp_is_flag_set c TF_RXCLOSED = true) ->
  (forall err st', close_result ls X p b c st st' -> Q err st') -> wp (tcp_close_shutdown p rst) Q st.
Proof.
  intros Hi HLX Hb Hlv Hrx HQ. unfold tcp_close_shutdown. apply wp_bind, (wp_load p b); [done|].
  destruct (rst && _) eqn:Hd; [|by apply (wp_close_by_state ls X p b c)].
  apply andb_true_iff in Hd as [Hrst Hst].
  assert (active (state b) /\ state b <> SYN_SENT) as [Ha Hss].
  { apply orb_true_iff in Hst as [H|H]; apply bool_decide_eq_true in H; by rewrite H. }
  apply wp_bind, (wp_load_conn p b c); [done|apply Hlv|].
  destruct (negb (refused_data c =? 0) || negb (tv (tx c) rcv_wnd =? TCP_WND)); [|by apply (wp_close_by_state ls X p b c)].
  apply (wp_close_with_rst ls X p b c); auto.
Qed.

(** ** [tcp_close] and [tcp_shutdown] *)

Lemma close_result_after ls X p b c b1 c1 st st1 st' :
  state b1 = state b -> evolves b c b1 c1 -> calm st st1 -> close_result ls X p b1 c1 st1 st' ->
  close_result ls X p b c st st'.
Proof.
  intros Hs He Hca [Hi Hn Hca1 Hsy|b2 c2 Hi Hb Hlv Hor He1 Hca1|b2 c2 Hi Hz Ha He1 Hin Hfl].
  - apply close_gone; [done..|by transitivity st1|]. rewrite <- (calm_input _ _ Hca), <- Hs. done.
  - apply (close_stays _ _ _ _ _ _ _ b2 c2); try done; [by rewrite <- Hs|by apply (evolves_trans _ _ b1 c1)|by transitivity st1].
  - apply (close_zombie _ _ _ _ _ _ _ b2 c2); try done; [by rewrite <- Hs|by apply (outlives_trans _ _ b1 c1); [apply He|]|..].
    + rewrite Hin. apply Hca.
    + rewrite Hfl. by rewrite (calm_flags _ _ Hca).
Qed.

Lemma quiet_leaving ls p b c b' c' :
  quiet b c b' c' -> leaving ls p b c -> leaving ls p (set_rest (Conn c') b') c'.
Proof.
  intros Hq [Hr Hs Hh Hre Hco Hub]. pose proof Hq as [(Hn & Est & Elp) _ _ Hqq _ [E1 E2] Hw].
  split; try done; cbn [state set_rest local_port]; rewrite ?Est, ?Elp; try done.
  - intros Hnd. apply (quiet_released b c); auto.
  - unfold conn_ok, refused_ok in *. rewrite Hr in Hco. cbn. rewrite Est, E1, E2. tauto.
Qed.

Lemma quiet_evolves b c b' c' :
  rest b = Conn c -> conn_ok b -> quiet b c b' c' -> evolves b c (set_rest (Conn c') b') c'.
Proof.
  intros Hr Hco Hq. pose proof Hq as [(_ & Hs & Hp) Hl _ _ Hk [Hrd _] _]. split; [split; try done|].
  - by apply (quiet_released b c).
  - by left.
  - cbn. by rewrite Hs.
  - congruence.
  - cbn. rewrite Hs. apply Hk. unfold conn_ok in Hco. rewrite Hr in Hco. apply Hco.
Qed.

(** A quiet assignment before the rest. *)
Lemma wp_leaving_quiet {A} (m : tcpM E A) ls X p b c (Q : A -> tcp E -> Prop) st :
  Inv ls ({[p]} ∪ X) st -> pcbs st !! p = Some b -> leaving ls p b c -> quietly p m b c (env st) st ->
  (forall a b' c' st', quiet b c b' c' -> Inv ls ({[p]} ∪ X) st' -> pcbs st' !! p = Some (set_rest (Conn c') b') ->
     leaving ls p (set_rest (Conn c') b') c' -> calm st st' -> Q a st') -> wp m Q st.
Proof.
  intros Hi Hb Hlv Hm HQ. apply (wp_quiet P L m ls ({[p]} ∪ X) p b c); [done|done|apply Hlv|done|].
  intros a b' c' st' Hq Hb' Hi' Hca. apply (HQ a b' c'); try done. by apply (quiet_leaving ls p b c).
Qed.

Lemma wp_rxclosed ls X p b c (Q : unit -> tcp E -> Prop) st :
  Inv ls ({[p]} ∪ X) st -> pcbs st !! p = Some b -> leaving ls p b c ->
  (forall st', Inv ls ({[p]} ∪ X) st' -> pcbs st' !! p = Some (set_rest (Conn (tcp_set_flags TF_RXCLOSED c)) b) ->
     leaving ls p (set_rest (Conn (tcp_set_flags TF_RXCLOSED c)) b) (tcp_set_flags TF_RXCLOSED c) ->
     evolves b c (set_rest (Conn (tcp_set_flags TF_RXCLOSED c)) b) (tcp_set_flags TF_RXCLOSED c) -> calm st st' ->
     Q tt st') ->
  wp (store_conn p (tcp_set_flags TF_RXCLOSED)) Q st.
Proof.
  intros Hi Hb Hlv HQ. assert (quiet b c b (tcp_set_flags TF_RXCLOSED c)) as Hq by quiet_done.
  apply (wp_store_conn_inv P L ls ({[p]} ∪ X) p b c); [done|done|apply Hlv|done|]. intros st' Hb' Hi' Hca.
  apply HQ; try done; [by apply (quiet_leaving ls p b c)|]. apply quiet_evolves; [apply Hlv..|done].
Qed.

Lemma wp_tcp_close_leaving ls X p b c (Q : Z -> tcp E -> Prop) st :
  Inv ls ({[p]} ∪ X) st -> listeners_settled ls X -> pcbs st !! p = Some b -> leaving ls p b c ->
  (forall err st', close_result ls X p b c st st' -> Q err st') -> wp (tcp_close p) Q st.
Proof.
  intros Hi HLX Hb Hlv HQ. unfold tcp_close.
  destruct (Z.eqb_spec p 0) as [Hp0|Hp0]; [by apply (inv_nonzero _ _ _ _ _ _ _ Hi) in Hb|].
  apply wp_bind, (wp_load p b); [done|]. rewrite (bool_decide_eq_false_2 _ (lv_state _ _ _ _ Hlv)).
  apply wp_bind, (wp_rxclosed ls X p b c); [done..|]. intros st1 Hi1 Hb1 Hlv1 He1 Hca1.
  apply (wp_tcp_close_shutdown ls X p (set_rest (Conn (tcp_set_flags TF_RXCLOSED c)) b) (tcp_set_flags TF_RXCLOSED c)); try done.
  - intros _. by apply has_set_same.
  - intros err st' Hres. apply HQ. exact (close_result_after ls X p b c (set_rest (Conn (tcp_set_flags TF_RXCLOSED c)) b) _ st st1 st' eq_refl He1 Hca1 Hres).
Qed.

Lemma wp_drop_refused ls X p b c (Q : unit -> tcp E -> Prop) st :
  Inv ls ({[p]} ∪ X) st -> pcbs st !! p = Some b -> leaving ls p b c ->
  (forall b' c' st', Inv ls ({[p]} ∪ X) st' -> pcbs st' !! p = Some b' -> leaving ls p b' c' -> state b' = state b ->
     flags c' = flags c -> evolves b c b' c' -> calm st st' -> Q tt st') ->
  wp (c ← load_conn p;
      if refused_data c =? 0 then mret tt
      else effect (pbuf_free (refused_data c)) ;; store_conn p (set_refused_data 0)) Q st.
Proof.
  intros Hi Hb Hlv HQ. pose proof Hlv as [Hr Hs Hh Hre Hco Hub]. apply wp_bind, (wp_load_conn p b c); [done..|].
  destruct (Z.eqb_spec (refused_data c) 0) as [H0|H0].
  { apply wp_ret, (HQ b c); try done. apply evolves_refl. }
  apply wp_bind, wp_effect, (wp_local _ p b c (fun _ b' c' _ => b' = b /\ c' = set_refused_data 0 c)).
  { cbn. by rewrite set_rest_id. }
  { by lstep. }
  intros [] b' c' e' [-> ->] Hca. apply (HQ (set_rest (Conn (set_refused_data 0 c)) b) (set_refused_data 0 c)).
  - eapply (Inv_at_conn P L ls ({[p]} ∪ X) _ p b c); [by apply (Inv_same P L ls _ st)|done..|set_solver].
  - apply at_conn_lookup.
  - split; try done.
    + intros Hn. apply Hre in Hn. unfold released in *. by rewrite Hr in Hn.
    + unfold conn_ok in *. rewrite Hr in Hco. destruct Hco as (H1 & H2 & H3). by split_and!.
  - done.
  - done.
  - split; [split; try done|done]; [|by left]. unfold released. by rewrite Hr.
  - transitivity (set_env (pbuf_free (refused_data c) (env st)) st); [by apply calm_same|done].
Qed.

Lemma wp_tcp_shutdown_leaving ls X p b c (rx sx : bool) (Q : Z -> tcp E -> Prop) st :
  Inv ls ({[p]} ∪ X) st -> listeners_settled ls X -> pcbs st !! p = Some b -> leaving ls p b c ->
  (forall err b' c' st', Inv ls ({[p]} ∪ X) st' -> calm st st' -> pcbs st' !! p = Some b' ->
     leaving ls p b' c' -> state b' = state b -> evolves b c b' c' -> Q err st') ->
  (forall err st', close_result ls X p b c st st' -> Q err st') -> wp (tcp_shutdown p rx sx) Q st.
Proof.
  intros Hi HLX Hb Hlv HQs HQ. unfold tcp_shutdown.
  destruct (Z.eqb_spec p 0) as [Hp0|Hp0]; [by apply (inv_nonzero _ _ _ _ _ _ _ Hi) in Hb|].
  apply wp_bind, (wp_load p b); [done|]. rewrite (bool_decide_eq_false_2 _ (lv_state _ _ _ _ Hlv)).
  assert (forall b1 c1 st1, Inv ls ({[p]} ∪ X) st1 -> pcbs st1 !! p = Some b1 -> leaving ls p b1 c1 ->
    state b1 = state b -> (rx = true -> tcp_is_flag_set c1 TF_RXCLOSED = true) -> evolves b c b1 c1 -> calm st st1 ->
    wp (if rx && sx then tcp_close_shutdown p true
      else
        (if rx then
           c ← load_conn p;
           if refused_data c =? 0 then mret tt
           else effect (pbuf_free (refused_data c)) ;; store_conn p (set_refused_data 0)
         else mret tt) ;;
        if sx then
          match state b with
          | SYN_RCVD | ESTABLISHED | CLOSE_WAIT => tcp_close_shutdown p rx
          | _ => mret ERR_CONN
          end
        else mret ERR_OK) Q st1) as Hgo.
  { intros b1 c1 st1 Hi1 Hb1 Hlv1 Hs1 Hrx He1 Hca1.
    assert (forall b2 c2 st2 r, Inv ls ({[p]} ∪ X) st2 -> pcbs st2 !! p = Some b2 -> leaving ls p b2 c2 ->
      state b2 = state b -> (r = true -> tcp_is_flag_set c2 TF_RXCLOSED = true) -> evolves b c b2 c2 -> calm st st2 ->
      wp (tcp_close_shutdown p r) Q st2) as Hcs.
    { intros b2 c2 st2 r Hi2 Hb2 Hlv2 Hs2 Hrx2 He2 Hca2. apply (wp_tcp_close_shutdown ls X p b2 c2); try done.
      intros err st' Hres. apply HQ. by apply (close_result_after ls X p b c b2 c2 st st2 st' Hs2 He2). }
    destruct (rx && sx) eqn:Hboth.
    { apply andb_true_iff in Hboth as [-> ->]. by apply (Hcs b1 c1). }
    apply wp_bind.
    assert (forall b2 c2 st2, Inv ls ({[p]} ∪ X) st2 -> pcbs st2 !! p = Some b2 -> leaving ls p b2 c2 ->
      state b2 = state b -> (rx = true -> tcp_is_flag_set c2 TF_RXCLOSED = true) -> evolves b c b2 c2 -> calm st st2 ->
      wp (if sx then
          match state b with
          | SYN_RCVD | ESTABLISHED | CLOSE_WAIT => tcp_close_shutdown p rx
          | _ => mret ERR_CONN
          end
        else mret ERR_OK) Q st2) as Hlast.
    { intros b2 c2 st2 Hi2 Hb2 Hlv2 Hs2 Hrx2 He2 Hca2.
      assert (forall err, wp (mret err) Q st2) as Hret.
      { intros err. by apply wp_ret, (HQs err b2 c2). }
      destruct sx; [|done]. destruct (state b); try done; by apply (Hcs b2 c2). }
    destruct rx; [|by apply wp_ret, (Hlast b1 c1)].
    apply (wp_drop_refused ls X p b1 c1); [done..|]. intros b2 c2 st2 Hi2 Hb2 Hlv2 Hs2 Hf2 He2 Hca2.
    apply (Hlast b2 c2); try done; [by rewrite Hs2| |by apply (evolves_trans _ _ b1 c1)|by transitivity st1].
    intros _. unfold tcp_is_flag_set. rewrite Hf2. by apply Hrx. }
  apply wp_bind. destruct rx.
  - apply (wp_rxclosed ls X p b c); [done..|]. intros st1 Hi1 Hb1 Hlv1 He1 Hca1.
    apply (Hgo (set_rest (Conn (tcp_set_flags TF_RXCLOSED c)) b) (tcp_set_flags TF_RXCLOSED c) st1 Hi1 Hb1); try done. intros _. by apply has_set_same.
  - apply wp_ret, (Hgo b c); try done; apply evolves_refl.
Qed.
End shut.
