(* ===== verification/TcpAlloc.v ===== *)
(** * Making room ([tcp_alloc])

    When the blocks have run out the closes that were put off are tried again and
    connections are given up; every way leads from one good state to another, and
    listeners are never sacrificed. *)
From S2P Require Import Prelude Lwip Pbuf ChecksumPbuf TcpPcb TcpOut Tcp TcpIn TcpWp TcpLists TcpInv TcpSteps.
From S2P Require Import TcpPools TcpRemove TcpWork TcpClose.

(** A fold ends with what it started with or a block of the list. *)
Lemma foldl_blocks {A} (f : A -> Z -> tcp_pcb -> A) (g : A -> Z) h xs a :
  (forall a p b, g (f a p b) = p \/ g (f a p b) = g a) ->
  let r := g (foldl (fun a '(p, b) => f a p b) a (blocks h xs)) in r = g a \/ r ∈ xs.
Proof.
  intros Hf. cbv zeta. assert (forall l : list (Z * tcp_pcb), let r := g (foldl (fun a '(p, b) => f a p b) a l) in
    r = g a \/ exists b, (r, b) ∈ l) as H.
  { intros l. revert a. induction l as [|[p b] l IH]; intros a; cbn; [by left|].
    destruct (IH (f a p b)) as [H|[b' H]].
    - rewrite H. destruct (Hf a p b) as [->| ->]; [right; exists b; by left|by left].
    - right. exists b'. by right. }
  destruct (H (blocks h xs)) as [Hr|[b Hr]]; [by left|right]. by apply blocks_elem in Hr as [Hr _].
Qed.

Lemma chain_head h xs p : chain h xs p -> p = hd 0 xs.
Proof. destruct xs; [done|]. by intros [-> _]. Qed.

Section alloc.
Context {E : Type} `{!TcpEnv E}.
Implicit Types (st : tcp E) (ls : pcb_list -> list Z) (X P L : gset Z).

(** No block of a list is exempt. *)
Definition lists_settled ls X : Prop := forall l a, a ∈ ls l -> a ∉ X.

(** Room has been made, perhaps. *)
Record roomier P L X ls st ls' st' : Prop := Roomier {
  rm_inv : Inv P L ls' X st';
  rm_settled : lists_settled ls' X;
  rm_listeners : ls' LISTEN_PCBS = ls LISTEN_PCBS;
  rm_calm : calm st st' }.

Lemma roomier_trans P L X ls1 st1 ls2 st2 ls3 st3 :
  roomier P L X ls1 st1 ls2 st2 -> roomier P L X ls2 st2 ls3 st3 -> roomier P L X ls1 st1 ls3 st3.
Proof. intros [] []. split; [done..|congruence|by transitivity st2]. Qed.

(** ** Work on a connection that is in its list *)

Lemma at_work_active P L ls X st p b c :
  Inv P L ls X st -> lists_settled ls X -> p ∈ ls ACTIVE_PCBS -> pcbs st !! p = Some b -> rest b = Conn c ->
  at_work P L ls ({[p]} ∪ X) p b c st.
Proof.
  intros Hi HX Hp Hb Hr. pose proof (inv_placed _ _ _ _ _ _ (Some ACTIVE_PCBS) b Hi Hp Hb (HX _ _ Hp)) as Ho.
  split; [by apply Inv_exempt|set_solver| |done|by apply ok_lively].
  intros l Hl [->%elem_of_singleton|HlX]%elem_of_union; [|by apply (HX _ _ Hl)].
  by pose proof (lists_disjoint _ _ (inv_lists _ _ _ _ _ Hi) _ _ _ Hl Hp).
Qed.

Lemma inv_refers P L ls X st p b c :
  Inv P L ls X st -> p ∉ X -> pcbs st !! p = Some b -> rest b = Conn c -> refers_ok ls c.
Proof. intros Hi HX Hb Hr. apply (content_listener _ _ _ (inv_content _ _ _ _ _ Hi) p b c); auto. Qed.

(** The buffers of a connection are counted. *)
Lemma inv_counted P L ls X st p b c :
  Inv P L ls X st -> p ∉ X -> pcbs st !! p = Some b -> rest b = Conn c -> counted (state b) (tx c).
Proof.
  intros Hi HX Hb Hr. destruct (placed_exists ls p) as [w Hw].
  pose proof (inv_placed _ _ _ _ _ _ w b Hi Hw Hb HX) as Ho. destruct w as [[]|]; cbn [pcb_ok] in Ho.
  - by destruct Ho as [-> _].
  - by destruct Ho as [-> _].
  - by apply (ok_counted b).
  - by destruct Ho as [-> _].
  - by destruct Ho as [-> _].
Qed.

Lemma settle_active P L ls X st p b c :
  at_work P L ls ({[p]} ∪ X) p b c st -> p ∉ X -> p ∈ ls ACTIVE_PCBS -> counted (state b) (tx c) -> refers_ok ls c ->
  Inv P L ls X st.
Proof.
  intros [Hi _ _ Hb Hlv] HpX Hp Hk Hre. pose proof (lively_rest _ _ Hlv) as Hr.
  apply (Inv_settle P L p ls X st b); try done.
  - intros w Hw. destruct w as [l|]; [|by apply Hw in Hp].
    pose proof (lists_disjoint _ _ (inv_lists _ _ _ _ _ Hi) _ _ _ Hp Hw) as <-. by apply (lively_ok b c).
  - intros c' Hc'. rewrite Hr in Hc'. by injection Hc' as <-.
  - intros r _ Hl. congruence.
Qed.

(** [tcp_handle_closepend]. *)
Lemma closepend_loop_spec P L fuel ls X zs ys q (Q : unit -> tcp E -> Prop) st :
  (length ys < fuel)%nat -> Inv P L ls X st -> lists_settled ls X -> ls ACTIVE_PCBS = zs ++ ys ->
  chain (pcbs st) ys q -> (forall st', Inv P L ls X st' -> calm st st' -> Q tt st') ->
  wp (closepend_loop fuel q) Q st.
Proof.
  revert zs ys q st. induction fuel as [|fuel IH]; intros zs ys q st Hf Hi HX Hls Hc HQ; [lia|].
  cbn [closepend_loop]. destruct ys as [|x ys].
  { cbn in Hc. subst q. by apply wp_ret, HQ. }
  destruct Hc as (-> & Hx0 & b & Hb & Hc). destruct (Z.eqb_spec x 0); [done|].
  assert (x ∈ ls ACTIVE_PCBS) as Hx by (rewrite Hls; set_solver).
  destruct (inv_listed_conn P L ls X st ACTIVE_PCBS x Hi) as (b' & c & Hb' & Hr); [done..|by apply (HX ACTIVE_PCBS)|].
  rewrite Hb in Hb'. injection Hb' as <-.
  apply wp_bind, (wp_load x b); [done|]. apply wp_bind, (wp_load_conn x b c); [done..|]. apply wp_bind.
  assert (forall st1, Inv P L ls X st1 -> calm st st1 -> wp (closepend_loop fuel (next b)) Q st1) as Hgo.
  { intros st1 Hi1 Hca1. apply (IH (zs ++ [x]) ys); try done; [cbn in Hf; lia|by rewrite <- app_assoc| |].
    - pose proof (lists_chain _ _ (inv_lists _ _ _ _ _ Hi1) ACTIVE_PCBS) as Hc1. rewrite Hls in Hc1.
      apply chain_after in Hc1 as (b1 & _ & _ & Hc1). rewrite (chain_head _ _ _ Hc), <- (chain_head _ _ _ Hc1). done.
    - intros st2 Hi2 Hca2. apply HQ; [done|]. by transitivity st1. }
  destruct (tcp_is_flag_set c TF_CLOSEPEND); [|by apply wp_ret, Hgo].
  pose proof (at_work_active P L ls X st x b c Hi HX Hx Hb Hr) as Hw.
  apply wp_bind, (wp_work_quiet P L _ ls ({[x]} ∪ X) x b c); [done| |].
  { unfold quietly. lstep. quiet_done. }
  intros _ b1 c1 st1 Hw1 _ He1 Hca1. apply wp_bind, (wp_close_shutdown_fin P L ls ({[x]} ∪ X) x b1 c1); [done|].
  intros err b2 c2 st2 Hw2 He2 Hca2. apply wp_ret, Hgo; [|by transitivity st1].
  apply (settle_active P L ls X st2 x b2 c2); try done; [by apply (HX ACTIVE_PCBS)| |].
  { apply (ev_counted _ _ _ _ He2), (ev_counted _ _ _ _ He1), (inv_counted P L ls X st x b c); try done. by apply (HX ACTIVE_PCBS). }
  unfold refers_ok. rewrite (ev_listener _ _ _ _ He2), (ev_listener _ _ _ _ He1).
  apply (inv_refers P L ls X st x b c); try done. by apply (HX ACTIVE_PCBS).
Qed.

Lemma wp_handle_closepend P L ls X (Q : unit -> tcp E -> Prop) st :
  Inv P L ls X st -> lists_settled ls X -> (forall st', roomier P L X ls st ls st' -> Q tt st') ->
  wp tcp_handle_closepend Q st.
Proof.
  intros Hi HX HQ. apply wp_bind, wp_list_fuel, wp_bind, wp_gets.
  destruct (inv_lists _ _ _ _ _ Hi) as [Hc Hn _].
  apply (closepend_loop_spec P L _ ls X [] (ls ACTIVE_PCBS)); try done.
  - pose proof (chain_length _ _ _ (Hn ACTIVE_PCBS) (Hc ACTIVE_PCBS)). lia.
  - intros st' Hi' Hca. by apply HQ.
Qed.

(** ** Giving up a connection of a list *)

Lemma lists_settled_drop p ls X : lists_settled ls X -> lists_settled (drop_pcb p ls) X.
Proof. intros H l a [Ha _]%elem_of_drop. by apply (H l). Qed.

Lemma wp_abandon_listed P L ls X l p reset (Q : unit -> tcp E -> Prop) st :
  Inv P L ls X st -> lists_settled ls X -> l <> LISTEN_PCBS -> p ∈ ls l ->
  (forall ls' st', roomier P L X ls st ls' st' -> Q tt st') -> wp (tcp_abandon p reset) Q st.
Proof.
  intros Hi HX Hl Hp HQ. pose proof (HX _ _ Hp) as HpX.
  destruct (inv_listed_conn P L ls X st l p Hi) as (b & c & Hb & Hr); [done..|].
  apply (wp_tcp_abandon P L ls X p b c); try done; [intros x Hx; by apply (HX LISTEN_PCBS)|].
  intros st' Hi' Hn' Hca. apply (HQ (drop_pcb p ls)). split; [done|by apply lists_settled_drop| |done].
  symmetry. unfold drop_pcb. rewrite without_notin; [done|]. intros Hpl.
  by pose proof (lists_disjoint _ _ (inv_lists _ _ _ _ _ Hi) _ _ _ Hp Hpl).
Qed.

(** [inactive] of the loops. *)
Lemma wp_inactive P L {A} ls X l (f : A -> Z -> tcp_pcb -> A) (g : A -> Z) a reset fuel (Q : unit -> tcp E -> Prop) st :
  Inv P L ls X st -> lists_settled ls X -> l <> LISTEN_PCBS -> (forall a p b, g (f a p b) = p \/ g (f a p b) = g a) ->
  g a = 0 -> fuel = S (size (pcbs st)) -> (forall ls' st', roomier P L X ls st ls' st' -> Q tt st') ->
  wp (r ← pcb_fold fuel f a (heads st l); if g r =? 0 then mret tt else tcp_abandon (g r) reset) Q st.
Proof.
  intros Hi HX Hl Hf Ha -> HQ. destruct (inv_lists _ _ _ _ _ Hi) as [Hc Hn _].
  apply wp_bind, pcb_fold_spec with (ls l); [|apply Hc|].
  { pose proof (chain_length _ _ _ (Hn l) (Hc l)). lia. }
  set (r := foldl _ _ _). destruct (Z.eqb_spec (g r) 0) as [Hr|Hr].
  - by apply wp_ret, (HQ ls).
  - apply (wp_abandon_listed P L ls X l); try done.
    destruct (foldl_blocks f g (pcbs st) (ls l) a Hf) as [H|H]; [|done]. fold r in H. congruence.
Qed.

Lemma wp_ext {A} (m m' : tcpM E A) (Q : A -> tcp E -> Prop) st : m st = m' st -> wp m Q st -> wp m' Q st.
Proof. intros Hm (a & st' & Ha & HQ). exists a, st'. by rewrite <- Hm. Qed.

Lemma wp_tcp_kill_timewait P L ls X (Q : unit -> tcp E -> Prop) st :
  Inv P L ls X st -> lists_settled ls X -> (forall ls' st', roomier P L X ls st ls' st' -> Q tt st') ->
  wp tcp_kill_timewait Q st.
Proof.
  intros Hi HX HQ. apply wp_bind, wp_list_fuel, wp_bind, (wp_gets (fun st => heads st TW_PCBS)), wp_bind, wp_gets.
  eapply wp_ext; [|apply (wp_inactive P L ls X TW_PCBS (oldest_step (fun _ => true) (tcp_ticks st)) fst (0, 0) true); try done].
  - unfold mbind, tcpM_bind. by destruct (pcb_fold _ _ _ _ st) as [[[? ?] ?]| | |].
  - intros [x y] p b. unfold oldest_step. destruct (_ && _); auto.
Qed.

Lemma wp_tcp_kill_state P L ls X s (Q : unit -> tcp E -> Prop) st :
  s = CLOSING \/ s = LAST_ACK -> Inv P L ls X st -> lists_settled ls X ->
  (forall ls' st', roomier P L X ls st ls' st' -> Q tt st') -> wp (tcp_kill_state s) Q st.
Proof.
  intros Hs Hi HX HQ. apply wp_bind, wp_ASSERT; [by destruct Hs as [->| ->]|].
  apply wp_bind, wp_list_fuel, wp_bind, (wp_gets (fun st => heads st ACTIVE_PCBS)), wp_bind, wp_gets.
  eapply wp_ext; [|apply (wp_inactive P L ls X ACTIVE_PCBS (oldest_step (fun b => bool_decide (state b = s)) (tcp_ticks st))
    fst (0, 0) false); try done].
  - unfold mbind, tcpM_bind. by destruct (pcb_fold _ _ _ _ st) as [[[? ?] ?]| | |].
  - intros [x y] p b. unfold oldest_step. destruct (_ && _); auto.
Qed.

Lemma wp_tcp_kill_prio P L ls X pr (Q : unit -> tcp E -> Prop) st :
  Inv P L ls X st -> lists_settled ls X -> (forall ls' st', roomier P L X ls st ls' st' -> Q tt st') ->
  wp (tcp_kill_prio pr) Q st.
Proof.
  intros Hi HX HQ. unfold tcp_kill_prio. destruct (_ =? 0); [by apply wp_ret, (HQ ls)|].
  apply wp_bind, wp_list_fuel, wp_bind, (wp_gets (fun st => heads st ACTIVE_PCBS)), wp_bind, wp_gets.
  eapply wp_ext; [|apply (wp_inactive P L ls X ACTIVE_PCBS (kill_prio_step (tcp_ticks st)) (fun a => a.1.1)
    (0, 0, Z.min TCP_PRIO_MAX pr - 1) true); try done].
  - unfold mbind, tcpM_bind. by destruct (pcb_fold _ _ _ _ st) as [[[[? ?] ?] ?]| | |].
  - intros [[x y] z] p b. unfold kill_prio_step. destruct (_ || _); auto.
Qed.

(** ** [tcp_alloc] *)

(** What [memp_malloc] answered: nothing, or an element that belongs to no pool now. *)
Definition offered P L X ls st (a : Z) ls' st' : Prop :=
  if decide (a = 0) then roomier P L X ls st ls' st'
  else a ∈ P /\ a ∉ L /\ pcbs st' !! a = None /\ Inv (P ∖ {[a]}) L ls' X st' /\ lists_settled ls' X /\
       ls' LISTEN_PCBS = ls LISTEN_PCBS /\ calm st st'.

Lemma wp_malloc_offered P L X ls0 st0 ls (Q : Z -> tcp E -> Prop) st :
  roomier P L X ls0 st0 ls st -> (forall a st', offered P L X ls0 st0 a ls st' -> Q a st') -> wp memp_malloc_pcb Q st.
Proof.
  intros Hrm HQ. pose proof Hrm as [Hi HX Hl Hca]. apply (wp_memp_malloc_pcb P L ls X); [done|..].
  - intros _. apply HQ. done.
  - intros a st' Ha HaP HaL Hn Hi' Hca'. apply HQ. unfold offered. rewrite decide_False by done.
    split_and!; try done. by transitivity st.
Qed.

Lemma wp_or_after P L X ls0 st0 a ls room (Q : Z -> tcp E -> Prop) st :
  offered P L X ls0 st0 a ls st ->
  (forall (Q : unit -> tcp E -> Prop), roomier P L X ls0 st0 ls st ->
     (forall ls' st', roomier P L X ls0 st0 ls' st' -> Q tt st') -> wp room Q st) ->
  (forall a' ls' st', offered P L X ls0 st0 a' ls' st' -> Q a' st') -> wp (or_after a room) Q st.
Proof.
  intros Ho Hroom HQ. unfold or_after. destruct (Z.eqb_spec a 0) as [->|Ha].
  - apply wp_bind, Hroom; [done|]. intros ls' st' Hrm. apply (wp_malloc_offered P L X ls0 st0 ls'); [done|].
    intros a' st2 Ho2. by apply (HQ a' ls').
  - apply wp_ret. by apply (HQ a ls).
Qed.

Lemma initial_pcb_ok pr ticks ctr : pcb_ok None (initial_pcb pr ticks ctr).
Proof.
  split; [done|]. split; [|done]. split; [by split_and!|]. split; [done|]. unfold window_ok. cbn.
  split; [done|]. split; [done|]. by left.
Qed.

Lemma wp_tcp_alloc P L ls X pr (Q : Z -> tcp E -> Prop) st :
  Inv P L ls X st -> lists_settled ls X ->
  (forall ls' st', roomier P L X ls st ls' st' -> Q 0 st') ->
  (forall a ls' st' t ctr, roomier P L X ls st ls' st' -> a <> 0 -> pcbs st' !! a = Some (initial_pcb pr t ctr) ->
     (forall l, a ∉ ls' l) -> Q a st') ->
  wp (tcp_alloc pr) Q st.
Proof.
  intros Hi HX Hnone Hsome. unfold tcp_alloc.
  assert (roomier P L X ls st ls st) as Hr0 by by split.
  apply wp_bind, (wp_malloc_offered P L X ls st ls); [done|]. intros a1 st1 H1.
  apply wp_bind, (wp_or_after P L X ls st a1 ls); [done|..].
  { intros Q' Hr HQ'. apply wp_bind, (wp_handle_closepend P L ls X); [apply Hr..|]. intros st' Hr'.
    apply (wp_tcp_kill_timewait P L ls X); [apply Hr'..|]. intros ls2 st2 Hr2. apply (HQ' ls2).
    apply (roomier_trans P L X _ _ ls st'); [by apply (roomier_trans P L X _ _ ls st1)|done]. }
  intros a2 ls2 st2 H2. apply wp_bind, (wp_or_after P L X ls st a2 ls2); [done|..].
  { intros Q' Hr HQ'. apply (wp_tcp_kill_state P L ls2 X); [by right|apply Hr..|]. intros ls3 st3 Hr3.
    apply (HQ' ls3). by apply (roomier_trans P L X _ _ ls2 st2). }
  intros a3 ls3 st3 H3. apply wp_bind, (wp_or_after P L X ls st a3 ls3); [done|..].
  { intros Q' Hr HQ'. apply (wp_tcp_kill_state P L ls3 X); [by left|apply Hr..|]. intros ls4 st4 Hr4.
    apply (HQ' ls4). by apply (roomier_trans P L X _ _ ls3 st3). }
  intros a4 ls4 st4 H4. apply wp_bind, (wp_or_after P L X ls st a4 ls4); [done|..].
  { intros Q' Hr HQ'. apply (wp_tcp_kill_prio P L ls4 X); [apply Hr..|]. intros ls5 st5 Hr5.
    apply (HQ' ls5). by apply (roomier_trans P L X _ _ ls4 st4). }
  intros a ls5 st5 H5. unfold offered in H5. destruct (Z.eqb_spec a 0) as [->|Ha].
  { by apply wp_ret, (Hnone ls5). }
  rewrite decide_False in H5 by done. destruct H5 as (HaP & HaL & Hn & Hi5 & HX5 & Hl5 & Hca5).
  apply wp_bind, wp_gets, wp_bind, wp_gets, wp_bind.
  apply (wp_new_pcb P L ls5 X a _ (TcpConn 0 0 0 (tcp_timer_ctr st5) (tcp_ticks st5) (TcpTransfer initial_vars [] [] []) 0 0
       FN_NULL FN_recv_null FN_NULL FN_NULL FN_NULL)); try done; [apply initial_pcb_ok|].
  intros st6 Hi6 Hb6 Hnw Hca6. eapply wp_ret, (Hsome a ls5); try done. split; try done. by transitivity st5.
Qed.
End alloc.
