(* ===== verification/TcpBind.v ===== *)
(** * Local ports ([tcp_new_port], [tcp_bind])

    A port is handed out only when no block of any list has it, and every port of
    the range is tried before the search gives up. *)
From S2P Require Import Prelude Lwip Pbuf ByteOrder ChecksumPbuf TcpPcb TcpOut Tcp TcpIn TcpWp TcpLists TcpInv.
From S2P Require Import TcpSteps TcpPools TcpRemove TcpWork TcpClose TcpAlloc.

(** Some listed block passes the test. *)
Definition listed_with (ls : pcb_list -> list Z) (h : gmap Z tcp_pcb) (test : tcp_pcb -> bool) : Prop :=
  exists l a b, a ∈ ls l /\ h !! a = Some b /\ test b = true.

Definition port_used (ls : pcb_list -> list Z) (h : gmap Z tcp_pcb) (port : Z) : Prop :=
  listed_with ls h (fun b => local_port b =? port).

(** The port after [i] more tries. *)
Definition port_after (p0 i : Z) : Z :=
  TCP_LOCAL_PORT_RANGE_START + (p0 - TCP_LOCAL_PORT_RANGE_START + i) mod (TCP_LOCAL_PORT_RANGE_END - TCP_LOCAL_PORT_RANGE_START).

Section ports.
Context {E : Type} `{!TcpEnv E}.
Implicit Types (st : tcp E) (ls : pcb_list -> list Z) (X P L : gset Z).

(** A search through all the lists. *)
Lemma find_blocks test h xs :
  let r := default 0 (fst <$> find (fun '(_, b) => test b) (blocks h xs)) in
  0 ∉ xs ->
  (r = 0 /\ (forall a b, a ∈ xs -> h !! a = Some b -> test b = false)) \/
  (r <> 0 /\ exists b, r ∈ xs /\ h !! r = Some b /\ test b = true).
Proof.
  cbv zeta. intros H0. destruct (find _ _) as [[a b]|] eqn:Hf; cbn.
  - right. apply find_some in Hf as [Hin Ht]. apply list_elem_of_In, blocks_elem in Hin as [Ha Hb].
    split; [by intros ->|]. by exists b.
  - left. split; [done|]. intros a b Ha Hb. apply (find_none _ _ Hf (a, b)).
    by apply list_elem_of_In, blocks_elem.
Qed.

Lemma wp_find_listed {A} ls l test (k : Z -> tcpM E A) (Q : A -> tcp E -> Prop) st :
  lists_ok ls st ->
  ((forall a b, a ∈ ls l -> pcbs st !! a = Some b -> test b = false) -> wp (k 0) Q st) ->
  (forall a b, a <> 0 -> a ∈ ls l -> pcbs st !! a = Some b -> test b = true -> wp (k a) Q st) ->
  wp (fuel ← list_fuel; h ← gets (fun st => heads st l); p ← pcb_find fuel test h; k p) Q st.
Proof.
  intros [Hc Hn Hd] Hno Hyes. apply wp_bind, wp_list_fuel, wp_bind, (wp_gets (fun st => heads st l)), wp_bind.
  eapply (pcb_find_spec _ _ (ls l)); [|apply Hc|].
  { pose proof (chain_length _ _ _ (Hn l) (Hc l)). lia. }
  destruct (find_blocks test (pcbs st) (ls l)) as [[-> Hf]|(Hr & b & Hin & Hb & Ht)].
  - apply (chain_zero_notin _ _ _ (Hc l)).
  - by apply Hno.
  - by apply (Hyes _ b).
Qed.

(** A test of the blocks of all the lists in [tests]. *)
Lemma wp_scan (scan : list pcb_list -> tcpM E bool) test ls tests (Q : bool -> tcp E -> Prop) st :
  (forall l tests, scan (l :: tests) =
     (fuel ← list_fuel; h ← gets (fun st => heads st l); p ← pcb_find fuel test h;
      if p =? 0 then scan tests else mret true)) ->
  scan [] = mret false -> lists_ok ls st ->
  ((exists l a b, l ∈ tests /\ a ∈ ls l /\ pcbs st !! a = Some b /\ test b = true) -> Q true st) ->
  ((forall l a b, l ∈ tests -> a ∈ ls l -> pcbs st !! a = Some b -> test b = false) -> Q false st) ->
  wp (scan tests) Q st.
Proof.
  intros Hcons Hnil Hl. induction tests as [|l tests IH]; intros Hyes Hno.
  { rewrite Hnil. apply wp_ret, Hno. intros l a b Hin. by apply not_elem_of_nil in Hin. }
  rewrite Hcons. apply (wp_find_listed ls); [done|..].
  - intros Hf. apply IH.
    + intros (l' & a & b & Hl' & Ha & Hb & Hp). apply Hyes. exists l', a, b. split_and!; [by right|done..].
    + intros Hall. apply Hno. intros l' a b [->|Hl']%elem_of_cons Ha Hb; [by apply (Hf a)|by apply (Hall l' a)].
  - intros a b Ha Hin Hb Ht. destruct (Z.eqb_spec a 0); [done|]. apply wp_ret, Hyes. exists l, a, b.
    split_and!; [by left|done..].
Qed.

Lemma all_lists l : l ∈ tcp_pcb_lists.
Proof. destruct l; unfold tcp_pcb_lists; set_solver. Qed.

Lemma wp_port_in_use ls port (Q : bool -> tcp E -> Prop) st :
  lists_ok ls st -> (port_used ls (pcbs st) port -> Q true st) -> (~ port_used ls (pcbs st) port -> Q false st) ->
  wp (port_in_use tcp_pcb_lists port) Q st.
Proof.
  intros Hl Hyes Hno. apply (wp_scan (fun t => port_in_use t port) (fun b => local_port b =? port) ls); try done.
  - intros (l & a & b & _ & H). apply Hyes. by exists l, a, b.
  - intros H. apply Hno. intros (l & a & b & Ha & Hb & Ht). rewrite (H l a b) in Ht; [done|apply all_lists|done..].
Qed.

Lemma wp_address_in_use ls addr port (Q : bool -> tcp E -> Prop) st :
  lists_ok ls st -> (listed_with ls (pcbs st) (bind_conflict addr port) -> Q true st) ->
  (~ listed_with ls (pcbs st) (bind_conflict addr port) -> Q false st) ->
  wp (address_in_use tcp_pcb_lists addr port) Q st.
Proof.
  intros Hl Hyes Hno. apply (wp_scan (fun t => address_in_use t addr port) (bind_conflict addr port) ls); try done.
  - intros (l & a & b & _ & H). apply Hyes. by exists l, a, b.
  - intros H. apply Hno. intros (l & a & b & Ha & Hb & Ht). rewrite (H l a b) in Ht; [done|apply all_lists|done..].
Qed.

(** ** [tcp_new_port] *)

Notation START := TCP_LOCAL_PORT_RANGE_START.
Notation END_ := TCP_LOCAL_PORT_RANGE_END.

Lemma next_port p :
  START <= p < END_ ->
  (if u16 (p + 1) =? END_ then START else u16 (p + 1)) = port_after p 1 /\ START <= port_after p 1 < END_.
Proof.
  unfold port_after, START, END_. intros Hp. unfold u16. rewrite (Z.mod_small (p + 1)) by lia.
  destruct (Z.eqb_spec (p + 1) 65535) as [He|He].
  - replace (p - 49152 + 1) with 16383 by lia. rewrite Z.mod_same by lia. lia.
  - rewrite Z.mod_small by lia. lia.
Qed.

Lemma port_after_add p i j : port_after (port_after p i) j = port_after p (i + j).
Proof.
  unfold port_after, START, END_. f_equal. change (65535 - 49152) with 16383.
  replace (49152 + (p - 49152 + i) mod 16383 - 49152 + j) with ((p - 49152 + i) mod 16383 + j) by lia.
  rewrite Z.add_mod_idemp_l by lia. f_equal. lia.
Qed.

(** Every port of the range is tried. *)
Lemma port_after_onto p q : START <= q < END_ -> exists i, 1 <= i <= END_ - START /\ port_after p i = q.
Proof.
  unfold port_after, START, END_. change (65535 - 49152) with 16383. intros Hq.
  pose proof (Z.mod_pos_bound (q - p - 1) 16383) as Hb.
  exists ((q - p - 1) mod 16383 + 1). split; [lia|].
  replace (p - 49152 + ((q - p - 1) mod 16383 + 1)) with ((p - 49152 + 1) + (q - p - 1) mod 16383) by lia.
  rewrite Z.add_mod_idemp_r by lia. replace (p - 49152 + 1 + (q - p - 1)) with (q - 49152) by lia.
  rewrite Z.mod_small by lia. lia.
Qed.

Lemma new_port_loop_spec ls fuel n p0 (Q : Z -> tcp E -> Prop) st :
  lists_ok ls st -> START <= p0 < END_ -> 0 <= n <= END_ - START -> Z.of_nat fuel = END_ - START - n + 1 ->
  tcp_port st = port_after p0 n -> (forall i, 1 <= i <= n -> port_used ls (pcbs st) (port_after p0 i)) ->
  (forall i, n < i <= END_ - START + 1 -> ~ port_used ls (pcbs st) (port_after p0 i) ->
     (forall j, 1 <= j < i -> port_used ls (pcbs st) (port_after p0 j)) ->
     Q (port_after p0 i) (set_tcp_port (port_after p0 i) st)) ->
  (forall p, START <= p < END_ -> (forall q, START <= q < END_ -> port_used ls (pcbs st) q) -> Q 0 (set_tcp_port p st)) ->
  wp (new_port_loop fuel n) Q st.
Proof.
  revert n st. induction fuel as [|fuel IH]; intros n st Hl Hp0 Hn Hf Hp Hused Hyes Hno; [lia|].
  cbn [new_port_loop]. apply wp_bind, (wp_gets (fun st => u16 (tcp_port st + 1))).
  assert (START <= tcp_port st < END_) as Hpr.
  { rewrite Hp. unfold port_after, START, END_ in *. pose proof (Z.mod_pos_bound (p0 - 49152 + n) (65535 - 49152)). lia. }
  destruct (next_port (tcp_port st) Hpr) as [Hnext Hrange]. cbv zeta. rewrite Hnext, Hp, port_after_add.
  rewrite Hp, port_after_add in Hrange. apply wp_bind, wp_modify, wp_bind.
  assert (lists_ok ls (set_tcp_port (port_after p0 (n + 1)) st)) as Hl' by (by destruct Hl).
  apply (wp_port_in_use ls); [done| |].
  - intros Hu. unfold u16. rewrite (Z.mod_small (n + 1)) by (unfold START, END_ in *; lia).
    assert (forall i, 1 <= i <= n + 1 -> port_used ls (pcbs st) (port_after p0 i)) as Hused'.
    { intros i Hi. destruct (decide (i = n + 1)) as [->|]; [done|]. apply Hused. lia. }
    destruct (Z.ltb_spec (END_ - START) (n + 1)) as [Hlt|Hge].
    + apply wp_ret, Hno; [done|]. intros q Hq. destruct (port_after_onto p0 q Hq) as (i & Hi & <-). apply Hused'. lia.
    + apply IH; try done; try lia.
      intros i Hi Hu2 Hj. apply (Hyes i); [lia|done..].
  - intros Hu. apply wp_ret, Hyes; [lia|done|]. intros j Hj. apply Hused. lia.
Qed.

Lemma wp_tcp_new_port ls (Q : Z -> tcp E -> Prop) st :
  lists_ok ls st -> START <= tcp_port st < END_ ->
  (forall port, START <= port < END_ -> ~ port_used ls (pcbs st) port -> Q port (set_tcp_port port st)) ->
  (forall p, START <= p < END_ -> (forall q, START <= q < END_ -> port_used ls (pcbs st) q) -> Q 0 (set_tcp_port p st)) ->
  wp tcp_new_port Q st.
Proof.
  intros Hl Hp Hyes Hno. apply (new_port_loop_spec ls _ 0 (tcp_port st)); try done.
  - unfold port_after, START, END_ in *. rewrite Z.mod_small; lia.
  - intros i Hi. lia.
  - intros i Hi Hu _. apply Hyes; [|done]. unfold port_after, START, END_ in *.
    pose proof (Z.mod_pos_bound (tcp_port st - 49152 + i) (65535 - 49152)). lia.
Qed.
End ports.

(** ** Binding and listening ([tcp_bind], [tcp_listen_with_backlog_and_err]) *)

(** A closed connection that no listener knows. *)
Record closed_ok (b : tcp_pcb) (c : tcp_conn) : Prop := ClosedOk {
  cl_rest : rest b = Conn c;
  cl_state : state b = CLOSED;
  cl_ok : conn_ok b;
  cl_unclaimed : unclaimed b }.

Section bind.
Context {E : Type} `{!TcpEnv E} (P L : gset Z).
Implicit Types (st : tcp E) (ls : pcb_list -> list Z) (X : gset Z).
Notation Inv := (Inv P L).

Lemma inv_closed ls X st p b c :
  Inv ls X st -> p ∉ X -> pcbs st !! p = Some b -> rest b = Conn c -> state b = CLOSED -> closed_ok b c.
Proof.
  intros Hi HX Hb Hr Hs. destruct (placed_exists ls p) as [w Hw].
  pose proof (inv_placed _ _ _ _ _ _ w b Hi Hw Hb HX) as Ho.
  destruct w as [[]|]; cbn [pcb_ok] in Ho; rewrite Hs in Ho; try (by destruct Ho); by (destruct Ho as (? & ?); split; tauto).
Qed.

Lemma quiet_closed b c b' c' : quiet b c b' c' -> closed_ok b c -> closed_ok (set_rest (Conn c') b') c'.
Proof.
  intros [(Hn & Hs & Hp) Hl Hf Hq _ [E1 E2] Hw] [Hr Hst Hco Hu].
  unfold conn_ok, refused_ok, unclaimed in *. rewrite Hr in *. split; cbn; unfold conn_ok, refused_ok, unclaimed; cbn; try congruence.
  rewrite Hs, E1, E2. tauto.
Qed.

(** An assignment to an exempt connection. *)
Lemma wp_store_exempt ls X p b c f (Q : unit -> tcp E -> Prop) st :
  Inv ls X st -> p ∈ X -> pcbs st !! p = Some b -> rest b = Conn c -> next (f b) = next b -> rest (f b) = Conn c ->
  (forall st', Inv ls X st' -> pcbs st' !! p = Some (f b) -> calm st st' ->
     st' = set_pcbs (<[p := f b]> (pcbs st)) st -> Q tt st') ->
  wp (store p f) Q st.
Proof.
  intros Hi HX Hb Hr Hn Hr' HQ. apply (wp_store p f b); [done|]. apply HQ; [|apply lookup_insert_eq| |done].
  - apply (Inv_insert P L ls X st _ p b (f b)); try done. unfold same_claim. by rewrite Hr, Hr'.
  - by apply (calm_insert st _ p b c (f b)).
Qed.

(** An assignment to the addresses of any connection. *)
Lemma wp_store_ip ls X p b c g (Q : unit -> tcp E -> Prop) st :
  Inv ls X st -> pcbs st !! p = Some b -> rest b = Conn c ->
  (forall st', Inv ls X st' -> pcbs st' !! p = Some (set_ip (g b) b) -> calm st st' -> Q tt st') ->
  wp (store p (fun b => set_ip (g b) b)) Q st.
Proof.
  intros Hi Hb Hr HQ. apply (wp_store p _ b); [done|]. apply HQ; [|apply lookup_insert_eq|by apply (calm_insert st _ p b c (set_ip (g b) b))].
  apply (Inv_insert P L ls X st _ p b (set_ip (g b) b)); try done.
  unfold same_claim. cbn. by rewrite Hr.
Qed.

(** What [tcp_bind] makes of the address. *)
Lemma zoned_eq ipaddr st : exists a, zoned ipaddr st = Ret (a, st) /\ forall (Q : ip_addr -> tcp E -> Prop), Q a st -> wp (zoned ipaddr) Q st.
Proof.
  enough (exists a, zoned ipaddr st = Ret (a, st)) as [a Ha].
  { exists a. split; [done|]. intros Q HQ. by exists a, st. }
  unfold zoned. destruct (_ && _); [|by eexists].
  unfold ask, gets, mbind, tcpM_bind. destruct (_ =? 0); by eexists.
Qed.

Lemma wp_bind_tail ls X p b c ipaddr new (Q : Z -> tcp E -> Prop) st :
  Inv ls X st -> p ∉ X -> pcbs st !! p = Some b -> closed_ok b c -> (forall l, p ∉ ls l) -> new <> 0 ->
  (forall st' b', Inv (add_pcb BOUND_PCBS p ls) X st' -> pcbs st' !! p = Some b' -> rest b' = Conn c ->
     local_port b' = new -> calm st st' -> Q ERR_OK st') ->
  wp ((if negb (ip_addr_isany ipaddr) || negb (ip_type ipaddr =? ip_type (local_ip (ip b))) then
         store p (fun b => set_ip (set_local_ip (ip_addr_copy ipaddr) (ip b)) b)
       else mret tt) ;;
      store p (set_local_port new) ;;
      TCP_REG BOUND_PCBS p ;;
      mret ERR_OK) Q st.
Proof.
  intros Hi HX Hb Hcl Hno Hnew HQ. pose proof Hcl as [Hr _ _ _].
  assert (forall st1 b1, Inv ls X st1 -> pcbs st1 !! p = Some b1 -> closed_ok b1 c -> calm st st1 ->
    wp (store p (set_local_port new) ;; TCP_REG BOUND_PCBS p ;; mret ERR_OK) Q st1) as Hgo.
  { intros st1 b1 Hi1 Hb1 Hcl1 Hca1. pose proof Hcl1 as [Hr1 Hs1 Hco1 Hu1].
    apply wp_bind, (wp_store_exempt ls ({[p]} ∪ X) p b1 c); try done; [by apply Inv_exempt|set_solver|].
    intros st2 Hi2 Hb2 Hca2 _. apply wp_bind, (wp_TCP_REG P L ls ({[p]} ∪ X) BOUND_PCBS p (set_local_port new b1)); try done; [set_solver|].
    intros st3 n Hi3 Hb3 Hca3 _. apply wp_ret, (HQ _ (set_next n (set_local_port new b1))); try done.
    2: { transitivity st1; [done|]. by transitivity st2. }
    apply (Inv_settle P L p _ X st3 (set_next n (set_local_port new b1))); try done.
    - intros w Hw. destruct w as [l|].
      + apply elem_of_add in Hw as [[_ ->]|Hw]; [|by apply Hno in Hw]. done.
      + exfalso. apply (Hw BOUND_PCBS), elem_of_add. by left.
    - intros c' Hc'. left. cbn in Hc'. rewrite Hr1 in Hc'. injection Hc' as <-. unfold unclaimed in Hu1. by rewrite Hr1 in Hu1.
    - intros r _ Hl. cbn in Hl. congruence. }
  apply wp_bind. destruct (_ || _); [|by apply wp_ret, (Hgo st b)].
  apply (wp_store_ip ls X p b c (fun b => set_local_ip (ip_addr_copy ipaddr) (ip b))); [done..|].
  intros st1 Hi1 Hb1 Hca1. apply (Hgo st1 _ Hi1 Hb1); [|done]. by destruct Hcl.
Qed.

Lemma wp_tcp_bind ls X p b c addr port (Q : Z -> tcp E -> Prop) st :
  Inv ls X st -> p ∉ X -> pcbs st !! p = Some b -> closed_ok b c -> (forall l, p ∉ ls l) ->
  (forall err st', err = ERR_BUF \/ err = ERR_USE -> Inv ls X st' -> pcbs st' = pcbs st -> calm st st' ->
     (port = 0 /\ err = ERR_BUF /\ (forall q, TCP_LOCAL_PORT_RANGE_START <= q < TCP_LOCAL_PORT_RANGE_END -> port_used ls (pcbs st) q)) \/
     (port <> 0 /\ err = ERR_USE /\ exists a, zoned (default IP4_ADDR_ANY addr) st = Ret (a, st) /\
        listed_with ls (pcbs st) (bind_conflict a port)) -> Q err st') ->
  (forall st' b', Inv (add_pcb BOUND_PCBS p ls) X st' -> pcbs st' !! p = Some b' -> rest b' = Conn c -> calm st st' ->
     (port = 0 /\ TCP_LOCAL_PORT_RANGE_START <= local_port b' < TCP_LOCAL_PORT_RANGE_END /\
        ~ port_used ls (pcbs st) (local_port b')) \/
     (port <> 0 /\ local_port b' = port /\ exists a, zoned (default IP4_ADDR_ANY addr) st = Ret (a, st) /\
        ~ listed_with ls (pcbs st) (bind_conflict a port)) -> Q ERR_OK st') ->
  wp (tcp_bind p addr port) Q st.
Proof.
  intros Hi HX Hb Hcl Hno Hfail Hok. pose proof Hcl as [Hr Hs _ _]. unfold tcp_bind.
  destruct (Z.eqb_spec p 0) as [Hp0|_]; [by apply (inv_nonzero _ _ _ _ _ _ _ Hi) in Hb|].
  apply wp_bind, (wp_load p b); [done|]. rewrite (bool_decide_eq_true_2 _ Hs). cbn [negb].
  destruct (zoned_eq (default IP4_ADDR_ANY addr) st) as (a & Ha & Hza). apply wp_bind, Hza, wp_bind.
  destruct (Z.eqb_spec port 0) as [->|Hport].
  - apply (wp_tcp_new_port ls); [apply Hi..| |].
    + intros new Hnew Hfree. destruct (Z.eqb_spec new 0) as [->|Hn0]; [by destruct Hnew|].
      apply wp_bind, wp_ret. apply (wp_bind_tail ls X p b c); try done.
      { apply (Inv_set_port P L); done. }
      intros st' b' Hi' Hb' Hr' <- Hca. apply (Hok st' b'); try done; [|left; done].
      transitivity (set_tcp_port (local_port b') st); [by apply calm_same|done].
    + intros q Hq Hall. apply wp_ret, Hfail; [by left|by apply (Inv_set_port P L)|done|by apply calm_same|]. by left.
  - apply wp_ret. destruct (Z.eqb_spec port 0) as [|_]; [done|].
    apply wp_bind, (wp_address_in_use ls); [apply Hi|..].
    + intros Hu. apply wp_ret, Hfail; [by right|done..|]. right. split_and!; try done. by exists a.
    + intros Hu. apply (wp_bind_tail ls X p b c); try done. intros st' b' Hi' Hb' Hr' Hp' Hca.
      apply (Hok st' b'); try done. right. split_and!; try done. by exists a.
Qed.
End bind.
