(* ===== verification/TcpOpen.v ===== *)
(** * Opening ([tcp_listen_with_backlog_and_err], [tcp_connect])

    A closed connection becomes a listener, with a block from the other pool, or
    starts the handshake. *)
From S2P Require Import Prelude Lwip Pbuf ByteOrder ChecksumPbuf TcpPcb TcpOut Tcp TcpIn TcpWp TcpLists TcpInv.
From S2P Require Import TcpSteps TcpPools TcpRemove TcpWork TcpClose TcpAlloc TcpBind.

Section open.
Context {E : Type} `{!TcpEnv E} (P L : gset Z).
Implicit Types (st : tcp E) (ls : pcb_list -> list Z) (X : gset Z).

(** ** Listening *)

Lemma wp_new_listener ls X lpcb bl b (Q : (Z * Z) -> tcp E -> Prop) st :
  Inv P (L ∖ {[lpcb]}) ls X st -> lpcb <> 0 -> lpcb ∈ L -> lpcb ∉ P -> pcbs st !! lpcb = None -> lpcb ∉ X -> 0 <= bl < 256 ->
  (forall st', Inv P L (add_pcb LISTEN_PCBS lpcb ls) X st' -> (exists b', pcbs st' !! lpcb = Some b' /\
      local_port b' = local_port b) -> (forall a, a <> lpcb -> pcbs st !! a = None -> pcbs st' !! a = None) ->
      calm st st' -> Q (lpcb, ERR_OK) st') ->
  wp (new_pcb lpcb (listener_of lpcb bl b) ;; TCP_REG LISTEN_PCBS lpcb ;; mret (lpcb, ERR_OK)) Q st.
Proof.
  intros Hi H0 HL HP Hn HX Hbl HQ.
  eapply wp_bind, (wp_new_lpcb P L ls ({[lpcb]} ∪ X) lpcb); [by apply Inv_exempt|done..|set_solver|].
  intros st1 Hi1 Hb1 Hno Hca1 E1. pose proof (inv_no_pend P L ls _ st1 lpcb Hi1 H0 (Hno LISTEN_PCBS)) as Hz.
  eapply wp_bind, (wp_TCP_REG P L ls ({[lpcb]} ∪ X) LISTEN_PCBS lpcb); [done|set_solver|done|done|].
  intros st2 n Hi2 Hb2 Hca2 Hrl. apply wp_ret, HQ; [|by eexists| |by transitivity st1].
  2: { intros a Ha Hna. apply (relinked_none (pcbs st1)); [done|]. by rewrite E1, lookup_insert_ne. }
  eapply (Inv_settle P L lpcb _ X st2); [done|done| | | |done].
  - intros w Hw. destruct w as [l|].
    + apply elem_of_add in Hw as [[_ ->]|Hw]; [|by apply Hno in Hw]. split; [done|].
      unfold listening_ok. cbn. unfold tcp_backlog_set. destruct (Z.eqb_spec bl 0); split; (lia || done).
    + exfalso. apply (Hw LISTEN_PCBS), elem_of_add. by left.
  - done.
  - intros r _ [= <-]. cbn. rewrite <- (pend_count_relinked _ _ _ Hrl), Hz. unfold tcp_backlog_set.
    destruct (Z.eqb_spec bl 0); lia.
Qed.

Lemma wp_tcp_listen ls X p b c bl (Q : (Z * Z) -> tcp E -> Prop) st :
  Inv P L ls X st -> p ∉ X -> (forall a, a ∈ X -> is_Some (pcbs st !! a)) -> pcbs st !! p = Some b -> closed_ok b c ->
  0 <= bl < 256 ->
  (lpcb_free st = [] -> Q (0, ERR_MEM) st) ->
  (forall lpcb st', lpcb <> 0 -> Inv P L (add_pcb LISTEN_PCBS lpcb (drop_pcb p ls)) X st' -> pcbs st' !! p = None ->
     (exists b', pcbs st' !! lpcb = Some b' /\ local_port b' = local_port b) -> calm st st' -> Q (lpcb, ERR_OK) st') ->
  wp (tcp_listen_with_backlog_and_err p bl) Q st.
Proof.
  intros Hi HX HXs Hb Hcl Hbl Hmem HQ. pose proof Hcl as [Hr Hs Hco Hu]. unfold tcp_listen_with_backlog_and_err.
  destruct (Z.eqb_spec p 0) as [Hp0|_]; [by apply (inv_nonzero _ _ _ _ _ _ _ Hi) in Hb|].
  apply wp_bind, (wp_load p b); [done|]. rewrite (bool_decide_eq_true_2 _ Hs). cbn [negb].
  apply wp_bind, (wp_memp_malloc_lpcb P L ls X); [done|..].
  { intros Hfl. apply wp_ret. by apply Hmem. }
  intros lpcb st1 H0 HL HP Hpc Hn Hi1 Hca1. destruct (Z.eqb_spec lpcb 0) as [|_]; [done|].
  assert (lpcb ∉ X) as HlX by (intros H; apply HXs in H as [? ?]; congruence).
  assert (lpcb <> p) as Hlp by congruence.
  assert (forall st2 b2, Inv P (L ∖ {[lpcb]}) (drop_pcb p ls) ({[p]} ∪ X) st2 -> pcbs st2 !! p = Some b2 ->
    rest b2 = Conn c -> state b2 = CLOSED -> released b2 -> pcbs st2 !! lpcb = None -> calm st st2 ->
    wp (tcp_free p ;; new_pcb lpcb (listener_of lpcb bl b) ;; TCP_REG LISTEN_PCBS lpcb ;; mret (lpcb, ERR_OK)) Q st2) as Hgo.
  { intros st2 b2 Hi2 Hb2 Hr2 Hs2 Hre2 Hn2 Hca2.
    apply wp_bind, (wp_tcp_free_exact P (L ∖ {[lpcb]}) (drop_pcb p ls) X p b2 c); try done; [by rewrite Hs2|intros l; apply drop_pcb_notin|].
    intros st3 Hi3 E3 Hca3.
    apply (wp_new_listener (drop_pcb p ls) X); try done; [by rewrite E3, lookup_delete_ne|].
    intros st4 Hi4 Hb4 Hot4 Hca4. apply HQ; try done.
    - apply Hot4; [done|]. rewrite E3. apply lookup_delete_eq.
    - transitivity st2; [done|]. by transitivity st3. }
  assert (pcbs st1 !! p = Some b) as Hb1 by by rewrite Hpc.
  assert (forall l, p ∈ ls l -> l = BOUND_PCBS) as Hh.
  { intros l Hl. rewrite (lv_home _ _ _ _ (inv_leaving P L ls X st p b c Hi HX Hb Hr) l Hl). by rewrite Hs. }
  apply wp_bind. destruct (Z.eqb_spec (local_port b) 0) as [Hp0|Hp0].
  - apply wp_ret, (Hgo st1 b); try done; [|by apply unclaimed_released|by rewrite Hpc].
    apply (Inv_lists_ext P _ ls); [|by apply Inv_exempt]. intros l. apply drop_pcb_nowhere.
    apply (lv_unbound _ _ _ _ (inv_leaving P L ls X st p b c Hi HX Hb Hr) Hs Hp0).
  - apply (wp_TCP_RMV P (L ∖ {[lpcb]}) ls ({[p]} ∪ X) BOUND_PCBS p b); try done; [by apply Inv_exempt|set_solver|by intros ?%Hh|].
    intros st2 Hi2 Hb2 Hca2 Hrl. apply (Hgo st2 (set_next 0 b)); try done.
    + apply (unclaimed_released b Hu).
    + apply (relinked_none (pcbs st1)); [done|]. by rewrite Hpc.
    + by transitivity st1.
Qed.
End open.

(** ** The active open ([tcp_connect]) *)

Section connect.
Context {E : Type} `{!TcpEnv E} (P L : gset Z).
Implicit Types (st : tcp E) (ls : pcb_list -> list Z) (X : gset Z).
Notation Inv := (Inv P L).

Lemma connect_vars_window i m t : window_ok (connect_vars i m t).
Proof. unfold window_ok, connect_vars. cbn. tvs. split; [done|]. split; [done|]. by left. Qed.

Lemma connect_zone_quiet p netif b c e st : quietly p (connect_zone p netif) b c e st.
Proof.
  unfold quietly, connect_zone. do 2 lstep. cbn [ip set_rest]. destruct (_ && _); [|lstep; apply quiet_refl].
  do 2 lstep. eapply (local_store p _ (set_ip _ b)); [reflexivity|]. by split.
Qed.

Lemma take_local_ip_quiet p netif b c e st : quietly p (take_local_ip p netif) b c e st.
Proof. unfold quietly. apply take_local_ip_local. intros r b' Hb. by split. Qed.

(** What the call leaves: the connection where it was, or on its way. *)
Inductive connect_result ls X p (err : Z) st' : Prop :=
  | connect_stays : Inv ls X st' -> is_Some (pcbs st' !! p) -> err <> ERR_OK -> connect_result ls X p err st'
  | connect_sent b c :
      Inv (add_pcb ACTIVE_PCBS p (drop_pcb p ls)) X st' -> pcbs st' !! p = Some b -> rest b = Conn c ->
      state b = SYN_SENT -> err = ERR_OK -> connect_result ls X p err st'.

(** The SYN is queued. *)
Lemma wp_connect_queued ls X p b c c1 old (Q : Z -> tcp E -> Prop) st :
  Inv ls ({[p]} ∪ X) st -> p ∉ X -> lists_settled ls X -> pcbs st !! p = Some (set_rest (Conn c1) b) -> closed_ok b c ->
  (forall l, p ∈ ls l -> l = BOUND_PCBS) -> (old = 0 -> forall l, p ∉ ls l) ->
  listener c1 = 0 -> refused_ok c1 -> window_ok (tx c1) -> queues_ok SYN_SENT c1 -> counted SYN_SENT (tx c1) ->
  (forall st', connect_result ls X p ERR_OK st' -> calm st st' -> Q ERR_OK st') ->
  wp (store p (set_state SYN_SENT) ;;
      (if old =? 0 then mret tt else TCP_RMV BOUND_PCBS p) ;;
      TCP_REG_ACTIVE p ;;
      tcp_output p ;; mret tt) (fun _ st' => Q ERR_OK st') st.
Proof.
  intros Hi HpX HX Hb Hcl Hh H0 Hl1 Hrf1 Hw1 Hq1 Hk1 HQ.
  assert (p <> 0) as Hp0 by by apply (inv_nonzero _ _ _ _ _ _ _ Hi Hb).
  apply wp_bind, (wp_store_exempt P L ls ({[p]} ∪ X) p (set_rest (Conn c1) b) c1); try done; [set_solver|].
  intros st1 Hi1 Hb1 Hca1 _. apply wp_bind.
  assert (forall st2 n, Inv (drop_pcb p ls) ({[p]} ∪ X) st2 ->
    pcbs st2 !! p = Some (set_next n (set_state SYN_SENT (set_rest (Conn c1) b))) -> calm st st2 ->
    wp (TCP_REG_ACTIVE p ;; tcp_output p ;; mret tt) (fun _ st' => Q ERR_OK st') st2) as Hgo.
  { intros st2 n Hi2 Hb2 Hca2. unfold TCP_REG_ACTIVE.
    eapply wp_bind, wp_bind, (wp_TCP_REG P L (drop_pcb p ls) ({[p]} ∪ X) ACTIVE_PCBS p);
      [exact Hi2|set_solver|exact Hb2|intros l; apply drop_pcb_notin|].
    intros st3 n3 Hi3 Hb3 Hca3 _. apply wp_modify. match goal with |- wp _ _ ?s => set (st4 := s) end.
    set (b4 := set_next n3 _) in Hb3. set (ls4 := add_pcb ACTIVE_PCBS p (drop_pcb p ls)).
    assert (lists_settled ls4 X) as HX4.
    { intros l a [[-> _]|[Ha _]%elem_of_drop]%elem_of_add; [done|by apply (HX l)]. }
    assert (p ∈ ls4 ACTIVE_PCBS) as Hin by (apply elem_of_add; by left).
    assert (Inv ls4 ({[p]} ∪ X) st4) as Hi4 by by apply (Inv_same P L _ _ st3).
    assert (at_work P L ls4 ({[p]} ∪ X) p b4 c1 st4) as Hw4.
    { split; try done; [set_solver|]. intros l Hl.
      assert (l <> p) by (intros ->; by pose proof (lists_disjoint _ _ (inv_lists _ _ _ _ _ Hi4) _ _ _ Hl Hin)).
      specialize (HX4 _ _ Hl). set_solver. }
    assert (calm st st4) as Hca4 by (do 2 (etransitivity; [eassumption|]); by apply calm_same).
    apply wp_bind, (wp_work_quiet P L _ ls4 ({[p]} ∪ X) p b4 c1); [done|by apply tcp_output_quiet|].
    intros err b5 c5 st5 Hw5 Hs5 He5 Hca5. apply wp_ret, HQ; [|by transitivity st4].
    apply (connect_sent _ _ _ _ _ b5 c5); try done; [|apply Hw5|apply Hw5].
    apply (settle_active P L ls4 X st5 p b5 c5); try done; [by apply (ev_counted _ _ _ _ He5)|]. left. rewrite (ev_listener _ _ _ _ He5). done. }
  destruct (Z.eqb_spec old 0) as [Ho|Ho].
  - apply wp_ret, (Hgo st1 (next b)); try done.
    apply (Inv_lists_ext P L ls); [|done]. intros l. by apply drop_pcb_nowhere, H0.
  - apply (wp_TCP_RMV P L ls ({[p]} ∪ X) BOUND_PCBS p (set_state SYN_SENT (set_rest (Conn c1) b))); try done; [set_solver|by intros ?%Hh|].
    intros st2 Hi2 Hb2 Hca2 _. apply (Hgo st2 0); try done. by transitivity st1.
Qed.

Lemma queues_ok_syn c1 c2 :
  queues_ok CLOSED c1 -> enqueued TCP_SYN c1 c2 -> queues_ok SYN_SENT c2 /\ counted SYN_SENT (tx c2).
Proof.
  intros (_ & Hn & Eu & Ea) [_ _ (pb & sq & Hu) Ha _ Hq _ _ _]. rewrite Eu in Hu. rewrite Ea in Ha. rewrite Hn in Hq.
  unfold queues_ok, counted, counts_to, counts_queued, queued. rewrite Hu, Ha, Hq. cbn. split_and!; try done.
  - by repeat constructor.
  - by repeat constructor.
  - by intros g [= <-].
Qed.

(** A closed connection settles where it was. *)
Lemma settle_closed_pcb ls X st p b c :
  Inv ls ({[p]} ∪ X) st -> p ∉ X -> pcbs st !! p = Some b -> closed_ok b c ->
  (forall l, p ∈ ls l -> l = BOUND_PCBS /\ local_port b <> 0) -> Inv ls X st.
Proof.
  intros Hi HX Hb [Hr Hs Hco Hu] Hpl. apply (Inv_settle P L p ls X st b); try done.
  - intros [l|] Hw; [|done]. by destruct (Hpl l Hw) as [-> ?].
  - intros c' Hc'. unfold unclaimed in Hu. rewrite Hc' in Hu. by left.
  - intros r _ Hl. congruence.
Qed.

Lemma wp_connect_syn ls X p b c netif old f (Q : Z -> tcp E -> Prop) st :
  Inv ls X st -> p ∉ X -> lists_settled ls X -> pcbs st !! p = Some b -> closed_ok b c ->
  (forall l, p ∈ ls l -> l = BOUND_PCBS /\ local_port b <> 0) -> (old = 0 -> forall l, p ∉ ls l) ->
  (forall err st', connect_result ls X p err st' -> calm st st' -> Q err st') ->
  wp (connect_syn p netif old f) Q st.
Proof.
  intros Hi HpX HX Hb Hcl Hh H0 HQ. pose proof Hcl as [Hr Hs Hco Hu].
  unfold connect_syn, tcp_next_iss. apply wp_bind, wp_bind, wp_modify, wp_gets.
  match goal with |- wp _ _ ?s => set (st1 := s) end.
  assert (Inv ls ({[p]} ∪ X) st1) as Hi1 by by apply Inv_exempt, (Inv_same P L _ _ st).
  apply wp_bind, (wp_load p b); [done|]. apply wp_bind, wp_ask. set (m := tcp_eff_send_mss_netif _ _ _ _).
  set (c1 := set_fn_connected f (set_tx (connect_vars (iss st1) m (tx c)) c)).
  apply wp_bind, (wp_local _ p b c (fun _ b' c' _ => b' = b /\ c' = set_tx (connect_vars (iss st1) m (tx c)) c)).
  { by rewrite set_rest_id. }
  { by lstep. }
  intros [] b' c' e1 [-> ->] Hca1. apply wp_bind.
  apply (wp_local _ p b (set_tx (connect_vars (iss st1) m (tx c)) c) (fun _ b' c' _ => b' = b /\ c' = c1)).
  { apply at_conn_lookup. }
  { by lstep. }
  intros [] b' c' e2 [-> ->] Hca2. apply wp_bind.
  unfold conn_ok in Hco. rewrite Hr, Hs in Hco. destruct Hco as ((Hrst & Hql & Hqu & Hqa) & Hrf & Hwin).
  assert (closed_ok (set_rest (Conn c1) b) c1) as Hcl1.
  { unfold unclaimed in Hu. rewrite Hr in Hu. split; try done. unfold conn_ok. cbn. rewrite Hs.
    split; [|split; [done|apply connect_vars_window]]. split; [done|]. cbn. by tvs. }
  assert (queues_ok CLOSED c1) as Hq1 by (destruct Hcl1 as [_ _ Hco1 _]; unfold conn_ok in Hco1; cbn in Hco1; rewrite Hs in Hco1; apply Hco1).
  apply (wp_local _ p b c1 _ _ _ (at_conn_lookup _ _ _ _ _) (tcp_enqueue_flags_local p TCP_SYN b c1 _ _ eq_refl)).
  intros err b' c' e3 [-> Hen] Hca3. match goal with |- wp _ _ ?s => set (st3 := s) end.
  assert (calm st st3) as Hca03.
  { transitivity st1; [by apply calm_same|]. etransitivity; [exact Hca1|]. etransitivity; [exact Hca2|exact Hca3]. }
  assert (listener c1 = 0 /\ listener c' = listener c1 /\ tcp_is_flag_set c' TF_BACKLOGPEND = tcp_is_flag_set c TF_BACKLOGPEND) as (Hl1 & Hl' & Hf').
  { unfold unclaimed in Hu. rewrite Hr in Hu. destruct Hen as [[_ [? ? ? ? ? ? ?]]|[_ [? ? ? ? ? ? ? ? ?]]]; done. }
  assert (Inv ls ({[p]} ∪ X) st3) as Hi3.
  { apply (Inv_insert P L ls _ st1 st3 p b (set_rest (Conn c') b)); try done; [|set_solver|].
    - unfold same_claim. rewrite Hr. cbn. by rewrite Hl'.
    - cbn. by rewrite !insert_insert_eq. }
  destruct Hen as [[-> Hq]|[-> He]].
  - cbn [Z.eqb ERR_MEM ERR_OK]. apply wp_bind, wp_ret, wp_ret, HQ; [|done]. apply connect_stays; [|by eexists; apply at_conn_lookup|done].
    apply (settle_closed_pcb ls X st3 p (set_rest (Conn c') b) c'); try done; [apply at_conn_lookup|].
    refine (quiet_closed (set_rest (Conn c1) b) c1 (set_rest (Conn c1) b) c' _ Hcl1). by destruct Hq.
  - apply wp_bind. cbn [Z.eqb ERR_OK].
    apply (wp_connect_queued ls X p b c c' old (fun e s => wp (mret e) Q s)); try done.
    + apply at_conn_lookup.
    + intros l Hl. by destruct (Hh l Hl).
    + congruence.
    + unfold refused_ok. destruct He as [_ _ _ _ _ _ -> -> _]. done.
    + apply (en_window _ _ _ He), connect_vars_window.
    + by apply (queues_ok_syn c1).
    + by apply (queues_ok_syn c1).
    + intros st' Hres Hca. apply wp_ret, HQ; [done|]. by transitivity st3.
Qed.

(** Where a closed connection is. *)
Lemma closed_places ls X st p b c :
  Inv ls X st -> p ∉ X -> pcbs st !! p = Some b -> closed_ok b c ->
  (forall l, p ∈ ls l -> l = BOUND_PCBS /\ local_port b <> 0) /\ (local_port b = 0 -> forall l, p ∉ ls l).
Proof.
  intros Hi HX Hb [Hr Hs _ _]. pose proof (inv_leaving P L ls X st p b c Hi HX Hb Hr) as Hlv.
  assert (local_port b = 0 -> forall l, p ∉ ls l) as H0 by by apply (lv_unbound _ _ _ _ Hlv).
  split; [|done]. intros l Hl. split; [|intros H; by apply (H0 H) in Hl].
  rewrite (lv_home _ _ _ _ Hlv l Hl). by rewrite Hs.
Qed.

Lemma wp_connect_port ls X p b c netif f (Q : Z -> tcp E -> Prop) st :
  Inv ls X st -> p ∉ X -> lists_settled ls X -> pcbs st !! p = Some b -> closed_ok b c ->
  (forall err st', connect_result ls X p err st' -> calm st st' -> Q err st') ->
  wp (new ← (if local_port b =? 0 then tcp_new_port else mret (local_port b));
      (if local_port b =? 0 then store p (set_local_port new) else mret tt) ;;
      if new =? 0 then mret ERR_BUF else connect_syn p netif (local_port b) f) Q st.
Proof.
  intros Hi HpX HX Hb Hcl HQ. destruct (closed_places ls X st p b c Hi HpX Hb Hcl) as [Hh H0].
  pose proof Hcl as [Hr Hs Hco Hu]. apply wp_bind. destruct (Z.eqb_spec (local_port b) 0) as [Hp0|Hp0].
  - assert (forall new st1, Inv ls X st1 -> pcbs st1 = pcbs st -> calm st st1 ->
      wp (store p (set_local_port new) ;; if new =? 0 then mret ERR_BUF else connect_syn p netif (local_port b) f) Q st1) as Hgo.
    { intros new st1 Hi1 E1 Hca1. assert (pcbs st1 !! p = Some b) as Hb1 by by rewrite E1.
      apply wp_bind, (wp_store p _ b); [done|]. match goal with |- wp _ _ ?s => set (st2 := s) end.
      assert (pcbs st2 !! p = Some (set_local_port new b)) as Hb2 by apply lookup_insert_eq.
      assert (Inv ls X st2) as Hi2.
      { apply (Inv_insert P L ls X st1 _ p b (set_local_port new b)); try done; [unfold same_claim; cbn; by rewrite Hr|].
        intros _ [l|] Hw; [by apply (H0 Hp0) in Hw|done]. }
      assert (calm st st2) as Hca2 by (transitivity st1; [done|by apply (calm_insert st1 _ p b c (set_local_port new b))]).
      destruct (Z.eqb_spec new 0) as [Hn|Hn].
      - apply wp_ret, HQ; [|done]. by apply connect_stays.
      - rewrite Hp0. apply (wp_connect_syn ls X p (set_local_port new b) c); try done.
        + intros l Hl. by apply (H0 Hp0) in Hl.
        + intros _. by apply H0.
        + intros err st3 Hres Hca3. apply HQ; [done|]. by transitivity st2. }
    apply (wp_tcp_new_port ls); [apply Hi..| |].
    + intros port Hport _. apply Hgo; [by apply (Inv_set_port P L)|done|by apply calm_same].
    + intros q Hq _. apply Hgo; [by apply (Inv_set_port P L)|done|by apply calm_same].
  - apply wp_ret. apply wp_bind, wp_ret. destruct (Z.eqb_spec (local_port b) 0) as [|_]; [done|].
    by apply (wp_connect_syn ls X p b c).
Qed.

Lemma wp_tcp_connect ls X p b c addr port f (Q : Z -> tcp E -> Prop) st :
  Inv ls X st -> p ∉ X -> lists_settled ls X -> pcbs st !! p = Some b -> rest b = Conn c ->
  (forall err st', connect_result ls X p err st' -> calm st st' -> Q err st') ->
  wp (tcp_connect p addr port f) Q st.
Proof.
  intros Hi HpX HX Hb Hr HQ. unfold tcp_connect.
  assert (forall err st1, Inv ls X st1 -> is_Some (pcbs st1 !! p) -> calm st st1 -> err <> ERR_OK -> wp (mret err) Q st1) as Hstay.
  { intros err st1 Hi1 Hs1 Hca1 Herr. apply wp_ret, HQ; [|done]. by apply connect_stays. }
  destruct addr as [addr|]; [|by apply Hstay].
  destruct (Z.eqb_spec p 0) as [Hp0|_]; [by apply (inv_nonzero _ _ _ _ _ _ _ Hi) in Hb|].
  apply wp_bind, (wp_load p b); [done|]. case_bool_decide as Hs; cbn [negb]; [|by apply Hstay].
  pose proof (inv_closed P L ls X st p b c Hi HpX Hb Hr Hs) as Hcl.
  apply wp_bind, (wp_store_ip P L ls X p b c (fun b => set_remote_ip (ip_addr_copy addr) (ip b))); [done..|].
  intros st1 Hi1 Hb1 Hca1. apply wp_bind.
  eapply (wp_store_conn_inv P L ls X p _ c (set_remote_port port)); [done|done|done|quiet_done|].
  intros st2 Hb2 Hi2 Hca2. set (c2 := set_remote_port port c) in *. set (b2 := set_rest (Conn c2) _) in Hb2.
  assert (closed_ok b2 c2) as Hcl2 by (destruct Hcl as [_ _ Hco Hu]; unfold conn_ok, unclaimed in *; rewrite Hr in *; by split).
  assert (calm st st2) as Hca02 by by transitivity st1.
  assert (forall (k : Z -> tcpM E Z), (forall n, wp (k n) Q st2) ->
    wp (netif ← (if negb (netif_idx (ip b) =? NETIF_NO_INDEX) then ask (netif_get_by_index (netif_idx (ip b)))
                 else ask (ip_route (local_ip (ip b)) (ip_addr_copy addr))); k netif) Q st2) as Hask.
  { intros k Hk. apply wp_bind. destruct (negb _); apply wp_ask, Hk. }
  apply Hask. intros netif. destruct (netif =? 0); [by apply Hstay|].
  apply wp_bind, (wp_quiet P L _ ls X p b2 c2); [done|done|apply Hcl2|apply take_local_ip_quiet|].
  intros found b3 c3 st3 Hq3 Hb3 Hi3 Hca3. pose proof (quiet_closed _ _ _ _ Hq3 Hcl2) as Hcl3.
  assert (calm st st3) as Hca03 by by transitivity st2.
  destruct found; cbn [negb]; [|by apply Hstay].
  apply wp_bind, (wp_quiet P L _ ls X p (set_rest (Conn c3) b3) c3); [done|done|done|apply connect_zone_quiet|].
  intros [] b4 c4 st4 Hq4 Hb4 Hi4 Hca4. pose proof (quiet_closed _ _ _ _ Hq4 Hcl3) as Hcl4.
  assert (local_port b = local_port (set_rest (Conn c4) b4)) as Elp.
  { destruct Hq3 as [(_ & _ & E3) _ _ _ _ _], Hq4 as [(_ & _ & E4) _ _ _ _ _]. cbn in *. congruence. }
  cbv zeta. rewrite Elp. apply (wp_connect_port ls X p _ c4); try done.
  intros err st5 Hres Hca5. apply HQ; [done|]. transitivity st3; [done|]. by transitivity st4.
Qed.
End connect.
