(* ===== verification/TcpApi.v ===== *)
(** * The raw interface ([lwip/src/core/tcp.c])

    The calls an application makes, what it has to respect, and that every one of
    them returns and keeps the invariant. *)
From S2P Require Import Prelude ByteOrder Lwip Pbuf ChecksumPbuf TcpPcb TcpOut Tcp TcpIn TcpWp TcpLists TcpInv.
From S2P Require Import TcpSteps TcpPools TcpRemove TcpWork TcpClose TcpAlloc TcpBind TcpOpen.

(** A call, with the pointers and the numbers it is given. *)
Inductive tcp_api :=
  | ApiNew (type : Z)
  | ApiBind (pcb : Z) (ipaddr : option ip_addr) (port : Z)
  | ApiListen (pcb backlog : Z)
  | ApiConnect (pcb : Z) (ipaddr : option ip_addr) (port : Z) (connected : tcp_fn)
  | ApiClose (pcb : Z)
  | ApiShutdown (pcb : Z) (shut_rx shut_tx : bool)
  | ApiAbort (pcb : Z)
  | ApiWrite (pcb dataptr len apiflags : Z)
  | ApiOutput (pcb : Z)
  | ApiRecved (pcb len : Z)
  | ApiArg (pcb arg : Z)
  | ApiSetprio (pcb prio : Z)
  | ApiAccept (pcb : Z) (accept : tcp_fn)
  | ApiRecv (pcb : Z) (recv : tcp_fn)
  | ApiSent (pcb : Z) (sent : tcp_fn)
  | ApiErr (pcb : Z) (err : tcp_fn)
  | ApiPoll (pcb : Z) (poll : tcp_fn) (interval : Z)
  | ApiNagleDisable (pcb : Z).

(** The connection a call may take out of service. *)
Definition api_pcb (call : tcp_api) : Z :=
  match call with
  | ApiNew _ => 0
  | ApiBind p _ _ | ApiListen p _ | ApiConnect p _ _ _ | ApiClose p | ApiShutdown p _ _ | ApiAbort p
  | ApiWrite p _ _ _ | ApiOutput p | ApiRecved p _ | ApiArg p _ | ApiSetprio p _ | ApiAccept p _ | ApiRecv p _
  | ApiSent p _ | ApiErr p _ | ApiPoll p _ _ | ApiNagleDisable p => p
  end.

Section api.
Context {E : Type} `{!TcpEnv E}.
Implicit Types (st : tcp E) (ls : pcb_list -> list Z).

Definition api_run (call : tcp_api) : tcpM E Z :=
  match call with
  | ApiNew type => tcp_new_ip_type type
  | ApiBind p a port => tcp_bind p a port
  | ApiListen p backlog => tcp_listen_with_backlog p backlog
  | ApiConnect p a port f => tcp_connect p a port f
  | ApiClose p => tcp_close p
  | ApiShutdown p rx sx => tcp_shutdown p rx sx
  | ApiAbort p => tcp_abort p ;; mret ERR_OK
  | ApiWrite p d len fl => tcp_write p d len fl
  | ApiOutput p => tcp_output p
  | ApiRecved p len => tcp_recved p len ;; mret ERR_OK
  | ApiArg p arg => tcp_arg p arg ;; mret ERR_OK
  | ApiSetprio p pr => tcp_setprio p pr ;; mret ERR_OK
  | ApiAccept p f => tcp_accept p f ;; mret ERR_OK
  | ApiRecv p f => tcp_recv p f ;; mret ERR_OK
  | ApiSent p f => tcp_sent p f ;; mret ERR_OK
  | ApiErr p f => tcp_err p f ;; mret ERR_OK
  | ApiPoll p f i => tcp_poll p f i ;; mret ERR_OK
  | ApiNagleDisable p => tcp_nagle_disable p ;; mret ERR_OK
  end.

(** What the caller has to respect: the block is in use, and a connection where the
    function is for connections; one is bound only once; a listener gets a
    callback; data is never left to [tcp_recv_null] again. *)
Definition in_use st (p : Z) : Prop := is_Some (pcbs st !! p).
Definition is_connection st (p : Z) : Prop := exists b c, pcbs st !! p = Some b /\ rest b = Conn c.
Definition api_ok st (call : tcp_api) : Prop :=
  match call with
  | ApiNew _ => True
  | ApiBind p _ _ => exists b, pcbs st !! p = Some b /\ (state b = CLOSED -> local_port b = 0)
  | ApiListen p backlog => in_use st p /\ 0 <= backlog < 256
  | ApiAccept p f => in_use st p /\ f <> FN_NULL
  | ApiRecv p f => is_connection st p /\ f <> FN_recv_null
  | ApiConnect p _ _ _ | ApiClose p | ApiShutdown p _ _ | ApiArg p _ | ApiSetprio p _ => in_use st p
  | ApiAbort p | ApiWrite p _ _ _ | ApiOutput p | ApiRecved p _ | ApiSent p _ | ApiErr p _ | ApiPoll p _ _
  | ApiNagleDisable p => is_connection st p
  end.
End api.

Lemma nex (p : Z) : p ∉ (∅ : gset Z).
Proof. apply not_elem_of_empty. Qed.
Lemma lists_settled_empty ls : lists_settled ls ∅.
Proof. intros l a _. apply nex. Qed.
Lemma settled_empty {E} ls (st : tcp E) : settled ls ∅ st.
Proof. split; [intros l a _; apply nex|]. intros a b c Ha. by apply nex in Ha. Qed.

Section api_inv.
Context {E : Type} `{!TcpEnv E} (P L : gset Z).
Implicit Types (st : tcp E) (ls : pcb_list -> list Z).
Notation Inv := (Inv P L).

(** After a call: the invariant, or the connection a segment is being processed for
    has been closed and waits for the end of that. *)
Definition api_after (call : tcp_api) st st' : Prop :=
  tcp_input_pcb st' = tcp_input_pcb st /\
  ((exists ls', Inv ls' ∅ st') \/
   (exists ls' b c, Inv ls' ({[api_pcb call]} ∪ ∅) st' /\ zombie ls' (api_pcb call) b c st')).

Lemma api_kept ls call st st' : Inv ls ∅ st' -> calm st st' -> api_after call st st'.
Proof. intros Hi Hca. split; [apply Hca|]. left. by exists ls. Qed.

(** The state settles after a close. *)
Lemma settle_leaving ls st p b c b' c' st' :
  Inv ls ∅ st -> pcbs st !! p = Some b -> rest b = Conn c -> Inv ls ({[p]} ∪ ∅) st' -> pcbs st' !! p = Some b' ->
  leaving ls p b' c' -> home (state b') = home (state b) ->
  evolves b c b' c' -> Inv ls ∅ st'.
Proof.
  intros Hi Hb Hr Hi' Hb' Hlv Hhome He. pose proof (ev_port _ _ _ _ He) as Hlp.
  assert (unclaimed b -> unclaimed b') as Hun.
  { unfold unclaimed. rewrite Hr, (lv_rest _ _ _ _ Hlv), (ev_listener _ _ _ _ He). done. }
  pose proof Hlv as [Hr' Hs' Hh' Hre' Hco' Hub'].
  assert (counted_ok b') as Hk.
  { unfold counted_ok. rewrite Hr'. apply (ev_counted _ _ _ _ He), (inv_counted P L ls ∅ st p b c); done. }
  apply (Inv_settle P L p ls ∅ st' b'); [apply nex|done| | | |done].
  - intros w Hw. pose proof (inv_placed _ _ _ _ _ _ w b Hi Hw Hb (nex p)) as Ho.
    destruct w as [l|].
    + pose proof (Hh' l Hw) as ->. destruct (state b') eqn:Es'; cbn [home pcb_ok] in *; rewrite ?Es'; try done.
      * destruct Ho as (Es & Hp & _ & Hu). rewrite Hlp. auto.
      * split_and!; try done. by apply Hre'.
    + destruct Ho as (Es & _ & Hu). rewrite Es in Hhome. destruct (state b') eqn:Es'; try done. split_and!; auto.
  - intros c0 Hc0. rewrite Hr' in Hc0. injection Hc0 as <-. unfold refers_ok. rewrite (ev_listener _ _ _ _ He).
    by apply (inv_refers P L ls ∅ st p b c); [|apply nex|..].
  - intros r _ Hl. congruence.
Qed.

Lemma close_result_after_api ls call p b c st st' :
  p = api_pcb call -> Inv ls ∅ st -> pcbs st !! p = Some b -> rest b = Conn c ->
  close_result P L ls ∅ p b c st st' -> api_after call st st'.
Proof.
  intros -> Hi Hb Hr [Hi' Hn Hca _|b' c' Hi' Hb' Hlv Hor He Hca|b' c' Hi' Hz Ha He Hin _].
  - by apply (api_kept (drop_pcb (api_pcb call) ls)).
  - apply (api_kept ls); [|done]. apply (settle_leaving ls st (api_pcb call) b c b' c' st'); try done.
    destruct Hor as [[-> ->]|[Ha Ha']]; [done|]. by rewrite (proj1 (active_home _ Ha)), (proj1 (active_home _ Ha')).
  - split; [done|]. right. by exists (drop_pcb (api_pcb call) ls), b', c'.
Qed.

(** A quiet call. *)
Lemma api_quiet {A} (m : tcpM E A) ls call p b c st :
  Inv ls ∅ st -> pcbs st !! p = Some b -> rest b = Conn c -> quietly p m b c (env st) st ->
  wp m (fun _ st' => api_after call st st') st.
Proof.
  intros Hi Hb Hr Hm. apply (wp_quiet P L m ls ∅ p b c); [done..|]. intros a b' c' st' _ _ Hi' Hca.
  by apply (api_kept ls).
Qed.
Lemma wp_then {A B} (m : tcpM E A) (b : B) (Q : tcp E -> Prop) st :
  wp m (fun _ st' => Q st') st -> wp (m ;; mret b) (fun _ st' => Q st') st.
Proof. intros H. apply wp_bind. eapply wp_mono; [exact H|]. intros a st' HQ. by apply wp_ret. Qed.

(** The block and its connection, with what the invariant says of it. *)
Lemma inv_conn ls st p b c :
  Inv ls ∅ st -> pcbs st !! p = Some b -> rest b = Conn c ->
  state b <> LISTEN /\ queues_ok (state b) c /\ window_ok (tx c) /\ p <> 0.
Proof.
  intros Hi Hb Hr. pose proof (inv_leaving P L ls ∅ st p b c Hi (nex p) Hb Hr) as [_ Hs _ _ Hco _].
  unfold conn_ok in Hco. rewrite Hr in Hco. split_and!; try tauto. by apply (inv_nonzero _ _ _ _ _ _ _ Hi Hb).
Qed.

Lemma inv_listening ls st p b r :
  Inv ls ∅ st -> pcbs st !! p = Some b -> rest b = Listening r -> state b = LISTEN /\ p <> 0.
Proof.
  intros Hi Hb Hr. split; [|by apply (inv_nonzero _ _ _ _ _ _ _ Hi Hb)]. destruct (placed_exists ls p) as [w Hw].
  pose proof (inv_placed _ _ _ _ _ _ w b Hi Hw Hb (nex p)) as Ho.
  unfold pcb_ok, conn_ok in Ho. rewrite Hr in Ho. destruct w as [[]|]; tauto.
Qed.

(** ** The calls *)

Lemma api_close ls p st :
  Inv ls ∅ st -> in_use st p -> wp (tcp_close p) (fun _ st' => api_after (ApiClose p) st st') st.
Proof.
  intros Hi [b Hb]. destruct (rest b) as [c|r] eqn:Hr.
  - apply (wp_tcp_close_leaving P L ls ∅ p b c); [by apply Inv_exempt|intros l _; apply nex|done|by apply (inv_leaving P L ls ∅ st); [|apply nex|..]|].
    intros err st' Hres. by apply (close_result_after_api ls (ApiClose p) p b c st st').
  - destruct (inv_listening ls st p b r Hi Hb Hr) as [Hs Hp0]. unfold tcp_close.
    destruct (Z.eqb_spec p 0); [done|]. apply wp_bind, (wp_load p b); [done|].
    rewrite (bool_decide_eq_true_2 _ Hs). apply wp_bind, wp_ret. unfold tcp_close_shutdown.
    apply wp_bind, (wp_load p b); [done|]. rewrite Hs. cbn.
    apply (wp_close_listener P L ls ∅ p b r); [done|apply settled_empty|apply nex|done|done|].
    intros st' Hi' _ E1 _. split; [done|]. left. by eexists.
Qed.

Lemma api_shutdown ls p rx sx st :
  Inv ls ∅ st -> in_use st p -> wp (tcp_shutdown p rx sx) (fun _ st' => api_after (ApiShutdown p rx sx) st st') st.
Proof.
  intros Hi [b Hb]. destruct (rest b) as [c|r] eqn:Hr.
  - assert (leaving ls p b c) as Hlv by by apply (inv_leaving P L ls ∅ st); [|apply nex|..].
    apply (wp_tcp_shutdown_leaving P L ls ∅ p b c); [by apply Inv_exempt|intros l _; apply nex|done|done|..].
    + intros err b' c' st' Hi' Hca Hb' Hlv' Hs He. apply (api_kept ls); [|done].
      apply (settle_leaving ls st p b c b' c' st'); try done. by rewrite Hs.
    + intros err st' Hres. by apply (close_result_after_api ls (ApiShutdown p rx sx) p b c st st').
  - destruct (inv_listening ls st p b r Hi Hb Hr) as [Hs Hp0]. unfold tcp_shutdown.
    destruct (Z.eqb_spec p 0); [done|]. apply wp_bind, (wp_load p b); [done|].
    rewrite (bool_decide_eq_true_2 _ Hs). by apply wp_ret, (api_kept ls).
Qed.

Lemma api_abort ls p st :
  Inv ls ∅ st -> is_connection st p -> wp (tcp_abort p) (fun _ st' => api_after (ApiAbort p) st st') st.
Proof.
  intros Hi (b & c & Hb & Hr). apply (wp_tcp_abandon P L ls ∅ p b c); [done|apply nex|intros l _; apply nex|done|done|].
  intros st' Hi' _ Hca. by apply (api_kept (drop_pcb p ls)).
Qed.

Lemma api_new ls type st :
  Inv ls ∅ st -> wp (tcp_new_ip_type type) (fun _ st' => api_after (ApiNew type) st st') st.
Proof.
  intros Hi. apply wp_bind, (wp_tcp_alloc P L ls ∅); [done|apply lists_settled_empty|..].
  - intros ls' st' [Hi' _ _ Hca]. cbn. apply wp_bind, wp_ret, wp_ret. by apply (api_kept ls').
  - intros a ls' st' t ctr [Hi' _ _ Hca] Ha Hb _. destruct (Z.eqb_spec a 0); [done|]. eapply wp_bind, (wp_store_ip P L ls' ∅ a); [done|done|done|].
    intros st2 Hi2 _ Hca2. apply wp_ret, (api_kept ls'); [done|]. by transitivity st'.
Qed.

Lemma api_bind ls p addr port st :
  Inv ls ∅ st -> api_ok st (ApiBind p addr port) ->
  wp (tcp_bind p addr port) (fun _ st' => api_after (ApiBind p addr port) st st') st.
Proof.
  intros Hi (b & Hb & Hp). destruct (decide (state b = CLOSED)) as [Hs|Hs].
  - destruct (rest b) as [c|r] eqn:Hr.
    2: { destruct (inv_listening ls st p b r Hi Hb Hr) as [Hs' _]. congruence. }
    pose proof (inv_closed P L ls ∅ st p b c Hi (nex p) Hb Hr Hs) as Hcl.
    destruct (closed_places P L ls ∅ st p b c Hi (nex p) Hb Hcl) as [_ H0].
    apply (wp_tcp_bind P L ls ∅ p b c); [done|apply nex|done|done|by apply H0, Hp|..].
    + intros err st' _ Hi' _ Hca _. by apply (api_kept ls).
    + intros st' b' Hi' _ _ Hca _. by apply (api_kept (add_pcb BOUND_PCBS p ls)).
  - unfold tcp_bind. destruct (p =? 0); [by apply wp_ret, (api_kept ls)|].
    apply wp_bind, (wp_load p b); [done|]. rewrite (bool_decide_eq_false_2 _ Hs). by apply wp_ret, (api_kept ls).
Qed.

Lemma api_listen ls p bl st :
  Inv ls ∅ st -> api_ok st (ApiListen p bl) ->
  wp (tcp_listen_with_backlog p bl) (fun _ st' => api_after (ApiListen p bl) st st') st.
Proof.
  intros Hi ([b Hb] & Hbl). unfold tcp_listen_with_backlog. apply wp_bind. destruct (decide (state b = CLOSED)) as [Hs|Hs].
  - destruct (rest b) as [c|r] eqn:Hr.
    2: { destruct (inv_listening ls st p b r Hi Hb Hr) as [Hs' _]. congruence. }
    pose proof (inv_closed P L ls ∅ st p b c Hi (nex p) Hb Hr Hs) as Hcl.
    apply (wp_tcp_listen P L ls ∅ p b c); [done|apply nex|intros a Ha; by apply nex in Ha|done|done|done|..].
    + intros _. by apply wp_ret, (api_kept ls).
    + intros lpcb st' _ Hi' _ _ Hca. by eapply wp_ret, api_kept.
  - unfold tcp_listen_with_backlog_and_err. destruct (p =? 0); [by apply wp_ret, wp_ret, (api_kept ls)|].
    apply wp_bind, (wp_load p b); [done|]. rewrite (bool_decide_eq_false_2 _ Hs). by apply wp_ret, wp_ret, (api_kept ls).
Qed.

Lemma api_connect ls p addr port f st :
  Inv ls ∅ st -> in_use st p ->
  wp (tcp_connect p addr port f) (fun _ st' => api_after (ApiConnect p addr port f) st st') st.
Proof.
  intros Hi [b Hb]. destruct (rest b) as [c|r] eqn:Hr.
  - apply (wp_tcp_connect P L ls ∅ p b c); [done|apply nex|apply lists_settled_empty|done|done|].
    intros err st' [Hi' _ _|b' c' Hi' _ _ _ _] Hca; by eapply api_kept.
  - destruct (inv_listening ls st p b r Hi Hb Hr) as [Hs Hp0]. unfold tcp_connect.
    destruct addr as [addr|]; [|by apply wp_ret, (api_kept ls)]. destruct (Z.eqb_spec p 0); [done|].
    apply wp_bind, (wp_load p b); [done|]. rewrite bool_decide_eq_false_2 by congruence. by apply wp_ret, (api_kept ls).
Qed.

(** An assignment to members that only the application reads. *)
Lemma api_store ls call p b f st :
  Inv ls ∅ st -> pcbs st !! p = Some b -> next (f b) = next b -> rest (f b) = rest b -> state (f b) = state b ->
  local_port (f b) = local_port b -> wp (store p f) (fun _ st' => api_after call st st') st.
Proof.
  intros Hi Hb Hn Hr Hs Hp. apply (wp_store p f b); [done|]. split; [done|]. left. exists ls.
  apply (Inv_insert P L ls ∅ st _ p b (f b)); try done.
  - unfold same_claim. rewrite Hr. by destruct (rest b).
  - intros _ w _. destruct w as [[]|]; cbn [pcb_ok]; unfold conn_ok, counted_ok, unclaimed, released, listening_ok; by rewrite ?Hs, ?Hr, ?Hp.
Qed.

Lemma api_accept ls p f st :
  Inv ls ∅ st -> in_use st p -> f <> FN_NULL -> wp (tcp_accept p f) (fun _ st' => api_after (ApiAccept p f) st st') st.
Proof.
  intros Hi [b Hb] Hf. unfold tcp_accept. destruct (p =? 0); [by apply wp_ret, (api_kept ls)|].
  apply wp_bind, (wp_load p b); [done|]. case_bool_decide as Hs; [|by apply wp_ret, (api_kept ls)].
  destruct (rest b) as [c|r] eqn:Hr.
  { by destruct (inv_conn ls st p b c Hi Hb Hr) as [Hs' _]. }
  apply (wp_store_listening p _ b r); [done..|]. split; [done|]. left. exists ls.
  apply (Inv_insert P L ls ∅ st _ p b (set_rest (Listening (set_fn_accept f r)) b)); try done.
  - unfold same_claim. by rewrite Hr.
  - intros _ w _. destruct w as [[]|]; cbn [pcb_ok]; unfold conn_ok, counted_ok, unclaimed, released, listening_ok; rewrite Hr; cbn; tauto.
Qed.

Lemma api_recv ls p f st :
  Inv ls ∅ st -> is_connection st p -> f <> FN_recv_null ->
  wp (tcp_recv p f) (fun _ st' => api_after (ApiRecv p f) st st') st.
Proof.
  intros Hi (b & c & Hb & Hr) Hf. destruct (inv_conn ls st p b c Hi Hb Hr) as (Hs & Hq & Hw & Hp0).
  unfold tcp_recv, set_callback. destruct (p =? 0); [by apply wp_ret, (api_kept ls)|].
  apply wp_bind, (wp_load p b); [done|]. apply wp_bind, wp_ASSERT; [by apply negb_true_iff, bool_decide_eq_false|].
  apply (wp_store_conn p _ b c); [done..|]. split; [done|]. left. exists ls.
  apply (Inv_insert P L ls ∅ st _ p b (set_rest (Conn (set_fn_recv f c)) b)); try done.
  - unfold same_claim. by rewrite Hr.
  - intros _ w _. assert (refused_ok (set_fn_recv f c)) as Hrf by (unfold refused_ok; by cbn).
    assert (conn_ok b -> conn_ok (set_rest (Conn (set_fn_recv f c)) b)) as Hco.
    { unfold conn_ok. rewrite Hr. cbn. tauto. }
    destruct w as [[]|]; cbn [pcb_ok]; unfold counted_ok, unclaimed, released, listening_ok in *; rewrite ?Hr; cbn [state set_rest rest tx set_fn_recv]; tauto.
Qed.

Lemma api_callback ls call p f st :
  Inv ls ∅ st -> is_connection st p -> (forall b c, quiet b c b (f c)) ->
  wp (set_callback p f) (fun _ st' => api_after call st st') st.
Proof.
  intros Hi (b & c & Hb & Hr) Hf. destruct (inv_conn ls st p b c Hi Hb Hr) as (Hs & _).
  unfold set_callback. destruct (p =? 0); [by apply wp_ret, (api_kept ls)|].
  apply wp_bind, (wp_load p b); [done|]. apply wp_bind, wp_ASSERT; [by apply negb_true_iff, bool_decide_eq_false|].
  apply (wp_store_conn_inv P L ls ∅ p b c); try done. intros st' _ Hi' Hca. by apply (api_kept ls).
Qed.

Lemma api_keeps `{!TcpEnvLaws E} ls call st :
  Inv ls ∅ st -> api_ok st call -> wp (api_run call) (fun _ st' => api_after call st st') st.
Proof.
  intros Hi Hok. destruct call; cbn [api_ok api_run] in *.
  - by apply (api_new ls).
  - by apply (api_bind ls).
  - by apply (api_listen ls).
  - by apply (api_connect ls).
  - by apply (api_close ls).
  - by apply (api_shutdown ls).
  - by apply wp_then, (api_abort ls).
  - destruct Hok as (b & c & Hb & Hr). apply (api_quiet _ ls _ pcb b c); try done.
    apply tcp_write_quiet, (inv_counted P L ls ∅ st pcb b c); done.
  - destruct Hok as (b & c & Hb & Hr). destruct (inv_conn ls st pcb b c Hi Hb Hr) as (Hs & Hq & _).
    apply (api_quiet _ ls _ pcb b c); try done. by apply tcp_output_quiet.
  - destruct Hok as (b & c & Hb & Hr). destruct (inv_conn ls st pcb b c Hi Hb Hr) as (Hs & Hq & Hw & _).
    apply wp_then, (api_quiet _ ls _ pcb b c); try done. by apply tcp_recved_quiet.
  - destruct Hok as [b Hb]. apply wp_then. unfold tcp_arg. destruct (pcb =? 0); [by apply wp_ret, (api_kept ls)|].
    by apply (api_store ls _ pcb b).
  - destruct Hok as [b Hb]. apply wp_then. unfold tcp_setprio. destruct (pcb =? 0); [by apply wp_ret, (api_kept ls)|].
    by apply (api_store ls _ pcb b).
  - apply wp_then, (api_accept ls); tauto.
  - apply wp_then, (api_recv ls); tauto.
  - apply wp_then, (api_callback ls); [done|done|]. intros b c. quiet_done.
  - apply wp_then, (api_callback ls); [done|done|]. intros b c. quiet_done.
  - apply wp_then, (api_callback ls); [done|done|]. intros b c. quiet_done.
  - destruct Hok as (b & c & Hb & Hr). apply wp_then. unfold tcp_nagle_disable.
    apply (wp_store_conn_inv P L ls ∅ pcb b c); [done..|quiet_done|]. intros st' _ Hi' Hca. by apply (api_kept ls).
Qed.
End api_inv.
