(* ===== verification/TcpServe.v ===== *)
(** * The connection a segment is processed for

    [serving k p st]: the block at [p] is in the list [k], or, when the application
    has closed it meanwhile, waits in no list for the end of [tcp_input].  What is
    relied on in the callbacks of the application ([TcpAppLaws]) is that they leave
    it so, unless they abort it and say so. *)
From S2P Require Import Prelude ByteOrder Lwip Pbuf ChecksumPbuf TcpPcb TcpOut Tcp TcpIn TcpWp TcpLists TcpInv.
From S2P Require Import TcpSteps TcpPools TcpRemove TcpWork TcpClose TcpAlloc TcpBind TcpApi.

Section serving.
Context {E : Type} `{!TcpEnv E} (P L : gset Z).
Implicit Types (st : tcp E) (ls : pcb_list -> list Z).
Notation Inv := (Inv P L).

Inductive serving (k : pcb_list) (p : Z) st : Prop :=
  | serving_listed ls :
      Inv ls ∅ st -> p ∈ ls k -> k = ACTIVE_PCBS \/ k = TW_PCBS ->
      (k = TW_PCBS -> has (recv_flags st) TF_CLOSED = false) -> serving k p st
  | serving_zombie ls b c :
      Inv ls ({[p]} ∪ ∅) st -> zombie ls p b c st -> k = ACTIVE_PCBS -> serving k p st.

(** The invariant, whatever the lists are. *)
Definition good st : Prop := exists ls, Inv ls ∅ st.

Definition conn_at st (p : Z) (b : tcp_pcb) (c : tcp_conn) : Prop := pcbs st !! p = Some b /\ rest b = Conn c.

(** What a callback does not undo: the flags of the input but [TF_CLOSED], and of
    the connection that it is synchronized, that nothing is kept of what was
    refused, and that somebody receives its data; and its state is changed by
    closing only. *)
Record kept (p : Z) st st' : Prop := Kept {
  kept_input : tcp_input_pcb st' = tcp_input_pcb st;
  kept_flags : recv_flags st' = recv_flags st \/ tcp_input_pcb st = p /\ recv_flags st' = Z.lor (recv_flags st) TF_CLOSED;
  kept_conn b c : conn_at st p b c ->
    exists b' c', conn_at st' p b' c' /\ api_moves (state b) (state b') /\
      (synchronized (state b) = true -> synchronized (state b') = true) /\
      (refused_data c = 0 -> refused_data c' = 0) /\ (fn_recv c <> FN_recv_null -> fn_recv c' <> FN_recv_null) }.

Lemma kept_refl p st : kept p st st.
Proof. split; auto. intros b c H. exists b, c. split; [done|]. split; [by left|auto]. Qed.

Lemma has_lor_other f m b : Z.land m b = 0 -> has (Z.lor f m) b = has f b.
Proof. intros H. unfold has. by rewrite Z.land_lor_distr_l, H, Z.lor_0_r. Qed.

Lemma kept_trans p st1 st2 st3 : kept p st1 st2 -> kept p st2 st3 -> kept p st1 st3.
Proof.
  intros [Hi Hf Hc] [Hi' Hf' Hc']. split; [congruence|..].
  - destruct Hf' as [->|[H' ->]], Hf as [->|[H ->]]; auto; right; (split; [congruence|]); [done|].
    by rewrite <- Z.lor_assoc.
  - intros b c H. destruct (Hc b c H) as (b2 & c2 & Hat2 & Hm2 & ? & ? & ?).
    destruct (Hc' b2 c2 Hat2) as (b3 & c3 & Hat3 & Hm3 & ? & ? & ?). exists b3, c3.
    pose proof (api_moves_trans _ _ _ Hm2 Hm3). tauto.
Qed.

Lemma kept_closed p st st' : kept p st st' -> has (recv_flags st) TF_CLOSED = true -> has (recv_flags st') TF_CLOSED = true.
Proof. intros [_ [->|[_ ->]] _]; [done|]. intros _. apply has_lor_closed. Qed.
Lemma kept_other p st st' m :
  Z.land TF_CLOSED m = 0 -> kept p st st' -> has (recv_flags st') m = has (recv_flags st) m.
Proof. intros Hm [_ [->|[_ ->]] _]; [done|]. by apply has_lor_other. Qed.

Lemma serving_conn k p st : serving k p st -> exists b c, conn_at st p b c /\ p <> 0.
Proof.
  intros [ls Hi Hp Hk _|ls b c Hi [Hb _ Hlv _ _ _] _].
  - destruct (inv_listed_conn P L ls ∅ st k p Hi) as (b & c & Hb & Hr); [by destruct Hk as [->| ->]|done|apply nex|].
    exists b, c. split; [done|]. apply (inv_in _ _ _ _ _ _ _ Hi Hp).
  - exists b, c. split; [split; [done|apply Hlv]|]. by apply (inv_nonzero _ _ _ _ _ _ _ Hi Hb).
Qed.

(** The block while it is served. *)
Lemma serving_block k p st b c :
  serving k p st -> conn_at st p b c ->
  state b <> LISTEN /\ queues_ok (state b) c /\ window_ok (tx c) /\ refused_ok c /\
  (k = ACTIVE_PCBS -> lively b c) /\ (k = TW_PCBS -> state b = TIME_WAIT).
Proof.
  intros [ls Hi Hp Hk _|ls b' c' Hi [Hb' _ Hlv _ _ _] ->] [Hb Hr].
  - pose proof (inv_leaving P L ls ∅ st p b c Hi (nex p) Hb Hr) as [_ Hs _ _ Hco _].
    pose proof (inv_placed _ _ _ _ _ _ (Some k) b Hi Hp Hb (nex p)) as Ho.
    unfold conn_ok in Hco. rewrite Hr in Hco. split_and!; try tauto.
    + intros ->. by apply ok_lively.
    + intros ->. by destruct Ho.
  - rewrite Hb in Hb'. injection Hb' as <-. pose proof Hlv as [Hr' Ha Hq Hrf Hw]. rewrite Hr in Hr'. injection Hr' as <-.
    split_and!; try done. by destruct (state b).
Qed.

(** A quiet action. *)
Lemma wp_serving_quiet {A} (m : tcpM E A) k p b c (Q : A -> tcp E -> Prop) st :
  serving k p st -> conn_at st p b c -> quietly p m b c (env st) st ->
  (forall a st' b' c', serving k p st' -> kept p st st' -> calm st st' -> quiet b c b' c' ->
     conn_at st' p (set_rest (Conn c') b') c' -> Q a st') -> wp m Q st.
Proof.
  intros Hsv [Hb Hr] Hm HQ.
  assert (forall st' b' c', calm st st' -> quiet b c b' c' -> pcbs st' !! p = Some (set_rest (Conn c') b') -> kept p st st') as Hkept.
  { intros st' b' c' Hca [(_ & Hs & _) _ _ _ _ [E1 E2] _] Hb'. split; [apply Hca|left; apply Hca|].
    intros b0 c0 [Hb0 Hr0]. rewrite Hb in Hb0. injection Hb0 as <-. rewrite Hr in Hr0. injection Hr0 as <-.
    exists (set_rest (Conn c') b'), c'. cbn. rewrite Hs, E1, E2. split; [done|]. split; [by left|done]. }
  destruct Hsv as [ls Hi Hp Hk Hcl|ls b0 c0 Hi Hz Hk].
  - apply (wp_quiet P L m ls ∅ p b c); try done. intros a b' c' st' Hq Hb' Hi' Hca.
    apply (HQ a st' b' c'); [|by apply (Hkept st' b' c')|done..]. apply (serving_listed k p st' ls); try done.
    intros Htw. rewrite (calm_flags _ _ Hca). by apply Hcl.
  - apply (wp_quiet P L m ls ({[p]} ∪ ∅) p b c); try done. intros a b' c' st' Hq Hb' Hi' Hca.
    apply (HQ a st' b' c'); [|by apply (Hkept st' b' c')|done..].
    destruct Hz as [Hb0 Hno Hlv Hre Hin Hcl]. rewrite Hb in Hb0. injection Hb0 as <-.
    pose proof (lively_rest _ _ Hlv) as Hr0. rewrite Hr in Hr0. injection Hr0 as <-.
    apply (serving_zombie k p st' ls (set_rest (Conn c') b') c'); [done| |done].
    split; try done; [by apply (quiet_lively b c)|by apply (quiet_released b c)|by rewrite (calm_input _ _ Hca)|].
    by rewrite (calm_flags _ _ Hca).
Qed.

(** Other changes to a served connection. *)
Lemma wp_serving_work {A} (m : tcpM E A) p b c (Q : A -> tcp E -> Prop) st :
  serving ACTIVE_PCBS p st -> conn_at st p b c ->
  (forall ls, at_work P L ls ({[p]} ∪ ∅) p b c st -> wp m (fun a st' => exists b' c',
     at_work P L ls ({[p]} ∪ ∅) p b' c' st' /\ listener c' = listener c /\ (released b -> released b') /\
     (counted (state b) (tx c) -> counted (state b') (tx c')) /\
     tcp_input_pcb st' = tcp_input_pcb st /\
     (has (recv_flags st) TF_CLOSED = true -> has (recv_flags st') TF_CLOSED = true) /\
     (serving ACTIVE_PCBS p st' -> conn_at st' p b' c' -> Q a st')) st) ->
  wp m Q st.
Proof.
  intros [ls Hi Hp Hk Hcl|ls b0 c0 Hi Hz Hk] [Hb Hr] Hm.
  - pose proof (at_work_active P L ls ∅ st p b c Hi (lists_settled_empty ls) Hp Hb Hr) as Hw.
    eapply wp_mono; [by apply (Hm ls)|]. intros a st' (b' & c' & Hw' & Hl & Hre & Hk' & Hin & Hfl & HQ).
    apply HQ; [|split; apply Hw']. apply (serving_listed _ p st' ls); try done.
    apply (settle_active P L ls ∅ st' p b' c'); [done|apply nex|done|by apply Hk', (inv_counted P L ls ∅ st p b c)|].
    unfold refers_ok. rewrite Hl. by apply (inv_refers P L ls ∅ st p b c Hi (nex p)).
  - pose proof Hz as [Hb0 Hno Hlv Hre Hin Hcl]. rewrite Hb in Hb0. injection Hb0 as <-.
    pose proof (lively_rest _ _ Hlv) as Hr0. rewrite Hr in Hr0. injection Hr0 as <-. eapply wp_mono; [apply (Hm ls)|].
    + split; try done; [set_solver|]. intros l Hl [->%elem_of_singleton|Hx]%elem_of_union; [by apply (Hno LISTEN_PCBS)|by apply nex in Hx].
    + intros a st' (b' & c' & Hw' & Hl & Hre' & _ & Hin' & Hfl & HQ). apply HQ; [|split; apply Hw'].
      apply (serving_zombie _ p st' ls b' c'); [apply Hw'| |done].
      split; try apply Hw'; try done; [by apply Hre'|by rewrite Hin'|by apply Hfl].
Qed.

(** An action on the connection alone. *)
Lemma wp_serving_local {A} (m : tcpM E A) p b c (Phi : A -> tcp_pcb -> tcp_conn -> E -> Prop) (Q : A -> tcp E -> Prop) st :
  serving ACTIVE_PCBS p st -> conn_at st p b c -> local p m Phi b c (env st) st ->
  (lively b c -> forall a b' c' e', Phi a b' c' e' ->
     next b' = next b /\ listener c' = listener c /\
     tcp_is_flag_set c' TF_BACKLOGPEND = tcp_is_flag_set c TF_BACKLOGPEND /\ lively (set_rest (Conn c') b') c' /\
     (counted (state b) (tx c) -> counted (state b') (tx c'))) ->
  (forall a b' c' e' st', Phi a b' c' e' -> serving ACTIVE_PCBS p st' -> conn_at st' p (set_rest (Conn c') b') c' ->
     st' = at_conn p b' c' e' st -> Q a st') ->
  wp m Q st.
Proof.
  intros Hs Hbc Hm Hstep HQ. apply (wp_serving_work _ p b c); [done..|]. intros ls [Hi HX HLX Hb Hlv].
  pose proof Hbc as [_ Hr]. eapply (wp_local m p b c Phi); [by rewrite set_rest_id|done|].
  intros a b' c' e' HPhi Hca. destruct (Hstep Hlv a b' c' e' HPhi) as (Hn & Hl & Hf & Hlv' & Hk').
  exists (set_rest (Conn c') b'), c'. split_and!; try done.
  - split; try done; [|apply at_conn_lookup]. by apply (Inv_at_conn P L ls _ st p b c).
  - unfold released. rewrite Hr. cbn. by rewrite Hl, Hf.
  - intros Hs' Hbc'. by apply (HQ a b' c' e').
Qed.

(** The globals that the invariant does not mention. *)
Lemma serving_same k p st st' :
  pcbs st' = pcbs st -> heads st' = heads st -> pcb_free st' = pcb_free st -> lpcb_free st' = lpcb_free st ->
  tcp_port st' = tcp_port st -> tcp_input_pcb st' = tcp_input_pcb st ->
  has (recv_flags st') TF_CLOSED = has (recv_flags st) TF_CLOSED -> serving k p st -> serving k p st'.
Proof.
  intros E1 E2 E3 E4 E5 E6 E7 [ls Hi Hp Hk Hcl|ls b c Hi Hz Hk].
  - apply (serving_listed k p st' ls); try done; [by apply (Inv_same P L ls ∅ st)|by rewrite E7].
  - apply (serving_zombie k p st' ls b c); [by apply (Inv_same P L ls _ st)| |done].
    destruct Hz. split; rewrite ?E1, ?E6, ?E7; done.
Qed.

(** What was refused, in either list. *)
Lemma wp_serving_refused k p b c d (Q : unit -> tcp E -> Prop) st :
  serving k p st -> conn_at st p b c -> (fn_recv c = FN_recv_null -> d = 0) ->
  (forall st', serving k p st' -> conn_at st' p (set_rest (Conn (set_refused_data d c)) b) (set_refused_data d c) ->
     calm st st' -> Q tt st') ->
  wp (store_conn p (set_refused_data d)) Q st.
Proof.
  intros Hs [Hb Hr] Hd HQ. set (c' := set_refused_data d c) in *. set (b' := set_rest (Conn c') b) in *.
  apply (wp_store_conn p _ b c); [done..|]. fold c'. fold b'. match goal with |- Q tt ?s => set (st' := s) end.
  assert (forall ls X, Inv ls X st -> Inv ls X st') as Hinv.
  { intros ls X Hi. apply (Inv_insert P L ls X st st' p b b'); try done; [unfold same_claim; by rewrite Hr|].
    intros _ w _. assert (conn_ok b -> conn_ok b') as Hco by (unfold conn_ok; rewrite Hr; cbn; tauto).
    destruct w as [[]|]; cbn [pcb_ok]; unfold counted_ok, unclaimed, released, listening_ok in *; rewrite ?Hr; cbn [state b' set_rest rest]; tauto. }
  apply HQ; [|split; [apply lookup_insert_eq|done]|by apply (calm_insert st st' p b c b')].
  destruct Hs as [ls Hi Hp Hk Hcl|ls b0 c0 Hi Hz Hk].
  - by apply (serving_listed k p st' ls); [apply Hinv|..].
  - apply (serving_zombie k p st' ls b' c'); [by apply Hinv| |done]. destruct Hz as [Hb0 Hno Hlv Hre Hin Hcl].
    rewrite Hb in Hb0. injection Hb0 as <-. pose proof Hlv as [Hr0 Ha Hq _ Hw]. rewrite Hr in Hr0. injection Hr0 as <-.
    split; try done; [apply lookup_insert_eq|]. unfold released in *. by rewrite Hr in Hre.
Qed.

(** ** The end of a served connection *)

Lemma serving_leaving k p st b c :
  serving k p st -> conn_at st p b c ->
  exists ls, Inv ls ({[p]} ∪ ∅) st /\ listeners_settled ls ∅ /\ leaving ls p b c /\
    (forall l, p ∈ ls l -> l = k) /\ state b <> CLOSED.
Proof.
  intros [ls Hi Hp Hk Hcl|ls b0 c0 Hi Hz Hk] [Hb Hr]; exists ls.
  - split_and!; [by apply Inv_exempt|intros l _; apply nex|by apply (inv_leaving P L ls ∅ st)| |].
    + intros l Hl. by apply (lists_disjoint _ _ (inv_lists _ _ _ _ _ Hi) l k p).
    + pose proof (inv_placed _ _ _ _ _ _ (Some k) b Hi Hp Hb (nex p)) as Ho.
      destruct Hk as [->| ->]; cbn in Ho; destruct Ho as [Ho _]; by destruct (state b).
  - destruct Hz as [Hb0 Hno Hlv _ _ _]. rewrite Hb in Hb0. injection Hb0 as <-.
    pose proof (lively_rest _ _ Hlv) as Hr0. rewrite Hr in Hr0. injection Hr0 as <-.
    split_and!; [done|intros l _; apply nex|apply lively_leaving; [done|intros l Hl; by apply Hno in Hl]| |].
    + intros l Hl. by apply Hno in Hl.
    + pose proof (lively_active _ _ Hlv) as Ha. by destruct (state b).
Qed.

Lemma wp_abort_served k p st :
  serving k p st -> wp (tcp_abort p) (fun _ st' => good st' /\ calm st st') st.
Proof.
  intros Hs. destruct (serving_conn k p st Hs) as (b & c & Hbc & Hp0).
  destruct (serving_leaving k p st b c Hs Hbc) as (ls & Hi & HLX & Hlv & _ & _). destruct Hbc as [Hb Hr].
  apply (wp_tcp_abandon_leaving P L ls ∅ p b c); try done. intros st' Hi' _ Hca. split; [by eexists|done].
Qed.

Lemma serving_input k p st v b c :
  serving k p st -> conn_at st p b c ->
  exists ls, Inv ls ({[p]} ∪ ∅) (set_tcp_input_pcb v st) /\ listeners_settled ls ∅ /\ leaving ls p b c /\
    (forall l, p ∈ ls l -> l = k) /\ state b <> CLOSED.
Proof.
  intros Hs Hbc. destruct (serving_leaving k p st b c Hs Hbc) as (ls & Hi & H). exists ls. split; [|done].
  by apply (Inv_same P L ls _ st).
Qed.

(** The block leaves the list of active connections and goes back to the pool. *)
Lemma wp_remove_served p v st (Q : unit -> tcp E -> Prop) :
  serving ACTIVE_PCBS p st -> (forall st', good st' -> Q tt st') ->
  wp (tcp_pcb_remove ACTIVE_PCBS p ;; tcp_free p) Q (set_tcp_input_pcb v st).
Proof.
  intros Hs HQ. destruct (serving_conn _ p st Hs) as (b & c & Hbc & Hp0).
  destruct (serving_input _ p st v b c Hs Hbc) as (ls & Hi & HLX & Hlv & Hh & Hcs). destruct Hbc as [Hb Hr].
  assert (p ∉ ls LISTEN_PCBS) as Hnl by by intros ?%Hh.
  apply wp_bind, (wp_tcp_pcb_remove P L ls ({[p]} ∪ ∅) ACTIVE_PCBS p b c); try done.
  - set_solver.
  - by apply settled_exempt.
  - apply Hlv.
  - by apply (leaving_idle ls p).
  - intros b' c' st' Hb' Hr' Hs' Hre Hi' Hca.
    apply (wp_tcp_free P L (drop_pcb p ls) ∅ p b' c'); try done.
    + by rewrite Hs'.
    + intros l. apply drop_pcb_notin.
    + intros st2 Hi2 _ _. apply HQ. by eexists.
Qed.
End serving.
