(* ===== verification/TcpEvents.v ===== *)
(** * Calling the application back

    What is relied on in the callbacks of the application ([TcpAppLaws]): one that
    is called for a connection leaves it served or has aborted it and returns
    [ERR_ABRT]; it may only do so while the segment is being processed. *)
From S2P Require Import Prelude ByteOrder Lwip Pbuf ChecksumPbuf TcpPcb TcpOut Tcp TcpIn TcpWp TcpLists TcpInv.
From S2P Require Import TcpSteps TcpPools TcpRemove TcpWork TcpClose TcpAlloc TcpBind TcpApi TcpServe.

(** The connection an event is about. *)
Definition ev_pcb (ev : tcp_event) : Z :=
  match ev with
  | EvAccept _ _ newpcb _ => newpcb
  | EvRecv _ _ pcb _ _ | EvSent _ _ pcb _ | EvConnected _ _ pcb _ => pcb
  end.

(** After a callback that answers [r]. *)
Definition event_post {E} `{!TcpEnv E} (P L : gset Z) k p (st : tcp E) (r : Z) (st' : tcp E) : Prop :=
  tcp_input_pcb st' = tcp_input_pcb st /\
  (if r =? ERR_ABRT then good P L st' /\ tcp_input_pcb st = p else serving P L k p st' /\ kept p st st').

Class TcpAppLaws (E : Type) `{!TcpEnv E} `{!TcpApp E} (P L : gset Z) : Prop := {
  app_serves k p ev st :
    ev_pcb ev = p -> serving P L k p st -> tcp_input_pcb st = p \/ tcp_input_pcb st = 0 ->
    wp (app_event ev) (event_post P L k p st) st;
  app_no_memory f arg st :
    good P L st -> tcp_input_pcb st = 0 ->
    wp (app_event (EvAccept f arg 0 ERR_MEM)) (fun _ st' => good P L st' /\ tcp_input_pcb st' = 0) st }.

(** ** What a call can answer *)

Definition yields {E A} (m : tcpM E A) (R : A -> Prop) : Prop := forall st a st', m st = Ret (a, st') -> R a.

Lemma yields_bind {E A B} (m : tcpM E A) (k : A -> tcpM E B) (R1 : A -> Prop) (R : B -> Prop) :
  yields m R1 -> (forall a, R1 a -> yields (k a) R) -> yields (m ≫= k) R.
Proof.
  intros Hm Hk st b st'. unfold mbind, tcpM_bind. destruct (m st) as [[a st1]| | |] eqn:Ha; try done.
  apply Hk, (Hm _ _ _ Ha).
Qed.
Lemma yields_any {E A} (m : tcpM E A) : yields m (fun _ => True).
Proof. done. Qed.
Lemma yields_ret {E A} (a : A) (R : A -> Prop) : R a -> yields (mret a : tcpM E A) R.
Proof. by intros Ha st ? ? [= <- <-]. Qed.
Lemma wp_yields {E A} (m : tcpM E A) (R : A -> Prop) (Q : A -> tcp E -> Prop) st :
  yields m R -> wp m Q st -> wp m (fun a st' => R a /\ Q a st') st.
Proof. intros Hm (a & st' & Ha & HQ). exists a, st'. split; [done|]. split; [by apply (Hm st a st')|done]. Qed.

(** Through a sequence whose last answer counts. *)
Ltac yields_seq :=
  repeat first
    [ apply yields_ret; done
    | match goal with |- yields (_ ≫= _) _ => apply (yields_bind _ _ (fun _ => True)); [apply yields_any|]; intros ? _ end
    | match goal with |- yields (if ?b then _ else _) _ => destruct b end
    | match goal with |- yields (match ?x with _ => _ end) _ => destruct x end ].

Section answers.
Context {E : Type} `{!TcpEnv E}.

Lemma enqueue_yields p fl : yields (tcp_enqueue_flags (E := E) p fl) (fun err => err = ERR_OK \/ err = ERR_MEM).
Proof. unfold tcp_enqueue_flags. yields_seq; apply yields_ret; auto. Qed.

Lemma send_fin_yields p : yields (tcp_send_fin (E := E) p) (fun err => err = ERR_OK \/ err = ERR_MEM).
Proof. unfold tcp_send_fin. yields_seq; try apply enqueue_yields. apply yields_ret. auto. Qed.

Lemma fin_sent_yields p err : err = ERR_OK \/ err = ERR_MEM -> yields (fin_sent (E := E) p err) (.= ERR_OK).
Proof. unfold fin_sent. intros [-> | ->]; cbn; yields_seq. Qed.

Lemma shutdown_fin_yields p : yields (tcp_close_shutdown_fin (E := E) p) (.= ERR_OK).
Proof.
  unfold tcp_close_shutdown_fin. apply (yields_bind _ _ (fun _ => True)); [apply yields_any|]. intros b _.
  destruct (state b); try by apply yields_ret.
  all: eapply yields_bind; [apply send_fin_yields|]; intros err Herr; cbv beta in Herr.
  all: apply (yields_bind _ _ (fun _ => True)); [apply yields_any|]; intros _ _; by apply fin_sent_yields.
Qed.

Lemma close_shutdown_yields p r : yields (tcp_close_shutdown (E := E) p r) (.= ERR_OK).
Proof.
  unfold tcp_close_shutdown, close_with_rst, close_by_state. yields_seq; apply shutdown_fin_yields.
Qed.

Lemma close_yields p : p <> 0 -> yields (tcp_close (E := E) p) (.= ERR_OK).
Proof.
  intros Hp. unfold tcp_close. destruct (Z.eqb_spec p 0); [done|]. yields_seq. apply close_shutdown_yields.
Qed.
End answers.

Section events.
Context {E : Type} `{!TcpEnv E} `{!TcpApp E} (P L : gset Z) `{!TcpAppLaws E P L}.
Implicit Types (st : tcp E) (ls : pcb_list -> list Z).
Notation Inv := (Inv P L).
Notation serving := (serving P L).
Notation event_post := (event_post P L).
#[local] Set Default Proof Using "All".

Lemma event_ok k p st st' : serving k p st' -> kept p st st' -> event_post k p st ERR_OK st'.
Proof. intros Hs Hk. split; [apply Hk|done]. Qed.

Lemma event_post_after k p st st1 r st' :
  kept p st st1 -> event_post k p st1 r st' -> event_post k p st r st'.
Proof.
  intros Hk [Hin Hr]. pose proof (kept_input _ _ _ Hk) as E1. split; [congruence|].
  destruct (r =? ERR_ABRT); [by rewrite <- E1|]. destruct Hr as [Hs Hk2]. split; [done|]. by apply (kept_trans _ _ st1).
Qed.

Lemma wp_TCP_EVENT_SENT k p space st :
  serving k p st -> tcp_input_pcb st = p \/ tcp_input_pcb st = 0 ->
  wp (TCP_EVENT_SENT p space) (event_post k p st) st.
Proof.
  intros Hs Hin. destruct (serving_conn P L k p st Hs) as (b & c & [Hb Hr] & Hp0).
  unfold TCP_EVENT_SENT. apply wp_bind, (wp_load p b); [done|]. apply wp_bind, (wp_load_conn p b c); [done..|].
  destruct (fn_sent c); [apply wp_ret, event_ok; [done|apply kept_refl]|..]; by apply app_serves.
Qed.

Lemma wp_TCP_EVENT_CONNECTED k p err st :
  serving k p st -> tcp_input_pcb st = p \/ tcp_input_pcb st = 0 ->
  wp (TCP_EVENT_CONNECTED p err) (event_post k p st) st.
Proof.
  intros Hs Hin. destruct (serving_conn P L k p st Hs) as (b & c & [Hb Hr] & Hp0).
  unfold TCP_EVENT_CONNECTED. apply wp_bind, (wp_load p b); [done|]. apply wp_bind, (wp_load_conn p b c); [done..|].
  destruct (fn_connected c); [apply wp_ret, event_ok; [done|apply kept_refl]|..]; by apply app_serves.
Qed.

Lemma wp_TCP_EVENT_RECV k p b c d st :
  serving k p st -> conn_at st p b c -> tcp_input_pcb st = p \/ tcp_input_pcb st = 0 -> d <> 0 ->
  wp (TCP_EVENT_RECV p d ERR_OK) (fun r st' => (fn_recv c = FN_recv_null -> r = ERR_OK) /\ event_post k p st r st') st.
Proof.
  intros Hs Hbc Hin Hd. destruct (serving_conn P L k p st Hs) as (_ & _ & _ & Hp0).
  destruct (serving_block P L k p st b c Hs Hbc) as (Hnl & Hq & Hw & _).
  pose proof Hbc as [Hb Hr].
  assert (wp (tcp_recv_null p d ERR_OK)
    (fun r st' => (fn_recv c = FN_recv_null -> r = ERR_OK) /\ event_post k p st r st') st) as Hnull.
  { unfold tcp_recv_null. destruct (Z.eqb_spec p 0), (Z.eqb_spec d 0); try done. cbn [negb].
    apply wp_bind, wp_ask, wp_bind.
    apply (wp_serving_quiet P L (tcp_recved p _) k p b c); [done|done|by apply tcp_recved_quiet|].
    intros [] st1 b1 c1 Hs1 Hk1 _ _ Hbc1. apply wp_bind.
    apply (wp_serving_quiet P L _ k p (set_rest (Conn c1) b1) c1); [done|exact Hbc1|by apply local_effect, quiet_refl|].
    intros [] st2 b2 c2 Hs2 Hk2 _ _ _. apply wp_ret. split; [done|]. apply event_ok; [done|]. by apply (kept_trans _ _ st1). }
  unfold TCP_EVENT_RECV. apply wp_bind, (wp_load p b); [done|]. apply wp_bind, (wp_load_conn p b c); [done..|].
  destruct (fn_recv c); try done; eapply wp_mono; try (by apply app_serves); intros r st' Hr'; by split.
Qed.

(** [tcp_recv_null] closes the connection when the other side has. *)
Lemma wp_close_served k p b c st :
  serving k p st -> conn_at st p b c -> tcp_input_pcb st = p -> synchronized (state b) = true ->
  fn_recv c = FN_recv_null ->
  wp (tcp_close p) (fun err st' => serving k p st' /\ kept p st st') st.
Proof.
  intros Hs Hbc Hin Hsy Hfn. pose proof Hbc as [Hb Hr].
  assert (forall st' b' c', tcp_input_pcb st' = tcp_input_pcb st ->
    recv_flags st' = recv_flags st \/ tcp_input_pcb st = p /\ recv_flags st' = Z.lor (recv_flags st) TF_CLOSED ->
    outlives b c b' c' -> pcbs st' !! p = Some b' -> rest b' = Conn c' -> kept p st st') as Hkept.
  { intros st' b' c' E1 E2 He Hb' Hr'. split; [done..|]. intros b0 c0 [Hb0 Hr0].
    rewrite Hb in Hb0. injection Hb0 as <-. rewrite Hr in Hr0. injection Hr0 as <-. exists b', c'.
    split; [done|]. split; [apply He|]. split; [apply He|]. split; [apply He|done]. }
  destruct Hs as [ls Hi Hp Hk Hcl|ls b0 c0 Hi Hz Hk].
  - assert (leaving ls p b c) as Hlv by by apply (inv_leaving P L ls ∅ st p b c Hi (nex p)).
    apply (wp_tcp_close_leaving P L ls ∅ p b c); [by apply Inv_exempt|intros l _; apply nex|done|done|].
    intros err st' [Hi' _ _ Hne|b' c' Hi' Hb' Hlv' Hor He Hca|b' c' Hi' Hz Ha He E1 E2].
    + by apply Hne in Hsy.
    + split; [|apply (Hkept st' b' c'); [apply Hca|left; apply Hca|apply He|done|apply Hlv']].
      apply (serving_listed P L k p st' ls); try done.
      * apply (settle_leaving P L ls st p b c b' c' st'); try done.
        destruct Hor as [[-> ->]|[Hx Hy]]; [done|]. by rewrite (proj1 (active_home _ Hx)), (proj1 (active_home _ Hy)).
      * intros Htw. rewrite (calm_flags _ _ Hca). by apply Hcl.
    + split; [|apply (Hkept st' b' c'); [done|by right|done|apply Hz|apply (lively_rest _ _ (zb_lively _ _ _ _ _ Hz))]].
      destruct Hk as [->| ->]; [by apply (serving_zombie P L _ p st' (drop_pcb p ls) b' c')|].
      pose proof (inv_placed _ _ _ _ _ _ (Some TW_PCBS) b Hi Hp Hb (nex p)) as [Htw _]. by rewrite Htw in Ha.
  - destruct Hz as [Hb0 Hno Hlv Hre _ Hcl]. rewrite Hb in Hb0. injection Hb0 as <-.
    pose proof (lively_rest _ _ Hlv) as Hr0. rewrite Hr in Hr0. injection Hr0 as <-.
    apply (wp_tcp_close_leaving P L ls ∅ p b c); [done|intros l _; apply nex|done|by apply lively_leaving; [|intros l Hl; apply Hno in Hl]|].
    intros err st' [Hi' _ _ Hne|b' c' Hi' Hb' Hlv' Hor He Hca|b' c' Hi' Hz Ha He E1 E2].
    + by apply Hne in Hsy.
    + split; [|apply (Hkept st' b' c'); [apply Hca|left; apply Hca|apply He|done|apply Hlv']].
      apply (serving_zombie P L k p st' ls b' c'); try done. split; try done.
      * apply (leaving_lively ls p); [done|]. destruct Hor as [[Htw _]|[_ H]]; [|done].
        pose proof (lively_active _ _ Hlv) as Ha. by rewrite Htw in Ha.
      * by apply He.
      * by rewrite (calm_input _ _ Hca).
      * by rewrite (calm_flags _ _ Hca).
    + split; [|apply (Hkept st' b' c'); [done|by right|done|apply Hz|apply (lively_rest _ _ (zb_lively _ _ _ _ _ Hz))]].
      by apply (serving_zombie P L k p st' (drop_pcb p ls) b' c').
Qed.

Lemma wp_TCP_EVENT_CLOSED k p b c st :
  serving k p st -> conn_at st p b c -> tcp_input_pcb st = p \/ tcp_input_pcb st = 0 ->
  (fn_recv c = FN_recv_null -> tcp_input_pcb st = p /\ synchronized (state b) = true) ->
  wp (TCP_EVENT_CLOSED p) (event_post k p st) st.
Proof.
  intros Hs Hbc Hin Hrn. destruct (serving_conn P L k p st Hs) as (_ & _ & _ & Hp0). pose proof Hbc as [Hb Hr].
  unfold TCP_EVENT_CLOSED. apply wp_bind, (wp_load p b); [done|]. apply wp_bind, (wp_load_conn p b c); [done..|].
  destruct (fn_recv c) eqn:Hfn; [apply wp_ret, event_ok; [done|apply kept_refl]|..]; try by apply app_serves.
  destruct (Hrn eq_refl) as [Hinp Hsy]. unfold tcp_recv_null. destruct (Z.eqb_spec p 0) as [|Hp]; [done|]. cbn [negb Z.eqb].
  eapply wp_mono; [apply (wp_yields _ (.= ERR_OK) (fun _ st' => serving k p st' /\ kept p st st') _ (close_yields p Hp)),
    (wp_close_served k p b c st); done|].
  intros err st' (-> & Hs' & Hk'). by apply event_ok.
Qed.

(** The window is corrected for the FIN. *)
Lemma fin_window_quiet p b c e st :
  quietly p (c ← load_conn p; if tv (tx c) rcv_wnd =? TCP_WND then mret tt else store_tv p rcv_wnd (u16 (tv (tx c) rcv_wnd + 1)))
    b c e st.
Proof.
  unfold quietly. do 2 lstep. lstep; lstep; [apply quiet_refl|].
  split; [by split_and!|reflexivity|flags_other| |counted_done|done|].
  - unfold queues_ok. cbn. by rewrite ?fn_lookup_insert_ne by discriminate.
  - unfold window_ok. cbn. tvs. intros (? & ? & ?). split_and!; (done || lia || apply u16_range).
Qed.

Lemma wp_fin_received k p b c st :
  serving k p st -> conn_at st p b c -> tcp_input_pcb st = p \/ tcp_input_pcb st = 0 ->
  (fn_recv c = FN_recv_null -> tcp_input_pcb st = p /\ synchronized (state b) = true) ->
  wp (fin_received p) (event_post k p st) st.
Proof.
  intros Hs Hbc Hin Hrn.
  assert (wp (c ← load_conn p; if tv (tx c) rcv_wnd =? TCP_WND then mret tt else store_tv p rcv_wnd (u16 (tv (tx c) rcv_wnd + 1)))
    (fun _ st1 => wp (TCP_EVENT_CLOSED p) (event_post k p st) st1) st) as H.
  { apply (wp_serving_quiet P L _ k p b c); [done|done|apply fin_window_quiet|].
    intros [] st1 b1 c1 Hs1 Hk1 Hca1 Hq1 Hbc1. eapply wp_mono.
    - apply (wp_TCP_EVENT_CLOSED k p (set_rest (Conn c1) b1) c1); [done|done|by rewrite (calm_input _ _ Hca1)|].
      rewrite (proj2 (q_refused _ _ _ _ Hq1)), (calm_input _ _ Hca1). cbn. by rewrite (quiet_state _ _ _ _ Hq1).
    - intros r st' Hr. by apply (event_post_after k p st st1). }
  destruct H as ([] & st1 & Hm & Hc). unfold fin_received. destruct Hc as (r & st' & Hc & Hpost). exists r, st'.
  split; [|done]. revert Hm. unfold mbind, tcpM_bind. destruct (load_conn p st) as [[c0 st0]| | |]; try done.
  intros ->. exact Hc.
Qed.
End events.
