(* ===== verification/TcpProcess.v ===== *)
(** * The state machine of a connection ([tcp_process])

    Whatever segment arrives, the connection is served afterwards, in the list of
    active connections or, when both sides have closed, in the list of those that
    wait, or it has been aborted. *)
From S2P Require Import Prelude ByteOrder Lwip Pbuf ChecksumPbuf TcpPcb TcpOut Tcp TcpIn TcpWp TcpLists TcpInv.
From S2P Require Import TcpSteps TcpPools TcpRemove TcpWork TcpClose TcpAlloc TcpBind TcpApi TcpServe TcpEvents.

(** What is relied on in receiving data: it takes segments off the queues but adds
    none, and takes their buffers off the count; it leaves the window as it should
    be, and finds no data where there is none. *)
Class TcpReceiveLaws (E : Type) `{!TcpEnv E} : Prop := {
  receive_data_keeps s b c e r e' :
    rest b = Conn c -> receive_data s b e = (r, e') ->
    unsent (rx_transfer r) ++ unacked (rx_transfer r) ⊆ unsent (tx c) ++ unacked (tx c);
  receive_data_counts s b c e r e' :
    rest b = Conn c -> receive_data s b e = (r, e') -> counts_queued (tx c) ->
    counts_queued (rx_transfer r) /\ tv (rx_transfer r) snd_queuelen <= tv (tx c) snd_queuelen;
  receive_data_window s b c e r e' :
    rest b = Conn c -> receive_data s b e = (r, e') -> window_ok (tx c) -> window_ok (rx_transfer r);
  receive_data_nothing s b e r e' :
    receive_data s b e = (r, e') -> tcplen s = 0 -> rx_recv_data r = 0 }.

Section process.
Context {E : Type} `{!TcpEnv E} `{!TcpApp E} (P L : gset Z) `{!TcpAppLaws E P L} `{!TcpReceiveLaws E}.
Implicit Types (st : tcp E) (ls : pcb_list -> list Z).
Notation Inv := (Inv P L).
Notation serving := (serving P L).
#[local] Set Default Proof Using "All".

(** After [tcp_process]: unless the connection was aborted it is served, in the list
    of active connections when it was reset; a FIN is only taken when the connection
    is synchronized, and data only when nothing is kept of what was refused. *)
Definition processed (p : Z) (a : Z * recv_globals) st : Prop :=
  tcp_input_pcb st = p /\
  (if fst a =? ERR_ABRT then good P L st
   else exists k b c, serving k p st /\ conn_at st p b c /\
     (has (recv_flags st) TF_RESET = true -> k = ACTIVE_PCBS) /\
     (has (recv_flags st) TF_GOT_FIN = true -> synchronized (state b) = true) /\
     (recv_data (snd a) <> 0 -> refused_data c = 0)).

(** A global flag other than [TF_CLOSED] is set. *)
Lemma wp_set_flag k p m (Q : unit -> tcp E -> Prop) st :
  serving k p st -> Z.land m TF_CLOSED = 0 ->
  (forall st', serving k p st' -> pcbs st' = pcbs st -> tcp_input_pcb st' = tcp_input_pcb st ->
     recv_flags st' = Z.lor (recv_flags st) m -> Q tt st') ->
  wp (modify (fun st => set_recv_flags (Z.lor (recv_flags st) m) st)) Q st.
Proof.
  intros Hs Hm HQ. apply wp_modify, HQ; try done. apply (serving_same P L k p st); try done. by apply has_lor_other.
Qed.

Lemma lively_state s b c : lively b c -> active s -> s <> SYN_SENT -> lively (set_state s b) c.
Proof. intros [Hr Ha Hq Hrf Hw] Hs Hn. split; try done. by apply (queues_ok_state s (state b)). Qed.

Lemma wp_serving_state p b c s (Q : unit -> tcp E -> Prop) st :
  serving ACTIVE_PCBS p st -> conn_at st p b c -> active s -> s <> SYN_SENT ->
  (counted (state b) (tx c) -> counted s (tx c)) ->
  (forall st', serving ACTIVE_PCBS p st' -> conn_at st' p (set_state s b) c -> tcp_input_pcb st' = tcp_input_pcb st ->
     recv_flags st' = recv_flags st -> Q tt st') ->
  wp (store p (set_state s)) Q st.
Proof.
  intros Hs Hbc Ha Hn Hk HQ. pose proof Hbc as [_ Hr].
  assert (set_rest (Conn c) (set_state s b) = set_state s b) as Hid by by apply set_rest_id.
  eapply (wp_serving_local P L _ p b c (fun _ b' c' _ => b' = set_state s b /\ c' = c)); [done..|by lstep| |].
  - intros Hlv [] b' c' e' [-> ->]. rewrite Hid. split_and!; try done. by apply lively_state.
  - intros [] b' c' e' st' [-> ->] Hs' Hbc' ->. rewrite Hid in Hbc'. by apply HQ.
Qed.

(** ** Data *)

(** [tcp_receive] keeps what was refused and who receives. *)
Record received (s : tcp_segment_in) (p : Z) (c : tcp_conn) (r : recv_globals) st st' (b' : tcp_pcb) (c' : tcp_conn) : Prop := Received {
  rcv_serving : serving ACTIVE_PCBS p st';
  rcv_at : conn_at st' p b' c';
  rcv_synchronized : synchronized (state b') = true;
  rcv_state b : pcbs st !! p = Some b -> state b' = state b \/ state b = ESTABLISHED /\ state b' = CLOSE_WAIT;
  rcv_refused : refused_data c' = refused_data c;
  rcv_input : tcp_input_pcb st' = tcp_input_pcb st;
  rcv_flags : recv_flags st' = recv_flags st \/ recv_flags st' = Z.lor (recv_flags st) TF_GOT_FIN;
  rcv_nothing : tcplen s = 0 -> recv_data r = 0 }.

(** What receiving does to the connection. *)
Lemma received_counted s b c e r e' :
  receive_data s b e = (r, e') -> synchronized (state b) = true -> rest b = Conn c ->
  counted (state b) (tx c) -> counted (state b) (rx_transfer r).
Proof.
  intros Hrd Hsy Hr. assert (forall m, counts_to m (tx c) -> counts_to m (rx_transfer r)) as Hc.
  { intros m [H Hm]. destruct (receive_data_counts s b c e r e' Hr Hrd H). split; [done|lia]. }
  destruct (state b); cbn [counted]; by auto.
Qed.

Lemma received_lively s b c e r e' :
  receive_data s b e = (r, e') -> synchronized (state b) = true -> lively b c ->
  let c' := set_tx (rx_transfer r) (set_flags (merge_flags (flags c) (rx_flags r)) c) in lively (set_rest (Conn c') b) c'.
Proof.
  intros Hrd Hsy [Hr Ha [Hq _] Hrf Hw]. cbv zeta. split; try done; cbn.
  - split; [|by destruct (state b)]. cbn. pose proof (receive_data_keeps s b c e r e' Hr Hrd) as Hk.
    rewrite Forall_forall in Hq |- *. intros x Hx. by apply Hq, Hk.
  - by apply (receive_data_window s b c e r e').
Qed.

Lemma wp_tcp_receive s p b c (Q : recv_globals -> tcp E -> Prop) st :
  serving ACTIVE_PCBS p st -> conn_at st p b c -> synchronized (state b) = true ->
  (forall r st' b' c', received s p c r st st' b' c' -> Q r st') -> wp (tcp_receive s p) Q st.
Proof.
  intros Hs Hbc Hsy HQ. pose proof Hbc as [Hb Hr]. unfold tcp_receive.
  apply wp_bind, (wp_load p b); [done|]. apply wp_bind, (wp_load_conn p b c); [done..|].
  apply wp_bind, wp_ASSERT; [done|]. apply wp_bind. unfold wp at 1, call.
  destruct (receive_data s b (env st)) as [r e'] eqn:Hrd. eexists _, _. split; [done|].
  set (st1 := set_env e' st). assert (serving ACTIVE_PCBS p st1) as Hs1 by by apply (serving_same P L _ p st).
  set (c1 := set_tx (rx_transfer r) (set_flags (merge_flags (flags c) (rx_flags r)) c)).
  set (b1 := set_rest (Conn c1) b).
  apply wp_bind, (wp_serving_local P L _ p b c (fun _ b' c' _ => b' = b /\ c' = c1)); [done..|by lstep| |].
  { intros Hlv [] b' c' e2 [-> ->]. split_and!; try done; [unfold c1; flags_other|..].
    - by apply (received_lively s b c (env st) r e').
    - by apply (received_counted s b c (env st) r e'). }
  intros [] b' c' e2 st2 [-> ->] Hs2 Hbc2 Est2. fold b1 in Hbc2.
  assert (forall st3, serving ACTIVE_PCBS p st3 -> pcbs st3 = pcbs st2 -> tcp_input_pcb st3 = tcp_input_pcb st ->
    recv_flags st3 = recv_flags st \/ recv_flags st3 = Z.lor (recv_flags st) TF_GOT_FIN ->
    wp ((if rx_close_wait r && bool_decide (state b = ESTABLISHED) then store p (set_state CLOSE_WAIT) else mret tt) ;;
        mret (RecvGlobals (rx_recv_acked r) (rx_recv_data r) (rx_inseg_p r))) Q st3) as Hend.
  { intros st3 Hs3 E1 E2 E3. assert (conn_at st3 p b1 c1) as Hbc3 by (unfold conn_at; by rewrite E1).
    apply wp_bind. destruct (_ && _) eqn:Hcw.
    - apply andb_true_iff in Hcw as [_ Hcw%bool_decide_eq_true].
      apply (wp_serving_state p b1 c1); try done; [cbn; rewrite Hcw; intros [H Hm]; split; [done|lia]|].
      intros st4 Hs4 Hbc4 E4 E5. apply wp_ret; apply (HQ _ st4 (set_state CLOSE_WAIT b1) c1).
      split; try done; [|congruence|by rewrite E5|by apply (receive_data_nothing s b (env st) r e')].
      intros b0 Hb0. right. cbn. split; [congruence|done].
    - apply wp_ret, wp_ret; apply (HQ _ st3 b1 c1). split; try done; [|by apply (receive_data_nothing s b (env st) r e')].
      intros b0 Hb0. left. cbn. congruence. }
  apply wp_bind. destruct (rx_got_fin r); [|apply wp_ret, Hend; [done|done|by rewrite Est2|left; by rewrite Est2]].
  apply (wp_set_flag ACTIVE_PCBS p); [done..|]. intros st3 Hs3 E1 E2 E3. apply Hend; try done.
  - by rewrite E2, Est2.
  - right. by rewrite E3, Est2.
Qed.

(** ** What a FIN leads to *)

(** The connection is synchronized and served still. *)
Record gone_on (p : Z) (c : tcp_conn) st st' : Prop := GoneOn {
  go_list : pcb_list;
  go_block : tcp_pcb;
  go_conn : tcp_conn;
  go_serving : serving go_list p st';
  go_at : conn_at st' p go_block go_conn;
  go_synchronized : synchronized (state go_block) = true;
  go_refused : refused_data c = 0 -> refused_data go_conn = 0;
  go_input : tcp_input_pcb st' = tcp_input_pcb st;
  go_flags : has (recv_flags st') TF_RESET = has (recv_flags st) TF_RESET }.

Lemma wp_ack_now p b c (Q : unit -> tcp E -> Prop) st :
  serving ACTIVE_PCBS p st -> conn_at st p b c ->
  (forall st' b' c', serving ACTIVE_PCBS p st' -> calm st st' -> quiet b c b' c' ->
     conn_at st' p (set_rest (Conn c') b') c' -> Q tt st') -> wp (ack_now p) Q st.
Proof.
  intros Hs Hbc HQ. apply (wp_serving_quiet P L _ ACTIVE_PCBS p b c); [done..| |].
  - unfold quietly, ack_now. lstep. quiet_done.
  - intros [] st' b' c' Hs' _ Hca Hq Hbc'. by apply (HQ st' b' c').
Qed.

Lemma wp_ack_and_state p b c s st :
  serving ACTIVE_PCBS p st -> conn_at st p b c -> active s -> synchronized s = true ->
  (forall t, counted (state b) t -> counted s t) ->
  wp (ack_now p ;; store p (set_state s)) (fun _ st' => gone_on p c st st') st.
Proof.
  intros Hs Hbc Ha Hsy Hk. apply wp_bind, (wp_ack_now p b c); [done..|]. intros st1 b1 c1 Hs1 Hca1 Hq1 Hbc1.
  apply (wp_serving_state p (set_rest (Conn c1) b1) c1); try done; [by destruct s|cbn; rewrite (quiet_state _ _ _ _ Hq1); apply Hk|].
  intros st2 Hs2 Hbc2 E1 E2. eapply (GoneOn _ _ _ _ ACTIVE_PCBS); try done.
  - rewrite <- (proj1 (q_refused _ _ _ _ Hq1)). done.
  - by rewrite E1, (calm_input _ _ Hca1).
  - by rewrite E2, (calm_flags _ _ Hca1).
Qed.

Lemma wp_enter_time_wait p b c st :
  serving ACTIVE_PCBS p st -> conn_at st p b c -> has (recv_flags st) TF_CLOSED = false ->
  wp (enter_time_wait p) (fun _ st' => gone_on p c st st') st.
Proof.
  intros Hs [Hb Hr] Hcl. destruct Hs as [ls Hi Hp Hk _|ls b0 c0 Hi Hz Hk]; [|by rewrite (zb_closed _ _ _ _ _ Hz) in Hcl].
  assert (forall l, p ∈ ls l -> l = ACTIVE_PCBS) as Hone.
  { intros l Hl. by apply (lists_disjoint _ _ (inv_lists _ _ _ _ _ Hi) l ACTIVE_PCBS p). }
  pose proof (inv_placed _ _ _ _ _ _ (Some ACTIVE_PCBS) b Hi Hp Hb (nex p)) as Ho. pose proof Ho as (Ha & _).
  assert (Inv ls ({[p]} ∪ ∅) st) as Hx by by apply Inv_exempt.
  unfold enter_time_wait. apply wp_bind, (wp_tcp_pcb_purge P L ls ({[p]} ∪ ∅) p b c); try done.
  { set_solver. }
  { apply settled_exempt; [intros l _; apply nex|by intros ?%Hone]. }
  { by apply active_home. }
  intros c1 st1 Hb1 Hi1 Hca1 Hl1 Hre1 Hu1 Ha1 Ho1 Hrd1 Hw1. unfold TCP_RMV_ACTIVE. apply wp_bind, wp_bind.
  apply (wp_TCP_RMV P L ls ({[p]} ∪ ∅) ACTIVE_PCBS p (set_rest (Conn c1) b)); try done; [set_solver|by intros ?%Hone|].
  intros st2 Hi2 Hb2 Hca2 _. apply wp_modify, wp_bind.
  set (b2 := set_next 0 (set_rest (Conn c1) b)) in *. set (st3 := set_changed st2).
  apply (wp_store_exempt P L (drop_pcb p ls) ({[p]} ∪ ∅) p b2 c1 (set_state TIME_WAIT)); try done; [by apply (Inv_same P L _ _ st2)|set_solver|].
  intros st4 Hi4 Hb4 Hca4 _.
  apply (wp_TCP_REG P L (drop_pcb p ls) ({[p]} ∪ ∅) TW_PCBS p (set_state TIME_WAIT b2)); try done; [set_solver|intros l; apply drop_pcb_notin|].
  intros st5 n Hi5 Hb5 Hca5 _.
  assert (calm st st5) as Hca.
  { transitivity st1; [done|]. transitivity st2; [done|]. transitivity st3; [by apply calm_same|]. by transitivity st4. }
  assert (p ∈ add_pcb TW_PCBS p (drop_pcb p ls) TW_PCBS) as Hin by (apply elem_of_add; by left).
  assert (forall l, p ∈ add_pcb TW_PCBS p (drop_pcb p ls) l -> l = TW_PCBS) as Hone'.
  { intros l [[_ ->]|[_ H]%elem_of_drop]%elem_of_add; done. }
  apply (GoneOn p c st st5 TW_PCBS (set_next n (set_state TIME_WAIT b2)) c1); try done; [|apply Hca|by rewrite (calm_flags _ _ Hca)].
  apply (serving_listed P L TW_PCBS p st5 (add_pcb TW_PCBS p (drop_pcb p ls))); [|done|by right|].
  2: { intros _. by rewrite (calm_flags _ _ Hca). }
  apply (Inv_settle P L p _ ∅ st5 (set_next n (set_state TIME_WAIT b2))); [apply nex|done|..|done].
  - intros [l|] Hw; [|by apply (Hw TW_PCBS) in Hin]. rewrite (Hone' l Hw). split_and!; [done| |done].
    split_and!; [|by intros _|apply Hw1]; [split_and!; [|done..]; by rewrite Hu1, Ha1|].
    destruct Ho as (_ & Hco & _). unfold conn_ok in Hco. rewrite Hr in Hco. tauto.
  - intros c' [= <-]. unfold refers_ok. rewrite Hl1. pose proof (inv_refers P L ls ∅ st p b c Hi (nex p) Hb Hr) as [H|H]; [by left|right].
    apply elem_of_add. right. apply elem_of_drop. split; [done|]. intros Ep. rewrite Ep in H. by apply Hone in H.
  - intros r Hl _. by apply Hone' in Hl.
Qed.

Lemma gone_refl p b c st :
  serving ACTIVE_PCBS p st -> conn_at st p b c -> synchronized (state b) = true -> gone_on p c st st.
Proof. intros Hs Hbc Hsy. by apply (GoneOn p c st st ACTIVE_PCBS b c). Qed.

Lemma wp_fin_acked s p b c (Q : bool -> tcp E -> Prop) st :
  conn_at st p b c -> (forall a, Q a st) -> wp (fin_acked s p) Q st.
Proof. intros [Hb Hr] HQ. unfold fin_acked. apply wp_bind, (wp_load_conn p b c); [done..|]. by apply wp_ret. Qed.

(** The end of the states with data, where [R] says which ones. *)
Definition ends (R : tcp_state -> Prop) (p : Z) (m : tcpM E unit) : Prop := forall b c st,
  serving ACTIVE_PCBS p st -> conn_at st p b c -> synchronized (state b) = true -> R (state b) -> has (recv_flags st) TF_CLOSED = false ->
  wp m (fun _ st' => gone_on p c st st') st.

Ltac ends_start :=
  intros b c st Hs Hbc Hsy HR Hcl; apply wp_bind, wp_gets;
  match goal with |- context [has (recv_flags st) TF_GOT_FIN] => generalize (has (recv_flags st) TF_GOT_FIN); intros fin end.
Ltac ends_done b := first [by apply wp_ret, (gone_refl _ b) | by apply (wp_ack_and_state _ b)].

Definition takes_fin (s : tcp_state) : Prop := s = ESTABLISHED \/ s = CLOSE_WAIT \/ s = FIN_WAIT_1.
Lemma counted_close_wait s t : takes_fin s -> counted s t -> counted CLOSE_WAIT t.
Proof. intros [->|[->| ->]]; [|done..]. intros [H Hm]. split; [done|lia]. Qed.
Definition any_state (s : tcp_state) : Prop := True.

Lemma established_close_ends p : ends takes_fin p (established_close p).
Proof. ends_start. destruct fin; [apply (wp_ack_and_state p b); try done; intros t; by apply counted_close_wait|ends_done b]. Qed.

Lemma wp_ack_and_wait p b c st :
  serving ACTIVE_PCBS p st -> conn_at st p b c -> has (recv_flags st) TF_CLOSED = false ->
  wp (ack_now p ;; enter_time_wait p) (fun _ st' => gone_on p c st st') st.
Proof.
  intros Hs Hbc Hcl. apply wp_bind, (wp_ack_now p b c); [done..|]. intros st1 b1 c1 Hs1 Hca1 Hq1 Hbc1.
  eapply wp_mono; [apply (wp_enter_time_wait p (set_rest (Conn c1) b1) c1); [done..|by rewrite (calm_flags _ _ Hca1)]|].
  intros [] st2 [k b2 c2 H1 H2 H3 H4 H5 H6]. apply (GoneOn p c st st2 k b2 c2); try done.
  - rewrite <- (proj1 (q_refused _ _ _ _ Hq1)). done.
  - by rewrite H5, (calm_input _ _ Hca1).
  - by rewrite H6, (calm_flags _ _ Hca1).
Qed.

Lemma fin_wait_1_close_ends s p : ends any_state p (fin_wait_1_close s p).
Proof.
  ends_start. apply wp_bind, (wp_fin_acked s p b c); [done|]. intros acked.
  destruct fin, acked; try ends_done b; [by apply wp_ack_and_wait with b|].
  apply (wp_serving_state p b c); try done. intros st1 Hs1 Hbc1 E1 E2.
  apply (GoneOn p c st st1 ACTIVE_PCBS (set_state FIN_WAIT_2 b) c); try done. by rewrite E2.
Qed.
Lemma fin_wait_2_close_ends p : ends any_state p (fin_wait_2_close p).
Proof. ends_start. destruct fin; [by apply wp_ack_and_wait with b|ends_done b]. Qed.
Lemma closing_close_ends s p : ends any_state p (closing_close s p).
Proof.
  intros b c st Hs Hbc Hsy _ Hcl. apply wp_bind, (wp_fin_acked s p b c); [done|]. intros [].
  - by apply (wp_enter_time_wait p b).
  - ends_done b.
Qed.
Lemma last_ack_close_ends s p : ends any_state p (last_ack_close s p).
Proof.
  intros b c st Hs Hbc Hsy _ Hcl. apply wp_bind, (wp_fin_acked s p b c); [done|]. intros [].
  - apply wp_modify. apply (GoneOn p c st _ ACTIVE_PCBS b c); try done; [|cbn; by apply has_lor_other].
    destruct Hs as [ls Hi Hp Hk _|ls b0 c0 Hi Hz Hk]; [|by rewrite (zb_closed _ _ _ _ _ Hz) in Hcl].
    apply (serving_listed P L _ p _ ls); try done. by apply (Inv_same P L ls ∅ st).
  - ends_done b.
Qed.

(** A segment with data, in the states that take it. *)
Lemma wp_receive_then (R : tcp_state -> Prop) s p b c m st :
  serving ACTIVE_PCBS p st -> conn_at st p b c -> synchronized (state b) = true -> tcp_input_pcb st = p ->
  recv_flags st = 0 -> refused_data c = 0 \/ tcplen s = 0 ->
  R (state b) -> (R ESTABLISHED -> R CLOSE_WAIT) -> ends R p m ->
  wp (receive_then s p m) (processed p) st.
Proof.
  intros Hs Hbc Hsy Hin Hfl Hrf HR HR' Hm. unfold receive_then. apply wp_bind, (wp_tcp_receive s p b c); [done..|].
  intros r st1 b1 c1 [Hs1 Hbc1 Hsy1 Hst1 Hrf1 Hin1 Hfl1 Hno]. rewrite Hfl in Hfl1.
  assert (R (state b1)) as HR1 by (destruct (Hst1 b (proj1 Hbc)) as [->|[E1 ->]]; [done|rewrite E1 in HR; auto]).
  apply wp_bind. eapply wp_mono; [apply (Hm b1 c1); try done; by destruct Hfl1 as [->| ->]|].
  intros [] st2 [k b2 c2 H1 H2 H3 H4 H5 H6]. apply wp_ret. split; [congruence|]. cbn.
  exists k, b2, c2. split_and!; try done.
  - rewrite H6. by destruct Hfl1 as [->| ->].
  - intros Hd. apply H4. rewrite Hrf1. destruct Hrf as [|Hlen]; [done|]. by apply Hno in Hlen.
Qed.

(** ** Segments without data *)

Lemma processed_served s p err k b c st :
  tcp_input_pcb st = p -> (err =? ERR_ABRT) = false -> serving k p st -> conn_at st p b c ->
  (has (recv_flags st) TF_RESET = true -> k = ACTIVE_PCBS) -> has (recv_flags st) TF_GOT_FIN = false ->
  processed p (err, nothing_received s) st.
Proof.
  intros Hin He Hs Hbc Hr Hf. split; [done|]. cbn [fst]. rewrite He. exists k, b, c. split_and!; try done. by rewrite Hf.
Qed.

Lemma wp_process_rst s p b c st :
  serving ACTIVE_PCBS p st -> conn_at st p b c -> tcp_input_pcb st = p -> recv_flags st = 0 ->
  wp (process_rst s p) (fun err st' => processed p (err, nothing_received s) st') st.
Proof.
  intros Hs Hbc Hin Hfl. pose proof Hbc as [Hb Hr]. unfold process_rst.
  apply wp_bind, (wp_load p b); [done|]. apply wp_bind, (wp_load_conn p b c); [done..|]. cbv zeta.
  match goal with |- wp (_ ≫= fun _ => if ?t then _ else _) _ _ => set (acceptable := t) end.
  destruct (serving_block P L _ p st b c Hs Hbc) as (_ & _ & _ & _ & Hlv & _). specialize (Hlv eq_refl).
  assert (forall st1 b1 c1, serving ACTIVE_PCBS p st1 -> calm st st1 -> quiet b c b1 c1 ->
    conn_at st1 p (set_rest (Conn c1) b1) c1 ->
    wp (if acceptable then
          ASSERT (negb (bool_decide (state b = CLOSED))) ;;
          modify (fun st => set_recv_flags (Z.lor (recv_flags st) TF_RESET) st) ;;
          store_conn p (tcp_clear_flags TF_ACK_DELAY) ;;
          mret ERR_RST
        else mret ERR_OK) (fun err st' => processed p (err, nothing_received s) st') st1) as Hgo.
  { intros st1 b1 c1 Hs1 Hca1 Hq1 Hbc1. pose proof (calm_input _ _ Hca1) as E1. pose proof (calm_flags _ _ Hca1) as E2.
    destruct acceptable.
    - apply wp_bind, wp_ASSERT; [pose proof (lively_active _ _ Hlv); by destruct (state b)|].
      apply wp_bind, (wp_set_flag ACTIVE_PCBS p); [done..|]. intros st2 Hs2 E3 E4 E5.
      assert (conn_at st2 p (set_rest (Conn c1) b1) c1) as Hbc2 by (unfold conn_at; by rewrite E3).
      apply wp_bind, (wp_serving_quiet P L _ ACTIVE_PCBS p (set_rest (Conn c1) b1) c1); [done..|unfold quietly; lstep; quiet_done|].
      intros [] st3 b3 c3 Hs3 _ Hca3 _ Hbc3. apply wp_ret. eapply processed_served; try done.
      + by rewrite (calm_input _ _ Hca3), E4, E1.
      + by rewrite (calm_flags _ _ Hca3), E5, E2, Hfl.
    - apply wp_ret. eapply processed_served; try done; [by rewrite E1|by rewrite E2, Hfl]. }
  apply wp_bind. destruct (_ && _).
  - apply (wp_ack_now p b c); [done..|]. intros st1 b1 c1 Hs1 Hca1 Hq1 Hbc1. by apply (Hgo st1 b1 c1).
  - apply wp_ret, (Hgo st b c); [done..|apply quiet_refl|]. split; [|done]. cbn. by rewrite set_rest_id.
Qed.

(** A step on the connection, in any state with it. *)
Lemma wp_at {A} (m : tcpM E A) p b c e (Q : A -> tcp E -> Prop) st :
  local p m (fun a b' c' e' => Q a (at_conn p b' c' e' st)) b c e st -> wp m Q (at_conn p b c e st).
Proof. intros (a & b' & c' & e' & Hm & HQ). by exists a, (at_conn p b' c' e' st). Qed.

Lemma serving_at p b c b' c' e' st :
  serving ACTIVE_PCBS p st -> conn_at st p b c -> next b' = next b -> listener c' = listener c ->
  tcp_is_flag_set c' TF_BACKLOGPEND = tcp_is_flag_set c TF_BACKLOGPEND -> (lively b c -> lively (set_rest (Conn c') b') c') ->
  (lively b c -> counted (state b) (tx c) -> counted (state b') (tx c')) ->
  serving ACTIVE_PCBS p (at_conn p b' c' e' st).
Proof.
  intros Hs Hbc Hn Hl Hf Hlv Hk. set (m := fun _ : tcp E => Ret (tt, at_conn p b' c' e' st)).
  assert (wp m (fun _ st' => st' = at_conn p b' c' e' st /\ serving ACTIVE_PCBS p st') st) as ([] & st' & Hm & -> & H); [|done].
  apply (wp_serving_local P L m p b c (fun _ b1 c1 e1 => b1 = b' /\ c1 = c' /\ e1 = e')); [done|done|by exists tt, b', c', e'|..].
  - intros Hlv0 [] ? ? ? (-> & -> & ->). auto 10.
  - by intros [] ? ? ? st2 (-> & -> & ->) Hs2 _ ->.
Qed.

(** ** The answer to our SYN *)

(** The SYN leaves the queue it is on, and the connection is established. *)
Lemma established_lively b c t' :
  lively b c -> unsent t' ++ unacked t' ⊆ unsent (tx c) ++ unacked (tx c) -> window_ok t' ->
  lively (set_rest (Conn (set_tx t' c)) (set_state ESTABLISHED b)) (set_tx t' c).
Proof.
  intros [Hr Ha [Hq _] Hrf Hw] Hsub Hw'. split; try done. split; [|done]. cbn.
  rewrite Forall_forall in Hq |- *. intros x Hx. by apply Hq, Hsub.
Qed.

(** One buffer less is counted. *)
Lemma established_counted t t' g :
  counted SYN_SENT t -> queued t ≡ₚ g :: queued t' -> tv t' snd_queuelen = tv t snd_queuelen - 1 ->
  counts_to TCP_SND_QUEUELEN t'.
Proof.
  intros ([[H1 _] H2] & _ & H3) Hp Hn. pose proof (Permutation_length Hp) as Hl. cbn in Hl.
  split; [|lia]. split; [lia|].
  intros Hq. rewrite Hq in Hp. apply Permutation_singleton_r in Hp. destruct (H3 g Hp) as [_ H]. lia.
Qed.

(** Nothing of the window is announced. *)
Lemma window_ok_edge t t' :
  tv t' rcv_wnd = tv t rcv_wnd -> tv t' rcv_ann_wnd = tv t rcv_ann_wnd -> tv t' rcv_ann_right_edge = tv t' rcv_nxt ->
  window_ok t -> window_ok t'.
Proof.
  intros E1 E2 E3 (H1 & H2 & _). unfold window_ok. rewrite E1, E2, E3. split; [done|]. split; [done|]. left.
  by rewrite Z.sub_diag.
Qed.

Lemma wp_syn_acked s p b c (Q : Z -> tcp E -> Prop) st :
  serving ACTIVE_PCBS p st -> conn_at st p b c -> state b = SYN_SENT ->
  (forall st' b' c', serving ACTIVE_PCBS p st' -> conn_at st' p b' c' -> synchronized (state b') = true ->
     tcp_input_pcb st' = tcp_input_pcb st -> recv_flags st' = recv_flags st ->
     wp (err ← TCP_EVENT_CONNECTED p ERR_OK;
         if err =? ERR_ABRT then mret ERR_ABRT else ack_now p ;; mret ERR_OK) Q st') ->
  has (in_flags s) TCP_ACK && has (in_flags s) TCP_SYN && (in_ackno s =? u32 (tv (tx c) lastack + 1)) = true ->
  wp (process_syn_sent s p) Q st.
Proof.
  intros Hs Hbc Hst HQ Hsyn. pose proof Hbc as [Hb Hr].
  destruct (serving_block P L _ p st b c Hs Hbc) as (_ & Hqs & Hw & _ & Hlv & _). specialize (Hlv eq_refl).
  rewrite Hst in Hqs. destruct Hqs as (_ & Hex & Hql).
  assert (forall t' e' g, queued (tx c) ≡ₚ g :: queued t' -> tv t' snd_queuelen = tv (tx c) snd_queuelen - 1 -> window_ok t' ->
    wp (err ← TCP_EVENT_CONNECTED p ERR_OK; if err =? ERR_ABRT then mret ERR_ABRT else ack_now p ;; mret ERR_OK) Q
      (at_conn p (set_state ESTABLISHED b) (set_tx t' c) e' st)) as Hgo.
  { intros t' e' g Hp Hn Hw'. assert (unsent t' ++ unacked t' ⊆ unsent (tx c) ++ unacked (tx c)) as Hsub.
    { fold (queued (tx c)) (queued t'). intros x Hx. rewrite Hp. by right. }
    eapply (HQ _ (set_rest (Conn (set_tx t' c)) (set_state ESTABLISHED b)) (set_tx t' c)); try done.
    - apply (serving_at p b c); try done; intros _; [by apply established_lively|].
      rewrite Hst. intros Hk. by apply (established_counted (tx c) t' g).
    - split; [apply at_conn_lookup|done]. }
  unfold process_syn_sent. apply wp_bind, (wp_load_conn p b c); [done..|]. rewrite Hsyn.
  pose proof (at_conn_id p b c st Hb Hr) as Hid. rewrite <- Hid at 1.
  apply wp_bind, wp_at; lstep. apply wp_bind, wp_at; lstep. apply wp_bind, wp_at; lstep.
  apply wp_bind, wp_at; lstep. apply wp_bind, wp_at; lstep. apply wp_bind, wp_at; lstep.
  apply wp_bind, wp_at, local_ASSERT; [by apply Z.ltb_lt|]. apply wp_bind, wp_at; lstep.
  apply wp_bind. destruct (unacked (tx c)) as [|rseg q] eqn:Hua.
  - destruct (unsent (tx c)) as [|rseg q] eqn:Hun; [by apply Exists_nil in Hex|].
    apply wp_at. do 4 lstep. lstep. apply (Hgo _ _ rseg).
    + unfold queued. cbn. by rewrite Hua, Hun.
    + cbn. by tvs.
    + by apply (window_ok_edge (tx c)).
  - apply wp_at. do 4 lstep. destruct (is_nil q); lstep; apply (Hgo _ _ rseg).
    1,4: unfold queued; cbn; rewrite Hua; by rewrite <- Permutation_middle.
    1,3: cbn; by tvs.
    all: by apply (window_ok_edge (tx c)).
Qed.

Lemma wp_rst_for s (Q : unit -> tcp E -> Prop) st :
  (forall e, Q tt (set_env e st)) -> wp (rst_for s) Q st.
Proof. intros HQ. by apply wp_effect. Qed.

Lemma serving_env k p st e : serving k p st -> serving k p (set_env e st).
Proof. intros Hs. by apply (serving_same P L k p st). Qed.

(** A quiet step after which the connection is as served as it was. *)
Lemma processed_quiet {A B} s (m : tcpM E A) (x : B) p b c err (Q : B -> tcp E -> Prop) st :
  serving ACTIVE_PCBS p st -> conn_at st p b c -> quietly p m b c (env st) st ->
  tcp_input_pcb st = p -> recv_flags st = 0 -> (err =? ERR_ABRT) = false ->
  (forall st', processed p (err, nothing_received s) st' -> Q x st') -> wp (m ;; mret x) Q st.
Proof.
  intros Hs Hbc Hm Hin Hfl He HQ. apply wp_bind, (wp_serving_quiet P L m ACTIVE_PCBS p b c); [done..|].
  intros a st1 b1 c1 Hs1 _ Hca1 _ Hbc1. apply wp_ret, HQ.
  eapply processed_served; try done; [by rewrite (calm_input _ _ Hca1)|by rewrite (calm_flags _ _ Hca1), Hfl].
Qed.

Lemma wp_process_syn_sent s p b c st :
  serving ACTIVE_PCBS p st -> conn_at st p b c -> state b = SYN_SENT -> tcp_input_pcb st = p -> recv_flags st = 0 ->
  wp (process_syn_sent s p) (fun err st' => processed p (err, nothing_received s) st') st.
Proof.
  intros Hs Hbc Hst Hin Hfl. pose proof Hbc as [Hb Hr].
  destruct (has (in_flags s) TCP_ACK && has (in_flags s) TCP_SYN && (in_ackno s =? u32 (tv (tx c) lastack + 1))) eqn:Hsyn.
  - apply (wp_syn_acked s p b c); try done. intros st1 b1 c1 Hs1 Hbc1 Hsy1 E1 E2. rewrite Hin in E1. rewrite Hfl in E2.
    apply wp_bind. eapply wp_mono; [apply (wp_TCP_EVENT_CONNECTED P L ACTIVE_PCBS p ERR_OK st1); [done|by left]|].
    intros err st2 [Hin2 Hpost]. destruct (err =? ERR_ABRT).
    { apply wp_ret. split; [congruence|]. apply Hpost. }
    destruct Hpost as [Hs2 Hk2]. destruct (kept_conn _ _ _ Hk2 b1 c1 Hbc1) as (b2 & c2 & Hbc2 & _ & Hsy2 & _).
    apply wp_bind, (wp_ack_now p b2 c2); [done..|]. intros st3 b3 c3 Hs3 Hca3 Hq3 Hbc3. apply wp_ret.
    eapply processed_served; try done; [by rewrite (calm_input _ _ Hca3), Hin2|].
    rewrite (calm_flags _ _ Hca3), (kept_other p st1 st2 TF_GOT_FIN), E2; done.
  - unfold process_syn_sent. apply wp_bind, (wp_load_conn p b c); [done..|]. rewrite Hsyn.
    destruct (has (in_flags s) TCP_ACK).
    + apply wp_bind, wp_rst_for. intros e. destruct (serving_block P L _ p st b c Hs Hbc) as (_ & Hqs & _).
      apply (processed_quiet s _ ERR_OK p b c ERR_OK); try done; [by apply serving_env|].
      destruct (_ <? _); [|unfold quietly; lstep; apply quiet_refl].
      apply quietly_bind; [unfold quietly; lstep; quiet_done|]. intros [] b1 c1 e1 Hq1.
      apply tcp_rexmit_rto_quiet; rewrite (quiet_state _ _ _ _ Hq1); [by rewrite Hst|by apply Hq1].
    + apply wp_ret. eapply processed_served; try done. by rewrite Hfl.
Qed.

(** ** The third segment of the handshake *)

Lemma wp_accept_event p b c st :
  serving ACTIVE_PCBS p st -> conn_at st p b c -> tcp_input_pcb st = p -> has (recv_flags st) TF_CLOSED = false ->
  wp (accept_event p) (event_post P L ACTIVE_PCBS p st) st.
Proof.
  intros Hs Hbc Hin Hcl. pose proof Hbc as [Hb Hr]. unfold accept_event. apply wp_bind, (wp_load_conn p b c); [done..|].
  destruct (Z.eqb_spec (listener c) 0) as [Hl0|Hl0].
  { apply wp_ret. split; [done|]. cbn. split; [done|apply kept_refl]. }
  destruct (serving_conn P L _ p st Hs) as (_ & _ & _ & Hp0).
  pose proof Hs as [ls Hi Hp _ _|ls b0 c0 Hi Hz Hk]; [|by rewrite (zb_closed _ _ _ _ _ Hz) in Hcl].
  destruct (inv_refers P L ls ∅ st p b c Hi (nex p) Hb Hr) as [|Hlis]; [done|].
  destruct (inv_listener P L ls ∅ st (listener c) Hi Hlis (nex _)) as (bl & r & Hbl & Hrl & _ & _ & Hfa & _).
  apply wp_bind, (wp_load_listening _ bl r); [done..|]. apply wp_bind, wp_ASSERT; [by destruct (fn_accept r)|].
  apply wp_bind, (wp_serving_work P L _ p b c); [done..|]. intros ls1 [Hi1 HX1 HLX1 Hb1 Hlv1].
  apply (wp_tcp_backlog_accepted P L ls1 ({[p]} ∪ ∅) p b c); [done..|]. intros c1 st1 Hc1 Hre1 Hb2 Hi2 Hca1.
  exists (set_rest (Conn c1) b), c1.
  assert (listener c1 = listener c /\ refused_data c1 = refused_data c /\ fn_recv c1 = fn_recv c) as (El & Erd & Efn)
    by by destruct Hc1 as [->| ->].
  split_and!; try done.
  - split; try done. destruct Hlv1, Hc1 as [->| ->]; by split.
  - cbn. by destruct Hc1 as [->| ->].
  - apply Hca1.
  - by rewrite (calm_flags _ _ Hca1).
  - intros Hs1 Hbc1. assert (kept p st st1) as Hk1.
    { split; [apply Hca1|left; apply Hca1|]. intros b' c' [Hb' Hr']. rewrite Hb in Hb'. injection Hb' as <-.
      rewrite Hr in Hr'. injection Hr' as <-. exists (set_rest (Conn c1) b), c1. split_and!; try done; [by left|congruence..]. }
    destruct (calm_listening _ _ Hca1 _ bl r Hbl Hrl) as (bl1 & r1 & Hbl1 & Hrl1 & Hfa1 & _).
    apply wp_bind, (wp_load p (set_rest (Conn c1) b)); [done|]. unfold TCP_EVENT_ACCEPT.
    apply wp_bind, (wp_load_listening _ bl1 r1); [done..|]. pose proof (calm_input _ _ Hca1) as E1. rewrite Hin in E1.
    assert (forall ev, ev_pcb ev = p -> wp (app_event ev) (event_post P L ACTIVE_PCBS p st) st1) as Happ.
    { intros ev Hev. eapply wp_mono; [apply (app_serves ACTIVE_PCBS p ev st1); [done..|by left]|].
      intros a st2. by apply event_post_after. }
    destruct (fn_accept r1) eqn:Hfr; [congruence|by apply Happ| |by apply Happ].
    unfold tcp_accept_null. apply wp_bind, wp_ASSERT; [by apply negb_true_iff, Z.eqb_neq|].
    apply wp_bind. eapply wp_mono; [by apply (wp_abort_served P L ACTIVE_PCBS p st1)|].
    intros [] st2 [Hg Hca2]. apply wp_ret. split; [by rewrite (calm_input _ _ Hca2), E1|done].
Qed.

(** Data that comes with the third segment. *)
Definition accepted_data (s : tcp_segment_in) (p : Z) : tcpM E (Z * recv_globals) :=
  r ← tcp_receive s p;
  store_tx p (fun t => set_tv cwnd (LWIP_TCP_CALC_INITIAL_CWND (tv t mss)) t) ;;
  fin ← got_fin;
  (if fin : bool then ack_now p ;; store p (set_state CLOSE_WAIT) else mret tt) ;;
  mret (ERR_OK, RecvGlobals (if recv_acked r =? 0 then 0 else recv_acked r - 1) (recv_data r) (inseg_p r)).

Lemma wp_accepted_data s p b c st :
  serving ACTIVE_PCBS p st -> conn_at st p b c -> synchronized (state b) = true -> takes_fin (state b) -> tcp_input_pcb st = p ->
  Z.land (recv_flags st) TF_RESET = 0 -> refused_data c = 0 \/ tcplen s = 0 ->
  wp (accepted_data s p) (processed p) st.
Proof.
  intros Hs Hbc Hsy Htk Hin Hfl Hrf. apply wp_bind, (wp_tcp_receive s p b c); [done..|].
  intros r st1 b1 c1 [Hs1 Hbc1 Hsy1 Hst1 Hrf1 Hin1 Hfl1 Hno].
  assert (takes_fin (state b1)) as Htk1.
  { destruct (Hst1 b (proj1 Hbc)) as [->|[_ ->]]; [done|right; by left]. }
  apply wp_bind, (wp_serving_quiet P L _ ACTIVE_PCBS p b1 c1); [done..|unfold quietly; lstep; quiet_done|].
  intros [] st2 b2 c2 Hs2 Hk2 Hca2 Hq2 Hbc2.
  assert (has (recv_flags st2) TF_RESET = false) as Hres.
  { rewrite (calm_flags _ _ Hca2). unfold has. destruct Hfl1 as [->| ->]; [by rewrite Hfl|].
    by rewrite Z.land_lor_distr_l, Hfl. }
  assert (forall st3, gone_on p c2 st2 st3 ->
    processed p (ERR_OK, RecvGlobals (if recv_acked r =? 0 then 0 else recv_acked r - 1) (recv_data r) (inseg_p r)) st3) as Hend.
  { intros st3 [k b3 c3 H1 H2 H3 H4 H5 H6]. split; [by rewrite H5, (calm_input _ _ Hca2), Hin1|]. cbn [fst].
    exists k, b3, c3. split_and!; try done; [by rewrite H6, Hres|]. cbn. intros Hd. apply H4.
    rewrite (proj1 (q_refused _ _ _ _ Hq2)), Hrf1. destruct Hrf as [|Hlen]; [done|]. by apply Hno in Hlen. }
  assert (synchronized (state (set_rest (Conn c2) b2)) = true) as Hsy2 by (cbn; by rewrite (quiet_state _ _ _ _ Hq2)).
  apply wp_bind, wp_gets, wp_bind. destruct (has (recv_flags st2) TF_GOT_FIN).
  - eapply wp_mono; [apply (wp_ack_and_state p (set_rest (Conn c2) b2) c2); try done|].
    { intros t. apply counted_close_wait. cbn. by rewrite (quiet_state _ _ _ _ Hq2). }
    intros [] st3 Hg. by apply wp_ret, Hend.
  - apply wp_ret, wp_ret, Hend. by apply (gone_refl p (set_rest (Conn c2) b2)).
Qed.

Lemma wp_process_syn_rcvd s p b c st :
  serving ACTIVE_PCBS p st -> conn_at st p b c -> state b = SYN_RCVD -> tcp_input_pcb st = p -> recv_flags st = 0 ->
  refused_data c = 0 \/ tcplen s = 0 ->
  wp (process_syn_rcvd s p) (processed p) st.
Proof.
  intros Hs Hbc Hst Hin Hfl Hrf. pose proof Hbc as [Hb Hr]. unfold process_syn_rcvd.
  apply wp_bind, (wp_load_conn p b c); [done..|].
  destruct (has (in_flags s) TCP_SYN).
  { apply wp_bind. destruct (_ =? _).
    - apply wp_bind, (wp_serving_quiet P L _ ACTIVE_PCBS p b c); [done..|apply tcp_rexmit_quiet; by rewrite Hst|].
      intros a st1 b1 c1 Hs1 _ Hca1 _ Hbc1. apply wp_ret, wp_ret.
      eapply processed_served; try done; [by rewrite (calm_input _ _ Hca1)|by rewrite (calm_flags _ _ Hca1), Hfl].
    - apply wp_ret, wp_ret. eapply processed_served; try done. by rewrite Hfl. }
  destruct (has (in_flags s) TCP_ACK); [|apply wp_ret; eapply processed_served; try done; by rewrite Hfl].
  destruct (TCP_SEQ_BETWEEN _ _ _).
  2: { apply wp_bind, wp_rst_for. intros e. apply wp_ret. eapply processed_served; try done; [by apply serving_env|].
       cbn. by rewrite Hfl. }
  apply wp_bind, (wp_serving_state p b c); try done; [by rewrite Hst|]. intros st1 Hs1 Hbc1 E1 E2. rewrite Hin in E1. rewrite Hfl in E2.
  apply wp_bind. eapply wp_mono; [apply (wp_accept_event p _ c st1 Hs1 Hbc1 E1); by rewrite E2|].
  intros err st2 [Hin2 Hpost]. rewrite E1 in Hin2.
  assert (forall st', tcp_input_pcb st' = p -> good P L st' -> processed p (ERR_ABRT, nothing_received s) st') as Hab by by split.
  destruct (err =? ERR_OK) eqn:Hok; cbn [negb].
  - apply Z.eqb_eq in Hok. subst err. destruct Hpost as [Hs2 Hk2].
    destruct (kept_conn _ _ _ Hk2 _ c Hbc1) as (b2 & c2 & Hbc2 & Hmv2 & Hsy2 & Hrf2 & _).
    apply (wp_accepted_data s p b2 c2); try done; [by apply Hsy2| | |destruct Hrf; auto].
    { unfold takes_fin. destruct Hmv2 as [->|[[_ ->]|[H _]]]; [by left|by right; right|done]. }
    destruct (kept_flags _ _ _ Hk2) as [->|[_ ->]]; by rewrite E2.
  - apply wp_bind. destruct (err =? ERR_ABRT); cbn [negb].
    + apply wp_ret, wp_ret, Hab; [done|]. apply Hpost.
    + destruct Hpost as [Hs2 _]. eapply wp_mono; [by apply (wp_abort_served P L ACTIVE_PCBS p st2)|].
      intros [] st3 [Hg Hca3]. apply wp_ret, Hab; [|done]. by rewrite (calm_input _ _ Hca3).
Qed.

(** ** Any segment *)

Lemma tcp_parseopt_quiet s p b c e st : quietly p (tcp_parseopt s p) b c e st.
Proof.
  unfold quietly, tcp_parseopt. do 2 lstep. destruct (parse_mss s e); lstep; [quiet_done|apply quiet_refl].
Qed.

Lemma wp_tcp_process s p b c st :
  serving ACTIVE_PCBS p st -> conn_at st p b c -> tcp_input_pcb st = p -> recv_flags st = 0 ->
  refused_data c = 0 \/ tcplen s = 0 -> wp (tcp_process s p) (processed p) st.
Proof.
  intros Hs Hbc Hin Hfl Hrf. pose proof Hbc as [Hb Hr]. unfold tcp_process. apply wp_bind, (wp_load p b); [done|].
  destruct (has (in_flags s) TCP_RST).
  { apply wp_bind. eapply wp_mono; [by apply (wp_process_rst s p b c)|]. intros err st1 H1. by apply wp_ret. }
  destruct (_ && _); [apply (processed_quiet s _ _ p b c ERR_OK); try done; unfold quietly, ack_now; lstep; quiet_done|].
  apply wp_bind, (wp_load_conn p b c); [done..|]. apply wp_bind, wp_gets.
  apply wp_bind, (wp_serving_quiet P L _ ACTIVE_PCBS p b c); [done..|unfold quietly; repeat lstep; [apply quiet_refl|quiet_done]|].
  intros _ st1 b1 c1 Hs1 _ Hca1 Hq1 Hbc1.
  apply wp_bind, (wp_serving_quiet P L _ ACTIVE_PCBS p _ c1 _ st1 Hs1 Hbc1); [unfold quietly; lstep; quiet_done|].
  intros _ st2 b2 c2 Hs2 _ Hca2 Hq2 Hbc2.
  apply wp_bind, (wp_serving_quiet P L _ ACTIVE_PCBS p _ c2 _ st2 Hs2 Hbc2); [apply tcp_parseopt_quiet|].
  intros _ st3 b3 c3 Hs3 _ Hca3 Hq3 Hbc3. set (b' := set_rest (Conn c3) b3) in *.
  assert (state b' = state b) as Hst.
  { transitivity (state b2); [exact (quiet_state _ _ _ _ Hq3)|]. transitivity (state b1); [exact (quiet_state _ _ _ _ Hq2)|].
    exact (quiet_state _ _ _ _ Hq1). }
  assert (tcp_input_pcb st3 = p) as Hin3 by by rewrite (calm_input _ _ Hca3), (calm_input _ _ Hca2), (calm_input _ _ Hca1).
  assert (recv_flags st3 = 0) as Hfl3 by by rewrite (calm_flags _ _ Hca3), (calm_flags _ _ Hca2), (calm_flags _ _ Hca1).
  assert (refused_data c3 = 0 \/ tcplen s = 0) as Hrf3.
  { by rewrite (proj1 (q_refused _ _ _ _ Hq3)), (proj1 (q_refused _ _ _ _ Hq2)), (proj1 (q_refused _ _ _ _ Hq1)). }
  clearbody b'. clear Hs Hbc Hb Hr Hs1 Hbc1 Hs2 Hbc2.
  assert (processed p (ERR_OK, nothing_received s) st3) as Hnone by (eapply processed_served; try done; by rewrite Hfl3).
  destruct (state b) eqn:Es; try (by apply wp_ret).
  all: assert (forall R m, R (state b') -> (R ESTABLISHED -> R CLOSE_WAIT) -> synchronized (state b') = true -> ends R p m ->
    wp (receive_then s p m) (processed p) st3) as Hrt by (intros; by apply (wp_receive_then R s p b' c3)).
  all: rewrite Hst in Hrt.
  - apply wp_bind. eapply wp_mono; [by apply (wp_process_syn_sent s p b' c3)|]. intros err st4 H4. by apply wp_ret.
  - by apply (wp_process_syn_rcvd s p b' c3).
  - apply (Hrt takes_fin); [by left|by right; left|done|apply established_close_ends].
  - by apply (Hrt any_state), fin_wait_1_close_ends.
  - by apply (Hrt any_state), fin_wait_2_close_ends.
  - apply (Hrt takes_fin); [by right; left|by right; left|done|apply established_close_ends].
  - by apply (Hrt any_state), closing_close_ends.
  - by apply (Hrt any_state), last_ack_close_ends.
Qed.
End process.
