(* ===== verification/TcpDeliver.v ===== *)
(** * A segment for a connection ([tcp_input], the part for active connections)

    Data and FINs go to the application, a delayed close is made up for, and
    whatever the application did the control blocks are in a good state. *)
From S2P Require Import Prelude ByteOrder Lwip Pbuf ChecksumPbuf TcpPcb TcpOut Tcp TcpIn TcpWp TcpLists TcpInv.
From S2P Require Import TcpSteps TcpPools TcpRemove TcpWork TcpClose TcpAlloc TcpBind TcpApi TcpServe TcpEvents.
From S2P Require Import TcpProcess.

Section deliver.
Context {E : Type} `{!TcpEnv E} `{!TcpApp E} (P L : gset Z) `{!TcpAppLaws E P L} `{!TcpReceiveLaws E}.
Implicit Types (st : tcp E) (ls : pcb_list -> list Z).
Notation Inv := (Inv P L).
Notation serving := (serving P L).
Notation good := (good P L).
#[local] Set Default Proof Using "All".

(** What the rest of the input relies on; [d] is the data that is left to deliver. *)
Definition deliverable (p d : Z) st : Prop :=
  tcp_input_pcb st = p /\ exists k b c, serving k p st /\ conn_at st p b c /\
    (has (recv_flags st) TF_GOT_FIN = true -> synchronized (state b) = true) /\ (d <> 0 -> refused_data c = 0).

(** After a step that can end in an abort. *)
Definition or_aborted (p d : Z) (aborted : bool) st : Prop := if aborted then good st else deliverable p d st.

Lemma deliverable_kept k p d b c st st' :
  serving k p st' -> kept p st st' -> conn_at st p b c -> tcp_input_pcb st = p ->
  (has (recv_flags st) TF_GOT_FIN = true -> synchronized (state b) = true) -> (d <> 0 -> refused_data c = 0) ->
  deliverable p d st'.
Proof.
  intros Hs Hk Hbc Hin Hf Hd. split; [by rewrite (kept_input _ _ _ Hk)|].
  destruct (kept_conn _ _ _ Hk b c Hbc) as (b' & c' & Hbc' & _ & H1 & H2 & _). exists k, b', c'.
  split; [done|]. split; [done|]. split; [|by intros ?%Hd%H2].
  rewrite (kept_other p st st' TF_GOT_FIN) by done. by intros ?%Hf%H1.
Qed.

(** An event, and whether the application aborted. *)
Lemma wp_event k p d b c m st :
  serving k p st -> conn_at st p b c -> tcp_input_pcb st = p ->
  (has (recv_flags st) TF_GOT_FIN = true -> synchronized (state b) = true) -> (d <> 0 -> refused_data c = 0) ->
  wp m (event_post P L k p st) st ->
  wp (err ← m; mret (err =? ERR_ABRT)) (or_aborted p d) st.
Proof.
  intros Hs Hbc Hin Hf Hd Hm. apply wp_bind. eapply wp_mono; [exact Hm|]. intros err st' [Hin' Hpost]. apply wp_ret.
  unfold or_aborted. destruct (err =? ERR_ABRT); [apply Hpost|]. destruct Hpost as [Hs' Hk'].
  by apply (deliverable_kept k p d b c st st').
Qed.

(** ** A close that was put off *)

Lemma wp_delayed_close k p v st (Q : bool -> tcp E -> Prop) :
  serving k p st -> (forall st', good st' -> Q true st') ->
  (has (recv_flags st) TF_CLOSED = false -> Q false (set_tcp_input_pcb v st)) ->
  wp (tcp_input_delayed_close p) Q (set_tcp_input_pcb v st).
Proof.
  intros Hs Hyes Hno. destruct (serving_conn P L k p st Hs) as (b & c & [Hb Hr] & Hp0).
  unfold tcp_input_delayed_close. apply wp_bind, wp_gets.
  change (recv_flags (set_tcp_input_pcb v st)) with (recv_flags st).
  destruct (has (recv_flags st) TF_CLOSED) eqn:Hcl; [|by apply wp_ret, Hno].
  assert (k = ACTIVE_PCBS) as ->.
  { destruct Hs as [ls Hi Hp [->| ->] Hk|]; [done|by rewrite Hk in Hcl|done]. }
  apply wp_bind, (wp_load p b); [done|]. apply wp_bind, (wp_load_conn p b c); [done..|]. apply wp_bind.
  assert (forall e, wp (tcp_pcb_remove ACTIVE_PCBS p ;; tcp_free p ;; mret true) Q (set_env e (set_tcp_input_pcb v st))) as Hgo.
  { intros e. change (set_env e (set_tcp_input_pcb v st)) with (set_tcp_input_pcb v (set_env e st)).
    assert (wp (tcp_pcb_remove ACTIVE_PCBS p ;; tcp_free p) (fun _ => wp (mret true) Q) (set_tcp_input_pcb v (set_env e st)))
      as ([] & st' & Hm & HQ).
    { apply (wp_remove_served P L p v (set_env e st)); [by apply serving_env|]. intros st' Hg. by apply wp_ret, Hyes. }
    destruct HQ as (a & st2 & Ha & HQ). exists a, st2. split; [|done]. revert Hm. unfold mbind, tcpM_bind.
    destruct (tcp_pcb_remove _ _ _) as [[[] st1]| | |]; try done. intros ->. exact Ha. }
  assert (set_env (env st) (set_tcp_input_pcb v st) = set_tcp_input_pcb v st) as Hid by by destruct st.
  destruct (tcp_is_flag_set c TF_RXCLOSED); [apply wp_ret; rewrite <- Hid; apply Hgo|].
  unfold TCP_EVENT_ERR. destruct (fn_errf c); [apply wp_ret; rewrite <- Hid|apply wp_effect..]; apply Hgo.
Qed.

(** ** Data *)

Lemma wp_deliver_data k p b c d st :
  serving k p st -> conn_at st p b c -> tcp_input_pcb st = p ->
  (has (recv_flags st) TF_GOT_FIN = true -> synchronized (state b) = true) -> (d <> 0 -> refused_data c = 0) ->
  wp (deliver_data p d) (or_aborted p 0) st.
Proof.
  intros Hs Hbc Hin Hf Hd. pose proof Hbc as [Hb Hr]. unfold deliver_data.
  destruct (Z.eqb_spec d 0) as [->|Hd0]; [apply wp_ret; split; [done|]; by exists k, b, c|].
  apply wp_bind, (wp_load_conn p b c); [done..|]. apply wp_bind, wp_ASSERT; [by apply Z.eqb_eq, Hd|].
  destruct (tcp_is_flag_set c TF_RXCLOSED).
  { apply wp_bind, wp_effect, wp_bind. eapply wp_mono; [by apply (wp_abort_served P L k p), serving_env|].
    intros [] st1 [Hg _]. by apply wp_ret. }
  apply wp_bind. eapply wp_mono; [apply (wp_TCP_EVENT_RECV P L k p b c d); [done..|by left|done]|].
  intros err st1 (Hnull & Hin1 & Hpost). destruct (err =? ERR_ABRT) eqn:Hab; [apply wp_ret, Hpost|].
  destruct Hpost as [Hs1 Hk1]. pose proof (deliverable_kept k p 0 b c st st1 Hs1 Hk1 Hbc Hin Hf ltac:(done)) as Hdel.
  apply wp_bind. destruct (Z.eqb_spec err ERR_OK) as [|Herr]; [by apply wp_ret, wp_ret|].
  destruct (kept_conn _ _ _ Hk1 b c Hbc) as (b1 & c1 & Hbc1 & _ & Hsy1 & _ & Hfn1).
  apply (wp_serving_refused P L k p b1 c1 d); [done..|intros E0; exfalso; by apply Hfn1 in E0; [|intros ?%Hnull]|].
  intros st2 Hs2 Hbc2 Hca2. apply wp_ret. split; [by rewrite (calm_input _ _ Hca2), Hin1|].
  eexists k, _, _. split; [done|]. split; [done|]. split; [|done].
  rewrite (calm_flags _ _ Hca2), (kept_other p st st1 TF_GOT_FIN) by done. by intros ?%Hf%Hsy1.
Qed.

Lemma wp_deliver_fin k p b c st :
  serving k p st -> conn_at st p b c -> tcp_input_pcb st = p ->
  (has (recv_flags st) TF_GOT_FIN = true -> synchronized (state b) = true) ->
  wp (deliver_fin p) (or_aborted p 0) st.
Proof.
  intros Hs Hbc Hin Hf. pose proof Hbc as [Hb Hr]. unfold deliver_fin. apply wp_bind, wp_gets.
  destruct (has (recv_flags st) TF_GOT_FIN) eqn:Hfin.
  2: { apply wp_ret. split; [done|]. exists k, b, c. by rewrite Hfin. }
  apply wp_bind, (wp_load_conn p b c); [done..|]. destruct (refused_data c =? 0).
  - apply (wp_event k p 0 b c); try done; [by rewrite Hfin|].
    apply (wp_fin_received P L k p b c); [done..|by left|]. intros _. split; [done|by apply Hf].
  - apply wp_bind, wp_effect, wp_ret. split; [done|]. exists k, b, c. split_and!; try done; [by apply serving_env|]. by intros _; apply Hf.
Qed.

(** ** After [tcp_process] *)

Lemma same_input p st : tcp_input_pcb st = p -> set_tcp_input_pcb p st = st.
Proof. intros <-. by destruct st. Qed.

Lemma wp_input_close p st :
  deliverable p 0 st ->
  wp (modify (set_tcp_input_pcb 0) ;;
      closed ← tcp_input_delayed_close p;
      if closed : bool then mret tt else tcp_output p ;; mret tt) (fun _ st' => good st') st.
Proof.
  intros (Hin & k & b & c & Hs & Hbc & _ & _). apply wp_bind, wp_modify, wp_bind.
  apply (wp_delayed_close k p 0 st); [done|by intros st' Hg; apply wp_ret|]. intros Hcl.
  destruct Hs as [ls Hi Hp Hk _|ls b0 c0 Hi Hz Hk]; [|by rewrite (zb_closed _ _ _ _ _ Hz) in Hcl].
  destruct Hbc as [Hb Hr]. destruct (inv_conn P L ls st p b c Hi Hb Hr) as (Hs & Hq & _).
  apply wp_bind, (wp_quiet P L _ ls ∅ p b c); [by apply (Inv_same P L ls ∅ st)|done|done|by apply tcp_output_quiet|].
  intros a b' c' st' _ _ Hi' _. apply wp_ret. by exists ls.
Qed.

(** The steps that can end in an abort, in their order. *)
Lemma wp_unless {p d m} {next : tcpM E unit} st :
  wp m (or_aborted p d) st -> (forall st', deliverable p d st' -> wp next (fun _ st' => good st') st') ->
  wp (aborted ← m; if aborted : bool then mret tt else next) (fun _ st' => good st') st.
Proof.
  intros Hm Hn. apply wp_bind. eapply wp_mono; [exact Hm|]. intros [] st' H; [by apply wp_ret|by apply Hn].
Qed.

Lemma wp_input_tail p acked d st : deliverable p d st -> wp (input_tail p acked d) (fun _ st' => good st') st.
Proof.
  intros (Hin & k & b & c & Hs & Hbc & Hf & Hd). unfold input_tail. apply (wp_unless (p := p) (d := d)).
  { destruct (0 <? acked).
    - apply (wp_event k p d b c); try done. apply (wp_TCP_EVENT_SENT P L k p); [done|by left].
    - apply wp_ret. split; [done|]. by exists k, b, c. }
  clear k b c Hs Hbc Hf Hd Hin. intros st1 (Hin & k & b & c & Hs & Hbc & Hf & Hd).
  apply wp_bind. rewrite <- (same_input p st1) by done.
  apply (wp_delayed_close k p p st1); [done|by intros st' Hg; apply wp_ret|]. intros _. rewrite same_input by done.
  apply (wp_unless (p := p) (d := 0)); [by apply (wp_deliver_data k p b c)|].
  clear k b c Hs Hbc Hf Hd Hin. intros st2 (Hin & k & b & c & Hs & Hbc & Hf & _).
  apply (wp_unless (p := p) (d := 0)); [by apply (wp_deliver_fin k p b c)|].
  intros st3 H3. by apply wp_input_close.
Qed.

Lemma wp_input_process s p b c st :
  serving ACTIVE_PCBS p st -> conn_at st p b c -> tcp_input_pcb st = 0 -> recv_flags st = 0 ->
  refused_data c = 0 \/ tcplen s = 0 -> wp (input_process s p) (fun _ st' => good st') st.
Proof.
  intros Hs Hbc Hin Hfl Hrf. unfold input_process. apply wp_bind, wp_modify, wp_bind.
  assert (serving ACTIVE_PCBS p (set_tcp_input_pcb p st)) as Hs1.
  { destruct Hs as [ls Hi Hp Hk _|ls b0 c0 Hi Hz Hk].
    - apply (serving_listed P L _ p _ ls); try done. by apply (Inv_same P L ls ∅ st).
    - pose proof (zb_closed _ _ _ _ _ Hz) as H. by rewrite Hfl in H. }
  eapply wp_mono; [by apply (wp_tcp_process P L s p b c)|]. intros [err r] st2 [Hin2 Hpost]. cbn in Hpost.
  apply wp_bind. destruct (err =? ERR_ABRT); [by apply wp_ret, wp_ret|].
  destruct Hpost as (k & b2 & c2 & Hs2 & Hbc2 & Hr & Hf & Hd). apply wp_bind, wp_gets.
  destruct (has (recv_flags st2) TF_RESET).
  - rewrite (Hr eq_refl) in Hs2. pose proof Hbc2 as [Hb2 Hr2].
    apply wp_bind, (wp_load p b2); [done|]. apply wp_bind, (wp_load_conn p b2 c2); [done..|].
    assert (forall st', serving ACTIVE_PCBS p st' ->
      wp (tcp_pcb_remove ACTIVE_PCBS p ;; tcp_free p) (fun _ => wp (mret (inseg_p r)) (fun _ st' => good st')) st') as Hgo.
    { intros st' Hs'. rewrite <- (same_input (tcp_input_pcb st') st') by done.
      apply (wp_remove_served P L p _ st'); [done|]. intros st3 Hg. by apply wp_ret. }
    apply wp_bind. unfold TCP_EVENT_ERR. destruct (fn_errf c2); [by apply wp_ret, Hgo|..].
    all: by apply wp_effect, Hgo, serving_env.
  - eapply wp_mono; [apply (wp_input_tail p (recv_acked r) (recv_data r)); split; [done|]; by exists k, b2, c2|].
    intros [] st3 Hg. by apply wp_ret.
Qed.

(** ** Data that was refused *)

(** While no segment is processed the application cannot abort. *)
Lemma event_post_outside k p st err st' :
  event_post P L k p st err st' -> p <> 0 -> tcp_input_pcb st = 0 -> recv_flags st = 0 ->
  (err =? ERR_ABRT) = false /\ serving k p st' /\ kept p st st' /\ tcp_input_pcb st' = 0 /\ recv_flags st' = 0.
Proof.
  intros [Hin Hpost] Hp0 Hin0 Hfl. destruct (err =? ERR_ABRT); [destruct Hpost as [_ H]; congruence|].
  destruct Hpost as [Hs Hk]. split_and!; try done; [congruence|]. destruct (kept_flags _ _ _ Hk) as [->|[H _]]; [done|congruence].
Qed.

Lemma wp_process_refused p b c st :
  serving ACTIVE_PCBS p st -> conn_at st p b c -> p <> 0 -> tcp_input_pcb st = 0 -> recv_flags st = 0 ->
  refused_data c <> 0 -> fn_recv c <> FN_recv_null ->
  wp (tcp_process_refused_data p) (fun err st' =>
    (err =? ERR_ABRT) = false /\ serving ACTIVE_PCBS p st' /\ tcp_input_pcb st' = 0 /\ recv_flags st' = 0) st.
Proof.
  intros Hs Hbc Hp0 Hin Hfl Hrf Hfn. pose proof Hbc as [Hb Hr]. unfold tcp_process_refused_data.
  destruct (Z.eqb_spec p 0); [done|]. apply wp_bind, (wp_load_conn p b c); [done..|]. cbv zeta.
  apply wp_bind, wp_ask. generalize (pbuf_flag_fin (refused_data c) (env st)); intros fin.
  apply wp_bind, (wp_serving_refused P L ACTIVE_PCBS p b c 0); [done..|]. intros st1 Hs1 Hbc1 Hca1.
  pose proof (calm_input _ _ Hca1) as Hin1. pose proof (calm_flags _ _ Hca1) as Hfl1. rewrite Hin in Hin1. rewrite Hfl in Hfl1.
  apply wp_bind. eapply wp_mono; [apply (wp_TCP_EVENT_RECV P L ACTIVE_PCBS p _ _ (refused_data c) st1 Hs1 Hbc1); [by right|done]|].
  intros err st2 [_ Hpost]. apply event_post_outside in Hpost as (Hab & Hs2 & Hk2 & Hin2 & Hfl2); [|done..].
  destruct (kept_conn _ _ _ Hk2 _ _ Hbc1) as (b2 & c2 & Hbc2 & _ & _ & _ & Hfn2). specialize (Hfn2 Hfn).
  destruct (err =? ERR_OK).
  - destruct fin; [|by apply wp_ret]. apply wp_bind.
    eapply wp_mono; [apply (wp_fin_received P L ACTIVE_PCBS p b2 c2 st2); [done|done|by right|done]|].
    intros err3 st3 Hpost. apply event_post_outside in Hpost as (Hab3 & Hs3 & _ & Hin3 & Hfl3); [|done..].
    apply wp_ret. by rewrite Hab3.
  - rewrite Hab. apply wp_bind, (wp_serving_refused P L ACTIVE_PCBS p b2 c2 (refused_data c)); [done..|].
    intros st3 Hs3 _ Hca3. apply wp_ret.
    split_and!; [done|done|by rewrite (calm_input _ _ Hca3)|by rewrite (calm_flags _ _ Hca3)].
Qed.

(** Either the segment is dropped, or nothing is kept, or it has no data. *)
Lemma wp_input_refused s p b c st :
  serving ACTIVE_PCBS p st -> conn_at st p b c -> p <> 0 -> tcp_input_pcb st = 0 -> recv_flags st = 0 ->
  wp (input_refused s p) (fun dropped st' =>
    serving ACTIVE_PCBS p st' /\ tcp_input_pcb st' = 0 /\ recv_flags st' = 0 /\
    (dropped = false -> exists b' c', conn_at st' p b' c' /\ (refused_data c' = 0 \/ ~ 0 < tcplen s))) st.
Proof.
  intros Hs Hbc Hp0 Hin Hfl. pose proof Hbc as [Hb Hr]. unfold input_refused. apply wp_bind, (wp_load_conn p b c); [done..|].
  destruct (Z.eqb_spec (refused_data c) 0) as [H0|H0].
  { apply wp_ret. split_and!; try done. intros _. exists b, c. auto. }
  destruct (serving_block P L _ p st b c Hs Hbc) as (_ & _ & _ & Hrf & _).
  apply wp_bind. eapply wp_mono; [apply (wp_process_refused p b c); try done; by intros ?%Hrf|].
  intros err st1 (Hab & Hs1 & Hin1 & Hfl1). destruct (serving_conn P L _ p st1 Hs1) as (b1 & c1 & Hbc1 & _).
  pose proof Hbc1 as [Hb1 Hr1]. apply wp_bind, (wp_load_conn p b1 c1); [done..|]. rewrite Hab. cbn [orb].
  destruct (negb (refused_data c1 =? 0) && (0 <? tcplen s)) eqn:Hdrop.
  - apply wp_bind. destruct (tv (tx c1) rcv_ann_wnd =? 0); [|by apply wp_ret, wp_ret].
    apply wp_bind, (wp_serving_quiet P L _ ACTIVE_PCBS p b1 c1); [done..|apply tcp_send_empty_ack_quiet|].
    intros a st2 b2 c2 Hs2 _ Hca2 _ _. apply wp_ret, wp_ret.
    split_and!; [done|by rewrite (calm_input _ _ Hca2)|by rewrite (calm_flags _ _ Hca2)|done].
  - apply wp_ret. split_and!; try done. intros _. exists b1, c1. split; [done|].
    apply andb_false_iff in Hdrop as [H|H]; [left; by apply negb_false_iff, Z.eqb_eq in H|right; by apply Z.ltb_ge in H; lia].
Qed.

Lemma serving_good k p st : serving k p st -> has (recv_flags st) TF_CLOSED = false -> good st.
Proof.
  intros [ls Hi _ _ _|ls b c Hi Hz _] Hcl; [by exists ls|by rewrite (zb_closed _ _ _ _ _ Hz) in Hcl].
Qed.

(** A segment for the active connection [p]. *)
Lemma wp_input_connection s p ls st :
  Inv ls ∅ st -> p ∈ ls ACTIVE_PCBS -> tcp_input_pcb st = 0 -> 0 <= in_tot_len s ->
  wp (input_connection s p) (fun _ st' => good st' /\ tcp_input_pcb st' = 0) st.
Proof.
  intros Hi Hp Hin Hlen. unfold input_connection. apply wp_bind, wp_modify. set (st1 := set_recv_flags 0 st).
  assert (serving ACTIVE_PCBS p st1) as Hs1.
  { apply (serving_listed P L _ p _ ls); try done; [by apply (Inv_same P L ls ∅ st)|by left]. }
  destruct (serving_conn P L _ p st1 Hs1) as (b & c & Hbc & Hp0).
  apply wp_bind. eapply wp_mono; [by apply (wp_input_refused s p b c)|].
  intros dropped st2 (Hs2 & Hin2 & Hfl2 & Hnext). apply wp_bind.
  assert (forall a st3, good st3 ->
    wp (modify (set_tcp_input_pcb 0) ;; if a =? 0 then mret tt else effect (pbuf_free a))
      (fun _ st' => good st' /\ tcp_input_pcb st' = 0) st3) as Hend.
  { intros a st3 [ls3 Hi3]. apply wp_bind, wp_modify. destruct (a =? 0).
    - apply wp_ret. split; [|done]. exists ls3. by apply (Inv_same P L ls3 ∅ st3).
    - apply wp_effect. split; [|done]. exists ls3. by apply (Inv_same P L ls3 ∅ st3). }
  destruct dropped.
  - apply wp_ret, Hend. apply (serving_good ACTIVE_PCBS p); [done|by rewrite Hfl2].
  - destruct (Hnext eq_refl) as (b' & c' & Hbc' & Hrf). eapply wp_mono; [apply (wp_input_process s p b' c'); try done|].
    + destruct Hrf as [|Hl]; [by left|right]. assert (0 <= tcplen s); [|lia].
      unfold tcplen. destruct (has _ _); [|done]. unfold u16. apply Z.mod_pos_bound. lia.
    + intros a st3 Hg. by apply Hend.
Qed.
End deliver.
