(* ===== verification/TcpDemux.v ===== *)
(** * Finding the block a segment is for ([tcp_input], the searches)

    Each search goes through one list and ends with its first block that matches,
    which it moves to the front, or with none when there is none. *)
From S2P Require Import Prelude ByteOrder Lwip Pbuf ChecksumPbuf TcpPcb TcpOut Tcp TcpIn TcpWp TcpLists TcpInv TcpSteps.

(** ** Chains in another order *)

Lemma chain_skip h zs prev p tl hd bprev bp :
  NoDup (zs ++ prev :: p :: tl) -> h !! prev = Some bprev -> h !! p = Some bp ->
  chain h (zs ++ prev :: p :: tl) hd -> chain (<[prev := set_next (next bp) bprev]> h) (zs ++ prev :: tl) hd.
Proof.
  intros Hn Hprev Hp. revert hd. induction zs as [|z zs IH]; intros hd; cbn in *.
  - intros (-> & H0 & b & Hb & _ & H1 & b' & Hb' & Hc). rewrite Hp in Hb'. injection Hb' as <-.
    split_and!; [done..|]. exists (set_next (next bp) bprev). rewrite lookup_insert_eq. split; [done|].
    apply chain_insert; [|done]. apply NoDup_cons in Hn as [Hn _]. set_solver.
  - intros (-> & H0 & b & Hb & Hc). apply NoDup_cons in Hn as [Hz Hn]. split_and!; [done..|]. exists b.
    rewrite lookup_insert_ne by set_solver. split; [done|]. by apply IH.
Qed.

Section demux.
Context {E : Type} `{!TcpEnv E} (P L : gset Z).
Implicit Types (st : tcp E) (ls : pcb_list -> list Z).
Notation Inv := (Inv P L).

(** The lists in another order. *)
Lemma Inv_relist ls ls' X st st' :
  (forall l, ls' l ≡ₚ ls l) -> (forall l, chain (pcbs st') (ls' l) (heads st' l)) -> relinked (pcbs st) (pcbs st') ->
  pcb_free st' = pcb_free st -> lpcb_free st' = lpcb_free st -> tcp_port st' = tcp_port st ->
  Inv ls X st -> Inv ls' X st'.
Proof.
  intros Hperm Hch Hr E1 E2 E3 [[Hc Hn Hd] Hco Hp Hq Hs Ht].
  assert (forall l p, p ∈ ls' l <-> p ∈ ls l) as Hin by (intros l p; by rewrite (Hperm l)).
  assert (forall a w, placed ls' a w -> placed ls a w) as Hpl.
  { intros a [l|]; cbn; [by rewrite Hin|]. intros H l. by rewrite <- Hin. }
  split; rewrite ?E1, ?E2, ?E3; try done.
  - split; [done|intros l; by rewrite (Hperm l)|]. intros l l' p. rewrite !Hin. apply Hd.
  - apply (content_ok_relinked ls' X (pcbs st)); [done|]. destruct Hco as [H1 H2 H3]. split.
    + intros w p b Hw. by apply H1, Hpl.
    + intros p b c Hb Hc' HX. destruct (H2 p b c Hb Hc' HX) as [H|H]; [by left|right]. by rewrite Hin.
    + intros l b r. rewrite Hin. apply H3.
  - by apply (pool_ok_relinked _ _ _ (pcbs st)).
  - by apply (pool_ok_relinked _ _ _ (pcbs st)).
Qed.

Lemma calm_relinked st st' :
  relinked (pcbs st) (pcbs st') -> tcp_input_pcb st' = tcp_input_pcb st -> recv_flags st' = recv_flags st -> calm st st'.
Proof.
  intros Hr E1 E2. split; [done..|]. intros l b r Hb Hl. destruct (relinked_lookup _ _ _ _ Hr Hb) as [n Hn].
  by exists (set_next n b), r.
Qed.

(** The block [p] in front, the others in their order. *)
Definition to_front (l : pcb_list) (p : Z) (xs : list Z) ls : pcb_list -> list Z := <[l := p :: xs]> ls.

Lemma to_front_perm l p zs tl ls l' : ls l = zs ++ p :: tl -> to_front l p (zs ++ tl) ls l' ≡ₚ ls l'.
Proof.
  intros Hl. unfold to_front. destruct (decide (l = l')) as [<-|Hne].
  - rewrite fn_lookup_insert, Hl. apply Permutation_middle.
  - by rewrite fn_lookup_insert_ne.
Qed.

Lemma wp_move_to_front ls l zs p tl (Q : unit -> tcp E -> Prop) st :
  Inv ls ∅ st -> ls l = zs ++ p :: tl ->
  (forall st', Inv (to_front l p (zs ++ tl) ls) ∅ st' -> calm st st' -> relinked (pcbs st) (pcbs st') -> env st' = env st ->
     Q tt st') ->
  wp (move_to_front l (default 0 (last zs)) p) Q st.
Proof.
  intros Hi Hl HQ. pose proof (inv_lists _ _ _ _ _ Hi) as [Hc Hn Hd]. unfold move_to_front.
  destruct zs as [|z0 zs0 _] using rev_ind.
  { cbn. apply wp_ret, HQ; try done. apply (Inv_relist ls _ ∅ st st); try done; [intros l'; by apply to_front_perm|].
    intros l'. unfold to_front. destruct (decide (l = l')) as [<-|Hne];
      [rewrite fn_lookup_insert; change (p :: [] ++ tl) with ([] ++ p :: tl); rewrite <- Hl|rewrite fn_lookup_insert_ne by done]; apply Hc. }
  rewrite last_snoc. cbn [default from_option id]. rewrite <- app_assoc in Hl. cbn in Hl.
  pose proof (Hc l) as Hcl. pose proof (Hn l) as Hnl. rewrite Hl in Hcl, Hnl.
  destruct (chain_after _ _ _ _ _ Hcl) as (bz & Hbz & Hz0 & _ & Hp0 & bp & Hbp & _).
  assert (z0 <> p) as Hzp.
  { apply NoDup_app in Hnl as (_ & _ & Hnl). apply NoDup_cons in Hnl as [Hnl _]. set_solver. }
  destruct (Z.eqb_spec z0 0); [done|]. apply wp_bind, (wp_load p bp); [done|]. apply wp_bind, (wp_store z0 _ bz); [done|].
  apply wp_bind, wp_gets, wp_bind, (wp_store p _ bp); [cbn; by rewrite lookup_insert_ne|]. apply wp_modify.
  cbn [heads set_pcbs]. set (h1 := <[z0 := set_next (next bp) bz]> (pcbs st)).
  match goal with |- Q tt ?s => set (st' := s) end.
  assert (h1 !! p = Some bp) as Hbp1 by (unfold h1; by rewrite lookup_insert_ne).
  assert (relinked (pcbs st) (pcbs st')) as Hr.
  { transitivity h1; by apply relinked_insert. }
  apply HQ; [|by apply calm_relinked|done|done].
  apply (Inv_relist ls _ ∅ st st'); try done; [intros l'; apply to_front_perm; by rewrite <- app_assoc|].
  intros l'. unfold to_front. cbn [heads set_head st' set_pcbs pcbs]. destruct (decide (l = l')) as [<-|Hne].
  - rewrite !fn_lookup_insert. cbn. split_and!; [done..|]. eexists. rewrite lookup_insert_eq. split; [done|]. cbn.
    rewrite <- app_assoc. cbn. apply chain_insert; [|by apply (chain_skip _ _ _ p _ _ bz bp)].
    apply NoDup_app in Hnl as (_ & H1 & H2). apply NoDup_cons in H2 as [H2 H3]. apply NoDup_cons in H3 as [H3 _]. set_solver.
  - rewrite !fn_lookup_insert_ne by done. apply (chain_same_next (pcbs st)); [|done]. intros a Ha.
    assert (a <> z0 /\ a <> p) as [Haz Hap].
    { split; intros ->; [apply Hne, (Hd l l' z0)|apply Hne, (Hd l l' p)]; try done; rewrite Hl; set_solver. }
    unfold h1. by rewrite !lookup_insert_ne by congruence.
Qed.

(** ** The searches *)

(** The block is bound to no interface but the segment's. *)
Definition right_netif (s : tcp_segment_in) (e : E) (b : tcp_pcb) : bool :=
  negb (negb (netif_idx (ip b) =? NETIF_NO_INDEX) && negb (netif_idx (ip b) =? netif_get_index (in_netif s) e)).

(** The segment is for this connection. *)
Definition for_connection (s : tcp_segment_in) (e : E) (b : tcp_pcb) : bool :=
  match rest b with Conn c => right_netif s e b && pcb_matches s b c | Listening _ => false end.
Definition for_listener (s : tcp_segment_in) (e : E) (b : tcp_pcb) : bool := right_netif s e b && listener_matches s b.

Lemma right_netif_next s e n b : right_netif s e (set_next n b) = right_netif s e b.
Proof. done. Qed.

(** None of the blocks passes the test, and the first of a list that does. *)
Definition none_for (test : tcp_pcb -> bool) (xs : list Z) st : Prop :=
  forall a b, a ∈ xs -> pcbs st !! a = Some b -> test b = false.
Definition first_for (test : tcp_pcb -> bool) (xs : list Z) (p : Z) st : Prop :=
  exists zs tl b, xs = zs ++ p :: tl /\ pcbs st !! p = Some b /\ test b = true /\ none_for test zs st.

Lemma none_for_nil test st : none_for test [] st.
Proof. intros a b Ha. by apply not_elem_of_nil in Ha. Qed.
Lemma none_for_snoc test zs p b st :
  none_for test zs st -> pcbs st !! p = Some b -> test b = false -> none_for test (zs ++ [p]) st.
Proof.
  intros Hz Hb Ht a b' [Ha|Ha]%elem_of_app; [by apply Hz|]. apply list_elem_of_singleton in Ha as ->. congruence.
Qed.

(** A search that moves what it finds to the front. *)
Definition found_first (test : tcp_pcb -> bool) l ls st (p : Z) st' : Prop :=
  exists zs tl b, ls l = zs ++ p :: tl /\ pcbs st !! p = Some b /\ test b = true /\ none_for test zs st /\ p <> 0 /\
    Inv (to_front l p (zs ++ tl) ls) ∅ st' /\ calm st st' /\ relinked (pcbs st) (pcbs st') /\ env st' = env st.

Lemma not_itself_ok p xs h b st (Q : unit -> tcp E -> Prop) :
  NoDup (p :: xs) -> chain (pcbs st) (p :: xs) h -> pcbs st !! p = Some b -> Q tt st -> wp (not_itself p) Q st.
Proof.
  intros Hn (_ & Hp0 & b' & Hb' & Hc) Hb HQ. rewrite Hb in Hb'. injection Hb' as <-.
  unfold not_itself. apply wp_bind, (wp_load p b); [done|]. apply wp_ASSERT; [|done]. apply negb_true_iff, Z.eqb_neq.
  intros E0. rewrite E0 in Hc. destruct xs as [|x xs]; [done|]. destruct Hc as [-> _]. apply NoDup_cons in Hn as [Hn _]. set_solver.
Qed.

Lemma find_active_spec s ls fuel zs ys q (Q : Z -> tcp E -> Prop) st :
  (length ys < fuel)%nat -> Inv ls ∅ st -> ls ACTIVE_PCBS = zs ++ ys -> chain (pcbs st) ys q ->
  none_for (for_connection s (env st)) zs st ->
  (none_for (for_connection s (env st)) (ls ACTIVE_PCBS) st -> Q 0 st) ->
  (forall p st', found_first (for_connection s (env st)) ACTIVE_PCBS ls st p st' -> Q p st') ->
  wp (find_active fuel s q (default 0 (last zs))) Q st.
Proof.
  revert zs ys q. induction fuel as [|fuel IH]; intros zs ys q Hf Hi Hl Hc Hz HQ0 HQ; [lia|]. cbn [find_active].
  destruct ys as [|p ys].
  { cbn in Hc. subst q. apply wp_ret, HQ0. by rewrite Hl, app_nil_r. }
  pose proof Hc as (-> & Hp0 & b & Hb & Hc'). destruct (Z.eqb_spec p 0); [done|]. apply wp_bind, (wp_load p b); [done|].
  assert (p ∈ ls ACTIVE_PCBS) as Hp by (rewrite Hl; set_solver).
  pose proof (inv_placed _ _ _ _ _ _ (Some ACTIVE_PCBS) b Hi Hp Hb (not_elem_of_empty p)) as (Ha & Hco & _).
  unfold conn_ok in Hco. destruct (rest b) as [c|] eqn:Hr; [|done]. clear Hco.
  apply wp_bind, wp_ASSERT; [by destruct (state b)|]. apply wp_bind, wp_ASSERT; [by destruct (state b)|].
  apply wp_bind, wp_ASSERT; [by destruct (state b)|]. apply wp_bind, (wp_load_conn p b c); [done..|].
  apply wp_bind, wp_bind, wp_ask, wp_ret.
  assert (for_connection s (env st) b =
    negb (negb (netif_idx (ip b) =? NETIF_NO_INDEX) && negb (netif_idx (ip b) =? netif_get_index (in_netif s) (env st)))
      && pcb_matches s b c) as Hfor by (unfold for_connection; by rewrite Hr).
  rewrite <- Hfor. destruct (for_connection s (env st) b) eqn:Ht.
  - pose proof (lists_nodup _ _ (inv_lists _ _ _ _ _ Hi) ACTIVE_PCBS) as Hn. rewrite Hl in Hn.
    apply NoDup_app in Hn as (_ & _ & Hn). apply wp_bind, (not_itself_ok p ys p b); [done..|].
    apply wp_bind, (wp_move_to_front ls ACTIVE_PCBS zs p ys); [done..|]. intros st' Hi' Hca Hr' He.
    destruct (relinked_lookup _ _ _ _ Hr' Hb) as [nx Hb'].
    pose proof (inv_lists _ _ _ _ _ Hi') as [Hc2 Hn2 _]. specialize (Hc2 ACTIVE_PCBS). specialize (Hn2 ACTIVE_PCBS).
    unfold to_front in Hc2, Hn2. rewrite fn_lookup_insert in Hc2, Hn2.
    apply wp_bind, (not_itself_ok p (zs ++ ys) (heads st' ACTIVE_PCBS) (set_next nx b)); [done..|].
    apply wp_ret, HQ. exists zs, ys, b. by split_and!.
  - pose proof (IH (zs ++ [p]) ys (next b)) as IH'. rewrite last_snoc in IH'.
    apply IH'; try done; [cbn in Hf; lia|by rewrite <- app_assoc|by apply (none_for_snoc _ zs p b)].
Qed.

Lemma find_listener_spec s ls fuel zs ys q (Q : Z -> tcp E -> Prop) st :
  (length ys < fuel)%nat -> Inv ls ∅ st -> ls LISTEN_PCBS = zs ++ ys -> chain (pcbs st) ys q ->
  none_for (for_listener s (env st)) zs st ->
  (none_for (for_listener s (env st)) (ls LISTEN_PCBS) st -> Q 0 st) ->
  (forall p st', found_first (for_listener s (env st)) LISTEN_PCBS ls st p st' -> Q p st') ->
  wp (find_listener fuel s q (default 0 (last zs))) Q st.
Proof.
  revert zs ys q. induction fuel as [|fuel IH]; intros zs ys q Hf Hi Hl Hc Hz HQ0 HQ; [lia|]. cbn [find_listener].
  destruct ys as [|p ys].
  { cbn in Hc. subst q. apply wp_ret, HQ0. by rewrite Hl, app_nil_r. }
  pose proof Hc as (-> & Hp0 & b & Hb & Hc'). destruct (Z.eqb_spec p 0); [done|]. apply wp_bind, (wp_load p b); [done|].
  apply wp_bind, wp_bind, wp_ask, wp_ret. fold (right_netif s (env st) b). fold (for_listener s (env st) b).
  destruct (for_listener s (env st) b) eqn:Ht.
  - apply wp_bind, (wp_move_to_front ls LISTEN_PCBS zs p ys); [done..|]. intros st' Hi' Hca Hr' He.
    apply wp_ret, HQ. exists zs, ys, b. by split_and!.
  - pose proof (IH (zs ++ [p]) ys (next b)) as IH'. rewrite last_snoc in IH'.
    apply IH'; try done; [cbn in Hf; lia|by rewrite <- app_assoc|by apply (none_for_snoc _ zs p b)].
Qed.

Lemma find_time_wait_spec s ls fuel zs ys q (Q : Z -> tcp E -> Prop) st :
  (length ys < fuel)%nat -> Inv ls ∅ st -> ls TW_PCBS = zs ++ ys -> chain (pcbs st) ys q ->
  none_for (for_connection s (env st)) zs st ->
  (none_for (for_connection s (env st)) (ls TW_PCBS) st -> Q 0 st) ->
  (forall p, p <> 0 -> first_for (for_connection s (env st)) (ls TW_PCBS) p st -> Q p st) ->
  wp (find_time_wait fuel s q) Q st.
Proof.
  revert zs ys q. induction fuel as [|fuel IH]; intros zs ys q Hf Hi Hl Hc Hz HQ0 HQ; [lia|]. cbn [find_time_wait].
  destruct ys as [|p ys].
  { cbn in Hc. subst q. apply wp_ret, HQ0. by rewrite Hl, app_nil_r. }
  pose proof Hc as (-> & Hp0 & b & Hb & Hc'). destruct (Z.eqb_spec p 0); [done|]. apply wp_bind, (wp_load p b); [done|].
  assert (p ∈ ls TW_PCBS) as Hp by (rewrite Hl; set_solver).
  pose proof (inv_placed _ _ _ _ _ _ (Some TW_PCBS) b Hi Hp Hb (not_elem_of_empty p)) as (Ha & Hco & _).
  unfold conn_ok in Hco. destruct (rest b) as [c|] eqn:Hr; [|done]. clear Hco.
  apply wp_bind, wp_ASSERT; [by apply bool_decide_eq_true|]. apply wp_bind, (wp_load_conn p b c); [done..|].
  apply wp_bind, wp_bind, wp_ask, wp_ret.
  assert (for_connection s (env st) b =
    negb (negb (netif_idx (ip b) =? NETIF_NO_INDEX) && negb (netif_idx (ip b) =? netif_get_index (in_netif s) (env st)))
      && pcb_matches s b c) as Hfor by (unfold for_connection; by rewrite Hr).
  rewrite <- Hfor. destruct (for_connection s (env st) b) eqn:Ht.
  - apply wp_ret, HQ; [done|]. by exists zs, ys, b.
  - apply (IH (zs ++ [p]) ys); try done; [cbn in Hf; lia|by rewrite <- app_assoc|by apply (none_for_snoc _ zs p b)].
Qed.
End demux.
