(* ===== verification/TcpInput.v ===== *)
(** * Segments ([tcp_input], [tcp_listen_input], [tcp_timewait_input])

    A segment is for the first active connection that matches it, for one that
    waits, for a listener or for nobody; whoever it is for, [tcp_input] returns
    and leaves the control blocks in a good state. *)
From S2P Require Import Prelude ByteOrder Lwip Pbuf ChecksumPbuf TcpPcb TcpOut Tcp TcpIn TcpWp TcpLists TcpInv.
From S2P Require Import TcpSteps TcpPools TcpRemove TcpWork TcpClose TcpAlloc TcpBind TcpApi TcpServe TcpEvents.
From S2P Require Import TcpProcess TcpDeliver TcpDemux.

(** The application has given every listener a callback of its own. *)
Definition accepting {E} (st : tcp E) : Prop := forall l b r,
  pcbs st !! l = Some b -> rest b = Listening r -> fn_accept r <> FN_accept_null.

Section input.
Context {E : Type} `{!TcpEnv E} `{!TcpApp E} (P L : gset Z) `{!TcpAppLaws E P L} `{!TcpReceiveLaws E}.
Implicit Types (st : tcp E) (ls : pcb_list -> list Z).
Notation Inv := (Inv P L).
Notation good := (good P L).
#[local] Set Default Proof Using "All".

Definition input_done st : Prop := good st /\ tcp_input_pcb st = 0.

(** ** Waiting connections *)

Lemma tcp_timewait_input_quiet s p b c e st :
  state b <> LISTEN -> queues_ok (state b) c -> quietly p (tcp_timewait_input s p) b c e st.
Proof.
  intros Hs Hq. unfold tcp_timewait_input. destruct (has (in_flags s) TCP_RST); [unfold quietly; lstep; apply quiet_refl|].
  apply quietly_bind; [unfold quietly; lstep; apply quiet_refl|]. intros c0 b1 c1 e1 Hq1.
  assert (forall b' c' e', quiet b c b' c' -> quietly p (if 0 <? tcplen s then store_conn p tcp_ack_now ;; tcp_output p ;; mret tt
    else mret tt) b' c' e' st) as Hend.
  { intros b' c' e' Hq'. destruct (0 <? tcplen s); [|unfold quietly; lstep; apply quiet_refl].
    apply quietly_bind; [unfold quietly; lstep; quiet_done|]. intros [] b2 c2 e2 Hq2.
    pose proof (quiet_then _ _ _ _ _ _ Hq' Hq2) as Hq3.
    apply quietly_bind; [|intros ? ? ? ? _; unfold quietly; lstep; apply quiet_refl].
    apply tcp_output_quiet; rewrite (quiet_state _ _ _ _ Hq3); [done|by apply Hq3]. }
  destruct (_ && _); [unfold quietly, rst_for; lstep; apply quiet_refl|].
  apply quietly_bind; [unfold quietly; lstep; apply quiet_refl|]. intros ticks b2 c2 e2 Hq2.
  apply quietly_bind; [destruct (_ && _); unfold quietly; lstep; [quiet_done|apply quiet_refl]|].
  intros [] b3 c3 e3 Hq3. apply Hend.
  apply (quiet_then _ _ b1 c1); [done|]. by apply (quiet_then _ _ b2 c2).
Qed.

(** ** A SYN for a listener *)

(** Nothing has been queued yet. *)
Definition nothing_queued (c : tcp_conn) : Prop := queued (tx c) = [] /\ tv (tx c) snd_queuelen = 0.

(** The block that a SYN opens takes its place among the active connections and
    counts for its listener. *)
Lemma passive_lively s l i lb b c pr t ctr :
  b = initial_pcb pr t ctr -> rest b = Conn c ->
  exists c', rest (passive_pcb s l i lb b c) = Conn c' /\ lively (passive_pcb s l i lb b c) c' /\ listener c' = l /\
    tcp_is_flag_set c' TF_BACKLOGPEND = true /\ nothing_queued c'.
Proof.
  intros -> [= <-]. eexists. split; [reflexivity|]. split; [|done]. split; [done..| | |].
  - split; [constructor|done].
  - by intros _.
  - unfold window_ok. cbn. tvs. split_and!; try done. left. by rewrite Z.sub_diag.
Qed.

Lemma Inv_passive s ls a l bl r lb i b c pr t ctr st st' :
  Inv ls ∅ st -> pcbs st !! a = Some b -> b = initial_pcb pr t ctr -> rest b = Conn c -> l ∈ ls LISTEN_PCBS ->
  pcbs st !! l = Some bl -> rest bl = Listening r -> accepts_pending r < backlog r ->
  pcbs st' = <[a := passive_pcb s l i lb b c]> (<[l := set_rest (Listening (set_accepts_pending (accepts_pending r + 1) r)) bl]> (pcbs st)) ->
  heads st' = heads st -> pcb_free st' = pcb_free st -> lpcb_free st' = lpcb_free st -> tcp_port st' = tcp_port st ->
  Inv ls ({[a]} ∪ ∅) st'.
Proof.
  intros Hi Ha Hini Hr Hl Hbl Hrl Hlt E1 E2 E3 E4 E5.
  destruct (passive_lively s l i lb b c pr t ctr Hini Hr) as (c' & Hr' & _ & Hli & Hfl & _).
  assert (a <> l) as Hal by congruence.
  assert (forall l', ~ pends_on l' b) as Hno by (intros l'; rewrite Hini; by intros [_ ?]).
  apply (Inv_claim P L ls ({[a]} ∪ ∅) st st' a b c (passive_pcb s l i lb b c) c' l bl r (accepts_pending r + 1)); try done.
  - by apply Inv_exempt.
  - set_solver.
  - set_solver.
  - intros _. right. by rewrite Hli.
  - intros l' Hl' _. split; [|by intros ?%Hno]. unfold pends_on. rewrite Hr'. intros [? _]. congruence.
  - destruct (decide (pends_on l b)) as [Hp|_]; [by apply Hno in Hp|].
    destruct (decide _) as [_|Hp]; [lia|]. destruct Hp. unfold pends_on. by rewrite Hr'.
  - lia.
Qed.

(** The end of [tcp_listen_input], from [TCP_REG_ACTIVE] on. *)
Definition passive_open (s : tcp_segment_in) (npcb : Z) : tcpM E unit :=
  TCP_REG_ACTIVE npcb ;;
  tcp_parseopt s npcb ;;
  store_tx npcb (fun t => set_tv snd_wnd_max (in_wnd s) (set_tv snd_wnd (in_wnd s) t)) ;;
  nb ← load npcb;
  nc ← load_conn npcb;
  netif ← ask (ip_route (local_ip (ip nb)) (remote_ip (ip nb)));
  m ← ask (tcp_eff_send_mss_netif (tv (tx nc) mss) netif (remote_ip (ip nb)));
  store_tv npcb mss m ;;
  rc ← tcp_enqueue_flags npcb (Z.lor TCP_SYN TCP_ACK);
  if negb (rc =? ERR_OK) then tcp_abandon npcb false
  else tcp_output npcb ;; mret tt.

Lemma enqueued_quiet fl b c c' :
  has fl TCP_RST = false -> has fl (Z.lor TCP_SYN TCP_FIN) = true -> state b = SYN_RCVD -> nothing_queued c ->
  enqueued fl c c' -> quiet b c b c'.
Proof.
  intros Hr Hf Hs [Hq0 Hn0] [Hl Hp (pb & sq & Hu) Hun Ho Hq Hrd Hrf Hw].
  apply app_eq_nil in Hq0 as [Eu Ea]. rewrite Eu in Hu. rewrite Ea in Hun. rewrite Hn0 in Hq.
  split; [by split_and!|done..| | |done|done]; rewrite Hs.
  - unfold queues_ok. intros _. split; [|done]. rewrite Hu, Hun. cbn. apply Forall_singleton. split; [done|].
    unfold TCP_TCPLEN. cbn [seg_len seg_hdrflags]. rewrite Z.lor_comm in Hf. by rewrite Hf.
  - intros _ _. cbn [counted]. unfold counts_to, counts_queued, queued. rewrite Hu, Hun, Hq. by cbn.
Qed.

Lemma wp_syn_ack ls a b c st :
  at_work P L ls ({[a]} ∪ ∅) a b c st -> state b = SYN_RCVD -> a ∈ ls ACTIVE_PCBS -> refers_ok ls c ->
  nothing_queued c -> counted (state b) (tx c) ->
  wp (rc ← tcp_enqueue_flags a (Z.lor TCP_SYN TCP_ACK);
      if negb (rc =? ERR_OK) then tcp_abandon a false else tcp_output a ;; mret tt)
    (fun _ st' => good st' /\ calm st st') st.
Proof.
  intros Hw Hs Ha Hre Hnq Hk.
  apply wp_bind, (wp_work_quiet P L _ ls ({[a]} ∪ ∅) a b c); [done|..].
  { unfold quietly. eapply local_mono; [by apply tcp_enqueue_flags_local|].
    intros err b' c' e' [-> [[_ H]|[_ H]]]; [done|]. by apply (enqueued_quiet (Z.lor TCP_SYN TCP_ACK)). }
  intros rc b1 c1 st1 Hw1 Hs1 He1 Hca1. assert (refers_ok ls c1) as Hre1 by (unfold refers_ok; by rewrite (ev_listener _ _ _ _ He1)).
  destruct (rc =? ERR_OK); cbn [negb].
  - pose proof Hw1 as [_ _ _ _ [_ Ha1 Hq1 _ _]]. apply wp_bind, (wp_work_quiet P L _ ls ({[a]} ∪ ∅) a b1 c1); [done|..].
    { apply tcp_output_quiet; [by rewrite Hs1, Hs|done]. }
    intros _ b2 c2 st2 Hw2 Hs2 He2 Hca2. apply wp_ret. split; [|by transitivity st1]. exists ls.
    apply (settle_active P L ls ∅ st2 a b2 c2); [done|apply nex|done|by apply (ev_counted _ _ _ _ He2), (ev_counted _ _ _ _ He1)|].
    unfold refers_ok. by rewrite (ev_listener _ _ _ _ He2).
  - pose proof Hw1 as [Hi1 _ _ Hb1 Hlv1]. apply (wp_tcp_abandon_leaving P L ls ∅ a b1 c1); [done|intros l _; apply nex|done|..].
    + apply lively_leaving; [done|]. intros l Hl. by apply (lists_disjoint _ _ (inv_lists _ _ _ _ _ Hi1) l ACTIVE_PCBS a).
    + intros st2 Hi2 _ Hca2. split; [by eexists|by transitivity st1].
Qed.

Lemma wp_passive_open s ls a b c st :
  Inv ls ({[a]} ∪ ∅) st -> pcbs st !! a = Some b -> lively b c -> state b = SYN_RCVD -> (forall l, a ∉ ls l) -> refers_ok ls c ->
  nothing_queued c -> wp (passive_open s a) (fun _ st' => good st' /\ calm st st') st.
Proof.
  intros Hi Hb Hlv Hs Hno Hre Hnq. pose proof (lively_rest _ _ Hlv) as Hr. unfold passive_open, TCP_REG_ACTIVE. apply wp_bind, wp_bind.
  apply (wp_TCP_REG P L ls ({[a]} ∪ ∅) ACTIVE_PCBS a b); [done|set_solver|done|done|].
  intros st1 n Hi1 Hb1 Hca1 _. apply wp_modify. set (ls1 := add_pcb ACTIVE_PCBS a ls) in *.
  assert (a ∈ ls1 ACTIVE_PCBS) as Ha by (apply elem_of_add; by left).
  assert (at_work P L ls1 ({[a]} ∪ ∅) a (set_next n b) c (set_changed st1)) as Hw.
  { split; [by apply (Inv_same P L ls1 _ st1)|set_solver| |done|by destruct Hlv].
    intros l [[_ H]|H]%elem_of_add; [done|]. intros [->%elem_of_singleton|Hx]%elem_of_union; [by apply Hno in H|by apply nex in Hx]. }
  assert (refers_ok ls1 c) as Hre1 by (destruct Hre as [|H]; [by left|right; apply elem_of_add; by right]).
  apply wp_bind, (wp_work_quiet_with P L nothing_queued _ ls1 ({[a]} ∪ ∅) a _ _ _ _ Hw).
  { unfold tcp_parseopt. do 2 lstep. destruct (parse_mss s _); lstep; (split; [first [apply quiet_refl|quiet_done]|]);
    unfold nothing_queued; cbn; by tvs. }
  intros _ b2 c2 st2 Hw2 Hs2 He2 Hn2 Hca2.
  apply wp_bind, (wp_work_quiet_with P L nothing_queued _ ls1 ({[a]} ∪ ∅) a b2 c2); [done|lstep; split; [quiet_done|unfold nothing_queued; cbn; by tvs]|].
  intros _ b3 c3 st3 Hw3 Hs3 He3 Hn3 Hca3. pose proof Hw3 as [_ _ _ Hb3 [Hr3 _ _ _ _]].
  apply wp_bind, (wp_load a b3); [done|]. apply wp_bind, (wp_load_conn a b3 c3); [done..|].
  apply wp_bind, wp_ask, wp_bind, wp_ask.
  apply wp_bind, (wp_work_quiet_with P L nothing_queued _ ls1 ({[a]} ∪ ∅) a b3 c3); [done|lstep; split; [quiet_done|unfold nothing_queued; cbn; by tvs]|].
  intros _ b4 c4 st4 Hw4 Hs4 He4 Hn4 Hca4. eapply wp_mono; [apply (wp_syn_ack ls1 a b4 c4 st4); try done|].
  - by rewrite Hs4, Hs3, Hs2.
  - unfold refers_ok. by rewrite (ev_listener _ _ _ _ He4), (ev_listener _ _ _ _ He3), (ev_listener _ _ _ _ He2).
  - rewrite Hs4, Hs3, Hs2. cbn. rewrite Hs. destruct Hn4 as [Hq0 Hn0]. unfold counted, counts_to, counts_queued. by rewrite Hq0, Hn0.
  - intros [] st5 [Hg Hca5]. split; [done|]. transitivity st1; [done|]. transitivity (set_changed st1); [by apply calm_same|].
    transitivity st2; [done|]. transitivity st3; [done|]. by transitivity st4.
Qed.

Lemma wp_tcp_listen_input s ls l st :
  Inv ls ∅ st -> l ∈ ls LISTEN_PCBS -> tcp_input_pcb st = 0 -> accepting st ->
  wp (tcp_listen_input s l) (fun _ st' => input_done st') st.
Proof.
  intros Hi Hl Hin Hacc. unfold tcp_listen_input.
  assert (forall e, input_done (set_env e st)) as Hdone by (intros e; split; [exists ls; by apply (Inv_same P L ls ∅ st)|done]).
  assert (input_done st) as Hsame by (split; [by exists ls|done]).
  destruct (has (in_flags s) TCP_RST); [by apply wp_ret|]. destruct (has (in_flags s) TCP_ACK); [by apply wp_effect|].
  destruct (has (in_flags s) TCP_SYN); [|by apply wp_ret].
  destruct (inv_listener P L ls ∅ st l Hi Hl (nex l)) as (bl & r & Hbl & Hrl & _ & Hbk & _ & Hac & _).
  apply wp_bind, (wp_load l bl); [done|]. apply wp_bind, (wp_load_listening l bl r); [done..|].
  destruct (Z.leb_spec (backlog r) (accepts_pending r)); [by apply wp_ret|].
  apply wp_bind, (wp_tcp_alloc P L ls ∅ (prio bl)); [done|apply lists_settled_empty|..].
  - intros ls1 st1 [Hi1 _ _ Hca1]. cbn [Z.eqb]. pose proof (calm_input _ _ Hca1) as Hin1. rewrite Hin in Hin1.
    destruct (calm_listening _ _ Hca1 l bl r Hbl Hrl) as (bl1 & r1 & Hbl1 & Hrl1 & Hfa1 & _).
    assert (wp (TCP_EVENT_ACCEPT l 0 (callback_arg bl) ERR_MEM) (fun _ st' => input_done st') st1) as Hev.
    { unfold TCP_EVENT_ACCEPT. apply wp_bind, (wp_load_listening l bl1 r1); [done..|].
      pose proof (Hacc l bl r Hbl Hrl) as Hna. rewrite <- Hfa1 in Hna.
      destruct (fn_accept r1) eqn:Hf; [by apply wp_ret; split; [exists ls1|]| |done|].
      all: by apply (app_no_memory _ _ st1); [exists ls1|]. }
    apply wp_bind. eapply wp_mono; [exact Hev|]. intros a st2 H2. by apply wp_ret.
  - intros a ls1 st1 t ctr [Hi1 _ Hl1 Hca1] Ha Hba Hno. destruct (Z.eqb_spec a 0); [done|]. rewrite <- Hl1 in Hl.
    destruct (calm_listening _ _ Hca1 l bl r Hbl Hrl) as (bl1 & r1 & Hbl1 & Hrl1 & _ & Hbk1 & Hap1).
    destruct (inv_listener P L ls1 ∅ st1 l Hi1 Hl (nex l)) as (bl2 & r2 & Hbl2 & Hrl2 & _ & _ & _ & Hac2 & _).
    rewrite Hbl1 in Hbl2. injection Hbl2 as <-. rewrite Hrl1 in Hrl2. injection Hrl2 as <-.
    set (b0 := initial_pcb (prio bl) t ctr) in *. destruct (rest b0) as [c0|] eqn:Hr0; [|done].
    assert (a <> l) as Hal by (intros ->; congruence).
    apply wp_bind, (wp_store_listening l _ bl1 r1); [done..|]. apply wp_bind, wp_bind, wp_modify, wp_gets.
    apply wp_bind, (wp_load_conn a b0 c0); [cbn; by rewrite lookup_insert_ne|done|].
    apply wp_bind, (wp_store a _ b0); [cbn; by rewrite lookup_insert_ne|].
    replace (u8 (accepts_pending r1 + 1)) with (accepts_pending r1 + 1) by (unfold u8; rewrite Z.mod_small; lia).
    match goal with |- wp _ _ ?x => set (st2 := x) end.
    match goal with st2 := context [passive_pcb s l ?i bl b0 c0] |- _ => set (nb := passive_pcb s l i bl b0 c0) in *;
      destruct (passive_lively s l i bl b0 c0 (prio bl) t ctr eq_refl Hr0) as (c' & Hr' & Hlv & Hli & _ & Hnq);
      assert (Inv ls1 ({[a]} ∪ ∅) st2) as Hi2
        by (apply (Inv_passive s ls1 a l bl1 r1 bl i b0 c0 (prio bl) t ctr st1 st2); try done; lia) end.
    change (wp (passive_open s a) (fun _ st' => input_done st') st2).
    eapply wp_mono; [apply (wp_passive_open s ls1 a nb c' st2 Hi2); try done; [apply lookup_insert_eq|right; by rewrite Hli]|].
    intros [] st3 [Hg Hca3]. split; [done|]. rewrite (calm_input _ _ Hca3). cbn. by rewrite (calm_input _ _ Hca1).
Qed.
End input.

(** ** Who a segment is for *)

Section demuxed.
Context {E : Type} `{!TcpEnv E} `{!TcpApp E} (P L : gset Z).
Implicit Types (st : tcp E) (ls : pcb_list -> list Z).
Notation Inv := (Inv P L).

(** What [tcp_input] does with a segment: the first active connection that matches
    gets it, else the first that waits, else the first listener; else the answer is
    a RST, unless it is one. *)
Inductive demuxed (s : tcp_segment_in) ls st : outcome (unit * tcp E) -> Prop :=
  | demuxed_active p st1 :
      found_first P L (for_connection s (env st)) ACTIVE_PCBS ls st p st1 ->
      demuxed s ls st (input_connection s p st1)
  | demuxed_time_wait p :
      none_for (for_connection s (env st)) (ls ACTIVE_PCBS) st -> p <> 0 ->
      first_for (for_connection s (env st)) (ls TW_PCBS) p st ->
      demuxed s ls st ((tcp_timewait_input s p ;; effect (pbuf_free (in_p s))) st)
  | demuxed_listener p st1 :
      none_for (for_connection s (env st)) (ls ACTIVE_PCBS) st ->
      none_for (for_connection s (env st)) (ls TW_PCBS) st ->
      found_first P L (for_listener s (env st)) LISTEN_PCBS ls st p st1 ->
      demuxed s ls st ((tcp_listen_input s p ;; effect (pbuf_free (in_p s))) st1)
  | demuxed_nobody :
      none_for (for_connection s (env st)) (ls ACTIVE_PCBS) st ->
      none_for (for_connection s (env st)) (ls TW_PCBS) st ->
      none_for (for_listener s (env st)) (ls LISTEN_PCBS) st ->
      demuxed s ls st (Ret (tt, set_env (pbuf_free (in_p s)
        (if has (in_flags s) TCP_RST then env st
         else tcp_rst_netif (in_netif s) (in_ackno s) (u32 (in_seqno s + tcplen s)) (current_dest s) (current_src s)
           (in_dest s) (in_src s) (env st))) st)).

Lemma bind_run {A B} (m : tcpM E A) (f : A -> tcpM E B) a st st1 : m st = Ret (a, st1) -> (m ≫= f) st = f a st1.
Proof. intros H. unfold mbind, tcpM_bind. by rewrite H. Qed.

Lemma tcp_input_demux s ls st :
  Inv ls ∅ st -> in_tot_len s <= tcplen s -> demuxed s ls st (tcp_input s st).
Proof.
  intros Hi Hlen. unfold tcp_input. rewrite (proj2 (Z.ltb_ge _ _) Hlen).
  pose proof (inv_lists _ _ _ _ _ Hi) as [Hc Hn _].
  assert (forall l, (length (ls l) < S (size (pcbs st)))%nat) as Hf
    by (intros l; pose proof (chain_length _ _ _ (Hn l) (Hc l)); lia).
  rewrite (bind_run list_fuel _ (S (size (pcbs st))) st st) by done.
  rewrite (bind_run (gets heads) _ (heads st) st st) by done.
  assert (wp (find_active (S (size (pcbs st))) s (heads st ACTIVE_PCBS) 0) (fun p st1 =>
    p = 0 /\ st1 = st /\ none_for (for_connection s (env st)) (ls ACTIVE_PCBS) st \/
    found_first P L (for_connection s (env st)) ACTIVE_PCBS ls st p st1) st) as (p & st1 & Hrun & Hp).
  { apply (find_active_spec P L s ls _ [] (ls ACTIVE_PCBS)); try done; [apply none_for_nil|by left|by right]. }
  rewrite (bind_run _ _ p st st1 Hrun). destruct Hp as [(-> & -> & Ha)|Hfound].
  2: { pose proof Hfound as (zs & tl & b & _ & _ & _ & _ & Hp0 & _). destruct (Z.eqb_spec p 0); [done|]. by apply demuxed_active. }
  cbn [Z.eqb negb].
  assert (wp (find_time_wait (S (size (pcbs st))) s (heads st TW_PCBS)) (fun p st1 => st1 = st /\
    (p = 0 /\ none_for (for_connection s (env st)) (ls TW_PCBS) st \/
     p <> 0 /\ first_for (for_connection s (env st)) (ls TW_PCBS) p st)) st) as (p & st1 & Hrun2 & -> & Hp).
  { apply (find_time_wait_spec P L s ls _ [] (ls TW_PCBS)); try done; [apply none_for_nil|auto|auto]. }
  rewrite (bind_run _ _ p st st Hrun2). destruct Hp as [[-> Ht]|[Hp0 Hp]].
  2: { destruct (Z.eqb_spec p 0); [done|]. by apply demuxed_time_wait. }
  cbn [Z.eqb negb].
  assert (wp (find_listener (S (size (pcbs st))) s (heads st LISTEN_PCBS) 0) (fun p st1 =>
    p = 0 /\ st1 = st /\ none_for (for_listener s (env st)) (ls LISTEN_PCBS) st \/
    found_first P L (for_listener s (env st)) LISTEN_PCBS ls st p st1) st) as (p & st1 & Hrun3 & Hp).
  { apply (find_listener_spec P L s ls _ [] (ls LISTEN_PCBS)); try done; [apply none_for_nil|by left|by right]. }
  rewrite (bind_run _ _ p st st1 Hrun3). destruct Hp as [(-> & -> & Hli)|Hfound].
  - cbn [Z.eqb negb]. assert (demuxed s ls st (Ret (tt, set_env (pbuf_free (in_p s)
      (if has (in_flags s) TCP_RST then env st
       else tcp_rst_netif (in_netif s) (in_ackno s) (u32 (in_seqno s + tcplen s)) (current_dest s) (current_src s)
         (in_dest s) (in_src s) (env st))) st))) as Hd by by apply demuxed_nobody.
    destruct (has (in_flags s) TCP_RST); exact Hd.
  - pose proof Hfound as (zs & tl & b & _ & _ & _ & _ & Hp0 & _). destruct (Z.eqb_spec p 0); [done|]. by apply demuxed_listener.
Qed.

(** ** Any segment *)

Lemma accepting_relinked st st' : relinked (pcbs st) (pcbs st') -> accepting st -> accepting st'.
Proof.
  intros Hr Ha l b r Hb. symmetry in Hr. destruct (relinked_lookup _ _ _ _ Hr Hb) as [n Hn]. by apply (Ha l (set_next n b)).
Qed.

Lemma wp_free_input s (m : tcpM E unit) st :
  wp m (fun _ st' => input_done P L st') st -> wp (m ;; effect (pbuf_free (in_p s))) (fun _ st' => input_done P L st') st.
Proof.
  intros Hm. apply wp_bind. eapply wp_mono; [exact Hm|]. intros [] st1 [[ls1 Hi1] Hin1]. apply wp_effect.
  split; [|done]. exists ls1. by apply (Inv_same P L ls1 ∅ st1).
Qed.

Lemma wp_tcp_input `{!TcpAppLaws E P L} `{!TcpReceiveLaws E} s ls st :
  Inv ls ∅ st -> tcp_input_pcb st = 0 -> accepting st -> 0 <= in_tot_len s ->
  wp (tcp_input s) (fun _ st' => input_done P L st') st.
Proof.
  intros Hi Hin Hacc Hlen. destruct (decide (in_tot_len s <= tcplen s)) as [Hle|Hgt].
  2: { unfold tcp_input. destruct (Z.ltb_spec (tcplen s) (in_tot_len s)); [|lia]. apply wp_effect. split; [|done].
       exists ls. by apply (Inv_same P L ls ∅ st). }
  pose proof (tcp_input_demux s ls st Hi Hle) as Hd. unfold wp. destruct Hd as [p st1 Hf|p _ _ Hf|p st1 _ _ Hf|_ _ _].
  - destruct Hf as (zs & tl & b & Hls & _ & _ & _ & _ & Hi1 & Hca & _).
    eapply (wp_input_connection P L s p); [exact Hi1| |by rewrite (calm_input _ _ Hca)|done].
    unfold to_front. rewrite fn_lookup_insert. by left.
  - destruct Hf as (zs & tl & b & Hls & Hb & _). assert (p ∈ ls TW_PCBS) as Hp by (rewrite Hls; set_solver).
    destruct (inv_listed_conn P L ls ∅ st TW_PCBS p Hi) as (b' & c & Hb' & Hr); [done|done|apply nex|].
    destruct (inv_conn P L ls st p b' c Hi Hb' Hr) as (Hs & Hq & _).
    apply wp_free_input, (wp_quiet P L _ ls ∅ p b' c); [done..|by apply (tcp_timewait_input_quiet P L)|].
    intros [] b2 c2 st2 _ _ Hi2 Hca2. split; [by exists ls|]. by rewrite (calm_input _ _ Hca2).
  - destruct Hf as (zs & tl & b & Hls & Hb & _ & _ & _ & Hi1 & Hca & Hrl & _).
    eapply wp_free_input, (wp_tcp_listen_input P L s); [exact Hi1| |by rewrite (calm_input _ _ Hca)|by apply (accepting_relinked st)].
    unfold to_front. rewrite fn_lookup_insert. by left.
  - eexists _, _. split; [done|]. split; [|done]. exists ls. by apply (Inv_same P L ls ∅ st).
Qed.
End demuxed.
