(* ===== verification/TcpExample.v ===== *)
(** * A small world for the examples of TCP

    There is one interface, memory never runs out, and segments that are sent are
    gone.  The application takes all data, and aborts a connection whose other side
    has closed. *)
From S2P Require Import Prelude ByteOrder Lwip Pbuf ChecksumPbuf TcpPcb TcpOut Tcp TcpIn TcpWp TcpLists TcpInv.
From S2P Require Import TcpSteps TcpPools TcpRemove TcpWork TcpClose TcpAlloc TcpBind TcpApi TcpServe TcpEvents.
From S2P Require Import TcpProcess.

Definition any_ip : ip_addr := IpAddr (fun _ => 0) 0.
Definition some_ip (x : Z) : ip_addr := IpAddr (fun i => if i =? 0 then x else 0) 0.

(** Received data is what the segment holds, in order; an ACK acknowledges all that
    was sent, one buffer for each segment. *)
Definition all_acked (s : tcp_segment_in) (t : tcp_transfer) : tcp_transfer :=
  set_unacked [] (set_tv lastack (in_ackno s)
    (set_tv snd_queuelen (if is_nil (unsent t) then 0 else tv t snd_queuelen - Z.of_nat (length (unacked t))) t)).

Definition example_receive (s : tcp_segment_in) (b : tcp_pcb) (e : unit) : tcp_received * unit :=
  match rest b with
  | Conn c =>
      (TcpReceived (all_acked s (tx c)) (flags c) (has (in_flags s) TCP_FIN) false 0
         (if tcplen s =? 0 then 0 else in_p s) 0, e)
  | Listening _ => (TcpReceived (TcpTransfer (fun _ => 0) [] [] []) 0 false false 0 0 0, e)
  end.

#[export] Instance example_env : TcpEnv unit := {
  new_segment e := (Some 900, e);
  new_control_pbuf e := (true, e);
  output_control_segment e := (ERR_OK, e);
  ip_output_segment _ _ e := (ERR_OK, e);
  tcp_output_segment_busy _ _ := false;
  tcp_rst _ _ _ _ _ _ e := e;
  tcp_rst_netif _ _ _ _ _ _ _ e := e;
  tcp_seg_free _ e := e;
  pbuf_free _ e := e;
  pbuf_tot_len _ _ := 100;
  pbuf_flag_fin _ _ := false;
  set_pbuf_flag_fin _ e := e;
  ip_route _ _ _ := 1;
  ip6_route _ _ _ := 1;
  netif_get_by_index _ _ := 1;
  netif_get_index _ _ := 1;
  ip_netif_get_local_ip _ _ _ := Some (some_ip 5);
  tcp_eff_send_mss_netif m _ _ _ := m;
  tcp_timer_needed _ _ e := e;
  queue_data _ len _ _ e := (Some (TcpQueued 0 [TcpSeg 901 (Z.max 1 len) 0 TCP_ACK] 1), e);
  receive_data := example_receive;
  parse_mss _ _ := None;
  call_errf _ _ _ e := e;
  raw_ip_addr _ := any_ip }.

#[export] Instance example_env_laws : TcpEnvLaws unit.
Proof.
  split.
  - intros d len fl b e w e' [= <- <-]. apply Forall_singleton. split; [done|]. unfold TCP_TCPLEN. cbn [seg_len]. destruct (has _ _); lia.
  - by intros d len fl b e w e' [= <- <-].
  - intros d len fl b c e w e' _ [= <- <-]. cbn. by intros [|[H _]].
Qed.

#[export] Instance example_receive_laws : TcpReceiveLaws unit.
Proof.
  split; cbn; unfold example_receive.
  - intros s b c e r e' -> [= <- <-]. cbn. set_solver.
  - intros s b c e r e' -> [= <- <-]. cbn. unfold all_acked, counts_queued, queued. cbn. tvs. rewrite app_nil_r, length_app.
    intros [H1 H2]. destruct (unsent (tx c)) as [|g q] eqn:Eu; cbn in *; [split; [done|lia]|].
    split; [split; [lia|done]|lia].
  - intros s b c e r e' -> [= <- <-]. cbn. unfold window_ok. cbn. by tvs.
  - intros s b e r e' H Ht. rewrite Ht in H. by destruct (rest b); injection H as <- <-.
Qed.

(** Data is taken at once; after the FIN there is nothing to wait for. *)
Definition example_event (ev : tcp_event) : tcpM unit Z :=
  match ev with
  | EvRecv _ _ pcb p _ =>
      input ← gets tcp_input_pcb;
      if (p =? 0) && (input =? pcb) then tcp_abort pcb ;; mret ERR_ABRT
      else if p =? 0 then mret ERR_OK
      else effect (pbuf_free p) ;; mret ERR_OK
  | _ => mret ERR_OK
  end.
#[export] Instance example_app : TcpApp unit := { app_event := example_event }.

#[export] Instance example_app_laws P L : TcpAppLaws unit P L.
Proof.
  split.
  - intros k p ev st Hev Hs Hin. cbn. unfold example_event.
    assert (event_post P L k p st ERR_OK st) as Hok by (split; [done|split; [done|apply kept_refl]]).
    destruct ev as [f arg np err|f arg pcb d err|f arg pcb len|f arg pcb err]; try by apply wp_ret.
    cbn in Hev. subst pcb. apply wp_bind, wp_gets. destruct (d =? 0); cbn [andb].
    + destruct (Z.eqb_spec (tcp_input_pcb st) p) as [Hp|]; [|by apply wp_ret].
      apply wp_bind. eapply wp_mono; [by apply (wp_abort_served P L k p st)|]. intros [] st1 [Hg Hca].
      apply wp_ret. split; [apply Hca|done].
    + by apply wp_bind, wp_effect, wp_ret; destruct st.
  - intros f arg st Hg Hin. cbn. by apply wp_ret.
Qed.
