(* ===== verification/TcpSafe.v ===== *)
(** * TCP as a whole: calls, segments and callbacks

    The states that TCP can reach from its initialisation by calls that respect the
    interface and by segments, whatever the world and the application answer within
    what is relied on: the invariant holds in all of them, and every call and every
    segment is processed to the end. *)
From S2P Require Import Prelude ByteOrder Lwip Pbuf ChecksumPbuf TcpPcb TcpOut Tcp TcpIn TcpWp TcpLists TcpInv.
From S2P Require Import TcpSteps TcpPools TcpRemove TcpWork TcpClose TcpAlloc TcpBind TcpApi TcpServe TcpEvents.
From S2P Require Import TcpProcess TcpDeliver TcpDemux TcpInput TcpExample.

(** ** The start *)

(** The globals before [tcp_init]; the pools have their elements. *)
Definition tcp_globals {E} (e : E) (pf lf : list Z) : tcp E :=
  Tcp ∅ pf lf (fun _ => 0) TCP_LOCAL_PORT_RANGE_START 0 0 6510 false 0 0 e.

(** After [tcp_init] with a random number. *)
Definition tcp_started {E} (rand : Z) (e : E) (pf lf : list Z) : tcp E :=
  set_tcp_port (TCP_ENSURE_LOCAL_PORT_RANGE rand) (tcp_globals e pf lf).

Lemma tcp_init_started {E} rand (e : E) pf lf : tcp_init rand (tcp_globals e pf lf) = Ret (tt, tcp_started rand e pf lf).
Proof. done. Qed.

(** The first port is in the range, the last number of it included. *)
Lemma ensure_range rand :
  TCP_ENSURE_LOCAL_PORT_RANGE rand = TCP_LOCAL_PORT_RANGE_START + Z.land rand 16383 /\ 0 <= Z.land rand 16383 <= 16383.
Proof.
  assert (Z.land rand 16383 = rand mod 16384) as Hl.
  { change 16383 with (Z.ones 14). by rewrite Z.land_ones. }
  pose proof (Z.mod_pos_bound rand 16384) as Hb.
  unfold TCP_ENSURE_LOCAL_PORT_RANGE, TCP_LOCAL_PORT_RANGE_START. change (u16 (Z.lnot 49152)) with 16383.
  rewrite Hl. split; [|lia]. unfold u16. rewrite Z.mod_small; lia.
Qed.

(** The pools [P] and [L] as lists, in the order of the free elements. *)
Record pools_fresh (P L : gset Z) (pf lf : list Z) : Prop := PoolsFresh {
  fresh_pcb : NoDup pf;
  fresh_lpcb : NoDup lf;
  fresh_pcbs a : a ∈ pf <-> a ∈ P;
  fresh_lpcbs a : a ∈ lf <-> a ∈ L;
  fresh_pools : P ## L /\ 0 ∉ P /\ 0 ∉ L }.

Section safe.
Context {E : Type} `{!TcpEnv E} `{!TcpApp E} (P L : gset Z).
Implicit Types (st : tcp E).
Notation Inv := (Inv P L).

Lemma started_inv rand (e : E) pf lf :
  pools_fresh P L pf lf -> Z.land rand 16383 <> 16383 -> Inv (fun _ => []) ∅ (tcp_started rand e pf lf).
Proof.
  intros [Hn1 Hn2 Hp Hl Hd] Hr. split; try done.
  - split; [done|constructor|]. intros l l' p Hin. by apply not_elem_of_nil in Hin.
  - split; cbn; [done|intros a Ha; split; [by apply Hp|done]|intros a b; by rewrite lookup_empty|].
    intros a Ha. left. by apply Hp.
  - split; cbn; [done|intros a Ha; split; [by apply Hl|done]|intros a b; by rewrite lookup_empty|].
    intros a Ha. left. by apply Hl.
  - cbn. destruct (ensure_range rand) as [-> Hb]. unfold TCP_LOCAL_PORT_RANGE_START, TCP_LOCAL_PORT_RANGE_END. lia.
Qed.

(** What happens to TCP. *)
Inductive tcp_reachable : tcp E -> Prop :=
  | reach_start rand e pf lf :
      pools_fresh P L pf lf -> Z.land rand 16383 <> 16383 -> tcp_reachable (tcp_started rand e pf lf)
  | reach_call st call r st' :
      tcp_reachable st -> api_ok st call -> api_run call st = Ret (r, st') -> tcp_reachable st'
  | reach_segment st s st' :
      tcp_reachable st -> accepting st -> 0 <= in_tot_len s -> tcp_input s st = Ret (tt, st') -> tcp_reachable st'
  | reach_world st e : tcp_reachable st -> tcp_reachable (set_env e st).

#[local] Set Default Proof Using "All".
Context `{!TcpEnvLaws E} `{!TcpAppLaws E P L} `{!TcpReceiveLaws E}.

(** Outside of the input no connection waits for its end. *)
Lemma wp_api_call call st :
  input_done P L st -> api_ok st call -> wp (api_run call) (fun _ st' => input_done P L st') st.
Proof.
  intros [[ls Hi] Hin] Hok. eapply wp_mono; [by apply (api_keeps P L ls call st)|].
  intros r st' [Hin' [[ls' Hi']|(ls' & b & c & Hi' & Hz)]]; (split; [|congruence]); [by exists ls'|].
  pose proof (zb_input _ _ _ _ _ Hz) as Hp. rewrite Hin', Hin in Hp.
  by destruct (inv_nonzero _ _ _ _ _ _ _ Hi' (zb_block _ _ _ _ _ Hz)).
Qed.

Lemma reachable_done st : tcp_reachable st -> input_done P L st.
Proof.
  induction 1 as [rand e pf lf Hf Hr|st call r st' _ IH Hok Hrun|st s st' _ [[ls Hi] Hin] Hacc Hlen Hrun|st e _ [[ls Hi] Hin]].
  - split; [|done]. eexists. by apply started_inv.
  - destruct (wp_api_call call st IH Hok) as (r' & st2 & Hrun2 & H). rewrite Hrun in Hrun2. by injection Hrun2 as <- <-.
  - destruct (wp_tcp_input P L s ls st Hi Hin Hacc Hlen) as ([] & st2 & Hrun2 & H). rewrite Hrun in Hrun2. by injection Hrun2 as <-.
  - split; [|done]. exists ls. by apply (Inv_same P L ls ∅ st).
Qed.

(** C4. Whatever calls and segments led to a state, the control blocks are as they
    should be: every block is in exactly one list, the one for its state, the lists
    end and share no block, each listener counts exactly the connections that pend on
    it and never more than its backlog, connections refer to listeners that exist,
    windows fit their types, free elements of the pools and blocks in use are the
    pools, and no connection waits for the end of the input. *)
Theorem tcp_reachable_inv st : tcp_reachable st -> (exists ls, Inv ls ∅ st) /\ tcp_input_pcb st = 0.
Proof. intros Hr. by destruct (reachable_done st Hr) as [[ls Hi] Hin]; split; [exists ls|]. Qed.

(** C3. The modelled functions of TCP never get stuck: in every state that is reached
    each call that respects the interface ([api_ok]) returns, and so does the input of
    each segment, through the state machine and all callbacks, when every listener has
    an accept callback of the application.  No loop over the lists runs for ever, no
    block that is not in use is touched, no listener is taken for a connection, and no
    assertion of these functions fails, those of [tcp_write] and [tcp_enqueue_flags] on
    the queues included.

    What this rests on: receiving data ([tcp_receive]), reading the options
    ([tcp_parseopt]) and cutting data into segments are the world's, they return and
    keep [TcpReceiveLaws] and [TcpEnvLaws], and assertions inside them are not covered;
    a callback leaves its connection served, with its state changed by closing only, or
    aborts it and answers [ERR_ABRT], and it does the latter only while a segment of the
    connection is processed, not for data that was refused before, after which the code
    reads the freed block (tcp_in.c:427).  With [tcp_accept_null], the default, a SYN
    that finds no free block fails an assertion (tcp.c:784), so those listeners are
    left out.  The timers are not modelled. *)
Theorem tcp_never_stuck st :
  tcp_reachable st ->
  (forall call, api_ok st call -> exists r st', api_run call st = Ret (r, st') /\ tcp_reachable st') /\
  (accepting st -> forall s, 0 <= in_tot_len s -> exists st', tcp_input s st = Ret (tt, st') /\ tcp_reachable st').
Proof.
  intros Hr. pose proof (reachable_done st Hr) as Hd. split.
  - intros call Hok. destruct (wp_api_call call st Hd Hok) as (r & st' & Hrun & _). exists r, st'.
    split; [done|]. by apply (reach_call st call r).
  - intros Hacc s Hlen. destruct Hd as [[ls Hi] Hin].
    destruct (wp_tcp_input P L s ls st Hi Hin Hacc Hlen) as ([] & st' & Hrun & _). exists st'.
    split; [done|]. by apply (reach_segment st s).
Qed.

(** C10. A segment whose length does not overflow goes to the first active connection
    with its ports, addresses and interface; if there is none to the first one that
    waits in TIME-WAIT, and if there is none to the first listener with its port and an
    address that fits; an active connection or a listener that is found moves to the front
    of its list and the others keep their order.  When nobody is found the buffer is freed,
    after a RST as the answer to a segment that is none. *)
Theorem tcp_input_dispatch s ls st :
  Inv ls ∅ st -> in_tot_len s <= tcplen s -> demuxed P L s ls st (tcp_input s st).
Proof using Type. apply tcp_input_demux. Qed.
End safe.

(** ** An example: a server *)

Definition example_start : tcp unit := tcp_started 7 tt [1; 2; 3] [11; 12].
Definition example_P : gset Z := {[1; 2; 3]}.
Definition example_L : gset Z := {[11; 12]}.

Lemma example_fresh : pools_fresh example_P example_L [1; 2; 3] [11; 12].
Proof.
  split.
  - repeat constructor; set_solver.
  - repeat constructor; set_solver.
  - intros a. unfold example_P. set_solver.
  - intros a. unfold example_L. set_solver.
  - unfold example_P, example_L. set_solver.
Qed.

(** The state after an action that returns. *)
Definition after {E A} (m : tcpM E A) (st : tcp E) : tcp E := match m st with Ret (_, st') => st' | _ => st end.

Definition listening_state : tcp unit :=
  after (api_run (ApiAccept 11 (FN_user 70)))
    (after (api_run (ApiListen 1 5)) (after (api_run (ApiBind 1 None 80)) (after (api_run (ApiNew 0)) example_start))).

(** A SYN for port 80, the ACK that follows, with data, and a FIN. *)
Definition example_segment (seqno ackno flags len : Z) : tcp_segment_in :=
  TcpSegmentIn 4000 80 seqno ackno 1000 flags len 500 1 (some_ip 9) (some_ip 5).
Definition syn_segment : tcp_segment_in := example_segment 100 0 TCP_SYN 0.
Definition ack_segment : tcp_segment_in := example_segment 101 6511 TCP_ACK 10.
Definition fin_segment : tcp_segment_in := example_segment 101 6511 (Z.lor TCP_ACK TCP_FIN) 0.

(** Each step of the example, computed. *)
Definition returns {E A} (m : tcpM E A) (st : tcp E) : bool := match m st with Ret _ => true | _ => false end.

Lemma returns_after {E A} (m : tcpM E A) (st : tcp E) : returns m st = true -> exists a, m st = Ret (a, after m st).
Proof. unfold returns, after. destruct (m st) as [[a st']| | |]; try done. intros _. by exists a. Qed.

Notation example_reachable := (tcp_reachable (E := unit) example_P example_L).

Lemma example_call st call :
  example_reachable st -> api_ok st call -> returns (api_run call) st = true -> example_reachable (after (api_run call) st).
Proof.
  intros Hr Hok Hret. destruct (returns_after _ _ Hret) as [r Hrun]. by apply (reach_call _ _ st call r).
Qed.
Lemma example_input st s :
  example_reachable st -> accepting st -> 0 <= in_tot_len s -> returns (tcp_input s) st = true ->
  example_reachable (after (tcp_input s) st).
Proof.
  intros Hr Ha Hl Hret. destruct (returns_after _ _ Hret) as [[] Hrun]. by apply (reach_segment _ _ st s).
Qed.

Definition new_state : tcp unit := after (api_run (ApiNew 0)) example_start.
Definition bound_state : tcp unit := after (api_run (ApiBind 1 None 80)) new_state.

Lemma new_reachable : example_reachable new_state.
Proof. apply example_call; [|done|by vm_compute]. apply reach_start; [apply example_fresh|done]. Qed.
Lemma bound_reachable : example_reachable bound_state.
Proof. apply example_call; [apply new_reachable| |by vm_compute]. eexists. split; [by vm_compute|done]. Qed.
Lemma listening_reachable : example_reachable listening_state.
Proof.
  apply example_call; [apply example_call; [apply bound_reachable| |by vm_compute]| |by vm_compute].
  - split; [by eexists; vm_compute|done].
  - split; [by eexists; vm_compute|done].
Qed.

(** A test of all listeners. *)
Definition accepts (b : tcp_pcb) : bool :=
  match rest b with Listening r => match fn_accept r with FN_accept_null => false | _ => true end | Conn _ => true end.
Lemma accepting_computed {E} (st : tcp E) : forallb (fun x => accepts (snd x)) (map_to_list (pcbs st)) = true -> accepting st.
Proof.
  intros H l b r Hb Hr. rewrite forallb_forall in H. specialize (H (l, b)). cbn in H. unfold accepts in H. rewrite Hr in H.
  assert (match fn_accept r with FN_accept_null => false | _ => true end = true) as Ht.
  { apply H, list_elem_of_In. by apply elem_of_map_to_list. }
  by destruct (fn_accept r).
Qed.

Definition syn_state : tcp unit := after (tcp_input syn_segment) listening_state.
Definition established_state : tcp unit := after (tcp_input ack_segment) syn_state.

Lemma syn_reachable : example_reachable syn_state.
Proof. apply example_input; [apply listening_reachable|apply accepting_computed; by vm_compute|done|by vm_compute]. Qed.
Lemma established_reachable : example_reachable established_state.
Proof. apply example_input; [apply syn_reachable|apply accepting_computed; by vm_compute|done|by vm_compute]. Qed.
Lemma established_accepting : accepting established_state.
Proof. apply accepting_computed. by vm_compute. Qed.

Lemma tcp_reachable_inv_witness :
  ((exists ls, Inv example_P example_L ls ∅ established_state) /\ tcp_input_pcb established_state = 0) /\
  state <$> pcbs established_state !! 1 = Some ESTABLISHED.
Proof. split; [apply (tcp_reachable_inv example_P example_L), established_reachable|by vm_compute]. Defined.

Lemma tcp_never_stuck_witness :
  (exists r st', api_run (ApiWrite 1 600 10 0) established_state = Ret (r, st') /\ example_reachable st') /\
  (exists r st', api_run (ApiClose 1) established_state = Ret (r, st') /\ example_reachable st') /\
  (exists st', tcp_input fin_segment established_state = Ret (tt, st') /\ example_reachable st').
Proof.
  split_and!.
  - apply (tcp_never_stuck example_P example_L established_state established_reachable). eexists _, _. by split; vm_compute.
  - apply (tcp_never_stuck example_P example_L established_state established_reachable). by eexists; vm_compute.
  - apply (tcp_never_stuck example_P example_L established_state established_reachable); [apply established_accepting|done].
Defined.

Lemma tcp_input_dispatch_witness :
  exists ls, demuxed example_P example_L ack_segment ls established_state (tcp_input ack_segment established_state).
Proof.
  destruct (reachable_done example_P example_L established_state established_reachable) as [[ls Hi] _]. exists ls.
  apply (tcp_input_dispatch example_P example_L ack_segment ls established_state Hi). by vm_compute.
Defined.
