(* ===== verification/TcpBindSpec.v ===== *)
(** * What binding does

    Every outcome of [tcp_bind], the ports that [tcp_new_port] hands out, and two
    things that go wrong: the start value of the ports, and binding twice. *)
From S2P Require Import Prelude ByteOrder Lwip Pbuf ChecksumPbuf TcpPcb TcpOut Tcp TcpIn TcpWp TcpLists TcpInv.
From S2P Require Import TcpSteps TcpPools TcpRemove TcpWork TcpClose TcpAlloc TcpBind TcpOpen TcpApi TcpExample.
From S2P Require Import TcpDemux TcpInput TcpSafe.

Notation in_range port := (TCP_LOCAL_PORT_RANGE_START <= port < TCP_LOCAL_PORT_RANGE_END).

(** ** Running out of ports takes as many blocks *)

Lemma ports_exhausted ls (h : gmap Z tcp_pcb) :
  (forall port, in_range port -> port_used ls h port) ->
  TCP_LOCAL_PORT_RANGE_END - TCP_LOCAL_PORT_RANGE_START <= Z.of_nat (size h).
Proof.
  intros Hall. set (ports := seqZ TCP_LOCAL_PORT_RANGE_START (TCP_LOCAL_PORT_RANGE_END - TCP_LOCAL_PORT_RANGE_START)).
  assert (ports ⊆+ ((fun x => local_port (snd x)) <$> map_to_list h)) as Hsub.
  { apply NoDup_submseteq; [apply NoDup_seqZ|]. intros port Hp%elem_of_seqZ.
    destruct (Hall port) as (l & a & b & _ & Hb & Ht); [unfold TCP_LOCAL_PORT_RANGE_START, TCP_LOCAL_PORT_RANGE_END in *; lia|].
    apply Z.eqb_eq in Ht. apply list_elem_of_fmap. exists (a, b). split; [done|]. by apply elem_of_map_to_list. }
  apply submseteq_length in Hsub. unfold ports in Hsub. rewrite length_seqZ, length_fmap, length_map_to_list in Hsub.
  unfold TCP_LOCAL_PORT_RANGE_START, TCP_LOCAL_PORT_RANGE_END in *. lia.
Qed.

Section bind_spec.
Context {E : Type} `{!TcpEnv E} (P L : gset Z).
Implicit Types (st : tcp E) (ls : pcb_list -> list Z).
Notation Inv := (Inv P L).

(** The outcomes of [tcp_bind] for a closed block that is in no list. *)
Inductive bind_outcome ls p (addr : option ip_addr) port st : Z -> tcp E -> Prop :=
  | bind_ok st' b b' a :
      pcbs st !! p = Some b -> pcbs st' !! p = Some b' -> Inv (add_pcb BOUND_PCBS p ls) ∅ st' ->
      zoned (default IP4_ADDR_ANY addr) st = Ret (a, st) -> rest b' = rest b ->
      (port = 0 /\ in_range (local_port b') /\ ~ port_used ls (pcbs st) (local_port b') \/
       port <> 0 /\ local_port b' = port /\ ~ listed_with ls (pcbs st) (bind_conflict a port)) ->
      bind_outcome ls p addr port st ERR_OK st'
  | bind_used st' a :
      pcbs st' = pcbs st -> Inv ls ∅ st' -> zoned (default IP4_ADDR_ANY addr) st = Ret (a, st) ->
      port <> 0 -> listed_with ls (pcbs st) (bind_conflict a port) ->
      bind_outcome ls p addr port st ERR_USE st'
  | bind_no_port st' :
      pcbs st' = pcbs st -> Inv ls ∅ st' -> port = 0 -> (forall q, in_range q -> port_used ls (pcbs st) q) ->
      TCP_LOCAL_PORT_RANGE_END - TCP_LOCAL_PORT_RANGE_START <= Z.of_nat (size (pcbs st)) ->
      bind_outcome ls p addr port st ERR_BUF st'.

(** C17. [tcp_bind] of a closed block that is in no list returns, and has one of three
    outcomes: the block is bound to the port that was asked for, which no block in any
    list stands in the way of, or for port 0 to one of the range that no block has;
    or another block is in the way and nothing changes; or every port of the range is
    used, which takes 16383 blocks, and nothing changes. *)
Theorem tcp_bind_outcome ls p b c addr port st :
  Inv ls ∅ st -> pcbs st !! p = Some b -> rest b = Conn c -> state b = CLOSED -> local_port b = 0 ->
  exists err st', tcp_bind p addr port st = Ret (err, st') /\ bind_outcome ls p addr port st err st'.
Proof.
  intros Hi Hb Hr Hs Hp. pose proof (inv_closed P L ls ∅ st p b c Hi (nex p) Hb Hr Hs) as Hcl.
  destruct (closed_places P L ls ∅ st p b c Hi (nex p) Hb Hcl) as [_ H0].
  destruct (zoned_eq (default IP4_ADDR_ANY addr) st) as (a & Ha & _).
  assert (forall a', zoned (default IP4_ADDR_ANY addr) st = Ret (a', st) -> a' = a) as Hone by (intros a' H; congruence).
  apply (wp_tcp_bind P L ls ∅ p b c); [done|apply nex|done|done|by apply H0|..].
  - intros err st' _ Hi' E1 _ [(-> & -> & Hall)|(Hport & -> & a' & Ha' & Hl)].
    + apply bind_no_port; try done. by apply ports_exhausted in Hall.
    + by apply (bind_used _ _ _ _ _ _ a').
  - intros st' b' Hi' Hb' Hr' _ Hout. apply (bind_ok _ _ _ _ _ _ b b' a); try done; [congruence|].
    destruct Hout as [H|(H1 & H2 & a' & Ha' & H3)]; [by left|right]. by rewrite (Hone a' Ha') in H3.
Qed.
End bind_spec.

(** ** The first port *)

(** C22. When the random number of [tcp_init] has its 14 low bits set, the first port
    is 65535, one past the range: the first call of [tcp_new_port] then answers 0, as
    if there were no port left, a bind to any port fails with [ERR_BUF], and the calls
    that follow hand out the ports from 1 on, which are not in the range. *)
Theorem tcp_init_port_wraps {E} `{!TcpEnv E} rand (e : E) pf lf :
  Z.land rand 16383 = 16383 ->
  let st : tcp E := tcp_started rand e pf lf in
  tcp_port st = 65535 /\ tcp_new_port st = Ret (0, set_tcp_port 0 st) /\
  (forall p b addr, p <> 0 -> state b = CLOSED ->
     exists st', tcp_bind p addr 0 (set_pcbs (<[p := b]> ∅) st) = Ret (ERR_BUF, st')) /\
  (forall k, 0 <= k < TCP_LOCAL_PORT_RANGE_START - 1 -> tcp_new_port (set_tcp_port k st) = Ret (k + 1, set_tcp_port (k + 1) st)).
Proof.
  intros Hr st. assert (tcp_port st = 65535) as Hp.
  { unfold st, tcp_started. cbn. destruct (ensure_range rand) as [-> _]. rewrite Hr. done. }
  assert (forall (h : tcp E) k, tcp_port h = k -> 0 <= k < 65536 -> u16 (k + 1) <> 65535 -> heads h = heads st ->
    tcp_new_port h = Ret (u16 (k + 1), set_tcp_port (u16 (k + 1)) h)) as Hnew.
  { intros [h fp fl hd pt ti tc i0 ch ib rf en] k Hk Hb Hne Hh. cbn in Hk, Hh. subst pt hd.
    unfold tcp_new_port, new_port_fuel. change (Z.to_nat _) with (S (Z.to_nat 16383)). cbn [new_port_loop].
    unfold mbind, tcpM_bind, gets, modify, mret, tcpM_ret. cbn [tcp_port].
    change TCP_LOCAL_PORT_RANGE_END with 65535. destruct (Z.eqb_spec (u16 (k + 1)) 65535); [done|].
    unfold tcp_pcb_lists, port_in_use, mbind, tcpM_bind, list_fuel, gets. by cbn. }
  split; [done|]. split; [|split].
  - rewrite (Hnew st 65535); try done.
  - intros p b addr Hp0 Hs. unfold tcp_bind. destruct (Z.eqb_spec p 0); [done|].
    rewrite (bind_run (load p) _ b _ (set_pcbs (<[p := b]> ∅) st)).
    2: { unfold load. cbn. by rewrite lookup_insert_eq. }
    rewrite (bool_decide_eq_true_2 _ Hs). cbn [negb Z.eqb].
    destruct (zoned_eq (default IP4_ADDR_ANY addr) (set_pcbs (<[p := b]> ∅) st)) as (a & Ha & _).
    rewrite (bind_run _ _ a _ _ Ha), (bind_run tcp_new_port _ 0 _ (set_tcp_port 0 (set_pcbs (<[p := b]> ∅) st))).
    { by eexists. }
    by rewrite (Hnew _ 65535).
  - intros k Hk. unfold TCP_LOCAL_PORT_RANGE_START in Hk.
    assert (u16 (k + 1) = k + 1) as Hu by (unfold u16; rewrite Z.mod_small; lia).
    rewrite (Hnew (set_tcp_port k st) k); rewrite ?Hu; try done; lia.
Qed.

(** ** Binding twice *)

(** [xs] are the blocks from [p] up to [q], which is not one of the path. *)
Fixpoint path (h : gmap Z tcp_pcb) (xs : list Z) (p q : Z) : Prop :=
  match xs with
  | [] => p = q
  | a :: xs => p = a /\ a <> 0 /\ exists b, h !! a = Some b /\ path h xs (next b) q
  end.

Lemma chain_path h zs p tl q : chain h (zs ++ p :: tl) q -> path h zs q p.
Proof.
  revert q. induction zs as [|z zs IH]; intros q; cbn; [by intros [-> _]|].
  intros (-> & Hz & b & Hb & Hc). split_and!; [done..|]. exists b. auto.
Qed.
Lemma path_insert h zs p b q r : p ∉ zs -> path h zs q r -> path (<[p := b]> h) zs q r.
Proof.
  revert q. induction zs as [|z zs IH]; intros q Hp; [done|]. intros (-> & Hz & b' & Hb & Hc). split_and!; [done..|].
  exists b'. rewrite lookup_insert_ne by set_solver. split; [done|]. apply IH; [set_solver|done].
Qed.

Section twice.
Context {E : Type} `{!TcpEnv E} (P L : gset Z).
Implicit Types (st : tcp E) (ls : pcb_list -> list Z).
Notation Inv := (Inv P L).

(** A search along a path that leads back to its start does not end. *)
Lemma cyclic_search st test p zs xs q :
  path (pcbs st) (p :: zs) p p -> path (pcbs st) xs q p -> xs ⊆ p :: zs ->
  (forall a b, a ∈ p :: zs -> pcbs st !! a = Some b -> test b = false) ->
  forall fuel, pcb_find fuel test q st = NoFuel.
Proof.
  intros Hcyc Hq Hsub Ht fuel. revert xs q Hq Hsub. induction fuel as [|fuel IH]; intros xs q Hq Hsub; [done|].
  assert (exists x xs', path (pcbs st) (x :: xs') q p /\ x :: xs' ⊆ p :: zs) as (x & xs' & (-> & Hx0 & b & Hb & Hp') & Hsub').
  { destruct xs as [|x xs]; [|by exists x, xs]. cbn in Hq. subst q. by exists p, zs. }
  cbn [pcb_find]. destruct (Z.eqb_spec x 0); [done|].
  rewrite (bind_run (load x) _ b st st) by (unfold load; by rewrite Hb).
  rewrite (Ht x b); [|apply Hsub'; by left|done]. apply (IH xs'); [done|]. set_solver.
Qed.

(** The end of [tcp_bind] for a block that is not looked at. *)
Lemma wp_rebind_tail p b ipaddr new (Q : Z -> tcp E -> Prop) st :
  pcbs st !! p = Some b ->
  (forall st' b', pcbs st' = <[p := b']> (pcbs st) -> next b' = heads st BOUND_PCBS -> heads st' BOUND_PCBS = p -> Q ERR_OK st') ->
  wp ((if negb (ip_addr_isany ipaddr) || negb (ip_type ipaddr =? ip_type (local_ip (ip b))) then
         store p (fun b => set_ip (set_local_ip (ip_addr_copy ipaddr) (ip b)) b)
       else mret tt) ;;
      store p (set_local_port new) ;;
      TCP_REG BOUND_PCBS p ;;
      mret ERR_OK) Q st.
Proof.
  intros Hb HQ. assert (forall h b1, h !! p = Some b1 -> (forall b', <[p := b']> h = <[p := b']> (pcbs st)) ->
    wp (store p (set_local_port new) ;; TCP_REG BOUND_PCBS p ;; mret ERR_OK) Q (set_pcbs h st)) as Hgo.
  { intros h b1 Hb1 Hh. apply wp_bind, (wp_store p _ b1); [done|]. unfold TCP_REG. apply wp_bind, wp_bind, wp_gets, wp_bind.
    apply (wp_store p _ (set_local_port new b1)); [apply lookup_insert_eq|].
    apply wp_bind, wp_modify, wp_bind, wp_gets, wp_bind, wp_gets, wp_effect, wp_ret.
    apply (HQ _ (set_next (heads st BOUND_PCBS) (set_local_port new b1))); [|done|apply fn_lookup_insert].
    cbn. by rewrite insert_insert_eq. }
  apply wp_bind. destruct (_ || _).
  - apply (wp_store p _ b); [done|]. eapply Hgo; [apply lookup_insert_eq|]. intros b'. apply insert_insert_eq.
  - apply wp_ret. replace st with (set_pcbs (pcbs st) st) by by destruct st. by apply (Hgo (pcbs st) b).
Qed.

(** C21. A block that is bound already can be bound again ([tcp_bind] only looks at its
    state).  It is then in the list twice: the list leads from it over the blocks that
    were in front of it back to itself, those behind it are lost, and a search along
    the list that none of them ends - in the next bind to another port, for example -
    never ends, however long it runs. *)
Theorem tcp_bind_twice_cyclic ls zs tl p addr port st st' :
  Inv ls ∅ st -> ls BOUND_PCBS = zs ++ p :: tl -> tcp_bind p addr port st = Ret (ERR_OK, st') ->
  heads st' BOUND_PCBS = p /\ path (pcbs st') (p :: zs) p p /\
  forall fuel test, (forall a b, a ∈ p :: zs -> pcbs st' !! a = Some b -> test b = false) ->
    pcb_find fuel test (heads st' BOUND_PCBS) st' = NoFuel.
Proof.
  intros Hi Hl Hrun. pose proof (inv_lists _ _ _ _ _ Hi) as [Hc Hn _]. specialize (Hc BOUND_PCBS). specialize (Hn BOUND_PCBS).
  rewrite Hl in Hc, Hn. destruct (chain_after _ _ _ _ _ Hc) as (b & Hb & Hp0 & _).
  assert (p ∈ ls BOUND_PCBS) as Hp by (rewrite Hl; set_solver).
  pose proof (inv_placed _ _ _ _ _ _ (Some BOUND_PCBS) b Hi Hp Hb (nex p)) as (Hs & _).
  assert (wp (tcp_bind p addr port) (fun err st' => err = ERR_OK -> exists b', pcbs st' = <[p := b']> (pcbs st) /\
    next b' = heads st BOUND_PCBS /\ heads st' BOUND_PCBS = p) st) as (err & st2 & Hrun2 & Hfacts).
  { unfold tcp_bind. destruct (Z.eqb_spec p 0); [done|]. apply wp_bind, (wp_load p b); [done|].
    rewrite (bool_decide_eq_true_2 _ Hs). cbn [negb].
    destruct (zoned_eq (default IP4_ADDR_ANY addr) st) as (a & _ & Hza). apply wp_bind, Hza, wp_bind.
    destruct (Z.eqb_spec port 0) as [->|Hport].
    - apply (wp_tcp_new_port ls); [apply Hi..| |by intros; apply wp_ret].
      intros new Hnew _. destruct (Z.eqb_spec new 0); [by apply wp_ret|]. apply wp_bind, wp_ret.
      apply wp_rebind_tail; [done|]. intros st2 b' H1 H2 H3 _. by exists b'.
    - apply wp_ret. destruct (Z.eqb_spec port 0); [done|].
      apply wp_bind, (wp_address_in_use ls); [apply Hi|by intros _; apply wp_ret|]. intros _.
      apply wp_rebind_tail; [done|]. intros st2 b' H1 H2 H3 _. by exists b'. }
  rewrite Hrun in Hrun2. injection Hrun2 as <- <-. destruct (Hfacts eq_refl) as (b' & E1 & E2 & E3).
  assert (p ∉ zs) as Hpz by (apply NoDup_app in Hn as (_ & Hd & _); intros H; apply (Hd p H); by left).
  assert (path (pcbs st') (p :: zs) p p) as Hcyc.
  { split_and!; [done..|]. exists b'. rewrite E1, lookup_insert_eq. split; [done|]. rewrite E2.
    apply path_insert; [done|]. by apply (chain_path _ _ _ tl). }
  split_and!; [done..|]. intros fuel test Ht. rewrite E3. by apply (cyclic_search st' test p zs (p :: zs)).
Qed.
End twice.

(** ** Examples *)

Lemma tcp_bind_outcome_witness : exists ls err st',
  tcp_bind 1 None 80 new_state = Ret (err, st') /\ bind_outcome example_P example_L ls 1 None 80 new_state err st'.
Proof.
  destruct (reachable_done example_P example_L new_state new_reachable) as [[ls Hi] _]. exists ls.
  eapply (tcp_bind_outcome example_P example_L ls 1); [exact Hi|vm_compute; reflexivity|reflexivity..].
Defined.

Lemma tcp_init_port_wraps_witness :
  tcp_new_port (tcp_started 16383 tt [1] []) = Ret (0, set_tcp_port 0 (tcp_started 16383 tt [1] [])).
Proof. apply (tcp_init_port_wraps 16383 tt [1] []). reflexivity. Defined.

Definition bound_twice : tcp unit := after (tcp_bind 1 None 81) bound_state.

Lemma tcp_bind_twice_cyclic_witness :
  pcb_find 1000 (bind_conflict any_ip 5000) (heads bound_twice BOUND_PCBS) bound_twice = NoFuel.
Proof.
  destruct (reachable_done example_P example_L bound_state bound_reachable) as [[ls Hi] _].
  pose proof (lists_chain _ _ (inv_lists _ _ _ _ _ Hi) BOUND_PCBS) as Hc.
  assert (ls BOUND_PCBS = [] ++ 1 :: []) as Hl.
  { apply (chain_unique _ _ [1] _ Hc). vm_compute. split_and!; [done..|]. by eexists. }
  eapply (tcp_bind_twice_cyclic example_P example_L ls [] [] 1 None 81 bound_state bound_twice Hi Hl); [by vm_compute|].
  intros a b Ha. apply list_elem_of_singleton in Ha as ->. vm_compute. by intros [= <-].
Defined.
