(* ===== verification/TcpAllocSpec.v ===== *)
(** * What allocating a connection does

    The block that is free, or one that was made free at the cost of connections of
    little value; which one goes when priorities decide. *)
From S2P Require Import Prelude ByteOrder Lwip Pbuf ChecksumPbuf TcpPcb TcpOut Tcp TcpIn TcpWp TcpLists TcpInv.
From S2P Require Import TcpSteps TcpPools TcpRemove TcpWork TcpClose TcpAlloc TcpBind TcpOpen TcpApi TcpExample.
From S2P Require Import TcpDemux TcpInput TcpSafe.

(** ** Which connection goes *)

Section victim.
Context (ticks : Z).

(** [b] is worth less than [b'], or as much and inactive for no shorter time. *)
Definition before_in_line (b b' : tcp_pcb) : Prop :=
  prio b < prio b' \/ prio b = prio b' /\ inactivity_of ticks b' <= inactivity_of ticks b.

Lemma inactivity_nonneg b : 0 <= inactivity_of ticks b.
Proof. unfold inactivity_of. destruct (rest b); [|done]. unfold u32. apply Z.mod_pos_bound. lia. Qed.

Lemma before_in_line_trans b1 b2 b3 : before_in_line b1 b2 -> before_in_line b2 b3 -> before_in_line b1 b3.
Proof. unfold before_in_line. lia. Qed.

(** The candidate so far. *)
Definition candidate (m : Z) (seen : list (Z * tcp_pcb)) (r : Z * Z * Z) : Prop :=
  let '(a, i, mp) := r in
  (a = 0 /\ i = 0 /\ mp = m /\ forall p b, (p, b) ∈ seen -> m < prio b) \/
  (a <> 0 /\ exists b, (a, b) ∈ seen /\ prio b = mp /\ inactivity_of ticks b = i /\ mp <= m /\
     forall p b', (p, b') ∈ seen -> before_in_line b b').

Lemma kill_prio_step_candidate m seen r p b :
  p <> 0 -> candidate m seen r -> candidate m (seen ++ [(p, b)]) (kill_prio_step ticks r p b).
Proof.
  destruct r as [[a i] mp]. intros Hp Hr. pose proof (inactivity_nonneg b) as Hnn. unfold kill_prio_step.
  destruct ((prio b <? mp) || ((prio b =? mp) && (i <=? inactivity_of ticks b))) eqn:Ht.
  - right. split; [done|]. exists b. split; [set_solver|]. split; [done|]. split; [done|].
    destruct Hr as [(-> & -> & -> & Hall)|(Ha & b0 & Hb0 & Hm & Hi & Hle & Hall)]; (split; [lia|]).
    all: intros p' b' [H|H%list_elem_of_singleton]%elem_of_app; [|injection H as -> ->; right; split; [done|lia]].
    + apply Hall in H. left. lia.
    + apply (before_in_line_trans _ b0); [unfold before_in_line; lia|by apply (Hall p')].
  - destruct Hr as [(-> & -> & -> & Hall)|(Ha & b0 & Hb0 & Hm & Hi & Hle & Hall)]; [left|right].
    + split_and!; try done. intros p' b' [H|H%list_elem_of_singleton]%elem_of_app; [by apply (Hall p')|]. injection H as -> ->. lia.
    + split; [done|]. exists b0. split; [set_solver|]. split_and!; try done.
      intros p' b' [H|H%list_elem_of_singleton]%elem_of_app; [by apply (Hall p')|]. injection H as -> ->.
      unfold before_in_line. lia.
Qed.

Lemma kill_prio_candidate m seen todo r :
  (forall p b, (p, b) ∈ todo -> p <> 0) -> candidate m seen r ->
  candidate m (seen ++ todo) (foldl (fun r '(p, b) => kill_prio_step ticks r p b) r todo).
Proof.
  revert seen r. induction todo as [|[p b] todo IH]; intros seen r H0 Hr; cbn; [by rewrite app_nil_r|].
  change ((p, b) :: todo) with ([(p, b)] ++ todo). rewrite app_assoc. apply IH.
  - intros p' b' H. apply (H0 p' b'). by right.
  - apply kill_prio_step_candidate; [|done]. apply (H0 p b). by left.
Qed.
End victim.

Section alloc_spec.
Context {E : Type} `{!TcpEnv E} (P L : gset Z).
Implicit Types (st : tcp E) (ls : pcb_list -> list Z).
Notation Inv := (Inv P L).

(** C19. [tcp_kill_prio] aborts an active connection of a lower priority than the one
    asked for when there is one: of those with the lowest priority one that has been
    inactive longest; otherwise it does nothing. *)
Theorem tcp_kill_prio_victim ls prio' st :
  Inv ls ∅ st -> 0 < prio' ->
  (tcp_kill_prio prio' st = Ret (tt, st) /\
     forall p b, p ∈ ls ACTIVE_PCBS -> pcbs st !! p = Some b -> Z.min TCP_PRIO_MAX prio' <= prio b) \/
  exists a b, tcp_kill_prio prio' st = tcp_abort a st /\ a ∈ ls ACTIVE_PCBS /\ pcbs st !! a = Some b /\
    prio b < Z.min TCP_PRIO_MAX prio' /\
    forall p b', p ∈ ls ACTIVE_PCBS -> pcbs st !! p = Some b' -> before_in_line (tcp_ticks st) b b'.
Proof.
  intros Hi Hpr. pose proof (inv_lists _ _ _ _ _ Hi) as [Hc Hn _]. specialize (Hc ACTIVE_PCBS). specialize (Hn ACTIVE_PCBS).
  set (m := Z.min TCP_PRIO_MAX prio'). set (xs := blocks (pcbs st) (ls ACTIVE_PCBS)).
  pose proof (kill_prio_candidate (tcp_ticks st) (m - 1) [] xs (0, 0, m - 1)) as Hcand.
  assert (wp (pcb_fold (S (size (pcbs st))) (kill_prio_step (tcp_ticks st)) (0, 0, m - 1) (heads st ACTIVE_PCBS))
    (fun r st' => st' = st /\ candidate (tcp_ticks st) (m - 1) xs r) st) as ([[a i] mp] & st' & Hrun & -> & Hr).
  { apply (pcb_fold_spec _ _ (ls ACTIVE_PCBS)); [pose proof (chain_length _ _ _ Hn Hc); lia|done|]. split; [done|].
    apply Hcand; [|left; split_and!; try done; intros p b H; by apply not_elem_of_nil in H].
    intros p b [Hp _]%blocks_elem. by apply (chain_in _ _ _ _ Hc). }
  assert (tcp_kill_prio prio' st = (if a =? 0 then mret tt else tcp_abort a) st) as ->.
  { unfold tcp_kill_prio. fold m. destruct (Z.eqb_spec m 0) as [H0|_]; [unfold m, TCP_PRIO_MAX in H0; lia|].
    rewrite (bind_run list_fuel _ (S (size (pcbs st))) st st) by done.
    rewrite (bind_run (gets (fun st => heads st ACTIVE_PCBS)) _ (heads st ACTIVE_PCBS) st st) by done.
    rewrite (bind_run (gets tcp_ticks) _ (tcp_ticks st) st st) by done. by rewrite (bind_run _ _ _ st st Hrun). }
  destruct Hr as [(-> & _ & _ & Hall)|(Ha & b & Hb & Hmp & _ & Hle & Hall)].
  - left. split; [done|]. intros p b Hp Hb. assert (m - 1 < prio b); [|lia]. apply (Hall p). by apply blocks_elem.
  - right. destruct (Z.eqb_spec a 0); [done|]. apply blocks_elem in Hb as [Hina Hb]. exists a, b.
    split_and!; try done; [lia|]. intros p b' Hp Hb'. apply (Hall p). by apply blocks_elem.
Qed.

(** C18. [tcp_alloc] returns.  With a free element it takes the first one and changes
    nothing else.  Otherwise it may close and abort connections, and keeps the
    invariant and every listener; it answers [NULL], or a block that was not in use,
    is in no list and holds what a new connection holds. *)
Theorem tcp_alloc_outcome ls prio' st :
  Inv ls ∅ st ->
  (forall a fl, pcb_free st = a :: fl ->
     tcp_alloc prio' st = Ret (a, set_pcbs (<[a := initial_pcb prio' (tcp_ticks st) (tcp_timer_ctr st)]> (pcbs st))
                                  (set_pcb_free fl st)) /\ pcbs st !! a = None) /\
  exists a ls' st', tcp_alloc prio' st = Ret (a, st') /\ Inv ls' ∅ st' /\ ls' LISTEN_PCBS = ls LISTEN_PCBS /\
    (a = 0 \/ (exists t ctr, pcbs st' !! a = Some (initial_pcb prio' t ctr)) /\ forall l, a ∉ ls' l).
Proof.
  intros Hi. split.
  - intros a fl Hf. destruct Hi as [_ _ [_ Hfree _ _] _ (_ & H0 & _) _].
    assert (a ∈ pcb_free st) as Ha by (rewrite Hf; by left). destruct (Hfree a Ha) as [HaP Hn]. split; [|done].
    unfold tcp_alloc, memp_malloc_pcb, or_after. unfold mbind, tcpM_bind. rewrite Hf.
    assert ((a =? 0) = false) as Ha0 by (apply Z.eqb_neq; congruence). by repeat (cbn; rewrite ?Ha0).
  - assert (wp (tcp_alloc prio') (fun a st' => exists ls', Inv ls' ∅ st' /\ ls' LISTEN_PCBS = ls LISTEN_PCBS /\
      (a = 0 \/ (exists t ctr, pcbs st' !! a = Some (initial_pcb prio' t ctr)) /\ forall l, a ∉ ls' l)) st)
      as (a & st' & Hrun & ls' & H); [|by exists a, ls', st'].
    apply (wp_tcp_alloc P L ls ∅ prio'); [done|apply lists_settled_empty|..].
    + intros ls' st' [Hi' _ Hl _]. exists ls'. auto.
    + intros a ls' st' t ctr [Hi' _ Hl _] Ha Hb Hno. exists ls'. split_and!; try done. right. split; [by exists t, ctr|done].
Qed.
End alloc_spec.

(** ** Examples *)

Lemma tcp_kill_prio_victim_witness : tcp_kill_prio 100 established_state = tcp_abort 1 established_state.
Proof.
  destruct (reachable_done example_P example_L established_state established_reachable) as [[ls Hi] _].
  pose proof (lists_chain _ _ (inv_lists _ _ _ _ _ Hi) ACTIVE_PCBS) as Hc.
  assert (ls ACTIVE_PCBS = [1]) as Hl.
  { apply (chain_unique _ _ [1] _ Hc). vm_compute. split_and!; [done..|]. by eexists. }
  destruct (tcp_kill_prio_victim example_P example_L ls 100 established_state Hi) as [[_ Hall]|(a & b & Hrun & Ha & _)]; [done|..].
  - exfalso. eapply (Hall 1); [rewrite Hl; by left|vm_compute; reflexivity|reflexivity].
  - rewrite Hl in Ha. apply list_elem_of_singleton in Ha as ->. exact Hrun.
Defined.

Lemma tcp_alloc_outcome_witness : exists st', tcp_alloc 64 established_state = Ret (2, st') /\ pcb_free established_state = [2; 3].
Proof.
  destruct (reachable_done example_P example_L established_state established_reachable) as [[ls Hi] _].
  destruct (tcp_alloc_outcome example_P example_L ls 64 established_state Hi) as [Hfree _].
  destruct (Hfree 2 [3]) as [Hrun _]; [by vm_compute|]. eexists. split; [exact Hrun|by vm_compute].
Defined.
